(* ===== verification/_CoqProject ===== *)
-Q . S2P
Prelude.v
Convert.v
HaltReason.v
MemTypes.v
Fault.v
Memops.v
ObjectQueue.v
ObjectWorker.v
Fabric.v
PageTable.v
IoMMU.v
ExclusiveMonitor.v
LookupCache.v
MemAccess.v
GuestMemory.v
ScalarAccess.v
FfiSupport.v
RefCount.v
PageAlloc.v
EntryOps.v
TableOps.v
AddressSpace.v
Machine.v
Arena.v
Ir.v
IrSem.v
IrEmit.v
IrLogic.v
IrArith.v
IrTyping.v
IrBuilt.v
IrBuilder.v
IrRun.v
IrRange.v
Tarjan.v
SccGraph.v
HaltCheck.v
HaltSplit.v
HaltInv.v
HaltProcess.v
HaltMerge.v
HaltTrace.v
HaltPass.v
HaltSound.v
HaltSim.v
BlockOrder.v
IrFinished.v
TarStream.v
TarBudget.v
TarDelivery.v
BackEnd.v
CheckKeeps.v
Clif.v
CraneliftLower.v
CraneliftHost.v
CraneliftSample.v
CraneliftCode.v
CraneliftEmit.v
CraneliftStmt.v
CraneliftFunc.v
CraneliftBlocks.v
CraneliftNew.v
CraneliftSim.v
CraneliftCorrect.v
CraneliftPass.v
Gcc.v
GccLower.v
GccHost.v
GccCode.v
GccArith.v
GccEmit.v
GccStmt.v
GccEffect.v
GccFunc.v
GccBlocks.v
GccSim.v
GccNew.v
GccSample.v
GccCorrect.v
GccPass.v
