(* ===== verification/Prelude.v ===== *)
(** * A verification of rapid-arm-emu

    rapid-arm-emu emulates AArch64 guests by translating them to an intermediate
    representation (IR) that it compiles with Cranelift or GCC.  This library
    models its crates [emu-abi], [io-mmu] and [jit-compiler-core] as far as their
    source says what they do, up to the translation to Cranelift and to C, and the
    streaming reader of [code-generator], and proves what makes each part correct.

    ** The parts and how they interact

    - Vocabulary ([src/emu-abi]).  [Convert] has the checked integer conversions
      of [convert.rs], [HaltReason] the packed halt reason and the atomic word
      through which another thread stops a CPU, [MemTypes] the protections, page
      numbers, tagged pointers, address-space identifiers and TLB of [memory.rs].
    - Memory primitives ([src/io-mmu/src/memops.rs]): [Memops], on a finite map
      of the host bytes that are readable and writable.
    - Shared state ([src/io-mmu/src/cpu_fabric], and the page allocations of
      [page_table.rs]).  [ObjectQueue] is the object manager's queue,
      [ObjectWorker] its worker and the clients as steps as fine as what they share,
      [Fabric] the record all address spaces of a
      machine share (host memory, counted pages, object slots, identifiers, the
      queue), [ExclusiveMonitor] the hashed and versioned reservation buckets.
    - Address spaces ([page_table.rs] and [lib.rs] of [io-mmu]).  [PageTable] has
      the page sources, entries and tables, [IoMMU] the mapping operations,
      [LookupCache] the translation caches behind a type class with laws,
      [MemAccess] the guest accesses, generic in the cache.
    - Compiled code's runtime ([src/jit-compiler-core/src/exec_context.rs] and
      [ir/ffi_support.rs]): [Fault] (the fault and its FFI slot) and [FfiSupport]
      (the load, store and exclusive helpers), over all of the above.
    - The IR ([src/jit-compiler-core/src/arena.rs], [ir/mod.rs]).  [Arena] has the
      handles and the containers keyed by them, [Ir] the types, statements,
      blocks and the builder, [IrEmit] the emitters, [IrSem] an interpreter that
      gives the IR the meaning its documentation promises, [IrBuilder] the
      builder's public methods as one type of operations.
    - The halt-check pass ([ir/halt_check_pass.rs]): [Tarjan], [SccGraph] and
      [HaltCheck]; the compile order and [build] ([ir/mod.rs]): [BlockOrder].
    - The Cranelift back end ([compiler/cranelift_backend.rs]): [CraneliftLower]
      is [FunctionLowering], function by function, over [Clif]: the types,
      instructions and builder of Cranelift as a type class with laws.
      [CraneliftHost] says what Cranelift documents its instructions to do, on a
      machine that is again a type class with laws; [CraneliftSample] has an
      instance of each.
    - The GCC back end ([compiler/gcc_backend.rs]): [GccLower] is its
      [FunctionLowering], over [Gcc]: the types, expressions and statements of
      libgccjit, its recording calls as a type class with laws, and the meaning of
      a recorded function as a C program without undefined behaviour.  [GccHost]
      says what that program assumes of its machine, again as a class with laws;
      [GccSample] has an instance of each.
    - [BackEnd] has what both back ends share: which functions are compiled
      ([compilable]), a finished function and its order, loops and environments.
    - The streaming archive reader
      ([src/code-generator/src/instruction_parser/tar_ball.rs]): [TarStream] has
      the reader of a file, the budget of bytes in flight and the reading thread.

    Rust's [usize] is 64 bits wide.  A computation on a state is an [SM S A] of
    this file; a panic, an abort and undefined behaviour are all [None], so a
    theorem that an operation returns [Some] says that none of them happens.
    Integers are [Z] with their bounds as hypotheses ([fits w z]) and wrap-around
    written out.  Heap objects are named by their addresses; the strong count of
    an [Arc] is a field.

    ** What the theorems show

    - Guest memory.  [GuestMemory] gives the specification of an access (a
      translation of every guest address, and byte-by-byte access through it)
      and proves bulk loads and stores against it on every branch;
      [ScalarAccess] does the same for bytes, half-words, words, double-words
      and instruction fetch, and shows that scalar stores miss the copy-on-write
      check.  [Memops] has the alignment-splitting and chunked primitives equal
      the little-endian bytes.
    - Ownership.  [RefCount], [PageAlloc], [EntryOps] and [TableOps] keep the
      invariant that reference counts are exactly the references held;
      [AddressSpace] states the contract of each mapping operation and proves
      it; [Machine] composes them: reachable machines never free too early, too
      late or twice.
    - Concurrency.  [HaltReason], [ObjectWorker] and [ExclusiveMonitor] are step
      systems; their theorems hold for every interleaving.  [ObjectQueue]: over any
      sequence of calls the queue is a FIFO of tasks, one per slot.  [ObjectWorker]:
      every callback is called exactly once, with an outcome the worker's operations
      justify.  [FfiSupport] shows that an exclusive pair is one atomic step and that
      an undisturbed one succeeds.
    - Arithmetic of emitted code.  [IrLogic] is a program logic for emitters;
      [IrArith] uses it for division, the flag-setting operations and the shifts
      by constants: what they emit computes the architecture's result.
    - Types of the IR.  [IrTyping] says what it is for a function under
      construction to be well typed and shows that every primitive step of the
      builder keeps it, [IrBuilt] has rules for sequences and one lemma for each
      emitter, [IrBuilder] concludes for every sequence of public methods: all
      is well typed but for what jumps pass, and that too where callers pass what
      targets expect, which the methods do not check.  [IrRun]
      shows that running a well-typed function keeps the types, and [IrRange] that
      every value then is one of its type, within its width.
    - Containers.  [Arena]: handle-keyed maps and sets behave as finite maps and
      sets, and where they panic.
    - The halt-check pass.  [Tarjan] and [SccGraph]: the components, their order
      and the check on cycles.  [HaltSplit] describes one split of a block,
      [HaltInv] the invariant that ties the mutated IR to the original one (each
      original block is a chain of pieces), [HaltProcess] one block
      and the pending edges, [HaltMerge] the merging of states with its
      compensating checks, [HaltTrace] the soundness of the states on the
      original graph, [HaltPass] one component, and [HaltSound] the whole pass:
      it ends, panics exactly on a cycle without a safepoint, and bounds the
      safepoints between two halt checks on every path.  [HaltSim] is a forward
      simulation: the pass preserves what the code does.
    - Building.  [BlockOrder]: the compile order is complete and forward except
      along cycles.  [IrFinished] composes everything: from the builder's methods
      through the pass to what [build] returns.
    - Compiling.  [CraneliftCode] runs the instructions emitted for each kind of
      statement and compares them with the IR's meaning; [CraneliftEmit] has the
      rules for code that emits instructions, [CraneliftStmt] a specification of
      [lower_rvalue], [CraneliftFunc] of a statement and a terminator,
      [CraneliftBlocks] and [CraneliftNew] of the whole function; [CraneliftSim]
      is the forward simulation from the IR to the code, and [CraneliftCorrect]
      concludes: the translation does not panic, says when it can fail, and its
      code does what the IR does.  [CheckKeeps] shows that the pass keeps a
      function compilable, and [CraneliftPass] composes: from the builder's methods
      to machine code.
    - Compiling to C.  [GccCode] has the rules for evaluating expressions and for
      runs, [GccArith] the arithmetic the back end emits in terms of C's,
      [GccEmit] the invariant of a translation and what recording does, [GccStmt]
      and [GccEffect] a specification of [lower_rvalue] for each kind of
      statement, [GccFunc] of [lower_stmt], [GccBlocks] of jumps and terminators,
      [GccNew] of [new]; [GccSim] is the forward simulation, and [GccCorrect]
      concludes, for the functions described below: the translation always succeeds
      and the C function does what the IR does; and it shows a function with a jump for which it does not; [GccPass]
      composes as [CraneliftPass] does, from the builder's methods through [build]
      to the C function, the halt checks adding no shift to a run.
    - Streaming.  [TarBudget]: whatever the channels do, the thread ends, its
      budget is conserved and no assertion fails; [TarDelivery]: what a file's
      reader returns, in one call or in reads of any sizes, is the file.
    ** Fuel and bounds

    Loops whose recursion is not structural take fuel, and a theorem says that
    what the code gives them is enough: one unit per block for the search for
    components, one per component for the ordering, one per statement for the
    loop that splits a block.  The graph theorems are for at most 64 blocks
    because a handle set that was not sized in advance panics beyond its first
    word ([Arena]); above 64 blocks the pass is shown to panic.
    Counters that the source lets overflow only after [2^64] or [2^128] steps
    carry that bound as a hypothesis; allocation theorems assume that handles or
    addresses are left ([room]).

    ** Parameters

    The translation of guest addresses is the code's own; what is not under
    [src/] is a parameter: the embedder's memory objects and its error type, the
    order in which hash sets hand out their elements, the host's byte order, the
    layout of the structures compiled code addresses, the timing of channels,
    Cranelift's builder ([Clif.FunctionBuilder], with [FunctionBuilderLaws]) and
    the machine its code runs on ([CraneliftHost.Host], with [HostLaws]: how values
    are represented in registers, where things are, and that a memory instruction
    does what the IR's access to that place does), and libgccjit
    ([Gcc.GccContext], with [GccContextLaws]) and the machine a C program runs on
    ([GccHost.GccHost], with [GccHostLaws]).

    The theorems on the Cranelift back end are for what [CraneliftFunc.fn_lowerable]
    describes: stack slots aligned to powers of two, fields in the range of their Rust
    types, no plain access through a guest pointer, no negation of a boolean (which is emitted wrongly, as [CraneliftCorrect] shows), and the outcome of a
    tag test, whose register is as wide as the pointer, used as a condition only.  The
    ones on runs assume that the translation returned a function and that stack slots
    lie where the frame has them ([frame_placed]).

    The theorems on the GCC back end are for what [GccBlocks.gcc_fn_ok] describes: no
    negation of a boolean, shifts by an amount of the shifted type, no output that
    is an operand of a statement with two outputs, codes of 32 bits, offsets,
    tag masks and slots within the range of their fields, and no jump that passes on a
    parameter it has assigned; for states of their widths ([world_ok]); for runs whose [Shift]s are by less
    than the width ([GccSim.shifts_fit]); and for slots that lie where their
    variables do ([placed]).

    ** Not modelled

    - The LLVM back end, which is not written yet ([llvm_backend.rs]).  Of the
      Cranelift one: the ISA flags, the thread's scratch context, the memory that
      holds the code and the disassembly; of the GCC one: the options of the
      context and handing out the compiled code.  What Cranelift, GCC and the
      processor make of the code is assumed to be what their documentation says.
    - The rest of the [code-generator] crate: a build-time tool that downloads and
      parses the vendor's XML.
    - Memory objects ([memory_object/]): a trait for the embedder and an
      implementation that is operating-system I/O.
    - Threads as such: creation, joining and condition variables; formatting;
      the inline assembly of [memops.rs], which the portable code stands for. *)

(** ** This file: machine integers, results, the panic monad and the lemmas and
    tactics the components share. *)

From stdpp Require Export base tactics option list numbers gmap sets.
From Stdlib Require Export ZArith Lia.

Create HintDb emu.
Declare Scope emu_scope.
Delimit Scope emu_scope with emu.
Local Open Scope Z_scope.

(** ** Results and panics *)

(** Rust's [Result<T, E>]. *)
Inductive Result (T E : Type) : Type :=
  | Ok (value : T)
  | Err (error : E).
Arguments Ok {T E} _.
Arguments Err {T E} _.

Definition Result_map {T U E} (f : T -> U) (r : Result T E) : Result U E :=
  match r with Ok v => Ok (f v) | Err e => Err e end.

(** The [?] operator on a pure [Result]. *)
Definition Result_bind {T U E} (r : Result T E) (k : T -> Result U E) : Result U E :=
  match r with Ok v => k v | Err e => Err e end.

Notation "'let?' x := r 'in' k" := (Result_bind r (fun x => k))
  (at level 10, x pattern, r at level 100, k at level 200) : emu_scope.

#[export] Instance Result_eq_dec {T E} `{EqDecision T, EqDecision E} :
  EqDecision (Result T E).
Proof. solve_decision. Defined.

(** A computation on a state [S] that may panic, abort or hit undefined
    behaviour: all three are [None], there is no state afterwards. *)
Definition SM (S A : Type) : Type := S -> option (A * S).

Definition sm_ret {S A} (a : A) : SM S A := fun s => Some (a, s).
Definition sm_panic {S A} : SM S A := fun _ => None.
Definition sm_bind {S A B} (m : SM S A) (k : A -> SM S B) : SM S B := fun s =>
  match m s with Some (a, s') => k a s' | None => None end.
Definition sm_get {S} : SM S S := fun s => Some (s, s).
Definition sm_put {S} (s : S) : SM S unit := fun _ => Some (tt, s).
Definition sm_modify {S} (f : S -> S) : SM S unit := fun s => Some (tt, f s).
Definition sm_of_option {S A} (o : option A) : SM S A := fun s =>
  match o with Some a => Some (a, s) | None => None end.
Definition sm_assert {S} (b : bool) : SM S unit :=
  if b then sm_ret tt else sm_panic.

(** [Result_bind] inside the state monad: an [Err] returns early and keeps the
    state reached so far, which is what [?] does. *)
Definition sm_try {S A B E} (m : SM S (Result A E)) (k : A -> SM S (Result B E)) :
    SM S (Result B E) :=
  sm_bind m (fun r => match r with Ok a => k a | Err e => sm_ret (Err e) end).

Notation "'let!' x := m 'in' k" := (sm_bind m (fun x => k))
  (at level 10, x pattern, m at level 100, k at level 200) : emu_scope.
Notation "'let!?' x := m 'in' k" := (sm_try m (fun x => k))
  (at level 10, x pattern, m at level 100, k at level 200) : emu_scope.
Notation "m ;;! k" := (sm_bind m (fun _ => k))
  (at level 100, k at level 200, right associativity) : emu_scope.

(** [for x in l { body(x) }], stopping at the first panic. *)
Fixpoint sm_for {S A} (l : list A) (body : A -> SM S unit) : SM S unit :=
  match l with
  | [] => sm_ret tt
  | x :: l => sm_bind (body x) (fun _ => sm_for l body)
  end.

(** Running one step of a computation. *)
Lemma sm_bind_run {S A B} (m : SM S A) (k : A -> SM S B) s a s' :
  m s = Some (a, s') -> sm_bind m k s = k a s'.
Proof. unfold sm_bind. by intros ->. Qed.

Lemma sm_for_run {S A} x (l : list A) (body : A -> SM S unit) s s' :
  body x s = Some (tt, s') -> sm_for (x :: l) body s = sm_for l body s'.
Proof. simpl. unfold sm_bind. by intros ->. Qed.

(** What every step of a loop keeps, the loop keeps. *)
Lemma sm_for_keeps {S A} (P : S -> Prop) (l : list A) (body : A -> SM S unit) s s' u :
  (forall x s s' u, x ∈ l -> P s -> body x s = Some (u, s') -> P s') ->
  P s -> sm_for l body s = Some (u, s') -> P s'.
Proof.
  revert s. induction l as [|x l IH]; intros s Hb Hp; simpl; [intros H; unfold sm_ret in H; by simplify_eq|].
  unfold sm_bind. destruct (body x s) as [[u1 s1]|] eqn:E; [|done].
  apply IH; [intros y s0 s0' u0 Hy; apply Hb; by right|]. eapply (Hb x); [by left|done..].
Qed.

(** ** Machine integers: a [w]-bit unsigned integer is a [Z] in [0, 2^w) *)

Definition fits (w z : Z) : Prop := 0 <= z < 2 ^ w.

#[export] Instance fits_dec w z : Decision (fits w z).
Proof. unfold fits. apply _. Defined.

Definition wrap (w z : Z) : Z := z mod 2 ^ w.
Definition wrapping_add (w a b : Z) : Z := wrap w (a + b).
Definition wrapping_sub (w a b : Z) : Z := wrap w (a - b).
Definition wrapping_mul (w a b : Z) : Z := wrap w (a * b).
Definition overflowing_add (w a b : Z) : Z * bool := (wrap w (a + b), 2 ^ w <=? a + b).
Definition checked_add (w a b : Z) : option Z :=
  if a + b <? 2 ^ w then Some (a + b) else None.
Definition checked_sub (a b : Z) : option Z := if b <=? a then Some (a - b) else None.
(** [!a] on a [w]-bit integer. *)
Definition bitnot (w a : Z) : Z := Z.lxor a (Z.ones w).
Definition is_multiple_of (a b : Z) : bool := a mod b =? 0.
(** [int as T] for a [w]-bit unsigned target. *)
Definition as_uint (w z : Z) : Z := wrap w z.

Definition U64_MAX : Z := 2 ^ 64 - 1.
(** [usize::BITS]: the 64-bit hosts the emulator supports. *)
Definition USIZE_BITS : Z := 64.

Lemma wrap_fits w z : 0 <= w -> fits w (wrap w z).
Proof. intros. unfold fits, wrap. apply Z.mod_pos_bound. lia. Qed.

Lemma wrap_small w z : fits w z -> wrap w z = z.
Proof. apply Z.mod_small. Qed.

Lemma land_ones_mod z n : 0 <= n -> Z.land z (2 ^ n - 1) = z mod 2 ^ n.
Proof. intros. rewrite <- Z.land_ones by done. by rewrite Z.ones_equiv, Z.sub_1_r. Qed.

Lemma fits_testbit_high w z i : fits w z -> w <= i -> Z.testbit z i = false.
Proof.
  intros [H0 H1] Hi. destruct (decide (z = 0)) as [->|]; [apply Z.testbit_0_l|].
  apply Z.bits_above_log2; [done|]. apply Z.log2_lt_pow2 in H1; lia.
Qed.

Lemma fits_of_testbit w z :
  0 <= w -> 0 <= z -> (forall i, w <= i -> Z.testbit z i = false) -> fits w z.
Proof.
  intros Hw Hz H. split; [done|]. destruct (decide (z = 0)) as [->|]; [lia|].
  apply Z.log2_lt_pow2; [lia|]. destruct (decide (Z.log2 z < w)); [done|].
  pose proof (Z.bit_log2 z ltac:(lia)) as Hb. rewrite H in Hb; [done|lia].
Qed.

Lemma lor_fits w a b : 0 <= w -> fits w a -> fits w b -> fits w (Z.lor a b).
Proof.
  intros Hw Ha Hb. apply fits_of_testbit; [done|apply Z.lor_nonneg; unfold fits in *; lia|].
  intros i Hi. by rewrite Z.lor_spec, !(fits_testbit_high w) by done.
Qed.

Lemma land_fits_l w a b : 0 <= w -> fits w a -> 0 <= b -> fits w (Z.land a b).
Proof.
  intros Hw Ha Hb. apply fits_of_testbit; [done|apply Z.land_nonneg; unfold fits in *; lia|].
  intros i Hi. by rewrite Z.land_spec, (fits_testbit_high w a).
Qed.

(** Sets of at most [w] flag bits are numerals below [2^w]: facts about them are
    settled by enumeration. *)
Lemma fits_In w z : 0 <= w -> fits w z -> z ∈ seqZ 0 (2 ^ w).
Proof. intros ? [??]. apply elem_of_seqZ. lia. Qed.

Ltac enum_bits H :=
  let H' := fresh in
  match type of H with
  | fits ?w ?z => assert (z ∈ seqZ 0 (2 ^ w)) as H' by (apply fits_In; [lia|exact H])
  end;
  cbv -[elem_of] in H';
  repeat (apply elem_of_cons in H' as [->|H']; [try done|]);
  try (by apply elem_of_nil in H').

(** Bits of a multiple of [2^n] and of a value below [2^n] do not meet. *)
Lemma land_aligned_low n a b :
  0 <= n -> a mod 2 ^ n = 0 -> fits n b -> Z.land a b = 0.
Proof.
  intros Hn Ha Hb. apply Z.bits_inj'; intros i Hi. rewrite Z.land_spec, Z.testbit_0_l.
  destruct (decide (i < n)).
  - replace (Z.testbit a i) with false; [done|].
    apply Z.mod_divide in Ha as [c ->]; [|lia].
    rewrite <- Z.shiftl_mul_pow2 by done. by rewrite Z.shiftl_spec_low.
  - rewrite (fits_testbit_high n b) by (done || lia). apply andb_false_r.
Qed.

Lemma lor_aligned_low n a b :
  0 <= n -> a mod 2 ^ n = 0 -> fits n b -> Z.lor a b = a + b.
Proof.
  intros Hn Ha Hb. rewrite <- Z.lxor_lor by by apply (land_aligned_low n).
  symmetry. apply Z.add_nocarry_lxor. by apply (land_aligned_low n).
Qed.

(** ** Byte strings *)

Inductive Endian := Little | Big.

#[export] Instance Endian_eq_dec : EqDecision Endian.
Proof. solve_decision. Defined.

Definition is_byte (b : Z) : Prop := fits 8 b.

(** [uN::from_le_bytes] and [uN::to_le_bytes] for an [n]-byte integer. *)
Fixpoint from_le_bytes (l : list Z) : Z :=
  match l with [] => 0 | b :: l => b + 256 * from_le_bytes l end.

Fixpoint to_le_bytes (n : nat) (z : Z) : list Z :=
  match n with O => [] | S n => z mod 256 :: to_le_bytes n (z / 256) end.

Definition from_ne_bytes (e : Endian) (l : list Z) : Z :=
  match e with Little => from_le_bytes l | Big => from_le_bytes (rev l) end.
Definition to_ne_bytes (e : Endian) (n : nat) (z : Z) : list Z :=
  match e with Little => to_le_bytes n z | Big => rev (to_le_bytes n z) end.

(** [uN::from_le] and [uN::to_le]: a byte swap on big-endian hosts. *)
Definition swap_bytes (n : nat) (z : Z) : Z := from_le_bytes (rev (to_le_bytes n z)).
Definition from_le (e : Endian) (n : nat) (z : Z) : Z :=
  match e with Little => z | Big => swap_bytes n z end.
Definition to_le (e : Endian) (n : nat) (z : Z) : Z :=
  match e with Little => z | Big => swap_bytes n z end.

Definition bits_of_bytes (n : nat) : Z := 8 * Z.of_nat n.

Lemma bits_of_bytes_S n : 2 ^ bits_of_bytes (S n) = 256 * 2 ^ bits_of_bytes n.
Proof.
  unfold bits_of_bytes. replace (8 * Z.of_nat (S n)) with (8 + 8 * Z.of_nat n) by lia.
  by rewrite Z.pow_add_r by lia.
Qed.

Lemma bits_of_bytes_add n m :
  2 ^ bits_of_bytes (n + m) = 2 ^ bits_of_bytes n * 2 ^ bits_of_bytes m.
Proof. unfold bits_of_bytes. rewrite <- Z.pow_add_r by lia. f_equal; lia. Qed.

Lemma bits_of_bytes_pos n : 0 < 2 ^ bits_of_bytes n.
Proof. apply Z.pow_pos_nonneg; unfold bits_of_bytes; lia. Qed.

Lemma length_to_le_bytes n z : length (to_le_bytes n z) = n.
Proof. revert z. induction n; intros; simpl; auto. Qed.

Lemma to_le_bytes_is_byte n z : Forall is_byte (to_le_bytes n z).
Proof.
  revert z. induction n; intros; simpl; constructor; [|done].
  unfold is_byte, fits. apply Z.mod_pos_bound; lia.
Qed.

Lemma from_le_bytes_fits l :
  Forall is_byte l -> fits (bits_of_bytes (length l)) (from_le_bytes l).
Proof.
  induction 1 as [|b l Hb _ IH]; simpl; [done|].
  unfold is_byte, fits in *. rewrite bits_of_bytes_S. change (2 ^ 8) with 256 in *. lia.
Qed.

Lemma from_le_bytes_app l1 l2 :
  from_le_bytes (l1 ++ l2) =
  from_le_bytes l1 + 2 ^ bits_of_bytes (length l1) * from_le_bytes l2.
Proof.
  induction l1 as [|b l1 IH]; simpl; [unfold bits_of_bytes; simpl; lia|].
  rewrite IH, bits_of_bytes_S. lia.
Qed.

Lemma from_to_le_bytes n z : from_le_bytes (to_le_bytes n z) = wrap (bits_of_bytes n) z.
Proof.
  unfold wrap. revert z. induction n as [|n IH]; intros z; simpl.
  - unfold bits_of_bytes; simpl. by rewrite Z.mod_1_r.
  - rewrite IH, bits_of_bytes_S. pose proof (bits_of_bytes_pos n).
    by rewrite Z.rem_mul_r by lia.
Qed.

Lemma to_from_le_bytes l :
  Forall is_byte l -> to_le_bytes (length l) (from_le_bytes l) = l.
Proof.
  induction 1 as [|b l Hb _ IH]; simpl; [done|].
  unfold is_byte, fits in Hb. change (2 ^ 8) with 256 in Hb.
  rewrite (Z.mul_comm 256), Z.mod_add, Z.mod_small by lia.
  rewrite Z.div_add, Z.div_small by lia. by rewrite Z.add_0_l, IH.
Qed.

Lemma to_le_bytes_app n m z :
  to_le_bytes (n + m) z = to_le_bytes n z ++ to_le_bytes m (z / 2 ^ bits_of_bytes n).
Proof.
  revert z. induction n as [|n IH]; intros z; simpl.
  - unfold bits_of_bytes; simpl. by rewrite Z.div_1_r.
  - rewrite IH, bits_of_bytes_S. pose proof (bits_of_bytes_pos n).
    by rewrite Z.div_div by lia.
Qed.

Lemma to_le_bytes_wrap n z : to_le_bytes n (wrap (bits_of_bytes n) z) = to_le_bytes n z.
Proof.
  rewrite <- from_to_le_bytes. rewrite <- (length_to_le_bytes n z) at 1.
  apply to_from_le_bytes, to_le_bytes_is_byte.
Qed.

Lemma swap_bytes_involutive n z :
  fits (bits_of_bytes n) z -> swap_bytes n (swap_bytes n z) = z.
Proof.
  intros Hz. unfold swap_bytes.
  assert (length (rev (to_le_bytes n z)) = n) as Hlen.
  { by rewrite length_rev, length_to_le_bytes. }
  rewrite <- Hlen at 1. rewrite to_from_le_bytes.
  - rewrite rev_involutive, from_to_le_bytes. by apply wrap_small.
  - apply Forall_rev, to_le_bytes_is_byte.
Qed.

Lemma from_to_le e n z : fits (bits_of_bytes n) z -> from_le e n (to_le e n z) = z.
Proof. intros. destruct e; [done|]. by apply swap_bytes_involutive. Qed.

Lemma length_to_ne_bytes e n z : length (to_ne_bytes e n z) = n.
Proof. destruct e; simpl; rewrite ?length_rev; apply length_to_le_bytes. Qed.

Lemma from_to_ne_bytes e n z :
  fits (bits_of_bytes n) z -> from_ne_bytes e (to_ne_bytes e n z) = z.
Proof.
  intros. destruct e; simpl; rewrite ?rev_involutive, from_to_le_bytes;
    by apply wrap_small.
Qed.

Lemma to_ne_bytes_is_byte e n z : Forall is_byte (to_ne_bytes e n z).
Proof. destruct e; simpl; try apply Forall_rev; apply to_le_bytes_is_byte. Qed.

Lemma to_from_ne_bytes e n l :
  length l = n -> Forall is_byte l -> to_ne_bytes e n (from_ne_bytes e l) = l.
Proof.
  intros <- Hl. destruct e; simpl; [by apply to_from_le_bytes|].
  rewrite <- (length_rev l), to_from_le_bytes by by apply Forall_rev.
  apply rev_involutive.
Qed.

(** The low and high parts of a little-endian word. *)
Lemma from_le_bytes_take_drop k l :
  Forall is_byte l -> (k <= length l)%nat ->
  from_le_bytes l mod 2 ^ bits_of_bytes k = from_le_bytes (take k l) /\
  from_le_bytes l / 2 ^ bits_of_bytes k = from_le_bytes (drop k l).
Proof.
  intros Hl Hk. rewrite <- (take_drop k l) at 1 3. rewrite from_le_bytes_app, length_take_le by done.
  pose proof (bits_of_bytes_pos k).
  assert (fits (bits_of_bytes k) (from_le_bytes (take k l))) as Hf.
  { rewrite <- (length_take_le l k) at 1 by done. by apply from_le_bytes_fits, Forall_take. }
  rewrite (Z.mul_comm (2 ^ _)), Z.mod_add, Z.div_add by lia.
  unfold fits in Hf. by rewrite Z.mod_small, Z.div_small, Z.add_0_l by done.
Qed.

(** Reading little-endian memory natively and byte swapping is reading the
    bytes in little-endian order, whatever the host. *)
Lemma from_le_from_ne_bytes e l :
  Forall is_byte l -> from_le e (length l) (from_ne_bytes e l) = from_le_bytes l.
Proof.
  intros Hl. destruct e; [done|]. simpl. unfold swap_bytes.
  replace (length l) with (length (rev l)) by apply length_rev.
  rewrite to_from_le_bytes by by apply Forall_rev. by rewrite rev_involutive.
Qed.

Lemma to_ne_bytes_to_le e n z : to_ne_bytes e n (to_le e n z) = to_le_bytes n z.
Proof.
  destruct e; [done|]. simpl. unfold swap_bytes.
  assert (length (rev (to_le_bytes n z)) = n) as Hlen.
  { by rewrite length_rev, length_to_le_bytes. }
  rewrite <- Hlen at 1. rewrite to_from_le_bytes.
  - by rewrite rev_involutive.
  - apply Forall_rev, to_le_bytes_is_byte.
Qed.

#[export] Hint Resolve to_le_bytes_is_byte from_le_bytes_fits wrap_fits : emu.

(** Closes range goals on machine integers: unfolds the range predicates,
    evaluates the powers of two and calls [lia]. *)
Ltac solve_fits :=
  unfold is_byte, fits, bits_of_bytes, USIZE_BITS in *; simpl in *; lia.

(** ** Lists *)

Lemma Forall2_impl_elem {A B} (P Q : A -> B -> Prop) l k :
  Forall2 P l k -> (forall x y, x ∈ l -> P x y -> Q x y) -> Forall2 Q l k.
Proof.
  induction 1 as [|x y l k Hxy _ IH]; intros HPQ; constructor.
  - apply HPQ; [by apply elem_of_cons; left|done].
  - apply IH. intros x' y' Hx'. apply HPQ. by apply elem_of_cons; right.
Qed.
