(* ===== verification/Convert.v ===== *)
(** * Checked integer conversions ([emu-abi/src/convert.rs])

    One definition per macro of the file, instantiated at the widths the file
    lists; the width of [usize] is the prelude's [USIZE_BITS]. *)

From S2P Require Import Prelude.
Local Open Scope Z_scope.

(** [make_checked_usize_cast!]: [None] when the value does not fit. *)
Definition checked_usize_cast (from_bits to_bits int : Z) : option Z :=
  if from_bits <=? to_bits then Some (as_uint to_bits int)
  else
    let max := as_uint from_bits (2 ^ to_bits - 1) in
    if max <? int then None else Some (as_uint to_bits int).

(** [make_unchecked_cast!]: asserts that the target is at least as wide. *)
Definition unchecked_cast (from_bits to_bits int : Z) : option Z :=
  if from_bits <=? to_bits then Some (as_uint to_bits int) else None.

Definition usize_to_u64 (int : Z) : option Z := checked_usize_cast USIZE_BITS 64 int.
Definition u64_to_usize (int : Z) : option Z := checked_usize_cast 64 USIZE_BITS int.
Definition usize_to_u32 (int : Z) : option Z := checked_usize_cast USIZE_BITS 32 int.
Definition u32_to_usize (int : Z) : option Z := checked_usize_cast 32 USIZE_BITS int.
Definition usize_to_u8 (int : Z) : option Z := checked_usize_cast USIZE_BITS 8 int.
Definition u8_to_usize (int : Z) : option Z := unchecked_cast 8 USIZE_BITS int.

(** [u64_add_usize]: [None] if the sum does not fit in a [u64]. *)
Definition u64_add_usize (x y : Z) : option Z :=
  match usize_to_u64 y with Some y => checked_add 64 x y | None => None end.

(** The cast is the identity where the value fits the target and refuses
    everything else: it never truncates. *)
Lemma checked_usize_cast_spec from_bits to_bits int :
  0 <= from_bits -> 0 <= to_bits -> fits from_bits int ->
  checked_usize_cast from_bits to_bits int =
    if decide (fits to_bits int) then Some int else None.
Proof.
  intros Hf Ht Hi. unfold checked_usize_cast, as_uint.
  destruct (Z.leb_spec from_bits to_bits) as [Hle|Hlt].
  - assert (fits to_bits int).
    { unfold fits in *. pose proof (Z.pow_le_mono_r 2 from_bits to_bits). lia. }
    rewrite decide_True by done. by rewrite wrap_small.
  - assert (fits from_bits (2 ^ to_bits - 1)).
    { unfold fits. pose proof (Z.pow_lt_mono_r 2 to_bits from_bits).
      pose proof (Z.pow_pos_nonneg 2 to_bits). lia. }
    rewrite (wrap_small from_bits) by done. unfold fits in *.
    destruct (Z.ltb_spec (2 ^ to_bits - 1) int).
    + by rewrite decide_False by lia.
    + rewrite decide_True by lia. rewrite wrap_small; [done|unfold fits; lia].
Qed.

Lemma u64_to_usize_id v : fits 64 v -> u64_to_usize v = Some v.
Proof. intros. unfold u64_to_usize. rewrite checked_usize_cast_spec by done. by case_decide. Qed.

Lemma usize_to_u64_id v : fits 64 v -> usize_to_u64 v = Some v.
Proof. intros. unfold usize_to_u64. rewrite checked_usize_cast_spec by done. by case_decide. Qed.

Lemma u64_add_usize_spec x y :
  fits 64 x -> fits 64 y ->
  u64_add_usize x y = if decide (fits 64 (x + y)) then Some (x + y) else None.
Proof.
  intros Hx Hy. unfold u64_add_usize. rewrite usize_to_u64_id by done.
  unfold checked_add, fits in *. destruct (Z.ltb_spec (x + y) (2 ^ 64)).
  - by rewrite decide_True by lia.
  - by rewrite decide_False by lia.
Qed.




