(* ===== verification/HaltReason.v ===== *)
(** * Halt reasons ([emu-abi/src/halt_reason.rs])

    A [HaltReason] is a packed (opcode, metadata) pair that is stored in one
    [u32]; [AtomicHaltReason] is the word through which another thread stops a
    CPU.  Every operation on that word is a single atomic read-modify-write, so
    a concurrent execution is an interleaving of the operations below. *)

From S2P Require Import Prelude.
Local Open Scope Z_scope.

Record HaltReason := mkHaltReason {
  opcode : Z;     (* NonZero<u16> *)
  metadata : Z;   (* u16 *)
}.

#[export] Instance HaltReason_eq_dec : EqDecision HaltReason.
Proof. solve_decision. Defined.

Definition HaltReason_wf (r : HaltReason) : Prop :=
  0 < opcode r < 2 ^ 16 /\ fits 16 (metadata r).

#[export] Instance HaltReason_wf_dec r : Decision (HaltReason_wf r).
Proof. unfold HaltReason_wf. apply _. Defined.

Definition HaltReason_new (opcode metadata : Z) : HaltReason := mkHaltReason opcode metadata.

Definition OPCODE_INVALID_INSN : Z := 1.
Definition OPCODE_FLUSH_INSN_CACHE : Z := 2.
Definition OPCODE_UNALIGNED_PC : Z := 3.
Definition OPCODE_MEMORY_TRAP : Z := 4.
Definition OPCODE_IPI : Z := 5.
Definition IPI_SYNC_TAG : Z := 1.

Definition FLUSH_INSN_CACHE : HaltReason := HaltReason_new OPCODE_FLUSH_INSN_CACHE 0.
Definition INVALID_INSN : HaltReason := HaltReason_new OPCODE_INVALID_INSN 0.
Definition UNALIGNED_PC : HaltReason := HaltReason_new OPCODE_UNALIGNED_PC 0.
Definition memory_trap (access_size_in_bytes : Z) : HaltReason :=
  HaltReason_new OPCODE_MEMORY_TRAP access_size_in_bytes.
Definition IPI_SYNC : HaltReason := HaltReason_new OPCODE_IPI IPI_SYNC_TAG.

Section Repr.
(** [#[repr(C)]] lays [opcode] out before [metadata]; which half of the
    transmuted word it becomes depends on the host. *)
Context (e : Endian).

Definition as_nz_u32 (r : HaltReason) : Z :=
  from_ne_bytes e (to_ne_bytes e 2 (opcode r) ++ to_ne_bytes e 2 (metadata r)).

Definition from_u32 (bits : Z) : HaltReason :=
  let b := to_ne_bytes e 4 bits in
  mkHaltReason (from_ne_bytes e (take 2 b)) (from_ne_bytes e (drop 2 b)).

(** [PartialEq], [Ord] and the overridden [max], [min] and [clamp]. *)
Definition HaltReason_eqb (a b : HaltReason) : bool := as_nz_u32 a =? as_nz_u32 b.
Definition HaltReason_cmp (a b : HaltReason) : comparison :=
  Z.compare (as_nz_u32 a) (as_nz_u32 b).
Definition HaltReason_max (a b : HaltReason) : HaltReason :=
  from_u32 (Z.max (as_nz_u32 a) (as_nz_u32 b)).
Definition HaltReason_min (a b : HaltReason) : HaltReason :=
  from_u32 (Z.min (as_nz_u32 a) (as_nz_u32 b)).
(** [Ord::clamp] panics when [min > max]. *)
Definition HaltReason_clamp (this min max : HaltReason) : option HaltReason :=
  let this := as_nz_u32 this in
  let min := as_nz_u32 min in
  let max := as_nz_u32 max in
  if max <? min then None
  else Some (from_u32 (if this <? min then min else if max <? this then max else this)).

(** ** The atomic word *)

(** [AtomicU32] holding 0 when nothing is pending. *)
Definition AtomicHaltReason := Z.

Definition AtomicHaltReason_new : AtomicHaltReason := 0.

Definition halt (a : AtomicHaltReason) (reason : HaltReason) : AtomicHaltReason :=
  as_nz_u32 reason.

Definition take_halt (a : AtomicHaltReason) : option HaltReason * AtomicHaltReason :=
  (if a =? 0 then None else Some (from_u32 a), 0).

Definition try_signal_sync (a : AtomicHaltReason) : bool * AtomicHaltReason :=
  let trap := as_nz_u32 IPI_SYNC in
  if a =? 0 then (true, trap) else (false, a).

(** ** Runs: interleavings of the three operations *)

Inductive halt_event :=
  | EvHalt (reason : HaltReason)
  | EvTake (result : option HaltReason)
  | EvSync (signalled : bool).

Inductive halt_step : AtomicHaltReason -> halt_event -> AtomicHaltReason -> Prop :=
  | step_halt a r : HaltReason_wf r -> halt_step a (EvHalt r) (halt a r)
  | step_take a : halt_step a (EvTake (take_halt a).1) (take_halt a).2
  | step_sync a : halt_step a (EvSync (try_signal_sync a).1) (try_signal_sync a).2.

Inductive halt_run : AtomicHaltReason -> list halt_event -> AtomicHaltReason -> Prop :=
  | run_nil a : halt_run a [] a
  | run_snoc a evs b ev c :
      halt_run a evs b -> halt_step b ev c -> halt_run a (evs ++ [ev]) c.

(** The abstract contract: the reason pending after a history of events is
    the last one stored since the last [take]; a sync signal never replaces
    a pending reason. *)
Definition pending_after (p : option HaltReason) (ev : halt_event) : option HaltReason :=
  match ev with
  | EvHalt r => Some r
  | EvTake _ => None
  | EvSync _ => match p with Some r => Some r | None => Some IPI_SYNC end
  end.
Definition pending (evs : list halt_event) : option HaltReason :=
  foldl pending_after None evs.

(** What each event may report, given what was pending. *)
Definition event_ok (p : option HaltReason) (ev : halt_event) : Prop :=
  match ev with
  | EvHalt _ => True
  | EvTake res => res = p
  | EvSync ok => ok = bool_decide (p = None)
  end.
End Repr.

(** ** Representation *)

Lemma as_nz_u32_alt e r :
  HaltReason_wf r ->
  as_nz_u32 e r = match e with
                  | Little => opcode r + 2 ^ 16 * metadata r
                  | Big => metadata r + 2 ^ 16 * opcode r
                  end.
Proof.
  intros [[H1 H2] H3]. unfold as_nz_u32. destruct e; unfold from_ne_bytes, to_ne_bytes.
  - rewrite from_le_bytes_app, !from_to_le_bytes, length_to_le_bytes.
    rewrite !wrap_small by (done || solve_fits). done.
  - rewrite rev_app_distr, !rev_involutive.
    rewrite from_le_bytes_app, !from_to_le_bytes, length_to_le_bytes.
    rewrite !wrap_small by (done || solve_fits). done.
Qed.

Lemma as_nz_u32_range e r :
  HaltReason_wf r -> 0 < as_nz_u32 e r < 2 ^ 32.
Proof.
  intros Hr. rewrite as_nz_u32_alt by done. destruct Hr as [? Hm]. unfold fits in Hm.
  destruct e; lia.
Qed.

Lemma from_u32_as_nz_u32 e r : HaltReason_wf r -> from_u32 e (as_nz_u32 e r) = r.
Proof.
  intros [[H1 H2] H3]. unfold from_u32, as_nz_u32. destruct r as [o m]; simpl in *.
  rewrite to_from_ne_bytes.
  - rewrite take_app_length', drop_app_length' by (symmetry; apply length_to_ne_bytes).
    f_equal; apply from_to_ne_bytes; [solve_fits|done].
  - by rewrite length_app, !length_to_ne_bytes.
  - apply Forall_app; auto using to_ne_bytes_is_byte.
Qed.

Lemma as_nz_u32_inj e r1 r2 :
  HaltReason_wf r1 -> HaltReason_wf r2 -> as_nz_u32 e r1 = as_nz_u32 e r2 -> r1 = r2.
Proof.
  intros H1 H2 Heq. rewrite <- (from_u32_as_nz_u32 e r1), <- (from_u32_as_nz_u32 e r2) by done.
  by rewrite Heq.
Qed.

#[export] Hint Resolve as_nz_u32_range : emu.

Lemma IPI_SYNC_wf : HaltReason_wf IPI_SYNC.
Proof. by apply (bool_decide_unpack _). Qed.
#[export] Hint Resolve IPI_SYNC_wf : emu.

(** The cell after a history holds the abstract pending reason. *)
Definition cell_rel (e : Endian) (a : AtomicHaltReason) (p : option HaltReason) : Prop :=
  match p with
  | None => a = 0
  | Some r => HaltReason_wf r /\ a = as_nz_u32 e r
  end.

Lemma halt_step_refines e a ev b p :
  cell_rel e a p -> halt_step e a ev b -> cell_rel e b (pending_after p ev) /\ event_ok p ev.
Proof.
  intros Hrel Hstep. inversion Hstep; subst; simpl.
  - done.
  - split; [done|]. destruct p as [r|]; simpl in *; [|by subst].
    destruct Hrel as [Hr ->]. pose proof (as_nz_u32_range e r Hr).
    rewrite (proj2 (Z.eqb_neq _ 0)) by lia. by rewrite from_u32_as_nz_u32.
  - unfold try_signal_sync. destruct p as [r|]; simpl in *.
    + destruct Hrel as [Hr ->]. pose proof (as_nz_u32_range e r Hr).
      rewrite (proj2 (Z.eqb_neq _ 0)) by lia. done.
    + subst. simpl. eauto with emu.
Qed.

(** ** Properties *)

(** Packing a halt reason into its word and unpacking it again gives the
    same reason, the word is a non-zero [u32] (so 0 is free to mean "nothing
    pending"), and the comparison of reasons is the equality of records. *)
Theorem halt_reason_roundtrip e r1 r2 :
  HaltReason_wf r1 -> HaltReason_wf r2 ->
  from_u32 e (as_nz_u32 e r1) = r1 /\
  0 < as_nz_u32 e r1 < 2 ^ 32 /\
  (HaltReason_eqb e r1 r2 = true <-> r1 = r2).
Proof.
  intros H1 H2. split; [by apply from_u32_as_nz_u32|]. split; [by apply as_nz_u32_range|].
  unfold HaltReason_eqb. rewrite Z.eqb_eq. split; [by apply as_nz_u32_inj|congruence].
Qed.

Lemma halt_reason_roundtrip_witness :
  from_u32 Big (as_nz_u32 Big (memory_trap 8)) = memory_trap 8 /\
  0 < as_nz_u32 Big (memory_trap 8) < 2 ^ 32 /\
  (HaltReason_eqb Big (memory_trap 8) IPI_SYNC = true <-> memory_trap 8 = IPI_SYNC).
Proof.
  apply (halt_reason_roundtrip Big (memory_trap 8) IPI_SYNC);
    apply (bool_decide_unpack _); reflexivity.
Defined.

(** C30: in every interleaving of [halt], [take] and [try_signal_sync] from a
    fresh cell, the cell holds exactly the last reason stored since the last
    [take]; [take] returns it, and a sync signal is accepted exactly when
    nothing is pending, so no stored reason is lost or overwritten by it. *)
Theorem atomic_halt_reason_refines e evs a :
  halt_run e AtomicHaltReason_new evs a ->
  cell_rel e a (pending evs) /\
  (forall evs1 ev evs2, evs = evs1 ++ ev :: evs2 -> event_ok (pending evs1) ev).
Proof.
  intros Hrun. remember AtomicHaltReason_new as a0 eqn:Ha0.
  induction Hrun as [a|a evs b ev c Hrun IH Hstep]; subst.
  { split; [done|]. intros evs1 ev evs2 H. by destruct evs1. }
  destruct (IH eq_refl) as [Hrel Hok]. clear IH.
  destruct (halt_step_refines e b ev c _ Hrel Hstep) as [Hrel' Hev]. split.
  - unfold pending. rewrite foldl_app. exact Hrel'.
  - intros evs1 ev' evs2 Heq. destruct evs2 as [|x evs2 _] using rev_ind.
    + apply app_inj_tail in Heq as [-> ->]. done.
    + rewrite app_comm_cons, app_assoc in Heq. apply app_inj_tail in Heq as [-> ->].
      by apply (Hok evs1 ev' evs2).
Qed.

Lemma atomic_halt_reason_refines_witness :
  let evs := [EvSync true; EvSync false; EvHalt (memory_trap 4); EvTake (Some (memory_trap 4))] in
  halt_run Little AtomicHaltReason_new evs 0 /\
  cell_rel Little 0 (pending evs) /\
  (forall evs1 ev evs2, evs = evs1 ++ ev :: evs2 -> event_ok (pending evs1) ev).
Proof.
  set (evs := [EvSync true; EvSync false; EvHalt (memory_trap 4); EvTake (Some (memory_trap 4))]).
  assert (halt_run Little AtomicHaltReason_new evs 0) as Hrun.
  { apply (run_snoc _ _ [EvSync true; EvSync false; EvHalt (memory_trap 4)]
             (as_nz_u32 Little (memory_trap 4))); [|exact (step_take Little (as_nz_u32 Little (memory_trap 4)))].
    apply (run_snoc _ _ [EvSync true; EvSync false] (as_nz_u32 Little IPI_SYNC));
      [|apply step_halt; apply (bool_decide_unpack _); reflexivity].
    apply (run_snoc _ _ [EvSync true] (as_nz_u32 Little IPI_SYNC));
      [|exact (step_sync Little (as_nz_u32 Little IPI_SYNC))].
    apply (run_snoc _ _ [] 0); [apply run_nil|exact (step_sync Little 0)]. }
  split; [exact Hrun|]. exact (atomic_halt_reason_refines Little evs 0 Hrun).
Defined.
