(* ===== verification/MemTypes.v ===== *)
(** * Memory vocabulary ([emu-abi/src/memory.rs])

    Page geometry, protection bits and flags, page numbers, tagged page
    pointers, address-space identifiers and the TLB.  Host pointers are
    addresses ([Z]); the [AtomicU8] a [Page] borrows for its dirty state is
    named by a location ([positive]), its contents live in the state of the
    component that owns it. *)

From S2P Require Import Prelude Convert.
Local Open Scope Z_scope.
Local Open Scope emu_scope.

(** ** Page geometry *)

Definition is_power_of_two (z : Z) : bool := (0 <? z) && (Z.land z (z - 1) =? 0).

(** [NonZero::trailing_zeros]. *)
Fixpoint pos_trailing_zeros (p : positive) : Z :=
  match p with xO p => 1 + pos_trailing_zeros p | _ => 0 end.
Definition trailing_zeros (z : Z) : Z :=
  match z with Zpos p => pos_trailing_zeros p | _ => 0 end.

(** The const functions panic at compile time: [None]. *)
Definition compute_shift (power_of_2 : Z) : option Z :=
  if power_of_2 =? 0 then None
  else if is_power_of_two power_of_2 then
    let bits := trailing_zeros power_of_2 in
    if bits <? 24 then Some (as_uint 8 bits) else None
  else None.

Definition compute_mask (size : Z) : option Z :=
  if is_power_of_two size then checked_sub size 1 else None.

Definition PAGE_SIZE_U64 : Z := 4096.
Definition PAGE_SIZE : Z := Eval cbv in default 0 (u64_to_usize PAGE_SIZE_U64).
Definition PAGE_SHIFT : Z := Eval cbv in default 0 (compute_shift PAGE_SIZE_U64).
Definition PAGE_OFFSET_MASK_U64 : Z := Eval cbv in default 0 (compute_mask PAGE_SIZE_U64).
Definition PAGE_OFFSET_MASK : Z :=
  Eval cbv in default 0 (u64_to_usize PAGE_OFFSET_MASK_U64).
Definition CACHE_LINE_SIZE_U64 : Z := 64.
Definition CACHE_LINE_SIZE : Z := Eval cbv in default 0 (u64_to_usize CACHE_LINE_SIZE_U64).
Definition CACHE_LINE_SHIFT : Z := Eval cbv in default 0 (compute_shift CACHE_LINE_SIZE_U64).

(** None of the [default]s above is taken: every constant is computed. *)
Lemma geometry_constants_computed :
  u64_to_usize PAGE_SIZE_U64 = Some PAGE_SIZE /\
  compute_shift PAGE_SIZE_U64 = Some PAGE_SHIFT /\
  compute_mask PAGE_SIZE_U64 = Some PAGE_OFFSET_MASK_U64 /\
  u64_to_usize PAGE_OFFSET_MASK_U64 = Some PAGE_OFFSET_MASK /\
  u64_to_usize CACHE_LINE_SIZE_U64 = Some CACHE_LINE_SIZE /\
  compute_shift CACHE_LINE_SIZE_U64 = Some CACHE_LINE_SHIFT.
Proof. by vm_compute. Qed.

(** ** Protection bits and memory flags *)

Record MemProt := mkMemProt { MemProt_bits : Z (* u8 *) }.

#[export] Instance MemProt_eq_dec : EqDecision MemProt.
Proof. solve_decision. Defined.

Module Prot.
Definition NONE : MemProt := mkMemProt 0.
Definition READ : MemProt := mkMemProt 1.
Definition WRITE : MemProt := mkMemProt 2.
Definition EXECUTE : MemProt := mkMemProt 4.
Definition union (a b : MemProt) : MemProt :=
  mkMemProt (Z.lor (MemProt_bits a) (MemProt_bits b)).
Definition retain (a b : MemProt) : MemProt :=
  mkMemProt (Z.land (MemProt_bits a) (MemProt_bits b)).
Definition contains_any (a b : MemProt) : bool :=
  negb (Z.land (MemProt_bits a) (MemProt_bits b) =? 0).
Definition ALL : MemProt := union (union READ WRITE) EXECUTE.
Definition not (a : MemProt) : MemProt :=
  mkMemProt (Z.land (bitnot 8 (MemProt_bits a)) (MemProt_bits ALL)).
(** The values the constructors above can build: no bit outside [ALL]. *)
Definition wf (a : MemProt) : Prop := fits 3 (MemProt_bits a).
End Prot.

Record MemFlags := mkMemFlags { MemFlags_bits : Z (* u8 *) }.

#[export] Instance MemFlags_eq_dec : EqDecision MemFlags.
Proof. solve_decision. Defined.

Module Flags.
Definition count_ones (z : Z) : Z :=
  foldr (fun i n => Z.b2z (Z.testbit z i) + n) 0 (seqZ 0 8).
(** Panics (at compile time) unless [bit] is one bit outside [MemProt::ALL]. *)
Definition new_flag (bit : Z) : option MemFlags :=
  if (count_ones bit =? 1) && (Z.land bit (MemProt_bits Prot.ALL) =? 0)
  then Some (mkMemFlags bit) else None.
Definition from_prot (prot : MemProt) : MemFlags := mkMemFlags (MemProt_bits prot).
Definition NONE : MemFlags := mkMemFlags 0.
Definition READ : MemFlags := from_prot Prot.READ.
Definition WRITE : MemFlags := from_prot Prot.WRITE.
Definition EXECUTE : MemFlags := from_prot Prot.EXECUTE.
Definition OBJ_BACKED : MemFlags := Eval cbv in default NONE (new_flag 8).
Definition COW : MemFlags := Eval cbv in default NONE (new_flag 16).
Definition union (a b : MemFlags) : MemFlags :=
  mkMemFlags (Z.lor (MemFlags_bits a) (MemFlags_bits b)).
Definition retain (a b : MemFlags) : MemFlags :=
  mkMemFlags (Z.land (MemFlags_bits a) (MemFlags_bits b)).
Definition contains_any (a b : MemFlags) : bool :=
  negb (Z.land (MemFlags_bits a) (MemFlags_bits b) =? 0).
Definition MUST_DIRTY : MemFlags := union EXECUTE OBJ_BACKED.
Definition ALL : MemFlags := union (union (from_prot Prot.ALL) COW) OBJ_BACKED.
Definition wf (a : MemFlags) : Prop := fits 5 (MemFlags_bits a).
End Flags.

Lemma new_flag_constants :
  Flags.new_flag 8 = Some Flags.OBJ_BACKED /\ Flags.new_flag 16 = Some Flags.COW /\
  MemFlags_bits Flags.ALL = 31 /\ MemFlags_bits Flags.MUST_DIRTY = 12.
Proof. by vm_compute. Qed.

Lemma from_prot_wf p : Prot.wf p -> Flags.wf (Flags.from_prot p).
Proof. unfold Prot.wf, Flags.wf, fits. simpl. lia. Qed.

Lemma union_wf a b : Flags.wf a -> Flags.wf b -> Flags.wf (Flags.union a b).
Proof. intros. by apply lor_fits. Qed.

#[export] Hint Resolve from_prot_wf union_wf : emu.

(** A union contains a flag exactly when one of its halves does. *)
Lemma contains_any_union a b c :
  Flags.contains_any (Flags.union a b) c =
  Flags.contains_any a c || Flags.contains_any b c.
Proof.
  unfold Flags.contains_any, Flags.union; simpl. rewrite Z.land_lor_distr_l.
  destruct (Z.eqb_spec (Z.land (MemFlags_bits a) (MemFlags_bits c)) 0) as [E|E].
  - by rewrite E, Z.lor_0_l.
  - destruct (Z.eqb_spec (Z.lor (Z.land (MemFlags_bits a) (MemFlags_bits c))
      (Z.land (MemFlags_bits b) (MemFlags_bits c))) 0) as [E'|E']; [|done].
    apply Z.lor_eq_0_iff in E' as [? _]. done.
Qed.

(** ** Page numbers *)

Abbreviation PageNumber := Z (only parsing).

Module PageNum.
Definition from_vaddr (vaddr : Z) : PageNumber := Z.shiftr vaddr PAGE_SHIFT.
Definition MAX : PageNumber := from_vaddr U64_MAX.
(** [unwrap_unchecked] on a failed conversion is undefined: [None]. *)
Definition from_vaddr_with_offset (vaddr : Z) : option (PageNumber * Z) :=
  let remainder := Z.land vaddr PAGE_OFFSET_MASK_U64 in
  match u64_to_usize remainder with
  | Some remainder => Some (from_vaddr vaddr, remainder)
  | None => None
  end.
(** [assert_unchecked]: undefined outside the range. *)
Definition from_page_number_unchecked (page : Z) : option PageNumber :=
  if page <=? MAX then Some page else None.
Definition from_page_number_checked (page : Z) : option PageNumber :=
  if MAX <? page then None else from_page_number_unchecked page.
(** Panics ([None]) out of bounds. *)
Definition from_page_number (page : Z) : option PageNumber :=
  from_page_number_checked page.
Definition get (p : PageNumber) : Z := p.
Definition vaddr_base (p : PageNumber) : Z := wrap 64 (Z.shiftl p PAGE_SHIFT).
(** [unchecked_add] cannot overflow below [MAX]: the code asserts it. *)
Definition inc (p : PageNumber) : option PageNumber := from_page_number_checked (p + 1).
Definition wf (p : PageNumber) : Prop := fits 52 p.
End PageNum.

Lemma from_vaddr_div vaddr : PageNum.from_vaddr vaddr = vaddr / 4096.
Proof. unfold PageNum.from_vaddr. by rewrite Z.shiftr_div_pow2. Qed.

Lemma from_vaddr_wf vaddr : fits 64 vaddr -> PageNum.wf (PageNum.from_vaddr vaddr).
Proof.
  intros [? ?]. unfold PageNum.wf, fits. rewrite from_vaddr_div.
  split; [apply Z.div_pos; lia|]. apply Z.div_lt_upper_bound; lia.
Qed.

Lemma PageNum_MAX_value : PageNum.MAX = 2 ^ 52 - 1.
Proof. by vm_compute. Qed.

Lemma from_vaddr_with_offset_eq vaddr :
  fits 64 vaddr ->
  PageNum.from_vaddr_with_offset vaddr = Some (vaddr / 4096, vaddr mod 4096).
Proof.
  intros Hv. unfold PageNum.from_vaddr_with_offset.
  change PAGE_OFFSET_MASK_U64 with (2 ^ 12 - 1). rewrite land_ones_mod by lia.
  change (2 ^ 12) with 4096.
  rewrite u64_to_usize_id; [by rewrite from_vaddr_div|].
  unfold fits in *. pose proof (Z.mod_pos_bound vaddr 4096). lia.
Qed.

Lemma vaddr_base_eq p : PageNum.wf p -> PageNum.vaddr_base p = p * 4096.
Proof.
  intros [? ?]. unfold PageNum.vaddr_base. rewrite Z.shiftl_mul_pow2 by done.
  change (2 ^ PAGE_SHIFT) with 4096. apply wrap_small. unfold fits. lia.
Qed.

Lemma inc_eq p :
  PageNum.wf p -> PageNum.inc p = if decide (p = PageNum.MAX) then None else Some (p + 1).
Proof.
  intros [? ?]. unfold PageNum.inc, PageNum.from_page_number_checked,
    PageNum.from_page_number_unchecked. rewrite PageNum_MAX_value.
  case_decide; [subst; by vm_compute|].
  destruct (Z.ltb_spec (2 ^ 52 - 1) (p + 1)); [lia|].
  destruct (Z.leb_spec (p + 1) (2 ^ 52 - 1)); [done|lia].
Qed.

(** ** Host pages *)

Abbreviation HostPointer := Z (only parsing).
Abbreviation PagePointer := Z (only parsing).

Module PagePtr.
Definition DANGLING : PagePointer := PAGE_SIZE.
(** A [PagePointer] is a non-null, page-aligned address whose page does not
    wrap around the address space; [new] is undefined elsewhere. *)
Definition wf (p : PagePointer) : Prop := 0 < p /\ p mod 4096 = 0 /\ p + 4096 <= 2 ^ 64.
Definition new (page : HostPointer) : option PagePointer :=
  if (Z.land page PAGE_OFFSET_MASK =? 0) && is_multiple_of page PAGE_SIZE
  then Some page else None.
Definition add_pages (p : PagePointer) (count : Z) : option PagePointer :=
  new (p + count * PAGE_SIZE).
Definition byte_add (p : PagePointer) (count : Z) : HostPointer := p + count.
End PagePtr.

#[export] Instance PagePtr_wf_dec p : Decision (PagePtr.wf p).
Proof. unfold PagePtr.wf. apply _. Defined.

Lemma PagePtr_new_wf p : PagePtr.wf p -> PagePtr.new p = Some p.
Proof.
  intros (? & Hm & ?). unfold PagePtr.new, is_multiple_of.
  change PAGE_OFFSET_MASK with (2 ^ 12 - 1). rewrite land_ones_mod by lia.
  change (2 ^ 12) with 4096. change PAGE_SIZE with 4096. by rewrite Hm.
Qed.

(** [TaggedPagePtr]: the flags live in the low bits of the page's address. *)
Module Tagged.
Definition new (ptr : PagePointer) (prot : MemFlags) : Z :=
  Z.lor ptr (MemFlags_bits prot).
Definition page_ptr (t : Z) : option PagePointer :=
  let mask := bitnot USIZE_BITS (MemFlags_bits Flags.ALL) in
  let addr := Z.land t mask in
  if addr =? 0 then None else PagePtr.new addr.
Definition flags (t : Z) : MemFlags :=
  mkMemFlags (Z.land t (MemFlags_bits Flags.ALL)).
End Tagged.

Record Page := mkPage {
  ptr : Z;                   (* TaggedPagePtr *)
  mutable_flags : positive;  (* &AtomicU8 *)
}.

#[export] Instance Page_eq_dec : EqDecision Page.
Proof. solve_decision. Defined.

Module PageDirty.
Definition IS_FLUSHING_DIRTY_PAGE : Z := 2.
Definition IS_DIRTY_FLAG : Z := 1.
(** [Page::set_dirty] on the atomic's contents: a [fetch_or]. *)
Definition set_dirty (p : Page) (flags : Z) : Z :=
  if Flags.contains_any (Tagged.flags (ptr p)) Flags.MUST_DIRTY
  then Z.lor flags IS_DIRTY_FLAG else flags.
End PageDirty.

Lemma tagged_new_add p f : PagePtr.wf p -> Flags.wf f -> Tagged.new p f = p + MemFlags_bits f.
Proof.
  intros (? & Hm & ?) Hf. unfold Tagged.new. apply (lor_aligned_low 12); [lia|done|].
  unfold Flags.wf, fits in *. lia.
Qed.

Lemma tagged_new_spec p f :
  PagePtr.wf p -> Flags.wf f ->
  Tagged.page_ptr (Tagged.new p f) = Some p /\ Tagged.flags (Tagged.new p f) = f.
Proof.
  intros Hp Hf. pose proof Hp as (? & Hm & ?).
  assert (fits 64 p) as Hp64 by (unfold fits; lia).
  assert (fits 12 (MemFlags_bits f)) as Hf12 by (unfold Flags.wf, fits in *; lia).
  change 4096 with (2 ^ 12) in Hm.
  assert (Z.land p 31 = 0) as Hlow.
  { change 31 with (2 ^ 5 - 1). rewrite land_ones_mod by lia. change (2 ^ 5) with 32.
    change (2 ^ 12) with (32 * 128) in Hm. rewrite Z.rem_mul_r in Hm by lia.
    pose proof (Z.mod_pos_bound p 32). pose proof (Z.mod_pos_bound (p / 32) 128). lia. }
  assert (Z.land (MemFlags_bits f) 31 = MemFlags_bits f) as Hfl.
  { change 31 with (2 ^ 5 - 1). rewrite land_ones_mod by lia. apply Z.mod_small, Hf. }
  split.
  - unfold Tagged.page_ptr, Tagged.new.
    replace (Z.land _ _) with p.
    + destruct (Z.eqb_spec p 0); [lia|]. by apply PagePtr_new_wf.
    + apply Z.bits_inj'; intros i Hi. unfold bitnot, USIZE_BITS.
      rewrite Z.land_spec, Z.lor_spec, Z.lxor_spec.
      change (MemFlags_bits Flags.ALL) with (Z.ones 5). rewrite !Z.testbit_ones by lia.
      apply (f_equal (fun z => Z.testbit z i)) in Hlow. rewrite Z.land_spec, Z.testbit_0_l in Hlow.
      change 31 with (Z.ones 5) in Hlow. rewrite Z.testbit_ones in Hlow by lia.
      destruct (Z.ltb_spec i 5); destruct (Z.leb_spec 0 i); try lia; simpl in *.
      * destruct (Z.ltb_spec i 64); [|lia]. rewrite andb_true_r in Hlow. rewrite Hlow.
        by rewrite andb_false_r.
      * rewrite (fits_testbit_high 5 (MemFlags_bits f)) by (done || lia). rewrite orb_false_r.
        destruct (Z.ltb_spec i 64); [by rewrite andb_true_r|].
        by rewrite (fits_testbit_high 64 p).
  - unfold Tagged.flags, Tagged.new. change (MemFlags_bits Flags.ALL) with 31.
    rewrite Z.land_lor_distr_l, Hlow, Hfl. by destruct f.
Qed.

(** A tagged page pointer gives back exactly the page and the flags it was
    built from: the flag bits never collide with the address, for every
    aligned page and every combination of flags. *)
Theorem tagged_ptr_roundtrip p f :
  PagePtr.wf p -> Flags.wf f ->
  Tagged.page_ptr (Tagged.new p f) = Some p /\ Tagged.flags (Tagged.new p f) = f.
Proof. apply tagged_new_spec. Qed.

Lemma tagged_ptr_roundtrip_witness :
  Tagged.page_ptr (Tagged.new 8192 (Flags.union Flags.COW Flags.READ)) = Some 8192 /\
  Tagged.flags (Tagged.new 8192 (Flags.union Flags.COW Flags.READ)) =
    Flags.union Flags.COW Flags.READ.
Proof.
  apply (tagged_ptr_roundtrip 8192 (Flags.union Flags.COW Flags.READ)).
  - apply (bool_decide_unpack _). by vm_compute.
  - by vm_compute.
Defined.

(** ** Address-space identifiers

    An identifier is the address of a reference-counted one-byte allocation.
    The state is the map of live allocations to their strong counts; a freed
    address may be handed out again. *)

Abbreviation Tokens := (gmap positive nat).

Module Ident.
Definition unique_token : SM Tokens positive := fun t =>
  let id := fresh (dom t) in Some (id, <[id := 1%nat]> t).
(** [increment_strong_count] and [decrement_strong_count] on a dead
    allocation are undefined. *)
Definition clone (id : positive) : SM Tokens positive := fun t =>
  match t !! id with
  | Some n => Some (id, <[id := S n]> t)
  | None => None
  end.
Definition drop (id : positive) : SM Tokens unit := fun t =>
  match t !! id with
  | Some (S (S n)) => Some (tt, <[id := S n]> t)
  | Some (S O) => Some (tt, delete id t)
  | _ => None
  end.
(** The assignment drops the old value after the clone is made. *)
Definition clone_from (self source : positive) : SM Tokens positive :=
  if decide (self = source) then sm_ret self
  else let! new := clone source in drop self ;;! sm_ret new.
Definition ptr (id : positive) : Z := Zpos id.
End Ident.

(** [MaybeInvalidIdentifier]: the invalid slot reads as the null address. *)
Module MaybeIdent.
Definition t : Type := option positive.
Definition invalid : t := None.
Definition new (id : positive) : t := Some id.
Definition as_ptr (i : t) : Z := match i with Some id => Ident.ptr id | None => 0 end.
Definition drop (i : t) : SM Tokens unit :=
  match i with Some id => Ident.drop id | None => sm_ret tt end.
End MaybeIdent.

Definition strong_count (t : Tokens) (id : positive) : nat := default 0%nat (t !! id).

(** ** The TLB *)

Record TlbEntry := mkTlbEntry {
  io_mmu_ident : MaybeIdent.t;
  virtual_page_number : PageNumber;
  tagged_page_ptr : option Z;
  mut_page_flags : option positive;
}.

Definition zeroed_entry : TlbEntry := mkTlbEntry MaybeIdent.invalid 0 None None.

Definition TlbEntry_update_entry (self : TlbEntry) (identifier : positive)
    (new_page_number : PageNumber) (page : Page) : SM Tokens TlbEntry :=
  let! ident :=
    if MaybeIdent.as_ptr (io_mmu_ident self) =? Ident.ptr identifier
    then sm_ret (io_mmu_ident self)
    else let! c := Ident.clone identifier in
         MaybeIdent.drop (io_mmu_ident self) ;;! sm_ret (MaybeIdent.new c)
  in sm_ret (mkTlbEntry ident new_page_number (Some (ptr page)) (Some (mutable_flags page))).

(** The production build's size ([cfg(test)] uses 64). *)
Definition TLB_SIZE_U64 : Z := 1024.
Definition TLB_SIZE : Z := Eval cbv in default 0 (u64_to_usize TLB_SIZE_U64).
Definition TLB_MASK : Z := Eval cbv in default 0 (compute_mask TLB_SIZE_U64).

Abbreviation Tlb := (list TlbEntry).
Definition Tlb_new : Tlb := replicate (Z.to_nat TLB_SIZE) zeroed_entry.

Definition Tlb_index (page_number : PageNumber) : option nat :=
  match u64_to_usize (Z.land page_number TLB_MASK) with
  | Some index => Some (Z.to_nat index)
  | None => None
  end.

(** [entry] borrows a slot mutably: its index and its current contents. *)
Definition Tlb_entry (tlb : Tlb) (page_number : PageNumber) : option (nat * TlbEntry) :=
  match Tlb_index page_number with
  | Some i => match tlb !! i with Some e => Some (i, e) | None => None end
  | None => None
  end.

(** [fallback] reads the page table: [None] would be undefined behaviour there. *)
Definition Tlb_lookup {E} (tlb : Tlb) (page_num : PageNumber) (ident : positive)
    (fallback : PageNumber -> option (Result Page E)) : SM Tokens (Result Page E * Tlb) :=
  let! (i, entry) := sm_of_option (Tlb_entry tlb page_num) in
  if negb (MaybeIdent.as_ptr (io_mmu_ident entry) =? Ident.ptr ident)
     || negb (virtual_page_number entry =? page_num)
  then
    let! res := sm_of_option (fallback page_num) in
    match res with
    | Err e => sm_ret (Err e, tlb)
    | Ok page =>
        let! entry' := TlbEntry_update_entry entry ident page_num page in
        sm_ret (Ok page, <[i := entry']> tlb)
    end
  else
    let! ptr := sm_of_option (tagged_page_ptr entry) in
    let! mutable_flags := sm_of_option (mut_page_flags entry) in
    sm_ret (Ok (mkPage ptr mutable_flags), tlb).

Definition Tlb_update_entry (tlb : Tlb) (page_number : PageNumber) (identifier : positive)
    (page : Page) : SM Tokens Tlb :=
  let! (i, entry) := sm_of_option (Tlb_entry tlb page_number) in
  let! entry' := TlbEntry_update_entry entry identifier page_number page in
  sm_ret (<[i := entry']> tlb).

(** *** Invariants *)

(** How many slots of [tlb] hold a reference to [id]. *)
Definition holders (tlb : Tlb) (id : positive) : nat :=
  length (filter (fun e => io_mmu_ident e = Some id) tlb).

(** Token accounting: the strong count of every identifier is the references
    held outside the TLB ([ext]) plus the slots that hold it.  A live map never
    stores a zero count. *)
Definition tokens_ok (t : Tokens) (ext : positive -> nat) (tlb : Tlb) : Prop :=
  (forall id, strong_count t id = (ext id + holders tlb id)%nat) /\
  (forall id n, t !! id = Some n -> (0 < n)%nat).

(** Every slot tagged with [id] caches the current translation of its page. *)
Definition entry_coherent {E} (id : positive) (tr : PageNumber -> Result Page E)
    (e : TlbEntry) : Prop :=
  io_mmu_ident e = Some id ->
  exists p f, tagged_page_ptr e = Some p /\ mut_page_flags e = Some f /\
              tr (virtual_page_number e) = Ok (mkPage p f).
Definition tlb_coherent {E} (id : positive) (tr : PageNumber -> Result Page E)
    (tlb : Tlb) : Prop := Forall (entry_coherent id tr) tlb.

Definition tlb_size_ok (tlb : Tlb) : Prop := length tlb = Z.to_nat TLB_SIZE.

(** *** Token lemmas *)

Lemma strong_count_insert t id n id' :
  strong_count (<[id := n]> t) id' = if decide (id = id') then n else strong_count t id'.
Proof.
  unfold strong_count. case_decide; subst; [by rewrite lookup_insert_eq|].
  by rewrite lookup_insert_ne.
Qed.

Lemma strong_count_delete t id id' :
  strong_count (delete id t) id' = if decide (id = id') then 0%nat else strong_count t id'.
Proof.
  unfold strong_count. case_decide; subst; [by rewrite lookup_delete_eq|].
  by rewrite lookup_delete_ne.
Qed.

Definition counts_positive (t : Tokens) : Prop := forall id n, t !! id = Some n -> (0 < n)%nat.

Lemma clone_spec t id :
  counts_positive t -> (0 < strong_count t id)%nat ->
  exists t', Ident.clone id t = Some (id, t') /\ counts_positive t' /\
    forall id', strong_count t' id' =
      if decide (id = id') then S (strong_count t id) else strong_count t id'.
Proof.
  intros Hpos Hid. unfold Ident.clone. unfold strong_count in Hid.
  destruct (t !! id) as [n|] eqn:E; simpl in *; [|lia]. eexists; split_and!; [done| |].
  - intros id' n'. rewrite lookup_insert_Some. intros [[<- <-]|[? ?]]; [lia|eauto].
  - intros id'. rewrite strong_count_insert. unfold strong_count. by rewrite E.
Qed.

Lemma drop_spec t id :
  counts_positive t -> (0 < strong_count t id)%nat ->
  exists t', Ident.drop id t = Some (tt, t') /\ counts_positive t' /\
    forall id', strong_count t' id' =
      if decide (id = id') then pred (strong_count t id) else strong_count t id'.
Proof.
  intros Hpos Hid. unfold Ident.drop. unfold strong_count in Hid.
  destruct (t !! id) as [[|[|n]]|] eqn:E; simpl in *; try lia; eexists; split_and!; try done.
  - intros id' n'. rewrite lookup_delete_Some. intros [? ?]; eauto.
  - intros id'. rewrite strong_count_delete. unfold strong_count. by rewrite E.
  - intros id' n'. rewrite lookup_insert_Some. intros [[<- <-]|[? ?]]; [lia|eauto].
  - intros id'. rewrite strong_count_insert. unfold strong_count. by rewrite E.
Qed.

Lemma unique_token_spec t :
  counts_positive t ->
  exists id t', Ident.unique_token t = Some (id, t') /\ strong_count t id = 0%nat /\
    counts_positive t' /\
    forall id', strong_count t' id' = if decide (id = id') then 1%nat else strong_count t id'.
Proof.
  intros Hpos. unfold Ident.unique_token. do 2 eexists; split_and!; [done|..].
  - unfold strong_count. pose proof (is_fresh (dom t)) as Hf.
    by rewrite not_elem_of_dom_1.
  - intros id' n'. rewrite lookup_insert_Some. intros [[<- <-]|[? ?]]; [lia|eauto].
  - intros id'. by rewrite strong_count_insert.
Qed.

Lemma holders_insert tlb i e e' id :
  tlb !! i = Some e ->
  (holders (<[i := e']> tlb) id + (if decide (io_mmu_ident e = Some id) then 1 else 0) =
   holders tlb id + (if decide (io_mmu_ident e' = Some id) then 1 else 0))%nat.
Proof.
  intros Hi. pose proof (lookup_lt_Some _ _ _ Hi). unfold holders.
  rewrite insert_take_drop by done.
  rewrite <- (take_drop_middle tlb i e Hi) at 3.
  rewrite !filter_app, !filter_cons, !length_app. repeat case_decide; simpl; lia.
Qed.

Lemma holders_lookup tlb i e id :
  tlb !! i = Some e -> io_mmu_ident e = Some id -> (0 < holders tlb id)%nat.
Proof.
  intros Hi He. pose proof (holders_insert tlb i e zeroed_entry id Hi) as H.
  rewrite decide_True in H by done. rewrite decide_False in H by done. lia.
Qed.

(** A slot update keeps the accounting: the new reference is counted before the
    displaced one is released, and nothing leaks. *)
Lemma update_entry_spec t ext tlb i e id vpn page :
  tokens_ok t ext tlb -> tlb !! i = Some e -> (0 < ext id)%nat ->
  let e' := mkTlbEntry (Some id) vpn (Some (ptr page)) (Some (mutable_flags page)) in
  exists t', TlbEntry_update_entry e id vpn page t = Some (e', t') /\
             tokens_ok t' ext (<[i := e']> tlb).
Proof.
  intros [Hc Hpos] Hi Hid e'. unfold TlbEntry_update_entry.
  pose proof (fun id' => holders_insert tlb i e e' id' Hi) as Hh. simpl in Hh.
  destruct (Z.eqb_spec (MaybeIdent.as_ptr (io_mmu_ident e)) (Ident.ptr id)) as [E|E].
  - assert (io_mmu_ident e = Some id) as Heq.
    { destruct (io_mmu_ident e); simpl in E; [|done]. unfold Ident.ptr in E. congruence. }
    unfold sm_bind, sm_ret. rewrite Heq. exists t. split; [done|split; [|done]].
    intros id'. specialize (Hh id'). rewrite Heq in Hh. rewrite Hc. lia.
  - assert (0 < strong_count t id)%nat as Hlive by (rewrite Hc; lia).
    destruct (clone_spec t id Hpos Hlive) as (t1 & Hcl & Hpos1 & Hc1).
    unfold sm_bind, sm_ret. rewrite Hcl.
    destruct (io_mmu_ident e) as [old|] eqn:Hold; simpl.
    + assert (old <> id) as Hne by (intros ->; done).
      pose proof (holders_lookup tlb i e old Hi Hold).
      destruct (drop_spec t1 old Hpos1) as (t2 & Hd & Hpos2 & Hc2).
      { rewrite Hc1, decide_False, Hc by done. lia. }
      rewrite Hd. exists t2. split; [done|split; [|done]].
      intros id'. specialize (Hh id'). rewrite Hc2, !Hc1, !Hc.
      repeat case_decide; simplify_eq; lia.
    + exists t1. split; [done|split; [|done]].
      intros id'. specialize (Hh id'). rewrite Hc1, !Hc.
      repeat case_decide; simplify_eq; lia.
Qed.

Lemma Tlb_index_eq p : Tlb_index p = Some (Z.to_nat (p mod 1024)).
Proof.
  unfold Tlb_index. change TLB_MASK with (2 ^ 10 - 1). rewrite land_ones_mod by lia.
  change (2 ^ 10) with 1024. pose proof (Z.mod_pos_bound p 1024).
  rewrite u64_to_usize_id; [done|unfold fits; lia].
Qed.

Lemma Tlb_entry_some tlb p :
  tlb_size_ok tlb ->
  exists e, Tlb_entry tlb p = Some (Z.to_nat (p mod 1024), e) /\
            tlb !! Z.to_nat (p mod 1024) = Some e.
Proof.
  intros Hlen. unfold Tlb_entry. rewrite Tlb_index_eq.
  destruct (lookup_lt_is_Some_2 tlb (Z.to_nat (p mod 1024))) as [e He].
  - rewrite Hlen. change TLB_SIZE with 1024. pose proof (Z.mod_pos_bound p 1024). lia.
  - exists e. by rewrite He.
Qed.

Lemma Forall_insert_entry (P : TlbEntry -> Prop) tlb i e :
  Forall P tlb -> P e -> Forall P (<[i := e]> tlb).
Proof. intros. by apply Forall_insert. Qed.

(** *** The TLB is transparent *)

Definition space_family (E : Type) : Type := positive -> PageNumber -> Result Page E.

(** Coherence for every address space that still has an owner. *)
Definition tlb_coherent_all {E} (ext : positive -> nat) (tr : space_family E) (tlb : Tlb) :
    Prop := forall id, (0 < ext id)%nat -> tlb_coherent id (tr id) tlb.

Definition tlb_inv {E} (t : Tokens) (ext : positive -> nat) (tr : space_family E)
    (tlb : Tlb) : Prop :=
  tokens_ok t ext tlb /\ tlb_size_ok tlb /\ tlb_coherent_all ext tr tlb.

Lemma tlb_inv_insert {E} t t' ext (tr : space_family E) tlb i e id vpn page :
  tlb_inv t ext tr tlb ->
  e = mkTlbEntry (Some id) vpn (Some (ptr page)) (Some (mutable_flags page)) ->
  tr id vpn = Ok page ->
  tokens_ok t' ext (<[i := e]> tlb) ->
  tlb_inv t' ext tr (<[i := e]> tlb).
Proof.
  intros (_ & Hs & Hcoh) -> Hok Ht. split; [done|]. split.
  - unfold tlb_size_ok. by rewrite length_insert.
  - intros id' Hid'. apply Forall_insert_entry; [by apply Hcoh|].
    intros [= ->]. simpl. exists (ptr page), (mutable_flags page). by destruct page.
Qed.

Lemma tlb_lookup_spec {E} t ext (tr : space_family E) tlb page_num ident :
  tlb_inv t ext tr tlb -> (0 < ext ident)%nat ->
  exists tlb' t',
    Tlb_lookup tlb page_num ident (fun p => Some (tr ident p)) t = Some ((tr ident page_num, tlb'), t') /\
    tlb_inv t' ext tr tlb'.
Proof.
  intros Hinv Hid. pose proof Hinv as (Htok & Hs & Hcoh).
  destruct (Tlb_entry_some tlb page_num Hs) as (e & He & Hi).
  unfold Tlb_lookup, sm_bind, sm_of_option. rewrite He.
  destruct (negb _ || _) eqn:Hmiss.
  - destruct (tr ident page_num) as [page|err] eqn:Htr; [|by do 2 eexists].
    destruct (update_entry_spec t ext tlb _ e ident page_num page Htok Hi Hid)
      as (t' & Hu & Ht'). rewrite Hu. do 2 eexists. split; [done|]. by eapply tlb_inv_insert.
  - apply orb_false_iff in Hmiss as [H1 H2].
    apply negb_false_iff, Z.eqb_eq in H1. apply negb_false_iff, Z.eqb_eq in H2.
    assert (io_mmu_ident e = Some ident) as Hident.
    { destruct (io_mmu_ident e); simpl in H1; unfold Ident.ptr in H1; congruence. }
    pose proof (proj1 (Forall_lookup _ _) (Hcoh ident Hid) _ e Hi Hident)
      as (p & f & Hp & Hf & Htr).
    rewrite Hp, Hf. subst page_num. rewrite Htr. by do 2 eexists.
Qed.

(** C24: looking a page up through the TLB is looking it up in the page table.
    With every slot coherent, [Tlb::lookup] returns exactly what the fallback
    returns (hits, misses and faults alike, never undefined behaviour), and
    the invariant survives: every slot stays coherent for every live address
    space and no identifier reference is leaked or released early. *)
Theorem tlb_lookup_transparent {E} t ext (tr : space_family E) tlb page_num ident :
  tlb_inv t ext tr tlb -> (0 < ext ident)%nat ->
  exists tlb' t',
    Tlb_lookup tlb page_num ident (fun p => Some (tr ident p)) t = Some ((tr ident page_num, tlb'), t') /\
    tlb_inv t' ext tr tlb'.
Proof. apply tlb_lookup_spec. Qed.

Lemma Tlb_new_inv {E} ext (tr : space_family E) t :
  counts_positive t -> (forall id, strong_count t id = ext id) -> tlb_inv t ext tr Tlb_new.
Proof.
  intros Hpos Hc.
  assert (forall n id, holders (replicate n zeroed_entry) id = 0%nat) as Hh.
  { intros n id. unfold holders. by induction n. }
  split; [split; [|done]|split].
  - intros id. unfold Tlb_new. rewrite Hh, Hc. lia.
  - unfold tlb_size_ok, Tlb_new. by rewrite length_replicate.
  - intros id _. unfold tlb_coherent, Tlb_new. by apply Forall_replicate.
Qed.

(** No ABA on identifiers.  A token allocated while the TLB is in use is
    held by no slot, although the address of a freed token may be reused: every
    slot is coherent for it whatever its translation, and it comes with exactly
    one reference, its creator's. *)
Theorem fresh_ident_has_no_stale_entry {E} t ext (tr : space_family E) tlb :
  tlb_inv t ext tr tlb ->
  exists id t', Ident.unique_token t = Some (id, t') /\
    ext id = 0%nat /\ holders tlb id = 0%nat /\
    forall tr_id : PageNumber -> Result Page E,
      tlb_inv t' (fun i => if decide (i = id) then 1%nat else ext i)
        (fun i => if decide (i = id) then tr_id else tr i) tlb.
Proof.
  intros ([Hc Hpos] & Hs & Hcoh).
  destruct (unique_token_spec t Hpos) as (id & t' & Hu & H0 & Hpos' & Hc').
  rewrite Hc in H0. exists id, t'. split; [done|]. split; [lia|]. split; [lia|].
  intros tr_id. split; [split|split]; [|done|done|].
  - intros i. rewrite Hc'. repeat case_decide; simplify_eq; [lia|apply Hc].
  - intros i Hi. apply Forall_lookup. intros k e Hk He.
    case_decide as Hd; [subst i|].
    + pose proof (holders_lookup tlb k e id Hk He). lia.
    + by apply (proj1 (Forall_lookup _ _) (Hcoh i Hi) k e Hk He).
Qed.

(** A concrete address space for the witnesses: identifier 1, owned once, whose
    page 5 is the host page at 8192. *)
Definition demo_ext : positive -> nat := fun id => if decide (id = 1%positive) then 1%nat else 0%nat.
Definition demo_space : space_family unit := fun _ p =>
  if decide (p = 5) then Ok (mkPage (Tagged.new 8192 Flags.READ) 1) else Err tt.
Definition demo_tokens : Tokens := {[ 1%positive := 1%nat ]}.

Lemma demo_inv : tlb_inv demo_tokens demo_ext demo_space Tlb_new.
Proof.
  apply Tlb_new_inv.
  - intros id n. unfold demo_tokens. rewrite lookup_singleton_Some. intros [_ <-]. lia.
  - intros id. unfold strong_count, demo_tokens, demo_ext. case_decide; subst.
    + by rewrite lookup_singleton_eq.
    + by rewrite lookup_singleton_ne by done.
Qed.

Lemma tlb_lookup_transparent_witness :
  exists tlb' t',
    Tlb_lookup Tlb_new 5 1%positive (fun p => Some (demo_space 1%positive p)) demo_tokens =
      Some ((Ok (mkPage 8193 1), tlb'), t') /\
    tlb_inv t' demo_ext demo_space tlb'.
Proof.
  apply (tlb_lookup_transparent demo_tokens demo_ext demo_space Tlb_new 5 1%positive).
  - apply demo_inv.
  - vm_compute. lia.
Defined.

Lemma fresh_ident_has_no_stale_entry_witness :
  exists id t', Ident.unique_token demo_tokens = Some (id, t') /\
    demo_ext id = 0%nat /\ holders Tlb_new id = 0%nat /\
    forall tr_id : PageNumber -> Result Page unit,
      tlb_inv t' (fun i => if decide (i = id) then 1%nat else demo_ext i)
        (fun i => if decide (i = id) then tr_id else demo_space i) Tlb_new.
Proof. apply fresh_ident_has_no_stale_entry, demo_inv. Defined.
