(* ===== verification/Fault.v ===== *)
(** * Memory faults ([io-mmu/src/fault.rs]) and their FFI slot
      ([jit-compiler-core/src/exec_context.rs])

    [anyhow::Error] is third-party code: the error type is a parameter. *)

From S2P Require Import Prelude.
Local Open Scope Z_scope.

Inductive MemoryFaultReason (Error : Type) : Type :=
  | GeneralProtection
  | MemoryBus (e : Error).
Arguments GeneralProtection {Error}.
Arguments MemoryBus {Error} _.

Record MemoryFault (Error : Type) := mkMemoryFault {
  fault_vaddr : Z;
  fault_reason : MemoryFaultReason Error;
}.
Arguments mkMemoryFault {Error} _ _.
Arguments fault_vaddr {Error} _.
Arguments fault_reason {Error} _.

Definition general_protection {Error} (vaddr : Z) : MemoryFault Error :=
  mkMemoryFault vaddr GeneralProtection.
Definition memory_bus {Error} (vaddr : Z) (reason : Error) : MemoryFault Error :=
  mkMemoryFault vaddr (MemoryBus reason).
Definition vaddr {Error} (f : MemoryFault Error) : Z := fault_vaddr f.
Definition into_reason {Error} (f : MemoryFault Error) : MemoryFaultReason Error :=
  fault_reason f.

(** The [ensure!] macro, followed by the rest of the function. *)
Definition ensure {Error A} (vaddr : Z) (cond : bool)
    (k : Result A (MemoryFault Error)) : Result A (MemoryFault Error) :=
  if cond then k else Err (general_protection vaddr).

(** ** The slot compiled code records a fault in *)

Inductive MemOp := Load | Store | Rwm.

#[export] Instance MemOp_eq_dec : EqDecision MemOp.
Proof. solve_decision. Defined.

Module Ffi.
Section Slot.
Context {Error : Type}.

(** [bus_error] is [MaybeUninit]: [None] is uninitialised memory. *)
Record FFISafeMemoryFault := mkSlot {
was_real_memory_trap : bool;
vaddr : Z;
mem_op : MemOp;
has_bus_error : bool;
bus_error : option Error;
}.

Definition new : FFISafeMemoryFault := mkSlot false 0 Load false None.

(** The memory is left as it was, holding a dead value. *)
Definition drop_bus_error : SM FFISafeMemoryFault unit := fun s =>
if has_bus_error s then
  match bus_error s with
  | Some _ => Some (tt, mkSlot (was_real_memory_trap s) (vaddr s) (mem_op s) false None)
  | None => None
  end
else Some (tt, s).

Definition take_bus_error : SM FFISafeMemoryFault (option Error) := fun s =>
if has_bus_error s then
  match bus_error s with
  | Some e => Some (Some e, mkSlot (was_real_memory_trap s) (vaddr s) (mem_op s) false None)
  | None => None
  end
else Some (None, s).

Definition set_fault (op : MemOp) (error : MemoryFault Error) :
  SM FFISafeMemoryFault unit := fun s =>
let s := mkSlot true (fault_vaddr error) op (has_bus_error s) (bus_error s) in
match into_reason error with
| GeneralProtection => Some (tt, s)
| MemoryBus e =>
    match drop_bus_error s with
    | Some (_, s) =>
        Some (tt, mkSlot (was_real_memory_trap s) (vaddr s) (mem_op s) true (Some e))
    | None => None
    end
end.

Definition take_memory_fault :
  SM FFISafeMemoryFault (option (MemoryFault Error * MemOp)) := fun s =>
if negb (was_real_memory_trap s) then Some (None, s)
else
  let s := mkSlot false (vaddr s) (mem_op s) (has_bus_error s) (bus_error s) in
  match take_bus_error s with
  | Some (bus_error, s) =>
      let fault := match bus_error with
        | None => general_protection (vaddr s)
        | Some e => memory_bus (vaddr s) e
        end in
      Some (Some (fault, mem_op s), s)
  | None => None
  end.

(** [has_bus_error] says whether the error is initialised. *)
Definition slot_ok (s : FFISafeMemoryFault) : Prop :=
has_bus_error s = bool_decide (is_Some (bus_error s)).

(** The slots a driver that takes every fault before recording the next one
  reaches. *)
Definition slot_idle (s : FFISafeMemoryFault) : Prop :=
slot_ok s /\ was_real_memory_trap s = false /\ has_bus_error s = false.

Lemma fault_slot_total s op error :
slot_ok s -> exists s1, set_fault op error s = Some (tt, s1) /\ slot_ok s1.
Proof.
destruct s as [trap va mo has bus], error as [v [|e]];
  unfold slot_ok, set_fault, drop_bus_error; simpl; intros ->; destruct bus; by repeat eexists.
Qed.

(** The slot never reads or drops uninitialised memory, whatever the
  sequence of faults; and a fault recorded in an idle slot is taken back
  exactly, with its operation, leaving the slot idle, so that a second
  [take] finds nothing. *)
Theorem fault_slot_roundtrip s op error :
(slot_ok s ->
   (exists s1, set_fault op error s = Some (tt, s1) /\ slot_ok s1) /\
   (exists r s2, take_memory_fault s = Some (r, s2) /\ slot_ok s2)) /\
(slot_idle s ->
   exists s1 s2, set_fault op error s = Some (tt, s1) /\
     take_memory_fault s1 = Some (Some (error, op), s2) /\
     slot_idle s2 /\ take_memory_fault s2 = Some (None, s2)).
Proof.
destruct s as [trap va mo has bus], error as [v [|e]];
  unfold slot_idle, slot_ok, set_fault, take_memory_fault, drop_bus_error,
    take_bus_error; simpl; split.
- intros ->. destruct bus, trap; simpl; split; repeat eexists; done.
- intros (-> & -> & H). destruct bus; [done|]. simpl. by repeat eexists.
- intros ->. destruct bus, trap; simpl; split; repeat eexists; done.
- intros (-> & -> & H). destruct bus; [done|]. simpl. by repeat eexists.
Qed.

(** Recording a general-protection fault does not drop a bus error that
  is already stored, although the documentation of [set_fault] says every
  previously stored bus error is dropped: the fault taken next is a bus
  fault at the new address carrying the old error. *)
Theorem set_fault_keeps_stale_bus_error s e v v' op op' :
slot_idle s ->
exists s1 s2 s3,
  set_fault op (memory_bus v e) s = Some (tt, s1) /\
  set_fault op' (general_protection v') s1 = Some (tt, s2) /\
  take_memory_fault s2 = Some (Some (memory_bus v' e, op'), s3).
Proof.
destruct s as [trap va mo has bus]. intros (H & ? & ?); simpl in *; subst.
destruct bus; [done|]. by repeat eexists.
Qed.
End Slot.
Arguments FFISafeMemoryFault : clear implicits.

Lemma fault_slot_roundtrip_witness :
exists s1 s2 : FFISafeMemoryFault nat,
  set_fault Store (general_protection 4096) new = Some (tt, s1) /\
  take_memory_fault s1 = Some (Some (general_protection 4096, Store), s2) /\
  slot_idle s2 /\ take_memory_fault s2 = Some (None, s2).
Proof.
apply (proj2 (fault_slot_roundtrip new Store (general_protection 4096))).
repeat split.
Defined.

Lemma set_fault_keeps_stale_bus_error_witness :
exists s1 s2 s3 : FFISafeMemoryFault nat,
  set_fault Load (memory_bus 4096 7%nat) new = Some (tt, s1) /\
  set_fault Store (general_protection 8192) s1 = Some (tt, s2) /\
  take_memory_fault s2 = Some (Some (memory_bus 8192 7%nat, Store), s3).
Proof. apply set_fault_keeps_stale_bus_error. repeat split. Defined.
End Ffi.
