(* ===== verification/Memops.v ===== *)
(** * Guest-memory primitives ([io-mmu/src/memops.rs], production backend)

    Host memory is the finite map of the readable and writable bytes.  An
    access to an address outside it is undefined behaviour, and so is a
    misaligned atomic access and every [unreachable_unchecked],
    [unwrap_unchecked] or [assert_unchecked] that does not hold: all of them
    are [None].  A theorem that an operation returns [Some] is therefore also a
    theorem that it is memory safe. *)

From S2P Require Import Prelude Convert.
Local Open Scope Z_scope.
Local Open Scope emu_scope.

Abbreviation Mem := (gmap Z Z).

(** ** Bytes of a region *)

Fixpoint load_bytes (mem : Mem) (p : Z) (n : nat) : option (list Z) :=
  match n with
  | O => Some []
  | S n => match mem !! p, load_bytes mem (p + 1) n with
           | Some b, Some l => Some (b :: l)
           | _, _ => None
           end
  end.

Fixpoint write_bytes (mem : Mem) (p : Z) (l : list Z) : Mem :=
  match l with [] => mem | b :: l => <[p := b]> (write_bytes mem (p + 1) l) end.

Definition store_bytes (mem : Mem) (p : Z) (l : list Z) : option Mem :=
  match load_bytes mem p (length l) with
  | Some _ => Some (write_bytes mem p l)
  | None => None
  end.

(** Every stored value is a byte. *)
Definition mem_ok (mem : Mem) : Prop := map_Forall (fun _ b => is_byte b) mem.

Section Access.
Context (e : Endian).

(** ** Single atomic accesses *)

Definition load8 (p : Z) : SM Mem Z := fun mem =>
  match mem !! p with Some b => Some (b, mem) | None => None end.

Definition store8 (p value : Z) : SM Mem unit := fun mem =>
  match mem !! p with Some _ => Some (tt, <[p := value]> mem) | None => None end.

(** [load64_ne_aligned_inner] and its siblings: one relaxed load of an
    [n]-byte atomic. *)
Definition load_ne_aligned_inner (n : nat) (p : Z) : SM Mem Z := fun mem =>
  if is_multiple_of p (Z.of_nat n) then
    match load_bytes mem p n with
    | Some l => Some (from_ne_bytes e l, mem)
    | None => None
    end
  else None.

Definition store_ne_aligned_inner (n : nat) (p value : Z) : SM Mem unit := fun mem =>
  if is_multiple_of p (Z.of_nat n) then
    match store_bytes mem p (to_ne_bytes e n value) with
    | Some mem => Some (tt, mem)
    | None => None
    end
  else None.

(** A part of an unaligned access: [load8] or an aligned load by its width. *)
Definition load_part (w : nat) (p : Z) : SM Mem Z :=
  match w with 1%nat => load8 p | _ => load_ne_aligned_inner w p end.
Definition store_part (w : nat) (p value : Z) : SM Mem unit :=
  match w with 1%nat => store8 p value | _ => store_ne_aligned_inner w p value end.

(** ** Assembling unaligned accesses from aligned parts *)

(** The const functions panic at compile time: [None]. *)
Definition ne_part_shift_inner (offset width total : nat) : option nat :=
  match e with
  | Little => Some offset
  | Big => if (offset + width <=? total)%nat then Some (total - offset - width)%nat else None
  end.

Definition ne_part_shift (total offset width : nat) : option Z :=
  match ne_part_shift_inner offset width total with
  | Some shift =>
      if (shift <? total)%nat then usize_to_u32 (Z.of_nat shift * 8) else None
  | None => None
  end.

(** The parts of [combine_ne_parts!], from the byte offset [off] on: each is
    loaded, widened, shifted into place and or-ed with the others. *)
Fixpoint combine_ne_parts (total : nat) (p : Z) (off : nat) (parts : list nat) : SM Mem Z :=
  match parts with
  | [] => sm_ret 0
  | w :: parts =>
      let! limb := load_part w (p + Z.of_nat off) in
      let! shift := sm_of_option (ne_part_shift total off w) in
      let! rest := combine_ne_parts total p (off + w) parts in
      sm_ret (Z.lor (wrap (bits_of_bytes total) (Z.shiftl limb shift)) rest)
  end.

Fixpoint split_ne_parts (total : nat) (p value : Z) (off : nat) (parts : list nat) :
    SM Mem unit :=
  match parts with
  | [] => sm_ret tt
  | w :: parts =>
      let! shift := sm_of_option (ne_part_shift total off w) in
      store_part w (p + Z.of_nat off) (as_uint (bits_of_bytes w) (Z.shiftr value shift)) ;;!
      split_ne_parts total p value (off + w) parts
  end.

(** The case table of [make_unaligned_ne_access!]: the widths of the parts,
    in address order, by the type's size and the address's remainder. *)
Definition ne_cases (total : nat) (rem : Z) : option (list nat) :=
  match total, rem with
  | 8%nat, 4 => Some [4; 4]%nat
  | 8%nat, (2 | 6) => Some [2; 4; 2]%nat
  | 8%nat, (1 | 5) => Some [1; 2; 4; 1]%nat
  | 8%nat, (3 | 7) => Some [1; 4; 2; 1]%nat
  | 4%nat, 2 => Some [2; 2]%nat
  | 4%nat, (1 | 3) => Some [1; 2; 1]%nat
  | 2%nat, 1 => Some [1; 1]%nat
  | _, _ => None
  end.

(** [TOTAL == size_of::<$ty>()] is a compile-time assertion. *)
Definition parts_total (total : nat) (parts : list nat) : bool :=
  (foldr Nat.add 0 parts =? total)%nat.

(** [load64_ne_inner], [load32_ne_inner] and [load16_ne_inner]. *)
Definition load_ne_inner (total : nat) (p : Z) : SM Mem Z :=
  let rem := p mod Z.of_nat total in
  if rem =? 0 then load_ne_aligned_inner total p
  else match ne_cases total rem with
       | Some parts => sm_assert (parts_total total parts) ;;! combine_ne_parts total p 0 parts
       | None => sm_panic
       end.

Definition store_ne_inner (total : nat) (p value : Z) : SM Mem unit :=
  let rem := p mod Z.of_nat total in
  if rem =? 0 then store_ne_aligned_inner total p value
  else match ne_cases total rem with
       | Some parts =>
           sm_assert (parts_total total parts) ;;! split_ne_parts total p value 0 parts
       | None => sm_panic
       end.

(** ** The public wrappers of [make_load_store!] *)

Definition load_le_aligned (n : nat) (p : Z) : SM Mem Z :=
  let! v := load_ne_aligned_inner n p in sm_ret (from_le e n v).
Definition store_le_aligned (n : nat) (p value : Z) : SM Mem unit :=
  store_ne_aligned_inner n p (to_le e n value).
Definition load_le (n : nat) (p : Z) : SM Mem Z :=
  let! v := load_ne_inner n p in sm_ret (from_le e n v).
Definition store_le (n : nat) (p value : Z) : SM Mem unit :=
  store_ne_inner n p (to_le e n value).

Definition load64_ne_aligned := load_ne_aligned_inner 8.
Definition store64_ne_aligned := store_ne_aligned_inner 8.
Definition load64_le := load_le 8.
Definition load32_le := load_le 4.
Definition load16_le := load_le 2.
Definition store64_le := store_le 8.
Definition store32_le := store_le 4.
Definition store16_le := store_le 2.
Definition load32_le_aligned := load_le_aligned 4.
Definition load_byte : Z -> SM Mem Z := load8.
Definition store_byte : Z -> Z -> SM Mem unit := store8.

(** ** Bulk copies

    The host side of a copy is a buffer (a list of bytes) with an offset into
    it; it does not overlap guest memory. *)

Record CopyState := mkCopy { vm : Mem; host : list Z }.

Definition CHUNK_SIZE : Z := 8.

(** [ptr::read] and [ptr::write] on the host buffer. *)
Definition host_read (h : list Z) (i n : nat) : option (list Z) :=
  if (i + n <=? length h)%nat then Some (take n (drop i h)) else None.
Definition host_write (h : list Z) (i : nat) (l : list Z) : option (list Z) :=
  if (i + length l <=? length h)%nat
  then Some (take i h ++ l ++ drop (i + length l) h) else None.

(** [BulkByteChunkOp]: how one byte and one chunk are copied. *)
Class BulkByteChunkOp := {
  copy_byte : Z -> nat -> Z -> SM CopyState unit;
  copy_chunk : Z -> nat -> Z -> SM CopyState unit;
}.

Definition VmToHost : BulkByteChunkOp := {|
  copy_byte vm_ptr host_ptr i := fun s =>
    match load8 (vm_ptr + i) (vm s) with
    | Some (b, m) =>
        match host_write (host s) (host_ptr + Z.to_nat i) [b] with
        | Some h => Some (tt, mkCopy m h)
        | None => None
        end
    | None => None
    end;
  copy_chunk vm_ptr host_ptr i := fun s =>
    match load_ne_aligned_inner 8 (vm_ptr + i) (vm s) with
    | Some (chunk, m) =>
        match host_write (host s) (host_ptr + Z.to_nat i) (to_ne_bytes e 8 chunk) with
        | Some h => Some (tt, mkCopy m h)
        | None => None
        end
    | None => None
    end;
|}.

Definition HostToVm : BulkByteChunkOp := {|
  copy_byte vm_ptr host_ptr i := fun s =>
    match host_read (host s) (host_ptr + Z.to_nat i) 1 with
    | Some l =>
        match store8 (vm_ptr + i) (from_ne_bytes e l) (vm s) with
        | Some (_, m) => Some (tt, mkCopy m (host s))
        | None => None
        end
    | None => None
    end;
  copy_chunk vm_ptr host_ptr i := fun s =>
    match host_read (host s) (host_ptr + Z.to_nat i) 8 with
    | Some l =>
        match store_ne_aligned_inner 8 (vm_ptr + i) (from_ne_bytes e l) (vm s) with
        | Some (_, m) => Some (tt, mkCopy m (host s))
        | None => None
        end
    | None => None
    end;
|}.

(** [ptr.align_offset(align)]: the distance to the next aligned address. *)
Definition align_offset (p align : Z) : Z := (- p) mod align.

(** [while i < mid_end { copy_chunk(i); i += CHUNK_SIZE }]: every round
    advances [i], so [mid_end - i] rounds of fuel are enough. *)
Fixpoint chunk_loop (op : BulkByteChunkOp) (fuel : nat) (vm_ptr : Z) (host_ptr : nat)
    (i mid_end : Z) : SM CopyState unit :=
  if i <? mid_end then
    match fuel with
    | O => sm_panic
    | S fuel =>
        copy_chunk vm_ptr host_ptr i ;;!
        chunk_loop op fuel vm_ptr host_ptr (i + CHUNK_SIZE) mid_end
    end
  else sm_ret tt.

Definition bulk_byte_chunk_copy (op : BulkByteChunkOp) (vm_ptr : Z) (host_ptr : nat)
    (count : Z) : SM CopyState unit :=
  let prefix := Z.min (align_offset vm_ptr CHUNK_SIZE) count in
  sm_for (seqZ 0 prefix) (fun i => copy_byte vm_ptr host_ptr i) ;;!
  let mid_len := (count - prefix) / CHUNK_SIZE in
  let mid_end := prefix + mid_len * CHUNK_SIZE in
  sm_assert (mid_end <=? count) ;;!
  chunk_loop op (Z.to_nat mid_end) vm_ptr host_ptr prefix mid_end ;;!
  sm_for (seqZ mid_end (count - mid_end)) (fun i => copy_byte vm_ptr host_ptr i).

(** [copy_nonoverlapping_vm_to_host(src, dst, count)] and
    [copy_nonoverlapping_host_to_vm(src, dst, count)]. *)
Definition copy_nonoverlapping_vm_to_host (src : Z) (dst : nat) (count : Z) :
    SM CopyState unit := bulk_byte_chunk_copy VmToHost src dst count.
Definition copy_nonoverlapping_host_to_vm (src : nat) (dst : Z) (count : Z) :
    SM CopyState unit := bulk_byte_chunk_copy HostToVm dst src count.
End Access.

(** ** Lemmas on regions *)

Lemma load_bytes_length mem p n l : load_bytes mem p n = Some l -> length l = n.
Proof.
  revert p l. induction n as [|n IH]; intros p l; simpl; [by intros [= <-]|].
  repeat case_match; try done. intros [= <-]. simpl. f_equal. eauto.
Qed.

Lemma load_bytes_lookup mem p n l :
  load_bytes mem p n = Some l <->
  length l = n /\ forall i, 0 <= i < Z.of_nat n -> mem !! (p + i) = l !! Z.to_nat i.
Proof.
  revert p l. induction n as [|n IH]; intros p l; simpl.
  - split; [intros [= <-]; split; [done|lia]|]. intros [H _]. by destruct l.
  - split.
    + destruct (mem !! p) as [b|] eqn:Eb; [|done].
      destruct (load_bytes mem (p + 1) n) as [l'|] eqn:El; [|done]. intros [= <-].
      apply IH in El as [Hl Hi]. split; [by simpl; f_equal|]. intros i Hr.
      destruct (decide (i = 0)) as [->|]; [by rewrite Z.add_0_r|].
      replace (Z.to_nat i) with (S (Z.to_nat (i - 1))) by lia. simpl.
      rewrite <- Hi by lia. f_equal; lia.
    + intros [Hl Hi]. destruct l as [|b l]; [done|]. injection Hl as Hl.
      pose proof (Hi 0 ltac:(lia)) as H0. rewrite Z.add_0_r in H0. simpl in H0. rewrite H0.
      replace (load_bytes mem (p + 1) n) with (Some l); [done|]. symmetry. apply IH.
      split; [done|]. intros i Hr. specialize (Hi (i + 1) ltac:(lia)).
      replace (Z.to_nat (i + 1)) with (S (Z.to_nat i)) in Hi by lia. simpl in Hi.
      rewrite <- Hi. f_equal; lia.
Qed.

Lemma load_bytes_app mem p n m l1 l2 :
  load_bytes mem p n = Some l1 -> load_bytes mem (p + Z.of_nat n) m = Some l2 ->
  load_bytes mem p (n + m) = Some (l1 ++ l2).
Proof.
  revert p l1. induction n as [|n IH]; intros p l1; simpl.
  - intros [= <-]. by rewrite Z.add_0_r.
  - destruct (mem !! p); [|done]. destruct (load_bytes mem (p + 1) n) eqn:E; [|done].
    intros [= <-] H2. rewrite (IH _ _ E); [done|]. rewrite <- H2. f_equal; lia.
Qed.

Lemma load_bytes_split mem p n m l :
  load_bytes mem p (n + m) = Some l ->
  load_bytes mem p n = Some (take n l) /\
  load_bytes mem (p + Z.of_nat n) m = Some (drop n l).
Proof.
  rewrite !load_bytes_lookup. intros [Hl Hi].
  rewrite length_take, length_drop. split_and!; try lia; intros i Hr.
  - rewrite lookup_take_lt by lia. apply Hi; lia.
  - rewrite lookup_drop. rewrite <- Z.add_assoc, Hi by lia. f_equal; lia.
Qed.

Lemma lookup_write_bytes mem p l a :
  write_bytes mem p l !! a =
  if decide (p <= a < p + Z.of_nat (length l)) then l !! Z.to_nat (a - p) else mem !! a.
Proof.
  revert p. induction l as [|b l IH]; intros p; simpl.
  - by rewrite decide_False by lia.
  - destruct (decide (a = p)) as [->|].
    + rewrite lookup_insert_eq, decide_True by lia. by rewrite Z.sub_diag.
    + rewrite lookup_insert_ne, IH by done. repeat case_decide; try lia; [|done].
      by replace (Z.to_nat (a - p)) with (S (Z.to_nat (a - (p + 1)))) by lia.
Qed.

Lemma write_bytes_app mem p l1 l2 :
  write_bytes mem p (l1 ++ l2) =
  write_bytes (write_bytes mem p l1) (p + Z.of_nat (length l1)) l2.
Proof.
  apply map_eq. intros a. rewrite !lookup_write_bytes, length_app.
  repeat case_decide; try lia; try done.
  - rewrite lookup_app_r by lia. f_equal; lia.
  - rewrite lookup_app_l by lia. done.
Qed.

Lemma load_write_same mem p l : load_bytes (write_bytes mem p l) p (length l) = Some l.
Proof.
  apply load_bytes_lookup. split; [done|]. intros i Hi.
  rewrite lookup_write_bytes, decide_True by lia. f_equal; lia.
Qed.

(** Writing leaves a region that is mapped mapped, and one that is disjoint
    unchanged. *)
Lemma load_write_mapped mem p l q n l0 :
  load_bytes mem q n = Some l0 ->
  exists l1, load_bytes (write_bytes mem p l) q n = Some l1.
Proof.
  revert q l0. induction n as [|n IH]; intros q l0; simpl; [eauto|].
  destruct (mem !! q) eqn:E; [|done]. destruct (load_bytes mem (q + 1) n) eqn:E'; [|done].
  intros _. destruct (IH _ _ E') as [l2 ->]. rewrite lookup_write_bytes.
  case_decide; [|rewrite E; eauto].
  destruct (lookup_lt_is_Some_2 l (Z.to_nat (q - p)) ltac:(lia)) as [b ->]. eauto.
Qed.

Lemma load_write_disjoint mem p l q n :
  p + Z.of_nat (length l) <= q \/ q + Z.of_nat n <= p ->
  load_bytes (write_bytes mem p l) q n = load_bytes mem q n.
Proof.
  revert q. induction n as [|n IH]; intros q Hd; simpl; [done|].
  rewrite lookup_write_bytes, decide_False by lia. rewrite IH by lia. done.
Qed.

Lemma store_bytes_mapped mem p l l0 :
  load_bytes mem p (length l) = Some l0 -> store_bytes mem p l = Some (write_bytes mem p l).
Proof. intros H. unfold store_bytes. by rewrite H. Qed.

Lemma load_bytes_is_byte mem p n l :
  mem_ok mem -> load_bytes mem p n = Some l -> Forall is_byte l.
Proof.
  intros Hok. revert p l. induction n as [|n IH]; intros p l; simpl; [by intros [= <-]|].
  destruct (mem !! p) eqn:E; [|done]. destruct (load_bytes mem (p + 1) n) eqn:E'; [|done].
  intros [= <-]. constructor; [by apply (Hok _ _ E)|eauto].
Qed.

Lemma write_bytes_ok mem p l : mem_ok mem -> Forall is_byte l -> mem_ok (write_bytes mem p l).
Proof.
  intros Hok Hl a b. rewrite lookup_write_bytes. case_decide; [|apply Hok].
  intros Hb. by eapply Forall_lookup_1 in Hl.
Qed.

#[export] Hint Resolve load_bytes_is_byte write_bytes_ok : emu.

(** ** Native-endian values of byte strings *)

(** The value of a concatenation, as the shifts of its halves: the low half of
    a little-endian word comes first, the high half of a big-endian one. *)
Lemma from_ne_bytes_app e l1 l2 :
  from_ne_bytes e (l1 ++ l2) =
  match e with
  | Little => from_ne_bytes e l1 + 2 ^ bits_of_bytes (length l1) * from_ne_bytes e l2
  | Big => 2 ^ bits_of_bytes (length l2) * from_ne_bytes e l1 + from_ne_bytes e l2
  end.
Proof.
  destruct e; simpl; [apply from_le_bytes_app|].
  rewrite rev_app_distr, from_le_bytes_app, length_rev. lia.
Qed.

Lemma from_ne_bytes_fits e l :
  Forall is_byte l -> fits (bits_of_bytes (length l)) (from_ne_bytes e l).
Proof.
  intros. destruct e; simpl; [by apply from_le_bytes_fits|].
  rewrite <- length_rev. by apply from_le_bytes_fits, Forall_rev.
Qed.

Lemma from_ne_bytes_one e b : from_ne_bytes e [b] = b.
Proof. destruct e; simpl; lia. Qed.

Lemma to_ne_bytes_one e z : to_ne_bytes e 1 z = [z mod 256].
Proof. by destruct e. Qed.

(** ** Unaligned accesses *)

(** The parts of an access are consecutive, non-empty and naturally aligned. *)
Fixpoint parts_aligned (p : Z) (off : nat) (parts : list nat) : Prop :=
  match parts with
  | [] => True
  | w :: parts => (0 < w)%nat /\ (p + Z.of_nat off) mod Z.of_nat w = 0 /\
                  parts_aligned p (off + w) parts
  end.

Definition widths_total (parts : list nat) : nat := foldr Nat.add 0%nat parts.

(** Every remainder of an unaligned address has a case, and its parts are
    aligned at that address and add up to the whole width. *)
Lemma ne_cases_spec total p :
  total = 2%nat \/ total = 4%nat \/ total = 8%nat -> p mod Z.of_nat total <> 0 ->
  exists parts, ne_cases total (p mod Z.of_nat total) = Some parts /\
    parts_total total parts = true /\ parts_aligned p 0 parts.
Proof.
  intros Ht Hne. pose proof (Z.mod_pos_bound p (Z.of_nat total) ltac:(lia)) as Hb.
  remember (p mod Z.of_nat total) as r eqn:Hr.
  assert (r = 1 \/ r = 2 \/ r = 3 \/ r = 4 \/ r = 5 \/ r = 6 \/ r = 7) as Hcase by lia.
  destruct Hcase as [->|[->|[->|[->|[->|[->| ->]]]]]]; destruct Ht as [->|[->| ->]];
    simpl in Hb, Hr; try lia; (eexists; split; [reflexivity|]; split; [reflexivity|]);
    simpl; change (Z.of_nat 1) with 1; change (Z.of_nat 2) with 2;
    change (Z.of_nat 4) with 4; repeat split; try lia;
    Z.to_euclidean_division_equations; lia.
Qed.

#[global] Arguments from_ne_bytes : simpl never.
#[global] Arguments to_ne_bytes : simpl never.

Lemma load_ne_aligned_spec e n p mem l :
  p mod Z.of_nat n = 0 -> load_bytes mem p n = Some l ->
  load_ne_aligned_inner e n p mem = Some (from_ne_bytes e l, mem).
Proof.
  intros Hal Hl. unfold load_ne_aligned_inner, is_multiple_of. by rewrite Hal, Hl.
Qed.

Lemma store_ne_aligned_spec e n p v mem l :
  p mod Z.of_nat n = 0 -> load_bytes mem p n = Some l ->
  store_ne_aligned_inner e n p v mem = Some (tt, write_bytes mem p (to_ne_bytes e n v)).
Proof.
  intros Hal Hl. unfold store_ne_aligned_inner, is_multiple_of. rewrite Hal. simpl.
  rewrite (store_bytes_mapped _ _ _ l); [done|]. by rewrite length_to_ne_bytes.
Qed.

Lemma load_part_spec e w p mem l :
  p mod Z.of_nat w = 0 -> load_bytes mem p w = Some l ->
  load_part e w p mem = Some (from_ne_bytes e l, mem).
Proof.
  intros Hal Hl. destruct w as [|[|w]]; try by apply load_ne_aligned_spec.
  simpl in *. unfold load8. destruct (mem !! p) as [b|]; [|done]. simplify_eq.
  by rewrite from_ne_bytes_one.
Qed.

Lemma store_part_spec e w p v mem l :
  fits (bits_of_bytes w) v -> p mod Z.of_nat w = 0 -> load_bytes mem p w = Some l ->
  store_part e w p v mem = Some (tt, write_bytes mem p (to_ne_bytes e w v)).
Proof.
  intros Hv Hal Hl. destruct w as [|[|w]]; try by eapply store_ne_aligned_spec.
  rewrite to_ne_bytes_one. simpl in *. unfold store8.
  destruct (mem !! p); [|done]. unfold fits in Hv. change (2 ^ bits_of_bytes 1) with 256 in Hv.
  by rewrite Z.mod_small by lia.
Qed.

Lemma ne_part_shift_spec e total off w :
  (0 < w)%nat -> (off + w <= total)%nat -> (total <= 8)%nat ->
  ne_part_shift e total off w =
    Some (match e with Little => bits_of_bytes off | Big => bits_of_bytes (total - off - w) end).
Proof.
  intros Hw Ho Ht. unfold ne_part_shift, ne_part_shift_inner, usize_to_u32, bits_of_bytes.
  destruct e.
  - rewrite (proj2 (Nat.ltb_lt _ _)) by lia.
    rewrite checked_usize_cast_spec, decide_True by (unfold fits, USIZE_BITS; lia).
    f_equal; lia.
  - rewrite (proj2 (Nat.leb_le _ _)), (proj2 (Nat.ltb_lt _ _)) by lia.
    rewrite checked_usize_cast_spec, decide_True by (unfold fits, USIZE_BITS; lia).
    f_equal; lia.
Qed.

(** Shifting a limb of [w] bytes up by [s] bytes inside a word of [total]. *)
Lemma shift_limb total w s limb :
  fits (bits_of_bytes w) limb -> (s + w <= total)%nat ->
  wrap (bits_of_bytes total) (Z.shiftl limb (bits_of_bytes s)) = limb * 2 ^ bits_of_bytes s.
Proof.
  intros [? ?] Hs. rewrite Z.shiftl_mul_pow2 by (unfold bits_of_bytes; lia).
  apply wrap_small. pose proof (bits_of_bytes_pos s). pose proof (bits_of_bytes_add s w) as E.
  assert (2 ^ bits_of_bytes (s + w) <= 2 ^ bits_of_bytes total).
  { apply Z.pow_le_mono_r; unfold bits_of_bytes; lia. }
  unfold fits. nia.
Qed.

(** Two limbs that sit next to each other or together into their sum. *)
Lemma lor_limbs n lo hi : fits n lo -> 0 <= n -> Z.lor lo (hi * 2 ^ n) = lo + 2 ^ n * hi.
Proof.
  intros Hlo Hn. rewrite Z.lor_comm, (lor_aligned_low n); [lia|done| |done].
  apply Z.mod_mul. pose proof (Z.pow_pos_nonneg 2 n). lia.
Qed.

Lemma combine_spec e total p mem parts off l :
  (total <= 8)%nat -> parts_aligned p off parts -> (off + widths_total parts = total)%nat ->
  load_bytes mem (p + Z.of_nat off) (widths_total parts) = Some l -> Forall is_byte l ->
  combine_ne_parts e total p off parts mem =
    Some (match e with
          | Little => from_ne_bytes Little l * 2 ^ bits_of_bytes off
          | Big => from_ne_bytes Big l
          end, mem).
Proof.
  intros Ht. revert off l. induction parts as [|w parts IH]; intros off l Hal Hsum Hl Hb; simpl in *.
  - injection Hl as <-. by destruct e.
  - destruct Hal as (Hw & Hal & Hrest). apply load_bytes_split in Hl as [Hl1 Hl2].
    pose proof (load_bytes_length _ _ _ _ Hl1) as Hlen1.
    pose proof (load_bytes_length _ _ _ _ Hl2) as Hlen2.
    assert (Forall is_byte (take w l)) as Hb1 by by apply Forall_take.
    assert (Forall is_byte (drop w l)) as Hb2 by by apply Forall_drop.
    pose proof (from_ne_bytes_fits e _ Hb1) as Hf1. pose proof (from_ne_bytes_fits e _ Hb2) as Hf2.
    pose proof (from_ne_bytes_app e (take w l) (drop w l)) as Happ.
    rewrite take_drop, Hlen1, Hlen2 in Happ. rewrite Hlen1 in Hf1. rewrite Hlen2 in Hf2.
    unfold sm_bind at 1. rewrite (load_part_spec e w _ mem _ Hal Hl1).
    unfold sm_bind at 1. unfold sm_of_option at 1.
    rewrite (ne_part_shift_spec e total off w) by lia.
    unfold sm_bind at 1. rewrite <- Z.add_assoc, <- Nat2Z.inj_add in Hl2.
    rewrite (IH _ _ Hrest ltac:(lia) Hl2 Hb2). unfold sm_ret. f_equal. f_equal.
    destruct e; rewrite Happ.
    + rewrite (shift_limb total w off) by (done || lia).
      rewrite bits_of_bytes_add.
      rewrite (Z.mul_comm (2 ^ bits_of_bytes off) (2 ^ bits_of_bytes w)), Z.mul_assoc.
      rewrite <- !Z.shiftl_mul_pow2 by (unfold bits_of_bytes; lia).
      rewrite <- Z.shiftl_lor. f_equal.
      rewrite Z.shiftl_mul_pow2 by (unfold bits_of_bytes; lia).
      apply lor_limbs; [done|unfold bits_of_bytes; lia].
    + rewrite (shift_limb total w) by (done || lia).
      replace (total - off - w)%nat with (widths_total parts) by lia.
      rewrite Z.lor_comm, lor_limbs; [lia|done|unfold bits_of_bytes; lia].
Qed.

(** The [n] bytes of a word of [total] that a store puts at offset [off],
    when [off + n = total]. *)
Definition ne_segment (e : Endian) (off n : nat) (v : Z) : list Z :=
  match e with
  | Little => to_le_bytes n (v / 2 ^ bits_of_bytes off)
  | Big => rev (to_le_bytes n v)
  end.

Lemma length_ne_segment e off n v : length (ne_segment e off n v) = n.
Proof. destruct e; simpl; rewrite ?length_rev; apply length_to_le_bytes. Qed.

(** The first [w] bytes of a segment are the limb the code shifts out. *)
Lemma ne_segment_app e off w n v :
  ne_segment e off (w + n) v =
  to_ne_bytes e w (as_uint (bits_of_bytes w) (Z.shiftr v
    (match e with Little => bits_of_bytes off | Big => bits_of_bytes n end)))
  ++ ne_segment e (off + w) n v.
Proof.
  pose proof (bits_of_bytes_pos off). pose proof (bits_of_bytes_pos w).
  unfold as_uint. destruct e; unfold to_ne_bytes; simpl ne_segment;
    rewrite to_le_bytes_wrap, Z.shiftr_div_pow2 by (unfold bits_of_bytes; lia).
  - rewrite to_le_bytes_app, Z.div_div, bits_of_bytes_add by lia. done.
  - rewrite Nat.add_comm, to_le_bytes_app. by rewrite rev_app_distr.
Qed.

Lemma split_spec e total p v parts off mem l :
  (total <= 8)%nat -> parts_aligned p off parts -> (off + widths_total parts = total)%nat ->
  load_bytes mem (p + Z.of_nat off) (widths_total parts) = Some l ->
  split_ne_parts e total p v off parts mem =
    Some (tt, write_bytes mem (p + Z.of_nat off) (ne_segment e off (widths_total parts) v)).
Proof.
  intros Ht. revert off mem l.
  induction parts as [|w parts IH]; intros off mem l Hal Hsum Hl; simpl in *.
  - by destruct e.
  - destruct Hal as (Hw & Hal & Hrest). apply load_bytes_split in Hl as [Hl1 Hl2].
    unfold sm_bind at 1, sm_of_option. rewrite (ne_part_shift_spec e total off w) by lia.
    replace (total - off - w)%nat with (widths_total parts) by lia.
    unfold sm_bind at 1.
    assert (forall z, fits (bits_of_bytes w) (as_uint (bits_of_bytes w) z)) as Hfit.
    { intros z. apply wrap_fits. unfold bits_of_bytes. lia. }
    rewrite (store_part_spec e w _ _ mem _ (Hfit _) Hal Hl1).
    rewrite ne_segment_app, write_bytes_app, length_to_ne_bytes.
    rewrite <- Z.add_assoc, <- Nat2Z.inj_add.
    eapply load_write_mapped in Hl2 as [l2 Hl2].
    rewrite <- Z.add_assoc, <- Nat2Z.inj_add in Hl2.
    apply (IH _ _ _ Hrest ltac:(lia) Hl2).
Qed.

(** The sizes [make_load_store!] is instantiated at. *)
Definition access_width (n : nat) : Prop := n = 2%nat \/ n = 4%nat \/ n = 8%nat.

Lemma parts_total_eq n parts : parts_total n parts = true -> widths_total parts = n.
Proof. apply Nat.eqb_eq. Qed.

Lemma load_ne_spec e n p mem l :
  access_width n -> load_bytes mem p n = Some l -> Forall is_byte l ->
  load_ne_inner e n p mem = Some (from_ne_bytes e l, mem).
Proof.
  intros Hn Hl Hb. unfold load_ne_inner. destruct (Z.eqb_spec (p mod Z.of_nat n) 0) as [H0|H0].
  - by apply load_ne_aligned_spec.
  - destruct (ne_cases_spec n p Hn H0) as (parts & -> & Htot & Hal).
    unfold sm_bind, sm_assert. rewrite Htot. unfold sm_ret at 1. cbv beta iota. apply parts_total_eq in Htot.
    rewrite (combine_spec e n p mem parts 0 l); [| unfold access_width in Hn; lia|done|lia| |done].
    + destruct e; [|done]. change (2 ^ bits_of_bytes 0) with 1. by rewrite Z.mul_1_r.
    + by rewrite Z.add_0_r, Htot.
Qed.

Lemma store_ne_spec e n p v mem l :
  access_width n -> load_bytes mem p n = Some l ->
  store_ne_inner e n p v mem = Some (tt, write_bytes mem p (to_ne_bytes e n v)).
Proof.
  intros Hn Hl. unfold store_ne_inner. destruct (Z.eqb_spec (p mod Z.of_nat n) 0) as [H0|H0].
  - by eapply store_ne_aligned_spec.
  - destruct (ne_cases_spec n p Hn H0) as (parts & -> & Htot & Hal).
    unfold sm_bind, sm_assert. rewrite Htot. unfold sm_ret at 1. cbv beta iota. apply parts_total_eq in Htot.
    rewrite (split_spec e n p v parts 0 mem l); [|unfold access_width in Hn; lia|done|lia|].
    + rewrite Z.add_0_r, Htot. unfold ne_segment, to_ne_bytes.
      destruct e; [|done]. change (2 ^ bits_of_bytes 0) with 1. by rewrite Z.div_1_r.
    + by rewrite Z.add_0_r, Htot.
Qed.

Lemma load_le_spec e n p mem l :
  access_width n -> load_bytes mem p n = Some l -> Forall is_byte l ->
  load_le e n p mem = Some (from_le_bytes l, mem).
Proof.
  intros Hn Hl Hb. unfold load_le, sm_bind, sm_ret. rewrite (load_ne_spec e n p mem l) by done.
  pose proof (load_bytes_length _ _ _ _ Hl) as <-. by rewrite from_le_from_ne_bytes.
Qed.

Lemma store_le_spec e n p v mem l :
  access_width n -> load_bytes mem p n = Some l ->
  store_le e n p v mem = Some (tt, write_bytes mem p (to_le_bytes n v)).
Proof.
  intros Hn Hl. unfold store_le. erewrite store_ne_spec by done. by rewrite to_ne_bytes_to_le.
Qed.

Lemma load_le_aligned_spec e n p mem l :
  p mod Z.of_nat n = 0 -> load_bytes mem p n = Some l -> Forall is_byte l ->
  load_le_aligned e n p mem = Some (from_le_bytes l, mem).
Proof.
  intros Hal Hl Hb. unfold load_le_aligned, sm_bind, sm_ret.
  rewrite (load_ne_aligned_spec e n p mem l) by done.
  pose proof (load_bytes_length _ _ _ _ Hl) as <-. by rewrite from_le_from_ne_bytes.
Qed.

(** C27: an unaligned access is correct at every address and on both byte
    orders.  On mapped memory a 2-, 4- or 8-byte little-endian load returns the
    value of the bytes in address order, and a store writes exactly the value's
    bytes and nothing else; every sub-access of either is naturally aligned and
    inside the access, no case of the remainder table is missing (any of these
    would be undefined), and loading after a store gives the value back. *)
Theorem unaligned_access_correct e n p v mem l :
  access_width n -> mem_ok mem -> load_bytes mem p n = Some l ->
  load_le e n p mem = Some (from_le_bytes l, mem) /\
  store_le e n p v mem = Some (tt, write_bytes mem p (to_le_bytes n v)) /\
  load_le e n p (write_bytes mem p (to_le_bytes n v)) =
    Some (wrap (bits_of_bytes n) v, write_bytes mem p (to_le_bytes n v)).
Proof.
  intros Hn Hok Hl. split_and!.
  - apply load_le_spec; eauto with emu.
  - by eapply store_le_spec.
  - erewrite load_le_spec; [|done| |apply (to_le_bytes_is_byte n v)].
    + by rewrite from_to_le_bytes.
    + rewrite <- (length_to_le_bytes n v) at 2. apply load_write_same.
Qed.

Lemma unaligned_access_correct_witness :
  let mem := write_bytes ∅ 4096 [1; 2; 3; 4; 5; 6; 7; 8; 9; 10; 11] in
  load_le Big 8 4099 mem = Some (0x0b0a090807060504, mem) /\
  store_le Big 8 4099 0x1122334455667788 mem =
    Some (tt, write_bytes mem 4099 (to_le_bytes 8 0x1122334455667788)) /\
  load_le Big 8 4099 (write_bytes mem 4099 (to_le_bytes 8 0x1122334455667788)) =
    Some (wrap (bits_of_bytes 8) 0x1122334455667788,
          write_bytes mem 4099 (to_le_bytes 8 0x1122334455667788)).
Proof.
  intros mem.
  apply (unaligned_access_correct Big 8 4099 0x1122334455667788 mem
           [4; 5; 6; 7; 8; 9; 10; 11]).
  - right. by right.
  - apply write_bytes_ok; [by apply map_Forall_empty|].
    repeat constructor; by vm_compute.
  - by vm_compute.
Defined.

(** ** Bulk copies *)

Section Bulk.
Context (op : BulkByteChunkOp) (vm_ptr : Z) (host_ptr : nat) (count : Z).
(** [st i] is the state once the first [i] bytes are copied. *)
Context (st : Z -> CopyState).
Context (Hcount : 0 <= count).
Context (Hbyte : forall i, 0 <= i < count ->
  copy_byte vm_ptr host_ptr i (st i) = Some (tt, st (i + 1))).
Context (Hchunk : forall i, 0 <= i -> i + 8 <= count -> (vm_ptr + i) mod 8 = 0 ->
  copy_chunk vm_ptr host_ptr i (st i) = Some (tt, st (i + 8))).

Lemma byte_loop_spec i k :
  0 <= i -> 0 <= k -> i + k <= count ->
  sm_for (seqZ i k) (fun i => copy_byte vm_ptr host_ptr i) (st i) = Some (tt, st (i + k)).
Proof.
  intros Hi Hk. revert i Hi. pattern k. revert k Hk. apply natlike_ind; [|].
  - intros i _ _. simpl. by rewrite Z.add_0_r.
  - intros k Hk IH i Hi Hle. rewrite seqZ_cons by lia. simpl. unfold sm_bind.
    rewrite Hbyte by lia. rewrite Z.pred_succ, IH by lia. f_equal. f_equal. f_equal. lia.
Qed.

Lemma chunk_loop_spec fuel i mid_end :
  0 <= i <= mid_end -> mid_end <= count -> (mid_end - i) mod 8 = 0 ->
  (vm_ptr + i) mod 8 = 0 -> mid_end - i <= Z.of_nat fuel ->
  chunk_loop op fuel vm_ptr host_ptr i mid_end (st i) = Some (tt, st mid_end).
Proof.
  revert i. induction fuel as [|fuel IH]; intros i Hi He Hm Hal Hf; simpl;
    destruct (Z.ltb_spec i mid_end) as [Hlt|Hge]; try lia;
    try (by replace mid_end with i by lia).
  assert (i + 8 <= mid_end) by (Z.to_euclidean_division_equations; lia).
  unfold sm_bind. rewrite Hchunk by (done || lia). change CHUNK_SIZE with 8.
  apply IH; try lia; Z.to_euclidean_division_equations; lia.
Qed.

Lemma bulk_copy_spec :
  bulk_byte_chunk_copy op vm_ptr host_ptr count (st 0) = Some (tt, st count).
Proof.
  unfold bulk_byte_chunk_copy, align_offset. change CHUNK_SIZE with 8.
  set (prefix := Z.min _ count). set (mid_end := prefix + _).
  assert (0 <= prefix <= count) as Hp.
  { unfold prefix. pose proof (Z.mod_pos_bound (- vm_ptr) 8). lia. }
  assert (prefix <= mid_end <= count) as Hm.
  { unfold mid_end. Z.to_euclidean_division_equations; lia. }
  assert ((mid_end - prefix) mod 8 = 0) as Hmod.
  { unfold mid_end. by rewrite Z.add_simpl_l, Z.mod_mul by lia. }
  unfold sm_bind. rewrite (byte_loop_spec 0 prefix) by lia. unfold sm_assert.
  rewrite (proj2 (Z.leb_le _ _)) by lia. unfold sm_ret. rewrite Z.add_0_l.
  assert (chunk_loop op (Z.to_nat mid_end) vm_ptr host_ptr prefix mid_end (st prefix)
    = Some (tt, st mid_end)) as ->.
  { destruct (decide (prefix = count)) as [Heq|Hne].
    - replace mid_end with prefix by lia. destruct (Z.to_nat prefix); simpl;
        by rewrite Z.ltb_irrefl.
    - apply chunk_loop_spec; try lia.
      unfold prefix in *. Z.to_euclidean_division_equations; lia. }
  rewrite (byte_loop_spec mid_end) by lia. f_equal. f_equal. f_equal. lia.
Qed.
End Bulk.

(** The buffer [h] with [l] at offset [off]. *)
Definition host_put (h : list Z) (off : nat) (l : list Z) : list Z :=
  take off h ++ l ++ drop (off + length l) h.

Lemma length_host_put h off l :
  (off + length l <= length h)%nat -> length (host_put h off l) = length h.
Proof. intros. unfold host_put. rewrite !length_app, length_take, length_drop. lia. Qed.

Lemma host_put_app h off l1 l2 :
  (off + length l1 + length l2 <= length h)%nat ->
  host_put (host_put h off l1) (off + length l1) l2 = host_put h off (l1 ++ l2).
Proof.
  intros Hle. unfold host_put. rewrite (app_assoc (take off h) l1).
  rewrite take_app_length' by (rewrite length_app, length_take; lia).
  rewrite (drop_app_ge (take off h ++ l1)) by (rewrite length_app, length_take; lia).
  rewrite drop_drop, length_app, length_app, length_take, <- !app_assoc.
  do 4 f_equal. lia.
Qed.

Lemma host_write_put h i l :
  (i + length l <= length h)%nat -> host_write h i l = Some (host_put h i l).
Proof. intros. unfold host_write. by rewrite (proj2 (Nat.leb_le _ _)). Qed.

Lemma lookup_load_bytes mem p n l i :
  load_bytes mem p n = Some l -> 0 <= i < Z.of_nat n ->
  exists b, mem !! (p + i) = Some b /\ take (Z.to_nat (i + 1)) l = take (Z.to_nat i) l ++ [b].
Proof.
  intros [Hlen Hl]%load_bytes_lookup Hi. rewrite Hl by done.
  destruct (lookup_lt_is_Some_2 l (Z.to_nat i) ltac:(lia)) as [b Hb]. exists b.
  split; [done|]. replace (Z.to_nat (i + 1)) with (S (Z.to_nat i)) by lia. by apply take_S_r.
Qed.

Lemma take_eight (l : list Z) i :
  0 <= i -> take (Z.to_nat (i + 8)) l = take (Z.to_nat i) l ++ take 8 (drop (Z.to_nat i) l).
Proof. intros. rewrite take_take_drop. f_equal. lia. Qed.

Lemma load_bytes_sub mem p n l i m :
  load_bytes mem p n = Some l -> (i + m <= n)%nat ->
  load_bytes mem (p + Z.of_nat i) m = Some (take m (drop i l)).
Proof.
  intros Hl Hi. replace n with (i + (m + (n - i - m)))%nat in Hl by lia.
  apply load_bytes_split in Hl as [_ Hl]. by apply load_bytes_split in Hl as [Hl _].
Qed.

Lemma vm_to_host_spec e src dst count mem h l :
  0 <= count -> load_bytes mem src (Z.to_nat count) = Some l -> Forall is_byte l ->
  (dst + Z.to_nat count <= length h)%nat ->
  copy_nonoverlapping_vm_to_host e src dst count (mkCopy mem h) =
    Some (tt, mkCopy mem (host_put h dst l)).
Proof.
  intros Hc Hl Hb Hh. pose proof (load_bytes_length _ _ _ _ Hl) as Hlen.
  set (st := fun i => mkCopy mem (host_put h dst (take (Z.to_nat i) l))).
  replace (mkCopy mem h) with (st 0).
  2: { unfold st, host_put. simpl. by rewrite Nat.add_0_r, take_drop. }
  replace (host_put h dst l) with (host_put h dst (take (Z.to_nat count) l))
    by (by rewrite take_ge by lia).
  apply (bulk_copy_spec (VmToHost e) src dst count st Hc).
  - intros i Hi. simpl. unfold load8.
    destruct (lookup_load_bytes _ _ _ _ i Hl ltac:(lia)) as (b & -> & Ht).
    replace (dst + Z.to_nat i)%nat with (dst + length (take (Z.to_nat i) l))%nat
      by (rewrite length_take; lia).
    rewrite host_write_put.
    + rewrite host_put_app by (rewrite length_take; simpl; lia). unfold st. by rewrite Ht.
    + rewrite length_host_put; rewrite length_take; simpl; lia.
  - intros i Hi Hle Hal. simpl.
    pose proof (load_bytes_sub _ _ _ _ (Z.to_nat i) 8 Hl ltac:(lia)) as Hl8.
    rewrite Z2Nat.id in Hl8 by lia. rewrite (load_ne_aligned_spec e 8 _ _ _ Hal Hl8).
    rewrite to_from_ne_bytes.
    2: { apply (load_bytes_length _ _ _ _ Hl8). }
    2: { by apply Forall_take, Forall_drop. }
    replace (dst + Z.to_nat i)%nat with (dst + length (take (Z.to_nat i) l))%nat
      by (rewrite length_take; lia).
    rewrite host_write_put.
    + rewrite host_put_app by (rewrite !length_take, length_drop; lia).
      unfold st. by rewrite take_eight by lia.
    + rewrite length_host_put; rewrite !length_take, ?length_drop; lia.
Qed.

Lemma host_read_spec h off i n m l :
  l = take m (drop off h) -> (off + m <= length h)%nat -> (i + n <= m)%nat ->
  host_read h (off + i) n = Some (take n (drop i l)).
Proof.
  intros -> Hh Hi. unfold host_read. rewrite (proj2 (Nat.leb_le _ _)) by lia. f_equal.
  rewrite <- drop_drop, <- (take_drop m (drop off h)) at 1.
  rewrite drop_app_le by (rewrite length_take, length_drop; lia).
  rewrite take_app_le; [done|]. rewrite length_drop, length_take, length_drop. lia.
Qed.

Lemma host_to_vm_spec e src dst count mem h l l0 :
  0 <= count -> (src + Z.to_nat count <= length h)%nat ->
  l = take (Z.to_nat count) (drop src h) -> Forall is_byte l ->
  load_bytes mem dst (Z.to_nat count) = Some l0 ->
  copy_nonoverlapping_host_to_vm e src dst count (mkCopy mem h) =
    Some (tt, mkCopy (write_bytes mem dst l) h).
Proof.
  intros Hc Hh Hl Hb Hmap.
  assert (length l = Z.to_nat count) as Hlen by (rewrite Hl, length_take, length_drop; lia).
  set (st := fun i => mkCopy (write_bytes mem dst (take (Z.to_nat i) l)) h).
  replace (mkCopy mem h) with (st 0) by done.
  replace (write_bytes mem dst l) with (write_bytes mem dst (take (Z.to_nat count) l))
    by (by rewrite take_ge by lia).
  apply (bulk_copy_spec (HostToVm e) dst src count st Hc).
  - intros i Hi. simpl.
    destruct (lookup_lt_is_Some_2 l (Z.to_nat i) ltac:(lia)) as [b Hbi].
    rewrite (host_read_spec h src (Z.to_nat i) 1 _ l Hl) by lia.
    rewrite (drop_S _ _ _ Hbi). simpl. rewrite take_0, from_ne_bytes_one. unfold store8.
    assert (exists b0, write_bytes mem dst (take (Z.to_nat i) l) !! (dst + i) = Some b0) as [b0 ->].
    { destruct (lookup_load_bytes _ _ _ _ i Hmap ltac:(lia)) as (b0 & Hb0 & _).
      exists b0. rewrite lookup_write_bytes, decide_False by (rewrite length_take; lia). done. }
    unfold st. f_equal. f_equal. f_equal.
    replace (Z.to_nat (i + 1)) with (S (Z.to_nat i)) by lia. rewrite (take_S_r _ _ _ Hbi).
    rewrite write_bytes_app. simpl. f_equal. rewrite length_take. lia.
  - intros i Hi Hle Hal. simpl.
    rewrite (host_read_spec h src (Z.to_nat i) 8 _ l Hl) by lia.
    pose proof (load_bytes_sub _ _ _ _ (Z.to_nat i) 8 Hmap ltac:(lia)) as Hl8.
    rewrite Z2Nat.id in Hl8 by lia.
    eapply load_write_mapped in Hl8 as [l1 Hl8].
    rewrite (store_ne_aligned_spec e 8 _ _ _ _ Hal Hl8).
    rewrite to_from_ne_bytes.
    2: { rewrite length_take, length_drop. lia. }
    2: { by apply Forall_take, Forall_drop. }
    unfold st. rewrite take_eight, write_bytes_app by lia. rewrite length_take.
    f_equal. f_equal. f_equal. f_equal. lia.
Qed.

(** C28: a bulk copy copies exactly the bytes asked for, at every alignment and
    length and on both byte orders, although it moves aligned 8-byte chunks
    between a byte-wise prefix and suffix: guest to host fills the destination
    and leaves guest memory alone, host to guest writes the region and leaves
    the buffer alone; no access is misaligned or out of bounds, and the loops
    end. *)
Theorem bulk_copy_correct e ptr off count mem h l :
  0 <= count -> mem_ok mem -> Forall is_byte h ->
  (off + Z.to_nat count <= length h)%nat -> load_bytes mem ptr (Z.to_nat count) = Some l ->
  copy_nonoverlapping_vm_to_host e ptr off count (mkCopy mem h) =
    Some (tt, mkCopy mem (take off h ++ l ++ drop (off + Z.to_nat count) h)) /\
  copy_nonoverlapping_host_to_vm e off ptr count (mkCopy mem h) =
    Some (tt, mkCopy (write_bytes mem ptr (take (Z.to_nat count) (drop off h))) h).
Proof.
  intros Hc Hok Hh Hlen Hl. split.
  - rewrite (vm_to_host_spec e ptr off count mem h l); eauto with emu.
    unfold host_put. by rewrite (load_bytes_length _ _ _ _ Hl).
  - by apply (host_to_vm_spec e off ptr count mem h _ l); eauto using Forall_take, Forall_drop.
Qed.

Lemma bulk_copy_correct_witness :
  let mem := write_bytes ∅ 4093 (seqZ 1 30) in
  let h := replicate 25 0 in
  copy_nonoverlapping_vm_to_host Little 4094 1 20 (mkCopy mem h) =
    Some (tt, mkCopy mem (take 1 h ++ seqZ 2 20 ++ drop (1 + 20) h)) /\
  copy_nonoverlapping_host_to_vm Little 1 4094 20 (mkCopy mem h) =
    Some (tt, mkCopy (write_bytes mem 4094 (take 20 (drop 1 h))) h).
Proof.
  intros mem h. apply (bulk_copy_correct Little 4094 1 20 mem h (seqZ 2 20)).
  - lia.
  - apply write_bytes_ok; [by apply map_Forall_empty|].
    apply Forall_forall. intros x Hx%elem_of_seqZ. unfold is_byte, fits. lia.
  - apply Forall_replicate. by vm_compute.
  - by vm_compute; lia.
  - by vm_compute.
Defined.
