(* ===== verification/ObjectQueue.v ===== *)
(** * The object manager's work queue ([io-mmu/src/cpu_fabric/object_manager.rs])

    [Queue] (a deque of tasks with an index that finds the task of a slot) and a
    whole call of [Inner::enqueue] that finds room; [ObjectWorker] has the threads.
    A slot has a number, which stands for the address of its [ObjectSlot]: a queued
    task holds the slot weakly, so that the address is not used again while it is a
    key of the index.  A callback has a number too. *)

From S2P Require Import Prelude Convert.
Local Open Scope Z_scope.
Local Open Scope emu_scope.

Inductive OpType :=
  | Init (cpu_fabric : positive)
  | Flush.

Record QueueEntry := mkEntry {
  slot : positive;         (* Weak<ObjectSlot> *)
  callbacks : list nat;
  op_type : OpType;
}.

Record EnqueueEntry := mkEnqueue {
  enq_slot : positive;
  enq_op_type : OpType;
  enq_callback : option nat;
}.

Record Queue := mkQueue {
  queue : list QueueEntry;
  already_in_queue : gmap positive Z;
  base : Z;
}.

Definition Queue_new : Queue := mkQueue [] ∅ 0.

(** What [Queue::enqueue] returns: [Ok(())], [Err(None)] (the task is not needed,
    its callback succeeds by being dropped) or [Err(Some(entry))] (no room). *)
Inductive Enqueued := Queued | NotNeeded | NoRoom.

#[export] Instance OpType_eq_dec : EqDecision OpType.
Proof. solve_decision. Defined.
#[export] Instance QueueEntry_eq_dec : EqDecision QueueEntry.
Proof. solve_decision. Defined.

Definition strict_add (w a b : Z) : option Z := checked_add w a b.

Module Q.
Definition assert_invariant (q : Queue) : bool :=
  (length (queue q) =? size (already_in_queue q))%nat.

(** Every failed assertion aborts the process: [None]. *)
Definition dequeue : SM Queue (option QueueEntry) := fun q =>
  if negb (assert_invariant q) then None else
  match queue q with
  | [] => Some (None, q)
  | entry :: rest =>
      let removed := already_in_queue q !! slot entry in
      let in_queue := delete (slot entry) (already_in_queue q) in
      if decide (removed = Some (base q)) then
        match (match rest with [] => Some 0 | _ => strict_add 64 (base q) 1 end) with
        | Some base => Some (Some entry, mkQueue rest in_queue base)
        | None => None
        end
      else None
  end.

(** How a request merges with the task already queued for its slot. *)
Definition merge_op (new_op queued : OpType) (resident : bool) : option OpType :=
  match new_op, queued with
  | Init new_cpu, Init queued_cpu =>
      if decide (new_cpu = queued_cpu) then Some queued else None
  | Flush, Flush => Some queued
  | Init _, Flush => None
  | Flush, Init _ => if negb resident then None else Some Flush
  end.

Definition add_callback (cbs : list nat) (cb : option nat) : list nat :=
  match cb with Some cb => cbs ++ [cb] | None => cbs end.

(** [resident] is [enqueue.slot.page.get().is_some()] at the call. *)
Definition enqueue (enq : EnqueueEntry) (resident : bool) (queue_limit : nat) :
    SM Queue Enqueued := fun q =>
  if negb (assert_invariant q) then None else
  if (match enq_op_type enq with Init _ => resident | Flush => false end)
  then Some (NotNeeded, q)
  else match already_in_queue q !! enq_slot enq with
  | Some index =>
      match checked_sub index (base q) with
      | None => None
      | Some off =>
          match u64_to_usize off with
          | None => None
          | Some i =>
              match queue q !! Z.to_nat i with
              | None => None
              | Some entry =>
                  match merge_op (enq_op_type enq) (op_type entry) resident with
                  | None => None
                  | Some op =>
                      let entry := mkEntry (slot entry)
                        (add_callback (callbacks entry) (enq_callback enq)) op in
                      Some (Queued, mkQueue (<[Z.to_nat i := entry]> (queue q))
                                            (already_in_queue q) (base q))
                  end
              end
          end
      end
  | None =>
      if (queue_limit <=? length (queue q))%nat then Some (NoRoom, q)
      else
        let entry := mkEntry (enq_slot enq) (add_callback [] (enq_callback enq))
                             (enq_op_type enq) in
        match usize_to_u64 (Z.of_nat (length (queue q))) with
        | None => None
        | Some pushed =>
            match strict_add 64 (base q) pushed with
            | None => None
            | Some abs_index =>
                Some (Queued, mkQueue (queue q ++ [entry])
                        (<[enq_slot enq := abs_index]> (already_in_queue q)) (base q))
            end
        end
  end.

(** The index finds exactly the queued tasks: one per slot, in deque order. *)
Definition inv (q : Queue) : Prop :=
  NoDup (slot <$> queue q) /\
  (forall s idx, already_in_queue q !! s = Some idx <->
     exists i, slot <$> queue q !! i = Some s /\ idx = base q + Z.of_nat i) /\
  0 <= base q /\ base q + Z.of_nat (length (queue q)) < 2 ^ 64.

(** A queued flush means the slot's page is resident (pages never leave). *)
Definition flush_resident (resident : positive -> bool) (q : Queue) : Prop :=
  forall e, e ∈ queue q -> op_type e = Flush -> resident (slot e) = true.

(** All queued initialisations are for one fabric. *)
Definition one_fabric (f : positive) (q : Queue) : Prop :=
  forall e g, e ∈ queue q -> op_type e = Init g -> g = f.

(** ** Specification: a FIFO of tasks, one per slot, requests coalescing *)

Definition spec_op (new_op queued : OpType) : OpType :=
  match new_op with Flush => Flush | Init _ => queued end.

Fixpoint spec_enqueue (enq : EnqueueEntry) (l : list QueueEntry) : list QueueEntry :=
  match l with
  | [] => [mkEntry (enq_slot enq) (add_callback [] (enq_callback enq)) (enq_op_type enq)]
  | e :: l =>
      if decide (slot e = enq_slot enq)
      then mkEntry (slot e) (add_callback (callbacks e) (enq_callback enq))
                   (spec_op (enq_op_type enq) (op_type e)) :: l
      else e :: spec_enqueue enq l
  end.
End Q.

(** ** Lemmas *)

Section QueueLemmas.
Import Q.

Lemma inv_elem q s : inv q -> s ∈ dom (already_in_queue q) <-> s ∈ slot <$> queue q.
Proof.
  intros (_ & Hix & _). rewrite elem_of_dom. split.
  - intros [idx Hs]. apply Hix in Hs as (i & Hi & _). rewrite <- list_lookup_fmap in Hi.
    by eapply list_elem_of_lookup_2.
  - intros [i Hi]%list_elem_of_lookup_1. rewrite list_lookup_fmap in Hi.
    eexists. apply Hix. eauto.
Qed.

Lemma inv_assert q : inv q -> assert_invariant q = true.
Proof.
  intros Hq. unfold assert_invariant. apply Nat.eqb_eq.
  rewrite <- size_dom. replace (dom (already_in_queue q))
    with (list_to_set (slot <$> queue q) : gset positive).
  - rewrite size_list_to_set by apply Hq. by rewrite length_fmap.
  - apply set_eq. intros s. rewrite elem_of_list_to_set. by rewrite inv_elem.
Qed.

Lemma inv_new : inv Queue_new.
Proof.
  split_and!; simpl; [constructor| |lia|lia].
  intros s idx. rewrite lookup_empty. split; [done|]. intros (i & Hi & _). by destruct i.
Qed.

(** The task found through the index is the slot's task. *)
Lemma inv_lookup q s idx :
  inv q -> already_in_queue q !! s = Some idx ->
  exists i e, checked_sub idx (base q) = Some (Z.of_nat i) /\
    queue q !! i = Some e /\ slot e = s /\ fits 64 (Z.of_nat i).
Proof.
  intros (_ & Hix & Hb & Hlen) Hs. apply Hix in Hs as (i & Hi & ->).
  destruct (queue q !! i) as [e|] eqn:He; [|done]. injection Hi as <-.
  pose proof (lookup_lt_Some _ _ _ He). exists i, e. split; [|split; [done|split; [done|]]].
  - unfold checked_sub. rewrite (proj2 (Z.leb_le _ _)) by lia. f_equal; lia.
  - unfold fits. lia.
Qed.

Lemma spec_enqueue_update enq l i e :
  NoDup (slot <$> l) -> l !! i = Some e -> slot e = enq_slot enq ->
  spec_enqueue enq l =
    <[i := mkEntry (slot e) (add_callback (callbacks e) (enq_callback enq))
                   (spec_op (enq_op_type enq) (op_type e))]> l.
Proof.
  revert i. induction l as [|e' l IH]; intros i Hnd Hi He; [done|].
  rewrite fmap_cons in Hnd. apply NoDup_cons in Hnd as [Hnin Hnd]. simpl.
  destruct i as [|i]; simpl in *.
  - injection Hi as ->. by rewrite decide_True.
  - rewrite decide_False; [f_equal; by apply IH|].
    intros Heq. apply Hnin. rewrite Heq, <- He. apply list_elem_of_fmap_2.
    by eapply list_elem_of_lookup_2.
Qed.

Lemma spec_enqueue_append enq l :
  enq_slot enq ∉ slot <$> l ->
  spec_enqueue enq l =
    l ++ [mkEntry (enq_slot enq) (add_callback [] (enq_callback enq)) (enq_op_type enq)].
Proof.
  induction l as [|e l IH]; simpl; [done|]. rewrite not_elem_of_cons. intros [Hne Hnin].
  rewrite decide_False by congruence. f_equal. by apply IH.
Qed.

(** Replacing a task by one for the same slot keeps the index valid. *)
Lemma inv_update q i e e' :
  inv q -> queue q !! i = Some e -> slot e' = slot e ->
  inv (mkQueue (<[i := e']> (queue q)) (already_in_queue q) (base q)).
Proof.
  intros (Hnd & Hix & Hb) Hi He.
  assert (slot <$> <[i := e']> (queue q) = slot <$> queue q) as Hs.
  { rewrite list_fmap_insert. apply list_insert_id. by rewrite list_lookup_fmap, Hi, He. }
  split_and!; simpl; [by rewrite Hs| |by apply Hb|by rewrite length_insert; apply Hb].
  intros s idx. rewrite Hix. by setoid_rewrite <- list_lookup_fmap; rewrite Hs.
Qed.

Lemma inv_push q e :
  inv q -> slot e ∉ slot <$> queue q ->
  base q + Z.of_nat (length (queue q)) + 1 < 2 ^ 64 ->
  inv (mkQueue (queue q ++ [e])
         (<[slot e := base q + Z.of_nat (length (queue q))]> (already_in_queue q)) (base q)).
Proof.
  intros (Hnd & Hix & Hb) Hnin Hlen. split_and!; simpl; [| |lia|rewrite length_app; simpl; lia].
  - rewrite fmap_app. apply NoDup_app. split_and!; [done| |apply NoDup_singleton].
    intros s Hs. rewrite list_fmap_singleton, list_elem_of_singleton. by intros ->.
  - intros s idx. destruct (decide (s = slot e)) as [->|Hne].
    + rewrite lookup_insert_eq. split.
      * intros [= <-]. exists (length (queue q)). split; [|done].
        by rewrite lookup_app_r, Nat.sub_diag by lia.
      * intros (i & Hi & ->). f_equal.
        destruct (decide (i < length (queue q))%nat) as [Hlt|Hge].
        -- rewrite lookup_app_l in Hi by done. destruct Hnin.
           rewrite <- list_lookup_fmap in Hi. by eapply list_elem_of_lookup_2.
        -- assert (i = length (queue q)) as -> by
             (destruct ((queue q ++ [e]) !! i) eqn:E; [|done]; apply lookup_lt_Some in E;
              rewrite length_app in E; simpl in E; lia). done.
    + rewrite lookup_insert_ne, Hix by done. split; intros (i & Hi & ->); exists i.
      * split; [|done]. destruct (queue q !! i) as [e0|] eqn:E; [|done].
        by rewrite (lookup_app_l_Some _ _ _ _ E).
      * split; [|done]. destruct (decide (i < length (queue q))%nat) as [Hlt|Hge].
        -- by rewrite lookup_app_l in Hi.
        -- rewrite lookup_app_r in Hi by lia.
           destruct (i - length (queue q))%nat; simpl in Hi; [congruence|done].
Qed.
End QueueLemmas.

(** ** The queue implements its specification *)

Section QueueSpec.
Import Q.
Context (resident : positive -> bool) (fabric : positive).

(** What the code relies on between the queue and the slots. *)
Definition queue_ok (q : Queue) : Prop :=
  inv q /\ flush_resident resident q /\ one_fabric fabric q.

(** The requests [Inner::enqueue] lets through. *)
Definition request_ok (enq : EnqueueEntry) : Prop :=
  match enq_op_type enq with
  | Flush => resident (enq_slot enq) = true
  | Init g => g = fabric
  end.

Definition not_needed (enq : EnqueueEntry) : bool :=
  match enq_op_type enq with Init _ => resident (enq_slot enq) | Flush => false end.

Lemma merge_spec enq e :
  not_needed enq = false -> request_ok enq -> slot e = enq_slot enq ->
  (op_type e = Flush -> resident (slot e) = true) ->
  (forall g, op_type e = Init g -> g = fabric) ->
  merge_op (enq_op_type enq) (op_type e) (resident (enq_slot enq)) =
    Some (spec_op (enq_op_type enq) (op_type e)).
Proof.
  unfold not_needed, request_ok, merge_op. intros Hn Hr Hs Hf Hi.
  destruct (enq_op_type enq) as [g|], (op_type e) as [g'|]; simpl; try done.
  - rewrite decide_True; [done|]. rewrite Hr. symmetry. by apply Hi.
  - rewrite <- Hs, Hf in Hn; done.
  - by rewrite Hr.
Qed.

Lemma enqueue_present q enq idx limit :
  queue_ok q -> request_ok enq -> not_needed enq = false ->
  already_in_queue q !! enq_slot enq = Some idx ->
  exists q', enqueue enq (resident (enq_slot enq)) limit q = Some (Queued, q') /\
    queue q' = spec_enqueue enq (queue q) /\ inv q'.
Proof.
  intros (Hinv & Hfl & Hone) Hreq Hnn Hidx. unfold enqueue. rewrite inv_assert by done. cbn [negb].
  fold (not_needed enq). rewrite Hnn, Hidx.
  destruct (inv_lookup q _ _ Hinv Hidx) as (i & e & -> & Hi & Hs & Hf).
  rewrite u64_to_usize_id by done. rewrite Nat2Z.id, Hi.
  pose proof (list_elem_of_lookup_2 _ _ _ Hi) as Hin.
  rewrite merge_spec by eauto. eexists. split; [done|]. split; simpl.
  - symmetry. apply spec_enqueue_update; [apply Hinv|done|done].
  - by apply (inv_update q i e).
Qed.

Lemma enqueue_absent q enq limit :
  queue_ok q -> not_needed enq = false ->
  base q + Z.of_nat (length (queue q)) + 1 < 2 ^ 64 ->
  already_in_queue q !! enq_slot enq = None ->
  if (limit <=? length (queue q))%nat
  then enqueue enq (resident (enq_slot enq)) limit q = Some (NoRoom, q)
  else exists q', enqueue enq (resident (enq_slot enq)) limit q = Some (Queued, q') /\
         queue q' = spec_enqueue enq (queue q) /\ inv q'.
Proof.
  intros (Hinv & Hfl & Hone) Hnn Hlen Hidx. unfold enqueue. rewrite inv_assert by done. cbn [negb].
  fold (not_needed enq). rewrite Hnn, Hidx. destruct (limit <=? length (queue q))%nat; [done|].
  assert (enq_slot enq ∉ slot <$> queue q) as Hnin.
  { rewrite <- inv_elem by done. by apply not_elem_of_dom. }
  pose proof Hinv as (_ & _ & Hb & _).
  rewrite usize_to_u64_id by (unfold fits; lia).
  unfold strict_add, checked_add. rewrite (proj2 (Z.ltb_lt _ _)) by lia.
  eexists. split; [done|]. split; simpl.
  - by rewrite spec_enqueue_append.
  - by apply (inv_push q (mkEntry (enq_slot enq) _ (enq_op_type enq))).
Qed.

Lemma spec_enqueue_elem enq l e :
  e ∈ spec_enqueue enq l ->
  e ∈ l \/ (slot e = enq_slot enq /\ (op_type e = enq_op_type enq \/
            exists e0, e0 ∈ l /\ slot e0 = slot e /\ op_type e = spec_op (enq_op_type enq) (op_type e0))).
Proof.
  induction l as [|e1 l IH]; simpl.
  - rewrite list_elem_of_singleton. intros ->. right. by auto.
  - case_decide as Hd; rewrite !elem_of_cons.
    + intros [->|Hin]; [|by auto]. right. split; [done|]. right. exists e1.
      rewrite elem_of_cons. by auto.
    + intros [->|Hin]; [by auto|]. apply IH in Hin as [Hin|(Hs & [Ho|(e0 & H0 & H1)])];
        [by auto|by auto|]. right. split; [done|]. right. exists e0. rewrite elem_of_cons. by auto.
Qed.

Lemma spec_enqueue_ok q q' enq :
  queue_ok q -> request_ok enq -> queue q' = spec_enqueue enq (queue q) -> inv q' ->
  queue_ok q'.
Proof.
  intros (_ & Hfl & Hone) Hreq Hq Hinv. split; [done|]. split.
  - intros e. rewrite Hq. intros He Hop.
    apply spec_enqueue_elem in He as [He|(Hs & [Ho|(e0 & H0 & Hs0 & Ho)])]; [by apply Hfl| |].
    + rewrite Hs. unfold request_ok in Hreq. by rewrite <- Ho, Hop in Hreq.
    + unfold request_ok in Hreq. rewrite Hs. destruct (enq_op_type enq); simpl in Ho; [|done].
      rewrite <- Hs, <- Hs0. apply Hfl; congruence.
  - intros e g. rewrite Hq. intros He Hop.
    apply spec_enqueue_elem in He as [He|(Hs & [Ho|(e0 & H0 & Hs0 & Ho)])]; [by eapply Hone| |].
    + unfold request_ok in Hreq. by rewrite <- Ho, Hop in Hreq.
    + destruct (enq_op_type enq); simpl in Ho; [|congruence]. eapply Hone; [done|congruence].
Qed.

Lemma enqueue_spec q enq limit :
  queue_ok q -> request_ok enq -> base q + Z.of_nat (length (queue q)) + 1 < 2 ^ 64 ->
  exists r q', enqueue enq (resident (enq_slot enq)) limit q = Some (r, q') /\ queue_ok q' /\
    match r with
    | NotNeeded => not_needed enq = true /\ q' = q
    | NoRoom => not_needed enq = false /\ (enq_slot enq ∉ slot <$> queue q) /\
                (limit <= length (queue q))%nat /\ q' = q
    | Queued => not_needed enq = false /\ queue q' = spec_enqueue enq (queue q) /\
                (enq_slot enq ∈ slot <$> queue q \/ (length (queue q) < limit)%nat)
    end.
Proof.
  intros Hok Hreq Hlen. destruct (not_needed enq) eqn:Hnn.
  - exists NotNeeded, q. split_and!; try done. unfold enqueue.
    rewrite inv_assert by apply Hok. cbn [negb]. fold (not_needed enq). by rewrite Hnn.
  - destruct (already_in_queue q !! enq_slot enq) as [idx|] eqn:Hidx.
    + destruct (enqueue_present q enq idx limit) as (q' & He & Hq & Hi); try done.
      exists Queued, q'. split_and!; try done; [by eapply spec_enqueue_ok|]. left.
      rewrite <- inv_elem by apply Hok. apply elem_of_dom. by eexists.
    + pose proof (enqueue_absent q enq limit Hok Hnn Hlen Hidx) as H.
      destruct (limit <=? length (queue q))%nat eqn:Hl.
      * exists NoRoom, q. split_and!; try done; [|by apply Nat.leb_le].
        rewrite <- inv_elem by apply Hok. by apply not_elem_of_dom.
      * destruct H as (q' & He & Hq & Hi). exists Queued, q'. split_and!; try done; [by eapply spec_enqueue_ok|]. right. by apply Nat.leb_gt.
Qed.
End QueueSpec.

Lemma queue_ok_new resident fabric : queue_ok resident fabric Queue_new.
Proof.
  split_and!; [apply inv_new|..]; unfold Q.flush_resident, Q.one_fabric; simpl; set_solver.
Qed.

Lemma inv_pop q e rest b :
  Q.inv q -> queue q = e :: rest ->
  b = (match rest with [] => 0 | _ => base q + 1 end) ->
  Q.inv (mkQueue rest (delete (slot e) (already_in_queue q)) b).
Proof.
  intros (Hnd & Hix & Hb0 & Hb) Hq ->. rewrite Hq in *.
  rewrite fmap_cons in Hnd. apply NoDup_cons in Hnd as [Hnin Hnd]. simpl in Hb.
  split; [done|]. split; [|destruct rest; simpl in *; lia]. simpl.
  intros s idx. rewrite lookup_delete_Some, Hix. split.
  - intros (Hne & i & Hi & ->). destruct i as [|i]; simpl in Hi; [congruence|].
    exists i. split; [done|]. destruct rest; [done|]. lia.
  - intros (i & Hi & ->). split.
    + intros Heq. apply Hnin. rewrite Heq, <- list_lookup_fmap in *.
      by eapply list_elem_of_lookup_2.
    + exists (S i). split; [done|]. destruct rest; [done|]. lia.
Qed.

Lemma dequeue_spec resident fabric q :
  queue_ok resident fabric q ->
  match queue q with
  | [] => Q.dequeue q = Some (None, q)
  | e :: rest => exists q', Q.dequeue q = Some (Some e, q') /\ queue q' = rest /\
                   queue_ok resident fabric q' /\ base q' <= base q + 1
  end.
Proof.
  intros (Hinv & Hfl & Hone). unfold Q.dequeue. rewrite inv_assert by done. cbn [negb].
  destruct (queue q) as [|e rest] eqn:Hq; [done|].
  pose proof Hinv as (_ & Hix & Hb0 & Hb). rewrite Hq in Hb. simpl in Hb.
  rewrite decide_True.
  2: { apply Hix. exists 0%nat. rewrite Hq. split; [done|]. lia. }
  assert ((match rest with [] => Some 0 | _ => strict_add 64 (base q) 1 end) =
          Some (match rest with [] => 0 | _ => base q + 1 end)) as ->.
  { destruct rest; [done|]. unfold strict_add, checked_add. simpl in Hb.
    by rewrite (proj2 (Z.ltb_lt _ _)) by lia. }
  eexists. split; [done|]. split; [done|]. split; [split; [|split]|].
  - by eapply inv_pop.
  - intros e' He'. simpl in He'. apply Hfl. rewrite Hq. by right.
  - intros e' g He'. simpl in He'. apply Hone. rewrite Hq. by right.
  - simpl. destruct rest; lia.
Qed.

Lemma queue_ok_mono (r r' : positive -> bool) fabric q :
  (forall x, r x = true -> r' x = true) -> queue_ok r fabric q -> queue_ok r' fabric q.
Proof. intros Hr (? & Hfl & ?). split_and!; try done. intros e He Hop. by apply Hr, Hfl. Qed.

Definition opt_list {A} (o : option A) : list A := match o with Some x => [x] | None => [] end.

Lemma spec_enqueue_callbacks enq l :
  concat (callbacks <$> Q.spec_enqueue enq l) ≡ₚ
  opt_list (enq_callback enq) ++ concat (callbacks <$> l).
Proof.
  induction l as [|e l IH]; simpl.
  - by destruct (enq_callback enq).
  - case_decide; simpl.
    + destruct (enq_callback enq) as [cb|]; simpl; [|done]. solve_Permutation.
    + rewrite IH. solve_Permutation.
Qed.

Lemma length_spec_enqueue enq l : (length (Q.spec_enqueue enq l) <= S (length l))%nat.
Proof. induction l; simpl; [lia|]. case_decide; simpl; lia. Qed.

(** ** Any sequence of calls *)

(** A call of the queue's methods, or a page becoming resident in between. *)
Inductive QueueOp :=
  | OpEnqueue (enq : EnqueueEntry)
  | OpDequeue
  | OpResident (slot : positive).

Inductive Answer := AEnqueued (r : Enqueued) | ADequeued (e : option QueueEntry) | ANothing.

Definition queue_step (limit : nat) (op : QueueOp) : SM (Queue * gset positive) Answer := fun '(q, res) =>
  match op with
  | OpEnqueue enq =>
      '(r, q) ← Q.enqueue enq (bool_decide (enq_slot enq ∈ res)) limit q; Some (AEnqueued r, (q, res))
  | OpDequeue => '(e, q) ← Q.dequeue q; Some (ADequeued e, (q, res))
  | OpResident slot => Some (ANothing, (q, {[slot]} ∪ res))
  end.

Fixpoint queue_run (limit : nat) (ops : list QueueOp) : SM (Queue * gset positive) (list Answer) :=
  match ops with
  | [] => sm_ret []
  | op :: ops => let! a := queue_step limit op in let! l := queue_run limit ops in sm_ret (a :: l)
  end.

(** The specification's step, on a list of tasks: a request goes to its slot's task
    or to the back, and tasks leave at the front. *)
Definition fifo_step (limit : nat) (op : QueueOp) (s : list QueueEntry * gset positive) :
    Answer * (list QueueEntry * gset positive) :=
  let '(l, res) := s in
  match op with
  | OpEnqueue enq =>
      if not_needed (fun x => bool_decide (x ∈ res)) enq then (AEnqueued NotNeeded, s)
      else if bool_decide (enq_slot enq ∉ slot <$> l) && (limit <=? length l)%nat then (AEnqueued NoRoom, s)
      else (AEnqueued Queued, (Q.spec_enqueue enq l, res))
  | OpDequeue => match l with [] => (ADequeued None, s) | e :: l => (ADequeued (Some e), (l, res)) end
  | OpResident slot => (ANothing, (l, {[slot]} ∪ res))
  end.

Fixpoint fifo_run (limit : nat) (ops : list QueueOp) (s : list QueueEntry * gset positive) :
    list Answer * (list QueueEntry * gset positive) :=
  match ops with
  | [] => ([], s)
  | op :: ops =>
      let '(a, s) := fifo_step limit op s in
      let '(l, s) := fifo_run limit ops s in (a :: l, s)
  end.

(** The requests [Inner::enqueue] lets through, when it does. *)
Fixpoint ops_ok (fabric : positive) (res : gset positive) (ops : list QueueOp) : Prop :=
  match ops with
  | [] => True
  | op :: ops =>
      match op with OpEnqueue enq => request_ok (fun x => bool_decide (x ∈ res)) fabric enq | _ => True end /\
      ops_ok fabric (match op with OpResident slot => {[slot]} ∪ res | _ => res end) ops
  end.

Definition end_of (q : Queue) : Z := base q + Z.of_nat (length (queue q)).

Lemma enqueue_end resident fabric q enq limit r q' :
  queue_ok resident fabric q -> request_ok resident fabric enq -> end_of q + 1 < 2 ^ 64 ->
  Q.enqueue enq (resident (enq_slot enq)) limit q = Some (r, q') -> end_of q' <= end_of q + 1.
Proof.
  intros Hok Hreq Hlen E. destruct (enqueue_spec resident fabric q enq limit Hok Hreq Hlen) as (r' & q1 & E' & _ & H).
  rewrite E in E'. injection E' as <- <-. unfold end_of in *. destruct r.
  - destruct H as (_ & Hq & _). pose proof (length_spec_enqueue enq (queue q)) as Hl. rewrite <- Hq in Hl.
    assert (base q' = base q) as ->; [|lia]. unfold Q.enqueue in E. repeat case_match; simplify_eq; done.
  - destruct H as [_ ->]. lia.
  - destruct H as (_ & _ & _ & ->). lia.
Qed.

(** One call. *)
Lemma queue_step_spec fabric limit op q res :
  let resident x := bool_decide (x ∈ res) in
  queue_ok resident fabric q -> end_of q + 1 < 2 ^ 64 ->
  match op with OpEnqueue enq => request_ok resident fabric enq | _ => True end ->
  exists a q' res', queue_step limit op (q, res) = Some (a, (q', res')) /\ fifo_step limit op (queue q, res) = (a, (queue q', res')) /\
    res' = match op with OpResident slot => {[slot]} ∪ res | _ => res end /\
    queue_ok (fun x => bool_decide (x ∈ res')) fabric q' /\ end_of q' <= end_of q + 1.
Proof.
  intros resident Hok Hlen Hop. destruct op as [enq| |sl]; simpl.
  - destruct (enqueue_spec resident fabric q enq limit Hok Hop Hlen) as (r & q' & E & Hok' & Hr).
    pose proof (enqueue_end _ _ _ _ _ _ _ Hok Hop Hlen E) as Hend. unfold resident in E at 1. rewrite E. cbn [mbind option_bind].
    exists (AEnqueued r), q', res. split; [done|]. split; [|by split_and!]. fold resident. destruct r.
    + destruct Hr as (-> & Hq & Hroom). rewrite Hq. destruct Hroom as [Hs|Hroom].
      * by rewrite (bool_decide_eq_false_2 (_ ∉ slot <$> _)) by (intros Hn; by apply Hn).
      * by rewrite (proj2 (Nat.leb_gt _ _)), andb_false_r.
    + by destruct Hr as [-> ->].
    + destruct Hr as (-> & Hs & Hl & ->). by rewrite (bool_decide_eq_true_2 (_ ∉ slot <$> _)), (proj2 (Nat.leb_le _ _)).
  - pose proof (dequeue_spec resident fabric q Hok) as Hd. destruct (queue q) as [|e l] eqn:Hq.
    + rewrite Hd. cbn [mbind option_bind]. exists (ADequeued None), q, res. rewrite Hq. split_and!; [done..|lia].
    + destruct Hd as (q' & E & Hq' & Hok' & Hb). rewrite E. cbn [mbind option_bind]. exists (ADequeued (Some e)), q', res.
      split_and!; [done|by rewrite Hq'|done..|]. unfold end_of in *. rewrite Hq, Hq' in *. simpl in *. lia.
  - exists ANothing, q, ({[sl]} ∪ res). split_and!; [done..| |lia]. eapply queue_ok_mono; [|done].
    intros x. unfold resident. rewrite !bool_decide_eq_true. set_solver.
Qed.

Lemma queue_run_spec fabric limit ops : forall q res,
  queue_ok (fun x => bool_decide (x ∈ res)) fabric q -> end_of q + Z.of_nat (length ops) < 2 ^ 64 -> ops_ok fabric res ops ->
  exists l q' res', queue_run limit ops (q, res) = Some (l, (q', res')) /\ fifo_run limit ops (queue q, res) = (l, (queue q', res')) /\ Q.inv q'.
Proof.
  induction ops as [|op ops IH]; intros q res Hok Hlen Hops.
  { exists [], q, res. split_and!; [done..|apply Hok]. }
  destruct Hops as [Hop Hops]. simpl in Hlen.
  destruct (queue_step_spec fabric limit op q res Hok ltac:(lia) Hop) as (a & q1 & res1 & E & Es & -> & Hok1 & Hend).
  destruct (IH q1 _ Hok1 ltac:(lia) Hops) as (l & q2 & res2 & E2 & Es2 & Hinv).
  exists (a :: l), q2, res2. cbn [queue_run fifo_run]. rewrite (sm_bind_run _ _ _ _ _ E), (sm_bind_run _ _ _ _ _ E2), Es, Es2. done.
Qed.

(** C26: the indexed deque is the coalescing FIFO.  Every sequence of enqueues and
    dequeues from a new queue, with pages becoming resident in between, gives the
    answers the specification gives and leaves the tasks it leaves, in its order: a
    request is refused as unneeded exactly when it initialises a resident page, and
    as full exactly when its slot has no queued task and the limit is reached;
    otherwise the slot's task absorbs it or a new task goes to the back; and tasks
    leave at the front, with all the callbacks they were given.  The lookup through
    the absolute index never goes wrong, no assertion aborts and no arithmetic
    overflows. *)
Theorem queue_refines_fifo fabric limit ops :
  ops_ok fabric ∅ ops -> Z.of_nat (length ops) < 2 ^ 64 ->
  exists l q res, queue_run limit ops (Queue_new, ∅) = Some (l, (q, res)) /\
    fifo_run limit ops ([], ∅) = (l, (queue q, res)) /\ Q.inv q.
Proof. intros Hops Hlen. apply (queue_run_spec fabric); [apply queue_ok_new|exact Hlen|exact Hops]. Qed.

(** Two slots, a request that merges, one that finds no room, and a flush. *)
Definition sample_queue_ops : list QueueOp :=
  [OpEnqueue (mkEnqueue 7 (Init 1) (Some 3%nat)); OpEnqueue (mkEnqueue 8 (Init 1) (Some 4%nat));
   OpEnqueue (mkEnqueue 7 (Init 1) (Some 5%nat)); OpEnqueue (mkEnqueue 9 (Init 1) (Some 6%nat)); OpDequeue;
   OpResident 7; OpEnqueue (mkEnqueue 7 Flush (Some 6%nat)); OpDequeue; OpDequeue; OpDequeue].

Lemma queue_refines_fifo_witness :
  exists l q res, queue_run 2 sample_queue_ops (Queue_new, ∅) = Some (l, (q, res)) /\
    fifo_run 2 sample_queue_ops ([], ∅) = (l, (queue q, res)) /\ Q.inv q /\
    l !! 4%nat = Some (ADequeued (Some (mkEntry 7 [3%nat; 5%nat] (Init 1)))) /\ l !! 3%nat = Some (AEnqueued NoRoom).
Proof.
  destruct (queue_refines_fifo 1 2 sample_queue_ops) as (l & q & res & E & Ef & Hq); [|simpl; lia|].
  { repeat (split; [try done; by vm_compute|]). done. }
  exists l, q, res. split_and!; [done..| |]; vm_compute in Ef; by injection Ef as <- _.
Defined.

(** ** A call of [Inner::enqueue] *)

(** What happens to a callback: [on_success], [on_failure], or dropped with its
    task because the slot died (its receiver then sees a closed channel). *)
Inductive Outcome := Success | Failure | Dropped.

Record Sys := mkSys {
  sys_queue : Queue;
  sys_resident : gset positive;             (* slots whose page cell is set *)
  sys_completed : list (nat * Outcome);     (* in completion order *)
}.

Definition is_resident (s : Sys) (x : positive) : bool := bool_decide (x ∈ sys_resident s).

(** Whether a call of [Inner::enqueue] finished or has to wait for room. *)
Inductive EnqueueOutcome := Finished | Waiting.

(** A flush finds no page: there is nothing to write back. *)
Definition trivial_flush (op : OpType) (resident : bool) : bool :=
  match op with Flush => negb resident | Init _ => false end.

(** One attempt of [Inner::enqueue], between two waits on [dequeued]. *)
Definition inner_enqueue (queue_limit : nat) (slot : positive) (op : OpType)
    (callback : option nat) : SM Sys EnqueueOutcome := fun s =>
  let succeed := sys_completed s ++
    match callback with Some cb => [(cb, Success)] | None => [] end in
  if trivial_flush op (is_resident s slot)
  then Some (Finished, mkSys (sys_queue s) (sys_resident s) succeed)
  else
    match Q.enqueue (mkEnqueue slot op callback) (is_resident s slot) queue_limit
            (sys_queue s) with
    | Some (Queued, q) => Some (Finished, mkSys q (sys_resident s) (sys_completed s))
    | Some (NotNeeded, q) => Some (Finished, mkSys q (sys_resident s) succeed)
    | Some (NoRoom, q) => Some (Waiting, mkSys q (sys_resident s) (sys_completed s))
    | None => None
    end.

