(* ===== verification/ObjectWorker.v ===== *)
(** * The object manager's thread and its clients
    ([io-mmu/src/cpu_fabric/object_manager.rs])

    The worker and the threads that call [Inner::enqueue], in steps as fine as what
    they share: the queue under its lock, the page cells of the slots, the slots'
    reference counts and the closed flag.  Between the lock's release in
    [Inner::dequeue] and the last callback of the task a client's step may come at
    any point.  What the memory objects answer and when slots and the manager are
    dropped is arbitrary; the trace of what was asked, done and answered is part of
    the state. *)

From S2P Require Import Prelude Convert ObjectQueue.
Local Open Scope Z_scope.
Local Open Scope emu_scope.

Inductive Action :=
  | Requested (slot : positive) (op : OpType) (callback : option nat)   (* [Inner::enqueue] is called *)
  | Faulting (slot : positive) (ok : bool)       (* the object faults the page in, or cannot *)
  | FaultingOut (slot : positive) (ok : bool)    (* the object's [fault_out], by what it comes to *)
  | PageSet (slot : positive)                    (* the slot's page cell is set *)
  | Died (slot : positive)                       (* the last strong reference is dropped *)
  | Closed                                       (* [Inner::close] *)
  | Delivered (callback : nat) (outcome : Outcome).

(** A client in the loop of [Inner::enqueue]. *)
Record Call := mkCall { call_slot : positive; call_op : OpType; call_callback : option nat }.

Inductive Worker :=
  | Idle                                          (* in [Inner::dequeue] *)
  | Holding (entry : QueueEntry)                  (* at the start of [handle_task] *)
  | Performing (entry : QueueEntry) (ok : bool)   (* inside the memory object *)
  | Calling (callbacks : list nat) (outcome : Outcome)
  | Ended.

Record Manager := mkManager {
  mg_queue : Queue;
  closed : bool;
  resident : gset positive;     (* slots whose page cell is set *)
  dead : gset positive;         (* slots without strong references *)
  calls : list Call;
  worker : Worker;
  trace : list Action;
}.

(** [ObjectManager::new]. *)
Definition Manager_new : Manager := mkManager Queue_new false ∅ ∅ [] Idle [].

Definition log (l : list Action) (m : Manager) : Manager :=
  mkManager (mg_queue m) (closed m) (resident m) (dead m) (calls m) (worker m) (trace m ++ l).
Definition put_queue (q : Queue) (m : Manager) : Manager :=
  mkManager q (closed m) (resident m) (dead m) (calls m) (worker m) (trace m).
Definition put_calls (l : list Call) (m : Manager) : Manager :=
  mkManager (mg_queue m) (closed m) (resident m) (dead m) l (worker m) (trace m).
Definition put_worker (w : Worker) (m : Manager) : Manager :=
  mkManager (mg_queue m) (closed m) (resident m) (dead m) (calls m) w (trace m).

Definition in_cell (m : Manager) (slot : positive) : bool := bool_decide (slot ∈ resident m).
Definition deliver (callback : option nat) (o : Outcome) : list Action :=
  match callback with Some cb => [Delivered cb o] | None => [] end.

(** [Inner::enqueue] up to its loop.  A caller has a strong reference to the slot and
    one to the manager: there are no calls for a dead slot or after the manager is
    dropped. *)
Definition begin_enqueue (slot : positive) (op : OpType) (callback : option nat) (m : Manager) : Manager :=
  if closed m || bool_decide (slot ∈ dead m) then m
  else
    let m := log [Requested slot op callback] m in
    if trivial_flush op (in_cell m slot) then log (deliver callback Success) m
    else put_calls (calls m ++ [mkCall slot op callback]) m.

(** One iteration of the loop, from the lock taken to the lock given back.  The page
    cell is read once in it; setting it does not take the lock, so that an iteration
    in which it is set comes before or after. *)
Definition attempt (queue_limit : nat) (i : nat) (m : Manager) : option Manager :=
  match calls m !! i with
  | None => Some m
  | Some c =>
      if closed m then None      (* [worker_thread_died] *)
      else
        '(r, q) ← Q.enqueue (mkEnqueue (call_slot c) (call_op c) (call_callback c)) (in_cell m (call_slot c)) queue_limit (mg_queue m);
        match r with
        | Queued => Some (put_calls (delete i (calls m)) (put_queue q m))
        | NotNeeded => Some (log (deliver (call_callback c) Success) (put_calls (delete i (calls m)) (put_queue q m)))
        | NoRoom => Some (put_queue q m)
        end
  end.

(** The last strong reference goes: no call and no upgrade has one. *)
Definition die (slot : positive) (m : Manager) : Manager :=
  if bool_decide (slot ∈ dead m) || bool_decide (slot ∈ call_slot <$> calls m) ||
     match worker m with Performing e _ => bool_decide (ObjectQueue.slot e = slot) | _ => false end
  then m
  else mkManager (mg_queue m) (closed m) (resident m) ({[slot]} ∪ dead m) (calls m) (worker m) (trace m ++ [Died slot]).

(** The manager is dropped, which no client refers to. *)
Definition close (m : Manager) : Manager :=
  match calls m with
  | [] => if closed m then m else
      mkManager (mg_queue m) true (resident m) (dead m) [] (worker m) (trace m ++ [Closed])
  | _ => m
  end.

(** [Inner::dequeue]; the thread ends when the manager is closed, and what is queued
    is dropped with the queue. *)
Definition worker_dequeue (m : Manager) : option Manager :=
  if closed m then
    let dropped := concat (callbacks <$> queue (mg_queue m)) in
    Some (put_worker Ended (put_queue Queue_new (log ((fun cb => Delivered cb Dropped) <$> dropped) m)))
  else
    '(e, q) ← Q.dequeue (mg_queue m);
    match e with
    | Some entry => Some (put_worker (Holding entry) (put_queue q m))
    | None => Some (put_queue q m)      (* waits *)
    end.

(** [handle_task] up to the call of the memory object, which will answer [ok] (an
    error and a panic are the same). *)
Definition handle_task (entry : QueueEntry) (ok : bool) (m : Manager) : option Manager :=
  if bool_decide (slot entry ∈ dead m) then Some (put_worker (Calling (callbacks entry) Dropped) m)
  else match op_type entry with
       | Init _ =>
           if in_cell m (slot entry) then Some (put_worker (Calling (callbacks entry) Success) m)
           else Some (put_worker (Performing entry ok) (log [Faulting (slot entry) ok] m))
       | Flush =>
           if in_cell m (slot entry) then Some (put_worker (Performing entry ok) (log [FaultingOut (slot entry) ok] m))
           else None
       end.

(** The object answers. *)
Definition finish_task (entry : QueueEntry) (ok : bool) (m : Manager) : Manager :=
  let m := put_worker (Calling (callbacks entry) (if ok then Success else Failure)) m in
  match op_type entry with
  | Init _ =>
      if ok then mkManager (mg_queue m) (closed m) ({[slot entry]} ∪ resident m) (dead m) (calls m) (worker m)
                   (trace m ++ [PageSet (slot entry)])
      else m
  | Flush => m
  end.

(** The worker's next step. *)
Definition work (ok : bool) (m : Manager) : option Manager :=
  match worker m with
  | Idle => worker_dequeue m
  | Holding entry => handle_task entry ok m
  | Performing entry ok => Some (finish_task entry ok m)
  | Calling [] _ => Some (put_worker Idle m)
  | Calling (cb :: l) o => Some (put_worker (Calling l o) (log [Delivered cb o] m))
  | Ended => Some m
  end.

Inductive Event :=
  | Begin (slot : positive) (op : OpType) (callback : option nat)
  | Attempt (i : nat)
  | Die (slot : positive)
  | Close
  | Work (ok : bool).

Definition step (queue_limit : nat) (ev : Event) (m : Manager) : option Manager :=
  match ev with
  | Begin slot op callback => Some (begin_enqueue slot op callback m)
  | Attempt i => attempt queue_limit i m
  | Die slot => Some (die slot m)
  | Close => Some (close m)
  | Work ok => work ok m
  end.

(** An interleaving; a step that cannot be taken in a state leaves it. *)
Fixpoint run (queue_limit : nat) (evs : list Event) (m : Manager) : option Manager :=
  match evs with
  | [] => Some m
  | ev :: evs => m ← step queue_limit ev m; run queue_limit evs m
  end.

(** ** What is promised *)

(** The callbacks handed in, and those done with. *)
Definition asked (t : list Action) : list nat := omap (fun a => match a with Requested _ _ cb => cb | _ => None end) t.
Definition delivered (t : list Action) : list nat := omap (fun a => match a with Delivered cb _ => Some cb | _ => None end) t.

(** [callback] was handed in for [slot], and [P] holds of what was before, of the
    request and of what came after. *)
Definition handed_in (t : list Action) (callback : nat) (slot : positive)
    (P : list Action -> OpType -> list Action -> Prop) : Prop :=
  exists t0 op t1, t = t0 ++ Requested slot op (Some callback) :: t1 /\ P t0 op t1.

(** Why a request made after [t0] may come to the outcome once [t1] has happened.
    Loading succeeds if the page is there; a flush succeeds if there was no page when
    it was asked for, or the object was called to write the page back since then, and
    did.  A failure is the object's, in a call made since the request; a request to
    load may have become part of a flush, and fail with it.  A callback is dropped
    only with its slot or with the manager. *)
Definition justified (slot : positive) (o : Outcome) (t0 : list Action) (op : OpType) (t1 : list Action) : Prop :=
  match o, op with
  | Success, Init _ => PageSet slot ∈ t0 ++ t1
  | Success, Flush => PageSet slot ∉ t0 \/ FaultingOut slot true ∈ t1
  | Failure, Init _ => Faulting slot false ∈ t1 \/ FaultingOut slot false ∈ t1
  | Failure, Flush => FaultingOut slot false ∈ t1
  | Dropped, _ => Died slot ∈ t0 ++ t1 \/ Closed ∈ t0 ++ t1
  end.

Definition explained (t : list Action) (callback : nat) (o : Outcome) : Prop :=
  exists slot, handed_in t callback slot (justified slot o).

(** Callbacks not done with. *)
Definition worker_holds (w : Worker) : list nat :=
  match w with Holding e | Performing e _ => callbacks e | Calling l _ => l | _ => [] end.
Definition waiting (m : Manager) : list nat := omap call_callback (calls m).
Definition held (m : Manager) : list nat :=
  waiting m ++ concat (callbacks <$> queue (mg_queue m)) ++ worker_holds (worker m).

(** ** The invariant *)

(** A task's callbacks were handed in for its slot; what was asked to be flushed is
    part of a flush. *)
Definition task_asked (t : list Action) (e : QueueEntry) : Prop :=
  forall cb, cb ∈ callbacks e -> handed_in t cb (slot e) (fun _ op _ => op = Flush -> op_type e = Flush).

Definition object_called (e : QueueEntry) (ok : bool) : Action :=
  match op_type e with Init _ => Faulting (slot e) ok | Flush => FaultingOut (slot e) ok end.

Definition worker_ok (t : list Action) (w : Worker) : Prop :=
  match w with
  | Holding e => task_asked t e /\ (op_type e = Flush -> PageSet (slot e) ∈ t)
  | Performing e ok => (op_type e = Flush -> PageSet (slot e) ∈ t) /\ forall cb, cb ∈ callbacks e ->
      handed_in t cb (slot e) (fun _ op t1 => (op = Flush -> op_type e = Flush) /\ object_called e ok ∈ t1)
  | Calling l o => forall cb, cb ∈ l -> explained t cb o
  | Idle | Ended => True
  end.

Definition all_explained (t : list Action) : Prop :=
  forall t1 t2 cb o, t = t1 ++ Delivered cb o :: t2 -> explained t1 cb o.

Record manager_ok (fabric : positive) (m : Manager) : Prop := {
  mo_queue : queue_ok (in_cell m) fabric (mg_queue m);
  mo_requests : forall c, c ∈ calls m -> request_ok (in_cell m) fabric (mkEnqueue (call_slot c) (call_op c) (call_callback c));
  mo_closed : closed m = true -> calls m = [] /\ Closed ∈ trace m;
  mo_cells : forall s, s ∈ resident m <-> PageSet s ∈ trace m;
  mo_dead : forall s, s ∈ dead m -> Died s ∈ trace m;
  mo_calls : forall c cb, c ∈ calls m -> call_callback c = Some cb ->
    handed_in (trace m) cb (call_slot c) (fun _ op _ => op = call_op c);
  mo_tasks : forall e, e ∈ queue (mg_queue m) -> task_asked (trace m) e;
  mo_worker : worker_ok (trace m) (worker m);
  mo_ended : worker m = Ended -> queue (mg_queue m) = [] /\ closed m = true;
  mo_count : asked (trace m) ≡ₚ delivered (trace m) ++ held m;
  mo_explained : all_explained (trace m);
}.

(** ** Traces *)

Lemma handed_in_app t l cb slot (P Q : list Action -> OpType -> list Action -> Prop) :
  handed_in t cb slot P -> (forall t0 op t1, t = t0 ++ Requested slot op (Some cb) :: t1 -> P t0 op t1 -> Q t0 op (t1 ++ l)) ->
  handed_in (t ++ l) cb slot Q.
Proof.
  intros (t0 & op & t1 & E & HP) HQ. exists t0, op, (t1 ++ l). split; [|by apply HQ]. by rewrite E, <- app_assoc.
Qed.

Lemma justified_app slot o t0 op t1 l : justified slot o t0 op t1 -> justified slot o t0 op (t1 ++ l).
Proof. destruct o, op; simpl; rewrite ?elem_of_app; tauto. Qed.

Lemma explained_app t l cb o : explained t cb o -> explained (t ++ l) cb o.
Proof. intros (s & H). exists s. eapply handed_in_app; [exact H|]. intros. by apply justified_app. Qed.

Lemma task_asked_app t l e : task_asked t e -> task_asked (t ++ l) e.
Proof. intros H cb Hcb. eapply handed_in_app; [by apply H|done]. Qed.

Lemma worker_ok_app t l w : worker_ok t w -> worker_ok (t ++ l) w.
Proof.
  destruct w as [|e|e ok|cbs o|]; simpl; try done.
  - intros [H Hf]. split; [by apply task_asked_app|]. intros E. apply elem_of_app. left. by apply Hf.
  - intros [Hf H]. split; [intros E; apply elem_of_app; left; by apply Hf|]. intros cb Hcb. eapply handed_in_app; [by apply H|].
    intros t0 op t1 _ [? ?]. split; [done|]. apply elem_of_app. by left.
  - intros H cb Hcb. by apply explained_app, H.
Qed.

Definition is_delivery (a : Action) : bool := match a with Delivered _ _ => true | _ => false end.

(** Only deliveries need an explanation, by what was before them. *)
Lemma explained_snoc t a :
  all_explained t -> (forall cb o, a = Delivered cb o -> explained t cb o) -> all_explained (t ++ [a]).
Proof.
  intros H Ha t1 t2 cb o E. destruct t2 as [|b t2 _] using rev_ind.
  - apply app_inj_tail in E as [-> ->]. by apply Ha.
  - rewrite app_comm_cons, app_assoc in E. apply app_inj_tail in E as [-> _]. by eapply H.
Qed.

Lemma explained_all t l :
  all_explained t -> (forall cb o, Delivered cb o ∈ l -> explained t cb o) -> all_explained (t ++ l).
Proof.
  revert t. induction l as [|a l IH]; intros t H Hl; [by rewrite app_nil_r|].
  change (a :: l) with ([a] ++ l). rewrite app_assoc. apply IH.
  - apply explained_snoc; [done|]. intros cb o ->. apply Hl. left.
  - intros cb o Hin. apply explained_app, Hl. by right.
Qed.

Lemma asked_app t l : asked (t ++ l) = asked t ++ asked l.
Proof. apply omap_app. Qed.
Lemma delivered_app t l : delivered (t ++ l) = delivered t ++ delivered l.
Proof. apply omap_app. Qed.

Lemma asked_deliver cb o : asked (deliver cb o) = [].
Proof. by destruct cb. Qed.
Lemma delivered_deliver cb o : delivered (deliver cb o) = opt_list cb.
Proof. by destruct cb. Qed.

Lemma deliver_none cb o a : a ∈ deliver cb o -> is_delivery a = true.
Proof. destruct cb; simpl; [by intros ->%list_elem_of_singleton|by intros ?%elem_of_nil]. Qed.

(** ** Steps keep the invariant *)

Section Steps.
Context (fabric : positive) (limit : nat).
Abbreviation manager_ok := (manager_ok fabric).
Abbreviation enq_of c := (mkEnqueue (call_slot c) (call_op c) (call_callback c)).

Lemma request_mono (r r' : positive -> bool) enq :
  (forall s, r s = true -> r' s = true) -> request_ok r fabric enq -> request_ok r' fabric enq.
Proof. unfold request_ok. destruct (enq_op_type enq); auto. Qed.

(** What is to be shown of a step that adds [l] to the trace. *)
Lemma advance m m' l :
  manager_ok m -> trace m' = trace m ++ l ->
  (forall s, s ∈ resident m' <-> s ∈ resident m \/ PageSet s ∈ l) ->
  (forall s, s ∈ dead m' -> s ∈ dead m \/ Died s ∈ l) ->
  queue_ok (in_cell m') fabric (mg_queue m') ->
  (forall c, c ∈ calls m' -> c ∈ calls m \/ request_ok (in_cell m') fabric (enq_of c) /\
    forall cb, call_callback c = Some cb -> handed_in (trace m') cb (call_slot c) (fun _ op _ => op = call_op c)) ->
  (closed m' = true -> calls m' = [] /\ Closed ∈ trace m') ->
  (forall e, e ∈ queue (mg_queue m') -> e ∈ queue (mg_queue m) \/ task_asked (trace m') e) ->
  worker_ok (trace m') (worker m') ->
  (worker m' = Ended -> queue (mg_queue m') = [] /\ closed m' = true) ->
  asked l ++ held m ≡ₚ delivered l ++ held m' -> all_explained (trace m') -> manager_ok m'.
Proof.
  intros H Et Hres Hdead Hq Hc Hcl Ht Hw He Hn Hx.
  assert (forall s, in_cell m s = true -> in_cell m' s = true) as Hcell.
  { intros s. unfold in_cell. rewrite !bool_decide_eq_true, Hres. auto. }
  split; try done.
  - intros c [Hc'|[? _]]%Hc; [|done]. by eapply request_mono, (mo_requests _ _ H).
  - intros s. rewrite Hres, Et, elem_of_app. by rewrite (mo_cells _ _ H).
  - intros s Hs. rewrite Et, elem_of_app. apply Hdead in Hs as [Hs%(mo_dead _ _ H)|]; auto.
  - intros c cb [Hc'|[_ Hcb]]%Hc E; [|by apply Hcb]. rewrite Et. eapply handed_in_app; [by apply (mo_calls _ _ H)|done].
  - intros e [He'|]%Ht; [|done]. rewrite Et. by apply task_asked_app, (mo_tasks _ _ H).
  - rewrite Et, asked_app, delivered_app, (mo_count _ _ H), <- !app_assoc. rewrite (Permutation_app_comm (held m)).
    by rewrite Hn.
Qed.

Lemma in_cell_iff m s : manager_ok m -> in_cell m s = true <-> PageSet s ∈ trace m.
Proof. intros H. unfold in_cell. rewrite bool_decide_eq_true. apply H. Qed.

Lemma elem_one {A} (a b : A) : a ∈ [b] <-> a = b.
Proof. apply list_elem_of_singleton. Qed.

Lemma begin_ok slot op cb m :
  manager_ok m -> match op with Init g => g = fabric | Flush => True end -> manager_ok (begin_enqueue slot op cb m).
Proof.
  intros H Hop. unfold begin_enqueue. destruct (closed m) eqn:Hcl; [done|]. case_bool_decide; simpl; [done|].
  assert (forall c, cb = Some c -> handed_in (trace m ++ [Requested slot op cb]) c slot (fun _ op' t1 => op' = op)) as Hin.
  { intros c ->. by exists (trace m), op, []. }
  destruct (trivial_flush op _) eqn:Hf.
  - apply (advance m _ (Requested slot op cb :: deliver cb Success)); simpl; try done; try (by apply H).
    + by rewrite <- app_assoc.
    + intros s. split; [by left|]. intros [?|[?|Hd%deliver_none]%elem_of_cons]; done.
    + intros s ?. by left.
    + intros c Hc. by left.
    + by rewrite Hcl.
    + intros e He. by left.
    + by do 2 apply worker_ok_app; apply H.
    + unfold held. simpl. rewrite delivered_deliver. fold (asked (deliver cb Success)). rewrite asked_deliver. by destruct cb.
    + apply explained_all; [apply explained_snoc; [apply H|done]|]. intros c o Hc.
      destruct op as [|]; [done|]. simpl in Hf. apply negb_true_iff in Hf. destruct cb as [cb|]; [|by apply elem_of_nil in Hc].
      apply elem_one in Hc as [= -> ->]. exists slot. exists (trace m), Flush, []. split; [done|]. left.
      intros Hp%(in_cell_iff m slot H). unfold in_cell in *. simpl in Hf. congruence.
  - apply (advance m _ [Requested slot op cb]); simpl; try done; try (by apply H).
    + intros s. split; [by left|]. by intros [?|?%elem_one].
    + intros s ?. by left.
    + intros c [?| ->%elem_one]%elem_of_app; [by left|]. right. simpl. split; [|done]. unfold request_ok. simpl.
      destruct op; [done|]. simpl in Hf. by apply negb_false_iff in Hf.
    + by rewrite Hcl.
    + intros e He. by left.
    + by apply worker_ok_app; apply H.
    + unfold held, waiting. simpl. rewrite omap_app. simpl. destruct cb; simpl; solve_Permutation.
    + apply explained_snoc; [apply H|done].
Qed.

(** The queue after a request that was let in: its tasks' callbacks are the old ones
    and the new. *)
Lemma spec_enqueue_asked t l enq e :
  (forall e, e ∈ l -> task_asked t e) ->
  (forall cb, enq_callback enq = Some cb -> handed_in t cb (enq_slot enq) (fun _ op _ => op = enq_op_type enq)) ->
  e ∈ Q.spec_enqueue enq l -> task_asked t e.
Proof.
  intros Hl Hin. assert (forall cbs cb, cb ∈ Q.add_callback cbs (enq_callback enq) -> cb ∈ cbs \/ enq_callback enq = Some cb) as Hadd.
  { intros cbs cb. destruct (enq_callback enq); simpl; [|by left]. intros [?|?%elem_one]%elem_of_app; [by left|right; congruence]. }
  induction l as [|e1 l IH]; simpl.
  - intros ->%elem_one cb. simpl. intros [?%elem_of_nil|Hcb]%Hadd; [done|].
    destruct (Hin cb Hcb) as (t0 & op & t1 & -> & ->). by exists t0, (enq_op_type enq), t1.
  - case_decide as Hs; (intros [->|He]%elem_of_cons; [|first [apply Hl; by right|apply IH; [|done]; intros ? ?; apply Hl; by right]]).
    + intros cb. simpl. intros [Hcb|Hcb]%Hadd.
      * destruct (Hl e1 ltac:(left) cb Hcb) as (t0 & op & t1 & E & Hop). exists t0, op, t1. split; [done|]. intros Hf%Hop.
        unfold Q.spec_op. by destruct (enq_op_type enq).
      * rewrite Hs. destruct (Hin cb Hcb) as (t0 & op & t1 & -> & ->). exists t0, (enq_op_type enq), t1. split; [done|]. by intros ->.
    + apply Hl. left.
Qed.

Lemma delete_held i c (l : list Call) : l !! i = Some c -> omap call_callback l ≡ₚ opt_list (call_callback c) ++ omap call_callback (delete i l).
Proof.
  intros Hi. rewrite <- (take_drop_middle _ _ _ Hi) at 1. rewrite delete_take_drop, !omap_app. simpl.
  destruct (call_callback c); simpl; solve_Permutation.
Qed.

(** A client finds what it came for, or its task queued. *)
Lemma client_step m q cs l :
  manager_ok m -> closed m = false -> queue_ok (in_cell m) fabric q -> (forall c, c ∈ cs -> c ∈ calls m) ->
  (forall e, e ∈ queue q -> e ∈ queue (mg_queue m) \/ task_asked (trace m) e) -> (forall a, a ∈ l -> is_delivery a = true) ->
  (forall cb o, Delivered cb o ∈ l -> explained (trace m) cb o) ->
  held m ≡ₚ delivered l ++ omap call_callback cs ++ concat (callbacks <$> queue q) ++ worker_holds (worker m) ->
  manager_ok (log l (put_calls cs (put_queue q m))).
Proof.
  intros H Hcl Hq Hcs Ht Hl Hx Hn.
  assert (asked l = []) as Ea.
  { clear -Hl. induction l as [|a l IH]; [done|]. pose proof (Hl a ltac:(left)) as Ha. destruct a; try done.
    apply IH. intros a' ?. apply Hl. by right. }
  apply (advance m _ l); simpl; try done.
  - intros s. split; [by left|]. intros [?|?%Hl]; done.
  - intros s ?. by left.
  - intros c ?%Hcs. by left.
  - by rewrite Hcl.
  - intros e [?|?]%Ht; [by left|right; by apply task_asked_app].
  - apply worker_ok_app, H.
  - intros E. apply (mo_ended _ _ H) in E as [_ ?]. congruence.
  - rewrite Ea. exact Hn.
  - apply explained_all; [apply H|done].
Qed.

Lemma log_nil m : log [] m = m.
Proof. unfold log. rewrite app_nil_r. by destruct m. Qed.

Definition end_of_queue (m : Manager) : Z := end_of (mg_queue m).

Lemma attempt_ok i m :
  manager_ok m -> end_of_queue m + 1 < 2 ^ 64 ->
  exists m', attempt limit i m = Some m' /\ manager_ok m' /\ end_of_queue m' <= end_of_queue m + 1.
Proof.
  intros H Hlen. unfold attempt. destruct (calls m !! i) as [c|] eqn:Hi; [|exists m; split_and!; [done..|lia]].
  pose proof (list_elem_of_lookup_2 _ _ _ Hi) as Hc. pose proof (delete_held i c _ Hi) as Hheld.
  destruct (closed m) eqn:Hcl; [destruct (mo_closed _ _ H Hcl) as [E _]; rewrite E in Hc; by apply elem_of_nil in Hc|].
  pose proof (mo_requests _ _ H c Hc) as Hreq.
  destruct (enqueue_spec (in_cell m) fabric (mg_queue m) (enq_of c) limit (mo_queue _ _ H) Hreq Hlen) as (r & q & E & Hok & Hr).
  pose proof (enqueue_end _ _ _ _ _ _ _ (mo_queue _ _ H) Hreq Hlen E) as Hend. simpl in E. rewrite E. cbn [mbind option_bind].
  pose proof (fun c' => list_elem_of_delete_inv c' i (calls m)) as Hdel. destruct r.
  - destruct Hr as (_ & Hq & _). eexists. split; [done|]. split; [|exact Hend]. rewrite <- log_nil.
    apply client_step; try done; [|by intros ? ?%elem_of_nil|by intros ? ? ?%elem_of_nil|].
    + rewrite Hq. intros e He. right. eapply spec_enqueue_asked; [by apply H| |exact He]. simpl. intros cb Hcb. by apply (mo_calls _ _ H).
    + unfold held, waiting. rewrite Hheld, Hq, spec_enqueue_callbacks. simpl. solve_Permutation.
  - destruct Hr as [Hn ->]. eexists. split; [done|]. split; [|exact Hend]. apply client_step; try done; [by left|apply deliver_none| |].
    + intros cb o Hd. destruct (call_callback c) as [cb'|] eqn:Ecb; [|by apply elem_of_nil in Hd]. apply elem_one in Hd as [= -> ->].
      exists (call_slot c). destruct (mo_calls _ _ H c cb' Hc Ecb) as (t0 & op & t1 & Et & ->). exists t0, (call_op c), t1. split; [done|].
      unfold not_needed in Hn. simpl in Hn. destruct (call_op c); [|done]. apply (in_cell_iff m _ H) in Hn. rewrite Et in Hn. simpl.
      rewrite elem_of_app in *. rewrite elem_of_cons in Hn. by destruct Hn as [?|[?|?]]; auto.
    + unfold held, waiting. rewrite Hheld, delivered_deliver. solve_Permutation.
  - destruct Hr as (_ & _ & _ & ->). eexists. split; [done|]. split; [by destruct m|exact Hend].
Qed.

Lemma die_ok slot m : manager_ok m -> manager_ok (die slot m).
Proof.
  intros H. unfold die. case_match; [done|]. apply (advance m _ [Died slot]); simpl; try done; try (by apply H).
  - intros s. split; [by left|]. by intros [?|?%elem_one].
  - intros s. rewrite elem_of_union, elem_of_singleton. intros [->|?]; [right; by apply elem_one|by left].
  - intros c ?. by left.
  - intros [? ?]%(mo_closed _ _ H). split; [done|]. apply elem_of_app. by left.
  - intros e ?. by left.
  - apply worker_ok_app, H.
  - apply explained_snoc; [apply H|done].
Qed.

Lemma close_ok m : manager_ok m -> manager_ok (close m).
Proof.
  intros H. unfold close. destruct (calls m) eqn:Hc; [|done]. destruct (closed m) eqn:Hcl; [done|].
  apply (advance m _ [Closed]); simpl; try done; try (by apply H).
  - intros s. split; [by left|]. by intros [?|?%elem_one].
  - intros s ?. by left.
  - by intros c ?%elem_of_nil.
  - intros _. split; [done|]. apply elem_of_app. right. by apply elem_one.
  - intros e ?. by left.
  - apply worker_ok_app, H.
  - intros E. by apply (mo_ended _ _ H) in E as [? ?].
  - unfold held, waiting. simpl. by rewrite Hc.
  - apply explained_snoc; [apply H|done].
Qed.

(** The worker goes on without touching cells or calls. *)
Lemma worker_step m q w l :
  manager_ok m -> queue_ok (in_cell m) fabric q -> (forall e, e ∈ queue q -> e ∈ queue (mg_queue m)) ->
  (forall a, a ∈ l -> match a with PageSet _ => False | _ => True end) -> asked l = [] -> worker_ok (trace m ++ l) w ->
  (w = Ended -> queue q = [] /\ closed m = true) ->
  concat (callbacks <$> queue (mg_queue m)) ++ worker_holds (worker m) ≡ₚ delivered l ++ concat (callbacks <$> queue q) ++ worker_holds w ->
  (forall cb o, Delivered cb o ∈ l -> explained (trace m) cb o) ->
  manager_ok (put_worker w (put_queue q (log l m))).
Proof.
  intros H Hq Ht Hl Ha Hw He Hn Hx. apply (advance m _ l); simpl; try done; try (by apply H).
  - intros s. split; [by left|]. intros [?|?%Hl]; done.
  - intros s ?. by left.
  - intros c ?. by left.
  - intros [? ?]%(mo_closed _ _ H). split; [done|]. apply elem_of_app. by left.
  - intros e ?%Ht. by left.
  - rewrite Ha. unfold held. simpl. rewrite Hn. fold (waiting m). unfold waiting at 2. simpl. fold (waiting m). solve_Permutation.
  - apply explained_all; [apply H|done].
Qed.

Lemma worker_only m w l :
  manager_ok m -> (forall a, a ∈ l -> match a with PageSet _ => False | _ => True end) -> asked l = [] ->
  worker_ok (trace m ++ l) w -> w <> Ended -> worker_holds (worker m) ≡ₚ delivered l ++ worker_holds w ->
  (forall cb o, Delivered cb o ∈ l -> explained (trace m) cb o) -> manager_ok (put_worker w (log l m)).
Proof.
  intros H Hl Ha Hw He Hn Hx. assert (put_worker w (log l m) = put_worker w (put_queue (mg_queue m) (log l m))) as -> by done.
  apply worker_step; try done; [apply H|]. rewrite Hn. solve_Permutation.
Qed.

Lemma in_trace_cell m s : manager_ok m -> PageSet s ∈ trace m -> s ∈ resident m.
Proof. intros H. apply H. Qed.

Lemma delivered_dropped l : asked ((fun cb => Delivered cb Dropped) <$> l) = [] /\ delivered ((fun cb => Delivered cb Dropped) <$> l) = l.
Proof.
  induction l as [|cb l [Ha Hd]]; [done|]. split; [exact Ha|exact (f_equal (cons cb) Hd)].
Qed.

Lemma handed_explained t cb s P o :
  handed_in t cb s P -> (forall t0 op t1, t = t0 ++ Requested s op (Some cb) :: t1 -> P t0 op t1 -> justified s o t0 op t1) -> explained t cb o.
Proof. intros (t0 & op & t1 & E & HP) HJ. exists s, t0, op, t1. split; [done|]. by apply HJ. Qed.

(** What is in a trace was before a request or came after it. *)
Lemma around {t t0 t1 : list Action} {a b} : t = t0 ++ b :: t1 -> a ∈ t -> a <> b -> a ∈ t0 ++ t1.
Proof. intros -> [?|[?|?]%elem_of_cons]%elem_of_app Hne; [|done|]; apply elem_of_app; auto. Qed.

Lemma elem_of_held cb (l : list QueueEntry) : cb ∈ concat (callbacks <$> l) -> exists e, e ∈ l /\ cb ∈ callbacks e.
Proof.
  induction l as [|e l IH]; simpl; [by intros ?%elem_of_nil|]. intros [?|(e' & ? & ?)%IH]%elem_of_app; [exists e|exists e']; (split; [|done]); [left|by right].
Qed.

Lemma worker_dequeue_ok m :
  manager_ok m -> worker m = Idle -> exists m', worker_dequeue m = Some m' /\ manager_ok m' /\ end_of_queue m' <= Z.max 0 (end_of_queue m).
Proof.
  intros H Hw. unfold worker_dequeue. destruct (closed m) eqn:Hcl.
  - eexists. split; [done|]. split; [|unfold end_of_queue, end_of; simpl; lia]. destruct (delivered_dropped (concat (callbacks <$> queue (mg_queue m)))) as [Ha Hd].
    apply worker_step; try done; [apply queue_ok_new|by intros e ?%elem_of_nil|by intros a (cb & -> & _)%list_elem_of_fmap| |].
    + rewrite Hd, Hw. simpl. by rewrite app_nil_r.
    + intros cb o (cb' & [= <- ->] & (e & He & Hcb)%elem_of_held)%list_elem_of_fmap.
      eapply handed_explained; [by eapply (mo_tasks _ _ H)|]. intros t0 op t1 Et _. right.
      apply (around Et); [by apply (mo_closed _ _ H)|done].
  - pose proof (dequeue_spec (in_cell m) fabric (mg_queue m) (mo_queue _ _ H)) as Hd.
    destruct (queue (mg_queue m)) as [|e rest] eqn:Hq.
    + rewrite Hd. cbn [mbind option_bind]. exists m. split; [by destruct m|]. split; [done|lia].
    + destruct Hd as (q & E & Hq' & Hok & Hb). rewrite E. cbn [mbind option_bind]. eexists. split; [done|]. split.
      * rewrite <- (log_nil m) at 1. apply worker_step; rewrite ?Hq, ?Hq', ?app_nil_r; try done; try by intros ? ?%elem_of_nil.
        -- intros e' ?. by right.
        -- split; [apply H; rewrite Hq; left|]. intros Hf. apply (in_cell_iff m _ H), (mo_queue _ _ H); [rewrite Hq; left|done].
        -- rewrite Hw. simpl. rewrite app_nil_r. solve_Permutation.
        -- by intros cb o ?%elem_of_nil.
      * unfold end_of_queue, end_of. simpl. rewrite Hq, Hq'. simpl. lia.
Qed.

(** What the worker says when it has a task in its hands. *)
Lemma worker_has m w : manager_ok m -> worker m = w -> worker_ok (trace m) w.
Proof. intros H <-. apply H. Qed.

Lemma handle_task_ok e ok m :
  manager_ok m -> worker m = Holding e -> exists m', handle_task e ok m = Some m' /\ manager_ok m' /\ mg_queue m' = mg_queue m.
Proof.
  intros H Hw. destruct (worker_has m _ H Hw) as [Hask Hres]. unfold handle_task.
  assert (forall o, (forall cb t0 op t1, trace m = t0 ++ Requested (slot e) op (Some cb) :: t1 -> (op = Flush -> op_type e = Flush) ->
    justified (slot e) o t0 op t1) -> manager_ok (put_worker (Calling (callbacks e) o) m)) as Hcall.
  { intros o Ho. rewrite <- (log_nil m) at 1. apply worker_only; try done; [by intros a ?%elem_of_nil| |by rewrite Hw|by intros cb o' ?%elem_of_nil].
    simpl. rewrite app_nil_r. intros cb Hcb. eapply handed_explained; [by apply Hask|]. by apply Ho. }
  assert (manager_ok (put_worker (Performing e ok) (log [object_called e ok] m))) as Hperform.
  { apply worker_only; try done.
    - intros a ->%elem_one. unfold object_called. by destruct (op_type e).
    - unfold object_called. by destruct (op_type e).
    - split; [intros Hf; apply elem_of_app; left; by apply Hres|]. intros cb Hcb. eapply handed_in_app; [by apply Hask|].
      intros t0 op t1 _ ?. split; [done|]. apply elem_of_app. right. by apply elem_one.
    - rewrite Hw. unfold object_called. by destruct (op_type e).
    - intros cb o Hd%elem_one. unfold object_called in Hd. by destruct (op_type e). }
  case_bool_decide as Hdead.
  { eexists. split; [done|]. split; [|done]. apply Hcall. intros cb t0 op t1 Et _. left. by apply (around Et); [apply H|]. }
  unfold object_called in Hperform. destruct (op_type e) as [g|]; destruct (in_cell m (slot e)) eqn:Hin.
  - eexists. split; [done|]. split; [|done]. apply Hcall. intros cb t0 op t1 Et Hop. destruct op; [|by specialize (Hop eq_refl)].
    apply (around Et); [by apply in_cell_iff|done].
  - eexists. split; [done|]. split; [by apply Hperform|done].
  - eexists. split; [done|]. split; [by apply Hperform|done].
  - apply not_true_iff_false in Hin. destruct Hin. by apply in_cell_iff, Hres.
Qed.

Lemma finish_task_ok e ok m :
  manager_ok m -> worker m = Performing e ok -> manager_ok (finish_task e ok m).
Proof.
  intros H Hw. destruct (worker_has m _ H Hw) as [Hres Hask]. unfold finish_task, object_called in *.
  assert (forall l, (forall cb t0 op t1, cb ∈ callbacks e -> trace m = t0 ++ Requested (slot e) op (Some cb) :: t1 ->
      (op = Flush -> op_type e = Flush) -> match op_type e with Init _ => Faulting (slot e) ok | Flush => FaultingOut (slot e) ok end ∈ t1 ->
      justified (slot e) (if ok then Success else Failure) t0 op (t1 ++ l)) ->
    forall cb, cb ∈ callbacks e -> explained (trace m ++ l) cb (if ok then Success else Failure)) as Hx.
  { intros l Hl cb Hcb. exists (slot e). eapply handed_in_app; [by apply Hask|]. intros t0 op t1 Et [? ?]. by eapply Hl. }
  assert ((forall cb t0 op t1, cb ∈ callbacks e -> trace m = t0 ++ Requested (slot e) op (Some cb) :: t1 ->
      (op = Flush -> op_type e = Flush) -> match op_type e with Init _ => Faulting (slot e) ok | Flush => FaultingOut (slot e) ok end ∈ t1 ->
      justified (slot e) (if ok then Success else Failure) t0 op t1) ->
    manager_ok (put_worker (Calling (callbacks e) (if ok then Success else Failure)) m)) as Hcall.
  { intros Hj. rewrite <- (log_nil m) at 1. apply worker_only; try done; [by intros a ?%elem_of_nil| |by rewrite Hw|by intros cb o' ?%elem_of_nil].
    simpl. apply Hx. intros. rewrite app_nil_r. by eapply Hj. }
  destruct (op_type e) as [g|].
  - destruct ok.
    + apply (advance m _ [PageSet (slot e)]); simpl; try done; try (by apply H).
      * intros s. rewrite elem_of_union, elem_of_singleton, elem_one. split; [intros [->|?]; auto|intros [?|[= ->]]; auto].
      * intros s ?. by left.
      * eapply queue_ok_mono; [|apply H]. intros s. unfold in_cell. simpl. rewrite !bool_decide_eq_true. set_solver.
      * intros c ?. by left.
      * intros [? ?]%(mo_closed _ _ H). split; [done|]. apply elem_of_app. by left.
      * intros e' ?. by left.
      * apply Hx. intros cb t0 op t1 _ _ Hop _. destruct op; [|by specialize (Hop eq_refl)]. simpl. rewrite !elem_of_app, elem_one. auto.
      * unfold held, waiting. simpl. by rewrite Hw.
      * apply explained_snoc; [apply H|done].
    + apply Hcall. intros cb t0 op t1 _ _ Hop Hin. destruct op; [by left|by specialize (Hop eq_refl)].
  - apply Hcall. intros cb t0 op t1 _ Et _ Hin. destruct ok, op; simpl; auto. by apply (around Et); [apply Hres|].
Qed.

Lemma end_nonneg m : manager_ok m -> 0 <= end_of_queue m.
Proof. intros H. destruct (mo_queue _ _ H) as [(_ & _ & Hb & _) _]. unfold end_of_queue, end_of. lia. Qed.

Lemma work_ok ok m :
  manager_ok m -> exists m', work ok m = Some m' /\ manager_ok m' /\ end_of_queue m' <= end_of_queue m.
Proof.
  intros H. pose proof (end_nonneg m H). unfold work. destruct (worker m) as [|e|e ok'|[|cb l] o|] eqn:Hw.
  - destruct (worker_dequeue_ok m H Hw) as (m' & ? & ? & ?). exists m'. split_and!; [done..|lia].
  - destruct (handle_task_ok e ok m H Hw) as (m' & ? & ? & E). exists m'. split_and!; [done..|]. unfold end_of_queue. by rewrite E.
  - eexists. split; [done|]. split; [by apply finish_task_ok|]. unfold finish_task. by destruct (op_type e), ok'.
  - eexists. split; [done|]. split; [|done]. rewrite <- (log_nil m) at 1.
    apply worker_only; try done; [by intros a ?%elem_of_nil|by rewrite Hw|by intros cb o' ?%elem_of_nil].
  - eexists. split; [done|]. split; [|done]. pose proof (worker_has m _ H Hw) as Hx.
    apply worker_only; try done; [by intros a ->%elem_one| |by rewrite Hw|].
    + intros cb' Hcb'. apply explained_app, Hx. by right.
    + intros cb' o' [= -> ->]%elem_one. apply Hx. left.
  - exists m. by split_and!.
Qed.

Lemma event_keeps ev m :
  manager_ok m -> match ev with Begin _ (Init g) _ => g = fabric | _ => True end -> end_of_queue m + 1 < 2 ^ 64 ->
  exists m', step limit ev m = Some m' /\ manager_ok m' /\ end_of_queue m' <= end_of_queue m + 1.
Proof.
  intros H Hev Hlen. destruct ev as [sl op cb|i|sl| |ok]; simpl.
  - eexists. split; [done|]. split; [apply begin_ok; [done|by destruct op]|]. unfold begin_enqueue. repeat case_match; unfold end_of_queue; simpl; lia.
  - by apply attempt_ok.
  - eexists. split; [done|]. split; [by apply die_ok|]. unfold die. case_match; unfold end_of_queue; simpl; lia.
  - eexists. split; [done|]. split; [by apply close_ok|]. unfold close. repeat case_match; unfold end_of_queue; simpl; lia.
  - destruct (work_ok ok m H) as (m' & ? & ? & ?). exists m'. split_and!; [done..|lia].
Qed.

Definition event_ok (ev : Event) : Prop := match ev with Begin _ (Init g) _ => g = fabric | _ => True end.

Lemma run_ok evs : forall m,
  manager_ok m -> Forall event_ok evs -> end_of_queue m + Z.of_nat (length evs) < 2 ^ 64 ->
  exists m', run limit evs m = Some m' /\ manager_ok m'.
Proof.
  induction evs as [|ev evs IH]; intros m H Hev Hlen; [by exists m|]. apply Forall_cons in Hev as [Hev Hevs]. simpl in Hlen.
  destruct (event_keeps ev m H Hev ltac:(lia)) as (m1 & E & H1 & Hend). simpl. rewrite E. cbn [mbind option_bind]. apply IH; [done..|lia].
Qed.

Lemma manager_new_ok : manager_ok Manager_new.
Proof.
  split; simpl; try done; try (by intros ? ?%elem_of_nil); try (by intros ? ? ?%elem_of_nil).
  - apply queue_ok_new.
  - intros s. by rewrite elem_of_nil, elem_of_empty.
  - by intros [] t2 cb o E.
Qed.
End Steps.

(** ** The worker, left alone *)

Definition tasks_cost (l : list QueueEntry) : nat := sum_list ((fun e => 4 + length (callbacks e))%nat <$> l).
#[local] Arguments tasks_cost : simpl never.

Lemma tasks_cost_cons e l : tasks_cost (e :: l) = (4 + length (callbacks e) + tasks_cost l)%nat.
Proof. done. Qed.

(** Steps the worker has to take until it has nothing to do. *)
Definition to_do (m : Manager) : nat :=
  let later := ((if closed m then 1 else 0) + tasks_cost (queue (mg_queue m)))%nat in
  match worker m with
  | Idle => later
  | Holding e => 3 + length (callbacks e) + later
  | Performing e _ => 2 + length (callbacks e) + later
  | Calling l _ => 1 + length l + later
  | Ended => 0
  end.

Lemma work_decreases fabric ok m m' :
  manager_ok fabric m -> work ok m = Some m' ->
  (to_do m' <= pred (to_do m))%nat /\ calls m' = calls m /\ asked (trace m') = asked (trace m).
Proof.
  intros H. assert (forall a, asked [a] = [] -> asked (trace m ++ [a]) = asked (trace m)) as Ha
    by (intros a E; by rewrite asked_app, E, app_nil_r).
  unfold work, to_do. destruct (worker m) as [|e|e ok'|[|cb l] o|] eqn:Hw.
  - unfold worker_dequeue. destruct (closed m) eqn:Hcl.
    + intros [= <-]. simpl. split_and!; [lia|done|]. by rewrite asked_app, (proj1 (delivered_dropped _)), app_nil_r.
    + pose proof (dequeue_spec (in_cell m) fabric (mg_queue m) (mo_queue _ _ H)) as Hd. destruct (queue (mg_queue m)) as [|e rest] eqn:Hq.
      * rewrite Hd. intros [= <-]. simpl. rewrite Hw, Hq, Hcl. split_and!; [simpl; lia|done..].
      * destruct Hd as (q & -> & Hq' & _). rewrite tasks_cost_cons. intros [= <-]. simpl. rewrite Hcl, Hq'. split_and!; [lia|done..].
  - unfold handle_task. destruct (bool_decide _); [|destruct (op_type e), (in_cell m (slot e))]; intros E; try done; injection E as <-;
      simpl; rewrite ?Ha by done; (split; [lia|done]).
  - unfold finish_task. intros [= <-]. destruct (op_type e), ok'; simpl; rewrite ?Ha by done; (split; [lia|done]).
  - intros [= <-]. simpl. split_and!; [lia|done..].
  - intros [= <-]. simpl. rewrite Ha by done. split_and!; [lia|done..].
  - intros [= <-]. rewrite Hw. split_and!; [lia|done..].
Qed.

Lemma drain fabric limit oks : forall m,
  manager_ok fabric m -> (to_do m <= length oks)%nat ->
  exists m', run limit (Work <$> oks) m = Some m' /\ manager_ok fabric m' /\ to_do m' = O /\
    calls m' = calls m /\ asked (trace m') = asked (trace m).
Proof.
  induction oks as [|ok oks IH]; intros m H Hn; simpl in Hn.
  { exists m. split_and!; [done..|lia|done|done]. }
  destruct (work_ok fabric ok m H) as (m1 & E & H1 & _). destruct (work_decreases fabric ok m m1 H E) as (Hd & Ec & Ea).
  destruct (IH m1 H1 ltac:(lia)) as (m2 & E2 & H2 & Hz & Ec2 & Ea2). exists m2. simpl. rewrite E. cbn [mbind option_bind].
  split_and!; [done..|by rewrite Ec2|by rewrite Ea2].
Qed.

Lemma nothing_to_do fabric m : manager_ok fabric m -> to_do m = O -> queue (mg_queue m) = [] /\ held m = waiting m.
Proof.
  intros H. unfold to_do, held. destruct (worker m) as [|e|e ok|l o|] eqn:Hw; intros Hz; try (simpl in Hz; lia).
  - destruct (queue (mg_queue m)) as [|e l]; [|unfold tasks_cost in Hz; simpl in Hz; lia]. split; [done|]. simpl. by rewrite app_nil_r.
  - destruct (mo_ended _ _ H Hw) as [Hq _]. rewrite Hq. split; [done|]. simpl. by rewrite app_nil_r.
Qed.

(** C25: every callback is delivered once, with the outcome it should have.  In every
    interleaving of clients, worker, slots that die and the manager's end, from a new
    manager, nothing aborts (a merged request always fits its task, a flush always
    finds its page, no call finds the manager closed); the callbacks handed in are, as
    a multiset, the ones done with and the ones a call, a task or the worker holds,
    whatever the memory objects answer; each that is done with got its outcome for the
    reason [justified] gives, from what had happened before; and the worker, left
    alone, delivers within a fixed number of steps all but those of calls that wait. *)
Theorem callbacks_delivered_exactly_once fabric limit evs :
  Forall (event_ok fabric) evs -> Z.of_nat (length evs) < 2 ^ 64 ->
  exists s, run limit evs Manager_new = Some s /\
    asked (trace s) ≡ₚ delivered (trace s) ++ held s /\
    (forall t t' cb o, trace s = t ++ Delivered cb o :: t' -> explained t cb o) /\
    NoDup (slot <$> queue (mg_queue s)) /\
    exists n, forall oks, (n <= length oks)%nat -> exists s', run limit (Work <$> oks) s = Some s' /\
      queue (mg_queue s') = [] /\ asked (trace s) ≡ₚ delivered (trace s') ++ waiting s.
Proof.
  intros Hev Hlen. destruct (run_ok fabric limit evs Manager_new (manager_new_ok fabric) Hev Hlen) as (s & E & H).
  exists s. split_and!; [done|by apply (mo_count _ _ H)|by apply (mo_explained _ _ H)|by apply (mo_queue _ _ H)|].
  exists (to_do s). intros oks Hn. destruct (drain fabric limit oks s H Hn) as (s' & E' & H' & Hz & Ec & Ea).
  destruct (nothing_to_do fabric s' H' Hz) as [Hq Hh]. exists s'. split_and!; [done..|].
  rewrite <- Ea, (mo_count _ _ H'), Hh. unfold waiting. by rewrite Ec.
Qed.

(** A load asked for while the worker is busy with the same page: the second task is
    queued, the page arrives, a flush joins the task, and the object fails to flush. *)
Definition sample_events : list Event :=
  [Begin 1 (Init 9) (Some 1%nat); Attempt 0; Work true; Begin 1 (Init 9) (Some 2%nat); Attempt 0; Work true; Work true;
   Begin 1 Flush (Some 3%nat); Attempt 0; Work true; Work true; Work true; Work false; Work true; Work true; Work true].

Lemma callbacks_delivered_exactly_once_witness :
  exists s, run 2 sample_events Manager_new = Some s /\ asked (trace s) ≡ₚ delivered (trace s) ++ held s /\
    asked (trace s) = [1; 2; 3]%nat /\ delivered (trace s) = [1; 2; 3]%nat /\
    (forall t t' cb o, trace s = t ++ Delivered cb o :: t' -> explained t cb o).
Proof.
  destruct (callbacks_delivered_exactly_once 9 2 sample_events) as (s & E & Hc & Hx & _); [by repeat constructor|simpl; lia|].
  exists s. split_and!; [done..| | |done]; vm_compute in E; by injection E as <-.
Defined.

(** A request to load that became part of a flush fails with the flush, although the
    page it asked for is there. *)
Lemma load_fails_with_flush :
  exists s, run 2 sample_events Manager_new = Some s /\ 1%positive ∈ resident s /\ Delivered 2 Failure ∈ trace s.
Proof.
  destruct (run 2 sample_events Manager_new) as [s|] eqn:E; [|by vm_compute in E]. exists s. split; [done|].
  vm_compute in E. injection E as <-. split; [by apply elem_of_singleton_2 || set_solver|]. simpl. set_solver.
Qed.
