(* ===== verification/Fabric.v ===== *)
(** * The machine's shared state ([io-mmu/src/cpu_fabric/mod.rs], and the page
      allocations of [io-mmu/src/page_table.rs])

    One record holds what every address space of a machine shares: host memory,
    the reference-counted [MemoryBackedPage]s and [ObjectSlot]s, the zero page,
    the identifiers and the object manager's queue.  Heap objects are named by
    their address ([positive]); [strong] is the count of an [Arc].  The fabric
    itself is alive throughout, so a weak handle to it upgrades unless it is
    [CpuFabricWeak::invalid()].  Pages are allocated at increasing addresses:
    a host address is not reused. *)

From S2P Require Import Prelude Convert MemTypes Memops ObjectQueue.
Local Open Scope Z_scope.
Local Open Scope emu_scope.

Record Arc (A : Type) := mkArc { strong : nat; value : A }.
Arguments mkArc {A} _ _.
Arguments strong {A} _.
Arguments value {A} _.

Record MemoryBackedPage := mkBacked {
  allocated_page : PagePointer;
  has_fabric : bool;        (* [cpu_fabric] is not [CpuFabricWeak::invalid()] *)
  should_dealloc : bool;
  mut_flags : Z;            (* [mut_page_data.flags] *)
}.

Record ObjectSlot := mkObjectSlot {
  slot_page : option positive;      (* OnceCell<Arc<MemoryBackedPage>> *)
  slot_object : positive;           (* Arc<dyn MemoryObject> *)
  slot_page_offset : PageNumber;
}.

(** What the instruction cache and the allocator are told, in order. *)
Inductive HostEvent :=
  | Invalidate (page : PagePointer)
  | Dealloc (page : PagePointer).

Record Fabric := mkFabric {
  tokens : Tokens;
  mem : Mem;
  pages : gmap positive (Arc MemoryBackedPage);
  slots : gmap positive (Arc ObjectSlot);
  zero_page_cell : option positive;
  next_page : PagePointer;
  events : list HostEvent;
  object_queue : Queue;
  callbacks_done : list (nat * Outcome);
}.

Module Upd.
Definition tokens (v : Tokens) (f : Fabric) : Fabric :=
  mkFabric v (mem f) (pages f) (slots f) (zero_page_cell f) (next_page f) (events f)
    (object_queue f) (callbacks_done f).
Definition mem (v : Mem) (f : Fabric) : Fabric :=
  mkFabric (Fabric.tokens f) v (pages f) (slots f) (zero_page_cell f) (next_page f) (events f)
    (object_queue f) (callbacks_done f).
Definition pages (v : gmap positive (Arc MemoryBackedPage)) (f : Fabric) : Fabric :=
  mkFabric (Fabric.tokens f) (Fabric.mem f) v (slots f) (zero_page_cell f) (next_page f)
    (events f) (object_queue f) (callbacks_done f).
Definition slots (v : gmap positive (Arc ObjectSlot)) (f : Fabric) : Fabric :=
  mkFabric (Fabric.tokens f) (Fabric.mem f) (Fabric.pages f) v (zero_page_cell f)
    (next_page f) (events f) (object_queue f) (callbacks_done f).
Definition zero_page (v : option positive) (f : Fabric) : Fabric :=
  mkFabric (Fabric.tokens f) (Fabric.mem f) (Fabric.pages f) (Fabric.slots f) v
    (next_page f) (events f) (object_queue f) (callbacks_done f).
Definition next_page (v : PagePointer) (f : Fabric) : Fabric :=
  mkFabric (Fabric.tokens f) (Fabric.mem f) (Fabric.pages f) (Fabric.slots f)
    (zero_page_cell f) v (events f) (object_queue f) (callbacks_done f).
Definition event (v : HostEvent) (f : Fabric) : Fabric :=
  mkFabric (Fabric.tokens f) (Fabric.mem f) (Fabric.pages f) (Fabric.slots f)
    (zero_page_cell f) (Fabric.next_page f) (events f ++ [v]) (object_queue f)
    (callbacks_done f).
Definition objects (q : Queue) (d : list (nat * Outcome)) (f : Fabric) : Fabric :=
  mkFabric (Fabric.tokens f) (Fabric.mem f) (Fabric.pages f) (Fabric.slots f)
    (zero_page_cell f) (Fabric.next_page f) (events f) q d.
End Upd.

(** Runs an operation on a part of the fabric. *)
Definition on_tokens {A} (m : SM Tokens A) : SM Fabric A := fun f =>
  match m (tokens f) with Some (a, t) => Some (a, Upd.tokens t f) | None => None end.
Definition on_mem {A} (m : SM Mem A) : SM Fabric A := fun f =>
  match m (mem f) with Some (a, v) => Some (a, Upd.mem v f) | None => None end.

(** ** Page allocations *)

Definition PAGE_BYTES : nat := Z.to_nat PAGE_SIZE.

Lemma PAGE_BYTES_Z : Z.of_nat PAGE_BYTES = 4096.
Proof. done. Qed.

(** Unification must not compare unary numerals of this size. *)
#[global] Opaque PAGE_BYTES.

Fixpoint remove_bytes (m : Mem) (p : Z) (n : nat) : Mem :=
  match n with O => m | S n => delete p (remove_bytes m (p + 1) n) end.

(** [handle_alloc_error] aborts: [None] once the address space is used up. *)
Definition alloc_page (init : PagePointer -> Mem -> Mem) : SM Fabric PagePointer := fun f =>
  let p := next_page f in
  if p + PAGE_SIZE <=? 2 ^ 64
  then Some (p, Upd.next_page (p + PAGE_SIZE) (Upd.mem (init p (mem f)) f))
  else None.

Definition alloc_page_zeroed : SM Fabric PagePointer :=
  alloc_page (fun p m => write_bytes m p (replicate PAGE_BYTES 0)).
(** Uninitialised bytes are not readable: they are absent from [mem]. *)
Definition alloc_page_uninit : SM Fabric PagePointer := alloc_page (fun _ m => m).

Definition dealloc_page (p : PagePointer) : SM Fabric unit := fun f =>
  Some (tt, Upd.event (Dealloc p) (Upd.mem (remove_bytes (mem f) p PAGE_BYTES) f)).

(** [Drop for MemoryBackedPage]: the page is invalidated before it is freed. *)
Definition drop_backed (b : MemoryBackedPage) : SM Fabric unit :=
  (if has_fabric b then sm_modify (Upd.event (Invalidate (allocated_page b))) else sm_ret tt) ;;!
  (if should_dealloc b then dealloc_page (allocated_page b) else sm_ret tt).

(** [try_make_new]: an error of [modify] drops the page, which does not have its
    fabric yet. *)
Definition try_make_new {E} (alloc : SM Fabric PagePointer)
    (modify : PagePointer -> SM Fabric (Result unit E)) :
    SM Fabric (Result MemoryBackedPage E) :=
  let! p := alloc in
  let! r := modify p in
  match r with
  | Ok _ => sm_ret (Ok (mkBacked p true true 0))
  | Err e => drop_backed (mkBacked p false true 0) ;;! sm_ret (Err e)
  end.

(** [let Ok(page) = ...] with an [Infallible] error. *)
Definition infallible {A} (m : SM Fabric (Result A Empty_set)) : SM Fabric A :=
  let! r := m in match r with Ok a => sm_ret a | Err e => match e with end end.

Definition alloc_zeroed : SM Fabric MemoryBackedPage :=
  infallible (try_make_new alloc_page_zeroed (fun _ => sm_ret (Ok tt))).

Definition alloc_with_init {E} (init : PagePointer -> SM Fabric (Result unit E)) :
    SM Fabric (Result MemoryBackedPage E) := try_make_new alloc_page_uninit init.

Definition new_extern_page (p : PagePointer) : MemoryBackedPage := mkBacked p true false 0.

(** ** Whole-page copies *)

Definition WORDS_IN_PAGE : Z := PAGE_SIZE / 8.

Section Endianness.
Context (e : Endian).

(** [ptr::write] of a word to a page nobody else can see. *)
Definition write_word (p v : Z) : SM Mem unit := fun m =>
  Some (tt, write_bytes m p (to_ne_bytes e 8 v)).
Definition read_word (p : Z) : SM Mem Z := load_ne_aligned_inner e 8 p.

Definition copy_page_shared_to_exclusive (shared exclusive : PagePointer) : SM Mem unit :=
  sm_for (seqZ 0 WORDS_IN_PAGE) (fun i =>
    let! word_value := load64_ne_aligned e (shared + 8 * i) in
    write_word (exclusive + 8 * i) word_value).

Definition copy_page_exclusive_to_shared (exclusive shared : PagePointer) : SM Mem unit :=
  sm_for (seqZ 0 WORDS_IN_PAGE) (fun i =>
    let! word_value := read_word (exclusive + 8 * i) in
    store64_ne_aligned e (shared + 8 * i) word_value).
End Endianness.

(** ** Reference counting *)

Definition arc_new (b : MemoryBackedPage) : SM Fabric positive := fun f =>
  let id := fresh (dom (pages f)) in
  Some (id, Upd.pages (<[id := mkArc 1 b]> (pages f)) f).

(** Cloning or dropping a dead reference is undefined. *)
Definition arc_clone (id : positive) : SM Fabric positive := fun f =>
  match pages f !! id with
  | Some a => Some (id, Upd.pages (<[id := mkArc (S (strong a)) (value a)]> (pages f)) f)
  | None => None
  end.

Definition arc_drop (id : positive) : SM Fabric unit := fun f =>
  match pages f !! id with
  | Some (mkArc (S (S n)) b) => Some (tt, Upd.pages (<[id := mkArc (S n) b]> (pages f)) f)
  | Some (mkArc 1 b) => drop_backed b (Upd.pages (delete id (pages f)) f)
  | _ => None
  end.

Definition get_backed (id : positive) : SM Fabric MemoryBackedPage := fun f =>
  match pages f !! id with Some a => Some (value a, f) | None => None end.

(** A dead slot keeps its address for as long as a weak reference may exist. *)
Definition slot_new (s : ObjectSlot) : SM Fabric positive := fun f =>
  let id := fresh (dom (slots f)) in
  Some (id, Upd.slots (<[id := mkArc 1 s]> (slots f)) f).

Definition slot_clone (id : positive) : SM Fabric positive := fun f =>
  match slots f !! id with
  | Some (mkArc (S n) s) => Some (id, Upd.slots (<[id := mkArc (S (S n)) s]> (slots f)) f)
  | _ => None
  end.

Definition slot_drop (id : positive) : SM Fabric unit := fun f =>
  match slots f !! id with
  | Some (mkArc (S (S n)) s) => Some (tt, Upd.slots (<[id := mkArc (S n) s]> (slots f)) f)
  | Some (mkArc 1 s) =>
      let f := Upd.slots (<[id := mkArc 0 (mkObjectSlot None (slot_object s)
                                             (slot_page_offset s))]> (slots f)) f in
      match slot_page s with Some page => arc_drop page f | None => Some (tt, f) end
  | _ => None
  end.

Definition get_slot (id : positive) : SM Fabric ObjectSlot := fun f =>
  match slots f !! id with
  | Some (mkArc (S _) s) => Some (s, f)
  | _ => None
  end.

(** ** The zero page and cloning pages *)

(** [zero_page(cpu_fabric)]: initialises the shared page on first use. *)
Definition zero_page : SM Fabric positive :=
  let! f := sm_get in
  match zero_page_cell f with
  | Some id => arc_clone id
  | None =>
      let! b := alloc_zeroed in
      let! id := arc_new b in
      sm_modify (Upd.zero_page (Some id)) ;;! arc_clone id
  end.

Section Clone.
Context (e : Endian).

(** [Clone for MemoryBackedPage], of the page that lives at [self]. *)
Definition clone_backed (self : positive) : SM Fabric MemoryBackedPage :=
  let! b := get_backed self in
  let! f := sm_get in
  if has_fabric b && bool_decide (zero_page_cell f = Some self)
  then
    let! b' := alloc_zeroed in
    sm_ret (mkBacked (allocated_page b') (has_fabric b) true (mut_flags b'))
  else
    let! b' := infallible (alloc_with_init (fun exclusive =>
      let! _ := on_mem (copy_page_shared_to_exclusive e (allocated_page b) exclusive) in
      sm_ret (Ok tt))) in
    sm_ret (mkBacked (allocated_page b') (has_fabric b) true (mut_flags b')).

(** [Arc::make_mut]: there are no weak references to pages, so a unique page
    is used in place and a shared one is cloned into a new allocation. *)
Definition make_mut (id : positive) : SM Fabric positive :=
  let! f := sm_get in
  match pages f !! id with
  | Some (mkArc 1 _) => sm_ret id
  | Some _ =>
      let! b := clone_backed id in
      let! new := arc_new b in
      arc_drop id ;;! sm_ret new
  | None => sm_panic
  end.
End Clone.

(** ** The object manager *)

Definition QUEUE_LIMIT : nat := 1024.

(** The slots whose page cell is set. *)
Definition slot_resident (f : Fabric) : gset positive :=
  dom (filter (fun '(_, a) => is_Some (slot_page (value a))) (slots f)).

(** [Inner::enqueue] against the fabric's queue; a call that has to wait for
    room does not return: [None]. *)
Definition object_enqueue (slot : positive) (op : OpType) (callback : option nat) :
    SM Fabric unit := fun f =>
  match inner_enqueue QUEUE_LIMIT slot op callback
          (mkSys (object_queue f) (slot_resident f) (callbacks_done f)) with
  | Some (Finished, s) => Some (tt, Upd.objects (sys_queue s) (sys_completed s) f)
  | Some (Waiting, _) => None
  | None => None
  end.

(** The model's name for the one fabric of the machine. *)
Definition THE_FABRIC : positive := 1.
Definition enqueue_flush (slot : positive) (callback : option nat) : SM Fabric unit :=
  object_enqueue slot Flush callback.
Definition enqueue_init (slot : positive) (callback : option nat) : SM Fabric unit :=
  object_enqueue slot (Init THE_FABRIC) callback.

(** [CpuFabric::new]; host memory the embedder maps in ([map_extern]) is given. *)
Definition Fabric_new (host : Mem) (first_page : PagePointer) : Fabric :=
  mkFabric ∅ host ∅ ∅ None first_page [] Queue_new [].
