(* ===== verification/PageTable.v ===== *)
(** * Page tables ([io-mmu/src/page_table.rs])

    Page sources, page entries and the table of an address space, over the
    shared state of [Fabric.v].  The hash map of the table is a [gmap]; loops
    over a range of pages go in the order of the page numbers. *)

From S2P Require Import Prelude Convert MemTypes Fault Memops ObjectQueue Fabric.
Local Open Scope Z_scope.
Local Open Scope emu_scope.

Inductive PageSource :=
  | Shared (page : positive)
  | Private (page : positive) (write_protected : bool)
  | Object (slot : positive) (shared : bool).

#[export] Instance PageSource_eq_dec : EqDecision PageSource.
Proof. solve_decision. Defined.

(** ** Page sources *)

Module Source.
Definition new_private (page : MemoryBackedPage) : SM Fabric PageSource :=
  let! id := arc_new page in sm_ret (Private id false).
Definition new_private_cow (page : positive) : PageSource := Private page true.
Definition zeroed_cow : SM Fabric PageSource :=
  let! id := zero_page in sm_ret (new_private_cow id).
Definition zeroed : SM Fabric PageSource :=
  let! b := alloc_zeroed in new_private b.
Definition zeroed_shared : SM Fabric PageSource :=
  let! b := alloc_zeroed in
  let! id := arc_new b in sm_ret (Shared id).
Definition new_obj (object : positive) (page_offset : PageNumber) (shared : bool) :
    SM Fabric PageSource :=
  let! slot := slot_new (mkObjectSlot None object page_offset) in
  sm_ret (Object slot shared).

(** [PageSource::fork]: what [self] becomes, and the child's source. *)
Definition fork (self : PageSource) : SM Fabric (PageSource * PageSource) :=
  match self with
  | Shared page => let! page' := arc_clone page in sm_ret (self, Shared page')
  | Object slot true => let! slot' := slot_clone slot in sm_ret (self, Object slot' true)
  | Private page _ =>
      let! page' := arc_clone page in
      sm_ret (Private page true, Private page' true)
  | Object slot false =>
      let! s := get_slot slot in
      match slot_page s with
      | Some page =>
          let! page := arc_clone page in
          let! page2 := arc_clone page in
          slot_drop slot ;;!
          sm_ret (new_private_cow page, new_private_cow page2)
      | None =>
          let! child := new_obj (slot_object s) (slot_page_offset s) false in
          sm_ret (self, child)
      end
  end.

(** Dropping a source releases its reference. *)
Definition drop (self : PageSource) : SM Fabric unit :=
  match self with
  | Shared page | Private page _ => arc_drop page
  | Object slot _ => slot_drop slot
  end.
End Source.

(** ** Page entries *)

Record PageEntry := mkPageEntry {
  source : PageSource;
  protections : MemProt;
}.

#[export] Instance PageEntry_eq_dec : EqDecision PageEntry.
Proof. solve_decision. Defined.

Module Entry.
Definition new_inner (m : SM Fabric PageSource) (prot : MemProt) : SM Fabric PageEntry :=
  let! s := m in sm_ret (mkPageEntry s prot).
Definition new_zeroed_cow (prot : MemProt) := new_inner Source.zeroed_cow prot.
Definition new_zeroed (prot : MemProt) := new_inner Source.zeroed prot.
Definition new_zeroed_shared (prot : MemProt) := new_inner Source.zeroed_shared prot.
Definition new_extern (p : PagePointer) (prot : MemProt) : SM Fabric PageEntry :=
  new_inner (Source.new_private (new_extern_page p)) prot.
Definition new_extern_cow (p : PagePointer) (prot : MemProt) : SM Fabric PageEntry :=
  new_inner (let! id := arc_new (new_extern_page p) in
             sm_ret (Source.new_private_cow id)) prot.
Definition new_extern_shared (p : PagePointer) (prot : MemProt) : SM Fabric PageEntry :=
  new_inner (let! id := arc_new (new_extern_page p) in sm_ret (Shared id)) prot.
Definition new_obj (object : positive) (page_offset : PageNumber) (shared : bool)
    (prot : MemProt) : SM Fabric PageEntry :=
  new_inner (Source.new_obj object page_offset shared) prot.

Definition protect (e : PageEntry) (new_prot : MemProt) : PageEntry :=
  mkPageEntry (source e) new_prot.
Definition prot (e : PageEntry) : MemProt := protections e.
Definition drop (e : PageEntry) : SM Fabric unit := Source.drop (source e).

(** The page an entry refers to and the flags of its kind of mapping: [None]
    inside for an object page that is not resident. *)
Definition mem_page (e : PageEntry) : SM Fabric (option (positive * MemFlags)) :=
  match source e with
  | Shared page => sm_ret (Some (page, Flags.from_prot (protections e)))
  | Private page true =>
      sm_ret (Some (page, Flags.union Flags.COW
                (Flags.from_prot (Prot.retain (protections e) (Prot.not Prot.WRITE)))))
  | Private page false => sm_ret (Some (page, Flags.from_prot (protections e)))
  | Object slot shared =>
      let! s := get_slot slot in
      match slot_page s with
      | Some page =>
          sm_ret (Some (page,
            if shared then Flags.union Flags.OBJ_BACKED (Flags.from_prot (protections e))
            else Flags.from_prot (protections e)))
      | None => sm_ret None
      end
  end.

(** [as_page]: the tag is [flags | self.protections]. *)
Definition as_page (e : PageEntry) : SM Fabric (option Page) :=
  let! r := mem_page e in
  match r with
  | Some (page, flags) =>
      let! b := get_backed page in
      sm_ret (Some (mkPage (Tagged.new (allocated_page b)
                      (Flags.union flags (Flags.from_prot (protections e)))) page))
  | None => sm_ret None
  end.

Definition fork (e : PageEntry) : SM Fabric (PageEntry * PageEntry) :=
  let! (self, child) := Source.fork (source e) in
  sm_ret (mkPageEntry self (protections e), mkPageEntry child (protections e)).

(** ** Flushing *)

Definition BOTH_DIRTY_MASK : Z :=
  Z.lor PageDirty.IS_DIRTY_FLAG PageDirty.IS_FLUSHING_DIRTY_PAGE.

Definition set_mut_flags (id : positive) (v : Z) : SM Fabric unit := fun f =>
  match pages f !! id with
  | Some (mkArc n b) =>
      Some (tt, Upd.pages (<[id := mkArc n (mkBacked (allocated_page b) (has_fabric b)
                  (should_dealloc b) v)]> (pages f)) f)
  | None => None
  end.

(** The page the flush is about, if it has one. *)
Definition flush_page (e : PageEntry) : SM Fabric (option positive) :=
  match source e with
  | Shared page | Private page _ => sm_ret (Some page)
  | Object slot _ => let! s := get_slot slot in sm_ret (slot_page s)
  end.

(** [flush_dyn], under the page's flush gate; returns whether the callback
    was made.  The checks under [cfg!(debug_assertions)] compare the flags
    with the value just written and cannot fail under the gate. *)
Definition flush_dyn (e : PageEntry) (callback : option nat) : SM Fabric bool :=
  let! page := flush_page e in
  match page with
  | None => sm_ret false
  | Some id =>
      let! b := get_backed id in
      let v := mut_flags b in
      let dirty := Z.land v BOTH_DIRTY_MASK in
      if dirty =? 0 then sm_ret false
      else
        (if dirty =? PageDirty.IS_DIRTY_FLAG then
           set_mut_flags id (Z.lxor v BOTH_DIRTY_MASK)
         else if dirty =? BOTH_DIRTY_MASK then
           set_mut_flags id (Z.land v (bitnot 8 PageDirty.IS_DIRTY_FLAG))
         else if dirty =? PageDirty.IS_FLUSHING_DIRTY_PAGE then sm_ret tt
         else sm_panic) ;;!
        sm_modify (Upd.event (Invalidate (allocated_page b))) ;;!
        let! b := get_backed id in
        set_mut_flags id (Z.land (mut_flags b) (bitnot 8 PageDirty.IS_FLUSHING_DIRTY_PAGE)) ;;!
        match source e with
        | Object slot true =>
            enqueue_flush slot callback ;;!
            sm_ret (match callback with Some _ => true | None => false end)
        | _ => sm_ret false
        end
  end.

Definition refresh (e : PageEntry) : SM Fabric unit := flush_dyn e None ;;! sm_ret tt.

(** [init_page_dyn]. *)
Definition init_page_dyn (e : PageEntry) (callback : option nat) : SM Fabric bool :=
  match source e with
  | Object slot _ =>
      let! s := get_slot slot in
      match slot_page s with
      | Some _ => sm_ret false
      | None =>
          enqueue_init slot callback ;;!
          sm_ret (match callback with Some _ => true | None => false end)
      end
  | _ => sm_ret false
  end.
End Entry.

(** ** Copy-on-write resolution *)

(** [PageEntry::un_cow]: whether the entry was copy-on-write. *)
Definition un_cow (endian : Endian) (e : PageEntry) : SM Fabric (bool * PageEntry) :=
  match source e with
  | Private page write_protected =>
      if write_protected then
        let! page := make_mut endian page in
        sm_ret (true, mkPageEntry (Private page false) (protections e))
      else sm_ret (false, e)
  | Shared _ | Object _ _ => sm_ret (false, e)
  end.

(** ** Tables *)

Inductive MemMapFlags := MapPrivate | MapShared | MapCow.

Inductive MapRegion :=
  | RegionObject (shared : bool) (object : positive)
  | RegionExtern (flags : MemMapFlags) (base_ptr : PagePointer)
  | RegionAnon (flags : MemMapFlags).

Abbreviation PageTable := (gmap Z PageEntry).

(** [PageTableAccess]: a non-empty range of pages. *)
Record PageTableAccess := mkAccess { start_page : PageNumber; page_count : Z }.

Definition access_pages (a : PageTableAccess) : list PageNumber :=
  seqZ (start_page a) (page_count a).

Module Table.
Section Ops.
Context {Error : Type}.

(** The first page of [l] that fails [ok] faults at its base address. *)
Fixpoint ensure_pages (l : list PageNumber) (ok : PageNumber -> bool) :
  Result unit (MemoryFault Error) :=
match l with
| [] => Ok tt
| page :: l => ensure (PageNum.vaddr_base page) (ok page) (ensure_pages l ok)
end.

Definition map_entry (mem_prot : MemProt) (region : MapRegion) (page_offset : Z) :
  SM Fabric PageEntry :=
match region with
| RegionObject shared object =>
    let! off := sm_of_option (PageNum.from_page_number_unchecked page_offset) in
    Entry.new_obj object off shared mem_prot
| RegionExtern flags base_ptr =>
    let! offset := sm_of_option (u64_to_usize page_offset) in
    let! page_ptr := sm_of_option (PagePtr.add_pages base_ptr offset) in
    match flags with
    | MapPrivate => Entry.new_extern page_ptr mem_prot
    | MapCow => Entry.new_extern_cow page_ptr mem_prot
    | MapShared => Entry.new_extern_shared page_ptr mem_prot
    end
| RegionAnon MapPrivate => Entry.new_zeroed mem_prot
| RegionAnon MapCow => Entry.new_zeroed_cow mem_prot
| RegionAnon MapShared => Entry.new_zeroed_shared mem_prot
end.

(** The insertion loop of [map_inner]; an occupied page aborts. *)
Fixpoint map_pages (start : PageNumber) (l : list PageNumber) (mem_prot : MemProt)
  (region : MapRegion) (table : PageTable) : SM Fabric PageTable :=
match l with
| [] => sm_ret table
| page :: l =>
    let! mapped := map_entry mem_prot region (page - start) in
    match table !! page with
    | Some _ => sm_panic
    | None => map_pages start l mem_prot region (<[page := mapped]> table)
    end
end.

Definition map_inner (table : PageTable) (access : PageTableAccess) (mem_prot : MemProt)
  (region : MapRegion) : SM Fabric (Result unit (MemoryFault Error) * PageTable) :=
match ensure_pages (access_pages access)
        (fun page => negb (bool_decide (is_Some (table !! page)))) with
| Err e => sm_ret (Err e, table)
| Ok _ =>
    let! table := map_pages (start_page access) (access_pages access) mem_prot region table in
    sm_ret (Ok tt, table)
end.

(** [unmap]: removes the mapped pages of the range, dropping each; returns how
  often [removed] was called. *)
Fixpoint unmap (l : list PageNumber) (table : PageTable) : SM Fabric (nat * PageTable) :=
match l with
| [] => sm_ret (0%nat, table)
| page :: l =>
    match table !! page with
    | Some entry =>
        Entry.drop entry ;;!
        let! (n, table) := unmap l (delete page table) in
        sm_ret (S n, table)
    | None => unmap l table
    end
end.

(** [modify] with an update that does not touch the fabric, accumulating a
  value as the closure does; an absent page aborts. *)
Fixpoint modify_pages {S} (l : list PageNumber) (f : S -> PageEntry -> S * PageEntry)
  (s : S) (table : PageTable) : option (S * PageTable) :=
match l with
| [] => Some (s, table)
| page :: l =>
    match table !! page with
    | Some entry =>
        let (s, entry) := f s entry in
        modify_pages l f s (<[page := entry]> table)
    | None => None
    end
end.

Definition modify {S} (table : PageTable) (access : PageTableAccess)
  (f : S -> PageEntry -> S * PageEntry) (s : S) :
  option (Result S (MemoryFault Error) * PageTable) :=
match ensure_pages (access_pages access)
        (fun page => bool_decide (is_Some (table !! page))) with
| Err e => Some (Err e, table)
| Ok _ =>
    match modify_pages (access_pages access) f s table with
    | Some (s, table) => Some (Ok s, table)
    | None => None
    end
end.

(** [get_page]: reads the fabric and the table, changes neither. *)
Definition get_page (f : Fabric) (table : PageTable) (page_num : PageNumber) :
  option (Result Page (MemoryFault Error)) :=
match table !! page_num with
| None => Some (Err (general_protection (PageNum.vaddr_base page_num)))
| Some entry =>
    match Entry.as_page entry f with
    | Some (Some page, _) => Some (Ok page)
    | Some (None, _) => Some (Err (general_protection (PageNum.vaddr_base page_num)))
    | None => None
    end
end.

(** [fork] and [pages_mut]: the entries in the order of the map. *)
Fixpoint fork_entries (l : list (Z * PageEntry)) (self child : PageTable) :
  SM Fabric (PageTable * PageTable) :=
match l with
| [] => sm_ret (self, child)
| (page, entry) :: l =>
    let! (entry, entry') := Entry.fork entry in
    fork_entries l (<[page := entry]> self) (<[page := entry']> child)
end.

Definition fork (table : PageTable) : SM Fabric (PageTable * PageTable) :=
fork_entries (map_to_list table) table ∅.

Fixpoint un_cow_entries (endian : Endian) (l : list (Z * PageEntry)) (modified : bool)
  (table : PageTable) : SM Fabric (bool * PageTable) :=
match l with
| [] => sm_ret (modified, table)
| (page, entry) :: l =>
    let! (was_cow, entry) := un_cow endian entry in
    un_cow_entries endian l (modified || was_cow) (<[page := entry]> table)
end.

Definition un_cow_all (endian : Endian) (table : PageTable) : SM Fabric (bool * PageTable) :=
un_cow_entries endian (map_to_list table) false table.
End Ops.
End Table.

(** ** Well-formed memory

    Every live page is a mapped host page, and every entry of a table refers to
    live objects.  Under these two, translating a page never dereferences
    anything dead, and the page it yields can be read and written. *)

Definition page_mapped (m : Mem) (p : PagePointer) : Prop :=
  PagePtr.wf p /\ is_Some (load_bytes m p PAGE_BYTES).

Definition fabric_ok (f : Fabric) : Prop :=
  mem_ok (mem f) /\
  forall id a, pages f !! id = Some a -> page_mapped (mem f) (allocated_page (value a)).

Definition source_ok (f : Fabric) (s : PageSource) : Prop :=
  match s with
  | Shared page | Private page _ => is_Some (pages f !! page)
  | Object slot _ => exists n s, slots f !! slot = Some (mkArc (S n) s) /\
      forall page, slot_page s = Some page -> is_Some (pages f !! page)
  end.

Definition table_ok (f : Fabric) (t : PageTable) : Prop :=
  forall p e, t !! p = Some e -> PageNum.wf p /\ Prot.wf (protections e) /\ source_ok f (source e).

(** A page handle that refers to a live page of the fabric. *)
Definition page_live (f : Fabric) (page : Page) : Prop :=
  exists n b, pages f !! mutable_flags page = Some (mkArc n b) /\
    Tagged.page_ptr (ptr page) = Some (allocated_page b) /\
    page_mapped (mem f) (allocated_page b).

(** The flags an entry's page carries: the kind's flags and the protections. *)
Definition entry_flags (e : PageEntry) : MemFlags :=
  let p := Flags.from_prot (protections e) in
  match source e with
  | Shared _ | Private _ false | Object _ false => p
  | Private _ true => Flags.union Flags.COW p
  | Object _ true => Flags.union Flags.OBJ_BACKED p
  end.

(** Or-ing the masked protections and then the protections again is or-ing the
    protections: the mask has no effect. *)
Lemma cow_flags_bits p :
  Flags.union (Flags.union Flags.COW (Flags.from_prot (Prot.retain p (Prot.not Prot.WRITE))))
    (Flags.from_prot p) = Flags.union Flags.COW (Flags.from_prot p).
Proof.
  unfold Flags.union, Flags.from_prot, Prot.retain. simpl. f_equal.
  apply Z.bits_inj'; intros i Hi. rewrite !Z.lor_spec, Z.land_spec.
  destruct (Z.testbit (MemProt_bits p) i); by rewrite ?orb_true_r, ?orb_false_r.
Qed.

Lemma union_idem_prot p :
  Flags.union (Flags.from_prot p) (Flags.from_prot p) = Flags.from_prot p.
Proof. unfold Flags.union, Flags.from_prot; simpl. by rewrite Z.lor_diag. Qed.

Lemma union_absorb a b : Flags.union (Flags.union a b) b = Flags.union a b.
Proof. unfold Flags.union; simpl. by rewrite <- Z.lor_assoc, Z.lor_diag. Qed.

Lemma entry_flags_wf e : Prot.wf (protections e) -> Flags.wf (entry_flags e).
Proof.
  intros Hp. unfold entry_flags.
  destruct (source e) as [|? []|? []]; eauto with emu; apply union_wf; eauto with emu; by vm_compute.
Qed.

(** The page an entry stands for, when it is resident. *)
Definition entry_page (f : Fabric) (e : PageEntry) : option positive :=
  match source e with
  | Shared page | Private page _ => Some page
  | Object slot _ => match slots f !! slot with Some a => slot_page (value a) | None => None end
  end.

Lemma as_page_spec f e :
  source_ok f (source e) ->
  match entry_page f e with
  | Some id => exists n b, pages f !! id = Some (mkArc n b) /\
      Entry.as_page e f = Some (Some (mkPage (Tagged.new (allocated_page b) (entry_flags e)) id), f)
  | None => Entry.as_page e f = Some (None, f)
  end.
Proof.
  unfold entry_page, entry_flags, Entry.as_page, Entry.mem_page, get_backed, get_slot,
    sm_bind, sm_ret.
  destruct e as [[page|page []|slot sh] p]; simpl.
  - intros [[n b] Hb]. rewrite Hb. exists n, b. by rewrite union_idem_prot.
  - intros [[n b] Hb]. rewrite Hb. exists n, b. by rewrite cow_flags_bits.
  - intros [[n b] Hb]. rewrite Hb. exists n, b. by rewrite union_idem_prot.
  - intros (n & s & Hs & Hp). rewrite Hs. simpl. destruct (slot_page s) as [page|]; [|done].
    destruct (Hp page eq_refl) as [[k b] Hb]. rewrite Hb. exists k, b. split; [done|].
    destruct sh; by rewrite ?union_absorb, ?union_idem_prot.
Qed.

(** ** The translation of a table *)

Definition page_of {Error} (f : Fabric) (t : PageTable) (p : PageNumber) :
    Result Page (MemoryFault Error) :=
  match t !! p with
  | Some e =>
      match Entry.as_page e f with
      | Some (Some page, _) => Ok page
      | _ => Err (general_protection (PageNum.vaddr_base p))
      end
  | None => Err (general_protection (PageNum.vaddr_base p))
  end.

Lemma get_page_page_of {Error} f t p :
  table_ok f t -> Table.get_page (Error := Error) f t p = Some (page_of f t p).
Proof.
  intros Ht. unfold Table.get_page, page_of. destruct (t !! p) as [e|] eqn:He; [|done].
  destruct (Ht p e He) as (_ & _ & Hs). pose proof (as_page_spec f e Hs) as Ha.
  destruct (entry_page f e).
  - by destruct Ha as (n & b & _ & ->).
  - by rewrite Ha.
Qed.

Lemma page_of_get_page {Error} f t p r :
  Table.get_page (Error := Error) f t p = Some r -> page_of f t p = r.
Proof.
  unfold Table.get_page, page_of. destruct (t !! p) as [e|]; [|congruence].
  destruct (Entry.as_page e f) as [[[page|] f']|]; congruence.
Qed.

Lemma page_of_live {Error} f t p page :
  fabric_ok f -> table_ok f t -> page_of (Error := Error) f t p = Ok page -> page_live f page.
Proof.
  intros [_ Hf] Ht. unfold page_of. destruct (t !! p) as [e|] eqn:He; [|done].
  destruct (Ht p e He) as (_ & Hp & Hs). pose proof (as_page_spec f e Hs) as Ha.
  destruct (entry_page f e) as [id|]; [|by rewrite Ha].
  destruct Ha as (n & b & Hb & ->). intros [= <-]. exists n, b. simpl.
  pose proof (Hf id _ Hb) as Hm. split_and!; [done| |done].
  apply (tagged_new_spec (allocated_page b) (entry_flags e)); [apply Hm|by apply entry_flags_wf].
Qed.
