(* ===== verification/IoMMU.v ===== *)
(** * Address spaces ([io-mmu/src/lib.rs], the operations on the table)

    An [IoMMU] is its identifier and its page table; several of them share a
    fabric.  An operation takes the address space and returns it updated. *)

From S2P Require Import Prelude Convert MemTypes Fault Memops ObjectQueue Fabric PageTable.
Local Open Scope Z_scope.
Local Open Scope emu_scope.

Record IoMMU := mkIoMMU { identifier : positive; table : PageTable }.

Section Ops.
Context {Error : Type}.

Definition div_rem_page_size (vaddr : Z) : option (PageNumber * Z) :=
  PageNum.from_vaddr_with_offset vaddr.

(** ** Ranges of pages *)

Definition div_page_size_checked (vaddr : Z) :
    option (Result PageNumber (MemoryFault Error)) :=
  match div_rem_page_size vaddr with
  | Some (page, offset) => Some (ensure vaddr (offset =? 0) (Ok page))
  | None => None
  end.

(** [PageTableAccess::get_pages]. *)
Definition get_pages (base_vaddr size : Z) :
    option (Result (option PageTableAccess) (MemoryFault Error)) :=
  match div_page_size_checked base_vaddr with
  | None => None
  | Some (Err e) => Some (Err e)
  | Some (Ok start_page) => Some (
      ensure base_vaddr (Z.land size PAGE_OFFSET_MASK_U64 =? 0) (
      let page_count := Z.shiftr size PAGE_SHIFT in
      let (end_addr, overflow) := overflowing_add 64 base_vaddr size in
      ensure U64_MAX (if overflow then end_addr =? 0 else true) (
      if page_count =? 0 then Ok None else Ok (Some (mkAccess start_page page_count)))))
  end.

(** ** Construction and identity *)

Definition IoMMU_new : SM Fabric IoMMU :=
  let! id := on_tokens Ident.unique_token in sm_ret (mkIoMMU id ∅).

(** The new token exists before the old one is dropped. *)
Definition change_ident (self : IoMMU) : SM Fabric IoMMU :=
  let! id := on_tokens Ident.unique_token in
  on_tokens (Ident.drop (identifier self)) ;;! sm_ret (mkIoMMU id (table self)).

(** [modify_table_full]: the identifier changes exactly when [transform]
    succeeds and reports a modification. *)
Definition modify_table_full {U E} (self : IoMMU)
    (transform : PageTable -> SM Fabric (Result (bool * U) E * PageTable)) :
    SM Fabric (Result U E * IoMMU) :=
  let! (r, table') := transform (table self) in
  let self := mkIoMMU (identifier self) table' in
  match r with
  | Ok (true, res) => let! self := change_ident self in sm_ret (Ok res, self)
  | Ok (false, res) => sm_ret (Ok res, self)
  | Err err => sm_ret (Err err, self)
  end.

Definition modify_table {E} (self : IoMMU)
    (transform : PageTable -> SM Fabric (Result bool E * PageTable)) :
    SM Fabric (Result unit E * IoMMU) :=
  modify_table_full self (fun table =>
    let! (r, table) := transform table in
    sm_ret (Result_map (fun b => (b, tt)) r, table)).

(** ** Mapping *)

Definition map_region (self : IoMMU) (base size : Z) (mem_prot : MemProt)
    (region : MapRegion) : SM Fabric (Result unit (MemoryFault Error) * IoMMU) :=
  let! r := sm_of_option (get_pages base size) in
  match r with
  | Err e => sm_ret (Err e, self)
  | Ok None => sm_ret (Ok tt, self)
  | Ok (Some access) =>
      modify_table self (fun pages =>
        let! (r, pages) := Table.map_inner pages access mem_prot region in
        sm_ret (Result_map (fun _ => true) r, pages))
  end.

(** Panics on a null or unaligned pointer and on a shared read-only mapping. *)
Definition map_extern (self : IoMMU) (base size ptr : Z) (readonly shared : bool)
    (protections : MemProt) : SM Fabric (Result unit (MemoryFault Error) * IoMMU) :=
  sm_assert (is_multiple_of ptr PAGE_SIZE) ;;!
  sm_assert (negb (ptr =? 0)) ;;!
  let! base_ptr := sm_of_option (PagePtr.new ptr) in
  let! region := match readonly, shared with
    | false, false => sm_ret (RegionExtern MapPrivate base_ptr)
    | true, false => sm_ret (RegionExtern MapCow base_ptr)
    | false, true => sm_ret (RegionExtern MapShared base_ptr)
    | true, true => sm_panic
    end in
  map_region self base size protections region.

Definition map (self : IoMMU) (base size : Z) (lazy shared : bool) (protections : MemProt) :
    SM Fabric (Result unit (MemoryFault Error) * IoMMU) :=
  let region := match lazy, shared with
    | _, true => RegionAnon MapShared
    | false, false => RegionAnon MapPrivate
    | true, false => RegionAnon MapCow
    end in
  map_region self base size protections region.

Definition map_device_dyn (self : IoMMU) (base size : Z) (device : positive) (shared : bool)
    (protections : MemProt) : SM Fabric (Result unit (MemoryFault Error) * IoMMU) :=
  map_region self base size protections (RegionObject shared device).

(** ** Unmapping and protecting *)

Definition unmap (self : IoMMU) (start size : Z) :
    SM Fabric (Result unit (MemoryFault Error) * IoMMU) :=
  let! r := sm_of_option (get_pages start size) in
  match r with
  | Err e => sm_ret (Err e, self)
  | Ok None => sm_ret (Ok tt, self)
  | Ok (Some access) =>
      modify_table self (fun table =>
        let! (n, table) := Table.unmap (access_pages access) table in
        sm_ret (Ok (negb (n =? 0)%nat), table))
  end.

(** The closure of [protect]: [modified |= entry.prot() != protections]. *)
Definition protect_entry (protections : MemProt) (modified : bool) (entry : PageEntry) :
    bool * PageEntry :=
  (modified || negb (bool_decide (Entry.prot entry = protections)),
   Entry.protect entry protections).

Definition protect (self : IoMMU) (start size : Z) (protections : MemProt) :
    SM Fabric (Result unit (MemoryFault Error) * IoMMU) :=
  let! r := sm_of_option (get_pages start size) in
  match r with
  | Err e => sm_ret (Err e, self)
  | Ok None => sm_ret (Ok tt, self)
  | Ok (Some access) =>
      modify_table self (fun table =>
        sm_of_option (Table.modify table access (protect_entry protections) false))
  end.

(** ** Forking and resolving copy-on-write pages *)

Definition is_empty (t : PageTable) : bool := bool_decide (t = ∅).

Definition fork (self : IoMMU) : SM Fabric (IoMMU * IoMMU) :=
  let! (r, self) := modify_table_full (E := Empty_set) self (fun table =>
    let! (table, new_table) := Table.fork table in
    sm_ret (Ok (is_empty new_table, new_table), table)) in
  match r with
  | Ok new_table =>
      let! id := on_tokens (Ident.clone (identifier self)) in
      sm_ret (self, mkIoMMU id new_table)
  | Err e => match e with end
  end.

Definition copy_all_cow_pages (endian : Endian) (self : IoMMU) : SM Fabric IoMMU :=
  let! (_, self) := modify_table (E := Empty_set) self (fun table =>
    let! (modified, table) := Table.un_cow_all endian table in
    sm_ret (Ok modified, table)) in
  sm_ret self.

(** ** Walking the table *)

Definition refresh (self : IoMMU) : SM Fabric unit :=
  sm_for (map_to_list (table self)) (fun '(_, entry) => Entry.refresh entry).

(** The requests [flush] and [fault_in_all_memory_objects] make, one callback
    per entry; returns the callbacks they then wait for. *)
Fixpoint request_all (request : PageEntry -> nat -> SM Fabric bool) (next : nat)
    (l : list (Z * PageEntry)) : SM Fabric (list nat) :=
  match l with
  | [] => sm_ret []
  | (_, entry) :: l =>
      let! used := request entry next in
      let! rest := request_all request (S next) l in
      sm_ret (if used : bool then next :: rest else rest)
  end.

Definition flush_requests (self : IoMMU) (next : nat) : SM Fabric (list nat) :=
  request_all (fun e cb => Entry.flush_dyn e (Some cb)) next (map_to_list (table self)).
Definition fault_in_requests (self : IoMMU) (next : nat) : SM Fabric (list nat) :=
  request_all (fun e cb => Entry.init_page_dyn e (Some cb)) next (map_to_list (table self)).
End Ops.
