(* ===== verification/ExclusiveMonitor.v ===== *)
(** * The exclusive monitor ([io-mmu/src/cpu_fabric/exclusive_monitor.rs])

    Reservations in hashed, versioned buckets.  A bucket is behind a mutex that
    an operation holds from its first read to its last write, so an operation
    is one step of the monitor; the loads and stores it is asked to make under
    the lock are arguments, on a state of the caller's. *)

From S2P Require Import Prelude MemTypes.
Local Open Scope Z_scope.
Local Open Scope emu_scope.

Definition BUCKET_COUNT : Z := 257.

(** ** The bucket of an address *)

Record SplitMixConstants := mkSplitMix { shift1 : Z; c1 : Z; shift2 : Z; c2 : Z; shift3 : Z }.

(** The table by [usize::BITS]; other widths do not compile. *)
Definition split_mix_constants (usize_bits : Z) : option SplitMixConstants :=
  if 64 <=? usize_bits then Some (mkSplitMix 30 0xbf58476d1ce4e5b9 27 0x94d049bb133111eb 31)
  else if usize_bits =? 32 then Some (mkSplitMix 16 0x7feb352d 15 0x846ca68b 16)
  else if usize_bits =? 16 then Some (mkSplitMix 7 0x2c1b 9 0x297a 7)
  else None.

Definition SPLIT_MIX_CONSTANTS : SplitMixConstants :=
  Eval cbv in default (mkSplitMix 0 0 0 0 0) (split_mix_constants USIZE_BITS).

Definition reservation_index (ptr : Z) : Z :=
  let x := Z.shiftr ptr CACHE_LINE_SHIFT in
  let x := Z.lxor x (Z.shiftr x (shift1 SPLIT_MIX_CONSTANTS)) in
  let x := wrapping_mul USIZE_BITS x (c1 SPLIT_MIX_CONSTANTS) in
  let x := Z.lxor x (Z.shiftr x (shift2 SPLIT_MIX_CONSTANTS)) in
  let x := wrapping_mul USIZE_BITS x (c2 SPLIT_MIX_CONSTANTS) in
  let x := Z.lxor x (Z.shiftr x (shift3 SPLIT_MIX_CONSTANTS)) in
  x mod BUCKET_COUNT.

(** ** Data *)

(** [Version(u128)]. *)
Abbreviation Version := Z.

Inductive ExclusiveMonitorLoad := U128 (v : Z) | U64 (v : Z) | U32 (v : Z) | U16 (v : Z) | U8 (v : Z).

Record Reservation := mkReservation { version : Version; value : ExclusiveMonitorLoad }.

Record ReservationSlot := mkSlot { slot_ptr : option Z; slot_version : Version }.

Inductive ReservationLost := Lost.

Abbreviation ExclusiveMonitor := (list ReservationSlot).

#[export] Instance ReservationSlot_eq_dec : EqDecision ReservationSlot.
Proof. solve_decision. Defined.
#[export] Instance ExclusiveMonitorLoad_eq_dec : EqDecision ExclusiveMonitorLoad.
Proof. solve_decision. Defined.

Definition init : ExclusiveMonitor := replicate (Z.to_nat BUCKET_COUNT) (mkSlot None 0).

(** ** Operations *)

Definition bucket_of (ptr : Z) : nat := Z.to_nat (reservation_index ptr).
Arguments bucket_of : simpl never.

(** The bucket is read without a bounds check. *)
Definition ptr_lock (ptr : Z) (m : ExclusiveMonitor) : option ReservationSlot := m !! bucket_of ptr.

Section Ops.
Context {St : Type}.

Definition ldrex {T} (into : T -> ExclusiveMonitorLoad) (ptr : Z) (load_op : SM St T) :
    SM (ExclusiveMonitor * St) (T * Reservation) := fun '(m, s) =>
  match ptr_lock ptr m with
  | None => None
  | Some lock =>
      let m := <[bucket_of ptr := mkSlot (Some ptr) (slot_version lock)]> m in
      match load_op s with
      | Some (v, s) => Some ((v, mkReservation (slot_version lock) (into v)), (m, s))
      | None => None
      end
  end.

Definition strex (ptr : Z) (ver : Version) (store_op : SM St (Result unit ReservationLost)) :
    SM (ExclusiveMonitor * St) (Result unit ReservationLost) := fun '(m, s) =>
  match ptr_lock ptr m with
  | None => None
  | Some lock =>
      if negb (bool_decide (slot_ptr lock = Some ptr)) || negb (slot_version lock =? ver)
      then Some (Err Lost, (m, s))
      else
        match checked_add 128 (slot_version lock) 1 with
        | None => None  (* Version::exhausted *)
        | Some v =>
            let m := <[bucket_of ptr := mkSlot (slot_ptr lock) v]> m in
            match store_op s with
            | Some (r, s) => Some (r, (m, s))
            | None => None
            end
        end
  end.
End Ops.

(** ** Buckets *)

Lemma reservation_index_bound ptr : 0 <= reservation_index ptr < BUCKET_COUNT.
Proof. unfold reservation_index. by apply Z.mod_pos_bound. Qed.

Lemma bucket_of_lt ptr : (bucket_of ptr < Z.to_nat BUCKET_COUNT)%nat.
Proof. pose proof (reservation_index_bound ptr). unfold bucket_of. lia. Qed.

(** All of a cache line is in one bucket. *)
Lemma same_line_same_bucket p q :
  p / CACHE_LINE_SIZE = q / CACHE_LINE_SIZE -> bucket_of p = bucket_of q.
Proof.
  intros Heq. assert (Z.shiftr p CACHE_LINE_SHIFT = Z.shiftr q CACHE_LINE_SHIFT) as Hs.
  { rewrite !Z.shiftr_div_pow2 by (by vm_compute). exact Heq. }
  unfold bucket_of, reservation_index. rewrite Hs. reflexivity.
Qed.

#[global] Opaque bucket_of reservation_index.
#[local] Arguments decide : simpl never.

(** What the monitor's code relies on: every bucket exists. *)
Definition monitor_ok (m : ExclusiveMonitor) : Prop := length m = Z.to_nat BUCKET_COUNT.

Lemma init_ok : monitor_ok init.
Proof. apply length_replicate. Qed.

Lemma ptr_lock_some m ptr : monitor_ok m -> is_Some (ptr_lock ptr m).
Proof. intros Hm. apply lookup_lt_is_Some_2. rewrite Hm. apply bucket_of_lt. Qed.

Section Specs.
Context {St : Type}.

Lemma ldrex_spec {T} (into : T -> _) ptr (load_op : SM St T) m s lock :
  ptr_lock ptr m = Some lock ->
  ldrex into ptr load_op (m, s) =
  match load_op s with
  | Some (v, s') => Some ((v, mkReservation (slot_version lock) (into v)),
                          (<[bucket_of ptr := mkSlot (Some ptr) (slot_version lock)]> m, s'))
  | None => None
  end.
Proof. unfold ldrex. by intros ->. Qed.

Lemma strex_commits ptr ver (store_op : SM St _) m s :
  ptr_lock ptr m = Some (mkSlot (Some ptr) ver) -> ver + 1 < 2 ^ 128 ->
  strex ptr ver store_op (m, s) =
  match store_op s with
  | Some (r, s') => Some (r, (<[bucket_of ptr := mkSlot (Some ptr) (ver + 1)]> m, s'))
  | None => None
  end.
Proof.
  intros Hl Hv. unfold strex. rewrite Hl. simpl. rewrite bool_decide_eq_true_2, Z.eqb_refl by done.
  simpl. unfold checked_add. by apply Z.ltb_lt in Hv as ->.
Qed.

Lemma strex_loses ptr ver (store_op : SM St _) m s lock :
  ptr_lock ptr m = Some lock -> lock <> mkSlot (Some ptr) ver ->
  strex ptr ver store_op (m, s) = Some (Err Lost, (m, s)).
Proof.
  intros Hl Hne. unfold strex. rewrite Hl. destruct lock as [p v]. simpl.
  case_bool_decide; simpl; [|done]. destruct (Z.eqb_spec v ver); [|done]. by subst.
Qed.
End Specs.

(** ** Histories

    What the calls of all CPUs, in the order in which they took their locks, do
    to the monitor, and what they report. *)

Inductive Call :=
  | CallLdrex (ptr : Z)
  | CallStrex (ptr : Z) (ver : Version) (answer : Result unit ReservationLost).

Inductive Event :=
  | Reserved (ptr : Z) (ver : Version)
  | Stored (ptr : Z)   (* the store was asked for *)
  | Failed (ptr : Z).

(** The state is whether the store has been asked for. *)
Definition call (c : Call) : SM ExclusiveMonitor Event := fun m =>
  match c with
  | CallLdrex ptr =>
      match ldrex U64 ptr (sm_ret 0) (m, false) with
      | Some ((_, tok), (m, _)) => Some (Reserved ptr (version tok), m)
      | None => None
      end
  | CallStrex ptr ver answer =>
      match strex ptr ver (fun _ => Some (answer, true)) (m, false) with
      | Some (_, (m, asked)) => Some (if asked then Stored ptr else Failed ptr, m)
      | None => None
      end
  end.

Fixpoint run (l : list Call) : SM ExclusiveMonitor (list Event) :=
  match l with
  | [] => sm_ret []
  | c :: l => let! ev := call c in let! h := run l in sm_ret (ev :: h)
  end.

(** The last address a bucket was reserved for, and how often a store was asked
    for in it. *)
Fixpoint last_reserved (b : nat) (h : list Event) : option Z :=
  match h with
  | [] => None
  | ev :: h =>
      match last_reserved b h with
      | Some p => Some p
      | None => match ev with
                | Reserved p _ => if decide (bucket_of p = b) then Some p else None
                | _ => None
                end
      end
  end.

Definition stores_in (b : nat) (ev : Event) : bool :=
  match ev with Stored p => bool_decide (bucket_of p = b) | _ => false end.

Definition stored_count (b : nat) (h : list Event) : Z :=
  Z.of_nat (length (filter (fun ev => stores_in b ev = true) h)).

(** The specification: a bucket is what its history says. *)
Definition slot_after (b : nat) (h : list Event) (slot : ReservationSlot) : ReservationSlot :=
  mkSlot (match last_reserved b h with Some p => Some p | None => slot_ptr slot end)
    (slot_version slot + stored_count b h).

Definition monitor_after (m0 : ExclusiveMonitor) (h : list Event) : ExclusiveMonitor :=
  imap (fun b slot => slot_after b h slot) m0.

Definition event_of (slot : ReservationSlot) (c : Call) : Event :=
  match c with
  | CallLdrex p => Reserved p (slot_version slot)
  | CallStrex p ver _ => if decide (slot = mkSlot (Some p) ver) then Stored p else Failed p
  end.

Definition call_ptr (c : Call) : Z := match c with CallLdrex p | CallStrex p _ _ => p end.

(** The events that calls in a row report after a history. *)
Fixpoint events_of (m0 : ExclusiveMonitor) (h : list Event) (l : list Call) : list Event :=
  match l with
  | [] => []
  | c :: l =>
      match ptr_lock (call_ptr c) m0 with
      | Some slot =>
          let ev := event_of (slot_after (bucket_of (call_ptr c)) h slot) c in
          ev :: events_of m0 (h ++ [ev]) l
      | None => []
      end
  end.

Lemma last_reserved_app b h1 h2 :
  last_reserved b (h1 ++ h2) =
  match last_reserved b h2 with Some p => Some p | None => last_reserved b h1 end.
Proof.
  induction h1 as [|ev h1 IH]; simpl; [by destruct (last_reserved b h2)|].
  rewrite IH. by destruct (last_reserved b h2).
Qed.

Lemma stored_count_app b h1 h2 : stored_count b (h1 ++ h2) = stored_count b h1 + stored_count b h2.
Proof. unfold stored_count. rewrite filter_app, length_app. lia. Qed.

Lemma stored_count_one b ev : stored_count b [ev] = if stores_in b ev then 1 else 0.
Proof. unfold stored_count. rewrite filter_cons. by destruct (stores_in b ev). Qed.

Lemma stored_count_le b h : 0 <= stored_count b h <= Z.of_nat (length h).
Proof.
  unfold stored_count. pose proof (length_filter (fun ev => stores_in b ev = true) h). lia.
Qed.

Lemma slot_after_app b h1 h2 slot :
  slot_after b (h1 ++ h2) slot = slot_after b h2 (slot_after b h1 slot).
Proof.
  unfold slot_after. rewrite last_reserved_app, stored_count_app. simpl.
  f_equal; [by destruct (last_reserved b h2)|lia].
Qed.

Lemma slot_after_one b ev slot :
  slot_after b [ev] slot =
  match ev with
  | Reserved p _ => if decide (bucket_of p = b) then mkSlot (Some p) (slot_version slot) else slot
  | Stored p => if decide (bucket_of p = b) then mkSlot (slot_ptr slot) (slot_version slot + 1) else slot
  | Failed _ => slot
  end.
Proof.
  destruct slot as [q w]. unfold slot_after. rewrite stored_count_one.
  destruct ev as [p v|p|p]; simpl; rewrite ?bool_decide_decide; try case_decide; f_equal; lia.
Qed.

Lemma monitor_after_lookup m0 h ptr slot :
  ptr_lock ptr m0 = Some slot ->
  ptr_lock ptr (monitor_after m0 h) = Some (slot_after (bucket_of ptr) h slot).
Proof. unfold ptr_lock, monitor_after. intros Hs. by rewrite list_lookup_imap, Hs. Qed.

Definition event_ptr (ev : Event) : Z := match ev with Reserved p _ | Stored p | Failed p => p end.

(** An event changes the bucket of its address only. *)
Lemma monitor_after_update m0 h ev slot :
  ptr_lock (event_ptr ev) m0 = Some slot ->
  monitor_after m0 (h ++ [ev]) =
  <[bucket_of (event_ptr ev) := slot_after (bucket_of (event_ptr ev)) [ev]
      (slot_after (bucket_of (event_ptr ev)) h slot)]> (monitor_after m0 h).
Proof.
  intros Hs. apply list_eq. intros b. unfold monitor_after. rewrite list_lookup_imap.
  destruct (decide (b = bucket_of (event_ptr ev))) as [->|Hb].
  - rewrite list_lookup_insert_eq by (rewrite length_imap; by eapply lookup_lt_Some).
    unfold ptr_lock in Hs. rewrite Hs. simpl. by rewrite slot_after_app.
  - rewrite list_lookup_insert_ne, list_lookup_imap by done. destruct (m0 !! b) as [s|]; [|done].
    simpl. f_equal. rewrite slot_after_app, slot_after_one.
    destruct ev as [p v|p|p]; simpl in Hb; [|  |done]; by rewrite decide_False by congruence.
Qed.

(** Versions far from their maximum. *)
Definition versions_below (n : Z) (m : ExclusiveMonitor) : Prop :=
  Forall (fun slot => 0 <= slot_version slot /\ slot_version slot + n < 2 ^ 128) m.

Lemma call_spec m0 h c n slot :
  monitor_ok m0 -> versions_below n m0 -> Z.of_nat (length h) < n ->
  ptr_lock (call_ptr c) m0 = Some slot ->
  let ev := event_of (slot_after (bucket_of (call_ptr c)) h slot) c in
  call c (monitor_after m0 h) = Some (ev, monitor_after m0 (h ++ [ev])).
Proof.
  intros Hm Hv Hn Hs. pose proof (monitor_after_lookup m0 h _ _ Hs) as Hl.
  pose proof (Forall_lookup_1 _ _ _ _ Hv Hs) as [Hv0 Hv1]. simpl in Hv0, Hv1.
  pose proof (stored_count_le (bucket_of (call_ptr c)) h) as Hc.
  set (cur := slot_after (bucket_of (call_ptr c)) h slot) in *.
  assert (forall ev, event_ptr ev = call_ptr c ->
    monitor_after m0 (h ++ [ev]) =
    <[bucket_of (call_ptr c) := slot_after (bucket_of (call_ptr c)) [ev] cur]> (monitor_after m0 h)) as Hup.
  { intros ev Hev. rewrite <- Hev in Hs. rewrite (monitor_after_update m0 h ev slot Hs).
    by rewrite Hev. }
  destruct c as [p|p ver answer]; cbn [call_ptr] in *; cbn [call event_of].
  - rewrite (ldrex_spec _ _ _ _ _ _ Hl), Hup, slot_after_one, decide_True by done. done.
  - case_decide as Hd.
    + rewrite Hd in Hl. rewrite (strex_commits _ _ _ _ _ Hl).
      2: { apply (f_equal slot_version) in Hd. simpl in Hd. lia. }
      by rewrite Hup, slot_after_one, decide_True, Hd by done.
    + rewrite (strex_loses _ _ _ _ _ _ Hl) by done.
      rewrite Hup, slot_after_one by done. by rewrite list_insert_id.
Qed.

Lemma monitor_run_spec m0 h l n :
  monitor_ok m0 -> versions_below n m0 -> Z.of_nat (length h + length l) <= n ->
  run l (monitor_after m0 h) =
    Some (events_of m0 h l, monitor_after m0 (h ++ events_of m0 h l)).
Proof.
  intros Hm Hv. revert h. induction l as [|c l IH]; intros h Hn; simpl.
  { by rewrite app_nil_r. }
  destruct (ptr_lock_some m0 (call_ptr c) Hm) as [slot Hs]. rewrite Hs.
  simpl in Hn. unfold sm_bind.
  rewrite (call_spec m0 h c n slot) by (try done; lia). simpl.
  rewrite IH by (rewrite length_app; simpl; lia).
  unfold sm_ret. by rewrite <- (app_assoc h [_]).
Qed.

Lemma slot_after_nil b slot : slot_after b [] slot = slot.
Proof. destruct slot. unfold slot_after, stored_count. simpl. by rewrite Z.add_0_r. Qed.

Lemma monitor_after_nil m0 : monitor_after m0 [] = m0.
Proof.
  unfold monitor_after. apply list_eq. intros b. rewrite list_lookup_imap.
  destruct (m0 !! b) as [slot|]; [|done]. simpl. by rewrite slot_after_nil.
Qed.

(** C19: the monitor implements its specification.  Whatever exclusive loads and
    stores the CPUs make, in whatever order they get the locks, every call
    answers what the history of its bucket says: a store is asked for exactly
    when the last reservation in the bucket is of its address and the version it
    names is the number of stores asked for in the bucket so far.  No bucket
    index is out of range and, below 2^128 calls, no version runs out. *)
Theorem monitor_refines_history m0 l :
  monitor_ok m0 -> versions_below (Z.of_nat (length l)) m0 ->
  run l m0 = Some (events_of m0 [] l, monitor_after m0 (events_of m0 [] l)) /\
  length (events_of m0 [] l) = length l.
Proof.
  intros Hm Hv. split.
  - pose proof (monitor_run_spec m0 [] l _ Hm Hv ltac:(simpl; lia)) as Hr. by rewrite monitor_after_nil in Hr.
  - clear Hv. generalize (@nil Event). induction l as [|c l IH]; intros h; simpl; [done|].
    destruct (ptr_lock_some m0 (call_ptr c) Hm) as [slot ->]. simpl. by rewrite IH.
Qed.

Lemma events_of_app m0 h l1 l2 :
  monitor_ok m0 ->
  events_of m0 h (l1 ++ l2) = events_of m0 h l1 ++ events_of m0 (h ++ events_of m0 h l1) l2.
Proof.
  intros Hm. revert h. induction l1 as [|c l1 IH]; intros h; simpl; [by rewrite app_nil_r|].
  destruct (ptr_lock_some m0 (call_ptr c) Hm) as [slot ->]. simpl. f_equal.
  rewrite IH. by rewrite <- (app_assoc h [_]).
Qed.

Lemma stored_count_zero b h :
  stored_count b h = 0 <-> forall q, Stored q ∈ h -> bucket_of q <> b.
Proof.
  induction h as [|ev h IH].
  { split; [|done]. intros _ q Hq. by apply elem_of_nil in Hq. }
  change (ev :: h) with ([ev] ++ h). rewrite stored_count_app, stored_count_one.
  pose proof (stored_count_le b h) as Hle. split.
  - intros Hz q Hq. apply elem_of_app in Hq as [Hq|Hq].
    + apply list_elem_of_singleton in Hq as <-. simpl in Hz. case_bool_decide; [lia|done].
    + apply IH; [|done]. destruct (stores_in b ev); lia.
  - intros Hall. assert (stored_count b h = 0) as ->.
    { apply IH. intros q Hq. apply Hall, elem_of_app. by right. }
    destruct ev as [p v|p|p]; simpl; try done. rewrite bool_decide_eq_false_2; [done|].
    apply Hall, elem_of_app. left. by apply list_elem_of_singleton.
Qed.

(** C20: an exclusive store commits exactly when it may.  Take a reservation on
    [p] and offer it back after any calls of any CPUs: the store is asked for if
    and only if meanwhile no store was asked for in the bucket of [p] (so none
    to its cache line) and the bucket's last reservation, if there was another,
    is of [p] again. *)
Theorem strex_commits_iff m0 p l answer slot :
  monitor_ok m0 -> versions_below (Z.of_nat (length l) + 2) m0 -> ptr_lock p m0 = Some slot ->
  exists h ev m, let v := slot_version slot in
    run (CallLdrex p :: l ++ [CallStrex p v answer]) m0 = Some (Reserved p v :: h ++ [ev], m) /\
    length h = length l /\
    (ev = Stored p <->
       (forall q, Stored q ∈ h -> bucket_of q <> bucket_of p) /\
       (last_reserved (bucket_of p) h = None \/ last_reserved (bucket_of p) h = Some p)) /\
    (ev = Stored p \/ ev = Failed p).
Proof.
  intros Hm Hv Hs. set (v := slot_version slot).
  set (h := events_of m0 [Reserved p v] l).
  assert (length h = length l) as Hlen.
  { unfold h. generalize [Reserved p v]. clear -Hm. induction l as [|c l IH]; intros h; simpl; [done|].
    destruct (ptr_lock_some m0 (call_ptr c) Hm) as [s ->]. simpl. by rewrite IH. }
  pose proof (monitor_run_spec m0 [] (CallLdrex p :: l ++ [CallStrex p v answer]) _ Hm Hv) as Hr.
  specialize (Hr ltac:(simpl; rewrite length_app; simpl; lia)).
  rewrite monitor_after_nil in Hr. cbn [events_of call_ptr] in Hr.
  rewrite Hs, slot_after_nil in Hr. cbn [event_of app] in Hr.
  rewrite events_of_app in Hr by done. cbn [events_of call_ptr app] in Hr. rewrite Hs in Hr.
  fold v h in Hr. cbn [event_of] in Hr.
  exists h. eexists _, _. split; [exact Hr|]. split; [done|].
  assert (slot_after (bucket_of p) (Reserved p v :: h) slot = mkSlot (Some p) v <->
    (forall q, Stored q ∈ h -> bucket_of q <> bucket_of p) /\
    (last_reserved (bucket_of p) h = None \/ last_reserved (bucket_of p) h = Some p)) as Hiff.
  { rewrite <- stored_count_zero. unfold slot_after.
    change (Reserved p v :: h) with ([Reserved p v] ++ h).
    rewrite stored_count_app, stored_count_one, last_reserved_app. simpl.
    rewrite decide_True by done. fold v. split.
    - intros [= Hl Hc]. split; [lia|]. destruct (last_reserved _ h); [right; congruence|by left].
    - intros [Hc [Hl|Hl]]; rewrite Hc, Hl; f_equal; lia. }
  case_decide as Hd.
  - split; [|by left]. split; [|done]. intros _. by apply Hiff.
  - split; [|by right]. split; [done|]. intros Hno. destruct Hd. by apply Hiff.
Qed.

(** a reservation does not remember its address.  On a fresh monitor a token
    taken on [p] lets its holder commit a store to any address [q] that somebody
    else has reserved in the meantime, and the reservation taken on [q] itself is
    the one that is lost. *)
Theorem token_of_another_address_commits p q answer :
  exists m, run [CallLdrex p; CallLdrex q; CallStrex q 0 answer; CallStrex q 0 answer] init =
    Some ([Reserved p 0; Reserved q 0; Stored q; Failed q], m).
Proof.
  pose proof (monitor_run_spec init [] [CallLdrex p; CallLdrex q; CallStrex q 0 answer; CallStrex q 0 answer]
    4 init_ok) as Hr.
  rewrite monitor_after_nil in Hr. eexists. rewrite Hr; [clear Hr|by apply Forall_replicate|done].
  f_equal. f_equal. cbn [events_of call_ptr].
  assert (forall r, ptr_lock r init = Some (mkSlot None 0)) as Hl.
  { intros r. apply lookup_replicate_2, bucket_of_lt. }
  rewrite !Hl. cbn [event_of]. rewrite slot_after_nil. cbn [slot_version app].
  set (b := bucket_of q). set (s0 := mkSlot None 0).
  assert (slot_version (slot_after b [Reserved p 0] s0) = 0) as ->.
  { rewrite slot_after_one. by case_decide. }
  assert (slot_after b [Reserved p 0; Reserved q 0] s0 = mkSlot (Some q) 0) as Hq.
  { change [Reserved p 0; Reserved q 0] with ([Reserved p 0] ++ [Reserved q 0]).
    rewrite slot_after_app, !slot_after_one, (decide_True (P := bucket_of q = b)) by done.
    by case_decide. }
  rewrite Hq, decide_True by done.
  assert (slot_after b [Reserved p 0; Reserved q 0; Stored q] s0 = mkSlot (Some q) 1) as ->.
  { change [Reserved p 0; Reserved q 0; Stored q] with ([Reserved p 0; Reserved q 0] ++ [Stored q]).
    by rewrite slot_after_app, Hq, slot_after_one, decide_True. }
  by rewrite decide_False.
Qed.

Lemma monitor_refines_history_witness :
  let l := [CallLdrex 4096; CallLdrex 8192; CallStrex 4096 0 (Ok tt); CallStrex 8192 1 (Err Lost)] in
  events_of init [] l = [Reserved 4096 0; Reserved 8192 0; Stored 4096; Failed 8192] /\
  run l init = Some (events_of init [] l, monitor_after init (events_of init [] l)) /\
  length (events_of init [] l) = length l.
Proof.
  split; [by vm_compute|]. apply monitor_refines_history; [apply init_ok|]. by apply Forall_replicate.
Defined.

Lemma strex_commits_iff_witness :
  bucket_of 4096 <> bucket_of 8192 /\
  exists h ev m, let v := 0 in
    run (CallLdrex 4096 :: [CallLdrex 8192; CallStrex 8192 0 (Ok tt)] ++ [CallStrex 4096 v (Ok tt)]) init =
      Some (Reserved 4096 v :: h ++ [ev], m) /\
    length h = 2%nat /\
    (ev = Stored 4096 <->
       (forall q, Stored q ∈ h -> bucket_of q <> bucket_of 4096) /\
       (last_reserved (bucket_of 4096) h = None \/ last_reserved (bucket_of 4096) h = Some 4096)) /\
    (ev = Stored 4096 \/ ev = Failed 4096).
Proof.
  split; [by vm_compute|].
  apply (strex_commits_iff init 4096 [CallLdrex 8192; CallStrex 8192 0 (Ok tt)] (Ok tt) (mkSlot None 0));
    [apply init_ok|by apply Forall_replicate|by vm_compute].
Defined.
