(* ===== verification/LookupCache.v ===== *)
(** * Translation caches ([io-mmu/src/lookup_cache.rs])

    The trait is a type class of operations; what its implementors promise to
    the accesses of [MemAccess.v] is a second class of laws, discharged here for
    [NoCache] and for the TLB. *)

From S2P Require Import Prelude Convert MemTypes Fault Memops ObjectQueue Fabric PageTable IoMMU.
Local Open Scope Z_scope.
Local Open Scope emu_scope.

Section Cache.
Context {Error : Type}.

Class LookupCache (C : Type) := {
  cache_get_page : C -> IoMMU -> PageNumber ->
    SM Fabric (Result Page (MemoryFault Error) * C);
}.

Inductive NoCache := TheNoCache.

#[export] Instance NoCache_LookupCache : LookupCache NoCache := {|
  cache_get_page c m page := fun f =>
    match Table.get_page f (table m) page with
    | Some r => Some ((r, c), f)
    | None => None
    end;
|}.

#[export] Instance Tlb_LookupCache : LookupCache Tlb := {|
  cache_get_page tlb m page_num := fun f =>
    on_tokens (Tlb_lookup tlb page_num (identifier m) (Table.get_page f (table m))) f;
|}.

(** ** The promise of a cache

    [cache_ok c f m] is the cache's invariant.  A lookup answers as the page
    table does and changes the identifiers' counts at most; the invariant is
    kept, and it survives whatever leaves the translation and the counts
    alone, such as the accesses themselves. *)

Definition same_but_tokens (f f' : Fabric) : Prop := f' = Upd.tokens (tokens f') f.

Class LookupCacheLaws (C : Type) `{LookupCache C} := {
  cache_ok : C -> Fabric -> IoMMU -> Prop;
  cache_total c f m p : cache_ok c f m -> is_Some (Table.get_page (Error := Error) f (table m) p);
  cache_get_page_ok c f m p r :
    cache_ok c f m -> Table.get_page f (table m) p = Some r ->
    exists c' f', cache_get_page c m p f = Some ((r, c'), f') /\
      same_but_tokens f f' /\ cache_ok c' f' m;
  cache_ok_stable c f f' m :
    cache_ok c f m -> tokens f' = tokens f ->
    (forall p, Table.get_page (Error := Error) f' (table m) p = Table.get_page f (table m) p) ->
    cache_ok c f' m;
}.

Lemma get_page_tokens f t tbl p :
  Table.get_page (Error := Error) (Upd.tokens t f) tbl p = Table.get_page f tbl p.
Proof.
  unfold Table.get_page. destruct (tbl !! p) as [e|]; [|done].
  unfold Entry.as_page, Entry.mem_page, sm_bind, sm_ret, get_slot, get_backed.
  destruct (source e) as [page|page []|slot sh]; simpl;
    try (by destruct (pages f !! page)).
  destruct (slots f !! slot) as [[[|n] s]|]; simpl; try done.
  destruct (slot_page s) as [page|]; simpl; [|done]. by destruct (pages f !! page).
Qed.

#[export] Instance NoCache_laws : LookupCacheLaws NoCache.
Proof.
  refine {| cache_ok c f m := forall p, is_Some (Table.get_page (Error := Error) f (table m) p) |}.
  - done.
  - intros c f m p r Hok Hr. simpl. rewrite Hr. exists c, f. split; [done|].
    split; [by destruct f|done].
  - intros c f f' m Hok _ Heq p. by rewrite Heq.
Defined.

(** The TLB is coherent for a family of translations that has this address
    space's one. *)
Definition tlb_ok (tlb : Tlb) (f : Fabric) (m : IoMMU) : Prop :=
  exists ext (tr : space_family (MemoryFault Error)),
    tlb_inv (tokens f) ext tr tlb /\ (0 < ext (identifier m))%nat /\
    forall p, Table.get_page f (table m) p = Some (tr (identifier m) p).

#[export] Instance Tlb_laws : LookupCacheLaws Tlb.
Proof.
  refine {| cache_ok := tlb_ok |}.
  - intros c f m p (ext & tr & _ & _ & Htr). rewrite Htr. eauto.
  - intros c f m p r (ext & tr & Hinv & Hid & Htr) Hr. simpl. unfold on_tokens.
    destruct (tlb_lookup_spec _ _ _ _ p _ Hinv Hid) as (tlb' & t' & Hl & Hinv').
    assert (Tlb_lookup c p (identifier m) (Table.get_page f (table m)) (tokens f) =
            Some ((r, tlb'), t')) as ->.
    { rewrite Htr in Hr. injection Hr as <-. rewrite <- Hl. unfold Tlb_lookup.
      rewrite Htr. done. }
    exists tlb', (Upd.tokens t' f). split; [done|]. split; [by destruct f|].
    exists ext, tr. split; [done|]. split; [done|]. intros q. rewrite get_page_tokens. apply Htr.
  - intros c f f' m (ext & tr & Hinv & Hid & Htr) Ht Heq. exists ext, tr.
    rewrite Ht. split; [done|]. split; [done|]. intros q. rewrite Heq. apply Htr.
Defined.

(** ** [LookupCacheExt] *)

Context `{LookupCache C}.

Definition lookup_addr (cache : C) (m : IoMMU) (vaddr : Z) :
    SM Fabric (Result (PageNumber * Z * Page) (MemoryFault Error) * C) :=
  let! (page_num, offset) := sm_of_option (div_rem_page_size vaddr) in
  let! (r, cache) := cache_get_page cache m page_num in
  sm_ret (Result_map (fun page => (page_num, offset, page)) r, cache).

(** The state of an access: the fabric and the host buffer it copies to or
    from. *)
Definition AccessState : Type := Fabric * list Z.

Definition on_fabric {A} (op : SM Fabric A) : SM AccessState A := fun '(f, h) =>
  match op f with Some (a, f) => Some (a, (f, h)) | None => None end.

(** The verification pass of [access], over the pages in the order given. *)
Fixpoint verify_pages (m : IoMMU) (verify : PageNumber -> Page -> bool) (cache : C)
    (l : list PageNumber) : SM AccessState (Result unit (MemoryFault Error) * C) :=
  match l with
  | [] => sm_ret (Ok tt, cache)
  | page_num :: l =>
      let! (r, cache) := on_fabric (cache_get_page cache m page_num) in
      match r with
      | Err e => sm_ret (Err e, cache)
      | Ok page =>
          if verify page_num page then verify_pages m verify cache l
          else sm_ret (Err (general_protection (PageNum.vaddr_base page_num)), cache)
      end
  end.

(** The access pass: a fault is an abort here. *)
Fixpoint access_each (m : IoMMU) (access : PageNumber -> Page -> SM AccessState unit)
    (cache : C) (l : list PageNumber) : SM AccessState C :=
  match l with
  | [] => sm_ret cache
  | page_num :: l =>
      let! (r, cache) := on_fabric (cache_get_page cache m page_num) in
      match r with
      | Err _ => sm_panic
      | Ok page => access page_num page ;;! access_each m access cache l
      end
  end.

(** [access]: verifies in reverse, then accesses forward. *)
Definition access (cache : C) (m : IoMMU) (pages : PageTableAccess)
    (verify : PageNumber -> Page -> bool)
    (access : PageNumber -> Page -> SM AccessState unit) :
    SM AccessState (Result unit (MemoryFault Error) * C) :=
  let! (r, cache) := verify_pages m verify cache (rev (access_pages pages)) in
  match r with
  | Err e => sm_ret (Err e, cache)
  | Ok _ =>
      let! cache := access_each m access cache (access_pages pages) in
      sm_ret (Ok tt, cache)
  end.
End Cache.

(** ** The two passes of an access *)

Lemma same_but_tokens_refl f : same_but_tokens f f.
Proof. by destruct f. Qed.

Lemma same_but_tokens_trans f1 f2 f3 :
  same_but_tokens f1 f2 -> same_but_tokens f2 f3 -> same_but_tokens f1 f3.
Proof. unfold same_but_tokens. intros -> ->. by destruct f1. Qed.

Section Passes.
Context {Error : Type} {C : Type} `{LookupCacheLaws Error C} (m : IoMMU).
(** The translation of the address space, fixed during an access. *)
Context (tr : PageNumber -> Result Page (MemoryFault Error)).

Definition has_view (f : Fabric) : Prop :=
  forall q, Table.get_page f (table m) q = Some (tr q).

Lemma has_view_tokens f f' : has_view f -> same_but_tokens f f' -> has_view f'.
Proof. intros Hv -> q. by rewrite get_page_tokens. Qed.

(** What the verification of the pages [l] answers. *)
Fixpoint verify_result (verify : PageNumber -> Page -> bool) (l : list PageNumber) :
    Result unit (MemoryFault Error) :=
  match l with
  | [] => Ok tt
  | p :: l =>
      match tr p with
      | Err err => Err err
      | Ok page => if verify p page then verify_result verify l
                   else Err (general_protection (PageNum.vaddr_base p))
      end
  end.

Lemma verify_pages_spec verify l c f h :
  cache_ok c f m -> has_view f ->
  exists c' f', verify_pages m verify c l (f, h) = Some ((verify_result verify l, c'), (f', h)) /\
    same_but_tokens f f' /\ cache_ok c' f' m.
Proof.
  revert c f. induction l as [|p l IH]; intros c f Hc Hv; simpl.
  - exists c, f. split_and!; [done|apply same_but_tokens_refl|done].
  - unfold sm_bind at 1. unfold on_fabric.
    destruct (cache_get_page_ok c f m p _ Hc (Hv p)) as (c1 & f1 & -> & Hs & Hc1).
    destruct (tr p) as [page|err]; [|by exists c1, f1].
    destruct (verify p page); [|by exists c1, f1].
    destruct (IH c1 f1 Hc1) as (c2 & f2 & -> & Hs2 & Hc2); [by eapply has_view_tokens|].
    exists c2, f2. split_and!; [done|by eapply same_but_tokens_trans|done].
Qed.

Lemma verify_result_ok verify l p :
  verify_result verify l = Ok tt -> p ∈ l -> exists page, tr p = Ok page /\ verify p page = true.
Proof.
  induction l as [|q l IH]; simpl; [by intros _ ?%elem_of_nil|].
  destruct (tr q) as [page|] eqn:Hq; [|done]. destruct (verify q page) eqn:Hver; [|done].
  intros Hl [->|Hin]%elem_of_cons; eauto.
Qed.

(** [inv p] holds of the state when page [p] is next; a step keeps the
    identifiers and the translation. *)
Context (body : PageNumber -> Page -> SM AccessState unit).
Context (inv : PageNumber -> AccessState -> Prop).
Context (Hview : forall p f h, inv p (f, h) -> has_view f).
Context (Htok : forall p f f' h, inv p (f, h) -> same_but_tokens f f' -> inv p (f', h)).

Lemma access_each_spec n p c f h :
  (forall q page f h, p <= q < p + Z.of_nat n -> tr q = Ok page -> inv q (f, h) ->
     exists f' h', body q page (f, h) = Some (tt, (f', h')) /\ inv (q + 1) (f', h') /\
       tokens f' = tokens f) ->
  (forall q, p <= q < p + Z.of_nat n -> exists page, tr q = Ok page) ->
  cache_ok c f m -> inv p (f, h) ->
  exists c' f' h', access_each m body c (seqZ p (Z.of_nat n)) (f, h) = Some (c', (f', h')) /\
    cache_ok c' f' m /\ inv (p + Z.of_nat n) (f', h').
Proof.
  revert p c f h. induction n as [|n IH]; intros p c f h Hbody Htr Hc Hi.
  - exists c, f, h. simpl. by rewrite Z.add_0_r.
  - rewrite seqZ_cons by lia. simpl. unfold sm_bind at 1. unfold on_fabric.
    destruct (cache_get_page_ok c f m p _ Hc (Hview _ _ _ Hi p)) as (c1 & f1 & -> & Hs & Hc1).
    destruct (Htr p ltac:(lia)) as [page Hp]. rewrite Hp.
    pose proof (Htok _ _ _ _ Hi Hs) as Hi1.
    destruct (Hbody p page f1 h ltac:(lia) Hp Hi1) as (f2 & h2 & Hb & Hi2 & Ht2).
    unfold sm_bind at 1. rewrite Hb.
    assert (cache_ok c1 f2 m) as Hc2.
    { eapply cache_ok_stable; [done|done|]. intros q.
      by rewrite (Hview _ _ _ Hi2), (Hview _ _ _ Hi1). }
    destruct (IH (p + 1) c1 f2 h2) as (c3 & f3 & h3 & He & Hc3 & Hi3); [..|done|done|].
    + intros q pg fq hq Hq. apply Hbody. lia.
    + intros q Hq. apply Htr. lia.
    + exists c3, f3, h3. replace (Z.pred (Z.of_nat (S n))) with (Z.of_nat n) by lia.
      replace (Z.succ p) with (p + 1) by lia. split; [done|]. split; [done|].
      by replace (p + Z.of_nat (S n)) with (p + 1 + Z.of_nat n) by lia.
Qed.
End Passes.
