(* ===== verification/MemAccess.v ===== *)
(** * Guest memory accesses ([io-mmu/src/lib.rs], the access methods)

    Bulk loads and stores, scalar accesses and instruction fetch, generic in the
    translation cache. *)

From S2P Require Import Prelude Convert MemTypes Fault Memops ObjectQueue Fabric PageTable IoMMU.
From S2P Require Import LookupCache.
Local Open Scope Z_scope.
Local Open Scope emu_scope.

Section Access.
Context {Error : Type} (e : Endian) `{LookupCache Error C}.

(** [Page::set_dirty]: the page's atomic byte lives in the fabric. *)
Definition set_dirty (page : Page) : SM Fabric unit :=
  let! b := get_backed (mutable_flags page) in
  Entry.set_mut_flags (mutable_flags page) (PageDirty.set_dirty page (mut_flags b)).

Definition flags_of (page : Page) : MemFlags := Tagged.flags (ptr page).

Definition on_copy {A} (op : SM CopyState A) : SM AccessState A := fun '(f, h) =>
  match op (mkCopy (mem f) h) with
  | Some (a, s) => Some (a, (Upd.mem (vm s) f, host s))
  | None => None
  end.

(** ** Bulk accesses *)

(** The geometry of an access: first and last page, offset in the first page
    and end (exclusive) in the last. *)
Record Span := mkSpan {
  span_start_page : PageNumber; span_start_offset : Z;
  span_last_page : PageNumber; span_last_page_end : Z;
}.

Definition span_of (vaddr last_addr_inclusive : Z) : option Span :=
  match div_rem_page_size vaddr, div_rem_page_size last_addr_inclusive with
  | Some (start_page, start_offset), Some (last_page, end_offset) =>
      Some (mkSpan start_page start_offset last_page (end_offset + 1))
  | _, _ => None
  end.

(** The part of [page_num] an access covers, and where it goes in the buffer:
    [(page_start, dst_start, count)]. *)
Definition page_part (s : Span) (page_num : PageNumber) : option (Z * Z * Z) :=
  let page_start := if page_num =? span_start_page s then span_start_offset s else 0 in
  let page_end := if page_num =? span_last_page s then span_last_page_end s else PAGE_SIZE in
  match checked_sub page_num (span_start_page s) with
  | None => None
  | Some full_pages_before =>
      match u64_to_usize (full_pages_before * PAGE_SIZE_U64) with
      | None => None
      | Some page_base_offset =>
          match checked_sub (page_base_offset + page_start) (span_start_offset s),
                checked_sub page_end page_start with
          | Some dst_start, Some count => Some (page_start, dst_start, count)
          | _, _ => None
          end
      end
  end.

Definition verify_page (required_prot : option MemProt) (no_cow : bool)
    (_ : PageNumber) (page : Page) : bool :=
  if no_cow && Flags.contains_any (flags_of page) Flags.COW then false
  else match required_prot with
       | Some required => Flags.contains_any (flags_of page) (Flags.from_prot required)
       | None => true
       end.

(** [mem_access]; [copy vm_ptr host_offset count] moves the bytes. *)
Definition mem_access (cache : C) (m : IoMMU) (vaddr len : Z)
    (required_prot : option MemProt) (no_cow : bool)
    (per_page_commit : PageNumber -> Page -> SM Fabric unit)
    (copy : Z -> nat -> Z -> SM CopyState unit) :
    SM AccessState (Result unit (MemoryFault Error) * C) :=
  match usize_to_u64 len with
  | None => sm_ret (Err (general_protection U64_MAX), cache)
  | Some len =>
      if len =? 0 then sm_ret (Ok tt, cache)
      else
        let (last_vaddr_maybe, overflowed) := overflowing_add 64 vaddr len in
        if overflowed && negb (last_vaddr_maybe =? 0)
        then sm_ret (Err (general_protection U64_MAX), cache)
        else
          let last_addr_inclusive := wrapping_sub 64 last_vaddr_maybe 1 in
          let! span := sm_of_option (span_of vaddr last_addr_inclusive) in
          let! pages := sm_of_option (checked_sub (span_last_page span) (span_start_page span)) in
          access cache m (mkAccess (span_start_page span) (pages + 1))
            (verify_page required_prot no_cow)
            (fun page_num page =>
               let! (page_start, dst_start, count) := sm_of_option (page_part span page_num) in
               let! page_ptr := sm_of_option (Tagged.page_ptr (ptr page)) in
               on_copy (copy (PagePtr.byte_add page_ptr page_start) (Z.to_nat dst_start) count) ;;!
               on_fabric (per_page_commit page_num page))
  end.

Definition inner_load_with_prot (cache : C) (m : IoMMU) (vaddr : Z)
    (required_prot : option MemProt) : SM AccessState (Result unit (MemoryFault Error) * C) :=
  fun '(f, h) =>
    mem_access cache m vaddr (Z.of_nat (length h)) required_prot false
      (fun _ _ => sm_ret tt)
      (fun vm_ptr mem_ptr count => copy_nonoverlapping_vm_to_host e vm_ptr mem_ptr count)
      (f, h).

Definition inner_store_with_prot (cache : C) (m : IoMMU) (vaddr : Z)
    (required_prot : option MemProt) : SM AccessState (Result unit (MemoryFault Error) * C) :=
  fun '(f, h) =>
    mem_access cache m vaddr (Z.of_nat (length h)) required_prot true
      (fun _ page => set_dirty page)
      (fun vm_ptr mem_ptr count => copy_nonoverlapping_host_to_vm e mem_ptr vm_ptr count)
      (f, h).

(** The public methods; the buffer is the state's. *)
Definition load (cache : C) (m : IoMMU) (vaddr : Z) :=
  inner_load_with_prot cache m vaddr (Some Prot.READ).
Definition load_force (cache : C) (m : IoMMU) (vaddr : Z) :=
  inner_load_with_prot cache m vaddr None.
Definition store (cache : C) (m : IoMMU) (vaddr : Z) :=
  inner_store_with_prot cache m vaddr (Some Prot.WRITE).
Definition store_force (cache : C) (m : IoMMU) (vaddr : Z) :=
  inner_store_with_prot cache m vaddr None.

(** ** Scalar accesses *)

Definition fault {A} (cache : C) (vaddr : Z) :
    SM Fabric (Result A (MemoryFault Error) * C) :=
  sm_ret (Err (general_protection vaddr), cache).

Definition resolve_aligned_scalar_access (access_size : Z) (cache : C) (m : IoMMU)
    (vaddr : Z) : SM Fabric (Result (Page * Z) (MemoryFault Error) * C) :=
  if negb (is_multiple_of vaddr access_size) then fault cache vaddr
  else
    let! (r, cache) := lookup_addr cache m vaddr in
    match r with
    | Err err => sm_ret (Err err, cache)
    | Ok (_, offset, page) =>
        sm_assert (offset <? PAGE_SIZE - access_size + 1) ;;!
        sm_ret (Ok (page, offset), cache)
    end.

Definition resolve_byte_access := resolve_aligned_scalar_access 1.

(** A pointer [offset] bytes into the page. *)
Definition page_addr (page : Page) (offset : Z) : SM Fabric Z :=
  let! p := sm_of_option (Tagged.page_ptr (ptr page)) in
  sm_ret (PagePtr.byte_add p offset).

Definition load_byte (cache : C) (m : IoMMU) (vaddr : Z) :
    SM Fabric (Result Z (MemoryFault Error) * C) :=
  let! (r, cache) := resolve_byte_access cache m vaddr in
  match r with
  | Err err => sm_ret (Err err, cache)
  | Ok (page, offset) =>
      if Flags.contains_any (flags_of page) Flags.READ then
        let! p := page_addr page offset in
        let! byte := on_mem (Memops.load_byte p) in
        sm_ret (Ok byte, cache)
      else fault cache vaddr
  end.

Definition store_byte (cache : C) (m : IoMMU) (vaddr value : Z) :
    SM Fabric (Result unit (MemoryFault Error) * C) :=
  let! (r, cache) := resolve_byte_access cache m vaddr in
  match r with
  | Err err => sm_ret (Err err, cache)
  | Ok (page, offset) =>
      if Flags.contains_any (flags_of page) Flags.WRITE then
        let! p := page_addr page offset in
        on_mem (Memops.store_byte p value) ;;!
        set_dirty page ;;!
        sm_ret (Ok tt, cache)
      else fault cache vaddr
  end.

Record SmallAccess := mkSmall {
  base_page : Page;
  base_page_offset : Z;
  second_page : option (Page * Z);   (* the page and [overflow_amount] *)
}.

Definition static_small_multibyte_access (bytes : Z) (cache : C) (m : IoMMU) (vaddr : Z) :
    SM Fabric (Result SmallAccess (MemoryFault Error) * C) :=
  let! (base_page_num, base_page_offset) := sm_of_option (div_rem_page_size vaddr) in
  let! (r, cache) := cache_get_page cache m base_page_num in
  match r with
  | Err err => sm_ret (Err err, cache)
  | Ok base_page =>
      let bytes_left_in_base_page := PAGE_SIZE - base_page_offset in
      match checked_sub bytes bytes_left_in_base_page with
      | None | Some 0 => sm_ret (Ok (mkSmall base_page base_page_offset None), cache)
      | Some overflow_amount =>
          match PageNum.inc base_page_num with
          | None => fault cache U64_MAX
          | Some second_page_num =>
              let! (r, cache) := cache_get_page cache m second_page_num in
              match r with
              | Err err => sm_ret (Err err, cache)
              | Ok page =>
                  sm_ret (Ok (mkSmall base_page base_page_offset
                                (Some (page, overflow_amount))), cache)
              end
          end
      end
  end.

Definition checked_next_multiple_of (w a b : Z) : option Z :=
  if a mod b =? 0 then Some a else checked_add w a (b - a mod b).

(** [uN::unchecked_shl] and [unchecked_shr]: undefined from the width on. *)
Definition unchecked_shl (w a s : Z) : option Z :=
  if (0 <=? s) && (s <? w) then Some (wrap w (Z.shiftl a s)) else None.
Definition unchecked_shr (w a s : Z) : option Z :=
  if (0 <=? s) && (s <? w) then Some (Z.shiftr a s) else None.

(** [load64_le], [load32_le], [load16_le] for [n] = 8, 4, 2 bytes. *)
Definition load_le (n : nat) (cache : C) (m : IoMMU) (vaddr : Z) :
    SM Fabric (Result Z (MemoryFault Error) * C) :=
  let bits := bits_of_bytes n in
  let! (r, cache) := static_small_multibyte_access (Z.of_nat n) cache m vaddr in
  match r with
  | Err err => sm_ret (Err err, cache)
  | Ok access =>
      match second_page access with
      | None =>
          if Flags.contains_any (flags_of (base_page access)) Flags.READ then
            let! p := page_addr (base_page access) (base_page_offset access) in
            let! value := on_mem (Memops.load_le e n p) in
            sm_ret (Ok value, cache)
          else fault cache vaddr
      | Some (second, overflow_amount) =>
          if negb (Flags.contains_any (flags_of (base_page access)) Flags.READ)
          then fault cache vaddr
          else if negb (Flags.contains_any (flags_of second) Flags.READ) then
            let! a := sm_of_option (checked_next_multiple_of 64 vaddr PAGE_SIZE_U64) in
            fault cache a
          else
            let lo_offset := PAGE_SIZE - bits / 8 in
            let! hi_ptr := page_addr second 0 in
            let! lo_ptr := page_addr (base_page access) lo_offset in
            let! hi := on_mem (load_le_aligned e n hi_ptr) in
            let! lo := on_mem (load_le_aligned e n lo_ptr) in
            let! bit_offset := sm_of_option (usize_to_u32 (overflow_amount * 8)) in
            let! hi_shift := sm_of_option (checked_sub bits bit_offset) in
            let! hi := sm_of_option (unchecked_shl bits hi hi_shift) in
            let! lo := sm_of_option (unchecked_shr bits lo bit_offset) in
            sm_ret (Ok (Z.lor hi lo), cache)
      end
  end.

(** The first loop of a crossing store: [count] bytes of the second page,
    from the last one down; returns the index reached. *)
Fixpoint store_hi (count : nat) (active_ptr : Z) (i : nat) (bytes : list Z) : SM Mem nat :=
  match count with
  | O => sm_ret i
  | S count =>
      match i with
      | O => sm_panic
      | S i =>
          let! byte := sm_of_option (bytes !! i) in
          Memops.store_byte (active_ptr - 1) byte ;;!
          store_hi count (active_ptr - 1) i bytes
      end
  end.

(** The second loop: the remaining bytes, from the end of the first page. *)
Fixpoint store_lo (active_ptr : Z) (i : nat) (bytes : list Z) : SM Mem unit :=
  match i with
  | O => sm_panic
  | S i =>
      let! byte := sm_of_option (bytes !! i) in
      Memops.store_byte active_ptr byte ;;!
      match i with O => sm_ret tt | S _ => store_lo (active_ptr - 1) i bytes end
  end.

(** [store64_le], [store32_le], [store16_le]. *)
Definition store_le (n : nat) (cache : C) (m : IoMMU) (vaddr value : Z) :
    SM Fabric (Result unit (MemoryFault Error) * C) :=
  let! (r, cache) := static_small_multibyte_access (Z.of_nat n) cache m vaddr in
  match r with
  | Err err => sm_ret (Err err, cache)
  | Ok access =>
      match second_page access with
      | None =>
          let page := base_page access in
          if Flags.contains_any (flags_of page) Flags.WRITE then
            let! p := page_addr page (base_page_offset access) in
            on_mem (Memops.store_le e n p value) ;;!
            set_dirty page ;;!
            sm_ret (Ok tt, cache)
          else fault cache vaddr
      | Some (hi_page, overflow) =>
          let bytes := to_le_bytes n value in
          let lo_page := base_page access in
          if negb (Flags.contains_any (flags_of lo_page) Flags.WRITE) then fault cache vaddr
          else if negb (Flags.contains_any (flags_of hi_page) Flags.WRITE) then
            let! a := sm_of_option (checked_next_multiple_of 64 vaddr PAGE_SIZE_U64) in
            fault cache a
          else
            let! hi_end := page_addr hi_page overflow in
            let! lo_last := page_addr lo_page (PAGE_SIZE - 1) in
            let! i := on_mem (store_hi (Z.to_nat overflow) hi_end (length bytes) bytes) in
            on_mem (store_lo lo_last i bytes) ;;!
            set_dirty lo_page ;;!
            set_dirty hi_page ;;!
            sm_ret (Ok tt, cache)
      end
  end.

(** ** Instruction fetch *)

Definition AARCH64_INSN_ALIGN : Z := 4.

Definition fetch_aarch64 (cache : C) (m : IoMMU) (vaddr : Z) :
    SM Fabric (Result Z (MemoryFault Error) * C) :=
  let! (r, cache) := resolve_aligned_scalar_access AARCH64_INSN_ALIGN cache m vaddr in
  match r with
  | Err err => sm_ret (Err err, cache)
  | Ok (page, offset) =>
      if Flags.contains_any (flags_of page) Flags.EXECUTE then
        let! word_ptr := page_addr page offset in
        let! word := on_mem (load32_le_aligned e word_ptr) in
        sm_ret (Ok word, cache)
      else fault cache vaddr
  end.
End Access.
