(* ===== verification/GuestMemory.v ===== *)
(** * Guest memory as an array of bytes

    The specification of the bulk accesses of [MemAccess.v]: a translation maps
    every guest address to a host address, and an access of any length is the
    byte-by-byte access through it. *)

From S2P Require Import Prelude Convert MemTypes Fault Memops ObjectQueue Fabric PageTable IoMMU.
From S2P Require Import LookupCache MemAccess.
Local Open Scope Z_scope.
Local Open Scope emu_scope.

Section Spec.
Context {Error : Type} (tr : PageNumber -> Result Page (MemoryFault Error)).

(** The host address behind a guest address. *)
Definition host_addr (vaddr : Z) : option Z :=
  match tr (vaddr / 4096) with
  | Ok page => (fun p => p + vaddr mod 4096) <$> Tagged.page_ptr (ptr page)
  | Err _ => None
  end.

Definition guest_byte (m : Mem) (vaddr : Z) : option Z :=
  match host_addr vaddr with Some a => m !! a | None => None end.

Fixpoint guest_load (m : Mem) (vaddr : Z) (n : nat) : option (list Z) :=
  match n with
  | O => Some []
  | S n => match guest_byte m vaddr, guest_load m (vaddr + 1) n with
           | Some b, Some l => Some (b :: l)
           | _, _ => None
           end
  end.

(** Bytes are written in address order: where two guest pages alias, the last
    write wins. *)
Fixpoint guest_store (m : Mem) (vaddr : Z) (l : list Z) : option Mem :=
  match l with
  | [] => Some m
  | b :: l =>
      match host_addr vaddr, guest_byte m vaddr with
      | Some a, Some _ => guest_store (<[a := b]> m) (vaddr + 1) l
      | _, _ => None
      end
  end.

Lemma guest_load_app m vaddr n k l1 l2 :
  guest_load m vaddr n = Some l1 -> guest_load m (vaddr + Z.of_nat n) k = Some l2 ->
  guest_load m vaddr (n + k) = Some (l1 ++ l2).
Proof.
  revert vaddr l1. induction n as [|n IH]; intros vaddr l1; simpl.
  - intros [= <-]. by rewrite Z.add_0_r.
  - destruct (guest_byte m vaddr); [|done].
    destruct (guest_load m (vaddr + 1) n) eqn:E; [|done]. intros [= <-] H2.
    rewrite (IH _ _ E); [done|]. rewrite <- H2. f_equal; lia.
Qed.

Lemma guest_store_app m vaddr l1 l2 m1 :
  guest_store m vaddr l1 = Some m1 ->
  guest_store m vaddr (l1 ++ l2) = guest_store m1 (vaddr + Z.of_nat (length l1)) l2.
Proof.
  revert m vaddr. induction l1 as [|b l1 IH]; intros m vaddr; simpl.
  - intros [= <-]. by rewrite Z.add_0_r.
  - destruct (host_addr vaddr) as [a|]; [|done]. destruct (guest_byte m vaddr); [|done].
    intros H. rewrite (IH _ _ H). f_equal. lia.
Qed.

(** Inside one page, guest memory is host memory. *)
Section OnePage.
Context (p : PageNumber) (page : Page) (hp : PagePointer).
Context (Htr : tr p = Ok page) (Hp : Tagged.page_ptr (ptr page) = Some hp).

Lemma host_addr_page off :
  0 <= off < 4096 -> host_addr (p * 4096 + off) = Some (hp + off).
Proof.
  intros Hoff. unfold host_addr.
  rewrite Z.add_comm, Z.div_add, Z.div_small, Z.add_0_l, Htr by lia.
  by rewrite Z.mod_add, Z.mod_small, Hp by lia.
Qed.

Lemma guest_load_page m off n :
  0 <= off -> off + Z.of_nat n <= 4096 ->
  guest_load m (p * 4096 + off) n = load_bytes m (hp + off) n.
Proof.
  revert off. induction n as [|n IH]; intros off H0 Hn; [done|]. simpl.
  unfold guest_byte. rewrite host_addr_page by lia.
  rewrite <- !Z.add_assoc, IH by lia. by rewrite Z.add_assoc.
Qed.

Lemma guest_store_page m off l :
  0 <= off -> off + Z.of_nat (length l) <= 4096 ->
  is_Some (load_bytes m (hp + off) (length l)) ->
  guest_store m (p * 4096 + off) l = Some (write_bytes m (hp + off) l).
Proof.
  revert m off. induction l as [|b l IH]; intros m off H0 Hn [l0 Hl]; [done|]. simpl in *.
  unfold guest_byte. rewrite host_addr_page by lia.
  destruct (m !! (hp + off)) as [b0|] eqn:Eb; [|done].
  destruct (load_bytes m (hp + off + 1) (length l)) as [l1|] eqn:El; [|done].
  rewrite <- !Z.add_assoc in *. rewrite IH; [|lia|lia|].
  - f_equal. apply map_eq. intros a. rewrite lookup_write_bytes.
    destruct (decide (a = hp + off)) as [->|].
    + rewrite lookup_insert_eq, decide_False by lia. by rewrite lookup_insert_eq.
    + rewrite (lookup_insert_ne (write_bytes _ _ _)) by done.
      rewrite lookup_write_bytes. case_decide; [done|]. by rewrite lookup_insert_ne.
  - change (<[hp + off := b]> m) with (write_bytes m (hp + off) [b]).
    by apply (load_write_mapped m (hp + off) [b] _ _ l1).
Qed.
End OnePage.
End Spec.

(** ** The geometry of an access *)

Section Geometry.
Context (vaddr len : Z) (Hv : 0 <= vaddr) (Hlen : 0 < len) (Hend : vaddr + len <= 2 ^ 64).

Definition first_page : Z := vaddr / 4096.
Definition last_page : Z := (vaddr + len - 1) / 4096.

(** The first guest address of the access that is not in a page before [p]. *)
Definition pos (p : Z) : Z := Z.max vaddr (Z.min (p * 4096) (vaddr + len)).

Definition the_span : Span :=
  mkSpan first_page (vaddr mod 4096) last_page ((vaddr + len - 1) mod 4096 + 1).

Lemma pos_first : pos first_page = vaddr.
Proof. unfold pos, first_page. Z.to_euclidean_division_equations; lia. Qed.

Lemma pos_last : pos (last_page + 1) = vaddr + len.
Proof. unfold pos, last_page. Z.to_euclidean_division_equations; lia. Qed.

Lemma pages_order : first_page <= last_page.
Proof. unfold first_page, last_page. apply Z.div_le_mono; lia. Qed.

Lemma pos_page p :
  first_page <= p <= last_page ->
  p * 4096 <= pos p /\ pos p < pos (p + 1) /\ pos (p + 1) <= (p + 1) * 4096 /\
  vaddr <= pos p /\ pos (p + 1) <= vaddr + len.
Proof. unfold pos, first_page, last_page. intros. Z.to_euclidean_division_equations; lia. Qed.

Lemma page_part_spec p :
  first_page <= p <= last_page ->
  page_part the_span p = Some (pos p - p * 4096, pos p - vaddr, pos (p + 1) - pos p).
Proof.
  intros Hp. unfold page_part, the_span.
  cbn [span_start_page span_start_offset span_last_page span_last_page_end]. change PAGE_SIZE with 4096. change PAGE_SIZE_U64 with 4096.
  assert ((if p =? first_page then vaddr mod 4096 else 0) = pos p - p * 4096) as ->.
  { unfold pos, first_page, last_page in *.
    destruct (Z.eqb_spec p (vaddr / 4096)); Z.to_euclidean_division_equations; lia. }
  assert ((if p =? last_page then (vaddr + len - 1) mod 4096 + 1 else 4096) =
          pos (p + 1) - p * 4096) as ->.
  { unfold pos, first_page, last_page in *.
    destruct (Z.eqb_spec p ((vaddr + len - 1) / 4096)); Z.to_euclidean_division_equations; lia. }
  pose proof (pos_page p Hp).
  assert (0 <= first_page /\ last_page < 2 ^ 52).
  { unfold first_page, last_page. split; [apply Z.div_pos; lia|].
    apply Z.div_lt_upper_bound; lia. }
  assert (vaddr = first_page * 4096 + vaddr mod 4096) as Hdm.
  { unfold first_page. Z.to_euclidean_division_equations; lia. }
  unfold checked_sub. rewrite (proj2 (Z.leb_le _ _)) by lia.
  cbv beta iota.
  rewrite u64_to_usize_id by (unfold fits; lia).
  rewrite !(proj2 (Z.leb_le _ _)) by lia. f_equal. f_equal; [f_equal|]; lia.
Qed.
End Geometry.

Lemma div_rem_eq x : fits 64 x -> div_rem_page_size x = Some (x / 4096, x mod 4096).
Proof. apply from_vaddr_with_offset_eq. Qed.

(** A page's bytes, from an offset on. *)
Lemma page_mapped_sub m p off n :
  page_mapped m p -> 0 <= off -> off + Z.of_nat n <= 4096 ->
  is_Some (load_bytes m (p + off) n).
Proof.
  intros [_ [l Hl]] H0 Hn.
  pose proof (load_bytes_sub m p PAGE_BYTES l (Z.to_nat off) n Hl) as H.
  rewrite Z2Nat.id in H by lia. rewrite H; [eauto|].
  pose proof PAGE_BYTES_Z. lia.
Qed.

(** ** Unfolding [mem_access] *)

Section Bulk.
Context {Error : Type} (e : Endian) {C : Type} `{LookupCacheLaws Error C} (m : IoMMU).

(** What [mem_access] does on one page. *)
Definition page_body (span : Span) (commit : PageNumber -> Page -> SM Fabric unit)
    (copy : Z -> nat -> Z -> SM CopyState unit) (page_num : PageNumber) (page : Page) :
    SM AccessState unit :=
  let! (page_start, dst_start, count) := sm_of_option (page_part span page_num) in
  let! page_ptr := sm_of_option (Tagged.page_ptr (ptr page)) in
  on_copy (copy (PagePtr.byte_add page_ptr page_start) (Z.to_nat dst_start) count) ;;!
  on_fabric (commit page_num page).

(** The pages an access touches. *)
Definition touched (vaddr len : Z) : list PageNumber :=
  seqZ (first_page vaddr) (last_page vaddr len - first_page vaddr + 1).

Lemma mem_access_eq c vaddr len req no_cow commit copy s :
  0 <= vaddr -> 0 < len -> vaddr + len <= 2 ^ 64 -> fits 64 len ->
  mem_access c m vaddr len req no_cow commit copy s =
  access c m (mkAccess (first_page vaddr) (last_page vaddr len - first_page vaddr + 1))
    (verify_page req no_cow) (page_body (the_span vaddr len) commit copy) s.
Proof.
  intros Hv Hl He Hf. unfold mem_access. rewrite usize_to_u64_id by done.
  destruct (Z.eqb_spec len 0); [lia|]. unfold overflowing_add, wrapping_sub.
  assert (wrap 64 (wrap 64 (vaddr + len) - 1) = vaddr + len - 1) as Hlast.
  { destruct (decide (vaddr + len = 2 ^ 64)) as [->|]; [done|].
    unfold wrap. rewrite (Z.mod_small (vaddr + len)), Z.mod_small by lia. done. }
  rewrite Hlast.
  assert ((2 ^ 64 <=? vaddr + len) && negb (wrap 64 (vaddr + len) =? 0) = false) as ->.
  { destruct (Z.leb_spec (2 ^ 64) (vaddr + len)); [|done].
    by replace (vaddr + len) with (2 ^ 64) by lia. }
  unfold span_of. rewrite !div_rem_eq by (unfold fits in *; lia).
  unfold sm_bind, sm_of_option, checked_sub, span_last_page, span_start_page.
  pose proof (pages_order vaddr len Hl). unfold first_page, last_page in *.
  by rewrite (proj2 (Z.leb_le _ _)) by lia.
Qed.

Lemma mem_access_overflow c vaddr len req no_cow commit copy s :
  fits 64 vaddr -> fits 64 len -> 2 ^ 64 < vaddr + len ->
  mem_access (Error := Error) c m vaddr len req no_cow commit copy s =
  Some ((Err (general_protection U64_MAX), c), s).
Proof.
  intros Hv Hf Ho. unfold mem_access. rewrite usize_to_u64_id by done.
  unfold fits in *. destruct (Z.eqb_spec len 0); [lia|]. unfold overflowing_add, wrap.
  replace (2 ^ 64 <=? vaddr + len) with true by (symmetry; apply Z.leb_le; lia).
  replace ((vaddr + len) mod 2 ^ 64) with (vaddr + len - 2 ^ 64)
    by (Z.to_euclidean_division_equations; lia).
  destruct (Z.eqb_spec (vaddr + len - 2 ^ 64) 0); [lia|done].
Qed.

(** ** Both passes, for a body with a loop invariant *)

Lemma access_spec c f h vaddr len verify body (tr : PageNumber -> Result Page (MemoryFault Error))
    (inv : PageNumber -> AccessState -> Prop) :
  0 <= vaddr -> 0 < len -> vaddr + len <= 2 ^ 64 ->
  cache_ok c f m -> has_view m tr f ->
  (forall p f h, inv p (f, h) -> has_view m tr f) ->
  (forall p f f' h, inv p (f, h) -> same_but_tokens f f' -> inv p (f', h)) ->
  (forall q page f h, first_page vaddr <= q <= last_page vaddr len ->
     tr q = Ok page -> verify q page = true -> inv q (f, h) ->
     exists f' h', body q page (f, h) = Some (tt, (f', h')) /\ inv (q + 1) (f', h') /\
       tokens f' = tokens f) ->
  inv (first_page vaddr) (f, h) ->
  exists c' f' h',
    access c m (mkAccess (first_page vaddr) (last_page vaddr len - first_page vaddr + 1))
      verify body (f, h) =
      Some ((verify_result tr verify (rev (touched vaddr len)), c'), (f', h')) /\
    cache_ok c' f' m /\
    match verify_result tr verify (rev (touched vaddr len)) with
    | Ok _ => inv (last_page vaddr len + 1) (f', h')
    | Err _ => same_but_tokens f f' /\ h' = h
    end.
Proof.
  intros Hv Hl He Hc Hview Hiv Hit Hbody Hi. unfold access, access_pages.
  cbn [start_page page_count]. fold (touched vaddr len). unfold sm_bind at 1.
  destruct (verify_pages_spec m tr verify (rev (touched vaddr len)) c f h Hc Hview)
    as (c1 & f1 & -> & Hs & Hc1).
  destruct (verify_result tr verify (rev (touched vaddr len))) as [[]|err] eqn:Hver;
    [|by exists c1, f1, h].
  pose proof (pages_order vaddr len Hl) as Hord.
  assert (forall q, first_page vaddr <= q <= last_page vaddr len ->
            exists page, tr q = Ok page /\ verify q page = true) as Hok.
  { intros q Hq. apply (verify_result_ok tr verify _ q Hver).
    apply list_elem_of_In, in_rev. rewrite rev_involutive. apply list_elem_of_In. unfold touched. apply elem_of_seqZ. lia. }
  unfold sm_bind at 1. unfold touched at 1.
  set (n := Z.to_nat (last_page vaddr len - first_page vaddr + 1)).
  replace (last_page vaddr len - first_page vaddr + 1) with (Z.of_nat n) by lia.
  destruct (access_each_spec m tr body inv Hiv Hit n (first_page vaddr) c1 f1 h)
    as (c2 & f2 & h2 & -> & Hc2 & Hi2).
  - intros q page f' h' Hq Hpage. destruct (Hok q ltac:(lia)) as (page' & Hp' & Hvp).
    rewrite Hp' in Hpage. injection Hpage as <-. apply Hbody; [lia|done|done].
  - intros q Hq. destruct (Hok q ltac:(lia)) as (page & ? & _). eauto.
  - done.
  - by eapply Hit.
  - exists c2, f2, h2. split; [done|]. split; [done|].
    by replace (last_page vaddr len + 1) with (first_page vaddr + Z.of_nat n) by lia.
Qed.
End Bulk.

Lemma same_but_tokens_mem f f' : same_but_tokens f f' -> mem f' = mem f.
Proof. by intros ->. Qed.

Lemma guest_load_length {Error} (tr : PageNumber -> Result Page (MemoryFault Error)) m vaddr n l :
  guest_load tr m vaddr n = Some l -> length l = n.
Proof.
  revert vaddr l. induction n as [|n IH]; intros vaddr l; simpl; [by intros [= <-]|].
  destruct (guest_byte tr m vaddr); [|done]. destruct (guest_load tr m (vaddr + 1) n) eqn:E; [|done].
  intros [= <-]. simpl. f_equal. eauto.
Qed.

Lemma load_ok_bytes m p n : mem_ok m -> is_Some (load_bytes m p n) ->
  exists l, load_bytes m p n = Some l /\ Forall is_byte l /\ length l = n.
Proof.
  intros Hm [l Hl]. exists l. split_and!; [done|by eapply load_bytes_is_byte|].
  by eapply load_bytes_length.
Qed.

Section BulkLoad.
Context {Error : Type} (e : Endian) {C : Type} `{LookupCacheLaws Error C} (m : IoMMU).
Context (f : Fabric) (Hf : fabric_ok f) (Ht : table_ok f (table m)).

Abbreviation tr := (page_of (Error := Error) f (table m)).

Lemma table_has_view : has_view m tr f.
Proof. intros q. by apply get_page_page_of. Qed.

(** The page is mapped, resident and passes the verification. *)
Definition page_permitted (req : option MemProt) (no_cow : bool) (q : PageNumber) : bool :=
  match tr q with Ok page => verify_page req no_cow q page | Err _ => false end.

(** What the access answers: the fault of the highest page that is not
    permitted, if there is one. *)
Definition access_result (req : option MemProt) (no_cow : bool) (vaddr len : Z) :
    Result unit (MemoryFault Error) :=
  if len =? 0 then Ok tt
  else if 2 ^ 64 <? vaddr + len then Err (general_protection U64_MAX)
  else match find (fun q => negb (page_permitted req no_cow q)) (rev (touched vaddr len)) with
       | Some q => Err (general_protection (PageNum.vaddr_base q))
       | None => Ok tt
       end.

Lemma verify_result_find req no_cow l :
  verify_result tr (verify_page req no_cow) l =
  match find (fun q => negb (page_permitted req no_cow q)) l with
  | Some q => Err (general_protection (PageNum.vaddr_base q))
  | None => Ok tt
  end.
Proof.
  induction l as [|q l IH]; [done|]. simpl. unfold page_permitted at 1.
  destruct (tr q) as [page|err] eqn:Hq; simpl.
  - by destruct (verify_page req no_cow q page).
  - unfold page_of in Hq. repeat case_match; congruence.
Qed.

Definition load_inv (vaddr len : Z) (h : list Z) (p : PageNumber) (s : AccessState) : Prop :=
  same_but_tokens f s.1 /\
  exists l, guest_load tr (mem f) vaddr (Z.to_nat (pos vaddr len p - vaddr)) = Some l /\
            s.2 = host_put h 0 l.

Lemma load_body_spec vaddr h q page f1 h1 :
  let len := Z.of_nat (length h) in
  0 <= vaddr -> 0 < len -> vaddr + len <= 2 ^ 64 ->
  first_page vaddr <= q <= last_page vaddr len -> tr q = Ok page ->
  load_inv vaddr len h q (f1, h1) ->
  exists f2 h2, page_body (the_span vaddr len) (fun _ _ => sm_ret tt)
      (fun vm_ptr mem_ptr count => copy_nonoverlapping_vm_to_host e vm_ptr mem_ptr count)
      q page (f1, h1) = Some (tt, (f2, h2)) /\
    load_inv vaddr len h (q + 1) (f2, h2) /\ tokens f2 = tokens f1.
Proof.
  intros len Hv Hl He Hq Hpage [Hs (l & Hgl & Hh)]. simpl in Hs, Hh.
  destruct (page_of_live f (table m) q page Hf Ht Hpage) as (n & b & _ & Hptr & Hmap).
  pose proof (pos_page vaddr len Hl q Hq) as Hpos.
  pose proof (guest_load_length _ _ _ _ _ Hgl) as Hlen1.
  unfold page_body. rewrite page_part_spec by done.
  unfold sm_bind, sm_of_option, on_copy, PagePtr.byte_add. rewrite Hptr.
  set (count := pos vaddr len (q + 1) - pos vaddr len q).
  set (off := pos vaddr len q - q * 4096).
  destruct (load_ok_bytes (mem f) (allocated_page b + off) (Z.to_nat count)) as (l2 & Hl2 & Hb2 & Hlen2);
    [apply Hf|apply page_mapped_sub; [done|lia|lia]|].
  rewrite (same_but_tokens_mem f f1 Hs).
  rewrite (vm_to_host_spec e _ _ count (mem f) h1 l2); [|lia|done|done|].
  2: { rewrite Hh, length_host_put; lia. }
  simpl. unfold sm_ret. do 2 eexists. split; [done|]. split; [|done]. split.
  - simpl. rewrite Hs. by destruct f.
  - exists (l ++ l2). simpl. split.
    + replace (Z.to_nat (pos vaddr len (q + 1) - vaddr))
        with (Z.to_nat (pos vaddr len q - vaddr) + Z.to_nat count)%nat by lia.
      apply guest_load_app; [done|].
      replace (vaddr + Z.of_nat (Z.to_nat (pos vaddr len q - vaddr)))
        with (q * 4096 + off) by lia.
      by rewrite (guest_load_page tr q page _ Hpage Hptr) by lia.
    + rewrite Hh. replace (Z.to_nat (pos vaddr len q - vaddr)) with (0 + length l)%nat by lia.
      apply host_put_app. lia.
Qed.

(** C21: a bulk load is the byte-by-byte load of the guest range, all or
    nothing.  Through any lawful cache, [load] (with [READ] required) and
    [load_force] (with nothing required) succeed exactly when every page of
    the range is mapped and permitted, and then fill the buffer with the
    range's bytes in address order across page boundaries; otherwise they
    report the base address of the highest page that is not, or [u64::MAX]
    when the range wraps around, and leave the buffer untouched.  Nothing but identifier
    counts changes, and no access is out of bounds. *)
Theorem load_correct c h vaddr req :
  cache_ok c f m -> fits 64 vaddr -> fits 64 (Z.of_nat (length h)) ->
  let len := Z.of_nat (length h) in
  exists r c' f' h', inner_load_with_prot e c m vaddr req (f, h) = Some ((r, c'), (f', h')) /\
    same_but_tokens f f' /\ cache_ok c' f' m /\
    r = access_result req false vaddr len /\
    match r with
    | Ok _ => guest_load tr (mem f) vaddr (length h) = Some h'
    | Err _ => h' = h
    end.
Proof.
  intros Hc Hv Hlen len. unfold inner_load_with_prot, access_result. fold len.
  rewrite <- verify_result_find. destruct (Z.eqb_spec len 0) as [H0'|H0'].
  { do 4 eexists. split; [unfold mem_access; rewrite usize_to_u64_id by done; by rewrite H0'|].
    split; [apply same_but_tokens_refl|]. split; [done|]. split; [done|].
    destruct h; [done|]. simpl in len. lia. }
  destruct (Z.ltb_spec (2 ^ 64) (vaddr + len)) as [Ho|Ho].
  { do 4 eexists. split; [by apply mem_access_overflow|].
    split; [apply same_but_tokens_refl|done]. }
  assert (0 <= vaddr) by apply Hv. assert (0 < len) by lia.
  rewrite mem_access_eq by done.
  destruct (access_spec m c f h vaddr len (verify_page req false)
    (page_body (the_span vaddr len) (fun _ _ => sm_ret tt)
      (fun vm_ptr mem_ptr count => copy_nonoverlapping_vm_to_host e vm_ptr mem_ptr count))
    tr (load_inv vaddr len h)) as (c' & f' & h' & Ha & Hc' & Hr); [done..|apply table_has_view| | | | |].
  - intros p f1 h1 [Hs _]. eapply has_view_tokens; [apply table_has_view|done].
  - intros p f1 f2 h1 [Hs Hl] Hs2. split; [by eapply same_but_tokens_trans|done].
  - intros q page f1 h1 Hq Hpage _ Hi. by apply load_body_spec.
  - split; [apply same_but_tokens_refl|]. exists []. rewrite pos_first by done.
    by rewrite Z.sub_diag.
  - exists (verify_result tr (verify_page req false) (rev (touched vaddr len))), c', f', h'.
    split; [apply Ha|]. destruct (verify_result _ _ _) as [[]|err].
    + destruct Hr as [Hs (l & Hgl & Hh)]. simpl in Hs, Hh. split_and!; try done.
      rewrite pos_last in Hgl by done.
      replace (Z.to_nat (vaddr + len - vaddr)) with (length h) in Hgl by lia.
      rewrite Hgl, Hh. f_equal. unfold host_put. rewrite (guest_load_length _ _ _ _ _ Hgl). simpl.
      by rewrite drop_all, app_nil_r.
    + destruct Hr as [Hs ->]. by split_and!.
Qed.
End BulkLoad.

(** ** Stores *)

(** Marking a page dirty changes its atomic flag byte only. *)
Definition mark_dirty (page : Page) (ps : gmap positive (Arc MemoryBackedPage)) :
    gmap positive (Arc MemoryBackedPage) :=
  alter (fun a => mkArc (strong a) (mkBacked (allocated_page (value a)) (has_fabric (value a))
           (should_dealloc (value a)) (PageDirty.set_dirty page (mut_flags (value a)))))
    (mutable_flags page) ps.

(** Two fabrics with the same objects at the same host addresses. *)
Definition same_layout (f f' : Fabric) : Prop :=
  slots f' = slots f /\
  forall id, (allocated_page ∘ value) <$> pages f' !! id = (allocated_page ∘ value) <$> pages f !! id.

Lemma same_layout_refl f : same_layout f f.
Proof. done. Qed.

Lemma same_layout_trans f1 f2 f3 : same_layout f1 f2 -> same_layout f2 f3 -> same_layout f1 f3.
Proof. intros [H1 H2] [H3 H4]. split; [congruence|]. intros id. by rewrite H4, H2. Qed.

Lemma get_page_layout {Error} f f' t p :
  same_layout f f' -> Table.get_page (Error := Error) f' t p = Table.get_page f t p.
Proof.
  intros [Hs Hp]. unfold Table.get_page. destruct (t !! p) as [e|]; [|done].
  unfold Entry.as_page, Entry.mem_page, sm_bind, sm_ret, get_slot, get_backed.
  assert (forall id, (exists a a', pages f !! id = Some a /\ pages f' !! id = Some a' /\
     allocated_page (value a') = allocated_page (value a)) \/
     (pages f !! id = None /\ pages f' !! id = None)) as Hcase.
  { intros id. specialize (Hp id). destruct (pages f !! id) as [a|], (pages f' !! id) as [a'|];
      simpl in Hp; try done; [|by right]. left. exists a, a'. by injection Hp. }
  destruct (source e) as [page|page []|slot sh]; simpl;
    try (destruct (Hcase page) as [(a & a' & -> & -> & Ha)|[-> ->]]; [by rewrite Ha|done]).
  rewrite Hs. destruct (slots f !! slot) as [[[|n] s]|]; simpl; try done.
  destruct (slot_page s) as [page|]; simpl; [|done].
  destruct (Hcase page) as [(a & a' & -> & -> & Ha)|[-> ->]]; [by rewrite Ha|done].
Qed.

Lemma mark_dirty_layout page ps id :
  (allocated_page ∘ value) <$> mark_dirty page ps !! id = (allocated_page ∘ value) <$> ps !! id.
Proof.
  unfold mark_dirty. destruct (decide (mutable_flags page = id)) as [<-|].
  - rewrite lookup_alter_eq. by destruct (ps !! mutable_flags page).
  - by rewrite lookup_alter_ne.
Qed.

Lemma layout_is_Some f f' id :
  same_layout f f' -> is_Some (pages f !! id) -> is_Some (pages f' !! id).
Proof.
  intros [_ Hp] [a Ha]. specialize (Hp id). rewrite Ha in Hp.
  destruct (pages f' !! id); [eauto|done].
Qed.

Lemma set_dirty_spec page f :
  is_Some (pages f !! mutable_flags page) ->
  set_dirty page f = Some (tt, Upd.pages (mark_dirty page (pages f)) f).
Proof.
  intros [[n b] Hb]. unfold set_dirty, sm_bind, get_backed, Entry.set_mut_flags. rewrite Hb. cbn [value].
  rewrite Hb. f_equal. f_equal. f_equal. apply map_eq. intros id. unfold mark_dirty.
  destruct (decide (mutable_flags page = id)) as [<-|].
  - by rewrite lookup_insert_eq, lookup_alter_eq, Hb.
  - by rewrite lookup_insert_ne, lookup_alter_ne.
Qed.

Section StoreSpec.
Context {Error : Type} (tr : PageNumber -> Result Page (MemoryFault Error)).

Definition mark_pages (l : list PageNumber) (ps : gmap positive (Arc MemoryBackedPage)) :
    gmap positive (Arc MemoryBackedPage) :=
  foldl (fun ps q => match tr q with Ok page => mark_dirty page ps | Err _ => ps end) ps l.

Lemma mark_pages_layout l ps id :
  (allocated_page ∘ value) <$> mark_pages l ps !! id = (allocated_page ∘ value) <$> ps !! id.
Proof.
  revert ps. induction l as [|q l IH]; intros ps; simpl; [done|]. rewrite IH.
  destruct (tr q); [apply mark_dirty_layout|done].
Qed.

Lemma guest_store_mapped m vaddr l m' q n :
  guest_store tr m vaddr l = Some m' -> is_Some (load_bytes m q n) ->
  is_Some (load_bytes m' q n).
Proof.
  revert m vaddr. induction l as [|b l IH]; intros m vaddr; simpl; [by intros [= <-]|].
  destruct (host_addr tr vaddr) as [a|]; [|done].
  destruct (guest_byte tr m vaddr); [|done]. intros Hs [l0 Hl]. eapply IH; [done|].
  change (<[a := b]> m) with (write_bytes m a [b]).
  by apply (load_write_mapped m a [b] _ _ l0).
Qed.

Lemma guest_store_ok m vaddr l m' :
  guest_store tr m vaddr l = Some m' -> mem_ok m -> Forall is_byte l -> mem_ok m'.
Proof.
  revert m vaddr. induction l as [|b l IH]; intros m vaddr; simpl; [by intros [= <-]|].
  destruct (host_addr tr vaddr) as [a|]; [|done].
  destruct (guest_byte tr m vaddr); [|done]. intros Hs Hm [Hb Hl]%Forall_cons.
  eapply IH; [done| |done]. by apply map_Forall_insert_2.
Qed.
End StoreSpec.

Section BulkStore.
Context {Error : Type} (e : Endian) {C : Type} `{LookupCacheLaws Error C} (m : IoMMU).
Context (f : Fabric) (Hf : fabric_ok f) (Ht : table_ok f (table m)).

Abbreviation tr := (page_of (Error := Error) f (table m)).

(** The fabric after the bytes [l] of a store are written and the pages [ps]
    marked, up to identifier counts. *)
Definition stored (vaddr : Z) (l : list Z) (ps : list PageNumber) (f' : Fabric) : Prop :=
  exists mem', guest_store tr (mem f) vaddr l = Some mem' /\
    f' = Upd.tokens (tokens f') (Upd.pages (mark_pages tr ps (pages f)) (Upd.mem mem' f)).

Definition store_inv (vaddr len : Z) (h : list Z) (p : PageNumber) (s : AccessState) : Prop :=
  s.2 = h /\
  stored vaddr (take (Z.to_nat (pos vaddr len p - vaddr)) h)
    (seqZ (first_page vaddr) (p - first_page vaddr)) s.1.

Lemma stored_layout vaddr l ps f' : stored vaddr l ps f' -> same_layout f f'.
Proof.
  intros (mem' & _ & ->). split; [done|]. intros id. simpl. apply mark_pages_layout.
Qed.

Lemma stored_view vaddr l ps f' : stored vaddr l ps f' -> has_view m tr f'.
Proof.
  intros Hs q. rewrite (get_page_layout f f') by by eapply stored_layout.
  by apply get_page_page_of.
Qed.

Lemma stored_tokens vaddr l ps f' f'' :
  stored vaddr l ps f' -> same_but_tokens f' f'' -> stored vaddr l ps f''.
Proof. intros (mem' & Hm & Hf') Hs. exists mem'. split; [done|]. rewrite Hs, Hf'. done. Qed.

Lemma store_body_spec vaddr h q page f1 h1 :
  let len := Z.of_nat (length h) in
  0 <= vaddr -> 0 < len -> vaddr + len <= 2 ^ 64 -> Forall is_byte h ->
  first_page vaddr <= q <= last_page vaddr len -> tr q = Ok page ->
  store_inv vaddr len h q (f1, h1) ->
  exists f2 h2, page_body (the_span vaddr len) (fun _ page => set_dirty page)
      (fun vm_ptr mem_ptr count => copy_nonoverlapping_host_to_vm e mem_ptr vm_ptr count)
      q page (f1, h1) = Some (tt, (f2, h2)) /\
    store_inv vaddr len h (q + 1) (f2, h2) /\ tokens f2 = tokens f1.
Proof.
  intros len Hv Hl He Hb Hq Hpage [Hh Hst]. simpl in Hh, Hst. subst h1.
  destruct (page_of_live f (table m) q page Hf Ht Hpage) as (n & b & Hlive & Hptr & Hmap).
  pose proof (pos_page vaddr len Hl q Hq) as Hpos.
  destruct Hst as (mem1 & Hgs & Hf1).
  unfold page_body. rewrite page_part_spec by done.
  unfold sm_bind, sm_of_option, on_copy, PagePtr.byte_add. rewrite Hptr.
  set (count := pos vaddr len (q + 1) - pos vaddr len q).
  set (off := pos vaddr len q - q * 4096). set (dst := pos vaddr len q - vaddr).
  assert (mem f1 = mem1) as Hm1 by by rewrite Hf1. rewrite Hm1.
  set (l2 := take (Z.to_nat count) (drop (Z.to_nat dst) h)).
  assert (is_Some (load_bytes mem1 (allocated_page b + off) (Z.to_nat count))) as [l0 Hl0].
  { eapply guest_store_mapped; [done|]. apply page_mapped_sub; [done|lia|lia]. }
  rewrite (host_to_vm_spec e _ _ count mem1 h l2 l0); [|lia|lia|done| |done].
  2: { by apply Forall_take, Forall_drop. }
  simpl. unfold on_fabric.
  rewrite set_dirty_spec.
  2: { simpl. apply (layout_is_Some f); [|eauto]. eapply stored_layout. by exists mem1. }
  do 2 eexists. split; [done|]. split; [|done]. split; [done|].
  exists (write_bytes mem1 (allocated_page b + off) l2). simpl. split.
  - assert (take (Z.to_nat (pos vaddr len (q + 1) - vaddr)) h = take (Z.to_nat dst) h ++ l2) as ->.
    { unfold l2. rewrite take_take_drop. f_equal. lia. }
    erewrite guest_store_app by done. rewrite length_take.
    replace (vaddr + Z.of_nat (Z.to_nat dst `min` length h)) with (q * 4096 + off) by lia.
    apply (guest_store_page tr q page _ Hpage Hptr); unfold l2;
      rewrite ?length_take, ?length_drop; [lia|lia|].
    replace (Z.to_nat count `min` (length h - Z.to_nat dst))%nat with (Z.to_nat count) by lia. eauto.
  - replace (q + 1 - first_page vaddr) with (q - first_page vaddr + 1) by lia.
    rewrite (seqZ_app _ (q - first_page vaddr) 1) by lia.
    replace (seqZ (first_page vaddr + (q - first_page vaddr)) 1) with [q]
      by (unfold seqZ; simpl; f_equal; lia).
    unfold mark_pages. rewrite foldl_app. simpl. rewrite Hpage.
    by rewrite Hf1.
Qed.

(** C22: a bulk store is all or nothing.  Through any lawful cache, [store]
    (with [WRITE] required) and [store_force] succeed exactly when every page
    of the range is mapped, permitted and not copy-on-write; then the guest
    range holds the buffer's bytes, written in address order, every touched
    page that needs tracking is marked dirty after its bytes are written, and
    nothing else changes: neither other memory nor flags.  Otherwise the fault
    is reported and nothing at all is written. *)
Theorem store_correct c h vaddr req :
  cache_ok c f m -> fits 64 vaddr -> fits 64 (Z.of_nat (length h)) -> Forall is_byte h ->
  let len := Z.of_nat (length h) in
  exists r c' f', inner_store_with_prot e c m vaddr req (f, h) = Some ((r, c'), (f', h)) /\
    cache_ok c' f' m /\
    r = access_result m f req true vaddr len /\
    match r with
    | Ok _ => stored vaddr h (if len =? 0 then [] else touched vaddr len) f'
    | Err _ => same_but_tokens f f'
    end.
Proof.
  intros Hc Hv Hlen Hb len. unfold inner_store_with_prot, access_result. fold len.
  rewrite <- (verify_result_find m f). destruct (Z.eqb_spec len 0) as [H0'|H0'].
  { do 3 eexists. split; [unfold mem_access; rewrite usize_to_u64_id by done; by rewrite H0'|].
    split; [done|]. split; [done|]. destruct h; [|done].
    exists (mem f). split; [done|]. by destruct f. }
  destruct (Z.ltb_spec (2 ^ 64) (vaddr + len)) as [Ho|Ho].
  { do 3 eexists. split; [by apply mem_access_overflow|]. split; [done|].
    split; [done|apply same_but_tokens_refl]. }
  assert (0 <= vaddr) by apply Hv. assert (0 < len) by lia.
  rewrite mem_access_eq by done.
  destruct (access_spec m c f h vaddr len (verify_page req true)
    (page_body (the_span vaddr len) (fun _ page => set_dirty page)
      (fun vm_ptr mem_ptr count => copy_nonoverlapping_host_to_vm e mem_ptr vm_ptr count))
    tr (store_inv vaddr len h)) as (c' & f' & h' & Ha & Hc' & Hr);
    [done..|by apply table_has_view| | | | |].
  - intros p f1 h1 [_ Hst]. by eapply stored_view.
  - intros p f1 f2 h1 [Hh Hst] Hs2. split; [done|]. by eapply stored_tokens.
  - intros q page f1 h1 Hq Hpage _ Hi. by apply store_body_spec.
  - split; [done|]. exists (mem f). rewrite pos_first by done. rewrite !Z.sub_diag.
    split; [done|]. by destruct f.
  - exists (verify_result tr (verify_page req true) (rev (touched vaddr len))), c', f'.
    destruct (verify_result _ _ _) as [[]|err].
    + destruct Hr as [Hh Hst]. simpl in Hh, Hst. subst h'. split; [apply Ha|]. split_and!; try done.
      rewrite pos_last in Hst by done.
      replace (Z.to_nat (vaddr + len - vaddr)) with (length h) in Hst by lia.
      rewrite firstn_all in Hst. unfold touched.
      by replace (last_page vaddr len - first_page vaddr + 1)
        with (last_page vaddr len + 1 - first_page vaddr) by lia.
    + destruct Hr as [Hs ->]. split; [apply Ha|]. by split_and!.
Qed.
End BulkStore.

(** ** A concrete address space for the witnesses

    Two private pages at guest page 1 and 2, the second one before the first in
    host memory and without write permission. *)

Definition demo_host : Mem := write_bytes ∅ 8192 (replicate (Z.to_nat 8192) 7).
Definition demo_fabric : Fabric :=
  mkFabric {[1%positive := 1%nat]} demo_host
    (<[1%positive := mkArc 1 (mkBacked 12288 true false 0)]>
      {[2%positive := mkArc 1 (mkBacked 8192 true false 0)]})
    ∅ None 65536 [] Queue_new [].
Definition demo_table : PageTable :=
  <[1 := mkPageEntry (Private 1 false) (Prot.union Prot.READ Prot.WRITE)]>
    {[2 := mkPageEntry (Private 2 false) Prot.READ]}.
Definition demo_mmu : IoMMU := mkIoMMU 1 demo_table.

Lemma demo_fabric_ok : fabric_ok demo_fabric.
Proof.
  split.
  - apply write_bytes_ok; [by apply map_Forall_empty|]. apply Forall_replicate. by vm_compute.
  - intros id a. unfold demo_fabric; simpl. rewrite lookup_insert_Some, lookup_singleton_Some.
    intros [[_ <-]|[_ [_ <-]]]; split; try (by vm_compute; repeat split; lia);
      (eexists; by vm_compute).
Qed.

Lemma demo_table_ok : table_ok demo_fabric demo_table.
Proof.
  intros p e. unfold demo_table. rewrite lookup_insert_Some, lookup_singleton_Some.
  intros [[<- <-]|[_ [<- <-]]]; split_and!; try (by vm_compute); by eexists.
Qed.

Lemma demo_cache_ok : cache_ok (Error := Empty_set) TheNoCache demo_fabric demo_mmu.
Proof.
  intros p. rewrite get_page_page_of by apply demo_table_ok. eauto.
Qed.

Lemma load_correct_witness :
  access_result (Error := Empty_set) demo_mmu demo_fabric (Some Prot.READ) false 8190 4 = Ok tt /\
  exists r c' f' h',
    inner_load_with_prot (Error := Empty_set) Little TheNoCache demo_mmu 8190 (Some Prot.READ)
      (demo_fabric, [0; 0; 0; 0]) = Some ((r, c'), (f', h')) /\
    same_but_tokens demo_fabric f' /\ cache_ok (Error := Empty_set) c' f' demo_mmu /\
    r = access_result demo_mmu demo_fabric (Some Prot.READ) false 8190 4 /\
    match r with
    | Ok _ => guest_load (page_of (Error := Empty_set) demo_fabric demo_table) (mem demo_fabric) 8190 4 = Some h'
    | Err _ => h' = [0; 0; 0; 0]
    end.
Proof.
  split; [by vm_compute|].
  apply (load_correct Little demo_mmu demo_fabric demo_fabric_ok demo_table_ok TheNoCache
           [0; 0; 0; 0] 8190 (Some Prot.READ)).
  - apply demo_cache_ok.
  - by vm_compute.
  - by vm_compute.
Defined.

Lemma store_correct_witness :
  access_result (Error := Empty_set) demo_mmu demo_fabric (Some Prot.WRITE) true 8190 2 = Ok tt /\
  access_result (Error := Empty_set) demo_mmu demo_fabric (Some Prot.WRITE) true 8190 4 =
    Err (general_protection 8192) /\
  exists r c' f',
    inner_store_with_prot (Error := Empty_set) Little TheNoCache demo_mmu 8190 (Some Prot.WRITE)
      (demo_fabric, [1; 2]) = Some ((r, c'), (f', [1; 2])) /\
    cache_ok (Error := Empty_set) c' f' demo_mmu /\
    r = access_result demo_mmu demo_fabric (Some Prot.WRITE) true 8190 2 /\
    match r with
    | Ok _ => stored (Error := Empty_set) demo_mmu demo_fabric 8190 [1; 2]
                (if 2 =? 0 then [] else touched 8190 2) f'
    | Err _ => same_but_tokens demo_fabric f'
    end.
Proof.
  split; [by vm_compute|]. split; [by vm_compute|].
  apply (store_correct Little demo_mmu demo_fabric demo_fabric_ok demo_table_ok TheNoCache
           [1; 2] 8190 (Some Prot.WRITE)).
  - apply demo_cache_ok.
  - by vm_compute.
  - by vm_compute.
  - repeat constructor; by vm_compute.
Defined.
