(* ===== verification/ScalarAccess.v ===== *)
(** * Scalar guest accesses

    The byte, half-word, word and double-word accesses of [MemAccess.v] against
    the byte-array view of [GuestMemory.v]. *)

From S2P Require Import Prelude Convert MemTypes Fault Memops ObjectQueue Fabric PageTable IoMMU.
From S2P Require Import LookupCache MemAccess GuestMemory.
Local Open Scope Z_scope.
Local Open Scope emu_scope.

(** ** Joining the two words of a crossing load *)

(** [hi << (bits - 8k) | lo >> 8k] is the word whose bytes are the last [n - k]
    bytes of [lo] followed by the first [k] of [hi]. *)
Lemma join_words n k lo hi :
  length lo = n -> length hi = n -> Forall is_byte lo -> Forall is_byte hi ->
  (0 < k)%nat -> (k < n)%nat ->
  Z.lor (wrap (bits_of_bytes n) (Z.shiftl (from_le_bytes hi) (bits_of_bytes (n - k))))
        (Z.shiftr (from_le_bytes lo) (bits_of_bytes k)) =
  from_le_bytes (drop k lo ++ take k hi).
Proof.
  intros Hlo Hhi Hblo Hbhi Hk Hn.
  destruct (from_le_bytes_take_drop k lo Hblo) as [_ Hdrop]; [lia|].
  destruct (from_le_bytes_take_drop k hi Hbhi) as [Htake _]; [lia|].
  rewrite Z.shiftr_div_pow2 by (unfold bits_of_bytes; lia). rewrite Hdrop.
  rewrite Z.shiftl_mul_pow2 by (unfold bits_of_bytes; lia).
  assert (wrap (bits_of_bytes n) (from_le_bytes hi * 2 ^ bits_of_bytes (n - k)) =
          from_le_bytes (take k hi) * 2 ^ bits_of_bytes (n - k)) as ->.
  { unfold wrap. replace n with (k + (n - k))%nat at 2 by lia. rewrite bits_of_bytes_add.
    pose proof (bits_of_bytes_pos k). pose proof (bits_of_bytes_pos (n - k)).
    rewrite Z.mul_mod_distr_r by lia. by rewrite Htake. }
  rewrite from_le_bytes_app, length_drop, Hlo, Z.lor_comm.
  apply lor_limbs; [|unfold bits_of_bytes; lia].
  replace (n - k)%nat with (length (drop k lo)) by (rewrite length_drop; lia).
  by apply from_le_bytes_fits, Forall_drop.
Qed.

(** ** The byte loops of a crossing store *)

Lemma write_bytes_comm m p l1 q l2 :
  p + Z.of_nat (length l1) <= q \/ q + Z.of_nat (length l2) <= p ->
  write_bytes (write_bytes m p l1) q l2 = write_bytes (write_bytes m q l2) p l1.
Proof.
  intros Hd. apply map_eq. intros a. rewrite !lookup_write_bytes. repeat case_decide; try done; lia.
Qed.

Lemma store_byte_spec p b m :
  is_Some (m !! p) -> Memops.store_byte p b m = Some (tt, write_bytes m p [b]).
Proof. intros [b0 Hb]. unfold Memops.store_byte, store8. by rewrite Hb. Qed.

Lemma load_bytes_at m p n i :
  is_Some (load_bytes m p n) -> 0 <= i < Z.of_nat n -> is_Some (m !! (p + i)).
Proof.
  intros [l Hl] Hi. destruct (lookup_load_bytes m p n l i Hl Hi) as (b & -> & _). eauto.
Qed.

Lemma store_hi_spec count p i bytes m :
  (count <= i)%nat -> (i <= length bytes)%nat -> is_Some (load_bytes m p count) ->
  store_hi count (p + Z.of_nat count) i bytes m =
    Some ((i - count)%nat, write_bytes m p (take count (drop (i - count) bytes))).
Proof.
  revert i m. induction count as [|count IH]; intros i m Hi Hlen Hm; simpl.
  - by rewrite Nat.sub_0_r.
  - destruct i as [|i]; [lia|].
    destruct (lookup_lt_is_Some_2 bytes i ltac:(lia)) as [b Hb].
    unfold sm_bind, sm_of_option. rewrite Hb.
    replace (p + Z.of_nat (S count) - 1) with (p + Z.of_nat count) by lia.
    rewrite store_byte_spec by (apply (load_bytes_at _ _ (S count)); [done|lia]).
    destruct Hm as [l Hl]. replace (S count) with (count + 1)%nat in Hl by lia.
    apply load_bytes_split in Hl as [Hl _].
    rewrite IH; [|lia|lia|by eapply (load_write_mapped _ _ [b])]. f_equal. f_equal.
    rewrite write_bytes_comm by (rewrite length_take, length_drop; simpl; lia). simpl Nat.sub.
    replace (S count) with (count + 1)%nat by lia. rewrite <- take_take_drop, write_bytes_app.
    rewrite length_take_le by (rewrite length_drop; lia). f_equal.
    rewrite drop_drop. replace (i - count + count)%nat with i by lia. by rewrite (drop_S _ _ _ Hb).
Qed.

Lemma store_lo_spec i p bytes m :
  (0 < i)%nat -> (i <= length bytes)%nat -> is_Some (load_bytes m p i) ->
  store_lo (p + Z.of_nat i - 1) i bytes m = Some (tt, write_bytes m p (take i bytes)).
Proof.
  revert m. induction i as [|i IH]; intros m Hi Hlen Hm; [lia|]. simpl.
  destruct (lookup_lt_is_Some_2 bytes i ltac:(lia)) as [b Hb].
  unfold sm_bind, sm_of_option. rewrite Hb.
  replace (p + Z.of_nat (S i) - 1) with (p + Z.of_nat i) by lia.
  rewrite store_byte_spec by (apply (load_bytes_at _ _ (S i)); [done|lia]).
  rewrite (take_S_r _ _ _ Hb), write_bytes_app, length_take_le by lia.
  destruct i as [|i]; [by rewrite take_0|].
  destruct Hm as [l Hl]. replace (S (S i)) with (S i + 1)%nat in Hl by lia.
  apply load_bytes_split in Hl as [Hl _].
  rewrite IH; [|lia|lia|by eapply (load_write_mapped _ _ [b])]. f_equal. f_equal.
  apply write_bytes_comm. rewrite length_take_le by lia. simpl. lia.
Qed.

Lemma word_aligned n p :
  access_width n -> p mod 4096 = 0 -> p mod Z.of_nat n = 0 /\ (p + (4096 - Z.of_nat n)) mod Z.of_nat n = 0.
Proof.
  unfold access_width. intros Hn Hp.
  destruct Hn as [->|[->| ->]]; simpl; Z.to_euclidean_division_equations; lia.
Qed.

Section Scalar.
Context {Error : Type} (e : Endian) {C : Type} `{LookupCacheLaws Error C} (m : IoMMU).
Context (f : Fabric) (Hf : fabric_ok f) (Ht : table_ok f (table m)).

Abbreviation tr := (page_of (Error := Error) f (table m)).
Abbreviation gp := (general_protection (Error := Error)).

Definition allows (req : MemFlags) (page : Page) : bool := Flags.contains_any (flags_of page) req.

(** What a scalar access of [n] bytes answers: the pages are looked up first,
    then the permission of the first page is checked, then the second's. *)
Definition scalar_result (req : MemFlags) (n : nat) (vaddr : Z) :
    Result unit (MemoryFault Error) :=
  let p := vaddr / 4096 in
  match tr p with
  | Err err => Err err
  | Ok page =>
      if vaddr mod 4096 + Z.of_nat n <=? 4096
      then if allows req page then Ok tt else Err (gp vaddr)
      else if p =? PageNum.MAX then Err (gp U64_MAX)
      else match tr (p + 1) with
           | Err err => Err err
           | Ok page2 =>
               if negb (allows req page) then Err (gp vaddr)
               else if negb (allows req page2) then Err (gp ((p + 1) * 4096))
               else Ok tt
           end
  end.

(** The pages a scalar access touches. *)
Definition scalar_pages (n : nat) (vaddr : Z) : list PageNumber :=
  if vaddr mod 4096 + Z.of_nat n <=? 4096 then [vaddr / 4096]
  else [vaddr / 4096; vaddr / 4096 + 1].

(** The outcome of the lookups of [static_small_multibyte_access]. *)
Definition small_access (n : nat) (vaddr : Z) : Result SmallAccess (MemoryFault Error) :=
  let p := vaddr / 4096 in
  let off := vaddr mod 4096 in
  match tr p with
  | Err err => Err err
  | Ok page =>
      if off + Z.of_nat n <=? 4096 then Ok (mkSmall page off None)
      else if p =? PageNum.MAX then Err (gp U64_MAX)
      else match tr (p + 1) with
           | Err err => Err err
           | Ok page2 => Ok (mkSmall page off (Some (page2, off + Z.of_nat n - 4096)))
           end
  end.

Lemma small_access_spec n c vaddr :
  access_width n -> fits 64 vaddr -> cache_ok c f m ->
  exists c' f', static_small_multibyte_access (Z.of_nat n) c m vaddr f =
      Some ((small_access n vaddr, c'), f') /\
    same_but_tokens f f' /\ cache_ok c' f' m.
Proof.
  intros Hn Hv Hc. pose proof (table_has_view (Error := Error) m f Ht) as Hview.
  unfold static_small_multibyte_access, small_access, sm_bind, sm_of_option.
  rewrite div_rem_eq by done. set (p := vaddr / 4096). set (off := vaddr mod 4096).
  destruct (cache_get_page_ok c f m p _ Hc (Hview p)) as (c1 & f1 & -> & Hs & Hc1).
  destruct (tr p) as [page|err]; [|by exists c1, f1].
  assert (0 <= off < 4096) by (unfold off; apply Z.mod_pos_bound; lia).
  change PAGE_SIZE with 4096. unfold checked_sub.
  destruct (Z.leb_spec (4096 - off) (Z.of_nat n)) as [Hle|Hgt].
  2: { rewrite (proj2 (Z.leb_le _ _)) by lia. by exists c1, f1. }
  destruct (Z.of_nat n - (4096 - off)) as [|k|k] eqn:Hk; [| |lia].
  { rewrite (proj2 (Z.leb_le _ _)) by lia. by exists c1, f1. }
  rewrite (proj2 (Z.leb_gt _ _)) by lia.
  rewrite inc_eq by by apply from_vaddr_wf in Hv; rewrite from_vaddr_div in Hv.
  destruct (Z.eqb_spec p PageNum.MAX) as [Heq|Hne].
  - rewrite decide_True by done. by exists c1, f1.
  - rewrite decide_False by done.
    pose proof (has_view_tokens m tr f f1 Hview Hs) as Hv1.
    destruct (cache_get_page_ok c1 f1 m (p + 1) _ Hc1 (Hv1 (p + 1))) as (c2 & f2 & -> & Hs2 & Hc2).
    destruct (tr (p + 1)) as [page2|err]; exists c2, f2;
      (split; [|split; [by eapply same_but_tokens_trans|done]]); [|done].
    unfold sm_ret. repeat f_equal. lia.
Qed.

Lemma page_facts p page :
  tr p = Ok page ->
  exists hp, Tagged.page_ptr (ptr page) = Some hp /\ page_mapped (mem f) hp /\
    is_Some (pages f !! mutable_flags page).
Proof.
  intros Hp. destruct (page_of_live f (table m) p page Hf Ht Hp) as (k & b & Hb & Hptr & Hm).
  exists (allocated_page b). rewrite Hb. eauto.
Qed.

Lemma page_addr_spec page hp off f' :
  Tagged.page_ptr (ptr page) = Some hp -> page_addr page off f' = Some (hp + off, f').
Proof. intros Hp. unfold page_addr, sm_bind, sm_of_option, sm_ret. by rewrite Hp. Qed.

Lemma vaddr_split vaddr : vaddr = vaddr / 4096 * 4096 + vaddr mod 4096.
Proof. Z.to_euclidean_division_equations; lia. Qed.

Lemma next_multiple vaddr :
  fits 64 vaddr -> vaddr / 4096 <> PageNum.MAX -> vaddr mod 4096 <> 0 ->
  checked_next_multiple_of 64 vaddr PAGE_SIZE_U64 = Some ((vaddr / 4096 + 1) * 4096).
Proof.
  intros [? ?] Hp Hm. unfold checked_next_multiple_of. change PAGE_SIZE_U64 with 4096.
  destruct (Z.eqb_spec (vaddr mod 4096) 0); [done|]. unfold checked_add.
  rewrite PageNum_MAX_value in Hp.
  assert (vaddr / 4096 < 2 ^ 52) by (apply Z.div_lt_upper_bound; lia).
  replace (vaddr + (4096 - vaddr mod 4096)) with ((vaddr / 4096 + 1) * 4096)
    by (Z.to_euclidean_division_equations; lia).
  by rewrite (proj2 (Z.ltb_lt _ _)) by lia.
Qed.

(** The bytes of a crossing access, page by page. *)
Lemma crossing_bytes n vaddr page page2 hp hp2 :
  tr (vaddr / 4096) = Ok page -> tr (vaddr / 4096 + 1) = Ok page2 ->
  Tagged.page_ptr (ptr page) = Some hp -> Tagged.page_ptr (ptr page2) = Some hp2 ->
  page_mapped (mem f) hp -> page_mapped (mem f) hp2 ->
  access_width n -> 4096 < vaddr mod 4096 + Z.of_nat n ->
  let k := Z.to_nat (vaddr mod 4096 + Z.of_nat n - 4096) in
  exists lo hi, load_bytes (mem f) (hp + (4096 - Z.of_nat n)) n = Some lo /\
    load_bytes (mem f) hp2 n = Some hi /\
    guest_load tr (mem f) vaddr n = Some (drop k lo ++ take k hi).
Proof.
  intros Htr Htr2 Hp Hp2 Hm Hm2 Hn Hcross k.
  assert ((0 < k < n)%nat) as Hk.
  { unfold k. pose proof (Z.mod_pos_bound vaddr 4096 ltac:(lia)). lia. }
  assert (n <= 8)%nat by (unfold access_width in Hn; lia).
  destruct (page_mapped_sub (mem f) hp (4096 - Z.of_nat n) n Hm) as [lo Hlo]; [lia|lia|].
  destruct (page_mapped_sub (mem f) hp2 0 n Hm2) as [hi Hhi]; [lia|lia|].
  rewrite Z.add_0_r in Hhi. exists lo, hi. split; [done|]. split; [done|].
  replace n with ((n - k) + k)%nat at 1 by lia. apply guest_load_app.
  - rewrite (vaddr_split vaddr).
    rewrite (guest_load_page tr _ page hp Htr Hp) by lia.
    pose proof (load_bytes_sub _ _ _ _ k (n - k) Hlo ltac:(lia)) as Hsub.
    replace (hp + (4096 - Z.of_nat n) + Z.of_nat k) with (hp + vaddr mod 4096) in Hsub by lia.
    rewrite Hsub. f_equal. apply take_ge. rewrite length_drop.
    rewrite (load_bytes_length _ _ _ _ Hlo). lia.
  - replace (vaddr + Z.of_nat (n - k)) with ((vaddr / 4096 + 1) * 4096 + 0)
      by (pose proof (vaddr_split vaddr); lia).
    rewrite (guest_load_page tr _ page2 hp2 Htr2 Hp2) by lia. rewrite Z.add_0_r.
    pose proof (load_bytes_sub _ _ _ _ 0 k Hhi ltac:(lia)) as Hsub.
    by rewrite Z.add_0_r in Hsub.
Qed.

(** The loads and the shifts of a crossing load. *)
Lemma crossing_load_spec n vaddr page page2 hp hp2 f' :
  tr (vaddr / 4096) = Ok page -> tr (vaddr / 4096 + 1) = Ok page2 ->
  Tagged.page_ptr (ptr page) = Some hp -> Tagged.page_ptr (ptr page2) = Some hp2 ->
  page_mapped (mem f) hp -> page_mapped (mem f) hp2 ->
  access_width n -> 4096 < vaddr mod 4096 + Z.of_nat n -> same_but_tokens f f' ->
  exists lo hi lo_shift hi_shift l,
    on_mem (load_le_aligned e n hp2) f' = Some (hi, f') /\
    on_mem (load_le_aligned e n (hp + (4096 - Z.of_nat n))) f' = Some (lo, f') /\
    usize_to_u32 ((vaddr mod 4096 + Z.of_nat n - 4096) * 8) = Some lo_shift /\
    checked_sub (bits_of_bytes n) lo_shift = Some hi_shift /\
    guest_load tr (mem f) vaddr n = Some l /\
    exists hi' lo', unchecked_shl (bits_of_bytes n) hi hi_shift = Some hi' /\
      unchecked_shr (bits_of_bytes n) lo lo_shift = Some lo' /\
      Z.lor hi' lo' = from_le_bytes l.
Proof.
  intros Htr Htr2 Hp Hp2 Hm Hm2 Hn Hcross Hs.
  destruct (crossing_bytes n vaddr page page2 hp hp2 Htr Htr2 Hp Hp2 Hm Hm2 Hn Hcross)
    as (lo & hi & Hlo & Hhi & Hg).
  set (k := Z.to_nat (vaddr mod 4096 + Z.of_nat n - 4096)) in *.
  assert ((0 < k < n)%nat) as Hk.
  { unfold k. pose proof (Z.mod_pos_bound vaddr 4096 ltac:(lia)). lia. }
  assert (n <= 8)%nat by (unfold access_width in Hn; lia).
  assert (Forall is_byte lo /\ Forall is_byte hi) as [Hblo Hbhi].
  { split; eapply load_bytes_is_byte; try done; apply Hf. }
  destruct (word_aligned n hp Hn) as [_ Hal]; [apply Hm|].
  destruct (word_aligned n hp2 Hn) as [Hal2 _]; [apply Hm2|].
  exists (from_le_bytes lo), (from_le_bytes hi), (bits_of_bytes k), (bits_of_bytes (n - k)),
    (drop k lo ++ take k hi).
  assert (Upd.mem (mem f') f' = f') as Hid by by destruct f'.
  unfold on_mem. rewrite (same_but_tokens_mem f f' Hs).
  rewrite (load_le_aligned_spec e n _ _ hi Hal2 Hhi Hbhi).
  rewrite (load_le_aligned_spec e n _ _ lo Hal Hlo Hblo).
  rewrite <- (same_but_tokens_mem f f' Hs), Hid.
  split; [done|]. split; [done|]. split.
  { unfold usize_to_u32. rewrite checked_usize_cast_spec, decide_True
      by (unfold fits, USIZE_BITS; lia). unfold bits_of_bytes. f_equal; lia. }
  split.
  { unfold checked_sub, bits_of_bytes. rewrite (proj2 (Z.leb_le _ _)) by lia. f_equal; lia. }
  rewrite (same_but_tokens_mem f f' Hs). split; [done|].
  unfold unchecked_shl, unchecked_shr.
  assert ((0 <=? bits_of_bytes (n - k)) && (bits_of_bytes (n - k) <? bits_of_bytes n) = true /\
          (0 <=? bits_of_bytes k) && (bits_of_bytes k <? bits_of_bytes n) = true) as [-> ->].
  { unfold bits_of_bytes. rewrite !andb_true_iff, !Z.leb_le, !Z.ltb_lt. lia. }
  do 2 eexists. split; [done|]. split; [done|].
  apply join_words; try done; try lia; by eapply load_bytes_length.
Qed.

(** Closes a branch that answers without touching memory. *)
Ltac answer := do 3 eexists; split; [reflexivity|]; split; [done|split; done].

Lemma load_le_scalar_spec n c vaddr :
  access_width n -> fits 64 vaddr -> cache_ok c f m ->
  exists r c' f', load_le e n c m vaddr f = Some ((r, c'), f') /\
    same_but_tokens f f' /\ cache_ok c' f' m /\
    match scalar_result Flags.READ n vaddr with
    | Ok _ => exists l, guest_load tr (mem f) vaddr n = Some l /\ r = Ok (from_le_bytes l)
    | Err err => r = Err err
    end.
Proof.
  intros Hn Hv Hc. destruct (small_access_spec n c vaddr Hn Hv Hc) as (c1 & f1 & Hsm & Hs & Hc1).
  unfold load_le, sm_bind at 1. rewrite Hsm. unfold scalar_result, small_access in *.
  destruct (tr (vaddr / 4096)) as [page|err] eqn:Htr; [|by answer].
  destruct (page_facts _ _ Htr) as (hp & Hp & Hm & _).
  pose proof (Z.mod_pos_bound vaddr 4096 ltac:(lia)) as Hoff.
  destruct (Z.leb_spec (vaddr mod 4096 + Z.of_nat n) 4096) as [Hin|Hcross];
    cbn [second_page base_page base_page_offset sm_bind].
  - fold (allows Flags.READ page).
    destruct (allows Flags.READ page); [|by answer].
    unfold sm_bind at 1. rewrite (page_addr_spec page hp) by done.
    destruct (page_mapped_sub (mem f) hp (vaddr mod 4096) n Hm) as [l Hl]; [lia|lia|].
    unfold sm_bind, on_mem. rewrite (same_but_tokens_mem f f1 Hs).
    rewrite (load_le_spec e n _ _ l Hn Hl (load_bytes_is_byte _ _ _ _ (proj1 Hf) Hl)).
    rewrite <- (same_but_tokens_mem f f1 Hs). do 3 eexists. split; [done|].
    replace (Upd.mem (mem f1) f1) with f1 by by destruct f1.
    split; [done|]. split; [done|]. exists l. split; [|done].
    rewrite (same_but_tokens_mem f f1 Hs), (vaddr_split vaddr) at 1.
    rewrite (guest_load_page tr _ page hp Htr Hp) by lia. done.
  - destruct (Z.eqb_spec (vaddr / 4096) PageNum.MAX) as [|Hne]; [by answer|].
    destruct (tr (vaddr / 4096 + 1)) as [page2|err] eqn:Htr2; [|by answer].
    destruct (page_facts _ _ Htr2) as (hp2 & Hp2 & Hm2 & _).
    cbn [second_page base_page base_page_offset]. fold (allows Flags.READ page). fold (allows Flags.READ page2).
    destruct (allows Flags.READ page); simpl; [|by answer].
    destruct (allows Flags.READ page2); simpl.
    2: { unfold sm_bind, sm_of_option. rewrite next_multiple; [by answer|done|done|].
         unfold access_width in Hn. lia. }
    destruct (crossing_load_spec n vaddr page page2 hp hp2 f1 Htr Htr2 Hp Hp2 Hm Hm2 Hn Hcross Hs)
      as (lo & hi & ls & hs & l & Hhi & Hlo & Hls & Hhs & Hg & hi' & lo' & Hh' & Hl' & Hv').
    unfold sm_bind. rewrite (page_addr_spec page2 hp2), Z.add_0_r by done.
    replace (PAGE_SIZE - bits_of_bytes n / 8) with (4096 - Z.of_nat n)
      by (unfold bits_of_bytes; change PAGE_SIZE with 4096; rewrite Z.mul_comm, Z.div_mul by lia; done).
    rewrite (page_addr_spec page hp), Hhi, Hlo by done. unfold sm_of_option.
    rewrite Hls, Hhs, Hh', Hl', Hv'. do 3 eexists. split; [done|]. split; [done|].
    split; [done|]. eauto.
Qed.

(** Page-aligned regions meet only when they are the same page. *)
Lemma crossing_disjoint n vaddr hp hp2 :
  page_mapped (mem f) hp -> page_mapped (mem f) hp2 -> access_width n ->
  let off := vaddr mod 4096 in let k := off + Z.of_nat n - 4096 in
  0 < k -> hp2 + k <= hp + off \/ hp + 4096 <= hp2.
Proof.
  intros [(? & Hm & ?) _] [(? & Hm2 & ?) _] Hn off k Hk. unfold access_width in Hn.
  pose proof (Z.mod_pos_bound vaddr 4096 ltac:(lia)). subst off k.
  destruct (decide (hp + 4096 <= hp2)); [by right|left].
  Z.to_euclidean_division_equations; lia.
Qed.

(** Both byte loops of a crossing store, as one guest store. *)
Lemma crossing_store_spec n vaddr v page page2 hp hp2 :
  tr (vaddr / 4096) = Ok page -> tr (vaddr / 4096 + 1) = Ok page2 ->
  Tagged.page_ptr (ptr page) = Some hp -> Tagged.page_ptr (ptr page2) = Some hp2 ->
  page_mapped (mem f) hp -> page_mapped (mem f) hp2 ->
  access_width n -> 4096 < vaddr mod 4096 + Z.of_nat n ->
  let bytes := to_le_bytes n v in
  let k := vaddr mod 4096 + Z.of_nat n - 4096 in
  exists mem1 mem2,
    store_hi (Z.to_nat k) (hp2 + k) (length bytes) bytes (mem f) =
      Some ((n - Z.to_nat k)%nat, mem1) /\
    store_lo (hp + (PAGE_SIZE - 1)) (n - Z.to_nat k) bytes mem1 = Some (tt, mem2) /\
    guest_store tr (mem f) vaddr bytes = Some mem2.
Proof.
  intros Htr Htr2 Hp Hp2 Hm Hm2 Hn Hcross bytes k.
  assert (length bytes = n) as Hlen by apply length_to_le_bytes.
  pose proof (Z.mod_pos_bound vaddr 4096 ltac:(lia)) as Hoff.
  assert (n <= 8)%nat by (unfold access_width in Hn; lia).
  set (kn := Z.to_nat k). set (rest := (n - kn)%nat).
  assert ((0 < kn < n)%nat) as Hkn by lia.
  exists (write_bytes (mem f) hp2 (drop rest bytes)),
    (write_bytes (write_bytes (mem f) hp2 (drop rest bytes)) (hp + vaddr mod 4096)
       (take rest bytes)). split_and!.
  - replace (hp2 + k) with (hp2 + Z.of_nat kn) by lia. rewrite Hlen.
    rewrite store_hi_spec; [|lia|lia|].
    + fold rest. rewrite (take_ge (drop rest bytes)); [done|]. rewrite length_drop. lia.
    + destruct (page_mapped_sub (mem f) hp2 0 kn Hm2) as [l Hl]; [lia|lia|].
      rewrite Z.add_0_r in Hl. eauto.
  - replace (hp + (PAGE_SIZE - 1)) with (hp + vaddr mod 4096 + Z.of_nat rest - 1)
      by (change PAGE_SIZE with 4096; lia).
    apply store_lo_spec; [lia|lia|].
    destruct (page_mapped_sub (mem f) hp (vaddr mod 4096) rest Hm) as [l Hl]; [lia|lia|].
    by eapply load_write_mapped.
  - rewrite <- (take_drop rest bytes). rewrite (vaddr_split vaddr) at 1.
    assert (is_Some (load_bytes (mem f) (hp + vaddr mod 4096) (length (take rest bytes)))) as Hm1.
    { rewrite length_take_le by lia. apply page_mapped_sub; [exact Hm|lia|lia]. }
    erewrite guest_store_app.
    2: { apply (guest_store_page tr _ page hp Htr Hp); [lia| |done]. rewrite length_take_le; lia. }
    rewrite length_take_le by lia.
    replace (vaddr / 4096 * 4096 + vaddr mod 4096 + Z.of_nat rest)
      with ((vaddr / 4096 + 1) * 4096 + 0) by lia.
    assert (is_Some (load_bytes (write_bytes (mem f) (hp + vaddr mod 4096) (take rest bytes))
              (hp2 + 0) (length (drop rest bytes)))) as Hm3.
    { destruct (page_mapped_sub (mem f) hp2 0 kn Hm2) as [l Hl]; [lia|lia|].
      replace (length (drop rest bytes)) with kn by (rewrite length_drop; lia).
      destruct (load_write_mapped _ (hp + vaddr mod 4096) (take rest bytes) _ _ _ Hl); eauto. }
    rewrite (guest_store_page tr _ page2 hp2 Htr2 Hp2); [|lia|rewrite length_drop; lia|done].
    rewrite Z.add_0_r, take_drop. f_equal. apply write_bytes_comm.
    rewrite length_take_le, length_drop by lia.
    destruct (crossing_disjoint n vaddr hp hp2 Hm Hm2 Hn); lia.
Qed.

(** Two stores that are followed by marking: the fabric they leave. *)
Lemma mark_after f1 mem' page :
  same_layout f f1 -> is_Some (pages f !! mutable_flags page) ->
  set_dirty page (Upd.mem mem' f1) =
    Some (tt, Upd.pages (mark_dirty page (pages f1)) (Upd.mem mem' f1)).
Proof.
  intros Hl Hs.
  exact (set_dirty_spec page (Upd.mem mem' f1) (layout_is_Some f f1 _ Hl Hs)).
Qed.

Lemma stored_cache_ok c f1 vaddr l ps f' :
  cache_ok c f1 m -> same_but_tokens f f1 -> tokens f' = tokens f1 ->
  stored (Error := Error) m f vaddr l ps f' -> cache_ok c f' m.
Proof.
  intros Hc Hs Htok Hst. eapply cache_ok_stable; [done|done|]. intros q.
  rewrite (stored_view m f Ht vaddr l ps f' Hst q).
  by rewrite (has_view_tokens m tr f f1 (table_has_view m f Ht) Hs q).
Qed.

Lemma store_le_scalar_spec n c vaddr v :
  access_width n -> fits 64 vaddr -> cache_ok c f m ->
  exists r c' f', store_le e n c m vaddr v f = Some ((r, c'), f') /\
    cache_ok c' f' m /\ r = scalar_result Flags.WRITE n vaddr /\
    match r with
    | Ok _ => stored (Error := Error) m f vaddr (to_le_bytes n v) (scalar_pages n vaddr) f'
    | Err _ => same_but_tokens f f'
    end.
Proof.
  intros Hn Hv Hc. destruct (small_access_spec n c vaddr Hn Hv Hc) as (c1 & f1 & Hsm & Hs & Hc1).
  unfold store_le, sm_bind at 1. rewrite Hsm. unfold scalar_result, small_access, scalar_pages in *.
  destruct (tr (vaddr / 4096)) as [page|err] eqn:Htr; [|by answer].
  destruct (page_facts _ _ Htr) as (hp & Hp & Hm & Hlive).
  pose proof (Z.mod_pos_bound vaddr 4096 ltac:(lia)) as Hoff.
  pose proof (same_but_tokens_mem f f1 Hs) as Hmem.
  assert (same_layout f f1 /\ pages f1 = pages f) as [Hlay Hpages].
  { rewrite Hs. done. }
  destruct (Z.leb_spec (vaddr mod 4096 + Z.of_nat n) 4096) as [Hin|Hcross];
    cbn [second_page base_page base_page_offset sm_bind].
  - fold (allows Flags.WRITE page). destruct (allows Flags.WRITE page); [|by answer].
    unfold sm_bind at 1. rewrite (page_addr_spec page hp) by done.
    destruct (page_mapped_sub (mem f) hp (vaddr mod 4096) n Hm) as [l Hl]; [lia|lia|].
    unfold sm_bind, on_mem. rewrite Hmem, (store_le_spec e n _ _ _ l Hn Hl).
    rewrite mark_after by done. do 3 eexists. split; [reflexivity|].
    assert (stored (Error := Error) m f vaddr (to_le_bytes n v) [vaddr / 4096]
      (Upd.pages (mark_dirty page (pages f1)) (Upd.mem
        (write_bytes (mem f) (hp + vaddr mod 4096) (to_le_bytes n v)) f1))) as Hst.
    { exists (write_bytes (mem f) (hp + vaddr mod 4096) (to_le_bytes n v)). split.
      - rewrite (vaddr_split vaddr) at 1. apply (guest_store_page tr _ page hp Htr Hp);
          rewrite ?length_to_le_bytes; [lia|lia|eauto].
      - simpl. rewrite Htr, Hpages, Hs. done. }
    split; [by eapply stored_cache_ok|]. by split.
  - destruct (Z.eqb_spec (vaddr / 4096) PageNum.MAX) as [|Hne]; [by answer|].
    destruct (tr (vaddr / 4096 + 1)) as [page2|err] eqn:Htr2; [|by answer].
    destruct (page_facts _ _ Htr2) as (hp2 & Hp2 & Hm2 & Hlive2).
    cbn [second_page base_page base_page_offset].
    fold (allows Flags.WRITE page). fold (allows Flags.WRITE page2).
    destruct (allows Flags.WRITE page); simpl; [|by answer].
    destruct (allows Flags.WRITE page2); simpl.
    2: { unfold sm_bind, sm_of_option. rewrite next_multiple; [by answer|done|done|].
         unfold access_width in Hn. lia. }
    destruct (crossing_store_spec n vaddr v page page2 hp hp2 Htr Htr2 Hp Hp2 Hm Hm2 Hn Hcross)
      as (mem1 & mem2 & Hhi & Hlo & Hg).
    unfold sm_bind. rewrite (page_addr_spec page2 hp2), (page_addr_spec page hp) by done.
    unfold on_mem. rewrite Hmem, Hhi. cbn [mem Upd.mem]. rewrite Hlo.
    change (Upd.mem mem2 (Upd.mem mem1 f1)) with (Upd.mem mem2 f1).
    rewrite mark_after by done. rewrite set_dirty_spec.
    2: { simpl. destruct Hlive2 as [a Ha].
         pose proof (mark_dirty_layout page (pages f1) (mutable_flags page2)) as Hd.
         rewrite Hpages, Ha in Hd. rewrite Hpages.
         destruct (mark_dirty page (pages f) !! mutable_flags page2); [eauto|done]. }
    do 3 eexists. split; [reflexivity|]. cbn [pages Upd.pages Upd.mem].
    match goal with |- cache_ok _ ?F _ /\ _ =>
      assert (stored (Error := Error) m f vaddr (to_le_bytes n v) [vaddr / 4096; vaddr / 4096 + 1] F) as Hst end.
    { exists mem2. split; [done|]. simpl. rewrite Htr, Htr2, Hpages, Hs. done. }
    split; [by eapply stored_cache_ok|]. by split.
Qed.

(** ** Accesses of an aligned unit: bytes and instructions *)

(** What an access of an aligned unit answers: alignment, then the lookup,
    then the permission. *)
Definition aligned_result (req : MemFlags) (n : Z) (vaddr : Z) :
    Result unit (MemoryFault Error) :=
  if negb (is_multiple_of vaddr n) then Err (gp vaddr)
  else match tr (vaddr / 4096) with
       | Err err => Err err
       | Ok page => if allows req page then Ok tt else Err (gp vaddr)
       end.

Lemma resolve_spec n c vaddr :
  n = 1 \/ n = 2 \/ n = 4 \/ n = 8 -> fits 64 vaddr -> cache_ok c f m ->
  exists c' f', resolve_aligned_scalar_access n c m vaddr f =
      Some ((if negb (is_multiple_of vaddr n) then Err (gp vaddr)
             else match tr (vaddr / 4096) with
                  | Err err => Err err
                  | Ok page => Ok (page, vaddr mod 4096)
                  end, c'), f') /\
    same_but_tokens f f' /\ cache_ok c' f' m.
Proof.
  intros Hn Hv Hc. unfold resolve_aligned_scalar_access.
  destruct (is_multiple_of vaddr n) eqn:Hal; simpl.
  2: { exists c, f. split; [done|]. split; [apply same_but_tokens_refl|done]. }
  unfold lookup_addr, sm_bind, sm_of_option. rewrite div_rem_eq by done.
  destruct (cache_get_page_ok c f m (vaddr / 4096) _ Hc (table_has_view m f Ht (vaddr / 4096)))
    as (c1 & f1 & -> & Hs & Hc1).
  destruct (tr (vaddr / 4096)) as [page|err]; simpl; [|by exists c1, f1].
  unfold sm_assert. replace (vaddr mod 4096 <? PAGE_SIZE - n + 1) with true; [by exists c1, f1|].
  symmetry. apply Z.ltb_lt. change PAGE_SIZE with 4096. unfold is_multiple_of in Hal.
  apply Z.eqb_eq in Hal. destruct Hn as [->|[->|[-> | ->]]]; Z.to_euclidean_division_equations; lia.
Qed.

Lemma load_byte_spec c vaddr :
  fits 64 vaddr -> cache_ok c f m ->
  exists r c' f', load_byte c m vaddr f = Some ((r, c'), f') /\
    same_but_tokens f f' /\ cache_ok c' f' m /\
    match aligned_result Flags.READ 1 vaddr with
    | Ok _ => exists b, guest_byte tr (mem f) vaddr = Some b /\ r = Ok b
    | Err err => r = Err err
    end.
Proof.
  intros Hv Hc. destruct (resolve_spec 1 c vaddr ltac:(by left) Hv Hc) as (c1 & f1 & Hr & Hs & Hc1).
  unfold load_byte, resolve_byte_access, sm_bind at 1. rewrite Hr. unfold aligned_result.
  destruct (is_multiple_of vaddr 1); simpl; [|by answer].
  destruct (tr (vaddr / 4096)) as [page|err] eqn:Htr; [|by answer].
  destruct (page_facts _ _ Htr) as (hp & Hp & Hm & Hlive).
  fold (allows Flags.READ page). destruct (allows Flags.READ page); [|by answer].
  unfold sm_bind. rewrite (page_addr_spec page hp) by done. unfold on_mem, Memops.load_byte, load8.
  pose proof (Z.mod_pos_bound vaddr 4096 ltac:(lia)) as Hoff.
  destruct (page_mapped_sub (mem f) hp (vaddr mod 4096) 1 Hm) as [l Hl]; [lia|lia|].
  simpl in Hl. rewrite (same_but_tokens_mem f f1 Hs).
  destruct (mem f !! (hp + vaddr mod 4096)) as [b|] eqn:Hb; [|done].
  do 3 eexists. split; [reflexivity|]. rewrite <- (same_but_tokens_mem f f1 Hs).
  replace (Upd.mem (mem f1) f1) with f1 by by destruct f1.
  split; [done|]. split; [done|]. exists b. split; [|done].
  unfold guest_byte, host_addr. rewrite Htr, Hp. simpl.
  by rewrite (same_but_tokens_mem f f1 Hs).
Qed.

Lemma store_byte_scalar_spec c vaddr v :
  fits 64 vaddr -> cache_ok c f m ->
  exists r c' f', store_byte c m vaddr v f = Some ((r, c'), f') /\
    cache_ok c' f' m /\ r = aligned_result Flags.WRITE 1 vaddr /\
    match r with
    | Ok _ => stored (Error := Error) m f vaddr [v] [vaddr / 4096] f'
    | Err _ => same_but_tokens f f'
    end.
Proof.
  intros Hv Hc. destruct (resolve_spec 1 c vaddr ltac:(by left) Hv Hc) as (c1 & f1 & Hr & Hs & Hc1).
  unfold store_byte, resolve_byte_access, sm_bind at 1. rewrite Hr. unfold aligned_result.
  destruct (is_multiple_of vaddr 1); simpl; [|by answer].
  destruct (tr (vaddr / 4096)) as [page|err] eqn:Htr; [|by answer].
  destruct (page_facts _ _ Htr) as (hp & Hp & Hm & Hlive).
  fold (allows Flags.WRITE page). destruct (allows Flags.WRITE page); [|by answer].
  unfold sm_bind. rewrite (page_addr_spec page hp) by done. unfold on_mem.
  pose proof (Z.mod_pos_bound vaddr 4096 ltac:(lia)) as Hoff.
  pose proof (page_mapped_sub (mem f) hp (vaddr mod 4096) 1 Hm ltac:(lia) ltac:(lia)) as Hl.
  rewrite (same_but_tokens_mem f f1 Hs), store_byte_spec.
  2: { destruct (load_bytes_at _ _ 1 0 Hl ltac:(lia)) as [b Hb]. rewrite Z.add_0_r in Hb. eauto. }
  assert (same_layout f f1) as Hlay by by rewrite Hs.
  rewrite mark_after by done. do 3 eexists. split; [reflexivity|].
  match goal with |- cache_ok _ ?F _ /\ _ =>
    assert (stored (Error := Error) m f vaddr [v] [vaddr / 4096] F) as Hst end.
  { exists (write_bytes (mem f) (hp + vaddr mod 4096) [v]). split.
    - rewrite (vaddr_split vaddr) at 1.
      apply (guest_store_page tr _ page hp Htr Hp); [lia|simpl; lia|done].
    - simpl. rewrite Htr, Hs. done. }
  split; [by eapply stored_cache_ok|]. by split.
Qed.

Lemma fetch_spec c vaddr :
  fits 64 vaddr -> cache_ok c f m ->
  exists r c' f', fetch_aarch64 e c m vaddr f = Some ((r, c'), f') /\
    same_but_tokens f f' /\ cache_ok c' f' m /\
    match aligned_result Flags.EXECUTE 4 vaddr with
    | Ok _ => exists l, guest_load tr (mem f) vaddr 4 = Some l /\ r = Ok (from_le_bytes l)
    | Err err => r = Err err
    end.
Proof.
  intros Hv Hc. destruct (resolve_spec 4 c vaddr ltac:(tauto) Hv Hc) as (c1 & f1 & Hr & Hs & Hc1).
  unfold fetch_aarch64, sm_bind at 1. change AARCH64_INSN_ALIGN with 4. rewrite Hr.
  unfold aligned_result. destruct (is_multiple_of vaddr 4) eqn:Hal; cbn [negb]; [|by answer].
  destruct (tr (vaddr / 4096)) as [page|err] eqn:Htr; [|by answer].
  destruct (page_facts _ _ Htr) as (hp & Hp & Hm & Hlive).
  fold (allows Flags.EXECUTE page). destruct (allows Flags.EXECUTE page); [|by answer].
  unfold sm_bind. rewrite (page_addr_spec page hp) by done. unfold on_mem, load32_le_aligned.
  pose proof (Z.mod_pos_bound vaddr 4096 ltac:(lia)) as Hoff.
  apply Z.eqb_eq in Hal.
  assert (vaddr mod 4096 + 4 <= 4096 /\ (hp + vaddr mod 4096) mod Z.of_nat 4 = 0) as [Hin Hal4].
  { destruct Hm as [(? & Hm0 & ?) _]. simpl. Z.to_euclidean_division_equations; lia. }
  destruct (page_mapped_sub (mem f) hp (vaddr mod 4096) 4 Hm) as [l Hl]; [lia|lia|].
  rewrite (same_but_tokens_mem f f1 Hs).
  rewrite (load_le_aligned_spec e 4 _ _ l Hal4 Hl (load_bytes_is_byte _ _ _ _ (proj1 Hf) Hl)).
  do 3 eexists. split; [reflexivity|]. rewrite <- (same_but_tokens_mem f f1 Hs).
  replace (Upd.mem (mem f1) f1) with f1 by by destruct f1.
  split; [done|]. split; [done|]. exists l. split; [|done].
  rewrite (same_but_tokens_mem f f1 Hs), (vaddr_split vaddr) at 1.
  by rewrite (guest_load_page tr _ page hp Htr Hp) by lia.
Qed.
End Scalar.

(** ** Properties *)

Section Properties.
Context {Error : Type} (e : Endian) {C : Type} `{LookupCacheLaws Error C} (m : IoMMU).
Context (f : Fabric) (Hf : fabric_ok f) (Ht : table_ok f (table m)).

Abbreviation tr := (page_of (Error := Error) f (table m)).

(** C23: 16-, 32- and 64-bit accesses are little-endian accesses to guest
    bytes, wherever they fall.  At every address, inside a page or across two
    pages that need not be adjacent in host memory, a load returns the
    little-endian value of the guest bytes and a store writes exactly the
    value's bytes and marks the touched pages; the faults are those of the
    lookups, then of the first page's permission, then of the second's, and a
    faulting access changes nothing.  No shift, offset or alignment the code
    leaves unchecked is ever out of range. *)
Theorem scalar_access_correct n c vaddr v :
  access_width n -> fits 64 vaddr -> cache_ok c f m ->
  (exists r c' f', load_le e n c m vaddr f = Some ((r, c'), f') /\
     same_but_tokens f f' /\ cache_ok c' f' m /\
     match scalar_result m f Flags.READ n vaddr with
     | Ok _ => exists l, guest_load tr (mem f) vaddr n = Some l /\ r = Ok (from_le_bytes l)
     | Err err => r = Err err
     end) /\
  (exists r c' f', store_le e n c m vaddr v f = Some ((r, c'), f') /\
     cache_ok c' f' m /\ r = scalar_result m f Flags.WRITE n vaddr /\
     match r with
     | Ok _ => stored (Error := Error) m f vaddr (to_le_bytes n v) (scalar_pages n vaddr) f'
     | Err _ => same_but_tokens f f'
     end).
Proof. intros. split; [by apply load_le_scalar_spec|by apply store_le_scalar_spec]. Qed.

(** Byte accesses and instruction fetch.  A byte access touches exactly
    its guest byte; a fetch faults on a misaligned address before looking it
    up, requires [EXECUTE], and returns the little-endian word at the address,
    which never leaves its page. *)
Theorem byte_and_fetch_correct c vaddr v :
  fits 64 vaddr -> cache_ok c f m ->
  (exists r c' f', load_byte c m vaddr f = Some ((r, c'), f') /\
     same_but_tokens f f' /\ cache_ok c' f' m /\
     match aligned_result m f Flags.READ 1 vaddr with
     | Ok _ => exists b, guest_byte tr (mem f) vaddr = Some b /\ r = Ok b
     | Err err => r = Err err
     end) /\
  (exists r c' f', store_byte c m vaddr v f = Some ((r, c'), f') /\
     cache_ok c' f' m /\ r = aligned_result m f Flags.WRITE 1 vaddr /\
     match r with
     | Ok _ => stored (Error := Error) m f vaddr [v] [vaddr / 4096] f'
     | Err _ => same_but_tokens f f'
     end) /\
  (exists r c' f', fetch_aarch64 e c m vaddr f = Some ((r, c'), f') /\
     same_but_tokens f f' /\ cache_ok c' f' m /\
     match aligned_result m f Flags.EXECUTE 4 vaddr with
     | Ok _ => exists l, guest_load tr (mem f) vaddr 4 = Some l /\ r = Ok (from_le_bytes l)
     | Err err => r = Err err
     end).
Proof.
  intros. split; [by apply load_byte_spec|]. split; [by apply store_byte_scalar_spec|].
  by apply fetch_spec.
Qed.

(** A write-protected private mapping of the page [id]. *)
Definition cow_entry (id : positive) (prot : MemProt) : PageEntry :=
  mkPageEntry (Private id true) prot.

Lemma page_of_private t p id prot :
  table_ok f t -> t !! p = Some (cow_entry id prot) ->
  exists b, Tagged.page_ptr (ptr (mkPage (Tagged.new (allocated_page b)
      (Flags.union Flags.COW (Flags.from_prot prot))) id)) = Some (allocated_page b) /\
    (exists n, pages f !! id = Some (mkArc n b)) /\
    page_of (Error := Error) f t p = Ok (mkPage (Tagged.new (allocated_page b)
      (Flags.union Flags.COW (Flags.from_prot prot))) id) /\
    Tagged.flags (Tagged.new (allocated_page b) (Flags.union Flags.COW (Flags.from_prot prot)))
      = Flags.union Flags.COW (Flags.from_prot prot).
Proof.
  intros Ht2 Hp. destruct (Ht2 p _ Hp) as (_ & Hprot & Hsrc).
  destruct (as_page_spec f _ Hsrc) as (n & b & Hb & Ha). exists b.
  destruct (proj2 Hf id _ Hb) as [Hwf _].
  destruct (tagged_new_spec (allocated_page b) (Flags.union Flags.COW (Flags.from_prot prot)) Hwf)
    as [H1 H2].
  { apply union_wf; [by vm_compute|by apply from_prot_wf]. }
  split; [done|]. split; [eauto|]. split; [|done]. unfold page_of. rewrite Hp.
  by rewrite Ha.
Qed.

(** a one-byte store goes through a copy-on-write mapping.  The flags of
    a copy-on-write entry keep the [WRITE] bit of its protections (the mask of
    [as_page] is undone when the protections are or-ed in again), and the
    scalar stores only test that bit: on a write-protected private page with
    write permission, a byte store succeeds without copying, and every other
    mapping of the same host page (the zero page's other users, the other
    side of a fork) reads the new value.  The bulk [store] refuses the same
    address. *)
Theorem scalar_store_writes_cow_page c vaddr v id prot t2 p2 prot2 :
  cache_ok c f m -> fits 64 vaddr -> is_byte v -> table_ok f t2 ->
  table m !! (vaddr / 4096) = Some (cow_entry id prot) ->
  t2 !! p2 = Some (cow_entry id prot2) ->
  Prot.contains_any prot Prot.WRITE = true ->
  (exists c' f', store_byte c m vaddr v f = Some ((Ok tt, c'), f') /\
     guest_byte (page_of (Error := Error) f' t2) (mem f') (p2 * 4096 + vaddr mod 4096) = Some v) /\
  access_result (Error := Error) m f (Some Prot.WRITE) true vaddr 1 =
    Err (general_protection (vaddr / 4096 * 4096)).
Proof.
  intros Hc Hv Hb Ht2 Hp1 Hp2 Hw.
  destruct (page_of_private (table m) _ id prot Ht Hp1) as (b & Hptr & [n Hbk] & Hpage & Hfl).
  destruct (page_of_private t2 _ id prot2 Ht2 Hp2) as (b' & Hptr' & [n' Hbk'] & Hpage' & Hfl').
  rewrite Hbk in Hbk'. injection Hbk' as -> ->.
  assert (Flags.contains_any (Flags.union Flags.COW (Flags.from_prot prot)) Flags.WRITE = true) as Hww.
  { rewrite contains_any_union. unfold Flags.contains_any, Prot.contains_any in *. simpl in *.
    done. }
  pose proof (Z.mod_pos_bound vaddr 4096 ltac:(lia)) as Hoff. split.
  - destruct (store_byte_scalar_spec m f Hf Ht c vaddr v Hv Hc) as (r & c' & f' & Hs & _ & Hr & Hst).
    assert (aligned_result (Error := Error) m f Flags.WRITE 1 vaddr = Ok tt) as Hok.
    { unfold aligned_result, is_multiple_of. rewrite Z.mod_1_r, Hpage. simpl.
      unfold allows, flags_of. simpl. by rewrite Hfl, Hww. }
    rewrite Hok in Hr. subst r. exists c', f'. split; [done|].
    pose proof (stored_layout m f _ _ _ _ Hst) as Hlay.
    destruct Hst as (mem' & Hg & Hf').
    pose proof (host_addr_page tr _ _ _ Hpage Hptr _ Hoff) as Hh. rewrite <- vaddr_split in Hh.
    simpl in Hg. unfold guest_byte in Hg. rewrite Hh in Hg.
    destruct (mem f !! (allocated_page b' + vaddr mod 4096)); [|done]. injection Hg as <-.
    unfold guest_byte, host_addr.
    replace ((p2 * 4096 + vaddr mod 4096) / 4096) with p2
      by (Z.to_euclidean_division_equations; lia).
    replace ((p2 * 4096 + vaddr mod 4096) mod 4096) with (vaddr mod 4096)
      by (Z.to_euclidean_division_equations; lia).
    assert (page_of (Error := Error) f' t2 p2 = page_of f t2 p2) as ->.
    { apply page_of_get_page. rewrite (get_page_layout f f') by done.
      by apply get_page_page_of. }
    rewrite Hpage', Hptr'. simpl. rewrite Hf'. simpl. by rewrite lookup_insert_eq.
  - unfold access_result. simpl.
    destruct (Z.ltb_spec (2 ^ 64) (vaddr + 1)); [unfold fits in Hv; lia|].
    assert (touched vaddr 1 = [vaddr / 4096]) as ->.
    { unfold touched, first_page, last_page. replace (vaddr + 1 - 1) with vaddr by lia.
      rewrite Z.sub_diag. unfold seqZ. simpl. by f_equal. }
    simpl. unfold page_permitted. rewrite Hpage. unfold verify_page, flags_of. simpl ptr.
    rewrite Hfl, contains_any_union. simpl. unfold Flags.contains_any. simpl.
    rewrite vaddr_base_eq; [done|]. rewrite <- from_vaddr_div. by apply from_vaddr_wf.
Qed.
End Properties.

Lemma scalar_access_correct_witness :
  scalar_result (Error := Empty_set) demo_mmu demo_fabric Flags.READ 4 8190 = Ok tt /\
  scalar_result (Error := Empty_set) demo_mmu demo_fabric Flags.WRITE 4 8190 =
    Err (general_protection 8192) /\
  (exists r c' f', load_le (Error := Empty_set) Big 4 TheNoCache demo_mmu 8190 demo_fabric =
      Some ((r, c'), f') /\
     same_but_tokens demo_fabric f' /\ cache_ok (Error := Empty_set) c' f' demo_mmu /\
     match scalar_result demo_mmu demo_fabric Flags.READ 4 8190 with
     | Ok _ => exists l, guest_load (page_of (Error := Empty_set) demo_fabric demo_table)
                 (mem demo_fabric) 8190 4 = Some l /\ r = Ok (from_le_bytes l)
     | Err err => r = Err err
     end) /\
  (exists r c' f', store_le (Error := Empty_set) Big 4 TheNoCache demo_mmu 8190 99 demo_fabric =
      Some ((r, c'), f') /\
     cache_ok (Error := Empty_set) c' f' demo_mmu /\
     r = scalar_result demo_mmu demo_fabric Flags.WRITE 4 8190 /\
     match r with
     | Ok _ => stored (Error := Empty_set) demo_mmu demo_fabric 8190 (to_le_bytes 4 99)
                 (scalar_pages 4 8190) f'
     | Err _ => same_but_tokens demo_fabric f'
     end).
Proof.
  split; [by vm_compute|]. split; [by vm_compute|].
  apply (scalar_access_correct Big demo_mmu demo_fabric demo_fabric_ok demo_table_ok 4
           TheNoCache 8190 99).
  - right. by left.
  - by vm_compute.
  - apply demo_cache_ok.
Defined.

Lemma byte_and_fetch_correct_witness :
  aligned_result (Error := Empty_set) demo_mmu demo_fabric Flags.WRITE 1 4097 = Ok tt /\
  aligned_result (Error := Empty_set) demo_mmu demo_fabric Flags.EXECUTE 4 4097 =
    Err (general_protection 4097) /\
  (exists r c' f', load_byte (Error := Empty_set) TheNoCache demo_mmu 4097 demo_fabric =
      Some ((r, c'), f') /\
     same_but_tokens demo_fabric f' /\ cache_ok (Error := Empty_set) c' f' demo_mmu /\
     match aligned_result demo_mmu demo_fabric Flags.READ 1 4097 with
     | Ok _ => exists b, guest_byte (page_of (Error := Empty_set) demo_fabric demo_table)
                 (mem demo_fabric) 4097 = Some b /\ r = Ok b
     | Err err => r = Err err
     end) /\
  (exists r c' f', store_byte (Error := Empty_set) TheNoCache demo_mmu 4097 5 demo_fabric =
      Some ((r, c'), f') /\
     cache_ok (Error := Empty_set) c' f' demo_mmu /\
     r = aligned_result demo_mmu demo_fabric Flags.WRITE 1 4097 /\
     match r with
     | Ok _ => stored (Error := Empty_set) demo_mmu demo_fabric 4097 [5] [4097 / 4096] f'
     | Err _ => same_but_tokens demo_fabric f'
     end) /\
  (exists r c' f', fetch_aarch64 (Error := Empty_set) Little TheNoCache demo_mmu 4097 demo_fabric =
      Some ((r, c'), f') /\
     same_but_tokens demo_fabric f' /\ cache_ok (Error := Empty_set) c' f' demo_mmu /\
     match aligned_result demo_mmu demo_fabric Flags.EXECUTE 4 4097 with
     | Ok _ => exists l, guest_load (page_of (Error := Empty_set) demo_fabric demo_table)
                 (mem demo_fabric) 4097 4 = Some l /\ r = Ok (from_le_bytes l)
     | Err err => r = Err err
     end).
Proof.
  split; [by vm_compute|]. split; [by vm_compute|].
  apply (byte_and_fetch_correct Little demo_mmu demo_fabric demo_fabric_ok demo_table_ok
           TheNoCache 4097 5).
  - by vm_compute.
  - apply demo_cache_ok.
Defined.

(** Two copy-on-write mappings of the host page at 12288, as two lazily mapped
    pages share the zero page. *)
Definition cow_table : PageTable :=
  <[16 := cow_entry 1 (Prot.union Prot.READ Prot.WRITE)]>
    {[17 := cow_entry 1 Prot.READ]}.

Lemma cow_table_ok : table_ok demo_fabric cow_table.
Proof.
  intros p e. unfold cow_table. rewrite lookup_insert_Some, lookup_singleton_Some.
  intros [[<- <-]|[_ [<- <-]]]; split_and!; try (by vm_compute); by eexists.
Qed.

Lemma scalar_store_writes_cow_page_witness :
  (exists c' f', store_byte (Error := Empty_set) TheNoCache (mkIoMMU 1 cow_table) 65541 42
       demo_fabric = Some ((Ok tt, c'), f') /\
     guest_byte (page_of (Error := Empty_set) f' cow_table) (mem f')
       (17 * 4096 + 65541 mod 4096) = Some 42) /\
  access_result (Error := Empty_set) (mkIoMMU 1 cow_table) demo_fabric (Some Prot.WRITE) true
    65541 1 = Err (general_protection (65541 / 4096 * 4096)).
Proof.
  apply (scalar_store_writes_cow_page (mkIoMMU 1 cow_table) demo_fabric demo_fabric_ok
    cow_table_ok TheNoCache 65541 42 1 (Prot.union Prot.READ Prot.WRITE) cow_table 17 Prot.READ).
  - intros p. rewrite get_page_page_of by apply cow_table_ok. eauto.
  - by vm_compute.
  - by vm_compute.
  - apply cow_table_ok.
  - by vm_compute.
  - by vm_compute.
  - by vm_compute.
Defined.
