(* ===== verification/FfiSupport.v ===== *)
(** * The helpers compiled code calls ([jit-compiler-core/src/ir/ffi_support.rs]
      and [exec_context.rs])

    Loads and stores that record their fault in the context instead of
    returning it, and the load- and store-exclusive pairs, which combine the
    translation of the address, the exclusive monitor and an atomic access. *)

From S2P Require Import Prelude Convert MemTypes Fault Memops ObjectQueue Fabric PageTable IoMMU.
From S2P Require Import ExclusiveMonitor LookupCache MemAccess GuestMemory ScalarAccess.
Local Open Scope Z_scope.
Local Open Scope emu_scope.

Inductive IoMmuStatus := IoMmuOk | IoMmuFault.
Inductive StrexStatus := StrexStored | StrexFailed | StrexFault.

(** The values compiled code tests. *)
Definition IoMmuStatus_repr (s : IoMmuStatus) : Z := match s with IoMmuOk => 0 | IoMmuFault => 1 end.
Definition StrexStatus_repr (s : StrexStatus) : Z :=
  match s with StrexStored => 0 | StrexFailed => 1 | StrexFault => 255 end.

(** The widths of the exclusive accesses, in bytes, and the variant of each. *)
Definition exclusive_width (n : nat) : Prop := n = 1%nat \/ access_width n.

Definition eml_of (n : nat) (v : Z) : ExclusiveMonitorLoad :=
  match n with 1%nat => U8 v | 2%nat => U16 v | 4%nat => U32 v | 8%nat => U64 v | _ => U128 v end.

(** [let EML::U32(old_value) = reservation.value else { ... }]. *)
Definition eml_value (n : nat) (l : ExclusiveMonitorLoad) : option Z :=
  match n, l with
  | 1%nat, U8 v | 2%nat, U16 v | 4%nat, U32 v | 8%nat, U64 v => Some v
  | _, _ => None
  end.

Lemma eml_value_of n m v :
  exclusive_width n -> exclusive_width m ->
  eml_value n (eml_of m v) = if decide (n = m) then Some v else None.
Proof. unfold exclusive_width, access_width. intros. by repeat destruct_or?; subst. Qed.

(** ** Accesses at a host address *)

Section Host.
Context (e : Endian).

(** [AtomicU32::compare_exchange] and its siblings. *)
Definition compare_exchange (n : nat) (p current new : Z) : SM Mem bool :=
  let! v := load_ne_aligned_inner e n p in
  if v =? current then store_ne_aligned_inner e n p new ;;! sm_ret true else sm_ret false.

(** The part of [ldrex] after the address is resolved: the value for the guest
    and the token. *)
Definition ldrex_at (n : nat) (ptr : Z) : SM (ExclusiveMonitor * Mem) (Z * Reservation) :=
  let! (value, token) := ldrex (eml_of n) ptr (load_ne_aligned_inner e n ptr) in
  sm_ret (to_le e n value, token).

Definition strex_at (n : nat) (ptr : Z) (ver : Version) (old_value value : Z) :
    SM (ExclusiveMonitor * Mem) StrexStatus :=
  let new_value := to_le e n value in
  let! strex_res := strex ptr ver (
    let! swapped := compare_exchange n ptr old_value new_value in
    sm_ret (if swapped : bool then Ok tt else Err Lost)) in
  sm_ret (match strex_res with Ok _ => StrexStored | Err Lost => StrexFailed end).
End Host.

(** ** The helpers *)

Section Helpers.
Context {Error : Type} (e : Endian) `{LookupCache Error C}.

Record ExecContext := mkContext {
  exclusive_monitor_reservation : option Reservation;
  current_mem_fault : Ffi.FFISafeMemoryFault Error;
}.

Definition initial : ExecContext := mkContext None Ffi.new.

(** What a helper works on: the shared fabric and monitor, and its CPU's
    translation cache and context. *)
Record Cpu := mkCpu {
  cpu_fabric : Fabric; exclusive_monitor : ExclusiveMonitor; tlb : C; context : ExecContext;
}.

Definition on_mmu {A} (op : C -> SM Fabric (A * C)) : SM Cpu A := fun s =>
  match op (tlb s) (cpu_fabric s) with
  | Some ((a, c), f) => Some (a, mkCpu f (exclusive_monitor s) c (context s))
  | None => None
  end.

Definition on_monitor {A} (op : SM (ExclusiveMonitor * Mem) A) : SM Cpu A := fun s =>
  match op (exclusive_monitor s, mem (cpu_fabric s)) with
  | Some (a, (m, v)) => Some (a, mkCpu (Upd.mem v (cpu_fabric s)) m (tlb s) (context s))
  | None => None
  end.

Definition set_fault (op : MemOp) (error : MemoryFault Error) : SM Cpu unit := fun s =>
  match Ffi.set_fault op error (current_mem_fault (context s)) with
  | Some (_, slot) =>
      Some (tt, mkCpu (cpu_fabric s) (exclusive_monitor s) (tlb s)
                  (mkContext (exclusive_monitor_reservation (context s)) slot))
  | None => None
  end.

(** [Option::replace], which [take] and the assignment are cases of. *)
Definition swap_reservation (r : option Reservation) : SM Cpu (option Reservation) := fun s =>
  Some (exclusive_monitor_reservation (context s),
        mkCpu (cpu_fabric s) (exclusive_monitor s) (tlb s) (mkContext r (current_mem_fault (context s)))).

(** [load64_le] ... [load_byte]: the status and what is written to [out]. *)
Definition load_helper (access : C -> IoMMU -> Z -> SM Fabric (Result Z (MemoryFault Error) * C))
    (io_mmu : IoMMU) (addr : Z) : SM Cpu (IoMmuStatus * option Z) :=
  let! r := on_mmu (fun tlb => access tlb io_mmu addr) in
  match r with
  | Ok value => sm_ret (IoMmuOk, Some value)
  | Err error => set_fault Load error ;;! sm_ret (IoMmuFault, None)
  end.

Definition store_helper
    (access : C -> IoMMU -> Z -> Z -> SM Fabric (Result unit (MemoryFault Error) * C))
    (io_mmu : IoMMU) (addr value : Z) : SM Cpu IoMmuStatus :=
  let! r := on_mmu (fun tlb => access tlb io_mmu addr value) in
  match r with
  | Ok _ => sm_ret IoMmuOk
  | Err error => set_fault Store error ;;! sm_ret IoMmuFault
  end.

(** [impl_load_store!] at its four types; [n] is 8, 4, 2 or 1 bytes. *)
Definition ffi_load (n : nat) : IoMMU -> Z -> SM Cpu (IoMmuStatus * option Z) :=
  load_helper (match n with 1%nat => load_byte | _ => load_le e n end).
Definition ffi_store (n : nat) : IoMMU -> Z -> Z -> SM Cpu IoMmuStatus :=
  store_helper (match n with 1%nat => store_byte | _ => store_le e n end).

Definition clrex : SM Cpu unit := let! _ := swap_reservation None in sm_ret tt.

Definition resolve_addr_exclusive (size : Z) (io_mmu : IoMMU) (vaddr : Z) (prot : MemProt) (tlb : C) :
    SM Fabric (Result Z (MemoryFault Error) * C) :=
  let! (r, tlb) := resolve_aligned_scalar_access size tlb io_mmu vaddr in
  match r with
  | Err err => sm_ret (Err err, tlb)
  | Ok (page, offset) =>
      if negb (Flags.contains_any (flags_of page) (Flags.from_prot prot)) then fault tlb vaddr
      else let! p := page_addr page offset in sm_ret (Ok p, tlb)
  end.

(** [make_ld_st_rex_pair!] at its four types. *)
Definition ffi_ldrex (n : nat) (io_mmu : IoMMU) (vaddr : Z) : SM Cpu (IoMmuStatus * option Z) :=
  let! r := on_mmu (resolve_addr_exclusive (Z.of_nat n) io_mmu vaddr Prot.READ) in
  match r with
  | Err err => set_fault Load err ;;! sm_ret (IoMmuFault, None)
  | Ok ptr =>
      let! (value, token) := on_monitor (ldrex_at e n ptr) in
      let! _ := swap_reservation (Some token) in
      sm_ret (IoMmuOk, Some value)
  end.

Definition ffi_strex (n : nat) (io_mmu : IoMMU) (vaddr value : Z) : SM Cpu StrexStatus :=
  let! r := swap_reservation None in
  match r with
  | None => sm_ret StrexFailed
  | Some reservation =>
      match eml_value n (ExclusiveMonitor.value reservation) with
      | None => sm_ret StrexFailed
      | Some old_value =>
          let! r := on_mmu (resolve_addr_exclusive (Z.of_nat n) io_mmu vaddr Prot.WRITE) in
          match r with
          | Err err => set_fault Store err ;;! sm_ret StrexFault
          | Ok ptr => on_monitor (strex_at e n ptr (version reservation) old_value value)
          end
      end
  end.
End Helpers.
Arguments ExecContext : clear implicits.
Arguments Cpu : clear implicits.

(** ** Several CPUs on one memory

    The exclusive accesses of all CPUs at their resolved addresses, in the order
    in which they take effect, with other writes to memory in between. *)

Section Machine.
Context (e : Endian).

Inductive HostOp :=
  | HostLdrex (n : nat) (p : Z)
  | HostStrex (n : nat) (p value : Z)
  | HostClrex
  | HostWrite (p : Z) (bytes : list Z).

Inductive HostAnswer := Loaded (v : Z) | StrexAnswer (s : StrexStatus) | Done.

Record Cluster := mkCluster {
  shared : ExclusiveMonitor * Mem;
  reservations : list (option Reservation);
}.

(** [ffi_ldrex], [ffi_strex] and [clrex] after the address is resolved. *)
Definition host_step (i : nat) (op : HostOp) : SM Cluster HostAnswer := fun s =>
  match op with
  | HostLdrex n p =>
      match ldrex_at e n p (shared s) with
      | Some ((v, tok), sh) => Some (Loaded v, mkCluster sh (<[i := Some tok]> (reservations s)))
      | None => None
      end
  | HostStrex n p v =>
      let s' := mkCluster (shared s) (<[i := None]> (reservations s)) in
      match reservations s !! i with
      | Some (Some r) =>
          match eml_value n (value r) with
          | Some old =>
              match strex_at e n p (version r) old v (shared s) with
              | Some (st, sh) => Some (StrexAnswer st, mkCluster sh (reservations s'))
              | None => None
              end
          | None => Some (StrexAnswer StrexFailed, s')
          end
      | Some None => Some (StrexAnswer StrexFailed, s')
      | None => None
      end
  | HostClrex => Some (Done, mkCluster (shared s) (<[i := None]> (reservations s)))
  | HostWrite p bytes =>
      match store_bytes (shared s).2 p bytes with
      | Some m => Some (Done, mkCluster ((shared s).1, m) (reservations s))
      | None => None
      end
  end.

Fixpoint host_run (l : list (nat * HostOp)) : SM Cluster (list HostAnswer) :=
  match l with
  | [] => sm_ret []
  | (i, op) :: l => let! a := host_step i op in let! r := host_run l in sm_ret (a :: r)
  end.

(** The call of the monitor an operation makes, if any. *)
Definition monitor_call (s : Cluster) (i : nat) (op : HostOp) : option Call :=
  match op with
  | HostLdrex _ p => Some (CallLdrex p)
  | HostStrex n p _ =>
      match reservations s !! i with
      | Some (Some r) =>
          match eml_value n (value r) with
          | Some _ => Some (CallStrex p (version r) (Ok tt))
          | None => None
          end
      | _ => None
      end
  | _ => None
  end.

(** An operation's effect on the monitor is that of its call, and it reports a
    store only if the monitor asked for one. *)
Lemma host_step_call s i op a s' :
  host_step i op s = Some (a, s') ->
  match monitor_call s i op with
  | Some c => exists ev, call c (shared s).1 = Some (ev, (shared s').1) /\
      (a = StrexAnswer StrexStored -> ev = Stored (call_ptr c))
  | None => (shared s').1 = (shared s).1 /\ a <> StrexAnswer StrexStored
  end.
Proof.
  destruct s as [[mon m] rs]. unfold host_step, monitor_call. simpl.
  destruct op as [n p|n p v| |p bytes]; simpl.
  - unfold ldrex_at, sm_bind, call, ldrex, sm_ret. destruct (ptr_lock p mon) as [slot|]; [|done]. simpl.
    destruct (load_ne_aligned_inner e n p m) as [[x m']|]; [|done]. intros [= <- <-].
    by eexists; split.
  - destruct (rs !! i) as [[r|]|]; [|by intros [= <- <-]|done].
    destruct (eml_value n (value r)) as [old|]; [|by intros [= <- <-]].
    unfold strex_at, sm_bind, call, strex, sm_ret. destruct (ptr_lock p mon) as [slot|]; [|done]. simpl.
    destruct (negb _ || negb _); [intros [= <- <-]; eexists; split; [reflexivity|discriminate]|].
    destruct (checked_add 128 (slot_version slot) 1) as [ver|]; [|done].
    destruct (compare_exchange e n p old (to_le e n v) m) as [[b m']|]; [|done].
    destruct b; intros [= <- <-]; (eexists; split; [reflexivity|done]).
  - by intros [= <- <-].
  - destruct (store_bytes m p bytes); [|done]. by intros [= <- <-].
Qed.

Lemma run_app l1 l2 m :
  run (l1 ++ l2) m =
  match run l1 m with
  | Some (h1, m1) => match run l2 m1 with Some (h2, m2) => Some (h1 ++ h2, m2) | None => None end
  | None => None
  end.
Proof.
  revert m. induction l1 as [|c l1 IH]; intros m; simpl.
  { by destruct (run l2 m) as [[]|]. }
  unfold sm_bind. destruct (call c m) as [[ev m']|]; [|done]. rewrite IH.
  destruct (run l1 m') as [[h1 m1]|]; [|done]. unfold sm_ret.
  by destruct (run l2 m1) as [[h2 m2]|].
Qed.

(** The reported stores of a run are among the stores its calls asked for. *)
Lemma host_run_calls l s r s' :
  host_run l s = Some (r, s') ->
  length r = length l /\
  exists cs h, run cs (shared s).1 = Some (h, (shared s').1) /\ (length cs <= length l)%nat /\
    length h = length cs /\
    (forall k i n p v, l !! k = Some (i, HostStrex n p v) -> r !! k = Some (StrexAnswer StrexStored) ->
       Stored p ∈ h).
Proof.
  revert s r. induction l as [|[i op] l IH]; intros s r; simpl.
  { intros [= <- <-]. split; [done|]. exists [], []. done. }
  unfold sm_bind. destruct (host_step i op s) as [[a s1]|] eqn:Hs; [|done].
  destruct (host_run l s1) as [[r1 s2]|] eqn:Hr; [|done]. intros [= <- <-].
  destruct (IH s1 r1 Hr) as (Hlen & cs & h & Hrun & Hcs & Hh & Hst). simpl. split; [lia|].
  pose proof (host_step_call s i op a s1 Hs) as Hcall.
  destruct (monitor_call s i op) as [c|] eqn:Hc.
  - destruct Hcall as (ev & Hev & Hstored). exists (c :: cs), (ev :: h). simpl. unfold sm_bind.
    rewrite Hev, Hrun. split; [done|]. split; [lia|]. split; [lia|].
    intros [|k] j n p v Hk Hak; simpl in Hk, Hak.
    + simplify_eq. rewrite (Hstored eq_refl). apply elem_of_cons. left. f_equal.
      unfold monitor_call in Hc. destruct (reservations s !! j) as [[r|]|]; [|done..].
      destruct (eml_value n (value r)); by simplify_eq.
    + apply elem_of_cons. right. by eapply Hst.
  - destruct Hcall as [Hmon Hne]. exists cs, h. rewrite <- Hmon. split; [done|]. split; [lia|].
    split; [done|]. intros [|k] j n p v Hk Hak; simpl in Hk, Hak; [by simplify_eq|by eapply Hst].
Qed.

(** The operations that leave a CPU's reservation alone. *)
Definition plain (op : HostOp) : Prop := match op with HostWrite _ _ => True | _ => False end.

Definition leaves_reservation (i : nat) (l : list (nat * HostOp)) : Prop :=
  forall j op, (j, op) ∈ l -> j = i -> plain op.

Lemma host_run_reservation i l s r s' :
  leaves_reservation i l -> host_run l s = Some (r, s') -> reservations s' !! i = reservations s !! i.
Proof.
  revert s r. induction l as [|[j op] l IH]; intros s r Hl; simpl.
  { by intros [= <- <-]. }
  unfold sm_bind. destruct (host_step j op s) as [[a s1]|] eqn:Hs; [|done].
  destruct (host_run l s1) as [[r1 s2]|] eqn:Hr; [|done]. intros [= <- <-].
  rewrite (IH s1 r1) by (try done; intros k op' Hin; apply Hl; by apply elem_of_cons; right).
  assert (j = i -> plain op) as Hj by (apply Hl; by apply elem_of_cons; left).
  assert (forall x, <[j := x]> (reservations s) !! i = reservations s !! i \/ j = i) as Hne.
  { intros x. destruct (decide (j = i)); [by right|left; by apply list_lookup_insert_ne]. }
  unfold host_step in Hs. destruct op as [n p|n p v| |p bytes].
  - destruct (ldrex_at e n p (shared s)) as [[[v tok] sh]|]; [|done]. injection Hs as _ <-. simpl.
    by destruct (Hne (Some tok)) as [|Hji]; [|specialize (Hj Hji)].
  - destruct (Hne None) as [Hi|Hji]; [|by specialize (Hj Hji)].
    destruct (reservations s !! j) as [[r0|]|]; [|by injection Hs as _ <-|done].
    destruct (eml_value n (value r0)) as [old|]; [|by injection Hs as _ <-].
    destruct (strex_at e n p (version r0) old v (shared s)) as [[st sh]|]; [|done].
    by injection Hs as _ <-.
  - injection Hs as _ <-. by destruct (Hne None) as [|Hji]; [|specialize (Hj Hji)].
  - destruct (store_bytes (shared s).2 p bytes); [|done]. by injection Hs as _ <-.
Qed.

(** What a successful load-exclusive leaves behind. *)
Lemma host_ldrex_inv i n p s v s' :
  (i < length (reservations s))%nat -> host_step i (HostLdrex n p) s = Some (Loaded v, s') ->
  exists slot l, ptr_lock p (shared s).1 = Some slot /\ p mod Z.of_nat n = 0 /\
    load_bytes (shared s).2 p n = Some l /\ v = to_le e n (from_ne_bytes e l) /\
    call (CallLdrex p) (shared s).1 = Some (Reserved p (slot_version slot), (shared s').1) /\
    (shared s').2 = (shared s).2 /\
    reservations s' !! i = Some (Some (mkReservation (slot_version slot) (eml_of n (from_ne_bytes e l)))).
Proof.
  destruct s as [[mon m] rs]. unfold host_step, ldrex_at, sm_bind, call, ldrex, sm_ret. simpl.
  intros Hi. destruct (ptr_lock p mon) as [slot|]; [|done].
  unfold load_ne_aligned_inner, is_multiple_of. destruct (Z.eqb_spec (p mod Z.of_nat n) 0); [|done].
  destruct (load_bytes m p n) as [l|]; [|done]. intros [= <- <-]. simpl. exists slot, l.
  rewrite list_lookup_insert_eq by done. done.
Qed.

(** A store-exclusive of a reservation of the same width. *)
Lemma host_strex_eq i n p new s ver x :
  exclusive_width n -> reservations s !! i = Some (Some (mkReservation ver (eml_of n x))) ->
  host_step i (HostStrex n p new) s =
  match strex_at e n p ver x new (shared s) with
  | Some (st, sh) => Some (StrexAnswer st, mkCluster sh (<[i := None]> (reservations s)))
  | None => None
  end.
Proof.
  intros Hn Hr. unfold host_step. rewrite Hr. cbn [value]. by rewrite eml_value_of, decide_True by done.
Qed.

(** A compare-and-swap of the value a load returned. *)
Lemma compare_exchange_spec n p x new m l :
  p mod Z.of_nat n = 0 -> load_bytes m p n = Some l ->
  compare_exchange e n p x (to_le e n new) m =
  if from_ne_bytes e l =? x then Some (true, write_bytes m p (to_le_bytes n new)) else Some (false, m).
Proof.
  intros Hp Hl. unfold compare_exchange, sm_bind, load_ne_aligned_inner, store_ne_aligned_inner, is_multiple_of.
  rewrite Hp, Hl. simpl. destruct (from_ne_bytes e l =? x); [|done].
  rewrite to_ne_bytes_to_le. unfold store_bytes, sm_ret. by rewrite length_to_le_bytes, Hl.
Qed.

(** The bytes that read as [to_le] of a native value are its little-endian ones. *)
Lemma native_bytes n l x :
  Forall is_byte l -> length l = n -> from_ne_bytes e l = x -> l = to_le_bytes n (to_le e n x).
Proof.
  intros Hb Hlen <-. rewrite <- (to_ne_bytes_to_le e).
  pose proof (from_ne_bytes_fits e l Hb) as Hf. rewrite Hlen in Hf.
  change (to_le e n (to_le e n (from_ne_bytes e l))) with (from_le e n (to_le e n (from_ne_bytes e l))).
  rewrite from_to_le by done. symmetry. by apply to_from_ne_bytes.
Qed.

Lemma load_bytes_fits m p n l :
  mem_ok m -> load_bytes m p n = Some l -> Forall is_byte l /\ length l = n.
Proof. intros Hm Hl. split; [by eapply load_bytes_is_byte|by eapply load_bytes_length]. Qed.

Lemma versions_below_mono n k m : n <= k -> versions_below k m -> versions_below n m.
Proof. intros Hn Hv. eapply Forall_impl; [exact Hv|]. simpl. lia. Qed.

Lemma strex_at_stored n p ver x new sh sh' :
  strex_at e n p ver x new sh = Some (StrexStored, sh') ->
  compare_exchange e n p x (to_le e n new) sh.2 = Some (true, sh'.2).
Proof.
  destruct sh as [mon m]. unfold strex_at, sm_bind, strex, sm_ret. simpl.
  destruct (ptr_lock p mon) as [slot|]; [|done].
  destruct (negb _ || negb _); [done|]. destruct (checked_add 128 (slot_version slot) 1); [|done].
  destruct (compare_exchange e n p x (to_le e n new) m) as [[[|] m']|]; [|done..].
  by intros [= <-].
Qed.

(** C15: a load-exclusive and the store-exclusive that succeeds are one atomic
    step.  Let a CPU load exclusively, then let the CPUs do anything in any order
    (this CPU only plain stores), and let its store-exclusive at the same address
    and width report success: then no store-exclusive of any CPU in the cache
    line has succeeded in between, memory holds at that moment exactly the value
    that was loaded, and exactly the new value's bytes are written, in guest
    byte order whatever the host's. *)
Theorem exclusive_pair_atomic i n p new v l r s0 s1 s2 s3 :
  exclusive_width n -> (i < length (reservations s0))%nat ->
  monitor_ok (shared s0).1 -> versions_below (Z.of_nat (length l) + 2) (shared s0).1 ->
  mem_ok (shared s0).2 -> mem_ok (shared s2).2 -> leaves_reservation i l ->
  host_step i (HostLdrex n p) s0 = Some (Loaded v, s1) ->
  host_run l s1 = Some (r, s2) ->
  host_step i (HostStrex n p new) s2 = Some (StrexAnswer StrexStored, s3) ->
  (forall k j n' q v', l !! k = Some (j, HostStrex n' q v') -> r !! k = Some (StrexAnswer StrexStored) ->
     q / CACHE_LINE_SIZE <> p / CACHE_LINE_SIZE) /\
  load_bytes (shared s0).2 p n = Some (to_le_bytes n v) /\
  load_bytes (shared s2).2 p n = Some (to_le_bytes n v) /\
  (shared s3).2 = write_bytes (shared s2).2 p (to_le_bytes n new).
Proof.
  intros Hn Hi Hmon Hver Hm0 Hm2 Hl Hld Hrun Hst.
  destruct (host_ldrex_inv i n p s0 v s1 Hi Hld)
    as (slot & l0 & Hslot & Hp & Hl0 & -> & Hcall & Hmem1 & Hres).
  pose proof (host_run_reservation i l s1 r s2 Hl Hrun) as Hres2. rewrite Hres in Hres2.
  destruct (load_bytes_fits _ _ _ _ Hm0 Hl0) as [Hb0 Hlen0].
  destruct (host_run_calls l s1 r s2 Hrun) as (_ & cs & h & Hcs & Hlcs & Hlh & Hstored).
  pose proof (host_step_call s2 i (HostStrex n p new) _ s3 Hst) as Hev.
  unfold monitor_call in Hev. rewrite Hres2 in Hev. cbn [value version] in Hev.
  rewrite eml_value_of, decide_True in Hev by done. destruct Hev as (ev & Hev & Hevs).
  rewrite Hevs in Hev by done. clear Hevs ev.
  split.
  - intros k j n' q v' Hk Hak Hline. pose proof (Hstored k j n' q v' Hk Hak) as Hin.
    destruct (strex_commits_iff (shared s0).1 p cs (Ok tt) slot) as (h' & ev & m' & Hfull & _ & [Hiff _] & _);
      [done|by eapply versions_below_mono; [|exact Hver]; lia|done|].
    assert (run (CallLdrex p :: cs ++ [CallStrex p (slot_version slot) (Ok tt)]) (shared s0).1 =
            Some (Reserved p (slot_version slot) :: h ++ [Stored p], (shared s3).1)) as Hmine.
    { cbn [run]. unfold sm_bind at 1. rewrite Hcall. unfold sm_bind. rewrite run_app, Hcs.
      cbn [run]. unfold sm_bind, sm_ret. by rewrite Hev. }
    rewrite Hmine in Hfull. injection Hfull as Hh _. apply app_inj_tail in Hh as [<- <-].
    destruct (Hiff eq_refl) as [Hno _]. by apply (Hno q Hin), same_line_same_bucket.
  - rewrite (host_strex_eq i n p new s2 (slot_version slot) (from_ne_bytes e l0)) in Hst by done.
    destruct (strex_at e n p _ _ new (shared s2)) as [[st sh]|] eqn:Hat; [|done].
    injection Hst as -> <-. apply strex_at_stored in Hat. cbn [shared].
    destruct (load_bytes (shared s2).2 p n) as [l2|] eqn:Hl2.
    2: { unfold compare_exchange, sm_bind, load_ne_aligned_inner in Hat. rewrite Hl2 in Hat.
         by destruct (is_multiple_of p (Z.of_nat n)). }
    destruct (load_bytes_fits _ _ _ _ Hm2 Hl2) as [Hb2 Hlen2].
    rewrite (compare_exchange_spec n p _ new _ l2 Hp Hl2) in Hat.
    destruct (Z.eqb_spec (from_ne_bytes e l2) (from_ne_bytes e l0)) as [Heq|]; [|done].
    rewrite Hl0, <- (native_bytes n l0 _ Hb0 Hlen0 eq_refl).
    rewrite (native_bytes n l2 _ Hb2 Hlen2 Heq), <- (native_bytes n l0 _ Hb0 Hlen0 eq_refl).
    by injection Hat as <-.
Qed.

(** The address an operation takes to the monitor. *)
Definition exclusive_ptr (op : HostOp) : option Z :=
  match op with HostLdrex _ q | HostStrex _ q _ => Some q | _ => None end.

Lemma call_frame c m ev m' p :
  call c m = Some (ev, m') -> bucket_of (call_ptr c) <> bucket_of p -> ptr_lock p m' = ptr_lock p m.
Proof.
  intros Hc Hne. unfold ptr_lock. destruct c as [q|q ver ans]; simpl in Hne; unfold call, ldrex, strex in Hc.
  - destruct (ptr_lock q m) as [slot|]; [|done]. injection Hc as _ <-.
    by apply list_lookup_insert_ne.
  - destruct (ptr_lock q m) as [slot|]; [|done].
    destruct (negb _ || negb _); [by injection Hc as _ <-|].
    destruct (checked_add 128 (slot_version slot) 1); [|done]. injection Hc as _ <-.
    by apply list_lookup_insert_ne.
Qed.

Lemma host_run_frame l s r s' p :
  (forall j op q, (j, op) ∈ l -> exclusive_ptr op = Some q -> bucket_of q <> bucket_of p) ->
  host_run l s = Some (r, s') -> ptr_lock p (shared s').1 = ptr_lock p (shared s).1.
Proof.
  revert s r. induction l as [|[j op] l IH]; intros s r Hl; simpl; [by intros [= <- <-]|].
  unfold sm_bind. destruct (host_step j op s) as [[a s1]|] eqn:Hs; [|done].
  destruct (host_run l s1) as [[r1 s2]|] eqn:Hr; [|done]. intros [= <- <-].
  rewrite (IH s1 r1) by (try done; intros k op' q Hin; apply (Hl k); by apply elem_of_cons; right).
  pose proof (host_step_call s j op a s1 Hs) as Hc.
  destruct (monitor_call s j op) as [c|] eqn:Hm; [|by destruct Hc as [-> _]].
  destruct Hc as (ev & Hc & _). eapply call_frame; [exact Hc|].
  apply (Hl j op); [by apply elem_of_cons; left|].
  destruct op as [n q|n q v| |]; simpl in Hm |- *; [by simplify_eq| |done..].
  destruct (reservations s !! j) as [[r0|]|]; [|done..].
  destruct (eml_value n (value r0)); by simplify_eq.
Qed.

(** C16: an undisturbed pair succeeds.  If between its load-exclusive and its
    store-exclusive no CPU makes an exclusive access in the monitor's bucket of
    the address and the bytes loaded are unchanged, the store-exclusive reports
    success: no CPU can be kept from making progress by spurious failures of its
    own. *)
Theorem undisturbed_pair_succeeds i n p new v l r s0 s1 s2 :
  exclusive_width n -> (i < length (reservations s0))%nat ->
  versions_below 1 (shared s0).1 -> leaves_reservation i l ->
  (forall j op q, (j, op) ∈ l -> exclusive_ptr op = Some q -> bucket_of q <> bucket_of p) ->
  host_step i (HostLdrex n p) s0 = Some (Loaded v, s1) ->
  host_run l s1 = Some (r, s2) ->
  load_bytes (shared s2).2 p n = load_bytes (shared s0).2 p n ->
  exists s3, host_step i (HostStrex n p new) s2 = Some (StrexAnswer StrexStored, s3) /\
    (shared s3).2 = write_bytes (shared s2).2 p (to_le_bytes n new).
Proof.
  intros Hn Hi Hver Hl Hfar Hld Hrun Hsame.
  destruct (host_ldrex_inv i n p s0 v s1 Hi Hld)
    as (slot & l0 & Hslot & Hp & Hl0 & -> & Hcall & Hmem1 & Hres).
  pose proof (host_run_reservation i l s1 r s2 Hl Hrun) as Hres2. rewrite Hres in Hres2.
  pose proof (host_run_frame l s1 r s2 p Hfar Hrun) as Hlock.
  assert (ptr_lock p (shared s1).1 = Some (mkSlot (Some p) (slot_version slot))) as Hs1.
  { unfold call, ldrex in Hcall. rewrite Hslot in Hcall. simpl in Hcall. injection Hcall as <-.
    apply list_lookup_insert_eq. by eapply lookup_lt_Some. }
  rewrite Hs1 in Hlock. rewrite Hl0 in Hsame.
  rewrite (host_strex_eq i n p new s2 (slot_version slot) (from_ne_bytes e l0)) by done.
  pose proof (Forall_lookup_1 _ _ _ _ Hver Hslot) as [_ Hlt]. simpl in Hlt.
  destruct s2 as [[mon m] rs]. simpl in *. unfold strex_at, sm_bind.
  rewrite (strex_commits p (slot_version slot) _ mon m Hlock Hlt). unfold sm_bind.
  rewrite (compare_exchange_spec n p _ new m l0 Hp Hsame), Z.eqb_refl. unfold sm_ret.
  eexists. split; reflexivity.
Qed.
End Machine.

(** ** The exclusive helpers on guest memory *)

Section Exclusive.
Context {Error : Type} (e : Endian) {C : Type} `{LookupCacheLaws Error C} (m : IoMMU).
Context (f : Fabric) (Hf : fabric_ok f) (Ht : table_ok f (table m)).

Abbreviation tr := (page_of (Error := Error) f (table m)).

Lemma exclusive_width_size n :
  exclusive_width n -> Z.of_nat n = 1 \/ Z.of_nat n = 2 \/ Z.of_nat n = 4 \/ Z.of_nat n = 8.
Proof. unfold exclusive_width, access_width. lia. Qed.

(** Resolving an address: alignment, lookup and permission, then the host
    address of the guest's bytes. *)
Lemma resolve_exclusive_spec n prot c vaddr :
  exclusive_width n -> fits 64 vaddr -> cache_ok c f m ->
  exists r c' f', resolve_addr_exclusive (Z.of_nat n) m vaddr prot c f = Some ((r, c'), f') /\
    same_but_tokens f f' /\ cache_ok c' f' m /\
    match aligned_result (Error := Error) m f (Flags.from_prot prot) (Z.of_nat n) vaddr with
    | Ok _ => exists hp l, r = Ok hp /\ host_addr tr vaddr = Some hp /\ hp mod Z.of_nat n = 0 /\
        load_bytes (mem f) hp n = Some l /\ guest_load tr (mem f) vaddr n = Some l /\
        forall l', length l' = n -> guest_store tr (mem f) vaddr l' = Some (write_bytes (mem f) hp l')
    | Err err => r = Err err
    end.
Proof.
  intros Hn Hv Hc. pose proof (exclusive_width_size n Hn) as Hsz.
  destruct (resolve_spec m f Ht (Z.of_nat n) c vaddr Hsz Hv Hc) as (c1 & f1 & Hr & Hs & Hc1).
  unfold resolve_addr_exclusive, sm_bind at 1. rewrite Hr. unfold aligned_result.
  destruct (is_multiple_of vaddr (Z.of_nat n)) eqn:Hal; cbn [negb]; [|by do 3 eexists].
  destruct (tr (vaddr / 4096)) as [page|err] eqn:Htr; [|by do 3 eexists].
  destruct (page_facts m f Hf Ht _ _ Htr) as (hp & Hp & Hm & Hlive).
  fold (allows (Flags.from_prot prot) page). destruct (allows (Flags.from_prot prot) page); cbn [negb].
  2: { unfold fault, sm_ret. by do 3 eexists. }
  unfold sm_bind. rewrite (page_addr_spec page hp) by done. unfold sm_ret.
  pose proof (Z.mod_pos_bound vaddr 4096 ltac:(lia)) as Hoff. apply Z.eqb_eq in Hal.
  assert (vaddr mod 4096 + Z.of_nat n <= 4096 /\ (hp + vaddr mod 4096) mod Z.of_nat n = 0) as [Hin Hal2].
  { destruct Hm as [(? & Hm0 & ?) _].
    destruct Hsz as [Hz|[Hz|[Hz|Hz]]]; rewrite Hz in *; Z.to_euclidean_division_equations; lia. }
  destruct (page_mapped_sub (mem f) hp (vaddr mod 4096) n Hm) as [l Hl]; [lia|lia|].
  do 3 eexists. split; [reflexivity|]. split; [done|]. split; [done|].
  exists (hp + vaddr mod 4096), l. split; [done|]. split.
  { unfold host_addr. by rewrite Htr, Hp. }
  split; [done|]. split; [done|]. split.
  { rewrite (vaddr_split vaddr) at 1. by rewrite (guest_load_page tr _ page hp Htr Hp) by lia. }
  intros l' Hlen. rewrite (vaddr_split vaddr) at 1. rewrite (guest_store_page tr _ page hp Htr Hp) by (rewrite ?Hlen; eauto with lia).
  done.
Qed.

(** What a load-exclusive answers and leaves in its CPU's state [s']. *)
Definition ldrex_result (n : nat) (vaddr : Z) (s : Cpu Error C) (a : IoMmuStatus * option Z) (s' : Cpu Error C) :
    Prop :=
  match aligned_result (Error := Error) m f Flags.READ (Z.of_nat n) vaddr with
  | Ok _ => exists hp l slot, host_addr tr vaddr = Some hp /\
      guest_load tr (mem f) vaddr n = Some l /\ a = (IoMmuOk, Some (from_le_bytes l)) /\
      ptr_lock hp (exclusive_monitor s) = Some slot /\
      exclusive_monitor s' = <[bucket_of hp := mkSlot (Some hp) (slot_version slot)]> (exclusive_monitor s) /\
      context s' = mkContext (Some (mkReservation (slot_version slot) (eml_of n (from_ne_bytes e l))))
                     (current_mem_fault (context s))
  | Err err => a = (IoMmuFault, None) /\ exclusive_monitor s' = exclusive_monitor s /\
      exclusive_monitor_reservation (context s') = exclusive_monitor_reservation (context s) /\
      Ffi.set_fault Load err (current_mem_fault (context s)) = Some (tt, current_mem_fault (context s'))
  end.

(** Where a store-exclusive gets: past the reservation, past the translation,
    past the monitor, past the comparison. *)
Definition strex_result (n : nat) (vaddr v : Z) (s : Cpu Error C) (st : StrexStatus) (s' : Cpu Error C) : Prop :=
  exclusive_monitor_reservation (context s') = None /\
  match exclusive_monitor_reservation (context s) ≫= (fun r => pair (version r) <$> eml_value n (value r)) with
  | None => st = StrexFailed /\ cpu_fabric s' = f /\ exclusive_monitor s' = exclusive_monitor s /\
      current_mem_fault (context s') = current_mem_fault (context s)
  | Some (ver, old) =>
      match aligned_result (Error := Error) m f Flags.WRITE (Z.of_nat n) vaddr with
      | Err err => st = StrexFault /\ same_but_tokens f (cpu_fabric s') /\
          exclusive_monitor s' = exclusive_monitor s /\
          Ffi.set_fault Store err (current_mem_fault (context s)) = Some (tt, current_mem_fault (context s'))
      | Ok _ => current_mem_fault (context s') = current_mem_fault (context s) /\
          exists hp l, host_addr tr vaddr = Some hp /\ guest_load tr (mem f) vaddr n = Some l /\
          if decide (ptr_lock hp (exclusive_monitor s) = Some (mkSlot (Some hp) ver)) then
            exclusive_monitor s' = <[bucket_of hp := mkSlot (Some hp) (ver + 1)]> (exclusive_monitor s) /\
            if from_ne_bytes e l =? old then
              st = StrexStored /\ exists mem', guest_store tr (mem f) vaddr (to_le_bytes n v) = Some mem' /\
                cpu_fabric s' = Upd.tokens (tokens (cpu_fabric s')) (Upd.mem mem' f)
            else st = StrexFailed /\ same_but_tokens f (cpu_fabric s')
          else st = StrexFailed /\ same_but_tokens f (cpu_fabric s') /\
            exclusive_monitor s' = exclusive_monitor s
      end
  end.

Lemma set_fault_total op err (s : Cpu Error C) :
  Ffi.slot_ok (current_mem_fault (context s)) ->
  exists slot, Ffi.set_fault op err (current_mem_fault (context s)) = Some (tt, slot) /\
    set_fault op err s = Some (tt, mkCpu (cpu_fabric s) (exclusive_monitor s) (tlb s)
                                 (mkContext (exclusive_monitor_reservation (context s)) slot)).
Proof.
  intros Hok. destruct (Ffi.fault_slot_total (current_mem_fault (context s)) op err Hok) as (slot & Hs & _).
  exists slot. unfold set_fault. by rewrite Hs.
Qed.

Lemma upd_mem_same f1 : Upd.mem (mem f1) f1 = f1.
Proof. by destruct f1. Qed.

Lemma ffi_ldrex_spec n vaddr (s : Cpu Error C) :
  exclusive_width n -> fits 64 vaddr -> cpu_fabric s = f -> cache_ok (tlb s) f m ->
  monitor_ok (exclusive_monitor s) -> Ffi.slot_ok (current_mem_fault (context s)) ->
  exists a s', ffi_ldrex e n m vaddr s = Some (a, s') /\ same_but_tokens f (cpu_fabric s') /\
    cache_ok (tlb s') (cpu_fabric s') m /\ ldrex_result n vaddr s a s'.
Proof.
  destruct s as [f0 mon c ctx]. cbn [cpu_fabric tlb exclusive_monitor context].
  intros Hn Hv -> Hc Hmon Hslot.
  destruct (resolve_exclusive_spec n Prot.READ c vaddr Hn Hv Hc) as (r & c1 & f1 & Hr & Hs & Hc1 & Hres).
  unfold ffi_ldrex, sm_bind at 1. unfold on_mmu. cbn [cpu_fabric tlb exclusive_monitor context].
  rewrite Hr. unfold ldrex_result. fold Flags.READ in Hres.
  destruct (aligned_result m f Flags.READ (Z.of_nat n) vaddr) as [[]|err].
  - destruct Hres as (hp & l & -> & Hhp & Hal & Hl & Hg & _).
    destruct (ptr_lock_some mon hp Hmon) as [slot Hlock].
    unfold sm_bind, on_monitor. cbn [cpu_fabric tlb exclusive_monitor context].
    unfold ldrex_at, sm_bind. rewrite (ldrex_spec _ _ _ _ _ _ Hlock), (same_but_tokens_mem f f1 Hs).
    unfold load_ne_aligned_inner, is_multiple_of. rewrite Hal, Hl. simpl. unfold sm_ret.
    rewrite <- (same_but_tokens_mem f f1 Hs), upd_mem_same. do 2 eexists. split; [reflexivity|].
    simpl. split; [done|]. split; [done|]. exists hp, l, slot. rewrite (same_but_tokens_mem f f1 Hs).
    split; [done|]. split; [done|]. split; [|done].
    destruct (load_bytes_fits (mem f) hp n l (proj1 Hf) Hl) as [Hb <-].
    by rewrite <- (from_le_from_ne_bytes e l Hb).
  - subst r. destruct (set_fault_total Load err (mkCpu f1 mon c1 ctx) Hslot) as (sl & Hsl & Hset).
    unfold sm_bind. rewrite Hset. do 2 eexists. split; [reflexivity|]. done.
Qed.

(** [strex_at] on every branch. *)
Lemma strex_at_eq n hp ver old v mon mm l :
  monitor_ok mon -> versions_below 1 mon -> hp mod Z.of_nat n = 0 -> load_bytes mm hp n = Some l ->
  strex_at e n hp ver old v (mon, mm) =
  if decide (ptr_lock hp mon = Some (mkSlot (Some hp) ver)) then
    let mon' := <[bucket_of hp := mkSlot (Some hp) (ver + 1)]> mon in
    if from_ne_bytes e l =? old then Some (StrexStored, (mon', write_bytes mm hp (to_le_bytes n v)))
    else Some (StrexFailed, (mon', mm))
  else Some (StrexFailed, (mon, mm)).
Proof.
  intros Hmon Hver Hal Hl. destruct (ptr_lock_some mon hp Hmon) as [slot Hlock].
  unfold strex_at, sm_bind. rewrite Hlock. case_decide as Hd.
  - simplify_eq. pose proof (Forall_lookup_1 _ _ _ _ Hver Hlock) as [_ Hlt]. simpl in Hlt.
    rewrite (strex_commits hp ver _ mon mm Hlock Hlt). unfold sm_bind.
    rewrite (compare_exchange_spec e n hp old v mm l Hal Hl). by destruct (from_ne_bytes e l =? old).
  - by rewrite (strex_loses hp ver _ mon mm slot Hlock) by congruence.
Qed.

Lemma ffi_strex_spec n vaddr v (s : Cpu Error C) :
  exclusive_width n -> fits 64 vaddr -> cpu_fabric s = f -> cache_ok (tlb s) f m ->
  monitor_ok (exclusive_monitor s) -> versions_below 1 (exclusive_monitor s) ->
  Ffi.slot_ok (current_mem_fault (context s)) ->
  exists st s', ffi_strex e n m vaddr v s = Some (st, s') /\
    cache_ok (tlb s') (cpu_fabric s') m /\ strex_result n vaddr v s st s'.
Proof.
  destruct s as [f0 mon c [res slot]]. cbn [cpu_fabric tlb exclusive_monitor context current_mem_fault].
  intros Hn Hv -> Hc Hmon Hver Hslot. unfold strex_result. cbn [context exclusive_monitor_reservation].
  unfold ffi_strex, sm_bind at 1, swap_reservation. cbn [cpu_fabric tlb exclusive_monitor context
    exclusive_monitor_reservation current_mem_fault].
  destruct res as [res|]; simpl; [|by do 2 eexists].
  destruct (eml_value n (value res)) as [old|]; simpl; [|by do 2 eexists].
  destruct (resolve_exclusive_spec n Prot.WRITE c vaddr Hn Hv Hc) as (r & c1 & f1 & Hr & Hs & Hc1 & Hres).
  unfold sm_bind at 1, on_mmu. cbn [cpu_fabric tlb exclusive_monitor context]. rewrite Hr.
  fold Flags.WRITE in Hres.
  destruct (aligned_result m f Flags.WRITE (Z.of_nat n) vaddr) as [[]|err].
  - destruct Hres as (hp & l & -> & Hhp & Hal & Hl & Hg & Hst).
    unfold on_monitor. cbn [cpu_fabric tlb exclusive_monitor context].
    rewrite (same_but_tokens_mem f f1 Hs), (strex_at_eq n hp (version res) old v mon (mem f) l) by done.
    case_decide as Hd; [destruct (from_ne_bytes e l =? old) eqn:Heq|]; cbv zeta.
    + assert (Upd.mem (write_bytes (mem f) hp (to_le_bytes n v)) f1 =
              Upd.tokens (tokens f1) (Upd.mem (write_bytes (mem f) hp (to_le_bytes n v)) f)) as Hf1
        by by rewrite Hs.
      do 2 eexists. split; [reflexivity|]. cbn. split.
      { eapply (cache_ok_stable c1 f1); [done|done|]. intros p.
        rewrite (get_page_layout f1); [done|]. rewrite Hf1, Hs. done. }
      split; [done|]. split; [done|]. exists hp, l. split; [done|]. split; [done|].
      rewrite decide_True by done. rewrite Heq. split; [done|]. split; [done|].
      eexists. split; [by apply Hst, length_to_le_bytes|exact Hf1].
    + rewrite <- (same_but_tokens_mem f f1 Hs), upd_mem_same. do 2 eexists. split; [reflexivity|].
      cbn. split; [done|]. split; [done|]. split; [done|]. exists hp, l. split; [done|]. split.
      { by rewrite (same_but_tokens_mem f f1 Hs). }
      rewrite decide_True by done. by rewrite Heq.
    + rewrite <- (same_but_tokens_mem f f1 Hs), upd_mem_same. do 2 eexists. split; [reflexivity|].
      cbn. split; [done|]. split; [done|]. split; [done|]. exists hp, l. split; [done|]. split.
      { by rewrite (same_but_tokens_mem f f1 Hs). }
      by rewrite decide_False.
  - subst r.
    destruct (set_fault_total Store err (mkCpu f1 mon c1 (mkContext None slot)) Hslot) as (sl & Hsl & Hset).
    unfold sm_bind. rewrite Hset. do 2 eexists. split; [reflexivity|]. done.
Qed.

(** C17: the exclusive helpers, on every branch.  [ldrex] faults exactly as an
    aligned load and records its fault; otherwise it returns the little-endian
    value of the guest bytes and reserves their host address.  [strex] always
    gives its CPU's reservation up; it fails without touching memory when there
    is none, when it is of another width, when the monitor has lost it or when
    the bytes have changed, it faults as an aligned store, and otherwise it
    stores exactly the value's little-endian bytes.  It never marks the page
    dirty.  Neither helper can run into undefined behaviour. *)
Theorem exclusive_helpers_correct n vaddr v (s : Cpu Error C) :
  exclusive_width n -> fits 64 vaddr -> cpu_fabric s = f -> cache_ok (tlb s) f m ->
  monitor_ok (exclusive_monitor s) -> versions_below 1 (exclusive_monitor s) ->
  Ffi.slot_ok (current_mem_fault (context s)) ->
  (exists a s', ffi_ldrex e n m vaddr s = Some (a, s') /\ same_but_tokens f (cpu_fabric s') /\
     cache_ok (tlb s') (cpu_fabric s') m /\ ldrex_result n vaddr s a s') /\
  (exists st s', ffi_strex e n m vaddr v s = Some (st, s') /\
     cache_ok (tlb s') (cpu_fabric s') m /\ strex_result n vaddr v s st s').
Proof. intros. split; [by apply ffi_ldrex_spec|by apply ffi_strex_spec]. Qed.

(** What a load or store of [n] bytes answers. *)
Definition helper_result (req : MemFlags) (n : nat) (vaddr : Z) : Result unit (MemoryFault Error) :=
  match n with 1%nat => aligned_result m f req 1 vaddr | _ => scalar_result m f req n vaddr end.

(** A fault was recorded, the rest of the context is as it was. *)
Definition recorded (op : MemOp) (err : MemoryFault Error) (s s' : Cpu Error C) : Prop :=
  exclusive_monitor_reservation (context s') = exclusive_monitor_reservation (context s) /\
  Ffi.set_fault op err (current_mem_fault (context s)) = Some (tt, current_mem_fault (context s')).

Lemma load_helper_spec access vaddr (s : Cpu Error C) r c' f' :
  Ffi.slot_ok (current_mem_fault (context s)) ->
  access (tlb s) m vaddr (cpu_fabric s) = Some ((r, c'), f') ->
  exists a s', load_helper access m vaddr s = Some (a, s') /\ cpu_fabric s' = f' /\ tlb s' = c' /\
    exclusive_monitor s' = exclusive_monitor s /\
    match r with
    | Ok x => a = (IoMmuOk, Some x) /\ context s' = context s
    | Err err => a = (IoMmuFault, None) /\ recorded Load err s s'
    end.
Proof.
  intros Hslot Ha. unfold load_helper, sm_bind, on_mmu. rewrite Ha. destruct r as [x|err].
  - do 2 eexists. split; [reflexivity|]. done.
  - destruct (set_fault_total Load err (mkCpu f' (exclusive_monitor s) c' (context s)) Hslot) as (sl & Hsl & ->).
    do 2 eexists. split; [reflexivity|]. done.
Qed.

Lemma store_helper_spec access vaddr v (s : Cpu Error C) r c' f' :
  Ffi.slot_ok (current_mem_fault (context s)) ->
  access (tlb s) m vaddr v (cpu_fabric s) = Some ((r, c'), f') ->
  exists a s', store_helper access m vaddr v s = Some (a, s') /\ cpu_fabric s' = f' /\ tlb s' = c' /\
    exclusive_monitor s' = exclusive_monitor s /\
    match r with
    | Ok _ => a = IoMmuOk /\ context s' = context s
    | Err err => a = IoMmuFault /\ recorded Store err s s'
    end.
Proof.
  intros Hslot Ha. unfold store_helper, sm_bind, on_mmu. rewrite Ha. destruct r as [[]|err].
  - do 2 eexists. split; [reflexivity|]. done.
  - destruct (set_fault_total Store err (mkCpu f' (exclusive_monitor s) c' (context s)) Hslot) as (sl & Hsl & ->).
    do 2 eexists. split; [reflexivity|]. done.
Qed.

Lemma ffi_load_access n c vaddr :
  exclusive_width n -> fits 64 vaddr -> cache_ok c f m ->
  exists r c' f', (match n with 1%nat => load_byte | _ => load_le e n end) c m vaddr f = Some ((r, c'), f') /\
    same_but_tokens f f' /\ cache_ok c' f' m /\
    match helper_result Flags.READ n vaddr with
    | Ok _ => exists l, guest_load tr (mem f) vaddr n = Some l /\ r = Ok (from_le_bytes l)
    | Err err => r = Err err
    end.
Proof.
  intros [->|Hn] Hv Hc.
  - destruct (load_byte_spec m f Hf Ht c vaddr Hv Hc) as (r & c' & f' & ? & ? & ? & Hr).
    exists r, c', f'. split; [done|]. split; [done|]. split; [done|]. unfold helper_result.
    destruct (aligned_result m f Flags.READ 1 vaddr); [|done]. destruct Hr as (b & Hb & ->).
    exists [b]. simpl. rewrite Hb, Z.add_0_r. done.
  - pose proof (load_le_scalar_spec e m f Hf Ht n c vaddr Hn Hv Hc) as Hr.
    by destruct Hn as [->|[->| ->]].
Qed.

Lemma ffi_store_access n c vaddr v :
  exclusive_width n -> fits 64 vaddr -> fits (bits_of_bytes n) v -> cache_ok c f m ->
  exists r c' f', (match n with 1%nat => store_byte | _ => store_le e n end) c m vaddr v f =
      Some ((r, c'), f') /\
    cache_ok c' f' m /\ r = helper_result Flags.WRITE n vaddr /\
    match r with
    | Ok _ => stored (Error := Error) m f vaddr (to_le_bytes n v) (scalar_pages n vaddr) f'
    | Err _ => same_but_tokens f f'
    end.
Proof.
  intros [->|Hn] Hv Hvv Hc.
  - destruct (store_byte_scalar_spec m f Hf Ht c vaddr v Hv Hc) as (r & c' & f' & ? & ? & Hr & Hst).
    exists r, c', f'. split; [done|]. split; [done|]. split; [done|].
    destruct r; [|done]. simpl. rewrite Z.mod_small by exact Hvv.
    pose proof (Z.mod_pos_bound vaddr 4096 ltac:(lia)). unfold scalar_pages.
    by rewrite (proj2 (Z.leb_le _ _)) by lia.
  - pose proof (store_le_scalar_spec e m f Hf Ht n c vaddr v Hn Hv Hc) as Hr.
    by destruct Hn as [->|[->| ->]].
Qed.

(** C18: the load and store helpers compiled code calls return [Ok] or [Fault]
    exactly as the access does; the value or the bytes are those of guest
    memory, a fault is in the context's slot with its operation, and nothing
    else of the context or the monitor changes. *)
Theorem load_store_helpers_correct n vaddr v (s : Cpu Error C) :
  exclusive_width n -> fits 64 vaddr -> fits (bits_of_bytes n) v ->
  cpu_fabric s = f -> cache_ok (tlb s) f m -> Ffi.slot_ok (current_mem_fault (context s)) ->
  (exists a s', ffi_load e n m vaddr s = Some (a, s') /\ same_but_tokens f (cpu_fabric s') /\
     cache_ok (tlb s') (cpu_fabric s') m /\ exclusive_monitor s' = exclusive_monitor s /\
     match helper_result Flags.READ n vaddr with
     | Ok _ => exists l, guest_load tr (mem f) vaddr n = Some l /\
         a = (IoMmuOk, Some (from_le_bytes l)) /\ context s' = context s
     | Err err => a = (IoMmuFault, None) /\ recorded Load err s s'
     end) /\
  (exists a s', ffi_store e n m vaddr v s = Some (a, s') /\
     cache_ok (tlb s') (cpu_fabric s') m /\ exclusive_monitor s' = exclusive_monitor s /\
     match helper_result Flags.WRITE n vaddr with
     | Ok _ => a = IoMmuOk /\ context s' = context s /\
         stored (Error := Error) m f vaddr (to_le_bytes n v) (scalar_pages n vaddr) (cpu_fabric s')
     | Err err => a = IoMmuFault /\ same_but_tokens f (cpu_fabric s') /\ recorded Store err s s'
     end).
Proof.
  intros Hn Hv Hvv Hfab Hc Hslot. rewrite <- Hfab in Hc. split.
  - rewrite Hfab in Hc. destruct (ffi_load_access n (tlb s) vaddr Hn Hv Hc) as (r & c' & f' & Ha & Hs & Hc' & Hr).
    rewrite <- Hfab in Ha at 1. destruct (load_helper_spec _ vaddr s r c' f' Hslot Ha) as (a & s' & Hh & Hf' & <- & Hm & Hres).
    exists a, s'. rewrite Hf'. split; [exact Hh|]. split; [done|]. split; [done|]. split; [done|].
    destruct (helper_result Flags.READ n vaddr); [|by subst r].
    destruct Hr as (l & Hl & ->). by exists l.
  - rewrite Hfab in Hc. destruct (ffi_store_access n (tlb s) vaddr v Hn Hv Hvv Hc) as (r & c' & f' & Ha & Hc' & Hr & Hst).
    rewrite <- Hfab in Ha at 1.
    destruct (store_helper_spec _ vaddr v s r c' f' Hslot Ha) as (a & s' & Hh & Hf' & <- & Hm & Hres).
    exists a, s'. rewrite Hf', <- Hr. split; [exact Hh|]. split; [done|]. split; [done|].
    destruct r; [by destruct Hres|by destruct Hres].
Qed.
End Exclusive.

(** ** Sample runs *)

Section Sample.

Definition sample_cluster : Cluster :=
  mkCluster (init, write_bytes ∅ 64 [1; 2; 3; 4; 5; 6; 7; 8]) [None; None].

(** The other CPU reserves the same word, loses another reservation and writes
    elsewhere. *)
Definition sample_interleaving : list (nat * HostOp) :=
  [(1%nat, HostLdrex 4 64); (1%nat, HostClrex); (1%nat, HostStrex 4 64 9); (0%nat, HostWrite 70 [0])].

Definition cluster_state {A} (r : option (A * Cluster)) : Cluster :=
  match r with Some (_, s) => s | None => sample_cluster end.
Definition cluster1 : Cluster := cluster_state (host_step Big 0 (HostLdrex 4 64) sample_cluster).
Definition cluster2 : Cluster := cluster_state (host_run Big sample_interleaving cluster1).
Definition cluster3 : Cluster := cluster_state (host_step Big 0 (HostStrex 4 64 258) cluster2).

Lemma write_bytes_all_ok p l : Forall is_byte l -> mem_ok (write_bytes ∅ p l).
Proof. intros. apply write_bytes_ok; [by apply map_Forall_empty|done]. Qed.

Lemma sample_mem_ok : mem_ok (shared sample_cluster).2 /\ mem_ok (shared cluster2).2.
Proof.
  split.
  - apply write_bytes_all_ok. repeat constructor; by vm_compute.
  - assert ((shared cluster2).2 = write_bytes ∅ 64 [1; 2; 3; 4; 5; 6; 0; 8]) as -> by by vm_compute.
    apply write_bytes_all_ok. repeat constructor; by vm_compute.
Qed.

Lemma init_versions n : n < 2 ^ 128 -> versions_below n init.
Proof. intros. apply Forall_replicate. simpl. lia. Qed.

Lemma sample_leaves : leaves_reservation 0 sample_interleaving.
Proof.
  intros j op Hin ->. unfold sample_interleaving in Hin.
  rewrite !elem_of_cons in Hin. destruct Hin as [|[|[|[|Hin]]]]; simplify_eq; [done|].
  by apply elem_of_nil in Hin.
Qed.

Lemma exclusive_pair_atomic_witness :
  host_run Big sample_interleaving cluster1 =
    Some ([Loaded 67305985; Done; StrexAnswer StrexFailed; Done], cluster2) /\
  (forall k j n' q v', sample_interleaving !! k = Some (j, HostStrex n' q v') ->
     [Loaded 67305985; Done; StrexAnswer StrexFailed; Done] !! k = Some (StrexAnswer StrexStored) ->
     q / CACHE_LINE_SIZE <> 64 / CACHE_LINE_SIZE) /\
  load_bytes (shared sample_cluster).2 64 4 = Some (to_le_bytes 4 67305985) /\
  load_bytes (shared cluster2).2 64 4 = Some (to_le_bytes 4 67305985) /\
  (shared cluster3).2 = write_bytes (shared cluster2).2 64 (to_le_bytes 4 258).
Proof.
  split; [by vm_compute|].
  apply (exclusive_pair_atomic Big 0 4 64 258 67305985 sample_interleaving
    [Loaded 67305985; Done; StrexAnswer StrexFailed; Done] sample_cluster cluster1 cluster2 cluster3).
  - right. right. by left.
  - simpl. lia.
  - apply init_ok.
  - by apply init_versions.
  - apply sample_mem_ok.
  - apply sample_mem_ok.
  - apply sample_leaves.
  - by vm_compute.
  - by vm_compute.
  - by vm_compute.
Defined.

Lemma undisturbed_pair_succeeds_witness :
  bucket_of 4096 <> bucket_of 64 /\
  exists s3, host_step Big 0 (HostStrex 4 64 258)
      (cluster_state (host_run Big [(0%nat, HostWrite 70 [0])] cluster1)) =
      Some (StrexAnswer StrexStored, s3) /\
    (shared s3).2 = write_bytes
      (shared (cluster_state (host_run Big [(0%nat, HostWrite 70 [0])] cluster1))).2 64 (to_le_bytes 4 258).
Proof.
  split; [by vm_compute|].
  apply (undisturbed_pair_succeeds Big 0 4 64 258 67305985 [(0%nat, HostWrite 70 [0])] [Done]
           sample_cluster cluster1).
  - right. right. by left.
  - simpl. lia.
  - by apply init_versions.
  - intros j op Hin _. apply list_elem_of_singleton in Hin. by simplify_eq.
  - intros j op q Hin Hq. apply list_elem_of_singleton in Hin. by simplify_eq.
  - by vm_compute.
  - by vm_compute.
  - by vm_compute.
Defined.

Definition sample_cpu : Cpu Empty_set NoCache :=
  mkCpu demo_fabric init TheNoCache
    (mkContext (Some (mkReservation 0 (U32 117901063))) Ffi.new).

Lemma sample_slot_ok : Ffi.slot_ok (current_mem_fault (context sample_cpu)).
Proof. reflexivity. Qed.

Lemma exclusive_helpers_correct_witness :
  aligned_result (Error := Empty_set) demo_mmu demo_fabric Flags.READ 4 4096 = Ok tt /\
  (exists a s', ffi_ldrex Little 4 demo_mmu 4096 sample_cpu = Some (a, s') /\
     same_but_tokens demo_fabric (cpu_fabric s') /\
     cache_ok (Error := Empty_set) (tlb s') (cpu_fabric s') demo_mmu /\
     ldrex_result Little demo_mmu demo_fabric 4 4096 sample_cpu a s') /\
  (exists st s', ffi_strex Little 4 demo_mmu 4096 1 sample_cpu = Some (st, s') /\
     cache_ok (Error := Empty_set) (tlb s') (cpu_fabric s') demo_mmu /\
     strex_result Little demo_mmu demo_fabric 4 4096 1 sample_cpu st s').
Proof.
  split; [by vm_compute|].
  apply (exclusive_helpers_correct Little demo_mmu demo_fabric demo_fabric_ok demo_table_ok 4 4096 1 sample_cpu).
  - right. right. by left.
  - by vm_compute.
  - reflexivity.
  - apply demo_cache_ok.
  - apply init_ok.
  - by apply init_versions.
  - apply sample_slot_ok.
Defined.

Lemma load_store_helpers_correct_witness :
  helper_result (Error := Empty_set) demo_mmu demo_fabric Flags.WRITE 4 8192 = Err (general_protection 8192) /\
  (exists a s', ffi_load Little 4 demo_mmu 8192 sample_cpu = Some (a, s') /\
     same_but_tokens demo_fabric (cpu_fabric s') /\
     cache_ok (Error := Empty_set) (tlb s') (cpu_fabric s') demo_mmu /\
     exclusive_monitor s' = exclusive_monitor sample_cpu /\
     match helper_result demo_mmu demo_fabric Flags.READ 4 8192 with
     | Ok _ => exists l, guest_load (page_of (Error := Empty_set) demo_fabric (table demo_mmu))
           (mem demo_fabric) 8192 4 = Some l /\
         a = (IoMmuOk, Some (from_le_bytes l)) /\ context s' = context sample_cpu
     | Err err => a = (IoMmuFault, None) /\ recorded Load err sample_cpu s'
     end) /\
  (exists a s', ffi_store Little 4 demo_mmu 8192 1 sample_cpu = Some (a, s') /\
     cache_ok (Error := Empty_set) (tlb s') (cpu_fabric s') demo_mmu /\
     exclusive_monitor s' = exclusive_monitor sample_cpu /\
     match helper_result demo_mmu demo_fabric Flags.WRITE 4 8192 with
     | Ok _ => a = IoMmuOk /\ context s' = context sample_cpu /\
         stored (Error := Empty_set) demo_mmu demo_fabric 8192 (to_le_bytes 4 1) (scalar_pages 4 8192)
           (cpu_fabric s')
     | Err err => a = IoMmuFault /\ same_but_tokens demo_fabric (cpu_fabric s') /\
         recorded Store err sample_cpu s'
     end).
Proof.
  split; [by vm_compute|].
  apply (load_store_helpers_correct Little demo_mmu demo_fabric demo_fabric_ok demo_table_ok 4 8192 1 sample_cpu).
  - right. right. by left.
  - by vm_compute.
  - by vm_compute.
  - reflexivity.
  - apply demo_cache_ok.
  - apply sample_slot_ok.
Defined.
End Sample.
