(* ===== verification/RefCount.v ===== *)
(** * Ownership of pages and slots

    What keeps the shared state of [Fabric.v] alive: the reference counts of
    pages and object slots are exactly the references the page tables, the
    resident slots and the zero-page cell hold.  [fabric_inv base f l] states it
    for the list [l] of all page sources in existence, in any order; [keeps]
    states what an operation leaves alone.  The lemmas give every operation of
    [Fabric.v] its effect on both. *)

From S2P Require Import Prelude Convert MemTypes Fault Memops ObjectQueue Fabric PageTable.
Local Open Scope Z_scope.
Local Open Scope emu_scope.

(** ** Sums over maps *)

Definition sum_map {V} (g : V -> nat) (m : gmap positive V) : nat :=
  sum_list_with (fun kv => g kv.2) (map_to_list m).

Lemma sum_map_empty {V} (g : V -> nat) : sum_map g ∅ = 0%nat.
Proof. unfold sum_map. by rewrite map_to_list_empty. Qed.

Lemma sum_map_insert_new {V} (g : V -> nat) m k v :
  m !! k = None -> sum_map g (<[k := v]> m) = (g v + sum_map g m)%nat.
Proof. intros Hk. unfold sum_map. by rewrite map_to_list_insert. Qed.

Lemma sum_map_delete {V} (g : V -> nat) m k v :
  m !! k = Some v -> sum_map g m = (g v + sum_map g (delete k m))%nat.
Proof.
  intros Hk. rewrite <- (insert_delete_id m k v Hk) at 1.
  by rewrite sum_map_insert_new by apply lookup_delete_eq.
Qed.

Lemma sum_map_insert {V} (g : V -> nat) m k v v' :
  m !! k = Some v -> (sum_map g (<[k := v']> m) + g v = g v' + sum_map g m)%nat.
Proof.
  intros Hk. rewrite <- insert_delete_eq, sum_map_insert_new by apply lookup_delete_eq.
  rewrite (sum_map_delete g m k v Hk). lia.
Qed.

(** ** References *)

Definition page_refs (id : positive) (s : PageSource) : nat :=
  match s with
  | Shared p | Private p _ => if decide (p = id) then 1 else 0
  | Object _ _ => 0
  end.

Definition slot_refs (sid : positive) (s : PageSource) : nat :=
  match s with
  | Object slot _ => if decide (slot = sid) then 1 else 0
  | _ => 0
  end.

Definition cell_ref (id : positive) (a : Arc ObjectSlot) : nat :=
  if decide (slot_page (value a) = Some id) then 1 else 0.

Definition zero_ref (f : Fabric) (id : positive) : nat :=
  if decide (zero_page_cell f = Some id) then 1 else 0.

(** All references to a page: the sources', the resident slots', the zero-page
    cell's. *)
Definition page_refcount (f : Fabric) (l : list PageSource) (id : positive) : nat :=
  sum_list_with (page_refs id) l + sum_map (cell_ref id) (slots f) + zero_ref f id.
Definition slot_refcount (l : list PageSource) (sid : positive) : nat :=
  sum_list_with (slot_refs sid) l.

(** The contents of a slot's cell and of a page's allocation, without counts. *)
Definition cell_of (f : Fabric) (sid : positive) : option (option positive) :=
  (fun a => slot_page (value a)) <$> slots f !! sid.
Definition page_at (f : Fabric) (id : positive) : option MemoryBackedPage :=
  value <$> pages f !! id.

#[global] Arguments page_refcount : simpl never.
#[global] Arguments slot_refcount : simpl never.

(** The allocator's pages lie between [base] and [next_page]; the embedder's
    pages lie below [base]. *)
Definition placed (base : Z) (f : Fabric) (b : MemoryBackedPage) : Prop :=
  page_mapped (mem f) (allocated_page b) /\ has_fabric b = true /\
  if should_dealloc b
  then base <= allocated_page b /\ allocated_page b + 4096 <= next_page f
  else allocated_page b + 4096 <= base.

Record fabric_inv (base : Z) (f : Fabric) (l : list PageSource) : Prop := {
  inv_mem : mem_ok (mem f);
  inv_base : 0 < base /\ base mod 4096 = 0;
  inv_next : base <= next_page f /\ next_page f mod 4096 = 0 /\ next_page f <= 2 ^ 64;
  inv_page : forall id a, pages f !! id = Some a ->
    strong a = page_refcount f l id /\ (0 < strong a)%nat /\ placed base f (value a);
  inv_dead : forall id, pages f !! id = None -> page_refcount f l id = 0%nat;
  inv_distinct : forall id1 id2 b1 b2,
    page_at f id1 = Some b1 -> page_at f id2 = Some b2 ->
    should_dealloc b1 = true -> should_dealloc b2 = true ->
    allocated_page b1 = allocated_page b2 -> id1 = id2;
  inv_slot : forall sid a, slots f !! sid = Some a ->
    strong a = slot_refcount l sid /\ (strong a = 0%nat -> slot_page (value a) = None);
  inv_no_slot : forall sid, slots f !! sid = None -> slot_refcount l sid = 0%nat;
}.

#[export] Instance fabric_inv_proper base f :
  Proper ((≡ₚ) ==> iff) (fabric_inv base f).
Proof.
  enough (forall l l' : list PageSource, l ≡ₚ l' -> fabric_inv base f l -> fabric_inv base f l').
  { intros l l' Hl. split; eauto. apply H. by symmetry. }
  intros l l' Hl [Hm Hb Hn Hp Hd Hx Hs Hns].
  assert (forall id, page_refcount f l' id = page_refcount f l id) as Hc.
  { intros id. unfold page_refcount. by rewrite Hl. }
  assert (forall id, slot_refcount l' id = slot_refcount l id) as Hsc.
  { intros id. unfold slot_refcount. by rewrite Hl. }
  constructor; try done; intros; rewrite ?Hc, ?Hsc in *; eauto.
Qed.

(** What a source refers to: the page's name and the page, if it is resident. *)
Definition source_at (f : Fabric) (s : PageSource) : option (positive * MemoryBackedPage) :=
  match entry_page f (mkPageEntry s Prot.NONE) with
  | Some id => match pages f !! id with Some a => Some (id, value a) | None => None end
  | None => None
  end.

Definition page_bytes (f : Fabric) (b : MemoryBackedPage) : option (list Z) :=
  load_bytes (mem f) (allocated_page b) PAGE_BYTES.

(** The bytes a source shows. *)
Definition source_bytes (f : Fabric) (s : PageSource) : option (list Z) :=
  match source_at f s with Some (_, b) => page_bytes f b | None => None end.

(** The zero page, as a source. *)
Definition zero_source (f : Fabric) : list PageSource :=
  match zero_page_cell f with Some id => [Private id true] | None => [] end.

Definition ZERO_BYTES : list Z := replicate PAGE_BYTES 0.

Lemma ZERO_BYTES_ok : length ZERO_BYTES = PAGE_BYTES /\ Forall is_byte ZERO_BYTES.
Proof.
  split; [apply length_replicate|]. apply Forall_replicate. unfold is_byte, fits. lia.
Qed.

Lemma ZERO_BYTES_lookup i : 0 <= i < 4096 -> ZERO_BYTES !! Z.to_nat i = Some 0.
Proof. intros Hi. apply lookup_replicate. split; [done|]. pose proof PAGE_BYTES_Z. lia. Qed.

(** Unification must not unfold it. *)
#[global] Opaque ZERO_BYTES.

(** Nobody has written to the zero page. *)
Definition zero_clean (f : Fabric) : Prop :=
  forall id b, zero_page_cell f = Some id -> page_at f id = Some b ->
    page_bytes f b = Some ZERO_BYTES.

(** An operation leaves the sources [l] alone: they refer to the same pages and
    show the same bytes.  The zero page stays what it is, and clean, and the
    embedder's memory and the identifiers are not touched. *)
Record keeps (base : Z) (l : list PageSource) (f f' : Fabric) : Prop := {
  keeps_source : forall s, s ∈ l ++ zero_source f ->
    source_at f' s = source_at f s /\ source_bytes f' s = source_bytes f s;
  keeps_zero : zero_page_cell f <> None -> zero_page_cell f' = zero_page_cell f;
  keeps_clean : zero_clean f -> zero_clean f';
  keeps_host : forall a, a < base -> mem f' !! a = mem f !! a;
  keeps_tokens : tokens f' = tokens f;
}.

Lemma keeps_refl {base} l f : keeps base l f f.
Proof. split; auto. Qed.

Lemma keeps_trans {base} l f1 f2 f3 : keeps base l f1 f2 -> keeps base l f2 f3 -> keeps base l f1 f3.
Proof.
  intros [H1 Z1 C1 B1 T1] [H2 Z2 C2 B2 T2].
  split; [| |auto|by intros a Ha; rewrite B2, B1|by rewrite T2].
  - intros s Hs. destruct (H1 s Hs) as [<- <-]. apply H2.
    apply elem_of_app in Hs. apply elem_of_app. destruct Hs as [|Hs]; [by left|right].
    unfold zero_source in *. destruct (zero_page_cell f1) eqn:E; [by rewrite Z1|by apply elem_of_nil in Hs].
  - intros Hz. rewrite Z2; [by apply Z1|]. by rewrite Z1.
Qed.

Lemma keeps_mono {base} l l' f f' : l' ⊆ l -> keeps base l f f' -> keeps base l' f f'.
Proof.
  intros Hl [H1 Z1 C1 B1 T1]. split; [|done..]. intros s Hs. apply H1.
  apply elem_of_app in Hs. apply elem_of_app. destruct Hs; [left; by apply Hl|by right].
Qed.

(** ** Consequences of the invariant *)

Lemma sum_list_with_elem {A} (g : A -> nat) x l : x ∈ l -> (g x <= sum_list_with g l)%nat.
Proof. apply sum_list_with_in. Qed.

Lemma sum_map_elem {V} (g : V -> nat) m k v : m !! k = Some v -> (g v <= sum_map g m)%nat.
Proof. intros Hk. rewrite (sum_map_delete g m k v Hk). lia. Qed.

(** The page a source refers to directly. *)
Definition source_page (s : PageSource) : option positive :=
  match s with Shared p | Private p _ => Some p | Object _ _ => None end.

Lemma page_refs_source s id : page_refs id s = if decide (source_page s = Some id) then 1%nat else 0%nat.
Proof. destruct s; simpl; repeat case_decide; congruence. Qed.

Lemma slot_refs_source s id sid : source_page s = Some id -> slot_refs sid s = 0%nat.
Proof. by destruct s. Qed.

Section Facts.
Context {base : Z} {f : Fabric} {l : list PageSource} (Hinv : fabric_inv base f l).

Lemma counted_live id : (0 < page_refcount f l id)%nat -> is_Some (pages f !! id).
Proof.
  intros Hc. destruct (pages f !! id) eqn:E; [eauto|]. rewrite (inv_dead _ _ _ Hinv id E) in Hc. lia.
Qed.

Lemma counted_slot sid : (0 < slot_refcount l sid)%nat ->
  exists n s, slots f !! sid = Some (mkArc (S n) s) /\ S n = slot_refcount l sid.
Proof.
  intros Hc. destruct (slots f !! sid) as [[n s]|] eqn:E.
  - destruct (inv_slot _ _ _ Hinv sid _ E) as [Hn _]. simpl in Hn.
    destruct n as [|n]; [lia|]. eauto.
  - rewrite (inv_no_slot _ _ _ Hinv sid E) in Hc. lia.
Qed.

Lemma cell_live sid a id : slots f !! sid = Some a -> slot_page (value a) = Some id ->
  (0 < page_refcount f l id)%nat.
Proof.
  intros Hs Hp. unfold page_refcount. pose proof (sum_map_elem (cell_ref id) _ _ _ Hs) as Hc.
  unfold cell_ref in Hc at 1. rewrite decide_True in Hc by done. lia.
Qed.

Lemma zero_live id : zero_page_cell f = Some id -> (0 < page_refcount f l id)%nat.
Proof. intros Hz. unfold page_refcount, zero_ref. rewrite decide_True by done. lia. Qed.

Lemma source_page_counted s id : s ∈ l -> source_page s = Some id -> (0 < page_refcount f l id)%nat.
Proof.
  intros Hs Hp. pose proof (sum_list_with_elem (page_refs id) _ _ Hs) as Hc.
  rewrite page_refs_source, decide_True in Hc by done. unfold page_refcount. lia.
Qed.

Lemma source_slot_counted sid sh : Object sid sh ∈ l -> (0 < slot_refcount l sid)%nat.
Proof.
  intros Hs. pose proof (sum_list_with_elem (slot_refs sid) _ _ Hs) as Hc. simpl in Hc.
  rewrite decide_True in Hc by done. unfold slot_refcount. lia.
Qed.

(** Every source in existence refers to live objects. *)
Lemma inv_source_ok s : s ∈ l -> source_ok f s.
Proof.
  intros Hs. destruct s as [p|p w|sid sh]; simpl.
  1-2: apply counted_live; by eapply source_page_counted.
  destruct (counted_slot sid (source_slot_counted _ _ Hs)) as (n & s & Hsl & _).
  exists n, s. split; [done|]. intros page Hp. apply counted_live. by apply (cell_live sid _ page Hsl).
Qed.

Lemma inv_fabric_ok : fabric_ok f.
Proof.
  split; [apply Hinv|]. intros id a Ha. apply (inv_page _ _ _ Hinv id a Ha).
Qed.
End Facts.

(** ** Showing that something is left alone *)

Lemma source_at_page f s id :
  source_page s = Some id -> source_at f s = (fun b => (id, b)) <$> page_at f id.
Proof.
  unfold source_at, entry_page, page_at. destruct s; simpl; intros [= ->]; by destruct (pages f !! id).
Qed.

Lemma source_at_slot f sid sh :
  source_at f (Object sid sh) =
  match cell_of f sid with Some (Some id) => (fun b => (id, b)) <$> page_at f id | _ => None end.
Proof.
  unfold source_at, entry_page, cell_of, page_at. simpl. destruct (slots f !! sid) as [a|]; [|done].
  simpl. destruct (slot_page (value a)) as [id|]; [|done]. by destruct (pages f !! id).
Qed.

Lemma keeps_intro base l f f' :
  (forall sid, (0 < slot_refcount l sid)%nat -> cell_of f' sid = cell_of f sid) ->
  (forall id, (0 < page_refcount f l id)%nat -> page_at f' id = page_at f id) ->
  (forall id b, (0 < page_refcount f l id)%nat -> page_at f id = Some b ->
     page_bytes f' b = page_bytes f b) ->
  zero_page_cell f' = zero_page_cell f ->
  (forall a, a < base -> mem f' !! a = mem f !! a) ->
  tokens f' = tokens f ->
  keeps base l f f'.
Proof.
  intros Hsl Hpg Hby Hz Hhost Htok. split; [|done| |exact Hhost|exact Htok].
  2:{ intros Hcl id b. rewrite Hz. intros Hid. pose proof (zero_live (l := l) id Hid) as Hc.
      rewrite (Hpg id Hc). intros Hb. rewrite (Hby id b Hc Hb). by apply (Hcl id). }
  intros s Hs.
  assert (forall id, source_page s = Some id -> (0 < page_refcount f l id)%nat) as Hc.
  { intros id Hp. apply elem_of_app in Hs as [Hs|Hs]; [by eapply source_page_counted|].
    unfold zero_source in Hs. destruct (zero_page_cell f) as [z|] eqn:E; [|by apply elem_of_nil in Hs].
    apply list_elem_of_singleton in Hs as ->. simplify_eq/=. by apply zero_live. }
  assert (source_at f' s = source_at f s /\
          forall id b, source_at f s = Some (id, b) -> page_bytes f' b = page_bytes f b) as [Hat Hb].
  { destruct (source_page s) as [id|] eqn:E.
    - rewrite !(source_at_page _ _ id) by done. rewrite Hpg by eauto. split; [done|].
      intros id' b Hb. apply fmap_Some in Hb as (b' & Hb' & ?). simplify_eq. eauto.
    - destruct s as [| |sid sh]; [done..|]. apply elem_of_app in Hs as [Hs|Hs].
      2:{ unfold zero_source in Hs. destruct (zero_page_cell f).
          - by apply list_elem_of_singleton in Hs.
          - by apply elem_of_nil in Hs. }
      rewrite !source_at_slot, Hsl by by eapply source_slot_counted.
      destruct (cell_of f sid) as [[id|]|] eqn:Ec; [|done..].
      assert (0 < page_refcount f l id)%nat.
      { unfold cell_of in Ec. apply fmap_Some in Ec as (a & Ha & Hp). by eapply cell_live. }
      rewrite Hpg by done. split; [done|].
      intros id' b Hb. apply fmap_Some in Hb as (b' & Hb' & ?). simplify_eq. eauto. }
  split; [done|]. unfold source_bytes. rewrite Hat. destruct (source_at f s) as [[id b]|]; eauto.
Qed.

(** ** Counting operations *)

Lemma page_refcount_cons f l s id :
  page_refcount f (s :: l) id = (page_refs id s + page_refcount f l id)%nat.
Proof. unfold page_refcount. simpl. lia. Qed.

Lemma slot_refcount_cons l s sid : slot_refcount (s :: l) sid = (slot_refs sid s + slot_refcount l sid)%nat.
Proof. done. Qed.

Lemma page_refcount_perm f l l' id : l ≡ₚ l' -> page_refcount f l id = page_refcount f l' id.
Proof. intros Hl. unfold page_refcount. by rewrite Hl. Qed.

(** The invariant after some counts changed and pages came or went, with the
    memory and the slots as they were. *)
Lemma inv_recount base f l l' ps :
  fabric_inv base f l -> let f' := Upd.pages ps f in
  (forall id a, ps !! id = Some a -> strong a = page_refcount f l' id /\ (0 < strong a)%nat) ->
  (forall id, ps !! id = None -> page_refcount f l' id = 0%nat) ->
  (forall id, page_at f' id = page_at f id \/ page_at f' id = None) ->
  (forall sid, slot_refcount l' sid = slot_refcount l sid) ->
  fabric_inv base f' l'.
Proof.
  intros [Hm Hb Hn Hp Hd Hx Hs Hns] f' Hps Hnone Hat Hsl.
  assert (forall id b, page_at f' id = Some b -> page_at f id = Some b) as Hsub.
  { intros id b Hb'. destruct (Hat id) as [E|E]; congruence. }
  constructor; simpl; try done.
  - intros id a Ha. destruct (Hps id a Ha) as [Hc Hpos]. split; [done|]. split; [done|].
    assert (page_at f id = Some (value a)) as Hv.
    { apply Hsub. unfold page_at; simpl. by rewrite Ha. }
    apply fmap_Some in Hv as (a' & Ha' & ->). by apply (Hp id a').
  - intros id1 id2 b1 b2 H1 H2. eauto.
  - intros sid a Ha. rewrite Hsl. by apply Hs.
  - intros sid Ha. rewrite Hsl. by apply Hns.
Qed.

Section Counting.
Context {base : Z}.

Lemma page_at_insert f id n b id' :
  page_at (Upd.pages (<[id := mkArc n b]> (pages f)) f) id' =
  if decide (id = id') then Some b else page_at f id'.
Proof.
  unfold page_at; simpl. case_decide; subst; [by rewrite lookup_insert_eq|].
  by rewrite lookup_insert_ne.
Qed.

Lemma arc_clone_spec f l id :
  fabric_inv base f l -> is_Some (pages f !! id) ->
  exists f', arc_clone id f = Some (id, f') /\
    (forall s, source_page s = Some id -> fabric_inv base f' (s :: l)) /\
    (forall k, keeps base k f f') /\ next_page f' = next_page f.
Proof.
  intros Hinv [[n b] Hid]. unfold arc_clone. rewrite Hid. eexists; split; [done|].
  assert (forall id', page_at (Upd.pages (<[id:=mkArc (S n) b]> (pages f)) f) id' = page_at f id') as Hat.
  { intros id'. rewrite page_at_insert. case_decide; [subst|done]. unfold page_at. by rewrite Hid. }
  split; [|split; [|done]].
  2:{ intros k. apply keeps_intro; auto. }
  intros s Hs. apply (inv_recount _ _ l); try done; [| |by left|intros; by rewrite slot_refcount_cons, (slot_refs_source _ id)].
  - intros id' a. rewrite page_refcount_cons, page_refs_source, Hs. destruct (decide (id = id')) as [<-|].
    + rewrite lookup_insert_eq. intros [= <-]. simpl. rewrite decide_True by done.
      destruct (inv_page _ _ _ Hinv id _ Hid) as (Hc & ? & ?). simpl in *. lia.
    + rewrite lookup_insert_ne, decide_False by congruence. intros Ha.
      by destruct (inv_page _ _ _ Hinv id' a Ha) as (? & ? & ?).
  - intros id' Hn. rewrite page_refcount_cons, page_refs_source, Hs.
    apply lookup_insert_None in Hn as [Hn Hne]. rewrite decide_False by congruence.
    by rewrite (inv_dead _ _ _ Hinv).
Qed.

(** Only the memory, the pages, the slots, the zero-page cell and the allocator
    matter here: not the log or the object queue. *)
Definition same_store (f f' : Fabric) : Prop :=
  mem f' = mem f /\ pages f' = pages f /\ slots f' = slots f /\
  zero_page_cell f' = zero_page_cell f /\ next_page f' = next_page f /\ tokens f' = tokens f.

Lemma same_store_inv f f' l : same_store f f' -> fabric_inv base f l -> fabric_inv base f' l.
Proof.
  intros (Hm & Hp & Hs & Hz & Hn & _) [? ? ? Hpg Hd Hx Hsl Hns].
  assert (forall k id, page_refcount f' k id = page_refcount f k id) as Hc.
  { intros. unfold page_refcount, zero_ref. by rewrite Hs, Hz. }
  constructor; unfold page_at, placed in *; intros; rewrite ?Hm, ?Hp, ?Hs, ?Hn, ?Hc in *; eauto.
Qed.

Lemma same_store_keeps f f' l : same_store f f' -> keeps base l f f'.
Proof.
  intros (Hm & Hp & Hs & Hz & Hn & Ht). apply keeps_intro; auto; intros;
    unfold cell_of, page_at, page_bytes; by rewrite ?Hm, ?Hp, ?Hs.
Qed.

(** ** Freeing memory *)

Lemma lookup_remove_bytes m p n a :
  remove_bytes m p n !! a = if decide (p <= a < p + Z.of_nat n) then None else m !! a.
Proof.
  revert p. induction n as [|n IH]; intros p; simpl; [by rewrite decide_False by lia|].
  destruct (decide (a = p)) as [->|].
  - by rewrite lookup_delete_eq, decide_True by lia.
  - rewrite lookup_delete_ne, IH by congruence. repeat case_decide; try lia; done.
Qed.

Lemma load_bytes_ext m m' p n :
  (forall a, p <= a < p + Z.of_nat n -> m' !! a = m !! a) ->
  load_bytes m' p n = load_bytes m p n.
Proof.
  revert p. induction n as [|n IH]; intros p Ha; simpl; [done|].
  rewrite Ha by lia. destruct (m !! p); [|done]. rewrite IH; [done|]. intros. apply Ha. lia.
Qed.

Lemma load_remove_disjoint m p n q k :
  p + Z.of_nat n <= q \/ q + Z.of_nat k <= p ->
  load_bytes (remove_bytes m p n) q k = load_bytes m q k.
Proof.
  intros Hd. apply load_bytes_ext. intros a Ha. rewrite lookup_remove_bytes.
  by rewrite decide_False by lia.
Qed.

(** Two aligned pages are the same or do not overlap. *)
Lemma pages_disjoint p q : PagePtr.wf p -> PagePtr.wf q -> p <> q -> p + 4096 <= q \/ q + 4096 <= p.
Proof. intros (_ & Hp & _) (_ & Hq & _) Hne. Z.to_euclidean_division_equations. lia. Qed.

(** The memory may change wherever no live page is. *)
Lemma inv_mem_change f l m :
  fabric_inv base f l -> mem_ok m ->
  (forall id b, page_at f id = Some b ->
     load_bytes m (allocated_page b) PAGE_BYTES = page_bytes f b) ->
  (forall a, a < base -> m !! a = mem f !! a) ->
  fabric_inv base (Upd.mem m f) l /\ forall k, keeps base k f (Upd.mem m f).
Proof.
  intros [? ? ? Hpg Hd Hx Hsl Hns] Hok Hm Hhost. split.
  - constructor; simpl; try done. intros id a Ha. destruct (Hpg id a Ha) as (? & ? & Hpl).
    split; [done|]. split; [done|]. unfold placed, page_mapped in *; simpl in *.
    rewrite (Hm id) by (unfold page_at; by rewrite Ha). done.
  - intros k. apply keeps_intro; try done. intros id b _ Hb. by apply Hm with id.
Qed.

Lemma placed_disjoint f b b' :
  placed base f b -> placed base f b' -> should_dealloc b = true ->
  (should_dealloc b' = true -> allocated_page b <> allocated_page b') ->
  allocated_page b + 4096 <= allocated_page b' \/ allocated_page b' + 4096 <= allocated_page b.
Proof.
  intros [[Hw _] [_ Hp]] [[Hw' _] [_ Hp']] Hd Hne. rewrite Hd in Hp.
  destruct (should_dealloc b'); [apply pages_disjoint; auto|lia].
Qed.

(** Dropping a page that is no longer counted. *)
Lemma drop_backed_spec f l b :
  fabric_inv base f l -> placed base f b ->
  (forall id b', page_at f id = Some b' -> should_dealloc b = true -> should_dealloc b' = true ->
     allocated_page b <> allocated_page b') ->
  exists f', drop_backed b f = Some (tt, f') /\ fabric_inv base f' l /\
    (forall k, keeps base k f f') /\ next_page f' = next_page f /\ slots f' = slots f /\
    pages f' = pages f /\ zero_page_cell f' = zero_page_cell f.
Proof.
  intros Hinv Hpl Hne. unfold drop_backed. assert (has_fabric b = true) as Hfab by apply Hpl.
  rewrite Hfab. unfold sm_bind, sm_modify. set (f1 := Upd.event _ f).
  assert (same_store f f1) as Hs1 by done.
  destruct (should_dealloc b) eqn:Hd.
  2:{ unfold sm_ret. exists f1. split; [done|]. split; [by eapply same_store_inv|].
      split; [intros; by apply same_store_keeps|done]. }
  unfold dealloc_page. eexists; split; [done|].
  set (f2 := Upd.mem (remove_bytes (mem f1) (allocated_page b) PAGE_BYTES) f1).
  destruct (inv_mem_change f1 l (remove_bytes (mem f1) (allocated_page b) PAGE_BYTES))
    as [Hinv2 Hk2]; [by eapply same_store_inv|..].
  { intros a c. rewrite lookup_remove_bytes. case_decide; [done|]. apply (inv_mem _ _ _ Hinv). }
  { intros id b' Hb'. unfold page_bytes. apply load_remove_disjoint. rewrite PAGE_BYTES_Z.
    assert (page_at f id = Some b') as Hb by done. apply fmap_Some in Hb as (a & Ha & ->).
    destruct (inv_page _ _ _ Hinv id a Ha) as (_ & _ & Hpl').
    apply (placed_disjoint f b (value a)); eauto. }
  { intros a Ha. rewrite lookup_remove_bytes, decide_False; [done|].
    destruct Hpl as (_ & _ & Hp). rewrite Hd in Hp. lia. }
  split; [by apply (same_store_inv f2)|]. split; [|done].
  intros k. apply (keeps_trans _ _ f1); [by apply same_store_keeps|].
  apply (keeps_trans _ _ f2); [done|by apply same_store_keeps].
Qed.

Lemma arc_drop_spec f l s id :
  fabric_inv base f (s :: l) -> source_page s = Some id ->
  exists f', arc_drop id f = Some (tt, f') /\ fabric_inv base f' l /\ keeps base l f f' /\
    next_page f' = next_page f /\ slots f' = slots f /\ zero_page_cell f' = zero_page_cell f.
Proof.
  intros Hinv Hs.
  destruct (counted_live Hinv id) as [[n b] Hid].
  { rewrite page_refcount_cons, page_refs_source, decide_True by done. lia. }
  assert (Hother : forall id', id <> id' -> page_refcount f (s :: l) id' = page_refcount f l id').
  { intros. rewrite page_refcount_cons, page_refs_source, decide_False by congruence. done. }
  destruct (inv_page _ _ _ Hinv id _ Hid) as (Hc & Hpos & Hpl). simpl in Hc, Hpos, Hpl.
  rewrite page_refcount_cons, page_refs_source, decide_True in Hc by done.
  unfold arc_drop. rewrite Hid. destruct n as [|[|n]]; [lia| |].
  - set (f1 := Upd.pages (delete id (pages f)) f).
    assert (fabric_inv base f1 l) as Hinv1.
    { apply (inv_recount _ _ (s :: l)); try done.
      - intros id' a. rewrite lookup_delete_Some. intros [Hne Ha].
        rewrite <- Hother by done. by destruct (inv_page _ _ _ Hinv id' a Ha) as (? & ? & ?).
      - intros id' Hn. destruct (decide (id = id')) as [<-|]; [lia|].
        rewrite lookup_delete_ne in Hn by done. rewrite <- Hother by done.
        by apply (inv_dead _ _ _ Hinv).
      - intros id'. unfold page_at; simpl. destruct (decide (id = id')) as [<-|].
        + right. by rewrite lookup_delete_eq.
        + left. by rewrite lookup_delete_ne.
      - intros. by rewrite slot_refcount_cons, (slot_refs_source _ id). }
    assert (keeps base l f f1) as Hk1.
    { assert (forall id', (0 < page_refcount f l id')%nat -> page_at f1 id' = page_at f id').
      { intros id' Hc'. unfold page_at; simpl. rewrite lookup_delete_ne; [done|]. intros <-. lia. }
      by apply keeps_intro. }
    destruct (drop_backed_spec f1 l b Hinv1 Hpl) as (f' & Hf' & ? & Hk & Hn & Hsl & _ & Hz).
    { intros id' b' Hb' Hd Hd' Heq. apply fmap_Some in Hb' as (a & Ha & ->). simpl in Ha.
      apply lookup_delete_Some in Ha as [Hne Ha]. apply Hne.
      apply (inv_distinct _ _ _ Hinv id id' b (value a)); try done; unfold page_at.
      - by rewrite Hid.
      - by rewrite Ha. }
    exists f'. split; [done|]. split; [done|]. split; [|done]. by apply (keeps_trans _ _ f1).
  - eexists; split; [done|]. split; [|split; [|done]].
    + apply (inv_recount _ _ (s :: l)); try done.
      * intros id' a. destruct (decide (id = id')) as [<-|].
        -- rewrite lookup_insert_eq. intros [= <-]. simpl. lia.
        -- rewrite lookup_insert_ne by done. intros Ha. rewrite <- Hother by done.
           by destruct (inv_page _ _ _ Hinv id' a Ha) as (? & ? & ?).
      * intros id'. rewrite lookup_insert_None. intros [Hn Hne]. rewrite <- Hother by done.
        by apply (inv_dead _ _ _ Hinv).
      * left. rewrite page_at_insert. case_decide; [subst|done]. unfold page_at. by rewrite Hid.
      * intros. by rewrite slot_refcount_cons, (slot_refs_source _ id).
    + apply keeps_intro; try done. intros. rewrite page_at_insert. case_decide; [subst|done].
      unfold page_at. by rewrite Hid.
Qed.

(** ** Slots *)

Lemma inv_reslot f l l' sid a :
  fabric_inv base f l -> let f' := Upd.slots (<[sid := a]> (slots f)) f in
  strong a = slot_refcount l' sid -> (strong a = 0%nat -> slot_page (value a) = None) ->
  (forall sid', sid <> sid' -> slot_refcount l' sid' = slot_refcount l sid') ->
  (forall id, page_refcount f' l' id = page_refcount f l id) ->
  fabric_inv base f' l'.
Proof.
  intros [? ? ? Hpg Hd Hx Hsl Hns] f' Ha Hz Hoth Hcnt. constructor; try done.
  - intros id b Hb. rewrite Hcnt. by apply Hpg.
  - intros id Hn. rewrite Hcnt. by apply Hd.
  - intros sid' a'. simpl. destruct (decide (sid = sid')) as [<-|].
    + rewrite lookup_insert_eq. by intros [= <-].
    + rewrite lookup_insert_ne, Hoth by done. apply Hsl.
  - intros sid'. simpl. rewrite lookup_insert_None. intros [Hn Hne]. rewrite Hoth by done. by apply Hns.
Qed.

Lemma keeps_reslot f l sid a :
  (forall a', (0 < slot_refcount l sid)%nat -> slots f !! sid = Some a' ->
     slot_page (value a) = slot_page (value a')) ->
  ((0 < slot_refcount l sid)%nat -> is_Some (slots f !! sid)) ->
  keeps base l f (Upd.slots (<[sid := a]> (slots f)) f).
Proof.
  intros Ha Hlive. apply keeps_intro; try done. intros sid' Hc. unfold cell_of. simpl.
  destruct (decide (sid = sid')) as [<-|]; [|by rewrite lookup_insert_ne].
  destruct (Hlive Hc) as [a' Ha']. rewrite lookup_insert_eq, Ha'. simpl. f_equal. by apply Ha.
Qed.

Lemma slot_new_spec f l object off sh :
  fabric_inv base f l ->
  exists sid f', slot_new (mkObjectSlot None object off) f = Some (sid, f') /\
    fabric_inv base f' (Object sid sh :: l) /\ keeps base l f f' /\ next_page f' = next_page f /\
    source_at f' (Object sid sh) = None /\
    slots f' = <[sid := mkArc 1 (mkObjectSlot None object off)]> (slots f).
Proof.
  intros Hinv. unfold slot_new. set (sid := fresh (dom (slots f))).
  assert (slots f !! sid = None) as Hn by (apply not_elem_of_dom, is_fresh).
  do 2 eexists; split; [done|].
  assert (slot_refcount l sid = 0%nat) as Hc by by apply (inv_no_slot _ _ _ Hinv).
  split; [|split; [|split; [done|split; [|done]]]].
  - apply (inv_reslot _ l); try done; simpl.
    + rewrite slot_refcount_cons. simpl. rewrite decide_True by done. lia.
    + intros sid' Hne. rewrite slot_refcount_cons. simpl. by rewrite decide_False by done.
    + intros id. rewrite page_refcount_cons. unfold page_refcount, zero_ref. simpl.
      rewrite sum_map_insert_new by done. done.
  - apply keeps_reslot; [|lia]. intros a' Hpos. lia.
  - rewrite source_at_slot. unfold cell_of. simpl. by rewrite lookup_insert_eq.
Qed.

Lemma page_refcount_reslot f l sid a a' id :
  slots f !! sid = Some a -> slot_page (value a') = slot_page (value a) ->
  page_refcount (Upd.slots (<[sid := a']> (slots f)) f) l id = page_refcount f l id.
Proof.
  intros Ha Heq. unfold page_refcount, zero_ref. simpl.
  pose proof (sum_map_insert (cell_ref id) _ _ _ a' Ha) as Hsum.
  assert (cell_ref id a' = cell_ref id a) by (unfold cell_ref; by rewrite Heq). lia.
Qed.

Lemma slot_clone_spec f l sid sh sh' :
  fabric_inv base f l -> Object sid sh ∈ l ->
  exists f', slot_clone sid f = Some (sid, f') /\ fabric_inv base f' (Object sid sh' :: l) /\
    (forall k, keeps base k f f') /\ next_page f' = next_page f.
Proof.
  intros Hinv Hin. destruct (counted_slot Hinv sid) as (n & s & Hs & Hn).
  { by eapply source_slot_counted. }
  unfold slot_clone. rewrite Hs. eexists; split; [done|]. split; [|split; [|done]].
  - apply (inv_reslot _ l); try done; simpl.
    + rewrite slot_refcount_cons. simpl. rewrite decide_True by done. lia.
    + intros sid' Hne. rewrite slot_refcount_cons. simpl. by rewrite decide_False by done.
    + intros id. rewrite page_refcount_cons. by apply page_refcount_reslot with (a := mkArc (S n) s).
  - intros k. apply keeps_reslot; [|by rewrite Hs]. intros a' _ Ha'. by simplify_eq.
Qed.

Lemma slot_drop_spec f l sid sh :
  fabric_inv base f (Object sid sh :: l) ->
  exists f', slot_drop sid f = Some (tt, f') /\ fabric_inv base f' l /\ keeps base l f f' /\
    next_page f' = next_page f.
Proof.
  intros Hinv.
  assert (forall sid', slot_refcount (Object sid sh :: l) sid' =
            ((if decide (sid = sid') then 1 else 0) + slot_refcount l sid')%nat) as Hcnt by done.
  destruct (counted_slot Hinv sid) as (n & s & Hs & Hn).
  { rewrite Hcnt, decide_True by done. lia. }
  rewrite Hcnt, decide_True in Hn by done.
  unfold slot_drop. rewrite Hs. destruct n as [|n].
  - set (s0 := mkObjectSlot None (slot_object s) (slot_page_offset s)).
    set (f1 := Upd.slots (<[sid := mkArc 0 s0]> (slots f)) f).
    assert (forall k id, (page_refcount f1 k id + cell_ref id (mkArc 1 s) = page_refcount f k id)%nat) as Hpc.
    { intros k id. unfold page_refcount, zero_ref. simpl.
      pose proof (sum_map_insert (cell_ref id) _ _ _ (mkArc 0 s0) Hs) as Hsum.
      assert (cell_ref id (mkArc 0 s0) = 0%nat) by done. lia. }
    assert (keeps base l f f1) as Hk1 by (apply keeps_reslot; [intros a' ?|intros ?]; lia).
    destruct (slot_page s) as [page|] eqn:Hp.
    + assert (fabric_inv base f1 (Private page true :: l)) as Hinv1.
      { apply (inv_reslot _ (Object sid sh :: l)); try done; simpl.
        - rewrite slot_refcount_cons. simpl. lia.
        - intros sid' Hne. rewrite !slot_refcount_cons. simpl. by rewrite decide_False by done.
        - intros id. fold s0 f1. rewrite !page_refcount_cons. specialize (Hpc l id).
          unfold cell_ref in Hpc. simpl in *. rewrite Hp in Hpc.
          repeat case_decide; try lia; congruence. }
      destruct (arc_drop_spec f1 l _ page Hinv1 eq_refl) as (f' & -> & ? & Hk & Hnx & _).
      exists f'. split; [done|]. split; [done|]. split; [|done]. by apply (keeps_trans _ _ f1).
    + exists f1. split; [done|]. split; [|done].
      apply (inv_reslot _ (Object sid sh :: l)); try done; simpl.
      * lia.
      * intros sid' Hne. rewrite slot_refcount_cons. simpl. by rewrite decide_False by done.
      * intros id. fold s0 f1. rewrite page_refcount_cons. specialize (Hpc l id).
        unfold cell_ref in Hpc. simpl in *. rewrite Hp in Hpc. case_decide; [done|lia].
  - eexists; split; [done|]. split; [|split; [|done]].
    + apply (inv_reslot _ (Object sid sh :: l)); try done; simpl.
      * lia.
      * intros sid' Hne. rewrite slot_refcount_cons. simpl. by rewrite decide_False by done.
      * intros id. rewrite page_refcount_cons. by apply page_refcount_reslot with (a := mkArc (S (S n)) s).
    + apply keeps_reslot; [|by rewrite Hs]. intros a' _ Ha'. by simplify_eq.
Qed.

(** Dropping any source. *)
Lemma source_drop_spec f l s :
  fabric_inv base f (s :: l) ->
  exists f', Source.drop s f = Some (tt, f') /\ fabric_inv base f' l /\ keeps base l f f' /\
    next_page f' = next_page f.
Proof.
  intros Hinv. destruct s as [p|p w|sid sh]; simpl.
  - destruct (arc_drop_spec f l _ p Hinv eq_refl) as (f' & ? & ? & ? & ? & _). eauto.
  - destruct (arc_drop_spec f l _ p Hinv eq_refl) as (f' & ? & ? & ? & ? & _). eauto.
  - by eapply slot_drop_spec.
Qed.
End Counting.
