(* ===== verification/PageAlloc.v ===== *)
(** * Allocating, sharing and copying pages

    The effect of the page constructors, of the zero page, of cloning and of
    [Arc::make_mut] on the ownership invariant of [RefCount.v], for a machine
    whose allocator still has room. *)

From S2P Require Import Prelude Convert MemTypes Fault Memops ObjectQueue Fabric PageTable.
From S2P Require Import RefCount.
Local Open Scope Z_scope.
Local Open Scope emu_scope.

(** Room for [n] more pages. *)
Definition room (n : Z) (f : Fabric) : Prop := next_page f + n * 4096 <= 2 ^ 64.

(** The fabric with a new page of contents [l] at the allocator's next address. *)
Definition with_page (l : list Z) (f : Fabric) : Fabric :=
  Upd.next_page (next_page f + 4096) (Upd.mem (write_bytes (mem f) (next_page f) l) f).

Definition new_backed (f : Fabric) : MemoryBackedPage := mkBacked (next_page f) true true 0.

Section Alloc.
Context {base : Z}.

Lemma next_page_wf f l : fabric_inv base f l -> room 1 f -> PagePtr.wf (next_page f).
Proof.
  intros Hinv Hr. destruct (inv_next _ _ _ Hinv) as (? & ? & ?). destruct (inv_base _ _ _ Hinv).
  unfold room in Hr. split; [lia|]. split; [done|lia].
Qed.

Lemma placed_below f l id a : fabric_inv base f l -> pages f !! id = Some a ->
  allocated_page (value a) + 4096 <= next_page f.
Proof.
  intros Hinv Ha. destruct (inv_page _ _ _ Hinv id a Ha) as (_ & _ & _ & _ & Hp).
  destruct (inv_next _ _ _ Hinv). destruct (should_dealloc (value a)); lia.
Qed.

(** A fresh page changes nothing that exists. *)
Lemma with_page_spec f l bytes :
  fabric_inv base f l -> room 1 f -> length bytes = PAGE_BYTES -> Forall is_byte bytes ->
  let f' := with_page bytes f in
  fabric_inv base f' l /\ (forall k, keeps base k f f') /\ placed base f' (new_backed f) /\
  page_bytes f' (new_backed f) = Some bytes /\
  (forall id b, page_at f' id = Some b -> allocated_page b <> next_page f).
Proof.
  intros Hinv Hr Hlen Hby f'. pose proof (next_page_wf f l Hinv Hr) as Hwf.
  assert (forall id b, page_at f id = Some b -> allocated_page b + 4096 <= next_page f) as Hbelow.
  { intros id b Hb. apply fmap_Some in Hb as (a & Ha & ->). by eapply placed_below. }
  destruct (inv_mem_change (base := base) f l (write_bytes (mem f) (next_page f) bytes)) as [Hinv1 Hk1]; [done|..].
  { apply write_bytes_ok; [apply Hinv|done]. }
  { intros id b Hb. unfold page_bytes. apply load_write_disjoint. rewrite Hlen, PAGE_BYTES_Z.
    specialize (Hbelow id b Hb). lia. }
  { intros a Ha. rewrite lookup_write_bytes, decide_False; [done|].
    destruct (inv_next _ _ _ Hinv). lia. }
  assert (page_bytes f' (new_backed f) = Some bytes) as Hbytes.
  { unfold page_bytes. simpl. rewrite <- Hlen. apply load_write_same. }
  split; [|split; [|split; [|split; [exact Hbytes|]]]].
  - destruct Hinv1 as [Hm1 Hb1 Hn1 Hpg ? ? ? ?]. destruct Hn1 as (? & ? & ?).
    constructor; simpl; [exact Hm1|exact Hb1| | |assumption..].
    + unfold room in Hr. simpl in *. Z.to_euclidean_division_equations. lia.
    + intros id a Ha. destruct (Hpg id a Ha) as (? & ? & Hmap & ? & Hp).
      split; [assumption|]. split; [assumption|]. split; [exact Hmap|]. split; [assumption|].
      simpl in *. destruct (should_dealloc (value a)); lia.
  - intros k. apply (keeps_trans _ _ (Upd.mem (write_bytes (mem f) (next_page f) bytes) f)).
    + apply Hk1.
    + apply keeps_intro; auto.
  - split; [split; [exact Hwf|]|split; [reflexivity|]]; simpl.
    + unfold page_bytes in Hbytes. simpl in Hbytes. rewrite Hbytes. eauto.
    + destruct (inv_next _ _ _ Hinv). lia.
  - intros id b Hb. specialize (Hbelow id b Hb). lia.
Qed.

(** ** New references *)

Lemma arc_new_spec f l b :
  fabric_inv base f l -> placed base f b ->
  (forall id b', page_at f id = Some b' -> should_dealloc b = true -> should_dealloc b' = true ->
     allocated_page b <> allocated_page b') ->
  exists id f', arc_new b f = Some (id, f') /\
    (forall s, source_page s = Some id -> fabric_inv base f' (s :: l)) /\
    keeps base l f f' /\ next_page f' = next_page f /\ zero_page_cell f' = zero_page_cell f /\
    page_at f' id = Some b /\ mem f' = mem f /\ page_refcount f' l id = 0%nat /\
    slots f' = slots f /\ pages f !! id = None.
Proof.
  intros Hinv Hpl Hne. unfold arc_new. set (id := fresh (dom (pages f))).
  assert (pages f !! id = None) as Hn by (apply not_elem_of_dom, is_fresh).
  pose proof (inv_dead _ _ _ Hinv id Hn) as Hc.
  do 2 eexists; split; [done|]. split; [|split; [|split; [done|split; [done|split; [|split; [done|split; [exact Hc|done]]]]]]].
  - intros s Hs. destruct Hinv as [? ? ? Hpg Hd Hx Hsl Hns]. constructor; try done.
    + intros id' a. simpl. unfold page_refcount, zero_ref. simpl. fold (page_refcount f l id').
      rewrite page_refs_source, Hs. destruct (decide (id = id')) as [<-|].
      * rewrite lookup_insert_eq, decide_True by done. intros [= <-]. simpl.
        unfold page_refcount, zero_ref in Hc. split; [lia|]. split; [lia|done].
      * rewrite lookup_insert_ne, decide_False by congruence. intros Ha.
        destruct (Hpg id' a Ha) as (Hc' & ? & ?). unfold page_refcount, zero_ref in Hc'. auto with lia.
    + intros id'. simpl. rewrite lookup_insert_None. intros [Hn' Hne'].
      specialize (Hd id' Hn'). unfold page_refcount, zero_ref in *. simpl.
      rewrite page_refs_source, Hs, decide_False by congruence. lia.
    + intros id1 id2 b1 b2. rewrite !page_at_insert. repeat case_decide; subst; intros; simplify_eq; try done.
      * by destruct (Hne id2 b2).
      * by destruct (Hne id1 b1).
      * by eapply Hx.
    + intros sid a Ha. rewrite slot_refcount_cons, (slot_refs_source _ id) by done. by apply Hsl.
    + intros sid Ha. rewrite slot_refcount_cons, (slot_refs_source _ id) by done. by apply Hns.
  - apply keeps_intro; try done. intros id' Hpos. rewrite page_at_insert. case_decide; [subst; lia|done].
  - rewrite page_at_insert. by rewrite decide_True.
Qed.

(** A page with contents [bytes], allocated and given an owner. *)
Lemma new_page_spec f l bytes :
  fabric_inv base f l -> room 1 f -> length bytes = PAGE_BYTES -> Forall is_byte bytes ->
  exists id f', arc_new (new_backed f) (with_page bytes f) = Some (id, f') /\
    (forall s, source_page s = Some id ->
       fabric_inv base f' (s :: l) /\ source_bytes f' s = Some bytes) /\
    keeps base l f f' /\ next_page f' = next_page f + 4096 /\ zero_page_cell f' = zero_page_cell f /\
    page_refcount f' l id = 0%nat /\ slots f' = slots f /\ pages f !! id = None.
Proof.
  intros Hinv Hr Hlen Hby.
  destruct (with_page_spec f l bytes Hinv Hr Hlen Hby) as (Hinv1 & Hk1 & Hpl & Hbytes & Hne).
  destruct (arc_new_spec (with_page bytes f) l (new_backed f) Hinv1 Hpl)
    as (id & f' & Hf' & Hinv' & Hk' & Hn & Hz & Hat & Hm & Hc & Hsl & Hnone).
  { intros id b Hb _ _. apply not_eq_sym. by apply (Hne id b). }
  exists id, f'. split; [exact Hf'|]. split; [|split; [|split; [exact Hn|split; [exact Hz|split; [exact Hc|done]]]]].
  - intros s Hs. split; [by apply Hinv'|]. unfold source_bytes.
    rewrite (source_at_page _ _ id), Hat by done. simpl. unfold page_bytes. rewrite Hm. exact Hbytes.
  - by apply (keeps_trans _ _ (with_page bytes f)).
Qed.

Lemma alloc_zeroed_eq f :
  room 1 f -> alloc_zeroed f = Some (new_backed f, with_page ZERO_BYTES f).
Proof.
  intros Hr. unfold room in Hr.
  unfold alloc_zeroed, infallible, try_make_new, alloc_page_zeroed, alloc_page, sm_bind, sm_ret.
  change PAGE_SIZE with 4096. destruct (Z.leb_spec (next_page f + 4096) (2 ^ 64)); [done|lia].
Qed.

(** Putting a page into the zero-page cell hands its reference over. *)
Lemma set_zero_spec f l id :
  fabric_inv base f (Private id true :: l) -> zero_page_cell f = None ->
  source_bytes f (Private id true) = Some ZERO_BYTES ->
  let f' := Upd.zero_page (Some id) f in fabric_inv base f' l /\ keeps base l f f'.
Proof.
  intros Hinv Hz Hb f'. split.
  - assert (forall id', page_refcount f' l id' = page_refcount f (Private id true :: l) id') as Hc.
    { clear Hb. intros id'. rewrite page_refcount_cons. unfold page_refcount, zero_ref. simpl. rewrite Hz.
      destruct (decide (id = id')) as [<-|].
      - rewrite decide_True by done. rewrite decide_False by done. lia.
      - rewrite !decide_False by congruence. lia. }
    destruct Hinv as [? ? ? Hpg Hd Hx Hsl Hns].
    constructor; [assumption..| | |assumption| |].
    + intros id' a Ha. rewrite Hc. apply Hpg, Ha.
    + intros id' Hn. rewrite Hc. apply Hd, Hn.
    + intros sid a Ha. apply (Hsl sid a Ha).
    + intros sid Hn. apply (Hns sid Hn).
  - split.
    + intros s _. split; reflexivity.
    + rewrite Hz. intros []. reflexivity.
    + intros _ id' b Hid' Hb'. simpl in Hid'. injection Hid' as <-.
      unfold source_bytes in Hb. rewrite (source_at_page _ _ id) in Hb by reflexivity.
      change (page_at f id = Some b) in Hb'. rewrite Hb' in Hb. exact Hb.
    + intros a _. reflexivity.
    + reflexivity.
Qed.

(** A clone of a page shows the page. *)
Lemma clone_bytes f l id bytes :
  fabric_inv base f l -> is_Some (pages f !! id) ->
  (forall s, source_page s = Some id -> source_bytes f s = Some bytes) ->
  exists f', arc_clone id f = Some (id, f') /\
    (forall s, source_page s = Some id ->
       fabric_inv base f' (s :: l) /\ source_bytes f' s = Some bytes) /\
    keeps base l f f' /\ next_page f' = next_page f.
Proof.
  intros Hinv Hid Hb. destruct (arc_clone_spec f l id Hinv Hid) as (f' & Hf' & Hinv' & Hk & Hn).
  exists f'. split; [exact Hf'|]. split; [|split; [apply Hk|exact Hn]].
  intros s Hs. split; [by apply Hinv'|].
  destruct (keeps_source _ _ _ _ (Hk [s]) s) as [_ ->]; [by apply elem_of_cons; left|]. by apply Hb.
Qed.

(** [zero_page]: the one zero page, created on first use. *)
Lemma zero_page_spec f l :
  fabric_inv base f l -> room 1 f -> zero_clean f ->
  exists id f', zero_page f = Some (id, f') /\
    (forall s, source_page s = Some id ->
       fabric_inv base f' (s :: l) /\ source_bytes f' s = Some ZERO_BYTES) /\
    keeps base l f f' /\ next_page f' <= next_page f + 4096.
Proof.
  intros Hinv Hr Hcl. unfold zero_page, sm_bind, sm_get.
  destruct (zero_page_cell f) as [id|] eqn:Ez.
  - destruct (counted_live Hinv id (zero_live id Ez)) as [a Ha].
    assert (page_at f id = Some (value a)) as Hat by (unfold page_at; by rewrite Ha).
    destruct (clone_bytes f l id ZERO_BYTES Hinv) as (f' & -> & Hs & Hk & Hn).
    { eauto. }
    { intros s Hs. unfold source_bytes. rewrite (source_at_page _ _ id), Hat by done.
      by apply (Hcl id). }
    exists id, f'. split; [reflexivity|]. split; [exact Hs|]. split; [exact Hk|lia].
  - rewrite alloc_zeroed_eq by done. destruct ZERO_BYTES_ok as [Hlen Hby].
    destruct (new_page_spec f l ZERO_BYTES Hinv Hr Hlen Hby) as (id & f1 & -> & Hinv1 & Hk1 & Hn1 & Hz1 & _).
    destruct (Hinv1 (Private id true) eq_refl) as [Hi Hb]. unfold sm_modify.
    destruct (set_zero_spec f1 l id Hi) as [Hi2 Hk2]; [congruence|exact Hb|].
    destruct (clone_bytes (Upd.zero_page (Some id) f1) l id ZERO_BYTES Hi2)
      as (f' & -> & Hs & Hk & Hn).
    { apply (counted_live Hi2), zero_live. reflexivity. }
    { intros s Hs. apply (Hinv1 s Hs). }
    exists id, f'. split; [reflexivity|]. split; [exact Hs|]. split; [|rewrite Hn; simpl; lia].
    apply (keeps_trans _ _ f1 _ Hk1). by apply (keeps_trans _ _ _ _ Hk2).
Qed.

(** ** Copying a page *)

Lemma copy_loop_spec e k src dst i m l :
  0 <= i -> load_bytes m (src + 8 * i) (8 * k) = Some l -> mem_ok m ->
  src mod 8 = 0 ->
  src + 8 * i + 8 * Z.of_nat k <= dst + 8 * i \/ dst + 8 * i + 8 * Z.of_nat k <= src + 8 * i ->
  sm_for (seqZ i (Z.of_nat k)) (fun i =>
      let! word_value := load64_ne_aligned e (src + 8 * i) in
      write_word e (dst + 8 * i) word_value) m =
    Some (tt, write_bytes m (dst + 8 * i) l).
Proof.
  revert i m l. induction k as [|k IH]; intros i m l Hi Hl Hok Hal Hd.
  { simpl in Hl. injection Hl as <-. done. }
  rewrite seqZ_cons by lia. simpl. unfold sm_bind at 1 2.
  replace (8 * S k)%nat with (8 + 8 * k)%nat in Hl by lia.
  pose proof (load_bytes_is_byte _ _ _ _ Hok Hl) as Hb.
  apply load_bytes_split in Hl as [Hl1 Hl2].
  assert ((src + 8 * i) mod Z.of_nat 8 = 0) as Hal8.
  { rewrite (Z.mul_comm 8 i). change (Z.of_nat 8) with 8. by rewrite Z.mod_add by lia. }
  unfold load64_ne_aligned. rewrite (load_ne_aligned_spec e 8 _ _ _ Hal8 Hl1).
  pose proof (load_bytes_length _ _ _ _ Hl1) as Hlen.
  assert (to_ne_bytes e 8 (from_ne_bytes e (take 8 l)) = take 8 l) as Heq.
  { apply to_from_ne_bytes; [done|]. by apply Forall_take. }
  unfold write_word at 1. rewrite Heq.
  replace (Z.pred (Z.of_nat (S k))) with (Z.of_nat k) by lia.
  replace (src + 8 * i + Z.of_nat 8) with (src + 8 * Z.succ i) in Hl2 by lia.
  rewrite (IH (Z.succ i) _ (drop 8 l)); try lia.
  - rewrite <- (take_drop 8 l) at 3. rewrite write_bytes_app, Hlen.
    by replace (dst + 8 * i + Z.of_nat 8) with (dst + 8 * Z.succ i) by lia.
  - rewrite load_write_disjoint; [exact Hl2|]. rewrite Hlen. lia.
  - apply write_bytes_ok; [done|by apply Forall_take].
Qed.

Lemma copy_page_spec e src dst m l :
  load_bytes m src PAGE_BYTES = Some l -> mem_ok m -> src mod 4096 = 0 ->
  src + 4096 <= dst \/ dst + 4096 <= src ->
  copy_page_shared_to_exclusive e src dst m = Some (tt, write_bytes m dst l).
Proof.
  intros Hl Hok Hal Hd.
  assert (8 * 512 = PAGE_BYTES)%nat as Hpb by (apply Nat2Z.inj; rewrite PAGE_BYTES_Z; lia).
  rewrite <- Hpb in Hl.
  pose proof (copy_loop_spec e 512 src dst 0 m l) as Hc. rewrite !Z.add_0_r in Hc.
  unfold copy_page_shared_to_exclusive. change WORDS_IN_PAGE with (Z.of_nat 512).
  apply Hc; try done; try lia. Z.to_euclidean_division_equations; lia.
Qed.

(** [Clone for MemoryBackedPage] allocates a page with the same contents. *)
Lemma clone_backed_eq e f l id bytes :
  fabric_inv base f l -> room 1 f -> zero_clean f -> is_Some (pages f !! id) ->
  source_bytes f (Private id true) = Some bytes ->
  clone_backed e id f = Some (new_backed f, with_page bytes f) /\
  length bytes = PAGE_BYTES /\ Forall is_byte bytes.
Proof.
  intros Hinv Hr Hcl [[n b] Hid] Hb.
  assert (page_at f id = Some b) as Hat by (unfold page_at; by rewrite Hid).
  unfold source_bytes in Hb. rewrite (source_at_page _ _ id), Hat in Hb by done. simpl in Hb.
  destruct (inv_page _ _ _ Hinv id _ Hid) as (_ & _ & Hpl). simpl in Hpl.
  assert (Forall is_byte bytes) as Hbb by (eapply load_bytes_is_byte; [apply Hinv|exact Hb]).
  assert (length bytes = PAGE_BYTES) as Hlen by by eapply load_bytes_length.
  split; [|done]. unfold clone_backed, get_backed, sm_get. unfold sm_bind at 1.
  rewrite Hid. cbn [value]. unfold sm_bind at 1. assert (has_fabric b = true) as -> by apply Hpl. rewrite andb_true_l.
  case_bool_decide as Hz; cbv iota.
  - assert (bytes = ZERO_BYTES) as -> by (specialize (Hcl id b Hz Hat); congruence).
    unfold sm_bind. cbv beta. by rewrite alloc_zeroed_eq.
  - unfold infallible, alloc_with_init, try_make_new, alloc_page_uninit, alloc_page, sm_bind, on_mem.
    change PAGE_SIZE with 4096. unfold room in Hr.
    destruct (Z.leb_spec (next_page f + 4096) (2 ^ 64)); [|lia]. simpl mem.
    pose proof (placed_below f l id _ Hinv Hid) as Hbel. simpl in Hbel.
    rewrite (copy_page_spec e (allocated_page b) (next_page f) _ bytes);
      [reflexivity|exact Hb|apply Hinv|apply Hpl|lia].
Qed.

(** Which variant of direct reference an owner holds does not matter. *)
Lemma inv_same_refs f l s s' id :
  source_page s = Some id -> source_page s' = Some id ->
  fabric_inv base f (s :: l) -> fabric_inv base f (s' :: l).
Proof.
  intros Hs Hs' [? ? ? Hpg Hd Hx Hsl Hns].
  assert (forall id', page_refcount f (s' :: l) id' = page_refcount f (s :: l) id') as Hc.
  { intros id'. by rewrite !page_refcount_cons, !page_refs_source, Hs, Hs'. }
  assert (forall sid, slot_refcount (s' :: l) sid = slot_refcount (s :: l) sid) as Hsc.
  { intros sid. by rewrite !slot_refcount_cons, !(slot_refs_source _ id). }
  constructor; try assumption; intros; rewrite ?Hc, ?Hsc; eauto.
Qed.

Lemma source_bytes_same f s s' id :
  source_page s = Some id -> source_page s' = Some id -> source_bytes f s = source_bytes f s'.
Proof. intros Hs Hs'. unfold source_bytes. by rewrite !(source_at_page _ _ id). Qed.

(** [Arc::make_mut] leaves the caller the owner of a page with the same
    contents that nobody else refers to. *)
Lemma make_mut_spec e f l id w bytes :
  fabric_inv base f (Private id w :: l) -> room 1 f -> zero_clean f ->
  source_bytes f (Private id w) = Some bytes ->
  exists id' f', make_mut e id f = Some (id', f') /\
    fabric_inv base f' (Private id' false :: l) /\ keeps base l f f' /\
    source_bytes f' (Private id' false) = Some bytes /\
    page_refcount f' l id' = 0%nat /\
    (forall id0, is_Some (pages f !! id0) ->
       (page_refcount f' (Private id' false :: l) id0 <= page_refcount f (Private id w :: l) id0)%nat) /\
    next_page f' <= next_page f + 4096.
Proof.
  intros Hinv Hr Hcl Hb.
  destruct (inv_source_ok Hinv (Private id w)) as [[n b] Hid]; [by apply elem_of_cons; left|].
  destruct (inv_page _ _ _ Hinv id _ Hid) as (Hc & Hpos & _). simpl in Hc, Hpos.
  rewrite page_refcount_cons, page_refs_source, decide_True in Hc by done.
  unfold make_mut, sm_get, sm_bind. rewrite Hid. destruct (decide (n = 1%nat)) as [->|Hn].
  { exists id, f. split; [reflexivity|]. split; [by apply (inv_same_refs _ _ (Private id w) _ id)|].
    split; [apply keeps_refl|]. split; [by rewrite <- (source_bytes_same f (Private id w) _ id)|].
    split; [lia|]. split; [|lia]. intros id0 _. by rewrite !page_refcount_cons. }
  destruct (clone_backed_eq e f _ id bytes Hinv Hr Hcl) as (Hclone & Hlen & Hby); [by eauto|by rewrite <- Hb|].
  destruct (new_page_spec f _ bytes Hinv Hr Hlen Hby) as (new & f1 & Hnew & Hown & Hk1 & Hn1 & Hz1 & Hc1 & Hsl1 & Hnone).
  destruct (Hown (Private new false) eq_refl) as [Hinv1 Hb1].
  rewrite Permutation_swap in Hinv1.
  destruct (arc_drop_spec f1 _ _ id Hinv1 eq_refl) as (f2 & Hdrop & Hinv2 & Hk2 & Hn2 & Hsl2 & Hz2).
  exists new, f2. destruct n as [|[|n]]; [lia|lia|].
  rewrite Hclone, Hnew, Hdrop. split; [reflexivity|]. split; [exact Hinv2|].
  split; [|split; [|split; [|split; [|lia]]]].
  - apply (keeps_trans _ _ f1).
    + apply (keeps_mono (Private id w :: l)); [by apply list_subseteq_cons|exact Hk1].
    + apply (keeps_mono (Private new false :: l)); [by apply list_subseteq_cons|exact Hk2].
  - destruct (keeps_source _ _ _ _ Hk2 (Private new false)) as [_ ->]; [by apply elem_of_cons; left|done].
  - rewrite page_refcount_cons in Hc1. unfold page_refcount, zero_ref in *. rewrite Hsl2, Hz2. lia.
  - intros id0 Hid0. rewrite !page_refcount_cons. unfold page_refcount, zero_ref.
    rewrite Hsl2, Hz2, Hsl1, Hz1, page_refs_source. rewrite decide_False; [lia|].
    simpl. intros [= <-]. rewrite Hnone in Hid0. by destruct Hid0.
Qed.
End Alloc.
