(* ===== verification/EntryOps.v ===== *)
(** * Effects of the operations on page entries

    Creating, forking and un-sharing the entries of [PageTable.v], over the
    ownership invariant of [RefCount.v]. *)

From S2P Require Import Prelude Convert MemTypes Fault Memops ObjectQueue Fabric PageTable.
From S2P Require Import RefCount PageAlloc.
Local Open Scope Z_scope.
Local Open Scope emu_scope.

(** [m] creates an entry of protections [prot] that shows [bytes] ([None]: it is
    not resident), owns its source, and disturbs nobody. *)
Definition creates (base : Z) (f : Fabric) (l : list PageSource) (prot : MemProt)
    (kind : PageSource -> Prop) (bytes : option (list Z)) (m : SM Fabric PageEntry) : Prop :=
  exists e f', m f = Some (e, f') /\ fabric_inv base f' (source e :: l) /\ keeps base l f f' /\
    protections e = prot /\ kind (source e) /\ source_bytes f' (source e) = bytes /\
    next_page f' <= next_page f + 4096.

Definition kind_of_flags (flags : MemMapFlags) (s : PageSource) : Prop :=
  match flags with
  | MapPrivate => exists id, s = Private id false
  | MapCow => exists id, s = Private id true
  | MapShared => exists id, s = Shared id
  end.

(** What kind of source a region maps, and what its page number [i] shows. *)
Definition region_kind (region : MapRegion) (s : PageSource) : Prop :=
  match region with
  | RegionObject shared _ => exists slot, s = Object slot shared
  | RegionExtern flags _ | RegionAnon flags => kind_of_flags flags s
  end.

Definition region_bytes (f : Fabric) (region : MapRegion) (i : Z) : option (list Z) :=
  match region with
  | RegionObject _ _ => None
  | RegionExtern _ ptr => load_bytes (mem f) (ptr + i * 4096) PAGE_BYTES
  | RegionAnon _ => Some ZERO_BYTES
  end.

(** The embedder's promise about the host memory it maps ([map_extern]): the
    [n] pages exist, and they are not the allocator's. *)
Definition region_ok (base : Z) (f : Fabric) (region : MapRegion) (n : Z) : Prop :=
  match region with
  | RegionExtern _ ptr => forall i, 0 <= i < n ->
      page_mapped (mem f) (ptr + i * 4096) /\ ptr + i * 4096 + 4096 <= base
  | _ => True
  end.

Section Entries.
Context {base : Z}.

Lemma creates_page f l prot bytes (mk : positive -> PageSource) kind (m : SM Fabric positive) :
  (forall id, source_page (mk id) = Some id) -> (forall id, kind (mk id)) ->
  (exists id f', m f = Some (id, f') /\
     (forall s, source_page s = Some id ->
        fabric_inv base f' (s :: l) /\ source_bytes f' s = Some bytes) /\
     keeps base l f f' /\ next_page f' <= next_page f + 4096) ->
  creates base f l prot kind (Some bytes)
    (Entry.new_inner (let! id := m in sm_ret (mk id)) prot).
Proof.
  intros Hmk Hkind (id & f' & Hm & Hs & Hk & Hn). unfold creates, Entry.new_inner, sm_bind.
  rewrite Hm. unfold sm_ret. destruct (Hs (mk id) (Hmk id)) as [Hi Hb].
  exists (mkPageEntry (mk id) prot), f'.
  split; [reflexivity|]. split; [exact Hi|]. split; [exact Hk|]. split; [reflexivity|].
  split; [apply Hkind|]. split; [exact Hb|exact Hn].
Qed.

(** Allocated pages read as zeros. *)
Lemma alloc_zeroed_page f l :
  fabric_inv base f l -> room 1 f ->
  exists id f', (let! b := alloc_zeroed in arc_new b) f = Some (id, f') /\
    (forall s, source_page s = Some id ->
       fabric_inv base f' (s :: l) /\ source_bytes f' s = Some ZERO_BYTES) /\
    keeps base l f f' /\ next_page f' <= next_page f + 4096.
Proof.
  intros Hinv Hr. destruct ZERO_BYTES_ok as [Hlen Hby].
  destruct (new_page_spec f l ZERO_BYTES Hinv Hr Hlen Hby) as (id & f' & Hnew & Hs & Hk & Hn & _).
  exists id, f'. unfold sm_bind. rewrite alloc_zeroed_eq, Hnew by done.
  split; [reflexivity|]. split; [exact Hs|]. split; [exact Hk|lia].
Qed.

Lemma extern_page f l p bytes :
  fabric_inv base f l -> page_mapped (mem f) p -> p + 4096 <= base ->
  load_bytes (mem f) p PAGE_BYTES = Some bytes ->
  exists id f', arc_new (new_extern_page p) f = Some (id, f') /\
    (forall s, source_page s = Some id ->
       fabric_inv base f' (s :: l) /\ source_bytes f' s = Some bytes) /\
    keeps base l f f' /\ next_page f' <= next_page f + 4096.
Proof.
  intros Hinv Hmap Hp Hb.
  destruct (arc_new_spec f l (new_extern_page p) Hinv)
    as (id & f' & Hnew & Hs & Hk & Hn & _ & Hat & Hm & _ & _).
  { split; [exact Hmap|]. split; [reflexivity|exact Hp]. }
  { intros id b _ Hd. discriminate Hd. }
  exists id, f'. split; [exact Hnew|]. split; [|split; [exact Hk|lia]].
  intros s Hsp. split; [by apply Hs|]. unfold source_bytes.
  rewrite (source_at_page _ _ id), Hat by done. simpl. unfold page_bytes. by rewrite Hm.
Qed.

Lemma new_inner_ext m m' prot f : m f = m' f -> Entry.new_inner m prot f = Entry.new_inner m' prot f.
Proof. intros H. unfold Entry.new_inner, sm_bind. by rewrite H. Qed.

Lemma creates_ext f l prot kind bytes m m' :
  m f = m' f -> creates base f l prot kind bytes m -> creates base f l prot kind bytes m'.
Proof. unfold creates. by intros ->. Qed.

(** ** [map_inner]'s entries *)

Lemma extern_entry_spec f l prot flags p bytes :
  fabric_inv base f l -> page_mapped (mem f) p -> p + 4096 <= base ->
  load_bytes (mem f) p PAGE_BYTES = Some bytes ->
  creates base f l prot (kind_of_flags flags) (Some bytes)
    (match flags with
     | MapPrivate => Entry.new_extern p prot
     | MapCow => Entry.new_extern_cow p prot
     | MapShared => Entry.new_extern_shared p prot
     end).
Proof.
  intros Hinv Hmap Hp Hb. pose proof (extern_page f l p bytes Hinv Hmap Hp Hb) as Hnew.
  destruct flags.
  - apply (creates_page _ _ _ _ (fun id => Private id false)); [done|by eexists|exact Hnew].
  - apply (creates_page _ _ _ _ Shared); [done|by eexists|exact Hnew].
  - apply (creates_page _ _ _ _ (fun id => Private id true)); [done|by eexists|exact Hnew].
Qed.

Lemma anon_entry_spec f l prot flags :
  fabric_inv base f l -> room 1 f -> zero_clean f ->
  creates base f l prot (kind_of_flags flags) (Some ZERO_BYTES)
    (match flags with
     | MapPrivate => Entry.new_zeroed prot
     | MapCow => Entry.new_zeroed_cow prot
     | MapShared => Entry.new_zeroed_shared prot
     end).
Proof.
  intros Hinv Hr Hcl. pose proof (alloc_zeroed_page f l Hinv Hr) as Hnew.
  assert (forall (mk : positive -> PageSource) prot m,
    m f = (let! id := (let! b := alloc_zeroed in arc_new b) in sm_ret (mk id)) f ->
    Entry.new_inner (let! id := (let! b := alloc_zeroed in arc_new b) in sm_ret (mk id)) prot f =
    Entry.new_inner m prot f) as Hre by (intros; by apply new_inner_ext).
  assert (forall mk : positive -> PageSource,
    (let! b := alloc_zeroed in let! id := arc_new b in sm_ret (mk id)) f =
    (let! id := (let! b := alloc_zeroed in arc_new b) in sm_ret (mk id)) f) as Hassoc.
  { intros mk. unfold sm_bind. by destruct (alloc_zeroed f) as [[b f1]|]. }
  destruct flags.
  - eapply creates_ext; [apply (Hre (fun id => Private id false)), Hassoc|].
    apply creates_page; [done|by eexists|exact Hnew].
  - eapply creates_ext; [apply (Hre Shared), Hassoc|].
    apply creates_page; [done|by eexists|exact Hnew].
  - apply (creates_page _ _ _ _ (fun id => Private id true)); [done|by eexists|].
    by apply zero_page_spec.
Qed.
Lemma obj_entry_spec f l prot object off sh :
  fabric_inv base f l ->
  creates base f l prot (fun s => exists slot, s = Object slot sh) None
    (Entry.new_obj object off sh prot).
Proof.
  intros Hinv. destruct (slot_new_spec f l object off sh Hinv) as (sid & f' & Hn & Hi & Hk & Hx & Hat & _).
  exists (mkPageEntry (Object sid sh) prot), f'.
  unfold Entry.new_obj, Entry.new_inner, Source.new_obj, sm_bind. rewrite Hn. unfold sm_ret.
  split; [reflexivity|]. split; [exact Hi|]. split; [exact Hk|]. split; [reflexivity|].
  split; [by eexists|]. split; [|lia]. unfold source_bytes. simpl. by rewrite Hat.
Qed.

Lemma map_entry_spec f l prot region i n :
  fabric_inv base f l -> room 1 f -> zero_clean f -> region_ok base f region n ->
  0 <= i < n -> fits 52 i ->
  creates base f l prot (region_kind region) (region_bytes f region i)
    (Table.map_entry prot region i).
Proof.
  intros Hinv Hr Hcl Hreg Hi Hfit. destruct region as [sh object|flags ptr|flags]; simpl.
  - eapply creates_ext; [|by apply (obj_entry_spec f l prot object i sh)].
    unfold sm_bind, sm_of_option, PageNum.from_page_number_unchecked.
    rewrite PageNum_MAX_value. unfold fits in Hfit. by destruct (Z.leb_spec i (2 ^ 52 - 1)); [|lia].
  - destruct (Hreg i Hi) as [[Hwf [bytes Hb]] Hp]. rewrite Hb.
    eapply creates_ext; [|by apply (extern_entry_spec f l prot flags (ptr + i * 4096) bytes)].
    unfold sm_bind, sm_of_option. rewrite u64_to_usize_id by (unfold fits in *; lia).
    unfold PagePtr.add_pages. change PAGE_SIZE with 4096. rewrite PagePtr_new_wf by exact Hwf.
    by destruct flags.
  - eapply creates_ext; [|by apply anon_entry_spec]. by destruct flags.
Qed.

(** ** Forking *)

(** What a source and its child become. *)
Definition forked (f : Fabric) (s s1 s2 : PageSource) : Prop :=
  match s with
  | Shared _ | Object _ true => s1 = s /\ s2 = s
  | Private id _ => s1 = Private id true /\ s2 = Private id true
  | Object slot false =>
      match source_at f s with
      | Some (id, _) => s1 = Private id true /\ s2 = Private id true
      | None => s1 = s /\ exists slot', s2 = Object slot' false
      end
  end.

Lemma clone_private f l id s0 :
  fabric_inv base f (s0 :: l) -> source_page s0 = Some id ->
  forall s, source_page s = Some id ->
  exists f', arc_clone id f = Some (id, f') /\ fabric_inv base f' (s :: s :: l) /\
    (forall k, keeps base k f f') /\ next_page f' = next_page f.
Proof.
  intros Hinv Hs0 s Hs.
  destruct (arc_clone_spec f _ id Hinv) as (f' & Hf' & Hown & Hk & Hn).
  { apply (counted_live Hinv). by apply (source_page_counted s0); [apply elem_of_cons; left|]. }
  exists f'. split; [exact Hf'|]. split; [|done].
  specialize (Hown s Hs). rewrite Permutation_swap in Hown.
  by apply (inv_same_refs _ _ s0 s id).
Qed.

Lemma source_fork_spec f l s :
  fabric_inv base f (s :: l) ->
  exists s1 s2 f', Source.fork s f = Some ((s1, s2), f') /\ forked f s s1 s2 /\
    fabric_inv base f' (s1 :: s2 :: l) /\ keeps base l f f' /\
    source_bytes f' s1 = source_bytes f s /\ source_bytes f' s2 = source_bytes f s /\
    next_page f' = next_page f.
Proof.
  intros Hinv. destruct s as [id|id w|sid [|]].
  - destruct (clone_private f l id _ Hinv eq_refl (Shared id) eq_refl) as (f' & Hf' & Hi & Hk & Hn).
    exists (Shared id), (Shared id), f'. simpl. unfold sm_bind, sm_ret. rewrite Hf'.
    destruct (keeps_source _ _ _ _ (Hk [Shared id]) (Shared id)) as [_ Hb]; [by apply elem_of_cons; left|].
    split; [reflexivity|]. split; [done|]. split; [exact Hi|]. split; [apply Hk|]. done.
  - destruct (clone_private f l id _ Hinv eq_refl (Private id true) eq_refl) as (f' & Hf' & Hi & Hk & Hn).
    exists (Private id true), (Private id true), f'. simpl. unfold sm_bind, sm_ret. rewrite Hf'.
    destruct (keeps_source _ _ _ _ (Hk [Private id true]) (Private id true)) as [_ Hb];
      [by apply elem_of_cons; left|].
    rewrite (source_bytes_same f (Private id w) (Private id true) id) by done.
    split; [reflexivity|]. split; [done|]. split; [exact Hi|]. split; [apply Hk|]. done.
  - destruct (slot_clone_spec f _ sid true true Hinv) as (f' & Hf' & Hi & Hk & Hn);
      [by apply elem_of_cons; left|].
    exists (Object sid true), (Object sid true), f'. simpl. unfold sm_bind, sm_ret. rewrite Hf'.
    destruct (keeps_source _ _ _ _ (Hk [Object sid true]) (Object sid true)) as [_ Hb];
      [by apply elem_of_cons; left|].
    split; [reflexivity|]. split; [done|]. split; [exact Hi|]. split; [apply Hk|]. done.
  - destruct (inv_source_ok Hinv (Object sid false)) as (n & sl & Hsl & Hlive);
      [by apply elem_of_cons; left|].
    assert (cell_of f sid = Some (slot_page sl)) as Hcell by (unfold cell_of; by rewrite Hsl).
    simpl. unfold sm_bind, get_slot. rewrite Hsl. cbn [strong value].
    destruct (slot_page sl) as [id|] eqn:Hp.
    + destruct (Hlive id eq_refl) as [a Ha].
      assert (page_at f id = Some (value a)) as Hat by (unfold page_at; by rewrite Ha).
      assert (source_at f (Object sid false) = Some (id, value a)) as Hso.
      { by rewrite source_at_slot, Hcell, Hat. }
      set (P := Private id true).
      assert (source_bytes f (Object sid false) = source_bytes f P) as Hbytes.
      { unfold source_bytes. rewrite Hso, (source_at_page _ _ id), Hat by done. done. }
      destruct (arc_clone_spec f _ id Hinv) as (f1 & Hf1 & Hown1 & Hk1 & Hn1); [eauto|].
      pose proof (Hown1 P eq_refl) as Hi1.
      destruct (clone_private f1 _ id P Hi1 eq_refl P eq_refl) as (f2 & Hf2 & Hi2 & Hk2 & Hn2).
      rewrite (Permutation_swap (Object sid false) P), Permutation_swap in Hi2.
      destruct (slot_drop_spec f2 _ sid false Hi2) as (f3 & Hf3 & Hi3 & Hk3 & Hn3).
      assert (keeps base (P :: P :: l) f f3) as Hk.
      { apply (keeps_trans _ _ f1); [apply Hk1|]. by apply (keeps_trans _ _ f2). }
      destruct (keeps_source _ _ _ _ Hk P) as [_ Hb]; [by apply elem_of_cons; left|].
      exists P, P, f3. rewrite Hf1, Hf2, Hf3, Hso. unfold sm_ret.
      split; [reflexivity|]. split; [done|]. split; [exact Hi3|].
      split; [by eapply keeps_mono; [|exact Hk]; do 2 apply list_subseteq_cons|].
      rewrite Hbytes. split; [exact Hb|]. split; [exact Hb|lia].
    + assert (source_at f (Object sid false) = None) as Hso by by rewrite source_at_slot, Hcell.
      destruct (slot_new_spec f _ (slot_object sl) (slot_page_offset sl) false Hinv)
        as (sid' & f' & Hf' & Hi & Hk & Hn & Hnone & _).
      exists (Object sid false), (Object sid' false), f'.
      unfold Source.new_obj, sm_bind. rewrite Hf', Hso. unfold sm_ret.
      destruct (keeps_source _ _ _ _ Hk (Object sid false)) as [_ Hb]; [by apply elem_of_cons; left|].
      split; [reflexivity|]. split; [eauto|]. rewrite Permutation_swap in Hi. split; [exact Hi|].
      split; [by eapply keeps_mono; [|exact Hk]; apply list_subseteq_cons|].
      split; [exact Hb|]. split; [|done]. unfold source_bytes. by rewrite Hnone, Hso.
Qed.

(** ** Resolving copy-on-write *)

(** What [un_cow] leaves of a source: a write-protected private page becomes
    an unprotected one. *)
Definition un_cowed (s s' : PageSource) : Prop :=
  match s with
  | Private _ true => exists id', s' = Private id' false
  | _ => s' = s
  end.

Definition is_cow (s : PageSource) : bool :=
  match s with Private _ true => true | _ => false end.

(** Whether an entry was write-protected or not, its source afterwards is owned
    like before, and a source that was is owned by nobody else. *)
Lemma un_cow_spec e f l entry :
  fabric_inv base f (source entry :: l) -> room 1 f -> zero_clean f ->
  exists entry' f', un_cow e entry f = Some ((is_cow (source entry), entry'), f') /\
    un_cowed (source entry) (source entry') /\ protections entry' = protections entry /\
    fabric_inv base f' (source entry' :: l) /\ keeps base l f f' /\
    source_bytes f' (source entry') = source_bytes f (source entry) /\
    (is_cow (source entry) = true -> forall id, source_page (source entry') = Some id ->
       page_refcount f' l id = 0%nat) /\
    (forall id, is_Some (pages f !! id) ->
       (page_refcount f' (source entry' :: l) id <= page_refcount f (source entry :: l) id)%nat) /\
    next_page f' <= next_page f + 4096.
Proof.
  intros Hinv Hr Hcl. destruct entry as [s prot]. cbn [source protections] in *.
  destruct (is_cow s) eqn:Hc.
  2:{ exists (mkPageEntry s prot), f. split; [by destruct s as [|? []|]|]. split; [by destruct s as [|? []|]|].
      split; [done|]. split; [done|]. split; [apply keeps_refl|]. split; [done|]. split; [done|].
      split; [done|lia]. }
  destruct s as [|id [|]|]; try done.
  destruct (inv_source_ok Hinv (Private id true)) as [[n b] Hid]; [by apply elem_of_cons; left|].
  assert (is_Some (source_bytes f (Private id true))) as [bytes Hb].
  { unfold source_bytes. rewrite (source_at_page _ _ id) by done. unfold page_at. rewrite Hid. simpl.
    apply (inv_page _ _ _ Hinv id _ Hid). }
  destruct (make_mut_spec e f l id true bytes Hinv Hr Hcl Hb)
    as (id' & f' & Hf' & Hi & Hk & Hb' & Hc' & Hle & Hn).
  exists (mkPageEntry (Private id' false) prot), f'. unfold un_cow, sm_bind, sm_ret. simpl. rewrite Hf'.
  split; [reflexivity|]. split; [by eexists|]. split; [done|]. split; [exact Hi|]. split; [exact Hk|].
  rewrite Hb. split; [exact Hb'|]. split; [|split; [exact Hle|exact Hn]]. intros _ id'' [= <-]. exact Hc'.
Qed.
End Entries.
