(* ===== verification/TableOps.v ===== *)
(** * Effects of the operations on page tables

    Each operation of [Table] on one table of a machine, whose other tables hold
    the sources [ext]: what becomes of the table, that ownership stays exact and
    that nobody else's pages change. *)

From S2P Require Import Prelude Convert MemTypes Fault Memops ObjectQueue Fabric PageTable.
From S2P Require Import RefCount PageAlloc EntryOps.
Local Open Scope Z_scope.
Local Open Scope emu_scope.

(** The references a table holds. *)
Definition sources (t : PageTable) : list PageSource := (fun kv => source kv.2) <$> map_to_list t.

Lemma sources_empty : sources ∅ = [].
Proof. unfold sources. by rewrite map_to_list_empty. Qed.

Lemma sources_insert t p e : t !! p = None -> sources (<[p := e]> t) ≡ₚ source e :: sources t.
Proof. intros Hp. unfold sources. by rewrite map_to_list_insert. Qed.

Lemma sources_delete t p e : t !! p = Some e -> sources t ≡ₚ source e :: sources (delete p t).
Proof.
  intros Hp. rewrite <- (insert_delete_id t p e Hp) at 1. by rewrite sources_insert by apply lookup_delete_eq.
Qed.

Lemma sources_update t p e e' :
  t !! p = Some e -> sources (<[p := e']> t) ≡ₚ source e' :: sources (delete p t).
Proof. intros Hp. rewrite <- insert_delete_eq. by rewrite sources_insert by apply lookup_delete_eq. Qed.

Lemma sources_elem t p e : t !! p = Some e -> source e ∈ sources t.
Proof.
  intros Hp. unfold sources. apply list_elem_of_fmap. exists (p, e). split; [done|].
  by apply elem_of_map_to_list.
Qed.

Lemma room_mono n m f : room n f -> m <= n -> room m f.
Proof. unfold room. lia. Qed.

Section Ops.
Context {base : Z} {Error : Type}.

(** ** Checking a range *)

Lemma ensure_pages_find l ok :
  Table.ensure_pages (Error := Error) l ok =
  match list_find (fun p => ok p = false) l with
  | Some (_, p) => Err (general_protection (PageNum.vaddr_base p))
  | None => Ok tt
  end.
Proof.
  induction l as [|p l IH]; simpl; [done|]. unfold ensure. destruct (ok p) eqn:E.
  - rewrite decide_False by congruence. rewrite IH. by destruct (list_find _ l) as [[]|].
  - by rewrite decide_True.
Qed.

Lemma ensure_pages_ok l ok :
  Table.ensure_pages (Error := Error) l ok = Ok tt <-> forall p, p ∈ l -> ok p = true.
Proof.
  rewrite ensure_pages_find. split.
  - destruct (list_find _ l) as [[]|] eqn:E; [done|]. intros _ p Hp.
    apply list_find_None in E. rewrite Forall_forall in E. destruct (ok p) eqn:Ep; [done|].
    by destruct (E p Hp).
  - intros Hall. assert (list_find (fun p => ok p = false) l = None) as ->; [|done].
    apply list_find_None, Forall_forall. intros p Hp. rewrite Hall; done.
Qed.

(** ** Mapping *)

(** The table after mapping [region] at the pages [l], the first one being
    [start]. *)
Definition mapped_at (f f' : Fabric) (start : PageNumber) (l : list PageNumber)
    (prot : MemProt) (region : MapRegion) (t t' : PageTable) : Prop :=
  (forall p, p ∉ l -> t' !! p = t !! p) /\
  (forall p, p ∈ l -> exists e, t' !! p = Some e /\ protections e = prot /\
     region_kind region (source e) /\
     source_bytes f' (source e) = region_bytes f region (p - start)).

Lemma region_bytes_keeps f f' l region i n :
  region_ok base f region n -> 0 <= i < n -> keeps base l f f' ->
  region_bytes f' region i = region_bytes f region i.
Proof.
  intros Hreg Hi Hk. destruct region as [|flags ptr|]; simpl; [done| |done].
  destruct (Hreg i Hi) as [_ Hp]. apply load_bytes_ext. intros a Ha. rewrite PAGE_BYTES_Z in Ha.
  apply (keeps_host _ _ _ _ Hk). lia.
Qed.

Lemma region_ok_keeps f f' l region n :
  region_ok base f region n -> keeps base l f f' -> region_ok base f' region n.
Proof.
  intros Hreg Hk. destruct region as [|flags ptr|]; simpl; [done| |done]. intros i Hi.
  pose proof (region_bytes_keeps f f' l (RegionExtern flags ptr) i n Hreg Hi Hk) as Hb. simpl in Hb.
  destruct (Hreg i Hi) as [[Hwf Hm] Hp]. split; [|done]. split; [done|]. by rewrite Hb.
Qed.

Lemma map_pages_spec start l prot region n table f ext :
  fabric_inv base f (sources table ++ ext) -> room (Z.of_nat (length l)) f -> zero_clean f ->
  region_ok base f region n -> NoDup l ->
  (forall p, p ∈ l -> table !! p = None /\ 0 <= p - start < n /\ fits 52 (p - start)) ->
  exists table' f', Table.map_pages start l prot region table f = Some (table', f') /\
    fabric_inv base f' (sources table' ++ ext) /\ keeps base (sources table ++ ext) f f' /\
    mapped_at f f' start l prot region table table' /\
    next_page f' <= next_page f + Z.of_nat (length l) * 4096.
Proof.
  revert table f. induction l as [|p l IH]; intros table f Hinv Hr Hcl Hreg Hnd Hl.
  { exists table, f. split; [done|]. split; [done|]. split; [apply keeps_refl|].
    split; [|simpl; lia]. split; [done|]. intros p Hp. by apply elem_of_nil in Hp. }
  apply NoDup_cons in Hnd as [Hp Hnd].
  destruct (Hl p) as (Hnone & Hi & Hfit); [by apply elem_of_cons; left|].
  destruct (map_entry_spec f _ prot region (p - start) n Hinv) as
    (e & f1 & He & Hinv1 & Hk1 & Hprot & Hkind & Hbytes & Hn1); try done.
  { eapply room_mono; [exact Hr|]. simpl. lia. }
  assert (fabric_inv base f1 (sources (<[p := e]> table) ++ ext)) as Hinv1'.
  { by rewrite sources_insert. }
  destruct (IH (<[p := e]> table) f1) as (table' & f2 & Hf2 & Hinv2 & Hk2 & [Hout Hin] & Hn2); try done.
  { unfold room in *. simpl in Hr. lia. }
  { by apply (keeps_clean _ _ _ _ Hk1). }
  { by eapply region_ok_keeps. }
  { intros q Hq. destruct (Hl q) as (? & ? & ?); [by apply elem_of_cons; right|].
    rewrite lookup_insert_ne by (intros ->; done). done. }
  exists table', f2. simpl. unfold sm_bind. rewrite He, Hnone. split; [exact Hf2|].
  split; [exact Hinv2|].
  assert (sources table ++ ext ⊆ sources (<[p := e]> table) ++ ext) as Hsub.
  { intros s Hs. rewrite sources_insert by done. by apply elem_of_cons; right. }
  split; [by apply (keeps_trans _ _ f1); [|eapply keeps_mono]|]. split; [split|simpl; lia].
  - intros q Hq. apply not_elem_of_cons in Hq as [Hne Hq]. rewrite Hout by done. by apply lookup_insert_ne.
  - intros q Hq. apply elem_of_cons in Hq as [->|Hq].
    + exists e. rewrite Hout by done. rewrite lookup_insert_eq. split; [done|]. split; [done|].
      split; [done|]. rewrite <- Hbytes. apply (keeps_source _ _ _ _ Hk2).
      apply elem_of_app; left. apply elem_of_app; left. apply (sources_elem _ p). apply lookup_insert_eq.
    + destruct (Hin q Hq) as (e' & ? & ? & ? & Hb). exists e'. split; [done|]. split; [done|].
      split; [done|]. rewrite Hb. eapply region_bytes_keeps; [exact Hreg| |exact Hk1].
      apply Hl. by apply elem_of_cons; right.
Qed.

Lemma map_inner_spec table access prot region f ext :
  fabric_inv base f (sources table ++ ext) -> 0 < page_count access ->
  PageNum.wf (start_page access) -> start_page access + page_count access <= 2 ^ 52 ->
  room (page_count access) f -> zero_clean f -> region_ok base f region (page_count access) ->
  let l := access_pages access in
  match list_find (fun p => is_Some (table !! p)) l with
  | Some (_, p) => Table.map_inner (Error := Error) table access prot region f =
      Some ((Err (general_protection (PageNum.vaddr_base p)), table), f)
  | None => exists table' f', Table.map_inner (Error := Error) table access prot region f =
      Some ((Ok tt, table'), f') /\
      fabric_inv base f' (sources table' ++ ext) /\ keeps base (sources table ++ ext) f f' /\
      mapped_at f f' (start_page access) l prot region table table' /\
      next_page f' <= next_page f + page_count access * 4096
  end.
Proof.
  intros Hinv Hpos Hwf Hend Hr Hcl Hreg l. unfold Table.map_inner. rewrite ensure_pages_find. fold l.
  assert (list_find (fun p => negb (bool_decide (is_Some (table !! p))) = false) l =
          list_find (fun p => is_Some (table !! p)) l) as ->.
  { apply list_find_ext. intros p. rewrite negb_false_iff. apply bool_decide_eq_true. }
  destruct (list_find _ l) as [[i p]|] eqn:E; [done|].
  apply list_find_None in E. rewrite Forall_forall in E.
  assert (Z.of_nat (length l) = page_count access) as Hlen.
  { unfold l, access_pages. rewrite length_seqZ. lia. }
  destruct (map_pages_spec (start_page access) l prot region (page_count access) table f ext)
    as (table' & f' & Hf' & Hinv' & Hk & Hm & Hn); try done.
  - by rewrite Hlen.
  - apply NoDup_seqZ.
  - intros p Hp. specialize (E p Hp). unfold l, access_pages in Hp. apply elem_of_seqZ in Hp.
    split; [by destruct (table !! p); [destruct E|]|]. unfold PageNum.wf, fits in *. lia.
  - exists table', f'. unfold sm_bind. rewrite Hf'. split; [done|]. split; [done|]. split; [done|].
    split; [done|]. by rewrite <- Hlen.
Qed.

(** ** Unmapping *)

Lemma unmap_spec l table f ext :
  fabric_inv base f (sources table ++ ext) ->
  exists n table' f', Table.unmap l table f = Some ((n, table'), f') /\
    fabric_inv base f' (sources table' ++ ext) /\ keeps base (sources table' ++ ext) f f' /\
    (forall p, table' !! p = if decide (p ∈ l) then None else table !! p) /\
    (n = 0%nat <-> forall p, p ∈ l -> table !! p = None) /\
    (n = 0%nat -> table' = table /\ f' = f) /\ next_page f' = next_page f.
Proof.
  revert table f. induction l as [|p l IH]; intros table f Hinv; simpl.
  { exists 0%nat, table, f. split; [done|]. split; [done|]. split; [apply keeps_refl|].
    split; [done|]. split; [|done]. split; [|done]. intros _ p Hp. by apply elem_of_nil in Hp. }
  destruct (table !! p) as [e|] eqn:Hp.
  - assert (fabric_inv base f (source e :: (sources (delete p table) ++ ext))) as Hinv0.
    { by rewrite (sources_delete table p e Hp) in Hinv. }
    destruct (source_drop_spec f _ _ Hinv0) as (f1 & Hf1 & Hinv1 & Hk1 & Hn1).
    destruct (IH (delete p table) f1 Hinv1) as (n & table' & f2 & Hf2 & Hinv2 & Hk2 & Ht & Hn & Hz & Hn2).
    exists (S n), table', f2. unfold sm_bind, Entry.drop. rewrite Hf1, Hf2.
    split; [done|]. split; [done|].
    assert (sources table' ++ ext ⊆ sources (delete p table) ++ ext) as Hsub.
    { intros s Hs. apply elem_of_app in Hs. apply elem_of_app. destruct Hs as [Hs|]; [left|by right].
      unfold sources in Hs. apply list_elem_of_fmap in Hs as ([q e'] & -> & Hq).
      apply elem_of_map_to_list in Hq. rewrite Ht in Hq. case_decide; [done|].
      by apply (sources_elem _ q). }
    split; [by apply (keeps_trans _ _ f1); [eapply keeps_mono|]|].
    split; [|split; [|split; [done|lia]]].
    + intros q. rewrite Ht. destruct (decide (q = p)) as [->|Hne].
      * rewrite lookup_delete_eq. rewrite (decide_True (P := p ∈ p :: l)) by (by apply elem_of_cons; left).
        by case_decide.
      * rewrite lookup_delete_ne by done. assert (q ∈ p :: l <-> q ∈ l) as Hiff.
        { rewrite elem_of_cons. tauto. }
        by apply decide_ext.
    + split; [done|]. intros Hall. rewrite Hall in Hp; [done|by apply elem_of_cons; left].
  - destruct (IH table f Hinv) as (n & table' & f2 & Hf2 & Hinv2 & Hk2 & Ht & Hn & Hz & Hn2).
    exists n, table', f2. split; [done|]. split; [done|]. split; [done|].
    split; [|split; [|done]].
    + intros q. rewrite Ht. destruct (decide (q = p)) as [->|Hne].
      * rewrite (decide_True (P := p ∈ p :: l)) by (by apply elem_of_cons; left). by case_decide.
      * assert (q ∈ p :: l <-> q ∈ l) as Hiff by (rewrite elem_of_cons; tauto).
        by apply decide_ext.
    + rewrite Hn. split; intros Hall q Hq.
      * apply elem_of_cons in Hq as [->|Hq]; auto.
      * apply Hall. by apply elem_of_cons; right.
Qed.

(** ** Rewriting every entry

    [fork] and [copy_all_cow_pages] visit all entries and put new ones in their
    place. *)

Definition put_all (l : list (Z * PageEntry)) (t : PageTable) : PageTable :=
  foldl (fun t kv => <[kv.1 := kv.2]> t) t l.

Lemma put_all_lookup l t p :
  NoDup l.*1 -> put_all l t !! p = match list_to_map (M := gmap Z PageEntry) l !! p with
                                   | Some e => Some e | None => t !! p end.
Proof.
  revert t. induction l as [|[q e] l IH]; intros t; simpl; [done|]. rewrite NoDup_cons.
  intros [Hq Hnd]. rewrite IH by done. destruct (decide (p = q)) as [->|Hne].
  - rewrite lookup_insert_eq. by rewrite not_elem_of_list_to_map_1, lookup_insert_eq.
  - by rewrite !lookup_insert_ne by done.
Qed.

(** Putting entries at all the keys of a table replaces it. *)
Lemma put_all_table l t t0 :
  l.*1 = (map_to_list t).*1 -> (t0 = t \/ t0 = ∅) ->
  sources (put_all l t0) ≡ₚ (fun kv => source kv.2) <$> l /\
  forall p, put_all l t0 !! p = list_to_map (M := gmap Z PageEntry) l !! p.
Proof.
  intros Hkeys Ht0. assert (NoDup l.*1) as Hnd by (rewrite Hkeys; apply NoDup_fst_map_to_list).
  assert (forall p, put_all l t0 !! p = list_to_map (M := gmap Z PageEntry) l !! p) as Hp.
  { intros p. rewrite put_all_lookup by done.
    destruct (list_to_map l !! p) eqn:E; [done|]. destruct Ht0 as [->| ->]; [|done].
    apply not_elem_of_list_to_map in E. rewrite Hkeys in E.
    destruct (t !! p) as [e|] eqn:Ep; [|done]. destruct E. apply list_elem_of_fmap.
    exists (p, e). split; [done|]. by apply elem_of_map_to_list. }
  split; [|done]. unfold sources.
  assert (put_all l t0 = list_to_map l) as -> by by apply map_eq.
  by rewrite map_to_list_to_map.
Qed.

(** What forking does to an entry [e] of the state [f]. *)
Definition entry_forked (f f' : Fabric) (e e1 e2 : PageEntry) : Prop :=
  forked f (source e) (source e1) (source e2) /\
  protections e1 = protections e /\ protections e2 = protections e /\
  source_bytes f' (source e1) = source_bytes f (source e) /\
  source_bytes f' (source e2) = source_bytes f (source e).

Lemma forked_keeps f f' l s s1 s2 :
  keeps base l f f' -> s ∈ l -> forked f' s s1 s2 -> forked f s s1 s2.
Proof.
  intros Hk Hs. destruct s as [| |sid [|]]; simpl; try done.
  destruct (keeps_source _ _ _ _ Hk (Object sid false)) as [<- _]; [|done].
  by apply elem_of_app; left.
Qed.

Lemma fork_entries_spec l self child f rest :
  fabric_inv base f (((fun kv => source kv.2) <$> l) ++ rest) ->
  exists l1 l2 f', Table.fork_entries l self child f = Some ((put_all l1 self, put_all l2 child), f') /\
    l1.*1 = l.*1 /\ l2.*1 = l.*1 /\
    Forall3 (fun kv kv1 kv2 => entry_forked f f' kv.2 kv1.2 kv2.2) l l1 l2 /\
    fabric_inv base f' (((fun kv => source kv.2) <$> l1) ++ ((fun kv => source kv.2) <$> l2) ++ rest) /\
    keeps base rest f f' /\ next_page f' = next_page f.
Proof.
  revert self child f rest. induction l as [|[p e] l IH]; intros self child f rest Hinv.
  { exists [], [], f. split; [done|]. do 2 (split; [done|]). split; [constructor|].
    split; [done|]. split; [apply keeps_refl|done]. }
  simpl in Hinv.
  destruct (source_fork_spec f _ _ Hinv) as (s1 & s2 & f1 & Hf1 & Hfk & Hinv1 & Hk1 & Hb1 & Hb2 & Hn1).
  set (e1 := mkPageEntry s1 (protections e)). set (e2 := mkPageEntry s2 (protections e)).
  destruct (IH (<[p := e1]> self) (<[p := e2]> child) f1 (s1 :: s2 :: rest))
    as (l1 & l2 & f2 & Hf2 & Hl1 & Hl2 & Hall & Hinv2 & Hk2 & Hn2).
  { eapply fabric_inv_proper; [|exact Hinv1]. by rewrite <- !Permutation_middle. }
  exists ((p, e1) :: l1), ((p, e2) :: l2), f2.
  simpl. unfold sm_bind, Entry.fork. unfold sm_bind at 1. rewrite Hf1.
  split; [exact Hf2|]. do 2 (split; [by f_equal|]).
  assert (forall s, s ∈ s1 :: s2 :: rest -> source_bytes f2 s = source_bytes f1 s) as Hsame.
  { intros s Hs. apply (keeps_source _ _ _ _ Hk2). by apply elem_of_app; left. }
  split; [|split; [|split; [|lia]]].
  - constructor.
    + simpl. split; [done|]. do 2 (split; [done|]). split.
      * rewrite Hsame; [done|by apply elem_of_cons; left].
      * rewrite Hsame; [done|apply elem_of_cons; right; by apply elem_of_cons; left].
    + assert (forall kv, kv ∈ l -> source_bytes f1 (source kv.2) = source_bytes f (source kv.2) /\
        (forall s1 s2, forked f1 (source kv.2) s1 s2 -> forked f (source kv.2) s1 s2)) as Hstep.
      { intros kv Hkv. assert (source kv.2 ∈ ((fun kv => source kv.2) <$> l) ++ rest) as Hin.
        { apply elem_of_app; left. apply list_elem_of_fmap. by exists kv. }
        split; [apply (keeps_source _ _ _ _ Hk1); by apply elem_of_app; left|].
        intros. by eapply forked_keeps. }
      clear -Hall Hstep. induction Hall as [|kv kv1 kv2 l l1 l2 (Hfk & ? & ? & Hb1 & Hb2) _ IH]; constructor.
      * destruct (Hstep kv) as [Hb Hf]; [by apply elem_of_cons; left|].
        split; [by apply Hf|]. do 2 (split; [done|]). by rewrite Hb1, Hb2, Hb.
      * apply IH. intros kv' Hkv'. apply Hstep. by apply elem_of_cons; right.
  - eapply fabric_inv_proper; [|exact Hinv2]. simpl.
    rewrite <- !Permutation_middle. done.
  - apply (keeps_trans _ _ f1).
    + eapply keeps_mono; [|exact Hk1]. by apply list_subseteq_app_r.
    + eapply keeps_mono; [|exact Hk2]. by do 2 apply list_subseteq_cons.
Qed.

(** Reading a table given by the rewritten list of another's entries. *)
Lemma list_to_map_keys (l : list (Z * PageEntry)) (t : PageTable) p :
  l.*1 = (map_to_list t).*1 -> t !! p = None -> list_to_map (M := gmap Z PageEntry) l !! p = None.
Proof.
  intros Hk Hp. apply not_elem_of_list_to_map_1. rewrite Hk.
  intros Hin. apply list_elem_of_fmap in Hin as ([q e] & -> & Hq).
  apply elem_of_map_to_list in Hq. simpl in *. congruence.
Qed.

Lemma list_to_map_index (l : list (Z * PageEntry)) (t : PageTable) i p e kv :
  l.*1 = (map_to_list t).*1 -> map_to_list t !! i = Some (p, e) -> l !! i = Some kv ->
  list_to_map (M := gmap Z PageEntry) l !! p = Some kv.2.
Proof.
  intros Hk Hi Hl. apply elem_of_list_to_map_1.
  { rewrite Hk. apply NoDup_fst_map_to_list. }
  assert (l.*1 !! i = (map_to_list t).*1 !! i) as Heq by by rewrite Hk.
  rewrite !list_lookup_fmap, Hi, Hl in Heq. simpl in Heq. injection Heq as <-.
  destruct kv as [q e']. by apply list_elem_of_lookup_2 with i.
Qed.

Lemma table_fork_spec t f ext :
  fabric_inv base f (sources t ++ ext) ->
  exists t1 t2 f', Table.fork t f = Some ((t1, t2), f') /\
    fabric_inv base f' (sources t1 ++ sources t2 ++ ext) /\ keeps base ext f f' /\
    (forall p, t !! p = None -> t1 !! p = None /\ t2 !! p = None) /\
    (forall p e, t !! p = Some e -> exists e1 e2, t1 !! p = Some e1 /\ t2 !! p = Some e2 /\
       entry_forked f f' e e1 e2) /\
    next_page f' = next_page f.
Proof.
  intros Hinv. destruct (fork_entries_spec (map_to_list t) t ∅ f ext Hinv)
    as (l1 & l2 & f' & Hf' & Hk1 & Hk2 & Hall & Hinv' & Hk & Hn).
  destruct (put_all_table l1 t t Hk1 (or_introl eq_refl)) as [Hs1 Hp1].
  destruct (put_all_table l2 t ∅ Hk2 (or_intror eq_refl)) as [Hs2 Hp2].
  exists (put_all l1 t), (put_all l2 ∅), f'. split; [exact Hf'|].
  split; [by rewrite Hs1, Hs2|]. split; [exact Hk|]. split; [|split; [|exact Hn]].
  - intros p Hp. rewrite Hp1, Hp2. by rewrite !(list_to_map_keys _ t).
  - intros p e Hp. apply elem_of_map_to_list, list_elem_of_lookup in Hp as [i Hi].
    destruct (Forall3_lookup_l _ _ _ _ i _ Hall Hi) as (kv1 & kv2 & Hi1 & Hi2 & Hrel).
    exists kv1.2, kv2.2. rewrite Hp1, Hp2.
    by rewrite (list_to_map_index l1 t i p e kv1), (list_to_map_index l2 t i p e kv2).
Qed.

(** ** Resolving every copy-on-write entry *)

Definition entry_un_cowed (f f' : Fabric) (e e' : PageEntry) : Prop :=
  un_cowed (source e) (source e') /\ protections e' = protections e /\
  source_bytes f' (source e') = source_bytes f (source e).

(** Nobody but the entry itself refers to the page of an entry that was
    write-protected. *)
Definition entry_owned (f' : Fabric) (total : list PageSource) (e e' : PageEntry) : Prop :=
  is_cow (source e) = true -> forall id, source_page (source e') = Some id ->
    page_refcount f' total id = 1%nat.

Abbreviation srcs l := ((fun kv : Z * PageEntry => source kv.2) <$> l).

(** Once owned, a page stays owned while the other entries are visited. *)
Lemma owned_stays f1 f2 l l1 e e' rest :
  (is_cow (source e) = true -> forall id, source_page (source e') = Some id ->
     page_refcount f1 (srcs l ++ rest) id = 0%nat) ->
  (forall s id, s ∈ source e' :: rest -> source_page s = Some id ->
     (page_refcount f2 (srcs l1 ++ source e' :: rest) id <=
      page_refcount f1 (srcs l ++ source e' :: rest) id)%nat) ->
  entry_owned f2 (source e' :: srcs l1 ++ rest) e e'.
Proof.
  intros Hown Hle Hc id Hid. specialize (Hown Hc id Hid).
  specialize (Hle (source e') id ltac:(by apply elem_of_cons; left) Hid).
  rewrite !(page_refcount_perm _ (srcs _ ++ source e' :: rest) (source e' :: srcs _ ++ rest)) in Hle
    by (by rewrite Permutation_middle).
  rewrite !page_refcount_cons, !page_refs_source, !decide_True in Hle by done.
  rewrite page_refcount_cons, page_refs_source, decide_True by done. lia.
Qed.

Lemma un_cow_entries_spec en l modified table f rest :
  fabric_inv base f (srcs l ++ rest) -> room (Z.of_nat (length l)) f -> zero_clean f ->
  exists l1 f', Table.un_cow_entries en l modified table f =
      Some ((modified || existsb (fun kv => is_cow (source kv.2)) l, put_all l1 table), f') /\
    l1.*1 = l.*1 /\
    Forall2 (fun kv kv1 => entry_un_cowed f f' kv.2 kv1.2 /\
                           entry_owned f' (srcs l1 ++ rest) kv.2 kv1.2) l l1 /\
    fabric_inv base f' (srcs l1 ++ rest) /\ keeps base rest f f' /\
    (forall s id, s ∈ rest -> source_page s = Some id ->
       (page_refcount f' (srcs l1 ++ rest) id <= page_refcount f (srcs l ++ rest) id)%nat) /\
    next_page f' <= next_page f + Z.of_nat (length l) * 4096.
Proof.
  revert modified table f rest. induction l as [|[p e] l IH]; intros modified table f rest Hinv Hr Hcl.
  { exists [], f. rewrite orb_false_r. split; [done|]. split; [done|]. split; [constructor|].
    split; [done|]. split; [apply keeps_refl|]. split; [done|]. simpl. lia. }
  simpl in Hinv.
  destruct (un_cow_spec en f _ e Hinv) as (e' & f1 & Hf1 & Huc & Hprot & Hinv1 & Hk1 & Hb1 & Hown & Hle1 & Hn1);
    [eapply room_mono; [exact Hr|simpl; lia]|exact Hcl|].
  assert (fabric_inv base f1 (srcs l ++ source e' :: rest)) as Hinv1' by by rewrite <- Permutation_middle.
  destruct (IH (modified || is_cow (source e)) (<[p := e']> table) f1 (source e' :: rest))
    as (l1 & f2 & Hf2 & Hl1 & Hall & Hinv2 & Hk2 & Hle2 & Hn2); [done| | |].
  { unfold room in *. simpl in Hr. lia. }
  { by apply (keeps_clean _ _ _ _ Hk1). }
  exists ((p, e') :: l1), f2. simpl. unfold sm_bind. rewrite Hf1, orb_assoc.
  split; [exact Hf2|]. split; [by f_equal|]. split; [|split; [|split; [|split; [|lia]]]].
  - constructor.
    + split; [|by eapply (owned_stays f1 f2 l)]. split; [done|]. split; [done|]. simpl. rewrite <- Hb1.
      apply (keeps_source _ _ _ _ Hk2). by apply elem_of_cons; left.
    + assert (forall kv, kv ∈ l -> source_bytes f1 (source kv.2) = source_bytes f (source kv.2)) as Hstep.
      { intros kv Hkv. apply (keeps_source _ _ _ _ Hk1). apply elem_of_app; left.
        apply elem_of_app; left. apply list_elem_of_fmap. by exists kv. }
      eapply Forall2_impl_elem; [exact Hall|].
      intros kv kv1 Hkv [(Huc' & Hp' & Hb') Ho]. split.
      * split; [done|]. split; [done|]. rewrite Hb'. by apply Hstep.
      * intros Hc id Hid. rewrite <- (Ho Hc id Hid). apply page_refcount_perm.
        by rewrite Permutation_middle.
  - by rewrite <- Permutation_middle in Hinv2.
  - apply (keeps_trans _ _ f1).
    + eapply keeps_mono; [|exact Hk1]. by apply list_subseteq_app_r.
    + eapply keeps_mono; [|exact Hk2]. by apply list_subseteq_cons.
  - intros s id Hs Hid. specialize (Hle2 s id ltac:(by apply elem_of_cons; right) Hid).
    rewrite !(page_refcount_perm _ (srcs _ ++ source e' :: rest) (source e' :: srcs _ ++ rest)) in Hle2
      by (by rewrite Permutation_middle).
    etrans; [exact Hle2|]. apply Hle1. apply (counted_live Hinv), (source_page_counted s); [|done].
    apply elem_of_cons; right. by apply elem_of_app; right.
Qed.

Lemma un_cow_all_spec en t f ext :
  fabric_inv base f (sources t ++ ext) -> room (Z.of_nat (size t)) f -> zero_clean f ->
  exists b t' f', Table.un_cow_all en t f = Some ((b, t'), f') /\
    (b = true <-> exists p e, t !! p = Some e /\ is_cow (source e) = true) /\
    fabric_inv base f' (sources t' ++ ext) /\ keeps base ext f f' /\
    (forall p, t !! p = None -> t' !! p = None) /\
    (forall p e, t !! p = Some e -> exists e', t' !! p = Some e' /\ entry_un_cowed f f' e e' /\
       entry_owned f' (sources t' ++ ext) e e') /\
    next_page f' <= next_page f + Z.of_nat (size t) * 4096.
Proof.
  intros Hinv Hr Hcl. rewrite <- length_map_to_list in *.
  destruct (un_cow_entries_spec en (map_to_list t) false t f ext Hinv Hr Hcl)
    as (l1 & f' & Hf' & Hk1 & Hall & Hinv' & Hk & _ & Hn).
  destruct (put_all_table l1 t t Hk1 (or_introl eq_refl)) as [Hs1 Hp1].
  eexists _, (put_all l1 t), f'. split; [exact Hf'|].
  split; [|split; [by rewrite Hs1|split; [exact Hk|split; [|split; [|exact Hn]]]]].
  - rewrite orb_false_l, existsb_exists. split.
    + intros ([p e] & Hin & Hc). exists p, e. split; [|done].
      by apply elem_of_map_to_list, list_elem_of_In.
    + intros (p & e & Hp & Hc). exists (p, e). split; [|done].
      by apply list_elem_of_In, elem_of_map_to_list.
  - intros p Hp. rewrite Hp1. by apply (list_to_map_keys _ t).
  - intros p e Hp. apply elem_of_map_to_list, list_elem_of_lookup in Hp as [i Hi].
    destruct (Forall2_lookup_l _ _ _ i _ Hall Hi) as (kv1 & Hi1 & Hrel & Ho).
    exists kv1.2. rewrite Hp1, (list_to_map_index l1 t i p e kv1) by done.
    split; [done|]. split; [done|]. intros Hc id Hid. rewrite <- (Ho Hc id Hid).
    apply page_refcount_perm. by rewrite Hs1.
Qed.
End Ops.
