(* ===== verification/AddressSpace.v ===== *)
(** * What the operations on an address space do

    The contract of the public mapping methods of [io-mmu/src/lib.rs]: ranges,
    mapping, unmapping, protecting, forking and resolving copy-on-write, in
    terms of the bytes the guest sees, the identifier and the pages of the other
    address spaces. *)

From S2P Require Import Prelude Convert MemTypes Fault Memops ObjectQueue Fabric PageTable IoMMU.
From S2P Require Import LookupCache MemAccess GuestMemory RefCount PageAlloc EntryOps TableOps.
Local Open Scope Z_scope.
Local Open Scope emu_scope.

(** ** Ranges *)

Section Ranges.
Context {Error : Type}.

(** The pages of [base, base + size), which must be page-aligned and must not
    wrap, except that it may end at the top of the address space. *)
Definition range_pages (base size : Z) : Result (option PageTableAccess) (MemoryFault Error) :=
  if negb (base mod 4096 =? 0) then Err (general_protection base)
  else if negb (size mod 4096 =? 0) then Err (general_protection base)
  else if 2 ^ 64 <? base + size then Err (general_protection U64_MAX)
  else if size =? 0 then Ok None
  else Ok (Some (mkAccess (base / 4096) (size / 4096))).

Lemma get_pages_spec base size :
  fits 64 base -> fits 64 size -> get_pages base size = Some (range_pages base size).
Proof.
  intros Hb Hs. unfold get_pages, div_page_size_checked, range_pages. rewrite div_rem_eq by done.
  unfold ensure. destruct (Z.eqb_spec (base mod 4096) 0) as [Hb0|]; [|done]. simpl.
  change PAGE_OFFSET_MASK_U64 with (2 ^ 12 - 1). rewrite land_ones_mod by lia.
  change (2 ^ 12) with 4096. destruct (Z.eqb_spec (size mod 4096) 0) as [Hs0|]; [|done]. simpl.
  unfold overflowing_add. rewrite Z.shiftr_div_pow2 by done. change (2 ^ PAGE_SHIFT) with 4096.
  assert (Hdiv : size / 4096 = 0 <-> size = 0).
  { unfold fits in Hs. Z.to_euclidean_division_equations. lia. }
  assert (Hq : (if size / 4096 =? 0 then Ok None else Ok (Some (mkAccess (base / 4096) (size / 4096))))
      = (if size =? 0 then Ok None else Ok (Some (mkAccess (base / 4096) (size / 4096))))
        :> Result (option PageTableAccess) (MemoryFault Error)).
  { destruct (Z.eqb_spec (size / 4096) 0), (Z.eqb_spec size 0); tauto. }
  rewrite Hq. unfold wrap, fits in *.
  destruct (Z.leb_spec (2 ^ 64) (base + size)), (Z.ltb_spec (2 ^ 64) (base + size)); try lia; try done.
  - replace (base + size) with ((base + size - 2 ^ 64) + 1 * 2 ^ 64) by lia.
    rewrite Z.mod_add by lia. rewrite Z.mod_small by lia.
    destruct (Z.eqb_spec (base + size - 2 ^ 64) 0); [lia|done].
  - assert (base + size = 2 ^ 64) as -> by lia. by rewrite Z.mod_same.
Qed.

(** A range of pages: aligned, not empty, inside the address space. *)
Definition range_ok (base size : Z) : Prop :=
  0 <= base /\ 0 < size /\ base mod 4096 = 0 /\ size mod 4096 = 0 /\ base + size <= 2 ^ 64.

Lemma range_pages_some base size a :
  fits 64 base -> fits 64 size -> range_pages base size = Ok (Some a) ->
  range_ok base size /\ a = mkAccess (base / 4096) (size / 4096).
Proof.
  unfold range_pages, range_ok. intros Hb Hs.
  destruct (Z.eqb_spec (base mod 4096) 0); [|done]. destruct (Z.eqb_spec (size mod 4096) 0); [|done].
  simpl. destruct (Z.ltb_spec (2 ^ 64) (base + size)); [done|].
  destruct (Z.eqb_spec size 0); [done|]. intros [= <-]. unfold fits in *. auto with lia.
Qed.

Lemma range_pages_elem base size p :
  range_ok base size ->
  p ∈ access_pages (mkAccess (base / 4096) (size / 4096)) <-> base <= p * 4096 < base + size.
Proof.
  intros (? & ? & ? & ? & ?). unfold access_pages. simpl. rewrite elem_of_seqZ.
  Z.to_euclidean_division_equations. lia.
Qed.
End Ranges.

(** ** What the guest sees *)

(** The byte at a guest address of a table, if its page is resident. *)
Definition guest_view (f : Fabric) (t : PageTable) (vaddr : Z) : option Z :=
  guest_byte (page_of (Error := Empty_set) f t) (mem f) vaddr.

(** The view of a page is what its entry's source shows. *)
Lemma guest_view_entry base f l t vaddr :
  fabric_inv base f l -> (forall s, s ∈ sources t -> s ∈ l) ->
  map_Forall (fun _ e => Prot.wf (protections e)) t ->
  guest_view f t vaddr =
  match t !! (vaddr / 4096) with
  | Some e => match source_bytes f (source e) with
              | Some bytes => bytes !! Z.to_nat (vaddr mod 4096)
              | None => None
              end
  | None => None
  end.
Proof.
  intros Hinv Hsub Hprot. unfold guest_view, guest_byte, host_addr, page_of.
  destruct (t !! (vaddr / 4096)) as [e|] eqn:He; [|done].
  pose proof (inv_source_ok Hinv _ (Hsub _ (sources_elem _ _ _ He))) as Hok.
  pose proof (as_page_spec f e Hok) as Ha. unfold source_bytes, source_at.
  change (entry_page f (mkPageEntry (source e) Prot.NONE)) with (entry_page f e).
  destruct (entry_page f e) as [id|]; [|by rewrite Ha].
  destruct Ha as (n & b & Hb & ->). simpl. rewrite Hb. simpl.
  destruct (inv_page _ _ _ Hinv id _ Hb) as (_ & _ & [Hwf [bytes Hbytes]] & _). simpl in Hwf, Hbytes.
  destruct (tagged_new_spec (allocated_page b) (entry_flags e)) as [-> _]; [done| |].
  { apply entry_flags_wf. by apply (Hprot _ _ He). }
  unfold page_bytes. rewrite Hbytes. simpl.
  apply load_bytes_lookup in Hbytes as [_ Hat]. apply Hat. rewrite PAGE_BYTES_Z.
  apply Z.mod_pos_bound. lia.
Qed.

(** Every table whose references are among [l] reads as before. *)
Definition undisturbed (l : list PageSource) (f f' : Fabric) : Prop :=
  forall t vaddr, (forall s, s ∈ sources t -> s ∈ l) ->
    map_Forall (fun _ e => Prot.wf (protections e)) t ->
    guest_view f' t vaddr = guest_view f t vaddr.

Lemma keeps_undisturbed base f f' l k k' :
  fabric_inv base f k -> fabric_inv base f' k' -> l ⊆ k -> l ⊆ k' -> keeps base l f f' ->
  undisturbed l f f'.
Proof.
  intros Hinv Hinv' Hsub Hsub' Hk t vaddr Hs Hprot.
  rewrite (guest_view_entry base f k) by (try done; intros s Hin; by apply Hsub, Hs).
  rewrite (guest_view_entry base f' k') by (try done; intros s Hin; by apply Hsub', Hs).
  destruct (t !! (vaddr / 4096)) as [e|] eqn:He; [|done].
  destruct (keeps_source _ _ _ _ Hk (source e)) as [_ ->]; [|done].
  apply elem_of_app; left. by apply Hs, (sources_elem _ (vaddr / 4096)).
Qed.

(** ** Identifiers *)

(** The address space took a new identifier, which nothing held before, and
    gave its old one back. *)
Definition renamed (f f' : Fabric) (old new : positive) : Prop :=
  strong_count (tokens f) new = 0%nat /\ counts_positive (tokens f') /\
  forall id, (strong_count (tokens f') id + (if decide (id = old) then 1 else 0) =
              strong_count (tokens f) id + (if decide (id = new) then 1 else 0))%nat.

Lemma change_ident_spec m f :
  counts_positive (tokens f) -> (0 < strong_count (tokens f) (identifier m))%nat ->
  exists id f', change_ident m f = Some (mkIoMMU id (table m), f') /\
    f' = Upd.tokens (tokens f') f /\ renamed f f' (identifier m) id.
Proof.
  intros Hpos Hid. destruct (unique_token_spec (tokens f) Hpos) as (id & t1 & Ht1 & Hfresh & Hpos1 & Hc1).
  destruct (drop_spec t1 (identifier m) Hpos1) as (t2 & Ht2 & Hpos2 & Hc2).
  { rewrite Hc1. case_decide; [lia|done]. }
  exists id, (Upd.tokens t2 f). unfold change_ident, sm_bind, on_tokens, sm_ret.
  rewrite Ht1. simpl. rewrite Ht2. simpl. split; [done|]. split; [done|].
  split; [done|]. split; [done|]. intros id'. simpl. rewrite Hc2, !Hc1.
  destruct (decide (identifier m = id')) as [<-|Hne].
  - rewrite (decide_True (P := identifier m = identifier m)) by done.
    destruct (decide (id = identifier m)) as [->|]; [lia|].
    rewrite (decide_False (P := identifier m = id)) by congruence. lia.
  - rewrite (decide_False (P := id' = identifier m)) by congruence.
    repeat case_decide; simplify_eq; lia.
Qed.

Lemma upd_tokens_inv base f t l : fabric_inv base f l -> fabric_inv base (Upd.tokens t f) l.
Proof. by intros [? ? ? ? ? ? ? ?]; constructor. Qed.

Lemma guest_view_tokens f t tbl vaddr :
  guest_view (Upd.tokens t f) tbl vaddr = guest_view f tbl vaddr.
Proof.
  unfold guest_view, guest_byte, host_addr, page_of. simpl.
  assert (forall e, match Entry.as_page e (Upd.tokens t f) with
                    | Some (Some page, _) => Some page | _ => None end =
                    match Entry.as_page e f with Some (Some page, _) => Some page | _ => None end) as Ha.
  { intros e. unfold Entry.as_page, Entry.mem_page, sm_bind, sm_ret, get_slot, get_backed.
    destruct (source e) as [page|page []|slot sh]; simpl; try (by destruct (pages f !! page)).
    destruct (slots f !! slot) as [[[|n] s]|]; simpl; try done.
    destruct (slot_page s) as [page|]; simpl; [|done]. by destruct (pages f !! page). }
  destruct (tbl !! (vaddr / 4096)) as [e|]; [|done]. specialize (Ha e).
  destruct (Entry.as_page e (Upd.tokens t f)) as [[[p|] ?]|], (Entry.as_page e f) as [[[p'|] ?]|];
    by simplify_eq.
Qed.

(** ** One address space of a machine

    [space_ok base f m ext]: [m] is an address space on [f] whose other
    references are [ext]; the pages are those the invariant of [RefCount.v]
    allows, nobody scribbled over the zero page, and the identifier is live. *)

Record space_ok (base : Z) (f : Fabric) (m : IoMMU) (ext : list PageSource) : Prop := {
  sp_inv : fabric_inv base f (sources (table m) ++ ext);
  sp_clean : zero_clean f;
  sp_table : forall p e, table m !! p = Some e -> PageNum.wf p /\ Prot.wf (protections e);
  sp_counts : counts_positive (tokens f);
  sp_ident : (0 < strong_count (tokens f) (identifier m))%nat;
}.

Lemma space_table_ok base f m ext : space_ok base f m ext -> table_ok f (table m).
Proof.
  intros [Hinv _ Ht _ _] p e Hp. destruct (Ht p e Hp). split; [done|]. split; [done|].
  apply (inv_source_ok Hinv). apply elem_of_app; left. by apply (sources_elem _ p).
Qed.

Lemma space_view base f m ext vaddr :
  space_ok base f m ext ->
  guest_view f (table m) vaddr =
  match table m !! (vaddr / 4096) with
  | Some e => match source_bytes f (source e) with
              | Some bytes => bytes !! Z.to_nat (vaddr mod 4096)
              | None => None
              end
  | None => None
  end.
Proof.
  intros [Hinv _ Ht _ _]. apply (guest_view_entry base f (sources (table m) ++ ext)); [done| |].
  - intros s Hs. by apply elem_of_app; left.
  - intros p e Hp. by apply (Ht p e).
Qed.

(** The result of an operation that changed the table to [t'] in the state [f1]
    and then took a new identifier or not. *)
Lemma finish_renamed base f f1 m t' ext :
  space_ok base f m ext -> tokens f1 = tokens f ->
  fabric_inv base f1 (sources t' ++ ext) -> zero_clean f1 ->
  (forall p e, t' !! p = Some e -> PageNum.wf p /\ Prot.wf (protections e)) ->
  exists id f', change_ident (mkIoMMU (identifier m) t') f1 = Some (mkIoMMU id t', f') /\
    renamed f f' (identifier m) id /\ f' = Upd.tokens (tokens f') f1 /\
    space_ok base f' (mkIoMMU id t') ext.
Proof.
  intros [_ _ _ Hpos Hid] Htok Hinv Hcl Ht.
  destruct (change_ident_spec (mkIoMMU (identifier m) t') f1) as (id & f' & Hch & Hf' & Hren);
    [by rewrite Htok|by rewrite Htok|].
  simpl in *. exists id, f'. split; [done|]. unfold renamed in *. rewrite Htok in Hren.
  split; [done|]. split; [done|]. destruct Hren as (Hfresh & Hpos' & Hc).
  constructor; simpl.
  - rewrite Hf'. by apply upd_tokens_inv.
  - rewrite Hf'. exact Hcl.
  - exact Ht.
  - exact Hpos'.
  - specialize (Hc id). rewrite (decide_True (P := id = id)) in Hc by done. case_decide; [subst; lia|lia].
Qed.

Lemma undisturbed_tokens l f f1 t :
  undisturbed l f f1 -> undisturbed l f (Upd.tokens t f1).
Proof. intros Hu tbl v Hs Hp. rewrite guest_view_tokens. by apply Hu. Qed.

(** [PageTable::modify] with the closure of [protect]. *)
Lemma protect_pages_spec prot l b t :
  NoDup l -> (forall p, p ∈ l -> is_Some (t !! p)) ->
  exists b' t', Table.modify_pages l (protect_entry prot) b t = Some (b', t') /\
    (b' = true <-> b = true \/ exists p e, p ∈ l /\ t !! p = Some e /\ protections e <> prot) /\
    (forall p, t' !! p = if decide (p ∈ l) then (fun e => Entry.protect e prot) <$> t !! p else t !! p) /\
    sources t' ≡ₚ sources t.
Proof.
  revert b t. induction l as [|p l IH]; intros b t Hnd Hl; simpl.
  { exists b, t. split; [done|]. split; [|done]. split; [auto|].
    intros [|(p & e & Hp & _)]; [done|by apply elem_of_nil in Hp]. }
  apply NoDup_cons in Hnd as [Hp Hnd]. destruct (Hl p) as [e He]; [by apply elem_of_cons; left|].
  rewrite He. unfold protect_entry at 1.
  destruct (IH (b || negb (bool_decide (Entry.prot e = prot))) (<[p := Entry.protect e prot]> t) Hnd)
    as (b' & t' & Hm & Hb & Ht & Hs).
  { intros q Hq. rewrite lookup_insert_ne by (intros ->; done). apply Hl. by apply elem_of_cons; right. }
  exists b', t'. split; [done|]. split; [|split].
  - rewrite Hb, orb_true_iff, negb_true_iff, bool_decide_eq_false. split.
    + intros [[|Hne]|(q & e' & Hq & Hqe & Hne)]; [by left|right|right].
      * exists p, e. split; [by apply elem_of_cons; left|done].
      * exists q, e'. rewrite lookup_insert_ne in Hqe by (intros ->; done).
        split; [by apply elem_of_cons; right|done].
    + intros [|(q & e' & Hq & Hqe & Hne)]; [by left; left|]. apply elem_of_cons in Hq as [->|Hq].
      * left. right. by simplify_eq.
      * right. exists q, e'. by rewrite lookup_insert_ne by (intros ->; done).
  - intros q. rewrite Ht. destruct (decide (q = p)) as [->|Hne].
    + rewrite decide_False, lookup_insert_eq by done.
      rewrite decide_True by (by apply elem_of_cons; left). by rewrite He.
    + rewrite lookup_insert_ne by done.
      assert (q ∈ p :: l <-> q ∈ l) as Hiff by (rewrite elem_of_cons; tauto). by apply decide_ext.
  - rewrite Hs. rewrite (sources_update t p e) by done. by rewrite <- (sources_delete t p e).
Qed.

Section Space.
Context {Error : Type} {base : Z} {f : Fabric} {m : IoMMU} {ext : list PageSource}.
Context (Hok : space_ok base f m ext).

Abbreviation Res := (Result unit (MemoryFault Error)).

(** Nothing happened. *)
Definition unchanged (r r' : Res) (m' : IoMMU) (f' : Fabric) : Prop := r' = r /\ m' = m /\ f' = f.

(** ** Mapping *)

Inductive MapCall :=
  | CallMap (lazy shared : bool)
  | CallExtern (ptr : Z) (readonly shared : bool)
  | CallDevice (device : positive) (shared : bool).

Definition map_call (c : MapCall) (vbase size : Z) (prot : MemProt) :
    SM Fabric (Res * IoMMU) :=
  match c with
  | CallMap lazy shared => map m vbase size lazy shared prot
  | CallExtern ptr readonly shared => map_extern m vbase size ptr readonly shared prot
  | CallDevice device shared => map_device_dyn m vbase size device shared prot
  end.

(** The region a call maps; the calls without one panic. *)
Definition call_region (c : MapCall) : option MapRegion :=
  match c with
  | CallMap lazy shared =>
      Some (RegionAnon (if shared then MapShared else if lazy then MapCow else MapPrivate))
  | CallExtern ptr readonly shared =>
      if (ptr mod 4096 =? 0) && negb (ptr =? 0) && negb (readonly && shared) then
        Some (RegionExtern (if shared then MapShared else if readonly then MapCow else MapPrivate) ptr)
      else None
  | CallDevice device shared => Some (RegionObject shared device)
  end.

(** The byte at offset [d] of a freshly mapped region. *)
Definition region_view (region : MapRegion) (d : Z) : option Z :=
  match region with
  | RegionAnon _ => Some 0
  | RegionExtern _ ptr => mem f !! (ptr + d)
  | RegionObject _ _ => None
  end.

(** What a mapping call does. *)
Definition map_result (vbase size : Z) (prot : MemProt) (region : MapRegion)
    (r : Res) (m' : IoMMU) (f' : Fabric) : Prop :=
  match range_pages (Error := Error) vbase size with
  | Err e => unchanged (Err e) r m' f'
  | Ok None => unchanged (Ok tt) r m' f'
  | Ok (Some a) =>
      match list_find (fun p => is_Some (table m !! p)) (access_pages a) with
      | Some (_, p) => unchanged (Err (general_protection (p * 4096))) r m' f'
      | None => r = Ok tt /\ renamed f f' (identifier m) (identifier m') /\
          undisturbed ext f f' /\
          (forall p, vbase <= p * 4096 < vbase + size ->
             exists e, table m' !! p = Some e /\ protections e = prot /\ region_kind region (source e)) /\
          (forall p, ~ vbase <= p * 4096 < vbase + size -> table m' !! p = table m !! p) /\
          (forall v, vbase <= v < vbase + size ->
             guest_view f' (table m') v = region_view region (v - vbase)) /\
          (forall v, ~ vbase <= v < vbase + size ->
             guest_view f' (table m') v = guest_view f (table m) v)
      end
  end.

Lemma map_call_region c vbase size prot region :
  call_region c = Some region ->
  map_call c vbase size prot f = map_region m vbase size prot region f.
Proof.
  destruct c as [lazy shared|ptr readonly shared|device shared]; simpl.
  - intros [= <-]. unfold map. by destruct lazy, shared.
  - destruct (Z.eqb_spec (ptr mod 4096) 0) as [Hal|]; [|done].
    destruct (Z.eqb_spec ptr 0); [done|]. simpl. intros Hr.
    unfold map_extern, is_multiple_of, sm_bind, sm_assert, sm_of_option.
    change PAGE_SIZE with 4096. rewrite Hal. simpl.
    destruct (Z.eqb_spec ptr 0); [done|]. simpl.
    unfold PagePtr.new, is_multiple_of. change PAGE_OFFSET_MASK with (2 ^ 12 - 1).
    rewrite land_ones_mod by lia. change (2 ^ 12) with 4096. change PAGE_SIZE with 4096. rewrite Hal. simpl.
    destruct readonly, shared; simplify_eq/=; done.
  - by intros [= <-].
Qed.

Lemma page_of_range vbase size v :
  range_ok vbase size -> vbase <= v < vbase + size <-> vbase <= v / 4096 * 4096 < vbase + size.
Proof. intros (? & ? & ? & ? & ?). Z.to_euclidean_division_equations. lia. Qed.

Lemma region_view_bytes region n i vbase v :
  region_ok base f region n -> 0 <= i < n -> vbase mod 4096 = 0 -> i = v / 4096 - vbase / 4096 ->
  match region_bytes f region i with
  | Some bytes => bytes !! Z.to_nat (v mod 4096)
  | None => None
  end = region_view region (v - vbase).
Proof.
  intros Hreg Hi Hal Heq. destruct region as [|flags ptr|flags]; simpl; [done| |].
  - destruct (Hreg i Hi) as [[_ [bytes Hb]] _]. rewrite Hb.
    apply load_bytes_lookup in Hb as [_ Hat]. rewrite <- Hat.
    + f_equal. Z.to_euclidean_division_equations. lia.
    + rewrite PAGE_BYTES_Z. apply Z.mod_pos_bound. lia.
  - apply ZERO_BYTES_lookup, Z.mod_pos_bound. lia.
Qed.

(** The table of a successful mapping, and what it shows. *)
Lemma mapped_views vbase size prot region t' f1 :
  range_ok vbase size -> Prot.wf prot -> region_ok base f region (size / 4096) ->
  fabric_inv base f1 (sources t' ++ ext) -> keeps base (sources (table m) ++ ext) f f1 ->
  mapped_at f f1 (vbase / 4096) (access_pages (mkAccess (vbase / 4096) (size / 4096))) prot region
    (table m) t' ->
  (forall p e, t' !! p = Some e -> PageNum.wf p /\ Prot.wf (protections e)) /\
  (forall v, vbase <= v < vbase + size -> guest_view f1 t' v = region_view region (v - vbase)) /\
  (forall v, ~ vbase <= v < vbase + size -> guest_view f1 t' v = guest_view f (table m) v).
Proof.
  intros Hr Hprot Hreg Hinv Hk [Hout Hin].
  assert (forall p e, t' !! p = Some e -> PageNum.wf p /\ Prot.wf (protections e)) as Hwf.
  { intros p e Hp. destruct (decide (p ∈ access_pages (mkAccess (vbase / 4096) (size / 4096)))) as [Hin'|Hn].
    - destruct (Hin p Hin') as (e' & He' & Hpe & _). simplify_eq.
      apply range_pages_elem in Hin'; [|done]. destruct Hr as (? & ? & ? & ? & ?).
      split; [|done]. unfold PageNum.wf, fits. lia.
    - rewrite Hout in Hp by done. by apply (sp_table _ _ _ _ Hok). }
  assert (forall v, guest_view f1 t' v = match t' !! (v / 4096) with
    | Some e => match source_bytes f1 (source e) with
                | Some bytes => bytes !! Z.to_nat (v mod 4096) | None => None end
    | None => None end) as Hview.
  { intros v. apply (guest_view_entry base f1 (sources t' ++ ext)); [done| |].
    - intros s Hs. by apply elem_of_app; left.
    - intros p e Hp. by apply (Hwf p e). }
  split; [done|]. split; intros v Hv; rewrite Hview; apply (page_of_range vbase size v Hr) in Hv || idtac.
  - pose proof (proj2 (range_pages_elem vbase size (v / 4096) Hr) Hv) as Hp.
    destruct (Hin _ Hp) as (e & -> & _ & _ & ->). destruct Hr as (? & ? & ? & ? & ?).
    apply (region_view_bytes region (size / 4096)); try done. Z.to_euclidean_division_equations. lia.
  - rewrite (page_of_range vbase size v Hr), <- (range_pages_elem vbase size _ Hr) in Hv.
    rewrite Hout by done. rewrite (space_view base f m ext v Hok).
    destruct (table m !! (v / 4096)) as [e|] eqn:He; [|done].
    destruct (keeps_source _ _ _ _ Hk (source e)) as [_ ->]; [|done].
    apply elem_of_app; left. apply elem_of_app; left. by apply (sources_elem _ (v / 4096)).
Qed.

Lemma map_region_spec vbase size prot region :
  fits 64 vbase -> fits 64 size -> Prot.wf prot ->
  region_ok base f region (size / 4096) -> room (size / 4096) f ->
  exists r m' f', map_region m vbase size prot region f = Some ((r, m'), f') /\
    space_ok base f' m' ext /\ map_result vbase size prot region r m' f' /\
    next_page f' <= next_page f + size / 4096 * 4096.
Proof.
  intros Hb Hs Hprot Hreg Hroom. unfold map_region, map_result, sm_bind, sm_of_option.
  rewrite get_pages_spec by done.
  assert (0 <= size / 4096) by (apply Z.div_pos; unfold fits in Hs; lia).
  destruct (range_pages vbase size) as [[a|]|err] eqn:Hrange.
  2:{ exists (Ok tt), m, f. split; [done|]. split; [done|]. split; [done|lia]. }
  2:{ exists (Err err), m, f. split; [done|]. split; [done|]. split; [done|lia]. }
  apply range_pages_some in Hrange as [Hr ->]; [|done|done].
  unfold modify_table, modify_table_full, sm_bind.
  pose proof (map_inner_spec (Error := Error) (table m) (mkAccess (vbase / 4096) (size / 4096)) prot region f ext
    (sp_inv _ _ _ _ Hok)) as Hmap. simpl in Hmap.
  specialize (Hmap ltac:(destruct Hr as (? & ? & ? & ? & ?); Z.to_euclidean_division_equations; lia)
    ltac:(destruct Hr as (? & ? & ? & ? & ?); unfold PageNum.wf, fits in *; Z.to_euclidean_division_equations; lia)
    ltac:(destruct Hr as (? & ? & ? & ? & ?); Z.to_euclidean_division_equations; lia)
    Hroom (sp_clean _ _ _ _ Hok) Hreg).
  destruct (list_find _ _) as [[i p]|] eqn:Hfind.
  - rewrite Hmap. unfold sm_ret. simpl. exists (Err (general_protection (p * 4096))), m, f.
    apply list_find_Some in Hfind as (Hp & _).
    apply list_elem_of_lookup_2, (range_pages_elem vbase size p Hr) in Hp.
    rewrite vaddr_base_eq by (destruct Hr as (? & ? & ? & ? & ?); unfold PageNum.wf, fits; lia).
    split; [by destruct m|]. split; [done|]. split; [done|lia].
  - destruct Hmap as (t' & f1 & -> & Hinv1 & Hk1 & Hmapped & Hn1). unfold sm_ret. simpl.
    destruct (mapped_views vbase size prot region t' f1) as (Hwf & Hin & Hout); try done.
    destruct (finish_renamed base f f1 m t' ext Hok) as (id & f' & Hch & Hren & Hf' & Hok');
      [by apply (keeps_tokens _ _ _ _ Hk1)|done|by apply (keeps_clean _ _ _ _ Hk1), Hok|done|].
    rewrite Hch. exists (Ok tt), (mkIoMMU id t'), f'. split; [done|]. split; [done|].
    split; [|rewrite Hf'; simpl; lia]. split; [done|]. split; [done|].
    destruct Hmapped as [Hmo Hmi]. split.
    { rewrite Hf'. apply undisturbed_tokens.
      apply (keeps_undisturbed base f f1 ext (sources (table m) ++ ext) (sources t' ++ ext));
        [apply Hok|done|by apply list_subseteq_app_r|by apply list_subseteq_app_r|].
      eapply keeps_mono; [|exact Hk1]. by apply list_subseteq_app_r. }
    assert (forall p, p ∈ access_pages (mkAccess (vbase / 4096) (size / 4096)) <->
              vbase <= p * 4096 < vbase + size) as Hpages by (intros; by apply range_pages_elem).
    split; [|split; [|split]].
    + intros p Hp. apply Hpages in Hp. destruct (Hmi p Hp) as (e & ? & ? & ? & _). eauto.
    + intros p Hp. rewrite <- Hpages in Hp. by apply Hmo.
    + intros v Hv. rewrite Hf', guest_view_tokens. by apply Hin.
    + intros v Hv. rewrite Hf', guest_view_tokens. by apply Hout.
Qed.

(** C11: mapping a range.  Through [map], [map_extern] or [map_device] a range
    that is misaligned, wraps around or meets a mapped page is refused with
    exactly the documented fault and nothing changes; an empty range changes
    nothing either.  Otherwise every page of the range gets the requested kind
    and protections, the guest reads zeros there (anonymous memory), the host
    region's bytes (external memory) or nothing yet (an object), every other
    byte of this and of every other address space is as before, the identifier
    is a fresh one, and the call never runs into undefined behaviour. *)
Theorem map_correct c vbase size prot region :
  fits 64 vbase -> fits 64 size -> Prot.wf prot ->
  call_region c = Some region -> region_ok base f region (size / 4096) -> room (size / 4096) f ->
  exists r m' f', map_call c vbase size prot f = Some ((r, m'), f') /\
    space_ok base f' m' ext /\ map_result vbase size prot region r m' f'.
Proof.
  intros Hb Hs Hprot Hc Hreg Hroom. rewrite (map_call_region c _ _ _ region Hc).
  destruct (map_region_spec vbase size prot region) as (r & m' & f' & ? & ? & ? & _); eauto 10.
Qed.

(** ** Unmapping *)

Definition unmap_result (vbase size : Z) (r : Res) (m' : IoMMU) (f' : Fabric) : Prop :=
  match range_pages (Error := Error) vbase size with
  | Err e => unchanged (Err e) r m' f'
  | Ok None => unchanged (Ok tt) r m' f'
  | Ok (Some a) =>
      if decide (Forall (fun p => table m !! p = None) (access_pages a)) then unchanged (Ok tt) r m' f'
      else r = Ok tt /\ renamed f f' (identifier m) (identifier m') /\ undisturbed ext f f' /\
        (forall p, table m' !! p = if decide (vbase <= p * 4096 < vbase + size) then None else table m !! p) /\
        (forall v, guest_view f' (table m') v =
           if decide (vbase <= v < vbase + size) then None else guest_view f (table m) v)
  end.

(** The frame of an operation that only removed entries or rewrote them with
    sources that show the same. *)
Lemma same_bytes_view f1 t' v :
  fabric_inv base f1 (sources t' ++ ext) ->
  (forall p e, t' !! p = Some e -> PageNum.wf p /\ Prot.wf (protections e)) ->
  (forall e', t' !! (v / 4096) = Some e' -> exists e, table m !! (v / 4096) = Some e /\
     source_bytes f1 (source e') = source_bytes f (source e)) ->
  (t' !! (v / 4096) = None -> table m !! (v / 4096) = None) ->
  guest_view f1 t' v = guest_view f (table m) v.
Proof.
  intros Hinv Hwf Hsome Hnone. rewrite (space_view base f m ext v Hok).
  rewrite (guest_view_entry base f1 (sources t' ++ ext)); [|done| |].
  - destruct (t' !! (v / 4096)) as [e'|].
    + destruct (Hsome e' eq_refl) as (e & -> & ->). done.
    + by rewrite Hnone.
  - intros s Hs. by apply elem_of_app; left.
  - intros p e Hp. by apply (Hwf p e).
Qed.

Lemma keeps_ext_undisturbed f1 t' k :
  fabric_inv base f1 (sources t' ++ ext) -> keeps base k f f1 -> ext ⊆ k -> undisturbed ext f f1.
Proof.
  intros Hinv Hk Hsub.
  apply (keeps_undisturbed base f f1 ext (sources (table m) ++ ext) (sources t' ++ ext));
    [apply Hok|done|by apply list_subseteq_app_r|by apply list_subseteq_app_r|].
  by eapply keeps_mono.
Qed.

Lemma unmap_space_spec vbase size :
  fits 64 vbase -> fits 64 size ->
  exists r m' f', unmap m vbase size f = Some ((r, m'), f') /\
    space_ok base f' m' ext /\ unmap_result vbase size r m' f' /\ next_page f' = next_page f.
Proof.
  intros Hb Hs. unfold unmap, unmap_result, sm_bind, sm_of_option. rewrite get_pages_spec by done.
  destruct (range_pages vbase size) as [[a|]|err] eqn:Hrange.
  2:{ exists (Ok tt), m, f. done. }
  2:{ exists (Err err), m, f. done. }
  apply range_pages_some in Hrange as [Hr ->]; [|done|done].
  unfold modify_table, modify_table_full, sm_bind.
  set (l := access_pages (mkAccess (vbase / 4096) (size / 4096))).
  assert (forall p, p ∈ l <-> vbase <= p * 4096 < vbase + size) as Hl by (intros; by apply range_pages_elem).
  destruct (unmap_spec l (table m) f ext (sp_inv _ _ _ _ Hok))
    as (n & t' & f1 & -> & Hinv1 & Hk1 & Ht & Hn & Hz & Hn1).
  unfold sm_ret. simpl. destruct (decide (Forall (fun p => table m !! p = None) l)) as [Hnone|Hsome].
  - rewrite Forall_forall in Hnone. pose proof (proj2 Hn Hnone) as Hn0. destruct (Hz Hn0) as [-> ->].
    rewrite Hn0. simpl. exists (Ok tt), m, f. split; [by destruct m|]. done.
  - assert (n <> 0%nat) as Hn0.
    { intros ->. apply Hsome, Forall_forall. by apply Hn. }
    destruct (Nat.eqb_spec n 0); [done|]. simpl.
    assert (forall p e, t' !! p = Some e -> table m !! p = Some e) as Hsub.
    { intros p e. rewrite Ht. by case_decide. }
    destruct (finish_renamed base f f1 m t' ext Hok) as (id & f' & Hch & Hren & Hf' & Hok');
      [by apply (keeps_tokens _ _ _ _ Hk1)|done|by apply (keeps_clean _ _ _ _ Hk1), Hok| |].
    { intros p e Hp. by apply (sp_table _ _ _ _ Hok), Hsub. }
    rewrite Hch. exists (Ok tt), (mkIoMMU id t'), f'. split; [done|]. split; [done|].
    split; [|rewrite Hf'; simpl; lia]. split; [done|]. split; [done|].
    split; [rewrite Hf'; apply undisturbed_tokens;
      apply (keeps_ext_undisturbed f1 t' _ Hinv1 Hk1); by apply list_subseteq_app_r|].
    simpl. split.
    + intros p. rewrite Ht. by apply decide_ext.
    + intros v. rewrite Hf', guest_view_tokens. case_decide as Hv.
      * apply (page_of_range vbase size v Hr), Hl in Hv.
        unfold guest_view, guest_byte, host_addr, page_of. by rewrite Ht, decide_True.
      * rewrite (page_of_range vbase size v Hr), <- Hl in Hv.
        assert (t' !! (v / 4096) = table m !! (v / 4096)) as Hsame by by rewrite Ht, decide_False.
        apply same_bytes_view; [done| | |by rewrite Hsame].
        -- intros p e Hp. by apply (sp_table _ _ _ _ Hok), Hsub.
        -- intros e' He'. exists e'. rewrite <- Hsame. split; [done|].
           apply (keeps_source _ _ _ _ Hk1). apply elem_of_app; left. apply elem_of_app; left.
           by apply (sources_elem _ (v / 4096)).
Qed.

(** C12: unmapping a range.  A misaligned or wrapping range is refused and a range
    with nothing mapped is accepted, both without any change.  Otherwise exactly
    the pages of the range are gone, every other byte of this and of every other
    address space reads as before although pages may have been freed, and the
    identifier is a fresh one. *)
Theorem unmap_correct vbase size :
  fits 64 vbase -> fits 64 size ->
  exists r m' f', unmap m vbase size f = Some ((r, m'), f') /\
    space_ok base f' m' ext /\ unmap_result vbase size r m' f'.
Proof.
  intros Hb Hs. destruct (unmap_space_spec vbase size Hb Hs) as (r & m' & f' & ? & ? & ? & _). eauto 10.
Qed.

(** ** Protecting *)

Definition protect_result (vbase size : Z) (prot : MemProt) (r : Res) (m' : IoMMU) (f' : Fabric) : Prop :=
  match range_pages (Error := Error) vbase size with
  | Err e => unchanged (Err e) r m' f'
  | Ok None => unchanged (Ok tt) r m' f'
  | Ok (Some a) =>
      match list_find (fun p => table m !! p = None) (access_pages a) with
      | Some (_, p) => unchanged (Err (general_protection (p * 4096))) r m' f'
      | None => r = Ok tt /\ f' = Upd.tokens (tokens f') f /\
          (forall p, table m' !! p =
             if decide (vbase <= p * 4096 < vbase + size)
             then (fun e => mkPageEntry (source e) prot) <$> table m !! p else table m !! p) /\
          ((exists p e, vbase <= p * 4096 < vbase + size /\ table m !! p = Some e /\ protections e <> prot) /\
             renamed f f' (identifier m) (identifier m') \/
           (forall p e, vbase <= p * 4096 < vbase + size -> table m !! p = Some e -> protections e = prot) /\
             identifier m' = identifier m /\ f' = f)
      end
  end.

Lemma protect_space_spec vbase size prot :
  fits 64 vbase -> fits 64 size -> Prot.wf prot ->
  exists r m' f', protect m vbase size prot f = Some ((r, m'), f') /\
    space_ok base f' m' ext /\ protect_result vbase size prot r m' f' /\ next_page f' = next_page f.
Proof.
  intros Hb Hs Hprot. unfold protect, protect_result, sm_bind, sm_of_option. rewrite get_pages_spec by done.
  destruct (range_pages vbase size) as [[a|]|err] eqn:Hrange.
  2:{ exists (Ok tt), m, f. done. }
  2:{ exists (Err err), m, f. done. }
  apply range_pages_some in Hrange as [Hr ->]; [|done|done].
  unfold modify_table, modify_table_full, sm_bind, Table.modify. rewrite ensure_pages_find.
  set (l := access_pages (mkAccess (vbase / 4096) (size / 4096))).
  assert (forall p, p ∈ l <-> vbase <= p * 4096 < vbase + size) as Hl by (intros; by apply range_pages_elem).
  assert (list_find (fun p => bool_decide (is_Some (table m !! p)) = false) l =
          list_find (fun p => table m !! p = None) l) as ->.
  { apply list_find_ext. intros p. rewrite bool_decide_eq_false. symmetry. apply eq_None_not_Some. }
  destruct (list_find _ l) as [[i p]|] eqn:Hfind.
  { unfold sm_ret. simpl. exists (Err (general_protection (p * 4096))), m, f.
    apply list_find_Some in Hfind as (Hp & _). apply list_elem_of_lookup_2, Hl in Hp.
    rewrite vaddr_base_eq by (destruct Hr as (? & ? & ? & ? & ?); unfold PageNum.wf, fits; lia).
    split; [by destruct m|]. done. }
  apply list_find_None in Hfind. rewrite Forall_forall in Hfind.
  destruct (protect_pages_spec prot l false (table m)) as (b & t' & -> & Hbt & Ht & Hsrc).
  { apply NoDup_seqZ. }
  { intros p Hp. apply not_eq_None_Some. by apply Hfind. }
  assert (fabric_inv base f (sources t' ++ ext)) as Hinv1 by (rewrite Hsrc; apply Hok).
  assert (forall p e, t' !! p = Some e -> PageNum.wf p /\ Prot.wf (protections e)) as Hwf.
  { intros p e. rewrite Ht. case_decide; [|apply (sp_table _ _ _ _ Hok)].
    intros Hp. apply fmap_Some in Hp as (e0 & He0 & ->). split; [|done]. by apply (sp_table _ _ _ _ Hok p e0). }
  assert (forall p, t' !! p = if decide (vbase <= p * 4096 < vbase + size)
    then (fun e => mkPageEntry (source e) prot) <$> table m !! p else table m !! p) as Ht'.
  { intros p. rewrite Ht. by apply decide_ext. }
  unfold sm_ret. simpl. destruct b; simpl.
  - destruct (finish_renamed base f f m t' ext Hok eq_refl Hinv1 (sp_clean _ _ _ _ Hok) Hwf)
      as (id & f' & Hch & Hren & Hf' & Hok').
    rewrite Hch. exists (Ok tt), (mkIoMMU id t'), f'. split; [done|]. split; [done|].
    split; [|by rewrite Hf']. split; [done|]. split; [done|]. split; [done|]. left. split; [|done].
    destruct (proj1 Hbt eq_refl) as [|(p & e & Hp & Hpe & Hne)]; [done|].
    exists p, e. by rewrite <- Hl.
  - exists (Ok tt), (mkIoMMU (identifier m) t'), f. split; [done|].
    split; [constructor; try done; apply Hok|]. split; [|done]. split; [done|].
    split; [by destruct f|]. split; [done|]. right. split; [|done].
    intros p e Hp Hpe. destruct (decide (protections e = prot)) as [|Hne]; [done|].
    assert (false = true); [|done]. apply Hbt. right. exists p, e. by rewrite Hl.
Qed.

(** C13: protecting a range.  A range that is misaligned, wraps around or has an
    unmapped page is refused with the fault of its first unmapped page, and
    nothing changes.  Otherwise exactly the entries of the range take the new
    protections and keep their pages, so every byte of every address space reads
    as before; the identifier is renewed exactly when some protection differed. *)
Theorem protect_correct vbase size prot :
  fits 64 vbase -> fits 64 size -> Prot.wf prot ->
  exists r m' f', protect m vbase size prot f = Some ((r, m'), f') /\
    space_ok base f' m' ext /\ protect_result vbase size prot r m' f' /\
    undisturbed ext f f' /\ (forall v, guest_view f' (table m') v = guest_view f (table m) v).
Proof.
  intros Hb Hs Hprot.
  destruct (protect_space_spec vbase size prot Hb Hs Hprot) as (r & m' & f' & Hp & Hok' & Hres & _).
  exists r, m', f'. split; [done|]. split; [done|]. split; [done|].
  assert (f' = Upd.tokens (tokens f') f /\ forall p, table m' !! p = table m !! p \/
    exists e, table m !! p = Some e /\ table m' !! p = Some (mkPageEntry (source e) prot)) as [Hf' Ht].
  { unfold protect_result, unchanged in Hres.
    assert (f = Upd.tokens (tokens f) f) by by destruct f.
    destruct (range_pages vbase size) as [[a|]|]; [|by destruct Hres as (_ & -> & ->); auto..].
    destruct (list_find _ _) as [[]|]; [by destruct Hres as (_ & -> & ->); auto|].
    destruct Hres as (_ & Hf' & Ht & _). split; [done|]. intros p. rewrite Ht.
    case_decide; [|by left]. destruct (table m !! p) as [e|]; [right; by exists e|by left]. }
  split.
  - intros t v _ _. by rewrite Hf', guest_view_tokens.
  - intros v. apply same_bytes_view; [apply Hok'|apply Hok'| |].
    + intros e' He'. destruct (Ht (v / 4096)) as [Heq|(e & He & Heq)]; rewrite Heq in He'.
      * exists e'. split; [done|]. by rewrite Hf'.
      * exists e. split; [done|]. simplify_eq. by rewrite Hf'.
    + intros Hn. destruct (Ht (v / 4096)) as [Heq|(e & He & Heq)]; rewrite Heq in Hn; done.
Qed.
End Space.

(** ** Forking *)

Lemma sources_swap t1 t2 ext : sources t1 ++ sources t2 ++ ext ≡ₚ sources t2 ++ sources t1 ++ ext.
Proof. by rewrite !app_assoc, (Permutation_app_comm (sources t1)). Qed.

(** Both sides of a fork: the child shares its parent's identifier. *)
Definition fork_result (f : Fabric) (m : IoMMU) (ext : list PageSource)
    (m' child : IoMMU) (f' : Fabric) : Prop :=
  identifier child = identifier m' /\ undisturbed ext f f' /\
  (forall v, guest_view f' (table m') v = guest_view f (table m) v) /\
  (forall v, guest_view f' (table child) v = guest_view f (table m) v) /\
  (forall p, match table m !! p with
     | None => table m' !! p = None /\ table child !! p = None
     | Some e => exists e1 e2, table m' !! p = Some e1 /\ table child !! p = Some e2 /\
         forked f (source e) (source e1) (source e2) /\
         protections e1 = protections e /\ protections e2 = protections e
     end) /\
  (identifier m' = identifier m <-> table m <> ∅) /\
  (forall id, (strong_count (tokens f') id + (if decide (id = identifier m) then 1 else 0) =
               strong_count (tokens f) id + (if decide (id = identifier m') then 2 else 0))%nat).

Section Fork.
Context {base : Z} {f : Fabric} {m : IoMMU} {ext : list PageSource}.
Context (Hok : space_ok base f m ext).

Lemma clone_ident_spec f1 id :
  counts_positive (tokens f1) -> (0 < strong_count (tokens f1) id)%nat ->
  exists t, on_tokens (Ident.clone id) f1 = Some (id, Upd.tokens t f1) /\ counts_positive t /\
    (0 < strong_count t id)%nat /\
    forall id', strong_count t id' = (strong_count (tokens f1) id' + if decide (id' = id) then 1 else 0)%nat.
Proof.
  intros Hpos Hid. destruct (clone_spec _ _ Hpos Hid) as (t & Ht & Hpos' & Hc).
  exists t. unfold on_tokens. rewrite Ht. split; [done|]. split; [done|]. split.
  - rewrite Hc, decide_True by done. lia.
  - intros id'. rewrite Hc. destruct (decide (id = id')) as [<-|].
    + rewrite decide_True by done. lia.
    + rewrite decide_False by congruence. lia.
Qed.

(** A table whose entries show what the address space's entries showed. *)
Definition shows_same (f1 : Fabric) (t1 : PageTable) : Prop :=
  (forall q, table m !! q = None -> t1 !! q = None) /\
  (forall q e, table m !! q = Some e -> exists e1, t1 !! q = Some e1 /\
     protections e1 = protections e /\ source_bytes f1 (source e1) = source_bytes f (source e)).

Lemma shows_same_wf f1 t1 : shows_same f1 t1 ->
  forall q e', t1 !! q = Some e' -> PageNum.wf q /\ Prot.wf (protections e').
Proof.
  intros [Hnone Hsome] q e' Hq. destruct (table m !! q) as [e|] eqn:He; [|by rewrite Hnone in Hq].
  destruct (Hsome q e He) as (e'' & He'' & Hp & _). simplify_eq. rewrite Hp.
  by apply (sp_table _ _ _ _ Hok q e).
Qed.

Lemma shows_same_view f1 t1 k :
  shows_same f1 t1 -> fabric_inv base f1 k -> (forall s, s ∈ sources t1 -> s ∈ k) ->
  forall v, guest_view f1 t1 v = guest_view f (table m) v.
Proof.
  intros Hsame Hinv Hsub v. pose proof (shows_same_wf f1 t1 Hsame) as Hwf.
  destruct Hsame as [Hnone Hsome]. rewrite (space_view base f m ext v Hok).
  rewrite (guest_view_entry base f1 k) by (try done; intros q e Hq; by apply (Hwf q e)).
  destruct (table m !! (v / 4096)) as [e|] eqn:He.
  - destruct (Hsome _ e He) as (e1' & -> & _ & ->). done.
  - by rewrite Hnone.
Qed.

Lemma fork_spec :
  exists m' child f', fork m f = Some ((m', child), f') /\
    space_ok base f' m' (sources (table child) ++ ext) /\
    space_ok base f' child (sources (table m') ++ ext) /\
    fork_result f m ext m' child f' /\ next_page f' = next_page f.
Proof.
  unfold fork, modify_table_full, sm_bind.
  destruct (table_fork_spec (table m) f ext (sp_inv _ _ _ _ Hok))
    as (t1 & t2 & f1 & -> & Hinv1 & Hk & Hnone & Hsome & Hn).
  unfold sm_ret.
  assert (forall b : bool, b = is_empty t2 -> b = true <-> table m = ∅) as Hempty.
  { intros b ->. unfold is_empty. rewrite bool_decide_eq_true. split; intros He; apply map_eq; intros p.
    - rewrite lookup_empty. destruct (table m !! p) as [e|] eqn:Hp; [|done].
      destruct (Hsome p e Hp) as (_ & e2 & _ & Hp2 & _). by rewrite He in Hp2.
    - rewrite lookup_empty. apply Hnone. by rewrite He. }
  pose proof (keeps_tokens _ _ _ _ Hk) as Htok.
  assert (shows_same f1 t1 /\ shows_same f1 t2) as [Hs1 Hs2].
  { split; split; try (intros q Hq; by apply Hnone); intros q e He;
      destruct (Hsome q e He) as (e1 & e2 & ? & ? & _ & ? & ? & ? & ?); eauto. }
  assert (forall v, guest_view f1 t1 v = guest_view f (table m) v) as Hv1.
  { apply (shows_same_view f1 t1 _ Hs1 Hinv1). intros s Hs. by apply elem_of_app; left. }
  assert (forall v, guest_view f1 t2 v = guest_view f (table m) v) as Hv2.
  { apply (shows_same_view f1 t2 _ Hs2 Hinv1). intros s Hs.
    apply elem_of_app; right. by apply elem_of_app; left. }
  assert (undisturbed ext f f1) as Hund.
  { apply (keeps_undisturbed base f f1 ext (sources (table m) ++ ext) (sources t1 ++ sources t2 ++ ext));
      [apply Hok|done|by apply list_subseteq_app_r|by do 2 apply list_subseteq_app_r|done]. }
  assert (forall p, match table m !! p with
     | None => t1 !! p = None /\ t2 !! p = None
     | Some e => exists e1 e2, t1 !! p = Some e1 /\ t2 !! p = Some e2 /\
         forked f (source e) (source e1) (source e2) /\
         protections e1 = protections e /\ protections e2 = protections e
     end) as Hent.
  { intros p. destruct (table m !! p) as [e|] eqn:He; [|by apply Hnone].
    destruct (Hsome p e He) as (e1 & e2 & ? & ? & ? & ? & ? & _). eauto 10. }
  assert (forall id t, counts_positive t -> (0 < strong_count t id)%nat ->
    space_ok base (Upd.tokens t f1) (mkIoMMU id t1) (sources t2 ++ ext) /\
    space_ok base (Upd.tokens t f1) (mkIoMMU id t2) (sources t1 ++ ext)) as Hspaces.
  { intros id t Hpos Hid. split; constructor; simpl; try done.
    - by apply upd_tokens_inv.
    - by apply (keeps_clean _ _ _ _ Hk), Hok.
    - by apply (shows_same_wf f1).
    - apply upd_tokens_inv. by rewrite sources_swap.
    - by apply (keeps_clean _ _ _ _ Hk), Hok.
    - by apply (shows_same_wf f1). }
  assert (forall id t, id = identifier m <-> table m <> ∅ ->
    (forall i, (strong_count t i + (if decide (i = identifier m) then 1 else 0) =
       strong_count (tokens f1) i + (if decide (i = id) then 2 else 0))%nat) ->
    fork_result f m ext (mkIoMMU id t1) (mkIoMMU id t2) (Upd.tokens t f1)) as Hres.
  { intros id t Hid Htk. split; [done|]. split; [by apply undisturbed_tokens|]. simpl.
    split; [intros v; by rewrite guest_view_tokens|]. split; [intros v; by rewrite guest_view_tokens|].
    split; [exact Hent|]. split; [exact Hid|]. by rewrite <- Htok. }
  specialize (Hempty _ eq_refl).
  pose proof (sp_counts _ _ _ _ Hok) as Hpos. pose proof (sp_ident _ _ _ _ Hok) as Hid.
  rewrite <- Htok in Hpos, Hid. destruct (is_empty t2).
  - destruct (change_ident_spec (mkIoMMU (identifier m) t1) f1 Hpos Hid)
      as (id & f2 & -> & Hf2 & Hfresh & Hpos2 & Hc2). simpl in *.
    destruct (clone_ident_spec f2 id Hpos2) as (t & -> & Hpos' & Hid' & Hct).
    { specialize (Hc2 id). rewrite (decide_True (P := id = id)) in Hc2 by done.
      destruct (decide (id = identifier m)) as [->|]; lia. }
    rewrite Hf2. change (Upd.tokens t (Upd.tokens (tokens f2) f1)) with (Upd.tokens t f1).
    destruct (Hspaces id t Hpos' Hid'). exists (mkIoMMU id t1), (mkIoMMU id t2), (Upd.tokens t f1).
    split; [done|]. split; [done|]. split; [done|]. split; [|exact Hn].
    apply Hres.
    + split; [intros ->; lia|]. intros Hne. destruct Hne. by apply Hempty.
    + intros i. rewrite Hct. specialize (Hc2 i). destruct (decide (i = id)), (decide (i = identifier m)); lia.
  - destruct (clone_ident_spec f1 (identifier m) Hpos Hid) as (t & Hcl & Hpos' & Hid' & Hct).
    simpl. rewrite Hcl. destruct (Hspaces (identifier m) t Hpos' Hid').
    exists (mkIoMMU (identifier m) t1), (mkIoMMU (identifier m) t2), (Upd.tokens t f1).
    split; [done|]. split; [done|]. split; [done|]. split; [|exact Hn].
    apply Hres.
    + split; [|done]. intros _ He. assert (false = true); [by apply Hempty|done].
    + intros i. rewrite Hct. case_decide; lia.
Qed.

(** C10: forking.  The child and the parent both show, byte for byte, what the
    parent showed, with the same protections page by page; shared mappings keep
    referring to the same pages, private ones and resident private object pages
    become write-protected references to one page on both sides, and no other
    address space is disturbed.  No host page is copied. *)
Theorem fork_correct :
  exists m' child f', fork m f = Some ((m', child), f') /\
    space_ok base f' m' (sources (table child) ++ ext) /\
    space_ok base f' child (sources (table m') ++ ext) /\
    fork_result f m ext m' child f' /\ next_page f' = next_page f.
Proof. apply fork_spec. Qed.

(** ** Resolving copy-on-write *)

Definition copy_result (m' : IoMMU) (f' : Fabric) : Prop :=
  undisturbed ext f f' /\
  (forall v, guest_view f' (table m') v = guest_view f (table m) v) /\
  (forall p, match table m !! p with
     | None => table m' !! p = None
     | Some e => exists e', table m' !! p = Some e' /\ protections e' = protections e /\
         un_cowed (source e) (source e') /\ entry_owned f' (sources (table m') ++ ext) e e'
     end) /\
  ((exists p e, table m !! p = Some e /\ is_cow (source e) = true) /\
     renamed f f' (identifier m) (identifier m') \/
   (forall p e, table m !! p = Some e -> is_cow (source e) = false) /\
     identifier m' = identifier m /\ tokens f' = tokens f).

Lemma copy_spec en :
  room (Z.of_nat (size (table m))) f ->
  exists m' f', copy_all_cow_pages en m f = Some (m', f') /\
    space_ok base f' m' ext /\ copy_result m' f' /\
    next_page f' <= next_page f + Z.of_nat (size (table m)) * 4096.
Proof.
  intros Hroom. unfold copy_all_cow_pages, modify_table, modify_table_full, sm_bind.
  destruct (un_cow_all_spec en (table m) f ext (sp_inv _ _ _ _ Hok) Hroom (sp_clean _ _ _ _ Hok))
    as (b & t' & f1 & -> & Hb & Hinv1 & Hk & Hnone & Hsome & Hn).
  unfold sm_ret. cbn [Result_map]. cbv beta iota.
  assert (shows_same f1 t') as Hsame.
  { split; [exact Hnone|]. intros q e He. destruct (Hsome q e He) as (e' & ? & (? & ? & ?) & ?). eauto. }
  pose proof (shows_same_wf f1 t' Hsame) as Hwf.
  assert (forall v, guest_view f1 t' v = guest_view f (table m) v) as Hv.
  { apply (shows_same_view f1 t' _ Hsame Hinv1). intros s Hs. by apply elem_of_app; left. }
  assert (undisturbed ext f f1) as Hund.
  { apply (keeps_undisturbed base f f1 ext (sources (table m) ++ ext) (sources t' ++ ext));
      [apply Hok|done|by apply list_subseteq_app_r|by apply list_subseteq_app_r|done]. }
  assert (forall p, match table m !! p with
     | None => t' !! p = None
     | Some e => exists e', t' !! p = Some e' /\ protections e' = protections e /\
         un_cowed (source e) (source e') /\ entry_owned f1 (sources t' ++ ext) e e'
     end) as Hent.
  { intros p. destruct (table m !! p) as [e|] eqn:He; [|by apply Hnone].
    destruct (Hsome p e He) as (e' & ? & (? & ? & ?) & ?). eauto 10. }
  pose proof (keeps_tokens _ _ _ _ Hk) as Htok.
  assert (zero_clean f1) as Hcl by by apply (keeps_clean _ _ _ _ Hk), Hok.
  destruct b.
  - destruct (finish_renamed base f f1 m t' ext Hok Htok Hinv1 Hcl Hwf) as (id & f' & -> & Hren & Hf' & Hok').
    exists (mkIoMMU id t'), f'. split; [done|]. split; [done|]. split; [|by rewrite Hf'].
    rewrite Hf'. split; [by apply undisturbed_tokens|].
    split; [intros v; by rewrite guest_view_tokens|]. split; [exact Hent|]. left.
    rewrite <- Hf'. split; [by apply Hb|done].
  - exists (mkIoMMU (identifier m) t'), f1. split; [done|].
    split; [by constructor; try done; rewrite ?Htok; apply Hok|]. split; [|done].
    split; [exact Hund|]. split; [exact Hv|]. split; [exact Hent|]. right.
    split; [|done]. intros p e He. destruct (is_cow (source e)) eqn:Hc; [|done].
    assert (false = true); [|done]. apply Hb. eauto.
Qed.

(** C14: resolving copy-on-write.  Afterwards no entry of the address space is
    write-protected; every page that was has been given up for one nobody else
    refers to, with the same contents and protections, so nothing the guest or
    any other address space sees has changed; the identifier is renewed exactly
    when there was such a page. *)
Theorem copy_all_cow_pages_correct en :
  room (Z.of_nat (size (table m))) f ->
  exists m' f', copy_all_cow_pages en m f = Some (m', f') /\
    space_ok base f' m' ext /\ copy_result m' f'.
Proof. intros Hroom. destruct (copy_spec en Hroom) as (m' & f' & ? & ? & ? & _). eauto. Qed.
End Fork.

(** ** Two consequences *)

Lemma tlb_lookup_again {E} tlb p id (fb : PageNumber -> option (Result Page E)) t page tlb' t' :
  Tlb_lookup tlb p id fb t = Some ((Ok page, tlb'), t') ->
  forall fb' s, Tlb_lookup (E := E) tlb' p id fb' s = Some ((Ok page, tlb'), s).
Proof.
  unfold Tlb_lookup at 1, sm_bind, sm_of_option. unfold Tlb_entry.
  destruct (Tlb_index p) as [i|] eqn:Hi; [|done]. destruct (tlb !! i) as [e|] eqn:He; [|done].
  assert (Hhit : forall e', (let tlb1 := tlb' in tlb1 !! i = Some e') ->
    io_mmu_ident e' = Some id -> virtual_page_number e' = p ->
    tagged_page_ptr e' = Some (ptr page) -> mut_page_flags e' = Some (mutable_flags page) ->
    forall fb' s, Tlb_lookup (E := E) tlb' p id fb' s = Some ((Ok page, tlb'), s)).
  { intros e' He' Hid Hp Hptr Hfl fb' s. simpl in He'.
    unfold Tlb_lookup, sm_bind, sm_of_option, Tlb_entry, sm_ret.
    rewrite Hi, He', Hid, Hp, Hptr, Hfl. cbn [MaybeIdent.as_ptr]. rewrite !Z.eqb_refl. by destruct page. }
  destruct (negb _ || negb _) eqn:Hmiss.
  - destruct (fb p) as [[pg|]|]; [|done|done]. unfold TlbEntry_update_entry, sm_bind, sm_ret.
    set (id' := if _ =? _ then _ else _). destruct (id' t) as [[idn t1]|] eqn:Hidn; [|done].
    intros [= <- <- <-].
    assert (idn = Some id) as ->.
    { unfold id' in Hidn. destruct (Z.eqb_spec (MaybeIdent.as_ptr (io_mmu_ident e)) (Ident.ptr id)) as [Heq|].
      - injection Hidn as <- _. unfold MaybeIdent.as_ptr, Ident.ptr in Heq.
        destruct (io_mmu_ident e); [|done]. by injection Heq as ->.
      - unfold Ident.clone in Hidn. destruct (t !! id) as [c|]; [|done].
        destruct (MaybeIdent.drop _ _) as [[]|]; [|done]. by injection Hidn as <- _. }
    eapply Hhit; [apply list_lookup_insert_eq; by eapply lookup_lt_Some|done..].
  - apply orb_false_iff in Hmiss as [Hm1 Hm2]. rewrite negb_false_iff in Hm1, Hm2.
    apply Z.eqb_eq in Hm1, Hm2. unfold sm_ret.
    destruct (tagged_page_ptr e) as [q|] eqn:Hq; [|done].
    destruct (mut_page_flags e) as [fl|] eqn:Hfl; [|done]. intros [= <- <- <-].
    apply (Hhit e); try done. unfold MaybeIdent.as_ptr, Ident.ptr in Hm1.
    destruct (io_mmu_ident e); [|done]. by injection Hm1 as ->.
Qed.

Definition cow_flagged (page : Page) : bool :=
  Flags.contains_any (Tagged.flags (ptr page)) Flags.COW.

Section Consequences.
Context {Error : Type} {base : Z} {f : Fabric} {m : IoMMU} {ext : list PageSource}.
Context (Hok : space_ok base f m ext).

(** The flags the table's page handle carries. *)
Lemma get_page_flags p e page :
  table m !! p = Some e -> Table.get_page (Error := Error) f (table m) p = Some (Ok page) ->
  Tagged.flags (ptr page) = entry_flags e.
Proof.
  intros Hp. rewrite get_page_page_of by by eapply space_table_ok. unfold page_of. rewrite Hp.
  destruct (space_table_ok _ _ _ _ Hok p e Hp) as (_ & Hprot & Hs).
  pose proof (as_page_spec f e Hs) as Ha. destruct (entry_page f e) as [id|]; [|by rewrite Ha].
  destruct Ha as (n & b & Hb & ->). intros [= <-]. simpl.
  apply tagged_new_spec; [|by apply entry_flags_wf].
  apply (inv_page _ _ _ (sp_inv _ _ _ _ Hok) id _ Hb).
Qed.

Lemma get_private_page p id w prot :
  table m !! p = Some (mkPageEntry (Private id w) prot) ->
  exists page, Table.get_page (Error := Error) f (table m) p = Some (Ok page).
Proof.
  intros Hp. pose proof (space_table_ok _ _ _ _ Hok) as Ht. rewrite get_page_page_of by done.
  unfold page_of. rewrite Hp. destruct (Ht p _ Hp) as (_ & _ & Hs).
  destruct (as_page_spec f _ Hs) as (n & b & _ & ->). eauto.
Qed.
End Consequences.

Lemma cow_flag_private prot :
  Prot.wf prot ->
  Flags.contains_any (Flags.from_prot prot) Flags.COW = false /\
  Flags.contains_any (Flags.union Flags.COW (Flags.from_prot prot)) Flags.COW = true.
Proof. intros Hw. destruct prot as [z]. change (fits 3 z) in Hw. by enum_bits Hw. Qed.

(** C38: a fork leaves stale translations in a TLB.  Look up a writable private
    page through a TLB and then fork: the identifier is the same although the
    page is now write-protected, so the same TLB, used with the forked address
    space, answers with the old translation, which does not carry the
    copy-on-write flag, where the page table answers with one that does. *)
Theorem fork_leaves_stale_translation {Error} base f m ext (tlb tlb1 : Tlb) p page id prot f0 :
  space_ok base f m ext ->
  table m !! p = Some (mkPageEntry (Private id false) prot) ->
  cache_get_page (Error := Error) tlb m p f0 = Some ((Ok page, tlb1), f) ->
  Table.get_page (Error := Error) f (table m) p = Some (Ok page) ->
  exists m' child f' page', fork m f = Some ((m', child), f') /\
    cache_get_page (Error := Error) tlb1 m' p f' = Some ((Ok page, tlb1), f') /\
    cow_flagged page = false /\
    cache_get_page (Error := Error) TheNoCache m' p f' = Some ((Ok page', TheNoCache), f') /\
    cow_flagged page' = true.
Proof.
  intros Hok Hp Htlb Hpage.
  destruct (fork_spec Hok) as (m' & child & f' & Hf' & Hok' & _ & (_ & _ & _ & _ & Hent & Hid & _) & _).
  specialize (Hent p). rewrite Hp in Hent.
  destruct Hent as (e1 & _ & He1 & _ & [Hs1 _] & Hprot1 & _). destruct e1 as [s1 prot1].
  simpl in Hs1, Hprot1. subst s1 prot1.
  destruct (sp_table _ _ _ _ Hok p _ Hp) as [_ Hwf]. destruct (cow_flag_private prot Hwf) as [Hno Hyes].
  destruct (get_private_page (Error := Error) Hok' p id true prot He1) as [page' Hpage'].
  exists m', child, f', page'. split; [done|]. split; [|split; [|split]].
  - assert (identifier m' = identifier m) as Heq.
    { apply Hid. intros Hemp. by rewrite Hemp in Hp. }
    simpl in Htlb |- *. unfold on_tokens in *. rewrite Heq.
    destruct (Tlb_lookup tlb p (identifier m) _ (tokens f0)) as [[[r tlb2] t2]|] eqn:Hl; [|done].
    injection Htlb as -> -> _. rewrite (tlb_lookup_again _ _ _ _ _ _ _ _ Hl). by destruct f'.
  - unfold cow_flagged. rewrite (get_page_flags Hok p _ page Hp Hpage). exact Hno.
  - simpl. by rewrite Hpage'.
  - unfold cow_flagged. rewrite (get_page_flags Hok' p _ page' He1 Hpage'). exact Hyes.
Qed.

(** Resolving copy-on-write opens read-only host memory for writing.  When
    the only reference to a page is one write-protected entry, as after
    [map_extern] of read-only memory, nothing is copied: the entry keeps the page
    and loses its protection, and its translation then points into the
    embedder's memory without the copy-on-write flag that stops a store. *)
Theorem un_cow_opens_sole_page en base f m ext p id prot b :
  space_ok base f m ext ->
  table m !! p = Some (mkPageEntry (Private id true) prot) -> page_at f id = Some b ->
  page_refcount f (sources (table m) ++ ext) id = 1%nat ->
  un_cow en (mkPageEntry (Private id true) prot) f = Some ((true, mkPageEntry (Private id false) prot), f) /\
  exists page, Entry.as_page (mkPageEntry (Private id false) prot) f = Some (Some page, f) /\
    Tagged.page_ptr (ptr page) = Some (allocated_page b) /\ cow_flagged page = false.
Proof.
  intros Hok Hp Hb Hone. unfold page_at in Hb. destruct (pages f !! id) as [a|] eqn:Hid; [|done].
  injection Hb as <-. destruct a as [n b].
  destruct (inv_page _ _ _ (sp_inv _ _ _ _ Hok) id _ Hid) as (Hn & _ & [Hwf _] & _).
  simpl in Hn, Hwf. rewrite Hone in Hn. subst n.
  destruct (sp_table _ _ _ _ Hok p _ Hp) as [_ Hprot].
  split.
  - unfold un_cow, make_mut, sm_bind, sm_get, sm_ret. simpl. rewrite Hid. reflexivity.
  - pose proof (as_page_spec f (mkPageEntry (Private id false) prot)) as Ha. simpl in Ha.
    destruct Ha as (n & b' & Hid' & Ha); [by eexists|]. simplify_eq.
    eexists. split; [exact Ha|]. destruct (tagged_new_spec (allocated_page b) (Flags.from_prot prot) Hwf) as [Hp1 Hp2].
    { apply (entry_flags_wf (mkPageEntry (Private id false) prot)). exact Hprot. }
    split; [exact Hp1|]. unfold cow_flagged. cbn [ptr]. unfold entry_flags. cbn [source protections]. rewrite Hp2. by apply cow_flag_private.
Qed.

(** ** A sample address space

    Two pages of host memory, mapped copy-on-write. *)

Section Sample.

Definition sample_mmu : IoMMU := mkIoMMU 1 ∅.
Definition sample_fabric : Fabric := Upd.tokens {[1%positive := 1%nat]} (Fabric_new demo_host 16384).

Lemma demo_host_ok : mem_ok demo_host.
Proof.
  apply write_bytes_ok; [by apply map_Forall_empty|]. apply Forall_replicate. by vm_compute.
Qed.

Lemma fabric_new_inv host base t :
  mem_ok host -> 0 < base -> base mod 4096 = 0 -> base <= 2 ^ 64 ->
  fabric_inv base (Upd.tokens t (Fabric_new host base)) [].
Proof. intros Hm Hb Hal Htop. constructor; done. Qed.

Lemma sample_ok : space_ok 16384 sample_fabric sample_mmu [].
Proof.
  split.
  - apply fabric_new_inv; [exact demo_host_ok|lia|reflexivity|lia].
  - intros id b Hid. discriminate Hid.
  - intros p e Hp. simpl in Hp. by rewrite lookup_empty in Hp.
  - intros id c Hc. change (tokens sample_fabric) with ({[1%positive := 1%nat]} : Tokens) in Hc.
    apply lookup_singleton_Some in Hc as [_ <-]. lia.
  - apply Nat.ltb_lt. by vm_compute.
Qed.

Definition sample_region : MapRegion := RegionExtern MapCow 8192.

Lemma sample_region_ok : region_ok 16384 sample_fabric sample_region (8192 / 4096).
Proof.
  change (8192 / 4096) with 2. intros i Hi. split; [split|].
  - unfold PagePtr.wf. Z.to_euclidean_division_equations. lia.
  - assert (i = 0 \/ i = 1) as [-> | ->] by lia; eexists; by vm_compute.
  - lia.
Qed.

Definition sample_prot : MemProt := Prot.union Prot.READ Prot.WRITE.

Definition sample_mapped : IoMMU * Fabric :=
  match map_region (Error := Empty_set) sample_mmu 65536 8192 sample_prot sample_region sample_fabric with
  | Some ((_, m), f) => (m, f)
  | None => (sample_mmu, sample_fabric)
  end.

Lemma sample_mapped_ok : space_ok 16384 sample_mapped.2 sample_mapped.1 [].
Proof.
  destruct (map_region_spec (Error := Empty_set) sample_ok 65536 8192 sample_prot sample_region)
    as (r & m' & f' & Hm & Hok & _); [by vm_compute..|apply sample_region_ok|by vm_compute|].
  unfold sample_mapped. rewrite Hm. exact Hok.
Qed.

(** The sample's pages: what it maps and one of its translations. *)
Example sample_mapped_entries :
  (forall p, is_Some (table sample_mapped.1 !! p) <-> p = 16 \/ p = 17) /\
  guest_view sample_mapped.2 (table sample_mapped.1) 65540 = Some 7.
Proof.
  split; [|by vm_compute]. intros p.
  assert (table sample_mapped.1 = {[16 := mkPageEntry (Private 1 true) sample_prot;
                                    17 := mkPageEntry (Private 2 true) sample_prot]}) as -> by by vm_compute.
  rewrite lookup_insert_is_Some, lookup_singleton_is_Some. lia.
Qed.

Lemma map_correct_witness :
  call_region (CallExtern 8192 true false) = Some sample_region /\
  exists r m' f',
    map_call (m := sample_mmu) (CallExtern 8192 true false) 65536 8192 sample_prot sample_fabric =
      Some ((r, m'), f') /\
    space_ok 16384 f' m' [] /\
    map_result (Error := Empty_set) (f := sample_fabric) (m := sample_mmu) (ext := [])
      65536 8192 sample_prot sample_region r m' f'.
Proof.
  split; [reflexivity|].
  apply (map_correct (Error := Empty_set) sample_ok (CallExtern 8192 true false) 65536 8192
           sample_prot sample_region);
    [by vm_compute..|apply sample_region_ok|by vm_compute].
Defined.

Lemma unmap_correct_witness :
  range_pages (Error := Empty_set) 69632 4096 = Ok (Some (mkAccess 17 1)) /\
  exists r m' f', unmap sample_mapped.1 69632 4096 sample_mapped.2 = Some ((r, m'), f') /\
    space_ok 16384 f' m' [] /\
    unmap_result (Error := Empty_set) (f := sample_mapped.2) (m := sample_mapped.1) (ext := [])
      69632 4096 r m' f'.
Proof.
  split; [by vm_compute|].
  apply (unmap_correct (Error := Empty_set) sample_mapped_ok 69632 4096); by vm_compute.
Defined.

Lemma protect_correct_witness :
  range_pages (Error := Empty_set) 65536 4096 = Ok (Some (mkAccess 16 1)) /\
  exists r m' f', protect sample_mapped.1 65536 4096 Prot.READ sample_mapped.2 = Some ((r, m'), f') /\
    space_ok 16384 f' m' [] /\
    protect_result (Error := Empty_set) (f := sample_mapped.2) (m := sample_mapped.1)
      65536 4096 Prot.READ r m' f' /\
    undisturbed [] sample_mapped.2 f' /\
    (forall v, guest_view f' (table m') v = guest_view sample_mapped.2 (table sample_mapped.1) v).
Proof.
  split; [by vm_compute|].
  apply (protect_correct (Error := Empty_set) sample_mapped_ok 65536 4096 Prot.READ); by vm_compute.
Defined.

Lemma fork_correct_witness :
  table sample_mapped.1 <> ∅ /\
  exists m' child f', fork sample_mapped.1 sample_mapped.2 = Some ((m', child), f') /\
    space_ok 16384 f' m' (sources (table child) ++ []) /\
    space_ok 16384 f' child (sources (table m') ++ []) /\
    fork_result sample_mapped.2 sample_mapped.1 [] m' child f' /\
    next_page f' = next_page sample_mapped.2.
Proof. split; [by vm_compute|]. apply (fork_correct sample_mapped_ok). Defined.

Lemma copy_all_cow_pages_correct_witness :
  room (Z.of_nat (size (table sample_mapped.1))) sample_mapped.2 /\
  exists m' f', copy_all_cow_pages Little sample_mapped.1 sample_mapped.2 = Some (m', f') /\
    space_ok 16384 f' m' [] /\ 
    copy_result (f := sample_mapped.2) (m := sample_mapped.1) (ext := []) m' f'.
Proof.
  split; [by vm_compute|]. apply (copy_all_cow_pages_correct sample_mapped_ok Little). by vm_compute.
Defined.

(** The same host memory mapped privately, and looked up through a TLB. *)
Definition sample_private : IoMMU * Fabric :=
  match map_region (Error := Empty_set) sample_mmu 65536 8192 sample_prot
          (RegionExtern MapPrivate 8192) sample_fabric with
  | Some ((_, m), f) => (m, f)
  | None => (sample_mmu, sample_fabric)
  end.

Lemma space_ok_tokens base f m ext t :
  space_ok base f m ext -> counts_positive t -> (0 < strong_count t (identifier m))%nat ->
  space_ok base (Upd.tokens t f) m ext.
Proof. intros [Hinv Hcl Ht _ _] Hpos Hid. split; try done. by apply upd_tokens_inv. Qed.

Definition sample_tokens : Tokens := {[2%positive := 2%nat]}.
Definition sample_page : Page := mkPage (Tagged.new 8192 (Flags.from_prot sample_prot)) 1.
Definition sample_tlb : Tlb :=
  match cache_get_page (Error := Empty_set) Tlb_new sample_private.1 16 sample_private.2 with
  | Some ((_, tlb), _) => tlb
  | None => Tlb_new
  end.

Lemma sample_private_ok : space_ok 16384 (Upd.tokens sample_tokens sample_private.2) sample_private.1 [].
Proof.
  apply space_ok_tokens.
  - destruct (map_region_spec (Error := Empty_set) sample_ok 65536 8192 sample_prot (RegionExtern MapPrivate 8192))
      as (r & m' & f' & Hm & Hok & _); [by vm_compute..|apply sample_region_ok|by vm_compute|].
    unfold sample_private. rewrite Hm. exact Hok.
  - intros id c Hc. unfold sample_tokens in Hc. apply lookup_singleton_Some in Hc as [_ <-]. lia.
  - apply Nat.ltb_lt. by vm_compute.
Qed.

Lemma sample_lookup :
  cache_get_page (Error := Empty_set) Tlb_new sample_private.1 16 sample_private.2 =
  Some ((Ok sample_page, sample_tlb), Upd.tokens sample_tokens sample_private.2).
Proof.
  unfold cache_get_page, Tlb_LookupCache, on_tokens.
  assert (Tlb_lookup Tlb_new 16 (identifier sample_private.1)
            (Table.get_page (Error := Empty_set) sample_private.2 (table sample_private.1))
            (tokens sample_private.2) = Some ((Ok sample_page, sample_tlb), sample_tokens)) as ->.
  { vm_compute. reflexivity. }
  reflexivity.
Qed.

Lemma sample_get_page :
  Table.get_page (Error := Empty_set) (Upd.tokens sample_tokens sample_private.2)
    (table sample_private.1) 16 = Some (Ok sample_page).
Proof. vm_compute. reflexivity. Qed.

Lemma fork_leaves_stale_translation_witness :
  table sample_private.1 !! 16 = Some (mkPageEntry (Private 1 false) sample_prot) /\
  exists m' child f' page',
    fork sample_private.1 (Upd.tokens sample_tokens sample_private.2) = Some ((m', child), f') /\
    cache_get_page (Error := Empty_set) sample_tlb m' 16 f' = Some ((Ok sample_page, sample_tlb), f') /\
    cow_flagged sample_page = false /\
    cache_get_page (Error := Empty_set) TheNoCache m' 16 f' = Some ((Ok page', TheNoCache), f') /\
    cow_flagged page' = true.
Proof.
  split; [by vm_compute|].
  apply (fork_leaves_stale_translation (Error := Empty_set) 16384
           (Upd.tokens sample_tokens sample_private.2) sample_private.1 []
           Tlb_new sample_tlb 16 sample_page 1 sample_prot sample_private.2);
    [exact sample_private_ok|by vm_compute|exact sample_lookup|exact sample_get_page].
Defined.

Lemma un_cow_opens_sole_page_witness :
  allocated_page (mkBacked 8192 true false 0) = 8192 /\
  un_cow Little (mkPageEntry (Private 1 true) sample_prot) sample_mapped.2 =
    Some ((true, mkPageEntry (Private 1 false) sample_prot), sample_mapped.2) /\
  exists page, Entry.as_page (mkPageEntry (Private 1 false) sample_prot) sample_mapped.2 =
      Some (Some page, sample_mapped.2) /\
    Tagged.page_ptr (ptr page) = Some (allocated_page (mkBacked 8192 true false 0)) /\
    cow_flagged page = false.
Proof.
  split; [reflexivity|].
  apply (un_cow_opens_sole_page Little 16384 sample_mapped.2 sample_mapped.1 [] 16 1 sample_prot);
    [exact sample_mapped_ok|by vm_compute..].
Defined.
End Sample.
