(* ===== verification/Machine.v ===== *)
(** * A machine: several address spaces on one fabric

    Sequences of the mapping operations on any of the address spaces, their
    creation and their destruction, as a step function and a reachability
    relation.  The invariant is exact ownership: the reference count of every
    page and slot is the number of references the address spaces hold. *)

From S2P Require Import Prelude Convert MemTypes Fault Memops ObjectQueue Fabric PageTable IoMMU.
From S2P Require Import LookupCache MemAccess GuestMemory RefCount PageAlloc EntryOps TableOps.
From S2P Require Import AddressSpace.
Local Open Scope Z_scope.
Local Open Scope emu_scope.

Record Machine := mkMachine { fabric : Fabric; spaces : list IoMMU }.

Inductive Op {Error : Type} :=
  | OpNew
  | OpMap (i : nat) (c : MapCall) (vbase size : Z) (prot : MemProt)
  | OpUnmap (i : nat) (vbase size : Z)
  | OpProtect (i : nat) (vbase size : Z) (prot : MemProt)
  | OpFork (i : nat)
  | OpCopyCow (i : nat)
  | OpDrop (i : nat).
Arguments Op : clear implicits.

(** Dropping an [IoMMU] drops its identifier and every entry of its table. *)
Definition drop_iommu (m : IoMMU) : SM Fabric unit :=
  on_tokens (Ident.drop (identifier m)) ;;!
  sm_for (map_to_list (table m)) (fun '(_, entry) => Entry.drop entry).

Section Steps.
Context {Error : Type} (en : Endian).

Abbreviation Res := (Result unit (MemoryFault Error)).

(** Runs an operation on the [i]-th address space; the caller has it. *)
Definition on_space (i : nat) (op : IoMMU -> SM Fabric (Res * IoMMU)) : SM Machine Res := fun s =>
  match spaces s !! i with
  | Some m =>
      match op m (fabric s) with
      | Some ((r, m'), f') => Some (r, mkMachine f' (<[i := m']> (spaces s)))
      | None => None
      end
  | None => None
  end.

Definition step (op : Op Error) : SM Machine Res := fun s =>
  match op with
  | OpNew =>
      match IoMMU_new (fabric s) with
      | Some (m, f') => Some (Ok tt, mkMachine f' (spaces s ++ [m]))
      | None => None
      end
  | OpMap i c vbase size prot => on_space i (fun m => map_call (m := m) c vbase size prot) s
  | OpUnmap i vbase size => on_space i (fun m => unmap m vbase size) s
  | OpProtect i vbase size prot => on_space i (fun m => protect m vbase size prot) s
  | OpFork i =>
      match spaces s !! i with
      | Some m =>
          match fork m (fabric s) with
          | Some ((m', child), f') => Some (Ok tt, mkMachine f' (<[i := m']> (spaces s) ++ [child]))
          | None => None
          end
      | None => None
      end
  | OpCopyCow i =>
      on_space i (fun m => let! m' := copy_all_cow_pages en m in sm_ret (Ok tt, m')) s
  | OpDrop i =>
      match spaces s !! i with
      | Some m =>
          match drop_iommu m (fabric s) with
          | Some (_, f') => Some (Ok tt, mkMachine f' (delete i (spaces s)))
          | None => None
          end
      | None => None
      end
  end.
End Steps.

(** ** The invariant *)

Definition all_sources (l : list IoMMU) : list PageSource := l ≫= (fun m => sources (table m)).

Definition ident_count (l : list IoMMU) (id : positive) : nat :=
  length (filter (fun m => identifier m = id) l).

Record machine_ok (base : Z) (s : Machine) : Prop := {
  mc_inv : fabric_inv base (fabric s) (all_sources (spaces s));
  mc_clean : zero_clean (fabric s);
  mc_tables : forall m p e, m ∈ spaces s -> table m !! p = Some e ->
    PageNum.wf p /\ Prot.wf (protections e);
  mc_counts : counts_positive (tokens (fabric s));
  (* a TLB may hold further references *)
  mc_idents : forall id, (ident_count (spaces s) id <= strong_count (tokens (fabric s)) id)%nat;
}.

Lemma all_sources_split l i m :
  l !! i = Some m -> all_sources l ≡ₚ sources (table m) ++ all_sources (delete i l).
Proof.
  intros Hi. rewrite <- (take_drop_middle l i m Hi) at 1. rewrite delete_take_drop.
  unfold all_sources. rewrite !bind_app, bind_cons. rewrite !app_assoc. f_equiv.
  by rewrite Permutation_app_comm.
Qed.

Lemma delete_insert_same {A} (l : list A) i x : delete i (<[i := x]> l) = delete i l.
Proof.
  revert i. induction l as [|y l IH]; intros [|i]; try done. simpl. by rewrite (IH i : _ = _).
Qed.

Lemma all_sources_insert l i m m' :
  l !! i = Some m -> all_sources (<[i := m']> l) ≡ₚ sources (table m') ++ all_sources (delete i l).
Proof.
  intros Hi. pose proof (lookup_lt_Some _ _ _ Hi) as Hlt.
  rewrite (all_sources_split (<[i := m']> l) i m') by by apply list_lookup_insert_eq.
  by rewrite delete_insert_same.
Qed.

Lemma ident_count_split l i m id :
  l !! i = Some m ->
  ident_count l id = ((if decide (identifier m = id) then 1 else 0) + ident_count (delete i l) id)%nat.
Proof.
  intros Hi. rewrite <- (take_drop_middle l i m Hi) at 1. rewrite delete_take_drop.
  unfold ident_count. rewrite !filter_app, filter_cons, !length_app.
  case_decide; simpl; lia.
Qed.

Lemma ident_count_insert l i m m' id :
  l !! i = Some m ->
  ident_count (<[i := m']> l) id =
  ((if decide (identifier m' = id) then 1 else 0) + ident_count (delete i l) id)%nat.
Proof.
  intros Hi. pose proof (lookup_lt_Some _ _ _ Hi) as Hlt.
  rewrite (ident_count_split (<[i := m']> l) i m') by by apply list_lookup_insert_eq.
  by rewrite delete_insert_same.
Qed.

Lemma ident_count_app l1 l2 id : ident_count (l1 ++ l2) id = (ident_count l1 id + ident_count l2 id)%nat.
Proof. unfold ident_count. by rewrite filter_app, length_app. Qed.

(** One address space of the machine, seen from the others. *)
Lemma machine_space base s i m :
  machine_ok base s -> spaces s !! i = Some m ->
  space_ok base (fabric s) m (all_sources (delete i (spaces s))).
Proof.
  intros [Hinv Hcl Ht Hpos Hid] Hi. constructor; try done.
  - by rewrite <- all_sources_split.
  - intros p e. by apply Ht, list_elem_of_lookup_2 with i.
  - specialize (Hid (identifier m)). rewrite (ident_count_split _ i m), decide_True in Hid by done. lia.
Qed.

(** How an operation moved one address space's reference to its identifier. *)
Definition moved (f f' : Fabric) (old new : positive) : Prop :=
  forall id, (strong_count (tokens f') id + (if decide (old = id) then 1 else 0) =
              strong_count (tokens f) id + (if decide (new = id) then 1 else 0))%nat.

Lemma renamed_moved f f' old new : renamed f f' old new -> moved f f' old new.
Proof.
  intros (_ & _ & Hc) id. specialize (Hc id).
  rewrite (decide_ext (old = id) (id = old)), (decide_ext (new = id) (id = new)) by done. exact Hc.
Qed.

Lemma same_moved f f' id : tokens f' = tokens f -> moved f f' id id.
Proof. intros Ht id'. by rewrite Ht. Qed.

(** Putting the changed address space back. *)
Lemma machine_update base s i m m' f' :
  machine_ok base s -> spaces s !! i = Some m ->
  space_ok base f' m' (all_sources (delete i (spaces s))) ->
  moved (fabric s) f' (identifier m) (identifier m') ->
  machine_ok base (mkMachine f' (<[i := m']> (spaces s))).
Proof.
  intros [_ _ Ht _ Hid] Hi [Hinv Hcl Ht' Hpos Hid'] Hmv. constructor; simpl; try done.
  - by rewrite (all_sources_insert _ i m).
  - intros m0 p e Hm0. apply list_elem_of_lookup in Hm0 as [j Hj].
    destruct (decide (i = j)) as [<-|Hne].
    + rewrite list_lookup_insert_eq in Hj by by eapply lookup_lt_Some. simplify_eq. apply Ht'.
    + rewrite list_lookup_insert_ne in Hj by done. by apply Ht, list_elem_of_lookup_2 with j.
  - intros id. rewrite (ident_count_insert _ i m) by done. specialize (Hmv id). specialize (Hid id).
    rewrite (ident_count_split _ i m) in Hid by done. lia.
Qed.

Section Safety.
Context {Error : Type} (en : Endian) {base : Z}.

Lemma drop_all_spec l f ext :
  fabric_inv base f (((fun kv : Z * PageEntry => source kv.2) <$> l) ++ ext) ->
  exists f', sm_for l (fun '(_, entry) => Entry.drop entry) f = Some (tt, f') /\
    fabric_inv base f' ext /\ keeps base ext f f' /\ next_page f' = next_page f.
Proof.
  revert f. induction l as [|[p e] l IH]; intros f Hinv; simpl.
  { exists f. split; [done|]. split; [done|]. split; [apply keeps_refl|done]. }
  simpl in Hinv. destruct (source_drop_spec f _ _ Hinv) as (f1 & Hf1 & Hinv1 & Hk1 & Hn1).
  destruct (IH f1 Hinv1) as (f2 & Hf2 & Hinv2 & Hk2 & Hn2).
  exists f2. unfold sm_bind, Entry.drop. rewrite Hf1. split; [done|]. split; [done|]. split; [|lia].
  apply (keeps_trans _ _ f1); [|done]. eapply keeps_mono; [|exact Hk1]. by apply list_subseteq_app_r.
Qed.

Lemma drop_iommu_spec f m ext :
  space_ok base f m ext ->
  exists f', drop_iommu m f = Some (tt, f') /\ fabric_inv base f' ext /\ zero_clean f' /\
    counts_positive (tokens f') /\ next_page f' = next_page f /\
    forall id, (strong_count (tokens f') id + (if decide (identifier m = id) then 1 else 0) =
                strong_count (tokens f) id)%nat.
Proof.
  intros [Hinv Hcl Ht Hpos Hid]. unfold drop_iommu, sm_bind, on_tokens.
  destruct (drop_spec _ _ Hpos Hid) as (t & -> & Hpos' & Hc).
  destruct (drop_all_spec (map_to_list (table m)) (Upd.tokens t f) ext) as (f' & -> & Hinv' & Hk & Hn).
  { by apply upd_tokens_inv. }
  exists f'. split; [done|]. split; [done|]. split; [by apply (keeps_clean _ _ _ _ Hk)|].
  rewrite (keeps_tokens _ _ _ _ Hk). simpl. split; [done|]. split; [done|].
  intros id. rewrite Hc. case_decide; [subst; lia|lia].
Qed.

(** What a caller must respect: the address space exists, the arguments have
    their types, external memory is what [map_extern] asks for, and the host can
    still allocate. *)
Definition op_ok (s : Machine) (op : Op Error) : Prop :=
  match op with
  | OpNew => True
  | OpMap i c vbase size prot =>
      is_Some (spaces s !! i) /\ fits 64 vbase /\ fits 64 size /\ Prot.wf prot /\
      room (size / 4096) (fabric s) /\
      exists region, call_region c = Some region /\ region_ok base (fabric s) region (size / 4096)
  | OpUnmap i vbase size => is_Some (spaces s !! i) /\ fits 64 vbase /\ fits 64 size
  | OpProtect i vbase size prot =>
      is_Some (spaces s !! i) /\ fits 64 vbase /\ fits 64 size /\ Prot.wf prot
  | OpFork i | OpDrop i => is_Some (spaces s !! i)
  | OpCopyCow i => exists m, spaces s !! i = Some m /\ room (Z.of_nat (size (table m))) (fabric s)
  end.

Lemma new_space_ok s :
  machine_ok base s ->
  exists m f', IoMMU_new (fabric s) = Some (m, f') /\ table m = ∅ /\
    machine_ok base (mkMachine f' (spaces s ++ [m])).
Proof.
  intros [Hinv Hcl Ht Hpos Hid]. unfold IoMMU_new, sm_bind, on_tokens.
  destruct (unique_token_spec _ Hpos) as (id & t & -> & Hfresh & Hpos' & Hc).
  exists (mkIoMMU id ∅), (Upd.tokens t (fabric s)). split; [done|]. split; [done|]. constructor; simpl; try done.
  - unfold all_sources. rewrite bind_app. simpl. rewrite sources_empty, !app_nil_r. by apply upd_tokens_inv.
  - intros m p e Hm. apply elem_of_app in Hm as [Hm|Hm]; [by apply Ht|].
    apply list_elem_of_singleton in Hm as ->. simpl. by rewrite lookup_empty.
  - intros id'. rewrite ident_count_app, Hc. specialize (Hid id').
    unfold ident_count at 2. rewrite filter_cons. simpl.
    repeat case_decide; subst; simpl; lia.
Qed.

(** An operation of one address space, from its contract. *)
Lemma on_space_ok s i m (op : IoMMU -> SM Fabric (Result unit (MemoryFault Error) * IoMMU)) r m' f' :
  machine_ok base s -> spaces s !! i = Some m -> op m (fabric s) = Some ((r, m'), f') ->
  space_ok base f' m' (all_sources (delete i (spaces s))) ->
  moved (fabric s) f' (identifier m) (identifier m') ->
  exists r s', on_space i op s = Some (r, s') /\ machine_ok base s'.
Proof.
  intros Hs Hi Hop Hok Hmv. unfold on_space. rewrite Hi, Hop. do 2 eexists; split; [done|].
  by eapply machine_update.
Qed.

Lemma fork_step_ok s i m :
  machine_ok base s -> spaces s !! i = Some m ->
  exists m' child f', fork m (fabric s) = Some ((m', child), f') /\
    machine_ok base (mkMachine f' (<[i := m']> (spaces s) ++ [child])).
Proof.
  intros Hs Hi. destruct (fork_spec (machine_space _ _ _ _ Hs Hi))
    as (m' & child & f' & Hf' & Hok1 & Hok2 & (Hsame & _ & _ & _ & _ & _ & Hc) & _).
  exists m', child, f'. split; [done|].
  pose proof (lookup_lt_Some _ _ _ Hi) as Hlt. destruct Hs as [Hinv Hcl Ht Hpos Hid].
  constructor; simpl.
  - unfold all_sources. rewrite bind_app. simpl. rewrite app_nil_r.
    fold (all_sources (<[i := m']> (spaces s))). rewrite (all_sources_insert _ i m) by done.
    rewrite <- app_assoc, (Permutation_app_comm (all_sources _)). apply Hok1.
  - apply Hok1.
  - intros m0 p e Hm0. apply elem_of_app in Hm0 as [Hm0|Hm0].
    + apply list_elem_of_lookup in Hm0 as [j Hj]. destruct (decide (i = j)) as [<-|Hne].
      * rewrite list_lookup_insert_eq in Hj by done. simplify_eq. apply Hok1.
      * rewrite list_lookup_insert_ne in Hj by done. by apply Ht, list_elem_of_lookup_2 with j.
    + apply list_elem_of_singleton in Hm0 as ->. apply Hok2.
  - apply Hok1.
  - intros id. rewrite ident_count_app, (ident_count_insert _ i m) by done.
    specialize (Hid id). specialize (Hc id). rewrite (ident_count_split _ i m) in Hid by done.
    unfold ident_count at 2. rewrite filter_cons, Hsame. simpl.
    rewrite (decide_ext (id = identifier m) (identifier m = id)),
      (decide_ext (id = identifier m') (identifier m' = id)) in Hc by done.
    repeat case_decide; simpl; lia.
Qed.

Lemma drop_step_ok s i m :
  machine_ok base s -> spaces s !! i = Some m ->
  exists f', drop_iommu m (fabric s) = Some (tt, f') /\
    machine_ok base (mkMachine f' (delete i (spaces s))).
Proof.
  intros Hs Hi. destruct (drop_iommu_spec _ _ _ (machine_space _ _ _ _ Hs Hi))
    as (f' & Hf' & Hinv' & Hcl' & Hpos' & _ & Hc).
  exists f'. split; [done|]. destruct Hs as [Hinv Hcl Ht Hpos Hid]. constructor; simpl; try done.
  - intros m0 p e Hm0. apply Ht. eapply sublist_subseteq; [|exact Hm0]. apply sublist_delete.
  - intros id. specialize (Hid id). specialize (Hc id). rewrite (ident_count_split _ i m) in Hid by done. lia.
Qed.

Lemma result_moved_map f m vbase size prot region ext r m' f' :
  map_result (Error := Error) (f := f) (m := m) (ext := ext) vbase size prot region r m' f' ->
  moved f f' (identifier m) (identifier m').
Proof.
  unfold map_result, unchanged. destruct (range_pages _ _) as [[a|]|].
  2-3: by intros (_ & -> & ->).
  destruct (list_find _ _) as [[]|]; [by intros (_ & -> & ->)|].
  intros (_ & Hr & _). by apply renamed_moved.
Qed.

Lemma step_ok s op :
  machine_ok base s -> op_ok s op -> exists r s', step en op s = Some (r, s') /\ machine_ok base s'.
Proof.
  intros Hs Hop. destruct op as [|i c vbase size prot|i vbase size|i vbase size prot|i|i|i];
    cbn [op_ok] in Hop; unfold step.
  - destruct (new_space_ok s Hs) as (m & f' & -> & _ & ?). eauto.
  - destruct Hop as ([m Hi] & ? & ? & ? & ? & region & Hc & Hreg).
    pose proof (machine_space _ _ _ _ Hs Hi) as Hsp.
    destruct (map_region_spec (Error := Error) Hsp vbase size prot region)
      as (r & m' & f' & Hm & Hok & Hres & _); try done.
    eapply (on_space_ok s i m); [done|done| |done|by eapply result_moved_map].
    by rewrite (map_call_region _ _ _ _ region).
  - destruct Hop as ([m Hi] & ? & ?).
    destruct (unmap_space_spec (Error := Error) (machine_space _ _ _ _ Hs Hi) vbase size)
      as (r & m' & f' & Hm & Hok & Hres & _); try done.
    eapply (on_space_ok s i m); [done|done|done|done|].
    unfold unmap_result, unchanged in Hres. destruct (range_pages _ _) as [[a|]|].
    2-3: by destruct Hres as (_ & -> & ->).
    case_decide; [by destruct Hres as (_ & -> & ->)|]. apply renamed_moved, Hres.
  - destruct Hop as ([m Hi] & ? & ? & ?).
    destruct (protect_space_spec (Error := Error) (machine_space _ _ _ _ Hs Hi) vbase size prot)
      as (r & m' & f' & Hm & Hok & Hres & _); try done.
    eapply (on_space_ok s i m); [done|done|done|done|].
    unfold protect_result, unchanged in Hres. destruct (range_pages _ _) as [[a|]|].
    2-3: by destruct Hres as (_ & -> & ->).
    destruct (list_find _ _) as [[]|]; [by destruct Hres as (_ & -> & ->)|].
    destruct Hres as (_ & _ & _ & [[_ Hr]|(_ & -> & ->)]); [by apply renamed_moved|done].
  - destruct Hop as [m Hi]. rewrite Hi.
    destruct (fork_step_ok s i m Hs Hi) as (m' & child & f' & -> & ?). eauto.
  - destruct Hop as (m & Hi & Hr).
    destruct (copy_spec (machine_space _ _ _ _ Hs Hi) en Hr) as (m' & f' & Hm & Hok & Hres & _).
    eapply (on_space_ok s i m (fun m => let! m' := copy_all_cow_pages en m in sm_ret (Ok tt, m')));
      [done|done| |exact Hok|].
    { unfold sm_bind. by rewrite Hm. }
    destruct Hres as (_ & _ & _ & [[_ Hren]|(_ & -> & Ht)]); [by apply renamed_moved|by apply same_moved].
  - destruct Hop as [m Hi]. rewrite Hi. destruct (drop_step_ok s i m Hs Hi) as (f' & -> & ?). eauto.
Qed.

(** ** Reachable machines *)

Lemma machine_new_ok host :
  0 < base -> base mod 4096 = 0 -> base <= 2 ^ 64 -> mem_ok host ->
  machine_ok base (mkMachine (Fabric_new host base) []).
Proof.
  intros Hb Hal Htop Hm. constructor; simpl; try done.
  intros m p e Hm'. by apply elem_of_nil in Hm'.
Qed.

Inductive reachable (host : Mem) : Machine -> Prop :=
  | reach_new : reachable host (mkMachine (Fabric_new host base) [])
  | reach_step s op r s' : reachable host s -> op_ok s op -> step en op s = Some (r, s') ->
      reachable host s'.

Lemma reachable_ok host s :
  0 < base -> base mod 4096 = 0 -> base <= 2 ^ 64 -> mem_ok host ->
  reachable host s -> machine_ok base s.
Proof.
  intros Hb Hal Htop Hm. induction 1 as [|s op r s' _ IH Hop Hstep]; [by apply machine_new_ok|].
  destruct (step_ok s op IH Hop) as (r' & s'' & Hstep' & Hok). by simplify_eq.
Qed.

Lemma sum_map_zero {V} (g : V -> nat) m :
  (forall k v, m !! k = Some v -> g v = 0%nat) -> sum_map g m = 0%nat.
Proof.
  induction m as [|k v m Hk IH] using map_ind; intros Hg; [apply sum_map_empty|].
  rewrite sum_map_insert_new by done. rewrite (Hg k v) by apply lookup_insert_eq.
  apply IH. intros k' v' Hk'. apply (Hg k'). rewrite lookup_insert_ne; [done|]. intros ->. congruence.
Qed.

(** With no source left, only the zero page is alive. *)
Lemma no_leak f : fabric_inv base f [] -> forall id, is_Some (pages f !! id) -> zero_page_cell f = Some id.
Proof.
  intros Hinv id [a Ha]. destruct (inv_page _ _ _ Hinv id a Ha) as (Hc & Hpos & _).
  unfold page_refcount, zero_ref in Hc. rewrite (sum_map_zero (cell_ref id)) in Hc.
  - simpl in Hc. case_decide; [done|lia].
  - intros sid s Hs. unfold cell_ref.
    destruct (inv_slot _ _ _ Hinv sid s Hs) as [Hn Hz]. rewrite Hz by done. done.
Qed.

(** C1: the mapping layer never frees too early, too late or twice.  From a fresh
    fabric, in every sequence of creations, mappings, unmappings, protections,
    forks, copy-on-write resolutions and destructions of address spaces that
    respects its callers' obligations, every further such operation runs to its
    end (no undefined behaviour, panic or abort); the reference count of every
    page is exactly the number of references the address spaces, the resident
    object slots and the zero-page cell hold; every translation of every address
    space is a live page of mapped host memory; and once all address spaces are
    gone no page but the zero page is still allocated. *)
Theorem machine_safe host s :
  0 < base -> base mod 4096 = 0 -> base <= 2 ^ 64 -> mem_ok host -> reachable host s ->
  (forall op, op_ok s op -> exists r s', step en op s = Some (r, s')) /\
  (forall id a, pages (fabric s) !! id = Some a ->
     strong a = page_refcount (fabric s) (all_sources (spaces s)) id) /\
  (forall m p, m ∈ spaces s ->
     exists r, Table.get_page (Error := Error) (fabric s) (table m) p = Some r /\
       forall page, r = Ok page -> page_live (fabric s) page) /\
  (spaces s = [] -> forall id, is_Some (pages (fabric s) !! id) -> zero_page_cell (fabric s) = Some id).
Proof.
  intros Hb Hal Htop Hm Hreach. pose proof (reachable_ok host s Hb Hal Htop Hm Hreach) as Hok.
  split; [|split; [|split]].
  - intros op Hop. destruct (step_ok s op Hok Hop) as (r & s' & ? & _). eauto.
  - intros id a Ha. apply (inv_page _ _ _ (mc_inv _ _ Hok) id a Ha).
  - intros m p Hin. apply list_elem_of_lookup in Hin as [i Hi].
    pose proof (machine_space _ _ _ _ Hok Hi) as Hsp. pose proof (space_table_ok _ _ _ _ Hsp) as Ht.
    exists (page_of (fabric s) (table m) p). split; [by apply get_page_page_of|].
    intros page Hpage. by apply (page_of_live (Error := Error) (fabric s) (table m) p);
      [apply (inv_fabric_ok (sp_inv _ _ _ _ Hsp))|..].
  - intros Hnil. pose proof (mc_inv _ _ Hok) as Hinv. rewrite Hnil in Hinv. by apply no_leak.
Qed.

(** The machine after an operation. *)
Definition after (op : Op Error) (s : Machine) : Machine :=
  match step en op s with Some (_, s') => s' | None => s end.

Lemma reach_after host s op :
  0 < base -> base mod 4096 = 0 -> base <= 2 ^ 64 -> mem_ok host ->
  reachable host s -> op_ok s op -> reachable host (after op s).
Proof.
  intros Hb Hal Htop Hm Hreach Hop.
  destruct (step_ok s op) as (r & s' & Hs & _); [by eapply reachable_ok|done|].
  unfold after. rewrite Hs. by eapply reach_step.
Qed.
End Safety.

(** ** A sample run

    An address space maps two pages of host memory copy-on-write and is forked;
    the child resolves its copies and the parent is destroyed. *)

Section Sample.

Definition sample_ops : list (Op Empty_set) :=
  [OpNew; OpMap 0 (CallExtern 8192 true false) 65536 8192 sample_prot; OpFork 0; OpCopyCow 1; OpDrop 0].

Definition sample_start : Machine := mkMachine (Fabric_new demo_host 16384) [].

(** The machine after the first operations of a list. *)
Definition run_ops (l : list (Op Empty_set)) (s : Machine) : Machine :=
  fold_left (fun s op => after Little op s) l s.

Lemma sample_has n i : (i <? length (spaces (run_ops (firstn n sample_ops) sample_start)))%nat = true ->
  is_Some (spaces (run_ops (firstn n sample_ops) sample_start) !! i).
Proof. intros Hi. apply lookup_lt_is_Some_2. by apply Nat.ltb_lt. Qed.

Lemma sample_op_ok n op :
  sample_ops !! n = Some op -> op_ok (base := 16384) (run_ops (firstn n sample_ops) sample_start) op.
Proof.
  destruct n as [|[|[|[|[|n]]]]]; [..|done]; intros Hi; injection Hi as <-.
  - exact I.
  - split; [apply (sample_has 1); by vm_compute|]. split; [by vm_compute|]. split; [by vm_compute|].
    split; [by vm_compute|]. split; [by vm_compute|]. exists sample_region.
    split; [reflexivity|]. exact sample_region_ok.
  - apply (sample_has 2). by vm_compute.
  - destruct (sample_has 3 1) as [m Hm]; [by vm_compute|]. exists m. split; [exact Hm|].
    assert ((fun m => Z.of_nat (size (table m))) <$> spaces (run_ops (firstn 3 sample_ops) sample_start) !! 1%nat
            = Some 2) as Hsize by by vm_compute.
    rewrite Hm in Hsize. injection Hsize as ->. by vm_compute.
  - apply (sample_has 4). by vm_compute.
Qed.

Lemma reach_run host l s :
  mem_ok host -> reachable (Error := Empty_set) Little (base := 16384) host s ->
  (forall n op, l !! n = Some op -> op_ok (base := 16384) (run_ops (firstn n l) s) op) ->
  reachable (Error := Empty_set) Little (base := 16384) host (run_ops l s).
Proof.
  intros Hm. revert s. induction l as [|op l IH]; intros s Hs Hl; [exact Hs|].
  simpl. apply IH.
  - apply reach_after; [lia|reflexivity|lia|exact Hm|exact Hs|]. by apply (Hl 0%nat).
  - intros n op' Hn. by apply (Hl (S n)).
Qed.

Lemma machine_safe_witness :
  length (spaces (run_ops sample_ops sample_start)) = 1%nat /\
  let s := run_ops sample_ops sample_start in
  (forall op, op_ok (Error := Empty_set) (base := 16384) s op -> exists r s', step Little op s = Some (r, s')) /\
  (forall id a, pages (fabric s) !! id = Some a ->
     strong a = page_refcount (fabric s) (all_sources (spaces s)) id) /\
  (forall m p, m ∈ spaces s ->
     exists r, Table.get_page (Error := Empty_set) (fabric s) (table m) p = Some r /\
       forall page, r = Ok page -> page_live (fabric s) page) /\
  (spaces s = [] -> forall id, is_Some (pages (fabric s) !! id) -> zero_page_cell (fabric s) = Some id).
Proof.
  split; [by vm_compute|]. intros s.
  apply (machine_safe (Error := Empty_set) Little (base := 16384) demo_host s);
    [lia|reflexivity|lia|exact demo_host_ok|].
  apply reach_run; [exact demo_host_ok|apply reach_new|]. intros n op Hop. by apply sample_op_ok.
Defined.
End Sample.
