(* ===== verification/Arena.v ===== *)
(** * Handles, arenas and handle-indexed maps and sets
    ([jit-compiler-core/src/arena.rs])

    A handle is a non-zero 32-bit integer, one more than the index it stands
    for.  An arena is a vector whose elements are named by handles, a map a
    vector of optional values, a set a vector of 64-bit words.  Every Rust
    panic (an invalid handle, an index out of range, a failed assertion) is
    [None]; [hint::assert_unchecked] has no effect of its own. *)

From Stdlib Require Import Sorting.Sorted.
From S2P Require Import Prelude.
Local Open Scope Z_scope.
Local Open Scope emu_scope.

(** ** Handles *)

Abbreviation RawHandle := positive.

(** [HandleInt::MAX]. *)
Definition HANDLE_MAX : Z := 2 ^ 32 - 1.

Definition usize_to_int (x : Z) : option Z := if HANDLE_MAX <=? x then None else Some x.

Definition try_new (index : nat) : option RawHandle :=
  int ← usize_to_int (Z.of_nat index);
  match wrapping_add 32 int 1 with Zpos nz => Some nz | _ => None end.

Definition get (handle : RawHandle) : nat := Z.to_nat (Zpos handle - 1).

(** The handles there are. *)
Definition handle_ok (handle : RawHandle) : Prop := Zpos handle <= HANDLE_MAX.

Lemma try_new_some index handle :
  try_new index = Some handle <->
  Z.of_nat index < HANDLE_MAX /\ handle = Pos.of_succ_nat index.
Proof.
  unfold try_new, usize_to_int, mbind, option_bind.
  destruct (HANDLE_MAX <=? Z.of_nat index) eqn:Hm; [split; [done|lia]|].
  assert (0 <= Z.of_nat index < 2 ^ 32 - 1) as Hi.
  { apply Z.leb_gt in Hm. unfold HANDLE_MAX in Hm. lia. }
  unfold wrapping_add. rewrite wrap_small by (unfold fits; lia).
  destruct (Z.of_nat index + 1) eqn:He; [lia| |lia]. split.
  - intros [= <-]. split; [lia|]. lia.
  - intros [_ ->]. f_equal. lia.
Qed.

Lemma try_new_none index : try_new index = None <-> HANDLE_MAX <= Z.of_nat index.
Proof.
  destruct (try_new index) as [h|] eqn:E; split; try done.
  - apply try_new_some in E. lia.
  - intros _. destruct (decide (HANDLE_MAX <= Z.of_nat index)); [done|].
    assert (try_new index = Some (Pos.of_succ_nat index)) by (apply try_new_some; lia). congruence.
Qed.

Lemma try_new_total index : Z.of_nat index < HANDLE_MAX ->
  try_new index = Some (Pos.of_succ_nat index).
Proof. intros. by apply try_new_some. Qed.

Lemma get_of_succ index : get (Pos.of_succ_nat index) = index.
Proof. unfold get. lia. Qed.

Lemma of_succ_get handle : Pos.of_succ_nat (get handle) = handle.
Proof. unfold get. lia. Qed.

Lemma get_inj h1 h2 : get h1 = get h2 -> h1 = h2.
Proof. unfold get. lia. Qed.

Lemma try_new_get index handle : try_new index = Some handle -> get handle = index.
Proof. intros [_ ->]%try_new_some. apply get_of_succ. Qed.

Lemma try_new_ok index handle : try_new index = Some handle -> handle_ok handle.
Proof. intros [? ->]%try_new_some. unfold handle_ok. lia. Qed.

Lemma get_ok handle : handle_ok handle -> Z.of_nat (get handle) < HANDLE_MAX.
Proof. unfold handle_ok, get. lia. Qed.

#[export] Hint Resolve try_new_get try_new_ok get_ok : emu.

(** ** Arenas *)

Abbreviation Arena := list.

Section Arena.
Context {S : Type}.

(** Indexing panics on an invalid handle. *)
Definition arena_get (a : Arena S) (h : RawHandle) : option S := a !! get h.

Definition arena_keys (a : Arena S) : option (list RawHandle) := mapM try_new (seq 0 (length a)).

(** [reserve] and [Reservation::store]; allocation itself never fails here. *)
Definition arena_store (item : S) : SM (Arena S) RawHandle := fun a =>
  match try_new (length a) with
  | Some handle => Some (handle, a ++ [item])
  | None => None
  end.

(** [arena[h] = f(arena[h])] through [IndexMut]. *)
Definition arena_modify (h : RawHandle) (f : S -> S) : SM (Arena S) unit := fun a =>
  match a !! get h with
  | Some x => Some (tt, <[get h := f x]> a)
  | None => None
  end.

(** The arena's invariant: every element has a handle. *)
Definition arena_ok (a : Arena S) : Prop := Z.of_nat (length a) <= HANDLE_MAX.

Lemma arena_store_inv item a h a' :
  arena_store item a = Some (h, a') ->
  get h = length a /\ handle_ok h /\ a' = a ++ [item] /\ arena_ok a'.
Proof.
  unfold arena_store. destruct (try_new (length a)) as [h0|] eqn:E; [|done].
  intros [= -> <-]. split_and!; eauto with emu.
  unfold arena_ok. rewrite length_app. apply try_new_some in E. simpl. lia.
Qed.

Lemma arena_store_get item a h a' :
  arena_store item a = Some (h, a') -> arena_get a' h = Some item.
Proof.
  intros (Hh & _ & -> & _)%arena_store_inv. unfold arena_get.
  by rewrite Hh, lookup_app_r, Nat.sub_diag by lia.
Qed.

Lemma arena_store_old item a h a' k x :
  arena_store item a = Some (h, a') -> arena_get a k = Some x ->
  arena_get a' k = Some x /\ k <> h.
Proof.
  intros (Hh & _ & -> & _)%arena_store_inv Hk. unfold arena_get in *.
  pose proof (lookup_lt_Some _ _ _ Hk). split; [by apply lookup_app_l_Some|]. intros ->. lia.
Qed.

Lemma arena_store_total item a :
  Z.of_nat (length a) < HANDLE_MAX -> exists h a', arena_store item a = Some (h, a').
Proof. intros. unfold arena_store. rewrite try_new_total by done. eauto. Qed.

Lemma arena_keys_spec a :
  arena_ok a -> arena_keys a = Some (Pos.of_succ_nat <$> seq 0 (length a)).
Proof.
  intros Ha. apply mapM_Some. rewrite Forall2_fmap_r. apply Forall_Forall2_diag.
  apply Forall_forall. intros i Hi%elem_of_seq. apply try_new_total. unfold arena_ok in Ha. lia.
Qed.
End Arena.

(** ** Maps *)

Abbreviation ArenaMap V := (list (option V)).

Section ArenaMap.
Context {V : Type}.

Definition map_with_capacity (capacity : nat) : ArenaMap V := replicate capacity None.
Definition map_new : ArenaMap V := map_with_capacity 0.

Definition map_get (m : ArenaMap V) (key : RawHandle) : option V := mjoin (m !! get key).

(** What [insertion_slot] makes of the vector; the slot is then in range. *)
Definition insertion_slot (m : ArenaMap V) (key : RawHandle) : ArenaMap V :=
  let index := get key in
  if (length m <=? index)%nat then resize (index + 1) None m else m.

Definition map_insert (key : RawHandle) (value : V) (m : ArenaMap V) : option V * ArenaMap V :=
  let m := insertion_slot m key in
  (mjoin (m !! get key), <[get key := Some value]> m).

Definition map_get_or_insert_with (key : RawHandle) (with_ : V) (m : ArenaMap V) : V * ArenaMap V :=
  let m := insertion_slot m key in
  match mjoin (m !! get key) with
  | Some v => (v, m)
  | None => (with_, <[get key := Some with_]> m)
  end.

Definition map_insert_unique (key : RawHandle) (value : V) : SM (ArenaMap V) unit := fun m =>
  let (old, m) := map_insert key value m in
  match old with None => Some (tt, m) | Some _ => None end.

Definition map_remove (key : RawHandle) (m : ArenaMap V) : option V * ArenaMap V :=
  match m !! get key with
  | Some slot => (slot, <[get key := None]> m)
  | None => (None, m)
  end.

Definition map_iter (m : ArenaMap V) : option (list (RawHandle * V)) :=
  mapM (fun '(i, v) => h ← try_new i; Some (h, v))
    (omap (fun '(i, slot) => pair i <$> slot) (imap pair m)).

Lemma insertion_slot_get m key k :
  map_get (insertion_slot m key) k = map_get m k.
Proof.
  unfold map_get, insertion_slot. destruct (Nat.leb_spec (length m) (get key)); [|done].
  destruct (decide (get k < length m)%nat).
  - by rewrite lookup_resize by lia.
  - rewrite (lookup_ge_None_2 m) by lia.
    destruct (decide (get k < get key + 1)%nat).
    + by rewrite lookup_resize_new by lia.
    + by rewrite lookup_resize_old by lia.
Qed.

Lemma insertion_slot_length m key :
  length (insertion_slot m key) = max (length m) (get key + 1).
Proof.
  unfold insertion_slot. destruct (Nat.leb_spec (length m) (get key));
    rewrite ?length_resize; lia.
Qed.

Lemma get_set_slot m (key k : RawHandle) (slot : option V) :
  (get key < length m)%nat ->
  map_get (<[get key := slot]> m) k = if decide (k = key) then slot else map_get m k.
Proof.
  intros Hl. unfold map_get. destruct (decide (k = key)) as [->|Hk].
  - by rewrite list_lookup_insert_eq by done.
  - rewrite list_lookup_insert_ne; [done|]. intros E. by apply Hk, get_inj.
Qed.

Lemma map_get_insert m (key k : RawHandle) (v : V) :
  map_get (snd (map_insert key v m)) k = if decide (k = key) then Some v else map_get m k.
Proof.
  unfold map_insert. simpl. rewrite get_set_slot by (rewrite insertion_slot_length; lia).
  by rewrite insertion_slot_get.
Qed.

Lemma map_get_insert_old m (key : RawHandle) (v : V) : fst (map_insert key v m) = map_get m key.
Proof. apply (insertion_slot_get m key key). Qed.

Lemma map_insert_unique_new m (key : RawHandle) (v : V) :
  map_get m key = None ->
  exists m', map_insert_unique key v m = Some (tt, m') /\
    forall k, map_get m' k = if decide (k = key) then Some v else map_get m k.
Proof.
  intros Hk. unfold map_insert_unique. pose proof (map_get_insert_old m key v) as Ho.
  pose proof (fun k => map_get_insert m key k v) as Hi.
  destruct (map_insert key v m) as [old m'] eqn:E. simpl in *. rewrite Ho, Hk. eauto.
Qed.

Lemma map_remove_spec m (key : RawHandle) :
  exists m', map_remove key m = (map_get m key, m') /\
    forall k, map_get m' k = if decide (k = key) then None else map_get m k.
Proof.
  unfold map_remove. destruct (m !! get key) as [slot|] eqn:E.
  - eexists. split; [unfold map_get; by rewrite E|]. intros k. apply get_set_slot. by eapply lookup_lt_Some.
  - exists m. split; [unfold map_get; by rewrite E|]. intros k. case_decide as Hk; [subst|done].
    unfold map_get. by rewrite E.
Qed.

Lemma map_get_or_insert_spec m (key : RawHandle) (v : V) :
  exists m', map_get_or_insert_with key v m = (default v (map_get m key), m') /\
    forall k, map_get m' k = if decide (k = key) then Some (default v (map_get m key)) else map_get m k.
Proof.
  pose proof (insertion_slot_get m key) as Hi. rewrite <- (Hi key). unfold map_get_or_insert_with, map_get at 1 3.
  set (m1 := insertion_slot m key) in *. destruct (mjoin (m1 !! get key)) as [x|] eqn:E; simpl;
    eexists; (split; [done|]); intros k.
  - rewrite Hi. case_decide; [subst|done]. by rewrite <- Hi.
  - unfold m1. rewrite get_set_slot by (rewrite insertion_slot_length; lia). by rewrite Hi.
Qed.

Lemma map_get_empty c (k : RawHandle) : map_get (map_with_capacity c) k = None.
Proof.
  unfold map_get, map_with_capacity. destruct (replicate _ _ !! _) eqn:E; [|done].
  by apply lookup_replicate in E as [-> _].
Qed.
End ArenaMap.

(** ** Sets *)

Abbreviation ArenaSet := (list Z).

Definition SET_BITS : Z := USIZE_BITS.

(** [usize::div_ceil]. *)
Definition div_ceil (a b : Z) : Z := if a mod b =? 0 then a / b else a / b + 1.

Definition set_reserve (capacity : Z) (s : ArenaSet) : ArenaSet :=
  let words := Z.to_nat (div_ceil capacity SET_BITS) in
  if (length s <? words)%nat then resize words 0 s else s.

Definition set_with_capacity (capacity : Z) : ArenaSet := set_reserve capacity [].
Definition set_new : ArenaSet := set_with_capacity 0.

Definition index_and_mask (key : RawHandle) : nat * Z :=
  let key := Z.of_nat (get key) in
  (Z.to_nat (key / SET_BITS), Z.shiftl 1 (key mod SET_BITS)).

Definition set_insert (key : RawHandle) : SM ArenaSet bool := fun s =>
  let (index, mask) := index_and_mask key in
  let s := set_reserve (Z.of_nat index + 1) s in
  match s !! index with
  | Some word =>
      let was_there := Z.land word mask in
      Some (was_there =? 0, <[index := Z.lor word mask]> s)
  | None => None  (* index out of bounds *)
  end.

Definition set_contains (key : RawHandle) (s : ArenaSet) : bool :=
  let (index, mask) := index_and_mask key in
  let row := default 0 (s !! index) in
  negb (Z.land row mask =? 0).

Definition set_remove (key : RawHandle) (s : ArenaSet) : bool * ArenaSet :=
  let (index, mask) := index_and_mask key in
  match s !! index with
  | None => (false, s)
  | Some old_row =>
      (negb (Z.land old_row mask =? 0), <[index := Z.land old_row (bitnot USIZE_BITS mask)]> s)
  end.

Definition set_iter (s : ArenaSet) : option (list RawHandle) :=
  let masks := s ≫= fun bits => (fun i => Z.land bits (Z.shiftl 1 i)) <$> seqZ 0 SET_BITS in
  mapM try_new (omap (fun '(i, mask) => if negb (mask =? 0) then Some i else None)
                     (imap pair masks)).

(** [FromIterator::from_iter]; [lower] is the iterator's lower size hint. *)
Fixpoint set_extend (l : list RawHandle) : SM ArenaSet unit :=
  match l with
  | [] => sm_ret tt
  | key :: l => set_insert key ;;! set_extend l
  end.
Definition set_from_iter (lower : Z) (l : list RawHandle) : option ArenaSet :=
  snd <$> set_extend l (set_with_capacity lower).

(** Words are 64 bits wide. *)
Definition set_ok (s : ArenaSet) : Prop := Forall (fits USIZE_BITS) s.

(** The keys an [insert] takes without growing past what [reserve] makes room
    for: it reserves [index + 1] elements, not [index + 1] words. *)
Definition set_room (s : ArenaSet) (key : RawHandle) : bool :=
  let index := fst (index_and_mask key) in ((index =? 0) || (index <? length s))%nat.

Lemma index_and_mask_spec key :
  exists b, index_and_mask key = (Z.to_nat (Z.of_nat (get key) / 64), 2 ^ b) /\
    b = Z.of_nat (get key) mod 64 /\ 0 <= b < 64.
Proof.
  exists (Z.of_nat (get key) mod 64). unfold index_and_mask, SET_BITS, USIZE_BITS.
  rewrite Z.shiftl_1_l. split; [done|]. split; [done|]. apply Z.mod_pos_bound. lia.
Qed.

Lemma land_pow2_testbit w b : 0 <= b -> (Z.land w (2 ^ b) =? 0) = negb (Z.testbit w b).
Proof.
  intros Hb. rewrite <- Z.shiftl_1_l. destruct (Z.testbit w b) eqn:E; simpl.
  - apply Z.eqb_neq. intros H. apply (f_equal (fun z => Z.testbit z b)) in H.
    rewrite Z.land_spec, E, Z.shiftl_spec, Z.sub_diag, Z.testbit_0_l in H by lia. done.
  - apply Z.eqb_eq, Z.bits_inj'. intros i Hi. rewrite Z.land_spec, Z.testbit_0_l.
    destruct (decide (i = b)) as [->|]; [by rewrite E|].
    rewrite Z.shiftl_1_l, Z.pow2_bits_false by lia. apply andb_false_r.
Qed.

(** A key's bit. *)
Definition set_bit (s : ArenaSet) (i : nat) : bool :=
  Z.testbit (default 0 (s !! Z.to_nat (Z.of_nat i / 64))) (Z.of_nat i mod 64).

Lemma set_contains_bit key s : set_contains key s = set_bit s (get key).
Proof.
  unfold set_contains. destruct (index_and_mask_spec key) as (b & -> & -> & Hb).
  by rewrite land_pow2_testbit, negb_involutive by lia.
Qed.

Lemma div_ceil_words n : 0 <= n -> n <= 64 * div_ceil n 64 < n + 64.
Proof.
  intros. unfold div_ceil. pose proof (Z.div_mod n 64).
  pose proof (Z.mod_pos_bound n 64). destruct (Z.eqb_spec (n mod 64) 0); lia.
Qed.

Lemma set_reserve_lookup c s i :
  default 0 (set_reserve c s !! i) = default 0 (s !! i).
Proof.
  unfold set_reserve. case_match eqn:E; [|done]. apply Nat.ltb_lt in E.
  destruct (decide (i < length s)%nat); [by rewrite lookup_resize by lia|].
  rewrite (lookup_ge_None_2 s) by lia.
  destruct (decide (i < Z.to_nat (div_ceil c SET_BITS))%nat).
  - by rewrite lookup_resize_new by lia.
  - by rewrite lookup_resize_old by lia.
Qed.

Lemma set_reserve_length c s :
  length (set_reserve c s) = max (length s) (Z.to_nat (div_ceil c 64)).
Proof.
  unfold set_reserve, SET_BITS, USIZE_BITS.
  destruct (Nat.ltb_spec (length s) (Z.to_nat (div_ceil c 64))); rewrite ?length_resize; lia.
Qed.

Lemma set_reserve_ok c s : set_ok s -> set_ok (set_reserve c s).
Proof.
  intros Hs. unfold set_reserve. case_match; [|done]. apply Forall_resize; [by split|done].
Qed.

Lemma set_bit_insert s (k i : nat) w :
  (Z.to_nat (Z.of_nat k / 64) < length s)%nat ->
  set_bit (<[Z.to_nat (Z.of_nat k / 64) := w]> s) i =
    if decide (Z.of_nat k / 64 = Z.of_nat i / 64) then Z.testbit w (Z.of_nat i mod 64)
    else set_bit s i.
Proof.
  intros Hl. unfold set_bit. pose proof (Z.div_pos (Z.of_nat k) 64). pose proof (Z.div_pos (Z.of_nat i) 64).
  destruct (decide _) as [E|E].
  - by rewrite <- E, list_lookup_insert_eq by done.
  - rewrite list_lookup_insert_ne; [done|]. lia.
Qed.

Lemma same_word_bit (k i : nat) :
  Z.of_nat k / 64 = Z.of_nat i / 64 -> Z.of_nat k mod 64 = Z.of_nat i mod 64 -> k = i.
Proof.
  intros Hd Hm. pose proof (Z.div_mod (Z.of_nat k) 64). pose proof (Z.div_mod (Z.of_nat i) 64). lia.
Qed.

(** [insert] succeeds exactly when there is room, and then does what it should. *)
Lemma set_insert_spec key s :
  set_ok s ->
  if set_room s key then
    exists s', set_insert key s = Some (negb (set_contains key s), s') /\ set_ok s' /\
      (length s <= length s')%nat /\
      forall k, set_contains k s' = bool_decide (k = key) || set_contains k s
  else set_insert key s = None.
Proof.
  intros Hs. unfold set_room, set_insert.
  destruct (index_and_mask_spec key) as (b & E & Hb & Hb'). rewrite E. cbn [fst].
  set (i := Z.to_nat (Z.of_nat (get key) / 64)) in *. set (s1 := set_reserve _ s).
  assert (length s1 = max (length s) (Z.to_nat (div_ceil (Z.of_nat i + 1) 64))) as Hl
    by apply set_reserve_length.
  pose proof (div_ceil_words (Z.of_nat i + 1)).
  destruct ((i =? 0) || (i <? length s))%nat eqn:Hr.
  - assert (i < length s1)%nat as Hi.
    { apply orb_true_iff in Hr. rewrite Nat.eqb_eq, Nat.ltb_lt in Hr. lia. }
    destruct (lookup_lt_is_Some_2 s1 i Hi) as [w Hw]. rewrite Hw.
    assert (fits 64 w) as Hf.
    { eapply (Forall_lookup_1 (fits USIZE_BITS) s1); [by apply set_reserve_ok|done]. }
    assert (default 0 (s !! i) = w) as Hw0.
    { by rewrite <- (set_reserve_lookup (Z.of_nat i + 1)); fold s1; rewrite Hw. }
    eexists. split; [|split_and!].
    + rewrite land_pow2_testbit by lia. rewrite set_contains_bit. unfold set_bit. fold i.
      rewrite Hw0, <- Hb. reflexivity.
    + apply Forall_insert; [by apply set_reserve_ok|]. apply lor_fits; [done|done|].
      unfold fits, USIZE_BITS. split; [lia|]. apply Z.pow_lt_mono_r; lia.
    + rewrite length_insert. lia.
    + intros k. rewrite !set_contains_bit. unfold i. rewrite set_bit_insert by done.
      destruct (decide _) as [Ed|Ed].
      * rewrite Z.lor_spec. unfold set_bit. rewrite <- Ed. fold i. rewrite Hw0.
        case_bool_decide as Ek.
        { subst k. rewrite <- Hb, Z.pow2_bits_true by lia. apply orb_true_r. }
        rewrite Z.pow2_bits_false by (intros Eb; apply Ek, get_inj; symmetry; apply same_word_bit; lia).
        apply orb_false_r.
      * case_bool_decide as Ek; [by subst|]. unfold set_bit, s1.
        by rewrite set_reserve_lookup.
  - apply orb_false_iff in Hr as [Hr1 Hr2]. apply Nat.eqb_neq in Hr1. apply Nat.ltb_ge in Hr2.
    rewrite lookup_ge_None_2; [done|]. lia.
Qed.

Lemma set_remove_spec key s :
  set_ok s ->
  exists s', set_remove key s = (set_contains key s, s') /\ set_ok s' /\ length s' = length s /\
    forall k, set_contains k s' = negb (bool_decide (k = key)) && set_contains k s.
Proof.
  intros Hs. unfold set_remove, set_contains at 1.
  destruct (index_and_mask_spec key) as (b & -> & Hb & Hb').
  set (i := Z.to_nat (Z.of_nat (get key) / 64)).
  destruct (s !! i) as [w|] eqn:Hw; simpl.
  - assert (fits 64 w) as Hf by by eapply (Forall_lookup_1 (fits USIZE_BITS)).
    eexists; split; [done|split_and!].
    + apply Forall_insert; [done|]. apply land_fits_l; [done..|].
      unfold bitnot. apply Z.lxor_nonneg. split; intros _; [vm_compute; done|].
      apply Z.pow_nonneg. lia.
    + apply length_insert.
    + intros k. rewrite !set_contains_bit. unfold i. rewrite set_bit_insert by by eapply lookup_lt_Some.
      destruct (decide _) as [Ed|Ed].
      * pose proof (Z.mod_pos_bound (Z.of_nat (get k)) 64).
        rewrite Z.land_spec. unfold bitnot, set_bit. rewrite <- Ed. fold i. rewrite Hw. simpl.
        rewrite Z.lxor_spec, (Z.ones_spec_low _ (Z.of_nat (get k) mod 64)) by (unfold USIZE_BITS; lia).
        case_bool_decide as Ek.
        { subst k. rewrite <- Hb, Z.pow2_bits_true by lia. apply andb_false_r. }
        rewrite Z.pow2_bits_false by (intros Eb; apply Ek, get_inj; symmetry; apply same_word_bit; lia).
        apply andb_true_r.
      * case_bool_decide as Ek; [by subst|done].
  - exists s. split_and!; [done..|].
    intros k. case_bool_decide as Ek; [|done]. subst k.
    rewrite set_contains_bit. unfold set_bit. fold i. rewrite Hw. apply Z.testbit_0_l.
Qed.

(** [filter_map] over an [enumerate]d fixed function. *)
Lemma imap_pair_fmap {A} (f : nat -> A) n :
  imap pair (f <$> seq 0 n) = (fun i => (i, f i)) <$> seq 0 n.
Proof.
  apply list_eq. intros i. rewrite list_lookup_imap, !list_lookup_fmap.
  destruct (seq 0 n !! i) as [j|] eqn:E; [|done].
  apply lookup_seq in E as [-> _]. done.
Qed.

Lemma omap_filter {A} (P : A -> bool) (l : list A) :
  omap (fun i => if P i then Some i else None) l = filter (fun i => P i) l.
Proof.
  induction l as [|x l IH]; [done|]. simpl. rewrite filter_cons.
  unfold omap in *. destruct (P x); simpl; by rewrite IH.
Qed.

Lemma omap_fmap {A B C} (f : A -> B) (g : B -> option C) (l : list A) :
  omap g (f <$> l) = omap (g ∘ f) l.
Proof. induction l as [|x l IH]; [done|]. unfold omap, fmap in *. simpl. by rewrite IH. Qed.

Lemma mapM_try_new l :
  Forall (fun i => Z.of_nat i < HANDLE_MAX) l -> mapM try_new l = Some (Pos.of_succ_nat <$> l).
Proof.
  intros Hl. apply mapM_Some, Forall2_fmap_r, Forall_Forall2_diag.
  eapply Forall_impl; [exact Hl|]. intros i. apply try_new_total.
Qed.

Definition word_mask (s : ArenaSet) (i : nat) : Z :=
  Z.land (default 0 (s !! Z.to_nat (Z.of_nat i / 64))) (2 ^ (Z.of_nat i mod 64)).

Lemma set_masks s :
  s ≫= (fun bits => (fun i => Z.land bits (Z.shiftl 1 i)) <$> seqZ 0 SET_BITS) =
  word_mask s <$> seq 0 (64 * length s).
Proof.
  induction s as [|w s IH] using rev_ind; [done|].
  rewrite bind_app, length_app, Nat.mul_add_distr_l, seq_app, fmap_app, IH. f_equal.
  - apply list_fmap_ext. intros j i [-> Hj]%lookup_seq. unfold word_mask.
    rewrite lookup_app_l; [done|]. rewrite Nat.add_0_l. set (i := j).
    pose proof (Z.div_lt_upper_bound (Z.of_nat i) 64 (Z.of_nat (length s))). lia.
  - cbn [mbind list_bind]. rewrite app_nil_r. apply list_eq. intros i. rewrite !list_lookup_fmap.
    destruct (decide (i < 64)%nat) as [Hi|Hi].
    + rewrite lookup_seqZ_lt by (unfold SET_BITS, USIZE_BITS; lia).
      rewrite lookup_seq_lt by (simpl; lia). simpl. f_equal. unfold word_mask.
      replace (Z.of_nat (_ + i)) with (Z.of_nat i + Z.of_nat (length s) * 64) by lia.
      rewrite Z.div_add, Z.mod_add, Z.div_small, Z.mod_small by lia.
      rewrite Z.shiftl_1_l, !Z.add_0_l, Nat2Z.id, list_lookup_middle by done. done.
    + rewrite lookup_seqZ_ge by (unfold SET_BITS, USIZE_BITS; lia).
      rewrite lookup_seq_ge by (simpl; lia). done.
Qed.

Lemma seq_sorted_lt i n : StronglySorted lt (seq i n).
Proof.
  revert i. induction n as [|n IH]; intros i; simpl; constructor; [apply IH|].
  apply Forall_forall. intros j ?%elem_of_seq. lia.
Qed.

(** [iter] lists the keys in increasing order. *)
Lemma set_iter_spec s :
  (forall i, set_bit s i = true -> Z.of_nat i < HANDLE_MAX) ->
  set_iter s = Some (Pos.of_succ_nat <$> filter (set_bit s) (seq 0 (64 * length s))).
Proof.
  intros Hs. unfold set_iter. rewrite set_masks, imap_pair_fmap, omap_fmap.
  rewrite (list_omap_ext _ (fun i => if set_bit s i then Some i else None) _ (seq 0 (64 * length s))).
  - rewrite omap_filter. apply mapM_try_new, Forall_forall.
    intros i [Hi _]%list_elem_of_filter. apply Hs. by destruct (set_bit s i).
  - apply Forall_Forall2_diag, Forall_true. intros i. simpl. unfold word_mask, set_bit.
    pose proof (Z.mod_pos_bound (Z.of_nat i) 64).
    by rewrite land_pow2_testbit, negb_involutive by lia.
Qed.

(** ** Refinement

    A client's operations on a map or set, and what they return. *)

Section MapOps.
Context {V : Type}.

Inductive MapOp :=
  | MapGet (key : RawHandle)
  | MapInsert (key : RawHandle) (value : V)
  | MapInsertUnique (key : RawHandle) (value : V)
  | MapGetOrInsert (key : RawHandle) (value : V)
  | MapRemove (key : RawHandle).

Definition map_op (op : MapOp) : SM (ArenaMap V) (option V) := fun m =>
  match op with
  | MapGet key => Some (map_get m key, m)
  | MapInsert key value => Some (map_insert key value m)
  | MapInsertUnique key value => (map_insert_unique key value ;;! sm_ret None) m
  | MapGetOrInsert key value => let (v, m) := map_get_or_insert_with key value m in Some (Some v, m)
  | MapRemove key => Some (map_remove key m)
  end.

(** The same on a finite map. *)
Definition gmap_op (op : MapOp) : SM (gmap RawHandle V) (option V) := fun g =>
  match op with
  | MapGet key => Some (g !! key, g)
  | MapInsert key value => Some (g !! key, <[key := value]> g)
  | MapInsertUnique key value =>
      match g !! key with None => Some (None, <[key := value]> g) | Some _ => None end
  | MapGetOrInsert key value =>
      match g !! key with Some v => Some (Some v, g) | None => Some (Some value, <[key := value]> g) end
  | MapRemove key => Some (g !! key, delete key g)
  end.

Fixpoint run_ops {S Op A} (step : Op -> SM S A) (ops : list Op) : SM S (list A) :=
  match ops with
  | [] => sm_ret []
  | op :: ops => let! a := step op in let! l := run_ops step ops in sm_ret (a :: l)
  end.

Definition map_rel (m : ArenaMap V) (g : gmap RawHandle V) : Prop := forall k, map_get m k = g !! k.

Lemma map_rel_set m g key slot :
  map_rel m g ->
  map_rel (<[get key := slot]> (insertion_slot m key)) (partial_alter (fun _ => slot) key g).
Proof.
  intros H k. rewrite get_set_slot by (rewrite insertion_slot_length; lia).
  rewrite insertion_slot_get, H. case_decide as E; [subst|].
  - by rewrite lookup_partial_alter_eq.
  - by rewrite lookup_partial_alter_ne.
Qed.

Lemma map_op_refines m g op :
  map_rel m g ->
  match map_op op m, gmap_op op g with
  | Some (a, m'), Some (b, g') => a = b /\ map_rel m' g'
  | None, None => True
  | _, _ => False
  end.
Proof.
  intros H. pose proof (fun key v => map_rel_set m g key (Some v) H) as Hs.
  assert (forall key, mjoin (insertion_slot m key !! get key) = g !! key) as Hg.
  { intros key. rewrite <- H. apply (insertion_slot_get m key key). }
  destruct op as [key|key v|key v|key v|key]; simpl; unfold sm_bind, map_insert_unique,
    map_insert, map_get_or_insert_with, map_remove; rewrite ?Hg.
  - by rewrite H.
  - by split.
  - destruct (g !! key); [done|]. by split.
  - destruct (g !! key) eqn:E; split; try done. intros k. by rewrite insertion_slot_get.
  - specialize (H key) as Hk. unfold map_get in Hk. destruct (m !! get key) eqn:E.
    + split; [done|]. intros k. rewrite get_set_slot by by eapply lookup_lt_Some.
      case_decide; subst; [by rewrite lookup_delete_eq|]. by rewrite lookup_delete_ne.
    + split; [done|]. intros k. rewrite H. destruct (decide (k = key)) as [->|].
      * by rewrite lookup_delete_eq.
      * by rewrite lookup_delete_ne.
Qed.

Lemma run_map_refines ops m g :
  map_rel m g ->
  match run_ops map_op ops m, run_ops gmap_op ops g with
  | Some (a, m'), Some (b, g') => a = b /\ map_rel m' g'
  | None, None => True
  | _, _ => False
  end.
Proof.
  revert m g. induction ops as [|op ops IH]; intros m g H; simpl; [done|].
  unfold sm_bind. pose proof (map_op_refines m g op H) as Hop.
  destruct (map_op op m) as [[a m']|], (gmap_op op g) as [[b g']|]; try done.
  destruct Hop as [-> Hr]. specialize (IH _ _ Hr).
  destruct (run_ops map_op ops m') as [[la m'']|], (run_ops gmap_op ops g') as [[lb g'']|]; try done.
  simpl. destruct IH as [-> ?]. done.
Qed.

Lemma enumerate_some_spec n (m : ArenaMap V) :
  let l := omap (fun '(i, slot) => pair i <$> slot) (imap (fun i slot => ((n + i)%nat, slot)) m) in
  StronglySorted lt l.*1 /\ Forall (fun i => (n <= i)%nat) l.*1 /\
  forall i v, (i, v) ∈ l <-> exists j, i = (n + j)%nat /\ m !! j = Some (Some v).
Proof.
  revert n. induction m as [|slot m IH]; intros n; simpl.
  { split_and!; [constructor..|]. intros i v. split; [by intros ?%elem_of_nil|by intros (? & _ & ?)]. }
  rewrite (imap_ext _ (fun i slot => ((S n + i)%nat, slot)))
    by (intros; simpl; f_equal; lia).
  destruct (IH (S n)) as (Hs & Hf & He). unfold omap in *. rewrite Nat.add_0_r.
  set (l := list_omap _ _ _ _) in *. assert (Forall (fun i => (n <= i)%nat) l.*1) as Hf'.
  { eapply Forall_impl; [exact Hf|]. simpl. lia. }
  assert (forall i v, (i, v) ∈ l <-> exists j, i = (n + S j)%nat /\ m !! j = Some (Some v)) as He'.
  { intros i v. rewrite He. split; intros (j & -> & ?); exists j; (split; [lia|done]). }
  destruct slot as [v|]; simpl.
  - split_and!; [|by constructor|].
    + constructor; [done|]. eapply Forall_impl; [exact Hf|]. simpl. lia.
    + intros i v'. rewrite elem_of_cons, He'. split.
      * intros [[= -> ->]|(j & -> & ?)]; [exists 0%nat|by exists (S j)]. by rewrite Nat.add_0_r.
      * intros ([|j] & -> & Hj); simpl in Hj; [left|right; by exists j].
        rewrite Nat.add_0_r. congruence.
  - split_and!; [done..|]. intros i v'. rewrite He'. split.
    + intros (j & -> & ?). by exists (S j).
    + intros ([|j] & -> & Hj); simpl in Hj; [done|by exists j].
Qed.

(** [iter] lists the entries in increasing order of their handles. *)
Lemma map_iter_spec (m : ArenaMap V) :
  (forall k, is_Some (map_get m k) -> handle_ok k) ->
  exists l, map_iter m = Some l /\ StronglySorted Pos.lt l.*1 /\
    forall k v, (k, v) ∈ l <-> map_get m k = Some v.
Proof.
  intros Hk. pose proof (enumerate_some_spec 0 m) as Hl. cbv zeta in Hl. unfold map_iter.
  set (l := omap _ _) in *. destruct Hl as (Hs & _ & He).
  exists (prod_map Pos.of_succ_nat id <$> l). split_and!.
  - apply mapM_Some, Forall2_fmap_r, Forall_Forall2_diag, Forall_forall. intros [i v] Hin.
    apply He in Hin as (j & -> & Hj). simpl.
    rewrite (try_new_total j); [done|]. rewrite <- (get_of_succ j). apply get_ok, Hk.
    exists v. unfold map_get. by rewrite get_of_succ, Hj.
  - clear He. induction l as [|[i v] l IH]; simpl in *; [constructor|].
    apply StronglySorted_inv in Hs as [Hs Hf]. constructor; [by apply IH|].
    apply Forall_forall. intros k Hin. apply list_elem_of_fmap in Hin as ([k' v'] & -> & Hin).
    apply list_elem_of_fmap in Hin as ([j w] & [= -> ->] & Hin). simpl.
    rewrite Forall_forall in Hf. specialize (Hf j). rewrite list_elem_of_fmap in Hf.
    assert (i < j)%nat by (apply Hf; by exists (j, w)). lia.
  - intros k v. rewrite list_elem_of_fmap. unfold map_get. split.
    + intros ([i v'] & [= -> ->] & Hin). apply He in Hin as (j & -> & Hj). simpl.
      by rewrite get_of_succ, Hj.
    + intros Hg. exists (get k, v). simpl. rewrite of_succ_get. split; [done|].
      apply He. exists (get k). split; [done|]. by destruct (m !! get k) as [[]|]; simplify_eq/=.
Qed.
End MapOps.

Inductive SetOp :=
  | SetInsert (key : RawHandle)
  | SetContains (key : RawHandle)
  | SetRemove (key : RawHandle).

Definition set_op (op : SetOp) : SM ArenaSet bool := fun s =>
  match op with
  | SetInsert key => set_insert key s
  | SetContains key => Some (set_contains key s, s)
  | SetRemove key => Some (set_remove key s)
  end.

(** The same on a finite set; [insert] tells whether the key is new. *)
Definition gset_op (op : SetOp) : SM (gset RawHandle) bool := fun g =>
  match op with
  | SetInsert key => Some (bool_decide (key ∉ g), {[key]} ∪ g)
  | SetContains key => Some (bool_decide (key ∈ g), g)
  | SetRemove key => Some (bool_decide (key ∈ g), g ∖ {[key]})
  end.

Definition op_room (s : ArenaSet) (op : SetOp) : bool :=
  match op with SetInsert key => set_room s key | _ => true end.

Definition set_rel (s : ArenaSet) (g : gset RawHandle) : Prop :=
  set_ok s /\ forall k, set_contains k s = bool_decide (k ∈ g).

(** What decides where a key has room: the length, and every set has room for
    the keys of its first word. *)
Definition room_like (s s' : ArenaSet) : Prop := forall key, set_room s' key = set_room s key.

Lemma set_insert_length key s b s' :
  set_insert key s = Some (b, s') -> room_like s s'.
Proof.
  intros H k. unfold set_insert in H. destruct (index_and_mask key) as [i mask] eqn:E.
  destruct (set_reserve (Z.of_nat i + 1) s !! i) as [w|] eqn:Hw; [|done].
  injection H as _ <-. unfold set_room. set (j := fst (index_and_mask k)).
  rewrite length_insert, set_reserve_length.
  pose proof (div_ceil_words (Z.of_nat i + 1)) as Hd.
  apply lookup_lt_Some in Hw. rewrite set_reserve_length in Hw.
  destruct (Nat.eqb_spec j 0) as [|Hj]; [done|]. simpl.
  destruct (Nat.ltb_spec j (length s)), (Nat.ltb_spec j (max (length s) (Z.to_nat (div_ceil (Z.of_nat i + 1) 64))));
    try done; lia.
Qed.

Lemma set_op_refines s g op :
  set_rel s g ->
  if op_room s op then
    exists b s' g', set_op op s = Some (b, s') /\ gset_op op g = Some (b, g') /\
      set_rel s' g' /\ room_like s s'
  else set_op op s = None.
Proof.
  intros [Hok Hs]. destruct op as [key|key|key]; simpl.
  - pose proof (set_insert_spec key s Hok) as H. destruct (set_room s key); [|done].
    destruct H as (s' & E & Hok' & _ & Hk). do 3 eexists. split_and!; [done| | |by eapply set_insert_length].
    + f_equal. f_equal. rewrite Hs. by repeat case_bool_decide.
    + split; [done|]. intros k. rewrite Hk, Hs.
      repeat case_bool_decide; try done; set_solver.
  - do 3 eexists. split_and!; [done|by rewrite Hs|done|done].
  - destruct (set_remove_spec key s Hok) as (s' & E & Hok' & Hl & Hk). do 3 eexists. split_and!.
    + by rewrite E.
    + by rewrite Hs.
    + split; [done|]. intros k. rewrite Hk, Hs. repeat case_bool_decide; try done; set_solver.
    + intros k. unfold set_room. by rewrite Hl.
Qed.

Lemma run_set_refines s g ops :
  set_rel s g ->
  if forallb (op_room s) ops then
    exists l s' g', run_ops set_op ops s = Some (l, s') /\ run_ops gset_op ops g = Some (l, g') /\
      set_rel s' g'
  else run_ops set_op ops s = None.
Proof.
  revert s g. induction ops as [|op ops IH]; intros s g H; simpl.
  { by exists [], s, g. }
  unfold sm_bind. pose proof (set_op_refines s g op H) as Hop.
  destruct (op_room s op); simpl; [|by rewrite Hop].
  destruct Hop as (b & s' & g' & -> & -> & Hr & Hl). specialize (IH _ _ Hr).
  assert (forall op, op_room s' op = op_room s op) as Ho by (intros []; simpl; auto).
  assert (forallb (op_room s') ops = forallb (op_room s) ops) as Hf.
  { clear IH. induction ops as [|op' ops IH]; simpl; [done|]. by rewrite Ho, IH. }
  rewrite Hf in IH. destruct (forallb (op_room s) ops); [|by rewrite IH].
  destruct IH as (l & s'' & g'' & -> & -> & ?). eexists _, _, _. by split_and!.
Qed.

Lemma set_with_capacity_rel c : set_rel (set_with_capacity c) ∅.
Proof.
  split; [apply set_reserve_ok; constructor|]. intros k.
  rewrite set_contains_bit, bool_decide_eq_false_2 by set_solver.
  unfold set_bit, set_with_capacity. rewrite set_reserve_lookup. apply Z.testbit_0_l.
Qed.

Lemma set_iter_rel s g :
  set_rel s g -> (forall k, k ∈ g -> handle_ok k) ->
  exists l, set_iter s = Some l /\ StronglySorted Pos.lt l /\ forall k, k ∈ l <-> k ∈ g.
Proof.
  intros [Hok Hs] Hg.
  assert (forall i, set_bit s i = true <-> Pos.of_succ_nat i ∈ g) as Hb.
  { intros i. rewrite <- (get_of_succ i) at 1. rewrite <- set_contains_bit, Hs.
    apply bool_decide_eq_true. }
  eexists. split; [|split].
  - apply set_iter_spec. intros i Hi. apply Hb, Hg, get_ok in Hi. by rewrite get_of_succ in Hi.
  - assert (StronglySorted lt (seq 0 (64 * length s))) as Hl by apply seq_sorted_lt.
    revert Hl. generalize (seq 0 (64 * length s)). induction l as [|i l IH]; intros Hl; [constructor|]. rewrite filter_cons.
    apply StronglySorted_inv in Hl as [Hl Hf]. case_decide; [|by apply IH].
    simpl. constructor; [by apply IH|]. apply Forall_forall. intros k Hk.
    apply list_elem_of_fmap in Hk as (j & -> & Hj). apply list_elem_of_filter in Hj as [_ Hj].
    rewrite Forall_forall in Hf. specialize (Hf j Hj). lia.
  - intros k. rewrite list_elem_of_fmap. split.
    + intros (i & -> & Hi). apply list_elem_of_filter in Hi as [Hi _]. apply Hb.
      by destruct (set_bit s i).
    + intros Hk. exists (get k). rewrite of_succ_get. split; [done|].
      assert (set_bit s (get k) = true) as Hi by by apply Hb; rewrite of_succ_get.
      apply list_elem_of_filter. rewrite Hi. split; [done|]. apply elem_of_seq. split; [lia|].
      unfold set_bit in Hi. destruct (s !! _) eqn:E; [|by rewrite Z.testbit_0_l in Hi].
      apply lookup_lt_Some in E. pose proof (Z.div_mod (Z.of_nat (get k)) 64).
      pose proof (Z.mod_pos_bound (Z.of_nat (get k)) 64). lia.
Qed.

Lemma set_extend_spec l s g :
  set_rel s g -> (forall k, k ∈ l -> set_room s k = true) ->
  exists s', set_extend l s = Some (tt, s') /\ set_rel s' (list_to_set l ∪ g).
Proof.
  revert s g. induction l as [|k l IH]; intros s g Hr Hl; simpl.
  { exists s. split; [done|]. by rewrite (left_id_L ∅ (∪)). }
  pose proof (set_op_refines s g (SetInsert k) Hr) as H. cbn [op_room] in H. rewrite Hl in H by by left.
  destruct H as (b & s1 & g1 & E & Eg & Hr1 & Hroom). injection Eg as _ <-.
  unfold sm_bind. simpl in E. rewrite E.
  destruct (IH s1 _ Hr1) as (s2 & E2 & Hr2).
  { intros k' ?. rewrite Hroom. apply Hl. by right. }
  exists s2. split; [done|]. by replace ({[k]} ∪ list_to_set l ∪ g) with (list_to_set l ∪ ({[k]} ∪ g)) by set_solver.
Qed.

Lemma set_from_iter_spec c l :
  (forall k, k ∈ l -> set_room (set_with_capacity c) k = true) ->
  exists s, set_from_iter c l = Some s /\ set_rel s (list_to_set l).
Proof.
  intros Hl. unfold set_from_iter.
  destruct (set_extend_spec l _ _ (set_with_capacity_rel c) Hl) as (s & -> & Hr).
  exists s. split; [done|]. by rewrite (right_id_L ∅ (∪)) in Hr.
Qed.

(** The keys of the first word fit into every set. *)
Lemma small_room s (key : RawHandle) : (get key < 64)%nat -> set_room s key = true.
Proof.
  intros Hk. unfold set_room. destruct (index_and_mask_spec key) as (b & -> & _). simpl.
  by rewrite Z.div_small by lia.
Qed.

(** ** Properties *)

Definition map_op_key {V} (op : @MapOp V) : RawHandle :=
  match op with
  | MapGet key | MapInsert key _ | MapInsertUnique key _ | MapGetOrInsert key _ | MapRemove key => key
  end.

Definition set_op_key (op : SetOp) : RawHandle :=
  match op with SetInsert key | SetContains key | SetRemove key => key end.

Lemma run_gmap_keys {V} (ops : list (@MapOp V)) g a g' k :
  run_ops gmap_op ops g = Some (a, g') -> is_Some (g' !! k) ->
  is_Some (g !! k) \/ k ∈ map_op_key <$> ops.
Proof.
  revert g a. induction ops as [|op ops IH]; intros g a H Hk; simpl in H.
  { injection H as _ <-. by left. }
  unfold sm_bind in H. destruct (gmap_op op g) as [[b g1]|] eqn:E; [|done].
  destruct (run_ops gmap_op ops g1) as [[l g2]|] eqn:E2; [|done]. injection H as _ <-.
  rewrite fmap_cons, elem_of_cons. destruct (IH _ _ E2 Hk) as [H|]; [|tauto].
  destruct (decide (k = map_op_key op)) as [|Hne]; [tauto|]. left.
  destruct op; simpl in *; repeat case_match; simplify_eq;
    by rewrite ?lookup_insert_ne, ?lookup_delete_ne in H by done.
Qed.

Lemma run_gset_keys ops g a g' k :
  run_ops gset_op ops g = Some (a, g') -> k ∈ g' -> k ∈ g \/ k ∈ set_op_key <$> ops.
Proof.
  revert g a. induction ops as [|op ops IH]; intros g a H Hk; simpl in H.
  { injection H as _ <-. by left. }
  unfold sm_bind in H. destruct (gset_op op g) as [[b g1]|] eqn:E; [|done].
  destruct (run_ops gset_op ops g1) as [[l g2]|] eqn:E2; [|done]. injection H as _ <-.
  rewrite fmap_cons, elem_of_cons. destruct (IH _ _ E2 Hk) as [H|]; [|tauto].
  destruct op; simpl in *; simplify_eq; set_solver.
Qed.

(** C36: a handle-indexed map is a finite map.  From any initial capacity every
    sequence of lookups, insertions, unique insertions, lookups-or-insertions and
    removals returns what the finite map returns and panics exactly when an
    [insert_unique] meets a key already there; iterating afterwards lists exactly
    the map's entries, in increasing order of their handles. *)
Theorem arena_map_refines {V} capacity (ops : list (@MapOp V)) :
  Forall (fun op => handle_ok (map_op_key op)) ops ->
  match run_ops map_op ops (map_with_capacity capacity), run_ops gmap_op ops ∅ with
  | Some (a, m), Some (b, g) =>
      a = b /\ exists l, map_iter m = Some l /\ StronglySorted Pos.lt l.*1 /\
        forall k v, (k, v) ∈ l <-> g !! k = Some v
  | None, None => True
  | _, _ => False
  end.
Proof.
  intros Hops. assert (map_rel (map_with_capacity capacity) (∅ : gmap RawHandle V)) as H0.
  { intros k. rewrite lookup_empty. unfold map_get, map_with_capacity.
    destruct (replicate _ _ !! _) eqn:E; [|done]. apply lookup_replicate in E as [-> _]. done. }
  pose proof (run_map_refines ops _ _ H0) as H.
  destruct (run_ops map_op ops _) as [[a m]|], (run_ops gmap_op ops ∅) as [[b g]|] eqn:Eg; try done.
  destruct H as [-> Hr]. split; [done|].
  destruct (map_iter_spec m) as (l & ? & ? & Hl).
  - intros k Hk. rewrite Hr in Hk. destruct (run_gmap_keys _ _ _ _ _ Eg Hk) as [[? []%lookup_empty_Some]|Hin].
    apply list_elem_of_fmap in Hin as (op & -> & Hin). by rewrite Forall_forall in Hops; apply Hops.
  - exists l. split_and!; [done..|]. intros k v. by rewrite Hl, Hr.
Qed.

Lemma arena_map_refines_witness :
  match run_ops map_op [MapInsert 3%positive true; MapGetOrInsert 1%positive false; MapRemove 3%positive]
          (map_with_capacity 2),
        run_ops gmap_op [MapInsert 3%positive true; MapGetOrInsert 1%positive false; MapRemove 3%positive] ∅ with
  | Some (a, m), Some (b, g) =>
      a = b /\ exists l, map_iter m = Some l /\ StronglySorted Pos.lt l.*1 /\
        forall k v, (k, v) ∈ l <-> g !! k = Some v
  | None, None => True
  | _, _ => False
  end.
Proof. apply (arena_map_refines 2). repeat first [apply Forall_nil_2|apply Forall_cons_2; [by vm_compute|]]. Defined.

(** C37: a handle set is a finite set where it has room, and panics where it has
    not.  From any initial capacity every sequence of insertions, tests and
    removals returns what the finite set returns, and iterating afterwards lists
    its elements in increasing order -- provided every inserted handle falls in
    the first word or in the words the capacity gave.  As soon as one does not,
    the operation panics with an index out of bounds: [insert] makes room for as
    many elements as it needs words. *)
Theorem arena_set_refines capacity ops :
  Forall (fun op => handle_ok (set_op_key op)) ops ->
  if forallb (op_room (set_with_capacity capacity)) ops then
    exists a s g l, run_ops set_op ops (set_with_capacity capacity) = Some (a, s) /\
      run_ops gset_op ops ∅ = Some (a, g) /\
      set_iter s = Some l /\ StronglySorted Pos.lt l /\ forall k, k ∈ l <-> k ∈ g
  else run_ops set_op ops (set_with_capacity capacity) = None.
Proof.
  intros Hops. pose proof (run_set_refines _ _ ops (set_with_capacity_rel capacity)) as H.
  destruct (forallb _ ops); [|done]. destruct H as (a & s & g & Hs & Hg & Hr).
  destruct (set_iter_rel s g Hr) as (l & ? & ? & ?).
  - intros k Hk. destruct (run_gset_keys _ _ _ _ _ Hg Hk) as [?|Hin]; [set_solver|].
    apply list_elem_of_fmap in Hin as (op & -> & Hin). by rewrite Forall_forall in Hops; apply Hops.
  - exists a, s, g, l. by split_and!.
Qed.

Lemma arena_set_refines_witness :
  (exists a s g l, run_ops set_op [SetInsert 64%positive; SetInsert 1%positive; SetContains 64%positive]
      (set_with_capacity 0) = Some (a, s) /\
    run_ops gset_op [SetInsert 64%positive; SetInsert 1%positive; SetContains 64%positive] ∅ = Some (a, g) /\
    set_iter s = Some l /\ StronglySorted Pos.lt l /\ forall k, k ∈ l <-> k ∈ g) /\
  run_ops set_op [SetInsert 1%positive; SetInsert 65%positive] (set_with_capacity 0) = None.
Proof.
  split.
  - apply (arena_set_refines 0 [SetInsert 64%positive; SetInsert 1%positive; SetContains 64%positive]).
    repeat first [apply Forall_nil_2|apply Forall_cons_2; [by vm_compute|]].
  - apply (arena_set_refines 0 [SetInsert 1%positive; SetInsert 65%positive]).
    repeat first [apply Forall_nil_2|apply Forall_cons_2; [by vm_compute|]].
Defined.
