(* ===== verification/Ir.v ===== *)
(** * The intermediate representation and its builder
    ([jit-compiler-core/src/ir/mod.rs])

    Types, values, statements, terminators and blocks of the IR, the builder's
    state, and the operations every emitter is made of: creating and
    terminating blocks, typing and appending a statement, splitting a block for
    a halt check.  An emitter is a computation on the builder; every panic is
    [None].  Debug-only assertions repeat what the callers establish. *)

From S2P Require Import Prelude Convert HaltReason MemTypes Fault Arena.
Local Open Scope Z_scope.
Local Open Scope emu_scope.

(** ** Integers and types *)

Inductive IntWidth := W8 | W16 | W32 | W64.

#[export] Instance IntWidth_eq_dec : EqDecision IntWidth.
Proof. solve_decision. Defined.

(** The discriminant, in bytes. *)
Definition bytes (w : IntWidth) : Z := match w with W8 => 1 | W16 => 2 | W32 => 4 | W64 => 8 end.
Definition bits (w : IntWidth) : Z := bytes w * 8.
Definition from_bits (bits : Z) : option IntWidth :=
  if bits =? 8 then Some W8 else if bits =? 16 then Some W16
  else if bits =? 32 then Some W32 else if bits =? 64 then Some W64 else None.

(** The bits are a [u64]. *)
Record IConst := mkIConst { iwidth : IntWidth; ibits : Z }.

Module Const.
Definition zero (width : IntWidth) : IConst := mkIConst width 0.
Definition one (width : IntWidth) : IConst := mkIConst width 1.
Definition min_negative (width : IntWidth) : IConst := mkIConst width (wrap 64 (Z.shiftl 1 (bits width - 1))).
(** [1.unbounded_shl(width).wrapping_sub(1)]. *)
Definition negative_one (width : IntWidth) : IConst :=
  mkIConst width (wrapping_sub 64 (if bits width <? 64 then wrap 64 (Z.shiftl 1 (bits width)) else 0) 1).
(** The constructors from the unsigned types zero-extend; those from the signed
    types reinterpret the bits first. *)
Definition unsigned (width : IntWidth) (value : Z) : IConst := mkIConst width value.
Definition signed (width : IntWidth) (value : Z) : IConst := mkIConst width (wrap (bits width) value).
End Const.

Inductive AliasRegion :=
  | RExecState | RExecContext | RTlb | RHaltReason | RReadOnly | RScratchSpace
  | RVirtualMemory | RPageFlags.

#[export] Instance AliasRegion_eq_dec : EqDecision AliasRegion.
Proof. solve_decision. Defined.

Inductive TypeFull := TInt (width : IntWidth) | TBool | THostPtr (region : AliasRegion).

#[export] Instance TypeFull_eq_dec : EqDecision TypeFull.
Proof. solve_decision. Defined.

Definition assert_int (ty : TypeFull) : option IntWidth :=
  match ty with TInt width => Some width | _ => None end.

(** [Type], and the types a host load can produce. *)
Inductive IrType := IrInt (width : IntWidth) | IrBool.
Definition TypeFull_of (ty : IrType) : TypeFull :=
  match ty with IrInt width => TInt width | IrBool => TBool end.

Inductive LoadType := LInt (width : IntWidth) | LHostPtr (region : AliasRegion).
Definition load_type_full (ty : LoadType) : TypeFull :=
  match ty with LInt width => TInt width | LHostPtr region => THostPtr region end.

(** ** Handles *)

Abbreviation SSAValue := RawHandle.
Abbreviation StackSlot := RawHandle.
Abbreviation CallbackSignature := RawHandle.
Abbreviation Stmt := RawHandle.
Abbreviation Block := RawHandle.

Definition ARG_EXEC_STATE : SSAValue := 1%positive.
Definition ARG_EXEC_CONTEXT : SSAValue := 2%positive.
Definition ARG_TLB_PTR : SSAValue := 3%positive.
Definition ARG_IO_MMU_IDENT : SSAValue := 4%positive.
Definition ARG_HALT_REASON_PTR : SSAValue := 5%positive.
Definition ARG_IO_MMU : SSAValue := 6%positive.

Definition ENTRYPOINT : Block := 1%positive.

Inductive Arg := AIoMMU | ATlb | AExecContext | AExecState | AIoMMUIdentifier | AHaltReasonPtr.

(** In ABI order. *)
Definition args : list Arg := [AIoMMU; ATlb; AExecContext; AExecState; AIoMMUIdentifier; AHaltReasonPtr].

Definition arg_ty (a : Arg) : TypeFull :=
  THostPtr match a with
    | AExecState => RExecState | AExecContext => RExecContext | ATlb => RTlb
    | AIoMMUIdentifier => RReadOnly | AHaltReasonPtr => RHaltReason | AIoMMU => RReadOnly
    end.

Definition as_ssa_value (a : Arg) : SSAValue :=
  match a with
  | AIoMMU => ARG_IO_MMU | ATlb => ARG_TLB_PTR | AExecContext => ARG_EXEC_CONTEXT
  | AExecState => ARG_EXEC_STATE | AIoMMUIdentifier => ARG_IO_MMU_IDENT
  | AHaltReasonPtr => ARG_HALT_REASON_PTR
  end.

Definition from_ssa_value (v : SSAValue) : option Arg :=
  if decide (v = ARG_EXEC_STATE) then Some AExecState
  else if decide (v = ARG_EXEC_CONTEXT) then Some AExecContext
  else if decide (v = ARG_TLB_PTR) then Some ATlb
  else if decide (v = ARG_IO_MMU_IDENT) then Some AIoMMUIdentifier
  else if decide (v = ARG_HALT_REASON_PTR) then Some AHaltReasonPtr
  else if decide (v = ARG_IO_MMU) then Some AIoMMU
  else None.

(** The arena of values starts with the arguments' types. *)
Definition initial_ssa_values : Arena TypeFull :=
  arg_ty <$> [AExecState; AExecContext; ATlb; AIoMMUIdentifier; AHaltReasonPtr; AIoMMU].

Record StackSlotData := mkStackSlot { slot_size : Z; slot_align : Z }.

(** ** Operations *)

Inductive ArithBinOp := ArAdd | ArSub | ArMul | UncheckedUDiv | UncheckedSDiv.
Inductive OverflowingBinOp := OvAdd | OvSub.
Inductive BitwiseOp := BwAnd | BwOr | BwXor.
Inductive ShiftOp := SignExtendShr | ZeroExtendShr | Shl.
Inductive IntCmp :=
  | Equal | NotEqual
  | SignedLessThan | SignedLessThanOrEqual | SignedGreaterThan | SignedGreaterThanOrEqual
  | UnsignedLessThan | UnsignedLessThanOrEqual | UnsignedGreaterThan | UnsignedGreaterThanOrEqual.

#[export] Instance ArithBinOp_eq_dec : EqDecision ArithBinOp.
Proof. solve_decision. Defined.
#[export] Instance OverflowingBinOp_eq_dec : EqDecision OverflowingBinOp.
Proof. solve_decision. Defined.
#[export] Instance BitwiseOp_eq_dec : EqDecision BitwiseOp.
Proof. solve_decision. Defined.
#[export] Instance ShiftOp_eq_dec : EqDecision ShiftOp.
Proof. solve_decision. Defined.
#[export] Instance IntCmp_eq_dec : EqDecision IntCmp.
Proof. solve_decision. Defined.

(** The functions of [ffi_support] a statement can call. *)
Inductive HostCallback :=
  | CbLoad (width : IntWidth) | CbStore (width : IntWidth)
  | CbLdrex (width : IntWidth) | CbStrex (width : IntWidth) | CbClrex.

Record CallbackSignatureData := mkSignature { sig_args : list TypeFull; sig_ret : option TypeFull }.

Definition make_store_signature (ty : TypeFull) : CallbackSignatureData :=
  mkSignature [THostPtr RReadOnly; THostPtr RTlb; THostPtr RExecContext; TInt W64; ty] (Some (TInt W8)).

Module Signature.
Definition LOAD : CallbackSignature := 1%positive.
Definition STORE_I8 : CallbackSignature := 2%positive.
Definition STORE_I16 : CallbackSignature := 3%positive.
Definition STORE_I32 : CallbackSignature := 4%positive.
Definition STORE_I64 : CallbackSignature := 5%positive.
Definition CLREX : CallbackSignature := 6%positive.
End Signature.

Definition initial_signatures : Arena CallbackSignatureData :=
  [mkSignature [THostPtr RReadOnly; THostPtr RTlb; THostPtr RExecContext; TInt W64; THostPtr RScratchSpace]
     (Some (TInt W8));
   make_store_signature (TInt W8); make_store_signature (TInt W16);
   make_store_signature (TInt W32); make_store_signature (TInt W64);
   mkSignature [THostPtr RExecContext] None].

Definition load_callback (width : IntWidth) (exclusive : bool) : HostCallback * CallbackSignature :=
  (if exclusive then CbLdrex width else CbLoad width, Signature.LOAD).

Definition store_callback (width : IntWidth) (exclusive : bool) : HostCallback * CallbackSignature :=
  (if exclusive then CbStrex width else CbStore width,
   match width with
   | W8 => Signature.STORE_I8 | W16 => Signature.STORE_I16
   | W32 => Signature.STORE_I32 | W64 => Signature.STORE_I64
   end).

Inductive StmtKind :=
  | KIConst (c : IConst)
  | KArithBinOp (op : ArithBinOp) (lhs rhs : SSAValue)
  | KIntNeg (v : SSAValue)
  | KOverflowingBinOp (op : OverflowingBinOp) (lhs rhs : SSAValue)
  | KIntCmp (cmp : IntCmp) (lhs rhs : SSAValue)
  | KIntCmpImm (cmp : IntCmp) (lhs : SSAValue) (rhs : Z)
  | KSelect (cond if_true if_false : SSAValue)
  | KBitwise (op : BitwiseOp) (lhs rhs : SSAValue)
  | KBitwiseImm (op : BitwiseOp) (lhs : SSAValue) (rhs : Z)
  | KBitNot (v : SSAValue)
  | KShift (op : ShiftOp) (value shift : SSAValue)
  | KShiftUnbounded (op : ShiftOp) (value shift : SSAValue)
  | KShiftImm (op : ShiftOp) (value : SSAValue) (shift : Z)
  | KLoadHost (ty : LoadType) (base_ptr : SSAValue) (offset : Z) (can_move : bool)
  | KStoreHost (base_ptr : SSAValue) (offset : Z) (value : SSAValue) (can_move : bool)
  | KLoadStackPtr (slot : StackSlot)
  | KPtrAdd (base_ptr offset : SSAValue) (elem_size : Z)
  | KPtrEq (p q : SSAValue)
  | KHasTag (ptr : SSAValue) (tag_bits : Z)
  | KUntag (ptr : SSAValue) (tag_bits : Z)
  | KHostCallback (func : HostCallback) (signature : CallbackSignature) (args : list SSAValue)
  | KVMLoadRaw (aligned_page_ptr page_offset : SSAValue) (width : IntWidth) (seq_cst : bool)
  | KVMStoreRaw (aligned_page_ptr page_offset value : SSAValue) (seq_cst : bool)
  | KLoadHaltReason
  | KTakeHaltReason
  | KSetPageDirtyFlag (v : SSAValue)
  | KSafepoint.

Definition MAX_STMT_OUTPUTS : nat := 2.

Record StmtData := mkStmt { outputs : list SSAValue; rvalue : StmtKind }.

Definition is_safepoint (rv : StmtKind) : bool := match rv with KSafepoint => true | _ => false end.

(** ** Terminators and blocks *)

Record Jump := mkJump { jump_parameters : list SSAValue; jump_target : Block }.

#[export] Instance Jump_eq_dec : EqDecision Jump.
Proof. solve_decision. Defined.

Definition jump_to (b : Block) : Jump := mkJump [] b.

Inductive TerminatorKind := TkReturn | TkReturnCode (halt_reason : SSAValue) | TkBrZ (cond : SSAValue) | TkBr.

(** At most two targets. *)
Record Terminator := mkTerminator { targets : list Jump; kind : TerminatorKind }.

Module Term.
(** [block_targets]: each target once. *)
Definition block_targets (t : Terminator) : list Block :=
  match targets t with
  | [] => []
  | [one] => [jump_target one]
  | one :: two :: _ =>
      if decide (jump_target one = jump_target two) then [jump_target one]
      else [jump_target one; jump_target two]
  end.

Definition Return : Terminator := mkTerminator [] TkReturn.
Definition ReturnCode (halt_reason : SSAValue) : Terminator := mkTerminator [] (TkReturnCode halt_reason).
Definition Br (jump : Jump) : Terminator := mkTerminator [jump] TkBr.
Definition BrZ (cond : SSAValue) (zero non_zero : Jump) : Terminator :=
  mkTerminator [zero; non_zero] (TkBrZ cond).
Definition BrNZ (cond : SSAValue) (non_zero zero : Jump) : Terminator := BrZ cond zero non_zero.
End Term.

Record BlockData := mkBlock {
  parameters : list SSAValue;
  stmts : list Stmt;
  terminated : bool;
  terminator : Terminator;
  is_cold : bool;
}.

Definition empty_block : BlockData := mkBlock [] [] false Term.Return false.
Definition initial_blocks : Arena BlockData :=
  [mkBlock (as_ssa_value <$> args) [] false Term.Return false].

Module Blk.
Definition set_stmts (l : list Stmt) (b : BlockData) : BlockData :=
  mkBlock (parameters b) l (terminated b) (terminator b) (is_cold b).
Definition push_stmt (s : Stmt) (b : BlockData) : BlockData := set_stmts (stmts b ++ [s]) b.
Definition push_parameter (v : SSAValue) (b : BlockData) : BlockData :=
  mkBlock (parameters b ++ [v]) (stmts b) (terminated b) (terminator b) (is_cold b).
Definition set_terminator (done : bool) (t : Terminator) (b : BlockData) : BlockData :=
  mkBlock (parameters b) (stmts b) done t (is_cold b).
Definition set_cold (b : BlockData) : BlockData :=
  mkBlock (parameters b) (stmts b) (terminated b) (terminator b) true.
End Blk.

(** ** The builder *)

Record ExecIrBuilder := mkBuilder {
  ssa_values : Arena TypeFull;
  blocks : Arena BlockData;
  all_stmts : Arena StmtData;
  stack_slots : Arena StackSlotData;
  signatures : Arena CallbackSignatureData;
  scratch_space : option StackSlot;
  leave_and_take_halt : option Block;
  current_block : Block;
  halt_check_every : Z;  (* NonZero<u32> *)
}.

Definition with_config (halt_check_every : Z) : ExecIrBuilder :=
  mkBuilder initial_ssa_values initial_blocks [] [] initial_signatures None None ENTRYPOINT
    halt_check_every.

Abbreviation Build := (SM ExecIrBuilder).

(** Running an operation on one of the builder's fields. *)
Definition on_ssa_values {A} (op : SM (Arena TypeFull) A) : Build A := fun b =>
  match op (ssa_values b) with
  | Some (a, x) => Some (a, mkBuilder x (blocks b) (all_stmts b) (stack_slots b) (signatures b)
      (scratch_space b) (leave_and_take_halt b) (current_block b) (halt_check_every b))
  | None => None
  end.
Definition on_blocks {A} (op : SM (Arena BlockData) A) : Build A := fun b =>
  match op (blocks b) with
  | Some (a, x) => Some (a, mkBuilder (ssa_values b) x (all_stmts b) (stack_slots b) (signatures b)
      (scratch_space b) (leave_and_take_halt b) (current_block b) (halt_check_every b))
  | None => None
  end.
Definition on_stmts {A} (op : SM (Arena StmtData) A) : Build A := fun b =>
  match op (all_stmts b) with
  | Some (a, x) => Some (a, mkBuilder (ssa_values b) (blocks b) x (stack_slots b) (signatures b)
      (scratch_space b) (leave_and_take_halt b) (current_block b) (halt_check_every b))
  | None => None
  end.
Definition on_stack_slots {A} (op : SM (Arena StackSlotData) A) : Build A := fun b =>
  match op (stack_slots b) with
  | Some (a, x) => Some (a, mkBuilder (ssa_values b) (blocks b) (all_stmts b) x (signatures b)
      (scratch_space b) (leave_and_take_halt b) (current_block b) (halt_check_every b))
  | None => None
  end.
Definition set_scratch_space (s : option StackSlot) : Build unit := sm_modify (fun b =>
  mkBuilder (ssa_values b) (blocks b) (all_stmts b) (stack_slots b) (signatures b) s
    (leave_and_take_halt b) (current_block b) (halt_check_every b)).
Definition set_leave_and_take_halt (l : option Block) : Build unit := sm_modify (fun b =>
  mkBuilder (ssa_values b) (blocks b) (all_stmts b) (stack_slots b) (signatures b)
    (scratch_space b) l (current_block b) (halt_check_every b)).

(** [self.ssa_values[v].ty], [self.signatures[s]], [self.blocks[b]]. *)
Definition ty_of (v : SSAValue) : Build TypeFull := fun b => sm_of_option (arena_get (ssa_values b) v) b.
Definition signature_of (s : CallbackSignature) : Build CallbackSignatureData := fun b =>
  sm_of_option (arena_get (signatures b) s) b.
Definition block_of (block : Block) : Build BlockData := fun b =>
  sm_of_option (arena_get (blocks b) block) b.

Definition get_current_block : Build Block := fun b => Some (current_block b, b).
Definition create_block : Build Block := on_blocks (arena_store empty_block).
Definition switch_to (block : Block) : Build unit := sm_modify (fun b =>
  mkBuilder (ssa_values b) (blocks b) (all_stmts b) (stack_slots b) (signatures b)
    (scratch_space b) (leave_and_take_halt b) block (halt_check_every b)).

Definition successors (b : ExecIrBuilder) (block : Block) : option (list Block) :=
  (fun d => Term.block_targets (terminator d)) <$> arena_get (blocks b) block.

Definition mark_block_bold (block : Block) : Build unit :=
  if decide (block = ENTRYPOINT) then sm_ret tt else on_blocks (arena_modify block Blk.set_cold).
Definition mark_current_block_cold : Build unit :=
  let! block := get_current_block in mark_block_bold block.

Definition is_int (ty : TypeFull) : bool := match ty with TInt _ => true | _ => false end.
Definition is_bool_or_int (ty : TypeFull) : bool := match ty with THostPtr _ => false | _ => true end.
Definition is_host_ptr (ty : TypeFull) : bool := match ty with THostPtr _ => true | _ => false end.

(** The operand checks of [terminate_block], and the terminator it becomes: a
    conditional branch to one place becomes unconditional. *)
Definition check_terminator (t : Terminator) : Build Terminator :=
  match kind t with
  | TkReturn | TkBr => sm_ret t
  | TkReturnCode int =>
      let! ty := ty_of int in
      sm_assert (is_int ty) ;;! sm_ret t
  | TkBrZ int =>
      let! ty := ty_of int in
      sm_assert (is_bool_or_int ty) ;;!
      match targets t with
      | [zero; non_zero] => sm_ret (if decide (zero = non_zero) then mkTerminator [zero] TkBr else t)
      | _ => sm_panic
      end
  end.

Definition terminate_block (block : Block) (t : Terminator) : Build unit :=
  let! t := check_terminator t in
  sm_assert (forallb (fun target => negb (bool_decide (target = ENTRYPOINT))) (Term.block_targets t)) ;;!
  let! data := block_of block in
  sm_assert (negb (terminated data)) ;;!
  on_blocks (arena_modify block (Blk.set_terminator true t)).

Definition terminate (t : Terminator) : Build unit :=
  let! block := get_current_block in terminate_block block t.

Definition add_block_parameter_at (block : Block) (ty : IrType) : Build SSAValue :=
  let! v := on_ssa_values (arena_store (TypeFull_of ty)) in
  on_blocks (arena_modify block (Blk.push_parameter v)) ;;!
  sm_ret v.
Definition add_block_parameter (ty : IrType) : Build SSAValue :=
  let! block := get_current_block in add_block_parameter_at block ty.

(** The types of a statement's outputs. *)
Definition type_of (rv : StmtKind) : Build (list TypeFull) :=
  match rv with
  | KIConst c => sm_ret [TInt (iwidth c)]
  | KArithBinOp _ lhs _ | KBitwise _ lhs _ | KBitwiseImm _ lhs _ | KBitNot lhs | KIntNeg lhs
  | KShift _ lhs _ | KShiftUnbounded _ lhs _ | KShiftImm _ lhs _ | KSelect _ lhs _ =>
      let! ty := ty_of lhs in sm_ret [ty]
  | KOverflowingBinOp _ lhs _ => let! ty := ty_of lhs in sm_ret [ty; TBool]
  | KIntCmp _ _ _ | KIntCmpImm _ _ _ => sm_ret [TBool]
  | KLoadHost ty _ _ _ => sm_ret [load_type_full ty]
  | KStoreHost _ _ _ _ => sm_ret []
  | KLoadStackPtr _ => sm_ret [THostPtr RScratchSpace]
  | KPtrAdd base_ptr _ _ => let! ty := ty_of base_ptr in sm_ret [ty]
  | KPtrEq _ _ | KHasTag _ _ => sm_ret [TBool]
  | KUntag ptr _ => let! ty := ty_of ptr in sm_ret [ty]
  | KHostCallback _ signature _ =>
      let! s := signature_of signature in
      sm_ret (match sig_ret s with Some ret => [ret] | None => [] end)
  | KVMLoadRaw _ _ width _ => sm_ret [TInt width]
  | KVMStoreRaw _ _ _ _ => sm_ret []
  | KLoadHaltReason | KTakeHaltReason => sm_ret [TInt W32]
  | KSetPageDirtyFlag _ | KSafepoint => sm_ret []
  end.

(** [block_scope]; an unwinding panic has no state afterwards here. *)
Definition block_scope {T} (block : Block) (emitter : Build T) : Build T :=
  let! original_block := get_current_block in
  switch_to block ;;!
  let! x := emitter in
  switch_to original_block ;;!
  sm_ret x.

Fixpoint store_outputs (tys : list TypeFull) : Build (list SSAValue) :=
  match tys with
  | [] => sm_ret []
  | ty :: tys =>
      let! v := on_ssa_values (arena_store ty) in
      let! vs := store_outputs tys in
      sm_ret (v :: vs)
  end.

Definition emit_stmt_full (n : nat) (rv : StmtKind) : Build (list SSAValue) :=
  let! tys := type_of rv in
  let! outputs := store_outputs tys in
  sm_assert (length outputs =? n)%nat ;;!
  let! stmt := on_stmts (arena_store (mkStmt outputs rv)) in
  let! block := get_current_block in
  on_blocks (arena_modify block (Blk.push_stmt stmt)) ;;!
  sm_ret outputs.

Definition emit_void_stmt (rv : StmtKind) : Build unit :=
  let! _ := emit_stmt_full 0 rv in sm_ret tt.
Definition emit_1ret_stmt (rv : StmtKind) : Build SSAValue :=
  let! vs := emit_stmt_full 1 rv in sm_of_option (vs !! 0%nat).
Definition emit_2ret_stmt (rv : StmtKind) : Build (SSAValue * SSAValue) :=
  let! vs := emit_stmt_full 2 rv in
  match vs with [v1; v2] => sm_ret (v1, v2) | _ => sm_panic end.

(** [align] is a power of two below 256. *)
Definition create_stack_slot (size align : Z) : Build StackSlot :=
  sm_assert (existsb (fun i => align =? 2 ^ i) (seqZ 0 8)) ;;!
  on_stack_slots (arena_store (mkStackSlot size align)).
Definition use_stack_slot (slot : StackSlot) : Build SSAValue := emit_1ret_stmt (KLoadStackPtr slot).
Definition iconst (c : IConst) : Build SSAValue := emit_1ret_stmt (KIConst c).

(** ** Halt checks *)

Definition get_leave_and_take_halt : Build Block := fun b =>
  match leave_and_take_halt b with
  | Some block => Some (block, b)
  | None =>
      (let! fail := create_block in
       block_scope fail (
         mark_current_block_cold ;;!
         let! final_halt_reason := emit_1ret_stmt KTakeHaltReason in
         terminate (Term.ReturnCode final_halt_reason)) ;;!
       set_leave_and_take_halt (Some fail) ;;!
       sm_ret fail) b
  end.

Definition make_halt_block (e : Endian) (reason : HaltReason) : Build Block :=
  let! fail_block := create_block in
  block_scope fail_block (
    let! trap_value := iconst (Const.unsigned W32 (as_nz_u32 e reason)) in
    terminate (Term.ReturnCode trap_value) ;;!
    mark_current_block_cold) ;;!
  sm_ret fail_block.

(** Whether the statement at [insert_at - 1] of [data] is a safepoint; [None]
    when an index is out of range. *)
Definition is_after_safepoint (insert_at : nat) (data : BlockData) (b : ExecIrBuilder) : option bool :=
  match insert_at with
  | O => Some false
  | S instruction_end =>
      s ← stmts data !! instruction_end;
      d ← arena_get (all_stmts b) s;
      Some (is_safepoint (rvalue d))
  end.

Definition insert_halt_check_at (block : Block) (insert_at : nat) : Build Block :=
  let! data := block_of block in
  let! ok := fun b => sm_of_option (is_after_safepoint insert_at data b) b in
  sm_assert ok ;;!
  let tail_stmts := drop insert_at (stmts data) in
  on_blocks (arena_modify block (fun d =>
    Blk.set_terminator (terminated d) Term.Return (Blk.set_stmts (take insert_at (stmts d)) d))) ;;!
  let! continuation := on_blocks (arena_store
    (mkBlock [] tail_stmts (terminated data) (terminator data) (is_cold data))) in
  let! leave_and_take_halt := get_leave_and_take_halt in
  let! maybe_halt_reason := block_scope block (emit_1ret_stmt KLoadHaltReason) in
  on_blocks (arena_modify block (fun d => Blk.set_terminator false (terminator d) d)) ;;!
  terminate_block block
    (Term.BrZ maybe_halt_reason (jump_to continuation) (jump_to leave_and_take_halt)) ;;!
  sm_ret continuation.

Definition add_safepoint : Build unit := emit_void_stmt KSafepoint.
