(* ===== verification/IrSem.v ===== *)
(** * What the statements of the IR mean
    ([jit-compiler-core/src/ir/mod.rs], the documentation of [StmtKind] and
    [TerminatorKind])

    The back ends hand the IR to third-party code generators; this file gives
    the meaning the IR's own documentation promises, as an interpreter.  A value
    is an integer of a width, a boolean or a symbolic host pointer; what it can
    point at is the state a chunk runs on: the registers (bytes, at whatever
    offsets the compiler laid the structure out), the CPU's translation cache,
    context and memory, its scratch slots and halt word.  Undefined behaviour and
    ill-typed operations are [None]. *)

From S2P Require Import Prelude Convert HaltReason MemTypes Fault Memops ObjectQueue Fabric PageTable IoMMU.
From S2P Require Import ExclusiveMonitor LookupCache MemAccess FfiSupport Arena Ir.
Local Open Scope Z_scope.
Local Open Scope emu_scope.

(** ** Integers *)

(** The two's complement value of a [w]-bit pattern. *)
Definition sgn (w z : Z) : Z := if z <? 2 ^ (w - 1) then z else z - 2 ^ w.

Definition eval_arith (w : Z) (op : ArithBinOp) (a b : Z) : option Z :=
  match op with
  | ArAdd => Some (wrapping_add w a b)
  | ArSub => Some (wrapping_sub w a b)
  | ArMul => Some (wrapping_mul w a b)
  | UncheckedUDiv => if b =? 0 then None else Some (a / b)
  | UncheckedSDiv =>
      if (b =? 0) || ((sgn w a =? - 2 ^ (w - 1)) && (sgn w b =? -1)) then None
      else Some (wrap w (Z.quot (sgn w a) (sgn w b)))
  end.

Definition signed_in_range (w z : Z) : bool := (- 2 ^ (w - 1) <=? z) && (z <? 2 ^ (w - 1)).

(** The result and the signed-overflow flag. *)
Definition eval_overflowing (w : Z) (op : OverflowingBinOp) (a b : Z) : Z * bool :=
  match op with
  | OvAdd => (wrapping_add w a b, negb (signed_in_range w (sgn w a + sgn w b)))
  | OvSub => (wrapping_sub w a b, negb (signed_in_range w (sgn w a - sgn w b)))
  end.

Definition eval_cmp (w : Z) (cmp : IntCmp) (a b : Z) : bool :=
  match cmp with
  | Equal => a =? b
  | NotEqual => negb (a =? b)
  | SignedLessThan => sgn w a <? sgn w b
  | SignedLessThanOrEqual => sgn w a <=? sgn w b
  | SignedGreaterThan => sgn w b <? sgn w a
  | SignedGreaterThanOrEqual => sgn w b <=? sgn w a
  | UnsignedLessThan => a <? b
  | UnsignedLessThanOrEqual => a <=? b
  | UnsignedGreaterThan => b <? a
  | UnsignedGreaterThanOrEqual => b <=? a
  end.

Definition eval_bitwise (op : BitwiseOp) (a b : Z) : Z :=
  match op with BwAnd => Z.land a b | BwOr => Z.lor a b | BwXor => Z.lxor a b end.
Definition eval_bitwise_bool (op : BitwiseOp) (a b : bool) : bool :=
  match op with BwAnd => a && b | BwOr => a || b | BwXor => xorb a b end.

(** A shift by less than the width. *)
Definition eval_shift (w : Z) (op : ShiftOp) (a n : Z) : Z :=
  match op with
  | SignExtendShr => wrap w (Z.shiftr (sgn w a) n)
  | ZeroExtendShr => Z.shiftr a n
  | Shl => wrap w (Z.shiftl a n)
  end.

Definition eval_shift_unbounded (w : Z) (op : ShiftOp) (a n : Z) : Z :=
  if n <? w then eval_shift w op a (n mod w)
  else match op with SignExtendShr => eval_shift w op a (w - 1) | ZeroExtendShr | Shl => 0 end.

(** ** Layout *)

(** Where the compiler puts the fields compiled code touches: [offset_of!] and
    [size_of] of [ExecState], [ExecContext] and [TlbEntry]. *)
Record Layout := mkLayout {
  state_size : Z; off_pc : Z; off_sp : Z; off_pstate : Z; off_x_registers : Z;
  off_fault_vaddr : Z; off_fault_mem_op : Z; off_was_real_memory_trap : Z;
  tlb_entry_size : Z;
  off_io_mmu_ident : Z; off_virtual_page_number : Z; off_tagged_page_ptr : Z; off_mut_page_flags : Z;
}.

Definition X_REGISTER_COUNT : Z := 31.

(** The fields of the register file: offset and size. *)
Definition state_fields (ly : Layout) : list (Z * Z) :=
  [(off_pc ly, 8); (off_sp ly, 8); (off_pstate ly, 4); (off_x_registers ly, 8 * X_REGISTER_COUNT)].

Definition disjoint_fields (l : list (Z * Z)) : Prop :=
  forall i j a n b m, l !! i = Some (a, n) -> l !! j = Some (b, m) -> i <> j -> a + n <= b \/ b + m <= a.

Record layout_ok (ly : Layout) : Prop := {
  state_fields_in : Forall (fun '(a, n) => 0 <= a /\ a + n <= state_size ly) (state_fields ly);
  state_fields_apart : disjoint_fields (state_fields ly);
  context_offsets : NoDup [off_fault_vaddr ly; off_fault_mem_op ly; off_was_real_memory_trap ly];
  tlb_offsets : NoDup [off_io_mmu_ident ly; off_virtual_page_number ly; off_tagged_page_ptr ly; off_mut_page_flags ly];
  tlb_offsets_in : Forall (fun o => 0 <= o < tlb_entry_size ly)
    [off_io_mmu_ident ly; off_virtual_page_number ly; off_tagged_page_ptr ly; off_mut_page_flags ly];
}.

(** ** Values and state *)

Inductive HostPtr :=
  | PExecState | PExecContext | PIoMMU | PHaltReason
  | PTlb (offset : Z)
  | PIdent (ident : MaybeIdent.t)
  | PPage (tagged : Z)                 (* 0 is null *)
  | PFlags (page : option positive)
  | PStack (slot : StackSlot).

#[export] Instance HostPtr_eq_dec : EqDecision HostPtr.
Proof. solve_decision. Defined.

Inductive Value := VInt (width : IntWidth) (bits : Z) | VBool (b : bool) | VPtr (p : HostPtr).

Abbreviation Env := (gmap SSAValue Value).

(** The region a pointer points into. *)
Definition region_of (p : HostPtr) : AliasRegion :=
  match p with
  | PExecState => RExecState | PExecContext => RExecContext | PIoMMU => RReadOnly
  | PHaltReason => RHaltReason | PTlb _ => RTlb | PIdent _ => RReadOnly
  | PPage _ => RVirtualMemory | PFlags _ => RPageFlags | PStack _ => RScratchSpace
  end.

Definition has_type (v : Value) (ty : TypeFull) : Prop :=
  match v, ty with
  | VInt w z, TInt w' => w = w' /\ fits (bits w) z
  | VBool _, TBool => True
  | VPtr p, THostPtr r => region_of p = r
  | _, _ => False
  end.

Section Sem.
Context {Error : Type} (e : Endian) (ly : Layout) (io_mmu : IoMMU).

(** The state of a running chunk.  [registers] is the bytes of the [ExecState];
    a scratch slot that was never written is uninitialised. *)
Record World := mkWorld {
  registers : list Z;
  machine : Cpu Error Tlb;
  scratch : gmap StackSlot (list Z);
  halt_word : Z;
}.

Definition set_registers (l : list Z) (s : World) : World := mkWorld l (machine s) (scratch s) (halt_word s).
Definition set_machine (c : Cpu Error Tlb) (s : World) : World := mkWorld (registers s) c (scratch s) (halt_word s).
Definition set_scratch (x : gmap StackSlot (list Z)) (s : World) : World := mkWorld (registers s) (machine s) x (halt_word s).
Definition set_halt_word (h : Z) (s : World) : World := mkWorld (registers s) (machine s) (scratch s) h.

Definition on_machine {A} (op : SM (Cpu Error Tlb) A) : SM World A := fun s =>
  match op (machine s) with Some (a, c) => Some (a, set_machine c s) | None => None end.
Definition on_fabric {A} (op : SM Fabric A) : SM World A :=
  on_machine (fun c => match op (cpu_fabric c) with
    | Some (a, f) => Some (a, mkCpu f (exclusive_monitor c) (tlb c) (context c))
    | None => None
    end).

(** [n] bytes at an offset of the registers. *)
Definition read_registers (n : nat) (offset : Z) : SM World Z := fun s =>
  let l := take n (drop (Z.to_nat offset) (registers s)) in
  if (0 <=? offset) && (length l =? n)%nat then Some (from_ne_bytes e l, s) else None.
Definition write_registers (n : nat) (offset v : Z) : SM World unit := fun s =>
  let i := Z.to_nat offset in
  let l := registers s in
  if (0 <=? offset) && (i + n <=? length l)%nat
  then Some (tt, set_registers (take i l ++ to_ne_bytes e n v ++ drop (i + n) l) s) else None.

Definition width_bytes (w : IntWidth) : nat := Z.to_nat (bytes w).

Definition MemOp_repr (op : MemOp) : Z := match op with Load => 0 | Store => 1 | Rwm => 2 end.
Definition MemOp_of (z : Z) : option MemOp :=
  if z =? 0 then Some Load else if z =? 1 then Some Store else if z =? 2 then Some Rwm else None.

(** A store to a field of the pending fault. *)
Definition write_context (offset : Z) (v : Value) : SM World unit := on_machine (fun c =>
  let slot := current_mem_fault (context c) in
  let set s := Some (tt, mkCpu (cpu_fabric c) (exclusive_monitor c) (tlb c)
                          (mkContext (exclusive_monitor_reservation (context c)) s)) in
  if offset =? off_fault_vaddr ly then
    match v with
    | VInt W64 z => set (Ffi.mkSlot (Ffi.was_real_memory_trap slot) z (Ffi.mem_op slot)
                           (Ffi.has_bus_error slot) (Ffi.bus_error slot))
    | _ => None
    end
  else if offset =? off_fault_mem_op ly then
    match v with
    | VInt W8 z =>
        match MemOp_of z with
        | Some op => set (Ffi.mkSlot (Ffi.was_real_memory_trap slot) (Ffi.vaddr slot) op
                            (Ffi.has_bus_error slot) (Ffi.bus_error slot))
        | None => None
        end
    | _ => None
    end
  else if offset =? off_was_real_memory_trap ly then
    match v with
    | VInt W8 z =>
        if (z =? 0) || (z =? 1)
        then set (Ffi.mkSlot (z =? 1) (Ffi.vaddr slot) (Ffi.mem_op slot)
                    (Ffi.has_bus_error slot) (Ffi.bus_error slot))
        else None
    | _ => None
    end
  else None).

(** A load from a field of a TLB entry. *)
Definition read_tlb (ty : LoadType) (offset : Z) : SM World Value := fun s =>
  if (offset <? 0) || (tlb_entry_size ly <=? 0) then None
  else
    match tlb (machine s) !! Z.to_nat (offset / tlb_entry_size ly) with
    | None => None
    | Some entry =>
        let o := offset mod tlb_entry_size ly in
        if o =? off_io_mmu_ident ly then
          match ty with LHostPtr RReadOnly => Some (VPtr (PIdent (io_mmu_ident entry)), s) | _ => None end
        else if o =? off_virtual_page_number ly then
          match ty with LInt W64 => Some (VInt W64 (virtual_page_number entry), s) | _ => None end
        else if o =? off_tagged_page_ptr ly then
          match ty with
          | LHostPtr RVirtualMemory => Some (VPtr (PPage (default 0 (tagged_page_ptr entry))), s)
          | _ => None
          end
        else if o =? off_mut_page_flags ly then
          match ty with
          | LHostPtr RPageFlags => Some (VPtr (PFlags (mut_page_flags entry)), s)
          | _ => None
          end
        else None
    end.

Definition load_host (ty : LoadType) (base : HostPtr) (offset : Z) : SM World Value :=
  match base, ty with
  | PExecState, LInt w => let! z := read_registers (width_bytes w) offset in sm_ret (VInt w z)
  | PTlb base, _ => read_tlb ty (wrap USIZE_BITS (base + offset))
  | PStack slot, LInt w => fun s =>
      match scratch s !! slot with
      | Some l =>
          if (offset =? 0) && (width_bytes w <=? length l)%nat
          then Some (VInt w (from_ne_bytes e (take (width_bytes w) l)), s) else None
      | None => None
      end
  | _, _ => sm_panic
  end.

Definition store_host (base : HostPtr) (offset : Z) (v : Value) : SM World unit :=
  match base, v with
  | PExecState, VInt w z => write_registers (width_bytes w) offset z
  | PExecContext, _ => write_context offset v
  | _, _ => sm_panic
  end.

(** What a helper writes through its [out] parameter. *)
Definition write_out (slot : StackSlot) (w : IntWidth) (z : Z) : SM World unit := fun s =>
  let old := default [] (scratch s !! slot) in
  Some (tt, set_scratch (<[slot := to_ne_bytes e (width_bytes w) z ++ drop (width_bytes w) old]> (scratch s)) s).

(** The helper behind a callback, applied to its arguments. *)
Definition call_helper (func : HostCallback) (args : list Value) : SM World (list Value) :=
  match func, args with
  | CbLoad w, [VPtr PIoMMU; VPtr (PTlb 0); VPtr PExecContext; VInt W64 addr; VPtr (PStack slot)] =>
      let! (status, out) := on_machine (ffi_load e (width_bytes w) io_mmu addr) in
      (match out with Some z => write_out slot w z | None => sm_ret tt end) ;;!
      sm_ret [VInt W8 (IoMmuStatus_repr status)]
  | CbLdrex w, [VPtr PIoMMU; VPtr (PTlb 0); VPtr PExecContext; VInt W64 addr; VPtr (PStack slot)] =>
      let! (status, out) := on_machine (ffi_ldrex e (width_bytes w) io_mmu addr) in
      (match out with Some z => write_out slot w z | None => sm_ret tt end) ;;!
      sm_ret [VInt W8 (IoMmuStatus_repr status)]
  | CbStore w, [VPtr PIoMMU; VPtr (PTlb 0); VPtr PExecContext; VInt W64 addr; VInt w' z] =>
      sm_assert (bool_decide (w = w')) ;;!
      let! status := on_machine (ffi_store e (width_bytes w) io_mmu addr z) in
      sm_ret [VInt W8 (IoMmuStatus_repr status)]
  | CbStrex w, [VPtr PIoMMU; VPtr (PTlb 0); VPtr PExecContext; VInt W64 addr; VInt w' z] =>
      sm_assert (bool_decide (w = w')) ;;!
      let! status := on_machine (ffi_strex e (width_bytes w) io_mmu addr z) in
      sm_ret [VInt W8 (StrexStatus_repr status)]
  | CbClrex, [VPtr PExecContext] => on_machine clrex ;;! sm_ret []
  | _, _ => sm_panic
  end.

(** An atomic [fetch_or] of the dirty bit. *)
Definition set_page_dirty_flag (id : positive) : SM Fabric unit :=
  let! b := get_backed id in
  Entry.set_mut_flags id (Z.lor (mut_flags b) PageDirty.IS_DIRTY_FLAG).

(** ** Statements *)

Definition lookup_value (ρ : Env) (v : SSAValue) : SM World Value := sm_of_option (ρ !! v).

Definition eval_stmt (ρ : Env) (rv : StmtKind) : SM World (list Value) :=
  match rv with
  | KIConst c => sm_ret [VInt (iwidth c) (ibits c)]
  | KArithBinOp op lhs rhs =>
      let! a := lookup_value ρ lhs in let! b := lookup_value ρ rhs in
      match a, b with
      | VInt w a, VInt w' b =>
          sm_assert (bool_decide (w = w')) ;;!
          let! r := sm_of_option (eval_arith (bits w) op a b) in sm_ret [VInt w r]
      | _, _ => sm_panic
      end
  | KIntNeg v =>
      let! a := lookup_value ρ v in
      match a with VInt w a => sm_ret [VInt w (wrap (bits w) (- a))] | _ => sm_panic end
  | KOverflowingBinOp op lhs rhs =>
      let! a := lookup_value ρ lhs in let! b := lookup_value ρ rhs in
      match a, b with
      | VInt w a, VInt w' b =>
          sm_assert (bool_decide (w = w')) ;;!
          let (r, overflow) := eval_overflowing (bits w) op a b in
          sm_ret [VInt w r; VBool overflow]
      | _, _ => sm_panic
      end
  | KIntCmp cmp lhs rhs =>
      let! a := lookup_value ρ lhs in let! b := lookup_value ρ rhs in
      match a, b with
      | VInt w a, VInt w' b =>
          sm_assert (bool_decide (w = w')) ;;! sm_ret [VBool (eval_cmp (bits w) cmp a b)]
      | _, _ => sm_panic
      end
  | KIntCmpImm cmp lhs b =>
      let! a := lookup_value ρ lhs in
      match a with VInt w a => sm_ret [VBool (eval_cmp (bits w) cmp a b)] | _ => sm_panic end
  | KSelect cond if_true if_false =>
      let! c := lookup_value ρ cond in
      let! a := lookup_value ρ if_true in let! b := lookup_value ρ if_false in
      match c with VBool c => sm_ret [if c then a else b] | _ => sm_panic end
  | KBitwise op lhs rhs =>
      let! a := lookup_value ρ lhs in let! b := lookup_value ρ rhs in
      match a, b with
      | VInt w a, VInt w' b =>
          sm_assert (bool_decide (w = w')) ;;! sm_ret [VInt w (eval_bitwise op a b)]
      | VBool a, VBool b => sm_ret [VBool (eval_bitwise_bool op a b)]
      | _, _ => sm_panic
      end
  | KBitwiseImm op lhs b =>
      let! a := lookup_value ρ lhs in
      match a with VInt w a => sm_ret [VInt w (eval_bitwise op a b)] | _ => sm_panic end
  | KBitNot v =>
      let! a := lookup_value ρ v in
      match a with
      | VInt w a => sm_ret [VInt w (bitnot (bits w) a)]
      | VBool b => sm_ret [VBool (negb b)]
      | _ => sm_panic
      end
  | KShift op value shift =>
      let! a := lookup_value ρ value in let! n := lookup_value ρ shift in
      match a, n with
      | VInt w a, VInt _ n => sm_ret [VInt w (eval_shift (bits w) op a (n mod bits w))]
      | _, _ => sm_panic
      end
  | KShiftUnbounded op value shift =>
      let! a := lookup_value ρ value in let! n := lookup_value ρ shift in
      match a, n with
      | VInt w a, VInt _ n => sm_ret [VInt w (eval_shift_unbounded (bits w) op a n)]
      | _, _ => sm_panic
      end
  | KShiftImm op value n =>
      let! a := lookup_value ρ value in
      match a with
      | VInt w a => sm_assert (n <? bits w) ;;! sm_ret [VInt w (eval_shift (bits w) op a n)]
      | _ => sm_panic
      end
  | KLoadHost ty base_ptr offset _ =>
      let! p := lookup_value ρ base_ptr in
      match p with VPtr p => let! v := load_host ty p offset in sm_ret [v] | _ => sm_panic end
  | KStoreHost base_ptr offset value _ =>
      let! p := lookup_value ρ base_ptr in let! v := lookup_value ρ value in
      match p with VPtr p => store_host p offset v ;;! sm_ret [] | _ => sm_panic end
  | KLoadStackPtr slot => sm_ret [VPtr (PStack slot)]
  | KPtrAdd base_ptr offset elem_size =>
      let! p := lookup_value ρ base_ptr in let! o := lookup_value ρ offset in
      match p, o with
      | VPtr (PTlb base), VInt W64 o => sm_ret [VPtr (PTlb (wrap USIZE_BITS (base + o * elem_size)))]
      | _, _ => sm_panic
      end
  | KPtrEq p q =>
      let! p := lookup_value ρ p in let! q := lookup_value ρ q in
      match p, q with
      | VPtr (PIdent p), VPtr (PIdent q) =>
          sm_ret [VBool (MaybeIdent.as_ptr p =? MaybeIdent.as_ptr q)]
      | _, _ => sm_panic
      end
  | KHasTag ptr tag_bits =>
      let! p := lookup_value ρ ptr in
      match p with
      | VPtr (PPage t) => sm_ret [VBool (negb (Z.land t tag_bits =? 0))]
      | _ => sm_panic
      end
  | KUntag ptr tag_bits =>
      let! p := lookup_value ρ ptr in
      match p with
      | VPtr (PPage t) => sm_ret [VPtr (PPage (Z.land t (bitnot USIZE_BITS tag_bits)))]
      | _ => sm_panic
      end
  | KHostCallback func _ args =>
      let! vs := fun s => sm_of_option (mapM (fun v => ρ !! v) args) s in
      call_helper func vs
  | KVMLoadRaw aligned_page_ptr page_offset width _ =>
      let! p := lookup_value ρ aligned_page_ptr in let! o := lookup_value ρ page_offset in
      match p, o with
      | VPtr (PPage p), VInt W64 o =>
          let! z := on_fabric (on_mem (load_le_aligned e (width_bytes width) (wrap USIZE_BITS (p + o)))) in
          sm_ret [VInt width z]
      | _, _ => sm_panic
      end
  | KVMStoreRaw aligned_page_ptr page_offset value _ =>
      let! p := lookup_value ρ aligned_page_ptr in let! o := lookup_value ρ page_offset in
      let! v := lookup_value ρ value in
      match p, o, v with
      | VPtr (PPage p), VInt W64 o, VInt w z =>
          on_fabric (on_mem (store_le_aligned e (width_bytes w) (wrap USIZE_BITS (p + o)) z)) ;;! sm_ret []
      | _, _, _ => sm_panic
      end
  | KLoadHaltReason => fun s => Some ([VInt W32 (halt_word s)], s)
  | KTakeHaltReason => fun s => Some ([VInt W32 (halt_word s)], set_halt_word 0 s)
  | KSetPageDirtyFlag v =>
      let! p := lookup_value ρ v in
      match p with
      | VPtr (PFlags (Some id)) => on_fabric (set_page_dirty_flag id) ;;! sm_ret []
      | _ => sm_panic
      end
  | KSafepoint => sm_ret []
  end.

(** Binding a statement's outputs or a block's parameters. *)
Fixpoint bind_values (vs : list SSAValue) (xs : list Value) (ρ : Env) : option Env :=
  match vs, xs with
  | [], [] => Some ρ
  | v :: vs, x :: xs => bind_values vs xs (<[v := x]> ρ)
  | _, _ => None
  end.

Definition exec_stmt (d : StmtData) (ρ : Env) : SM World Env :=
  let! xs := eval_stmt ρ (rvalue d) in sm_of_option (bind_values (outputs d) xs ρ).

Fixpoint exec_data (l : list StmtData) (ρ : Env) : SM World Env :=
  match l with
  | [] => sm_ret ρ
  | d :: l => let! ρ := exec_stmt d ρ in exec_data l ρ
  end.

(** ** Control flow *)

(** A point of the execution: a block, a position in it, the values bound so
    far and the state. *)
Record Point := mkPoint { at_block : Block; at_index : nat; values : Env; world : World }.

(** Where a step leads: another point, or out of the chunk with a code. *)
Inductive Next := Continue (p : Point) | Exit (code : Z) (s : World).

Definition follow (b : ExecIrBuilder) (j : Jump) (ρ : Env) (s : World) : option Next :=
  target ← arena_get (blocks b) (jump_target j);
  xs ← mapM (fun v => ρ !! v) (jump_parameters j);
  ρ' ← bind_values (parameters target) xs ρ;
  Some (Continue (mkPoint (jump_target j) 0 ρ' s)).

(** Whether a branch condition is zero. *)
Definition is_zero (v : Value) : option bool :=
  match v with VInt _ z => Some (z =? 0) | VBool b => Some (negb b) | VPtr _ => None end.

Definition exec_terminator (b : ExecIrBuilder) (t : Terminator) (ρ : Env) (s : World) : option Next :=
  match kind t, targets t with
  | TkReturn, [] => Some (Exit 0 s)
  | TkReturnCode v, [] => match ρ !! v with Some (VInt W32 z) => Some (Exit z s) | _ => None end
  | TkBr, [j] => follow b j ρ s
  | TkBrZ v, [zero; non_zero] =>
      c ← ρ !! v;
      z ← is_zero c;
      follow b (if z : bool then zero else non_zero) ρ s
  | _, _ => None
  end.

(** One statement, or the terminator of a finished block; a block still under
    construction goes no further than its last statement. *)
Definition step (b : ExecIrBuilder) (p : Point) : option Next :=
  data ← arena_get (blocks b) (at_block p);
  match stmts data !! at_index p with
  | Some stmt =>
      d ← arena_get (all_stmts b) stmt;
      '(ρ, s) ← exec_stmt d (values p) (world p);
      Some (Continue (mkPoint (at_block p) (S (at_index p)) ρ s))
  | None =>
      if terminated data then exec_terminator b (terminator data) (values p) (world p) else None
  end.

(** The execution, for at most [fuel] steps. *)
Fixpoint run_ir (fuel : nat) (b : ExecIrBuilder) (p : Point) : option Next :=
  match fuel with
  | O => Some (Continue p)
  | S fuel =>
      match step b p with
      | Some (Continue p) => run_ir fuel b p
      | r => r
      end
  end.
End Sem.
