(* ===== verification/IrEmit.v ===== *)
(** * The instruction emitters ([jit-compiler-core/src/ir/mod.rs])

    The operations a translator calls on the builder: register accesses,
    comparisons, bitwise operations, shifts, arithmetic, the NZCV flags,
    division, conditional continuation, guest memory and exclusive accesses.
    Layout and byte order of the host are parameters. *)

From S2P Require Import Prelude Convert HaltReason MemTypes Fault Memops FfiSupport Arena Ir IrSem.
Local Open Scope Z_scope.
Local Open Scope emu_scope.

Section Emit.
Context (e : Endian) (ly : Layout).

(** ** Guest registers *)

Definition load_from_processor_state (offset : Z) (width : IntWidth) : Build SSAValue :=
  emit_1ret_stmt (KLoadHost (LInt width) ARG_EXEC_STATE offset true).

(** On a big-endian host the low bytes of a register come last. *)
Definition load_from_64_bit_processor_register (offset : Z) (width : IntWidth) : Build SSAValue :=
  let offset := offset + match e with Little => 0 | Big => 8 - bytes width end in
  load_from_processor_state offset width.

Definition x_reg_offset (x_reg : Z) : Z := off_x_registers ly + x_reg * 8.

(** [load_x_reg] is the same with the index checked at compile time. *)
Definition load_x_reg_dyn (x_reg : Z) (width : IntWidth) : Build SSAValue :=
  sm_assert (x_reg <? X_REGISTER_COUNT) ;;!
  load_from_64_bit_processor_register (x_reg_offset x_reg) width.

Definition load_sp : Build SSAValue := load_from_processor_state (off_sp ly) W64.
Definition load_pc : Build SSAValue := load_from_processor_state (off_pc ly) W64.
Definition load_pstate : Build SSAValue := load_from_processor_state (off_pstate ly) W32.

Definition store_to_processor_state (offset : Z) (value : SSAValue) : Build unit :=
  emit_void_stmt (KStoreHost ARG_EXEC_STATE offset value true).

Definition store_processor_register (offset : Z) (value : SSAValue) : Build unit :=
  let! ty := ty_of value in
  sm_assert (bool_decide (ty = TInt W64)) ;;!
  store_to_processor_state offset value.

Definition store_x_reg_dyn (x_reg : Z) (value : SSAValue) : Build unit :=
  sm_assert (x_reg <? X_REGISTER_COUNT) ;;!
  store_processor_register (x_reg_offset x_reg) value.

Definition store_sp (value : SSAValue) : Build unit := store_processor_register (off_sp ly) value.
Definition store_pc (value : SSAValue) : Build unit := store_processor_register (off_pc ly) value.
Definition store_pstate (value : SSAValue) : Build unit :=
  let! ty := ty_of value in
  sm_assert (bool_decide (ty = TInt W32)) ;;!
  store_to_processor_state (off_pstate ly) value.

(** ** Selection and callbacks *)

Definition select (cond if_true if_false : SSAValue) : Build SSAValue :=
  let! c := ty_of cond in
  sm_assert (bool_decide (c = TBool)) ;;!
  let! t := ty_of if_true in let! f := ty_of if_false in
  sm_assert (bool_decide (t = f)) ;;!
  emit_1ret_stmt (KSelect cond if_true if_false).

(** The argument types against the signature's. *)
Fixpoint check_args (tys : list TypeFull) (args : list SSAValue) : Build unit :=
  match tys, args with
  | ty :: tys, arg :: args =>
      let! t := ty_of arg in
      sm_assert (bool_decide (ty = t)) ;;! check_args tys args
  | _, _ => sm_ret tt
  end.

Definition call_host (host_cb : HostCallback) (signature : CallbackSignature) (args : list SSAValue) :
    Build (option SSAValue) :=
  let! sig := signature_of signature in
  sm_assert (length (sig_args sig) =? length args)%nat ;;!
  check_args (sig_args sig) args ;;!
  let stmt := KHostCallback host_cb signature args in
  match sig_ret sig with
  | Some _ => let! v := emit_1ret_stmt stmt in sm_ret (Some v)
  | None => emit_void_stmt stmt ;;! sm_ret None
  end.

(** ** Comparisons and bitwise operations *)

Definition emit_same_int_ty_imm {T} (lhs : SSAValue) (rhs : IntWidth) (func : Build T) : Build T :=
  let! lhs_ty := ty_of lhs in
  let! width := sm_of_option (assert_int lhs_ty) in
  sm_assert (bool_decide (width = rhs)) ;;!
  func.

Definition emit_same_int_ty_binop {T} (lhs rhs : SSAValue) (func : IntWidth -> Build T) : Build T :=
  let! rhs_ty := ty_of rhs in
  let! rhs := sm_of_option (assert_int rhs_ty) in
  emit_same_int_ty_imm lhs rhs (func rhs).

Definition icmp (cmp : IntCmp) (lhs rhs : SSAValue) : Build SSAValue :=
  emit_same_int_ty_binop lhs rhs (fun _ => emit_1ret_stmt (KIntCmp cmp lhs rhs)).
Definition icmp_imm (cmp : IntCmp) (lhs : SSAValue) (rhs : IConst) : Build SSAValue :=
  emit_same_int_ty_imm lhs (iwidth rhs) (emit_1ret_stmt (KIntCmpImm cmp lhs (ibits rhs))).

Definition bitwise_type_guard {T} (lhs rhs : TypeFull) (emit : Build T) : Build T :=
  match lhs, rhs with
  | TBool, TBool => emit
  | TInt width1, TInt width2 => if decide (width1 = width2) then emit else sm_panic
  | _, _ => sm_panic
  end.

Definition emit_bitwise (op : BitwiseOp) (lhs rhs : SSAValue) : Build SSAValue :=
  let! lhs_ty := ty_of lhs in let! rhs_ty := ty_of rhs in
  bitwise_type_guard lhs_ty rhs_ty (emit_1ret_stmt (KBitwise op lhs rhs)).
Definition emit_bitwise_imm (op : BitwiseOp) (lhs : SSAValue) (rhs : IConst) : Build SSAValue :=
  let! lhs_ty := ty_of lhs in
  bitwise_type_guard lhs_ty (TInt (iwidth rhs)) (emit_1ret_stmt (KBitwiseImm op lhs (ibits rhs))).

Definition bitor := emit_bitwise BwOr.
Definition bitand := emit_bitwise BwAnd.
Definition bitxor := emit_bitwise BwXor.
Definition bitor_imm := emit_bitwise_imm BwOr.
Definition bitand_imm := emit_bitwise_imm BwAnd.
Definition bitxor_imm := emit_bitwise_imm BwXor.
Definition bitnot_value (value : SSAValue) : Build SSAValue :=
  let! ty := ty_of value in
  bitwise_type_guard ty ty (emit_1ret_stmt (KBitNot value)).

(** ** Shifts *)

Definition emit_shift_op (op : ShiftOp) (value shift : SSAValue) (unbounded : bool) : Build SSAValue :=
  let! ty := ty_of value in
  sm_assert (is_int ty) ;;!
  let! shift_ty := ty_of shift in
  sm_assert (is_int shift_ty) ;;!
  emit_1ret_stmt (if unbounded then KShiftUnbounded op value shift else KShift op value shift).

Definition ushr (value shift : SSAValue) := emit_shift_op ZeroExtendShr value shift false.
Definition sshr (value shift : SSAValue) := emit_shift_op SignExtendShr value shift false.
Definition shl (value shift : SSAValue) := emit_shift_op Shl value shift false.
Definition ushr_unbounded (value shift : SSAValue) := emit_shift_op ZeroExtendShr value shift true.
Definition sshr_unbounded (value shift : SSAValue) := emit_shift_op SignExtendShr value shift true.
Definition shl_unbounded (value shift : SSAValue) := emit_shift_op Shl value shift true.

(** [bits] decides on the amount, or on a constant result; it may panic. *)
Definition emit_shift_imm_op (op : ShiftOp) (value : SSAValue)
    (bits : IntWidth -> option (Result Z IConst)) : Build SSAValue :=
  let! ty := ty_of value in
  let! width := sm_of_option (assert_int ty) in
  let! bits := sm_of_option (bits width) in
  match bits with
  | Ok bits => emit_1ret_stmt (KShiftImm op value bits)
  | Err const_val => iconst const_val
  end.

Definition emit_modulo_shift_imm_op (op : ShiftOp) (value : SSAValue) (amount : Z) : Build SSAValue :=
  emit_shift_imm_op op value (fun width => Some (Ok (amount mod bits width))).

Definition emit_panicking_shift_imm_op (op : ShiftOp) (value : SSAValue) (amount : Z) : Build SSAValue :=
  emit_shift_imm_op op value (fun width => if amount <? bits width then Some (Ok amount) else None).

Definition emit_unbounded_shift_imm_op (op : ShiftOp) (value : SSAValue) (amount : Z) : Build SSAValue :=
  emit_shift_imm_op op value (fun width => Some (
    if bits width <=? amount then
      match op with
      | ZeroExtendShr | Shl => Err (Const.zero width)
      | SignExtendShr => Ok (bits width - 1)
      end
    else Ok amount)).

Definition ushr_imm := emit_modulo_shift_imm_op ZeroExtendShr.
Definition sshr_imm := emit_modulo_shift_imm_op SignExtendShr.
Definition shl_imm := emit_modulo_shift_imm_op Shl.
Definition ushr_exact_imm := emit_panicking_shift_imm_op ZeroExtendShr.
Definition sshr_exact_imm := emit_panicking_shift_imm_op SignExtendShr.
Definition shl_exact_imm := emit_panicking_shift_imm_op Shl.
Definition ushr_unbounded_imm := emit_unbounded_shift_imm_op ZeroExtendShr.
Definition sshr_unbounded_imm := emit_unbounded_shift_imm_op SignExtendShr.
Definition shl_unbounded_imm := emit_unbounded_shift_imm_op Shl.

(** ** Flags and arithmetic *)

(** [PState]'s flag bits. *)
Definition PSTATE_N : Z := 2 ^ 31.
Definition PSTATE_Z : Z := 2 ^ 30.
Definition PSTATE_C : Z := 2 ^ 29.
Definition PSTATE_V : Z := 2 ^ 28.
Definition NZCV_MASK : Z := Z.lor (Z.lor PSTATE_N PSTATE_Z) (Z.lor PSTATE_C PSTATE_V).

Definition set_nzcv_flags (n z c v : SSAValue) : Build unit :=
  let! old_flags := load_pstate in
  let! zeroed := iconst (Const.unsigned W32 0) in
  let! n_flag_true := iconst (Const.unsigned W32 PSTATE_N) in
  let! z_flag_true := iconst (Const.unsigned W32 PSTATE_Z) in
  let! c_flag_true := iconst (Const.unsigned W32 PSTATE_C) in
  let! v_flag_true := iconst (Const.unsigned W32 PSTATE_V) in
  let! n_flag := select n n_flag_true zeroed in
  let! z_flag := select z z_flag_true zeroed in
  let! c_flag := select c c_flag_true zeroed in
  let! v_flag := select v v_flag_true zeroed in
  let! nz_flag := bitor n_flag z_flag in
  let! cv_flag := bitor c_flag v_flag in
  let! nzcv_flags := bitor nz_flag cv_flag in
  let! masked_out_flags := bitand_imm old_flags (Const.unsigned W32 (bitnot 32 NZCV_MASK)) in
  let! new_flags := bitor masked_out_flags nzcv_flags in
  store_pstate new_flags.

Definition emit_arith_binop (op : ArithBinOp) (lhs rhs : SSAValue) : Build SSAValue :=
  emit_same_int_ty_binop lhs rhs (fun _ => emit_1ret_stmt (KArithBinOp op lhs rhs)).

Definition emit_flag_setting_binop (op : OverflowingBinOp) (lhs rhs : SSAValue) : Build SSAValue :=
  let! (value, overflow, width) := emit_same_int_ty_binop lhs rhs (fun width =>
    let! (value, overflow) := emit_2ret_stmt (KOverflowingBinOp op lhs rhs) in
    sm_ret (value, overflow, width)) in
  let zero_imm := Const.zero width in
  let! negative := icmp_imm SignedLessThan value zero_imm in
  let! zero := icmp_imm Equal value zero_imm in
  let! carry := match op with
    | OvAdd => icmp UnsignedLessThan value lhs
    | OvSub => icmp UnsignedGreaterThanOrEqual lhs rhs
    end in
  set_nzcv_flags negative zero carry overflow ;;!
  sm_ret value.

Definition iadd := emit_arith_binop ArAdd.
Definition iadd_imm (value : SSAValue) (amount : IConst) : Build SSAValue :=
  let! rhs := iconst amount in iadd value rhs.
Definition isub := emit_arith_binop ArSub.
Definition imul := emit_arith_binop ArMul.

Definition udiv (lhs rhs : SSAValue) : Build SSAValue :=
  emit_same_int_ty_binop lhs rhs (fun width =>
    let zero_imm := Const.zero width in
    let! zero := iconst zero_imm in
    let! one := iconst (Const.one width) in
    let! rhs_is_zero := icmp_imm Equal rhs zero_imm in
    let! safe_rhs := select rhs_is_zero one rhs in
    let! quotient := emit_1ret_stmt (KArithBinOp UncheckedUDiv lhs safe_rhs) in
    select rhs_is_zero zero quotient).

Definition sdiv (lhs rhs : SSAValue) : Build SSAValue :=
  emit_same_int_ty_binop lhs rhs (fun width =>
    let zero_imm := Const.zero width in
    let int_min_imm := Const.min_negative width in
    let negative_one_imm := Const.negative_one width in
    let! zero := iconst zero_imm in
    let! one := iconst (Const.one width) in
    let! rhs_is_zero := icmp_imm Equal rhs zero_imm in
    let! lhs_is_min := icmp_imm Equal lhs int_min_imm in
    let! rhs_is_minus_one := icmp_imm Equal rhs negative_one_imm in
    let! is_overflow := bitand lhs_is_min rhs_is_minus_one in
    let! use_safe_rhs := bitor rhs_is_zero is_overflow in
    let! safe_rhs := select use_safe_rhs one rhs in
    let! quotient := emit_1ret_stmt (KArithBinOp UncheckedSDiv lhs safe_rhs) in
    select rhs_is_zero zero quotient).

Definition ineg (value : SSAValue) : Build SSAValue :=
  let! ty := ty_of value in
  sm_assert (is_int ty) ;;!
  emit_1ret_stmt (KIntNeg value).

Definition iadds := emit_flag_setting_binop OvAdd.
Definition isubs := emit_flag_setting_binop OvSub.

(** ** Control flow and safepoints *)

Definition assert_or_jmp_to (cond : SSAValue) (expected : bool) (fail : Block) : Build Block :=
  mark_block_bold fail ;;!
  let! success := create_block in
  let (zero, non_zero) := if expected then (fail, success) else (success, fail) in
  terminate (Term.BrZ cond (jump_to zero) (jump_to non_zero)) ;;!
  switch_to success ;;!
  sm_ret success.

Definition next_insn : Build unit :=
  let! pc := load_pc in
  let! new_pc := iadd_imm pc (Const.unsigned W64 4) in
  store_pc new_pc ;;!
  add_safepoint.

(** ** Guest memory *)

Inductive VmAccessKind := VmLoad (width : IntWidth) | VmStore (value : SSAValue).

Definition access_width (a : VmAccessKind) : Build IntWidth :=
  match a with
  | VmLoad width => sm_ret width
  | VmStore value => let! ty := ty_of value in sm_of_option (assert_int ty)
  end.

Definition required_perms (a : VmAccessKind) : MemProt :=
  match a with VmLoad _ => Prot.READ | VmStore _ => Prot.WRITE end.

Record FallbackAccess := mkFallback { fb_block : Block; fb_ok_block : Block; fb_value : option SSAValue }.

Definition has_tag (ptr : SSAValue) (tag_bits : Z) : Build SSAValue :=
  let! ty := ty_of ptr in
  sm_assert (is_host_ptr ty) ;;! emit_1ret_stmt (KHasTag ptr tag_bits).
Definition untag_ptr (ptr : SSAValue) (tag_bits : Z) : Build SSAValue :=
  let! ty := ty_of ptr in
  sm_assert (is_host_ptr ty) ;;! emit_1ret_stmt (KUntag ptr tag_bits).

Definition get_scratch_space_ptr : Build SSAValue := fun b =>
  (let! slot := match scratch_space b with
    | Some slot => sm_ret slot
    | None =>
        let! slot := create_stack_slot 8 8 in
        set_scratch_space (Some slot) ;;! sm_ret slot
    end in
   use_stack_slot slot) b.

(** The slow path in a block of its own: call the helper, leave with a memory
    trap unless it reports success, and read a load's result back. *)
Definition emit_host_mem_fallback (access : VmAccessKind) (width : IntWidth) (vaddr : SSAValue) :
    Build FallbackAccess :=
  let! fallback_block := create_block in
  block_scope fallback_block (
    mark_current_block_cold ;;!
    let! (out_param, (host_cb, sig), arg) := match access with
      | VmLoad _ =>
          let! stack_ptr := get_scratch_space_ptr in
          sm_ret (Some stack_ptr, load_callback width false, stack_ptr)
      | VmStore value => sm_ret (None, store_callback width false, value)
      end in
    let! status := call_host host_cb sig [ARG_IO_MMU; ARG_TLB_PTR; ARG_EXEC_CONTEXT; vaddr; arg] in
    let! status := sm_of_option status in
    let! fail := make_halt_block e (memory_trap (bytes width)) in
    let! _ := assert_or_jmp_to status false fail in
    let! value := match out_param with
      | Some out_param =>
          let! v := emit_1ret_stmt (KLoadHost (LInt width) out_param 0 false) in sm_ret (Some v)
      | None => sm_ret None
      end in
    let! ok_block := get_current_block in
    sm_ret (mkFallback fallback_block ok_block value)).

(** The block that records a refused access as the pending fault and leaves. *)
Definition emit_trap_block (access : VmAccessKind) (width : IntWidth) (vaddr : SSAValue) : Build Block :=
  let! fail_block := create_block in
  block_scope fail_block (
    let store_ctx offset value := emit_void_stmt (KStoreHost ARG_EXEC_CONTEXT offset value true) in
    store_ctx (off_fault_vaddr ly) vaddr ;;!
    let mem_op := match access with VmLoad _ => Load | VmStore _ => Store end in
    let! mem_op_val := iconst (Const.unsigned W8 (MemOp_repr mem_op)) in
    store_ctx (off_fault_mem_op ly) mem_op_val ;;!
    let! true_val := iconst (Const.unsigned W8 1) in
    store_ctx (off_was_real_memory_trap ly) true_val ;;!
    let! trap_value := iconst (Const.unsigned W32 (as_nz_u32 e (memory_trap (bytes width)))) in
    terminate (Term.ReturnCode trap_value) ;;!
    mark_current_block_cold) ;;!
  sm_ret fail_block.

(** The translation's lookup in the TLB, leaving for [fallback] on a miss or an
    unaligned address: the tagged page, the offset and the entry. *)
Definition emit_tlb_lookup (vaddr : SSAValue) (width : IntWidth) (fallback : Block) :
    Build (SSAValue * SSAValue * SSAValue) :=
  let! page_number := sshr_exact_imm vaddr PAGE_SHIFT in
  let! tlb_index := bitand_imm page_number (Const.unsigned W64 TLB_MASK) in
  let! tlb_entry_ptr := emit_1ret_stmt (KPtrAdd ARG_TLB_PTR tlb_index (tlb_entry_size ly)) in
  let! io_mmu_ident :=
    emit_1ret_stmt (KLoadHost (LHostPtr RReadOnly) tlb_entry_ptr (off_io_mmu_ident ly) true) in
  let! io_mmu_matches := emit_1ret_stmt (KPtrEq io_mmu_ident ARG_IO_MMU_IDENT) in
  let! _ := assert_or_jmp_to io_mmu_matches true fallback in
  let! page_number_found :=
    emit_1ret_stmt (KLoadHost (LInt W64) tlb_entry_ptr (off_virtual_page_number ly) true) in
  let! page_number_matches := icmp Equal page_number page_number_found in
  let! _ := assert_or_jmp_to page_number_matches true fallback in
  let! tagged_page_ptr :=
    emit_1ret_stmt (KLoadHost (LHostPtr RVirtualMemory) tlb_entry_ptr (off_tagged_page_ptr ly) true) in
  let! page_offset := bitand_imm vaddr (Const.unsigned W64 PAGE_OFFSET_MASK_U64) in
  (if decide (width = W8) then sm_ret tt
   else
     let! alignment_bits := bitand_imm vaddr (Const.unsigned W64 (bytes width - 1)) in
     let! is_aligned := icmp_imm Equal alignment_bits (Const.unsigned W64 0) in
     let! _ := assert_or_jmp_to is_aligned true fallback in
     sm_ret tt) ;;!
  sm_ret (tagged_page_ptr, page_offset, tlb_entry_ptr).

Definition vm_access (vaddr : SSAValue) (access : VmAccessKind) (acq_rel : bool) :
    Build (option SSAValue) :=
  let! vaddr_ty := ty_of vaddr in
  sm_assert (bool_decide (vaddr_ty = TInt W64)) ;;!
  let! width := access_width access in
  let! fallback_access := emit_host_mem_fallback access width vaddr in
  let! (tagged_page_ptr, page_offset, tlb_entry_ptr) :=
    emit_tlb_lookup vaddr width (fb_block fallback_access) in
  let! op_allowed := has_tag tagged_page_ptr (MemProt_bits (required_perms access)) in
  let! return_trap_block := emit_trap_block access width vaddr in
  let! _ := assert_or_jmp_to op_allowed true return_trap_block in
  let! aligned_page_ptr := untag_ptr tagged_page_ptr (MemFlags_bits Flags.ALL) in
  match access with
  | VmStore value =>
      emit_void_stmt (KVMStoreRaw aligned_page_ptr page_offset value acq_rel) ;;!
      sm_assert (bool_decide (fb_value fallback_access = None)) ;;!
      let! page_must_dirty := has_tag tagged_page_ptr (MemFlags_bits Flags.MUST_DIRTY) in
      let! check_if_not_already_dirty := create_block in
      let! continuation := assert_or_jmp_to page_must_dirty false check_if_not_already_dirty in
      block_scope check_if_not_already_dirty (
        let! insn_dirty_ptr :=
          emit_1ret_stmt (KLoadHost (LHostPtr RPageFlags) tlb_entry_ptr (off_mut_page_flags ly) true) in
        emit_void_stmt (KSetPageDirtyFlag insn_dirty_ptr) ;;!
        terminate (Term.Br (jump_to continuation))) ;;!
      terminate_block (fb_ok_block fallback_access) (Term.Br (jump_to continuation)) ;;!
      sm_ret None
  | VmLoad _ =>
      let! ret_normal := emit_1ret_stmt (KVMLoadRaw aligned_page_ptr page_offset width acq_rel) in
      let! ret_fallback := sm_of_option (fb_value fallback_access) in
      let! normal_access_block := get_current_block in
      let! merge_block := create_block in
      switch_to merge_block ;;!
      let! param := add_block_parameter (IrInt width) in
      terminate_block normal_access_block (Term.Br (mkJump [ret_normal] merge_block)) ;;!
      terminate_block (fb_ok_block fallback_access) (Term.Br (mkJump [ret_fallback] merge_block)) ;;!
      sm_ret (Some param)
  end.

Definition vm_load (vaddr : SSAValue) (width : IntWidth) : Build SSAValue :=
  let! v := vm_access vaddr (VmLoad width) false in sm_of_option v.
Definition vm_store (vaddr value : SSAValue) : Build unit :=
  let! out := vm_access vaddr (VmStore value) false in sm_assert (bool_decide (out = None)).

(** ** Exclusive accesses *)

Definition ldrex (vaddr : SSAValue) (width : IntWidth) : Build SSAValue :=
  let! vaddr_ty := ty_of vaddr in
  sm_assert (bool_decide (vaddr_ty = TInt W64)) ;;!
  let (host_cb, signature) := load_callback width true in
  let! stack_ptr := get_scratch_space_ptr in
  let! status := call_host host_cb signature [ARG_IO_MMU; ARG_TLB_PTR; ARG_EXEC_CONTEXT; vaddr; stack_ptr] in
  let! status := sm_of_option status in
  let! fail := make_halt_block e (memory_trap (bytes width)) in
  let! _ := assert_or_jmp_to status false fail in
  emit_1ret_stmt (KLoadHost (LInt width) stack_ptr 0 false).

Definition strex (vaddr value : SSAValue) : Build SSAValue :=
  let! vaddr_ty := ty_of vaddr in
  sm_assert (bool_decide (vaddr_ty = TInt W64)) ;;!
  let! ty := ty_of value in
  let! width := sm_of_option (assert_int ty) in
  let (host_cb, signature) := store_callback width true in
  let! status := call_host host_cb signature [ARG_IO_MMU; ARG_TLB_PTR; ARG_EXEC_CONTEXT; vaddr; value] in
  let! status := sm_of_option status in
  let! failed := icmp_imm Equal status (Const.unsigned W8 255) in
  let! fail := make_halt_block e (memory_trap (bytes width)) in
  let! _ := assert_or_jmp_to failed false fail in
  sm_ret status.

Definition clrex : Build unit :=
  let! ret := call_host CbClrex Signature.CLREX [ARG_EXEC_CONTEXT] in
  sm_assert (bool_decide (ret = None)).
End Emit.
