(* ===== verification/IrLogic.v ===== *)
(** * Reasoning about emitters

    An emitter is correct when the statements it appends to the current block,
    executed from the point where the block ended, do what is meant.  [Emits]
    says so for one builder, environment and state; its rules follow the code
    of the emitters, one per emitter, so that a proof about a composite emitter
    reads like the emitter. *)

From S2P Require Import Prelude Convert HaltReason MemTypes Fault Memops ObjectQueue Fabric PageTable IoMMU.
From S2P Require Import ExclusiveMonitor LookupCache MemAccess FfiSupport Arena Ir IrSem IrEmit.
Local Open Scope Z_scope.
Local Open Scope emu_scope.

(** ** Growing builders *)

(** [b'] is [b] with [data] appended to the current block, and possibly more
    values. *)
Record appended (b b' : ExecIrBuilder) (data : list StmtData) : Prop := {
  app_values : exists tys, ssa_values b' = ssa_values b ++ tys;
  app_stmts : all_stmts b' = all_stmts b ++ data;
  app_blocks : exists l, mapM (arena_get (all_stmts b')) l = Some data /\
    blocks b' = alter (fun d => Blk.set_stmts (stmts d ++ l) d) (get (current_block b)) (blocks b);
  app_current : current_block b' = current_block b;
  app_signatures : signatures b' = signatures b;
  app_rest : stack_slots b' = stack_slots b /\ scratch_space b' = scratch_space b /\
    leave_and_take_halt b' = leave_and_take_halt b /\ halt_check_every b' = halt_check_every b;
}.

(** Room for [n] more values and [n] more statements. *)
Definition budget (n : nat) (b : ExecIrBuilder) : Prop :=
  Z.of_nat (length (ssa_values b) + n) <= HANDLE_MAX /\
  Z.of_nat (length (all_stmts b) + n) <= HANDLE_MAX.

(** The current block exists, and values are bound to what their types say. *)
Definition env_ok (b : ExecIrBuilder) (ρ : Env) : Prop :=
  (get (current_block b) < length (blocks b))%nat /\
  forall v x, ρ !! v = Some x -> exists ty, arena_get (ssa_values b) v = Some ty /\ has_type x ty.

(** A value: its type and what it is bound to. *)
Definition holds (b : ExecIrBuilder) (ρ : Env) (v : SSAValue) (ty : TypeFull) (x : Value) : Prop :=
  arena_get (ssa_values b) v = Some ty /\ ρ !! v = Some x.

Definition grows (b : ExecIrBuilder) (ρ : Env) (b' : ExecIrBuilder) (ρ' : Env) : Prop :=
  (exists tys, ssa_values b' = ssa_values b ++ tys) /\ ρ ⊆ ρ' /\
  current_block b' = current_block b /\ signatures b' = signatures b.

Lemma grows_refl b ρ : grows b ρ b ρ.
Proof. split_and!; [|done..]. exists []. by rewrite app_nil_r. Qed.

Lemma grows_trans b1 ρ1 b2 ρ2 b3 ρ3 : grows b1 ρ1 b2 ρ2 -> grows b2 ρ2 b3 ρ3 -> grows b1 ρ1 b3 ρ3.
Proof.
  intros ((t1 & H1) & Hr1 & Hc1 & Hs1) ((t2 & H2) & Hr2 & Hc2 & Hs2). split_and!; [|by etrans|congruence..].
  exists (t1 ++ t2). by rewrite H2, H1, app_assoc.
Qed.

Lemma grows_value b ρ b' ρ' v ty :
  grows b ρ b' ρ' -> arena_get (ssa_values b) v = Some ty -> arena_get (ssa_values b') v = Some ty.
Proof. intros ((tys & ->) & _) H. unfold arena_get in *. by apply lookup_app_l_Some. Qed.

Lemma holds_mono b ρ b' ρ' v ty x : grows b ρ b' ρ' -> holds b ρ v ty x -> holds b' ρ' v ty x.
Proof.
  intros Hg [Ht Hx]. split; [by eapply grows_value|]. destruct Hg as (_ & Hr & _).
  by eapply lookup_weaken.
Qed.

Lemma appended_refl b : appended b b [].
Proof.
  split; try done.
  - exists []. by rewrite app_nil_r.
  - by rewrite app_nil_r.
  - exists []. split; [done|]. symmetry. apply list_alter_id. intros [].
    unfold Blk.set_stmts. simpl. by rewrite app_nil_r.
Qed.

Lemma mapM_arena_app {S} (a a' : Arena S) l d :
  mapM (arena_get a) l = Some d -> mapM (arena_get (a ++ a')) l = Some d.
Proof.
  rewrite !mapM_Some. intros H. eapply Forall2_impl; [exact H|]. intros x y ?.
  by apply lookup_app_l_Some.
Qed.

Lemma mapM_app_Some {A B} (f : A -> option B) l1 l2 d1 d2 :
  mapM f l1 = Some d1 -> mapM f l2 = Some d2 -> mapM f (l1 ++ l2) = Some (d1 ++ d2).
Proof. rewrite !mapM_Some. apply Forall2_app. Qed.

Lemma appended_trans b1 b2 b3 d1 d2 :
  appended b1 b2 d1 -> appended b2 b3 d2 -> appended b1 b3 (d1 ++ d2).
Proof.
  intros [(t1 & V1) S1 (l1 & L1 & B1) C1 G1 R1] [(t2 & V2) S2 (l2 & L2 & B2) C2 G2 R2].
  split; try congruence.
  - exists (t1 ++ t2). by rewrite V2, V1, app_assoc.
  - by rewrite S2, S1, app_assoc.
  - exists (l1 ++ l2). split.
    + apply mapM_app_Some; [|done]. rewrite S2. by apply mapM_arena_app.
    + rewrite B2, B1, C1, list_alter_alter_eq. apply list_alter_ext; [|done].
      intros d _. unfold Blk.set_stmts. simpl. by rewrite app_assoc.
  - destruct R1 as (?&?&?&?), R2 as (?&?&?&?). split_and!; congruence.
Qed.

(** What a rule hands its continuation: a fresh value with its type and meaning,
    and one unit less of the budget. *)
Abbreviation Gives n b ρ s' ty x Post := (forall v b' ρ', grows b ρ b' ρ' -> env_ok b' ρ' ->
  budget (S n) b' -> holds b' ρ' v ty x -> Post v b' ρ' s').

Section Logic.
Context {Error : Type} (e : Endian) (ly : Layout) (io_mmu : IoMMU).

Abbreviation World := (World (Error := Error)).
Abbreviation exec_data := (exec_data (Error := Error) e ly io_mmu).
Abbreviation eval_stmt := (eval_stmt (Error := Error) e ly io_mmu).

(** Running [m] on [b] appends statements that, executed on [ρ] and [s], end in
    a state the postcondition describes. *)
Definition Emits {A} (b : ExecIrBuilder) (ρ : Env) (s : World) (m : Build A)
    (Post : A -> ExecIrBuilder -> Env -> World -> Prop) : Prop :=
  exists a b' data ρ' s', m b = Some (a, b') /\ appended b b' data /\
    exec_data data ρ s = Some (ρ', s') /\ grows b ρ b' ρ' /\ env_ok b' ρ' /\ Post a b' ρ' s'.

Lemma exec_data_app l1 l2 ρ s :
  exec_data (l1 ++ l2) ρ s =
  match exec_data l1 ρ s with Some (ρ', s') => exec_data l2 ρ' s' | None => None end.
Proof.
  revert ρ s. induction l1 as [|d l1 IH]; intros ρ s; simpl; [done|].
  unfold sm_bind. destruct (exec_stmt _ _ _ d ρ s) as [[ρ' s']|]; [apply IH|done].
Qed.

Lemma emits_ret {A} b ρ s (a : A) (Post : A -> ExecIrBuilder -> Env -> World -> Prop) :
  env_ok b ρ -> Post a b ρ s -> Emits b ρ s (sm_ret a) Post.
Proof.
  intros Ho Hp. exists a, b, [], ρ, s. split_and!; try done; [apply appended_refl|apply grows_refl].
Qed.

Lemma emits_bind {A B} b ρ s (m : Build A) (k : A -> Build B) Post :
  Emits b ρ s m (fun a b' ρ' s' => Emits b' ρ' s' (k a) Post) -> Emits b ρ s (sm_bind m k) Post.
Proof.
  intros (a & b1 & d1 & ρ1 & s1 & Hm & Ha & He & Hg & Ho & a2 & b2 & d2 & ρ2 & s2 & Hm2 & Ha2 & He2 & Hg2 & Ho2 & Hp).
  exists a2, b2, (d1 ++ d2), ρ2, s2. split_and!; try done.
  - unfold sm_bind. by rewrite Hm.
  - by eapply appended_trans.
  - by rewrite exec_data_app, He.
  - by eapply grows_trans.
Qed.

Lemma emits_impl {A} b ρ s (m : Build A) (Post Post' : A -> ExecIrBuilder -> Env -> World -> Prop) :
  Emits b ρ s m Post ->
  (forall a b' ρ' s', grows b ρ b' ρ' -> env_ok b' ρ' -> Post a b' ρ' s' -> Post' a b' ρ' s') ->
  Emits b ρ s m Post'.
Proof.
  intros (a & b1 & d1 & ρ1 & s1 & Hm & Ha & He & Hg & Ho & Hp) H.
  exists a, b1, d1, ρ1, s1. split_and!; auto.
Qed.

(** Steps that only look at the builder. *)
Lemma emits_read {A} b ρ s (m : Build A) a (Post : A -> ExecIrBuilder -> Env -> World -> Prop) :
  m b = Some (a, b) -> env_ok b ρ -> Post a b ρ s -> Emits b ρ s m Post.
Proof.
  intros Hm Ho Hp. exists a, b, [], ρ, s. split_and!; try done; [apply appended_refl|apply grows_refl].
Qed.

Lemma emits_ty {A} b ρ s v ty x (k : TypeFull -> Build A) Post :
  env_ok b ρ -> holds b ρ v ty x -> Emits b ρ s (k ty) Post -> Emits b ρ s (sm_bind (ty_of v) k) Post.
Proof.
  intros Ho [Hv _] H. apply emits_bind, (emits_read _ _ _ _ ty); [|done..].
  unfold ty_of, sm_of_option. by rewrite Hv.
Qed.

Lemma emits_assert {A} b ρ s c (k : unit -> Build A) Post :
  c = true -> Emits b ρ s (k tt) Post -> Emits b ρ s (sm_bind (sm_assert c) k) Post.
Proof. intros -> H. exact H. Qed.

Lemma emits_option {A B} b ρ s o (a : A) (k : A -> Build B) Post :
  o = Some a -> Emits b ρ s (k a) Post -> Emits b ρ s (sm_bind (sm_of_option o) k) Post.
Proof. intros -> H. exact H. Qed.

(** ** Emitting one statement *)

Lemma store_outputs_spec tys b :
  Z.of_nat (length (ssa_values b) + length tys) <= HANDLE_MAX ->
  store_outputs tys b = Some (Pos.of_succ_nat <$> seq (length (ssa_values b)) (length tys),
    mkBuilder (ssa_values b ++ tys) (blocks b) (all_stmts b) (stack_slots b) (signatures b)
      (scratch_space b) (leave_and_take_halt b) (current_block b) (halt_check_every b)).
Proof.
  revert b. induction tys as [|ty tys IH]; intros b Hb; simpl.
  { rewrite app_nil_r. by destruct b. }
  unfold sm_bind, on_ssa_values, arena_store. simpl in Hb. rewrite try_new_total by lia.
  rewrite IH by (simpl; rewrite length_app; simpl; lia). unfold sm_ret. simpl. rewrite length_app. simpl.
  rewrite Nat.add_1_r, <- app_assoc. done.
Qed.

(** What [emit_stmt_full] leaves behind. *)
Definition pushed (rv : StmtKind) (tys : list TypeFull) (b : ExecIrBuilder) : ExecIrBuilder :=
  let outs := Pos.of_succ_nat <$> seq (length (ssa_values b)) (length tys) in
  mkBuilder (ssa_values b ++ tys)
    (alter (Blk.push_stmt (Pos.of_succ_nat (length (all_stmts b)))) (get (current_block b)) (blocks b))
    (all_stmts b ++ [mkStmt outs rv])
    (stack_slots b) (signatures b) (scratch_space b) (leave_and_take_halt b) (current_block b)
    (halt_check_every b).

Lemma emit_stmt_full_spec rv tys b :
  type_of rv b = Some (tys, b) -> budget (S (length tys)) b ->
  (get (current_block b) < length (blocks b))%nat ->
  emit_stmt_full (length tys) rv b =
    Some (Pos.of_succ_nat <$> seq (length (ssa_values b)) (length tys), pushed rv tys b).
Proof.
  intros Ht [Hb1 Hb2] Hc. unfold emit_stmt_full, sm_bind at 1. rewrite Ht.
  unfold sm_bind at 1. rewrite store_outputs_spec by lia.
  rewrite length_fmap, length_seq, Nat.eqb_refl. unfold sm_bind, sm_assert, sm_ret, on_stmts, arena_store.
  simpl. rewrite try_new_total by lia. unfold get_current_block, on_blocks, arena_modify. simpl.
  destruct (lookup_lt_is_Some_2 _ _ Hc) as [d Hd]. rewrite Hd.
  unfold pushed. repeat f_equal. rewrite list_insert_alter. apply list_alter_ext; [|done].
  intros d' Hd'. by simplify_eq.
Qed.

Lemma pushed_appended rv tys b :
  appended b (pushed rv tys b)
    [mkStmt (Pos.of_succ_nat <$> seq (length (ssa_values b)) (length tys)) rv].
Proof.
  split; try done; [by exists tys|].
  exists [Pos.of_succ_nat (length (all_stmts b))]. split; [|done].
  simpl. unfold arena_get. by rewrite get_of_succ, list_lookup_middle.
Qed.

Lemma env_fresh b ρ v : env_ok b ρ -> arena_get (ssa_values b) v = None -> ρ !! v = None.
Proof.
  intros [_ H] Hv. destruct (ρ !! v) as [x|] eqn:E; [|done].
  destruct (H v x E) as (ty & ? & _). congruence.
Qed.

Lemma new_value_none b i : arena_get (ssa_values b) (Pos.of_succ_nat (length (ssa_values b) + i)) = None.
Proof. unfold arena_get. rewrite get_of_succ. apply lookup_ge_None_2. lia. Qed.

Lemma env_ok_bind b ρ b' v ty x :
  env_ok b ρ -> grows b ρ b' ρ -> (get (current_block b') < length (blocks b'))%nat ->
  arena_get (ssa_values b') v = Some ty -> has_type x ty -> env_ok b' (<[v := x]> ρ).
Proof.
  intros [_ Ho] Hg Hc Hv Hx. split; [done|]. intros u y Hu.
  destruct (decide (u = v)) as [->|Hne].
  - rewrite lookup_insert_eq in Hu. injection Hu as <-. eauto.
  - rewrite lookup_insert_ne in Hu by done. destruct (Ho u y Hu) as (ty' & ? & ?).
    exists ty'. split; [by eapply grows_value|done].
Qed.

Lemma emits_void b ρ s rv s' (Post : unit -> ExecIrBuilder -> Env -> World -> Prop) :
  env_ok b ρ -> budget 1 b -> type_of rv b = Some ([], b) -> eval_stmt ρ rv s = Some ([], s') ->
  (forall b', grows b ρ b' ρ -> env_ok b' ρ -> length (ssa_values b') = length (ssa_values b) ->
    length (all_stmts b') = S (length (all_stmts b)) -> Post tt b' ρ s') ->
  Emits b ρ s (emit_void_stmt rv) Post.
Proof.
  intros Ho Hb Ht He Hp. destruct Ho as [Hc Ho].
  assert (env_ok (pushed rv [] b) ρ) as Ho'.
  { split; [simpl; by rewrite length_alter|]. intros v x Hv. simpl. rewrite app_nil_r. by apply Ho. }
  assert (grows b ρ (pushed rv [] b) ρ) as Hg by (split_and!; [by exists []|done..]).
  exists tt, (pushed rv [] b), [mkStmt [] rv], ρ, s'. split_and!; try done.
  - unfold emit_void_stmt, sm_bind at 1. pose proof (emit_stmt_full_spec rv [] b Ht Hb Hc : emit_stmt_full 0 rv b = _) as E. by rewrite E.
  - apply (pushed_appended rv [] b).
  - simpl. unfold exec_stmt, sm_bind. simpl. by rewrite He.
  - apply Hp; [done..| |]; simpl; rewrite length_app; simpl; lia.
Qed.

Lemma emits_1ret b ρ s rv ty x s' (Post : SSAValue -> ExecIrBuilder -> Env -> World -> Prop) :
  env_ok b ρ -> budget 2 b -> type_of rv b = Some ([ty], b) -> eval_stmt ρ rv s = Some ([x], s') ->
  has_type x ty ->
  (forall v b' ρ', grows b ρ b' ρ' -> env_ok b' ρ' -> length (ssa_values b') = S (length (ssa_values b)) ->
    length (all_stmts b') = S (length (all_stmts b)) -> holds b' ρ' v ty x -> Post v b' ρ' s') ->
  Emits b ρ s (emit_1ret_stmt rv) Post.
Proof.
  intros Ho Hb Ht He Hx Hp. pose proof Ho as [Hc _]. set (b' := pushed rv [ty] b).
  pose proof (new_value_none b 0) as Hn. rewrite Nat.add_0_r in Hn.
  set (v := Pos.of_succ_nat (length (ssa_values b))) in *. set (ρ' := <[v := x]> ρ).
  assert (arena_get (ssa_values b') v = Some ty) as Hv.
  { unfold arena_get, v, b'. simpl. by rewrite get_of_succ, list_lookup_middle. }
  assert (get (current_block b') < length (blocks b'))%nat as Hc' by (simpl; by rewrite length_alter).
  assert (grows b ρ b' ρ) as Hg0 by (split_and!; [by exists [ty]|done..]).
  assert (grows b ρ b' ρ') as Hg.
  { split_and!; [by exists [ty]|by apply insert_subseteq, (env_fresh b)|done..]. }
  assert (env_ok b' ρ') as Ho' by by eapply env_ok_bind.
  exists v, b', [mkStmt [v] rv], ρ', s'. split_and!; try done.
  - unfold emit_1ret_stmt, sm_bind at 1. pose proof (emit_stmt_full_spec rv [ty] b Ht Hb Hc : emit_stmt_full 1 rv b = _) as E. by rewrite E.
  - apply (pushed_appended rv [ty] b).
  - simpl. unfold exec_stmt, sm_bind. simpl. by rewrite He.
  - apply Hp; [done..| | |].
    + simpl. rewrite length_app. simpl. lia.
    + simpl. rewrite length_app. simpl. lia.
    + split; [done|]. unfold ρ'. by rewrite lookup_insert_eq.
Qed.

Lemma emits_2ret b ρ s rv ty1 ty2 x1 x2 s'
    (Post : SSAValue * SSAValue -> ExecIrBuilder -> Env -> World -> Prop) :
  env_ok b ρ -> budget 3 b -> type_of rv b = Some ([ty1; ty2], b) ->
  eval_stmt ρ rv s = Some ([x1; x2], s') -> has_type x1 ty1 -> has_type x2 ty2 ->
  (forall v1 v2 b' ρ', grows b ρ b' ρ' -> env_ok b' ρ' ->
    length (ssa_values b') = S (S (length (ssa_values b))) ->
    length (all_stmts b') = S (length (all_stmts b)) ->
    holds b' ρ' v1 ty1 x1 -> holds b' ρ' v2 ty2 x2 -> Post (v1, v2) b' ρ' s') ->
  Emits b ρ s (emit_2ret_stmt rv) Post.
Proof.
  intros Ho Hb Ht He Hx1 Hx2 Hp. pose proof Ho as [Hc _]. set (b' := pushed rv [ty1; ty2] b).
  pose proof (new_value_none b 0) as Hn1. pose proof (new_value_none b 1) as Hn2.
  rewrite Nat.add_0_r in Hn1. rewrite Nat.add_1_r in Hn2.
  set (v1 := Pos.of_succ_nat (length (ssa_values b))) in *.
  set (v2 := Pos.of_succ_nat (S (length (ssa_values b)))) in *.
  set (ρ' := <[v2 := x2]> (<[v1 := x1]> ρ)).
  assert (v1 <> v2) as Hne by lia.
  assert (arena_get (ssa_values b') v1 = Some ty1 /\ arena_get (ssa_values b') v2 = Some ty2) as [Hv1 Hv2].
  { unfold arena_get, v1, v2, b', pushed. rewrite !get_of_succ. cbn [ssa_values].
    rewrite list_lookup_middle by done. split; [done|]. rewrite lookup_app_r by lia.
    by replace (S (length (ssa_values b)) - length (ssa_values b))%nat with 1%nat by lia. }
  assert (get (current_block b') < length (blocks b'))%nat as Hc' by (simpl; by rewrite length_alter).
  assert (grows b ρ b' ρ) as Hg0 by (split_and!; [by exists [ty1; ty2]|done..]).
  assert (ρ ⊆ <[v1 := x1]> ρ) as Hs1 by by apply insert_subseteq, (env_fresh b).
  assert (ρ ⊆ ρ') as Hs2.
  { etrans; [exact Hs1|]. apply insert_subseteq. rewrite lookup_insert_ne by done. by apply (env_fresh b). }
  assert (grows b ρ b' ρ') as Hg by (split_and!; [by exists [ty1; ty2]|done..]).
  assert (env_ok b' ρ') as Ho'.
  { eapply (env_ok_bind b'); [by eapply env_ok_bind|apply grows_refl|done..]. }
  exists (v1, v2), b', [mkStmt [v1; v2] rv], ρ', s'. split_and!; try done.
  - unfold emit_2ret_stmt, sm_bind at 1. pose proof (emit_stmt_full_spec rv [ty1; ty2] b Ht Hb Hc : emit_stmt_full 2 rv b = _) as E. by rewrite E.
  - apply (pushed_appended rv [ty1; ty2] b).
  - simpl. unfold exec_stmt, sm_bind. simpl. by rewrite He.
  - apply Hp; [done..| | | |].
    + simpl. rewrite length_app. simpl. lia.
    + simpl. rewrite length_app. simpl. lia.
    + split; [done|]. unfold ρ'. by rewrite lookup_insert_ne, lookup_insert_eq.
    + split; [done|]. unfold ρ'. by rewrite lookup_insert_eq.
Qed.

(** ** A rule per emitter *)

Lemma emits_value n b ρ s rv ty x s' Post :
  env_ok b ρ -> budget (S (S n)) b -> type_of rv b = Some ([ty], b) ->
  eval_stmt ρ rv s = Some ([x], s') -> has_type x ty -> Gives n b ρ s' ty x Post ->
  Emits b ρ s (emit_1ret_stmt rv) Post.
Proof.
  intros Ho Hb Ht He Hx Hp. eapply emits_1ret; [done| |done..|].
  - unfold budget in *. lia.
  - intros v b' ρ' Hg Ho' Hl1 Hl2 Hv. apply Hp; try done. unfold budget in *. lia.
Qed.

Lemma emits_pair n b ρ s rv ty1 ty2 x1 x2 s'
    (Post : SSAValue * SSAValue -> ExecIrBuilder -> Env -> World -> Prop) :
  env_ok b ρ -> budget (S (S (S n))) b -> type_of rv b = Some ([ty1; ty2], b) ->
  eval_stmt ρ rv s = Some ([x1; x2], s') -> has_type x1 ty1 -> has_type x2 ty2 ->
  (forall v1 v2 b' ρ', grows b ρ b' ρ' -> env_ok b' ρ' -> budget (S n) b' ->
    holds b' ρ' v1 ty1 x1 -> holds b' ρ' v2 ty2 x2 -> Post (v1, v2) b' ρ' s') ->
  Emits b ρ s (emit_2ret_stmt rv) Post.
Proof.
  intros Ho Hb Ht He Hx1 Hx2 Hp. eapply emits_2ret; [done| |done..|].
  - unfold budget in *. lia.
  - intros v1 v2 b' ρ' Hg Ho' Hl1 Hl2 Hv1 Hv2. apply Hp; try done. unfold budget in *. lia.
Qed.

Lemma emits_effect n b ρ s rv s' (Post : unit -> ExecIrBuilder -> Env -> World -> Prop) :
  env_ok b ρ -> budget (S n) b -> type_of rv b = Some ([], b) -> eval_stmt ρ rv s = Some ([], s') ->
  (forall b', grows b ρ b' ρ -> env_ok b' ρ -> budget n b' -> Post tt b' ρ s') ->
  Emits b ρ s (emit_void_stmt rv) Post.
Proof.
  intros Ho Hb Ht He Hp. eapply emits_void; [done| |done..|].
  - unfold budget in *. lia.
  - intros b' Hg Ho' Hl1 Hl2. apply Hp; try done. unfold budget in *. lia.
Qed.

Lemma emits_iconst n b ρ s c Post :
  env_ok b ρ -> budget (S (S n)) b -> fits (bits (iwidth c)) (ibits c) ->
  Gives n b ρ s (TInt (iwidth c)) (VInt (iwidth c) (ibits c)) Post ->
  Emits b ρ s (iconst c) Post.
Proof. intros. by eapply emits_value. Qed.

Lemma type_of_first rv v b ty :
  arena_get (ssa_values b) v = Some ty ->
  type_of rv b = (let! ty := ty_of v in sm_ret [ty]) b -> type_of rv b = Some ([ty], b).
Proof. intros Hv ->. unfold sm_bind, ty_of, sm_of_option. by rewrite Hv. Qed.

Lemma emits_same_int {A} b ρ s lhs rhs w x y (func : IntWidth -> Build A) Post :
  env_ok b ρ -> holds b ρ lhs (TInt w) x -> holds b ρ rhs (TInt w) y ->
  Emits b ρ s (func w) Post -> Emits b ρ s (emit_same_int_ty_binop lhs rhs func) Post.
Proof.
  intros Ho Hl Hr H. unfold emit_same_int_ty_binop, emit_same_int_ty_imm.
  eapply emits_ty; [done..|]. eapply emits_option; [done|].
  eapply emits_ty; [done..|]. eapply emits_option; [done|].
  apply emits_assert; [by rewrite bool_decide_true|done].
Qed.

Lemma emits_same_int_imm {A} b ρ s lhs w x (func : Build A) Post :
  env_ok b ρ -> holds b ρ lhs (TInt w) x ->
  Emits b ρ s func Post -> Emits b ρ s (emit_same_int_ty_imm lhs w func) Post.
Proof.
  intros Ho Hl H. unfold emit_same_int_ty_imm.
  eapply emits_ty; [done..|]. eapply emits_option; [done|].
  apply emits_assert; [by rewrite bool_decide_true|done].
Qed.

(** Evaluates an expression whose operands are known. *)
Ltac eval_known :=
  unfold sm_bind, lookup_value, sm_of_option, sm_ret, sm_assert;
  repeat match goal with H : holds _ _ ?v _ _ |- _ => destruct H as [? ->] end;
  rewrite ?bool_decide_true by done; try done.

Lemma emits_icmp_imm n b ρ s cmp lhs rhs w x Post :
  env_ok b ρ -> budget (S (S n)) b -> holds b ρ lhs (TInt w) (VInt w x) -> iwidth rhs = w ->
  Gives n b ρ s TBool (VBool (eval_cmp (bits w) cmp x (ibits rhs))) Post ->
  Emits b ρ s (icmp_imm cmp lhs rhs) Post.
Proof.
  intros Ho Hb Hl <- Hp. unfold icmp_imm. eapply emits_same_int_imm; [done..|].
  eapply emits_value; [..|exact Hp]; try done. simpl. eval_known.
Qed.

Lemma emits_icmp n b ρ s cmp lhs rhs w x y Post :
  env_ok b ρ -> budget (S (S n)) b -> holds b ρ lhs (TInt w) (VInt w x) -> holds b ρ rhs (TInt w) (VInt w y) ->
  Gives n b ρ s TBool (VBool (eval_cmp (bits w) cmp x y)) Post ->
  Emits b ρ s (icmp cmp lhs rhs) Post.
Proof.
  intros Ho Hb Hl Hr Hp. unfold icmp. eapply emits_same_int; [done..|].
  eapply emits_value; [..|exact Hp]; try done. simpl. eval_known.
Qed.

Lemma holds_has_type b ρ v ty x : env_ok b ρ -> holds b ρ v ty x -> has_type x ty.
Proof. intros [_ H] [Ht Hx]. destruct (H v x Hx) as (ty' & ? & ?). congruence. Qed.

Lemma emits_select n b ρ s cond if_true if_false c ty x y Post :
  env_ok b ρ -> budget (S (S n)) b -> holds b ρ cond TBool (VBool c) ->
  holds b ρ if_true ty x -> holds b ρ if_false ty y ->
  Gives n b ρ s ty (if c then x else y) Post ->
  Emits b ρ s (select cond if_true if_false) Post.
Proof.
  intros Ho Hb Hc Ht Hf Hp. pose proof (holds_has_type _ _ _ _ _ Ho Ht). pose proof (holds_has_type _ _ _ _ _ Ho Hf).
  unfold select. eapply emits_ty; [done..|]. apply emits_assert; [done|].
  eapply emits_ty; [done..|]. eapply emits_ty; [done..|].
  apply emits_assert; [by rewrite bool_decide_true|].
  eapply emits_value; [..|exact Hp]; try done.
  - eapply (type_of_first _ if_true); [apply Ht|done].
  - simpl. eval_known.
  - by destruct c.
Qed.

Lemma emits_select_int n b ρ s cond if_true if_false c w x y Post :
  env_ok b ρ -> budget (S (S n)) b -> holds b ρ cond TBool (VBool c) ->
  holds b ρ if_true (TInt w) (VInt w x) -> holds b ρ if_false (TInt w) (VInt w y) ->
  Gives n b ρ s (TInt w) (VInt w (if c then x else y)) Post ->
  Emits b ρ s (select cond if_true if_false) Post.
Proof.
  intros Ho Hb Hc Ht Hf Hp. eapply emits_select; try done. by destruct c.
Qed.

Lemma eval_bitwise_fits w op a b : 0 <= w -> fits w a -> fits w b -> fits w (eval_bitwise op a b).
Proof.
  intros Hw Ha Hb. destruct op; simpl.
  - apply land_fits_l; [done..|]. unfold fits in Hb. lia.
  - by apply lor_fits.
  - apply fits_of_testbit; [done| |].
    + apply Z.lxor_nonneg. unfold fits in *. lia.
    + intros i Hi. by rewrite Z.lxor_spec, !(fits_testbit_high w) by done.
Qed.

Lemma bits_nonneg w : 0 <= bits w.
Proof. by destruct w. Qed.

Lemma emits_bitwise n b ρ s op lhs rhs w x y Post :
  env_ok b ρ -> budget (S (S n)) b -> holds b ρ lhs (TInt w) (VInt w x) -> holds b ρ rhs (TInt w) (VInt w y) ->
  Gives n b ρ s (TInt w) (VInt w (eval_bitwise op x y)) Post ->
  Emits b ρ s (emit_bitwise op lhs rhs) Post.
Proof.
  intros Ho Hb Hl Hr Hp. pose proof (holds_has_type _ _ _ _ _ Ho Hl) as [_ Hx].
  pose proof (holds_has_type _ _ _ _ _ Ho Hr) as [_ Hy].
  unfold emit_bitwise. eapply emits_ty; [done..|]. eapply emits_ty; [done..|].
  simpl. rewrite decide_True by done. eapply emits_value; [..|exact Hp]; try done.
  - eapply (type_of_first _ lhs); [apply Hl|done].
  - simpl. eval_known.
  - split; [done|]. apply eval_bitwise_fits; [apply bits_nonneg|done..].
Qed.

Lemma emits_bitwise_bool n b ρ s op lhs rhs x y Post :
  env_ok b ρ -> budget (S (S n)) b -> holds b ρ lhs TBool (VBool x) -> holds b ρ rhs TBool (VBool y) ->
  Gives n b ρ s TBool (VBool (eval_bitwise_bool op x y)) Post ->
  Emits b ρ s (emit_bitwise op lhs rhs) Post.
Proof.
  intros Ho Hb Hl Hr Hp.
  unfold emit_bitwise. eapply emits_ty; [done..|]. eapply emits_ty; [done..|].
  simpl. eapply emits_value; [..|exact Hp]; try done.
  - eapply (type_of_first _ lhs); [apply Hl|done].
  - simpl. eval_known.
Qed.

Lemma emits_bitwise_imm n b ρ s op lhs w x c Post :
  env_ok b ρ -> budget (S (S n)) b -> holds b ρ lhs (TInt w) (VInt w x) -> iwidth c = w ->
  fits (bits w) (ibits c) ->
  Gives n b ρ s (TInt w) (VInt w (eval_bitwise op x (ibits c))) Post ->
  Emits b ρ s (emit_bitwise_imm op lhs c) Post.
Proof.
  intros Ho Hb Hl <- Hc Hp. pose proof (holds_has_type _ _ _ _ _ Ho Hl) as [_ Hx].
  unfold emit_bitwise_imm. eapply emits_ty; [done..|].
  simpl. rewrite decide_True by done. eapply emits_value; [..|exact Hp]; try done.
  - eapply (type_of_first _ lhs); [apply Hl|done].
  - simpl. eval_known.
  - split; [done|]. apply eval_bitwise_fits; [apply bits_nonneg|done..].
Qed.

(** An arithmetic statement on operands for which it is defined. *)
Lemma emits_arith n b ρ s op lhs rhs w x y r Post :
  env_ok b ρ -> budget (S (S n)) b -> holds b ρ lhs (TInt w) (VInt w x) -> holds b ρ rhs (TInt w) (VInt w y) ->
  eval_arith (bits w) op x y = Some r -> fits (bits w) r ->
  Gives n b ρ s (TInt w) (VInt w r) Post ->
  Emits b ρ s (emit_1ret_stmt (KArithBinOp op lhs rhs)) Post.
Proof.
  intros Ho Hb Hl Hr He Hf Hp. eapply emits_value; [..|exact Hp]; try done.
  - eapply (type_of_first _ lhs); [apply Hl|done].
  - simpl. eval_known. by rewrite He.
Qed.
End Logic.

(** Carries what is known about values over to the grown builder. *)
Ltac carry Hg :=
  match type of Hg with
  | grows ?b ?ρ ?b' ?ρ' =>
      repeat match goal with
        | H : holds b ρ _ _ _ |- _ => apply (holds_mono _ _ _ _ _ _ _ Hg) in H
        end
  end.

(** One emitter: applies its rule, names the new value and carries the rest. *)
Tactic Notation "emit" uconstr(rule) "as" ident(v) ident(H) :=
  apply emits_bind; eapply rule; [eassumption|eassumption|..];
  match goal with
  | |- context [grows] =>
      let Hg := fresh "Hg" in let Ho := fresh "Ho" in let Hb := fresh "Hb" in
      intros v ? ? Hg Ho Hb H; cbn [iwidth ibits Const.zero Const.one Const.unsigned] in H; carry Hg
  | |- _ => idtac
  end.

(** Composes the growth of a sequence of emitters. *)
Ltac chain_grows := repeat (eapply grows_trans; [eassumption|]); apply grows_refl.
