(* ===== verification/IrArith.v ===== *)
(** * Arithmetic, flags and shifts mean what the guest expects

    The emitters for division, the flag-setting additions and subtractions and
    the shifts by constants, against the definitions of the architecture: the
    statements they emit never run into the undefined behaviour of the unchecked
    operations and compute the architecture's result. *)

From S2P Require Import Prelude Convert HaltReason MemTypes Fault Memops ObjectQueue Fabric PageTable IoMMU.
From S2P Require Import ExclusiveMonitor LookupCache MemAccess FfiSupport Arena Ir IrSem IrEmit IrLogic.
Local Open Scope Z_scope.
Local Open Scope emu_scope.

(** ** The architecture's definitions *)

(** [UDIV] and [SDIV]: a zero divisor gives zero, the signed quotient is rounded
    towards zero and cut to the width. *)
Definition arm_udiv (x y : Z) : Z := if y =? 0 then 0 else x / y.
Definition arm_sdiv (w x y : Z) : Z :=
  if sgn w y =? 0 then 0 else wrap w (Z.quot (sgn w x) (sgn w y)).

(** [AddWithCarry]: the result and the flags N, Z, C, V. *)
Record Flags4 := mkFlags4 { flag_n : bool; flag_z : bool; flag_c : bool; flag_v : bool }.

Definition AddWithCarry (w x y : Z) (carry_in : Z) : Z * Flags4 :=
  let unsigned_sum := x + y + carry_in in
  let signed_sum := sgn w x + sgn w y + carry_in in
  let result := wrap w unsigned_sum in
  (result, mkFlags4 (Z.testbit result (w - 1)) (result =? 0)
             (negb (result =? unsigned_sum)) (negb (sgn w result =? signed_sum))).

(** [ADDS] and [SUBS]. *)
Definition arm_adds (w x y : Z) := AddWithCarry w x y 0.
Definition arm_subs (w x y : Z) := AddWithCarry w x (bitnot w y) 1.

(** [PSTATE] with new condition flags. *)
Definition with_flags (pstate : Z) (f : Flags4) : Z :=
  Z.lor (Z.land pstate (bitnot 32 NZCV_MASK))
    (Z.lor (Z.lor (if flag_n f then PSTATE_N else 0) (if flag_z f then PSTATE_Z else 0))
           (Z.lor (if flag_c f then PSTATE_C else 0) (if flag_v f then PSTATE_V else 0))).

(** ** Signed integers *)

Lemma sgn_bound w z : 1 <= w -> fits w z -> - 2 ^ (w - 1) <= sgn w z < 2 ^ (w - 1).
Proof.
  intros Hw [? Hz]. unfold sgn. replace w with (w - 1 + 1) in Hz by lia.
  rewrite Z.pow_add_r in Hz by lia. change (2 ^ 1) with 2 in Hz.
  destruct (Z.ltb_spec z (2 ^ (w - 1))); [lia|].
  replace (2 ^ w) with (2 * 2 ^ (w - 1)); [lia|].
  rewrite <- Z.pow_succ_r by lia. f_equal. lia.
Qed.

Lemma pow_half w : 1 <= w -> 2 ^ w = 2 * 2 ^ (w - 1).
Proof. intros. rewrite <- Z.pow_succ_r by lia. f_equal. lia. Qed.

Lemma sgn_wrap w z : 1 <= w -> fits w z -> wrap w (sgn w z) = z.
Proof.
  intros Hw Hz. unfold sgn, wrap. destruct (z <? 2 ^ (w - 1)).
  - by apply Z.mod_small.
  - replace (z - 2 ^ w) with (z + (-1) * 2 ^ w) by lia.
    rewrite Z.mod_add by (apply Z.pow_nonzero; lia). by apply Z.mod_small.
Qed.

Lemma sgn_inj w x y : 1 <= w -> fits w x -> fits w y -> sgn w x = sgn w y -> x = y.
Proof. intros Hw Hx Hy H. by rewrite <- (sgn_wrap w x), H, sgn_wrap. Qed.

(** The sign of a wrapped sum. *)
Lemma sgn_of_wrap w z :
  1 <= w -> - 2 ^ (w - 1) <= z < 2 ^ (w - 1) -> sgn w (wrap w z) = z.
Proof.
  intros Hw Hz. unfold sgn, wrap. pose proof (pow_half w Hw).
  destruct (decide (0 <= z)).
  - rewrite Z.mod_small by lia. destruct (Z.ltb_spec z (2 ^ (w - 1))); lia.
  - assert (z mod 2 ^ w = z + 2 ^ w) as ->.
    { rewrite <- (Z.mod_add z 1), Z.mul_1_l by lia. apply Z.mod_small. lia. }
    destruct (Z.ltb_spec (z + 2 ^ w) (2 ^ (w - 1))); lia.
Qed.

Lemma width_pos w : 1 <= bits w /\ 0 <= bits w.
Proof. by destruct w. Qed.

Lemma min_negative_sgn w x : fits (bits w) x ->
  (x =? ibits (Const.min_negative w)) = (sgn (bits w) x =? - 2 ^ (bits w - 1)).
Proof.
  intros Hx. pose proof (width_pos w) as [Hw _].
  assert (ibits (Const.min_negative w) = 2 ^ (bits w - 1)) as -> by by destruct w.
  pose proof (pow_half _ Hw). unfold sgn, fits in *.
  destruct (Z.ltb_spec x (2 ^ (bits w - 1))).
  - rewrite (proj2 (Z.eqb_neq x _)) by lia. symmetry. apply Z.eqb_neq. lia.
  - destruct (Z.eqb_spec x (2 ^ (bits w - 1))); symmetry; [apply Z.eqb_eq|apply Z.eqb_neq]; lia.
Qed.

Lemma negative_one_sgn w x : fits (bits w) x ->
  (x =? ibits (Const.negative_one w)) = (sgn (bits w) x =? -1).
Proof.
  intros Hx. pose proof (width_pos w) as [Hw _].
  assert (ibits (Const.negative_one w) = 2 ^ bits w - 1) as -> by by destruct w.
  pose proof (pow_half _ Hw). unfold sgn, fits in *.
  destruct (Z.ltb_spec x (2 ^ (bits w - 1))).
  - rewrite (proj2 (Z.eqb_neq x _)) by lia. symmetry. apply Z.eqb_neq. lia.
  - destruct (Z.eqb_spec x (2 ^ bits w - 1)); symmetry; [apply Z.eqb_eq|apply Z.eqb_neq]; lia.
Qed.

Lemma const_fits w :
  fits (bits w) (ibits (Const.zero w)) /\ fits (bits w) (ibits (Const.one w)).
Proof. by destruct w. Qed.

(** With the divisor [sdiv] uses, the unchecked division is defined. *)
Lemma sdiv_defined w x y :
  fits (bits w) x -> fits (bits w) y ->
  let safe := if (y =? 0) || ((x =? ibits (Const.min_negative w)) && (y =? ibits (Const.negative_one w)))
    then 1 else y in
  exists q, eval_arith (bits w) UncheckedSDiv x safe = Some q /\ fits (bits w) q /\
    (if y =? 0 then 0 else q) = arm_sdiv (bits w) x y.
Proof.
  intros Hx Hy. pose proof (width_pos w) as [Hw Hw0]. cbv zeta.
  rewrite min_negative_sgn, negative_one_sgn by done.
  pose proof (sgn_bound _ x Hw Hx) as Bx. pose proof (sgn_bound _ y Hw Hy) as By.
  assert (fits (bits w) 1 /\ sgn (bits w) 1 = 1) as [F1 S1] by by destruct w.
  assert ((y =? 0) = (sgn (bits w) y =? 0)) as Ey.
  { destruct (Z.eqb_spec y 0) as [->|Hne]; [by destruct w|]. symmetry. apply Z.eqb_neq. intros H.
    apply Hne, (sgn_inj (bits w)); [done|done|by destruct w|]. rewrite H. by destruct w. }
  unfold arm_sdiv, eval_arith. rewrite Ey. destruct (Z.eqb_spec (sgn (bits w) y) 0) as [Hy0|Hy0]; simpl.
  { rewrite S1. rewrite andb_false_r. eexists. split_and!; [done|by apply wrap_fits|done]. }
  destruct ((sgn (bits w) x =? - 2 ^ (bits w - 1)) && (sgn (bits w) y =? -1)) eqn:Ho; simpl.
  - rewrite S1, andb_false_r. simpl. apply andb_true_iff in Ho as [Ho1 Ho2].
    apply Z.eqb_eq in Ho1, Ho2. eexists. split_and!; [done|by apply wrap_fits|].
    rewrite Ho1, Ho2, Z.quot_1_r. change (-1) with (- (1)). rewrite Z.quot_opp_r, Z.quot_1_r by done.
    rewrite Z.opp_involutive. pose proof (pow_half _ Hw). unfold wrap.
    rewrite <- (Z.mod_add (- 2 ^ (bits w - 1)) 1) by lia. f_equal. lia.
  - rewrite Ey, Ho. eexists. split_and!; [done|by apply wrap_fits|done].
Qed.

(** ** The register file *)

(** Replacing [x] bytes at [i]. *)
Lemma splice_lookup {A} (l x : list A) i k :
  (i + length x <= length l)%nat ->
  (take i l ++ x ++ drop (i + length x) l) !! k =
  if decide (i <= k < i + length x)%nat then x !! (k - i)%nat else l !! k.
Proof.
  intros Hl. assert (length (take i l) = i) as Ht by (rewrite length_take; lia).
  destruct (decide (k < i)%nat).
  { rewrite lookup_app_l, lookup_take_lt, decide_False by lia. done. }
  rewrite lookup_app_r, Ht by lia. destruct (decide (k < i + length x)%nat).
  { rewrite lookup_app_l, decide_True by lia. done. }
  rewrite lookup_app_r, lookup_drop, decide_False by lia. f_equal. lia.
Qed.

Lemma take_drop_ext {A} (l l' : list A) m j :
  (forall k, (j <= k < j + m)%nat -> l' !! k = l !! k) -> take m (drop j l') = take m (drop j l).
Proof.
  intros H. apply list_eq. intros k. destruct (decide (k < m)%nat).
  - rewrite !lookup_take_lt, !lookup_drop by done. apply H. lia.
  - by rewrite !lookup_take_ge by lia.
Qed.

(** The word of [n] bytes at an offset. *)
Definition word_at (e : Endian) (n : nat) (offset : Z) (l : list Z) : Z :=
  from_ne_bytes e (take n (drop (Z.to_nat offset) l)).

Definition in_range (ly : Layout) (offset : Z) (n : nat) : Prop :=
  0 <= offset /\ offset + Z.of_nat n <= state_size ly.

Definition registers_ok (ly : Layout) (l : list Z) : Prop :=
  length l = Z.to_nat (state_size ly) /\ Forall is_byte l.

(** [l'] differs from [l] in the word at [offset] only, which holds [v]. *)
Definition updated (e : Endian) (ly : Layout) (n : nat) (offset v : Z) (l l' : list Z) : Prop :=
  registers_ok ly l' /\ word_at e n offset l' = v /\
  forall m o, in_range ly o m -> o + Z.of_nat m <= offset \/ offset + Z.of_nat n <= o ->
    word_at e m o l' = word_at e m o l.

Lemma word_at_fits e ly n offset l :
  registers_ok ly l -> in_range ly offset n -> fits (bits_of_bytes n) (word_at e n offset l).
Proof.
  intros [Hl Hb] [H0 Hn]. unfold word_at.
  assert (length (take n (drop (Z.to_nat offset) l)) = n) as E by (rewrite length_take, length_drop; lia).
  assert (Forall is_byte (take n (drop (Z.to_nat offset) l))) as F by by apply Forall_take, Forall_drop.
  destruct e; simpl.
  - rewrite <- E at 1. by apply from_le_bytes_fits.
  - rewrite <- E at 1. rewrite <- length_rev. by apply from_le_bytes_fits, Forall_rev.
Qed.

Section State.
Context {Error : Type} (e : Endian) (ly : Layout) (io_mmu : IoMMU).
Abbreviation World := (World (Error := Error)).

Lemma read_registers_spec (s : World) n offset :
  registers_ok ly (registers s) -> in_range ly offset n ->
  read_registers e n offset s = Some (word_at e n offset (registers s), s).
Proof.
  intros [Hl _] [H0 Hn]. unfold read_registers. rewrite (proj2 (Z.leb_le 0 offset)) by done.
  rewrite length_take, length_drop. rewrite (proj2 (Nat.eqb_eq _ n)) by lia. done.
Qed.

Lemma write_registers_spec (s : World) n offset v :
  registers_ok ly (registers s) -> in_range ly offset n -> fits (bits_of_bytes n) v ->
  exists l, write_registers e n offset v s = Some (tt, set_registers l s) /\
    updated e ly n offset v (registers s) l.
Proof.
  intros [Hl Hb] [H0 Hn] Hv. unfold write_registers. rewrite (proj2 (Z.leb_le 0 offset)) by done.
  rewrite (proj2 (Nat.leb_le _ _)) by lia. simpl. eexists. split; [done|].
  pose proof (length_to_ne_bytes e n v) as Hx.
  set (x := to_ne_bytes e n v) in *. set (i := Z.to_nat offset).
  assert (i + length x <= length (registers s))%nat as Hi by lia.
  split_and!; [split| |].
  - rewrite !length_app, length_take, length_drop. lia.
  - repeat apply Forall_app_2; [by apply Forall_take|apply to_ne_bytes_is_byte|by apply Forall_drop].
  - unfold word_at. fold i. rewrite drop_app_length' by (rewrite length_take; lia).
    rewrite take_app_length' by done. by apply from_to_ne_bytes.
  - intros m o [Ho Hm] Hd. unfold word_at. f_equal. apply take_drop_ext. intros k Hk.
    rewrite <- Hx, splice_lookup, decide_False by (unfold i in *; lia). done.
Qed.
End State.

Lemma pstate_in_range ly : layout_ok ly -> in_range ly (off_pstate ly) 4.
Proof.
  intros H. pose proof (state_fields_in ly H) as Hf.
  apply (Forall_lookup_1 _ _ 2%nat (off_pstate ly, 4)) in Hf; [|done]. simpl in Hf. unfold in_range. lia.
Qed.

(** ** Flags *)

Lemma sgn_negative w z : 1 <= w -> fits w z -> Z.testbit z (w - 1) = (sgn w z <? 0).
Proof.
  intros Hw [H0 Hz]. rewrite (pow_half w Hw) in Hz. unfold sgn. rewrite (pow_half w Hw).
  rewrite Z.testbit_eqb by lia. destruct (Z.ltb_spec z (2 ^ (w - 1))).
  - rewrite Z.div_small by lia. symmetry. apply Z.ltb_ge. lia.
  - rewrite <- (Z.div_unique z (2 ^ (w - 1)) 1 (z - 2 ^ (w - 1))) by lia.
    symmetry. apply Z.ltb_lt. lia.
Qed.

Lemma bitnot_value_sub w y : 0 <= w -> fits w y -> bitnot w y = 2 ^ w - 1 - y.
Proof.
  intros Hw Hy. replace (2 ^ w - 1 - y) with (Z.ones w - y) by (rewrite Z.ones_equiv; lia).
  assert (forall i, 0 <= i -> Z.testbit y i && negb (Z.testbit (Z.ones w) i) = false) as Hb.
  { intros i Hi. rewrite Z.testbit_ones by lia. rewrite (proj2 (Z.leb_le 0 i)) by done. simpl.
    destruct (Z.ltb_spec i w); [apply andb_false_r|]. by rewrite (fits_testbit_high w). }
  rewrite Z.sub_nocarry_ldiff.
  - apply Z.bits_inj'. intros i Hi. specialize (Hb i Hi). unfold bitnot.
    rewrite Z.lxor_spec, Z.ldiff_spec.
    by destruct (Z.testbit y i), (Z.testbit (Z.ones w) i).
  - apply Z.bits_inj'. intros i Hi. by rewrite Z.ldiff_spec, Z.testbit_0_l, Hb.
Qed.

Lemma arm_adds_flags w x y :
  1 <= w -> fits w x -> fits w y ->
  arm_adds w x y = (wrapping_add w x y,
    mkFlags4 (sgn w (wrapping_add w x y) <? 0) (wrapping_add w x y =? 0)
      (wrapping_add w x y <? x) (negb (signed_in_range w (sgn w x + sgn w y)))).
Proof.
  intros Hw Hx Hy. unfold arm_adds, AddWithCarry. rewrite !Z.add_0_r.
  fold (wrapping_add w x y). f_equal.
  assert (fits w (wrapping_add w x y)) as Hr by (apply wrap_fits; lia).
  f_equal; [by apply sgn_negative| |].
  - unfold wrapping_add, wrap, fits in *. destruct (decide (x + y < 2 ^ w)) as [Hs|Hs].
    + rewrite Z.mod_small by lia. rewrite Z.eqb_refl. symmetry. apply Z.ltb_ge. lia.
    + assert ((x + y) mod 2 ^ w = x + y - 2 ^ w) as ->.
      { rewrite <- (Z.mod_add _ (-1)) by lia. rewrite Z.mod_small; lia. }
      rewrite (proj2 (Z.eqb_neq _ _)) by lia. symmetry. apply Z.ltb_lt. lia.
  - f_equal. apply eq_true_iff_eq. unfold signed_in_range.
    rewrite Z.eqb_eq, andb_true_iff, Z.leb_le, Z.ltb_lt. split.
    + intros E. pose proof (sgn_bound w _ Hw Hr). lia.
    + intros E. rewrite <- (sgn_of_wrap w (sgn w x + sgn w y)) by done. f_equal.
      unfold wrapping_add. rewrite <- (sgn_wrap w x), <- (sgn_wrap w y) at 1 by done.
      unfold wrap. by rewrite <- Z.add_mod by (apply Z.pow_nonzero; lia).
Qed.

Lemma arm_subs_flags w x y :
  1 <= w -> fits w x -> fits w y ->
  arm_subs w x y = (wrapping_sub w x y,
    mkFlags4 (sgn w (wrapping_sub w x y) <? 0) (wrapping_sub w x y =? 0)
      (y <=? x) (negb (signed_in_range w (sgn w x - sgn w y)))).
Proof.
  intros Hw Hx Hy. unfold arm_subs, AddWithCarry. rewrite bitnot_value_sub by (done || lia).
  assert (wrap w (x + (2 ^ w - 1 - y) + 1) = wrapping_sub w x y) as ->.
  { unfold wrapping_sub, wrap. replace (x + (2 ^ w - 1 - y) + 1) with (x - y + 1 * 2 ^ w) by lia.
    apply Z.mod_add, Z.pow_nonzero; lia. }
  f_equal. assert (fits w (wrapping_sub w x y)) as Hr by (apply wrap_fits; lia).
  f_equal; [by apply sgn_negative| |].
  - unfold wrapping_sub, wrap, fits in *. destruct (Z.leb_spec y x).
    + rewrite Z.mod_small by lia. rewrite (proj2 (Z.eqb_neq _ _)) by lia. done.
    + assert ((x - y) mod 2 ^ w = x - y + 2 ^ w) as ->.
      { rewrite <- (Z.mod_add _ 1) by lia. rewrite Z.mod_small; lia. }
      rewrite (proj2 (Z.eqb_eq _ _)) by lia. done.
  - f_equal. assert (sgn w (2 ^ w - 1 - y) = - 1 - sgn w y) as ->.
    { pose proof (pow_half w Hw). unfold sgn, fits in *.
      destruct (Z.ltb_spec y (2 ^ (w - 1))), (Z.ltb_spec (2 ^ w - 1 - y) (2 ^ (w - 1))); lia. }
    replace (sgn w x + (-1 - sgn w y) + 1) with (sgn w x - sgn w y) by lia.
    apply eq_true_iff_eq. unfold signed_in_range.
    rewrite Z.eqb_eq, andb_true_iff, Z.leb_le, Z.ltb_lt. split.
    + intros E. pose proof (sgn_bound w _ Hw Hr). lia.
    + intros E. rewrite <- (sgn_of_wrap w (sgn w x - sgn w y)) by done. f_equal.
      unfold wrapping_sub. rewrite <- (sgn_wrap w x), <- (sgn_wrap w y) at 1 by done.
      unfold wrap. by rewrite <- Zminus_mod.
Qed.

Section Arith.
Context {Error : Type} (e : Endian) (ly : Layout) (io_mmu : IoMMU).

Abbreviation Emits := (Emits (Error := Error) e ly io_mmu).

(** ** Division *)

Lemma udiv_emits n b ρ s lhs rhs w x y :
  env_ok b ρ -> budget (7 + n) b -> holds b ρ lhs (TInt w) (VInt w x) -> holds b ρ rhs (TInt w) (VInt w y) ->
  Emits b ρ s (udiv lhs rhs) (fun q b' ρ' s' =>
    s' = s /\ holds b' ρ' q (TInt w) (VInt w (arm_udiv x y)) /\ budget (S n) b').
Proof.
  intros Ho Hb Hx Hy. pose proof (holds_has_type _ _ _ _ _ Ho Hx) as [_ Fx].
  pose proof (holds_has_type _ _ _ _ _ Ho Hy) as [_ Fy].
  simpl in Hb. unfold udiv. eapply emits_same_int; [done..|].
  emit emits_iconst as zero Hz; [apply const_fits|].
  emit emits_iconst as one Hone; [apply const_fits|].
  emit emits_icmp_imm as rhs_is_zero Hrz; [done|done|].
  emit emits_select_int as safe_rhs Hs; [done..|].
  assert (exists q, eval_arith (bits w) UncheckedUDiv x (if y =? 0 then 1 else y) = Some q /\
    fits (bits w) q /\ (if y =? 0 then 0 else q) = arm_udiv x y) as (q & Eq & Fq & Hq).
  { unfold arm_udiv, fits in *. simpl. destruct (Z.eqb_spec y 0) as [->|]; simpl.
    - exists x. rewrite Z.div_1_r. split_and!; [done|lia..].
    - rewrite (proj2 (Z.eqb_neq y 0)) by done. exists (x / y). split_and!; [done|apply Z.div_pos; lia| |done].
      apply Z.div_lt_upper_bound; [lia|nia]. }
  emit emits_arith as quotient Hq'; [done..|].
  eapply emits_select_int; [eassumption|eassumption|done..|].
  intros v bq ρq _ _ Hbq Hv. split_and!; [done| |done]. simpl in Hv. by rewrite Hq in Hv.
Qed.

Lemma sdiv_emits n b ρ s lhs rhs w x y :
  env_ok b ρ -> budget (11 + n) b -> holds b ρ lhs (TInt w) (VInt w x) -> holds b ρ rhs (TInt w) (VInt w y) ->
  Emits b ρ s (sdiv lhs rhs) (fun q b' ρ' s' =>
    s' = s /\ holds b' ρ' q (TInt w) (VInt w (arm_sdiv (bits w) x y)) /\ budget (S n) b').
Proof.
  intros Ho Hb Hx Hy. pose proof (holds_has_type _ _ _ _ _ Ho Hx) as [_ Fx].
  pose proof (holds_has_type _ _ _ _ _ Ho Hy) as [_ Fy].
  simpl in Hb. unfold sdiv. eapply emits_same_int; [done..|].
  emit emits_iconst as zero Hz; [apply const_fits|].
  emit emits_iconst as one Hone; [apply const_fits|].
  emit emits_icmp_imm as rhs_is_zero Hrz; [done|done|].
  emit emits_icmp_imm as lhs_is_min Hlm; [done|done|].
  emit emits_icmp_imm as rhs_is_minus_one Hrm; [done|done|].
  emit emits_bitwise_bool as is_overflow Hov; [done..|].
  emit emits_bitwise_bool as use_safe_rhs Hus; [done..|].
  emit emits_select_int as safe_rhs Hs; [done..|].
  destruct (sdiv_defined w x y Fx Fy) as (q & Eq & Fq & Hq).
  emit emits_arith as quotient Hq'; [done..|].
  eapply emits_select_int; [eassumption|eassumption|done..|].
  intros v bq ρq _ _ Hbq Hv. split_and!; [done| |done]. simpl in Hv. by rewrite Hq in Hv.
Qed.

(** ** Flag-setting arithmetic *)

(** [PSTATE] is updated, and nothing else of the state. *)
Definition pstate_set (v : Z) (s s' : World (Error := Error)) : Prop :=
  exists l, s' = set_registers l s /\ updated e ly 4 (off_pstate ly) v (registers s) l.

Lemma flag_bits_fit :
  fits 32 0 /\ fits 32 PSTATE_N /\ fits 32 PSTATE_Z /\ fits 32 PSTATE_C /\ fits 32 PSTATE_V /\
  fits 32 (bitnot 32 NZCV_MASK).
Proof. repeat split; by vm_compute. Qed.

Lemma load_pstate_emits n b ρ s Post :
  layout_ok ly -> env_ok b ρ -> budget (S (S n)) b -> registers_ok ly (registers s) ->
  holds b ρ ARG_EXEC_STATE (THostPtr RExecState) (VPtr PExecState) ->
  Gives n b ρ s (TInt W32) (VInt W32 (word_at e 4 (off_pstate ly) (registers s))) Post ->
  Emits b ρ s (load_pstate ly) Post.
Proof.
  intros Hly Ho Hb Hs Ha Hp. pose proof (pstate_in_range ly Hly) as Hr.
  eapply emits_value; [..|exact Hp]; try done.
  - simpl. unfold sm_bind, lookup_value, sm_of_option. destruct Ha as [_ ->]. simpl.
    unfold sm_bind. by rewrite (read_registers_spec e ly).
  - split; [done|]. by eapply (word_at_fits e ly 4).
Qed.

Lemma store_pstate_emits n b ρ s v x (Post : unit -> ExecIrBuilder -> Env -> World -> Prop) :
  layout_ok ly -> env_ok b ρ -> budget (S n) b -> registers_ok ly (registers s) ->
  holds b ρ ARG_EXEC_STATE (THostPtr RExecState) (VPtr PExecState) ->
  holds b ρ v (TInt W32) (VInt W32 x) ->
  (forall b' s', grows b ρ b' ρ -> env_ok b' ρ -> budget n b' -> pstate_set x s s' -> Post tt b' ρ s') ->
  Emits b ρ s (store_pstate ly v) Post.
Proof.
  intros Hly Ho Hb Hs Ha Hv Hp. pose proof (holds_has_type _ _ _ _ _ Ho Hv) as [_ Fx].
  destruct (write_registers_spec e ly s 4 (off_pstate ly) x) as (l & Hw & Hu);
    [done|by apply pstate_in_range|done|].
  unfold store_pstate. eapply emits_ty; [done..|]. apply emits_assert; [by rewrite bool_decide_true|].
  eapply emits_effect; [done..| |].
  - simpl. unfold sm_bind, lookup_value, sm_of_option. destruct Ha as [_ ->], Hv as [_ ->]. simpl.
    change (width_bytes W32) with 4%nat. by rewrite Hw.
  - intros b' Hg Ho' Hb'. apply Hp; [done..|]. by exists l.
Qed.

Lemma set_nzcv_flags_emits n b ρ s vn vz vc vv f (Post : unit -> ExecIrBuilder -> Env -> World -> Prop) :
  layout_ok ly -> env_ok b ρ -> budget (16 + n) b -> registers_ok ly (registers s) ->
  holds b ρ ARG_EXEC_STATE (THostPtr RExecState) (VPtr PExecState) ->
  holds b ρ vn TBool (VBool (flag_n f)) -> holds b ρ vz TBool (VBool (flag_z f)) ->
  holds b ρ vc TBool (VBool (flag_c f)) -> holds b ρ vv TBool (VBool (flag_v f)) ->
  (forall b' ρ' s', grows b ρ b' ρ' -> env_ok b' ρ' -> budget n b' ->
    pstate_set (with_flags (word_at e 4 (off_pstate ly) (registers s)) f) s s' -> Post tt b' ρ' s') ->
  Emits b ρ s (set_nzcv_flags ly vn vz vc vv) Post.
Proof.
  intros Hly Ho Hb Hs Ha Hn Hz Hc Hv Hp. simpl in Hb.
  destruct flag_bits_fit as (F0 & FN & FZ & FC & FV & FM). unfold set_nzcv_flags.
  apply emits_bind. eapply load_pstate_emits; [done..|].
  intros old b1 ρ1 Hg1 Ho1 Hb1 Hold. carry Hg1.
  emit emits_iconst as zeroed Hzero; [done|].
  emit emits_iconst as nt Hnt; [done|].
  emit emits_iconst as zt Hzt; [done|].
  emit emits_iconst as ct Hct; [done|].
  emit emits_iconst as vt Hvt; [done|].
  emit emits_select_int as nf Hnf; [done..|].
  emit emits_select_int as zf Hzf; [done..|].
  emit emits_select_int as cf Hcf; [done..|].
  emit emits_select_int as vf Hvf; [done..|].
  emit emits_bitwise as nz Hnz; [done..|].
  emit emits_bitwise as cv Hcv; [done..|].
  emit emits_bitwise as nzcv Hnzcv; [done..|].
  emit emits_bitwise_imm as masked Hm; [done..|].
  emit emits_bitwise as new_flags Hnew; [done..|].
  eapply store_pstate_emits; [done..|]. intros bq sq Hgq Hoq Hbq Hsq.
  apply Hp; [chain_grows|done..].
Qed.
Definition arm_flag_op (op : OverflowingBinOp) (w x y : Z) : Z * Flags4 :=
  match op with OvAdd => arm_adds w x y | OvSub => arm_subs w x y end.

Lemma eval_overflowing_spec w op x y :
  1 <= w -> fits w x -> fits w y ->
  let r := fst (eval_overflowing w op x y) in
  arm_flag_op op w x y = (r,
    mkFlags4 (sgn w r <? 0) (r =? 0)
      (match op with OvAdd => r <? x | OvSub => y <=? x end) (snd (eval_overflowing w op x y))).
Proof. intros. destruct op; [by apply arm_adds_flags|by apply arm_subs_flags]. Qed.

Lemma sgn_zero w : 1 <= w -> sgn w 0 = 0.
Proof. intros. unfold sgn. rewrite (proj2 (Z.ltb_lt _ _)); [done|]. apply Z.pow_pos_nonneg; lia. Qed.

Lemma flag_setting_emits n b ρ s op lhs rhs w x y :
  layout_ok ly -> env_ok b ρ -> budget (22 + n) b -> registers_ok ly (registers s) ->
  holds b ρ ARG_EXEC_STATE (THostPtr RExecState) (VPtr PExecState) ->
  holds b ρ lhs (TInt w) (VInt w x) -> holds b ρ rhs (TInt w) (VInt w y) ->
  Emits b ρ s (emit_flag_setting_binop ly op lhs rhs) (fun q b' ρ' s' =>
    holds b' ρ' q (TInt w) (VInt w (fst (arm_flag_op op (bits w) x y))) /\
    pstate_set (with_flags (word_at e 4 (off_pstate ly) (registers s))
                  (snd (arm_flag_op op (bits w) x y))) s s').
Proof.
  intros Hly Ho Hb Hs Ha Hx Hy. pose proof (width_pos w) as [Hw _]. simpl in Hb.
  pose proof (holds_has_type _ _ _ _ _ Ho Hx) as [_ Fx].
  pose proof (holds_has_type _ _ _ _ _ Ho Hy) as [_ Fy].
  rewrite (eval_overflowing_spec _ op) by done. cbv zeta. cbn [fst snd].
  set (r := (eval_overflowing (bits w) op x y).1).
  assert (fits (bits w) r) as Fr by (destruct op; apply wrap_fits; by apply bits_nonneg).
  unfold emit_flag_setting_binop. apply emits_bind. eapply emits_same_int; [done..|].
  apply emits_bind. eapply (emits_pair _ _ _ _ _ _ _ _ (TInt w) TBool (VInt w r) (VBool (snd (eval_overflowing (bits w) op x y))));
    [done|done| | |done|done|].
  { simpl. unfold sm_bind, ty_of, sm_of_option. by destruct Hx as [-> _]. }
  { simpl. unfold sm_bind, lookup_value, sm_of_option. destruct Hx as [_ ->], Hy as [_ ->].
    unfold sm_assert, sm_ret. rewrite bool_decide_true by done. unfold r.
    by destruct (eval_overflowing (bits w) op x y). }
  intros value overflow b1 ρ1 Hg1 Ho1 Hb1 Hr Hov. carry Hg1.
  apply emits_ret; [done|]. cbv zeta.
  emit emits_icmp_imm as negative Hn; [done|done|].
  emit emits_icmp_imm as zero Hz; [done|done|].
  simpl in Hn. rewrite sgn_zero in Hn by done.
  assert (forall Post, Gives (16 + n) b'0 ρ'0 s TBool
    (VBool (match op with OvAdd => r <? x | OvSub => y <=? x end)) Post ->
    Emits b'0 ρ'0 s (match op with
      | OvAdd => icmp UnsignedLessThan value lhs
      | OvSub => icmp UnsignedGreaterThanOrEqual lhs rhs end) Post) as Hcarry.
  { intros Post HP. destruct op; (eapply emits_icmp; [done..|exact HP]). }
  apply emits_bind, Hcarry. intros carry b3 ρ3 Hg3 Ho3 Hb3 Hc. carry Hg3. simpl in Hb3.
  apply emits_bind.
  eapply (set_nzcv_flags_emits n _ _ _ _ _ _ _
    (mkFlags4 (sgn (bits w) r <? 0) (r =? 0) (match op with OvAdd => r <? x | OvSub => y <=? x end)
       (snd (eval_overflowing (bits w) op x y)))); [done|done| |done..|].
  { unfold budget in *. simpl. lia. }
  intros b4 ρ4 s4 Hg4 Ho4 Hb4 Hs4. carry Hg4. by apply emits_ret.
Qed.

(** ** Shifts by constants *)

(** The mathematical shift, cut to the width. *)
Definition shift_ref (w : Z) (op : ShiftOp) (x n : Z) : Z :=
  match op with
  | Shl => (x * 2 ^ n) mod 2 ^ w
  | ZeroExtendShr => x / 2 ^ n
  | SignExtendShr => (sgn w x / 2 ^ n) mod 2 ^ w
  end.

Lemma eval_shift_ref w op x n : 0 <= n -> eval_shift w op x n = shift_ref w op x n.
Proof.
  intros Hn. destruct op; simpl; unfold wrap.
  - by rewrite Z.shiftr_div_pow2.
  - by rewrite Z.shiftr_div_pow2.
  - by rewrite Z.shiftl_mul_pow2.
Qed.

Lemma shift_ref_fits w op x n : 1 <= w -> 0 <= n -> fits w x -> fits w (shift_ref w op x n).
Proof.
  intros Hw Hn [H0 H1]. destruct op; simpl.
  - apply wrap_fits. lia.
  - assert (0 < 2 ^ n) by by apply Z.pow_pos_nonneg. split; [by apply Z.div_pos|].
    apply Z.div_lt_upper_bound; [done|]. nia.
  - apply wrap_fits. lia.
Qed.

Lemma shift_ref_large w op x n :
  1 <= w -> w <= n -> fits w x ->
  shift_ref w op x n =
  match op with SignExtendShr => shift_ref w op x (w - 1) | ZeroExtendShr | Shl => 0 end.
Proof.
  intros Hw Hn Hx. destruct op; simpl.
  - pose proof (sgn_bound w x Hw Hx) as B. f_equal.
    assert (2 ^ (w - 1) <= 2 ^ n) by (apply Z.pow_le_mono_r; lia).
    destruct (decide (0 <= sgn w x)).
    + by rewrite !Z.div_small by lia.
    + rewrite <- (Z.div_unique (sgn w x) (2 ^ n) (-1) (sgn w x + 2 ^ n)) by lia.
      by rewrite <- (Z.div_unique (sgn w x) (2 ^ (w - 1)) (-1) (sgn w x + 2 ^ (w - 1))) by lia.
  - unfold fits in Hx. apply Z.div_small. assert (2 ^ w <= 2 ^ n) by (apply Z.pow_le_mono_r; lia). lia.
  - replace n with (n - w + w) by lia. rewrite Z.pow_add_r, Z.mul_assoc by lia.
    apply Z.mod_mul, Z.pow_nonzero; lia.
Qed.

Lemma shift_imm_emits n b ρ s op value w x amount Post :
  env_ok b ρ -> budget (S (S n)) b -> holds b ρ value (TInt w) (VInt w x) -> 0 <= amount < bits w ->
  Gives n b ρ s (TInt w) (VInt w (shift_ref (bits w) op x amount)) Post ->
  Emits b ρ s (emit_1ret_stmt (KShiftImm op value amount)) Post.
Proof.
  intros Ho Hb Hv Ha Hp. pose proof (holds_has_type _ _ _ _ _ Ho Hv) as [_ Fx].
  pose proof (width_pos w) as [Hw _].
  eapply emits_value; [..|exact Hp]; try done.
  - eapply (type_of_first _ value); [apply Hv|done].
  - simpl. unfold sm_bind, lookup_value, sm_of_option. destruct Hv as [_ ->].
    unfold sm_assert. rewrite (proj2 (Z.ltb_lt _ _)) by lia. unfold sm_ret.
    by rewrite eval_shift_ref by lia.
  - split; [done|]. apply shift_ref_fits; [done|lia|done].
Qed.

Lemma shift_op_emits b ρ s op value w x bits_fn Post :
  env_ok b ρ -> holds b ρ value (TInt w) (VInt w x) ->
  Emits b ρ s (let! r := sm_of_option (bits_fn w) in
    match r with Ok bits => emit_1ret_stmt (KShiftImm op value bits) | Err c => iconst c end) Post ->
  Emits b ρ s (emit_shift_imm_op op value bits_fn) Post.
Proof.
  intros Ho Hv H. unfold emit_shift_imm_op. eapply emits_ty; [done..|].
  by eapply emits_option.
Qed.
End Arith.

(** ** Properties *)

Section Theorems.
Context {Error : Type} (e : Endian) (ly : Layout) (io_mmu : IoMMU).
Abbreviation Emits := (Emits (Error := Error) e ly io_mmu).

(** C32: division never runs into undefined behaviour.  For two integers of the
    same width, whatever their values, [udiv] and [sdiv] succeed and the
    statements they emit compute the architecture's quotient: zero for a zero
    divisor, the most negative number for the most negative number divided by
    minus one, otherwise the quotient rounded towards zero; no other value and
    nothing of the state changes. *)
Theorem division_correct b ρ s lhs rhs w x y :
  env_ok b ρ -> budget 11 b ->
  holds b ρ lhs (TInt w) (VInt w x) -> holds b ρ rhs (TInt w) (VInt w y) ->
  Emits b ρ s (udiv lhs rhs) (fun q b' ρ' s' =>
    s' = s /\ holds b' ρ' q (TInt w) (VInt w (arm_udiv x y))) /\
  Emits b ρ s (sdiv lhs rhs) (fun q b' ρ' s' =>
    s' = s /\ holds b' ρ' q (TInt w) (VInt w (arm_sdiv (bits w) x y))).
Proof.
  intros Ho Hb Hx Hy. split.
  - eapply emits_impl; [apply (udiv_emits e ly io_mmu 4); eassumption|]. by intros ???? _ _ (? & ? & _).
  - eapply emits_impl; [apply (sdiv_emits e ly io_mmu 0); eassumption|]. by intros ???? _ _ (? & ? & _).
Qed.

(** C33: [iadds] and [isubs] are the architecture's ADDS and SUBS.  They return
    the wrapped result and leave in PSTATE exactly the flags AddWithCarry
    defines -- negative, zero, carry (no borrow, for a subtraction) and signed
    overflow -- with every other bit of PSTATE and every other register as it
    was, at every width and wherever the compiler put the fields. *)
Theorem flag_setting_correct b ρ s lhs rhs w x y :
  layout_ok ly -> env_ok b ρ -> budget 22 b -> registers_ok ly (registers s) ->
  holds b ρ ARG_EXEC_STATE (THostPtr RExecState) (VPtr PExecState) ->
  holds b ρ lhs (TInt w) (VInt w x) -> holds b ρ rhs (TInt w) (VInt w y) ->
  let old := word_at e 4 (off_pstate ly) (registers s) in
  Emits b ρ s (iadds ly lhs rhs) (fun q b' ρ' s' =>
    let (r, f) := arm_adds (bits w) x y in
    holds b' ρ' q (TInt w) (VInt w r) /\ pstate_set e ly (with_flags old f) s s') /\
  Emits b ρ s (isubs ly lhs rhs) (fun q b' ρ' s' =>
    let (r, f) := arm_subs (bits w) x y in
    holds b' ρ' q (TInt w) (VInt w r) /\ pstate_set e ly (with_flags old f) s s').
Proof.
  intros Hly Ho Hb Hs Ha Hx Hy. split.
  - eapply emits_impl; [apply (flag_setting_emits e ly io_mmu 0); eassumption|].
    intros ???? _ _. cbn [arm_flag_op]. by destruct (arm_adds _ _ _).
  - eapply emits_impl; [apply (flag_setting_emits e ly io_mmu 0); eassumption|].
    intros ???? _ _. cbn [arm_flag_op]. by destruct (arm_subs _ _ _).
Qed.

(** C34: shifts by a constant.  The plain forms shift by the amount modulo the
    width; the exact forms shift by the amount and panic exactly when it is not
    below the width; the unbounded forms are the mathematical shift cut to the
    width, for every amount.  A constant shift statement is only ever emitted
    with an amount below the width. *)
Theorem shift_imm_correct b ρ s op value w x amount :
  env_ok b ρ -> budget 2 b -> holds b ρ value (TInt w) (VInt w x) -> 0 <= amount ->
  let computes m r := Emits b ρ s m (fun q b' ρ' s' => s' = s /\ holds b' ρ' q (TInt w) (VInt w r)) in
  computes (emit_modulo_shift_imm_op op value amount) (shift_ref (bits w) op x (amount mod bits w)) /\
  (if amount <? bits w
   then computes (emit_panicking_shift_imm_op op value amount) (shift_ref (bits w) op x amount)
   else emit_panicking_shift_imm_op op value amount b = None) /\
  computes (emit_unbounded_shift_imm_op op value amount) (shift_ref (bits w) op x amount).
Proof.
  intros Ho Hb Hv Ha computes. pose proof (width_pos w) as [Hw _].
  pose proof (holds_has_type _ _ _ _ _ Ho Hv) as [_ Fx].
  assert (forall a, 0 <= a < bits w ->
    computes (emit_1ret_stmt (KShiftImm op value a)) (shift_ref (bits w) op x a)) as Himm.
  { intros a Hlt. eapply shift_imm_emits; [done..|]. intros. by split. }
  split_and!.
  - eapply shift_op_emits; [done..|]. apply (emits_option _ _ _ _ _ _ _ _ _ _ eq_refl), Himm.
    apply Z.mod_pos_bound. lia.
  - destruct (Z.ltb_spec amount (bits w)) as [Hlt|Hlt].
    + eapply shift_op_emits; [done..|]. eapply emits_option; [by rewrite (proj2 (Z.ltb_lt _ _)) by done|].
      apply Himm. lia.
    + unfold emit_panicking_shift_imm_op, emit_shift_imm_op, sm_bind, ty_of, sm_of_option.
      destruct Hv as [-> _]. simpl. by rewrite (proj2 (Z.ltb_ge _ _)) by done.
  - eapply shift_op_emits; [done..|]. apply (emits_option _ _ _ _ _ _ _ _ _ _ eq_refl).
    destruct (Z.leb_spec (bits w) amount) as [Hge|Hlt]; [|apply Himm; lia].
    rewrite shift_ref_large by done. destruct op; [apply Himm; lia|..];
      (eapply emits_iconst; [done|done|by destruct w|]); intros; by split.
Qed.
End Theorems.

(** ** A sample chunk

    The register file laid out in C order, a builder with two constants of eight
    bits, and a state to run on. *)

Definition sample_layout : Layout := mkLayout 800 0 8 16 24 16 24 25 32 0 8 16 24.

Definition sample_builder : ExecIrBuilder :=
  match (let! _ := iconst (Const.unsigned W8 128) in iconst (Const.unsigned W8 255)) (with_config 128) with
  | Some (_, b) => b
  | None => with_config 128
  end.

Definition sample_env : Env :=
  <[8%positive := VInt W8 255]> (<[7%positive := VInt W8 128]> (<[ARG_EXEC_STATE := VPtr PExecState]> ∅)).

Definition sample_mmu : IoMMU := mkIoMMU 1 ∅.

Definition sample_world : World (Error := unit) :=
  mkWorld (replicate 800 0) (mkCpu (Fabric_new ∅ 4096) init Tlb_new initial) ∅ 0.

Lemma sample_env_ok : env_ok sample_builder sample_env.
Proof.
  split; [vm_compute; lia|]. intros v x Hv. unfold sample_env in Hv.
  repeat (apply lookup_insert_Some in Hv as [[<- <-]|[_ Hv]]; [eexists; split; [reflexivity|by vm_compute]|]).
  by apply lookup_empty_Some in Hv.
Qed.

Lemma sample_budget n : (n <= 100)%nat -> budget n sample_builder.
Proof. intros Hn. split; [change (length (ssa_values sample_builder)) with 8%nat|change (length (all_stmts sample_builder)) with 2%nat]; unfold HANDLE_MAX; lia. Qed.

Lemma sample_layout_ok : layout_ok sample_layout.
Proof.
  split.
  - repeat first [apply Forall_nil_2|apply Forall_cons_2; [vm_compute; by split|]].
  - intros i j a n b m Hi Hj Hne.
    destruct i as [|[|[|[|i]]]]; simpl in Hi; simplify_eq;
      destruct j as [|[|[|[|j]]]]; simpl in Hj; simplify_eq; unfold X_REGISTER_COUNT; simpl; lia.
  - apply (bool_decide_unpack _). by vm_compute.
  - apply (bool_decide_unpack _). by vm_compute.
  - repeat first [apply Forall_nil_2|apply Forall_cons_2; [vm_compute; by split|]].
Qed.

Lemma sample_registers_ok : registers_ok sample_layout (registers sample_world).
Proof. split; [done|]. apply Forall_replicate. by split. Qed.

Lemma division_correct_witness :
  Emits Little sample_layout sample_mmu sample_builder sample_env sample_world (udiv 8 7) (fun q b' ρ' s' =>
    s' = sample_world /\ holds b' ρ' q (TInt W8) (VInt W8 1)) /\
  Emits Little sample_layout sample_mmu sample_builder sample_env sample_world (sdiv 7 8) (fun q b' ρ' s' =>
    s' = sample_world /\ holds b' ρ' q (TInt W8) (VInt W8 128)).
Proof.
  split.
  - apply (division_correct Little sample_layout sample_mmu sample_builder sample_env sample_world 8 7 W8 255 128
      sample_env_ok (sample_budget 11 ltac:(lia))); by split.
  - apply (division_correct Little sample_layout sample_mmu sample_builder sample_env sample_world 7 8 W8 128 255
      sample_env_ok (sample_budget 11 ltac:(lia))); by split.
Defined.

Lemma flag_setting_correct_witness :
  Emits Big sample_layout sample_mmu sample_builder sample_env sample_world (iadds sample_layout 7 8)
    (fun q b' ρ' s' => holds b' ρ' q (TInt W8) (VInt W8 127) /\
       pstate_set Big sample_layout (PSTATE_C + PSTATE_V) sample_world s').
Proof.
  pose proof (flag_setting_correct Big sample_layout sample_mmu sample_builder sample_env sample_world 7 8 W8 128 255
    sample_layout_ok sample_env_ok (sample_budget 22 ltac:(lia)) sample_registers_ok) as H.
  apply H; by split.
Defined.

Lemma shift_imm_correct_witness :
  Emits Little sample_layout sample_mmu sample_builder sample_env sample_world (sshr_unbounded_imm 7 200)
    (fun q b' ρ' s' => s' = sample_world /\ holds b' ρ' q (TInt W8) (VInt W8 255)) /\
  shl_exact_imm 7 8 sample_builder = None.
Proof.
  split.
  - apply (shift_imm_correct Little sample_layout sample_mmu sample_builder sample_env sample_world SignExtendShr
      7 W8 128 200 sample_env_ok (sample_budget 2 ltac:(lia))); [by split|lia].
  - apply (shift_imm_correct Little sample_layout sample_mmu sample_builder sample_env sample_world Shl
      7 W8 128 8 sample_env_ok (sample_budget 2 ltac:(lia))); [by split|lia].
Defined.
