(* ===== verification/IrTyping.v ===== *)
(** * Well-typed functions under construction
    ([jit-compiler-core/src/ir/mod.rs], the contract of [emit_stmt_full])

    [emit_stmt_full] is unsafe: the IR "must have consistent expected types in
    and out".  This file says what that means: the types of a statement's
    operands and outputs, of a terminator and of the values a jump passes, that
    every value has one definition and every statement one place, and that every
    handle is in range.  Each primitive operation of the builder keeps it. *)

From S2P Require Import Prelude Convert HaltReason MemTypes Fault Arena Ir IrSem IrEmit IrLogic.
Local Open Scope Z_scope.
Local Open Scope emu_scope.

(** ** The types *)

(** The type of a value. *)
Definition vty (b : ExecIrBuilder) (v : SSAValue) (ty : TypeFull) : Prop :=
  arena_get (ssa_values b) v = Some ty.

(** A constant fits its width, as the constructors of [IConst] see to. *)
Definition const_ok (c : IConst) : Prop := fits (bits (iwidth c)) (ibits c).

(** The signature a callback is called with. *)
Definition callback_fits (func : HostCallback) (s : CallbackSignature) : Prop :=
  match func with
  | CbLoad _ | CbLdrex _ => s = Signature.LOAD
  | CbStore width | CbStrex width => s = (store_callback width false).2
  | CbClrex => s = Signature.CLREX
  end.

Definition int_operand (b : ExecIrBuilder) (v : SSAValue) : Prop := exists w, vty b v (TInt w).

(** What a statement expects of its operands. *)
Definition stmt_typed (b : ExecIrBuilder) (rv : StmtKind) : Prop :=
  match rv with
  | KIConst c => const_ok c
  | KArithBinOp _ lhs rhs | KOverflowingBinOp _ lhs rhs | KIntCmp _ lhs rhs =>
      exists w, vty b lhs (TInt w) /\ vty b rhs (TInt w)
  | KIntNeg v => int_operand b v
  | KIntCmpImm _ lhs rhs | KBitwiseImm _ lhs rhs => exists w, vty b lhs (TInt w) /\ fits (bits w) rhs
  | KSelect cond if_true if_false =>
      vty b cond TBool /\ exists ty, vty b if_true ty /\ vty b if_false ty
  | KBitwise _ lhs rhs => exists ty, is_bool_or_int ty = true /\ vty b lhs ty /\ vty b rhs ty
  | KBitNot v => exists ty, is_bool_or_int ty = true /\ vty b v ty
  | KShift _ value shift | KShiftUnbounded _ value shift => int_operand b value /\ int_operand b shift
  | KShiftImm _ value shift => exists w, vty b value (TInt w) /\ 0 <= shift < bits w
  | KLoadHost _ base_ptr _ _ => exists r, vty b base_ptr (THostPtr r)
  | KStoreHost base_ptr _ value _ => (exists r, vty b base_ptr (THostPtr r)) /\ exists ty, vty b value ty
  | KLoadStackPtr slot => is_Some (arena_get (stack_slots b) slot)
  | KPtrAdd base_ptr offset _ => (exists r, vty b base_ptr (THostPtr r)) /\ vty b offset (TInt W64)
  | KPtrEq p q => exists r, vty b p (THostPtr r) /\ vty b q (THostPtr r)
  | KHasTag ptr _ | KUntag ptr _ => exists r, vty b ptr (THostPtr r)
  | KHostCallback func signature args =>
      callback_fits func signature /\
      exists s, arena_get (signatures b) signature = Some s /\ Forall2 (vty b) args (sig_args s)
  | KVMLoadRaw aligned_page_ptr page_offset _ _ =>
      vty b aligned_page_ptr (THostPtr RVirtualMemory) /\ vty b page_offset (TInt W64)
  | KVMStoreRaw aligned_page_ptr page_offset value _ =>
      vty b aligned_page_ptr (THostPtr RVirtualMemory) /\ vty b page_offset (TInt W64) /\ int_operand b value
  | KLoadHaltReason | KTakeHaltReason | KSafepoint => True
  | KSetPageDirtyFlag v => vty b v (THostPtr RPageFlags)
  end.

(** A statement and the types of its outputs. *)
Definition stmt_ok (b : ExecIrBuilder) (d : StmtData) : Prop :=
  stmt_typed b (rvalue d) /\
  exists tys, type_of (rvalue d) b = Some (tys, b) /\ Forall2 (vty b) (outputs d) tys.

(** A jump passes what its target expects. *)
Definition jump_ok (b : ExecIrBuilder) (j : Jump) : Prop :=
  exists d, arena_get (blocks b) (jump_target j) = Some d /\
    Forall2 (fun v p => exists ty, vty b v ty /\ vty b p ty) (jump_parameters j) (parameters d).

(** The builder does not check that: what is said of a function with [J] includes it,
    and asks it of the caller's jumps; what is said without holds of any. *)
Definition jump_due (J : bool) (b : ExecIrBuilder) (j : Jump) : Prop := if J then jump_ok b j else True.

(** No jump goes to the entry. *)
Definition jump_for (J : bool) (b : ExecIrBuilder) (j : Jump) : Prop := jump_target j <> ENTRYPOINT /\ jump_due J b j.

(** The operand of a terminator, and as many targets as its kind has. *)
Definition kind_typed (b : ExecIrBuilder) (t : Terminator) : Prop :=
  match kind t with
  | TkReturn => targets t = []
  | TkReturnCode v => targets t = [] /\ int_operand b v
  | TkBr => length (targets t) = 1%nat
  | TkBrZ v => length (targets t) = 2%nat /\ exists ty, vty b v ty /\ is_bool_or_int ty = true
  end.
Definition term_for (J : bool) (b : ExecIrBuilder) (t : Terminator) : Prop :=
  kind_typed b t /\ Forall (jump_for J b) (targets t).

Definition block_for (J : bool) (b : ExecIrBuilder) (d : BlockData) : Prop :=
  (forall v, v ∈ parameters d -> exists ty, vty b v ty) /\
  (forall x, x ∈ stmts d -> is_Some (arena_get (all_stmts b) x)) /\
  term_for J b (terminator d).

(** Where a value is defined. *)
Inductive Site := SOutput (x : Stmt) (i : nat) | SParam (block : Block) (i : nat).

Inductive defined_at (b : ExecIrBuilder) (v : SSAValue) : Site -> Prop :=
  | def_output x i d : arena_get (all_stmts b) x = Some d -> outputs d !! i = Some v -> defined_at b v (SOutput x i)
  | def_param block i d : arena_get (blocks b) block = Some d -> parameters d !! i = Some v ->
      defined_at b v (SParam block i).

(** The entry takes the arguments of the function; without [J], perhaps more. *)
Definition entry_for (J : bool) (d : BlockData) : Prop :=
  if J then parameters d = as_ssa_value <$> args else (as_ssa_value <$> args) `prefix_of` parameters d.

(** The builder's invariant. *)
Record built_for (J : bool) (b : ExecIrBuilder) : Prop := {
  bu_values : exists tys, ssa_values b = initial_ssa_values ++ tys;
  bu_signatures : signatures b = initial_signatures;
  bu_leave : leave_and_take_halt b = None;
  bu_scratch : forall s, scratch_space b = Some s -> is_Some (arena_get (stack_slots b) s);
  bu_entry : exists d, arena_get (blocks b) ENTRYPOINT = Some d /\ entry_for J d;
  bu_stmts : forall x d, arena_get (all_stmts b) x = Some d -> stmt_ok b d;
  bu_blocks : forall block d, arena_get (blocks b) block = Some d -> block_for J b d;
  bu_once : forall x block d i block' d' i',
    arena_get (blocks b) block = Some d -> stmts d !! i = Some x ->
    arena_get (blocks b) block' = Some d' -> stmts d' !! i' = Some x -> block = block' /\ i = i';
  bu_ssa : forall v s s', defined_at b v s -> defined_at b v s' -> s = s';
}.

Arguments bu_values {J}.
Arguments bu_signatures {J}.
Arguments bu_leave {J}.
Arguments bu_scratch {J}.
Arguments bu_entry {J}.
Arguments bu_stmts {J}.
Arguments bu_blocks {J}.
Arguments bu_once {J}.
Arguments bu_ssa {J}.

(** Jumps included. *)
Abbreviation jump_typed := (jump_for true).
Abbreviation term_typed := (term_for true).
Abbreviation block_ok := (block_for true).
Abbreviation built := (built_for true).

(** ** Growing *)

(** What was known of values, slots and signatures stays. *)
Record keeps (b b' : ExecIrBuilder) : Prop := {
  ke_values : exists tys, ssa_values b' = ssa_values b ++ tys;
  ke_slots : exists l, stack_slots b' = stack_slots b ++ l;
  ke_signatures : signatures b' = signatures b;
}.

(** A later state of the builder: the same, and what was known of blocks. *)
Record extends (b b' : ExecIrBuilder) : Prop := {
  ex_keeps :> keeps b b';
  ex_blocks : forall block d, arena_get (blocks b) block = Some d ->
    exists d', arena_get (blocks b') block = Some d' /\ parameters d' = parameters d;
}.

Lemma keeps_same b b' :
  ssa_values b' = ssa_values b -> stack_slots b' = stack_slots b -> signatures b' = signatures b -> keeps b b'.
Proof. intros H1 H2 H3. split; [exists []|exists []|done]; by rewrite app_nil_r. Qed.

#[export] Instance keeps_preorder : PreOrder keeps.
Proof.
  split; [by intros b; apply keeps_same|].
  intros b1 b2 b3 [(t1 & V1) (l1 & S1) G1] [(t2 & V2) (l2 & S2) G2]. split; [| |congruence].
  - exists (t1 ++ t2). by rewrite V2, V1, app_assoc.
  - exists (l1 ++ l2). by rewrite S2, S1, app_assoc.
Qed.

#[export] Instance extends_preorder : PreOrder extends.
Proof.
  split; [split; [done|by eauto]|].
  intros b1 b2 b3 [K1 B1] [K2 B2]. split; [by etrans|].
  intros block d (d' & (d'' & ? & ?)%B2 & ?)%B1. exists d''. split; [done|congruence].
Qed.

(** The parameters of a block. *)
Definition block_parameters (b : ExecIrBuilder) (block : Block) (ps : list SSAValue) : Prop :=
  exists d, arena_get (blocks b) block = Some d /\ parameters d = ps.

Section Keeps.
Context {b b' : ExecIrBuilder} (Hk : keeps b b').

Lemma vty_mono v ty : vty b v ty -> vty b' v ty.
Proof. destruct (ke_values _ _ Hk) as [tys E]. unfold vty, arena_get. rewrite E. apply lookup_app_l_Some. Qed.

Lemma slot_mono s : is_Some (arena_get (stack_slots b) s) -> is_Some (arena_get (stack_slots b') s).
Proof.
  destruct (ke_slots _ _ Hk) as [l E]. unfold arena_get. rewrite E. intros [x Hx]. exists x. by apply lookup_app_l_Some.
Qed.

Hint Resolve vty_mono slot_mono : core.

Lemma int_operand_mono v : int_operand b v -> int_operand b' v.
Proof. intros [w ?]. exists w. auto. Qed.
Hint Resolve int_operand_mono : core.

Lemma stmt_typed_mono rv : stmt_typed b rv -> stmt_typed b' rv.
Proof.
  destruct rv; simpl; intros; destruct_and?;
    repeat match goal with H : exists _, _ |- _ => destruct H end; destruct_and?; eauto 10.
  split; [done|]. rewrite (ke_signatures _ _ Hk). eexists. split; [done|]. eapply Forall2_impl; [done|]. eauto.
Qed.

Lemma type_of_mono rv tys : type_of rv b = Some (tys, b) -> type_of rv b' = Some (tys, b').
Proof.
  assert (forall v ty, arena_get (ssa_values b) v = Some ty -> arena_get (ssa_values b') v = Some ty) as Hv by exact vty_mono.
  destruct rv; simpl; try (intros [= <-]; done); unfold sm_bind, ty_of, signature_of, sm_of_option, sm_ret;
    rewrite ?(ke_signatures _ _ Hk); try (destruct (arena_get (ssa_values b) _) as [ty|] eqn:E; [|done]; rewrite (Hv _ _ E));
    try (destruct (arena_get (signatures b) _); [|done]); by intros [= ->].
Qed.

Lemma stmt_ok_mono d : stmt_ok b d -> stmt_ok b' d.
Proof.
  intros (? & tys & ? & ?). split; [by apply stmt_typed_mono|]. exists tys.
  split; [by apply type_of_mono|]. eapply Forall2_impl; [done|]. eauto.
Qed.

Lemma kind_typed_mono t : kind_typed b t -> kind_typed b' t.
Proof. unfold kind_typed. destruct (kind t); naive_solver. Qed.
End Keeps.

#[export] Hint Resolve vty_mono slot_mono int_operand_mono : emu.

Section Extends.
Context {J : bool} {b b' : ExecIrBuilder} (He : extends b b').

Lemma block_parameters_mono block ps : block_parameters b block ps -> block_parameters b' block ps.
Proof. intros (d & (d' & ? & ?)%(ex_blocks _ _ He) & <-). by exists d'. Qed.

Lemma jump_ok_mono j : jump_ok b j -> jump_ok b' j.
Proof.
  intros (d & (d' & ? & Hp)%(ex_blocks _ _ He) & HF). exists d'. split; [done|]. rewrite Hp.
  eapply Forall2_impl; [done|]. intros v p (ty & ? & ?). exists ty. split; by apply (vty_mono He).
Qed.

Lemma jump_for_mono j : jump_for J b j -> jump_for J b' j.
Proof. unfold jump_for, jump_due. intros [? ?]. split; [done|]. destruct J; [by apply jump_ok_mono|done]. Qed.

Lemma term_typed_mono t : term_for J b t -> term_for J b' t.
Proof. intros [? ?]. split; [by apply (kind_typed_mono He)|]. eapply Forall_impl; [done|]. apply jump_for_mono. Qed.
End Extends.

#[export] Hint Resolve block_parameters_mono jump_for_mono : emu.

(** ** Steps of the builder *)

Section Steps.
Context {J : bool}.
#[local] Abbreviation term_typed := (term_for J).
#[local] Abbreviation built := (built_for J).

Lemma entry_same d d' : parameters d' = parameters d -> entry_for J d -> entry_for J d'.
Proof. unfold entry_for. by intros ->. Qed.

Lemma vty_lt b v ty : vty b v ty -> (get v < length (ssa_values b))%nat.
Proof. apply lookup_lt_Some. Qed.

Lemma defined_lt b v s : built b -> defined_at b v s -> (get v < length (ssa_values b))%nat.
Proof.
  intros Hb [x i d Hx Hv|block i d Hd Hv].
  - apply (bu_stmts _ Hb) in Hx as (_ & tys & _ & HF). eapply Forall2_lookup_l in HF as (ty & _ & ?%vty_lt); done.
  - apply (bu_blocks _ Hb) in Hd as (Hps & _). apply list_elem_of_lookup_2, Hps in Hv as [ty ?%vty_lt]. done.
Qed.

Lemma alter_inv (l : Arena BlockData) f i k d :
  arena_get (alter f i l) k = Some d ->
  exists d0, arena_get l k = Some d0 /\ (get k = i /\ d = f d0 \/ get k <> i /\ d = d0).
Proof.
  unfold arena_get. destruct (decide (get k = i)) as [<-|Hn].
  - rewrite list_lookup_alter_eq. intros (d0 & ? & ->)%fmap_Some. exists d0. auto.
  - rewrite list_lookup_alter_ne by done. intros ?. exists d. auto.
Qed.

Lemma alter_get (l : Arena BlockData) f i k d0 :
  arena_get l k = Some d0 -> exists d, arena_get (alter f i l) k = Some d /\ (d = f d0 \/ d = d0).
Proof.
  unfold arena_get. intros H. destruct (decide (get k = i)) as [<-|Hn].
  - rewrite list_lookup_alter_eq, H. eauto.
  - rewrite list_lookup_alter_ne by done. eauto.
Qed.

Lemma lookup_snoc_arena {S} (l : Arena S) x k y :
  arena_get (l ++ [x]) k = Some y -> arena_get l k = Some y \/ get k = length l /\ y = x.
Proof.
  unfold arena_get. intros [H|[Hl H]]%lookup_app_Some; [by left|].
  apply list_lookup_singleton_Some in H as [? <-]. right. split; [lia|done].
Qed.

(** *** A statement *)

Section Pushed.
Context (b : ExecIrBuilder) (rv : StmtKind) (tys : list TypeFull) (d0 : BlockData).
Context (Hb : built b) (Ht : stmt_typed b rv) (Hty : type_of rv b = Some (tys, b)).
Context (Hcur : arena_get (blocks b) (current_block b) = Some d0).
Abbreviation b' := (pushed rv tys b).
Abbreviation xn := (Pos.of_succ_nat (length (all_stmts b))).

Lemma pushed_extends : extends b b'.
Proof.
  split; [split; [by eexists|exists []; simpl; by rewrite app_nil_r|done]|].
  intros block d Hd. destruct (alter_get _ (Blk.push_stmt xn) (get (current_block b)) _ _ Hd) as (d' & ? & [->| ->]); eauto.
Qed.

Lemma pushed_outputs : Forall2 (vty b') (Pos.of_succ_nat <$> seq (length (ssa_values b)) (length tys)) tys.
Proof.
  apply Forall2_fmap_l, Forall2_same_length_lookup_2; [by rewrite length_seq|].
  intros i k ty [-> Hi]%lookup_seq Hl. simpl. unfold vty, arena_get. rewrite get_of_succ. simpl.
  by rewrite lookup_app_r, Nat.add_sub_swap, Nat.sub_diag by lia.
Qed.

Lemma pushed_defined v s :
  defined_at b' v s -> defined_at b v s \/ exists i, s = SOutput xn i /\ v = Pos.of_succ_nat (length (ssa_values b) + i).
Proof.
  intros [x i d Hx Hv|block i d Hd Hv].
  - apply lookup_snoc_arena in Hx as [Hx|[Hx ->]]; [left; by econstructor|]. right. exists i.
    simpl in Hv. apply list_lookup_fmap_Some in Hv as (k & -> & [-> _]%lookup_seq).
    split; [f_equal; rewrite <- Hx; by rewrite of_succ_get|done].
  - left. simpl in Hd. apply alter_inv in Hd as (d1 & Hd & [[_ ->]|[_ ->]]); by econstructor.
Qed.

Lemma pushed_placed x block d i :
  arena_get (blocks b') block = Some d -> stmts d !! i = Some x ->
  (exists d1, arena_get (blocks b) block = Some d1 /\ stmts d1 !! i = Some x /\ (get x < length (all_stmts b))%nat) \/
  (get x = length (all_stmts b) /\ block = current_block b /\ i = length (stmts d0)).
Proof.
  intros (d1 & Hd & Hcase)%alter_inv Hx.
  assert (forall y, y ∈ stmts d1 -> (get y < length (all_stmts b))%nat) as Hlt.
  { intros y Hy. apply (bu_blocks _ Hb) in Hd as (_ & Hr & _). apply Hr in Hy as [? ?%lookup_lt_Some]. done. }
  destruct Hcase as [[Hk ->]|[_ ->]].
  - apply get_inj in Hk as ->. assert (d1 = d0) as -> by congruence. simpl in Hx.
    apply lookup_app_Some in Hx as [Hx|[? [? <-]%list_lookup_singleton_Some]].
    + left. exists d0. split_and!; [done..|]. by eapply Hlt, list_elem_of_lookup_2.
    + right. rewrite get_of_succ. split_and!; [done..|lia].
  - left. exists d1. split_and!; [done..|]. by eapply Hlt, list_elem_of_lookup_2.
Qed.

Lemma pushed_built : built b'.
Proof.
  pose proof pushed_extends as He. destruct (bu_values _ Hb) as [t0 Ev]. destruct (bu_entry _ Hb) as (de & Hde & Hpe).
  split; try apply Hb.
  - exists (t0 ++ tys). unfold pushed. cbn [ssa_values]. by rewrite Ev, app_assoc.
  - destruct (ex_blocks _ _ He _ _ Hde) as (d' & ? & ?). exists d'. split; [done|by eapply entry_same].
  - intros x d [Hx|[_ ->]]%lookup_snoc_arena; [eapply (stmt_ok_mono He), (bu_stmts _ Hb); done|].
    split; [by eapply (stmt_typed_mono He)|]. exists tys. split; [by eapply (type_of_mono He)|apply pushed_outputs].
  - intros block d (d1 & Hd & Hcase)%alter_inv. apply (bu_blocks _ Hb) in Hd as (Hps & Hst & Htm).
    assert (forall x, x ∈ stmts d1 -> is_Some (arena_get (all_stmts b') x)) as Hst'.
    { intros x [y Hy]%Hst. exists y. by apply lookup_app_l_Some. }
    destruct Hcase as [[_ ->]|[_ ->]]; split_and!; try (by eapply term_typed_mono); try done;
      try (intros v [ty ?]%Hps; exists ty; by eapply (vty_mono He)).
    intros x [?|[-> |?%elem_of_nil]%elem_of_cons]%elem_of_app; [by apply Hst'| |done].
    unfold arena_get. rewrite get_of_succ. simpl. rewrite lookup_app_r, Nat.sub_diag by lia. by eexists.
  - intros x k1 d1 i1 k2 d2 i2 H1 Hx1 H2 Hx2.
    destruct (pushed_placed _ _ _ _ H1 Hx1) as [(e1 & ? & ? & ?)|(? & -> & ->)];
      destruct (pushed_placed _ _ _ _ H2 Hx2) as [(e2 & ? & ? & ?)|(? & -> & ->)]; [by eapply (bu_once _ Hb)|lia..|done].
  - intros v s1 s2 [H1|(i & -> & ->)]%pushed_defined [H2|(j & -> & Hj)]%pushed_defined.
    + by eapply (bu_ssa _ Hb).
    + subst v. apply defined_lt in H1; [|done]. rewrite get_of_succ in H1. lia.
    + apply defined_lt in H2; [|done]. rewrite get_of_succ in H2. lia.
    + apply (f_equal get) in Hj. rewrite !get_of_succ in Hj. by assert (i = j) as -> by lia.
Qed.
End Pushed.

(** *** Blocks *)

Definition with_blocks (x : Arena BlockData) (b : ExecIrBuilder) : ExecIrBuilder :=
  mkBuilder (ssa_values b) x (all_stmts b) (stack_slots b) (signatures b)
    (scratch_space b) (leave_and_take_halt b) (current_block b) (halt_check_every b).
Definition with_current (block : Block) (b : ExecIrBuilder) : ExecIrBuilder :=
  mkBuilder (ssa_values b) (blocks b) (all_stmts b) (stack_slots b) (signatures b)
    (scratch_space b) (leave_and_take_halt b) block (halt_check_every b).

Lemma modify_block_inv block f b u b' :
  on_blocks (arena_modify block f) b = Some (u, b') ->
  exists d, arena_get (blocks b) block = Some d /\ b' = with_blocks (alter f (get block) (blocks b)) b.
Proof.
  unfold on_blocks, arena_modify, arena_get. destruct (blocks b !! get block) as [d|] eqn:Hd; [|done].
  intros [= _ <-]. exists d. split; [done|]. unfold with_blocks. f_equal.
  rewrite list_insert_alter. apply list_alter_ext; [|done]. intros d' Hd'. by simplify_eq.
Qed.

(** Changing a block's terminator or its temperature. *)
Lemma altered_built block f b :
  built b -> (forall d, parameters (f d) = parameters d /\ stmts (f d) = stmts d) ->
  (forall d, arena_get (blocks b) block = Some d -> term_typed b (terminator (f d))) ->
  let b' := with_blocks (alter f (get block) (blocks b)) b in built b' /\ extends b b'.
Proof.
  intros Hb Hf Ht b'. assert (extends b b') as He.
  { split; [by apply keeps_same|].
    intros k d Hd. destruct (alter_get _ f (get block) _ _ Hd) as (d' & ? & [->| ->]); [|by eauto].
    exists (f d). split; [done|apply Hf]. }
  split; [|done].
  assert (forall k d, arena_get (blocks b') k = Some d -> exists d1, arena_get (blocks b) k = Some d1 /\
    parameters d = parameters d1 /\ stmts d = stmts d1 /\ (k = block /\ d = f d1 \/ d = d1)) as Hinv.
  { intros k d (d1 & ? & Hcase)%alter_inv. exists d1. split; [done|].
    destruct Hcase as [[Hk ->]|[_ ->]]; [|by auto]. apply get_inj in Hk. destruct (Hf d1). auto. }
  destruct (bu_entry _ Hb) as (de & Hde & Hpe). split; try apply Hb.
  - destruct (ex_blocks _ _ He _ _ Hde) as (d' & ? & ?). exists d'. split; [done|by eapply entry_same].
  - intros x d Hx. eapply (stmt_ok_mono He), (bu_stmts _ Hb); done.
  - intros k d (d1 & Hd & Hp & Hs & Hcase)%Hinv. destruct (bu_blocks _ Hb _ _ Hd) as (Hps & Hst & Htm).
    split_and!; [rewrite Hp|rewrite Hs|]; [done..|]. eapply term_typed_mono; [done|].
    destruct Hcase as [[-> ->]| ->]; auto.
  - intros x k1 d1 i1 k2 d2 i2 (e1 & ? & _ & -> & _)%Hinv Hx1 (e2 & ? & _ & -> & _)%Hinv Hx2. by eapply (bu_once _ Hb).
  - assert (forall v s, defined_at b' v s -> defined_at b v s) as Hd.
    { intros v s [x i d Hx Hv|k i d (d1 & Hd & Hp & _)%Hinv Hv]; [by econstructor|].
      rewrite Hp in Hv. by econstructor. }
    intros v s1 s2 ?%Hd ?%Hd. by eapply (bu_ssa _ Hb).
Qed.

(** A new block. *)
Lemma created_built b : built b ->
  let b' := with_blocks (blocks b ++ [empty_block]) b in built b' /\ extends b b'.
Proof.
  intros Hb b'. assert (extends b b') as He.
  { split; [by apply keeps_same|].
    intros k d Hd. exists d. split; [by apply lookup_app_l_Some|done]. }
  split; [|done]. destruct (bu_entry _ Hb) as (de & Hde & Hpe). split; try apply Hb.
  - destruct (ex_blocks _ _ He _ _ Hde) as (d' & ? & ?). exists d'. split; [done|by eapply entry_same].
  - intros x d Hx. eapply (stmt_ok_mono He), (bu_stmts _ Hb); done.
  - intros k d [Hd|[_ ->]]%lookup_snoc_arena.
    + destruct (bu_blocks _ Hb _ _ Hd) as (? & ? & ?). split_and!; [done..|]. by eapply term_typed_mono.
    + by split_and!; [intros v ?%elem_of_nil|intros x ?%elem_of_nil|split; [|constructor]].
  - intros x k1 d1 i1 k2 d2 i2 [?|[_ ->]]%lookup_snoc_arena Hx1 [?|[_ ->]]%lookup_snoc_arena Hx2; try done.
    by eapply (bu_once _ Hb).
  - assert (forall v s, defined_at b' v s -> defined_at b v s) as Hd.
    { intros v s [x i d Hx Hv|k i d [Hd|[_ ->]]%lookup_snoc_arena Hv];
        [by apply (def_output b v x i d)|by apply (def_param b v k i d)|by destruct i]. }
    intros v s1 s2 ?%Hd ?%Hd. by eapply (bu_ssa _ Hb).
Qed.

(** Where the builder stands does not matter. *)
Lemma moved_extends block b : extends b (with_current block b).
Proof. split; [by apply keeps_same|by eauto]. Qed.

Lemma moved_built block b : built b -> built (with_current block b).
Proof.
  intros Hb. pose proof (moved_extends block b) as He. split; try apply Hb.
  - intros x d Hx. eapply (stmt_ok_mono He), (bu_stmts _ Hb); done.
  - intros v s1 s2 H1 H2. eapply (bu_ssa _ Hb v); [destruct H1|destruct H2]; by econstructor.
Qed.

(** No jump goes to the block. *)
Definition untargeted (b : ExecIrBuilder) (block : Block) : Prop :=
  forall k d, arena_get (blocks b) k = Some d -> block ∉ (jump_target <$> targets (terminator d)).

Definition with_values (x : Arena TypeFull) (b : ExecIrBuilder) : ExecIrBuilder :=
  mkBuilder x (blocks b) (all_stmts b) (stack_slots b) (signatures b)
    (scratch_space b) (leave_and_take_halt b) (current_block b) (halt_check_every b).

Lemma valued_keeps ty b x : keeps b (with_blocks x (with_values (ssa_values b ++ [ty]) b)).
Proof. split; [by eexists|exists []; by rewrite app_nil_r|done]. Qed.

(** A parameter for a block that no jump goes to yet. *)
Lemma parameter_built block ty d0 b :
  built b -> (J = true -> block <> ENTRYPOINT /\ untargeted b block) -> arena_get (blocks b) block = Some d0 ->
  let v := Pos.of_succ_nat (length (ssa_values b)) in
  let b' := with_blocks (alter (Blk.push_parameter v) (get block) (blocks b)) (with_values (ssa_values b ++ [ty]) b) in
  built b' /\ vty b' v ty /\ block_parameters b' block (parameters d0 ++ [v]).
Proof.
  intros Hb Hun Hd0 v b'.
  assert (vty b' v ty) as Hv.
  { unfold vty, arena_get, v. rewrite get_of_succ. simpl. by rewrite lookup_app_r, Nat.sub_diag by lia. }
  assert (forall k d, arena_get (blocks b') k = Some d -> exists d1, arena_get (blocks b) k = Some d1 /\
    stmts d = stmts d1 /\ terminator d = terminator d1 /\
    (k = block /\ parameters d = parameters d1 ++ [v] \/ k <> block /\ parameters d = parameters d1)) as Hinv.
  { intros k d (d1 & ? & [[Hk ->]|[Hk ->]])%alter_inv; exists d1; split_and!; try done; [left|right]; split; try done.
    - by apply get_inj in Hk.
    - by intros ->. }
  assert (forall u t, vty b u t -> vty b' u t) as Hvty by exact (@vty_mono _ _ (valued_keeps ty b _)).
  assert (forall j, jump_for J b j -> (J = true -> jump_target j <> block) -> jump_for J b' j) as Hj.
  { intros j [? Hj] Hjb. split; [done|]. unfold jump_due in *. destruct J; [|done]. destruct Hj as (d & Hd & HF).
    exists d. split; [|eapply Forall2_impl; [done|]; naive_solver]. unfold arena_get in *. simpl.
    rewrite list_lookup_alter_ne; [done|]. intros ?%get_inj. by apply Hjb. }
  destruct (bu_values _ Hb) as [t0 Ev]. destruct (bu_entry _ Hb) as (de & Hde & Hpe). split_and!; [|done|].
  - split; try apply Hb.
    + exists (t0 ++ [ty]). unfold b'. cbn [with_values with_blocks ssa_values]. by rewrite Ev, app_assoc.
    + destruct (decide (block = ENTRYPOINT)) as [->|Hne].
      * exists (Blk.push_parameter v de). split; [unfold arena_get in *; simpl; by rewrite list_lookup_alter_eq, Hde|].
        unfold entry_for in *. destruct J; [by destruct Hun|]. simpl. by apply prefix_app_r.
      * exists de. split; [|done]. unfold arena_get in *. simpl. rewrite list_lookup_alter_ne; [done|]. by intros ?%get_inj.
    + intros x d Hx. apply (bu_stmts _ Hb) in Hx. exact (stmt_ok_mono (valued_keeps ty b _) _ Hx).
    + intros k d (d1 & Hd & Hs & Ht & Hp)%Hinv. destruct (bu_blocks _ Hb _ _ Hd) as (Hps & Hst & Hk & Htm).
      split_and!; [|by rewrite Hs|rewrite Ht; split].
      * intros u Hu. destruct Hp as [[_ Hp]|[_ Hp]]; rewrite Hp in Hu; [apply elem_of_app in Hu as [Hu| ->%list_elem_of_singleton]|].
        -- apply Hps in Hu as [t ?]. eauto.
        -- eauto.
        -- apply Hps in Hu as [t ?]. eauto.
      * exact (kind_typed_mono (valued_keeps ty b _) _ Hk).
      * apply Forall_forall. intros j Hin. rewrite Forall_forall in Htm. apply Hj; [by apply Htm|]. intros EJ E.
        apply (proj2 (Hun EJ) _ _ Hd), list_elem_of_fmap. by exists j.
    + intros x k1 d1 i1 k2 d2 i2 (e1 & ? & -> & _)%Hinv Hx1 (e2 & ? & -> & _)%Hinv Hx2. by eapply (bu_once _ Hb).
    + assert (forall u s, defined_at b' u s -> defined_at b u s \/ u = v /\ s = SParam block (length (parameters d0))) as Hd.
      { intros u s [x i d Hx Hu|k i d (d1 & Hd & _ & _ & [[-> Hp]|[_ Hp]])%Hinv Hu];
          [left; by apply (def_output b u x i d)| |left; rewrite Hp in Hu; by apply (def_param b u k i d1)].
        rewrite Hp in Hu. apply lookup_app_Some in Hu as [Hu|[? [? <-]%list_lookup_singleton_Some]];
          [left; by apply (def_param b u block i d1)|right]. split; [done|]. simplify_eq. f_equal. lia. }
      assert (forall s, ~ defined_at b v s) as Hfresh.
      { intros s ?%defined_lt; [|done]. unfold v in *. rewrite get_of_succ in *. lia. }
      intros u s1 s2 [?|[-> ->]]%Hd [?|[? ->]]%Hd; [by eapply (bu_ssa _ Hb)|subst; by edestruct Hfresh|by edestruct Hfresh|done].
  - exists (Blk.push_parameter v d0). split; [|done]. unfold arena_get in *. simpl. by rewrite list_lookup_alter_eq, Hd0.
Qed.

(** The scratch slot. *)
Definition with_slot (slot : StackSlotData) (b : ExecIrBuilder) : ExecIrBuilder :=
  mkBuilder (ssa_values b) (blocks b) (all_stmts b) (stack_slots b ++ [slot]) (signatures b)
    (Some (Pos.of_succ_nat (length (stack_slots b)))) (leave_and_take_halt b) (current_block b) (halt_check_every b).

Lemma slotted_built slot b : built b -> built (with_slot slot b) /\ extends b (with_slot slot b).
Proof.
  intros Hb. assert (extends b (with_slot slot b)) as He 
    by (split; [split; [exists []; by rewrite app_nil_r|by eexists|done]|by eauto]).
  split; [|done]. split; try apply Hb.
  - intros s [= <-]. unfold arena_get. rewrite get_of_succ. simpl. rewrite lookup_app_r, Nat.sub_diag by lia. by eexists.
  - intros x d Hx. eapply (stmt_ok_mono He), (bu_stmts _ Hb); done.
  - intros v s1 s2 H1 H2. eapply (bu_ssa _ Hb v); [destruct H1|destruct H2]; by econstructor.
Qed.
End Steps.
