(* ===== verification/IrBuilt.v ===== *)
(** * What the builder's operations make is well typed
    ([jit-compiler-core/src/ir/mod.rs])

    The safe methods of the builder keep the invariant of [IrTyping]: whatever a
    translator calls, in whatever order and with whatever arguments, the function
    under construction is well typed.  What jumps pass is typed too ([J] is true)
    as long as callers pass what targets expect and add parameters before jumps. *)

From S2P Require Import Prelude Convert HaltReason MemTypes Fault FfiSupport Arena Ir IrSem IrEmit IrLogic IrTyping.
Local Open Scope Z_scope.
Local Open Scope emu_scope.

(** ** Rules *)

(** Run on [b], the operation keeps the invariant and grows the function, and
    [R] says of its result what it says. *)
Definition Typed_for (J : bool) {A} (b : ExecIrBuilder) (m : Build A) (R : A -> ExecIrBuilder -> Prop) : Prop :=
  built_for J b -> forall a b', m b = Some (a, b') -> built_for J b' /\ extends b b' /\ R a b'.

Section Rules.
Context {J : bool} {A B : Type} (b : ExecIrBuilder).
#[local] Abbreviation Typed := (Typed_for J).
#[local] Abbreviation built := (built_for J).

Lemma ok_ret (a : A) (R : A -> ExecIrBuilder -> Prop) : R a b -> Typed b (sm_ret a) R.
Proof. intros HR Hb ? ? [= <- <-]. by split_and!. Qed.

Lemma ok_bind (m : Build A) (k : A -> Build B) R :
  Typed b m (fun a b' => Typed b' (k a) R) -> Typed b (sm_bind m k) R.
Proof.
  intros H Hb x b2. unfold sm_bind. destruct (m b) as [[a b1]|] eqn:E; [|done].
  destruct (H Hb _ _ E) as (Hb1 & He1 & H2). intros (? & ? & ?)%H2; [|done]. split_and!; [done|by etrans|done].
Qed.

Lemma ok_built (m : Build A) R : (built b -> Typed b m R) -> Typed b m R.
Proof. intros H Hb. by apply H. Qed.

Lemma ok_impl (m : Build A) (R R' : A -> ExecIrBuilder -> Prop) :
  Typed b m R -> (forall a b', built b' -> extends b b' -> R a b' -> R' a b') -> Typed b m R'.
Proof. intros H HR Hb a b' E. destruct (H Hb _ _ E) as (? & ? & ?). auto. Qed.

Lemma ok_ty v (R : TypeFull -> ExecIrBuilder -> Prop) : (forall ty, vty b v ty -> R ty b) -> Typed b (ty_of v) R.
Proof.
  intros HR Hb ty b'. unfold ty_of, sm_of_option. destruct (arena_get _ v) eqn:E; [|done].
  intros [= <- <-]. split_and!; [done..|by apply HR].
Qed.

Lemma ok_assert c (R : unit -> ExecIrBuilder -> Prop) : (c = true -> R tt b) -> Typed b (sm_assert c) R.
Proof. intros HR Hb u b'. destruct c; [|done]. intros [= <- <-]. split_and!; [done..|by apply HR]. Qed.

Lemma ok_option o (R : A -> ExecIrBuilder -> Prop) : (forall a, o = Some a -> R a b) -> Typed b (sm_of_option o) R.
Proof. intros HR Hb u b'. destruct o; [|done]. intros [= <- <-]. split_and!; [done..|by apply HR]. Qed.

Lemma ok_panic (R : A -> ExecIrBuilder -> Prop) : Typed b sm_panic R.
Proof. done. Qed.

Lemma ok_current (R : Block -> ExecIrBuilder -> Prop) : R (current_block b) b -> Typed b get_current_block R.
Proof. intros HR Hb x b' [= <- <-]. by split_and!. Qed.

Lemma ok_switch block (R : unit -> ExecIrBuilder -> Prop) :
  (forall b', extends b b' -> R tt b') -> Typed b (switch_to block) R.
Proof.
  intros HR Hb x b' [= <- <-]. split_and!; [by apply (moved_built block)|apply (moved_extends block)|].
  apply HR, (moved_extends block).
Qed.

Lemma ok_create (R : Block -> ExecIrBuilder -> Prop) :
  (forall k b', extends b b' -> block_parameters b' k [] -> k <> ENTRYPOINT -> R k b') -> Typed b create_block R.
Proof.
  intros HR Hb k b'. unfold create_block, on_blocks. destruct (arena_store empty_block (blocks b)) as [[h x]|] eqn:E; [|done].
  intros [= <- <-]. pose proof (arena_store_get _ _ _ _ E) as Hg. apply arena_store_inv in E as (Hh & _ & -> & _).
  destruct (created_built b Hb) as [? ?]. split_and!; [done..|]. apply HR; [done|by exists empty_block|].
  intros ->. destruct (bu_entry _ Hb) as (d & Hd & _). apply lookup_lt_Some in Hd. lia.
Qed.

Lemma ok_cold block (R : unit -> ExecIrBuilder -> Prop) :
  (forall b', extends b b' -> R tt b') -> Typed b (mark_block_bold block) R.
Proof.
  intros HR Hb u b'. unfold mark_block_bold. case_decide.
  { intros [= <- <-]. split_and!; [done..|by apply HR]. }
  intros H1. destruct (modify_block_inv _ _ _ _ _ H1) as (d & Hd & ->).
  destruct (altered_built block Blk.set_cold b Hb) as [? ?]; [done|by intros d' (_ & _ & ?)%(bu_blocks _ Hb)|].
  destruct u. split_and!; [done..|by apply HR].
Qed.
End Rules.

(** ** Emitting *)

Section Steps.
Context {J : bool}.
#[local] Abbreviation Typed := (Typed_for J).
#[local] Abbreviation built := (built_for J).

Lemma type_of_read rv b tys b' : type_of rv b = Some (tys, b') -> b' = b.
Proof.
  destruct rv; simpl; try (by intros [= _ <-]); unfold sm_bind, ty_of, signature_of, sm_of_option, sm_ret;
    try (destruct (arena_get (ssa_values b) _); [|done]); try (destruct (arena_get (signatures b) _); [|done]); by intros [= _ <-].
Qed.

Lemma store_outputs_inv tys b vs b' :
  store_outputs tys b = Some (vs, b') ->
  vs = Pos.of_succ_nat <$> seq (length (ssa_values b)) (length tys) /\ b' = with_values (ssa_values b ++ tys) b.
Proof.
  revert b vs. induction tys as [|ty tys IH]; intros b vs; simpl.
  { intros [= <- <-]. split; [done|]. unfold with_values. rewrite app_nil_r. by destruct b. }
  unfold sm_bind, on_ssa_values. destruct (arena_store ty (ssa_values b)) as [[v x]|] eqn:E; [|done].
  apply arena_store_inv in E as (Hv & _ & -> & _). destruct (store_outputs tys _) as [[vs0 b1]|] eqn:E1; [|done].
  intros [= <- <-]. apply IH in E1 as [-> ->]. simpl. rewrite length_app. simpl. split.
  - rewrite Nat.add_1_r. f_equal. by rewrite <- Hv, of_succ_get.
  - unfold with_values. simpl. by rewrite <- app_assoc.
Qed.

Lemma emit_stmt_full_inv n rv b outs b' :
  emit_stmt_full n rv b = Some (outs, b') ->
  exists tys d, type_of rv b = Some (tys, b) /\ length tys = n /\
    outs = Pos.of_succ_nat <$> seq (length (ssa_values b)) (length tys) /\
    arena_get (blocks b) (current_block b) = Some d /\ b' = pushed rv tys b.
Proof.
  unfold emit_stmt_full, sm_bind at 1. destruct (type_of rv b) as [[tys b1]|] eqn:Ht; [|done].
  pose proof (type_of_read _ _ _ _ Ht) as ->. unfold sm_bind at 1.
  destruct (store_outputs tys b) as [[vs b1]|] eqn:E1; [|done]. apply store_outputs_inv in E1 as [-> ->].
  rewrite length_fmap, length_seq. unfold sm_bind at 1, sm_assert. destruct (length tys =? n)%nat eqn:El; [|done].
  apply Nat.eqb_eq in El. unfold sm_bind, sm_ret, on_stmts.
  destruct (arena_store _ _) as [[x l]|] eqn:Es; [|done]. apply arena_store_inv in Es as (Hx & _ & -> & _).
  unfold get_current_block. destruct (on_blocks _ _) as [[u b2]|] eqn:Eb; [|done]. intros [= <- <-].
  destruct (modify_block_inv _ _ _ _ _ Eb) as (d & Hd & ->). exists tys, d. split_and!; [done..|].
  simpl in Hx. unfold pushed, with_blocks, with_values. simpl. by rewrite <- Hx, of_succ_get.
Qed.

Lemma ok_emit n rv tys b (R : list SSAValue -> ExecIrBuilder -> Prop) :
  stmt_typed b rv -> type_of rv b = Some (tys, b) ->
  (forall outs b', extends b b' -> Forall2 (vty b') outs tys -> R outs b') -> Typed b (emit_stmt_full n rv) R.
Proof.
  intros Hs Ht HR Hb outs b' E. apply emit_stmt_full_inv in E as (tys' & d & Ht' & _ & -> & Hd & ->).
  assert (tys' = tys) as -> by congruence. pose proof (pushed_extends b rv tys) as He.
  split_and!; [by eapply pushed_built|done|]. apply HR; [done|apply pushed_outputs].
Qed.

Lemma ok_emit1 rv ty b (R : SSAValue -> ExecIrBuilder -> Prop) :
  stmt_typed b rv -> type_of rv b = Some ([ty], b) ->
  (forall v b', extends b b' -> vty b' v ty -> R v b') -> Typed b (emit_1ret_stmt rv) R.
Proof.
  intros Hs Ht HR. apply ok_bind. eapply ok_emit; [done..|]. intros outs b' He (v & ? & Hv & ?%Forall2_nil_inv_r & ->)%Forall2_cons_inv_r.
  apply ok_option. intros ? [= <-]. by apply HR.
Qed.

Lemma ok_void rv b (R : unit -> ExecIrBuilder -> Prop) :
  stmt_typed b rv -> type_of rv b = Some ([], b) -> (forall b', extends b b' -> R tt b') -> Typed b (emit_void_stmt rv) R.
Proof. intros Hs Ht HR. apply ok_bind. eapply ok_emit; [done..|]. intros. apply ok_ret. by apply HR. Qed.

Lemma ok_emit2 rv ty1 ty2 b (R : SSAValue * SSAValue -> ExecIrBuilder -> Prop) :
  stmt_typed b rv -> type_of rv b = Some ([ty1; ty2], b) ->
  (forall v1 v2 b', extends b b' -> vty b' v1 ty1 -> vty b' v2 ty2 -> R (v1, v2) b') -> Typed b (emit_2ret_stmt rv) R.
Proof.
  intros Hs Ht HR. apply ok_bind. eapply ok_emit; [done..|].
  intros outs b' He (v1 & ? & H1 & (v2 & ? & H2 & ?%Forall2_nil_inv_r & ->)%Forall2_cons_inv_r & ->)%Forall2_cons_inv_r.
  subst. apply ok_ret. by apply HR.
Qed.

(** ** Terminators *)

(** As many targets as the constructor of the kind takes. *)
Definition kind_shape (t : Terminator) : Prop :=
  length (targets t) = match kind t with TkReturn | TkReturnCode _ => 0%nat | TkBr => 1%nat | TkBrZ _ => 2%nat end.

Lemma jump_ok_due b j : jump_ok b j -> jump_due J b j.
Proof. unfold jump_due. by destruct J. Qed.

Lemma jump_to_ok b k : block_parameters b k [] -> jump_due J b (jump_to k).
Proof. intros (d & Hd & Hp). apply jump_ok_due. exists d. split; [done|]. rewrite Hp. constructor. Qed.

Lemma check_terminator_inv t b t' b' :
  check_terminator t b = Some (t', b') -> kind_shape t ->
  b' = b /\ kind_typed b t' /\ (forall j, j ∈ targets t' -> j ∈ targets t) /\ (length (targets t') <= 2)%nat.
Proof.
  unfold check_terminator, kind_shape, kind_typed, sm_bind, ty_of, sm_of_option, sm_assert, sm_ret.
  destruct (kind t) as [|v|v|] eqn:Ek; intros H Hs.
  - injection H as <- <-. rewrite Ek. apply nil_length_inv in Hs. rewrite Hs. by split_and!; [| | |simpl; lia].
  - destruct (arena_get _ v) as [ty|] eqn:Et; [|done]. destruct (is_int ty) eqn:Ei; [|done]. injection H as <- <-.
    rewrite Ek. apply nil_length_inv in Hs. rewrite Hs. destruct ty as [w| |]; try done.
    by split_and!; [| |exists w| |simpl; lia].
  - destruct (arena_get _ v) as [ty|] eqn:Et; [|done]. destruct (is_bool_or_int ty) eqn:Ei; [|done].
    destruct (targets t) as [|j1 [|j2 [|? ?]]] eqn:Etg; try done. case_decide as Hj; injection H as <- <-.
    + simpl. split; [done|]. split; [done|]. split; [|lia]. intros j Hjj. rewrite Hj in Hjj |- *. apply list_elem_of_singleton in Hjj as ->. left.
    + rewrite Ek, Etg. split; [done|]. split; [split; [done|by exists ty]|]. split; [done|simpl; lia].
  - injection H as <- <-. rewrite Ek. by split_and!; [| | |lia].
Qed.

Lemma block_targets_all t j : (length (targets t) <= 2)%nat -> j ∈ targets t -> jump_target j ∈ Term.block_targets t.
Proof.
  unfold Term.block_targets. destruct (targets t) as [|j1 [|j2 [|? ?]]]; simpl; intros Hl Hj; [by apply elem_of_nil in Hj| | |lia].
  - apply list_elem_of_singleton in Hj as ->. left.
  - apply elem_of_cons in Hj as [->|Hj%list_elem_of_singleton]; [case_decide; left|subst].
    case_decide as E; [rewrite E; left|right; left].
Qed.

Lemma ok_terminate_block block t b (R : unit -> ExecIrBuilder -> Prop) :
  kind_shape t -> Forall (jump_due J b) (targets t) -> (forall b', extends b b' -> R tt b') -> Typed b (terminate_block block t) R.
Proof.
  intros Hs Hj HR Hb u b'. unfold terminate_block. unfold sm_bind at 1.
  destruct (check_terminator t b) as [[t' b1]|] eqn:Et; [|done].
  destruct (check_terminator_inv _ _ _ _ Et Hs) as (-> & Hk & Hsub & Hlen).
  unfold sm_bind, sm_assert, sm_ret, block_of, sm_of_option.
  destruct (forallb _ _) eqn:Ee; [|done]. destruct (arena_get _ block) as [d|] eqn:Hd; [|done].
  destruct (negb _); [|done]. intros E.
  destruct (modify_block_inv _ _ _ _ _ E) as (d' & Hd' & ->).
  destruct (altered_built block (Blk.set_terminator true t') b Hb) as [Hb' He]; [done| |destruct u; by split_and!; [..|apply HR]].
  intros d0 _. simpl. split; [done|]. apply Forall_forall. intros j Hin. split.
  - rewrite forallb_forall in Ee. specialize (Ee _ (proj1 (list_elem_of_In _ _) (block_targets_all _ _ Hlen Hin))).
    apply negb_true_iff, bool_decide_eq_false in Ee. done.
  - rewrite Forall_forall in Hj. by apply Hj, Hsub.
Qed.

Lemma ok_terminate t b (R : unit -> ExecIrBuilder -> Prop) :
  kind_shape t -> Forall (jump_due J b) (targets t) -> (forall b', extends b b' -> R tt b') -> Typed b (terminate t) R.
Proof. intros. apply ok_bind, ok_current. by apply ok_terminate_block. Qed.

(** ** Parameters and the scratch slot *)

Lemma add_parameter_inv block ty b v b' :
  add_block_parameter_at block ty b = Some (v, b') ->
  exists d, arena_get (blocks b) block = Some d /\ v = Pos.of_succ_nat (length (ssa_values b)) /\
    b' = with_blocks (alter (Blk.push_parameter v) (get block) (blocks b)) (with_values (ssa_values b ++ [TypeFull_of ty]) b).
Proof.
  unfold add_block_parameter_at, sm_bind, on_ssa_values. destruct (arena_store _ _) as [[h x]|] eqn:E; [|done].
  apply arena_store_inv in E as (Hh & _ & -> & _). destruct (on_blocks _ _) as [[u b1]|] eqn:Eb; [|done].
  intros [= <- <-]. destruct (modify_block_inv _ _ _ _ _ Eb) as (d & Hd & ->). exists d.
  split_and!; [done| |done]. by rewrite <- Hh, of_succ_get.
Qed.

(** No jump goes to a block just created. *)
Lemma fresh_untargeted b k :
  built b -> get k = length (blocks b) -> J = true -> k <> ENTRYPOINT /\ untargeted (with_blocks (blocks b ++ [empty_block]) b) k.
Proof.
  intros Hb Hk EJ. split.
  { intros ->. destruct (bu_entry _ Hb) as (d & Hd & _). apply lookup_lt_Some in Hd. lia. }
  intros c d [Hd|[_ ->]]%lookup_snoc_arena; [|by intros ?%elem_of_nil].
  intros (j & -> & Hj)%list_elem_of_fmap. destruct (bu_blocks _ Hb _ _ Hd) as (_ & _ & _ & HF).
  rewrite Forall_forall in HF. destruct (HF _ Hj) as [_ Hdue]. rewrite EJ in Hdue. destruct Hdue as (d' & ?%lookup_lt_Some & _). lia.
Qed.

(** A new block that becomes the current one and takes one parameter. *)
Lemma ok_merge_block {A} ty (K : Block -> SSAValue -> Build A) b R :
  (forall k v b', extends b b' -> block_parameters b' k [v] -> vty b' v (TypeFull_of ty) -> Typed b' (K k v) R) ->
  Typed b (let! k := create_block in switch_to k ;;! let! v := add_block_parameter ty in K k v) R.
Proof.
  intros HK Hb x b'. unfold sm_bind at 1. destruct (create_block b) as [[k b1]|] eqn:E; [|done].
  unfold create_block, on_blocks in E. destruct (arena_store _ _) as [[h l]|] eqn:Es; [|done].
  apply arena_store_inv in Es as (Hh & _ & -> & _). injection E as <- <-.
  destruct (created_built b Hb) as [Hb1 He1]. unfold switch_to, sm_modify, add_block_parameter, get_current_block, sm_bind at 1 2 3.
  cbn [current_block]. set (b1 := with_current h (with_blocks (blocks b ++ [empty_block]) b)).
  match goal with |- context [add_block_parameter_at h ty ?c] => change c with b1 end.
  destruct (add_block_parameter_at h ty b1) as [[v b2]|] eqn:Ea; [|done]. intros Hrun.
  apply add_parameter_inv in Ea as (d & Hd & -> & ->).
  destruct (parameter_built (J := J) h (TypeFull_of ty) d b1) as (Hb2 & Hv & Hp);
    [by apply (moved_built h)|by apply fresh_untargeted|done|].
  apply lookup_snoc_arena in Hd as [?%lookup_lt_Some|[_ ->]]; [lia|].
  match type of Hb2 with built_for _ ?c => set (b2 := c) in * end.
  assert (extends b b2) as He2.
  { split; [etrans; [by apply (keeps_same b b1)|apply valued_keeps]|]. intros c d Hd. exists d. split; [|done]. pose proof (lookup_lt_Some _ _ _ Hd).
    unfold arena_get in *. unfold b2, b1. simpl. rewrite list_lookup_alter_ne by lia. by apply lookup_app_l_Some. }
  destruct (HK _ _ _ He2 Hp Hv Hb2 _ _ Hrun) as (? & ? & ?). split_and!; [done|by etrans|done].
Qed.

Lemma ok_parameter block ty b v b' :
  built b -> (J = true -> block <> ENTRYPOINT /\ untargeted b block) -> add_block_parameter_at block ty b = Some (v, b') -> built b'.
Proof.
  intros Hb Hun (d & Hd & -> & ->)%add_parameter_inv. by eapply (parameter_built block (TypeFull_of ty) d b).
Qed.

Lemma ok_scratch_space b (R : SSAValue -> ExecIrBuilder -> Prop) :
  (forall v b', extends b b' -> vty b' v (THostPtr RScratchSpace) -> R v b') -> Typed b get_scratch_space_ptr R.
Proof.
  intros HR Hb v b'. unfold get_scratch_space_ptr. destruct (scratch_space b) as [slot|] eqn:Es.
  - intros H. refine (ok_emit1 (KLoadStackPtr slot) _ b R _ _ HR Hb v b' H); [by eapply (bu_scratch _ Hb)|done].
  - destruct (slotted_built (mkStackSlot 8 8) b Hb) as [Hb1 He1]. unfold sm_bind at 1 2.
    unfold create_stack_slot, sm_bind at 1, sm_assert, on_stack_slots. cbn [existsb seqZ].
    destruct (existsb _ _); [|done]. unfold sm_ret at 1.
    destruct (arena_store _ (stack_slots b)) as [[h l]|] eqn:E; [|done]. apply arena_store_inv in E as (Hh & _ & -> & _).
    cbn [sm_bind set_scratch_space sm_modify sm_ret]. unfold sm_bind, set_scratch_space, sm_modify, sm_ret.
    match goal with |- use_stack_slot h ?c = _ -> _ => assert (c = with_slot (mkStackSlot 8 8) b) as -> end.
    { unfold with_slot. simpl. by rewrite <- Hh, of_succ_get. }
    intros H. destruct (ok_emit1 (KLoadStackPtr h) (THostPtr RScratchSpace) (with_slot (mkStackSlot 8 8) b)
      (fun v b' => vty b' v (THostPtr RScratchSpace))) with v b' as (? & He2 & ?); try done.
    + unfold stmt_typed, arena_get. rewrite Hh. simpl. rewrite lookup_app_r, Nat.sub_diag by lia. by eexists.
    + split_and!; [done|by etrans|apply HR; [by etrans|done]].
Qed.

(** ** Sequences *)

Lemma ok_seq {A B} b (m : Build A) (k : A -> Build B) R1 R :
  Typed b m R1 -> (forall a b', built b' -> extends b b' -> R1 a b' -> Typed b' (k a) R) -> Typed b (sm_bind m k) R.
Proof. intros Hm Hk. apply ok_bind. eapply ok_impl; [done|]. auto. Qed.

Lemma ok_seq_ty {A} b v (k : TypeFull -> Build A) R :
  (forall ty, vty b v ty -> Typed b (k ty) R) -> Typed b (sm_bind (ty_of v) k) R.
Proof. intros H. by apply ok_bind, ok_ty. Qed.
Lemma ok_seq_assert {A} b c (k : unit -> Build A) R : (c = true -> Typed b (k tt) R) -> Typed b (sm_bind (sm_assert c) k) R.
Proof. intros H. by apply ok_bind, ok_assert. Qed.
Lemma ok_seq_option {A B} b o (k : A -> Build B) R :
  (forall a, o = Some a -> Typed b (k a) R) -> Typed b (sm_bind (sm_of_option o) k) R.
Proof. intros H. by apply ok_bind, ok_option. Qed.
Lemma ok_seq_ret {A B} b a (k : A -> Build B) R : Typed b (k a) R -> Typed b (sm_bind (sm_ret a) k) R.
Proof. intros H. by apply ok_bind, ok_ret. Qed.

Lemma ok_assoc {A B C} b (m : Build A) (k1 : A -> Build B) (k2 : B -> Build C) R :
  Typed b (sm_bind m (fun a => sm_bind (k1 a) k2)) R -> Typed b (sm_bind (sm_bind m k1) k2) R.
Proof.
  intros H Hb x b' E. apply H; [done|]. unfold sm_bind in *. by destruct (m b) as [[a b1]|].
Qed.

Lemma ok_scope {T} block b (m : Build T) R :
  (forall b1, built b1 -> extends b b1 -> Typed b1 m (fun x b2 => forall k, R x (with_current k b2))) ->
  Typed b (block_scope block m) R.
Proof.
  intros H. apply ok_bind, ok_current, ok_bind, ok_built. intros Hb. apply ok_switch. intros b1 He. apply ok_built.
  intros Hb1. eapply ok_seq; [by apply H|]. intros x b2 Hb2 He2 HR. apply ok_bind. intros _ ? b3 [= <- <-].
  split_and!; [by apply moved_built|apply moved_extends|]. exact (ok_ret _ _ _ (HR (current_block b))).
Qed.

Definition anything {A} (_ : A) (_ : ExecIrBuilder) : Prop := True.

(** The type of the result is that of an operand. *)
Definition typed_as (b : ExecIrBuilder) (v : SSAValue) : SSAValue -> ExecIrBuilder -> Prop :=
  fun r b' => forall ty, vty b v ty -> vty b' r ty.

End Steps.

(** What is known of the state before an operation, of the state after it. *)
Ltac advance He :=
  lazymatch type of He with
  | extends ?b ?b' =>
      repeat match goal with
      | H : typed_as b ?v ?r ?b1, H' : vty b ?v ?ty |- _ => specialize (H ty H')
      | H : vty b _ _ |- _ => apply (vty_mono He) in H
      | H : block_parameters b _ _ |- _ => apply (block_parameters_mono He) in H
      end
  end.

(** The facts decided checks establish. *)
Ltac checked H :=
  rewrite ?andb_true_iff, ?bool_decide_eq_true in H; try (injection H as H); simplify_eq/=.

Ltac ok_type := simpl; unfold sm_bind, ty_of, signature_of, sm_of_option, sm_ret, vty in *;
  repeat match goal with H : arena_get (ssa_values _) _ = Some _ |- _ => rewrite H end; done.

Create HintDb built.
Ltac ok_step :=
  lazymatch goal with
  | |- Typed_for _ _ (sm_bind (ty_of _) _) _ => apply ok_seq_ty; intros ? ?
  | |- Typed_for _ _ (sm_bind (sm_assert _) _) _ => let H := fresh in apply ok_seq_assert; intros H; checked H
  | |- Typed_for _ _ (sm_bind (sm_of_option _) _) _ => let H := fresh in apply ok_seq_option; intros ? H; checked H
  | |- Typed_for _ _ (sm_bind (sm_ret _) _) _ => apply ok_seq_ret
  | |- Typed_for _ _ (sm_bind (sm_bind _ _) _) _ => apply ok_assoc
  | |- Typed_for _ _ (sm_bind _ _) _ =>
      let He := fresh "He" in
      eapply ok_seq; [solve [eauto with built]|intros ? ? ? He ?; advance He; clear He; cbn beta in *]
  | |- Typed_for _ _ (sm_ret _) _ => apply ok_ret; try done
  | |- Typed_for _ _ sm_panic _ => apply ok_panic
  | |- Typed_for _ _ _ _ => solve [eapply ok_impl; [eauto with built|intros; by eauto]]
  end.
Ltac ok := repeat ok_step.

(** ** The emitters *)

Section Emitters.
Context {J : bool} (e : Endian) (ly : Layout).
#[local] Abbreviation Typed := (Typed_for J).
#[local] Abbreviation built := (built_for J).

Lemma ok_stmt1 b rv ty : stmt_typed b rv -> type_of rv b = Some ([ty], b) -> Typed b (emit_1ret_stmt rv) (fun v b' => vty b' v ty).
Proof. intros. by eapply ok_emit1. Qed.
Lemma ok_stmt0 b rv : stmt_typed b rv -> type_of rv b = Some ([], b) -> Typed b (emit_void_stmt rv) anything.
Proof. intros. by apply ok_void. Qed.

(** The arguments of the function keep their types. *)
Lemma arg_vty b a : built b -> vty b (as_ssa_value a) (arg_ty a).
Proof.
  intros Hb. destruct (bu_values _ Hb) as [tys E]. unfold vty, arena_get. rewrite E. apply lookup_app_l_Some. by destruct a.
Qed.

Lemma ok_iconst b c : const_ok c -> Typed b (iconst c) (fun v b' => vty b' v (TInt (iwidth c))).
Proof. intros. by apply ok_stmt1. Qed.
Hint Resolve ok_iconst : built.

Lemma ok_load_state b offset width : Typed b (load_from_processor_state offset width) (fun v b' => vty b' v (TInt width)).
Proof. apply ok_built. intros Hb. apply ok_stmt1; [|done]. eexists. exact (arg_vty b AExecState Hb). Qed.
Hint Resolve ok_load_state : built.

Lemma ok_load_x_reg b x_reg width : Typed b (load_x_reg_dyn e ly x_reg width) (fun v b' => vty b' v (TInt width)).
Proof. unfold load_x_reg_dyn, load_from_64_bit_processor_register. ok. Qed.

Lemma ok_store_state b offset v ty : vty b v ty -> Typed b (store_to_processor_state offset v) anything.
Proof. intros Hv. apply ok_built. intros Hb. apply ok_stmt0; [|done]. split; [eexists; exact (arg_vty b AExecState Hb)|by eexists]. Qed.
Hint Resolve ok_store_state : built.

Lemma ok_store_register b offset v : Typed b (store_processor_register offset v) anything.
Proof. unfold store_processor_register. ok. Qed.
Hint Resolve ok_store_register : built.

Lemma ok_store_x_reg b x_reg v : Typed b (store_x_reg_dyn ly x_reg v) anything.
Proof. unfold store_x_reg_dyn. ok. Qed.
Lemma ok_store_pstate b v : Typed b (store_pstate ly v) anything.
Proof. unfold store_pstate. ok. Qed.
Hint Resolve ok_store_pstate : built.

Lemma ok_stmt_as b rv v ty :
  vty b v ty -> stmt_typed b rv -> type_of rv b = Some ([ty], b) -> Typed b (emit_1ret_stmt rv) (typed_as b v).
Proof.
  intros Hv Hs Ht. eapply ok_impl; [by eapply ok_stmt1|]. intros r b' _ _ Hr ty' Hv'. unfold vty in *. by simplify_eq.
Qed.

Lemma ok_select b c t f : Typed b (select c t f) (typed_as b t).
Proof. unfold select. ok. eapply ok_stmt_as; [done| |by ok_type]. split; [done|by eexists]. Qed.
Hint Resolve ok_select : built.

Lemma assert_int_inv ty w : assert_int ty = Some w -> ty = TInt w.
Proof. destruct ty; by intros [= ->]. Qed.

Lemma ok_same_int_imm {T} b lhs rhs (m : Build T) R :
  (vty b lhs (TInt rhs) -> Typed b m R) -> Typed b (emit_same_int_ty_imm lhs rhs m) R.
Proof.
  intros H. unfold emit_same_int_ty_imm. apply ok_seq_ty. intros ty Hty. apply ok_seq_option. intros w ->%assert_int_inv.
  apply ok_seq_assert. intros Hw%bool_decide_eq_true. subst. auto.
Qed.

Lemma ok_same_int {T} b lhs rhs (m : IntWidth -> Build T) R :
  (forall w, vty b lhs (TInt w) -> vty b rhs (TInt w) -> Typed b (m w) R) -> Typed b (emit_same_int_ty_binop lhs rhs m) R.
Proof.
  intros H. unfold emit_same_int_ty_binop. apply ok_seq_ty. intros ty Hty. apply ok_seq_option. intros w ->%assert_int_inv.
  apply ok_same_int_imm. auto.
Qed.

Lemma ok_icmp b cmp lhs rhs : Typed b (icmp cmp lhs rhs) (fun v b' => vty b' v TBool).
Proof. apply ok_same_int. intros w ? ?. apply ok_stmt1; [by exists w|done]. Qed.

Lemma ok_icmp_imm b cmp lhs rhs : const_ok rhs -> Typed b (icmp_imm cmp lhs rhs) (fun v b' => vty b' v TBool).
Proof. intros. apply ok_same_int_imm. intros ?. apply ok_stmt1; [by eexists|done]. Qed.

Lemma ok_guard {T} b lhs rhs (m : Build T) R :
  (lhs = rhs -> is_bool_or_int lhs = true -> Typed b m R) -> Typed b (bitwise_type_guard lhs rhs m) R.
Proof.
  intros H. unfold bitwise_type_guard. destruct lhs, rhs; try apply ok_panic; [|by apply H].
  case_decide; [subst; by apply H|apply ok_panic].
Qed.

Lemma ok_bitwise b op lhs rhs : Typed b (emit_bitwise op lhs rhs) (typed_as b lhs).
Proof. unfold emit_bitwise. ok. apply ok_guard. intros -> ?. eapply ok_stmt_as; [done|by eexists|by ok_type]. Qed.

Lemma ok_bitwise_imm b op lhs rhs : const_ok rhs -> Typed b (emit_bitwise_imm op lhs rhs) (typed_as b lhs).
Proof. intros. unfold emit_bitwise_imm. ok. apply ok_guard. intros -> ?. eapply ok_stmt_as; [done|by eexists|by ok_type]. Qed.

Lemma ok_bitnot b v : Typed b (bitnot_value v) (typed_as b v).
Proof. unfold bitnot_value. ok. apply ok_guard. intros _ ?. eapply ok_stmt_as; [done|by eexists|by ok_type]. Qed.

Lemma is_int_inv ty : is_int ty = true -> exists w, ty = TInt w.
Proof. destruct ty; [by eexists|done..]. Qed.

Lemma ok_shift b op value shift unbounded : Typed b (emit_shift_op op value shift unbounded) (typed_as b value).
Proof.
  unfold emit_shift_op. apply ok_seq_ty. intros ty Hty. apply ok_seq_assert. intros [w ->]%is_int_inv.
  apply ok_seq_ty. intros ty Hty'. apply ok_seq_assert. intros [w' ->]%is_int_inv.
  destruct unbounded; (eapply ok_stmt_as; [done|split; by eexists|by ok_type]).
Qed.

Lemma ok_shift_imm b op value f :
  (forall w, match f w with Some (Ok n) => 0 <= n < bits w | Some (Err c) => iwidth c = w /\ const_ok c | None => True end) ->
  Typed b (emit_shift_imm_op op value f) (typed_as b value).
Proof.
  intros Hf. unfold emit_shift_imm_op. apply ok_seq_ty. intros ty Hty. apply ok_seq_option. intros w ->%assert_int_inv.
  apply ok_seq_option. intros r Hr. specialize (Hf w). rewrite Hr in Hf. destruct r as [n|c].
  - eapply ok_stmt_as; [done|by exists w|by ok_type].
  - destruct Hf as [<- Hc]. eapply ok_impl; [by apply ok_iconst|]. intros v b' _ _ Hv ty Hty'. unfold vty in *. by simplify_eq.
Qed.

Lemma bits_pos w : 0 < bits w.
Proof. by destruct w. Qed.

Lemma ok_shift_modulo b op value amount : Typed b (emit_modulo_shift_imm_op op value amount) (typed_as b value).
Proof. apply ok_shift_imm. intros w. apply Z.mod_pos_bound, bits_pos. Qed.

Lemma ok_shift_exact b op value amount : 0 <= amount -> Typed b (emit_panicking_shift_imm_op op value amount) (typed_as b value).
Proof. intros. apply ok_shift_imm. intros w. destruct (amount <? bits w) eqn:E; [|done]. lia. Qed.

Lemma const_zero_ok w : const_ok (Const.zero w).
Proof. by destruct w. Qed.
Lemma const_one_ok w : const_ok (Const.one w).
Proof. by destruct w. Qed.
Lemma const_min_negative_ok w : const_ok (Const.min_negative w).
Proof. by destruct w. Qed.
Lemma const_negative_one_ok w : const_ok (Const.negative_one w).
Proof. by destruct w. Qed.
Hint Resolve const_zero_ok const_one_ok const_min_negative_ok const_negative_one_ok : built.

Lemma ok_shift_unbounded b op value amount :
  0 <= amount -> Typed b (emit_unbounded_shift_imm_op op value amount) (typed_as b value).
Proof.
  intros. apply ok_shift_imm. intros w. pose proof (bits_pos w). destruct (bits w <=? amount) eqn:E; [|lia].
  destruct op; [lia|split; [done|apply const_zero_ok]..].
Qed.
Hint Resolve ok_icmp ok_icmp_imm ok_bitwise ok_bitwise_imm ok_bitnot ok_shift ok_shift_modulo ok_shift_exact ok_shift_unbounded : built.
Hint Unfold bitor bitand bitxor bitor_imm bitand_imm bitxor_imm : built.

Lemma flag_const_ok n : fits 32 n -> const_ok (Const.unsigned W32 n).
Proof. done. Qed.

Lemma ok_load_pstate b : Typed b (load_pstate ly) (fun v b' => vty b' v (TInt W32)).
Proof. apply ok_load_state. Qed.
Hint Resolve ok_load_pstate : built.

Lemma ok_set_nzcv b n z c v : Typed b (set_nzcv_flags ly n z c v) anything.
Proof.
  unfold set_nzcv_flags, bitor, bitand_imm.
  assert (const_ok (Const.unsigned W32 0) /\ const_ok (Const.unsigned W32 PSTATE_N) /\ const_ok (Const.unsigned W32 PSTATE_Z) /\
    const_ok (Const.unsigned W32 PSTATE_C) /\ const_ok (Const.unsigned W32 PSTATE_V) /\
    const_ok (Const.unsigned W32 (bitnot 32 NZCV_MASK))) as (? & ? & ? & ? & ? & ?) by (by split_and!; vm_compute).
  ok.
Qed.
Hint Resolve ok_set_nzcv : built.

Lemma ok_arith b op lhs rhs : Typed b (emit_arith_binop op lhs rhs) (typed_as b lhs).
Proof. apply ok_same_int. intros w ? ?. eapply ok_stmt_as; [done|by exists w|by ok_type]. Qed.
Hint Resolve ok_arith : built.

Lemma ok_iadd_imm b v c : const_ok c -> Typed b (iadd_imm v c) (typed_as b v).
Proof.
  intros. unfold iadd_imm. eapply ok_seq; [by apply ok_iconst|]. intros r b1 _ He _.
  eapply ok_impl; [apply ok_arith|]. intros r' b2 _ _ Hr ty Hty. apply Hr. by apply (vty_mono He).
Qed.
Hint Resolve ok_iadd_imm : built.

Lemma ok_flag_setting b op lhs rhs : Typed b (emit_flag_setting_binop ly op lhs rhs) (typed_as b lhs).
Proof.
  unfold emit_flag_setting_binop. eapply ok_seq with
    (R1 := fun r b' => let '(value, overflow, width) := r in vty b lhs (TInt width) /\ vty b' value (TInt width)).
  - apply ok_same_int. intros w ? ?. apply ok_bind. eapply ok_emit2; [by exists w|by ok_type|].
    intros v1 v2 b' _ Hv _. by apply ok_ret.
  - intros [[value overflow] w] b1 _ He [Hl Hv]. pose proof (const_zero_ok w).
    assert (forall b', extends b1 b' -> typed_as b lhs value b') as Has.
    { intros b' He' ty Hty. assert (ty = TInt w) as -> by (unfold vty in *; by simplify_eq). by apply (vty_mono He'). }
    eapply ok_seq; [by apply ok_icmp_imm|]. intros neg b2 _ He2 _. eapply ok_seq; [by apply ok_icmp_imm|]. intros zero b3 _ He3 _.
    eapply ok_seq with (R1 := anything); [destruct op; (eapply ok_impl; [apply ok_icmp|done])|]. intros advance b4 _ He4 _.
    eapply ok_seq; [apply ok_set_nzcv|]. intros _ b5 _ He5 _. apply ok_ret, Has. by do 4 (etrans; [done|]).
Qed.

Lemma ok_udiv b lhs rhs : Typed b (udiv lhs rhs) anything.
Proof.
  unfold udiv. apply ok_same_int. intros w Hl Hr.
  pose proof (const_zero_ok w). pose proof (const_one_ok w). pose proof (const_min_negative_ok w). pose proof (const_negative_one_ok w).
  ok.
  eapply ok_seq; [eapply ok_stmt1; [exists w; split; done|by ok_type]|]. intros q bq _ Hq _. advance Hq. ok.
Qed.

Lemma ok_sdiv b lhs rhs : Typed b (sdiv lhs rhs) anything.
Proof.
  unfold sdiv, bitand, bitor. apply ok_same_int. intros w Hl Hr.
  pose proof (const_zero_ok w). pose proof (const_one_ok w). pose proof (const_min_negative_ok w). pose proof (const_negative_one_ok w).
  ok.
  eapply ok_seq; [eapply ok_stmt1; [exists w; split; done|by ok_type]|]. intros q bq _ Hq _. advance Hq. ok.
Qed.

Lemma ok_ineg b v : Typed b (ineg v) (typed_as b v).
Proof.
  unfold ineg. apply ok_seq_ty. intros ty Hty. apply ok_seq_assert. intros [w ->]%is_int_inv.
  eapply ok_stmt_as; [done|by exists w|by ok_type].
Qed.
(** ** Control flow *)

Lemma ok_mark_cold b : Typed b mark_current_block_cold anything.
Proof. apply ok_bind, ok_current. by apply ok_cold. Qed.
Hint Resolve ok_mark_cold : built.

Lemma ok_exit b v : Typed b (terminate (Term.ReturnCode v)) anything.
Proof. by apply ok_terminate; [|constructor|]. Qed.
Hint Resolve ok_exit : built.

(** A block to jump to without arguments. *)
Definition no_parameters (k : Block) (b : ExecIrBuilder) : Prop := block_parameters b k [].

Lemma ok_make_halt b reason : fits 32 (as_nz_u32 e reason) -> Typed b (make_halt_block e reason) no_parameters.
Proof.
  intros Hr. assert (const_ok (Const.unsigned W32 (as_nz_u32 e reason))) by exact Hr. unfold make_halt_block.
  apply ok_bind, ok_create. intros k b1 He Hk _. eapply ok_seq with (R1 := anything).
  - apply ok_scope. intros b2 _ He2. ok.
  - intros _ b2 _ He2 _. apply ok_ret. by eapply block_parameters_mono.
Qed.
Hint Resolve ok_make_halt : built.

Lemma ok_assert_or_jmp_due b cond expected fail :
  (J = true -> block_parameters b fail []) -> Typed b (assert_or_jmp_to cond expected fail) no_parameters.
Proof.
  intros Hf. unfold assert_or_jmp_to. apply ok_bind, ok_cold. intros b1 He1.
  apply ok_bind, ok_create. intros k b2 He2 Hk _.
  assert (jump_due J b2 (jump_to fail) /\ jump_due J b2 (jump_to k)) as [? ?].
  { split; [|by apply jump_to_ok]. destruct J eqn:EJ; [|done]. subst. apply (jump_to_ok (J := true)).
    apply (block_parameters_mono He2), (block_parameters_mono He1). by apply Hf. }
  destruct expected; (apply ok_bind, ok_terminate; [done|by repeat constructor|]; intros b3 He3; advance He3;
    apply ok_bind, ok_switch; intros b4 He4; advance He4; by apply ok_ret).
Qed.

Lemma ok_assert_or_jmp b cond expected fail :
  block_parameters b fail [] -> Typed b (assert_or_jmp_to cond expected fail) no_parameters.
Proof. intros Hf. by apply ok_assert_or_jmp_due. Qed.
Hint Resolve ok_assert_or_jmp : built.

Lemma ok_safepoint b : Typed b add_safepoint anything.
Proof. by apply ok_stmt0. Qed.
Hint Resolve ok_safepoint : built.

Lemma ok_next_insn b : Typed b (next_insn ly) anything.
Proof.
  assert (const_ok (Const.unsigned W64 4)) by done.
  unfold next_insn, load_pc, store_pc. ok.
Qed.

(** ** Memory *)

Lemma ok_check_args b tys l (R : unit -> ExecIrBuilder -> Prop) :
  length tys = length l -> (Forall2 (vty b) l tys -> R tt b) -> Typed b (check_args tys l) R.
Proof.
  revert l. induction tys as [|ty tys IH]; intros [|v l] Hl HR; try done; simpl; [by apply ok_ret, HR|].
  apply ok_seq_ty. intros ty' Hty. apply ok_seq_assert. intros <-%bool_decide_eq_true. apply IH; [by injection Hl|].
  intros HF. apply HR. by constructor.
Qed.

Lemma ok_call_host b func s l : callback_fits func s -> Typed b (call_host func s l) anything.
Proof.
  intros Hf. unfold call_host. apply ok_bind. intros Hb sig b' Hsig. unfold signature_of, sm_of_option in Hsig.
  destruct (arena_get (signatures b) s) as [sig'|] eqn:Es; [|done]. injection Hsig as <- <-. split_and!; [done..|].
  apply ok_seq_assert. intros Hl%Nat.eqb_eq. apply ok_bind, ok_check_args; [done|]. intros HF.
  assert (stmt_typed b (KHostCallback func s l)) as Ht by (split; [done|by exists sig']).
  assert (type_of (KHostCallback func s l) b = Some (match sig_ret sig' with Some ret => [ret] | None => [] end, b)) as Hty.
  { simpl. unfold sm_bind, signature_of, sm_of_option, sm_ret. by rewrite Es. }
  destruct (sig_ret sig') as [ret|].
  - apply ok_bind. eapply ok_impl; [by eapply ok_stmt1|]. intros v b1 _ _ _. by apply ok_ret.
  - eapply ok_seq; [by apply ok_stmt0|]. intros. by apply ok_ret.
Qed.

Lemma memory_trap_fits width : fits 32 (as_nz_u32 e (memory_trap (bytes width))).
Proof. destruct width, e; by vm_compute. Qed.
Hint Resolve memory_trap_fits : built.
Hint Extern 1 (callback_fits _ _) => reflexivity : built.

Lemma ok_has_tag b ptr tag : Typed b (has_tag ptr tag) (fun v b' => vty b' v TBool).
Proof.
  unfold has_tag. apply ok_seq_ty. intros ty Hty. apply ok_seq_assert. intros Hp. destruct ty as [| |r]; try done.
  by apply ok_stmt1; [exists r|].
Qed.
Lemma ok_untag b ptr tag : Typed b (untag_ptr ptr tag) (typed_as b ptr).
Proof.
  unfold untag_ptr. apply ok_seq_ty. intros ty Hty. apply ok_seq_assert. intros Hp. destruct ty as [| |r]; try done.
  eapply ok_stmt_as; [done|by exists r|by ok_type].
Qed.
Hint Resolve ok_has_tag ok_untag ok_call_host : built.

Lemma ok_scratch b : Typed b get_scratch_space_ptr (fun v b' => vty b' v (THostPtr RScratchSpace)).
Proof. by apply ok_scratch_space. Qed.
Hint Resolve ok_scratch : built.

Lemma ok_load_scratch b width v :
  vty b v (THostPtr RScratchSpace) ->
  Typed b (emit_1ret_stmt (KLoadHost (LInt width) v 0 false)) (fun v b' => vty b' v (TInt width)).
Proof. intros. by apply ok_stmt1; [eexists|]. Qed.
Hint Resolve ok_load_scratch : built.

Lemma ok_ldrex b vaddr width : Typed b (ldrex e vaddr width) (fun v b' => vty b' v (TInt width)).
Proof. unfold ldrex. ok.
Qed.

Lemma ok_strex b vaddr value : Typed b (strex e vaddr value) anything.
Proof.
  assert (const_ok (Const.unsigned W8 255)) by done.
  unfold strex. apply ok_seq_ty. intros ? ?. apply ok_seq_assert. intros _. apply ok_seq_ty. intros tyv Htyv. apply ok_seq_option.
  intros w ->%assert_int_inv. unfold store_callback. ok.
Qed.

Lemma ok_clrex b : Typed b clrex anything.
Proof. unfold clrex. ok. by apply ok_assert. Qed.
End Emitters.

#[export] Hint Resolve ok_iconst ok_load_state ok_store_state ok_store_register ok_store_pstate ok_load_pstate ok_select ok_icmp
  ok_icmp_imm ok_bitwise ok_bitwise_imm ok_bitnot ok_shift ok_shift_modulo ok_shift_exact ok_shift_unbounded
  ok_arith ok_iadd_imm ok_flag_setting ok_set_nzcv ok_mark_cold ok_exit ok_make_halt ok_assert_or_jmp ok_safepoint
  memory_trap_fits ok_has_tag ok_untag ok_call_host ok_scratch ok_load_scratch : built.
#[export] Hint Extern 1 (callback_fits _ _) => reflexivity : built.
