(* ===== verification/IrBuilder.v ===== *)
(** * Every function the builder makes is well typed
    ([jit-compiler-core/src/ir/mod.rs])

    The emitters of guest memory accesses, and the builder as its users see it:
    a type of its public methods, what each leaves to its caller, and the states
    that sequences of calls reach. *)

From S2P Require Import Prelude Convert HaltReason MemTypes Fault FfiSupport Arena Ir IrSem IrEmit IrLogic IrArith IrTyping IrBuilt.
Local Open Scope Z_scope.
Local Open Scope emu_scope.

Section Access.
Context {J : bool} (e : Endian) (ly : Layout).
#[local] Abbreviation Typed := (Typed_for J).
#[local] Abbreviation built := (built_for J).

Definition access_typed (b : ExecIrBuilder) (a : VmAccessKind) (width : IntWidth) : Prop :=
  match a with VmLoad w => w = width | VmStore value => vty b value (TInt width) end.

Lemma access_typed_mono b b' a width : extends b b' -> access_typed b a width -> access_typed b' a width.
Proof. intros He. destruct a; simpl; [done|]. apply (vty_mono He). Qed.

Lemma ok_access_width b a : Typed b (access_width a) (fun width b' => access_typed b' a width).
Proof.
  destruct a as [w|v]; simpl; [by apply ok_ret|]. apply ok_seq_ty. intros ty Hty. apply ok_option. by intros w ->%assert_int_inv.
Qed.

Definition fallback_typed (access : VmAccessKind) (width : IntWidth) (f : FallbackAccess) (b : ExecIrBuilder) : Prop :=
  block_parameters b (fb_block f) [] /\
  match fb_value f with Some v => vty b v (TInt width) | None => True end.

Lemma fallback_typed_mono a width f b b' : extends b b' -> fallback_typed a width f b -> fallback_typed a width f b'.
Proof.
  intros He [? Hv]. split; [by eapply block_parameters_mono|]. destruct (fb_value f); [by apply (vty_mono He)|done].
Qed.

Lemma ok_fallback b access width vaddr :
  Typed b (emit_host_mem_fallback e access width vaddr) (fallback_typed access width).
Proof.
  unfold emit_host_mem_fallback. apply ok_bind, ok_create. intros k b1 He1 Hk _. apply ok_scope. intros b2 _ He2. advance He2.
  destruct access as [w|value].
  - unfold load_callback. ok. apply ok_bind, ok_current, ok_ret. by split.
  - unfold store_callback. ok. apply ok_bind, ok_current, ok_ret. by split.
Qed.
Hint Resolve ok_access_width ok_fallback : built.

Lemma ok_store_context b offset v ty : vty b v ty -> Typed b (emit_void_stmt (KStoreHost ARG_EXEC_CONTEXT offset v true)) anything.
Proof. intros Hv. apply ok_built. intros Hb. apply ok_stmt0; [|done]. split; [eexists; exact (arg_vty b AExecContext Hb)|by eexists]. Qed.

Lemma ok_load_field b ty p r offset : vty b p (THostPtr r) ->
  Typed b (emit_1ret_stmt (KLoadHost ty p offset true)) (fun v b' => vty b' v (load_type_full ty)).
Proof. intros. by apply ok_stmt1; [exists r|]. Qed.

Lemma ok_tlb_entry b o size : vty b o (TInt W64) ->
  Typed b (emit_1ret_stmt (KPtrAdd ARG_TLB_PTR o size)) (fun v b' => vty b' v (THostPtr RTlb)).
Proof.
  intros Ho. apply ok_built. intros Hb. pose proof (arg_vty b ATlb Hb) as Ht.
  apply ok_stmt1; [split; [by eexists|done]|]. simpl in *. by ok_type.
Qed.

Lemma ok_ident_eq b p : vty b p (THostPtr RReadOnly) ->
  Typed b (emit_1ret_stmt (KPtrEq p ARG_IO_MMU_IDENT)) (fun v b' => vty b' v TBool).
Proof. intros Hp. apply ok_built. intros Hb. apply ok_stmt1; [|done]. exists RReadOnly. split; [done|exact (arg_vty b AIoMMUIdentifier Hb)]. Qed.
Hint Resolve ok_store_context ok_load_field ok_tlb_entry ok_ident_eq : built.

Lemma ok_trap_block b access width vaddr :
  vty b vaddr (TInt W64) -> Typed b (emit_trap_block e ly access width vaddr) no_parameters.
Proof.
  intros Hv. unfold emit_trap_block. apply ok_bind, ok_create. intros k b1 He1 Hk _. advance He1.
  assert (forall op, const_ok (Const.unsigned W8 (MemOp_repr op))) as Hop by by intros [].
  assert (const_ok (Const.unsigned W8 1)) by done.
  assert (const_ok (Const.unsigned W32 (as_nz_u32 e (memory_trap (bytes width))))) by apply memory_trap_fits.
  eapply ok_seq with (R1 := anything).
  - apply ok_scope. intros b2 _ He2. advance He2. ok.
  - intros _ b2 _ He2 _. apply ok_ret. by eapply block_parameters_mono.
Qed.
Hint Resolve ok_trap_block : built.

Lemma alignment_const_ok width : const_ok (Const.unsigned W64 (bytes width - 1)).
Proof. by destruct width. Qed.

Lemma ok_tlb_lookup b vaddr width fallback :
  vty b vaddr (TInt W64) -> block_parameters b fallback [] ->
  Typed b (emit_tlb_lookup ly vaddr width fallback) (fun r b' => let '(page, offset, entry) := r in
    vty b' page (THostPtr RVirtualMemory) /\ vty b' offset (TInt W64) /\ vty b' entry (THostPtr RTlb)).
Proof.
  intros Hv Hf. unfold emit_tlb_lookup.
  assert (0 <= PAGE_SHIFT) by done. assert (const_ok (Const.unsigned W64 TLB_MASK)) by done.
  assert (const_ok (Const.unsigned W64 PAGE_OFFSET_MASK_U64)) by done. assert (const_ok (Const.unsigned W64 0)) by done.
  pose proof (alignment_const_ok width). ok. case_decide; ok.
Qed.
Hint Resolve ok_tlb_lookup : built.
Lemma ok_load_raw b page offset width seq_cst :
  vty b page (THostPtr RVirtualMemory) -> vty b offset (TInt W64) ->
  Typed b (emit_1ret_stmt (KVMLoadRaw page offset width seq_cst)) (fun v b' => vty b' v (TInt width)).
Proof. intros. by apply ok_stmt1. Qed.

Lemma ok_store_raw b page offset value width seq_cst :
  vty b page (THostPtr RVirtualMemory) -> vty b offset (TInt W64) -> vty b value (TInt width) ->
  Typed b (emit_void_stmt (KVMStoreRaw page offset value seq_cst)) anything.
Proof. intros. apply ok_stmt0; [|done]. split_and!; [done..|by eexists]. Qed.

Lemma ok_set_dirty b p : vty b p (THostPtr RPageFlags) -> Typed b (emit_void_stmt (KSetPageDirtyFlag p)) anything.
Proof. intros. by apply ok_stmt0. Qed.

(** A jump that passes nothing, and one that passes one value. *)
Lemma ok_jump b block k : block_parameters b k [] -> Typed b (terminate_block block (Term.Br (jump_to k))) anything.
Proof. intros. apply ok_terminate_block; [done| |done]. constructor; [by apply jump_to_ok|done]. Qed.

Lemma ok_jump_here b k : block_parameters b k [] -> Typed b (terminate (Term.Br (jump_to k))) anything.
Proof. intros. apply ok_terminate; [done| |done]. constructor; [by apply jump_to_ok|done]. Qed.

Lemma ok_jump_with b block k v p ty : block_parameters b k [p] -> vty b v ty -> vty b p ty ->
  Typed b (terminate_block block (Term.Br (mkJump [v] k))) anything.
Proof.
  intros (d & Hd & Hp) Hv Hpt. apply ok_terminate_block; [done| |done]. constructor; [|done].
  apply jump_ok_due. exists d. split; [done|]. rewrite Hp. constructor; [by exists ty|constructor].
Qed.
Hint Resolve ok_load_raw ok_store_raw ok_set_dirty ok_jump ok_jump_here : built.

(** What an access returns. *)
Definition access_result (access : VmAccessKind) (r : option SSAValue) (b : ExecIrBuilder) : Prop :=
  match access, r with VmLoad w, Some v => vty b v (TInt w) | _, _ => True end.

Lemma ok_vm_access b vaddr access acq_rel : Typed b (vm_access e ly vaddr access acq_rel) (access_result access).
Proof.
  unfold vm_access. ok_step. ok_step.
  eapply ok_seq; [apply ok_access_width|]. intros width b1 _ He1 Ha. advance He1.
  eapply ok_seq; [apply ok_fallback|]. intros f b2 _ He2 [Hf Hfv]. advance He2. apply (access_typed_mono _ _ _ _ He2) in Ha.
  eapply ok_seq; [by apply ok_tlb_lookup|]. intros [[page offset] entry] b3 _ He3 (Hpage & Hoff & Hentry). advance He3.
  apply (access_typed_mono _ _ _ _ He3) in Ha.
  assert (match fb_value f with Some v => vty b3 v (TInt width) | None => True end) as Hfv3
    by (destruct (fb_value f); [by apply (vty_mono He3)|done]).
  clear Hfv. destruct access as [w|value]; simpl in Ha.
  - subst w. destruct (fb_value f) as [fv|].
    + ok. apply ok_bind, ok_current, ok_merge_block. intros k v b4 He4 Hk Hv. advance He4.
      eapply ok_seq; [by eapply ok_jump_with|]. intros _ b5 _ He5 _. advance He5.
      eapply ok_seq; [by eapply ok_jump_with|]. intros _ b6 _ He6 _. advance He6. by apply ok_ret.
    + ok.
  - ok. apply ok_bind, ok_create. intros k b4 He4 Hk _. advance He4.
    eapply ok_seq; [by apply ok_assert_or_jmp|]. unfold no_parameters. intros c b5 _ He5 Hc. advance He5.
    eapply ok_seq with (R1 := anything).
    { apply ok_scope. intros b6 _ He6. advance He6. ok. }
    intros _ b6 _ He6 _. advance He6. ok.
Qed.

Lemma ok_vm_load b vaddr width : Typed b (vm_load e ly vaddr width) (fun v b' => vty b' v (TInt width)).
Proof.
  unfold vm_load. eapply ok_seq; [apply ok_vm_access|]. intros r b1 _ _ Hr. apply ok_option. by intros v ->.
Qed.

Lemma ok_vm_store b vaddr value : Typed b (vm_store e ly vaddr value) anything.
Proof. unfold vm_store. eapply ok_seq; [apply ok_vm_access|]. intros r b1 _ _ _. by apply ok_assert. Qed.
End Access.

(** ** The public methods *)

(** The safe methods; [block_scope] is two switches around a sequence of them,
    and the named bitwise, shift and register methods are instances. *)
Inductive BuilderOp :=
  | OpCreateBlock | OpSwitchTo (block : Block)
  | OpMarkBlockBold (block : Block) | OpMarkCurrentBlockCold
  | OpTerminateBlock (block : Block) (t : Terminator) | OpTerminate (t : Terminator)
  | OpAddBlockParameterAt (block : Block) (ty : IrType) | OpAddBlockParameter (ty : IrType)
  | OpIconst (c : IConst)
  | OpLoadXReg (x_reg : Z) (width : IntWidth) | OpLoadSp | OpLoadPc | OpLoadPstate
  | OpStoreXReg (x_reg : Z) (value : SSAValue) | OpStoreSp (value : SSAValue)
  | OpStorePc (value : SSAValue) | OpStorePstate (value : SSAValue)
  | OpSelect (cond if_true if_false : SSAValue)
  | OpIcmp (cmp : IntCmp) (lhs rhs : SSAValue) | OpIcmpImm (cmp : IntCmp) (lhs : SSAValue) (rhs : IConst)
  | OpBitwise (op : BitwiseOp) (lhs rhs : SSAValue) | OpBitwiseImm (op : BitwiseOp) (lhs : SSAValue) (rhs : IConst)
  | OpBitnot (value : SSAValue)
  | OpShift (op : ShiftOp) (value shift : SSAValue) (unbounded : bool)
  | OpShiftImm (op : ShiftOp) (value : SSAValue) (amount : Z)
  | OpShiftExactImm (op : ShiftOp) (value : SSAValue) (amount : Z)
  | OpShiftUnboundedImm (op : ShiftOp) (value : SSAValue) (amount : Z)
  | OpSetNzcvFlags (n z c v : SSAValue)
  | OpIadd (lhs rhs : SSAValue) | OpIaddImm (value : SSAValue) (amount : IConst)
  | OpIsub (lhs rhs : SSAValue) | OpImul (lhs rhs : SSAValue)
  | OpUdiv (lhs rhs : SSAValue) | OpSdiv (lhs rhs : SSAValue) | OpIneg (value : SSAValue)
  | OpIadds (lhs rhs : SSAValue) | OpIsubs (lhs rhs : SSAValue)
  | OpAssertOrJmpTo (cond : SSAValue) (expected : bool) (fail : Block)
  | OpAddSafepoint | OpNextInsn
  | OpVmLoad (vaddr : SSAValue) (width : IntWidth) | OpVmStore (vaddr value : SSAValue)
  | OpLdrex (vaddr : SSAValue) (width : IntWidth) | OpStrex (vaddr value : SSAValue) | OpClrex.

Section Ops.
Context (e : Endian) (ly : Layout).

Definition ignore {A} (m : Build A) : Build unit := let! _ := m in sm_ret tt.

Definition run_op (op : BuilderOp) : Build unit :=
  match op with
  | OpCreateBlock => ignore create_block
  | OpSwitchTo block => switch_to block
  | OpMarkBlockBold block => mark_block_bold block
  | OpMarkCurrentBlockCold => mark_current_block_cold
  | OpTerminateBlock block t => terminate_block block t
  | OpTerminate t => terminate t
  | OpAddBlockParameterAt block ty => ignore (add_block_parameter_at block ty)
  | OpAddBlockParameter ty => ignore (add_block_parameter ty)
  | OpIconst c => ignore (iconst c)
  | OpLoadXReg x_reg width => ignore (load_x_reg_dyn e ly x_reg width)
  | OpLoadSp => ignore (load_sp ly)
  | OpLoadPc => ignore (load_pc ly)
  | OpLoadPstate => ignore (load_pstate ly)
  | OpStoreXReg x_reg value => store_x_reg_dyn ly x_reg value
  | OpStoreSp value => store_sp ly value
  | OpStorePc value => store_pc ly value
  | OpStorePstate value => store_pstate ly value
  | OpSelect cond if_true if_false => ignore (select cond if_true if_false)
  | OpIcmp cmp lhs rhs => ignore (icmp cmp lhs rhs)
  | OpIcmpImm cmp lhs rhs => ignore (icmp_imm cmp lhs rhs)
  | OpBitwise op lhs rhs => ignore (emit_bitwise op lhs rhs)
  | OpBitwiseImm op lhs rhs => ignore (emit_bitwise_imm op lhs rhs)
  | OpBitnot value => ignore (bitnot_value value)
  | OpShift op value shift unbounded => ignore (emit_shift_op op value shift unbounded)
  | OpShiftImm op value amount => ignore (emit_modulo_shift_imm_op op value amount)
  | OpShiftExactImm op value amount => ignore (emit_panicking_shift_imm_op op value amount)
  | OpShiftUnboundedImm op value amount => ignore (emit_unbounded_shift_imm_op op value amount)
  | OpSetNzcvFlags n z c v => set_nzcv_flags ly n z c v
  | OpIadd lhs rhs => ignore (iadd lhs rhs)
  | OpIaddImm value amount => ignore (iadd_imm value amount)
  | OpIsub lhs rhs => ignore (isub lhs rhs)
  | OpImul lhs rhs => ignore (imul lhs rhs)
  | OpUdiv lhs rhs => ignore (udiv lhs rhs)
  | OpSdiv lhs rhs => ignore (sdiv lhs rhs)
  | OpIneg value => ignore (ineg value)
  | OpIadds lhs rhs => ignore (iadds ly lhs rhs)
  | OpIsubs lhs rhs => ignore (isubs ly lhs rhs)
  | OpAssertOrJmpTo cond expected fail => ignore (assert_or_jmp_to cond expected fail)
  | OpAddSafepoint => add_safepoint
  | OpNextInsn => next_insn ly
  | OpVmLoad vaddr width => ignore (vm_load e ly vaddr width)
  | OpVmStore vaddr value => vm_store e ly vaddr value
  | OpLdrex vaddr width => ignore (ldrex e vaddr width)
  | OpStrex vaddr value => ignore (strex e vaddr value)
  | OpClrex => clrex
  end.

(** What Rust's types say of the arguments: constants fit, shift amounts are
    unsigned, and a terminator has the targets its constructor gives it. *)
Definition op_args_ok (op : BuilderOp) : Prop :=
  match op with
  | OpTerminateBlock _ t | OpTerminate t => kind_shape t
  | OpIconst c | OpIcmpImm _ _ c | OpBitwiseImm _ _ c | OpIaddImm _ c => const_ok c
  | OpShiftExactImm _ _ amount | OpShiftUnboundedImm _ _ amount => 0 <= amount
  | _ => True
  end.

(** What the methods leave to their caller and do not check: jumps pass what the
    target expects, and a parameter is only added while nothing jumps to the block,
    and not to the entry, whose parameters the calling convention fixes. *)
Definition op_jumps_ok (b : ExecIrBuilder) (op : BuilderOp) : Prop :=
  match op with
  | OpTerminateBlock _ t | OpTerminate t => Forall (jump_ok b) (targets t)
  | OpAddBlockParameterAt block _ => block <> ENTRYPOINT /\ untargeted b block
  | OpAddBlockParameter _ => current_block b <> ENTRYPOINT /\ untargeted b (current_block b)
  | OpAssertOrJmpTo _ _ fail => block_parameters b fail []
  | _ => True
  end.

Definition op_ok (b : ExecIrBuilder) (op : BuilderOp) : Prop := op_args_ok op /\ op_jumps_ok b op.

(** The functions under construction that sequences of calls reach, whatever is
    jumped to with whatever arguments. *)
Inductive Called : ExecIrBuilder -> Prop :=
  | called_new halt_check_every : Called (with_config halt_check_every)
  | called_op b op b' : Called b -> op_args_ok op -> run_op op b = Some (tt, b') -> Called b'.

(** Those whose callers take care of jumps. *)
Inductive Constructed : ExecIrBuilder -> Prop :=
  | constructed_new halt_check_every : Constructed (with_config halt_check_every)
  | constructed_op b op b' : Constructed b -> op_ok b op -> run_op op b = Some (tt, b') -> Constructed b'.

Section Kept.
Context {J : bool}.
#[local] Abbreviation Typed := (Typed_for J).
#[local] Abbreviation built := (built_for J).

Lemma ok_ignore {A} b (m : Build A) R : Typed b m R -> Typed b (ignore m) anything.
Proof. intros H. eapply ok_seq; [done|]. intros. by apply ok_ret. Qed.

Lemma ok_weaken {A} b (m : Build A) R : Typed b m R -> Typed b m anything.
Proof. intros H. by eapply ok_impl. Qed.

Lemma jumps_due b (l : list Jump) : (J = true -> Forall (jump_ok b) l) -> Forall (jump_due J b) l.
Proof. unfold jump_due. destruct J; [auto|]. intros _. by apply Forall_true. Qed.

(** Every method but those that add parameters. *)
Lemma run_op_typed b op :
  op_args_ok op -> (J = true -> op_jumps_ok b op) ->
  match op with OpAddBlockParameterAt _ _ | OpAddBlockParameter _ => False | _ => True end ->
  Typed b (run_op op) anything.
Proof.
  intros Hop Hj Hne. destruct op; simpl in *; try done;
    first [by eauto using ok_store_x_reg, ok_next_insn, ok_vm_store, ok_clrex with built
          |eapply ok_ignore; by eauto using ok_load_x_reg, ok_udiv, ok_sdiv, ok_ineg, ok_vm_load, ok_ldrex, ok_strex, ok_assert_or_jmp_due with built
          |idtac].
  - apply (ok_ignore _ _ anything). by apply ok_create.
  - by apply ok_switch.
  - by apply ok_cold.
  - by apply ok_terminate_block; [|apply jumps_due|].
  - by apply ok_terminate; [|apply jumps_due|].
Qed.

Lemma run_op_built b op b' : built b -> op_args_ok op -> (J = true -> op_jumps_ok b op) -> run_op op b = Some (tt, b') -> built b'.
Proof.
  intros Hb Hop Hj E. destruct op; try (by destruct (run_op_typed b _ Hop Hj I Hb _ _ E)); simpl in *;
    unfold ignore, add_block_parameter, get_current_block, sm_bind in E.
  - destruct (add_block_parameter_at _ _ _) as [[v b1]|] eqn:Ea; [|done]. injection E as <-. by eapply ok_parameter.
  - destruct (add_block_parameter_at _ _ _) as [[v b1]|] eqn:Ea; [|done]. injection E as <-. by eapply ok_parameter.
Qed.

Lemma with_config_built n : built (with_config n).
Proof.
  split; try done.
  - by exists [].
  - eexists. split; [done|]. unfold entry_for. by destruct J.
  - intros block d Hd. apply list_lookup_singleton_Some in Hd as [_ <-]. split_and!.
    + intros v (a & -> & _)%list_elem_of_fmap. exists (arg_ty a). by destruct a.
    + by intros x ?%elem_of_nil.
    + by split; [|constructor].
  - intros x block d i block' d' i' Hd Hx. apply list_lookup_singleton_Some in Hd as [_ <-]. by destruct i.
  - intros v s s' [? ? ? Hx|b1 i d Hd Hv] [? ? ? Hx'|b2 j d' Hd' Hv']; try done.
    apply list_lookup_singleton_Some in Hd as [H1 <-], Hd' as [H2 <-].
    assert (b1 = b2) as -> by (apply get_inj; congruence). f_equal. eapply NoDup_lookup; [|done..]. simpl.
    by apply (bool_decide_unpack _).
Qed.
End Kept.

Lemma called_built b : Called b -> built_for false b.
Proof. induction 1 as [n|b op b' _ IH Hop E]; [apply with_config_built|by eapply run_op_built]. Qed.

Lemma constructed_built b : Constructed b -> built b.
Proof. induction 1 as [n|b op b' _ IH [Hop Hj] E]; [apply with_config_built|by eapply run_op_built]. Qed.

(** C7: what the safe methods of the builder make is well typed.  After any sequence
    of calls of its public methods that do not panic, from a new builder, in any order
    and with any values, jumps and blocks and whatever constants, amounts and
    terminators their Rust types have ([op_args_ok]), every statement has operands of the types
    it expects and outputs of the types [type_of] gives, every terminator has an
    operand of a type it takes and the targets of its kind, none of them the entry,
    every value has one definition, every statement is in one place, and the handles
    of values, statements, slots and signatures are in range: the contract under which
    the unsafe [emit_stmt_full] may be called.  What the arguments of a jump are is
    not checked; if every caller passes each target what it expects at the time, and
    adds parameters to blocks nothing jumps to only, then all jumps stay right to the
    end, the caller's and those of the code the methods emit. *)
Theorem builder_well_typed b :
  (Called b -> built_for false b) /\
  (Constructed b -> built_for false b /\
    forall block d j, arena_get (blocks b) block = Some d -> j ∈ targets (terminator d) -> jump_ok b j).
Proof.
  split; [apply called_built|]. intros Hc. split.
  - apply called_built. clear -Hc. induction Hc as [n|b op b' _ IH [? ?] E]; [constructor|by eapply called_op].
  - intros block d j Hd Hj. destruct (bu_blocks _ (constructed_built b Hc) _ _ Hd) as (_ & _ & _ & HF).
    rewrite Forall_forall in HF. by destruct (HF j Hj).
Qed.
End Ops.

(** ** A function *)

Section Sample.
Context (e : Endian) (ly : Layout).

Fixpoint run_ops (ops : list BuilderOp) : Build unit :=
  match ops with [] => sm_ret tt | op :: ops => run_op e ly op ;;! run_ops ops end.

Lemma constructed_ops ops b b' :
  Constructed e ly b -> Forall (fun op => forall b, op_ok b op) ops -> run_ops ops b = Some (tt, b') -> Constructed e ly b'.
Proof.
  revert b. induction ops as [|op ops IH]; intros b Hb Hops; simpl; [by intros [= <-]|].
  apply Forall_cons in Hops as [Hop Hops]. unfold sm_bind. destruct (run_op e ly op b) as [[[] b1]|] eqn:E; [|done].
  apply IH; [|done]. by eapply constructed_op.
Qed.
End Sample.

(** Two constants, a load whose page is looked up, a store, and the way out. *)
Definition sample_ops : list BuilderOp :=
  [OpIconst (Const.unsigned W64 4096); OpVmLoad 7%positive W32; OpAddSafepoint; OpLoadXReg 3 W64;
   OpIadds 7%positive 7%positive; OpNextInsn; OpTerminate Term.Return].

Lemma sample_ops_ok : Forall (fun op => forall b, op_ok b op) sample_ops.
Proof. repeat (apply Forall_cons; split; [intros b; split; first [done|constructor|by vm_compute]|]). constructor. Qed.

(** A jump to a block that does not exist, and the same function without it. *)
Lemma builder_well_typed_witness :
  exists b b', Called Little sample_layout b' /\ built_for false b' /\ ~ built b' /\
    Constructed Little sample_layout b /\ built_for false b /\ length (blocks b) = 10%nat /\ length (all_stmts b) = 52%nat.
Proof.
  destruct (run_ops Little sample_layout sample_ops (with_config 4)) as [[[] b]|] eqn:E; [|by vm_compute in E].
  assert (Constructed Little sample_layout b) as Hc by (eapply constructed_ops; [constructor|apply sample_ops_ok|exact E]).
  destruct (run_op Little sample_layout (OpTerminate (Term.Br (jump_to 5%positive))) (with_config 4)) as [[[] b']|] eqn:E'; [|by vm_compute in E'].
  assert (Called Little sample_layout b') as Hc' by (eapply (called_op _ _ (with_config 4)); [apply called_new| |exact E']; done).
  exists b, b'. split; [done|]. split; [exact (proj1 (builder_well_typed Little sample_layout b') Hc')|]. split.
  { intros Hb. vm_compute in E'. injection E' as <-. destruct (bu_blocks _ Hb ENTRYPOINT _ eq_refl) as (_ & _ & _ & HF).
    apply Forall_inv in HF as [_ (d & Hd & _)]. by vm_compute in Hd. }
  split; [done|]. split; [exact (proj1 (proj2 (builder_well_typed Little sample_layout b) Hc))|]. split; vm_compute in E; by injection E as <-.
Defined.
