(* ===== verification/IrRun.v ===== *)
(** * At run time every value has its type
    ([jit-compiler-core/src/ir/mod.rs])

    Type preservation for the IR: in a well-typed function, run as [IrSem] says,
    whatever is bound to a value is what the builder's table says its type is, an
    integer of that width, a boolean or a pointer into that region. *)

From S2P Require Import Prelude Convert HaltReason MemTypes Fault Memops ObjectQueue Fabric PageTable IoMMU.
From S2P Require Import ExclusiveMonitor LookupCache MemAccess FfiSupport Arena Ir IrSem IrEmit IrLogic IrArith.
From S2P Require Import IrTyping IrBuilt IrBuilder.
Local Open Scope Z_scope.
Local Open Scope emu_scope.

(** The shape of a value: [has_type] without the range of its bits. *)
Definition has_shape (v : Value) (ty : TypeFull) : Prop :=
  match v, ty with
  | VInt w _, TInt w' => w = w'
  | VBool _, TBool => True
  | VPtr p, THostPtr r => region_of p = r
  | _, _ => False
  end.

(** Every value bound has its type. *)
Definition env_typed (b : ExecIrBuilder) (ρ : Env) : Prop :=
  forall v x, ρ !! v = Some x -> exists ty, vty b v ty /\ has_shape x ty.

Section Run.
Context {Error : Type} (e : Endian) (ly : Layout) (io_mmu : IoMMU).
Abbreviation World := (@World Error).
Abbreviation Point := (@Point Error).

(** What a load yields is of the type it loads. *)
Lemma load_host_shape ty p offset (s s' : World) v :
  load_host e ly ty p offset s = Some (v, s') -> has_shape v (load_type_full ty).
Proof.
  unfold load_host. destruct p as [| | | |base|? |? |? |slot], ty as [w|r]; try done; unfold sm_bind, sm_ret.
  - destruct (read_registers _ _ _ _) as [[z s1]|]; [|done]. by intros [= <- _].
  - unfold read_tlb. repeat case_match; intros Hr; by simplify_eq/=.
  - unfold read_tlb. repeat case_match; intros Hr; by simplify_eq/=.
  - repeat case_match; intros Hr; by simplify_eq/=.
Qed.

(** What a helper returns is what the signature it is called with says. *)
Lemma call_helper_shape func sig vs xs (s s' : World) d :
  callback_fits func sig -> arena_get initial_signatures sig = Some d ->
  call_helper e io_mmu func vs s = Some (xs, s') ->
  Forall2 has_shape xs (match sig_ret d with Some ty => [ty] | None => [] end).
Proof.
  intros Hf Hd.
  assert (match func with CbClrex => sig_ret d = None | _ => sig_ret d = Some (TInt W8) end) as Hret.
  { destruct func as [w|w|w|w|]; simpl in Hf; subst; try (by injection Hd as <-);
      destruct w; by injection Hd as <-. }
  unfold call_helper, sm_bind, sm_ret, sm_assert.
  destruct func; rewrite Hret; repeat (case_match; try done); intros H'; simplify_eq/=; by repeat constructor.
Qed.

Lemma shape_of b ρ v x ty : env_typed b ρ -> ρ !! v = Some x -> vty b v ty -> has_shape x ty.
Proof. intros Hρ (ty' & Hv' & ?)%Hρ Hv. unfold vty in *. by simplify_eq. Qed.

Lemma type_of_value b v ty tys :
  vty b v ty -> (let! t := ty_of v in sm_ret [t]) b = Some (tys, b) -> tys = [ty].
Proof. intros Hv. unfold sm_bind, ty_of, sm_of_option, sm_ret. rewrite Hv. by intros [= <-]. Qed.

Ltac shapes Hρ :=
  repeat match goal with
  | H : _ !! ?v = Some _, H' : vty _ ?v _ |- _ => pose proof (shape_of _ _ _ _ _ Hρ H H'); clear H
  end; simplify_eq/=.

Lemma eval_stmt_typed b ρ rv xs tys (s s' : World) :
  signatures b = initial_signatures -> env_typed b ρ -> stmt_typed b rv -> type_of rv b = Some (tys, b) ->
  eval_stmt e ly io_mmu ρ rv s = Some (xs, s') -> Forall2 has_shape xs tys.
Proof.
  intros Hsig Hρ Hs Ht He.
  destruct rv; cbn [eval_stmt stmt_typed type_of] in *; unfold int_operand in *;
    repeat match goal with H : exists _, _ |- _ => destruct H | H : _ /\ _ |- _ => destruct H end;
    unfold lookup_value in He;
    try (eapply type_of_value in Ht; [|done]); try (injection Ht as <-).
  all: unfold sm_bind, sm_of_option, sm_assert, sm_ret, sm_panic in He.
  all: repeat (case_match; try done); shapes Hρ; try (by repeat constructor).
  - unfold sm_bind, ty_of, sm_of_option, sm_ret in Ht. unfold vty in *. rewrite H in Ht. injection Ht as <-. by repeat constructor.
  - constructor; [by eapply load_host_shape|constructor].
  - unfold sm_bind, signature_of, sm_of_option, sm_ret in Ht. rewrite Hsig in *.
    match goal with E : arena_get initial_signatures _ = Some _ |- _ => rewrite E in Ht; injection Ht as <- end.
    by eapply call_helper_shape.
Qed.

Lemma bind_values_typed b vs xs tys (ρ ρ' : Env) :
  bind_values vs xs ρ = Some ρ' -> env_typed b ρ -> Forall2 (vty b) vs tys -> Forall2 has_shape xs tys -> env_typed b ρ'.
Proof.
  intros H Hρ Hv Hx. revert xs ρ H Hρ Hx. induction Hv as [|v ty vs tys Hv _ IH]; intros [|x xs] ρ H Hρ Hx; try done.
  { by injection H as <-. }
  apply Forall2_cons in Hx as [Hx Hxs]. eapply IH; [done| |done].
  intros u y [[<- <-]|[_ ?]]%lookup_insert_Some; [by exists ty|by apply Hρ].
Qed.

Lemma exec_stmt_typed b d (ρ ρ' : Env) (s s' : World) :
  signatures b = initial_signatures -> env_typed b ρ -> stmt_ok b d ->
  exec_stmt e ly io_mmu d ρ s = Some (ρ', s') -> env_typed b ρ'.
Proof.
  intros Hsig Hρ (Hs & tys & Ht & Hout) H. unfold exec_stmt, sm_bind, sm_of_option in H.
  destruct (eval_stmt e ly io_mmu ρ (rvalue d) s) as [[xs s1]|] eqn:E; [|done].
  destruct (bind_values (outputs d) xs ρ) as [ρ1|] eqn:Eb; [|done]. injection H as <- <-.
  eapply bind_values_typed; [done..|]. by eapply eval_stmt_typed.
Qed.

(** What a jump passes has the types its target's parameters have. *)
Lemma follow_typed b j (ρ : Env) (s : World) p :
  env_typed b ρ -> jump_typed b j -> follow b j ρ s = Some (Continue p) -> env_typed b (values p).
Proof.
  intros Hρ (_ & d & Hd & HF) H. unfold follow in H. rewrite Hd in H. cbn [mbind option_bind] in H.
  destruct (mapM _ _) as [xs|] eqn:Ex; [|done]. cbn [mbind option_bind] in H.
  destruct (bind_values _ _ _) as [ρ'|] eqn:Eb; [|done]. injection H as <-. simpl.
  apply mapM_Some in Ex.
  assert (exists tys, Forall2 (vty b) (parameters d) tys /\ Forall2 has_shape xs tys) as (tys & ? & ?); [|by eapply bind_values_typed].
  clear Eb Hd. revert xs Ex. induction HF as [|v u vs us (ty & Hv & Hu) _ IH]; intros xs Hx.
  - apply Forall2_nil_inv_l in Hx as ->. exists []. by split.
  - apply Forall2_cons_inv_l in Hx as (x & xs' & Hx & Hxs & ->). destruct (IH _ Hxs) as (tys & ? & ?).
    exists (ty :: tys). split; constructor; try done. by eapply shape_of.
Qed.

Lemma step_typed b (p p' : Point) :
  built b -> env_typed b (values p) -> step e ly io_mmu b p = Some (Continue p') -> env_typed b (values p').
Proof.
  intros Hb Hρ H. unfold step in H. destruct (arena_get (blocks b) (at_block p)) as [d|] eqn:Hd; [|done].
  cbn [mbind option_bind] in H. destruct (stmts d !! at_index p) as [x|] eqn:Hx.
  - destruct (arena_get (all_stmts b) x) as [sd|] eqn:Hsd; [|done]. cbn [mbind option_bind] in H.
    destruct (exec_stmt e ly io_mmu sd (values p) (world p)) as [[ρ s]|] eqn:E; [|done]. injection H as <-.
    eapply exec_stmt_typed; [by apply Hb|done|by eapply (bu_stmts _ Hb)|done].
  - destruct (terminated d); [|done]. apply (bu_blocks _ Hb) in Hd as (_ & _ & _ & Hj).
    unfold exec_terminator in H. destruct (kind (terminator d)), (targets (terminator d)) as [|j1 [|j2 [|? ?]]]; try done.
    + by repeat case_match.
    + match type of H with context [?m !! ?v] => destruct (m !! v) as [c|] end; [|done]. cbn [mbind option_bind] in H. destruct (is_zero c) as [z|]; [|done].
      cbn [mbind option_bind] in H. repeat (apply Forall_cons in Hj as [? Hj]). destruct z; (eapply follow_typed; [exact Hρ| |exact H]); done.
    + apply Forall_cons in Hj as [? _]. by eapply follow_typed.
Qed.

End Run.

(** ** From the entry *)

(** What the calling convention binds. *)
Definition entry_env (ident : MaybeIdent.t) : Env := list_to_map
  [(ARG_EXEC_STATE, VPtr PExecState); (ARG_EXEC_CONTEXT, VPtr PExecContext); (ARG_TLB_PTR, VPtr (PTlb 0));
   (ARG_IO_MMU_IDENT, VPtr (PIdent ident)); (ARG_HALT_REASON_PTR, VPtr PHaltReason); (ARG_IO_MMU, VPtr PIoMMU)].

Lemma entry_env_typed b ident : (forall a, vty b (as_ssa_value a) (arg_ty a)) -> env_typed b (entry_env ident).
Proof.
  intros Hb v x Hv. apply elem_of_list_to_map_2 in Hv.
  repeat (apply elem_of_cons in Hv as [[= -> ->]|Hv]); [..|by apply elem_of_nil in Hv].
  - exists (arg_ty AExecState). split; [exact (Hb AExecState)|done].
  - exists (arg_ty AExecContext). split; [exact (Hb AExecContext)|done].
  - exists (arg_ty ATlb). split; [exact (Hb ATlb)|done].
  - exists (arg_ty AIoMMUIdentifier). split; [exact (Hb AIoMMUIdentifier)|done].
  - exists (arg_ty AHaltReasonPtr). split; [exact (Hb AHaltReasonPtr)|done].
  - exists (arg_ty AIoMMU). split; [exact (Hb AIoMMU)|done].
Qed.
