(* ===== verification/IrRange.v ===== *)
(** * At run time every integer fits its width
    ([jit-compiler-core/src/ir/mod.rs], [ffi_support.rs]; [io-mmu/src/lib.rs])

    [IrRun] says that values have their types; here, that integers fit the widths
    the types give them.  That rests on an invariant of the state: memory, registers
    and scratch slots hold bytes, page numbers in the TLB and the halt word are of
    their widths; every statement and helper keeps it. *)

From S2P Require Import Prelude Convert HaltReason MemTypes Fault Memops ObjectQueue Fabric PageTable IoMMU.
From S2P Require Import ExclusiveMonitor LookupCache MemAccess FfiSupport Arena Ir IrSem IrEmit IrLogic IrArith.
From S2P Require Import IrTyping IrBuilt IrBuilder IrRun GuestMemory.
Local Open Scope Z_scope.
Local Open Scope emu_scope.

(** ** Operations that keep an invariant *)

Definition stays {S A} (P : S -> Prop) (m : SM S A) (Q : A -> Prop) : Prop :=
  forall s a s', P s -> m s = Some (a, s') -> Q a /\ P s'.

Section Stays.
Context {S A B : Type} (P : S -> Prop).

Lemma stays_ret (a : A) Q : Q a -> stays P (sm_ret a) Q.
Proof. by intros H s a' s' Hs [= <- <-]. Qed.
Lemma stays_panic (Q : A -> Prop) : stays P sm_panic Q.
Proof. by intros s a s' _. Qed.
Lemma stays_option (o : option A) Q : (forall a, o = Some a -> Q a) -> stays P (sm_of_option o) Q.
Proof. intros H s a s' Hs. unfold sm_of_option. destruct o; [|done]. intros [= <- <-]. auto. Qed.
Lemma stays_assert b : stays P (sm_assert b) (fun _ => b = true).
Proof. intros s a s' Hs. unfold sm_assert. destruct b; [|done]. by intros [= <- <-]. Qed.
Lemma stays_bind (m : SM S A) (k : A -> SM S B) Q1 Q :
  stays P m Q1 -> (forall a, Q1 a -> stays P (k a) Q) -> stays P (sm_bind m k) Q.
Proof.
  intros Hm Hk s b s2 Hs. unfold sm_bind. destruct (m s) as [[a s1]|] eqn:E; [|done]. intros H.
  destruct (Hm _ _ _ Hs E) as [Ha Hs1]. by eapply Hk.
Qed.
Lemma stays_impl (m : SM S A) (Q Q' : A -> Prop) : stays P m Q -> (forall a, Q a -> Q' a) -> stays P m Q'.
Proof. intros Hm H s a s' Hs E. destruct (Hm _ _ _ Hs E). auto. Qed.
End Stays.

(** One step of a proof that something stays. *)
Ltac stay :=
  lazymatch goal with
  | |- stays _ (sm_ret _) _ => apply stays_ret
  | |- stays _ sm_panic _ => apply stays_panic
  | |- stays _ (sm_of_option _) _ => apply stays_option
  | |- stays _ (fault _ _) _ => apply stays_ret
  end.

(** ** Memory *)

Section Mem.
Context (e : Endian).

Lemma store_bytes_ok m p l m' : mem_ok m -> Forall is_byte l -> store_bytes m p l = Some m' -> mem_ok m'.
Proof. intros Hm Hl. unfold store_bytes. destruct (load_bytes m p (length l)); [|done]. intros [= <-]. by apply write_bytes_ok. Qed.

Lemma load_aligned_stays n p : stays mem_ok (load_ne_aligned_inner e n p) (fun z => fits (bits_of_bytes n) z).
Proof.
  intros m z m' Hm. unfold load_ne_aligned_inner. destruct (is_multiple_of _ _); [|done].
  destruct (load_bytes m p n) as [l|] eqn:El; [|done]. intros [= <- <-]. split; [|done].
  pose proof (load_bytes_is_byte _ _ _ _ Hm El) as Hb. apply load_bytes_length in El as <-.
  by apply from_ne_bytes_fits.
Qed.

Lemma store_aligned_stays n p v : stays mem_ok (store_ne_aligned_inner e n p v) (fun _ => True).
Proof.
  intros m z m' Hm. unfold store_ne_aligned_inner. destruct (is_multiple_of _ _); [|done].
  destruct (store_bytes _ _ _) as [m1|] eqn:E; [|done]. intros [= _ <-]. split; [done|].
  eapply store_bytes_ok; [done| |done]. apply to_ne_bytes_is_byte.
Qed.

Lemma load8_stays p : stays mem_ok (load8 p) is_byte.
Proof. intros m b m' Hm. unfold load8. destruct (m !! p) eqn:E; [|done]. intros [= <- <-]. split; [by eapply Hm|done]. Qed.

Lemma store8_stays p v : is_byte v -> stays mem_ok (store8 p v) (fun _ => True).
Proof.
  intros Hv m b m' Hm. unfold store8. destruct (m !! p) eqn:E; [|done]. intros [= _ <-]. split; [done|].
  by apply map_Forall_insert_2.
Qed.

Lemma load_part_stays w p : stays mem_ok (load_part e w p) (fun _ => True).
Proof.
  destruct w as [|[|w]]; simpl; (eapply stays_impl; [first [apply load8_stays|apply load_aligned_stays]|done]).
Qed.

Lemma store_part_stays w p v : stays mem_ok (store_part e w p (as_uint (bits_of_bytes w) v)) (fun _ => True).
Proof.
  destruct w as [|[|w]]; [apply store_aligned_stays| |apply store_aligned_stays].
  apply store8_stays. by apply (wrap_fits 8).
Qed.

Lemma load_ne_stays n p : stays mem_ok (load_ne_inner e n p) (fun _ => True).
Proof.
  assert (forall parts off, stays mem_ok (combine_ne_parts e n p off parts) (fun _ => True)) as H.
  { induction parts as [|w parts IH]; intros off; simpl; [by stay|].
    eapply stays_bind; [apply load_part_stays|]. intros limb _. eapply stays_bind; [by apply (stays_option _ _ (fun _ => True))|].
    intros sh _. eapply stays_bind; [apply IH|]. intros r _. by stay. }
  unfold load_ne_inner. destruct (_ =? 0); [by eapply stays_impl; [apply load_aligned_stays|]|].
  destruct (ne_cases _ _); [|stay]. eapply stays_bind; [apply stays_assert|]. intros _ _. apply H.
Qed.

Lemma store_ne_stays n p v : stays mem_ok (store_ne_inner e n p v) (fun _ => True).
Proof.
  assert (forall parts off, stays mem_ok (split_ne_parts e n p v off parts) (fun _ => True)) as H.
  { induction parts as [|w parts IH]; intros off; simpl; [by stay|].
    eapply stays_bind; [by apply (stays_option _ _ (fun _ => True))|]. intros sh _.
    eapply stays_bind; [apply store_part_stays|]. intros _ _. apply IH. }
  unfold store_ne_inner. destruct (_ =? 0); [apply store_aligned_stays|].
  destruct (ne_cases _ _); [|stay]. eapply stays_bind; [apply stays_assert|]. intros _ _. apply H.
Qed.

Lemma from_le_fits n z : fits (bits_of_bytes n) z -> fits (bits_of_bytes n) (from_le e n z).
Proof.
  destruct e; [done|]. intros _. simpl. unfold swap_bytes.
  pose proof (from_le_bytes_fits (rev (to_le_bytes n z)) (Forall_rev (to_le_bytes_is_byte n z))) as H.
  by rewrite length_rev, length_to_le_bytes in H.
Qed.

Lemma load_le_aligned_stays n p : stays mem_ok (load_le_aligned e n p) (fun z => fits (bits_of_bytes n) z).
Proof. eapply stays_bind; [apply load_aligned_stays|]. intros z Hz. stay. by apply from_le_fits. Qed.
End Mem.

(** ** Guest accesses through the TLB *)

Definition fabric_bytes (f : Fabric) : Prop := mem_ok (mem f).
Definition tlb_fits (t : Tlb) : Prop := Forall (fun entry => fits 64 (virtual_page_number entry)) t.

Lemma stays_on_mem {A} (m : SM Mem A) Q : stays mem_ok m Q -> stays fabric_bytes (on_mem m) Q.
Proof.
  intros Hm f a f' Hf. unfold on_mem. destruct (m (mem f)) as [[x v]|] eqn:E; [|done]. intros [= <- <-].
  by apply (Hm _ _ _ Hf E).
Qed.

(** What does not touch memory. *)
Lemma stays_mem_same {A} (m : SM Fabric A) : (forall f a f', m f = Some (a, f') -> mem f' = mem f) -> stays fabric_bytes m (fun _ => True).
Proof. intros H f a f' Hf E. split; [done|]. unfold fabric_bytes. by rewrite (H _ _ _ E). Qed.

Lemma div_rem_fits a p o : fits 64 a -> div_rem_page_size a = Some (p, o) -> fits 64 p.
Proof.
  intros Ha. rewrite div_rem_eq by done. intros [= <- _]. unfold fits in *. split; [apply Z.div_pos; lia|].
  apply Z.div_lt_upper_bound; lia.
Qed.

Lemma inc_fits p q : fits 64 p -> PageNum.inc p = Some q -> fits 64 q.
Proof.
  intros Hp. unfold PageNum.inc, PageNum.from_page_number_checked. destruct (Z.ltb_spec PageNum.MAX (p + 1)); [done|].
  unfold PageNum.from_page_number_unchecked. intros Hq. assert (q = p + 1) as -> by (repeat case_match; simplify_eq; done).
  unfold PageNum.MAX in *. vm_compute (PageNum.from_vaddr U64_MAX) in H. unfold fits in *. lia.
Qed.

Section Access.
Context {Error : Type} (e : Endian) (m : IoMMU).

Lemma update_entry_page entry id p page t entry' t' :
  TlbEntry_update_entry entry id p page t = Some (entry', t') -> virtual_page_number entry' = p.
Proof. unfold TlbEntry_update_entry, sm_bind, sm_ret. intros H. by repeat case_match; simplify_eq. Qed.

Lemma get_page_stays c p :
  tlb_fits c -> fits 64 p ->
  stays fabric_bytes (cache_get_page (Error := Error) c m p) (fun '(_, c') => tlb_fits c').
Proof.
  intros Hc Hp f [r c'] f' Hf. simpl. unfold on_tokens.
  destruct (Tlb_lookup _ _ _ _ _) as [[[r0 c0] t']|] eqn:E; [|done]. intros [= <- <- <-]. split; [|done].
  unfold Tlb_lookup, sm_bind, sm_of_option, sm_ret in E. destruct (Tlb_entry c p) as [[i entry]|]; [|done].
  destruct (_ || _).
  - destruct (Table.get_page f (table m) p) as [[page|err]|]; [|by injection E as _ <- _|done].
    destruct (TlbEntry_update_entry entry (identifier m) p page (tokens f)) as [[entry' t1]|] eqn:Eu; [|done].
    injection E as _ <- _. apply Forall_insert; [done|]. by rewrite (update_entry_page _ _ _ _ _ _ _ Eu).
  - by repeat case_match; simplify_eq.
Qed.

Lemma resolve_stays n c a :
  tlb_fits c -> fits 64 a ->
  stays fabric_bytes (resolve_aligned_scalar_access (Error := Error) n c m a) (fun '(_, c') => tlb_fits c').
Proof.
  intros Hc Ha. unfold resolve_aligned_scalar_access. destruct (negb _); [by stay|]. unfold lookup_addr.
  eapply (stays_bind _ _ _ (fun '(_, c') => tlb_fits c')).
  - eapply (stays_bind _ _ _ (fun '(p, _) => fits 64 p)).
    + stay. intros [p o] Hp. by eapply div_rem_fits.
    + intros [p o] Hp. eapply stays_bind; [by apply get_page_stays|]. intros [r c'] Hc'. by stay.
  - intros [[[[p o] page]|err] c'] Hc'; [|by stay]. eapply stays_bind; [apply stays_assert|]. intros _ _. by stay.
Qed.

Lemma page_addr_stays page o : stays fabric_bytes (page_addr page o) (fun _ => True).
Proof. eapply stays_bind; [by apply (stays_option _ _ (fun _ => True))|]. intros p _. by stay. Qed.

Lemma set_dirty_stays page : stays fabric_bytes (set_dirty page) (fun _ => True).
Proof.
  apply stays_mem_same. intros f a f'. unfold set_dirty, get_backed, Entry.set_mut_flags, sm_bind. intros H.
  by repeat case_match; simplify_eq.
Qed.

Lemma small_access_stays n c a :
  tlb_fits c -> fits 64 a ->
  stays fabric_bytes (static_small_multibyte_access (Error := Error) n c m a) (fun '(_, c') => tlb_fits c').
Proof.
  intros Hc Ha. unfold static_small_multibyte_access.
  eapply (stays_bind _ _ _ (fun '(p, _) => fits 64 p)); [stay; intros [p o] Hp; by eapply div_rem_fits|].
  intros [p o] Hp. eapply stays_bind; [by apply get_page_stays|]. intros [[page|err] c'] Hc'; [|by stay].
  destruct (checked_sub _ _) as [[|k|k]|]; try by stay.
  all: destruct (PageNum.inc p) as [q|] eqn:Eq; [|by stay].
  all: eapply stays_bind; [apply get_page_stays; [done|by eapply inc_fits]|]; intros [[page'|err] c2] Hc2; by stay.
Qed.

Abbreviation accesses op := (stays fabric_bytes op (fun '(_, c') => tlb_fits c')).

Ltac branch := cbv zeta; repeat match goal with
  | |- accesses (if ?b then _ else _) => destruct b
  | |- accesses (sm_ret _) => by stay
  | |- accesses (fault _ _) => by stay
  end.
Ltac skip := eapply stays_bind;
  [first [apply page_addr_stays | apply set_dirty_stays | by apply (stays_option _ _ (fun _ => True))]|intros ? _].

Lemma load_byte_stays c a : tlb_fits c -> fits 64 a -> accesses (load_byte (Error := Error) c m a).
Proof.
  intros Hc Ha. eapply stays_bind; [by apply resolve_stays|]. intros [[[page o]|err] c'] Hc'; branch.
  skip. eapply stays_bind; [apply stays_on_mem, load8_stays|]. intros b _. by stay.
Qed.

Lemma store_byte_stays c a v : tlb_fits c -> fits 64 a -> is_byte v -> accesses (store_byte (Error := Error) c m a v).
Proof.
  intros Hc Ha Hv. eapply stays_bind; [by apply resolve_stays|]. intros [[[page o]|err] c'] Hc'; branch.
  skip. eapply stays_bind; [by apply stays_on_mem, store8_stays|]. intros [] _. skip. by stay.
Qed.

Lemma load_le_stays n c a : tlb_fits c -> fits 64 a -> accesses (load_le (Error := Error) e n c m a).
Proof.
  intros Hc Ha. eapply stays_bind; [by apply small_access_stays|]. intros [[acc|err] c'] Hc'; [|by stay].
  destruct (second_page acc) as [[page o]|]; branch.
  - skip. by stay.
  - do 2 skip. do 2 (eapply stays_bind; [apply stays_on_mem, load_le_aligned_stays|intros ? _]). do 4 skip. by stay.
  - skip. eapply (stays_bind _ _ _ (fun _ => True)); [|intros v _; by stay]. apply stays_on_mem.
    eapply stays_bind; [apply load_ne_stays|]. intros v _. by stay.
Qed.

Lemma store_hi_stays count p i l : Forall is_byte l -> stays mem_ok (store_hi count p i l) (fun _ => True).
Proof.
  intros Hl. revert p i. induction count as [|count IH]; intros p i; simpl; [by stay|]. destruct i as [|i]; [stay|].
  eapply (stays_bind _ _ _ is_byte); [stay; intros b Hb; by eapply Forall_lookup_1|]. intros b Hb.
  eapply stays_bind; [by apply store8_stays|]. intros [] _. apply IH.
Qed.

Lemma store_lo_stays p i l : Forall is_byte l -> stays mem_ok (store_lo p i l) (fun _ => True).
Proof.
  intros Hl. revert p. induction i as [|i IH]; intros p; simpl; [stay|].
  eapply (stays_bind _ _ _ is_byte); [stay; intros b Hb; by eapply Forall_lookup_1|]. intros b Hb.
  eapply stays_bind; [by apply store8_stays|]. intros [] _. destruct i; [by stay|apply IH].
Qed.

Lemma store_le_stays n c a v : tlb_fits c -> fits 64 a -> accesses (store_le (Error := Error) e n c m a v).
Proof.
  intros Hc Ha. eapply stays_bind; [by apply small_access_stays|]. intros [[acc|err] c'] Hc'; [|by stay].
  destruct (second_page acc) as [[page o]|]; branch.
  - skip. by stay.
  - do 2 skip. eapply stays_bind; [apply stays_on_mem, store_hi_stays, to_le_bytes_is_byte|]. intros i _.
    eapply stays_bind; [apply stays_on_mem, store_lo_stays, to_le_bytes_is_byte|]. intros [] _. do 2 skip. by stay.
  - skip. eapply stays_bind; [apply stays_on_mem, store_ne_stays|]. intros [] _. skip. by stay.
Qed.

Lemma resolve_exclusive_stays n prot c a :
  tlb_fits c -> fits 64 a -> accesses (resolve_addr_exclusive (Error := Error) n m a prot c).
Proof.
  intros Hc Ha. eapply stays_bind; [by apply resolve_stays|]. intros [[[page o]|err] c'] Hc'; branch. skip. by stay.
Qed.

(** ** Helpers *)

Abbreviation Cpu := (Cpu Error Tlb).
Definition cpu_fits (c : Cpu) : Prop := fabric_bytes (cpu_fabric c) /\ tlb_fits (tlb c).

Lemma on_mmu_stays {A} (op : Tlb -> SM Fabric (A * Tlb)) :
  (forall c, tlb_fits c -> accesses (op c)) -> stays cpu_fits (on_mmu op) (fun _ => True).
Proof.
  intros H s a s' [Hf Ht]. unfold on_mmu. destruct (op (tlb s) (cpu_fabric s)) as [[[x c] f]|] eqn:E; [|done].
  intros [= <- <-]. destruct (H _ Ht _ _ _ Hf E). done.
Qed.

Lemma on_monitor_stays {A} (op : SM (ExclusiveMonitor * Mem) A) :
  stays (fun p => mem_ok p.2) op (fun _ => True) -> stays cpu_fits (on_monitor op) (fun _ => True).
Proof.
  intros H s a s' [Hf Ht]. unfold on_monitor. destruct (op _) as [[x [mo v]]|] eqn:E; [|done].
  intros [= <- <-]. by destruct (H (exclusive_monitor s, mem (cpu_fabric s)) _ _ Hf E) as [_ ?].
Qed.

Lemma set_fault_stays op err : stays cpu_fits (set_fault op err) (fun _ => True).
Proof. intros s a s' H. unfold set_fault. destruct (Ffi.set_fault _ _ _) as [[? ?]|]; [|done]. by intros [= _ <-]. Qed.

Lemma swap_reservation_stays r : stays cpu_fits (swap_reservation r) (fun _ => True).
Proof. intros s a s' H. by intros [= _ <-]. Qed.

Lemma ldrex_at_stays n p : stays (fun s : ExclusiveMonitor * Mem => mem_ok s.2) (ldrex_at e n p) (fun _ => True).
Proof.
  eapply (stays_bind _ _ _ (fun _ => True)); [|intros [v tok] _; by stay].
  intros [mo me] a [mo' me'] Hm. unfold ExclusiveMonitor.ldrex. destruct (ptr_lock p mo); [|done].
  destruct (load_ne_aligned_inner e n p me) as [[v me1]|] eqn:E; [|done]. intros [= _ _ <-].
  by destruct (load_aligned_stays e n p _ _ _ Hm E).
Qed.

Lemma strex_at_stays n p ver old v : stays (fun s : ExclusiveMonitor * Mem => mem_ok s.2) (strex_at e n p ver old v) (fun _ => True).
Proof.
  eapply (stays_bind _ _ _ (fun _ => True)); [|intros r _; by stay].
  intros [mo me] a [mo' me'] Hm. unfold ExclusiveMonitor.strex. destruct (ptr_lock p mo) as [lock|]; [|done].
  destruct (_ || _); [by intros [= _ _ <-]|]. destruct (checked_add _ _ _); [|done].
  match goal with |- context [sm_bind ?op ?k me] => assert (stays mem_ok (sm_bind op k) (fun _ => True)) as H; [|destruct (sm_bind op k me) as [[r me1]|] eqn:E] end; [| |done].
  - eapply (stays_bind _ _ _ (fun _ => True)); [|intros b _; by stay]. unfold compare_exchange.
    eapply stays_bind; [apply load_aligned_stays|]. intros z0 _. destruct (_ =? _); [|by stay].
    eapply stays_bind; [apply store_aligned_stays|]. intros [] _. by stay.
  - intros [= _ _ <-]. by destruct (H _ _ _ Hm E).
Qed.

Ltac helper := repeat first
  [ by stay
  | eapply stays_bind; [first [apply set_fault_stays | apply swap_reservation_stays]|intros ? _] ].

Lemma ffi_load_stays n a : fits 64 a -> stays cpu_fits (ffi_load e n m a) (fun _ => True).
Proof.
  intros Ha. eapply stays_bind.
  - apply on_mmu_stays. intros c Hc. destruct n as [|[|n]]; [by apply load_le_stays|by apply load_byte_stays|by apply load_le_stays].
  - intros [v|err] _; helper.
Qed.

Lemma ffi_store_stays n a v : fits 64 a -> (n = 1%nat -> is_byte v) -> stays cpu_fits (ffi_store e n m a v) (fun _ => True).
Proof.
  intros Ha Hv. eapply stays_bind.
  - apply on_mmu_stays. intros c Hc. destruct n as [|[|n]]; [by apply store_le_stays|by apply store_byte_stays; auto|by apply store_le_stays].
  - intros [u|err] _; helper.
Qed.

Lemma ffi_ldrex_stays n a : fits 64 a -> stays cpu_fits (ffi_ldrex e n m a) (fun _ => True).
Proof.
  intros Ha. eapply stays_bind; [apply on_mmu_stays; intros; by apply resolve_exclusive_stays|]. intros [p|err] _; [|helper].
  eapply stays_bind; [apply on_monitor_stays, ldrex_at_stays|]. intros [v tok] _. helper.
Qed.

Lemma ffi_strex_stays n a v : fits 64 a -> stays cpu_fits (ffi_strex e n m a v) (fun _ => True).
Proof.
  intros Ha. eapply stays_bind; [apply swap_reservation_stays|]. intros [r|] _; [|by stay].
  destruct (eml_value n (value r)); [|by stay].
  eapply stays_bind; [apply on_mmu_stays; intros; by apply resolve_exclusive_stays|]. intros [p|err] _; [|helper].
  apply on_monitor_stays, strex_at_stays.
Qed.
End Access.

(** ** The state of a chunk *)

Definition in_range (v : Value) : Prop := match v with VInt w z => fits (bits w) z | _ => True end.
Definition env_in_range (ρ : Env) : Prop := forall v x, ρ !! v = Some x -> in_range x.

Section World.
Context {Error : Type} (e : Endian) (ly : Layout) (io_mmu : IoMMU).
Abbreviation World := (@World Error).

Record world_ok (s : World) : Prop := {
  wo_registers : Forall is_byte (registers s);
  wo_machine : cpu_fits (machine s);
  wo_scratch : forall slot l, scratch s !! slot = Some l -> Forall is_byte l;
  wo_halt : fits 32 (halt_word s);
}.

Lemma on_machine_stays {A} (op : SM (Cpu Error Tlb) A) Q : stays cpu_fits op Q -> stays world_ok (on_machine op) Q.
Proof.
  intros H s a s' [H1 H2 H3 H4]. unfold on_machine. destruct (op (machine s)) as [[x c]|] eqn:E; [|done].
  intros [= <- <-]. by destruct (H _ _ _ H2 E).
Qed.

Lemma on_fabric_stays {A} (op : SM Fabric A) Q : stays fabric_bytes op Q -> stays world_ok (on_fabric op) Q.
Proof.
  intros H. apply on_machine_stays. intros c a c' [Hf Ht]. destruct (op (cpu_fabric c)) as [[x f]|] eqn:E; [|done].
  intros [= <- <-]. by destruct (H _ _ _ Hf E).
Qed.

(** Bytes of the host's byte order. *)
Lemma ne_bytes_fit w l : Forall is_byte l -> length l = width_bytes w -> fits (bits w) (from_ne_bytes e l).
Proof.
  intros Hl Hn. pose proof (from_ne_bytes_fits e l Hl) as H. rewrite Hn in H. unfold bits_of_bytes in H. by destruct w.
Qed.

Lemma width_bits_of w : bits_of_bytes (width_bytes w) = bits w.
Proof. by destruct w. Qed.

Lemma load_host_range ty p off : stays world_ok (load_host e ly ty p off) in_range.
Proof.
  unfold load_host. destruct p as [| | | |base|? |? |? |slot], ty as [w|r]; try apply stays_panic.
  - eapply (stays_bind _ _ _ (fun z => fits (bits w) z)); [|intros z Hz; by stay]. intros s z s' Hs. unfold read_registers.
    destruct (_ && _) eqn:E; [|done]. intros [= <- <-]. split; [|done]. apply andb_true_iff in E as [_ E%Nat.eqb_eq].
    apply ne_bytes_fit; [|done]. apply Forall_take, Forall_drop, Hs.
  - intros s v s' Hs. unfold read_tlb. repeat (case_match; try done); intros [= <- <-]; (split; [|done]); simpl; try done.
    destruct Hs as [_ [_ Ht] _ _]. by eapply Forall_lookup_1 in Ht.
  - intros s v s' Hs. unfold read_tlb. by repeat (case_match; try done); intros [= <- <-].
  - intros s v s' Hs. destruct (scratch s !! slot) as [l|] eqn:El; [|done]. destruct (_ && _) eqn:E; [|done].
    intros [= <- <-]. split; [|done]. apply andb_true_iff in E as [_ E%Nat.leb_le].
    apply ne_bytes_fit; [|by apply length_take_le]. apply Forall_take. by eapply wo_scratch.
Qed.

Lemma store_host_range p off v : stays world_ok (store_host e ly p off v) (fun _ => True).
Proof.
  unfold store_host. destruct p, v as [w z| |]; try apply stays_panic.
  { intros s [] s' [H1 H2 H3 H4]. unfold write_registers. destruct (_ && _); [|done]. intros [= <-]. split; [done|].
    split; try done. simpl. repeat apply Forall_app_2; [by apply Forall_take|apply to_ne_bytes_is_byte|by apply Forall_drop]. }
  all: apply on_machine_stays; intros c a c' Hc; repeat (case_match; try done); by intros [= _ <-].
Qed.

Lemma write_out_range slot w z : stays world_ok (write_out e slot w z) (fun _ => True).
Proof.
  intros s [] s' [H1 H2 H3 H4] [= <-]. split; [done|]. split; try done. simpl. intros k l [[<- <-]|[_ ?]]%lookup_insert_Some; [|by eapply H3].
  apply Forall_app_2; [apply to_ne_bytes_is_byte|]. apply Forall_drop. destruct (scratch s !! slot) eqn:E; [by eapply H3|constructor].
Qed.

Lemma call_helper_range func vs : Forall in_range vs -> stays world_ok (call_helper e io_mmu func vs) (Forall in_range).
Proof.
  intros Hv. assert (forall slot w o, stays world_ok (match o with Some z => write_out e slot w z | None => sm_ret tt end) (fun _ => True)) as Hw.
  { intros slot w [z|]; [apply write_out_range|by stay]. }
  unfold call_helper. repeat (case_match; try apply stays_panic); subst.
  all: repeat match goal with H : Forall _ (_ :: _) |- _ => apply Forall_cons in H as [? H] end; simpl in *.
  - eapply stays_bind; [by apply on_machine_stays, ffi_load_stays|]. intros [st o] _. eapply stays_bind; [apply Hw|]. intros [] _.
    stay. constructor; [by destruct st|done].
  - eapply stays_bind; [apply stays_assert|]. intros _ ->%bool_decide_eq_true_1. eapply stays_bind.
    + apply on_machine_stays, ffi_store_stays; [done|]. intros Hn. match goal with H : fits (Ir.bits ?w) ?z |- is_byte ?z => by destruct w end.
    + intros st _. stay. constructor; [by destruct st|done].
  - eapply stays_bind; [by apply on_machine_stays, ffi_ldrex_stays|]. intros [st o] _. eapply stays_bind; [apply Hw|]. intros [] _.
    stay. constructor; [by destruct st|done].
  - eapply stays_bind; [apply stays_assert|]. intros _ _. eapply stays_bind; [by apply on_machine_stays, ffi_strex_stays|].
    intros st _. stay. constructor; [by destruct st|done].
  - eapply (stays_bind _ _ _ (fun _ => True)); [apply on_machine_stays|intros [] _; by stay]. eapply stays_bind; [apply swap_reservation_stays|]. intros r _. by stay.
Qed.

(** ** Integers *)

Lemma eval_arith_fits w op a b r : 0 < w -> fits w a -> fits w b -> eval_arith w op a b = Some r -> fits w r.
Proof.
  intros Hw Ha Hb. destruct op; simpl.
  - intros [= <-]. apply wrap_fits; lia.
  - intros [= <-]. apply wrap_fits; lia.
  - intros [= <-]. apply wrap_fits; lia.
  - destruct (Z.eqb_spec b 0); [done|]. intros [= <-]. unfold fits in *. split; [apply Z.div_pos; lia|].
    apply Z.div_lt_upper_bound; [lia|]. nia.
  - destruct (_ || _); [done|]. intros [= <-]. apply wrap_fits; lia.
Qed.

Lemma shiftr_fits w a n : 0 <= n -> fits w a -> fits w (Z.shiftr a n).
Proof.
  intros Hn [H1 H2]. rewrite Z.shiftr_div_pow2 by done. assert (0 < 2 ^ n) by (by apply Z.pow_pos_nonneg).
  split; [by apply Z.div_pos|]. apply Z.div_lt_upper_bound; [done|]. nia.
Qed.

Lemma eval_shift_fits w op a n : 0 < w -> 0 <= n -> fits w a -> fits w (eval_shift w op a n).
Proof. intros Hw Hn Ha. destruct op; simpl; [apply wrap_fits; lia|by apply shiftr_fits|apply wrap_fits; lia]. Qed.

Lemma eval_unbounded_fits w op a n : 0 < w -> fits w a -> fits w (eval_shift_unbounded w op a n).
Proof.
  intros Hw Ha. unfold eval_shift_unbounded. pose proof (Z.mod_pos_bound n w Hw).
  destruct (_ <? _); [apply eval_shift_fits; [done|lia|done]|]. destruct op; [apply eval_shift_fits; [done|lia|done]|by split; [|apply Z.pow_pos_nonneg; lia]..].
Qed.

(** ** Statements *)

Lemma operand_stays b ρ v ty :
  env_typed b ρ -> env_in_range ρ -> vty b v ty ->
  stays world_ok (lookup_value (Error := Error) ρ v) (fun x => in_range x /\ has_shape x ty).
Proof. intros Ht Hr Hv. unfold lookup_value. stay. intros x Hx. split; [by eapply Hr|by eapply shape_of]. Qed.

Lemma any_operand_stays ρ v : env_in_range ρ -> stays world_ok (lookup_value (Error := Error) ρ v) in_range.
Proof. intros Hr. unfold lookup_value. stay. intros x Hx. by eapply Hr. Qed.

Lemma values_in_range ρ vs xs : env_in_range ρ -> mapM (fun v => ρ !! v) vs = Some xs -> Forall in_range xs.
Proof.
  intros Hr Hm%mapM_Some. apply Forall_forall. intros x Hx. apply list_elem_of_lookup in Hx as [i Hi].
  destruct (Forall2_lookup_r _ _ _ _ _ Hm Hi) as (v & _ & Hv). by eapply Hr.
Qed.

Ltac walk Hr :=
  repeat match goal with
  | |- stays _ (sm_bind (lookup_value _ _) _) _ => eapply stays_bind; [by apply any_operand_stays|intros ? ?]
  | |- stays _ (match ?x with _ => _ end) _ => destruct x
  | |- stays _ sm_panic _ => apply stays_panic
  end; simpl in *;
  try (eapply stays_bind; [apply stays_assert|intros [] ?Ha; try apply bool_decide_eq_true in Ha as <-; simpl]);
  try (stay; constructor; [simpl|constructor]; try done).

Lemma width_bits_pos w : 0 < bits w.
Proof. by destruct w. Qed.

Lemma bitnot_fits w a : 0 <= w -> fits w a -> fits w (bitnot w a).
Proof. intros Hw Ha. rewrite bitnot_value_sub by done. unfold fits in *. lia. Qed.

(** What follows an operation that has no result. *)
Lemma stays_unit (m : SM World unit) (k : SM World (list Value)) :
  stays world_ok m (fun _ => True) -> stays world_ok k (Forall in_range) -> stays world_ok (m ;;! k) (Forall in_range).
Proof. intros Hm Hk. by eapply stays_bind; [exact Hm|intros [] _]. Qed.

Lemma stays_nil : stays world_ok (sm_ret []) (Forall in_range).
Proof. by stay. Qed.

Lemma eval_stmt_range b ρ rv :
  env_typed b ρ -> env_in_range ρ -> stmt_typed b rv ->
  stays world_ok (eval_stmt e ly io_mmu ρ rv) (Forall in_range).
Proof.
  intros Hρ Hr Ht. destruct rv; cbn [eval_stmt stmt_typed] in *.
  1: stay; constructor; [exact Ht|done].
  8: { destruct Ht as (w & Hv & Hf). eapply stays_bind; [by eapply operand_stays|]. intros [w' z| |] [? Hs]; try stay.
    simpl in Hs; subst. constructor; [|constructor]. apply eval_bitwise_fits; [pose proof (width_bits_pos w); lia|done..]. }
  11: { destruct Ht as (w & Hv & Hn). eapply stays_bind; [by eapply operand_stays|]. intros [w' z| |] [? Hs]; try stay.
    simpl in Hs; subst. eapply stays_bind; [apply stays_assert|intros [] _]. stay. constructor; [|constructor].
    apply eval_shift_fits; [apply width_bits_pos|lia|done]. }
  all: walk Hr.
  - eapply stays_bind; [apply stays_option; intros r Hf; exact Hf|]. intros r Hf. stay. constructor; [|done].
    eapply eval_arith_fits; [apply width_bits_pos| | |exact Hf]; done.
  - apply wrap_fits. pose proof (width_bits_pos width). lia.
  - destruct op; apply stays_ret; (constructor; [apply wrap_fits; pose proof (width_bits_pos width); lia|by constructor]).
  - by case_match.
  - apply eval_bitwise_fits; [pose proof (width_bits_pos width); lia|done..].
  - apply bitnot_fits; [pose proof (width_bits_pos width); lia|done].
  - apply eval_shift_fits; [apply width_bits_pos| |done]. apply Z.mod_pos_bound, width_bits_pos.
  - apply eval_unbounded_fits; [apply width_bits_pos|done].
  - eapply stays_bind; [apply load_host_range|]. intros v Hv. stay. by constructor.
  - apply stays_unit; [apply store_host_range|apply stays_nil].
  - eapply (stays_bind _ _ _ (Forall in_range)); [|intros vs Hvs; by apply call_helper_range]. intros s vs s' Hs.
    unfold sm_of_option. destruct (mapM _ _) as [l|] eqn:E; [|done]. intros [= <- <-]. split; [|done]. by eapply values_in_range.
  - eapply stays_bind; [apply on_fabric_stays, stays_on_mem, load_le_aligned_stays|]. intros z Hz. stay.
    constructor; [|done]. simpl. by rewrite <- width_bits_of.
  - apply stays_unit; [apply on_fabric_stays, stays_on_mem, store_aligned_stays|apply stays_nil].
  - intros s l s' Hs [= <- <-]. split; [|done]. constructor; [apply Hs|done].
  - intros s l s' Hs [= <- <-]. split; [constructor; [apply Hs|done]|]. destruct Hs. by split.
  - apply stays_unit; [|apply stays_nil]. apply on_fabric_stays, stays_mem_same. intros f a f'.
    unfold set_page_dirty_flag, get_backed, Entry.set_mut_flags, sm_bind. intros H'. by repeat case_match; simplify_eq.
  - apply stays_nil.
Qed.

(** ** Runs *)

Lemma bind_values_range vs xs (ρ ρ' : Env) :
  bind_values vs xs ρ = Some ρ' -> env_in_range ρ -> Forall in_range xs -> env_in_range ρ'.
Proof.
  revert xs ρ. induction vs as [|v vs IH]; intros [|x xs] ρ H Hρ Hx; try done.
  { by injection H as <-. }
  apply Forall_cons in Hx as [Hx Hxs]. eapply IH; [done| |done].
  intros u y [[<- <-]|[_ ?]]%lookup_insert_Some; [done|by eapply Hρ].
Qed.

Lemma follow_range b j (ρ : Env) (s : World) p :
  env_in_range ρ -> follow b j ρ s = Some (Continue p) -> env_in_range (values p) /\ world p = s.
Proof.
  intros Hρ H. unfold follow in H. destruct (arena_get (blocks b) (jump_target j)) as [d|]; [|done]. cbn [mbind option_bind] in H.
  destruct (mapM _ _) as [xs|] eqn:Ex; [|done]. cbn [mbind option_bind] in H.
  destruct (bind_values _ _ _) as [ρ'|] eqn:Eb; [|done]. injection H as <-. split; [|done]. simpl.
  eapply bind_values_range; [done..|]. by eapply values_in_range.
Qed.

(** What holds at every point of a run, and where it ends. *)
Definition values_typed (b : ExecIrBuilder) (ρ : Env) : Prop :=
  forall v x, ρ !! v = Some x -> exists ty, vty b v ty /\ has_type x ty.
Definition next_ok (b : ExecIrBuilder) (n : Next) : Prop :=
  match n with
  | Continue p => values_typed b (values p) /\ world_ok (world p)
  | Exit code s => fits 32 code /\ world_ok s
  end.

Lemma has_type_split x ty : has_type x ty <-> has_shape x ty /\ in_range x.
Proof. destruct x, ty; simpl; split; naive_solver. Qed.

Lemma values_typed_split b ρ : values_typed b ρ <-> env_typed b ρ /\ env_in_range ρ.
Proof.
  split.
  - intros H. split; intros v x Hx; destruct (H v x Hx) as (ty & Hv & Ht%has_type_split); [exists ty|]; naive_solver.
  - intros [Ht Hr] v x Hx. destruct (Ht v x Hx) as (ty & Hv & Hs). exists ty. split; [done|]. apply has_type_split. by split; [|eapply Hr].
Qed.

Lemma exec_stmt_range b d (ρ ρ' : Env) (s s' : World) :
  env_typed b ρ -> env_in_range ρ -> stmt_ok b d -> world_ok s ->
  exec_stmt e ly io_mmu d ρ s = Some (ρ', s') -> env_in_range ρ' /\ world_ok s'.
Proof.
  intros Ht Hr (Hs & _) Hw H. unfold exec_stmt, sm_bind, sm_of_option in H.
  destruct (eval_stmt e ly io_mmu ρ (rvalue d) s) as [[xs s1]|] eqn:E; [|done].
  destruct (bind_values (outputs d) xs ρ) as [ρ1|] eqn:Eb; [|done]. injection H as <- <-.
  destruct (eval_stmt_range b ρ _ Ht Hr Hs s xs s1 Hw E). split; [|done]. by eapply bind_values_range.
Qed.

Lemma step_range b (p : Point) n :
  built b -> values_typed b (values p) -> world_ok (world p) -> step e ly io_mmu b p = Some n -> next_ok b n.
Proof.
  intros Hb Hρ Hw H. apply values_typed_split in Hρ as [Ht Hr].
  assert (forall p', n = Continue p' -> env_in_range (values p') /\ world_ok (world p') -> next_ok b n) as Hcont.
  { intros p' -> [? ?]. split; [|done]. apply values_typed_split. split; [by eapply step_typed|done]. }
  unfold step in H. destruct (arena_get (blocks b) (at_block p)) as [d|] eqn:Hd; [|done].
  cbn [mbind option_bind] in H. destruct (stmts d !! at_index p) as [x|] eqn:Hx.
  - destruct (arena_get (all_stmts b) x) as [sd|] eqn:Hsd; [|done]. cbn [mbind option_bind] in H.
    destruct (exec_stmt e ly io_mmu sd (values p) (world p)) as [[ρ s]|] eqn:E; [|done]. injection H as <-.
    eapply Hcont; [done|]. eapply exec_stmt_range; [exact Ht|exact Hr|by eapply (bu_stmts _ Hb)|exact Hw|exact E].
  - destruct (terminated d); [|done].
    assert (forall j, follow b j (values p) (world p) = Some n -> next_ok b n) as Hf.
    { intros j Hj. destruct n as [p'|c s]; [|unfold follow in Hj; by repeat case_match; simplify_option_eq].
      eapply Hcont; [done|]. by apply follow_range in Hj as [? ->]. }
    unfold exec_terminator in H. destruct (kind (terminator d)), (targets (terminator d)) as [|j1 [|j2 [|? ?]]]; try done.
    + injection H as <-. split; [unfold fits; lia|done].
    + destruct (values p !! halt_reason) as [[[] z| |]|] eqn:Ev; try done. injection H as <-. split; [exact (Hr _ _ Ev)|done].
    + destruct (values p !! cond) as [c|]; [|done]. cbn [mbind option_bind] in H. destruct (is_zero c) as [z|]; [|done].
      cbn [mbind option_bind] in H. by eapply Hf.
    + by eapply Hf.
Qed.

(** C8: type preservation.  Whatever the builder's methods made, run on a state whose
    memory, registers and halt word are of their widths, from values of their types,
    reaches only points where every value has the type the table of values says (an
    integer that fits its width, a boolean, or a pointer into its region) and the
    state is still of its widths; a chunk that returns, returns a 32-bit code. *)
Theorem run_keeps_types b n (p : Point) r :
  Constructed e ly b -> values_typed b (values p) -> world_ok (world p) ->
  run_ir e ly io_mmu n b p = Some r -> next_ok b r.
Proof.
  intros Hb%constructed_built.
  revert p. induction n as [|n IH]; intros p Hρ Hw; simpl; [by intros [= <-]|].
  destruct (step e ly io_mmu b p) as [[p1|c s]|] eqn:E; [| |done].
  - apply step_range in E as [? ?]; [|done..]. by apply IH.
  - intros [= <-]. by eapply step_range.
Qed.
End World.

(** ** From the entry *)

Lemma entry_values_typed b ident : (forall a, vty b (as_ssa_value a) (arg_ty a)) -> values_typed b (entry_env ident).
Proof.
  intros Hb. apply values_typed_split. split; [by apply entry_env_typed|]. intros v x Hv. apply elem_of_list_to_map_2 in Hv.
  by repeat (apply elem_of_cons in Hv as [[= -> ->]|Hv]); [..|apply elem_of_nil in Hv].
Qed.

Lemma sample_world_ok : world_ok sample_world.
Proof.
  split; [by apply Forall_replicate| |done|by split].
  split; [done|]. by apply Forall_replicate.
Qed.

Lemma run_keeps_types_witness :
  exists b p, Constructed Little sample_layout b /\
    run_ir Little sample_layout sample_mmu 6 b (mkPoint ENTRYPOINT 0 (entry_env MaybeIdent.invalid) sample_world) = Some (Continue p) /\
    values_typed b (values p) /\ world_ok (world p).
Proof.
  destruct (run_ops Little sample_layout sample_ops (with_config 4)) as [[[] b]|] eqn:E; [|by vm_compute in E].
  assert (Constructed Little sample_layout b) as Hc by (eapply constructed_ops; [constructor|apply sample_ops_ok|exact E]).
  destruct (run_ir Little sample_layout sample_mmu 6 b (mkPoint ENTRYPOINT 0 (entry_env MaybeIdent.invalid) sample_world)) as [[p|]|] eqn:Er.
  2,3: exfalso; vm_compute in E; injection E as <-; by vm_compute in Er.
  exists b, p. split; [done|]. split; [done|].
  apply (run_keeps_types Little sample_layout sample_mmu b 6 _ _ Hc) in Er; [exact Er| |exact sample_world_ok].
  apply entry_values_typed. intros a. by eapply arg_vty, constructed_built.
Defined.
