(* ===== verification/Tarjan.v ===== *)
(** * Strongly connected components of the control-flow graph
    ([jit-compiler-core/src/ir/halt_check_pass.rs], [Tarjan])

    The depth-first search as the code runs it: the two handle-indexed maps, the
    explicit stack, the set of the blocks on it and the arena of components.  The
    recursion takes fuel, one unit per block of the graph; the theorem shows that
    this is enough.  [stacker::maybe_grow] only provides stack space. *)

From Stdlib Require Import Sorting.Sorted.
From S2P Require Import Prelude Arena Ir.
Local Open Scope emu_scope.

(** The top of [stack] comes first. *)
Record Tarjan := mkTarjan {
  next_index : nat;
  index : ArenaMap nat;
  low_link : ArenaMap nat;
  stack : list Block;
  on_stack : ArenaSet;
  components : Arena (list Block);
}.

Definition tarjan_new : Tarjan := mkTarjan 0 map_new map_new [] set_new [].

(** The loop that pops a component off the stack, down to [block]. *)
Fixpoint pop_component (block : Block) (stack : list Block) (on_stack : ArenaSet) :
    option (list Block * list Block * ArenaSet) :=
  match stack with
  | [] => None
  | member :: stack =>
      let on_stack := snd (set_remove member on_stack) in
      if decide (member = block) then Some ([member], stack, on_stack)
      else
        match pop_component block stack on_stack with
        | Some (component, stack, on_stack) => Some (member :: component, stack, on_stack)
        | None => None
        end
  end.

Section Search.
Context (ir : ExecIrBuilder) (allowed : option ArenaSet).

Definition block_is_allowed (block : Block) : bool :=
  match allowed with None => true | Some allowed => set_contains block allowed end.

(** [self.low_link[block] = min(self.low_link[block], link)]. *)
Definition lower_link (block : Block) (link : nat) : SM Tarjan unit := fun t =>
  block_low_link ← map_get (low_link t) block;
  Some (tt, mkTarjan (next_index t) (index t)
    (snd (map_insert block (block_low_link `min` link) (low_link t)))
    (stack t) (on_stack t) (components t)).

Definition enter (block : Block) : SM Tarjan unit := fun t =>
  match set_insert block (on_stack t) with
  | None => None
  | Some (_, on_stack) =>
      Some (tt, mkTarjan (S (next_index t)) (snd (map_insert block (next_index t) (index t)))
        (snd (map_insert block (next_index t) (low_link t)))
        (block :: stack t) on_stack (components t))
  end.

(** One successor of [block], with the recursive call given. *)
Definition visit_succ (strong_connect : Block -> SM Tarjan unit) (block succ : Block) :
    SM Tarjan unit :=
  if negb (block_is_allowed succ) then sm_ret tt
  else fun t =>
    match map_get (index t) succ with
    | None =>
        (strong_connect succ ;;!
         let! succ_low_link := fun t => sm_of_option (map_get (low_link t) succ) t in
         lower_link block succ_low_link) t
    | Some succ_index => if set_contains succ (on_stack t) then lower_link block succ_index t else Some (tt, t)
    end.

(** Emitting the component [block] is the root of, if it is one. *)
Definition close_component (block : Block) : SM Tarjan unit := fun t =>
  link ← map_get (low_link t) block;
  i ← map_get (index t) block;
  if decide (link = i) then
    match pop_component block (stack t) (on_stack t) with
    | None => None
    | Some (component, stack, on_stack) =>
        match arena_store component (components t) with
        | Some (_, components) =>
            Some (tt, mkTarjan (next_index t) (index t) (low_link t) stack on_stack components)
        | None => None
        end
    end
  else Some (tt, t).

Fixpoint strong_connect (fuel : nat) (block : Block) : SM Tarjan unit :=
  match fuel with
  | O => sm_panic
  | S fuel =>
      enter block ;;!
      let! succs := sm_of_option (successors ir block) in
      sm_for succs (visit_succ (strong_connect fuel) block) ;;!
      close_component block
  end.

Definition tarjan_root (fuel : nat) (block : Block) : SM Tarjan unit :=
  if negb (block_is_allowed block) then sm_ret tt
  else fun t =>
    match map_get (index t) block with
    | None => strong_connect fuel block t
    | Some _ => Some (tt, t)
    end.

Definition tarjan_run (fuel : nat) : SM Tarjan unit :=
  let! keys := sm_of_option (arena_keys (blocks ir)) in
  sm_for keys (tarjan_root fuel).

Definition strongly_connected_components : option (Arena (list Block)) :=
  match tarjan_run (length (blocks ir)) tarjan_new with
  | Some (_, t) => Some (components t)
  | None => None
  end.
End Search.

(** ** The graph searched *)

Lemma elem_of_concat {A} (ls : list (list A)) x : x ∈ concat ls <-> exists l, x ∈ l /\ l ∈ ls.
Proof.
  induction ls as [|l ls IH]; simpl.
  - split; [by intros ?%elem_of_nil|by intros (? & _ & ?%elem_of_nil)].
  - rewrite elem_of_app, IH. split.
    + intros [?|(l' & ? & ?)]; [exists l|exists l']; set_solver.
    + intros (l' & ? & [->|?]%elem_of_cons); [by left|right; eauto].
Qed.

Lemma StronglySorted_app_rel {A} (R : A -> A -> Prop) l1 l2 x y :
  StronglySorted R (l1 ++ l2) -> x ∈ l1 -> y ∈ l2 -> R x y.
Proof.
  induction l1 as [|z l1 IH]; simpl; intros Hs Hx Hy; [by apply elem_of_nil in Hx|].
  apply StronglySorted_inv in Hs as [Hs Hf]. apply elem_of_cons in Hx as [->|Hx]; [|by apply IH].
  rewrite Forall_forall in Hf. apply Hf. set_solver.
Qed.

Lemma StronglySorted_app_r {A} (R : A -> A -> Prop) l1 l2 :
  StronglySorted R (l1 ++ l2) -> StronglySorted R l2.
Proof. induction l1 as [|z l1 IH]; simpl; [done|]. intros [? _]%StronglySorted_inv. auto. Qed.

Section Correct.
Context (ir : ExecIrBuilder) (allowed : option ArenaSet).

Definition in_graph (v : Block) : Prop :=
  (get v < length (blocks ir))%nat /\ block_is_allowed allowed v = true.
Definition edge (u v : Block) : Prop :=
  exists l, successors ir u = Some l /\ v ∈ l /\ block_is_allowed allowed v = true.

(** Every jump goes to a block, and there are at most as many blocks as one word
    of a handle set holds. *)
Record graph_ok : Prop := {
  graph_targets : forall u l v, successors ir u = Some l -> v ∈ l -> (get v < length (blocks ir))%nat;
  graph_small : (length (blocks ir) <= 64)%nat;
}.

(** The position of a block in the search. *)
Definition ix (t : Tarjan) (v : Block) : nat := default 0%nat (map_get (index t) v).
Definition visited (t : Tarjan) (v : Block) : Prop := is_Some (map_get (index t) v).

Record inv (G : list Block) (t : Tarjan) : Prop := {
  inv_visited : forall v, visited t v <-> v ∈ stack t \/ v ∈ concat (components t);
  inv_graph : forall v, visited t v -> in_graph v;
  inv_nodup : NoDup (stack t ++ concat (components t));
  inv_sorted : StronglySorted (fun u v => (ix t v < ix t u)%nat) (stack t);
  inv_next : forall v, visited t v -> (ix t v < next_index t)%nat;
  inv_on : set_ok (on_stack t) /\ forall v, set_contains v (on_stack t) = bool_decide (v ∈ stack t);
  inv_order : forall j C v w, components t !! j = Some C -> v ∈ C -> edge v w ->
    exists j' C', (j' <= j)%nat /\ components t !! j' = Some C' /\ w ∈ C';
  inv_scc : forall C, C ∈ components t -> C <> [] /\ forall v w, v ∈ C -> w ∈ C -> rtc edge v w;
  inv_grey : forall g, g ∈ G -> g ∈ stack t;
  inv_from : forall g v, g ∈ G -> v ∈ stack t -> (ix t g <= ix t v)%nat -> rtc edge g v;
  inv_to : forall v, v ∈ stack t -> exists g, g ∈ G /\ (ix t g <= ix t v)%nat /\ rtc edge v g;
  inv_black : forall v w, visited t v -> v ∉ G -> edge v w -> visited t w;
}.

(** What a finished call leaves alone. *)
Record extends (t t' : Tarjan) : Prop := {
  ext_index : forall v, visited t v -> map_get (index t') v = map_get (index t) v;
  ext_low : forall v, visited t v -> map_get (low_link t') v = map_get (low_link t) v;
  ext_next : (next_index t <= next_index t')%nat;
}.

Lemma extends_trans t1 t2 t3 : extends t1 t2 -> extends t2 t3 -> extends t1 t3.
Proof.
  intros [I1 L1 N1] [I2 L2 N2]. split; [| |lia]; intros v Hv.
  - rewrite I2, I1; [done..|]. unfold visited. by rewrite I1.
  - rewrite L2, L1; [done..|]. unfold visited. by rewrite I1.
Qed.

Lemma ext_visited t t' v : extends t t' -> visited t v -> visited t' v.
Proof. intros [I _ _] Hv. unfold visited. by rewrite I. Qed.

Lemma ext_ix t t' v : extends t t' -> visited t v -> ix t' v = ix t v.
Proof. intros [I _ _] Hv. unfold ix. by rewrite I. Qed.

(** The blocks still to visit: what the fuel pays for. *)
Definition all_blocks : list Block := Pos.of_succ_nat <$> seq 0 (length (blocks ir)).
Definition unvisited (t : Tarjan) : list Block :=
  filter (fun v => map_get (index t) v = None) all_blocks.

Lemma elem_of_all_blocks v : v ∈ all_blocks <-> (get v < length (blocks ir))%nat.
Proof.
  unfold all_blocks. rewrite list_elem_of_fmap. split.
  - intros (i & -> & ?%elem_of_seq). rewrite get_of_succ. lia.
  - intros ?. exists (get v). rewrite of_succ_get. split; [done|]. apply elem_of_seq. lia.
Qed.

Lemma unvisited_mono t t' :
  (forall v, visited t v -> visited t' v) -> (length (unvisited t') <= length (unvisited t))%nat.
Proof.
  intros H. unfold unvisited. generalize all_blocks as l. induction l as [|v l IH]; [done|].
  rewrite !filter_cons. repeat case_decide; simpl; try lia.
  exfalso. specialize (H v). unfold visited in H. rewrite <- !not_eq_None_Some in H. tauto.
Qed.

Lemma unvisited_lt t t' v :
  (forall v, visited t v -> visited t' v) -> in_graph v -> ~ visited t v -> visited t' v ->
  (length (unvisited t') < length (unvisited t))%nat.
Proof.
  intros H [Hv _] Hn Hy. apply elem_of_all_blocks in Hv. unfold unvisited.
  revert Hv. generalize all_blocks as l. intros l [l1 [l2 ->]]%list_elem_of_split.
  rewrite !filter_app, !length_app, !filter_cons.
  unfold visited in Hn, Hy. rewrite <- !not_eq_None_Some in Hn, Hy.
  assert (forall l, length (filter (fun v => map_get (index t') v = None) l) <=
    length (filter (fun v => map_get (index t) v = None) l))%nat as Hle.
  { induction l as [|u l IH]; [done|]. rewrite !filter_cons. repeat case_decide; simpl; try lia.
    exfalso. specialize (H u). unfold visited in H. rewrite <- !not_eq_None_Some in H. tauto. }
  pose proof (Hle l1). pose proof (Hle l2). repeat case_decide; simpl; try lia; exfalso; tauto.
Qed.

(** ** The steps of the search *)

Context (Hgraph : graph_ok).

Lemma visited_ix t v : visited t v -> map_get (index t) v = Some (ix t v).
Proof. unfold ix. by intros [i ->]. Qed.

Lemma edge_graph u v : edge u v -> in_graph v.
Proof. intros (l & Hl & Hv & Ha). split; [|done]. by eapply graph_targets. Qed.

Lemma inv_extend_ix G t t' :
  inv G t -> (forall v, visited t v -> map_get (index t') v = map_get (index t) v) ->
  forall v, v ∈ stack t -> ix t' v = ix t v.
Proof. intros Hi H v Hv. unfold ix. rewrite H; [done|]. eapply inv_visited; [done|by left]. Qed.

(** Only the links change. *)
Lemma inv_links G t low :
  inv G t -> inv G (mkTarjan (next_index t) (index t) low (stack t) (on_stack t) (components t)).
Proof. intros []. by split. Qed.

Lemma in_graph_room x s : in_graph x -> set_room s x = true.
Proof. intros [Hx _]. apply small_room. pose proof (graph_small Hgraph). lia. Qed.

Lemma enter_spec G x t :
  inv G t -> in_graph x -> ~ visited t x -> (forall g, g ∈ G -> rtc edge g x) ->
  exists t', enter x t = Some (tt, t') /\ inv (x :: G) t' /\ extends t t' /\
    stack t' = x :: stack t /\ map_get (index t') x = Some (next_index t) /\
    map_get (low_link t') x = Some (next_index t).
Proof.
  intros Hi Hx Hn Hg. unfold enter.
  destruct (inv_on _ _ Hi) as [Hok Hon]. pose proof (set_insert_spec x _ Hok) as Hins.
  rewrite (in_graph_room x _ Hx) in Hins. destruct Hins as (on & -> & Hok' & _ & Hon').
  eexists. split; [done|].
  assert (forall v, v <> x -> map_get (snd (map_insert x (next_index t) (index t))) v = map_get (index t) v) as Ho.
  { intros v ?. rewrite map_get_insert. by rewrite decide_False. }
  assert (map_get (snd (map_insert x (next_index t) (index t))) x = Some (next_index t)) as Hxi.
  { by rewrite map_get_insert, decide_True. }
  set (t' := mkTarjan _ _ _ _ _ _).
  assert (forall v, visited t' v <-> v = x \/ visited t v) as Hv.
  { intros v. unfold visited, t'; cbn [index]. destruct (decide (v = x)) as [->|]; [rewrite Hxi|rewrite Ho by done].
    - split; [by left|by eexists]. - tauto. }
  assert (forall v, visited t v -> ix t' v = ix t v) as Hix.
  { intros v ?. unfold ix, t'; cbn [index]. rewrite Ho; [done|]. by intros ->. }
  assert (ix t' x = next_index t) as Hxx by (unfold ix, t'; cbn [index]; by rewrite Hxi).
  assert (forall v, v ∈ stack t -> visited t v) as Hst.
  { intros v ?. apply (inv_visited _ _ Hi). by left. }
  split; [|split_and!; [split|done|done|]].
  - destruct Hi. split; simpl.
    + intros v. rewrite Hv, elem_of_cons. rewrite inv_visited0. tauto.
    + intros v [->|?]%Hv; auto.
    + constructor; [|done]. rewrite elem_of_app, <- inv_visited0. done.
    + constructor.
      * clear -inv_sorted0 Hix Hst. revert Hst inv_sorted0. generalize (stack t) as l.
        induction l as [|v l IH]; intros Hst Hs; [constructor|].
        apply StronglySorted_inv in Hs as [Hs Hf]. constructor.
        { apply IH; [|done]. intros u ?. apply Hst. by right. }
        rewrite Forall_forall in *. intros u Hu. rewrite !Hix by (apply Hst; by (left || right)). auto.
      * apply Forall_forall. intros v Hin. rewrite Hxx, Hix by auto. auto.
    + intros v [->|Hvv]%Hv; [rewrite Hxx; lia|]. rewrite Hix by done. specialize (inv_next0 v Hvv). lia.
    + split; [done|]. intros v. rewrite Hon', Hon, <- bool_decide_or.
      apply bool_decide_ext. by rewrite elem_of_cons.
    + done.
    + done.
    + intros g [->|?]%elem_of_cons; [by left|right; auto].
    + intros g v [->|Hgg]%elem_of_cons [->|Hvs]%elem_of_cons Hle; auto using rtc_refl.
      * rewrite Hxx, Hix in Hle by auto. specialize (inv_next0 v (Hst v Hvs)). lia.
      * rewrite !Hix in Hle by auto. auto.
    + intros v [->|Hvs]%elem_of_cons.
      * exists x. split_and!; [by left|lia|done].
      * destruct (inv_to0 v Hvs) as (g & ? & ? & ?). exists g. split_and!; [by right| |done].
        rewrite !Hix by auto. done.
    + intros v w [->|Hvv]%Hv Hvn He; [set_solver|]. apply Hv. right. apply (inv_black0 v); set_solver.
  - intros v ?. apply Ho. by intros ->.
  - intros v ?. unfold t'; cbn [low_link]. rewrite map_get_insert, decide_False; [done|]. by intros ->.
  - simpl. lia.
  - unfold t'; cbn [low_link]. by rewrite map_get_insert, decide_True.
Qed.

(** ** A call and its loop over the successors *)

(** What a call on [x] establishes: new blocks [s] on the stack, all of them
    above the old ones, and the link [n] it leaves for the caller. *)
Record called (G : list Block) (x : Block) (t t' : Tarjan) (n : nat) (s : list Block) : Prop := {
  call_inv : inv G t';
  call_ext : extends t t';
  call_stack : stack t' = s ++ stack t;
  call_visited : visited t' x;
  call_low : map_get (low_link t') x = Some n;
  call_le : (n <= next_index t)%nat;
  call_link : (n = next_index t /\ s = []) \/
    exists y, y ∈ stack t /\ ix t y = n /\ rtc edge x y;
  call_edges : forall u w, u ∈ s -> w ∈ stack t -> edge u w -> (n <= ix t w)%nat;
}.

Definition call_spec (call : Block -> SM Tarjan unit) (m : nat) : Prop :=
  forall G x t, inv G t -> in_graph x -> ~ visited t x -> (forall g, g ∈ G -> rtc edge g x) ->
    (length (unvisited t) <= m)%nat ->
    exists t' n s, call x t = Some (tt, t') /\ called G x t t' n s.

(** The state inside the loop of the call on [x] started in [t0], after the
    successors [dn]: the link is [n], and the blocks below [x] that were met have
    positions from [m] on. *)
Record looping (G : list Block) (x : Block) (t0 : Tarjan) (dn : list Block) (t : Tarjan)
    (n m : nat) (s : list Block) : Prop := {
  loop_inv : inv (x :: G) t;
  loop_ext : extends t0 t;
  loop_index : map_get (index t) x = Some (next_index t0);
  loop_stack : stack t = s ++ x :: stack t0;
  loop_low : map_get (low_link t) x = Some n;
  loop_le : (n <= next_index t0)%nat;
  loop_link : n = next_index t0 \/ exists y, y ∈ stack t0 /\ ix t0 y = n /\ rtc edge x y;
  loop_edges : forall u w, u ∈ s -> w ∈ stack t0 -> edge u w -> (m <= ix t0 w)%nat;
  loop_done : forall d, d ∈ dn -> edge x d ->
    visited t d /\ (d ∈ stack t0 -> (m <= ix t0 d)%nat);
}.

Section Loop.
Context (G : list Block) (x : Block) (t0 : Tarjan).
Context (Hinv0 : inv G t0) (Hx0 : ~ visited t0 x) (HG : forall g, g ∈ G -> rtc edge g x).

Abbreviation looping := (looping G x t0).

Lemma below_visited y : y ∈ stack t0 -> visited t0 y.
Proof. intros. eapply inv_visited; [done|by left]. Qed.

Lemma below_ix y : y ∈ stack t0 -> (ix t0 y < next_index t0)%nat.
Proof. intros. by eapply inv_next, below_visited. Qed.

Lemma loop_ix dn t n m s : looping dn t n m s -> ix t x = next_index t0.
Proof. intros L. unfold ix. by rewrite (loop_index _ _ _ _ _ _ _ _ L). Qed.

(** Below the position of [x] there are only the blocks stacked before it. *)
Lemma loop_below dn t n m s y :
  looping dn t n m s -> y ∈ stack t -> (ix t y < next_index t0)%nat ->
  y ∈ stack t0 /\ ix t0 y = ix t y.
Proof.
  intros L Hy Hlt. pose proof (loop_ix _ _ _ _ _ L) as Hx. assert (y ∈ stack t0) as H.
  { rewrite (loop_stack _ _ _ _ _ _ _ _ L) in Hy.
    apply elem_of_app in Hy as [Hy|[->|Hy]%elem_of_cons]; [|lia|done]. exfalso.
    pose proof (inv_sorted _ _ (loop_inv _ _ _ _ _ _ _ _ L)) as Hs.
    rewrite (loop_stack _ _ _ _ _ _ _ _ L) in Hs.
    apply (StronglySorted_app_rel _ _ _ y x) in Hs; [simpl in Hs; lia|done|by left]. }
  split; [done|]. symmetry. eapply ext_ix; [by eapply loop_ext|by apply below_visited].
Qed.

(** Lowering the link of [x] to that of a block it reaches. *)
Lemma loop_lower dn t n m s d link :
  looping dn t n m s -> visited t d -> (d ∈ stack t0 -> (link <= ix t0 d)%nat) ->
  (n `min` link <= m)%nat ->
  ((next_index t0 <= link)%nat \/ exists y, y ∈ stack t /\ ix t y = link /\ rtc edge x y) ->
  exists t', lower_link x link t = Some (tt, t') /\
    looping (d :: dn) t' (n `min` link) (n `min` link) s /\ index t' = index t.
Proof.
  intros L Hd Hdl Hm Hl. unfold lower_link. rewrite (loop_low _ _ _ _ _ _ _ _ L). cbn [mbind option_bind].
  eexists. split; [done|]. split; [|done].
  pose proof (loop_below dn t n m s) as Hb. destruct L. split; try done.
  - by apply inv_links.
  - destruct loop_ext0. split; try done. intros v Hv. cbn [low_link].
    rewrite map_get_insert, decide_False; [auto|]. by intros ->.
  - cbn [low_link]. by rewrite map_get_insert, decide_True.
  - lia.
  - destruct (Nat.min_spec n link) as [[? ->]|[? ->]]; [done|].
    destruct Hl as [?|(y & Hy & <- & Hr)]; [left; lia|].
    destruct (decide (ix t y = next_index t0)) as [|]; [by left|]. right.
    destruct (Hb y) as [? ?]; [by split|done|lia|]. eauto.
  - intros u w Hu Hw He. specialize (loop_edges0 u w Hu Hw He). lia.
  - intros d' [->|Hd']%elem_of_cons He.
    + split; [done|]. intros Hs. specialize (Hdl Hs). lia.
    + destruct (loop_done0 d' Hd' He) as [? Hle]. split; [done|]. intros Hs. specialize (Hle Hs). lia.
Qed.

Lemma loop_skip dn t n m s d :
  looping dn t n m s -> (edge x d -> visited t d /\ (d ∈ stack t0 -> (m <= ix t0 d)%nat)) ->
  looping (d :: dn) t n m s.
Proof. intros [] Hd. split; try done. intros d' [->|?]%elem_of_cons ?; auto. Qed.

(** The loop after a call on the successor [d]. *)
Lemma loop_call dn t n s d t1 n1 s1 :
  looping dn t n n s -> edge x d -> ~ visited t d -> called (x :: G) d t t1 n1 s1 ->
  looping dn t1 n (n `min` n1) (s1 ++ s) /\ d ∉ stack t0 /\
  ((next_index t0 <= n1)%nat \/ exists y, y ∈ stack t1 /\ ix t1 y = n1 /\ rtc edge x y).
Proof.
  intros L He Hd C.
  assert (visited t x) as Hx by (unfold visited; by rewrite (loop_index _ _ _ _ _ _ _ _ L)).
  assert (forall v, v ∈ stack t0 -> ix t v = ix t0 v /\ v ∈ stack t) as H0.
  { intros v Hv. split; [by eapply ext_ix; [by eapply loop_ext|apply below_visited]|].
    rewrite (loop_stack _ _ _ _ _ _ _ _ L). set_solver. }
  assert (forall v, v ∈ stack t -> visited t v) as Hst.
  { intros v ?. eapply inv_visited; [by eapply loop_inv|by left]. }
  assert (next_index t0 <= next_index t)%nat as Hn by apply L.
  split; [|split].
  - destruct C. destruct L. split; try done.
    + by eapply extends_trans.
    + by rewrite (ext_index _ _ call_ext0).
    + by rewrite call_stack0, loop_stack0, app_assoc.
    + by rewrite (ext_low _ _ call_ext0).
    + intros u w [Hu|Hu]%elem_of_app Hw Hew.
      * destruct (H0 w Hw) as [Hiw Hws]. specialize (call_edges0 u w Hu Hws Hew). lia.
      * specialize (loop_edges0 u w Hu Hw Hew). lia.
    + intros d' Hd' He'. destruct (loop_done0 d' Hd' He') as [Hv Hle].
      split; [by eapply ext_visited|]. intros Hs. specialize (Hle Hs). lia.
  - intros Hs. apply Hd. eapply ext_visited; [by eapply loop_ext|by apply below_visited].
  - destruct (call_link _ _ _ _ _ _ C) as [[-> _]|(y & Hy & <- & Hr)]; [by left|].
    right. exists y. split_and!.
    + rewrite (call_stack _ _ _ _ _ _ C). set_solver.
    + eapply ext_ix; [by eapply call_ext|auto].
    + by eapply rtc_l.
Qed.

Lemma visit_spec call m dn t n s d :
  call_spec call m -> looping dn t n n s -> (length (unvisited t) <= m)%nat ->
  (block_is_allowed allowed d = true -> edge x d) ->
  exists t' n' s', visit_succ allowed call x d t = Some (tt, t') /\
    looping (d :: dn) t' n' n' s' /\ (forall v, visited t v -> visited t' v).
Proof.
  intros Hcall L Hm He. unfold visit_succ. destruct (block_is_allowed allowed d) eqn:Ha; simpl.
  2:{ exists t, n, s. split_and!; [done| |done]. apply loop_skip; [done|].
      intros (l & _ & _ & ?). congruence. }
  specialize (He eq_refl). destruct (map_get (index t) d) as [i|] eqn:Hi.
  - assert (visited t d) as Hd by by eexists.
    pose proof (inv_on _ _ (loop_inv _ _ _ _ _ _ _ _ L)) as [_ Hon]. rewrite Hon.
    case_bool_decide as Hs.
    + destruct (loop_lower dn t n n s d i) as (t' & E & L' & Ei); [done..| |lia| |].
      * intros Hs0. erewrite <- ext_ix; [|by eapply loop_ext|by apply below_visited].
        unfold ix. by rewrite Hi.
      * right. exists d. split_and!; [done|unfold ix; by rewrite Hi|by apply rtc_once].
      * exists t', (n `min` i)%nat, s. split_and!; [done..|]. unfold visited. by rewrite Ei.
    + exists t, n, s. split_and!; [done| |done]. apply loop_skip; [done|]. intros _.
      split; [done|]. intros Hs0. exfalso. apply Hs.
      rewrite (loop_stack _ _ _ _ _ _ _ _ L). set_solver.
  - assert (~ visited t d) as Hd by (unfold visited; rewrite Hi; by intros [? ?]).
    destruct (Hcall (x :: G) d t) as (t1 & n1 & s1 & E1 & C); [apply L|by eapply edge_graph|done| |done|].
    { intros g [->|Hg]%elem_of_cons; [by apply rtc_once|]. eapply rtc_r; [by apply HG|done]. }
    unfold sm_bind. rewrite E1. rewrite (call_low _ _ _ _ _ _ C). simpl.
    destruct (loop_call _ _ _ _ _ _ _ _ L He Hd C) as (L1 & Hs0 & Hl).
    destruct (loop_lower dn t1 n (n `min` n1)%nat (s1 ++ s) d n1) as (t' & E & L' & Ei);
      [done|by eapply call_visited|done|lia|done|].
    exists t', (n `min` n1)%nat, (s1 ++ s). split_and!; [done..|]. intros v Hv.
    unfold visited. rewrite Ei. eapply ext_visited; [apply C|done].
Qed.

Lemma loop_spec call m succs dn t n s :
  call_spec call m -> looping dn t n n s -> (length (unvisited t) <= m)%nat ->
  (forall d, d ∈ succs -> block_is_allowed allowed d = true -> edge x d) ->
  exists t' n' s', sm_for succs (visit_succ allowed call x) t = Some (tt, t') /\
    looping (rev succs ++ dn) t' n' n' s'.
Proof.
  intros Hcall. revert dn t n s. induction succs as [|d succs IH]; intros dn t n s L Hm He; simpl.
  { by exists t, n, s. }
  destruct (visit_spec call m dn t n s d) as (t1 & n1 & s1 & E1 & L1 & Hv); [done..| |].
  { apply He. by left. }
  unfold sm_bind. rewrite E1.
  destruct (IH (d :: dn) t1 n1 s1) as (t2 & n2 & s2 & E2 & L2); [done| | |].
  - etrans; [by apply unvisited_mono|done].
  - intros d' ?. apply He. by right.
  - exists t2, n2, s2. split; [done|]. by rewrite <- app_assoc.
Qed.

(** ** Leaving the loop *)

Lemma pop_component_spec (pre rest : list Block) on :
  set_ok on -> (forall v, set_contains v on = bool_decide (v ∈ pre ++ x :: rest)) ->
  NoDup (pre ++ x :: rest) ->
  exists on', pop_component x (pre ++ x :: rest) on = Some (pre ++ [x], rest, on') /\
    set_ok on' /\ forall v, set_contains v on' = bool_decide (v ∈ rest).
Proof.
  revert on. induction pre as [|u pre IH]; intros on Hok Hon Hnd; simpl in *.
  - destruct (set_remove_spec x on Hok) as (on' & -> & Hok' & _ & Hon'). rewrite decide_True by done.
    exists on'. split_and!; [done..|]. intros v. rewrite Hon', Hon.
    apply NoDup_cons in Hnd as [Hx _]. repeat case_bool_decide; set_solver.
  - destruct (set_remove_spec u on Hok) as (on' & -> & Hok' & _ & Hon').
    apply NoDup_cons in Hnd as [Hu Hnd]. rewrite decide_False by set_solver. simpl.
    destruct (IH on') as (on2 & -> & ? & ?); [done| |done|by exists on2].
    intros v. rewrite Hon', Hon. repeat case_bool_decide; set_solver.
Qed.

Section Leave.
Context (dn : list Block) (t : Tarjan) (n : nat) (s : list Block).
Context (L : looping dn t n n s) (Hdn : forall d, edge x d -> d ∈ dn).

Lemma leave_nodup : NoDup (s ++ x :: stack t0 ++ concat (components t)).
Proof.
  pose proof (inv_nodup _ _ (loop_inv _ _ _ _ _ _ _ _ L)) as H.
  by rewrite (loop_stack _ _ _ _ _ _ _ _ L), <- app_assoc in H.
Qed.

Lemma leave_grey g : g ∈ G -> g ∈ stack t0.
Proof. apply (inv_grey _ _ Hinv0). Qed.

Lemma leave_ix v : v ∈ stack t0 -> ix t v = ix t0 v.
Proof. intros. eapply ext_ix; [by eapply loop_ext|by apply below_visited]. Qed.

Lemma leave_above v : v ∈ s ++ [x] -> (next_index t0 <= ix t v)%nat.
Proof.
  rewrite <- (loop_ix _ _ _ _ _ L). intros [Hv| ->%list_elem_of_singleton]%elem_of_app; [|done].
  pose proof (inv_sorted _ _ (loop_inv _ _ _ _ _ _ _ _ L)) as Hs.
  rewrite (loop_stack _ _ _ _ _ _ _ _ L) in Hs.
  apply (StronglySorted_app_rel _ _ _ v x) in Hs; [simpl in Hs; lia|done|by left].
Qed.

Lemma leave_edges u w : u ∈ s ++ [x] -> edge u w -> visited t w /\ (w ∈ stack t0 -> (n <= ix t0 w)%nat).
Proof.
  intros [Hu| ->%list_elem_of_singleton]%elem_of_app He.
  - split; [|intros ?; by eapply (loop_edges _ _ _ _ _ _ _ _ L)].
    eapply (inv_black _ _ (loop_inv _ _ _ _ _ _ _ _ L)); [| |done].
    + eapply inv_visited; [by eapply loop_inv|]. left. rewrite (loop_stack _ _ _ _ _ _ _ _ L). set_solver.
    + intros Hg. pose proof leave_nodup as Hnd. apply NoDup_app in Hnd as (_ & Hnd & _).
      apply (Hnd u Hu). apply elem_of_cons in Hg as [->|Hg]; [by left|right].
      apply elem_of_app. left. by apply leave_grey.
  - by apply (loop_done _ _ _ _ _ _ _ _ L); [apply Hdn|].
Qed.

Lemma leave_black v w : visited t v -> v ∉ G -> edge v w -> visited t w.
Proof.
  intros Hv Hg He. destruct (decide (v = x)) as [->|].
  - apply (leave_edges x w); [set_solver|done].
  - eapply (inv_black _ _ (loop_inv _ _ _ _ _ _ _ _ L)); [done| |done]. set_solver.
Qed.

Lemma leave_from g v : g ∈ G -> v ∈ stack t -> (ix t g <= ix t v)%nat -> rtc edge g v.
Proof. intros. eapply (inv_from _ _ (loop_inv _ _ _ _ _ _ _ _ L)); [by right|done..]. Qed.

(** The call's blocks stay on the stack: [x] reaches a block below it. *)
Lemma leave_open : n <> next_index t0 -> called G x t0 t n (s ++ [x]).
Proof.
  intros Hn. pose proof (loop_le _ _ _ _ _ _ _ _ L) as Hle.
  destruct (loop_link _ _ _ _ _ _ _ _ L) as [?|(y & Hy & Hyn & Hr)]; [done|].
  destruct (inv_to _ _ Hinv0 y Hy) as (g & Hg & Hgy & Hyg).
  split; [|apply L|by rewrite (loop_stack _ _ _ _ _ _ _ _ L), <- app_assoc| |apply L|done|right; eauto|].
  - pose proof (loop_inv _ _ _ _ _ _ _ _ L) as Hi. destruct Hi. split; try done.
    + intros g' Hg'. rewrite (loop_stack _ _ _ _ _ _ _ _ L). pose proof (leave_grey g' Hg'). set_solver.
    + apply leave_from.
    + intros v Hv. destruct (decide (v ∈ stack t0)) as [Hv0|Hv0].
      { destruct (inv_to _ _ Hinv0 v Hv0) as (g' & ? & ? & ?). exists g'.
        rewrite !leave_ix by auto using leave_grey. done. }
      assert (v ∈ s ++ [x]) as Hvs.
      { rewrite (loop_stack _ _ _ _ _ _ _ _ L) in Hv. set_solver. }
      pose proof (leave_above v Hvs).
      assert (ix t g <= ix t v)%nat by (rewrite (leave_ix g) by (by apply leave_grey); lia).
      destruct (inv_to0 v Hv) as (g' & [->|Hg']%elem_of_cons & Hgv & Hvg); [|by eauto].
      exists g. split_and!; [done..|]. by do 2 (etrans; [done|]).
    + apply leave_black.
  - unfold visited. by rewrite (loop_index _ _ _ _ _ _ _ _ L).
  - intros u w Hu Hw He. by apply (leave_edges u w Hu He).
Qed.

(** The blocks the call popped: a whole component. *)
Lemma leave_closed u w :
  n = next_index t0 -> u ∈ s ++ [x] -> edge u w -> w ∈ s ++ [x] \/ w ∈ concat (components t).
Proof.
  intros Hn Hu He. destruct (leave_edges u w Hu He) as [Hw Hle].
  apply (inv_visited _ _ (loop_inv _ _ _ _ _ _ _ _ L)) in Hw as [Hw|]; [|by right].
  rewrite (loop_stack _ _ _ _ _ _ _ _ L) in Hw. left.
  apply elem_of_app in Hw as [|[->|Hw]%elem_of_cons]; [set_solver..|].
  specialize (Hle Hw). pose proof (below_ix w Hw). lia.
Qed.

Lemma leave_closed_component C u w :
  C ∈ components t -> u ∈ C -> edge u w -> w ∈ concat (components t).
Proof.
  intros [j Hj]%list_elem_of_lookup Hu He.
  destruct (inv_order _ _ (loop_inv _ _ _ _ _ _ _ _ L) _ _ _ _ Hj Hu He) as (j' & C' & _ & Hj' & ?).
  apply elem_of_concat. exists C'. split; [done|]. by eapply list_elem_of_lookup_2.
Qed.

Lemma leave_path u w :
  n = next_index t0 -> rtc edge u w -> u ∈ s ++ [x] \/ u ∈ concat (components t) ->
  w ∈ s ++ [x] \/ w ∈ concat (components t).
Proof.
  intros Hn. induction 1 as [u|u v w He _ IH]; [done|]. intros [Hu|Hu]; apply IH.
  - by eapply leave_closed.
  - right. apply elem_of_concat in Hu as (C & ? & ?). by eapply leave_closed_component.
Qed.

Lemma leave_scc u w : n = next_index t0 -> u ∈ s ++ [x] -> w ∈ s ++ [x] -> rtc edge u w.
Proof.
  intros Hn Hu Hw. pose proof (loop_inv _ _ _ _ _ _ _ _ L) as Hi.
  assert (forall v, v ∈ s ++ [x] -> v ∈ stack t) as Hst.
  { intros v Hv. rewrite (loop_stack _ _ _ _ _ _ _ _ L). set_solver. }
  trans x.
  - destruct (inv_to _ _ Hi u (Hst u Hu)) as (g & [->|Hg]%elem_of_cons & _ & Hug); [done|].
    exfalso. pose proof leave_nodup as Hnd. apply NoDup_app in Hnd as (_ & Hsd & Hnd).
    apply NoDup_cons in Hnd as [Hxn Hnd]. apply NoDup_app in Hnd as (_ & Hnd & _).
    pose proof (leave_grey g Hg) as Hg0.
    destruct (leave_path u g Hn Hug (or_introl Hu)) as [[Hgs| ->%list_elem_of_singleton]%elem_of_app|Hgc].
    + apply (Hsd g Hgs). set_solver.
    + set_solver.
    + by apply (Hnd g Hg0).
  - apply (inv_from _ _ Hi); [by left|by apply Hst|]. rewrite (loop_ix _ _ _ _ _ L). by apply leave_above.
Qed.

Lemma leave_popped on :
  n = next_index t0 -> set_ok on -> (forall v, set_contains v on = bool_decide (v ∈ stack t0)) ->
  inv G (mkTarjan (next_index t) (index t) (low_link t) (stack t0) on (components t ++ [s ++ [x]])).
Proof.
  intros Hn Hok Hon. pose proof (loop_inv _ _ _ _ _ _ _ _ L) as Hi.
  assert (forall v, v ∈ stack t0 -> v ∈ stack t) as Hst.
  { intros v Hv. rewrite (loop_stack _ _ _ _ _ _ _ _ L). set_solver. }
  split; cbn [stack components next_index index low_link on_stack].
  - intros v. rewrite concat_app, elem_of_app. simpl. rewrite app_nil_r.
    etrans; [apply (inv_visited _ _ Hi)|]. rewrite (loop_stack _ _ _ _ _ _ _ _ L). set_solver.
  - apply (inv_graph _ _ Hi).
  - eapply NoDup_Permutation_proper; [|apply leave_nodup].
    rewrite concat_app. simpl. rewrite app_nil_r. solve_Permutation.
  - pose proof (inv_sorted _ _ Hi) as Hs. rewrite (loop_stack _ _ _ _ _ _ _ _ L) in Hs.
    by apply StronglySorted_app_r, StronglySorted_inv in Hs as [Hs _].
  - apply (inv_next _ _ Hi).
  - done.
  - intros j C v w HC Hv He. apply lookup_app_Some in HC as [HC|[Hj HC]].
    + destruct (inv_order _ _ Hi _ _ _ _ HC Hv He) as (j' & C' & ? & HC' & ?).
      exists j', C'. split_and!; [done|by apply lookup_app_l_Some|done].
    + apply list_lookup_singleton_Some in HC as [? <-].
      destruct (leave_closed v w Hn Hv He) as [?|(C' & ? & [j' HC']%list_elem_of_lookup)%elem_of_concat].
      * exists j, (s ++ [x]). split_and!; [done| |done]. rewrite lookup_app_r by done.
        by replace (j - length (components t))%nat with 0%nat by lia.
      * exists j', C'. split_and!; [apply lookup_lt_Some in HC'; lia|by apply lookup_app_l_Some|done].
  - intros C [HC| ->%list_elem_of_singleton]%elem_of_app; [by apply (inv_scc _ _ Hi)|].
    split; [by destruct s|]. intros. by apply leave_scc.
  - apply leave_grey.
  - intros g v Hg Hv. apply leave_from; auto.
  - intros v Hv. destruct (inv_to _ _ Hinv0 v Hv) as (g & Hg & Hle & ?). exists g.
    split_and!; [done| |done]. change (ix t g <= ix t v)%nat. by rewrite !leave_ix by auto using leave_grey.
  - apply leave_black.
Qed.

Lemma leave_spec :
  (Z.of_nat (length (components t)) < HANDLE_MAX)%Z ->
  exists t' s', close_component x t = Some (tt, t') /\ called G x t0 t' n s'.
Proof.
  intros Hc. unfold close_component. rewrite (loop_low _ _ _ _ _ _ _ _ L), (loop_index _ _ _ _ _ _ _ _ L).
  cbn [mbind option_bind]. case_decide as Hn.
  - pose proof (loop_inv _ _ _ _ _ _ _ _ L) as Hi. destruct (inv_on _ _ Hi) as [Hok Hon].
    destruct (pop_component_spec s (stack t0) (on_stack t)) as (on & Hp & Hok' & Hon'); [done| | |].
    { intros v. by rewrite Hon, (loop_stack _ _ _ _ _ _ _ _ L). }
    { pose proof leave_nodup as Hnd. rewrite app_comm_cons, app_assoc in Hnd. by apply NoDup_app in Hnd as [? _]. }
    rewrite (loop_stack _ _ _ _ _ _ _ _ L), Hp. unfold arena_store. rewrite try_new_total by done.
    eexists _, []. split; [done|]. split; [by apply leave_popped| |done| |apply L|lia|by left|].
    + destruct (loop_ext _ _ _ _ _ _ _ _ L). by split.
    + unfold visited. simpl. by rewrite (loop_index _ _ _ _ _ _ _ _ L).
    + by intros ? ? ?%elem_of_nil.
  - exists t, (s ++ [x]). split; [done|]. by apply leave_open.
Qed.
End Leave.
End Loop.

(** ** The whole search *)

Lemma successors_some v : in_graph v -> exists l, successors ir v = Some l.
Proof.
  intros [Hv _]. unfold successors, arena_get.
  destruct (lookup_lt_is_Some_2 (blocks ir) (get v) Hv) as [d ->]. by eexists.
Qed.

Lemma length_concat_nonempty {A} (ls : list (list A)) :
  (forall l, l ∈ ls -> l <> []) -> (length ls <= length (concat ls))%nat.
Proof.
  induction ls as [|l ls IH]; intros H; simpl; [done|]. rewrite length_app.
  assert (length l <> 0)%nat by (intros E%length_zero_iff_nil; apply (H l); [by left|done]).
  assert (length ls <= length (concat ls))%nat by (apply IH; intros l' ?; apply H; by right). lia.
Qed.

Lemma components_few comps :
  NoDup (concat comps) -> [] ∉ comps -> (forall v, v ∈ concat comps -> in_graph v) ->
  (length comps <= 64)%nat.
Proof.
  intros Hnd Hne HV. pose proof (graph_small Hgraph).
  assert (length comps <= length (concat comps))%nat as H1.
  { apply length_concat_nonempty. by intros C HC ->. }
  assert (length (concat comps) <= length all_blocks)%nat as H2.
  { apply submseteq_length, NoDup_submseteq; [done|]. intros v Hv. by apply elem_of_all_blocks, HV. }
  unfold all_blocks in H2. rewrite length_fmap, length_seq in H2. lia.
Qed.

Lemma inv_components_few G t : inv G t -> (length (components t) <= 64)%nat.
Proof.
  intros Hi. pose proof (inv_nodup _ _ Hi) as Hnd. apply components_few.
  - by apply NoDup_app in Hnd as (_ & _ & ?).
  - intros H. by apply (inv_scc _ _ Hi) in H as [? _].
  - intros v Hv. apply (inv_graph _ _ Hi v), (inv_visited _ _ Hi). by right.
Qed.

Lemma strong_connect_spec fuel : call_spec (strong_connect ir allowed fuel) fuel.
Proof.
  induction fuel as [|fuel IH]; intros G x t Hi Hx Hn HG Hf.
  - exfalso. apply Nat.le_0_r, length_zero_iff_nil in Hf. unfold unvisited in Hf.
    assert (x ∈ @nil Block) as []%elem_of_nil. rewrite <- Hf. apply list_elem_of_filter.
    split; [|by apply elem_of_all_blocks, Hx]. unfold visited in Hn. rewrite <- not_eq_None_Some in Hn.
    destruct (map_get _ _); [exfalso; by apply Hn|done].
  - simpl. unfold sm_bind.
    destruct (enter_spec G x t Hi Hx Hn HG) as (t1 & -> & Hi1 & He1 & Hs1 & Hx1 & Hl1).
    destruct (successors_some x Hx) as [succs Hsuccs]. rewrite Hsuccs. simpl.
    assert (looping G x t [] t1 (next_index t) (next_index t) []) as L.
    { split; try done; [by left|set_solver..]. }
    destruct (loop_spec G x t Hi Hn HG (strong_connect ir allowed fuel) fuel succs _ _ _ _ IH L)
      as (t2 & n & s & -> & L2).
    { enough (length (unvisited t1) < length (unvisited t))%nat by lia.
      apply (unvisited_lt _ _ x); [|done..|].
      - intros v. by apply ext_visited.
      - unfold visited. by rewrite Hx1. }
    { intros d Hd Ha. by exists succs. }
    destruct (leave_spec G x t Hi Hn HG _ _ _ _ L2) as (t3 & s3 & -> & C); [| |by eauto].
    { intros d (l & Hl & Hd & _). simplify_eq. rewrite app_nil_r.
      by apply list_elem_of_In, in_rev, list_elem_of_In; rewrite rev_involutive. }
    pose proof (inv_components_few _ _ (loop_inv _ _ _ _ _ _ _ _ L2)). unfold HANDLE_MAX. lia.
Qed.

Lemma search_start : inv [] tarjan_new.
Proof.
  assert (forall v, ~ visited tarjan_new v) as Hv.
  { intros v. unfold visited, tarjan_new, map_new. cbn [index]. rewrite map_get_empty. by intros [? ?]. }
  split; simpl; try done.
  - intros v. split; [by intros ?%Hv|]. by intros [?%elem_of_nil|?%elem_of_nil].
  - by intros v ?%Hv.
  - constructor.
  - constructor.
  - by intros v ?%Hv.
  - apply (set_with_capacity_rel 0).
  - by intros C ?%elem_of_nil.
  - by intros g v ?%elem_of_nil.
  - by intros v ?%elem_of_nil.
Qed.

Lemma roots_spec keys t fuel :
  inv [] t -> (forall v, v ∈ keys -> (get v < length (blocks ir))%nat) ->
  (length (unvisited t) <= fuel)%nat ->
  exists t', sm_for keys (tarjan_root ir allowed fuel) t = Some (tt, t') /\ inv [] t' /\
    (forall v, visited t v -> visited t' v) /\
    forall v, v ∈ keys -> block_is_allowed allowed v = true -> visited t' v.
Proof.
  revert t. induction keys as [|k keys IH]; intros t Hi Hk Hf; simpl.
  { exists t. split_and!; [done..|]. by intros v ?%elem_of_nil. }
  assert (exists t1, tarjan_root ir allowed fuel k t = Some (tt, t1) /\ inv [] t1 /\
    (forall v, visited t v -> visited t1 v) /\ (block_is_allowed allowed k = true -> visited t1 k)) as
    (t1 & E & Hi1 & Hv1 & Hk1).
  { unfold tarjan_root. destruct (block_is_allowed allowed k) eqn:Ha; simpl; [|by exists t].
    destruct (map_get (index t) k) eqn:Hx; [by exists t; split_and!; [..|by eexists]|].
    destruct (strong_connect_spec fuel [] k t) as (t1 & n & s & E & C); [done| | | |done|].
    - split; [apply Hk; by left|done].
    - unfold visited. rewrite Hx. by intros [? ?].
    - by intros g ?%elem_of_nil.
    - exists t1. split_and!; [done|apply C|intros v; apply ext_visited, C|intros _; by eapply call_visited]. }
  unfold sm_bind. rewrite E.
  destruct (IH t1) as (t2 & E2 & Hi2 & Hv2 & Hk2); [done|set_solver| |].
  { etrans; [by apply unvisited_mono|done]. }
  exists t2. split_and!; [done..|auto|]. intros v [->|Hv]%elem_of_cons Ha; auto.
Qed.

Lemma tarjan_run_spec :
  exists t, tarjan_run ir allowed (length (blocks ir)) tarjan_new = Some (tt, t) /\ inv [] t /\
    forall v, in_graph v -> visited t v.
Proof.
  unfold tarjan_run, sm_bind. pose proof (graph_small Hgraph).
  rewrite (arena_keys_spec (blocks ir)) by (unfold arena_ok, HANDLE_MAX; lia). simpl.
  change (Pos.of_succ_nat <$> seq 0 (length (blocks ir))) with all_blocks.
  destruct (roots_spec all_blocks tarjan_new (length (blocks ir))) as (t & E & Hi & _ & Hv).
  - apply search_start.
  - intros v. apply elem_of_all_blocks.
  - unfold unvisited. etrans; [apply length_filter|]. unfold all_blocks. by rewrite length_fmap, length_seq.
  - exists t. split_and!; [done..|]. intros v [Hl Ha]. apply Hv; [by apply elem_of_all_blocks|done].
Qed.
End Correct.

(** ** Blocks beyond the first word

    The set of blocks on the stack starts without room, so a search that comes
    back has met no block with an index of 64 or more. *)

Record roomless (t : Tarjan) : Prop := {
  rl_on : set_ok (on_stack t) /\ room_like set_new (on_stack t);
  rl_index : forall v, visited t v -> (get v < 64)%nat;
}.

Lemma set_new_room v : set_room set_new v = true -> (get v < 64)%nat.
Proof.
  unfold set_room. destruct (index_and_mask_spec v) as (b & -> & _). simpl.
  replace (Z.to_nat (Z.of_nat (get v) / 64) <? length set_new)%nat with false
    by (symmetry; by apply Nat.ltb_ge, Nat.le_0_l).
  rewrite orb_false_r, Nat.eqb_eq. intros H.
  pose proof (Z.div_mod (Z.of_nat (get v)) 64). pose proof (Z.mod_pos_bound (Z.of_nat (get v)) 64).
  pose proof (Z.div_pos (Z.of_nat (get v)) 64). lia.
Qed.

Lemma enter_roomless x t u t' :
  roomless t -> enter x t = Some (u, t') ->
  roomless t' /\ index t' = snd (map_insert x (next_index t) (index t)).
Proof.
  intros [[Hok Hr] Hi]. unfold enter. pose proof (set_insert_spec x _ Hok) as Hs.
  destruct (set_room (on_stack t) x) eqn:Hx; [|by rewrite Hs].
  pose proof (fun v => map_get_insert (index t) x v (next_index t)) as Hmi.
  destruct Hs as (on & E & Hok' & _). rewrite E. remember (map_insert x _ (index t)) as mi.
  intros [= _ <-]. split; [|done]. split; cbn [on_stack index].
  - split; [done|]. intros k. rewrite <- (Hr k). by eapply set_insert_length.
  - intros v. unfold visited; cbn [index]. rewrite Hmi. case_decide as Hv; [subst v|apply Hi].
    intros _. apply set_new_room. by rewrite <- (Hr x).
Qed.

Lemma pop_component_roomless x l on c l' on' :
  set_ok on -> pop_component x l on = Some (c, l', on') -> set_ok on' /\ length on' = length on.
Proof.
  revert on c l'. induction l as [|m l IH]; intros on c l' Hok; simpl; [done|].
  destruct (set_remove_spec m on Hok) as (on1 & -> & Hok1 & Hl & _). simpl.
  case_decide; [by intros [= _ _ <-]|].
  destruct (pop_component x l on1) as [[[c1 l1] on2]|] eqn:E; [|done]. intros [= _ _ <-].
  destruct (IH _ _ _ Hok1 E) as [? ?]. split; [done|congruence].
Qed.

Lemma room_like_length s on on' : room_like s on -> length on' = length on -> room_like s on'.
Proof. intros H Hl k. rewrite <- (H k). unfold set_room. by rewrite Hl. Qed.

(** What a call that comes back has kept. *)
Definition kept (t t' : Tarjan) : Prop := roomless t' /\ forall v, visited t v -> visited t' v.

Lemma lower_link_kept x link t u t' : roomless t -> lower_link x link t = Some (u, t') -> kept t t'.
Proof.
  intros []. unfold lower_link. destruct (map_get _ _); [|done]. cbn [mbind option_bind].
  intros [= _ <-]. by split; [split|].
Qed.

Lemma close_component_kept x t u t' : roomless t -> close_component x t = Some (u, t') -> kept t t'.
Proof.
  intros [[Hok Hr] Hi]. unfold close_component. destruct (map_get (low_link t) x); [|done].
  destruct (map_get (index t) x); [|done]. cbn [mbind option_bind]. case_decide.
  - destruct (pop_component _ _ _) as [[[c l] on]|] eqn:E; [|done].
    destruct (arena_store _ _) as [[h cs]|]; [|done]. intros [= _ <-].
    destruct (pop_component_roomless _ _ _ _ _ _ Hok E) as [? Hl].
    split; [split; [|done]|done]. split; [done|]. by eapply room_like_length.
  - intros [= _ <-]. by split; [split|].
Qed.

Lemma strong_connect_kept ir allowed fuel x t u t' :
  roomless t -> strong_connect ir allowed fuel x t = Some (u, t') -> kept t t' /\ visited t' x.
Proof.
  revert x t u t'. induction fuel as [|fuel IH]; intros x t u t' Hr; simpl; [done|]. unfold sm_bind.
  destruct (enter x t) as [[u1 t1]|] eqn:E1; [|done].
  destruct (enter_roomless _ _ _ _ Hr E1) as [Hr1 Hi1].
  assert (forall v, visited t v \/ v = x -> visited t1 v) as Hv1.
  { intros v Hv. unfold visited in *. rewrite Hi1, map_get_insert. case_decide; [done|]. naive_solver. }
  destruct (successors ir x) as [succs|]; [|done]. simpl.
  destruct (sm_for succs _ t1) as [[u2 t2]|] eqn:E2; [|done].
  assert (kept t1 t2) as [Hr2 Hv2].
  { revert E2. apply (sm_for_keeps (fun t => kept t1 t)); [|by split].
    intros d s s' u' _ [Hs Hvs] E. unfold visit_succ in E.
    destruct (block_is_allowed allowed d); simpl in E; [|by injection E as _ <-].
    destruct (map_get (index s) d).
    - destruct (set_contains d (on_stack s)); [|by injection E as _ <-].
      destruct (lower_link_kept _ _ _ _ _ Hs E) as [? ?]. split; auto.
    - unfold sm_bind in E. destruct (strong_connect ir allowed fuel d s) as [[u3 s3]|] eqn:E3; [|done].
      destruct (IH _ _ _ _ Hs E3) as [[Hs3 Hv3] _]. destruct (map_get (low_link s3) d); [|done]. simpl in E.
      destruct (lower_link_kept _ _ _ _ _ Hs3 E) as [? ?]. split; auto. }
  intros E3. destruct (close_component_kept _ _ _ _ Hr2 E3) as [? Hv3]. split; [split; auto|auto].
Qed.

Lemma tarjan_large ir fuel :
  arena_ok (blocks ir) -> (64 < length (blocks ir))%nat ->
  tarjan_run ir None fuel tarjan_new = None.
Proof.
  intros Ho Hl. destruct (tarjan_run ir None fuel tarjan_new) as [[u t]|] eqn:E; [exfalso|done].
  unfold tarjan_run, sm_bind at 1 in E. rewrite arena_keys_spec in E by done. simpl in E.
  assert (roomless tarjan_new) as Hr0.
  { split; [split; [apply (set_with_capacity_rel 0)|done]|]. intros v [i Hi]. unfold tarjan_new, map_new in Hi. cbn [index] in Hi.
    by rewrite map_get_empty in Hi. }
  assert (forall keys s, roomless s -> sm_for keys (tarjan_root ir None fuel) s = Some (u, t) ->
    roomless t /\ (forall v, visited s v -> visited t v) /\ forall v, v ∈ keys -> visited t v) as H.
  { clear E. induction keys as [|k keys IH]; intros s Hs E; simpl in E.
    { injection E as _ <-. split_and!; [done..|]. by intros v ?%elem_of_nil. }
    unfold sm_bind in E. destruct (tarjan_root ir None fuel k s) as [[u1 s1]|] eqn:E1; [|done].
    assert (kept s s1 /\ visited s1 k) as [[Hs1 Hv1] Hk].
    { unfold tarjan_root in E1. simpl in E1. destruct (map_get (index s) k) eqn:Hk.
      - injection E1 as _ <-. split; [by split|]. by eexists.
      - by eapply strong_connect_kept. }
    destruct (IH s1 Hs1 E) as (? & Hv & Hks). split_and!; [done|auto|].
    intros v [->|?]%elem_of_cons; auto. }
  destruct (H _ _ Hr0 E) as (Hr & _ & Hk).
  assert (get (Pos.of_succ_nat 64) < 64)%nat as Hb; [|rewrite get_of_succ in Hb; lia].
  apply (rl_index _ Hr), Hk, list_elem_of_fmap. exists 64%nat. split; [done|]. apply elem_of_seq. lia.
Qed.

(** ** Properties *)

Lemma component_unique (ls : list (list Block)) i j Ci Cj v :
  NoDup (concat ls) -> ls !! i = Some Ci -> ls !! j = Some Cj -> v ∈ Ci -> v ∈ Cj -> i = j.
Proof.
  revert i j. induction ls as [|l ls IH]; intros i j Hnd Hi Hj Hvi Hvj; [done|].
  simpl in Hnd. apply NoDup_app in Hnd as (Hl & Hd & Hnd).
  assert (forall k C, ls !! k = Some C -> v ∈ C -> v ∈ l -> False) as Hx.
  { intros k C Hk Hv Hvl. apply (Hd v Hvl), elem_of_concat. exists C.
    split; [done|]. by eapply list_elem_of_lookup_2. }
  destruct i as [|i], j as [|j]; simplify_eq/=; [done|exfalso; eauto..|]. f_equal. eauto.
Qed.

Section Reach.
Context (ir : ExecIrBuilder) (allowed : option ArenaSet) (comps : list (list Block)).
Context (Hord : forall j C u v, comps !! j = Some C -> u ∈ C -> edge ir allowed u v ->
  exists j' C', (j' <= j)%nat /\ comps !! j' = Some C' /\ v ∈ C').

(** Paths go from later components to earlier ones. *)
Lemma component_path j C u v :
  comps !! j = Some C -> u ∈ C -> rtc (edge ir allowed) u v ->
  exists j' C', (j' <= j)%nat /\ comps !! j' = Some C' /\ v ∈ C'.
Proof.
  intros HC Hu H. revert j C HC Hu. induction H as [u|u w v He _ IH]; intros j C HC Hu; [by exists j, C|].
  destruct (Hord j C u w HC Hu He) as (j1 & C1 & ? & HC1 & Hw).
  destruct (IH j1 C1 HC1 Hw) as (j2 & C2 & ? & ? & ?). exists j2, C2. split_and!; [lia|done..].
Qed.
End Reach.

(** What [tarjan_correct] says of the components. *)
Record components_ok (ir : ExecIrBuilder) (allowed : option ArenaSet) (comps : list (list Block)) : Prop := {
  co_nodup : NoDup (concat comps);
  co_nonempty : [] ∉ comps;
  co_all : forall v, v ∈ concat comps <-> in_graph ir allowed v;
  co_scc : forall C u v, C ∈ comps -> u ∈ C ->
    (v ∈ C <-> rtc (edge ir allowed) u v /\ rtc (edge ir allowed) v u);
  co_order : forall j C u v, comps !! j = Some C -> u ∈ C -> edge ir allowed u v ->
    exists j' C', (j' <= j)%nat /\ comps !! j' = Some C' /\ v ∈ C';
}.

Lemma search_components ir allowed t :
  inv ir allowed [] t -> (forall v, in_graph ir allowed v -> visited t v) ->
  components_ok ir allowed (components t).
Proof.
  intros Hi Hv. assert (stack t = []) as Hs.
  { destruct (stack t) as [|v l] eqn:Hs; [done|]. exfalso.
    destruct (inv_to _ _ _ _ Hi v) as (g & []%elem_of_nil & _). rewrite Hs. by left. }
  pose proof (inv_nodup _ _ _ _ Hi) as Hnd. rewrite Hs in Hnd. simpl in Hnd.
  pose proof (inv_order _ _ _ _ Hi) as Hord.
  split; [done|intros H; by apply (inv_scc _ _ _ _ Hi) in H as [? _]| | |done].
  - intros v. split; intros H.
    + eapply inv_graph; [done|]. apply (inv_visited _ _ _ _ Hi). by right.
    + apply Hv in H. apply (inv_visited _ _ _ _ Hi) in H. rewrite Hs in H. set_solver.
  - intros C u v HC Hu. split.
    + intros Hv'. destruct (inv_scc _ _ _ _ Hi C HC) as [_ Hr]. auto.
    + intros [Huv Hvu]. apply list_elem_of_lookup in HC as [j HC].
      destruct (component_path _ _ _ Hord j C u v HC Hu Huv) as (j1 & C1 & ? & HC1 & Hv1).
      destruct (component_path _ _ _ Hord j1 C1 v u HC1 Hv1 Hvu) as (j2 & C2 & ? & HC2 & Hu2).
      assert (j2 = j) as -> by by eapply component_unique.
      assert (j1 = j) as -> by lia. by simplify_eq.
Qed.

(** The depth-first search finds the strongly connected components.  On a
    graph of at most 64 blocks whose jumps go to blocks, the search ends and
    returns non-empty lists of blocks in which every (allowed) block occurs exactly once;
    two blocks are in one list exactly when each reaches the other; and every
    jump goes to the same list or to one that comes before. *)
Theorem tarjan_correct ir allowed :
  graph_ok ir ->
  exists comps, strongly_connected_components ir allowed = Some comps /\
    NoDup (concat comps) /\ [] ∉ comps /\ (forall v, v ∈ concat comps <-> in_graph ir allowed v) /\
    (forall C u v, C ∈ comps -> u ∈ C -> (v ∈ C <-> rtc (edge ir allowed) u v /\ rtc (edge ir allowed) v u)) /\
    forall j C u v, comps !! j = Some C -> u ∈ C -> edge ir allowed u v ->
      exists j' C', (j' <= j)%nat /\ comps !! j' = Some C' /\ v ∈ C'.
Proof.
  intros Hg. destruct (tarjan_run_spec ir allowed Hg) as (t & E & Hi & Hv).
  exists (components t). unfold strongly_connected_components. rewrite E.
  destruct (search_components ir allowed t Hi Hv). by split_and!.
Qed.

(** [graph_ok] by evaluation. *)
Definition targets_in_range (ir : ExecIrBuilder) : bool :=
  forallb (fun d => forallb (fun b => get b <? length (blocks ir))%nat (Term.block_targets (terminator d)))
    (blocks ir).

Lemma graph_ok_check ir :
  targets_in_range ir = true -> (length (blocks ir) <= 64)%nat -> graph_ok ir.
Proof.
  intros H Hl. split; [|done]. intros u l v Hs Hv. unfold successors, arena_get in Hs.
  destruct (blocks ir !! get u) as [d|] eqn:Hd; [|done]. simplify_eq/=.
  unfold targets_in_range in H. rewrite forallb_forall in H.
  specialize (H d). rewrite forallb_forall in H. apply Nat.ltb_lt, H; [|by apply list_elem_of_In].
  apply list_elem_of_In. by eapply list_elem_of_lookup_2.
Qed.

(** A loop of two blocks behind the entry, with an exit. *)
Definition sample_graph : ExecIrBuilder :=
  let b t := mkBlock [] [] true t false in
  mkBuilder initial_ssa_values
    [b (Term.Br (jump_to 2%positive)); b (Term.BrZ 1%positive (jump_to 3%positive) (jump_to 4%positive));
     b (Term.Br (jump_to 2%positive)); b Term.Return]
    [] [] initial_signatures None None ENTRYPOINT 3.

Lemma tarjan_correct_witness :
  strongly_connected_components sample_graph None =
    Some [[4%positive]; [3%positive; 2%positive]; [1%positive]] /\
  exists comps, strongly_connected_components sample_graph None = Some comps /\
    NoDup (concat comps) /\ [] ∉ comps /\ (forall v, v ∈ concat comps <-> in_graph sample_graph None v) /\
    (forall C u v, C ∈ comps -> u ∈ C ->
      (v ∈ C <-> rtc (edge sample_graph None) u v /\ rtc (edge sample_graph None) v u)) /\
    forall j C u v, comps !! j = Some C -> u ∈ C -> edge sample_graph None u v ->
      exists j' C', (j' <= j)%nat /\ comps !! j' = Some C' /\ v ∈ C'.
Proof.
  split; [by vm_compute|]. apply tarjan_correct. apply graph_ok_check; [by vm_compute|simpl; lia].
Defined.
