(* ===== verification/SccGraph.v ===== *)
(** * The graph of strongly connected components, in topological order
    ([jit-compiler-core/src/ir/halt_check_pass.rs], [SccGraph])

    The check that every cycle has a safepoint, the condensation of the
    control-flow graph with its in-degrees, and the queue that orders it.  The
    queue loop takes fuel, one unit per component. *)

From Stdlib Require Import Sorting.Sorted.
From S2P Require Import Prelude Arena Ir Tarjan.
Local Open Scope emu_scope.

Abbreviation SccComponent := RawHandle.

Definition component_is_cyclic (ir : ExecIrBuilder) (component : list Block) : option bool :=
  match component with
  | [] => Some false
  | [one_block] =>
      succs ← successors ir one_block;
      Some (existsb (fun succ => bool_decide (succ = one_block)) succs)
  | _ :: _ :: _ => Some true
  end.

(** [any] over the statements, which stops at the first safepoint. *)
Fixpoint any_safepoint (ir : ExecIrBuilder) (l : list Stmt) : option bool :=
  match l with
  | [] => Some false
  | stmt :: l =>
      d ← arena_get (all_stmts ir) stmt;
      if is_safepoint (rvalue d) then Some true else any_safepoint ir l
  end.

Definition block_has_safepoint (ir : ExecIrBuilder) (block : Block) : option bool :=
  data ← arena_get (blocks ir) block;
  any_safepoint ir (stmts data).

(** [filter] with a predicate that may panic. *)
Fixpoint filter_opt {A} (P : A -> option bool) (l : list A) : option (list A) :=
  match l with
  | [] => Some []
  | x :: l => keep ← P x; l ← filter_opt P l; Some (if keep : bool then x :: l else l)
  end.

(** [any] over the components, which stops at the first cyclic one. *)
Fixpoint any_cyclic (ir : ExecIrBuilder) (l : list (list Block)) : option bool :=
  match l with
  | [] => Some false
  | c :: l => cyclic ← component_is_cyclic ir c; if cyclic : bool then Some true else any_cyclic ir l
  end.

(** A filtered iterator promises no elements: the set starts without room. *)
Definition safepoint_free_blocks (ir : ExecIrBuilder) : option ArenaSet :=
  keys ← arena_keys (blocks ir);
  free ← filter_opt (fun block => negb <$> block_has_safepoint ir block) keys;
  set_from_iter 0 free.

Definition assert_cycles_have_safepoints (ir : ExecIrBuilder) : option unit :=
  allowed ← safepoint_free_blocks ir;
  components ← strongly_connected_components ir (Some allowed);
  cyclic ← any_cyclic ir components;
  if cyclic : bool then None else Some tt.

Record SccGraph := mkSccGraph {
  scc_components : Arena (list Block);
  component_of : ArenaMap SccComponent;
  topo_order : list SccComponent;
  is_cyclic : ArenaSet;
}.

(** [component_of.insert_unique(block, component_id)] for every block. *)
Definition number_components (components : Arena (list Block)) : SM (ArenaMap SccComponent) unit :=
  let! keys := sm_of_option (arena_keys components) in
  sm_for (zip keys components) (fun '(component_id, component) =>
    sm_for component (fun block => map_insert_unique block component_id)).

(** One edge of the condensation, with its in-degree. *)
Definition add_component_edge (from_component to_component : SccComponent) :
    SM (list ArenaSet * list nat) unit := fun '(edges, indegree) =>
  if decide (from_component = to_component) then Some (tt, (edges, indegree))
  else
    row ← edges !! get from_component;
    match set_insert to_component row with
    | None => None
    | Some (fresh, row) =>
        let edges := <[get from_component := row]> edges in
        if fresh : bool then
          degree ← indegree !! get to_component;
          Some (tt, (edges, <[get to_component := S degree]> indegree))
        else Some (tt, (edges, indegree))
    end.

Definition component_edges (ir : ExecIrBuilder) (component_of : ArenaMap SccComponent) :
    SM (list ArenaSet * list nat) unit :=
  let! entries := sm_of_option (map_iter component_of) in
  sm_for entries (fun '(block, from_component) =>
    let! succs := sm_of_option (successors ir block) in
    sm_for succs (fun succ =>
      let! to_component := sm_of_option (map_get component_of succ) in
      add_component_edge from_component to_component)).

(** Taking a component out: its successors' in-degrees fall, and those that reach
    zero queue up. *)
Fixpoint release (succs : list SccComponent) (indegree : list nat) (ready : list SccComponent) :
    option (list nat * list SccComponent) :=
  match succs with
  | [] => Some (indegree, ready)
  | succ :: succs =>
      degree ← indegree !! get succ;
      match degree with
      | O => None  (* strict_sub *)
      | S degree =>
          release succs (<[get succ := degree]> indegree)
            (if (degree =? 0)%nat then ready ++ [succ] else ready)
      end
  end.

Fixpoint drain_ready (fuel : nat) (edges : list ArenaSet) (indegree : list nat)
    (ready topo_order : list SccComponent) : option (list SccComponent) :=
  match ready with
  | [] => Some topo_order
  | component_id :: ready =>
      match fuel with
      | O => None
      | S fuel =>
          row ← edges !! get component_id;
          succs ← set_iter row;
          '(indegree, ready) ← release succs indegree ready;
          drain_ready fuel edges indegree ready (topo_order ++ [component_id])
      end
  end.

Definition initially_ready (indegree : list nat) : option (list SccComponent) :=
  mapM try_new (omap (fun '(component_id, degree) => if (degree =? 0)%nat then Some component_id else None)
                     (imap pair indegree)).

Definition SccGraph_new (ir : ExecIrBuilder) : option SccGraph :=
  _ ← assert_cycles_have_safepoints ir;
  components ← strongly_connected_components ir None;
  '(_, component_of) ← number_components components (map_with_capacity (length (blocks ir)));
  let n := length components in
  '(_, (edges, indegree)) ← component_edges ir component_of (replicate n set_new, replicate n 0%nat);
  ready ← initially_ready indegree;
  topo_order ← drain_ready n edges indegree ready [];
  if decide (length topo_order = n) then
    keys ← arena_keys components;
    cyclic ← filter_opt (fun '(_, component) => component_is_cyclic ir component) (zip keys components);
    is_cyclic ← set_from_iter 0 cyclic.*1;
    Some (mkSccGraph components component_of topo_order is_cyclic)
  else None.

(** ** The condition on cycles *)

Definition is_sp (ir : ExecIrBuilder) (s : Stmt) : bool :=
  match arena_get (all_stmts ir) s with Some d => is_safepoint (rvalue d) | None => false end.
Definition has_safepoint (ir : ExecIrBuilder) (b : Block) : bool :=
  match arena_get (blocks ir) b with Some d => existsb (is_sp ir) (stmts d) | None => false end.

(** Every block's statements exist. *)
Definition stmts_ok (ir : ExecIrBuilder) : Prop :=
  forall b d s, arena_get (blocks ir) b = Some d -> s ∈ stmts d -> is_Some (arena_get (all_stmts ir) s).

(** A step between blocks without a safepoint. *)
Definition quiet_edge (ir : ExecIrBuilder) (u v : Block) : Prop :=
  exists l, successors ir u = Some l /\ v ∈ l /\ has_safepoint ir v = false.
Definition quiet_cycle (ir : ExecIrBuilder) : Prop := exists v, tc (quiet_edge ir) v v.

Lemma any_safepoint_spec ir l :
  (forall s, s ∈ l -> is_Some (arena_get (all_stmts ir) s)) ->
  any_safepoint ir l = Some (existsb (is_sp ir) l).
Proof.
  induction l as [|s l IH]; intros Hl; simpl; [done|].
  destruct (Hl s) as [d Hd]; [by left|]. unfold is_sp at 1. rewrite Hd. simpl.
  destruct (is_safepoint _); [done|]. apply IH. intros s' ?. apply Hl. by right.
Qed.

Lemma block_has_safepoint_spec ir b :
  stmts_ok ir -> (get b < length (blocks ir))%nat ->
  block_has_safepoint ir b = Some (has_safepoint ir b).
Proof.
  intros Hs Hb. unfold block_has_safepoint, has_safepoint.
  destruct (lookup_lt_is_Some_2 (blocks ir) (get b) Hb) as [d Hd]. unfold arena_get at 1 2. rewrite Hd.
  apply any_safepoint_spec. intros s. by apply (Hs b d).
Qed.

Lemma filter_opt_spec {A} (P : A -> option bool) (Q : A -> bool) l :
  (forall x, x ∈ l -> P x = Some (Q x)) -> filter_opt P l = Some (filter (fun x => Q x = true) l).
Proof.
  induction l as [|x l IH]; intros H; simpl; [done|]. rewrite H by by left. simpl.
  rewrite IH by (intros; apply H; by right). simpl. rewrite filter_cons. destruct (Q x); by simpl.
Qed.

Lemma safepoint_free_spec ir :
  graph_ok ir -> stmts_ok ir ->
  exists s, safepoint_free_blocks ir = Some s /\
    forall v, in_graph ir (Some s) v <-> (get v < length (blocks ir))%nat /\ has_safepoint ir v = false.
Proof.
  intros Hg Hs. unfold safepoint_free_blocks. pose proof (graph_small _ Hg).
  rewrite arena_keys_spec by (unfold arena_ok, HANDLE_MAX; lia). cbn [mbind option_bind].
  change (Pos.of_succ_nat <$> seq 0 (length (blocks ir))) with (all_blocks ir).
  rewrite (filter_opt_spec _ (fun b => negb (has_safepoint ir b))).
  2:{ intros b Hb%elem_of_all_blocks. by rewrite block_has_safepoint_spec. }
  cbn [mbind option_bind]. set (l := filter _ _).
  assert (forall v, v ∈ l <-> (get v < length (blocks ir))%nat /\ has_safepoint ir v = false) as Hl.
  { intros v. unfold l. rewrite list_elem_of_filter, elem_of_all_blocks, negb_true_iff. tauto. }
  destruct (set_from_iter_spec 0 l) as (s & -> & _ & Hc).
  { intros k [Hk _]%Hl. apply small_room. lia. }
  exists s. split; [done|]. intros v. unfold in_graph. simpl.
  rewrite Hc, bool_decide_eq_true, elem_of_list_to_set, Hl. tauto.
Qed.

(** ** Cyclic components *)

Lemma tc_mono {A} (R1 R2 : relation A) x y : (forall x y, R1 x y -> R2 x y) -> tc R1 x y -> tc R2 x y.
Proof. intros H. induction 1; [by apply tc_once, H|]. eapply tc_l; [by apply H|done]. Qed.

Lemma tc_last {A} (R : relation A) x y : tc R x y -> exists z, R z y.
Proof. induction 1; eauto. Qed.

Section Components.
Context (ir : ExecIrBuilder) (allowed : option ArenaSet) (comps : list (list Block)).

Context (Hg : graph_ok ir) (Hco : components_ok ir allowed comps).

Lemma co_nodup_component C : C ∈ comps -> NoDup C.
Proof.
  intros HC. pose proof (co_nodup _ _ _ Hco) as H. apply list_elem_of_split in HC as (l1 & l2 & ->).
  rewrite concat_app in H. simpl in H. by apply NoDup_app in H as (_ & _ & [? _]%NoDup_app).
Qed.

Lemma component_is_cyclic_spec C :
  C ∈ comps -> exists b, component_is_cyclic ir C = Some b /\
    (b = true <-> exists v, v ∈ C /\ tc (edge ir allowed) v v).
Proof.
  intros HC. pose proof (co_nodup_component C HC) as Hnd.
  assert (forall v, v ∈ C -> in_graph ir allowed v) as HV.
  { intros v Hv. apply (co_all _ _ _ Hco), elem_of_concat. eauto. }
  destruct C as [|v [|w C]]; simpl.
  - exists false. split; [done|]. split; [done|]. by intros (? & ?%elem_of_nil & _).
  - assert (in_graph ir allowed v) as Hv by (apply HV; by left).
    destruct (successors_some ir allowed v Hv) as [l Hl]. rewrite Hl. cbn [mbind option_bind].
    eexists. split; [done|]. rewrite existsb_exists. split.
    + intros (x & Hx & ->%bool_decide_eq_true). exists v. split; [by left|]. apply tc_once.
      exists l. split_and!; [done|by apply list_elem_of_In|by apply Hv].
    + intros (x & ->%list_elem_of_singleton & H). exists v. split; [|by apply bool_decide_eq_true].
      assert (exists y, edge ir allowed v y /\ rtc (edge ir allowed) y v) as (y & He & Hr).
      { inversion H; subst; [by exists v|]. eexists. split; [done|]. by apply tc_rtc. }
      assert (y ∈ [v]) as ->%list_elem_of_singleton.
      { apply (co_scc _ _ _ Hco [v] v y HC); [by left|]. split; [by apply rtc_once|done]. }
      destruct He as (l' & ? & ? & _). simplify_eq. by apply list_elem_of_In.
  - exists true. split; [done|]. split; [|done]. intros _. exists v. split; [by left|].
    assert (v <> w) as Hne by (apply NoDup_cons in Hnd as [? _]; set_solver).
    destruct (co_scc _ _ _ Hco _ v w HC) as [H _]; [by left|]. destruct H as [Hvw Hwv]; [set_solver|].
    apply rtc_tc in Hvw as [?|Hvw]; [done|]. eapply tc_rtc_r; [done|done].
Qed.

Lemma any_cyclic_spec l :
  (forall C, C ∈ l -> C ∈ comps) ->
  exists b, any_cyclic ir l = Some b /\
    (b = true <-> exists C v, C ∈ l /\ v ∈ C /\ tc (edge ir allowed) v v).
Proof.
  induction l as [|C l IH]; intros Hl; simpl.
  { exists false. split; [done|]. split; [done|]. by intros (? & ? & ?%elem_of_nil & _). }
  destruct (component_is_cyclic_spec C) as (b & -> & Hb); [apply Hl; by left|]. simpl.
  destruct IH as (b' & E & Hb'); [intros; apply Hl; by right|].
  destruct b.
  - exists true. split; [done|]. split; [|done]. intros _. destruct Hb as [Hb _].
    destruct (Hb eq_refl) as (v & ? & ?). exists C, v. split_and!; [by left|done..].
  - exists b'. split; [done|]. rewrite Hb'. split.
    + intros (C' & v & ? & ? & ?). exists C', v. split_and!; [by right|done..].
    + intros (C' & v & [->|]%elem_of_cons & ? & ?); [|by eauto].
      destruct Hb as [_ Hb]. discriminate Hb. eauto.
Qed.

(** A cyclic component contains every cycle through it. *)
Lemma cycle_in_component : (exists C v, C ∈ comps /\ v ∈ C /\ tc (edge ir allowed) v v) <->
  exists v, tc (edge ir allowed) v v.
Proof.
  split; [intros (C & v & _ & _ & ?); by exists v|]. intros (v & Hv).
  assert (v ∈ concat comps) as (C & ? & ?)%elem_of_concat; [|by exists C, v].
  apply (co_all _ _ _ Hco). destruct (tc_last _ _ _ Hv) as [u Hu]. by eapply edge_graph.
Qed.
End Components.

Lemma tarjan_components ir allowed :
  graph_ok ir -> exists comps, strongly_connected_components ir allowed = Some comps /\
    components_ok ir allowed comps.
Proof.
  intros Hg. destruct (tarjan_run_spec ir allowed Hg) as (t & E & Hi & Hv).
  exists (components t). unfold strongly_connected_components. rewrite E. split; [done|].
  by apply search_components.
Qed.

Lemma quiet_edge_spec ir s u v :
  graph_ok ir ->
  (forall v, in_graph ir (Some s) v <-> (get v < length (blocks ir))%nat /\ has_safepoint ir v = false) ->
  edge ir (Some s) u v <-> quiet_edge ir u v.
Proof.
  intros Hg Hs. unfold edge, quiet_edge. split; intros (l & Hl & Hv & H); exists l; split_and!; try done.
  - by apply (Hs v); split; [eapply graph_targets|].
  - by apply (Hs v); split; [eapply graph_targets|].
Qed.

Lemma assert_cycles_decides ir :
  graph_ok ir -> stmts_ok ir ->
  exists b : bool, assert_cycles_have_safepoints ir = (if b then None else Some tt) /\ (b = true <-> quiet_cycle ir).
Proof.
  intros Hg Hs. unfold assert_cycles_have_safepoints.
  destruct (safepoint_free_spec ir Hg Hs) as (s & -> & Hf). cbn [mbind option_bind].
  destruct (tarjan_components ir (Some s) Hg) as (comps & -> & Hco). cbn [mbind option_bind].
  destruct (any_cyclic_spec ir (Some s) comps Hg Hco comps) as (b & -> & Hb); [done|]. cbn [mbind option_bind].
  rewrite (cycle_in_component ir (Some s) comps Hg Hco) in Hb. exists b. split; [done|].
  rewrite Hb. unfold quiet_cycle. split; intros (v & Hv); exists v; revert Hv; apply tc_mono;
    intros x y; by apply quiet_edge_spec.
Qed.

Lemma assert_cycles_spec ir :
  graph_ok ir -> stmts_ok ir ->
  (~ quiet_cycle ir -> assert_cycles_have_safepoints ir = Some tt) /\
  (quiet_cycle ir -> assert_cycles_have_safepoints ir = None).
Proof.
  intros Hg Hs. destruct (assert_cycles_decides ir Hg Hs) as ([|] & -> & Hq); split; try done; intros H;
    [exfalso; by apply H, Hq|by apply Hq in H].
Qed.

(** ** Numbering *)

Definition in_component (comps : list (list Block)) (c : SccComponent) (v : Block) : Prop :=
  exists C, comps !! get c = Some C /\ v ∈ C.

Lemma number_one c C (m : ArenaMap SccComponent) :
  NoDup C -> (forall v, v ∈ C -> map_get m v = None) ->
  exists m', sm_for C (fun block => map_insert_unique block c) m = Some (tt, m') /\
    forall v, map_get m' v = if decide (v ∈ C) then Some c else map_get m v.
Proof.
  revert m. induction C as [|u C IH]; intros m Hnd Hm; simpl.
  { exists m. split; [done|]. done. }
  apply NoDup_cons in Hnd as [Hu Hnd]. unfold sm_bind.
  destruct (map_insert_unique_new m u c) as (m1 & -> & H1); [apply Hm; by left|].
  destruct (IH m1) as (m2 & -> & H2); [done| |].
  { intros v Hv. rewrite H1, decide_False; [apply Hm; by right|]. by intros ->. }
  exists m2. split; [done|]. intros v. rewrite H2, H1. repeat case_decide; try done; set_solver.
Qed.

Lemma number_all ls (m : ArenaMap SccComponent) :
  NoDup (concat ls.*2) -> (forall v, v ∈ concat ls.*2 -> map_get m v = None) ->
  exists m', sm_for ls (fun '(c, C) => sm_for C (fun block => map_insert_unique block c)) m = Some (tt, m') /\
    forall v c, map_get m' v = Some c <-> map_get m v = Some c \/ exists C, (c, C) ∈ ls /\ v ∈ C.
Proof.
  revert m. induction ls as [|[c C] ls IH]; intros m Hnd Hm; simpl in *.
  { exists m. split; [done|]. intros v c. split; [by left|]. by intros [?|(? & ?%elem_of_nil & _)]. }
  apply NoDup_app in Hnd as (HC & Hd & Hnd).
  destruct (number_one c C m HC) as (m1 & E1 & H1); [intros; apply Hm; set_solver|].
  unfold sm_bind. rewrite E1. destruct (IH m1 Hnd) as (m2 & -> & H2).
  { intros v Hv. rewrite H1, decide_False; [apply Hm; set_solver|]. intros ?. by apply (Hd v). }
  exists m2. split; [done|]. intros v c'. rewrite H2, H1. destruct (decide (v ∈ C)) as [Hv|Hv].
  - rewrite Hm by set_solver. split.
    + intros [[= ->]|(C' & ? & ?)]; right; [exists C|exists C']; set_solver.
    + intros [?|(C' & [[= -> ->]|?]%elem_of_cons & ?)]; [done|by left|]. right; eauto.
  - split.
    + intros [?|(C' & ? & ?)]; [by left|right; exists C'; set_solver].
    + intros [?|(C' & [[= -> ->]|?]%elem_of_cons & ?)]; [by left|done|]. right; eauto.
Qed.

(** An arena's elements with their handles. *)
Definition handles (n : nat) : list RawHandle := Pos.of_succ_nat <$> seq 0 n.

Lemma elem_of_zip_handles {A} (l : list A) h x :
  (h, x) ∈ zip (handles (length l)) l <-> l !! get h = Some x.
Proof.
  unfold handles. rewrite list_elem_of_lookup. split.
  - intros [i Hi]. apply lookup_zip_with_Some in Hi as (h' & x' & [= <- <-] & Hh & Hx).
    apply list_lookup_fmap_Some in Hh as (j & -> & [-> _]%lookup_seq). by rewrite get_of_succ.
  - intros Hx. exists (get h). apply lookup_zip_with_Some. exists h, x. split_and!; [done| |done].
    apply list_lookup_fmap_Some. exists (get h). split; [by rewrite of_succ_get|].
    apply lookup_seq. split; [done|]. by apply lookup_lt_Some in Hx.
Qed.

Lemma zip_handles_snd {A} (l : list A) : (zip (handles (length l)) l).*2 = l.
Proof. apply snd_zip. unfold handles. by rewrite length_fmap, length_seq. Qed.

Lemma number_components_spec comps n :
  NoDup (concat comps) -> arena_ok comps ->
  exists m, number_components comps (map_with_capacity n) = Some (tt, m) /\
    forall v c, map_get m v = Some c <-> in_component comps c v.
Proof.
  intros Hnd Ho. unfold number_components, sm_bind at 1. rewrite (arena_keys_spec comps Ho). simpl.
  destruct (number_all (zip (handles (length comps)) comps) (map_with_capacity n)) as (m & E & Hm).
  { by rewrite zip_handles_snd. }
  { intros v _. apply map_get_empty. }
  exists m. split; [done|]. intros v c. rewrite Hm, map_get_empty. unfold in_component. split.
  - intros [?|(C & HC & ?)]; [done|]. apply elem_of_zip_handles in HC. eauto.
  - intros (C & HC & ?). right. exists C. split; [|done]. by apply elem_of_zip_handles.
Qed.

(** ** The condensation's edges *)

(** How many rows contain [d]. *)
Definition column (edges : list ArenaSet) (d : SccComponent) : nat :=
  length (filter (fun row => set_contains d row = true) edges).

(** The rows hold the pairs of [R], and the in-degrees count them. *)
Record rows (n : nat) (R : list (SccComponent * SccComponent)) (edges : list ArenaSet)
    (indegree : list nat) : Prop := {
  rows_length : length edges = n;
  rows_indegree : length indegree = n;
  rows_ok : forall i row, edges !! i = Some row -> set_ok row;
  rows_mem : forall c row d, edges !! get c = Some row -> set_contains d row = bool_decide ((c, d) ∈ R);
  rows_range : forall c d, (c, d) ∈ R -> (get c < n)%nat /\ (get d < n)%nat /\ c <> d;
  rows_count : forall d, (get d < n)%nat -> indegree !! get d = Some (column edges d);
}.

Lemma set_contains_new d : set_contains d set_new = false.
Proof.
  pose proof (proj2 (set_with_capacity_rel 0) d) as H. rewrite bool_decide_eq_false_2 in H by set_solver. exact H.
Qed.

Lemma column_new k d : column (replicate k set_new) d = 0%nat.
Proof.
  unfold column. induction k as [|k IH]; simpl; [done|].
  rewrite filter_cons, decide_False; [done|]. by rewrite set_contains_new.
Qed.

Lemma column_insert edges i (row row' : ArenaSet) d :
  edges !! i = Some row ->
  column (<[i := row']> edges) d + (if set_contains d row then 1 else 0) =
  column edges d + (if set_contains d row' then 1 else 0).
Proof.
  intros Hi. pose proof (lookup_lt_Some _ _ _ Hi) as Hl. unfold column.
  rewrite insert_take_drop by done.
  rewrite <- (take_drop_middle edges i row Hi) at 3. rewrite !filter_app, !length_app, !filter_cons.
  destruct (set_contains d row), (set_contains d row'); repeat case_decide; simpl; lia || congruence.
Qed.

Lemma add_component_edge_spec n R edges indegree c d :
  (n <= 64)%nat -> rows n R edges indegree -> (get c < n)%nat -> (get d < n)%nat ->
  exists edges' indegree', add_component_edge c d (edges, indegree) = Some (tt, (edges', indegree')) /\
    rows n (if decide (c = d) then R else (c, d) :: R) edges' indegree'.
Proof.
  intros Hn H Hc Hd. unfold add_component_edge. destruct (decide (c = d)) as [|Hcd]; [by eauto|].
  destruct H. assert (get c < length edges)%nat as Hl by lia.
  destruct (lookup_lt_is_Some_2 _ _ Hl) as [row Hrow]. rewrite Hrow. cbn [mbind option_bind].
  pose proof (set_insert_spec d row (rows_ok0 _ _ Hrow)) as Hins.
  rewrite small_room in Hins by lia. destruct Hins as (row' & -> & Hok' & _ & Hk).
  rewrite (rows_mem0 _ _ d Hrow).
  assert (forall k, column (<[get c := row']> edges) k =
    (column edges k + if decide (k = d /\ (c, d) ∉ R) then 1 else 0)%nat) as Hcol.
  { intros k. pose proof (column_insert edges (get c) row row' k Hrow) as E. rewrite Hk in E.
    rewrite !(rows_mem0 _ _ _ Hrow) in E. repeat case_bool_decide; case_decide; subst; simpl in *; try tauto; lia. }
  set (edges' := <[get c := row']> edges) in *.
  assert (forall indegree', length indegree' = n ->
    (forall k, (get k < n)%nat -> indegree' !! get k = Some (column edges' k)) ->
    rows n ((c, d) :: R) edges' indegree') as Hdone.
  { intros indegree' Hl' Hcount. split; [by unfold edges'; rewrite length_insert|done| | | |done].
    - intros i r Hr. apply list_lookup_insert_Some in Hr as [(<- & <- & _)|[_ Hr]]; eauto.
    - intros c' r k Hr. apply list_lookup_insert_Some in Hr as [(Hc' & <- & _)|[Hc' Hr]].
      + apply get_inj in Hc' as <-. rewrite Hk, (rows_mem0 _ _ _ Hrow), <- bool_decide_or.
        apply bool_decide_ext. rewrite elem_of_cons. naive_solver.
      + rewrite (rows_mem0 _ _ _ Hr). apply bool_decide_ext. rewrite elem_of_cons. naive_solver.
    - intros c' d' [[= -> ->]|?]%elem_of_cons; auto. }
  case_bool_decide as HR; simpl.
  - exists edges', indegree. split; [done|]. apply Hdone; [done|]. intros k Hk'.
    rewrite rows_count0, Hcol, decide_False by naive_solver. by rewrite Nat.add_0_r.
  - rewrite (rows_count0 d Hd). simpl. do 2 eexists. split; [done|]. apply Hdone; [by rewrite length_insert|].
    intros k Hk'. rewrite Hcol. destruct (decide (k = d)) as [->|Hkd].
    + rewrite list_lookup_insert_eq by lia. rewrite decide_True by done. f_equal. lia.
    + rewrite list_lookup_insert_ne by (intros E; by apply Hkd, get_inj).
      rewrite rows_count0, decide_False by naive_solver. by rewrite Nat.add_0_r.
Qed.

#[local] Arguments add_component_edge : simpl never.

Section Edges.
Context (ir : ExecIrBuilder) (comps : list (list Block)) (m : ArenaMap SccComponent).
Context (Hg : graph_ok ir) (Hco : components_ok ir None comps).
Context (Hm : forall v c, map_get m v = Some c <-> in_component comps c v).

Lemma comps_few : (length comps <= 64)%nat.
Proof.
  eapply (components_few ir None Hg); [apply Hco..|]. intros v. by apply (co_all _ _ _ Hco).
Qed.

Lemma component_exists v : in_graph ir None v -> exists c, in_component comps c v /\ (get c < length comps)%nat.
Proof.
  intros Hv. apply (co_all _ _ _ Hco), elem_of_concat in Hv as (C & Hv & [j HC]%list_elem_of_lookup).
  exists (Pos.of_succ_nat j). unfold in_component. rewrite get_of_succ.
  split; [by exists C|]. by apply lookup_lt_Some in HC.
Qed.

Lemma component_inj c d v : in_component comps c v -> in_component comps d v -> c = d.
Proof.
  intros (C & HC & Hv) (D & HD & Hv'). apply get_inj.
  by eapply (component_unique comps); [apply Hco|..].
Qed.

Lemma component_range c v : in_component comps c v -> (get c < length comps)%nat.
Proof. intros (C & HC & _). by apply lookup_lt_Some in HC. Qed.

(** The pairs the jumps of [us] give. *)
Definition pairs_of (us : list (Block * SccComponent)) (R : list (SccComponent * SccComponent)) : Prop :=
  forall c d, (c, d) ∈ R <->
    c <> d /\ exists u v, (u, c) ∈ us /\ edge ir None u v /\ in_component comps d v.

Lemma succ_edges_spec c succs R edges indegree :
  (get c < length comps)%nat -> rows (length comps) R edges indegree ->
  (forall v, v ∈ succs -> in_graph ir None v) ->
  exists edges' indegree' R',
    sm_for succs (fun succ => let! d := sm_of_option (map_get m succ) in add_component_edge c d)
      (edges, indegree) = Some (tt, (edges', indegree')) /\
    rows (length comps) R' edges' indegree' /\
    forall c' d, (c', d) ∈ R' <->
      (c', d) ∈ R \/ (c' = c /\ c <> d /\ exists v, v ∈ succs /\ in_component comps d v).
Proof.
  intros Hc. pose proof comps_few as Hf. revert R edges indegree.
  induction succs as [|v succs IH]; intros R edges indegree H Hs.
  { do 3 eexists. split_and!; [done..|]. intros c' d. split; [by left|].
    by intros [?|(_ & _ & v & ?%elem_of_nil & _)]. }
  destruct (component_exists v) as (d & Hd & Hdn); [apply Hs; by left|].

  destruct (add_component_edge_spec _ R edges indegree c d Hf H Hc Hdn) as (e1 & i1 & E1 & H1).
  destruct (IH _ _ _ H1) as (e2 & i2 & R2 & E2 & H2 & HR2); [intros; apply Hs; by right|].
  exists e2, i2, R2. split_and!; [|done|].
  { erewrite sm_for_run; [done|]. by rewrite (proj2 (Hm v d) Hd). }
   intros c' d'. rewrite HR2.
  assert ((c', d') ∈ (if decide (c = d) then R else (c, d) :: R) <->
    (c', d') ∈ R \/ (c' = c /\ d' = d /\ c <> d)) as ->.
  { case_decide; [naive_solver|]. rewrite elem_of_cons. naive_solver. }
  split.
  - intros [[?|(-> & -> & ?)]|(-> & ? & w & ? & ?)]; [by left|right|right]; split_and!; try done.
    + exists v. split; [by left|done].
    + exists w. split; [by right|done].
  - intros [?|(-> & ? & w & [->|?]%elem_of_cons & Hw)]; [by left; left| |right; eauto].
    left. right. rewrite (component_inj _ _ _ Hd Hw) in *. done.
Qed.

Lemma entries_spec us R edges indegree us0 :
  rows (length comps) R edges indegree -> pairs_of us0 R ->
  (forall u c, (u, c) ∈ us -> in_component comps c u /\ in_graph ir None u) ->
  exists edges' indegree' R',
    sm_for us (fun '(block, c) =>
      let! succs := sm_of_option (successors ir block) in
      sm_for succs (fun succ => let! d := sm_of_option (map_get m succ) in add_component_edge c d))
      (edges, indegree) = Some (tt, (edges', indegree')) /\
    rows (length comps) R' edges' indegree' /\ pairs_of (rev us ++ us0) R'.
Proof.
  revert R edges indegree us0. induction us as [|[u c] us IH]; intros R edges indegree us0 H Hp Hu.
  { by do 3 eexists. }
  destruct (Hu u c) as [Huc Hug]; [by left|].
  destruct (successors_some ir None u Hug) as [succs Hsuccs]. 
  destruct (succ_edges_spec c succs R edges indegree) as (e1 & i1 & R1 & E1 & H1 & HR1); [by eapply component_range|done| |].
  { intros v Hv. apply (edge_graph ir None Hg u). by exists succs. }
  destruct (IH R1 e1 i1 ((u, c) :: us0)) as (e2 & i2 & R2 & E2 & H2 & HR2); [done| |intros; apply Hu; by right|].
  { intros c' d. rewrite HR1, (Hp c' d). split.
    - intros [(? & u' & v & ? & ? & ?)|(-> & ? & v & Hv & ?)]; (split; [done|]).
      + exists u', v. split_and!; [by right|done..].
      + exists u, v. split_and!; [by left| |done]. by exists succs.
    - intros (? & u' & v & [[= -> ->]|?]%elem_of_cons & He & ?); [right|left; split; [done|]; by exists u', v].
      destruct He as (l & ? & ? & _). simplify_eq. split_and!; [done..|]. by exists v. }
  exists e2, i2, R2. split_and!; [|done|simpl; by rewrite <- app_assoc].
  erewrite sm_for_run; [done|]. by rewrite Hsuccs.
Qed.

(** The condensation: an edge wherever some jump goes from one component to another. *)
Definition component_edge (c d : SccComponent) : Prop :=
  c <> d /\ exists u v, in_component comps c u /\ edge ir None u v /\ in_component comps d v.

Lemma component_edges_spec :
  exists edges indegree R,
    component_edges ir m (replicate (length comps) set_new, replicate (length comps) 0%nat) =
      Some (tt, (edges, indegree)) /\
    rows (length comps) R edges indegree /\ forall c d, (c, d) ∈ R <-> component_edge c d.
Proof.
  assert (forall v, is_Some (map_get m v) -> handle_ok v) as Hh.
  { intros v [c Hc]. apply Hm in Hc as (C & HC & Hv).
    assert (in_graph ir None v) as [Hl _].
    { apply (co_all _ _ _ Hco), elem_of_concat. exists C. split; [done|]. by eapply list_elem_of_lookup_2. }
    pose proof (graph_small _ Hg). unfold handle_ok, HANDLE_MAX, get in *. lia. }
  destruct (map_iter_spec m Hh) as (us & Hus & _ & Hin).
  unfold component_edges, sm_bind at 1. rewrite Hus. simpl.
  destruct (entries_spec us [] (replicate (length comps) set_new) (replicate (length comps) 0%nat) [])
    as (edges & indegree & R & E & H & HR).
  - pose proof (set_with_capacity_rel 0) as [Hok Hmem]. split; rewrite ?length_replicate; try done.
    + by intros i row [-> _]%lookup_replicate.
    + intros c row d [-> _]%lookup_replicate. rewrite set_contains_new. symmetry. by apply bool_decide_eq_false_2, not_elem_of_nil.
    + by intros c d ?%elem_of_nil.
    + intros d Hd. by rewrite lookup_replicate_2, column_new.
  - intros c d. split; [by intros ?%elem_of_nil|]. by intros (_ & u & v & ?%elem_of_nil & _).
  - intros u c Huc. apply Hin, Hm in Huc. split; [done|]. destruct Huc as (C & HC & Hu).
    apply (co_all _ _ _ Hco), elem_of_concat. exists C. split; [done|]. by eapply list_elem_of_lookup_2.
  - exists edges, indegree, R. split_and!; [done..|]. intros c d. rewrite (HR c d). unfold component_edge.
    rewrite app_nil_r. split; intros (Hne & u & v & Hu & ?); (split; [done|]); exists u, v; (split; [|done]).
    + apply Hm, Hin. by apply list_elem_of_In, in_rev, list_elem_of_In.
    + apply list_elem_of_In, in_rev. rewrite rev_involutive. by apply list_elem_of_In, Hin, Hm.
Qed.
End Edges.

(** ** The queue *)

Lemma length_filter_Forall2 {A B} (P : A -> Prop) (Q : B -> Prop) `{!forall x, Decision (P x), !forall y, Decision (Q y)} l k :
  Forall2 (fun x y => P x <-> Q y) l k -> length (filter P l) = length (filter Q k).
Proof.
  induction 1 as [|x y l k Hxy _ IH]; [done|]. rewrite !filter_cons.
  repeat case_decide; simpl; try tauto. by f_equal.
Qed.

Lemma elem_of_handles n h : h ∈ handles n <-> (get h < n)%nat.
Proof.
  unfold handles. rewrite list_elem_of_fmap. split.
  - intros (i & -> & ?%elem_of_seq). rewrite get_of_succ. lia.
  - intros ?. exists (get h). rewrite of_succ_get. split; [done|]. apply elem_of_seq. lia.
Qed.

Lemma NoDup_handles n : NoDup (handles n).
Proof.
  unfold handles. apply NoDup_fmap_2; [|apply NoDup_seq].
  intros i j E. by rewrite <- (get_of_succ i), <- (get_of_succ j), E.
Qed.

(** The iterator over the zero in-degrees. *)
Lemma zeros_spec k (deg : list nat) :
  let l := omap (fun '(i, d) => if (d =? 0)%nat then Some i else None)
    (imap (fun i d => ((k + i)%nat, d)) deg) in
  NoDup l /\ forall i, i ∈ l <-> exists j, i = (k + j)%nat /\ deg !! j = Some 0%nat.
Proof.
  revert k. induction deg as [|d deg IH]; intros k; simpl.
  { split; [constructor|]. intros i. split; [by intros ?%elem_of_nil|by intros (? & _ & ?)]. }
  rewrite (imap_ext _ (fun i d => ((S k + i)%nat, d))) by (intros; simpl; f_equal; lia).
  destruct (IH (S k)) as [Hnd He]. rewrite Nat.add_0_r. unfold omap in *. set (l := list_omap _ _ _ _) in *.
  assert (forall i, i ∈ l <-> exists j, i = (k + S j)%nat /\ deg !! j = Some 0%nat) as He'.
  { intros i. rewrite He. split; intros (j & -> & ?); exists j; (split; [lia|done]). }
  destruct (Nat.eqb_spec d 0) as [->|Hd]; simpl.
  - split; [constructor; [|done]; rewrite He'; intros (? & ? & _); lia|]. intros i.
    rewrite elem_of_cons, He'. split.
    + intros [->|(j & -> & ?)]; [exists 0%nat; split; [lia|done]|by exists (S j)].
    + intros ([|j] & -> & Hj); [left; lia|right; by exists j].
  - split; [done|]. intros i. rewrite He'. split.
    + intros (j & -> & ?). by exists (S j).
    + intros ([|j] & -> & Hj); simplify_eq/=. by exists j.
Qed.

Lemma initially_ready_spec deg :
  (length deg <= 64)%nat ->
  exists l, initially_ready deg = Some l /\ NoDup l /\ forall d, d ∈ l <-> deg !! get d = Some 0%nat.
Proof.
  intros Hl. unfold initially_ready. pose proof (zeros_spec 0 deg) as H. cbv zeta in H.
  set (l := omap _ _). change (omap _ _) with l in H. destruct H as [Hnd He].
  exists (Pos.of_succ_nat <$> l). split_and!.
  - apply mapM_try_new, Forall_forall. intros i (j & -> & Hj%lookup_lt_Some)%He. unfold HANDLE_MAX. lia.
  - apply NoDup_fmap_2; [|done]. intros i j E. by rewrite <- (get_of_succ i), <- (get_of_succ j), E.
  - intros d. rewrite list_elem_of_fmap. split.
    + intros (i & -> & (j & -> & ?)%He). by rewrite get_of_succ.
    + intros Hd. exists (get d). rewrite of_succ_get. split; [done|]. apply He. by exists (get d).
Qed.

Lemma release_spec succs deg ready :
  NoDup succs -> (forall d, d ∈ succs -> exists k, deg !! get d = Some (S k)) ->
  exists deg' new, release succs deg ready = Some (deg', ready ++ new) /\ length deg' = length deg /\
    NoDup new /\ (forall d, d ∈ new <-> d ∈ succs /\ deg !! get d = Some 1%nat) /\
    forall d, deg' !! get d = if decide (d ∈ succs) then pred <$> (deg !! get d) else deg !! get d.
Proof.
  revert deg ready. induction succs as [|s succs IH]; intros deg ready Hnd Hs; simpl.
  { exists deg, []. rewrite app_nil_r. split_and!; try done; try constructor; set_solver. }
  apply NoDup_cons in Hnd as [Hsn Hnd]. destruct (Hs s) as [k Hk]; [by left|]. rewrite Hk. simpl.
  pose proof (lookup_lt_Some _ _ _ Hk) as Hl.
  assert (forall d, d <> s -> <[get s:=k]> deg !! get d = deg !! get d) as Hne.
  { intros d Hd. rewrite list_lookup_insert_ne; [done|]. intros E. by apply Hd, get_inj. }
  destruct (IH (<[get s := k]> deg) (if (k =? 0)%nat then ready ++ [s] else ready) Hnd)
    as (deg' & new & -> & Hl' & Hnd' & Hnew & Hdeg).
  { intros d Hd. rewrite Hne by (by intros ->). apply Hs. by right. }
  exists deg', (if (k =? 0)%nat then s :: new else new). rewrite length_insert in Hl'.
  assert (forall d, d ∈ new <-> d ∈ succs /\ deg !! get d = Some 1%nat) as Hnew'.
  { intros d. rewrite Hnew. split; intros [Hd E]; (split; [done|]); rewrite Hne in * by (by intros ->); done. }
  split_and!; [|done| | |].
  - destruct (k =? 0)%nat; [by rewrite <- app_assoc|done].
  - destruct (Nat.eqb_spec k 0); [|done]. constructor; [|done]. rewrite Hnew'. tauto.
  - intros d. destruct (decide (d = s)) as [->|Hds].
    + rewrite Hk, elem_of_cons. destruct (Nat.eqb_spec k 0) as [->|]; rewrite ?elem_of_cons, Hnew'; [tauto|].
      split; [tauto|]. intros [_ [= ?]]. done.
    + destruct (Nat.eqb_spec k 0); rewrite ?elem_of_cons, Hnew'; naive_solver.
  - intros d. rewrite Hdeg. destruct (decide (d = s)) as [->|Hds].
    + rewrite decide_False by done. rewrite decide_True by by left.
      rewrite list_lookup_insert_eq by done. by rewrite Hk.
    + rewrite Hne by done. repeat case_decide; try done; set_solver.
Qed.

Section Order.
Context (n : nat) (R : list (SccComponent * SccComponent)) (edges : list ArenaSet) (deg0 : list nat).
Context (Hn : (n <= 64)%nat) (Hrows : rows n R edges deg0)
  (Hdown : forall c d, (c, d) ∈ R -> (get d < get c)%nat).

(** The predecessors of [d] not taken out yet. *)
Definition pending (P : list SccComponent) (d : SccComponent) : nat :=
  length (filter (fun c => c ∉ P /\ (c, d) ∈ R) (handles n)).

Lemma pending_step P c d :
  c ∉ P -> (get c < n)%nat ->
  pending P d = (pending (P ++ [c]) d + if decide ((c, d) ∈ R) then 1 else 0)%nat.
Proof.
  intros Hc Hcn. unfold pending. pose proof (NoDup_handles n) as Hnd.
  apply elem_of_handles, list_elem_of_split in Hcn as (l1 & l2 & E). rewrite E in Hnd |- *.
  apply NoDup_app in Hnd as (_ & Hd1 & [Hd2 _]%NoDup_cons). rewrite !filter_app, !length_app, !filter_cons.
  assert (forall l : list SccComponent, c ∉ l ->
    filter (fun c0 => c0 ∉ P /\ (c0, d) ∈ R) l = filter (fun c0 => c0 ∉ P ++ [c] /\ (c0, d) ∈ R) l) as Hf.
  { induction l as [|x l IH]; intros Hcl; [done|]. apply not_elem_of_cons in Hcl as [? ?].
    rewrite !filter_cons, IH by done. repeat case_decide; try done; set_solver. }
  rewrite (Hf l1), (Hf l2); [|done|]; [|intros Hx; apply (Hd1 c Hx); by left].
  rewrite (decide_False (P := c ∉ P ++ [c] /\ _)) by set_solver.
  repeat case_decide; simpl; try lia; tauto.
Qed.

Lemma pending_zero P d : pending P d = 0%nat <-> forall c, (c, d) ∈ R -> c ∈ P.
Proof.
  unfold pending. rewrite length_zero_iff_nil. split.
  - intros H c Hc. destruct (decide (c ∈ P)) as [|Hn']; [done|]. exfalso.
    assert (c ∈ @nil SccComponent) as ?%elem_of_nil; [|done]. rewrite <- H. apply list_elem_of_filter.
    split; [done|]. apply elem_of_handles. by apply (rows_range _ _ _ _ Hrows) in Hc as (? & _ & _).
  - intros H. destruct (filter _ _) as [|c l] eqn:E; [done|]. exfalso.
    assert (c ∈ c :: l) as Hc by by left. rewrite <- E in Hc. apply list_elem_of_filter in Hc as [[Hc Hcd] _].
    by apply Hc, H.
Qed.

Record draining (P ready : list SccComponent) (deg : list nat) : Prop := {
  dr_nodup : NoDup (P ++ ready);
  dr_range : forall c, c ∈ P ++ ready -> (get c < n)%nat;
  dr_length : length deg = n;
  dr_pending : forall d, (get d < n)%nat -> deg !! get d = Some (pending P d);
  dr_zero : forall d, (get d < n)%nat -> (d ∈ P ++ ready <-> pending P d = 0%nat);
  dr_order : forall l1 d l2 c, P = l1 ++ d :: l2 -> (c, d) ∈ R -> c ∈ l1;
}.

Lemma draining_start ready :
  NoDup ready -> (forall d, d ∈ ready <-> deg0 !! get d = Some 0%nat) -> draining [] ready deg0.
Proof.
  intros Hnd Hr. assert (forall d, (get d < n)%nat -> deg0 !! get d = Some (pending [] d)) as Hp.
  { intros d Hd. rewrite (rows_count _ _ _ _ Hrows d Hd). f_equal. unfold column, pending.
    apply length_filter_Forall2, Forall2_same_length_lookup_2.
    { unfold handles. by rewrite length_fmap, length_seq, (rows_length _ _ _ _ Hrows). }
    intros i row c Hrow Hc. apply list_lookup_fmap_Some in Hc as (j & -> & [-> _]%lookup_seq).
    rewrite <- (get_of_succ i) in Hrow. rewrite (rows_mem _ _ _ _ Hrows _ _ d Hrow), bool_decide_eq_true.
    set_solver. }
  split; simpl; try done.
  - intros c Hc. apply Hr, lookup_lt_Some in Hc. by rewrite (rows_indegree _ _ _ _ Hrows) in Hc.
  - apply Hrows.
  - intros d Hd. rewrite Hr, (Hp d Hd). naive_solver.
  - by intros [|] ? ? ? ?.
Qed.

Lemma drain_step P c ready deg row :
  draining P (c :: ready) deg -> edges !! get c = Some row ->
  exists succs deg' ready', set_iter row = Some succs /\
    release succs deg ready = Some (deg', ready') /\ draining (P ++ [c]) ready' deg'.
Proof.
  intros D Hrow. destruct D as [Dnd Dr Dl Dp Dz Do].
  assert (c ∉ P /\ (get c < n)%nat) as [HcP Hcn].
  { split; [|apply Dr; set_solver]. apply NoDup_app in Dnd as (_ & Hd & _). intros Hc. apply (Hd c Hc). by left. }
  assert (set_rel row (list_to_set (filter (fun d => (c, d) ∈ R) (handles n)))) as Hrel.
  { split; [by eapply rows_ok|]. intros d. rewrite (rows_mem _ _ _ _ Hrows _ _ d Hrow).
    apply bool_decide_ext. rewrite elem_of_list_to_set, list_elem_of_filter, elem_of_handles. split; [|tauto].
    intros Hcd. split; [done|]. by apply (rows_range _ _ _ _ Hrows) in Hcd as (_ & ? & _). }
  destruct (set_iter_rel row _ Hrel) as (succs & Hsuccs & Hsorted & Hmem).
  { intros k Hk. rewrite elem_of_list_to_set, list_elem_of_filter, elem_of_handles in Hk. unfold handle_ok, HANDLE_MAX, get in *. lia. }
  assert (forall d, d ∈ succs <-> (c, d) ∈ R) as Hs.
  { intros d. rewrite Hmem, elem_of_list_to_set, list_elem_of_filter, elem_of_handles. split; [tauto|].
    intros Hcd. split; [done|]. by apply (rows_range _ _ _ _ Hrows) in Hcd as (_ & ? & _). }
  assert (forall d, (c, d) ∈ R -> (get d < n)%nat) as Hdn.
  { intros d Hcd. by apply (rows_range _ _ _ _ Hrows) in Hcd as (_ & ? & _). }
  destruct (release_spec succs deg ready) as (deg' & new & Hrel' & Hl' & Hndn & Hnew & Hdeg).
  { clear -Hsorted. induction Hsorted as [|x l _ IH Hf]; constructor; [|done].
    rewrite Forall_forall in Hf. intros Hx. specialize (Hf x Hx). lia. }
  { intros d Hd%Hs. rewrite (Dp d (Hdn d Hd)), (pending_step P c d HcP Hcn), decide_True by done.
    exists (pending (P ++ [c]) d). f_equal. lia. }
  exists succs, deg', (ready ++ new). split_and!; [done..|].
  assert (forall d, d ∈ new <-> (get d < n)%nat /\ (c, d) ∈ R /\ pending (P ++ [c]) d = 0%nat) as Hnew'.
  { intros d. rewrite Hnew, Hs. split.
    - intros [Hcd E]. pose proof (Hdn d Hcd). rewrite (Dp d), (pending_step P c d HcP Hcn), decide_True in E by done.
      split_and!; [done..|]. injection E. lia.
    - intros (? & Hcd & E). split; [done|]. rewrite (Dp d), (pending_step P c d HcP Hcn), decide_True, E by done. done. }
  assert (forall d, d ∈ P ++ c :: ready -> d ∉ new) as Hdisj.
  { intros d Hd Hdnew. apply Hnew' in Hdnew as (Hdl & Hcd & _). apply (Dz d Hdl) in Hd.
    rewrite (pending_step P c d HcP Hcn), decide_True in Hd by done. lia. }
  split.
  - rewrite <- app_assoc. simpl. rewrite app_comm_cons, app_assoc. apply NoDup_app. split_and!; [done| |done].
    intros d Hd. by apply Hdisj.
  - intros d Hd. rewrite <- app_assoc in Hd. simpl in Hd. rewrite app_comm_cons, app_assoc in Hd.
    apply elem_of_app in Hd as [Hd|Hd]; [by apply Dr|]. by apply Hnew' in Hd as (? & _).
  - by rewrite Hl'.
  - intros d Hd. rewrite Hdeg, (Dp d Hd), (pending_step P c d HcP Hcn). simpl.
    destruct (decide (d ∈ succs)) as [Hds|Hds]; rewrite Hs in Hds.
    + rewrite decide_True by done. simpl. f_equal. lia.
    + rewrite decide_False by done. f_equal. lia.
  - intros d Hd. pose proof (pending_step P c d HcP Hcn) as Hst.
    assert (d ∈ (P ++ [c]) ++ ready ++ new <-> d ∈ P ++ c :: ready \/ d ∈ new) as -> by set_solver.
    rewrite (Dz d Hd), Hst, Hnew'. destruct (decide ((c, d) ∈ R)); [|rewrite Nat.add_0_r; naive_solver].
    split; [intros [?|(_ & _ & ?)]; [lia|done]|]. by right.
  - intros l1 d l2 x E Hx. destruct l2 as [|y l2 _] using rev_ind.
    + apply app_inj_tail in E as [<- <-]. assert (c ∈ P ++ c :: ready) as Hc by set_solver.
      apply (Dz c Hcn) in Hc. by apply (proj1 (pending_zero P c) Hc).
    + rewrite app_comm_cons, app_assoc in E. apply app_inj_tail in E as [-> _]. by eapply Do.
Qed.

Lemma drain_spec fuel P ready deg :
  draining P ready deg -> (n - length P <= fuel)%nat ->
  exists topo deg', drain_ready fuel edges deg ready P = Some topo /\ draining topo [] deg'.
Proof.
  revert P ready deg. induction fuel as [|fuel IH]; intros P ready deg D Hf;
    (destruct ready as [|c ready]; [by exists P, deg|]).
  - exfalso. assert (length (P ++ c :: ready) <= length (handles n))%nat as Hl.
    { apply submseteq_length, NoDup_submseteq; [apply D|]. intros d ?. by apply elem_of_handles, (dr_range _ _ _ D). }
    unfold handles in Hl. rewrite length_fmap, length_seq, length_app in Hl. simpl in Hl. lia.
  - assert (get c < length edges)%nat as Hc.
    { rewrite (rows_length _ _ _ _ Hrows). apply (dr_range _ _ _ D). set_solver. }
    destruct (lookup_lt_is_Some_2 _ _ Hc) as [row Hrow].
    destruct (drain_step P c ready deg row D Hrow) as (succs & deg' & ready' & Hi & Hr & D').
    simpl. rewrite Hrow. cbn [mbind option_bind]. rewrite Hi. cbn [mbind option_bind]. rewrite Hr.
    apply IH; [done|]. rewrite length_app. simpl. lia.
Qed.

(** Everything is taken out. *)
Lemma drained_all topo deg : draining topo [] deg -> forall d, (get d < n)%nat -> d ∈ topo.
Proof.
  intros D. assert (forall k d, (n - get d < k)%nat -> (get d < n)%nat -> d ∈ topo) as H.
  { induction k as [|k IH]; intros d Hk Hd; [lia|].
    pose proof (dr_zero _ _ _ D d Hd) as Hz. rewrite app_nil_r in Hz. apply Hz, pending_zero.
    intros c Hc. pose proof (Hdown c d Hc). apply (rows_range _ _ _ _ Hrows) in Hc as (? & _ & _). apply IH; lia. }
  intros d. by apply (H (S (n - get d))); lia.
Qed.

Lemma drained_length topo deg : draining topo [] deg -> length topo = n.
Proof.
  intros D. assert (topo ≡ₚ handles n) as ->.
  { pose proof (dr_nodup _ _ _ D) as Hnd. rewrite app_nil_r in Hnd.
    apply NoDup_Permutation; [done|apply NoDup_handles|]. intros d. rewrite elem_of_handles. split.
    - intros Hd. apply (dr_range _ _ _ D). by rewrite app_nil_r.
    - by eapply drained_all. }
  unfold handles. by rewrite length_fmap, length_seq.
Qed.
End Order.

(** ** The graph *)

Record graph_spec (ir : ExecIrBuilder) (g : SccGraph) : Prop := {
  gs_components : components_ok ir None (scc_components g);
  gs_component_of : forall v c, map_get (component_of g) v = Some c <-> in_component (scc_components g) c v;
  gs_nodup : NoDup (topo_order g);
  gs_all : forall c, c ∈ topo_order g <-> (get c < length (scc_components g))%nat;
  gs_order : forall l1 d l2 c, topo_order g = l1 ++ d :: l2 ->
    component_edge ir (scc_components g) c d -> c ∈ l1;
  gs_cyclic : forall c C, scc_components g !! get c = Some C ->
    (set_contains c (is_cyclic g) = true <-> exists v, v ∈ C /\ tc (edge ir None) v v);
}.

Lemma cyclic_set_spec ir comps :
  graph_ok ir -> components_ok ir None comps -> (length comps <= 64)%nat ->
  exists l s, filter_opt (fun '(_, component) => component_is_cyclic ir component)
      (zip (handles (length comps)) comps) = Some l /\ set_from_iter 0 l.*1 = Some s /\
    forall c C, comps !! get c = Some C ->
      (set_contains c s = true <-> exists v, v ∈ C /\ tc (edge ir None) v v).
Proof.
  intros Hg Hco Hl. set (Q := fun '((_, C) : SccComponent * list Block) =>
    match component_is_cyclic ir C with Some b => b | None => false end).
  rewrite (filter_opt_spec _ Q).
  2:{ intros [c C] Hc%elem_of_zip_handles. unfold Q. apply list_elem_of_lookup_2 in Hc.
      by destruct (component_is_cyclic_spec ir None comps Hg Hco C Hc) as (b & -> & _). }
  set (l := filter _ _).
  assert (forall c, c ∈ l.*1 <-> exists C, comps !! get c = Some C /\ Q (c, C) = true) as Hin.
  { intros c. rewrite list_elem_of_fmap. split.
    - intros ([c' C] & -> & [? ?%elem_of_zip_handles]%list_elem_of_filter). by exists C.
    - intros (C & HC & HQ). exists (c, C). split; [done|]. apply list_elem_of_filter.
      split; [done|]. by apply elem_of_zip_handles. }
  destruct (set_from_iter_spec 0 l.*1) as (s & Hs & _ & Hmem).
  { intros c (C & HC%lookup_lt_Some & _)%Hin. apply small_room. lia. }
  exists l, s. split_and!; [done..|]. intros c C HC.
  rewrite Hmem, bool_decide_eq_true, elem_of_list_to_set, Hin.
  destruct (component_is_cyclic_spec ir None comps Hg Hco C) as (b & E & Hb); [by eapply list_elem_of_lookup_2|].
  rewrite <- Hb. unfold Q. split.
  - intros (C' & HC' & HQ). simplify_eq. by rewrite E in HQ.
  - intros ->. exists C. by rewrite E.
Qed.

Lemma scc_graph_spec ir :
  graph_ok ir -> stmts_ok ir -> ~ quiet_cycle ir ->
  exists g, SccGraph_new ir = Some g /\ graph_spec ir g.
Proof.
  intros Hg Hs Hq. unfold SccGraph_new.
  rewrite (proj1 (assert_cycles_spec ir Hg Hs) Hq). cbn [mbind option_bind].
  destruct (tarjan_components ir None Hg) as (comps & -> & Hco). cbn [mbind option_bind].
  pose proof (comps_few ir comps Hg Hco) as Hl.
  assert (arena_ok comps) as Ho by (unfold arena_ok, HANDLE_MAX; lia).
  destruct (number_components_spec comps (length (blocks ir))) as (m & -> & Hm); [apply Hco|done|].
  cbn [mbind option_bind].
  destruct (component_edges_spec ir comps m Hg Hco Hm) as (edges & deg & R & -> & Hrows & HR).
  cbn [mbind option_bind].
  assert (forall c d, (c, d) ∈ R -> (get d < get c)%nat) as Hdown.
  { intros c d (Hne & u & v & (C & HC & Hu) & He & (D & HD & Hv))%HR.
    destruct (co_order _ _ _ Hco _ _ _ _ HC Hu He) as (j & D' & Hj & HD' & Hv').
    assert (j = get d) as ->; [|assert (get c <> get d) by (intros E; by apply Hne, get_inj); lia].
    by eapply (component_unique comps); [apply Hco|..]. }
  destruct (initially_ready_spec deg) as (ready & -> & Hnd & Hready).
  { by rewrite (rows_indegree _ _ _ _ Hrows). }
  cbn [mbind option_bind].
  destruct (drain_spec _ _ _ _ Hl Hrows Hdown (length comps) [] ready deg) as (topo & deg' & -> & D).
  { by eapply draining_start. }
  { simpl. lia. }
  cbn [mbind option_bind]. rewrite decide_True by by eapply drained_length.
  rewrite arena_keys_spec by done. cbn [mbind option_bind].
  destruct (cyclic_set_spec ir comps Hg Hco Hl) as (l & s & El & Es & Hc).
  change (Pos.of_succ_nat <$> seq 0 (length comps)) with (handles (length comps)).
  rewrite El. cbn [mbind option_bind]. rewrite Es. cbn [mbind option_bind].
  eexists. split; [done|]. pose proof (dr_nodup _ _ _ _ _ D) as Hnd'. rewrite app_nil_r in Hnd'.
  split; cbn [scc_components component_of topo_order is_cyclic]; try done.
  - intros c. split; [|by eapply drained_all].
    intros Hc'. apply (dr_range _ _ _ _ _ D). by rewrite app_nil_r.
  - intros l1 d l2 c E Hcd. eapply (dr_order _ _ _ _ _ D); [done|]. by apply HR.
Qed.

(** Above 64 blocks there is no graph, whatever the fuel of the search. *)
Lemma scc_graph_large ir :
  arena_ok (blocks ir) -> (64 < length (blocks ir))%nat -> SccGraph_new ir = None.
Proof.
  intros Ho Hl. unfold SccGraph_new. destruct (assert_cycles_have_safepoints ir); [|done].
  unfold strongly_connected_components. cbn [mbind option_bind]. by rewrite tarjan_large.
Qed.

(** ** Properties *)

(** The graph of components is built, and is what it should be, exactly when
    every cycle has a safepoint.  On a well-formed graph of at most 64 blocks: if
    some cycle has no safepoint, the construction panics; otherwise it succeeds,
    every block is numbered with the one component that contains it, the order
    lists every component once and no component before one that jumps into it,
    and the components marked cyclic are those with a cycle in them. *)
Theorem scc_graph_correct ir :
  graph_ok ir -> stmts_ok ir ->
  (quiet_cycle ir -> SccGraph_new ir = None) /\
  (~ quiet_cycle ir -> exists g, SccGraph_new ir = Some g /\
    components_ok ir None (scc_components g) /\
    (forall v c, map_get (component_of g) v = Some c <-> in_component (scc_components g) c v) /\
    NoDup (topo_order g) /\ (forall c, c ∈ topo_order g <-> (get c < length (scc_components g))%nat) /\
    (forall l1 d l2 c, topo_order g = l1 ++ d :: l2 ->
      component_edge ir (scc_components g) c d -> c ∈ l1) /\
    forall c C, scc_components g !! get c = Some C ->
      (set_contains c (is_cyclic g) = true <-> exists v, v ∈ C /\ tc (edge ir None) v v)).
Proof.
  intros Hg Hs. split; intros Hq.
  - unfold SccGraph_new. by rewrite (proj2 (assert_cycles_spec ir Hg Hs) Hq).
  - destruct (scc_graph_spec ir Hg Hs Hq) as (g & E & []). exists g. by split_and!.
Qed.

(** [stmts_ok] by evaluation. *)
Definition stmts_in_range (ir : ExecIrBuilder) : bool :=
  forallb (fun d => forallb (fun s => get s <? length (all_stmts ir))%nat (stmts d)) (blocks ir).

Lemma stmts_ok_check ir : stmts_in_range ir = true -> stmts_ok ir.
Proof.
  intros H b d s Hd Hs. unfold stmts_in_range in H. rewrite forallb_forall in H.
  specialize (H d). rewrite forallb_forall in H. apply lookup_lt_is_Some_2, Nat.ltb_lt, H.
  - apply list_elem_of_In. by eapply list_elem_of_lookup_2.
  - by apply list_elem_of_In.
Qed.

(** A loop of two blocks with a safepoint, and the same loop without. *)
Definition sample_loop (stmt : StmtKind) : ExecIrBuilder :=
  let b l t := mkBlock [] l true t false in
  mkBuilder initial_ssa_values
    [b [] (Term.Br (jump_to 2%positive));
     b [] (Term.BrZ 1%positive (jump_to 3%positive) (jump_to 4%positive));
     b [1%positive] (Term.Br (jump_to 2%positive)); b [] Term.Return]
    [mkStmt [] stmt] [] initial_signatures None None ENTRYPOINT 3.

Lemma sample_loop_ok stmt : graph_ok (sample_loop stmt) /\ stmts_ok (sample_loop stmt).
Proof. split; [apply graph_ok_check; [by vm_compute|simpl; lia]|apply stmts_ok_check; by vm_compute]. Qed.

Lemma sample_loop_quiet : quiet_cycle (sample_loop KLoadHaltReason).
Proof.
  exists 2%positive. apply (tc_l _ _ 3%positive); [|apply tc_once]; eexists; split_and!;
    [by vm_compute|set_solver|by vm_compute|by vm_compute|set_solver|by vm_compute].
Qed.

Lemma sample_loop_safe : ~ quiet_cycle (sample_loop KSafepoint).
Proof.
  destruct (sample_loop_ok KSafepoint) as [Hg Hs]. intros H. apply assert_cycles_spec in H; [|done..].
  by vm_compute in H.
Qed.

Lemma scc_graph_correct_witness :
  (quiet_cycle (sample_loop KLoadHaltReason) /\ SccGraph_new (sample_loop KLoadHaltReason) = None) /\
  exists g, SccGraph_new (sample_loop KSafepoint) = Some g /\
    topo_order g = [3%positive; 2%positive; 1%positive] /\ set_contains 2%positive (is_cyclic g) = true /\
    forall v c, map_get (component_of g) v = Some c <-> in_component (scc_components g) c v.
Proof.
  split.
  - split; [apply sample_loop_quiet|]. apply scc_graph_correct; [apply sample_loop_ok..|apply sample_loop_quiet].
  - destruct (sample_loop_ok KSafepoint) as [Hg Hs].
    destruct (scc_graph_correct (sample_loop KSafepoint) Hg Hs) as [_ Hyes]. pose proof sample_loop_safe as Hq.
    destruct (Hyes Hq) as (g & E & _ & Hn & _). exists g. split; [done|]. vm_compute in E. injection E as <-.
    split; [done|]. split; [done|]. exact Hn.
Defined.
