(* ===== verification/HaltCheck.v ===== *)
(** * The halt-check pass ([jit-compiler-core/src/ir/halt_check_pass.rs])

    The forward states and their maps, the inserter that mutates the IR, the two
    ways of processing a block, merging, and the pass over the components.  The
    debug assertions are assertions here.  The order in which a hash set or map
    hands out its elements is a parameter; the loop that splits a block takes
    fuel, one unit per statement of the block. *)

From S2P Require Import Prelude Arena Ir Tarjan SccGraph.
Local Open Scope Z_scope.
Local Open Scope emu_scope.

(** [usize::strict_sub]. *)
Definition strict_sub (a b : Z) : option Z := checked_sub a b.

(** ** States *)

(** [remaining] is a [NonZero<usize>]. *)
Record HaltState := mkHaltState { remaining : Z; suffix_safepoints : list Stmt }.

Abbreviation suffix_len st := (Z.of_nat (length (suffix_safepoints st))).

Definition from_remaining (remaining : Z) : HaltState := mkHaltState remaining [].

Definition has_complete_suffix (halt_check_every : Z) (st : HaltState) : option bool :=
  seen ← strict_sub halt_check_every (remaining st);
  Some (suffix_len st =? seen).

(** The safepoints after the last reset, and whether there is one. *)
Definition suffix_after_reset (reset_after : gset Stmt) (l : list Stmt) : bool * list Stmt :=
  foldl (fun '(found_reset, new_suffix) stmt =>
    if decide (stmt ∈ reset_after) then (true, [])
    else if found_reset : bool then (true, new_suffix ++ [stmt])
    else (false, new_suffix)) (false, []) l.

Definition canonicalize_against_resets (halt_check_every : Z) (reset_after : gset Stmt) (st : HaltState) :
    option HaltState :=
  if decide (suffix_safepoints st = []) then Some st
  else if decide (reset_after = ∅) then Some st
  else
    let (found_reset, new_suffix) := suffix_after_reset reset_after (suffix_safepoints st) in
    if found_reset then
      let after_count := Z.of_nat (length new_suffix) in
      if decide (after_count < halt_check_every /\ after_count < suffix_len st) then
        remaining ← strict_sub halt_check_every after_count;
        if decide (remaining = 0) then None else Some (mkHaltState remaining new_suffix)
      else None
    else Some st.

Definition has_insertion_point (halt_check_every target : Z) (st : HaltState) : option bool :=
  if target <=? remaining st then Some false
  else
    complete ← has_complete_suffix halt_check_every st;
    if negb complete then Some false
    else
      safepoints_after_insert ← strict_sub halt_check_every target;
      Some (negb (suffix_len st <=? safepoints_after_insert)).

Definition compensating_insertion_safepoint (halt_check_every target : Z) (st : HaltState) : option Stmt :=
  ok ← has_insertion_point halt_check_every target st;
  if negb ok then None
  else
    safepoints_after_insert ← strict_sub halt_check_every target;
    skip ← strict_sub (suffix_len st) safepoints_after_insert;
    skip_from_front ← strict_sub skip 1;
    suffix_safepoints st !! Z.to_nat skip_from_front.

(** ** The maps of pending edge states *)

Record HaltStateMap := mkHaltStateMap {
  outgoing_edges : ArenaMap (gmap Block HaltState);
  incoming_edges : ArenaMap (gset Block);
}.

Definition halt_state_map_new (ir : ExecIrBuilder) : HaltStateMap :=
  let edge_capacity := Z.to_nat (div_ceil (Z.of_nat (length (blocks ir))) 2 * 3) in
  mkHaltStateMap (map_with_capacity edge_capacity) (map_with_capacity edge_capacity).

Definition add_edge (from to : Block) (state : HaltState) : SM HaltStateMap (option HaltState) := fun m =>
  let (edges, outgoing) := map_get_or_insert_with from ∅ (outgoing_edges m) in
  let (backward_edges, incoming) := map_get_or_insert_with to ∅ (incoming_edges m) in
  Some (edges !! to,
    mkHaltStateMap (snd (map_insert from (<[to := state]> edges) outgoing))
      (snd (map_insert to ({[from]} ∪ backward_edges) incoming))).

(** One step of [DrainHaltState]. *)
Definition take_edge (from to : Block) : SM HaltStateMap (Block * HaltState) := fun m =>
  edges ← map_get (outgoing_edges m) from;
  state ← edges !! to;
  Some ((from, state),
    mkHaltStateMap (snd (map_insert from (delete to edges) (outgoing_edges m))) (incoming_edges m)).

Fixpoint take_edges (froms : list Block) (to : Block) : SM HaltStateMap (list (Block * HaltState)) :=
  match froms with
  | [] => sm_ret []
  | from :: froms =>
      let! e := take_edge from to in
      let! l := take_edges froms to in
      sm_ret (e :: l)
  end.

Section Pass.
Context (hash_order : gset Block -> list Block).

Definition drain_incoming (towards : Block) : SM HaltStateMap (list (Block * HaltState)) := fun m =>
  match map_get (incoming_edges m) towards with
  | None => Some ([], m)
  | Some drained =>
      take_edges (hash_order drained) towards
        (mkHaltStateMap (outgoing_edges m) (snd (map_insert towards ∅ (incoming_edges m))))
  end.

(** ** The inserter *)

Record HaltCheckInserter := mkInserter {
  inserter_ir : ExecIrBuilder;
  safepoint_stmt_to_block_and_index : gmap Stmt (Block * nat);
  state_map : HaltStateMap;
  semantic_reset_after : gset Stmt;
}.

Abbreviation Insert := (SM HaltCheckInserter).

Definition on_ir {A} (op : Build A) : Insert A := fun s =>
  match op (inserter_ir s) with
  | Some (a, ir) =>
      Some (a, mkInserter ir (safepoint_stmt_to_block_and_index s) (state_map s) (semantic_reset_after s))
  | None => None
  end.

Definition on_map {A} (op : SM HaltStateMap A) : Insert A := fun s =>
  match op (state_map s) with
  | Some (a, m) =>
      Some (a, mkInserter (inserter_ir s) (safepoint_stmt_to_block_and_index s) m (semantic_reset_after s))
  | None => None
  end.

Definition on_safepoints {A} (op : SM (gmap Stmt (Block * nat)) A) : Insert A := fun s =>
  match op (safepoint_stmt_to_block_and_index s) with
  | Some (a, x) => Some (a, mkInserter (inserter_ir s) x (state_map s) (semantic_reset_after s))
  | None => None
  end.

(** The safepoints of a block with their indices, from index [i] on. *)
Fixpoint safepoints_from (ir : ExecIrBuilder) (i : nat) (l : list Stmt) : option (list (nat * Stmt)) :=
  match l with
  | [] => Some []
  | stmt :: l =>
      d ← arena_get (all_stmts ir) stmt;
      rest ← safepoints_from ir (S i) l;
      Some (if is_safepoint (rvalue d) then (i, stmt) :: rest else rest)
  end.

Definition record_new (block : Block) (i : nat) (stmt : Stmt) : SM (gmap Stmt (Block * nat)) unit := fun x =>
  match x !! stmt with None => Some (tt, <[stmt := (block, i)]> x) | Some _ => None end.

Definition inserter_new (ir : ExecIrBuilder) : option HaltCheckInserter :=
  keys ← arena_keys (blocks ir);
  '(_, safepoints) ←
    sm_for (zip keys (blocks ir)) (fun '(block, data) =>
      let! l := sm_of_option (safepoints_from ir 0 (stmts data)) in
      sm_for l (fun '(i, stmt) => record_new block i stmt)) ∅;
  Some (mkInserter ir safepoints (halt_state_map_new ir) ∅).

(** A safepoint behind the split moves to the continuation. *)
Definition record_moved (block continuation : Block) (stmt_index i : nat) (stmt : Stmt) :
    SM (gmap Stmt (Block * nat)) unit := fun x =>
  match x !! stmt with
  | Some (old_block, old_idx) =>
      if decide (old_block = block /\ (stmt_index < old_idx)%nat)
      then Some (tt, <[stmt := (continuation, i)]> x) else None
  | None => None
  end.

(** The edges out of a split block leave from its continuation. *)
Definition redirect (block continuation to : Block) : SM HaltStateMap unit := fun m =>
  set ← map_get (incoming_edges m) to;
  if decide (block ∈ set /\ continuation ∉ set ∖ {[block]}) then
    Some (tt, mkHaltStateMap (outgoing_edges m)
      (snd (map_insert to ({[continuation]} ∪ set ∖ {[block]}) (incoming_edges m))))
  else None.

Definition remap_edges (block continuation : Block) : SM HaltStateMap unit := fun m =>
  let (removed, outgoing) := map_remove block (outgoing_edges m) in
  let m := mkHaltStateMap outgoing (incoming_edges m) in
  match removed with
  | None => Some (tt, m)
  | Some edges =>
      (sm_for (hash_order (dom edges)) (redirect block continuation) ;;! fun m =>
       match map_insert_unique continuation edges (outgoing_edges m) with
       | Some (_, outgoing) => Some (tt, mkHaltStateMap outgoing (incoming_edges m))
       | None => None
       end) m
  end.

Definition insert_halt_check_after_safepoint_indexed (block : Block) (stmt_index : nat) : Insert Block :=
  let! continuation := on_ir (insert_halt_check_at block (stmt_index + 1)) in
  let! data := on_ir (block_of continuation) in
  let! l := fun s => sm_of_option (safepoints_from (inserter_ir s) 0 (stmts data)) s in
  on_safepoints (sm_for l (fun '(i, stmt) => record_moved block continuation stmt_index i stmt)) ;;!
  on_map (remap_edges block continuation) ;;!
  sm_ret continuation.

Definition insert_compensating_halt_check_after_safepoint (at_ : Stmt) : Insert Block := fun s =>
  if decide (at_ ∈ semantic_reset_after s) then None
  else
    '(block, stmt_index) ← safepoint_stmt_to_block_and_index s !! at_;
    insert_halt_check_after_safepoint_indexed block stmt_index
      (mkInserter (inserter_ir s) (safepoint_stmt_to_block_and_index s) (state_map s)
        ({[at_]} ∪ semantic_reset_after s)).
End Pass.

(** ** Processing a block *)

Class BlockHalter (H : Type) := {
  process_safepoint : Z -> Stmt -> H -> option (bool * H);
  take_current_state : H -> HaltState * H;
}.

Record CyclicBlockHalter := mkCyclic { seen_halt_check_every : option Z; state_in_remaining : Z }.
Definition cyclic_new (state_in : HaltState) : CyclicBlockHalter := mkCyclic None (remaining state_in).

Definition cyclic_process (halt_check_every : Z) (_ : Stmt) (h : CyclicBlockHalter) :
    option (bool * CyclicBlockHalter) :=
  Some (true, mkCyclic (Some halt_check_every) (state_in_remaining h)).
Definition cyclic_take (h : CyclicBlockHalter) : HaltState * CyclicBlockHalter :=
  (from_remaining (default (state_in_remaining h) (seen_halt_check_every h)),
   mkCyclic None (state_in_remaining h)).
#[export] Instance cyclic_halter : BlockHalter CyclicBlockHalter :=
  {| process_safepoint := cyclic_process; take_current_state := cyclic_take |}.

Record ACyclicBlockHalter := mkACyclic { acyclic_state : HaltState }.

Definition acyclic_process (halt_check_every : Z) (safepoint : Stmt) (h : ACyclicBlockHalter) :
    option (bool * ACyclicBlockHalter) :=
  let state := acyclic_state h in
  new_remaining ← strict_sub (remaining state) 1;
  if decide (new_remaining = 0) then Some (true, mkACyclic (mkHaltState halt_check_every []))
  else
    let suffix := suffix_safepoints state ++ [safepoint] in
    let suffix := if halt_check_every <? Z.of_nat (length suffix) then tail suffix else suffix in
    Some (false, mkACyclic (mkHaltState new_remaining suffix)).
#[export] Instance acyclic_halter : BlockHalter ACyclicBlockHalter :=
  {| process_safepoint := acyclic_process; take_current_state := fun h => (acyclic_state h, h) |}.

Section Process.
Context (hash_order : gset Block -> list Block) {H : Type} `{BlockHalter H}.

(** The first safepoint, from index [i] on, that asks for a check. *)
Fixpoint find_split (halt_check_every : Z) (ir : ExecIrBuilder) (i : nat) (l : list Stmt) (h : H) :
    option (option nat * H) :=
  match l with
  | [] => Some (None, h)
  | stmt :: l =>
      d ← arena_get (all_stmts ir) stmt;
      if is_safepoint (rvalue d) then
        '(should_halt, h) ← process_safepoint halt_check_every stmt h;
        if should_halt : bool then Some (Some i, h) else find_split halt_check_every ir (S i) l h
      else find_split halt_check_every ir (S i) l h
  end.

Fixpoint process_loop (fuel : nat) (halt_check_every : Z) (block : Block) (h : H) :
    SM HaltCheckInserter (Block * H) :=
  match fuel with
  | O => sm_panic
  | S fuel =>
      let! data := on_ir (block_of block) in
      let! (split, h) := fun s =>
        sm_of_option (find_split halt_check_every (inserter_ir s) 0 (stmts data) h) s in
      match split with
      | None => sm_ret (block, h)
      | Some pos =>
          let! block := insert_halt_check_after_safepoint_indexed hash_order block pos in
          process_loop fuel halt_check_every block h
      end
  end.

Definition process_block (halt_check_every : Z) (block : Block) (h : H) :
    SM HaltCheckInserter (Block * HaltState * H) :=
  let! data := on_ir (block_of block) in
  let! (block, h) := process_loop (S (length (stmts data))) halt_check_every block h in
  let (state, h) := take_current_state h in
  sm_ret (block, state, h).
End Process.

(** ** Merging *)

Section Merge.
Context (hash_order : gset Block -> list Block).

Definition insert_compensating_check (halt_check_every target : Z) (st : HaltState) :
    SM HaltCheckInserter HaltState :=
  if target <=? remaining st then sm_ret st
  else
    let! insertion_safepoint :=
      sm_of_option (compensating_insertion_safepoint halt_check_every target st) in
    let! _ := insert_compensating_halt_check_after_safepoint hash_order insertion_safepoint in
    let! st := fun s =>
      sm_of_option (canonicalize_against_resets halt_check_every (semantic_reset_after s) st) s in
    sm_assert (target <=? remaining st) ;;!
    sm_ret st.

(** [all] over the incoming states, stopping at the first that fails. *)
Fixpoint can_normalize (halt_check_every target : Z) (incoming : list HaltState) : option bool :=
  match incoming with
  | [] => Some true
  | st :: incoming =>
      ok ← (if target <=? remaining st then Some true else has_insertion_point halt_check_every target st);
      if ok : bool then can_normalize halt_check_every target incoming else Some false
  end.

(** The states from position [i] on; every one but the first is canonicalized again. *)
Fixpoint normalize (halt_check_every target : Z) (i : nat) (incoming : list HaltState) :
    SM HaltCheckInserter (list HaltState) :=
  match incoming with
  | [] => sm_ret []
  | st :: incoming =>
      let! st := fun s =>
        sm_of_option
          (if decide (i = 0%nat) then Some st
           else canonicalize_against_resets halt_check_every (semantic_reset_after s) st) s in
      let! st := insert_compensating_check halt_check_every target st in
      let! l := normalize halt_check_every target (S i) incoming in
      sm_ret (st :: l)
  end.

Definition min_remaining (incoming : list HaltState) (st : HaltState) : Z :=
  foldr (fun st r => Z.min (remaining st) r) (remaining st) incoming.
Definition max_remaining (incoming : list HaltState) (st : HaltState) : Z :=
  foldr (fun st r => Z.max (remaining st) r) (remaining st) incoming.

Definition merge_halt_states (halt_check_every : Z) (incoming : list HaltState) :
    SM HaltCheckInserter HaltState :=
  let! incoming := fun s =>
    sm_of_option (mapM (canonicalize_against_resets halt_check_every (semantic_reset_after s)) incoming) s in
  match incoming with
  | [] => sm_ret (from_remaining halt_check_every)
  | [state] => sm_ret state
  | first :: rest =>
      let r_lo := min_remaining rest first in
      let r_hi := max_remaining rest first in
      let! diff := sm_of_option (strict_sub r_hi r_lo) in
      let threshold := div_ceil halt_check_every 2 in
      let! normalizable :=
        if threshold <? diff then sm_of_option (can_normalize halt_check_every r_hi incoming)
        else sm_ret false in
      if normalizable : bool then
        let! incoming := normalize halt_check_every r_hi 0 incoming in
        sm_assert (forallb (fun st => r_hi <=? remaining st) incoming) ;;!
        sm_ret (from_remaining r_hi)
      else sm_ret (from_remaining r_lo)
  end.
End Merge.

(** ** The pass *)

Section InsertHaltChecks.
Context (hash_order : gset Block -> list Block).

Fixpoint drain_all (component : list Block) : SM HaltStateMap (list HaltState) :=
  match component with
  | [] => sm_ret []
  | block :: component =>
      let! l := drain_incoming hash_order block in
      let! rest := drain_all component in
      sm_ret (l.*2 ++ rest)
  end.

(** The states after a processed block, for its successors outside the component. *)
Definition add_successor_edges (graph : SccGraph) (component_id : SccComponent) (cyclic : bool)
    (last_block : Block) (state_out : HaltState) : SM HaltCheckInserter unit :=
  let! succs := fun s => sm_of_option (successors (inserter_ir s) last_block) s in
  sm_for succs (fun successor =>
    let! inside :=
      if cyclic then
        let! c := sm_of_option (map_get (component_of graph) successor) in
        sm_ret (bool_decide (c = component_id))
      else sm_ret false in
    if inside : bool then sm_ret tt
    else
      let! old := on_map (add_edge last_block successor state_out) in
      sm_assert (match old with None => true | Some _ => false end)).

Fixpoint process_component {H} `{BlockHalter H} (halt_check_every : Z) (graph : SccGraph)
    (component_id : SccComponent) (cyclic : bool) (component : list Block) (halter : H) :
    SM HaltCheckInserter unit :=
  match component with
  | [] => sm_ret tt
  | block :: component =>
      let! (last_block, state_out, halter) := process_block hash_order halt_check_every block halter in
      add_successor_edges graph component_id cyclic last_block state_out ;;!
      process_component halt_check_every graph component_id cyclic component halter
  end.

Definition visit_component (halt_check_every : Z) (graph : SccGraph) (component_id : SccComponent) :
    SM HaltCheckInserter unit :=
  let! component := sm_of_option (arena_get (scc_components graph) component_id) in
  let! incoming := on_map (drain_all component) in
  let! state_in := merge_halt_states hash_order halt_check_every incoming in
  if set_contains component_id (is_cyclic graph) then
    process_component halt_check_every graph component_id true component (cyclic_new state_in)
  else
    sm_assert (length component =? 1)%nat ;;!
    process_component halt_check_every graph component_id false component (mkACyclic state_in).

Definition insert_halt_checks (ir : ExecIrBuilder) : option ExecIrBuilder :=
  let halt_check_every := halt_check_every ir in
  graph ← SccGraph_new ir;
  inserter ← inserter_new ir;
  '(_, inserter) ← sm_for (topo_order graph) (visit_component halt_check_every graph) inserter;
  Some (inserter_ir inserter).
End InsertHaltChecks.
