(* ===== verification/HaltSplit.v ===== *)
(** * What inserting a halt check does to the IR

    [insert_halt_check_at] succeeds whenever the statement before the insertion
    point is a safepoint and there are handles left, and cuts the block in two:
    the block keeps its statements up to the safepoint and then branches on the
    halt word, and a new block takes over the rest. *)

From S2P Require Import Prelude Convert HaltReason Arena Ir IrLogic.
Local Open Scope emu_scope.

(** The block every halt check leaves through. *)
Definition is_leave_block (ir : ExecIrBuilder) (lv : Block) : Prop :=
  lv <> ENTRYPOINT /\ exists d h v, arena_get (blocks ir) lv = Some d /\ parameters d = [] /\
    stmts d = [h] /\ arena_get (all_stmts ir) h = Some (mkStmt [v] KTakeHaltReason) /\
    terminator d = Term.ReturnCode v /\ terminated d = true.

Definition leave_ok (ir : ExecIrBuilder) : Prop :=
  forall lv, leave_and_take_halt ir = Some lv -> is_leave_block ir lv.

(** Handles the leaving block still needs. *)
Definition leave_cost (ir : ExecIrBuilder) : nat :=
  match leave_and_take_halt ir with None => 1 | Some _ => 0 end.

(** Room for [n] more blocks, values and statements. *)
Definition ir_room (n : nat) (ir : ExecIrBuilder) : Prop :=
  (Z.of_nat (length (blocks ir) + n) <= HANDLE_MAX)%Z /\
  (Z.of_nat (length (ssa_values ir) + n) <= HANDLE_MAX)%Z /\
  (Z.of_nat (length (all_stmts ir) + n) <= HANDLE_MAX)%Z.

Lemma insert_last {A} (l : list A) x y : <[length l := y]> (l ++ [x]) = l ++ [y].
Proof. induction l as [|z l IH]; [done|]. change (z :: <[length l := y]> (l ++ [x]) = z :: l ++ [y]). by rewrite IH. Qed.

Lemma alter_last {A} (f : A -> A) l x : alter f (length l) (l ++ [x]) = l ++ [f x].
Proof. induction l as [|y l IH]; [done|]. change (y :: alter f (length l) (l ++ [x]) = y :: l ++ [f x]). by rewrite IH. Qed.

(** ** The leaving block *)

Definition with_leave (ir : ExecIrBuilder) : ExecIrBuilder :=
  let lv := Pos.of_succ_nat (length (blocks ir)) in
  let v := Pos.of_succ_nat (length (ssa_values ir)) in
  let h := Pos.of_succ_nat (length (all_stmts ir)) in
  mkBuilder (ssa_values ir ++ [TInt W32])
    (blocks ir ++ [mkBlock [] [h] true (Term.ReturnCode v) true])
    (all_stmts ir ++ [mkStmt [v] KTakeHaltReason]) (stack_slots ir) (signatures ir) (scratch_space ir)
    (Some lv) (current_block ir) (halt_check_every ir).

Lemma entrypoint_old n b : (0 < n)%nat -> (n <= get b)%nat -> b <> ENTRYPOINT.
Proof. intros Hn Hb ->. unfold ENTRYPOINT, get in Hb. simpl in Hb. lia. Qed.

(** Terminating the current, unterminated block. *)
Lemma terminate_block_spec b t t' ir d :
  check_terminator t ir = Some (t', ir) -> ENTRYPOINT ∉ Term.block_targets t' ->
  arena_get (blocks ir) b = Some d -> terminated d = false ->
  terminate_block b t ir =
    Some (tt, mkBuilder (ssa_values ir) (<[get b := Blk.set_terminator true t' d]> (blocks ir)) (all_stmts ir)
      (stack_slots ir) (signatures ir) (scratch_space ir) (leave_and_take_halt ir) (current_block ir)
      (halt_check_every ir)).
Proof.
  intros Ht Hn Hd Hf. unfold terminate_block. rewrite (sm_bind_run _ _ _ _ _ Ht).
  assert (forallb (fun target => negb (bool_decide (target = ENTRYPOINT))) (Term.block_targets t') = true) as ->.
  { apply forallb_forall. intros x Hx%list_elem_of_In. apply negb_true_iff, bool_decide_eq_false. by intros ->. }
  unfold sm_assert, sm_bind, sm_ret, block_of, sm_of_option. rewrite Hd, Hf. simpl.
  unfold on_blocks, arena_modify. unfold arena_get in Hd. by rewrite Hd.
Qed.

(** Emitting a statement with one result at the end of a block. *)
Lemma emit_1ret_spec rv ty ir d :
  type_of rv ir = Some ([ty], ir) -> budget 2 ir -> arena_get (blocks ir) (current_block ir) = Some d ->
  emit_1ret_stmt rv ir =
    Some (Pos.of_succ_nat (length (ssa_values ir)),
      mkBuilder (ssa_values ir ++ [ty])
        (<[get (current_block ir) := Blk.push_stmt (Pos.of_succ_nat (length (all_stmts ir))) d]> (blocks ir))
        (all_stmts ir ++ [mkStmt [Pos.of_succ_nat (length (ssa_values ir))] rv])
        (stack_slots ir) (signatures ir) (scratch_space ir) (leave_and_take_halt ir) (current_block ir)
        (halt_check_every ir)).
Proof.
  intros Ht Hb Hd. unfold emit_1ret_stmt.
  rewrite (sm_bind_run _ _ _ _ _ (emit_stmt_full_spec rv [ty] ir Ht Hb (lookup_lt_Some _ _ _ Hd))).
  unfold sm_of_option, pushed. simpl. repeat f_equal.
  rewrite list_insert_alter. apply list_alter_ext; [|done]. intros x Hx. unfold arena_get in Hd. by simplify_eq.
Qed.

Lemma get_leave_spec ir :
  ir_room (2 * leave_cost ir) ir -> (0 < length (blocks ir))%nat ->
  get_leave_and_take_halt ir =
    match leave_and_take_halt ir with
    | Some lv => Some (lv, ir)
    | None => Some (Pos.of_succ_nat (length (blocks ir)), with_leave ir)
    end.
Proof.
  intros (Hb & Hv & Hs) Hne. unfold get_leave_and_take_halt, leave_cost in *.
  destruct (leave_and_take_halt ir) eqn:El; [done|].
  set (lv := Pos.of_succ_nat (length (blocks ir))).
  assert (lv <> ENTRYPOINT) as Hlv.
  { apply (entrypoint_old (length (blocks ir))); [done|]. unfold lv. by rewrite get_of_succ. }
  erewrite sm_bind_run.
  2:{ unfold create_block, on_blocks, arena_store. by rewrite try_new_total by lia. }
  fold lv. erewrite sm_bind_run.
  2:{ unfold block_scope. do 2 (erewrite sm_bind_run; [|done]).
      erewrite sm_bind_run.
      2:{ erewrite sm_bind_run.
          2:{ unfold mark_current_block_cold. erewrite sm_bind_run; [|done]. unfold mark_block_bold. cbn [current_block].
              rewrite decide_False by done. unfold on_blocks, arena_modify. cbn [blocks].
              unfold lv. by rewrite get_of_succ, list_lookup_middle. }
          erewrite sm_bind_run.
          2:{ apply (emit_1ret_spec KTakeHaltReason (TInt W32)); [done|split; simpl; lia|].
              unfold arena_get. cbn [blocks current_block]. unfold lv. rewrite get_of_succ, insert_last.
              by rewrite list_lookup_middle. }
          unfold terminate. erewrite sm_bind_run; [|done]. cbn [current_block].
          eapply terminate_block_spec.
          - unfold check_terminator. simpl. erewrite sm_bind_run; [|unfold ty_of, sm_of_option, arena_get; simpl;
              rewrite get_of_succ, list_lookup_middle by done; done].
            done.
          - by intros ?%elem_of_nil.
          - unfold arena_get, lv. cbn [blocks]. by rewrite get_of_succ, !insert_last, list_lookup_middle.
          - done. }
      erewrite sm_bind_run; done. }
  cbn [ssa_values blocks all_stmts stack_slots signatures scratch_space leave_and_take_halt current_block halt_check_every].
  unfold with_leave, lv. rewrite !get_of_succ, !insert_last. done.
Qed.

(** What asking for the leaving block adds. *)
Record leave_added (ir ir' : ExecIrBuilder) (lv : Block) : Prop := {
  la_leave : leave_and_take_halt ir' = Some lv;
  la_ok : is_leave_block ir' lv;
  la_old : forall lv0, leave_and_take_halt ir = Some lv0 -> lv0 = lv;
  la_new : leave_and_take_halt ir = None -> get lv = length (blocks ir);
  la_blocks : exists tl, blocks ir' = blocks ir ++ tl /\ length tl = leave_cost ir;
  la_values : exists tl, ssa_values ir' = ssa_values ir ++ tl /\ length tl = leave_cost ir;
  la_stmts : exists tl, all_stmts ir' = all_stmts ir ++ tl /\ length tl = leave_cost ir /\
    Forall (fun d => is_safepoint (rvalue d) = false) tl;
  la_typed : forall x sd, arena_get (all_stmts ir') x = Some sd -> (get x < length (all_stmts ir))%nat \/
    exists v, sd = mkStmt [v] KTakeHaltReason /\ (get v + length (all_stmts ir) = get x + length (ssa_values ir))%nat /\
      arena_get (ssa_values ir') v = Some (TInt W32);
  la_leave_new : leave_and_take_halt ir = None -> exists dl hl, arena_get (blocks ir') lv = Some dl /\ stmts dl = [hl] /\
    (length (all_stmts ir) <= get hl)%nat;
  la_rest : current_block ir' = current_block ir /\ halt_check_every ir' = halt_check_every ir /\
    stack_slots ir' = stack_slots ir /\ signatures ir' = signatures ir /\
    scratch_space ir' = scratch_space ir;
}.

Lemma get_leave_added ir :
  leave_ok ir -> ir_room (2 * leave_cost ir) ir -> (0 < length (blocks ir))%nat ->
  exists lv ir', get_leave_and_take_halt ir = Some (lv, ir') /\ leave_added ir ir' lv.
Proof.
  intros Hok Hr Hne. pose proof (get_leave_spec ir Hr Hne) as E. unfold leave_cost in *.
  destruct (leave_and_take_halt ir) as [lv|] eqn:El; do 2 eexists; (split; [exact E|]).
  - split; [done|by apply Hok|rewrite El; by intros lv0 [= ->]|by rewrite El|..]; try done.
    + exists []. unfold leave_cost. by rewrite El, app_nil_r.
    + exists []. unfold leave_cost. by rewrite El, app_nil_r.
    + exists []. unfold leave_cost. by rewrite El, app_nil_r.
    + intros x sd Hx%lookup_lt_Some. by left.
    + by rewrite El.
  - unfold with_leave. split; [done| |by rewrite El|..]; simpl; try done.
    + split; [apply (entrypoint_old (length (blocks ir))); [done|by rewrite get_of_succ]|].
      do 3 eexists. unfold arena_get. simpl. rewrite !get_of_succ, !list_lookup_middle by done. by split_and!.
    + intros _. apply get_of_succ.
    + eexists. split; [done|]. unfold leave_cost. by rewrite El.
    + eexists. split; [done|]. unfold leave_cost. by rewrite El.
    + eexists. split; [done|]. unfold leave_cost. rewrite El. split; [done|]. by repeat constructor.
    + intros x sd Hx. apply lookup_app_Some in Hx as [Hx%lookup_lt_Some|[Hl Hx]]; [by left|right].
      apply list_lookup_singleton_Some in Hx as [E0 <-]. eexists. split; [done|]. rewrite get_of_succ. split; [lia|].
      unfold arena_get. simpl. by rewrite get_of_succ, list_lookup_middle.
    + intros _. do 2 eexists. unfold arena_get. simpl. rewrite get_of_succ, list_lookup_middle by done.
      split_and!; [done|done|]. by rewrite get_of_succ.
Qed.

(** ** The split *)

Record is_split (ir ir' : ExecIrBuilder) (b c : Block) (i : nat) (d : BlockData) : Prop := {
  sp_fresh : get c = length (blocks ir);
  sp_check : exists lv h v, leave_and_take_halt ir' = Some lv /\ lv <> c /\
    arena_get (all_stmts ir') h = Some (mkStmt [v] KLoadHaltReason) /\
    (length (all_stmts ir) <= get h)%nat /\ (length (ssa_values ir) <= get v)%nat /\
    arena_get (ssa_values ir') v = Some (TInt W32) /\
    arena_get (blocks ir') b = Some (mkBlock (parameters d) (take (S i) (stmts d) ++ [h]) true
      (Term.BrZ v (jump_to c) (jump_to lv)) (is_cold d));
  sp_cont : arena_get (blocks ir') c =
    Some (mkBlock [] (drop (S i) (stmts d)) (terminated d) (terminator d) (is_cold d));
  sp_old : forall b', b' <> b -> (get b' < length (blocks ir))%nat ->
    arena_get (blocks ir') b' = arena_get (blocks ir) b';
  sp_new : forall b' d', arena_get (blocks ir') b' = Some d' ->
    (get b' < length (blocks ir))%nat \/ b' = c \/
    ((length (blocks ir) <= get b')%nat /\ leave_and_take_halt ir = None /\ leave_and_take_halt ir' = Some b');
  sp_leave : forall lv, leave_and_take_halt ir = Some lv -> leave_and_take_halt ir' = Some lv;
  sp_leave_ok : leave_ok ir';
  sp_blocks : length (blocks ir') = (length (blocks ir) + 1 + leave_cost ir)%nat;
  sp_values : exists tl, ssa_values ir' = ssa_values ir ++ tl /\ length tl = (1 + leave_cost ir)%nat;
  sp_stmts : exists tl, all_stmts ir' = all_stmts ir ++ tl /\ length tl = (1 + leave_cost ir)%nat /\
    Forall (fun d => is_safepoint (rvalue d) = false) tl;
  sp_typed : forall x sd, arena_get (all_stmts ir') x = Some sd -> (get x < length (all_stmts ir))%nat \/
    exists v rv, sd = mkStmt [v] rv /\ (rv = KLoadHaltReason \/ rv = KTakeHaltReason) /\
      (get v + length (all_stmts ir) = get x + length (ssa_values ir))%nat /\ arena_get (ssa_values ir') v = Some (TInt W32);
  sp_leave_new : leave_and_take_halt ir = None -> forall lv, leave_and_take_halt ir' = Some lv ->
    exists dl hl, arena_get (blocks ir') lv = Some dl /\ stmts dl = [hl] /\ (length (all_stmts ir) <= get hl)%nat;
  sp_rest : current_block ir' = current_block ir /\ halt_check_every ir' = halt_check_every ir /\
    stack_slots ir' = stack_slots ir /\ signatures ir' = signatures ir /\
    scratch_space ir' = scratch_space ir;
}.

(** The block's beginning, while the check is being built. *)
Definition head_block (i : nat) (d : BlockData) : BlockData :=
  mkBlock (parameters d) (take (S i) (stmts d)) (terminated d) Term.Return (is_cold d).
Definition tail_block (i : nat) (d : BlockData) : BlockData :=
  mkBlock [] (drop (S i) (stmts d)) (terminated d) (terminator d) (is_cold d).

(** The first half: the statements are split off into a new block. *)
Definition split_off (ir : ExecIrBuilder) (b : Block) (i : nat) (d : BlockData) : ExecIrBuilder :=
  mkBuilder (ssa_values ir) (<[get b := head_block i d]> (blocks ir) ++ [tail_block i d]) (all_stmts ir)
    (stack_slots ir) (signatures ir) (scratch_space ir) (leave_and_take_halt ir) (current_block ir)
    (halt_check_every ir).

(** The second half: the check is emitted into the block. *)
Definition check_emitted (ir2 : ExecIrBuilder) (b c lv : Block) (hb : BlockData) : ExecIrBuilder :=
  let v := Pos.of_succ_nat (length (ssa_values ir2)) in
  let h := Pos.of_succ_nat (length (all_stmts ir2)) in
  mkBuilder (ssa_values ir2 ++ [TInt W32])
    (<[get b := Blk.set_terminator true (Term.BrZ v (jump_to c) (jump_to lv)) (Blk.push_stmt h hb)]> (blocks ir2))
    (all_stmts ir2 ++ [mkStmt [v] KLoadHaltReason]) (stack_slots ir2) (signatures ir2) (scratch_space ir2)
    (leave_and_take_halt ir2) (current_block ir2) (halt_check_every ir2).

Lemma emit_check_spec ir2 b c lv hb :
  budget 2 ir2 -> arena_get (blocks ir2) b = Some hb -> c <> ENTRYPOINT -> lv <> ENTRYPOINT -> c <> lv ->
  (let! maybe_halt_reason := block_scope b (emit_1ret_stmt KLoadHaltReason) in
   on_blocks (arena_modify b (fun d => Blk.set_terminator false (terminator d) d)) ;;!
   terminate_block b (Term.BrZ maybe_halt_reason (jump_to c) (jump_to lv)) ;;!
   sm_ret c) ir2 = Some (c, check_emitted ir2 b c lv hb).
Proof.
  intros Hb Hd Hc Hlv Hne. pose proof (lookup_lt_Some _ _ _ Hd) as Hl.
  erewrite sm_bind_run.
  2:{ unfold block_scope. do 2 (erewrite sm_bind_run; [|done]).
      erewrite sm_bind_run; [|by apply (emit_1ret_spec KLoadHaltReason (TInt W32))]. cbn [current_block].
      erewrite sm_bind_run; done. }
  cbn [current_block ssa_values all_stmts blocks]. set (v := Pos.of_succ_nat (length (ssa_values ir2))).
  set (h := Pos.of_succ_nat (length (all_stmts ir2))).
  erewrite sm_bind_run.
  2:{ unfold on_blocks, arena_modify. cbn [blocks]. by rewrite list_lookup_insert_eq. }
  cbn [current_block ssa_values all_stmts blocks stack_slots signatures scratch_space leave_and_take_halt halt_check_every].
  rewrite list_insert_insert_eq.
  erewrite sm_bind_run.
  2:{ eapply terminate_block_spec.
      - unfold check_terminator. simpl. erewrite sm_bind_run.
        2:{ unfold ty_of, sm_of_option, arena_get, v. simpl. rewrite get_of_succ, list_lookup_middle by done. done. }
        simpl. rewrite decide_False; [done|]. by intros [= ?].
      - unfold Term.block_targets. simpl. rewrite decide_False by done. set_solver.
      - unfold arena_get. cbn [blocks]. by rewrite list_lookup_insert_eq.
      - done. }
  unfold sm_ret, check_emitted. cbn. by rewrite list_insert_insert_eq.
Qed.

Lemma insert_halt_check_at_eq ir b i d x lv ir2 :
  arena_get (blocks ir) b = Some d -> stmts d !! i = Some x ->
  (exists sd, arena_get (all_stmts ir) x = Some sd /\ is_safepoint (rvalue sd) = true) ->
  (Z.of_nat (length (blocks ir)) < HANDLE_MAX)%Z -> lv <> ENTRYPOINT ->
  get_leave_and_take_halt (split_off ir b i d) = Some (lv, ir2) ->
  budget 2 ir2 -> arena_get (blocks ir2) b = Some (head_block i d) ->
  Pos.of_succ_nat (length (blocks ir)) <> lv ->
  insert_halt_check_at b (i + 1) ir =
    Some (Pos.of_succ_nat (length (blocks ir)),
      check_emitted ir2 b (Pos.of_succ_nat (length (blocks ir))) lv (head_block i d)).
Proof.
  intros Hd Hx (sd & Hsd & Hsp) Hroom Hlv Hleave Hb2 Hd2 Hne. pose proof (lookup_lt_Some _ _ _ Hd) as Hl.
  unfold insert_halt_check_at.
  erewrite sm_bind_run; [|unfold block_of, sm_of_option; by rewrite Hd].
  erewrite sm_bind_run.
  2:{ unfold is_after_safepoint, sm_of_option. rewrite Nat.add_1_r, Hx. cbn [mbind option_bind].
      rewrite Hsd. cbn [mbind option_bind]. by rewrite Hsp. }
  erewrite sm_bind_run; [|done].
  erewrite sm_bind_run.
  2:{ unfold on_blocks, arena_modify. unfold arena_get in Hd. rewrite Hd. rewrite Nat.add_1_r. done. }
  erewrite sm_bind_run.
  2:{ unfold on_blocks, arena_store. cbn [blocks]. rewrite try_new_total by (by rewrite length_insert). done. }
  rewrite length_insert, Nat.add_1_r. cbn [ssa_values blocks all_stmts stack_slots signatures scratch_space leave_and_take_halt current_block halt_check_every].
  erewrite sm_bind_run; [|exact Hleave].
  apply emit_check_spec; try done.
  apply (entrypoint_old (length (blocks ir))); [lia|]. by rewrite get_of_succ.
Qed.

Lemma insert_halt_check_at_spec ir b i d x :
  leave_ok ir -> ir_room (2 + 2 * leave_cost ir) ir -> leave_and_take_halt ir <> Some b ->
  arena_get (blocks ir) b = Some d -> stmts d !! i = Some x ->
  (exists sd, arena_get (all_stmts ir) x = Some sd /\ is_safepoint (rvalue sd) = true) ->
  exists c ir', insert_halt_check_at b (i + 1) ir = Some (c, ir') /\ is_split ir ir' b c i d.
Proof.
  intros Hok (Hrb & Hrv & Hrs) Hnb Hd Hx Hsp. pose proof (lookup_lt_Some _ _ _ Hd) as Hl.
  set (ir1 := split_off ir b i d).
  assert (length (blocks ir1) = S (length (blocks ir))) as Hl1.
  { unfold ir1; simpl. rewrite length_app, length_insert. simpl. lia. }
  assert (leave_cost ir1 = leave_cost ir) as Hcost by done.
  assert (forall b', b' <> b -> (get b' < length (blocks ir))%nat -> arena_get (blocks ir1) b' = arena_get (blocks ir) b') as Hold1.
  { intros b' Hb' Hlt. unfold arena_get, ir1; simpl. rewrite lookup_app_l by (by rewrite length_insert).
    apply list_lookup_insert_ne. intros E. by apply Hb', get_inj. }
  assert (leave_ok ir1) as Hok1.
  { intros lv Hlv. destruct (Hok lv Hlv) as (Hn & dl & h & v & Hdl & ?).
    split; [done|]. exists dl, h, v. split; [|done]. rewrite Hold1; [done| |by eapply lookup_lt_Some].
    by intros ->. }
  destruct (get_leave_added ir1 Hok1) as (lv & ir2 & E2 & A); [unfold ir_room; rewrite Hcost, Hl1; simpl; lia|lia|].
  destruct A as [Aleave Aok Aold Anew (tb & Ab & Hltb) (tv & Av & Hltv) (ts & As & Hlts & Hts) Atyped Aleavenew Arest].
  rewrite Hcost in *. set (c := Pos.of_succ_nat (length (blocks ir))).
  assert (c <> lv) as Hclv.
  { intros <-. destruct (leave_and_take_halt ir) as [lv0|] eqn:El.
    - specialize (Aold lv0 El). subst lv0. destruct (Hok c El) as (_ & dl & _ & _ & Hdl%lookup_lt_Some & _).
      unfold c in Hdl. rewrite get_of_succ in Hdl. lia.
    - specialize (Anew El). unfold c in Anew. rewrite get_of_succ in Anew. lia. }
  assert (arena_get (blocks ir2) b = Some (head_block i d)) as Hd2.
  { unfold arena_get. rewrite Ab. unfold ir1; simpl.
    rewrite <- app_assoc, lookup_app_l by (by rewrite length_insert). by rewrite list_lookup_insert_eq. }
  exists c. eexists. split.
  { eapply insert_halt_check_at_eq; try done; [lia|by apply Aok|].
    split; rewrite ?Av, ?As, length_app; simpl; lia. }
  assert (forall b', b' <> b -> (get b' < length (blocks ir2))%nat ->
    arena_get (blocks (check_emitted ir2 b c lv (head_block i d))) b' = arena_get (blocks ir2) b') as Hold2.
  { intros b' Hb' Hlt. unfold arena_get; simpl. apply list_lookup_insert_ne. intros E. by apply Hb', get_inj. }
  assert (forall b', (get b' < length (blocks ir1))%nat -> arena_get (blocks ir2) b' = arena_get (blocks ir1) b') as Hold12.
  { intros b' Hlt. unfold arena_get. by rewrite Ab, lookup_app_l. }
  assert (get c = length (blocks ir)) as Hc by apply get_of_succ.
  assert (c <> b) as Hcb by (intros E; rewrite E in Hc; lia).
  assert (length (blocks ir2) = (length (blocks ir) + 1 + leave_cost ir)%nat) as Hl2 by (rewrite Ab, length_app; lia).
  assert (is_leave_block (check_emitted ir2 b c lv (head_block i d)) lv) as Hlvok.
  { destruct Aok as (Hn & dl & h & v & Hdl & ? & ? & Hh & ? & ?). split; [done|]. exists dl, h, v.
    assert (lv <> b) as Hlb.
    { intros ->. destruct (leave_and_take_halt ir) as [lv0|] eqn:El.
      - specialize (Aold lv0 El). by subst.
      - specialize (Anew El). lia. }
    rewrite Hold2 by (done || by eapply lookup_lt_Some). split_and!; try done.
    unfold arena_get; simpl. by apply lookup_app_l_Some. }
  split.
  - done.
  - exists lv, (Pos.of_succ_nat (length (all_stmts ir2))), (Pos.of_succ_nat (length (ssa_values ir2))).
    split_and!; try done.
    + unfold arena_get; simpl. by rewrite get_of_succ, list_lookup_middle.
    + rewrite get_of_succ, As, length_app. simpl. lia.
    + rewrite get_of_succ, Av, length_app. simpl. lia.
    + unfold arena_get; simpl. by rewrite get_of_succ, list_lookup_middle.
    + unfold arena_get; simpl. rewrite list_lookup_insert_eq by lia. done.
  - rewrite Hold2, Hold12 by (done || lia). unfold arena_get, ir1; simpl.
    rewrite Hc, <- (length_insert (blocks ir) (get b) (head_block i d)). by rewrite list_lookup_middle.
  - intros b' Hb' Hlt. rewrite Hold2, Hold12 by (done || lia). by apply Hold1.
  - intros b' d' Hb'. apply lookup_lt_Some in Hb'. simpl in Hb'. rewrite length_insert, Hl2 in Hb'.
    destruct (decide (get b' < length (blocks ir))%nat); [by left|].
    destruct (decide (b' = c)); [by right; left|]. right. right.
    assert (get b' <> get c) by (intros E; by apply n0, get_inj).
    unfold leave_cost in Hb'. destruct (leave_and_take_halt ir) eqn:El; [lia|].
    split; [lia|]. split; [done|]. simpl. rewrite Aleave. f_equal. apply get_inj. specialize (Anew El). lia.
  - intros lv0 El. simpl. rewrite Aleave. f_equal. symmetry. by apply Aold.
  - intros lv0 El. simpl in El. rewrite Aleave in El. by injection El as <-.
  - simpl. rewrite length_insert. lia.
  - exists (tv ++ [TInt W32]). simpl. rewrite Av, <- app_assoc. split; [done|]. rewrite length_app. simpl. lia.
  - eexists. simpl. rewrite As, <- app_assoc. split; [done|]. rewrite length_app. split; [simpl; lia|].
    apply Forall_app. split; [done|]. by repeat constructor.
  - intros x0 sd Hx0. apply lookup_app_Some in Hx0 as [Hx0|[Hl0 Hx0]].
    + destruct (Atyped x0 sd Hx0) as [|(v & -> & Hv & Hvt)]; [by left|right]. exists v, KTakeHaltReason.
      split_and!; [done|by right|exact Hv|]. by apply lookup_app_l_Some.
    + right. apply list_lookup_singleton_Some in Hx0 as [E0 <-]. do 2 eexists. split_and!; [done|by left| |].
      * rewrite get_of_succ. assert (get x0 = length (all_stmts ir2)) as -> by lia. rewrite Av, As, !length_app. unfold ir1; simpl. lia.
      * unfold arena_get; simpl. by rewrite get_of_succ, list_lookup_middle.
  - intros El lv0 El'. simpl in El'. rewrite Aleave in El'. injection El' as <-.
    destruct (Aleavenew El) as (dl & hl & Hdl & Est & Hl0). exists dl, hl. split_and!; [|done|done].
    rewrite Hold2; [done| |by eapply lookup_lt_Some]. intros ->. specialize (Anew El). lia.
  - done.
Qed.
