(* ===== verification/HaltInv.v ===== *)
(** * The inserter's invariant

    Inserting halt checks cuts the original blocks into chains of pieces.  The
    invariant relates the inserter's state to two ghosts: the set [K] of the
    safepoints that are checked, and the states [G] of the original edges.  A
    split adds one safepoint to [K] and leaves [G] alone: moving the safepoints'
    positions and the pending edges to the continuation is invisible. *)

From S2P Require Import Prelude Arena Ir Tarjan SccGraph HaltCheck IrLogic HaltSplit.
Local Open Scope emu_scope.

(** ** Pieces *)

Section Inv.
Context (ir0 : ExecIrBuilder).

(** From the piece [b] of the original block [u] on: the statements without the
    checks, the terminator, and the last piece.  Exactly the safepoints in [K]
    end a piece, with a halt check after them. *)
Inductive chain (ir : ExecIrBuilder) (org : gmap Block Block) (K : gset Stmt) (u : Block) :
    Block -> list Stmt -> Terminator -> Block -> Prop :=
  | chain_end b d :
      arena_get (blocks ir) b = Some d -> org !! b = Some u -> Forall (fun s => s ∉ K) (stmts d) ->
      chain ir org K u b (stmts d) (terminator d) b
  | chain_check b d l1 s h v c lv d' l2 t last :
      arena_get (blocks ir) b = Some d -> org !! b = Some u ->
      stmts d = l1 ++ [s; h] -> Forall (fun s => s ∉ K) l1 -> s ∈ K ->
      arena_get (all_stmts ir) h = Some (mkStmt [v] KLoadHaltReason) ->
      (length (all_stmts ir0) <= get h)%nat -> (length (ssa_values ir0) <= get v)%nat ->
      terminator d = Term.BrZ v (jump_to c) (jump_to lv) ->
      leave_and_take_halt ir = Some lv -> lv <> c ->
      arena_get (blocks ir) c = Some d' -> parameters d' = [] ->
      chain ir org K u c l2 t last ->
      chain ir org K u b (l1 ++ s :: l2) t last.

Lemma chain_last ir org K u b l t last :
  chain ir org K u b l t last ->
  org !! last = Some u /\ exists d l0, arena_get (blocks ir) last = Some d /\ terminator d = t /\
    l = l0 ++ stmts d /\ Forall (fun s => s ∉ K) (stmts d).
Proof.
  induction 1 as [b d Hd Ho Hf|b d l1 s h v c lv d' l2 t last ?????????????? IH].
  - split; [done|]. by exists d, [].
  - destruct IH as (? & dl & l0 & ? & ? & -> & ?). split; [done|].
    exists dl, (l1 ++ s :: l0). split_and!; try done. by rewrite <- app_assoc.
Qed.

Lemma chain_cases ir org K u b l t last :
  chain ir org K u b l t last ->
  exists d, arena_get (blocks ir) b = Some d /\
    (last = b /\ Forall (fun s => s ∉ K) (stmts d) \/
     exists s v c lv l2, s ∈ stmts d /\ s ∈ K /\ terminator d = Term.BrZ v (jump_to c) (jump_to lv) /\
       chain ir org K u c l2 t last).
Proof.
  destruct 1 as [b d|b d l1 s h v c lv d' l2 t last ?? E]; exists d; (split; [done|]); [by left|right].
  exists s, v, c, lv, l2. split_and!; [rewrite E; set_solver|done..].
Qed.

Lemma chain_det ir org K u b l t last l' t' last' :
  chain ir org K u b l t last -> chain ir org K u b l' t' last' -> last = last'.
Proof.
  intros H. revert l' t' last'.
  induction H as [b d Hd Ho Hf|b d l1 s h v c lv d' l2 t last Hd ? E ? Hs ??? Ht ????? IH]; intros l' t' last' H';
    apply chain_cases in H' as (d2 & Hd2 & [[-> Hf2]|(s2 & v2 & c2 & lv2 & l3 & Hin & Hs2 & Ht2 & Hch)]); simplify_eq.
  - done.
  - rewrite Forall_forall in Hf. exfalso. by apply (Hf s2).
  - rewrite E, Forall_forall in Hf2. exfalso. apply (Hf2 s); [set_solver|done].
  - rewrite Ht in Ht2. injection Ht2 as -> -> ->. by eapply IH.
Qed.

(** One split, seen by every chain. *)
Section Split.
Context (ir ir' : ExecIrBuilder) (org : gmap Block Block) (K : gset Stmt) (ub : Block).
Context (b c : Block) (i : nat) (d : BlockData) (x : Stmt).
Context (Hsplit : is_split ir ir' b c i d) (Hd : arena_get (blocks ir) b = Some d).
Context (Hx : stmts d !! i = Some x) (Hub : org !! b = Some ub) (HxK : x ∉ K).
Context (Honce : forall b' d' j, arena_get (blocks ir) b' = Some d' -> stmts d' !! j = Some x -> b' = b /\ j = i).
Context (Hsp : is_sp ir x = true).
Context (Hlen : (length (all_stmts ir0) <= length (all_stmts ir))%nat)
  (Hval : (length (ssa_values ir0) <= length (ssa_values ir))%nat).

Lemma split_fresh b' d' : arena_get (blocks ir) b' = Some d' -> b' <> c.
Proof. intros H%lookup_lt_Some ->. pose proof (sp_fresh _ _ _ _ _ _ Hsplit). lia. Qed.

Lemma split_stmt h sd : arena_get (all_stmts ir) h = Some sd -> arena_get (all_stmts ir') h = Some sd.
Proof.
  destruct (sp_stmts _ _ _ _ _ _ Hsplit) as (tl & E & _). unfold arena_get. rewrite E. apply lookup_app_l_Some.
Qed.

Lemma split_kept b' d' :
  b' <> b -> arena_get (blocks ir) b' = Some d' -> arena_get (blocks ir') b' = Some d'.
Proof. intros Hne H. rewrite (sp_old _ _ _ _ _ _ Hsplit); [done|done|by eapply lookup_lt_Some]. Qed.

Lemma split_not_in (l : list Stmt) : Forall (fun s => s ∉ K) l -> x ∉ l -> Forall (fun s => s ∉ {[x]} ∪ K) l.
Proof. rewrite !Forall_forall. intros Hf Hn s Hs. specialize (Hf s Hs). set_solver. Qed.

Lemma split_elsewhere b' d' : b' <> b -> arena_get (blocks ir) b' = Some d' -> x ∉ stmts d'.
Proof. intros Hne H [j Hj]%list_elem_of_lookup. by destruct (Honce _ _ _ H Hj). Qed.

Lemma split_before j : (j < i)%nat -> stmts d !! j <> Some x.
Proof. intros Hj E. destruct (Honce _ _ _ Hd E). lia. Qed.

Lemma split_notin_take : x ∉ take i (stmts d).
Proof.
  intros [j Hj]%list_elem_of_lookup. apply lookup_take_Some in Hj as [Hj Hlt]. by apply (split_before j).
Qed.

Lemma split_notin_drop : x ∉ drop (S i) (stmts d).
Proof.
  intros [j Hj]%list_elem_of_lookup. rewrite lookup_drop in Hj. destruct (Honce _ _ _ Hd Hj). lia.
Qed.

Lemma chain_split u b0 l t last :
  chain ir org K u b0 l t last ->
  chain ir' (<[c := ub]> org) ({[x]} ∪ K) u b0 l t (if decide (last = b) then c else last).
Proof.
  destruct (sp_check _ _ _ _ _ _ Hsplit) as (lvn & hn & vn & Hlvn & Hlc & Hhn & Hhl & Hvl & _ & Hbn).
  pose proof (sp_cont _ _ _ _ _ _ Hsplit) as Hcn. pose proof split_notin_take as Ht. pose proof split_notin_drop as Hdr.
  assert (forall b' d', arena_get (blocks ir) b' = Some d' -> <[c := ub]> org !! b' = org !! b') as Horg.
  { intros b' d' H. rewrite lookup_insert_ne; [done|]. by intros <-; apply split_fresh in H. }
  induction 1 as [b0 d0 Hd0 Ho Hf|b0 d0 l1 s h v c0 lv d' l2 t last Hd0 Ho E Hf Hs Hh Hhl0 Hvl0 Hterm Hlv Hne Hc0 Hp _ IH].
  - destruct (decide (b0 = b)) as [->|Hb0].
    + assert (d0 = d) as -> by congruence. pose proof (eq_sym (take_drop_middle _ _ _ Hx)) as Es. rewrite Es in Hf |- *.
      rewrite Forall_app, Forall_cons in Hf. destruct Hf as (Hf1 & _ & Hf2).
      eapply chain_check with (c := c); [exact Hbn|by rewrite (Horg _ _ Hd)|simpl; by rewrite (take_S_r _ _ _ Hx), <- app_assoc| |set_solver|done|lia|lia|done|done|done|exact Hcn|done|].
      * by apply split_not_in.
      * change (terminator d) with (terminator (tail_block i d)). change (drop (S i) (stmts d)) with (stmts (tail_block i d)).
        apply chain_end; [done|rewrite lookup_insert_eq; congruence|by apply split_not_in].
    + apply chain_end; [by apply split_kept|by rewrite (Horg _ _ Hd0)|].
      apply split_not_in; [done|by eapply split_elsewhere].
  - destruct (decide (b0 = b)) as [->|Hb0].
    + rewrite Hd in Hd0. injection Hd0 as <-.
      assert (i < length l1)%nat as Hi.
      { destruct (decide (i < length l1)%nat) as [|Hge]; [done|exfalso]. rewrite E, lookup_app_r in Hx by lia.
        destruct (i - length l1)%nat as [|[|k]]; simplify_eq/=.
        unfold is_sp in Hsp. rewrite Hh in Hsp. done. }
      assert (take i (stmts d) = take i l1) as Et by (rewrite E; apply take_app_le; lia).
      assert (drop (S i) (stmts d) = drop (S i) l1 ++ [s; h]) as Ed by (rewrite E; apply drop_app_le; lia).
      assert (l1 !! i = Some x) as Hx1 by (by rewrite E, lookup_app_l in Hx).
      pose proof (eq_sym (take_drop_middle _ _ _ Hx1)) as Es. rewrite Es in Hf |- *. rewrite <- app_assoc. simpl.
      rewrite Forall_app, Forall_cons in Hf. destruct Hf as (Hf1 & _ & Hf2).
      eapply chain_check with (c := c); [exact Hbn|by rewrite (Horg _ _ Hd)|simpl; by rewrite (take_S_r _ _ _ Hx), <- app_assoc, Et| |set_solver|done|lia|lia|done|done|done|exact Hcn|done|].
      * apply split_not_in; [done|]. by rewrite <- Et.
      * assert (exists d'', arena_get (blocks ir') c0 = Some d'' /\ parameters d'' = []) as (d'' & Hd'' & Hp'').
        { destruct (decide (c0 = b)) as [->|]; [|exists d'; split; [by apply split_kept|done]].
          simplify_eq. eexists. split; [exact Hbn|done]. }
        eapply chain_check with (c := c0); [exact Hcn|rewrite lookup_insert_eq; congruence| | |set_solver|by apply split_stmt|done|done|done|by eapply sp_leave|done|exact Hd''|done|done].
        -- simpl. by rewrite Ed.
        -- apply split_not_in; [done|]. rewrite Ed in Hdr. set_solver.
    + assert (exists d'', arena_get (blocks ir') c0 = Some d'' /\ parameters d'' = []) as (d'' & Hd'' & Hp'').
      { destruct (decide (c0 = b)) as [->|]; [|exists d'; split; [by apply split_kept|done]].
        simplify_eq. eexists. split; [exact Hbn|done]. }
      eapply chain_check with (c := c0); [by apply split_kept|by rewrite (Horg _ _ Hd0)|done| |set_solver|by apply split_stmt|done|done|done|by eapply sp_leave|done|exact Hd''|done|done].
      apply split_not_in; [done|]. pose proof (split_elsewhere _ _ Hb0 Hd0) as Hn. rewrite E in Hn. set_solver.
Qed.
End Split.
End Inv.

(** ** The pending edges *)

Definition pending_state (o : ArenaMap (gmap Block HaltState)) (from to : Block) : option HaltState :=
  m ← map_get o from; m !! to.

(** The reverse map lists exactly the edges of the forward map. *)
Definition edges_consistent (m : HaltStateMap) : Prop :=
  forall from to, (exists S, map_get (incoming_edges m) to = Some S /\ from ∈ S) <->
    is_Some (pending_state (outgoing_edges m) from to).

Section Edges.
Context (hash_order : gset Block -> list Block) (Hhash : forall s, hash_order s ≡ₚ elements s).

Lemma elem_of_hash_order s x : x ∈ hash_order s <-> x ∈ s.
Proof. by rewrite Hhash, elem_of_elements. Qed.

Lemma NoDup_hash_order s : NoDup (hash_order s).
Proof. rewrite Hhash. apply NoDup_elements. Qed.

Lemma redirect_loop b c l m :
  NoDup l -> b <> c ->
  (forall to, to ∈ l -> exists S, map_get (incoming_edges m) to = Some S /\ b ∈ S /\ c ∉ S) ->
  exists m', sm_for l (redirect b c) m = Some (tt, m') /\ outgoing_edges m' = outgoing_edges m /\
    forall to, map_get (incoming_edges m') to =
      if decide (to ∈ l) then (fun S : gset Block => {[c]} ∪ S ∖ {[b]}) <$> map_get (incoming_edges m) to
      else map_get (incoming_edges m) to.
Proof.
  intros Hnd Hbc. revert m. induction Hnd as [|to l Hto Hnd IH]; intros m Hm.
  { exists m. split_and!; [done..|]. intros to. by rewrite decide_False by set_solver. }
  destruct (Hm to) as (S & HS & Hb & Hc); [by left|].
  set (m1 := mkHaltStateMap (outgoing_edges m)
    (snd (map_insert to ({[c]} ∪ S ∖ {[b]}) (incoming_edges m)))).
  assert (forall k, map_get (incoming_edges m1) k =
    if decide (k = to) then Some ({[c]} ∪ S ∖ {[b]}) else map_get (incoming_edges m) k) as H1.
  { intros k. unfold m1; cbn [incoming_edges]. apply map_get_insert. }
  destruct (IH m1) as (m' & E & Ho & Hi).
  { intros k Hk. rewrite H1, decide_False by (by intros ->). apply Hm. by right. }
  exists m'. split_and!; [|by rewrite Ho|].
  - erewrite sm_for_run; [done|]. unfold redirect. rewrite HS. cbn [mbind option_bind].
    rewrite decide_True by set_solver. done.
  - intros k. rewrite Hi, H1. destruct (decide (k = to)) as [->|Hk].
    + rewrite decide_False by done. rewrite decide_True by by left. by rewrite HS.
    + repeat case_decide; try done; set_solver.
Qed.

Lemma remap_edges_spec b c m :
  edges_consistent m -> map_get (outgoing_edges m) c = None -> b <> c ->
  exists m', remap_edges hash_order b c m = Some (tt, m') /\ edges_consistent m' /\
    (forall from to, pending_state (outgoing_edges m') from to =
      if decide (from = c) then pending_state (outgoing_edges m) b to
      else if decide (from = b) then None else pending_state (outgoing_edges m) from to) /\
    forall from, is_Some (map_get (outgoing_edges m') from) ->
      from = c \/ is_Some (map_get (outgoing_edges m) from).
Proof.
  intros Hm Hc Hbc. unfold remap_edges. unfold edges_consistent in Hm.
  destruct (map_remove_spec (outgoing_edges m) b) as (o1 & -> & H1).
  destruct (map_get (outgoing_edges m) b) as [edges|] eqn:Hb.
  - assert (forall to, map_get (outgoing_edges m) c ≫= (fun e : gmap Block HaltState => e !! to) = None) as Hcn by by rewrite Hc.
    destruct (redirect_loop b c (hash_order (dom edges)) (mkHaltStateMap o1 (incoming_edges m)))
      as (m2 & E2 & Ho2 & Hi2); [apply NoDup_hash_order|done| |].
    { intros to Hto. rewrite elem_of_hash_order in Hto. apply elem_of_dom in Hto.
      destruct (proj2 (Hm b to)) as (S & HS & HbS).
      { unfold pending_state. by rewrite Hb. }
      exists S. split_and!; [done..|]. intros HcS. destruct (proj1 (Hm c to)) as [st Hst]; [by exists S|].
      unfold pending_state in Hst. by rewrite Hcn in Hst. }
    assert (map_get (outgoing_edges m2) c = None) as Hc2.
    { rewrite Ho2. cbn [outgoing_edges]. by rewrite H1, decide_False by done. }
    destruct (map_insert_unique_new (outgoing_edges m2) c edges Hc2) as (o3 & E3 & H3).
    exists (mkHaltStateMap o3 (incoming_edges m2)).
    assert (forall from to, pending_state o3 from to =
      if decide (from = c) then pending_state (outgoing_edges m) b to
      else if decide (from = b) then None else pending_state (outgoing_edges m) from to) as Hp.
    { intros from to. unfold pending_state. rewrite H3, Ho2. cbn [outgoing_edges]. rewrite H1, Hb.
      repeat case_decide; by subst. }
    split_and!; [|intros from to|done|].
    + erewrite sm_bind_run; [|done]. by rewrite E3.
    + cbn [incoming_edges outgoing_edges]. rewrite Hp, Hi2. cbn [incoming_edges].
      assert (pending_state (outgoing_edges m) b to = edges !! to) as Hbt by (unfold pending_state; by rewrite Hb).
      assert (pending_state (outgoing_edges m) c to = None) as Hct by apply Hcn.
      destruct (decide (to ∈ hash_order (dom edges))) as [Hto|Hto].
      * rewrite elem_of_hash_order in Hto. apply elem_of_dom in Hto.
        destruct (proj2 (Hm b to)) as (S & HS & HbS); [by rewrite Hbt|]. rewrite HS. simpl.
        assert ((exists S0, Some ({[c]} ∪ S ∖ {[b]}) = Some S0 /\ from ∈ S0) <-> from ∈ {[c]} ∪ S ∖ {[b]}) as ->.
        { split; [intros (? & [= <-] & ?); done|eauto]. }
        rewrite Hbt. destruct (decide (from = c)) as [->|]; [split; [done|set_solver]|].
        destruct (decide (from = b)) as [->|]; [split; [set_solver|by intros [? ?]]|].
        rewrite <- Hm, HS. split; [intros ?; exists S; set_solver|intros (? & [= <-] & ?); set_solver].
      * rewrite elem_of_hash_order, not_elem_of_dom in Hto. rewrite Hm.
        destruct (decide (from = c)) as [->|]; [by rewrite Hct, Hbt, Hto|].
        destruct (decide (from = b)) as [->|]; [by rewrite Hbt, Hto|done].
    + intros from. cbn [outgoing_edges]. rewrite H3, Ho2. cbn [outgoing_edges]. rewrite H1.
      repeat case_decide; [by left|by intros [? ?]|by right].
  - exists (mkHaltStateMap o1 (incoming_edges m)).
    assert (forall from, map_get o1 from = map_get (outgoing_edges m) from) as Ho.
    { intros from. rewrite H1. case_decide; by subst. }
    assert (forall from to, pending_state o1 from to = pending_state (outgoing_edges m) from to) as Hp.
    { intros from to. unfold pending_state. by rewrite Ho. }
    assert (forall to, pending_state (outgoing_edges m) b to = None) as Hbn by (intros; unfold pending_state; by rewrite Hb).
    split_and!; [done| | |].
    + intros from to. cbn [incoming_edges outgoing_edges]. rewrite Hp. apply Hm.
    + intros from to. cbn [outgoing_edges]. rewrite Hp. repeat case_decide; subst; [|by rewrite Hbn|done].
      unfold pending_state. by rewrite Hc, Hb.
    + intros from. cbn [outgoing_edges]. rewrite Ho. by right.
Qed.
End Edges.

(** ** The positions of the safepoints *)

Lemma safepoints_from_spec ir i l :
  (forall s, s ∈ l -> is_Some (arena_get (all_stmts ir) s)) ->
  exists r, safepoints_from ir i l = Some r /\ NoDup r /\
    forall j s, (j, s) ∈ r <-> exists k, j = (i + k)%nat /\ l !! k = Some s /\ is_sp ir s = true.
Proof.
  revert i. induction l as [|x l IH]; intros i Hl; simpl.
  { exists []. split_and!; [done|constructor|]. intros j s. split; [by intros ?%elem_of_nil|by intros (? & _ & ? & _)]. }
  destruct (Hl x) as [d Hd]; [by left|]. rewrite Hd. cbn [mbind option_bind].
  destruct (IH (S i)) as (r & -> & Hnd & Hr); [intros; apply Hl; by right|]. cbn [mbind option_bind].
  assert (is_sp ir x = is_safepoint (rvalue d)) as Hsp by (unfold is_sp; by rewrite Hd).
  eexists. split; [done|]. split.
  - destruct (is_safepoint (rvalue d)); [|done]. constructor; [|done]. rewrite Hr. intros (k & ? & _). lia.
  - intros j s. assert ((j, s) ∈ r <-> exists k, j = (i + S k)%nat /\ l !! k = Some s /\ is_sp ir s = true) as Hr'.
    { rewrite (Hr j s). split; intros (k & -> & ?); exists k; (split; [lia|done]). }
    split.
    + intros Hin. destruct (is_safepoint (rvalue d)) eqn:Es.
      * apply elem_of_cons in Hin as [[= -> ->]|Hin]; [exists 0%nat; split_and!; [lia|done|congruence]|].
        apply Hr' in Hin as (k & ? & ?). by exists (S k).
      * apply Hr' in Hin as (k & ? & ?). by exists (S k).
    + intros ([|k] & -> & Hk & Hs); simplify_eq/=.
      * rewrite Hsp in Hs. rewrite Hs, Nat.add_0_r. by left.
      * assert ((i + S k, s)%nat ∈ r) by (apply Hr'; eauto). destruct (is_safepoint _); [by right|done].
Qed.

(** A loop that writes each of its keys once. *)
Lemma write_loop {V} (body : nat * Stmt -> SM (gmap Stmt V) unit) (v : nat -> V) r (x : gmap Stmt V) :
  NoDup r.*2 ->
  (forall j y (x0 : gmap Stmt V), (j, y) ∈ r -> x0 !! y = x !! y -> body (j, y) x0 = Some (tt, <[y := v j]> x0)) ->
  exists x', sm_for r body x = Some (tt, x') /\
    (forall j y, (j, y) ∈ r -> x' !! y = Some (v j)) /\ forall y, y ∉ r.*2 -> x' !! y = x !! y.
Proof.
  revert x. induction r as [|[j y] r IH]; intros x Hnd Hx.
  { exists x. split_and!; [done| |done]. by intros j y ?%elem_of_nil. }
  simpl in Hnd. apply NoDup_cons in Hnd as [Hy Hnd].
  assert (forall j' y', (j', y') ∈ r -> y' <> y) as Hne.
  { intros j' y' Hin ->. apply Hy, list_elem_of_fmap. by exists (j', y). }
  destruct (IH (<[y := v j]> x)) as (x' & E & Hr & Ho); [done| |].
  { intros j' y' x0 Hin Hx0. apply Hx; [by right|].
    by rewrite Hx0, lookup_insert_ne by (intros <-; by apply (Hne _ _ Hin)). }
  exists x'. split_and!.
  - erewrite sm_for_run; [done|]. apply Hx; [by left|done].
  - intros j' y' [[= -> ->]|Hin]%elem_of_cons; [|by apply Hr]. by rewrite Ho, lookup_insert_eq.
  - intros y' Hy'. simpl in Hy'. apply not_elem_of_cons in Hy' as [? ?]. by rewrite Ho, lookup_insert_ne.
Qed.

Lemma move_loop b c idx r x :
  NoDup r.*2 -> (forall j s, (j, s) ∈ r -> exists j0, x !! s = Some (b, j0) /\ (idx < j0)%nat) ->
  exists x', sm_for r (fun '(i, stmt) => record_moved b c idx i stmt) x = Some (tt, x') /\
    (forall j s, (j, s) ∈ r -> x' !! s = Some (c, j)) /\ forall s, s ∉ r.*2 -> x' !! s = x !! s.
Proof.
  intros Hnd Hx. apply (write_loop _ (fun j => (c, j))); [done|]. intros j y x0 Hin Hx0.
  destruct (Hx j y Hin) as (j0 & Hj0 & ?). unfold record_moved. by rewrite Hx0, Hj0, decide_True.
Qed.

Lemma new_loop b r x :
  NoDup r.*2 -> (forall j s, (j, s) ∈ r -> x !! s = None) ->
  exists x', sm_for r (fun '(i, stmt) => record_new b i stmt) x = Some (tt, x') /\
    (forall j s, (j, s) ∈ r -> x' !! s = Some (b, j)) /\ forall s, s ∉ r.*2 -> x' !! s = x !! s.
Proof.
  intros Hnd Hx. apply (write_loop _ (fun j => (b, j))); [done|]. intros j y x0 Hin Hx0.
  unfold record_new. by rewrite Hx0, (Hx j y Hin).
Qed.

(** ** The invariant *)

Lemma is_sp_extend ir0 ir tl x :
  all_stmts ir = all_stmts ir0 ++ tl -> Forall (fun d => is_safepoint (rvalue d) = false) tl ->
  is_sp ir x = is_sp ir0 x.
Proof.
  intros E Hf. unfold is_sp, arena_get. rewrite E.
  destruct (decide (get x < length (all_stmts ir0))%nat) as [Hl|Hl]; [by rewrite lookup_app_l|].
  rewrite lookup_app_r, (lookup_ge_None_2 (all_stmts ir0)) by lia.
  destruct (tl !! _) eqn:Ht; [|done]. by eapply (Forall_lookup_1 _ _ _ _ Hf) in Ht.
Qed.

Section Invariant.
Context (ir0 : ExecIrBuilder).

Definition last_of (ir : ExecIrBuilder) (org : gmap Block Block) (K : gset Stmt) (u b : Block) : Prop :=
  exists d, arena_get (blocks ir0) u = Some d /\ chain ir0 ir org K u u (stmts d) (terminator d) b.

(** The safepoints of the original. *)
Definition sp_set : gset Stmt :=
  list_to_set (filter (fun s => is_sp ir0 s = true) (handles (length (all_stmts ir0)))).

Lemma elem_of_sp_set s : s ∈ sp_set <-> is_sp ir0 s = true.
Proof.
  unfold sp_set. rewrite elem_of_list_to_set, list_elem_of_filter, elem_of_handles. split; [tauto|].
  intros Hs. split; [done|]. unfold is_sp, arena_get in Hs.
  destruct (all_stmts ir0 !! get s) eqn:E; [|done]. by apply lookup_lt_Some in E.
Qed.

(** Room for a check after every safepoint. *)
Definition pass_room : Prop := ir_room (size sp_set + 4) ir0.

(** One check inserted. *)
Definition check_inserted (ir ir' : ExecIrBuilder) : Prop :=
  exists b c i d x, arena_get (blocks ir) b = Some d /\ stmts d !! i = Some x /\ is_split ir ir' b c i d.

Record Inv (org : gmap Block Block) (K : gset Stmt) (G : gmap (Block * Block) HaltState)
    (s : HaltCheckInserter) : Prop := {
  iv_values : exists tl, ssa_values (inserter_ir s) = ssa_values ir0 ++ tl;
  iv_stmts : exists tl, all_stmts (inserter_ir s) = all_stmts ir0 ++ tl /\
    Forall (fun d => is_safepoint (rvalue d) = false) tl;
  iv_chain : forall u d, arena_get (blocks ir0) u = Some d ->
    exists last d', chain ir0 (inserter_ir s) org K u u (stmts d) (terminator d) last /\
      arena_get (blocks (inserter_ir s)) u = Some d' /\ parameters d' = parameters d;
  iv_org : forall b u, org !! b = Some u -> (get b < length (blocks (inserter_ir s)))%nat;
  iv_pieces : forall b d x, arena_get (blocks (inserter_ir s)) b = Some d -> x ∈ stmts d ->
    is_sp ir0 x = true -> is_Some (org !! b);
  iv_leave : leave_ok (inserter_ir s);
  iv_terminated : forall b d, arena_get (blocks (inserter_ir s)) b = Some d -> terminated d = true;
  iv_checked : forall x, x ∈ K -> is_sp ir0 x = true;
  iv_stmts_ok : stmts_ok (inserter_ir s);
  iv_positions : forall x b i, safepoint_stmt_to_block_and_index s !! x = Some (b, i) <->
    is_sp ir0 x = true /\ exists d, arena_get (blocks (inserter_ir s)) b = Some d /\ stmts d !! i = Some x;
  iv_edges : edges_consistent (state_map s);
  iv_states : forall b v st, pending_state (outgoing_edges (state_map s)) b v = Some st <->
    exists u, G !! (u, v) = Some st /\ last_of (inserter_ir s) org K u b;
  iv_origin : forall u v st, G !! (u, v) = Some st -> is_Some (arena_get (blocks ir0) u);
  iv_outgoing : forall b, is_Some (map_get (outgoing_edges (state_map s)) b) ->
    (get b < length (blocks (inserter_ir s)))%nat;
  iv_room : let ir := inserter_ir s in
    (length (blocks ir) + leave_cost ir <= length (blocks ir0) + size K + 1)%nat /\
    (length (ssa_values ir) + leave_cost ir <= length (ssa_values ir0) + size K + 1)%nat /\
    (length (all_stmts ir) + leave_cost ir <= length (all_stmts ir0) + size K + 1)%nat;
  iv_config : current_block (inserter_ir s) = current_block ir0 /\
    halt_check_every (inserter_ir s) = halt_check_every ir0;
  iv_path : rtc check_inserted ir0 (inserter_ir s);
}.

Section Facts.
Context (org : gmap Block Block) (K : gset Stmt) (G : gmap (Block * Block) HaltState)
  (s : HaltCheckInserter) (I : Inv org K G s).

Lemma iv_is_sp x : is_sp (inserter_ir s) x = is_sp ir0 x.
Proof. destruct (iv_stmts _ _ _ _ I) as (tl & E & Hf). by eapply is_sp_extend. Qed.

Lemma last_of_inj u u' b :
  last_of (inserter_ir s) org K u b -> last_of (inserter_ir s) org K u' b -> u = u'.
Proof. intros (d & _ & [H _]%chain_last) (d' & _ & [H' _]%chain_last). congruence. Qed.

Lemma last_of_det u b b' :
  last_of (inserter_ir s) org K u b -> last_of (inserter_ir s) org K u b' -> b = b'.
Proof. intros (d & Hd & H) (d' & Hd' & H'). simplify_eq. by eapply chain_det. Qed.

Lemma last_of_exists u d :
  arena_get (blocks ir0) u = Some d -> exists b, last_of (inserter_ir s) org K u b.
Proof. intros Hd. destruct (iv_chain _ _ _ _ I u d Hd) as (b & _ & H & _). exists b, d. done. Qed.

Lemma position_unique x b d i b' d' i' :
  is_sp ir0 x = true ->
  arena_get (blocks (inserter_ir s)) b = Some d -> stmts d !! i = Some x ->
  arena_get (blocks (inserter_ir s)) b' = Some d' -> stmts d' !! i' = Some x -> b' = b /\ i' = i.
Proof.
  intros Hx Hd Hi Hd' Hi'.
  assert (safepoint_stmt_to_block_and_index s !! x = Some (b, i)) as H1 by (apply (iv_positions _ _ _ _ I); eauto).
  assert (safepoint_stmt_to_block_and_index s !! x = Some (b', i')) as H2 by (apply (iv_positions _ _ _ _ I); eauto).
  rewrite H1 in H2. by injection H2.
Qed.
End Facts.
End Invariant.

(** ** A split keeps the invariant *)

Section Insertion.
Context (ir0 : ExecIrBuilder) (hash_order : gset Block -> list Block)
  (Hhash : forall s, hash_order s ≡ₚ elements s) (Hroom : pass_room ir0).

Abbreviation Inv := (Inv ir0).

Lemma unchecked_room (K : gset Stmt) x :
  (forall y, y ∈ K -> is_sp ir0 y = true) -> is_sp ir0 x = true -> x ∉ K ->
  (size K < size (sp_set ir0))%nat /\ size ({[x]} ∪ K) = S (size K).
Proof.
  intros HK Hx Hn. assert (size ({[x]} ∪ K) = S (size K)) as E.
  { rewrite size_union by set_solver. by rewrite size_singleton. }
  split; [|done]. assert (size ({[x]} ∪ K) <= size (sp_set ir0))%nat; [|lia].
  apply subseteq_size. intros y Hy. apply elem_of_sp_set. set_solver.
Qed.

Section One.
Context (org : gmap Block Block) (K : gset Stmt) (G : gmap (Block * Block) HaltState)
  (s : HaltCheckInserter) (I : Inv org K G s).
Context (x : Stmt) (b : Block) (i : nat) (Hx : safepoint_stmt_to_block_and_index s !! x = Some (b, i))
  (HxK : x ∉ K).
Context (c : Block) (ir' : ExecIrBuilder) (d : BlockData) (ub : Block).
Context (Hsplit : is_split (inserter_ir s) ir' b c i d)
  (Hd : arena_get (blocks (inserter_ir s)) b = Some d) (Hi : stmts d !! i = Some x)
  (Hub : org !! b = Some ub) (Hsp : is_sp ir0 x = true).

Lemma one_stmts : exists tl, all_stmts ir' = all_stmts ir0 ++ tl /\
  Forall (fun d => is_safepoint (rvalue d) = false) tl.
Proof.
  destruct (iv_stmts _ _ _ _ _ I) as (tl & E & Hf).
  destruct (sp_stmts _ _ _ _ _ _ Hsplit) as (tl' & E' & _ & Hf').
  exists (tl ++ tl'). rewrite E', E, app_assoc. split; [done|]. by apply Forall_app.
Qed.

Lemma one_grows :
  (length (all_stmts ir0) <= length (all_stmts (inserter_ir s)))%nat /\
  (length (ssa_values ir0) <= length (ssa_values (inserter_ir s)))%nat.
Proof.
  destruct (iv_stmts _ _ _ _ _ I) as (tl & -> & _). destruct (iv_values _ _ _ _ _ I) as (tl' & ->).
  rewrite !length_app. lia.
Qed.

Lemma one_once b' d' j :
  arena_get (blocks (inserter_ir s)) b' = Some d' -> stmts d' !! j = Some x -> b' = b /\ j = i.
Proof. intros Hb' Hj. by eapply (position_unique ir0 org K G s I x). Qed.

Lemma one_chain u b0 l t last :
  chain ir0 (inserter_ir s) org K u b0 l t last ->
  chain ir0 ir' (<[c := ub]> org) ({[x]} ∪ K) u b0 l t (if decide (last = b) then c else last).
Proof.
  destruct one_grows as [? ?]. eapply chain_split; try done; [by apply one_once|].
  by rewrite (iv_is_sp ir0 org K G s I).
Qed.

Lemma one_fresh : get c = length (blocks (inserter_ir s)).
Proof. apply Hsplit. Qed.

Lemma one_last u b' :
  last_of ir0 ir' (<[c := ub]> org) ({[x]} ∪ K) u b' <->
  exists b0, last_of ir0 (inserter_ir s) org K u b0 /\ b' = if decide (b0 = b) then c else b0.
Proof.
  split.
  - intros (d0 & Hd0 & H). destruct (iv_chain _ _ _ _ _ I u d0 Hd0) as (b0 & _ & H0 & _).
    exists b0. split; [by exists d0|]. apply one_chain in H0. by eapply chain_det.
  - intros (b0 & (d0 & Hd0 & H0) & ->). exists d0. split; [done|]. by apply one_chain.
Qed.

Lemma one_old_block u b0 : last_of ir0 (inserter_ir s) org K u b0 -> b0 <> c.
Proof.
  intros (d0 & _ & (_ & dl & _ & Hdl%lookup_lt_Some & _)%chain_last) ->. pose proof one_fresh. lia.
Qed.

(** Every block of the new IR: its statements come from the old block, or are the
    leaving block's. *)
Lemma one_block b' d' :
  arena_get (blocks ir') b' = Some d' ->
  (b' = b /\ exists h, stmts d' = take (S i) (stmts d) ++ [h] /\ is_sp ir0 h = false /\
      is_Some (arena_get (all_stmts ir') h)) \/
  (b' = c /\ stmts d' = drop (S i) (stmts d)) \/
  (b' <> b /\ b' <> c /\ arena_get (blocks (inserter_ir s)) b' = Some d') \/
  (b' <> b /\ b' <> c /\ (length (blocks (inserter_ir s)) <= get b')%nat /\
    exists h, stmts d' = [h] /\ is_sp ir0 h = false /\ is_Some (arena_get (all_stmts ir') h)).
Proof.
  intros Hb'. destruct one_stmts as (tl & Etl & Hf).
  assert (forall h sd, arena_get (all_stmts ir') h = Some sd -> is_safepoint (rvalue sd) = false -> is_sp ir0 h = false) as Hns.
  { intros h sd Hh Hsd. unfold is_sp. destruct (arena_get (all_stmts ir0) h) as [sd0|] eqn:E; [|done].
    unfold arena_get in *. rewrite Etl in Hh. rewrite (lookup_app_l_Some _ _ _ _ E) in Hh. by simplify_eq. }
  destruct (decide (b' = b)) as [->|Hbb].
  - left. split; [done|]. destruct (sp_check _ _ _ _ _ _ Hsplit) as (lv & h & v & _ & _ & Hh & _ & _ & _ & Hb).
    rewrite Hb in Hb'. injection Hb' as <-. exists h. split_and!; [done|by eapply Hns|by eexists].
  - destruct (decide (b' = c)) as [->|Hbc].
    + right. left. split; [done|]. rewrite (sp_cont _ _ _ _ _ _ Hsplit) in Hb'. by injection Hb' as <-.
    + right. right. destruct (sp_new _ _ _ _ _ _ Hsplit b' d' Hb') as [Hl|[?|(Hlen & Hn & Hlv)]]; [left|done|right].
      * rewrite (sp_old _ _ _ _ _ _ Hsplit) in Hb' by done. done.
      * destruct (sp_leave_ok _ _ _ _ _ _ Hsplit b' Hlv) as (_ & dl & h & v & Hdl & _ & Hst & Hh & _).
        rewrite Hb' in Hdl. injection Hdl as <-. split_and!; [done..|].
        exists h. split_and!; [done|by eapply Hns|by eexists].
Qed.

(** The safepoints' new positions. *)
Section Positions.
Context (r : list (nat * Stmt)) (x' : gmap Stmt (Block * nat)).
Context (Hr : forall j y, (j, y) ∈ r <-> drop (S i) (stmts d) !! j = Some y /\ is_sp ir0 y = true).
Context (Hx1 : forall j y, (j, y) ∈ r -> x' !! y = Some (c, j)).
Context (Hx2 : forall y, y ∉ r.*2 -> x' !! y = safepoint_stmt_to_block_and_index s !! y).

Lemma moved_index j y : (j, y) ∈ r -> safepoint_stmt_to_block_and_index s !! y = Some (b, S i + j)%nat.
Proof.
  intros [Hj Hy]%Hr. apply (iv_positions _ _ _ _ _ I). split; [done|]. exists d. by rewrite lookup_drop in Hj.
Qed.

Lemma not_moved y b0 d0 j :
  is_sp ir0 y = true -> arena_get (blocks (inserter_ir s)) b0 = Some d0 -> stmts d0 !! j = Some y ->
  (b0 <> b \/ (j <= i)%nat) -> x' !! y = Some (b0, j).
Proof.
  intros Hy Hb0 Hj Hne. assert (safepoint_stmt_to_block_and_index s !! y = Some (b0, j)) as E.
  { apply (iv_positions _ _ _ _ _ I). eauto. }
  rewrite Hx2; [done|]. intros ([j0 y0] & -> & Hin)%list_elem_of_fmap. simpl in *.
  apply moved_index in Hin. rewrite Hin in E. injection E as <- <-. destruct Hne; [done|lia].
Qed.

Lemma one_positions y b' j :
  x' !! y = Some (b', j) <->
  is_sp ir0 y = true /\ exists d', arena_get (blocks ir') b' = Some d' /\ stmts d' !! j = Some y.
Proof.
  split.
  - intros E. destruct (decide (y ∈ r.*2)) as [Hin|Hin].
    + apply list_elem_of_fmap in Hin as ([j0 y0] & -> & Hin). simpl in *. pose proof (Hx1 _ _ Hin) as E1.
      rewrite E in E1. injection E1 as -> ->. apply Hr in Hin as [? ?]. split; [done|].
      eexists. split; [apply Hsplit|done].
    + rewrite Hx2 in E by done. apply (iv_positions _ _ _ _ _ I) in E as (Hy & d0 & Hd0 & Hj). split; [done|].
      destruct (decide (b' = b)) as [->|Hbb].
      * rewrite Hd in Hd0. injection Hd0 as <-.
        destruct (sp_check _ _ _ _ _ _ Hsplit) as (lv & h & v & _ & _ & _ & _ & _ & _ & Hb).
        eexists. split; [exact Hb|]. simpl. apply lookup_app_l_Some. apply lookup_take_Some. split; [done|].
        destruct (decide (j < S i)%nat) as [|Hge]; [done|exfalso]. apply Hin, list_elem_of_fmap.
        exists ((j - S i)%nat, y). split; [done|]. apply Hr. split; [|done]. rewrite lookup_drop.
        by replace (S i + (j - S i))%nat with j by lia.
      * exists d0. split; [|done]. by rewrite (sp_old _ _ _ _ _ _ Hsplit) by (done || by eapply lookup_lt_Some).
  - intros (Hy & d' & Hd' & Hj).
    destruct (one_block b' d' Hd') as [(-> & h & Est & Hh & _)|[(-> & Est)|[(? & ? & Hold)|(_ & _ & _ & h & Est & Hh & _)]]].
    + rewrite Est in Hj. apply lookup_app_Some in Hj as [Hj|[_ Hj]].
      * apply lookup_take_Some in Hj as [Hj ?]. eapply not_moved; [done|exact Hd|done|]. right. lia.
      * apply list_lookup_singleton_Some in Hj as [_ <-]. congruence.
    + apply Hx1, Hr. by rewrite <- Est.
    + eapply not_moved; [done..|]. by left.
    + rewrite Est in Hj. apply list_lookup_singleton_Some in Hj as [_ <-]. congruence.
Qed.
End Positions.

Section Rebuild.
Context (x' : gmap Stmt (Block * nat)) (m' : HaltStateMap) (reset : gset Stmt).
Context (Hpos : forall y b' j, x' !! y = Some (b', j) <->
  is_sp ir0 y = true /\ exists d', arena_get (blocks ir') b' = Some d' /\ stmts d' !! j = Some y).
Context (Hcons : edges_consistent m') (Hpend : forall from to, pending_state (outgoing_edges m') from to =
  if decide (from = c) then pending_state (outgoing_edges (state_map s)) b to
  else if decide (from = b) then None else pending_state (outgoing_edges (state_map s)) from to).
Context (Hout : forall from, is_Some (map_get (outgoing_edges m') from) ->
  from = c \/ is_Some (map_get (outgoing_edges (state_map s)) from)).

Lemma one_b_c : b <> c.
Proof. intros E. pose proof one_fresh. apply lookup_lt_Some in Hd. rewrite E in Hd. lia. Qed.

Lemma one_stmts_ok : stmts_ok ir'.
Proof.
  intros b' d' y Hd' Hy.
  assert (forall b0 d0, arena_get (blocks (inserter_ir s)) b0 = Some d0 -> y ∈ stmts d0 ->
    is_Some (arena_get (all_stmts ir') y)) as Hold.
  { intros b0 d0 Hd0 Hy0. destruct (iv_stmts_ok _ _ _ _ _ I _ _ _ Hd0 Hy0) as [sd Hsd].
    exists sd. by eapply split_stmt. }
  destruct (one_block b' d' Hd') as [(-> & h & Est & _ & Hh)|[(-> & Est)|[(? & ? & H)|(_ & _ & _ & h & Est & _ & Hh)]]].
  - rewrite Est in Hy. apply elem_of_app in Hy as [Hy| ->%list_elem_of_singleton]; [|done].
    apply (Hold b d Hd). apply elem_of_take in Hy as (k & Hk & _). by eapply list_elem_of_lookup_2.
  - rewrite Est in Hy. apply (Hold b d Hd). apply list_elem_of_lookup in Hy as [k Hk]. rewrite lookup_drop in Hk. by eapply list_elem_of_lookup_2.
  - by eapply Hold.
  - rewrite Est in Hy. by apply list_elem_of_singleton in Hy as ->.
Qed.

Lemma one_pieces b' d' y :
  arena_get (blocks ir') b' = Some d' -> y ∈ stmts d' -> is_sp ir0 y = true -> is_Some (<[c := ub]> org !! b').
Proof.
  intros Hd' Hy Hys. destruct (one_block b' d' Hd') as [(-> & _)|[(-> & _)|[(? & ? & H)|(_ & _ & _ & h & Est & Hh & _)]]].
  - rewrite lookup_insert_ne by (symmetry; apply one_b_c). by eexists.
  - rewrite lookup_insert_eq. by eexists.
  - rewrite lookup_insert_ne by done. by eapply iv_pieces.
  - rewrite Est in Hy. apply list_elem_of_singleton in Hy as ->. congruence.
Qed.

Lemma one_states b' v st :
  pending_state (outgoing_edges m') b' v = Some st <->
  exists u, G !! (u, v) = Some st /\ last_of ir0 ir' (<[c := ub]> org) ({[x]} ∪ K) u b'.
Proof.
  rewrite Hpend. setoid_rewrite one_last. pose proof one_b_c as Hbc.
  destruct (decide (b' = c)) as [->|]; [|destruct (decide (b' = b)) as [->|]].
  - rewrite (iv_states _ _ _ _ _ I). split; intros (u & HG & Hl); exists u; (split; [done|]).
    + exists b. by rewrite decide_True.
    + destruct Hl as (b0 & Hl & E). case_decide; [by subst|]. by destruct (one_old_block _ _ Hl).
  - split; [done|]. intros (u & _ & b0 & _ & E). case_decide; by subst.
  - rewrite (iv_states _ _ _ _ _ I). split; intros (u & HG & Hl); exists u; (split; [done|]).
    + exists b'. by rewrite decide_False.
    + destruct Hl as (b0 & Hl & ->). by case_decide.
Qed.

Lemma one_terminated b' d' : arena_get (blocks ir') b' = Some d' -> terminated d' = true.
Proof.
  intros Hb'. destruct (sp_new _ _ _ _ _ _ Hsplit b' d' Hb') as [Hl|[->|(_ & _ & Hlv)]].
  - destruct (decide (b' = b)) as [->|Hbb].
    + destruct (sp_check _ _ _ _ _ _ Hsplit) as (lv & h & v & _ & _ & _ & _ & _ & _ & Hb).
      rewrite Hb in Hb'. by injection Hb' as <-.
    + rewrite (sp_old _ _ _ _ _ _ Hsplit) in Hb' by done. by eapply iv_terminated.
  - rewrite (sp_cont _ _ _ _ _ _ Hsplit) in Hb'. injection Hb' as <-. simpl. by eapply iv_terminated.
  - destruct (sp_leave_ok _ _ _ _ _ _ Hsplit b' Hlv) as (_ & dl & h & v & Hdl & _ & _ & _ & _ & ?).
    rewrite Hb' in Hdl. by injection Hdl as ->.
Qed.

Lemma one_inv : Inv (<[c := ub]> org) ({[x]} ∪ K) G (mkInserter ir' x' m' reset).
Proof.
  pose proof one_b_c as Hbc. pose proof one_fresh as Hc. pose proof (sp_blocks _ _ _ _ _ _ Hsplit) as Hlb.
  split; cbn [inserter_ir safepoint_stmt_to_block_and_index state_map semantic_reset_after].
  - destruct (iv_values _ _ _ _ _ I) as (tl & E). destruct (sp_values _ _ _ _ _ _ Hsplit) as (tl' & E' & _).
    exists (tl ++ tl'). by rewrite E', E, app_assoc.
  - apply one_stmts.
  - intros u d0 Hd0. destruct (iv_chain _ _ _ _ _ I u d0 Hd0) as (last & d1 & Hch & Hd1 & Hp).
    eexists. apply one_chain in Hch.
    assert (exists d2, arena_get (blocks ir') u = Some d2 /\ parameters d2 = parameters d1) as (d2 & ? & ?).
    { destruct (decide (u = b)) as [->|]; [|exists d1; split; [by eapply split_kept|done]].
      destruct (sp_check _ _ _ _ _ _ Hsplit) as (lv & h & v & _ & _ & _ & _ & _ & _ & Hb).
      eexists. split; [exact Hb|]. simpl. congruence. }
    exists d2. split_and!; [done..|congruence].
  - intros b' u Ho. destruct (decide (b' = c)) as [->|]; [lia|]. rewrite lookup_insert_ne in Ho by done.
    apply (iv_org _ _ _ _ _ I) in Ho. lia.
  - apply one_pieces.
  - apply Hsplit.
  - apply one_terminated.
  - intros y Hy. apply elem_of_union in Hy as [->%elem_of_singleton|Hy]; [done|]. by eapply iv_checked.
  - apply one_stmts_ok.
  - apply Hpos.
  - done.
  - apply one_states.
  - apply (iv_origin _ _ _ _ _ I).
  - intros b' Hb'. destruct (Hout b' Hb') as [->|Ho]; [lia|]. apply (iv_outgoing _ _ _ _ _ I) in Ho. lia.
  - destruct (iv_room _ _ _ _ _ I) as (H1 & H2 & H3).
    destruct (unchecked_room K x (iv_checked _ _ _ _ _ I) Hsp HxK) as [_ ->].
    destruct (sp_values _ _ _ _ _ _ Hsplit) as (tv & -> & Htv). destruct (sp_stmts _ _ _ _ _ _ Hsplit) as (ts & -> & Hts & _).
    assert (leave_cost ir' = 0%nat) as ->.
    { destruct (sp_check _ _ _ _ _ _ Hsplit) as (lv & h & v & El & _). unfold leave_cost. by rewrite El. }
    rewrite Hlb, !length_app, Htv, Hts. lia.
  - destruct (sp_rest _ _ _ _ _ _ Hsplit) as (-> & -> & _). apply (iv_config _ _ _ _ _ I).
  - eapply rtc_r; [apply (iv_path _ _ _ _ _ I)|]. exists b, c, i, d, x. by split_and!.
Qed.
End Rebuild.
End One.

(** The insertion as a whole. *)
Lemma insert_spec org K G s x b i :
  Inv org K G s -> safepoint_stmt_to_block_and_index s !! x = Some (b, i) -> x ∉ K ->
  exists c s' d ub,
    insert_halt_check_after_safepoint_indexed hash_order b i s = Some (c, s') /\
    Inv (<[c := ub]> org) ({[x]} ∪ K) G s' /\ semantic_reset_after s' = semantic_reset_after s /\
    arena_get (blocks (inserter_ir s)) b = Some d /\ is_split (inserter_ir s) (inserter_ir s') b c i d /\
    forall u b', last_of ir0 (inserter_ir s') (<[c := ub]> org) ({[x]} ∪ K) u b' <->
      exists b0, last_of ir0 (inserter_ir s) org K u b0 /\ b' = if decide (b0 = b) then c else b0.
Proof.
  intros I Hx HxK. destruct (proj1 (iv_positions _ _ _ _ _ I x b i) Hx) as (Hsp & d & Hd & Hi).
  destruct (iv_pieces _ _ _ _ _ I b d x Hd) as [ub Hub]; [by eapply list_elem_of_lookup_2|done|].
  pose proof (iv_is_sp ir0 org K G s I x) as Hsp'. rewrite Hsp in Hsp'.
  destruct (unchecked_room K x (iv_checked _ _ _ _ _ I) Hsp HxK) as [Hsize _].
  destruct (insert_halt_check_at_spec (inserter_ir s) b i d x) as (c & ir' & E & Hsplit); [apply I| | |done|done| |].
  { destruct (iv_room _ _ _ _ _ I) as (R1 & R2 & R3). destruct Hroom as (P1 & P2 & P3).
    assert (leave_cost (inserter_ir s) <= 1)%nat by (unfold leave_cost; destruct (leave_and_take_halt _); lia).
    split_and!; lia. }
  { intros El. destruct (iv_leave _ _ _ _ _ I b El) as (_ & dl & h & v & Hdl & _ & Est & Hh & _).
    rewrite Hd in Hdl. injection Hdl as <-. rewrite Est in Hi. apply list_lookup_singleton_Some in Hi as [_ <-].
    unfold is_sp in Hsp'. by rewrite Hh in Hsp'. }
  { unfold is_sp in Hsp'. destruct (arena_get (all_stmts (inserter_ir s)) x) as [sd|]; [by exists sd|done]. }
  pose proof (one_stmts_ok org K G s I b i c ir' d Hsplit Hd) as Hok'.
  destruct (one_stmts org K G s I b i c ir' d Hsplit) as (tl & Etl & Htl).
  destruct (safepoints_from_spec ir' 0 (drop (S i) (stmts d))) as (r & Er & Hnd & Hr0).
  { intros y Hy. eapply Hok'; [apply Hsplit|done]. }
  assert (forall j y, (j, y) ∈ r <-> drop (S i) (stmts d) !! j = Some y /\ is_sp ir0 y = true) as Hr.
  { intros j y. rewrite Hr0, (is_sp_extend ir0 ir' tl y Etl Htl). split; [by intros (k & -> & ?)|]. by exists j. }
  pose proof (moved_index org K G s I b i d Hd r Hr) as Hmoved.
  destruct (move_loop b c i r (safepoint_stmt_to_block_and_index s)) as (x' & Ex & Hx1 & Hx2).
  { apply NoDup_fmap_2_strong; [|done]. intros [j y] [j' y'] Hj Hj' E2. simpl in E2. subst y'.
    pose proof (Hmoved _ _ Hj) as M1. pose proof (Hmoved _ _ Hj') as M2. rewrite M1 in M2. injection M2 as M2. f_equal. lia. }
  { intros j y Hj. exists (S i + j)%nat. split; [by apply Hmoved|lia]. }
  pose proof (one_b_c s b i c ir' d Hsplit Hd) as Hbc.
  destruct (remap_edges_spec hash_order Hhash b c (state_map s)) as (m' & Em & Hcons & Hpend & Hout); [apply I| |done|].
  { destruct (map_get (outgoing_edges (state_map s)) c) eqn:Ec; [exfalso|done].
    pose proof (iv_outgoing _ _ _ _ _ I c ltac:(by eexists)). rewrite (sp_fresh _ _ _ _ _ _ Hsplit) in *. lia. }
  exists c, (mkInserter ir' x' m' (semantic_reset_after s)), d, ub. split_and!; [| |done..|].
  - unfold insert_halt_check_after_safepoint_indexed.
    erewrite sm_bind_run; [|unfold on_ir; by rewrite E].
    erewrite sm_bind_run.
    2:{ unfold on_ir, block_of, sm_of_option. cbn [inserter_ir]. by rewrite (sp_cont _ _ _ _ _ _ Hsplit). }
    cbn [inserter_ir stmts]. erewrite sm_bind_run; [|unfold sm_of_option; cbn [inserter_ir]; by rewrite Er].
    erewrite sm_bind_run.
    2:{ unfold on_safepoints. cbn [safepoint_stmt_to_block_and_index]. by rewrite Ex. }
    erewrite sm_bind_run; [done|]. unfold on_map. cbn [state_map]. by rewrite Em.
  - eapply one_inv; try done. eapply one_positions; done.
  - intros u b'. cbn [inserter_ir]. eapply one_last; done.
Qed.
End Insertion.

(** ** The start *)

Section Start.
Context (ir : ExecIrBuilder).

(** A safepoint statement stands at one place. *)
Definition sp_once : Prop := forall x b d i b' d' i', is_sp ir x = true ->
  arena_get (blocks ir) b = Some d -> stmts d !! i = Some x ->
  arena_get (blocks ir) b' = Some d' -> stmts d' !! i' = Some x -> b' = b /\ i' = i.

(** What the pass relies on: an IR as the builder makes it. *)
Record ir_wf : Prop := {
  wf_graph : graph_ok ir;
  wf_stmts : stmts_ok ir;
  wf_once : sp_once;
  wf_leave : leave_and_take_halt ir = None;
  wf_terminated : forall b d, arena_get (blocks ir) b = Some d -> terminated d = true;
  wf_entry : is_Some (arena_get (blocks ir) ENTRYPOINT);
  wf_room : pass_room ir;
}.

Context (Hwf : ir_wf).

Lemma positions_loop (L : list (Block * BlockData)) x :
  (forall b d, (b, d) ∈ L -> arena_get (blocks ir) b = Some d) -> NoDup L.*1 ->
  (forall b d y, (b, d) ∈ L -> y ∈ stmts d -> is_sp ir y = true -> x !! y = None) ->
  exists x', sm_for L (fun '(block, data) =>
      let! l := sm_of_option (safepoints_from ir 0 (stmts data)) in
      sm_for l (fun '(i, stmt) => record_new block i stmt)) x = Some (tt, x') /\
    forall y b j, x' !! y = Some (b, j) <-> x !! y = Some (b, j) \/
      is_sp ir y = true /\ exists d, (b, d) ∈ L /\ stmts d !! j = Some y.
Proof.
  revert x. induction L as [|[b d] L IH]; intros x HL Hnd Hx.
  { exists x. split; [done|]. intros y b j. split; [by left|]. by intros [?|(_ & d & ?%elem_of_nil & _)]. }
  simpl in Hnd. apply NoDup_cons in Hnd as [Hb Hnd].
  assert (arena_get (blocks ir) b = Some d) as Hd by (apply HL; by left).
  destruct (safepoints_from_spec ir 0 (stmts d)) as (r & Er & Hndr & Hr).
  { intros y. by apply (wf_stmts Hwf b d). }
  assert (forall j y, (j, y) ∈ r <-> stmts d !! j = Some y /\ is_sp ir y = true) as Hr'.
  { intros j y. rewrite (Hr j y). split; [by intros (k & -> & ?)|]. intros [? ?]. by exists j. }
  destruct (new_loop b r x) as (x1 & E1 & H1 & H1').
  { apply NoDup_fmap_2_strong; [|done]. intros [j y] [j' y'] [? ?]%Hr' [? ?]%Hr' E. simpl in E. subst y'.
    destruct (wf_once Hwf y b d j b d j') as [_ ->]; done. }
  { intros j y [Hj Hy]%Hr'. apply (Hx b d); [by left|by eapply list_elem_of_lookup_2|done]. }
  destruct (IH x1) as (x2 & E2 & H2); [intros; apply HL; by right|done| |].
  { intros b' d' y Hin Hy Hys. rewrite H1'; [eapply Hx; [by right|done..]|].
    intros ([j y0] & -> & [Hj _]%Hr')%list_elem_of_fmap. simpl in *.
    apply list_elem_of_lookup in Hy as [j' Hj'].
    destruct (wf_once Hwf y0 b d j b' d' j') as [-> _]; [done..|apply HL; by right|done|].
    apply Hb, list_elem_of_fmap. by exists (b, d'). }
  exists x2. split.
  - erewrite sm_for_run; [done|]. erewrite sm_bind_run; [exact E1|]. by rewrite Er.
  - intros y b' j. rewrite H2. split.
    + intros [Hx1|(Hy & d' & ? & ?)]; [|right; split; [done|]; exists d'; split; [by right|done]].
      destruct (decide (y ∈ r.*2)) as [([j0 y0] & -> & Hin)%list_elem_of_fmap|Hn].
      * simpl in *. rewrite (H1 _ _ Hin) in Hx1. injection Hx1 as <- <-. apply Hr' in Hin as [? ?].
        right. split; [done|]. exists d. split; [by left|done].
      * rewrite H1' in Hx1 by done. by left.
    + intros [Hxy|(Hy & d' & [[= -> ->]|?]%elem_of_cons & Hj)].
      * left. rewrite H1'; [done|]. intros ([j0 y0] & -> & [Hj0 Hs]%Hr')%list_elem_of_fmap. simpl in *.
        rewrite (Hx b d y0) in Hxy; [done|by left|by eapply list_elem_of_lookup_2|done].
      * left. apply H1, Hr'. done.
      * right. split; [done|]. by exists d'.
Qed.

Definition org0 : gmap Block Block := list_to_map ((fun b => (b, b)) <$> handles (length (blocks ir))).

Lemma org0_lookup b u : org0 !! b = Some u <-> u = b /\ (get b < length (blocks ir))%nat.
Proof.
  unfold org0. rewrite <- elem_of_list_to_map.
  - rewrite list_elem_of_fmap. split.
    + intros (b0 & [= -> ->] & ?%elem_of_handles). done.
    + intros [-> ?]. exists b. by rewrite elem_of_handles.
  - rewrite <- list_fmap_compose. rewrite (list_fmap_ext _ id) by done. rewrite list_fmap_id. apply NoDup_handles.
Qed.

Lemma inserter_new_spec :
  exists s, inserter_new ir = Some s /\ inserter_ir s = ir /\ semantic_reset_after s = ∅ /\
    Inv ir org0 ∅ ∅ s.
Proof.
  pose proof (graph_small _ (wf_graph Hwf)) as Hsmall. unfold inserter_new.
  rewrite arena_keys_spec by (unfold arena_ok, HANDLE_MAX; lia). cbn [mbind option_bind].
  change (Pos.of_succ_nat <$> seq 0 (length (blocks ir))) with (handles (length (blocks ir))).
  destruct (positions_loop (zip (handles (length (blocks ir))) (blocks ir)) ∅) as (x & -> & Hx).
  { intros b d Hin. by apply elem_of_zip_handles in Hin. }
  { rewrite fst_zip by (unfold handles; by rewrite length_fmap, length_seq). apply NoDup_handles. }
  { by intros. }
  cbn [mbind option_bind]. eexists. split; [done|]. split_and!; [done..|].
  assert (forall u d, arena_get (blocks ir) u = Some d -> chain ir ir org0 ∅ u u (stmts d) (terminator d) u) as Hch.
  { intros u d Hd. apply chain_end; [done|apply org0_lookup; split; [done|by eapply lookup_lt_Some]|].
    apply Forall_forall. intros ? _. set_solver. }
  assert (forall c b, map_get (map_with_capacity c : ArenaMap (gmap Block HaltState)) b = None) as Hout.
  { intros. apply map_get_empty. }
  assert (forall c b, map_get (map_with_capacity c : ArenaMap (gset Block)) b = None) as Hin.
  { intros. apply map_get_empty. }
  split; cbn [inserter_ir safepoint_stmt_to_block_and_index state_map semantic_reset_after].
  - exists []. by rewrite app_nil_r.
  - exists []. by rewrite app_nil_r.
  - intros u d Hd. exists u, d. auto.
  - intros b u [_ ?]%org0_lookup. done.
  - intros b d y Hd _ _. exists b. apply org0_lookup. split; [done|]. by eapply lookup_lt_Some.
  - intros lv El. by rewrite (wf_leave Hwf) in El.
  - apply Hwf.
  - set_solver.
  - apply Hwf.
  - intros y b j. rewrite Hx. split.
    + intros [?|(Hy & d & Hin' & ?)]; [done|]. split; [done|]. exists d. split; [|done]. by apply elem_of_zip_handles in Hin'.
    + intros (Hy & d & Hd & ?). right. split; [done|]. exists d. split; [|done]. by apply elem_of_zip_handles.
  - intros from to. unfold halt_state_map_new, pending_state; cbn [outgoing_edges incoming_edges]. rewrite Hin, Hout.
    split; [by intros (? & ? & _)|by intros [? ?]].
  - intros b v st. unfold halt_state_map_new, pending_state; cbn [outgoing_edges]. rewrite Hout.
    split; [done|]. by intros (u & ?%lookup_empty_Some & _).
  - by intros u v st ?%lookup_empty_Some.
  - intros b. unfold halt_state_map_new; cbn [outgoing_edges]. rewrite Hout. by intros [? ?].
  - unfold leave_cost. rewrite (wf_leave Hwf). rewrite size_empty. lia.
  - done.
  - apply rtc_refl.
Qed.
End Start.
