(* ===== verification/HaltProcess.v ===== *)
(** * Processing one block

    What a halter decides about a block's safepoints is a function of their
    sequence ([scan]); the loop that splits the block carries exactly those
    decisions out, and ends on the block's last piece.  Then the pending edges:
    adding an edge behind a processed block and draining the edges into a block, as
    operations on the ghost map from original edges to states. *)

From S2P Require Import Prelude Arena Ir Tarjan SccGraph HaltCheck IrLogic HaltSplit HaltInv.
Local Open Scope emu_scope.

(** The safepoints among some statements. *)
Definition sps (ir : ExecIrBuilder) (l : list Stmt) : list Stmt := filter (fun s => is_sp ir s = true) l.

Lemma elem_of_sps ir l s : s ∈ sps ir l <-> is_sp ir s = true /\ s ∈ l.
Proof. unfold sps. by rewrite list_elem_of_filter. Qed.

Lemma sps_app ir l1 l2 : sps ir (l1 ++ l2) = sps ir l1 ++ sps ir l2.
Proof. apply filter_app. Qed.

Section Scan.
Context {H : Type} `{BlockHalter H}.

(** The safepoints after which the halter asks for a check. *)
Fixpoint scan (N : Z) (l : list Stmt) (h : H) : option (list Stmt * H) :=
  match l with
  | [] => Some ([], h)
  | x :: l =>
      '(should_halt, h) ← process_safepoint N x h;
      '(ks, h) ← scan N l h;
      Some (if should_halt : bool then x :: ks else ks, h)
  end.

Lemma find_split_spec N ir i l h ks h' :
  (forall s, s ∈ l -> is_Some (arena_get (all_stmts ir) s)) ->
  scan N (sps ir l) h = Some (ks, h') ->
  (ks = [] /\ find_split N ir i l h = Some (None, h')) \/
  exists l1 x l2 h1 ks', l = l1 ++ x :: l2 /\ is_sp ir x = true /\ ks = x :: ks' /\
    find_split N ir i l h = Some (Some (i + length l1)%nat, h1) /\ scan N (sps ir l2) h1 = Some (ks', h').
Proof.
  revert i h ks. induction l as [|x l IH]; intros i h ks Hl Hs.
  { left. simpl in Hs. by simplify_eq. }
  destruct (Hl x) as [d Hd]; [by left|]. simpl. rewrite Hd. cbn [mbind option_bind].
  assert (is_sp ir x = is_safepoint (rvalue d)) as Hx by (unfold is_sp; by rewrite Hd).
  assert (forall i' h0 ks0, scan N (sps ir l) h0 = Some (ks0, h') ->
    (ks0 = [] /\ find_split N ir i' l h0 = Some (None, h')) \/
    exists l1 y l2 h1 ks', l = l1 ++ y :: l2 /\ is_sp ir y = true /\ ks0 = y :: ks' /\
      find_split N ir i' l h0 = Some (Some (i' + length l1)%nat, h1) /\
      scan N (sps ir l2) h1 = Some (ks', h')) as IH'.
  { intros i' h0 ks0. apply IH. intros s ?. apply Hl. by right. }
  assert (forall h0 ks0, scan N (sps ir l) h0 = Some (ks0, h') ->
    (ks0 = [] /\ find_split N ir (S i) l h0 = Some (None, h')) \/
    exists l1 y l2 h1 ks', x :: l = l1 ++ y :: l2 /\ is_sp ir y = true /\ ks0 = y :: ks' /\
      find_split N ir (S i) l h0 = Some (Some (i + length l1)%nat, h1) /\
      scan N (sps ir l2) h1 = Some (ks', h')) as Hrest.
  { intros h0 ks0 [|(l1 & y & l2 & h1 & ks' & -> & ? & ? & E & ?)]%(IH' (S i)); [by left|right].
    exists (x :: l1), y, l2, h1, ks'. split_and!; [done..| |done]. rewrite E. do 3 f_equal. simpl. lia. }
  unfold sps in Hs. rewrite filter_cons, Hx in Hs. fold (sps ir l) in Hs.
  destruct (is_safepoint (rvalue d)) eqn:Es; simpl in Hs; [|by apply Hrest].
  destruct (process_safepoint N x h) as [[should h0]|]; [|done]. cbn [mbind option_bind] in Hs |- *.
  destruct (scan N (sps ir l) h0) as [[ks0 h2]|] eqn:E0; [|done]. cbn [mbind option_bind] in Hs.
  destruct should; simplify_eq; [|by apply Hrest].
  right. exists [], x, l, h0, ks0. split_and!; [done|congruence|done| |done]. by rewrite Nat.add_0_r.
Qed.

Context (ir0 : ExecIrBuilder) (hash_order : gset Block -> list Block)
  (Hhash : forall s, hash_order s ≡ₚ elements s) (Hroom : pass_room ir0).
Abbreviation Inv := (Inv ir0).

Lemma process_loop_spec N fuel org K G s u b d h ks h' :
  Inv org K G s -> last_of ir0 (inserter_ir s) org K u b -> arena_get (blocks (inserter_ir s)) b = Some d ->
  (length (stmts d) < fuel)%nat -> scan N (sps ir0 (stmts d)) h = Some (ks, h') ->
  exists s' org' last, process_loop hash_order fuel N b h s = Some ((last, h'), s') /\
    Inv org' (list_to_set ks ∪ K) G s' /\ semantic_reset_after s' = semantic_reset_after s /\
    last_of ir0 (inserter_ir s') org' (list_to_set ks ∪ K) u last.
Proof.
  revert org K s b d h ks. induction fuel as [|fuel IH]; intros org K s b d h ks I Hl Hd Hf Hs; [lia|].
  assert (sps ir0 (stmts d) = sps (inserter_ir s) (stmts d)) as Esps.
  { apply list_filter_iff. intros x. by rewrite (iv_is_sp ir0 _ _ _ _ I). }
  rewrite Esps in Hs.
  assert (forall k, (sm_bind (on_ir (block_of b)) k : SM HaltCheckInserter (Block * H)) s = k d s) as E1.
  { intros k. unfold sm_bind, on_ir, block_of, sm_of_option. rewrite Hd. by destruct s. }
  assert (forall x, x ∈ stmts d -> is_Some (arena_get (all_stmts (inserter_ir s)) x)) as Hok.
  { intros x. by apply (iv_stmts_ok _ _ _ _ _ I b). }
  simpl. rewrite E1.
  destruct (find_split_spec N (inserter_ir s) 0 (stmts d) h ks h' Hok Hs)
    as [(-> & E)|(l1 & x & l2 & h1 & ks' & El & Hx & -> & E & Hs')].
  - erewrite sm_bind_run; [|by rewrite E]. exists s, org, b. split; [done|].
    replace (list_to_set [] ∪ K) with K by set_solver. done.
  - erewrite sm_bind_run; [|by rewrite E]. cbn beta iota zeta.
    pose proof (iv_is_sp ir0 _ _ _ _ I) as Hsp.
    assert (stmts d !! length l1 = Some x) as Hi by (rewrite El; by apply list_lookup_middle).
    assert (x ∉ K) as HxK.
    { destruct Hl as (d0 & _ & (_ & dl & _ & Hdl & _ & _ & Hf')%chain_last). simplify_eq.
      rewrite Forall_forall in Hf'. apply Hf'. by eapply list_elem_of_lookup_2. }
    destruct (insert_spec ir0 hash_order Hhash Hroom org K G s x b (length l1) I) as
      (c & s1 & d1 & ub & Ei & I1 & Hr1 & Hd1 & Hsplit & Hlast); [|done|].
    { apply (iv_positions _ _ _ _ _ I). split; [by rewrite <- Hsp|]. by exists d. }
    simplify_eq. pose proof (sp_cont _ _ _ _ _ _ Hsplit) as Hc.
    assert (drop (S (length l1)) (stmts d) = l2) as Edrop.
    { rewrite El. change (x :: l2) with ([x] ++ l2). rewrite app_assoc, drop_app_length'; [done|].
      rewrite length_app. simpl. lia. }
    rewrite Edrop in Hc.
    destruct (IH (<[c := ub]> org) ({[x]} ∪ K) s1 c (mkBlock [] l2 (terminated d) (terminator d) (is_cold d)) h1 ks' I1) as (s' & org' & last & E2 & I2 & Hr2 & Hl2).
    + apply Hlast. exists b. by rewrite decide_True.
    + exact Hc.
    + simpl. rewrite El, length_app in Hf. simpl in Hf. lia.
    + simpl. rewrite <- Hs'. f_equal. apply list_filter_iff. intros y. by rewrite Hsp.
    + replace (list_to_set ks' ∪ ({[x]} ∪ K)) with (list_to_set (x :: ks') ∪ K) in I2, Hl2 by set_solver.
      exists s', org', last. split_and!; [|done|by rewrite Hr2|done].
      by erewrite sm_bind_run.
Qed.

Lemma chain_unchecked ir org K u b l t last :
  chain ir0 ir org K u b l t last -> Forall (fun x => x ∉ K) l ->
  last = b /\ exists d, arena_get (blocks ir) b = Some d /\ stmts d = l.
Proof.
  destruct 1 as [b d|b d l1 x]; intros Hf; [split; [done|by exists d]|].
  rewrite Forall_app, Forall_cons in Hf. by destruct Hf as (_ & ? & _).
Qed.

Lemma process_block_spec N org K G s u d h ks h' :
  Inv org K G s -> arena_get (blocks ir0) u = Some d -> (forall x, x ∈ stmts d -> x ∉ K) ->
  scan N (sps ir0 (stmts d)) h = Some (ks, h') ->
  exists s' org' last,
    process_block hash_order N u h s = Some ((last, (take_current_state h').1, (take_current_state h').2), s') /\
    Inv org' (list_to_set ks ∪ K) G s' /\ semantic_reset_after s' = semantic_reset_after s /\
    last_of ir0 (inserter_ir s') org' (list_to_set ks ∪ K) u last.
Proof.
  intros I Hd HK Hs. destruct (iv_chain _ _ _ _ _ I u d Hd) as (last0 & d0 & Hch & Hd0 & _).
  assert (last_of ir0 (inserter_ir s) org K u last0) as Hl by (by exists d).
  apply chain_unchecked in Hch as (-> & d1 & Hd1 & Est); [|by apply Forall_forall]. assert (d1 = d0) as -> by congruence.
  rewrite <- Est in Hs.
  destruct (process_loop_spec N (S (length (stmts d0))) org K G s u u d0 h ks h' I Hl Hd0)
    as (s' & org' & last & E & I' & Hr & Hl'); [lia|done|].
  exists s', org', last. split_and!; [|done..]. unfold process_block.
  erewrite sm_bind_run.
  2:{ unfold on_ir, block_of, sm_of_option. rewrite Hd0. by destruct s. }
  erewrite sm_bind_run; [|exact E]. cbn beta iota zeta. by destruct (take_current_state h').
Qed.
End Scan.

(** ** Pending edges of the original graph *)

Section Edges.
Context (ir0 : ExecIrBuilder) (hash_order : gset Block -> list Block)
  (Hhash : forall s, hash_order s ≡ₚ elements s).

Abbreviation Inv := (Inv ir0).
Abbreviation with_map s m :=
  (mkInserter (inserter_ir s) (safepoint_stmt_to_block_and_index s) m (semantic_reset_after s)).

(** Only the map of edges changes. *)
Lemma inv_map org K G G' s m :
  Inv org K G s -> edges_consistent m ->
  (forall b v st, pending_state (outgoing_edges m) b v = Some st <->
    exists u, G' !! (u, v) = Some st /\ last_of ir0 (inserter_ir s) org K u b) ->
  (forall u v st, G' !! (u, v) = Some st -> is_Some (arena_get (blocks ir0) u)) ->
  (forall b, is_Some (map_get (outgoing_edges m) b) -> (get b < length (blocks (inserter_ir s)))%nat) ->
  Inv org K G' (with_map s m).
Proof. intros [] ? ? ? ?. by split. Qed.

Lemma last_of_block org K G s u b :
  Inv org K G s -> last_of ir0 (inserter_ir s) org K u b -> (get b < length (blocks (inserter_ir s)))%nat.
Proof. intros _ (d & _ & (_ & dl & _ & Hdl & _)%chain_last). by apply lookup_lt_Some in Hdl. Qed.

Lemma add_edge_spec org K G s u from to st :
  Inv org K G s -> last_of ir0 (inserter_ir s) org K u from -> G !! (u, to) = None ->
  exists s', on_map (add_edge from to st) s = Some (None, s') /\
    Inv org K (<[(u, to) := st]> G) s' /\ inserter_ir s' = inserter_ir s /\
    semantic_reset_after s' = semantic_reset_after s.
Proof.
  intros I Hl HG. unfold on_map, add_edge.
  destruct (map_get_or_insert_spec (outgoing_edges (state_map s)) from ∅) as (o1 & -> & Ho1).
  destruct (map_get_or_insert_spec (incoming_edges (state_map s)) to ∅) as (i1 & -> & Hi1).
  assert (pending_state (outgoing_edges (state_map s)) from to = None) as Hnone.
  { destruct (pending_state _ _ _) as [st0|] eqn:E; [exfalso|done].
    apply (iv_states _ _ _ _ _ I) in E as (u0 & HG0 & Hl0). by rewrite (last_of_inj _ _ _ _ _ _ _ Hl0 Hl), HG in HG0. }
  assert (default ∅ (map_get (outgoing_edges (state_map s)) from) !! to = None) as ->.
  { unfold pending_state in Hnone. destruct (map_get _ from); [done|]. by apply lookup_empty. }
  set (m := mkHaltStateMap _ _).
  assert (forall f v, pending_state (outgoing_edges m) f v =
    if decide (f = from /\ v = to) then Some st else pending_state (outgoing_edges (state_map s)) f v) as Hp.
  { intros f v. unfold pending_state, m; cbn [outgoing_edges]. rewrite map_get_insert.
    destruct (decide (f = from)) as [->|Hf].
    - cbn [mbind option_bind]. destruct (decide (v = to)) as [->|Hv].
      + by rewrite decide_True, lookup_insert_eq.
      + rewrite decide_False by naive_solver. rewrite lookup_insert_ne by done.
        destruct (map_get (outgoing_edges (state_map s)) from); simpl; [done|by rewrite lookup_empty].
    - rewrite decide_False by naive_solver. by rewrite Ho1, decide_False. }
  exists (with_map s m). split_and!; [done| |done..].
  apply inv_map with (G := G); [done| | | |].
  - intros f v. rewrite Hp. unfold m; cbn [incoming_edges]. rewrite map_get_insert.
    pose proof (iv_edges _ _ _ _ _ I f v) as Hc. destruct (decide (v = to)) as [->|Hv].
    + transitivity (f = from \/ is_Some (pending_state (outgoing_edges (state_map s)) f to)).
      * split.
        -- intros (S & [= <-] & [->%elem_of_singleton|HS]%elem_of_union); [by left|right]. apply Hc.
           destruct (map_get (incoming_edges (state_map s)) to) as [S|]; [by exists S|set_solver].
        -- intros H. eexists. split; [done|]. destruct H as [->|(S & E & HS)%Hc]; [set_solver|].
           rewrite E. set_solver.
      * destruct (decide (f = from)) as [->|]; [rewrite decide_True by done; split; [done|by left]|].
        rewrite decide_False by naive_solver. naive_solver.
    + rewrite decide_False by naive_solver. by rewrite Hi1, decide_False.
  - intros b v st'. rewrite Hp. case_decide as Hbv.
    + destruct Hbv as [-> ->]. split.
      * intros [= <-]. exists u. by rewrite lookup_insert_eq.
      * intros (u' & HG' & Hl'). rewrite (last_of_inj _ _ _ _ _ _ _ Hl' Hl), lookup_insert_eq in HG'. done.
    + rewrite (iv_states _ _ _ _ _ I). split; intros (u' & HG' & Hl'); exists u'; (split; [|done]).
      * rewrite lookup_insert_ne; [done|]. intros [= <- <-]. congruence.
      * rewrite lookup_insert_ne in HG'; [done|]. intros [= <- <-]. apply Hbv. split; [|done].
        by eapply last_of_det.
  - intros u' v' st' [[[= <- <-] _]|[_ H]]%lookup_insert_Some; [|by eapply iv_origin].
    destruct Hl as (d & Hd & _). by eexists.
  - intros b. unfold m; cbn [outgoing_edges]. rewrite map_get_insert, Ho1.
    destruct (decide (b = from)) as [->|]; [|apply (iv_outgoing _ _ _ _ _ I)]. intros _. by eapply last_of_block.
Qed.

(** ** Draining *)

Lemma take_edges_spec froms to m :
  NoDup froms -> (forall from, from ∈ froms -> is_Some (pending_state (outgoing_edges m) from to)) ->
  exists l m', take_edges froms to m = Some (l, m') /\ incoming_edges m' = incoming_edges m /\
    (forall st, st ∈ l.*2 <-> exists from, from ∈ froms /\ pending_state (outgoing_edges m) from to = Some st) /\
    (forall f v, pending_state (outgoing_edges m') f v =
      if decide (f ∈ froms /\ v = to) then None else pending_state (outgoing_edges m) f v) /\
    forall f, is_Some (map_get (outgoing_edges m') f) <-> is_Some (map_get (outgoing_edges m) f).
Proof.
  intros Hnd. revert m. induction Hnd as [|from froms Hfrom Hnd IH]; intros m Hm.
  { exists [], m. split_and!; try done.
    intros st. split; [by intros ?%elem_of_nil|by intros (? & ?%elem_of_nil & _)]. }
  destruct (Hm from) as [st Hst]; [by left|]. unfold pending_state in Hst.
  destruct (map_get (outgoing_edges m) from) as [edges|] eqn:Eo; [|done]. cbn [mbind option_bind] in Hst.
  set (m1 := mkHaltStateMap (snd (map_insert from (delete to edges) (outgoing_edges m))) (incoming_edges m)).
  assert (forall f, map_get (outgoing_edges m1) f = if decide (f = from) then Some (delete to edges) else map_get (outgoing_edges m) f) as H1.
  { intros f. unfold m1; cbn [outgoing_edges]. apply map_get_insert. }
  assert (forall f v, pending_state (outgoing_edges m1) f v =
    if decide (f = from /\ v = to) then None else pending_state (outgoing_edges m) f v) as Hp1.
  { intros f v. unfold pending_state. rewrite H1. destruct (decide (f = from)) as [->|].
    - rewrite Eo. cbn [mbind option_bind]. destruct (decide (v = to)) as [->|].
      + by rewrite decide_True, lookup_delete_eq.
      + by rewrite decide_False, lookup_delete_ne by naive_solver.
    - by rewrite decide_False by naive_solver. }
  destruct (IH m1) as (l & m' & E & Hi & Hl & Hp & Hd).
  { intros f Hf. rewrite Hp1, decide_False by (by intros [-> _]). apply Hm. by right. }
  exists ((from, st) :: l), m'. split_and!; [|done| | |].
  - simpl. erewrite sm_bind_run; [|unfold take_edge; rewrite Eo; cbn [mbind option_bind]; rewrite Hst; done].
    erewrite sm_bind_run; [done|exact E].
  - intros st'. rewrite fmap_cons, elem_of_cons, Hl. simpl. split.
    + intros [->|(f & Hf & Hpf)].
      * exists from. split; [by left|]. unfold pending_state. by rewrite Eo.
      * exists f. split; [by right|]. rewrite Hp1, decide_False in Hpf; [done|]. by intros [-> _].
    + intros (f & [->|Hf]%elem_of_cons & Hpf).
      * left. unfold pending_state in Hpf. rewrite Eo in Hpf. cbn [mbind option_bind] in Hpf. congruence.
      * right. exists f. split; [done|]. rewrite Hp1, decide_False; [done|]. by intros [-> _].
  - intros f v. rewrite Hp, Hp1. repeat case_decide; try done; exfalso; set_solver.
  - intros f. rewrite Hd, H1. case_decide; [subst|done]. rewrite Eo. split; by eexists.
Qed.

Definition drop_target (v : Block) (G : gmap (Block * Block) HaltState) : gmap (Block * Block) HaltState :=
  filter (fun kv => kv.1.2 <> v) G.

Lemma drop_target_lookup v G u w st :
  drop_target v G !! (u, w) = Some st <-> G !! (u, w) = Some st /\ w <> v.
Proof. unfold drop_target. by rewrite map_lookup_filter_Some. Qed.

Lemma drain_incoming_spec org K G s v :
  Inv org K G s ->
  exists l m', drain_incoming hash_order v (state_map s) = Some (l, m') /\
    Inv org K (drop_target v G) (with_map s m') /\
    forall st, st ∈ l.*2 <-> exists u, G !! (u, v) = Some st.
Proof.
  intros I. pose proof (iv_edges _ _ _ _ _ I) as Hc. pose proof (iv_states _ _ _ _ _ I) as Hs.
  assert (forall st, (exists u, G !! (u, v) = Some st) <->
    exists from, pending_state (outgoing_edges (state_map s)) from v = Some st) as Hpend.
  { intros st. split.
    - intros (u & HG). destruct (iv_origin _ _ _ _ _ I _ _ _ HG) as [d Hd].
      destruct (last_of_exists _ _ _ _ _ I u d Hd) as [b Hb]. exists b. apply Hs. by exists u.
    - intros (from & (u & ? & _)%Hs). by exists u. }
  assert (forall u w st, drop_target v G !! (u, w) = Some st -> is_Some (arena_get (blocks ir0) u)) as Horg.
  { intros u w st [H _]%drop_target_lookup. by eapply iv_origin. }
  unfold drain_incoming. destruct (map_get (incoming_edges (state_map s)) v) as [S|] eqn:ES.
  - set (m1 := mkHaltStateMap _ _).
    destruct (take_edges_spec (hash_order S) v m1) as (l & m' & E & Hi & Hl & Hp & Hd).
    { by apply NoDup_hash_order. }
    { intros from Hf. rewrite (elem_of_hash_order _ Hhash) in Hf. apply Hc. by exists S. }
    assert (forall f w, pending_state (outgoing_edges m') f w =
      if decide (f ∈ S /\ w = v) then None else pending_state (outgoing_edges (state_map s)) f w) as Hp'.
    { intros f w. rewrite Hp. apply decide_ext. by rewrite (elem_of_hash_order _ Hhash). }
    exists l, m'. split_and!; [done| |].
    + apply inv_map with (G := G); [done| | |done|].
      * intros f w. rewrite Hp', Hi. unfold m1; cbn [incoming_edges]. rewrite map_get_insert.
        specialize (Hc f w). destruct (decide (w = v)) as [->|].
        -- split; [by intros (? & [= <-] & ?%not_elem_of_empty)|].
           intros [st Hst]. case_decide as Hf; [done|]. exfalso. apply Hf. split; [|done].
           destruct (proj2 Hc) as (S' & ES' & ?); [by eexists|]. congruence.
        -- by rewrite decide_False by naive_solver.
      * intros b w st. rewrite Hp'. case_decide as Hbw.
        -- destruct Hbw as [_ ->]. split; [done|]. by intros (u & [_ ?]%drop_target_lookup & _).
        -- rewrite Hs. split; intros (u & HG & Hl'); exists u.
           ++ split; [|done]. apply drop_target_lookup. split; [done|]. intros ->. apply Hbw. split; [|done].
              destruct (proj2 (Hc b v)) as (S' & ES' & ?); [|congruence]. exists st. apply Hs. by exists u.
           ++ by apply drop_target_lookup in HG as [? _].
      * intros b Hb. apply (iv_outgoing _ _ _ _ _ I). by apply Hd in Hb.
    + intros st. rewrite Hl, Hpend. split; [by intros (f & _ & ?); exists f|]. intros (f & Hf). exists f.
      split; [|done]. apply (elem_of_hash_order _ Hhash).
      destruct (proj2 (Hc f v)) as (S' & ES' & ?); [by eexists|]. congruence.
  - assert (forall from st, pending_state (outgoing_edges (state_map s)) from v <> Some st) as Hno.
    { intros from st Hst. destruct (proj2 (Hc from v)) as (S & ? & _); [by eexists|]. congruence. }
    exists [], (state_map s). split_and!; [done| |].
    + apply inv_map with (G := G); [done|done| |done|apply (iv_outgoing _ _ _ _ _ I)].
      intros b w st. rewrite Hs. split; intros (u & HG & Hl'); exists u.
      * split; [|done]. apply drop_target_lookup. split; [done|]. intros ->. apply (Hno b st), Hs. by exists u.
      * by apply drop_target_lookup in HG as [? _].
    + intros st. rewrite Hpend. split; [by intros ?%elem_of_nil|]. intros (f & Hf). by destruct (Hno f st).
Qed.
End Edges.
