(* ===== verification/HaltMerge.v ===== *)
(** * Forward states and their merge

    A state covers a set of traces, the latest safepoint first: it bounds the
    number of unchecked safepoints at their end, and its suffix is what every one
    of them ended with.  Canonicalizing keeps that, and so does merging, with the
    compensating checks it inserts. *)

From S2P Require Import Prelude Arena Ir Tarjan SccGraph HaltCheck IrLogic HaltSplit HaltInv.
Local Open Scope Z_scope.
Local Open Scope emu_scope.

(** ** Traces *)

(** The safepoints since the last checked one. *)
Fixpoint unchecked (K : gset Stmt) (r : list Stmt) : nat :=
  match r with
  | [] => 0
  | x :: r => if decide (x ∈ K) then 0 else S (unchecked K r)
  end.

Lemma unchecked_le K r n : (forall x, r !! n = Some x -> x ∈ K) -> (unchecked K r <= n)%nat.
Proof.
  revert n. induction r as [|y r IH]; intros n Hn; simpl; [lia|].
  case_decide as Hy; [lia|]. destruct n as [|n]; [destruct Hy; by apply Hn|].
  apply le_n_S, IH. intros x Hx. by apply Hn.
Qed.

Lemma unchecked_mono K K' r : K ⊆ K' -> (unchecked K' r <= unchecked K r)%nat.
Proof. intros HK. induction r as [|y r IH]; simpl; [lia|]. repeat case_decide; first [lia|set_solver]. Qed.

(** The trace ends with the suffix, as far as it goes. *)
Definition agrees (suffix r : list Stmt) : Prop :=
  forall i x y, reverse suffix !! i = Some x -> r !! i = Some y -> y = x.

Section Covers.
Context (N : Z) (A : gset Stmt).

Record covers (K reset : gset Stmt) (st : HaltState) (P : list Stmt -> Prop) : Prop := {
  cv_range : 1 <= remaining st <= N;
  cv_suffix : suffix_len st <= N - remaining st;
  cv_seen : forall x, x ∈ suffix_safepoints st -> x ∈ A;
  cv_reset : forall x, x ∈ suffix_safepoints st -> x ∈ K -> x ∈ reset;
  cv_traces : forall r, P r -> agrees (suffix_safepoints st) r /\
    Z.of_nat (unchecked K r) <= N - remaining st;
}.

Lemma covers_mono K reset K' reset' st P :
  covers K reset st P -> K ⊆ K' -> reset ⊆ reset' ->
  (forall x, x ∈ suffix_safepoints st -> x ∈ K' -> x ∈ K \/ x ∈ reset') ->
  covers K' reset' st P.
Proof.
  intros [? ? ? Hr Ht] HK HR Hn. split; [done..| |].
  - intros x Hx [HxK|]%Hn; [|done|done]. by apply HR, Hr.
  - intros r [? ?]%Ht. split; [done|]. pose proof (unchecked_mono K K' r HK). lia.
Qed.

Lemma covers_weaken K reset st (P Q : list Stmt -> Prop) :
  covers K reset st P -> (forall r, Q r -> P r) -> covers K reset st Q.
Proof. intros [] H. split; [done..|]. intros r ?%H. auto. Qed.

Lemma covers_from_remaining K reset n (P : list Stmt -> Prop) :
  1 <= n <= N -> (forall r, P r -> Z.of_nat (unchecked K r) <= N - n) ->
  covers K reset (from_remaining n) P.
Proof.
  intros ? HP. split; simpl; [done|lia|by intros ? ?%elem_of_nil|by intros ? ?%elem_of_nil|].
  intros r Hr. split; [|by apply HP]. by intros i x y ?.
Qed.

Definition canonical (reset : gset Stmt) (st : HaltState) : Prop :=
  forall x, x ∈ suffix_safepoints st -> x ∉ reset.
Definition complete (st : HaltState) : Prop := suffix_len st = N - remaining st.

(** ** Canonicalization *)

Lemma suffix_after_reset_spec reset l :
  (suffix_after_reset reset l = (false, []) /\ forall x, x ∈ l -> x ∉ reset) \/
  exists pre x post, l = pre ++ x :: post /\ suffix_after_reset reset l = (true, post) /\
    x ∈ reset /\ forall y, y ∈ post -> y ∉ reset.
Proof.
  unfold suffix_after_reset. induction l as [|y l IH] using rev_ind; [left; split; [done|set_solver]|].
  rewrite foldl_snoc. destruct IH as [[-> Hl]|(pre & x & post & -> & -> & Hx & Hp)]; case_decide as Hy.
  - right. exists l, y, []. split_and!; [done..|set_solver].
  - left. split; [done|]. intros x [?| ->%list_elem_of_singleton]%elem_of_app; [by apply Hl|done].
  - right. exists (pre ++ x :: post), y, []. split_and!; [done..|set_solver].
  - right. exists pre, x, (post ++ [y]). rewrite <- app_assoc. split_and!; [done..|].
    intros z [?| ->%list_elem_of_singleton]%elem_of_app; [by apply Hp|done].
Qed.

Lemma canonicalize_spec K reset st P :
  reset ⊆ K -> covers K reset st P ->
  exists st', canonicalize_against_resets N reset st = Some st' /\ covers K reset st' P /\
    canonical reset st' /\ remaining st <= remaining st' /\ (complete st -> complete st') /\
    forall i x, suffix_safepoints st !! i = Some x -> x ∈ reset ->
      N - (suffix_len st - Z.of_nat i - 1) <= remaining st'.
Proof.
  intros HRK Hc. unfold canonicalize_against_resets.
  destruct (decide (suffix_safepoints st = [])) as [Es|_].
  { exists st. split_and!; [done|done| |lia|done|].
    - unfold canonical. rewrite Es. by intros ? ?%elem_of_nil.
    - rewrite Es. by intros ? ? ?. }
  destruct (decide (reset = ∅)) as [->|_].
  { exists st. split_and!; [done|done|intros ? ?; set_solver|lia|done|set_solver]. }
  destruct (suffix_after_reset_spec reset (suffix_safepoints st)) as [[-> Hn]|(pre & x & post & E & -> & Hx & Hp)].
  { exists st. split_and!; [done|done|done|lia|done|]. intros i x Hi Hx. destruct (Hn x); [|done].
    by eapply list_elem_of_lookup_2. }
  destruct Hc as [Hrange Hsuf Hseen Hreset Htr]. rewrite E, length_app in Hsuf |- *. simpl in Hsuf |- *.
  rewrite decide_True by lia. unfold strict_sub, checked_sub. rewrite (proj2 (Z.leb_le _ _)) by lia.
  cbn [mbind option_bind]. rewrite decide_False by lia. eexists. split; [done|].
  split_and!; [split; simpl|done|simpl; lia|unfold complete; simpl; lia|].
  - lia.
  - lia.
  - intros y Hy. apply Hseen. rewrite E. set_solver.
  - intros y Hy HyK. apply Hreset; [|done]. rewrite E. set_solver.
  - intros r [Ha _]%Htr. unfold agrees in Ha. rewrite E, reverse_app, reverse_cons, <- app_assoc in Ha. split.
    + intros i y z Hi Hz. apply (Ha i y z); [|done]. by apply lookup_app_l_Some.
    + assert (unchecked K r <= length post)%nat; [|lia]. apply unchecked_le. intros y Hy.
      rewrite (Ha (length post) x y); [by apply HRK| |done]. rewrite <- (length_reverse post).
      by apply list_lookup_middle.
  - intros i y Hi Hy. simpl.
    assert (i <= length pre)%nat; [|rewrite ?length_app; simpl; lia].
    destruct (decide (i <= length pre)%nat); [done|exfalso]. apply (Hp y); [|done].
    change (x :: post) with ([x] ++ post) in Hi. rewrite app_assoc, lookup_app_r in Hi by (rewrite length_app; simpl; lia).
    by eapply list_elem_of_lookup_2.
Qed.
End Covers.

(** ** Insertion points *)

Section Points.
Context (N : Z).

Lemma has_insertion_point_spec target st :
  1 <= remaining st <= N -> 1 <= target <= N ->
  exists b, has_insertion_point N target st = Some b /\
    (b = true <-> remaining st < target /\ complete N st).
Proof.
  intros Hr Ht. unfold has_insertion_point, has_complete_suffix, strict_sub, checked_sub, complete.
  destruct (Z.leb_spec target (remaining st)); [exists false; split; [done|split; [done|lia]]|].
  rewrite (proj2 (Z.leb_le (remaining st) N)) by lia. cbn [mbind option_bind].
  destruct (Z.eqb_spec (suffix_len st) (N - remaining st)); simpl; [|exists false; split; [done|split; [done|lia]]].
  rewrite (proj2 (Z.leb_le target N)) by lia. cbn [mbind option_bind].
  rewrite (proj2 (Z.leb_gt _ _)) by lia. exists true. split; [done|split; [done|done]].
Qed.

Lemma insertion_safepoint_spec target st :
  1 <= remaining st <= N -> 1 <= target <= N -> remaining st < target -> complete N st ->
  exists x i, compensating_insertion_safepoint N target st = Some x /\
    suffix_safepoints st !! i = Some x /\ suffix_len st - Z.of_nat i - 1 = N - target.
Proof.
  intros Hr Ht Hlt Hc. destruct (has_insertion_point_spec target st Hr Ht) as (b & E & Hb).
  unfold compensating_insertion_safepoint. rewrite E. cbn [mbind option_bind].
  rewrite (proj2 Hb) by done. cbn [negb]. unfold complete in Hc. unfold strict_sub, checked_sub.
  rewrite (proj2 (Z.leb_le target N)) by lia. cbn [mbind option_bind].
  rewrite (proj2 (Z.leb_le (N - target) (suffix_len st))) by lia. cbn [mbind option_bind].
  rewrite (proj2 (Z.leb_le 1 _)) by lia. cbn [mbind option_bind].
  destruct (lookup_lt_is_Some_2 (suffix_safepoints st) (Z.to_nat (suffix_len st - (N - target) - 1))) as [x Hx]; [lia|].
  eexists x, _. split_and!; [exact Hx|exact Hx|lia].
Qed.

Lemma can_normalize_spec target l :
  1 <= target <= N -> Forall (fun st => 1 <= remaining st <= N) l ->
  exists b, can_normalize N target l = Some b /\
    (b = true -> Forall (fun st => target <= remaining st \/ complete N st) l).
Proof.
  intros Ht. induction 1 as [|st l Hst Hl (b & E & Hb)]; [by exists true|]. simpl.
  destruct (Z.leb_spec target (remaining st)).
  - cbn [mbind option_bind]. exists b. split; [done|]. intros ?. constructor; [by left|by apply Hb].
  - destruct (has_insertion_point_spec target st Hst Ht) as (b' & -> & Hb'). cbn [mbind option_bind].
    destruct b'; [|by exists false]. exists b. split; [done|]. intros ?. constructor; [right|by apply Hb].
    by apply Hb'.
Qed.

Lemma min_remaining_spec l st :
  (exists st', st' ∈ st :: l /\ min_remaining l st = remaining st') /\
  forall st', st' ∈ st :: l -> min_remaining l st <= remaining st'.
Proof.
  induction l as [|st0 l [(st1 & H1 & E) H2]]; simpl.
  { split; [exists st; split; [by left|done]|]. by intros st' ->%list_elem_of_singleton. }
  split.
  - destruct (Z.min_spec (remaining st0) (min_remaining l st)) as [[_ H]|[_ H]]; unfold min_remaining in *; rewrite H.
    + exists st0. split; [set_solver|done].
    + exists st1. split; [set_solver|done].
  - intros st' Hst'. assert (st' = st0 \/ st' ∈ st :: l) as [->|?%H2] by set_solver; unfold min_remaining in *; lia.
Qed.

Lemma max_remaining_spec l st :
  (exists st', st' ∈ st :: l /\ max_remaining l st = remaining st') /\
  forall st', st' ∈ st :: l -> remaining st' <= max_remaining l st.
Proof.
  induction l as [|st0 l [(st1 & H1 & E) H2]]; simpl.
  { split; [exists st; split; [by left|done]|]. by intros st' ->%list_elem_of_singleton. }
  split.
  - destruct (Z.max_spec (remaining st0) (max_remaining l st)) as [[_ H]|[_ H]]; unfold max_remaining in *; rewrite H.
    + exists st1. split; [set_solver|done].
    + exists st0. split; [set_solver|done].
  - intros st' Hst'. assert (st' = st0 \/ st' ∈ st :: l) as [->|?%H2] by set_solver; unfold max_remaining in *; lia.
Qed.
End Points.

(** ** Merging *)

Section Merge.
Context (ir0 : ExecIrBuilder) (hash_order : gset Block -> list Block)
  (Hhash : forall s, hash_order s ≡ₚ elements s) (Hroom : pass_room ir0).
Context (N : Z) (A : gset Stmt).
Context (HA : forall x, x ∈ A -> is_sp ir0 x = true /\
  exists u d, arena_get (blocks ir0) u = Some d /\ x ∈ stmts d).
Abbreviation Inv := (Inv ir0).
Abbreviation covers := (covers N A).

(** What compensating checks do to the checked safepoints and the resets. *)
Record checks (K R K' R' : gset Stmt) : Prop := {
  gr_K : K ⊆ K';
  gr_R : R ⊆ R';
  gr_new : forall x, x ∈ K' -> x ∈ K \/ x ∈ A /\ x ∈ R';
  gr_sub : R' ⊆ K';
}.

Lemma checks_refl K R : R ⊆ K -> checks K R K R.
Proof. intros. split; set_solver. Qed.

Lemma checks_trans K R K1 R1 K2 R2 : checks K R K1 R1 -> checks K1 R1 K2 R2 -> checks K R K2 R2.
Proof.
  intros [H1 H2 H3 H4] [H5 H6 H7 H8]. split; [set_solver|set_solver| |done].
  intros x [[?|[? ?]]%H3|?]%H7; [by left|right; set_solver|by right].
Qed.

Lemma covers_checks K R K' R' st P : checks K R K' R' -> covers K R st P -> covers K' R' st P.
Proof.
  intros [] Hc. eapply covers_mono; [done..|]. intros x _ [|[_ ?]]%gr_new0; [by left|by right].
Qed.

Lemma chain_elem ir org K u b l t last x :
  chain ir0 ir org K u b l t last -> x ∈ l ->
  exists b' d, arena_get (blocks ir) b' = Some d /\ x ∈ stmts d.
Proof.
  induction 1 as [b d|b d l1 s h v c lv d' l2 t last Hd _ E _ _ _ _ _ _ _ _ _ _ _ IH]; intros Hx; [by exists b, d|].
  apply elem_of_app in Hx as [Hx|[->|Hx]%elem_of_cons]; [exists b, d..|by apply IH]; (split; [done|rewrite E; set_solver]).
Qed.

Lemma placed org K G s x :
  Inv org K G s -> x ∈ A -> exists b i, safepoint_stmt_to_block_and_index s !! x = Some (b, i).
Proof.
  intros I (Hx & u & d & Hd & Hin)%HA. destruct (iv_chain _ _ _ _ _ I u d Hd) as (last & _ & Hch & _).
  destruct (chain_elem _ _ _ _ _ _ _ _ _ Hch Hin) as (b & d' & Hd' & [i Hi]%list_elem_of_lookup).
  exists b, i. apply (iv_positions _ _ _ _ _ I). split; [done|]. by exists d'.
Qed.

Lemma insert_compensating_spec org K G s st P target :
  Inv org K G s -> semantic_reset_after s ⊆ K -> covers K (semantic_reset_after s) st P ->
  canonical (semantic_reset_after s) st -> 1 <= target <= N -> (target <= remaining st \/ complete N st) ->
  exists st' s' org' K', insert_compensating_check hash_order N target st s = Some (st', s') /\
    Inv org' K' G s' /\ checks K (semantic_reset_after s) K' (semantic_reset_after s') /\
    covers K' (semantic_reset_after s') st' P /\ target <= remaining st'.
Proof.
  intros I HRK Hc Hcan Ht Hor. unfold insert_compensating_check.
  destruct (Z.leb_spec target (remaining st)).
  { exists st, s, org, K. split_and!; [done|done|by apply checks_refl|done|done]. }
  destruct Hor as [|Hcomp]; [lia|].
  destruct (insertion_safepoint_spec N target st) as (x & j & E & Hj & Hdist); [apply Hc|done..|].
  erewrite sm_bind_run; [|unfold sm_of_option; by rewrite E].
  assert (x ∈ suffix_safepoints st) as Hx by by eapply list_elem_of_lookup_2.
  assert (x ∉ K) as HxK by (intros HK; by apply (Hcan x), (cv_reset _ _ _ _ _ _ Hc)).
  assert (x ∈ A) as HxA by by eapply cv_seen.
  set (s0 := mkInserter (inserter_ir s) (safepoint_stmt_to_block_and_index s) (state_map s) ({[x]} ∪ semantic_reset_after s)).
  assert (Inv org K G s0) as I0 by (destruct I; by split).
  destruct (placed org K G s0 x I0 HxA) as (b & i & Hpos).
  destruct (insert_spec ir0 hash_order Hhash Hroom org K G s0 x b i I0 Hpos HxK)
    as (c & s1 & d & ub & E1 & I1 & HR1 & _).
  assert (insert_compensating_halt_check_after_safepoint hash_order x s = Some (c, s1)) as E1'.
  { unfold insert_compensating_halt_check_after_safepoint. rewrite decide_False by set_solver.
    change (safepoint_stmt_to_block_and_index s) with (safepoint_stmt_to_block_and_index s0). rewrite Hpos. exact E1. }
  erewrite sm_bind_run; [|exact E1']. change (semantic_reset_after s0) with ({[x]} ∪ semantic_reset_after s) in HR1.
  assert (checks K (semantic_reset_after s) ({[x]} ∪ K) (semantic_reset_after s1)) as Hg.
  { rewrite HR1. split; [set_solver..| |set_solver]. intros y [->%elem_of_singleton|]%elem_of_union; [right; set_solver|by left]. }
  destruct (canonicalize_spec N A ({[x]} ∪ K) (semantic_reset_after s1) st P) as (st' & E2 & Hc' & _ & _ & _ & Hge);
    [apply Hg|by eapply covers_checks|].
  erewrite sm_bind_run; [|unfold sm_of_option; by rewrite E2].
  assert (target <= remaining st') as Hle.
  { specialize (Hge j x Hj). rewrite HR1 in Hge. specialize (Hge ltac:(set_solver)). lia. }
  rewrite (proj2 (Z.leb_le _ _)) by done. erewrite sm_bind_run; [|done].
  eexists st', s1, _, _. split_and!; [done|exact I1|done..].
Qed.

Lemma normalize_spec target : 1 <= target <= N ->
  forall i l Ps org K G s,
  Inv org K G s -> semantic_reset_after s ⊆ K -> Forall2 (covers K (semantic_reset_after s)) l Ps ->
  Forall (fun st => target <= remaining st \/ complete N st) l ->
  (forall st, i = 0%nat -> head l = Some st -> canonical (semantic_reset_after s) st) ->
  exists l' s' org' K', normalize hash_order N target i l s = Some (l', s') /\
    Inv org' K' G s' /\ checks K (semantic_reset_after s) K' (semantic_reset_after s') /\
    Forall2 (covers K' (semantic_reset_after s')) l' Ps /\ Forall (fun st => target <= remaining st) l'.
Proof.
  intros Ht i l. revert i. induction l as [|st l IH]; intros i Ps org K G s I HRK Hc Hf Hcan.
  { exists [], s, org, K. split_and!; [done|done|by apply checks_refl| |done]. apply Forall2_nil_inv_l in Hc as ->. constructor. }
  apply Forall2_cons_inv_l in Hc as (P & Ps' & Hc & Hcs & ->). apply Forall_cons in Hf as [Hf Hfs].
  assert (exists st1, (if decide (i = 0%nat) then Some st else canonicalize_against_resets N (semantic_reset_after s) st) = Some st1 /\
    covers K (semantic_reset_after s) st1 P /\ canonical (semantic_reset_after s) st1 /\
    (target <= remaining st1 \/ complete N st1)) as (st1 & E1 & Hc1 & Hcan1 & Hf1).
  { case_decide; [exists st; split_and!; [done|done|by apply Hcan|done]|].
    destruct (canonicalize_spec N A K (semantic_reset_after s) st P HRK Hc) as (st1 & ? & ? & ? & ? & Hcomp & _).
    exists st1. split_and!; [done..|]. destruct Hf; [left; lia|right; by apply Hcomp]. }
  simpl. erewrite sm_bind_run; [|unfold sm_of_option; by rewrite E1].
  destruct (insert_compensating_spec org K G s st1 P target I HRK Hc1 Hcan1 Ht Hf1)
    as (st2 & s2 & org2 & K2 & E2 & I2 & Hg2 & Hc2 & Hle).
  erewrite sm_bind_run; [|exact E2].
  destruct (IH (S i) Ps' org2 K2 G s2) as (l' & s' & org' & K' & E & I' & Hg & Hcs' & Hles); [done|apply Hg2| |done|done|].
  { eapply Forall2_impl; [exact Hcs|]. intros ? ?. by apply covers_checks. }
  erewrite sm_bind_run; [|exact E].
  exists (st2 :: l'), s', org', K'. split_and!; [done|done|by eapply checks_trans| |by constructor].
  constructor; [by eapply covers_checks|done].
Qed.

Lemma canonicalize_all K R l Ps :
  R ⊆ K -> Forall2 (covers K R) l Ps ->
  exists l', mapM (canonicalize_against_resets N R) l = Some l' /\ Forall2 (covers K R) l' Ps /\ Forall (canonical R) l'.
Proof.
  intros HRK. induction 1 as [|st P l Ps Hc _ (l' & E & Hcs & Hf)]; [by exists []|].
  destruct (canonicalize_spec N A K R st P HRK Hc) as (st' & E1 & Hc1 & Hcan & _).
  exists (st' :: l'). simpl. rewrite E1. cbn [mbind option_bind]. unfold mbind. simpl. rewrite E. split_and!; [done|by constructor..].
Qed.

(** The lowest and the highest count both bound every incoming trace. *)
Lemma merge_bound K R l Ps n :
  Forall2 (covers K R) l Ps -> (forall st, st ∈ l -> n <= remaining st) -> 1 <= n <= N ->
  covers K R (from_remaining n) (fun r => Exists (fun P => P r) Ps).
Proof.
  intros Hc Hn Hr. apply covers_from_remaining; [done|]. intros r (P & HP & Hpr)%Exists_exists.
  apply list_elem_of_lookup in HP as [i Hi]. destruct (Forall2_lookup_r _ _ _ _ _ Hc Hi) as (st & Hst & Hc').
  destruct (cv_traces _ _ _ _ _ _ Hc' r Hpr) as [_ ?]. specialize (Hn st ltac:(by eapply list_elem_of_lookup_2)). lia.
Qed.

Lemma merge_states_spec org K G s l Ps :
  0 < N -> Inv org K G s -> semantic_reset_after s ⊆ K -> Forall2 (covers K (semantic_reset_after s)) l Ps ->
  exists st s' org' K', merge_halt_states hash_order N l s = Some (st, s') /\
    Inv org' K' G s' /\ checks K (semantic_reset_after s) K' (semantic_reset_after s') /\
    covers K' (semantic_reset_after s') st (fun r => Exists (fun P => P r) Ps).
Proof.
  intros HN I HRK Hc0. unfold merge_halt_states.
  destruct (canonicalize_all _ _ _ _ HRK Hc0) as (l' & E & Hc & Hcan).
  erewrite sm_bind_run; [|unfold sm_of_option; by rewrite E]. clear l Hc0 E.
  assert (forall st, st ∈ l' -> 1 <= remaining st <= N) as Hrange.
  { intros st [i Hi]%list_elem_of_lookup. destruct (Forall2_lookup_l _ _ _ _ _ Hc Hi) as (P & _ & Hc'). apply Hc'. }
  destruct l' as [|first rest]; [|destruct rest as [|second rest]].
  - apply Forall2_nil_inv_l in Hc as ->. eexists _, s, org, K. split_and!; [done|done|by apply checks_refl|].
    apply covers_from_remaining; [lia|]. by intros r ?%Exists_nil.
  - apply Forall2_cons_inv_l in Hc as (P & Ps' & Hc & ->%Forall2_nil_inv_l & ->).
    eexists _, s, org, K. split_and!; [done|done|by apply checks_refl|].
    eapply covers_weaken; [exact Hc|]. intros r [?|?%Exists_nil]%Exists_cons; [done|done].
  - set (l := first :: second :: rest) in *. cbv zeta.
    destruct (min_remaining_spec (second :: rest) first) as [(lo & Hlo & Elo) Hmin].
    destruct (max_remaining_spec (second :: rest) first) as [(hi & Hhi & Ehi) Hmax].
    fold l in Hlo, Hmin, Hhi, Hmax. set (r_lo := min_remaining _ _) in *. set (r_hi := max_remaining _ _) in *.
    assert (1 <= r_lo <= N) as Hrlo by (rewrite Elo; by apply Hrange).
    assert (1 <= r_hi <= N) as Hrhi by (rewrite Ehi; by apply Hrange).
    assert (r_lo <= r_hi) by (rewrite Elo; by apply Hmax).
    assert (covers K (semantic_reset_after s) (from_remaining r_lo) (fun r => Exists (fun P => P r) Ps)) as Hlow
      by (by eapply merge_bound).
    erewrite sm_bind_run; [|unfold sm_of_option, strict_sub, checked_sub; by rewrite (proj2 (Z.leb_le _ _)) by done].
    assert (forall b, (b = true -> Forall (fun st => r_hi <= remaining st \/ complete N st) l) ->
      exists st s' org' K', (if b : bool then
        let! incoming := normalize hash_order N r_hi 0 l in
        sm_assert (forallb (fun st => r_hi <=? remaining st) incoming) ;;!
        sm_ret (from_remaining r_hi)
      else sm_ret (from_remaining r_lo)) s = Some (st, s') /\ Inv org' K' G s' /\
      checks K (semantic_reset_after s) K' (semantic_reset_after s') /\
      covers K' (semantic_reset_after s') st (fun r => Exists (fun P => P r) Ps)) as Hgo.
    { intros [|] Hf; [specialize (Hf eq_refl)|eexists _, s, org, K; split_and!; [done|done|by apply checks_refl|done]].
      destruct (normalize_spec r_hi Hrhi 0 l Ps org K G s I HRK Hc Hf) as (l2 & s2 & org2 & K2 & E2 & I2 & Hg2 & Hc2 & Hle).
      { intros st _ [= <-]. by apply Forall_cons in Hcan as [? _]. }
      eexists _, s2, org2, K2. split_and!; [|done|done|].
      - erewrite sm_bind_run; [|exact E2]. rewrite (proj2 (forallb_forall _ _)); [done|].
        intros st Hst%list_elem_of_In. apply Z.leb_le. rewrite Forall_forall in Hle. by apply Hle.
      - eapply merge_bound; [done| |done]. intros st Hst. rewrite Forall_forall in Hle. by apply Hle. }
    destruct (div_ceil N 2 <? r_hi - r_lo).
    + destruct (can_normalize_spec N r_hi l Hrhi) as (b & Eb & Hb); [by apply Forall_forall|].
      erewrite sm_bind_run; [|unfold sm_of_option; by rewrite Eb]. by apply Hgo.
    + erewrite sm_bind_run; [|done]. by apply (Hgo false).
Qed.
End Merge.
