(* ===== verification/HaltTrace.v ===== *)
(** * Safepoint traces of the original graph

    The traces that reach a block, what both halters make of them, and the
    soundness of the pass halfway: the pending states cover the traces along
    their edges, and no trace through the processed blocks has too many unchecked
    safepoints. *)

From S2P Require Import Prelude Arena Ir Tarjan SccGraph HaltCheck IrLogic HaltSplit HaltInv HaltProcess HaltMerge.
Local Open Scope Z_scope.
Local Open Scope emu_scope.

(** At no point of the trace have [N] safepoints gone by unchecked. *)
Definition bounded (N : Z) (K : gset Stmt) (r : list Stmt) : Prop :=
  forall i, Z.of_nat (unchecked K (drop i r)) < N.

Lemma bounded_nil N K : 0 < N -> bounded N K [].
Proof. intros ? i. rewrite drop_nil. simpl. lia. Qed.

Lemma bounded_mono N K K' r : K ⊆ K' -> bounded N K r -> bounded N K' r.
Proof. intros HK H i. specialize (H i). pose proof (unchecked_mono K K' (drop i r) HK). lia. Qed.

Lemma bounded_cons N K x r : bounded N K r -> Z.of_nat (unchecked K (x :: r)) < N -> bounded N K (x :: r).
Proof. intros H Hx [|i]; [done|]. apply H. Qed.

Lemma bounded_checked N K l r : 0 < N -> Forall (fun x => x ∈ K) l -> bounded N K r -> bounded N K (l ++ r).
Proof.
  intros HN Hl Hr. induction Hl as [|x l Hx Hl IH]; [done|]. apply bounded_cons; [done|].
  simpl. rewrite decide_True by done. lia.
Qed.

(** ** What the halters decide *)

Section Halters.
Context (N : Z).

Lemma scan_cyclic l seen rem :
  scan N l (mkCyclic seen rem) = Some (l, mkCyclic (match l with [] => seen | _ => Some N end) rem).
Proof. revert seen. induction l as [|x l IH]; intros seen; [done|]. simpl. rewrite IH. simpl. by destruct l. Qed.

Lemma scan_acyclic l : forall A K R st (P : list Stmt -> Prop),
  covers N A K R st P -> NoDup l -> (forall x, x ∈ l -> x ∉ K) ->
  exists ks st', scan N l (mkACyclic st) = Some (ks, mkACyclic st') /\ (forall x, x ∈ ks -> x ∈ l) /\
    covers N (list_to_set l ∪ A) (list_to_set ks ∪ K) R st' (fun r' => exists r, P r /\ r' = reverse l ++ r) /\
    forall r, P r -> bounded N K r -> bounded N (list_to_set ks ∪ K) (reverse l ++ r).
Proof.
  induction l as [|x l IH]; intros A K R st P Hc Hnd HlK.
  { exists [], st. split_and!; [done|done| |].
    - replace (list_to_set [] ∪ A) with A by set_solver. replace (list_to_set [] ∪ K) with K by set_solver.
      eapply covers_weaken; [done|]. by intros r (r0 & ? & ->).
    - intros r _ Hr. by replace (list_to_set [] ∪ K) with K by set_solver. }
  apply NoDup_cons in Hnd as [Hx Hnd]. destruct Hc as [Hr Hs Hseen Hreset Ht].
  assert (x ∉ K) as HxK by (apply HlK; by left).
  set (P' r' := exists r, P r /\ r' = x :: r).
  assert (exists b st1, process_safepoint N x (mkACyclic st) = Some (b, mkACyclic st1) /\
    covers N ({[x]} ∪ A) ((if b : bool then {[x]} else ∅) ∪ K) R st1 P') as (b & st1 & E & Hc1).
  { simpl. unfold acyclic_process, strict_sub, checked_sub. cbn [acyclic_state].
    rewrite (proj2 (Z.leb_le _ _)) by lia. cbn [mbind option_bind]. case_decide as Hrem.
    - exists true, (mkHaltState N []). split; [done|]. apply (covers_from_remaining N _ _ _ N); [lia|].
      intros r' (r & _ & ->). simpl. rewrite decide_True by set_solver. lia.
    - exists false. eexists. split; [done|].
      assert (Z.of_nat (length (suffix_safepoints st ++ [x])) = suffix_len st + 1) as El by (rewrite length_app; simpl; lia).
      rewrite (proj2 (Z.ltb_ge N _)) by lia. replace (∅ ∪ K) with K by set_solver. split; simpl; [lia|lia| | |].
      + intros y [?%Hseen| ->%list_elem_of_singleton]%elem_of_app; set_solver.
      + intros y [?| ->%list_elem_of_singleton]%elem_of_app ?; [by apply Hreset|done].
      + intros r' (r & [Ha Hu]%Ht & ->). split.
        * unfold agrees in *. rewrite reverse_app. intros [|i] y z Hy Hz; simpl in *; [by simplify_eq|by eapply Ha].
        * simpl. rewrite decide_False by done. lia. }
  destruct (IH _ _ _ _ _ Hc1 Hnd) as (ks & st' & E' & Hks & Hc' & Hb').
  { intros y Hy. destruct b; [|rewrite (left_id_L ∅ (∪)); apply HlK; by right].
    intros [->%elem_of_singleton|?]%elem_of_union; [done|]. by apply (HlK y); [right|]. }
  set (ks1 := if b then x :: ks else ks).
  assert (list_to_set ks ∪ ((if b then {[x]} else ∅) ∪ K) = list_to_set ks1 ∪ K) as EK by (unfold ks1; destruct b; set_solver).
  rewrite EK in Hc', Hb'. replace (list_to_set l ∪ ({[x]} ∪ A)) with (list_to_set (x :: l) ∪ A) in Hc' by set_solver.
  assert (forall r, reverse (x :: l) ++ r = reverse l ++ x :: r) as Erev by (intros; by rewrite reverse_cons, <- app_assoc).
  exists ks1, st'. split_and!.
  - simpl in E |- *. rewrite E. cbn [mbind option_bind]. rewrite E'. done.
  - intros y. unfold ks1. destruct b; [intros [->|?]%elem_of_cons; [by left|]|intros ?]; right; by apply Hks.
  - eapply covers_weaken; [done|]. intros r' (r & Hpr & ->). exists (x :: r). split; [by exists r|done].
  - intros r Hpr Hbr. rewrite Erev. apply Hb'; [by exists r|]. apply bounded_cons.
    + eapply bounded_mono; [|done]. destruct b; set_solver.
    + destruct (cv_traces _ _ _ _ _ _ Hc1 (x :: r)) as [_ ?]; [by exists r|].
      pose proof (cv_range _ _ _ _ _ _ Hc1). lia.
Qed.
End Halters.

(** ** Traces *)

Section Traces.
Context (ir0 : ExecIrBuilder).
Abbreviation edge := (edge ir0 None).

Definition sps_at (u : Block) : list Stmt :=
  match arena_get (blocks ir0) u with Some d => sps ir0 (stmts d) | None => [] end.

(** A trace of safepoints with which control can reach a block. *)
Inductive arrives : Block -> list Stmt -> Prop :=
  | arrives_entry : arrives ENTRYPOINT []
  | arrives_edge u v r : arrives u r -> edge u v -> arrives v (reverse (sps_at u) ++ r).

Definition leaves (u : Block) (r : list Stmt) : Prop := exists r0, arrives u r0 /\ r = reverse (sps_at u) ++ r0.

Definition sps_of (D : gset Block) : gset Stmt := ⋃ ((fun u => list_to_set (sps_at u)) <$> elements D).

Lemma elem_of_sps_of D x : x ∈ sps_of D <-> exists u, u ∈ D /\ x ∈ sps_at u.
Proof.
  unfold sps_of. rewrite elem_of_union_list. split.
  - intros (X & (u & -> & Hu%elem_of_elements)%list_elem_of_fmap & Hx%elem_of_list_to_set). by exists u.
  - intros (u & Hu & Hx). exists (list_to_set (sps_at u)). split; [|by apply elem_of_list_to_set].
    apply list_elem_of_fmap. exists u. split; [done|]. by apply elem_of_elements.
Qed.

Lemma elem_of_sps_at u x :
  x ∈ sps_at u <-> is_sp ir0 x = true /\ exists d, arena_get (blocks ir0) u = Some d /\ x ∈ stmts d.
Proof.
  unfold sps_at. destruct (arena_get (blocks ir0) u) as [d|].
  - rewrite elem_of_sps. split; [intros [? ?]; split; [done|by exists d]|]. intros (? & d' & [= ->] & ?). done.
  - split; [by intros ?%elem_of_nil|]. by intros (_ & d & ? & _).
Qed.

Lemma sps_of_placed D x : x ∈ sps_of D -> is_sp ir0 x = true /\
  exists u d, arena_get (blocks ir0) u = Some d /\ x ∈ stmts d.
Proof. intros (u & _ & (? & d & ? & ?)%elem_of_sps_at)%elem_of_sps_of. split; [done|]. by exists u, d. Qed.

Lemma sps_of_union D D' : sps_of (D ∪ D') = sps_of D ∪ sps_of D'.
Proof.
  apply set_eq. intros x. rewrite elem_of_union, !elem_of_sps_of. setoid_rewrite elem_of_union. naive_solver.
Qed.

Lemma sps_of_singleton u : sps_of {[u]} = list_to_set (sps_at u).
Proof.
  apply set_eq. intros x. rewrite elem_of_sps_of, elem_of_list_to_set. split; [|exists u; set_solver].
  by intros (v & ->%elem_of_singleton & ?).
Qed.

Section Once.
Context (Honce : sp_once ir0).

Lemma sps_at_disjoint u v x : x ∈ sps_at u -> x ∈ sps_at v -> u = v.
Proof.
  intros (Hx & d & Hd & [i Hi]%list_elem_of_lookup)%elem_of_sps_at (_ & d' & Hd' & [j Hj]%list_elem_of_lookup)%elem_of_sps_at.
  by destruct (Honce x v d' j u d i) as [-> _].
Qed.

Lemma sps_of_disjoint D u x : u ∉ D -> x ∈ sps_of D -> x ∉ sps_at u.
Proof. intros Hu (v & Hv & Hx)%elem_of_sps_of Hxu. apply Hu. by rewrite <- (sps_at_disjoint v u x). Qed.

Lemma sps_once_NoDup d u : arena_get (blocks ir0) u = Some d -> NoDup (sps ir0 (stmts d)).
Proof.
  intros Hd. assert (forall i j x, is_sp ir0 x = true -> stmts d !! i = Some x -> stmts d !! j = Some x -> i = j) as Hij.
  { intros i j x Hx Hi Hj. by destruct (Honce x u d j u d i) as [_ ->]. }
  clear Hd. induction (stmts d) as [|y l IH]; [constructor|]. unfold sps. rewrite filter_cons. fold (sps ir0 l).
  assert (NoDup (sps ir0 l)) as IH'.
  { apply IH. intros i j x Hx Hi Hj. by injection (Hij (S i) (S j) x Hx Hi Hj). }
  case_decide as Hy; [|done]. constructor; [|done]. intros [_ [i Hi]%list_elem_of_lookup]%elem_of_sps.
  discriminate (Hij 0%nat (S i) y Hy eq_refl Hi).
Qed.

Lemma sps_at_NoDup u : NoDup (sps_at u).
Proof. unfold sps_at. destruct (arena_get (blocks ir0) u) eqn:E; [by eapply sps_once_NoDup|constructor]. Qed.
End Once.

(** ** Soundness halfway *)

Context (N : Z).

Record sound (D : gset Block) (K R : gset Stmt) (G : gmap (Block * Block) HaltState) : Prop := {
  so_reset : R ⊆ K;
  so_checked : K ⊆ sps_of D;
  so_closed : forall u v, edge u v -> v ∈ D -> u ∈ D;
  so_edges : forall u v st, G !! (u, v) = Some st ->
    u ∈ D /\ v ∉ D /\ edge u v /\ covers N (sps_of D) K R st (leaves u);
  so_all : forall u v, u ∈ D -> edge u v -> v ∉ D -> is_Some (G !! (u, v));
  so_bounded : forall u r, u ∈ D -> leaves u r -> bounded N K r;
}.

Lemma sound_empty : sound ∅ ∅ ∅ ∅.
Proof. split; set_solver. Qed.

Lemma covers_seen (A A' K R : gset Stmt) st P : A ⊆ A' -> covers N A K R st P -> covers N A' K R st P.
Proof. intros HA []. split; [done..|set_solver|done|done]. Qed.

(** Blocks [C] join the processed ones. *)
Lemma sound_extend D C K R G K' R' G' (out : Block -> HaltState) :
  sound D K R G -> (forall u, u ∈ C -> u ∉ D) -> (forall u v, edge u v -> v ∈ C -> u ∈ D \/ u ∈ C) ->
  K ⊆ K' -> R ⊆ R' -> R' ⊆ K' -> K' ⊆ sps_of (D ∪ C) ->
  (forall x, x ∈ K' -> x ∈ K \/ x ∈ R' \/ x ∈ sps_of C) ->
  (forall u v st, G' !! (u, v) = Some st <->
    G !! (u, v) = Some st /\ v ∉ C \/ u ∈ C /\ v ∉ C /\ edge u v /\ st = out u) ->
  (forall u, u ∈ C -> covers N (sps_of (D ∪ C)) K' R' (out u) (leaves u)) ->
  (forall u r, u ∈ C -> leaves u r -> bounded N K' r) ->
  sp_once ir0 -> sound (D ∪ C) K' R' G'.
Proof.
  intros S HCD Hpred HK HR HRK HKs Hnew HG Hout Hb Honce. split; [done|done| | | |].
  - intros u v He [Hv|Hv]%elem_of_union; apply elem_of_union; [left; by eapply so_closed|by eapply Hpred].
  - intros u v st [[HG0 Hv]|(Hu & Hv & He & ->)]%HG.
    + destruct (so_edges _ _ _ _ S u v st HG0) as (? & ? & ? & Hc). split_and!; [set_solver|set_solver|done|].
      apply (covers_seen (sps_of D)); [rewrite sps_of_union; set_solver|].
      eapply covers_mono; [exact Hc|done|done|]. intros x Hx [?|[?|(w & Hw & HxC)%elem_of_sps_of]]%Hnew; [by left|by right|].
      exfalso. eapply (sps_of_disjoint Honce D w x); [by apply HCD|by eapply cv_seen|done].
    + split_and!; [set_solver| |done|by apply Hout]. intros [Hv'|?]%elem_of_union; [|done].
      apply (HCD u Hu). by eapply so_closed.
  - intros u v [Hu|Hu]%elem_of_union He [? ?]%not_elem_of_union.
    + destruct (so_all _ _ _ _ S u v) as [st Hst]; [done..|]. exists st. apply HG. by left.
    + exists (out u). apply HG. by right.
  - intros u r [Hu|Hu]%elem_of_union Hl; [|by apply (Hb u)].
    apply (bounded_mono N K); [done|]. by eapply so_bounded.
Qed.

(** ** Entering a component *)

Definition enters (D : gset Block) (v : Block) (r : list Stmt) : Prop :=
  v = ENTRYPOINT /\ r = [] \/ exists u, u ∈ D /\ edge u v /\ leaves u r.

Definition along (C : gset Block) (G : gmap (Block * Block) HaltState) (st : HaltState) (r : list Stmt) : Prop :=
  exists u v, v ∈ C /\ G !! (u, v) = Some st /\ leaves u r.

Lemma covers_incoming D K R G C l :
  sound D K R G -> (forall st, st ∈ l <-> exists u v, v ∈ C /\ G !! (u, v) = Some st) ->
  Forall2 (covers N (sps_of D) K R) l (along C G <$> l).
Proof.
  intros S Hl. apply Forall2_fmap_r, (Forall_Forall2_diag (fun st st' => covers N (sps_of D) K R st (along C G st'))), Forall_forall. intros st Hst.
  apply Hl in Hst as (u & v & Hv & HG). destruct (so_edges _ _ _ _ S u v st HG) as (_ & _ & _ & [? ? ? ? _]).
  split; [done..|]. intros r (u' & v' & Hv' & HG' & Hr).
  destruct (so_edges _ _ _ _ S u' v' st HG') as (_ & _ & _ & Hc). by apply (cv_traces _ _ _ _ _ _ Hc).
Qed.

Lemma covers_entering D K R G C l K' R' st :
  sound D K R G -> (forall st, st ∈ l <-> exists u v, v ∈ C /\ G !! (u, v) = Some st) ->
  (forall u, u ∈ C -> u ∉ D) ->
  covers N (sps_of D) K' R' st (fun r => Exists (fun P => P r) (along C G <$> l)) ->
  covers N (sps_of D) K' R' st (fun r => exists v, v ∈ C /\ enters D v r).
Proof.
  intros S Hl HCD [? ? ? ? Htr]. split; [done..|]. intros r (v & Hv & [[_ ->]|(u & Hu & He & Hr)]).
  { split; [by intros i x y _ ?|]. simpl. lia. }
  apply Htr. destruct (so_all _ _ _ _ S u v) as [st' HG]; [done..|by apply HCD|].
  apply Exists_exists. exists (along C G st'). split; [|by exists u, v].
  apply list_elem_of_fmap. exists st'. split; [done|]. apply Hl. by exists u, v.
Qed.

Lemma enters_bounded D K R G v r : 0 < N -> sound D K R G -> enters D v r -> bounded N K r.
Proof. intros ? S [[_ ->]|(u & Hu & _ & Hr)]; [by apply bounded_nil|by apply (so_bounded _ _ _ _ S u)]. Qed.

Lemma arrives_acyclic D u r :
  (forall w, edge w u -> w ∈ D) -> arrives u r -> enters D u r.
Proof.
  intros Hp Ha. inversion Ha as [|w v r0 Hw He]; subst; [by left|]. right. exists w.
  split_and!; [by apply Hp|done|by exists r0].
Qed.

(** In a component whose safepoints are all checked. *)
Lemma arrives_cyclic D C K R G K' R' st :
  0 < N -> sound D K R G -> K ⊆ K' -> sps_of C ⊆ K' -> (forall u v, edge u v -> v ∈ C -> u ∈ D \/ u ∈ C) ->
  covers N (sps_of D) K' R' st (fun r => exists v, v ∈ C /\ enters D v r) ->
  forall u r, arrives u r -> u ∈ C -> Z.of_nat (unchecked K' r) <= N - remaining st /\ bounded N K' r.
Proof.
  intros HN S HK HC Hp Hc. assert (forall v r, v ∈ C -> enters D v r ->
    Z.of_nat (unchecked K' r) <= N - remaining st /\ bounded N K' r) as Hent.
  { intros v r Hv He. split; [apply (cv_traces _ _ _ _ _ _ Hc); by exists v|].
    apply (bounded_mono N K); [done|]. by apply (enters_bounded D K R G v). }
  induction 1 as [|w v r Hw IH He]; intros Hv; [apply (Hent ENTRYPOINT); [done|by left]|].
  destruct (Hp w v He Hv) as [HwD|HwC].
  - apply (Hent v); [done|]. right. exists w. split_and!; [done..|by exists r].
  - destruct (IH HwC) as [Hu Hb].
    assert (Forall (fun x => x ∈ K') (reverse (sps_at w))) as Hf.
    { apply Forall_forall. intros x Hx. rewrite elem_of_reverse in Hx. apply HC, elem_of_sps_of. exists w. split; [exact HwC|exact Hx]. }
    split; [|by apply bounded_checked]. destruct Hf as [|x l Hx _]; [done|]. simpl. rewrite decide_True by done.
    pose proof (cv_range _ _ _ _ _ _ Hc). lia.
Qed.
End Traces.
