(* ===== verification/HaltPass.v ===== *)
(** * The pass, component by component

    Draining a component's incoming states, merging them, processing its blocks
    and handing the states on: each visit succeeds and keeps the invariant and the
    soundness, with the component's blocks added to the processed ones. *)

From S2P Require Import Prelude Arena Ir Tarjan SccGraph HaltCheck IrLogic HaltSplit HaltInv HaltProcess HaltMerge HaltTrace.
Local Open Scope Z_scope.
Local Open Scope emu_scope.

Lemma block_targets_NoDup t : NoDup (Term.block_targets t).
Proof.
  unfold Term.block_targets. destruct (targets t) as [|one [|two l]]; [constructor|apply NoDup_singleton|].
  case_decide; [apply NoDup_singleton|]. constructor; [by intros ?%list_elem_of_singleton|apply NoDup_singleton].
Qed.

Section Pass.
Context (ir0 : ExecIrBuilder) (hash_order : gset Block -> list Block)
  (Hhash : forall s, hash_order s ≡ₚ elements s) (Hwf : ir_wf ir0).
Context (N : Z) (HN : 0 < N).

Abbreviation Inv := (Inv ir0).
Abbreviation edge := (edge ir0 None).
Abbreviation with_map s m :=
  (mkInserter (inserter_ir s) (safepoint_stmt_to_block_and_index s) m (semantic_reset_after s)).

Lemma pass_once : sp_once ir0.
Proof. apply Hwf. Qed.

Lemma last_successors org K G s u last :
  Inv org K G s -> last_of ir0 (inserter_ir s) org K u last ->
  exists l, successors (inserter_ir s) last = Some l /\ NoDup l /\ forall v, v ∈ l <-> edge u v.
Proof.
  intros _ (d & Hd & (_ & dl & _ & Hdl & Ht & _)%chain_last). unfold successors. rewrite Hdl. simpl.
  eexists. split_and!; [done|apply block_targets_NoDup|]. intros v. rewrite Ht. unfold Tarjan.edge, successors.
  rewrite Hd. simpl. split; [intros ?; by eexists|]. by intros (l & [= <-] & ? & _).
Qed.

(** ** The states handed on *)

Section Successors.
Context (g : SccGraph) (id : SccComponent) (cyclic : bool) (inside : Block -> bool).
Context (Hinside : forall v, (get v < length (blocks ir0))%nat ->
  if cyclic then exists c, map_get (component_of g) v = Some c /\ bool_decide (c = id) = inside v
  else inside v = false).

Lemma add_successor_edges_spec org K G s u last st :
  Inv org K G s -> last_of ir0 (inserter_ir s) org K u last -> (forall v, G !! (u, v) = None) ->
  exists s' G', add_successor_edges g id cyclic last st s = Some (tt, s') /\ Inv org K G' s' /\
    semantic_reset_after s' = semantic_reset_after s /\
    forall u' v st', G' !! (u', v) = Some st' <->
      G !! (u', v) = Some st' \/ u' = u /\ edge u v /\ inside v = false /\ st' = st.
Proof.
  intros I Hl HG. unfold add_successor_edges.
  destruct (last_successors org K G s u last I Hl) as (succs & Es & Hnd & Hs).
  erewrite sm_bind_run; [|unfold sm_of_option; by rewrite Es].
  assert (forall v, v ∈ succs -> (get v < length (blocks ir0))%nat) as Hrange.
  { intros v (l & Hl' & Hv & _)%Hs. by eapply (graph_targets _ (wf_graph _ Hwf)). }
  assert (forall v, v ∈ succs -> G !! (u, v) = None) as HG' by auto.
  setoid_rewrite <- Hs. clear Es Hs HG. revert G s I Hl HG'. induction Hnd as [|v succs Hv Hnd IH]; intros G s I Hl HG.
  { exists s, G. split_and!; [done..|]. intros u' v st'. split; [by left|]. by intros [?|(_ & ?%elem_of_nil & _)]. }
  assert (exists s1 G1, (let! inside :=
      if cyclic then let! c := sm_of_option (map_get (component_of g) v) in sm_ret (bool_decide (c = id))
      else sm_ret false in
    if inside : bool then sm_ret tt
    else let! old := on_map (add_edge last v st) in
         sm_assert (match old with None => true | Some _ => false end)) s = Some (tt, s1) /\ Inv org K G1 s1 /\
    inserter_ir s1 = inserter_ir s /\ semantic_reset_after s1 = semantic_reset_after s /\
    G1 = if inside v then G else <[(u, v) := st]> G) as (s1 & G1 & E1 & I1 & Hir & Hr & HG1).
  { erewrite sm_bind_run with (a := inside v) (s' := s).
    2:{ specialize (Hinside v (Hrange v ltac:(by left))). destruct cyclic; [|by rewrite Hinside].
        destruct Hinside as (c & Ec & <-). erewrite sm_bind_run; [done|]. unfold sm_of_option. by rewrite Ec. }
    destruct (inside v); [by exists s, G|].
    destruct (add_edge_spec ir0 hash_order Hhash org K G s u last v st I Hl) as (s1 & E & ? & ? & ?); [apply HG; by left|].
    exists s1, (<[(u, v) := st]> G). split_and!; [|done..]. by erewrite sm_bind_run; [|exact E]. }
  destruct (IH (fun w Hw => Hrange w ltac:(by right)) G1 s1 I1) as (s' & G' & E & I' & Hr' & HG').
  { by rewrite Hir. }
  { intros w Hw. rewrite HG1. destruct (inside v); [apply HG; by right|].
    rewrite lookup_insert_ne; [apply HG; by right|]. by intros [= ->]. }
  exists s', G'. split_and!; [|done|by rewrite Hr'|].
  - erewrite sm_for_run; [exact E|exact E1].
  - intros u' w st'. rewrite HG', HG1, elem_of_cons. destruct (inside v) eqn:Ev.
    { split; [intros [?|(? & ? & ? & ?)]; [by left|by right; auto]|].
      intros [?|(? & [->|?] & ? & ?)]; [by left|congruence|by right]. }
    rewrite lookup_insert_Some. split.
    + intros [[[[= <- <-] <-]|[_ ?]]|(-> & ? & ? & ->)]; [right; auto|by left|right; auto].
    + intros [Hg|(-> & [->|?] & ? & ->)]; [|by left; left|by right].
      left. right. split; [|done]. intros [= <- <-]. by rewrite HG in Hg by by left.
Qed.
End Successors.

(** ** The incoming states *)

Lemma drain_all_spec C org K G s :
  Inv org K G s ->
  exists l m' G', drain_all hash_order C (state_map s) = Some (l, m') /\ Inv org K G' (with_map s m') /\
    (forall st, st ∈ l <-> exists u v, v ∈ C /\ G !! (u, v) = Some st) /\
    forall u v st, G' !! (u, v) = Some st <-> G !! (u, v) = Some st /\ v ∉ C.
Proof.
  revert G s. induction C as [|b C IH]; intros G s I.
  { exists [], (state_map s), G. split_and!; [done|by destruct s| |].
    - intros st. split; [by intros ?%elem_of_nil|by intros (? & ? & ?%elem_of_nil & _)].
    - intros u v st. split; [intros ?; split; [done|apply not_elem_of_nil]|by intros [? _]]. }
  destruct (drain_incoming_spec ir0 hash_order Hhash org K G s b I) as (l1 & m1 & E1 & I1 & H1).
  destruct (IH _ _ I1) as (l2 & m2 & G2 & E2 & I2 & H2 & HG2). cbn [state_map] in E2.
  exists (l1.*2 ++ l2), m2, G2. split_and!; [|exact I2| |].
  - simpl. erewrite sm_bind_run; [|exact E1]. by erewrite sm_bind_run; [|exact E2].
  - intros st. rewrite elem_of_app, H1, H2. setoid_rewrite elem_of_cons. split.
    + intros [(u & ?)|(u & v & ? & [? ?]%drop_target_lookup)]; [exists u, b; auto|exists u, v; auto].
    + intros (u & v & Hv & HG). destruct (decide (v = b)) as [->|Hne]; [left; by exists u|right].
      exists u, v. split; [by destruct Hv|]. by apply drop_target_lookup.
  - intros u v st. rewrite HG2, drop_target_lookup, not_elem_of_cons. tauto.
Qed.

(** ** The blocks of a component *)

Lemma unchecked_block org K G s u d :
  Inv org K G s -> (forall x, x ∈ sps_at ir0 u -> x ∉ K) -> arena_get (blocks ir0) u = Some d ->
  forall x, x ∈ stmts d -> x ∉ K.
Proof.
  intros I HK Hd x Hx HxK. apply (HK x); [|done]. apply elem_of_sps_at. split; [by eapply iv_checked|]. by exists d.
Qed.

Definition cyclic_out (rem : Z) (u : Block) : HaltState :=
  from_remaining (match sps_at ir0 u with [] => rem | _ => N end).

Lemma process_cyclic_spec g id inside rem l org K G s :
  (forall v, (get v < length (blocks ir0))%nat ->
    exists c, map_get (component_of g) v = Some c /\ bool_decide (c = id) = inside v) ->
  NoDup l -> Inv org K G s -> (forall u, u ∈ l -> (get u < length (blocks ir0))%nat) ->
  (forall u x, u ∈ l -> x ∈ sps_at ir0 u -> x ∉ K) -> (forall u v, u ∈ l -> G !! (u, v) = None) ->
  exists s' org' G', process_component hash_order N g id true l (mkCyclic None rem) s = Some (tt, s') /\
    Inv org' (sps_of ir0 (list_to_set l) ∪ K) G' s' /\ semantic_reset_after s' = semantic_reset_after s /\
    forall u v st, G' !! (u, v) = Some st <->
      G !! (u, v) = Some st \/ u ∈ l /\ edge u v /\ inside v = false /\ st = cyclic_out rem u.
Proof.
  intros Hins Hnd. revert org K G s. induction Hnd as [|u l Hu Hnd IH]; intros org K G s I Hl HK HG.
  { exists s, org, G. replace (sps_of ir0 (list_to_set []) ∪ K) with K by (symmetry; apply (left_id_L ∅ (∪))).
    split_and!; [done..|]. intros u v st. split; [by left|]. by intros [?|(?%elem_of_nil & _)]. }
  destruct (lookup_lt_is_Some_2 (blocks ir0) (get u)) as [d Hd]; [apply Hl; by left|].
  assert (sps_at ir0 u = sps ir0 (stmts d)) as Es by (unfold sps_at, arena_get; by rewrite Hd).
  destruct (process_block_spec (H := CyclicBlockHalter) ir0 hash_order Hhash (wf_room _ Hwf) N org K G s u d _ _ _ I Hd
    (unchecked_block _ _ _ _ _ _ I (fun x => HK u x ltac:(by left)) Hd) (scan_cyclic N _ None rem))
    as (s1 & org1 & last & E1 & I1 & Hr1 & Hl1). rewrite <- Es in E1, I1, Hl1.
  destruct (add_successor_edges_spec g id true inside Hins org1 _ G s1 u last (cyclic_out rem u) I1 Hl1)
    as (s2 & G2 & E2 & I2 & Hr2 & HG2); [intros v; apply HG; by left|].
  destruct (IH org1 (list_to_set (sps_at ir0 u) ∪ K) G2 s2 I2) as (s' & org' & G' & E & I' & Hr & HG').
  { intros v ?. apply Hl. by right. }
  { intros v x Hv Hx [Hx'%elem_of_list_to_set|Hx']%elem_of_union; [|eapply HK; [by right|done..]].
    apply Hu. by rewrite (sps_at_disjoint ir0 pass_once u v x). }
  { intros v w Hv. destruct (G2 !! (v, w)) eqn:Ev; [exfalso|done].
    apply HG2 in Ev as [Ev|(-> & _)]; [|done]. by rewrite HG in Ev by by right. }
  exists s', org', G'. split_and!; [| |by rewrite Hr, Hr2|].
  - simpl. erewrite sm_bind_run; [|exact E1]. cbn beta iota zeta.
    replace ((take_current_state _).1) with (cyclic_out rem u) by (unfold cyclic_out; by destruct (sps_at ir0 u)).
    erewrite sm_bind_run; [|exact E2].
    replace ((take_current_state _).2) with (mkCyclic None rem) by (by destruct (sps_at ir0 u)). exact E.
  - replace (sps_of ir0 (list_to_set (u :: l)) ∪ K) with (sps_of ir0 (list_to_set l) ∪ (list_to_set (sps_at ir0 u) ∪ K)); [done|].
    rewrite list_to_set_cons, sps_of_union, sps_of_singleton. set_solver.
  - intros v w st. rewrite HG', HG2, elem_of_cons. clear. split.
    + intros [[?|(-> & ? & ? & ->)]|(? & ? & ? & ?)]; [by left|right; auto..].
    + intros [?|([->|?] & ? & ? & ->)]; [left; by left|left; by right|by right].
Qed.
(** ** One component *)

Section Visit.
Context (g : SccGraph) (Hg : graph_spec ir0 g).
Context (id : SccComponent) (Cl : list Block) (HCl : scc_components g !! get id = Some Cl).
Context (D K : gset Block) (G : gmap (Block * Block) HaltState) (org : gmap Block Block) (s : HaltCheckInserter).
Context (HS : sound ir0 N D K (semantic_reset_after s) G) (I : Inv org K G s).
Context (HCD : forall u, u ∈ Cl -> u ∉ D) (Hpred : forall u v, edge u v -> v ∈ Cl -> u ∈ D \/ u ∈ Cl).

Abbreviation C := (list_to_set Cl : gset Block).

Lemma visit_in_graph u : u ∈ Cl -> (get u < length (blocks ir0))%nat.
Proof.
  intros Hu. apply (co_all _ _ _ (gs_components _ _ Hg) u), elem_of_concat.
  exists Cl. split; [done|by eapply list_elem_of_lookup_2].
Qed.

Lemma visit_NoDup : NoDup Cl.
Proof. eapply co_nodup_component; [apply Hg|by eapply list_elem_of_lookup_2]. Qed.

(** The state that enters the component. *)
Lemma visit_merge :
  exists l m' st s1 org1 K1 G1,
    drain_all hash_order Cl (state_map s) = Some (l, m') /\
    merge_halt_states hash_order N l (with_map s m') = Some (st, s1) /\
    Inv org1 K1 G1 s1 /\ checks (sps_of ir0 D) K (semantic_reset_after s) K1 (semantic_reset_after s1) /\
    (forall u v st, G1 !! (u, v) = Some st <-> G !! (u, v) = Some st /\ v ∉ Cl) /\
    covers N (sps_of ir0 D) K1 (semantic_reset_after s1) st (fun r => exists v, v ∈ C /\ enters ir0 D v r).
Proof.
  destruct (drain_all_spec Cl org K G s I) as (l & m' & G1 & E & I' & Hl & HG1).
  assert (forall st, st ∈ l <-> exists u v, v ∈ C /\ G !! (u, v) = Some st) as Hl'.
  { intros st. rewrite Hl. by setoid_rewrite elem_of_list_to_set. }
  destruct (merge_states_spec ir0 hash_order Hhash (wf_room _ Hwf) N (sps_of ir0 D) (sps_of_placed ir0 D)
    org K G1 (with_map s m') l (along ir0 C G <$> l) HN I') as (st & s1 & org1 & K1 & E1 & I1 & Hck & Hc).
  { apply HS. }
  { by eapply covers_incoming. }
  exists l, m', st, s1, org1, K1, G1. split_and!; [done..|].
  eapply covers_entering; [exact HS|exact Hl'| |exact Hc]. intros u ?%elem_of_list_to_set. by apply HCD.
Qed.

Lemma visit_fresh K1 R1 :
  checks (sps_of ir0 D) K (semantic_reset_after s) K1 R1 -> forall u x, u ∈ Cl -> x ∈ sps_at ir0 u -> x ∉ K1.
Proof.
  intros Hck u x Hu Hx HxK. apply (sps_of_disjoint ir0 pass_once D u x); [by apply HCD| |done].
  apply (gr_new _ _ _ _ _ Hck) in HxK as [HxK|[? _]]; [|done]. by apply (so_checked _ _ _ _ _ _ HS).
Qed.

Lemma visit_not_out u v : u ∈ Cl -> G !! (u, v) = None.
Proof.
  intros Hu. destruct (G !! (u, v)) as [st|] eqn:E; [exfalso|done].
  apply (so_edges _ _ _ _ _ _ HS) in E as [? _]. by apply (HCD u).
Qed.

Lemma visit_checked K1 R1 ks :
  checks (sps_of ir0 D) K (semantic_reset_after s) K1 R1 -> (forall x, x ∈ ks -> x ∈ sps_of ir0 C) ->
  ks ∪ K1 ⊆ sps_of ir0 (D ∪ C) /\ forall x, x ∈ ks ∪ K1 -> x ∈ K \/ x ∈ R1 \/ x ∈ sps_of ir0 C.
Proof.
  intros Hck Hks. pose proof (so_checked _ _ _ _ _ _ HS) as HK. rewrite sps_of_union. split.
  - intros x [?%Hks|[?%HK|[? _]]%(gr_new _ _ _ _ _ Hck)]%elem_of_union; set_solver.
  - intros x [?%Hks|[?|[_ ?]]%(gr_new _ _ _ _ _ Hck)]%elem_of_union; auto.
Qed.

Definition visited_ok : Prop :=
  exists s' org' K' G', visit_component hash_order N g id s = Some (tt, s') /\ Inv org' K' G' s' /\
    sound ir0 N (D ∪ C) K' (semantic_reset_after s') G'.

(** A component with a cycle: every safepoint is checked. *)
Lemma visit_cyclic : set_contains id (is_cyclic g) = true -> visited_ok.
Proof.
  intros Hcyc. destruct visit_merge as (l & m' & st & s1 & org1 & K1 & G1 & E & E1 & I1 & Hck & HG1 & Hc).
  set (inside v := bool_decide (v ∈ Cl)).
  assert (forall v, (get v < length (blocks ir0))%nat ->
    exists c, map_get (component_of g) v = Some c /\ bool_decide (c = id) = inside v) as Hins.
  { intros v Hv. destruct (component_exists ir0 _ (gs_components _ _ Hg) v) as (c & Hcv & _); [by split|].
    exists c. split; [by apply (gs_component_of _ _ Hg)|]. apply bool_decide_ext. split.
    - intros ->. destruct Hcv as (C' & HC' & ?). by simplify_eq.
    - intros ?. eapply component_inj; [apply Hg|done|by exists Cl]. }
  destruct (process_cyclic_spec g id inside (remaining st) Cl org1 K1 G1 s1 Hins visit_NoDup I1)
    as (s' & org' & G' & E2 & I' & Hr & HG'); [apply visit_in_graph|by eapply visit_fresh| |].
  { intros u v Hu. destruct (G1 !! (u, v)) eqn:Ev; [|done]. apply HG1 in Ev as [Ev _]. by rewrite visit_not_out in Ev. }
  exists s', org', (sps_of ir0 C ∪ K1), G'. split_and!; [|exact I'|].
  { unfold visit_component. erewrite sm_bind_run; [|unfold sm_of_option, arena_get; by rewrite HCl].
    erewrite sm_bind_run; [|unfold on_map; by rewrite E]. erewrite sm_bind_run; [|exact E1]. rewrite Hcyc. exact E2. }
  destruct (visit_checked K1 _ (sps_of ir0 C) Hck ltac:(done)) as [Hsub Hnew].
  assert (forall u v, edge u v -> v ∈ C -> u ∈ D \/ u ∈ C) as Hpred'.
  { intros u v. rewrite !elem_of_list_to_set. apply Hpred. }
  pose proof (gr_K _ _ _ _ _ Hck) as HK1.
  assert (covers N (sps_of ir0 D) (sps_of ir0 C ∪ K1) (semantic_reset_after s') st
    (fun r => exists v, v ∈ C /\ enters ir0 D v r)) as Hc'.
  { rewrite Hr. eapply covers_mono; [exact Hc|set_solver|done|].
    intros x Hx%(cv_seen _ _ _ _ _ _ Hc) [(u & Hu & Hxu)%elem_of_sps_of|?]%elem_of_union; [exfalso|by left].
    eapply (sps_of_disjoint ir0 pass_once D u x); [|done..]. apply HCD. by apply elem_of_list_to_set in Hu. }
  pose proof (arrives_cyclic ir0 N D C K _ G (sps_of ir0 C ∪ K1) _ st HN HS ltac:(set_solver) ltac:(set_solver) Hpred' Hc') as Harr.
  assert (forall u, u ∈ C -> Forall (fun x => x ∈ sps_of ir0 C ∪ K1) (reverse (sps_at ir0 u))) as Hall.
  { intros u Hu. apply Forall_forall. intros x Hx. rewrite elem_of_reverse in Hx.
    apply elem_of_union_l, elem_of_sps_of. by exists u. }
  eapply (sound_extend ir0 N D C K _ G _ _ _ (cyclic_out (remaining st)));
    [exact HS| |exact Hpred'|set_solver|rewrite Hr; apply Hck|rewrite Hr; pose proof (gr_sub _ _ _ _ _ Hck); set_solver|done|rewrite Hr; done| | | |apply pass_once].
  - intros u ?%elem_of_list_to_set. by apply HCD.
  - intros u v st'. rewrite HG', HG1, !elem_of_list_to_set. unfold inside. rewrite bool_decide_eq_false.
    pose proof (visit_not_out u v). clear - H. naive_solver.
  - intros u Hu. unfold cyclic_out. pose proof (cv_range _ _ _ _ _ _ Hc').
    apply covers_from_remaining; [destruct (sps_at ir0 u); lia|]. intros r (r0 & Hr0 & ->).
    destruct (Harr u r0 Hr0 Hu) as [Hle _]. specialize (Hall u Hu). rewrite <- (reverse_involutive (sps_at ir0 u)) at 2.
    destruct Hall as [|x l' Hx _]; [exact Hle|]. simpl. rewrite decide_True by done.
    destruct (reverse (x :: l')) eqn:El; [|lia]. by apply (f_equal length) in El; rewrite length_reverse in El.
  - intros u r Hu (r0 & Hr0 & ->). apply bounded_checked; [done|by apply Hall|]. by apply (Harr u r0).
Qed.

(** A component of one block that does not jump to itself. *)
Lemma visit_single : set_contains id (is_cyclic g) = false -> exists u, Cl = [u] /\ ~ edge u u.
Proof.
  intros Hcyc. pose proof (gs_cyclic _ _ Hg _ _ HCl) as Hc. rewrite Hcyc in Hc.
  assert (forall v, v ∈ Cl -> ~ tc edge v v) as Hno by (intros v Hv Ht; discriminate (proj2 Hc (ex_intro _ v (conj Hv Ht)))).
  assert (Cl ∈ scc_components g) as Hin by by eapply list_elem_of_lookup_2.
  pose proof (gs_components _ _ Hg) as Hco. pose proof visit_NoDup as Hnd. destruct Cl as [|u [|w l]] eqn:El.
  - by destruct (co_nonempty _ _ _ Hco).
  - exists u. split; [done|]. intros He. apply (Hno u); [by left|]. by apply tc_once.
  - exfalso. apply NoDup_cons in Hnd as [Huw _].
    destruct (proj1 (co_scc _ _ _ Hco _ u w Hin ltac:(by left)) ltac:(set_solver)) as [H1 H2].
    apply (Hno u); [by left|]. apply rtc_tc in H1 as [->|H1]; [set_solver|]. by eapply tc_rtc_r.
Qed.

Lemma visit_acyclic : set_contains id (is_cyclic g) = false -> visited_ok.
Proof.
  intros Hcyc. destruct (visit_single Hcyc) as (u & HCu & Hself).
  destruct visit_merge as (l & m' & st & s1 & org1 & K1 & G1 & E & E1 & I1 & Hck & HG1 & Hc).
  assert (u ∈ Cl) as Hu by (rewrite HCu; by left). pose proof (visit_fresh _ _ Hck u) as Hfresh.
  assert (forall r, arrives ir0 u r -> enters ir0 D u r) as Hent.
  { intros r. apply arrives_acyclic. intros w Hw. destruct (Hpred w u Hw Hu) as [|Hw']; [done|].
    rewrite HCu in Hw'. by apply list_elem_of_singleton in Hw' as ->. }
  destruct (scan_acyclic N (sps_at ir0 u) (sps_of ir0 D) K1 (semantic_reset_after s1) st (arrives ir0 u)) as (ks & st' & Es & Hks & Hc' & Hb).
  { eapply covers_weaken; [exact Hc|]. intros r Hr. exists u. split; [by apply elem_of_list_to_set|by apply Hent]. }
  { apply sps_at_NoDup, pass_once. }
  { intros x. by apply Hfresh. }
  destruct (lookup_lt_is_Some_2 (blocks ir0) (get u)) as [d Hd]; [by apply visit_in_graph|].
  assert (sps_at ir0 u = sps ir0 (stmts d)) as Esu by (unfold sps_at, arena_get; by rewrite Hd). rewrite Esu in Es.
  destruct (process_block_spec (H := ACyclicBlockHalter) ir0 hash_order Hhash (wf_room _ Hwf) N org1 K1 G1 s1 u d _ _ _ I1 Hd
    (unchecked_block _ _ _ _ _ _ I1 (fun x => Hfresh x Hu) Hd) Es) as (s2 & org2 & last & E2 & I2 & Hr2 & Hl2).
  destruct (add_successor_edges_spec g id false (fun _ => false) ltac:(done) org2 _ G1 s2 u last st' I2 Hl2)
    as (s' & G' & E3 & I' & Hr & HG').
  { intros v. destruct (G1 !! (u, v)) eqn:Ev; [|done]. apply HG1 in Ev as [Ev _]. by rewrite visit_not_out in Ev. }
  exists s', org2, (list_to_set ks ∪ K1), G'. split_and!; [|exact I'|].
  { unfold visit_component. erewrite sm_bind_run; [|unfold sm_of_option, arena_get; by rewrite HCl].
    erewrite sm_bind_run; [|unfold on_map; by rewrite E]. erewrite sm_bind_run; [|exact E1]. rewrite Hcyc, HCu. simpl.
    erewrite sm_bind_run; [|done]. erewrite sm_bind_run; [|exact E2]. cbn beta iota zeta.
    by erewrite sm_bind_run; [|exact E3]. }
  assert (sps_of ir0 C = list_to_set (sps_at ir0 u)) as EsC by (rewrite HCu; simpl; by rewrite (right_id_L ∅ (∪)), sps_of_singleton).
  destruct (visit_checked K1 _ (list_to_set ks) Hck) as [Hsub Hnew].
  { intros x Hx%elem_of_list_to_set%Hks. rewrite EsC. by apply elem_of_list_to_set. }
  pose proof (gr_K _ _ _ _ _ Hck) as HK1. rewrite <- Hr2 in *. rewrite <- Hr in *.
  eapply (sound_extend ir0 N D C K _ G _ _ _ (fun _ => st'));
    [exact HS| | |set_solver|apply Hck|pose proof (gr_sub _ _ _ _ _ Hck); set_solver|done|done| | | |apply pass_once].
  - intros v ?%elem_of_list_to_set. by apply HCD.
  - intros w v. rewrite !elem_of_list_to_set. apply Hpred.
  - intros w v st0. rewrite HG', HG1, !elem_of_list_to_set, HCu, !list_elem_of_singleton. clear - Hself. split.
    + intros [?|(-> & He & _ & ->)]; [by left|right]. split_and!; [done| |done..]. by intros ->.
    + intros [?|(-> & _ & He & ->)]; [by left|by right].
  - intros v Hv. rewrite HCu in Hv. rewrite elem_of_list_to_set, list_elem_of_singleton in Hv. subst v.
    rewrite sps_of_union, EsC, (union_comm_L (sps_of ir0 D)). eapply covers_weaken; [exact Hc'|].
    intros r (r0 & ? & ->). by exists r0.
  - intros v r Hv (r0 & Hr0 & ->). rewrite HCu in Hv. rewrite elem_of_list_to_set, list_elem_of_singleton in Hv. subst v.
    apply Hb; [done|]. apply (bounded_mono N K); [done|]. eapply enters_bounded; [done|exact HS|by apply Hent].
Qed.

Lemma visit_component_spec : visited_ok.
Proof. destruct (set_contains id (is_cyclic g)) eqn:E; [by apply visit_cyclic|by apply visit_acyclic]. Qed.
End Visit.
End Pass.
