(* ===== verification/HaltSound.v ===== *)
(** * What the whole pass achieves

    The pass ends with every block processed, and the soundness of its last state
    is read off the IR it leaves: along every path of the control-flow graph a
    halt check follows the [N]-th safepoint. *)

From S2P Require Import Prelude Arena Ir Tarjan SccGraph HaltCheck IrLogic HaltSplit HaltInv HaltProcess HaltMerge HaltTrace HaltPass.
Local Open Scope Z_scope.
Local Open Scope emu_scope.

(** ** Halt checks in a finished IR *)

(** The block ends by reading the halt word and leaving when it is not zero. *)
Definition block_checks_halt (ir : ExecIrBuilder) (d : BlockData) : bool :=
  match leave_and_take_halt ir, last (stmts d) with
  | Some lv, Some h =>
      match arena_get (all_stmts ir) h, kind (terminator d), targets (terminator d) with
      | Some (mkStmt [v] KLoadHaltReason), TkBrZ cond, [_; leave] =>
          bool_decide (cond = v /\ leave = jump_to lv)
      | _, _, _ => false
      end
  | _, _ => false
  end.

(** Control can stand before statement [i] of block [b] with [n] safepoints behind
    it since the last halt check. *)
Inductive since_check (ir : ExecIrBuilder) : Block -> nat -> nat -> Prop :=
  | since_entry : since_check ir ENTRYPOINT 0 0
  | since_stmt b i n d x :
      since_check ir b i n -> arena_get (blocks ir) b = Some d -> stmts d !! i = Some x ->
      since_check ir b (S i) (if is_sp ir x then S n else n)
  | since_jump b n d v :
      since_check ir b (length (stmts d)) n -> arena_get (blocks ir) b = Some d ->
      v ∈ Term.block_targets (terminator d) ->
      since_check ir v 0 (if block_checks_halt ir d then 0 else n).

Section Whole.
Context (ir0 : ExecIrBuilder) (hash_order : gset Block -> list Block)
  (Hhash : forall s, hash_order s ≡ₚ elements s) (Hwf : ir_wf ir0).
Abbreviation N := (Ir.halt_check_every ir0).
Context (HN : 0 < N).

Abbreviation Inv := (Inv ir0).
Abbreviation edge := (edge ir0 None).

(** ** All components *)

Section Components.
Context (g : SccGraph) (Hg : graph_spec ir0 g).

Definition blocks_of (l : list SccComponent) : gset Block :=
  list_to_set (concat (omap (fun c => scc_components g !! get c) l)).

Lemma elem_of_blocks_of l u : u ∈ blocks_of l <-> exists c, c ∈ l /\ in_component (scc_components g) c u.
Proof.
  unfold blocks_of. rewrite elem_of_list_to_set, elem_of_concat. unfold in_component. split.
  - intros (C & Hu & (c & Hc & HC)%list_elem_of_omap). exists c. split; [done|]. by exists C.
  - intros (c & Hc & C & HC & Hu). exists C. split; [done|]. apply list_elem_of_omap. by exists c.
Qed.

Lemma visit_all l2 : forall l1 org K G s,
  topo_order g = l1 ++ l2 -> sound ir0 N (blocks_of l1) K (semantic_reset_after s) G -> Inv org K G s ->
  exists s' org' K' G', sm_for l2 (visit_component hash_order N g) s = Some (tt, s') /\ Inv org' K' G' s' /\
    sound ir0 N (blocks_of (topo_order g)) K' (semantic_reset_after s') G'.
Proof.
  induction l2 as [|c l2 IH]; intros l1 org K G s E HS I.
  { rewrite app_nil_r in E. subst l1. by exists s, org, K, G. }
  assert (exists C, scc_components g !! get c = Some C) as [C HC].
  { apply lookup_lt_is_Some_2, (gs_all _ _ Hg). rewrite E. set_solver. }
  assert (c ∉ l1) as Hc.
  { pose proof (gs_nodup _ _ Hg) as Hnd. rewrite E in Hnd. apply NoDup_app in Hnd as (_ & Hd & _).
    intros Hc. apply (Hd c Hc). by left. }
  pose proof (fun c d v => component_inj _ _ (gs_components _ _ Hg) c d v) as Hinj.
  assert (blocks_of (l1 ++ [c]) = blocks_of l1 ∪ list_to_set C) as Eb.
  { apply set_eq. intros u. rewrite elem_of_union, !elem_of_blocks_of, elem_of_list_to_set. split.
    - intros (c' & [?| ->%list_elem_of_singleton]%elem_of_app & HCu); [left; by exists c'|right].
      destruct HCu as (C' & ? & ?). by simplify_eq.
    - intros [(c' & ? & ?)|?]; [exists c'|exists c]; (split; [set_solver|]); [done|by exists C]. }
  destruct (visit_component_spec ir0 hash_order Hhash Hwf N HN g Hg c C HC (blocks_of l1) K G org s HS I)
    as (s1 & org1 & K1 & G1 & E1 & I1 & HS1).
  { intros u Hu (c' & Hc' & Hu')%elem_of_blocks_of. apply Hc. rewrite (Hinj c c' u); [done|by exists C|done]. }
  { intros u v He Hv. rewrite elem_of_blocks_of.
    assert (in_graph ir0 None u) as Hu.
    { destruct He as (l & Hl & _). unfold successors, arena_get in Hl. apply fmap_Some in Hl as (d & Hd%lookup_lt_Some & _). by split. }
    destruct (component_exists ir0 _ (gs_components _ _ Hg) u Hu) as (c' & Hc' & _).
    destruct (decide (c' = c)) as [->|Hne].
    - right. destruct Hc' as (C' & ? & ?). by simplify_eq.
    - left. exists c'. split; [|done]. eapply (gs_order _ _ Hg); [exact E|]. split; [done|].
      exists u, v. split_and!; [done..|by exists C]. }
  rewrite <- Eb in HS1.
  destruct (IH (l1 ++ [c]) org1 K1 G1 s1) as (s' & org' & K' & G' & E' & I' & HS'); [by rewrite <- app_assoc|done..|].
  exists s', org', K', G'. split_and!; [|done..]. by erewrite sm_for_run.
Qed.
End Components.

Lemma pass_spec :
  ~ quiet_cycle ir0 ->
  exists s org K G, insert_halt_checks hash_order ir0 = Some (inserter_ir s) /\ Inv org K G s /\
    forall u r, (get u < length (blocks ir0))%nat -> leaves ir0 u r -> bounded N K r.
Proof.
  intros Hq. destruct (scc_graph_spec ir0 (wf_graph _ Hwf) (wf_stmts _ Hwf) Hq) as (g & Eg & Hg).
  destruct (inserter_new_spec ir0 Hwf) as (s0 & Es & Eir & Er & I0).
  destruct (visit_all g Hg (topo_order g) [] (org0 ir0) ∅ ∅ s0 eq_refl) as (s & org & K & G & E & I & HS); [|done|].
  { rewrite Er. apply sound_empty. }
  exists s, org, K, G. split_and!; [|done|].
  - unfold insert_halt_checks. rewrite Eg. cbn [mbind option_bind]. rewrite Es. cbn [mbind option_bind]. by rewrite E.
  - intros u r Hu. apply (so_bounded _ _ _ _ _ _ HS). apply elem_of_blocks_of.
    destruct (component_exists ir0 _ (gs_components _ _ Hg) u) as (c & Hc & ?); [by split|].
    exists c. split; [by apply (gs_all _ _ Hg)|done].
Qed.

(** ** Reading the result *)

Section Reading.
Context (s : HaltCheckInserter) (org : gmap Block Block) (K : gset Stmt) (G : gmap (Block * Block) HaltState).
Context (I : Inv org K G s).
Context (Hb : forall u r, (get u < length (blocks ir0))%nat -> leaves ir0 u r -> bounded N K r).
Abbreviation ir := (inserter_ir s).

Lemma unchecked_app l r : Forall (fun x => x ∉ K) l -> unchecked K (reverse l ++ r) = (length l + unchecked K r)%nat.
Proof.
  intros Hl. rewrite <- length_reverse. assert (Forall (fun x => x ∉ K) (reverse l)) as Hl' by by apply Forall_reverse.
  induction Hl' as [|x l' Hx _ IH]; [done|]. simpl. by rewrite decide_False, IH.
Qed.

(** Where control stands: in the leaving block, or in a piece of an original block
    behind its statements [lb]. *)
Definition stands (b : Block) (i n : nat) : Prop :=
  (leave_and_take_halt ir = Some b /\ n = 0%nat) \/
  exists u r0 d0 lb l last d, arrives ir0 u r0 /\ arena_get (blocks ir0) u = Some d0 /\ stmts d0 = lb ++ l /\
    chain ir0 ir org K u b l (terminator d0) last /\ arena_get (blocks ir) b = Some d /\
    (n <= unchecked K (reverse (sps ir0 lb) ++ r0) + length (sps ir0 (take i (stmts d))))%nat.

Lemma stands_arrives u r n :
  arrives ir0 u r -> (get u < length (blocks ir0))%nat -> (n <= unchecked K r)%nat -> stands u 0 n.
Proof.
  intros Ha [d0 Hd0]%lookup_lt_is_Some_2 Hn. right.
  destruct (iv_chain _ _ _ _ _ I u d0 Hd0) as (last & d & Hch & Hd & _).
  exists u, r, d0, [], (stmts d0), last, d. split_and!; [done..|]. rewrite take_0. simpl. lia.
Qed.

Lemma check_block b d l h v c lv :
  leave_and_take_halt ir = Some lv -> stmts d = l ++ [h] ->
  arena_get (all_stmts ir) h = Some (mkStmt [v] KLoadHaltReason) ->
  terminator d = Term.BrZ v (jump_to c) (jump_to lv) -> arena_get (blocks ir) b = Some d ->
  block_checks_halt ir d = true.
Proof.
  intros El Es Eh Et _. unfold block_checks_halt. rewrite El, Es, last_snoc, Eh, Et. simpl. by apply bool_decide_eq_true.
Qed.

Lemma unchecked_sps l : Forall (fun x => x ∉ K) l -> Forall (fun x => x ∉ K) (sps ir0 l).
Proof. rewrite !Forall_forall. intros H x [_ ?]%elem_of_sps. auto. Qed.

Lemma load_halt_not_sp h v : arena_get (all_stmts ir) h = Some (mkStmt [v] KLoadHaltReason) -> is_sp ir0 h = false.
Proof. intros Eh. rewrite <- (iv_is_sp ir0 _ _ _ _ I). unfold is_sp. by rewrite Eh. Qed.

Lemma since_stands b i n : since_check ir b i n -> stands b i n.
Proof.
  induction 1 as [|b i n d x _ IH Hd Hx|b n d v _ IH Hd Hv].
  - apply (stands_arrives ENTRYPOINT []); [constructor| |simpl; lia].
    destruct (wf_entry _ Hwf) as [d Hd]. by apply lookup_lt_Some in Hd.
  - destruct IH as [[El ->]|(u & r0 & d0 & lb & l & last & d' & Ha & Hd0 & E & Hch & Hd' & Hn)].
    + left. split; [done|]. destruct (iv_leave _ _ _ _ _ I b El) as (_ & d' & h & v & Hd' & _ & Est & Hh & _).
      rewrite Hd in Hd'. injection Hd' as <-. rewrite Est in Hx. apply list_lookup_singleton_Some in Hx as [_ <-].
      unfold is_sp. by rewrite Hh.
    + right. rewrite Hd in Hd'. injection Hd' as <-. exists u, r0, d0, lb, l, last, d. split_and!; [done..|].
      rewrite (take_S_r _ _ _ Hx), sps_app, length_app.
      unfold sps at 3. rewrite filter_cons, filter_nil, (iv_is_sp ir0 _ _ _ _ I).
      destruct (is_sp ir0 x); simpl; lia.
  - destruct IH as [[El ->]|(u & r0 & d0 & lb & l & last & d' & Ha & Hd0 & E & Hch & Hd' & Hn)].
    + destruct (iv_leave _ _ _ _ _ I b El) as (_ & d' & h & w & Hd' & _ & _ & _ & Et & _).
      rewrite Hd in Hd'. injection Hd' as <-. rewrite Et in Hv. by apply elem_of_nil in Hv.
    + rewrite Hd in Hd'. injection Hd' as <-. rewrite firstn_all in Hn.
      assert ((get u < length (blocks ir0))%nat) as Hu by by apply lookup_lt_Some in Hd0.
      inversion Hch as [b' dl Hdl Ho Hf|b' dl l1 x h w c lv dc l2 t last' Hdl Ho Est Hf Hx Hh _ _ Et El Hne Hdc Hpc Hch2]; subst.
      * rewrite Hd in Hdl. injection Hdl as <-.
        assert (edge u v) as He.
        { exists (Term.block_targets (terminator d0)). split_and!; [|congruence|done]. unfold successors. by rewrite Hd0. }
        assert (sps_at ir0 u = sps ir0 lb ++ sps ir0 (stmts d)) as Es by (unfold sps_at; by rewrite Hd0, E, sps_app).
        eapply stands_arrives; [by econstructor| |].
        -- destruct He as (l' & ? & ? & _). by eapply (graph_targets _ (wf_graph _ Hwf)).
        -- rewrite Es, reverse_app, <- app_assoc, unchecked_app by by apply unchecked_sps.
           destruct (block_checks_halt ir d); lia.
      * rewrite Hd in Hdl. injection Hdl as <-.
        rewrite (check_block b d (l1 ++ [x]) h w c lv) by (done || by rewrite Est, <- app_assoc).
        rewrite Et in Hv. unfold Term.block_targets in Hv. simpl in Hv. rewrite decide_False in Hv by done.
        apply elem_of_cons in Hv as [->| ->%list_elem_of_singleton]; [right|by left].
        exists u, r0, d0, (lb ++ l1 ++ [x]), l2, last, dc. split_and!; [done| | |done|done|lia].
        -- done.
        -- by rewrite E, <- !app_assoc.
Qed.

(** A trace in the middle of a block. *)
Lemma bounded_piece u r0 d0 l1 l2 :
  arrives ir0 u r0 -> arena_get (blocks ir0) u = Some d0 -> stmts d0 = l1 ++ l2 ->
  Z.of_nat (unchecked K (reverse (sps ir0 l1) ++ r0)) < N.
Proof.
  intros Ha Hd E. assert (bounded N K (reverse (sps_at ir0 u) ++ r0)) as H.
  { apply (Hb u); [by apply lookup_lt_Some in Hd|]. by exists r0. }
  specialize (H (length (sps ir0 l2))). unfold sps_at in H.
  rewrite Hd, E, sps_app, reverse_app, <- app_assoc, drop_app_length' in H; [done|by rewrite length_reverse].
Qed.

Lemma stands_bound b i n :
  stands b i n -> Z.of_nat n <= N /\ (Z.of_nat n = N -> exists d, arena_get (blocks ir) b = Some d /\
    block_checks_halt ir d = true /\ Forall (fun x => is_sp ir x = false) (drop i (stmts d))).
Proof.
  intros [[_ ->]|(u & r0 & d0 & lb & l & last & d & Ha & Hd0 & E & Hch & Hd & Hn)]; [lia|].
  assert (forall l1 l2, l = l1 ++ l2 -> Forall (fun x => x ∉ K) l1 ->
    Z.of_nat (unchecked K (reverse (sps ir0 lb) ++ r0) + length (sps ir0 l1)) < N) as Hpre.
  { intros l1 l2 -> Hf. rewrite app_assoc in E. pose proof (bounded_piece u r0 d0 _ _ Ha Hd0 E) as Hlt.
    rewrite sps_app, reverse_app, <- app_assoc, unchecked_app in Hlt by by apply unchecked_sps. lia. }
  inversion Hch as [b' dl Hdl Ho Hf|b' dl l1 x h w c lv dc l2 t last' Hdl Ho Est Hf Hx Hh _ _ Et El Hne Hdc Hpc Hch2]; subst;
    rewrite Hd in Hdl; injection Hdl as <-.
  - assert (Forall (fun x => x ∉ K) (take i (stmts d))) as Hf' by by apply Forall_take.
    pose proof (Hpre (take i (stmts d)) (drop i (stmts d)) (eq_sym (take_drop _ _)) Hf'). lia.
  - pose proof (Hpre l1 (x :: l2) eq_refl Hf) as Hlt.
    pose proof (load_halt_not_sp h w Hh) as Hhsp. rewrite Est in Hn.
    destruct (decide (i <= length l1)%nat) as [Hi|Hi].
    + rewrite take_app_le in Hn by done. assert (length (sps ir0 (take i l1)) <= length (sps ir0 l1))%nat; [|lia].
      rewrite <- (take_drop i l1) at 2. rewrite sps_app, length_app. lia.
    + rewrite take_app_ge, sps_app, length_app in Hn by lia.
      assert (length (sps ir0 (take (i - length l1) [x; h])) <= 1)%nat as H1.
      { destruct (i - length l1)%nat as [|[|[|k]]]; simpl; [lia|..]; unfold sps; rewrite ?filter_cons, ?Hhsp, ?filter_nil; simpl; case_decide; simpl; lia. }
      split; [lia|]. intros _. exists d. split_and!; [done|by eapply (check_block b d (l1 ++ [x])); rewrite ?Est, <- ?app_assoc|].
      rewrite Est, drop_app_ge by lia. destruct (i - length l1)%nat as [|[|k]] eqn:Ei; [lia| |].
      * simpl. constructor; [|done]. by rewrite (iv_is_sp ir0 _ _ _ _ I).
      * destruct k; constructor.
Qed.
End Reading.
End Whole.

Lemma quiet_panics ir hash_order : ir_wf ir -> quiet_cycle ir -> insert_halt_checks hash_order ir = None.
Proof.
  intros Hwf Hq. unfold insert_halt_checks, SccGraph_new.
  by rewrite (proj2 (assert_cycles_spec ir (wf_graph _ Hwf) (wf_stmts _ Hwf)) Hq).
Qed.

(** ** Properties *)

(** C35: the pass ends, and panics exactly when some cycle has no safepoint.  On an
    IR as the builder makes it, with at most 64 blocks and a positive number of
    safepoints per check: it returns an IR if every cycle has a safepoint, and
    panics otherwise; with more than 64 blocks it panics. *)
Theorem insert_halt_checks_total ir hash_order :
  (forall s, hash_order s ≡ₚ elements s) -> 0 < Ir.halt_check_every ir ->
  (ir_wf ir -> is_Some (insert_halt_checks hash_order ir) <-> ~ quiet_cycle ir) /\
  (arena_ok (blocks ir) -> (64 < length (blocks ir))%nat -> insert_halt_checks hash_order ir = None).
Proof.
  intros Hhash HN. split.
  - intros Hwf. split.
    + intros [ir' E] Hq. by rewrite quiet_panics in E.
    + intros Hq. destruct (pass_spec ir hash_order Hhash Hwf HN Hq) as (s & _ & _ & _ & E & _). by eexists.
  - intros Ho Hl. unfold insert_halt_checks. by rewrite scc_graph_large.
Qed.

(** C9: what the pass is for.  In the IR it returns, whatever path control takes
    from the entry: never do more than [N] safepoints go by without a halt check,
    and once [N] have gone by, the rest of the block has no safepoint and the block
    ends in a halt check. *)
Theorem insert_halt_checks_bound ir hash_order ir' b i n :
  (forall s, hash_order s ≡ₚ elements s) -> 0 < Ir.halt_check_every ir -> ir_wf ir ->
  insert_halt_checks hash_order ir = Some ir' -> since_check ir' b i n ->
  Z.of_nat n <= Ir.halt_check_every ir /\
  (Z.of_nat n = Ir.halt_check_every ir -> exists d, arena_get (blocks ir') b = Some d /\
    block_checks_halt ir' d = true /\ Forall (fun x => is_sp ir' x = false) (drop i (stmts d))).
Proof.
  intros Hhash HN Hwf E Hs.
  assert (~ quiet_cycle ir) as Hq by (intros Hq; by rewrite quiet_panics in E).
  destruct (pass_spec ir hash_order Hhash Hwf HN Hq) as (s & org & K & G & E' & I & Hb).
  rewrite E' in E. injection E as <-. eapply (stands_bound ir); [done|exact I|exact Hb|].
  by apply (since_stands ir Hwf s org K G I).
Qed.

(** ** [ir_wf] by evaluation *)

Definition safepoint_places (ir : ExecIrBuilder) : list (Stmt * (nat * nat)) :=
  filter (fun p => is_sp ir p.1 = true)
    (concat (imap (fun b d => imap (fun i x => (x, (b, i))) (stmts d)) (blocks ir))).

Definition wf_check (ir : ExecIrBuilder) : bool :=
  targets_in_range ir && stmts_in_range ir && (length (blocks ir) <=? 64)%nat &&
  bool_decide (NoDup (safepoint_places ir).*1) && bool_decide (leave_and_take_halt ir = None) && forallb terminated (blocks ir) &&
  (1 <=? length (blocks ir))%nat && bool_decide (pass_room ir).

Lemma wf_check_ok ir : wf_check ir = true -> ir_wf ir.
Proof.
  unfold wf_check. rewrite !andb_true_iff, !bool_decide_eq_true, !Nat.leb_le. intros [[[[[[[Ht Hs] Hl] Hnd] Hlv] Htm] He] Hr].
  split; [by apply graph_ok_check|by apply stmts_ok_check| |done| | |done].
  - intros x b d i b' d' i' Hx Hd Hi Hd' Hi'.
    assert (forall c e j, arena_get (blocks ir) c = Some e -> stmts e !! j = Some x ->
      (list_to_map (safepoint_places ir) : gmap Stmt (nat * nat)) !! x = Some (get c, j)) as H.
    { intros c e j Hc Hj. apply elem_of_list_to_map; [done|]. unfold safepoint_places.
      apply list_elem_of_filter. split; [done|]. apply elem_of_concat.
      exists (imap (fun i x => (x, (get c, i))) (stmts e)). split.
      - by apply (elem_of_lookup_imap_2 (fun i x => (x, (get c, i)))).
      - by apply (elem_of_lookup_imap_2 (fun b d => imap (fun i x => (x, (b, i))) (stmts d))). }
    pose proof (H _ _ _ Hd Hi) as H1. rewrite (H _ _ _ Hd' Hi') in H1. injection H1 as Hb ->.
    split; [by apply get_inj|done].
  - intros b d Hd. rewrite forallb_forall in Htm. apply Htm, list_elem_of_In. by eapply list_elem_of_lookup_2.
  - apply lookup_lt_is_Some_2. unfold ENTRYPOINT, get. simpl. lia.
Qed.

(** Two branches of a loop-free graph, one with three safepoints and one with none,
    that meet again before a fourth: with a check every four, the longer branch
    gets a compensating check. *)
Definition sample_diamond : ExecIrBuilder :=
  let b l t := mkBlock [] l true t false in
  mkBuilder initial_ssa_values
    [b [] (Term.BrZ 1%positive (jump_to 2%positive) (jump_to 3%positive));
     b [1; 2; 3]%positive (Term.Br (jump_to 3%positive));
     b [4]%positive Term.Return]
    (replicate 4 (mkStmt [] KSafepoint)) [] initial_signatures None None ENTRYPOINT 4.

Lemma insert_halt_checks_total_witness :
  is_Some (insert_halt_checks elements (sample_loop KSafepoint)) /\
  insert_halt_checks elements (sample_loop KLoadHaltReason) = None.
Proof.
  assert (forall stmt, stmt = KSafepoint \/ stmt = KLoadHaltReason -> ir_wf (sample_loop stmt)) as Hwf
    by (intros stmt [->| ->]; apply wf_check_ok; vm_compute; reflexivity).
  split.
  - apply (insert_halt_checks_total (sample_loop KSafepoint) elements); [done|done|apply Hwf; by left|].
    apply sample_loop_safe.
  - destruct (insert_halt_checks elements (sample_loop KLoadHaltReason)) as [ir'|] eqn:E; [exfalso|done].
    eapply (insert_halt_checks_total (sample_loop KLoadHaltReason) elements); [done|done|apply Hwf; by right|by eexists|].
    apply sample_loop_quiet.
Defined.

(** The way through the longer branch. *)
Lemma sample_diamond_way ir' :
  insert_halt_checks elements sample_diamond = Some ir' ->
  since_check ir' 2%positive 3 3 /\ since_check ir' 4%positive 0 0 /\ since_check ir' 3%positive 1 1.
Proof.
  intros E. vm_compute in E. injection E as <-.
  match goal with |- since_check ?ir _ _ _ /\ _ => set (ir' := ir) end.
  set (at_ b := default empty_block (arena_get (blocks ir') b)).
  assert (since_check ir' 2%positive 0 0) as H0.
  { refine (since_jump ir' 1%positive 0 (at_ 1%positive) 2%positive (since_entry ir') eq_refl _). vm_compute. by left. }
  assert (since_check ir' 2%positive 3 3) as H3.
  { refine (since_stmt ir' _ 2 2 (at_ 2%positive) 3%positive (since_stmt ir' _ 1 1 (at_ 2%positive) 2%positive
      (since_stmt ir' _ 0 0 (at_ 2%positive) 1%positive H0 eq_refl eq_refl) eq_refl eq_refl) eq_refl eq_refl). }
  assert (since_check ir' 2%positive 4 3) as H4.
  { refine (since_stmt ir' _ 3 3 (at_ 2%positive) 6%positive H3 eq_refl eq_refl). }
  assert (since_check ir' 4%positive 0 0) as H5.
  { refine (since_jump ir' 2%positive 3 (at_ 2%positive) 4%positive H4 eq_refl _). vm_compute. by left. }
  split_and!; [done..|].
  assert (since_check ir' 3%positive 0 0) as H6.
  { refine (since_jump ir' 4%positive 0 (at_ 4%positive) 3%positive H5 eq_refl _). vm_compute. by left. }
  refine (since_stmt ir' _ 0 0 (at_ 3%positive) 4%positive H6 eq_refl eq_refl).
Qed.

Lemma insert_halt_checks_bound_witness :
  exists ir', insert_halt_checks elements sample_diamond = Some ir' /\ since_check ir' 2%positive 3 3 /\
    (Z.of_nat 3 <= 4 /\ (Z.of_nat 3 = 4 -> exists d, arena_get (blocks ir') 2%positive = Some d /\
      block_checks_halt ir' d = true /\ Forall (fun x => is_sp ir' x = false) (drop 3 (stmts d)))).
Proof.
  destruct (insert_halt_checks elements sample_diamond) as [ir'|] eqn:E; [|vm_compute in E; discriminate].
  pose proof (sample_diamond_way ir' E) as (Hs & _ & _). exists ir'. split_and!; [done|done|lia|].
  apply (insert_halt_checks_bound sample_diamond elements ir' 2%positive 3 3); [done|done| |done|done].
  apply wf_check_ok. by vm_compute.
Defined.
