(* ===== verification/HaltSim.v ===== *)
(** * The halt-check pass preserves what the code does

    A forward simulation between the runs of an IR and of what the pass makes of
    it: each step of the original is one step of the result, or three where a halt
    check lies in between, with the same world.  A halt check that finds the halt
    word set leaves the chunk with that word as its code and clears it, at a
    safepoint of the original. *)

From S2P Require Import Prelude Convert HaltReason MemTypes Fault Memops ObjectQueue Fabric PageTable IoMMU.
From S2P Require Import ExclusiveMonitor LookupCache MemAccess FfiSupport Arena Ir IrSem.
From S2P Require Import IrArith Tarjan SccGraph HaltCheck HaltSplit HaltInv HaltSound.
Local Open Scope Z_scope.
Local Open Scope emu_scope.

(** ** More values *)

(** Whatever the first computation does, the second does too. *)
Definition included {S A} (m m' : SM S A) : Prop := forall s r, m s = Some r -> m' s = Some r.

Lemma included_refl {S A} (m : SM S A) : included m m.
Proof. by intros s r. Qed.

Lemma included_bind {S A B} (m m' : SM S A) (k k' : A -> SM S B) :
  included m m' -> (forall a, included (k a) (k' a)) -> included (sm_bind m k) (sm_bind m' k').
Proof.
  intros Hm Hk s r. unfold sm_bind. destruct (m s) as [[a s']|] eqn:E; [|done]. rewrite (Hm _ _ E). apply Hk.
Qed.

Lemma mapM_included (ρ ρ' : Env) l xs :
  ρ ⊆ ρ' -> mapM (fun v => ρ !! v) l = Some xs -> mapM (fun v => ρ' !! v) l = Some xs.
Proof.
  intros Hρ H. apply mapM_Some in H. apply mapM_Some. eapply Forall2_impl; [done|].
  intros v x Hv. exact (lookup_weaken _ _ _ _ Hv Hρ).
Qed.

Section Sim.
Context {Error : Type} (e : Endian) (ly : Layout) (io_mmu : IoMMU).
Abbreviation World := (@World Error).
Abbreviation Point := (@Point Error).
Abbreviation Next := (@Next Error).

Lemma lookup_value_included (ρ ρ' : Env) v : ρ ⊆ ρ' -> included (lookup_value (Error := Error) ρ v) (lookup_value ρ' v).
Proof.
  intros Hρ s r. unfold lookup_value, sm_of_option. destruct (ρ !! v) as [x|] eqn:E; [|done].
  by rewrite (lookup_weaken _ _ _ _ E Hρ).
Qed.

Lemma eval_stmt_included (ρ ρ' : Env) rv : ρ ⊆ ρ' -> included (eval_stmt (Error := Error) e ly io_mmu ρ rv) (eval_stmt e ly io_mmu ρ' rv).
Proof.
  intros Hρ. assert (forall v, included (lookup_value (Error := Error) ρ v) (lookup_value ρ' v)) as Hl
    by (intros; by apply lookup_value_included).
  destruct rv; cbn [eval_stmt]; repeat (apply included_bind; [apply Hl|intros ?]); try apply included_refl.
  apply included_bind; [|intros; apply included_refl]. intros s r. unfold sm_of_option.
  destruct (mapM _ _) as [xs|] eqn:E; [|done]. by rewrite (mapM_included _ _ _ _ Hρ E).
Qed.

(** Every value bound has its handle below [n]. *)
Definition env_below (n : nat) (ρ : Env) : Prop := forall v x, ρ !! v = Some x -> (get v < n)%nat.

Lemma bind_values_included n vs xs (ρ ρ' ρ1 : Env) :
  bind_values vs xs ρ = Some ρ1 -> ρ ⊆ ρ' -> env_below n ρ -> (forall v, v ∈ vs -> (get v < n)%nat) ->
  exists ρ1', bind_values vs xs ρ' = Some ρ1' /\ ρ1 ⊆ ρ1' /\ env_below n ρ1.
Proof.
  revert xs ρ ρ'. induction vs as [|v vs IH]; intros [|x xs] ρ ρ' Hb Hs Hn Hvs; simpl in Hb; try done.
  { injection Hb as <-. by exists ρ'. }
  simpl. eapply IH; [done|by apply insert_mono| |intros; apply Hvs; by right].
  intros w y [[<- _]|[_ ?]]%lookup_insert_Some; [apply Hvs; by left|by eapply Hn].
Qed.

Lemma exec_stmt_included n d (ρ ρ' ρ1 : Env) (s s1 : World) :
  exec_stmt e ly io_mmu d ρ s = Some (ρ1, s1) -> ρ ⊆ ρ' -> env_below n ρ ->
  (forall v, v ∈ outputs d -> (get v < n)%nat) ->
  exists ρ1', exec_stmt e ly io_mmu d ρ' s = Some (ρ1', s1) /\ ρ1 ⊆ ρ1' /\ env_below n ρ1.
Proof.
  intros H Hs Hn Hvs. unfold exec_stmt, sm_bind, sm_of_option in *.
  destruct (eval_stmt e ly io_mmu ρ (rvalue d) s) as [[xs s2]|] eqn:E; [|done].
  rewrite (eval_stmt_included ρ ρ' _ Hs _ _ E).
  destruct (bind_values (outputs d) xs ρ) as [ρ2|] eqn:Eb; [|done]. injection H as <- <-.
  destruct (bind_values_included n _ _ _ _ _ Eb Hs Hn Hvs) as (ρ1' & -> & ? & ?). by exists ρ1'.
Qed.

Lemma run_ir_app n m ir (p q : Point) :
  run_ir e ly io_mmu n ir p = Some (Continue q) -> run_ir e ly io_mmu (n + m) ir p = run_ir e ly io_mmu m ir q.
Proof.
  revert p. induction n as [|n IH]; intros p H; simpl in *; [by injection H as ->|].
  destruct (step e ly io_mmu ir p) as [[p'|]|]; [by apply IH|done..].
Qed.

Lemma run_ir_step n ir (p q : Point) r :
  step e ly io_mmu ir p = Some (Continue q) -> run_ir e ly io_mmu n ir q = r -> run_ir e ly io_mmu (S n) ir p = r.
Proof. simpl. by intros ->. Qed.

Lemma step_stmt ir (p : Point) d x sd ρ s :
  arena_get (blocks ir) (at_block p) = Some d -> stmts d !! at_index p = Some x ->
  arena_get (all_stmts ir) x = Some sd -> exec_stmt e ly io_mmu sd (values p) (world p) = Some (ρ, s) ->
  step e ly io_mmu ir p = Some (Continue (mkPoint (at_block p) (S (at_index p)) ρ s)).
Proof. intros Hd Hx Hsd He. unfold step. rewrite Hd. cbn [mbind option_bind]. rewrite Hx, Hsd. cbn [mbind option_bind]. by rewrite He. Qed.

Lemma step_end ir (p : Point) d :
  arena_get (blocks ir) (at_block p) = Some d -> stmts d !! at_index p = None -> terminated d = true ->
  step e ly io_mmu ir p = exec_terminator ir (terminator d) (values p) (world p).
Proof. intros Hd Hx Ht. unfold step. rewrite Hd. cbn [mbind option_bind]. by rewrite Hx, Ht. Qed.

(** ** What is watched along a run *)

(** The statement at a point, if there is one, is as [P] wants it. *)
Definition point_within (P : Env -> StmtKind -> bool) (ir : ExecIrBuilder) (p : Point) : bool :=
  match
    (d ← arena_get (blocks ir) (at_block p);
     x ← stmts d !! at_index p;
     arena_get (all_stmts ir) x)
  with
  | Some d => P (values p) (rvalue d)
  | None => true
  end.

(** So is every statement the run executes. *)
Fixpoint run_within (P : Env -> StmtKind -> bool) (fuel : nat) (ir : ExecIrBuilder) (p : Point) : bool :=
  match fuel with
  | O => true
  | S fuel =>
      point_within P ir p &&
      match step e ly io_mmu ir p with
      | Some (Continue p) => run_within P fuel ir p
      | _ => true
      end
  end.

Section Within.
Context (P : Env -> StmtKind -> bool).

Lemma within_step n ir (p q : Point) :
  point_within P ir p = true -> step e ly io_mmu ir p = Some (Continue q) -> run_within P n ir q = true ->
  run_within P (S n) ir p = true.
Proof. intros Hp Hs Hq. simpl. by rewrite Hp, Hs. Qed.

Lemma within_one ir (p : Point) : point_within P ir p = true -> run_within P 1 ir p = true.
Proof. simpl. intros ->. by destruct (step e ly io_mmu ir p) as [[]|]. Qed.

Lemma within_app n m ir (p q : Point) :
  run_ir e ly io_mmu n ir p = Some (Continue q) -> run_within P n ir p = true -> run_within P m ir q = true ->
  run_within P (n + m) ir p = true.
Proof.
  revert p. induction n as [|n IH]; intros p Hr Hp Hq; simpl in *; [by injection Hr as ->|].
  apply andb_true_iff in Hp as [-> Hp]. destruct (step e ly io_mmu ir p) as [[p'|]|]; [by apply IH|done..].
Qed.

Lemma within_stmt ir (p : Point) d x sd :
  arena_get (blocks ir) (at_block p) = Some d -> stmts d !! at_index p = Some x -> arena_get (all_stmts ir) x = Some sd ->
  point_within P ir p = P (values p) (rvalue sd).
Proof. intros Hd Hx Hsd. unfold point_within. rewrite Hd. cbn [mbind option_bind]. rewrite Hx. cbn [mbind option_bind]. by rewrite Hsd. Qed.

Lemma within_end ir (p : Point) d :
  arena_get (blocks ir) (at_block p) = Some d -> stmts d !! at_index p = None -> point_within P ir p = true.
Proof. intros Hd Hx. unfold point_within. rewrite Hd. cbn [mbind option_bind]. by rewrite Hx. Qed.
End Within.

(** Nothing is watched. *)
Lemma within_nothing n ir (p : Point) : run_within (fun _ _ => true) n ir p = true.
Proof.
  revert p. induction n as [|n IH]; intros p; [done|]. simpl.
  assert (point_within (fun _ _ => true) ir p = true) as -> by (unfold point_within; by case_match).
  by destruct (step e ly io_mmu ir p) as [[q|]|]; simpl; [apply IH|..].
Qed.

(** ** The simulation *)

Section Relation.
Context (ir0 : ExecIrBuilder) (Hwf : ir_wf ir0).
Abbreviation n0 := (length (ssa_values ir0)).

(** What the statements and blocks of an IR bind is among its values. *)
Record values_ok (ir : ExecIrBuilder) : Prop := {
  vo_outputs : forall x d v, arena_get (all_stmts ir) x = Some d -> v ∈ outputs d -> (get v < length (ssa_values ir))%nat;
  vo_parameters : forall b d v, arena_get (blocks ir) b = Some d -> v ∈ parameters d -> (get v < length (ssa_values ir))%nat;
}.

Context (Hvo : values_ok ir0).
Context (org : gmap Block Block) (K : gset Stmt) (G : gmap (Block * Block) HaltState) (st : HaltCheckInserter).
Context (I : Inv ir0 org K G st).
Abbreviation ir := (inserter_ir st).

(** What is watched of the original, and holds of the statements of a check. *)
Context (P : Env -> StmtKind -> bool) (HPload : forall ρ, P ρ KLoadHaltReason = true) (HPtake : forall ρ, P ρ KTakeHaltReason = true).
Context (HPmono : forall (ρ ρ' : Env) rv (s : World) r, eval_stmt e ly io_mmu ρ rv s = Some r -> ρ ⊆ ρ' -> P ρ rv = true -> P ρ' rv = true).
Abbreviation within n p := (run_within P n ir p = true).

(** The same place in the original and in a piece of its block, never in front of
    a check. *)
Record matches (p0 p : Point) : Prop := {
  ma_place : exists d0 lb l last d,
    arena_get (blocks ir0) (at_block p0) = Some d0 /\ stmts d0 = lb ++ l /\
    chain ir0 ir org K (at_block p0) (at_block p) l (terminator d0) last /\
    arena_get (blocks ir) (at_block p) = Some d /\
    at_index p0 = (length lb + at_index p)%nat /\ (at_index p <= length (stmts d))%nat /\
    Forall (fun x => x ∉ K) (take (at_index p) (stmts d));
  ma_values : values p0 ⊆ values p;
  ma_below : env_below n0 (values p0);
  ma_world : world p0 = world p;
}.

Inductive same_next : Next -> Next -> Prop :=
  | same_continue q0 q : matches q0 q -> same_next (Continue q0) (Continue q)
  | same_exit c s : same_next (Exit c s) (Exit c s).

Lemma matches_start b ρ ρ' s d :
  arena_get (blocks ir0) b = Some d -> ρ ⊆ ρ' -> env_below n0 ρ -> matches (mkPoint b 0 ρ s) (mkPoint b 0 ρ' s).
Proof.
  intros Hd Hs Hn. destruct (iv_chain _ _ _ _ _ I b d Hd) as (last & d' & Hch & Hd' & _).
  split; [|done..]. exists d, [], (stmts d), last, d'. simpl. rewrite take_0. split_and!; [done..|lia|constructor].
Qed.

Lemma old_stmt x sd : arena_get (all_stmts ir0) x = Some sd -> arena_get (all_stmts ir) x = Some sd.
Proof. destruct (iv_stmts _ _ _ _ _ I) as (tl & E & _). unfold arena_get. rewrite E. apply lookup_app_l_Some. Qed.

(** Control that arrives at a block of the original. *)
Lemma follow_same j (ρ ρ' : Env) (s : World) r :
  follow ir0 j ρ s = Some r -> ρ ⊆ ρ' -> env_below n0 ρ ->
  exists r', follow ir j ρ' s = Some r' /\ same_next r r'.
Proof.
  unfold follow. intros H Hs Hn. destruct (arena_get (blocks ir0) (jump_target j)) as [d|] eqn:Hd; [|done].
  cbn [mbind option_bind] in H. destruct (mapM _ (jump_parameters j)) as [xs|] eqn:Ex; [|done]. cbn [mbind option_bind] in H.
  destruct (bind_values (parameters d) xs ρ) as [ρ1|] eqn:Eb; [|done]. cbn [mbind option_bind] in H. injection H as <-.
  destruct (iv_chain _ _ _ _ _ I _ d Hd) as (_ & d' & _ & Hd' & Hp). rewrite Hd'. cbn [mbind option_bind].
  rewrite (mapM_included _ _ _ _ Hs Ex). cbn [mbind option_bind]. rewrite Hp.
  destruct (bind_values_included n0 _ _ _ _ _ Eb Hs Hn) as (ρ1' & -> & Hs1 & Hn1); [intros v; by apply (vo_parameters _ Hvo _ d v Hd)|].
  cbn [mbind option_bind]. eexists. split; [done|]. constructor. by eapply matches_start.
Qed.

Lemma terminator_same t (ρ ρ' : Env) (s : World) r :
  exec_terminator ir0 t ρ s = Some r -> ρ ⊆ ρ' -> env_below n0 ρ ->
  exists r', exec_terminator ir t ρ' s = Some r' /\ same_next r r'.
Proof.
  unfold exec_terminator. intros H Hs Hn.
  destruct (kind t) as [|v|v|], (targets t) as [|j1 [|j2 [|]]]; try done.
  - injection H as <-. eexists. split; [done|]. constructor.
  - destruct (ρ !! v) as [x|] eqn:Ev; [|done]. rewrite (lookup_weaken _ _ _ _ Ev Hs).
    destruct x as [[]| |]; try done. injection H as <-. eexists. split; [done|]. constructor.
  - destruct (ρ !! v) as [x|] eqn:Ev; [|done]. rewrite (lookup_weaken _ _ _ _ Ev Hs). cbn [mbind option_bind] in *.
    destruct (is_zero x) as [z|]; [|done]. cbn [mbind option_bind] in *. by eapply follow_same.
  - by eapply follow_same.
Qed.

(** The check behind a safepoint. *)
Lemma check_runs b d i h v c lv d' (ρ : Env) (s : World) :
  arena_get (blocks ir) b = Some d -> stmts d !! i = Some h -> length (stmts d) = S i ->
  arena_get (all_stmts ir) h = Some (mkStmt [v] KLoadHaltReason) ->
  terminator d = Term.BrZ v (jump_to c) (jump_to lv) -> leave_and_take_halt ir = Some lv ->
  arena_get (blocks ir) c = Some d' -> parameters d' = [] ->
  let ρ' := <[v := VInt W32 (halt_word s)]> ρ in
  if halt_word s =? 0 then within 2 (mkPoint b i ρ s) /\ run_ir e ly io_mmu 2 ir (mkPoint b i ρ s) = Some (Continue (mkPoint c 0 ρ' s))
  else within 4 (mkPoint b i ρ s) /\ run_ir e ly io_mmu 4 ir (mkPoint b i ρ s) = Some (Exit (halt_word s) (set_halt_word 0 s)).
Proof.
  intros Hd Hi Hlen Hh Ht Hlv Hc Hp ρ'.
  assert (step e ly io_mmu ir (mkPoint b i ρ s) = Some (Continue (mkPoint b (S i) ρ' s))) as E1.
  { by rewrite (step_stmt ir (mkPoint b i ρ s) d h _ ρ' s Hd Hi Hh). }
  assert (step e ly io_mmu ir (mkPoint b (S i) ρ' s) =
    follow ir (if halt_word s =? 0 then jump_to c else jump_to lv) ρ' s) as E2.
  { rewrite (step_end ir (mkPoint b (S i) ρ' s) d Hd); [|by apply lookup_ge_None_2; simpl; lia|by eapply iv_terminated].
    rewrite Ht. unfold exec_terminator; simpl. unfold ρ'. by rewrite lookup_insert_eq. }
  assert (point_within P ir (mkPoint b i ρ s) = true) as W1 by (rewrite (within_stmt P ir (mkPoint b i ρ s) d h _ Hd Hi Hh); apply HPload).
  assert (point_within P ir (mkPoint b (S i) ρ' s) = true) as W2
    by (apply (within_end P ir (mkPoint b (S i) ρ' s) d Hd); apply lookup_ge_None_2; simpl; lia).
  destruct (halt_word s =? 0).
  - split; [by eapply within_step; [exact W1|exact E1|apply within_one]|].
    eapply run_ir_step; [exact E1|]. eapply run_ir_step; [|done]. rewrite E2. unfold follow; simpl.
    rewrite Hc. cbn [mbind option_bind]. by rewrite Hp.
  - destruct (iv_leave _ _ _ _ _ I lv Hlv) as (_ & dl & hl & w & Hdl & Hpl & Hsl & Hhl & Htl & Hterm).
    assert (step e ly io_mmu ir (mkPoint b (S i) ρ' s) = Some (Continue (mkPoint lv 0 ρ' s))) as E3.
    { rewrite E2. unfold follow; simpl. rewrite Hdl. cbn [mbind option_bind]. by rewrite Hpl. }
    assert (step e ly io_mmu ir (mkPoint lv 0 ρ' s) = Some (Continue (mkPoint lv 1 (<[w := VInt W32 (halt_word s)]> ρ') (set_halt_word 0 s)))) as E4.
    { apply (step_stmt ir (mkPoint lv 0 ρ' s) dl hl (mkStmt [w] KTakeHaltReason) (<[w := VInt W32 (halt_word s)]> ρ') (set_halt_word 0 s) Hdl);
        [by rewrite Hsl|exact Hhl|done]. }
    split.
    { eapply within_step; [exact W1|exact E1|]. eapply within_step; [exact W2|exact E3|]. eapply within_step; [|exact E4|].
      - rewrite (within_stmt P ir (mkPoint lv 0 ρ' s) dl hl (mkStmt [w] KTakeHaltReason) Hdl); [apply HPtake|by rewrite Hsl|exact Hhl].
      - apply within_one, (within_end P ir (mkPoint lv 1 _ _) dl Hdl). by rewrite Hsl. }
    eapply run_ir_step; [exact E1|]. eapply run_ir_step; [exact E3|]. eapply run_ir_step; [exact E4|].
    simpl. rewrite (step_end ir (mkPoint lv 1 _ _) dl Hdl); [|by simpl; rewrite Hsl|done].
    rewrite Htl. unfold exec_terminator; simpl. by rewrite lookup_insert_eq.
Qed.

Definition left_early (q0 : Next) (n : nat) (p : Point) : Prop :=
  exists q, q0 = Continue q /\ halt_word (world q) <> 0 /\
    run_ir e ly io_mmu n ir p = Some (Exit (halt_word (world q)) (set_halt_word 0 (world q))).

Lemma step_matches p0 p r0 :
  matches p0 p -> point_within P ir0 p0 = true -> step e ly io_mmu ir0 p0 = Some r0 ->
  exists n, within n p /\ ((exists r, run_ir e ly io_mmu n ir p = Some r /\ same_next r0 r) \/ left_early r0 n p).
Proof.
  intros [(d0 & lb & l & last & d & Hd0 & E & Hch & Hd & Hi & Hle & Hf) Hs Hn Hw] HP H.
  assert (forall stmt sd, stmts d0 !! at_index p0 = Some stmt -> arena_get (all_stmts ir0) stmt = Some sd ->
    stmts d !! at_index p = Some stmt ->
    exists ρ s ρ', r0 = Continue (mkPoint (at_block p0) (S (at_index p0)) ρ s) /\ ρ ⊆ ρ' /\ env_below n0 ρ /\
      point_within P ir p = true /\ step e ly io_mmu ir p = Some (Continue (mkPoint (at_block p) (S (at_index p)) ρ' s))) as Hone.
  { intros x sd Hx Hsd Hx'. unfold step in H. rewrite Hd0 in H. cbn [mbind option_bind] in H. rewrite Hx, Hsd in H.
    cbn [mbind option_bind] in H. destruct (exec_stmt e ly io_mmu sd (values p0) (world p0)) as [[ρ s]|] eqn:Ee; [|done].
    cbn [mbind option_bind] in H. injection H as <-. rewrite Hw in Ee.
    assert (P (values p) (rvalue sd) = true) as HPp.
    { rewrite (within_stmt P ir0 p0 d0 x sd Hd0 Hx Hsd) in HP. unfold exec_stmt, sm_bind in Ee.
      destruct (eval_stmt e ly io_mmu (values p0) (rvalue sd) (world p)) eqn:Ev; [|done]. by eapply HPmono. }
    destruct (exec_stmt_included n0 sd _ _ _ _ _ Ee Hs Hn) as (ρ' & Ee' & Hs' & Hn'); [intros v; by apply (vo_outputs _ Hvo x sd v Hsd)|].
    exists ρ, s, ρ'. split_and!; [done..| |].
    - by rewrite (within_stmt P ir p d x sd Hd Hx' (old_stmt _ _ Hsd)).
    - eapply step_stmt; [done..|by apply old_stmt|done]. }
  assert (forall stmt, stmts d0 !! at_index p0 = Some stmt -> exists sd, arena_get (all_stmts ir0) stmt = Some sd) as Hsd.
  { intros x Hx. apply (wf_stmts _ Hwf _ _ _ Hd0). by eapply list_elem_of_lookup_2. }
  inversion Hch as [b' dl Hdl Ho Hf'|b' dl l1 x h v c lv dc l2 t last' Hdl Ho Est Hf' Hx Hh _ Hv Et El Hne Hdc Hpc Hch2];
    subst; rewrite Hd in Hdl; injection Hdl as <-.
  - assert (stmts d0 !! at_index p0 = stmts d !! at_index p) as Eix.
    { rewrite E, Hi, lookup_app_r by lia. f_equal. lia. }
    destruct (stmts d0 !! at_index p0) as [x|] eqn:Hx0.
    + destruct (Hsd x eq_refl) as [sd Hsd']. destruct (Hone x sd eq_refl Hsd' (eq_sym Eix)) as (ρ & s & ρ' & -> & ? & ? & Wst & Est).
      exists 1%nat. split; [by apply within_one|]. left. eexists. split; [simpl; by rewrite Est|]. constructor. split; [|done..].
      exists d0, lb, (stmts d), (at_block p), d. split_and!; [done..| | |by apply Forall_take]; simpl; [lia|].
      symmetry in Eix. apply lookup_lt_Some in Eix. lia.
    + rewrite (step_end ir0 p0 d0 Hd0 Hx0) in H by by eapply wf_terminated. rewrite Hw in H.
      destruct (terminator_same _ _ _ _ _ H Hs Hn) as (r & Er & Hr). exists 1%nat.
      split; [by apply within_one, (within_end P ir p d)|]. left. exists r. split; [|done].
      simpl. rewrite (step_end ir p d Hd (eq_sym Eix)) by by eapply iv_terminated.
      destruct (chain_last _ _ _ _ _ _ _ _ _ Hch) as (_ & dl & _ & Hdl & Htl & _). rewrite Hd in Hdl. injection Hdl as <-.
      rewrite Htl, Er. by destruct r.
  - destruct (decide (at_index p <= length l1)%nat) as [Hil|Hil].
    2:{ exfalso. rewrite Forall_forall in Hf. apply (Hf x); [|done]. rewrite Est, take_app_ge by lia.
        apply elem_of_app. right. destruct (at_index p - length l1)%nat as [|k] eqn:Ek; [lia|]. by left. }
    assert (exists y, stmts d0 !! at_index p0 = Some y /\ (l1 ++ [x]) !! at_index p = Some y) as (y & Hy0 & Hy).
    { destruct (lookup_lt_is_Some_2 (l1 ++ [x]) (at_index p)) as [y Hy]; [rewrite length_app; simpl; lia|].
      exists y. split; [|done]. rewrite E, Hi, lookup_app_r by lia.
      replace (length lb + at_index p - length lb)%nat with (at_index p) by lia.
      change (x :: l2) with ([x] ++ l2). rewrite app_assoc. by apply lookup_app_l_Some. }
    assert (stmts d !! at_index p = Some y) as Hyd.
    { rewrite Est. change [x; h] with ([x] ++ [h]). rewrite app_assoc. by apply lookup_app_l_Some. }
    destruct (Hsd y Hy0) as [sd Hsd']. destruct (Hone y sd Hy0 Hsd' Hyd) as (ρ & s & ρ' & -> & Hs1 & Hn1 & Wst & Estep).
    destruct (decide (at_index p = length l1)) as [Hend|Hmid].
    + assert (stmts d !! S (at_index p) = Some h) as Hh2.
      { rewrite Est, Hend. rewrite lookup_app_r by lia. by replace (S (length l1) - length l1)%nat with 1%nat by lia. }
      pose proof (check_runs (at_block p) d (S (at_index p)) h v c lv dc ρ' s Hd Hh2
        ltac:(rewrite Est, length_app; simpl; lia) Hh Et El Hdc Hpc) as Hchk. simpl in Hchk.
      destruct (Z.eqb_spec (halt_word s) 0) as [Hz|Hz]; destruct Hchk as [Wchk Hchk].
      * exists 3%nat. split; [by eapply within_step; [exact Wst|exact Estep|]|]. left. eexists. split; [eapply run_ir_step; [exact Estep|exact Hchk]|]. constructor. split; simpl; [| |done..].
        -- exists d0, (lb ++ l1 ++ [x]), l2, last, dc. split_and!; [done| |done|done| |lia|by rewrite take_0].
           ++ by rewrite E, <- !app_assoc.
           ++ rewrite !length_app. simpl. lia.
        -- apply map_subseteq_spec. intros w z Hwz. rewrite lookup_insert_ne; [by eapply lookup_weaken|].
           intros <-. apply Hn1 in Hwz. lia.
      * exists 5%nat. split; [by eapply within_step; [exact Wst|exact Estep|]|]. right. eexists. split; [done|]. split; [done|]. eapply run_ir_step; [exact Estep|exact Hchk].
    + exists 1%nat. split; [by apply within_one|]. left. eexists. split; [simpl; by rewrite Estep|]. constructor. split; simpl; [|done..].
      exists d0, lb, (l1 ++ x :: l2), last, d. split_and!; [done..|lia| |].
      * rewrite Est, length_app. simpl. lia.
      * rewrite Est, take_app_le by lia. by apply Forall_take.
Qed.

(** The run was left at a halt check, at a point the original passes with the halt
    word set. *)
Definition left_at_check (fuel : nat) (p0 p : Point) : Prop :=
  exists m q n, (m <= fuel)%nat /\ run_ir e ly io_mmu m ir0 p0 = Some (Continue q) /\ halt_word (world q) <> 0 /\ within n p /\
    run_ir e ly io_mmu n ir p = Some (Exit (halt_word (world q)) (set_halt_word 0 (world q))).

Lemma run_matches_within fuel : forall p0 p r0,
  matches p0 p -> run_within P fuel ir0 p0 = true -> run_ir e ly io_mmu fuel ir0 p0 = Some r0 ->
  (exists n r, within n p /\ run_ir e ly io_mmu n ir p = Some r /\ same_next r0 r) \/ left_at_check fuel p0 p.
Proof.
  induction fuel as [|fuel IH]; intros p0 p r0 Hm HP H.
  { injection H as <-. left. exists 0%nat. eexists. split; [done|]. split; [done|by constructor]. }
  simpl in H, HP. apply andb_true_iff in HP as [HP0 HP]. destruct (step e ly io_mmu ir0 p0) as [r1|] eqn:E1; [|done].
  destruct (step_matches p0 p r1 Hm HP0 E1) as (n & Wn & [(r & Er & Hs)|(q & -> & Hq & Er)]).
  2:{ right. exists 1%nat, q, n. split_and!; [lia|simpl; by rewrite E1|done..]. }
  destruct Hs as [q0 q Hm'|c s].
  2:{ injection H as <-. left. exists n. eexists. split; [done|]. split; [done|constructor]. }
  destruct (IH q0 q r0 Hm' HP H) as [(k & r & Wk & Ek & Hs)|(m & q' & k & Hle & Em & Hq' & Wk & Ek)].
  - left. exists (n + k)%nat, r. split; [by eapply within_app|]. split; [|done]. by rewrite (run_ir_app n k _ _ _ Er).
  - right. exists (S m), q', (n + k)%nat. split_and!; [lia| |done|by eapply within_app|by rewrite (run_ir_app n k _ _ _ Er)].
    simpl. by rewrite E1.
Qed.
End Relation.

Lemma run_matches ir0 (Hwf : ir_wf ir0) (Hvo : values_ok ir0) org K G st (I : Inv ir0 org K G st) fuel p0 p r0 :
  matches ir0 org K st p0 p -> run_ir e ly io_mmu fuel ir0 p0 = Some r0 ->
  (exists n r, run_ir e ly io_mmu n (inserter_ir st) p = Some r /\ same_next ir0 org K st r0 r) \/
  exists m q n, (m <= fuel)%nat /\ run_ir e ly io_mmu m ir0 p0 = Some (Continue q) /\ halt_word (world q) <> 0 /\
    run_ir e ly io_mmu n (inserter_ir st) p = Some (Exit (halt_word (world q)) (set_halt_word 0 (world q))).
Proof.
  intros Hm H. destruct (run_matches_within ir0 Hwf Hvo org K G st I (fun _ _ => true) ltac:(done) ltac:(done) ltac:(done) fuel p0 p r0 Hm
    (within_nothing _ _ _) H) as [(n & r & _ & ? & ?)|(m & q & n & ? & ? & ? & _ & ?)].
  - left. by exists n, r.
  - right. by exists m, q, n.
Qed.

(** What is seen of a run: its state, and its code if it has left. *)
Definition same_outcome (r r' : Next) : Prop :=
  match r, r' with
  | Exit c s, Exit c' s' => c = c' /\ s = s'
  | Continue q, Continue q' => world q = world q'
  | _, _ => False
  end.

(** the pass preserves what the code does.  Run the original IR and the IR the
    pass returns from the entry with the same values and state: whatever the
    original run has come to, the other comes to the same state (and leaves with
    the same code if the original has left), unless on the way the original passed
    a point with the halt word set; then the other may have left there, with the
    halt word as its code, the halt word taken and everything else as it was. *)
Theorem insert_halt_checks_preserves ir hash_order ir' ρ w fuel r :
  (forall s, hash_order s ≡ₚ elements s) -> 0 < Ir.halt_check_every ir -> ir_wf ir -> values_ok ir ->
  insert_halt_checks hash_order ir = Some ir' -> env_below (length (ssa_values ir)) ρ ->
  let p := mkPoint ENTRYPOINT 0 ρ w in
  run_ir e ly io_mmu fuel ir p = Some r ->
  (exists fuel' r', run_ir e ly io_mmu fuel' ir' p = Some r' /\ same_outcome r r') \/
  exists m q fuel', (m <= fuel)%nat /\ run_ir e ly io_mmu m ir p = Some (Continue q) /\ halt_word (world q) <> 0 /\
    run_ir e ly io_mmu fuel' ir' p = Some (Exit (halt_word (world q)) (set_halt_word 0 (world q))).
Proof.
  intros Hhash HN Hwf Hvo E Hρ p H.
  assert (~ quiet_cycle ir) as Hq by (intros Hq; by rewrite quiet_panics in E).
  destruct (pass_spec ir hash_order Hhash Hwf HN Hq) as (st & org & K & G & E' & I & _).
  rewrite E' in E. injection E as <-. destruct (wf_entry _ Hwf) as [d Hd].
  pose proof (matches_start ir org K G st I ENTRYPOINT ρ ρ w d Hd ltac:(done) Hρ) as Hm.
  destruct (run_matches ir Hwf Hvo org K G st I fuel p p r Hm H) as [(n & r' & Er & Hs)|?]; [left|by right].
  exists n, r'. split; [done|]. destruct Hs as [q0 q Hq0|]; [apply Hq0|by split].
Qed.

(** The run passes a point where a halt is requested. *)
Definition halt_seen (ir : ExecIrBuilder) (fuel : nat) (p q : Point) : Prop :=
  exists m, (m <= fuel)%nat /\ run_ir e ly io_mmu m ir p = Some (Continue q) /\ halt_word (world q) <> 0.
End Sim.

(** ** A run *)

Definition values_in_range (ir : ExecIrBuilder) : bool :=
  forallb (fun d => forallb (fun v => get v <? length (ssa_values ir))%nat (outputs d)) (all_stmts ir) &&
  forallb (fun d => forallb (fun v => get v <? length (ssa_values ir))%nat (parameters d)) (blocks ir).

Lemma values_ok_check ir : values_in_range ir = true -> values_ok ir.
Proof.
  unfold values_in_range. rewrite andb_true_iff, !forallb_forall. intros [Ho Hp]. split.
  - intros x d v Hd Hv. apply list_elem_of_lookup_2, list_elem_of_In, Ho in Hd. rewrite forallb_forall in Hd.
    by apply Nat.ltb_lt, Hd, list_elem_of_In.
  - intros x d v Hd Hv. apply list_elem_of_lookup_2, list_elem_of_In, Hp in Hd. rewrite forallb_forall in Hd.
    by apply Nat.ltb_lt, Hd, list_elem_of_In.
Qed.

Definition diamond_env : Env := {[1%positive := VBool false]}.

(** Through the longer branch, with the halt word clear and with it set. *)
Lemma insert_halt_checks_preserves_witness :
  let run h n ir := run_ir Little sample_layout sample_mmu n ir
    (mkPoint ENTRYPOINT 0 diamond_env (set_halt_word h sample_world)) in
  exists ir', insert_halt_checks elements sample_diamond = Some ir' /\
    run 0 7%nat sample_diamond = Some (Exit 0 (set_halt_word 0 sample_world)) /\
    ((exists n, run 0 n ir' = Some (Exit 0 (set_halt_word 0 sample_world))) \/
      exists m q n, (m <= 7)%nat /\ run 0 m sample_diamond = Some (Continue q) /\ halt_word (world q) <> 0 /\
        run 0 n ir' = Some (Exit (halt_word (world q)) (set_halt_word 0 (world q)))) /\
    run 9 8%nat ir' = Some (Exit 9 (set_halt_word 0 sample_world)).
Proof.
  intros run. destruct (insert_halt_checks elements sample_diamond) as [ir'|] eqn:E; [|vm_compute in E; discriminate].
  assert (run 0 7%nat sample_diamond = Some (Exit 0 (set_halt_word 0 sample_world))) as Hrun by reflexivity.
  exists ir'. split_and!; [done|exact Hrun| |vm_compute in E; injection E as <-; reflexivity].
  destruct (insert_halt_checks_preserves Little sample_layout sample_mmu sample_diamond elements ir' diamond_env
    (set_halt_word 0 sample_world) 7 (Exit 0 (set_halt_word 0 sample_world)) ltac:(done) ltac:(done) ltac:(apply wf_check_ok; by vm_compute)
    ltac:(apply values_ok_check; by vm_compute) E) with (2 := Hrun) as [(n & [q|c s] & En & Hs)|Hleft].
  - intros v x Hv. unfold diamond_env in Hv. apply lookup_singleton_Some in Hv as [<- _]. unfold get. simpl. lia.
  - destruct Hs.
  - destruct Hs as [<- <-]. left. by exists n.
  - by right.
Defined.
