(* ===== verification/BlockOrder.v ===== *)
(** * Finishing a function ([jit-compiler-core/src/ir/mod.rs], [topo_sort] and
    [build])

    The order in which the blocks are compiled: the reverse of the post-order of
    a depth-first search with an explicit stack, and [build], which runs the
    halt-check pass first.  The loop takes fuel; a block enters the stack at most
    once per jump to it, so three units per block and one are enough. *)

From S2P Require Import Prelude Arena Ir Tarjan SccGraph HaltCheck HaltSplit HaltInv HaltSound.
Local Open Scope emu_scope.

Inductive DfsFrame := FEnter (block : Block) | FExit (block : Block).

(** The loop over [targets], which come in reverse order; the top of the stack
    comes first. *)
Fixpoint push_targets (seen : ArenaSet) (targets : list Block) (dfs_stack : list DfsFrame) : list DfsFrame :=
  match targets with
  | [] => dfs_stack
  | target :: targets =>
      push_targets seen targets (if set_contains target seen then dfs_stack else FEnter target :: dfs_stack)
  end.

Fixpoint dfs_loop (fuel : nat) (ir : ExecIrBuilder) (dfs_stack : list DfsFrame) (seen : ArenaSet)
    (postorder : list Block) : option (list Block) :=
  match dfs_stack with
  | [] => Some postorder
  | frame :: dfs_stack =>
      match fuel with
      | O => None
      | S fuel =>
          match frame with
          | FEnter block =>
              '(fresh, seen) ← set_insert block seen;
              if negb fresh then dfs_loop fuel ir dfs_stack seen postorder
              else
                targets ← successors ir block;
                dfs_loop fuel ir (push_targets seen (reverse targets) (FExit block :: dfs_stack)) seen postorder
          | FExit block =>
              if (length postorder <? length (blocks ir))%nat
              then dfs_loop fuel ir dfs_stack seen (postorder ++ [block]) else None
          end
      end
  end.

Definition topo_sort (ir : ExecIrBuilder) : option (list Block) :=
  let n := length (blocks ir) in
  postorder ← dfs_loop (3 * n + 1) ir [FEnter ENTRYPOINT] (set_with_capacity (Z.of_nat n)) [];
  if (length postorder <=? n)%nat then Some (reverse postorder) else None.

Record ExecIr := mkExecIr {
  exec_ssa_values : Arena TypeFull;
  exec_blocks : Arena BlockData;
  exec_stmts : Arena StmtData;
  exec_stack_slots : Arena StackSlotData;
  exec_signatures : Arena CallbackSignatureData;
  block_compile_order : list Block;
}.

(** [optimize] does nothing. *)
Definition optimize (ir : ExecIrBuilder) : ExecIrBuilder := ir.

Definition build (hash_order : gset Block -> list Block) (ir : ExecIrBuilder) : option ExecIr :=
  ir ← insert_halt_checks hash_order ir;
  let ir := optimize ir in
  reverse_post_order ← topo_sort ir;
  Some (mkExecIr (ssa_values ir) (blocks ir) (all_stmts ir) (stack_slots ir) (signatures ir) reverse_post_order).

(** ** The search *)

Section Search.
Context (ir : ExecIrBuilder).
Abbreviation edge := (Tarjan.edge ir None).
Abbreviation n := (length (blocks ir)).

(** Control stays among the blocks. *)
Definition reach_in_range : Prop := forall v, rtc edge ENTRYPOINT v -> (get v < n)%nat.
Context (Hrange : reach_in_range).

Definition frame_block (f : DfsFrame) : Block := match f with FEnter b | FExit b => b end.
Definition exits (l : list DfsFrame) : list Block := omap (fun f => match f with FExit b => Some b | _ => None end) l.

Lemma elem_of_exits l b : b ∈ exits l <-> FExit b ∈ l.
Proof.
  unfold exits. rewrite list_elem_of_omap. split; [|intros ?; by exists (FExit b)].
  by intros ([c|c] & ? & [= ->]).
Qed.

Lemma edge_successors u v : edge u v <-> exists l, successors ir u = Some l /\ v ∈ l.
Proof. unfold Tarjan.edge. simpl. naive_solver. Qed.

Record dfs_inv (st : list DfsFrame) (X : gset Block) (post : list Block) : Prop := {
  di_seen : forall k, k ∈ X <-> k ∈ post \/ FExit k ∈ st;
  di_nodup : NoDup (post ++ exits st);
  di_reach : forall f, f ∈ st -> rtc edge ENTRYPOINT (frame_block f);
  di_reach_seen : forall k, k ∈ X -> rtc edge ENTRYPOINT k;
  di_above : forall l1 g l2 f, st = l1 ++ FExit g :: l2 -> f ∈ l1 -> rtc edge g (frame_block f);
  di_succ : forall l1 g l2 v, st = l1 ++ FExit g :: l2 -> edge g v -> v ∈ X \/ FEnter v ∈ l1;
  di_done : forall l1 u l2 v, post = l1 ++ u :: l2 -> edge u v -> v ∈ l1 \/ v ∈ X /\ rtc edge v u;
  di_entry : (exists l, st = l ++ [FExit ENTRYPOINT]) \/ st = [FEnter ENTRYPOINT] /\ X = ∅ /\ post = [] \/
    st = [] /\ last post = Some ENTRYPOINT;
}.

Lemma dfs_inv_start : dfs_inv [FEnter ENTRYPOINT] ∅ [].
Proof.
  assert (forall l1 g l2, [FEnter ENTRYPOINT] <> l1 ++ FExit g :: l2) as Hno by (by intros [|? [|]]).
  split.
  - intros k. rewrite elem_of_nil, list_elem_of_singleton. split; [set_solver|by intros [|[=]]].
  - constructor.
  - intros f ->%list_elem_of_singleton. constructor.
  - set_solver.
  - intros l1 g l2 f E. by apply Hno in E.
  - intros l1 g l2 v E. by apply Hno in E.
  - by intros [|].
  - right. by left.
Qed.

Lemma cons_split {A} (f : A) st l1 g l2 :
  f :: st = l1 ++ g :: l2 -> l1 = [] /\ f = g /\ st = l2 \/ exists l1', l1 = f :: l1' /\ st = l1' ++ g :: l2.
Proof. destruct l1 as [|x l1]; simpl; intros [= -> ->]; [by left|right; by exists l1]. Qed.

(** A block met again. *)
Lemma dfs_skip b st X post : dfs_inv (FEnter b :: st) X post -> b ∈ X -> dfs_inv st X post.
Proof.
  intros [Hs Hn Hr Hrs Ha Hsu Hd He] Hb. split; try done.
  - intros k. rewrite Hs, elem_of_cons. naive_solver.
  - intros f Hf. apply Hr. by right.
  - intros l1 g l2 f -> Hf. eapply (Ha (FEnter b :: l1)); [done|by right].
  - intros l1 g l2 v -> Hv. destruct (Hsu (FEnter b :: l1) g l2 v eq_refl Hv) as [|[[= ->]|]%elem_of_cons]; auto.
  - destruct He as [([|f l] & E)|[(_ & -> & _)|[[=] _]]]; [done| |set_solver]. injection E as <- ->. left. by exists l.
Qed.

Lemma push_targets_app seen l st :
  exists new, push_targets seen l st = new ++ st /\ (length new <= length l)%nat /\
    forall f, f ∈ new <-> exists t, t ∈ l /\ set_contains t seen = false /\ f = FEnter t.
Proof.
  revert st. induction l as [|t l IH]; intros st; simpl.
  { exists []. split_and!; [done|done|]. intros f. split; [by intros ?%elem_of_nil|by intros (t & ?%elem_of_nil & _)]. }
  destruct (IH (if set_contains t seen then st else FEnter t :: st)) as (new & -> & Hl & Hn).
  destruct (set_contains t seen) eqn:E.
  - exists new. split_and!; [done|lia|]. intros f. rewrite Hn. split.
    + intros (t' & ? & Ht). exists t'. split; [by right|exact Ht].
    + intros (t' & [->|?]%elem_of_cons & Ht & Hf); [congruence|by exists t'].
  - exists (new ++ [FEnter t]). rewrite <- app_assoc. split_and!; [done|rewrite length_app; simpl; lia|].
    intros f. rewrite elem_of_app, Hn, list_elem_of_singleton. split.
    + intros [(t' & ? & Ht)| ->]; [exists t'; split; [by right|exact Ht]|]. exists t. split_and!; [by left|done|done].
    + intros (t' & [->|?]%elem_of_cons & Ht & ->); [by right|left; by exists t'].
Qed.

(** A block met for the first time; [new] are the frames of its targets. *)
Lemma dfs_enter b st X post new :
  dfs_inv (FEnter b :: st) X post -> b ∉ X ->
  (forall f, f ∈ new <-> exists t, edge b t /\ t ∉ {[b]} ∪ X /\ f = FEnter t) ->
  dfs_inv (new ++ FExit b :: st) ({[b]} ∪ X) post.
Proof.
  intros [Hs Hn Hr Hrs Ha Hsu Hd He] Hb Hnew.
  assert (forall g, FExit g ∉ new) as Hne by (intros g (t & _ & _ & [=])%Hnew).
  assert (rtc edge ENTRYPOINT b) as Hrb by (apply (Hr (FEnter b)); by left).
  assert (forall l1 g l2, new ++ FExit b :: st = l1 ++ FExit g :: l2 ->
    g = b /\ l1 = new /\ l2 = st \/ exists l1', l1 = new ++ FExit b :: l1' /\ st = l1' ++ FExit g :: l2) as Hcases.
  { clear - Hne. induction new as [|f new IH]; intros l1 g l2 E.
    - apply cons_split in E as [(-> & [= <-] & ->)|(l1' & -> & ->)]; [by left|right; by exists l1'].
    - simpl in E. apply cons_split in E as [(-> & -> & _)|(l1' & -> & E)]; [by destruct (Hne g); left|].
      destruct (IH (fun g Hg => Hne g (list_elem_of_further _ _ _ Hg)) _ _ _ E) as [(-> & -> & ->)|(l & -> & ->)]; [by left|right; by exists l]. }
  split.
  - intros k. rewrite elem_of_union, elem_of_singleton, Hs, elem_of_app, !elem_of_cons. specialize (Hne k). clear - Hne. split.
    + intros [->|[?|[[=]|?]]]; [right; right; by left|by left|by right; right; right].
    + intros [?|[?|[[= ->]|?]]]; [right; by left|done|by left|right; right; by right].
  - unfold exits. rewrite omap_app. replace (omap _ new) with (@nil Block).
    2:{ symmetry. apply elem_of_nil_inv. intros x Hx%elem_of_exits. by apply (Hne x). }
    simpl. apply NoDup_app in Hn as (Hn1 & Hn2 & Hn3). apply NoDup_app. split_and!; [done| |].
    + intros k Hk [->|Hk2]%elem_of_cons; [apply Hb, Hs; by left|]. by apply (Hn2 k Hk).
    + constructor; [|done]. intros Hbe. apply Hb, Hs. right. apply elem_of_exits in Hbe. by right.
  - intros f [(t & Ht & _ & ->)%Hnew|[->|Hf]%elem_of_cons]%elem_of_app; [|done|apply Hr; by right].
    simpl. eapply rtc_r; [exact Hrb|done].
  - intros k [->%elem_of_singleton|?]%elem_of_union; [done|by apply Hrs].
  - intros l1 g l2 f E Hf. destruct (Hcases _ _ _ E) as [(-> & -> & ->)|(l1' & -> & ->)].
    + apply Hnew in Hf as (t & Ht & _ & ->). by apply rtc_once.
    + assert (rtc edge g b) as Hgb by (apply (Ha (FEnter b :: l1') g l2 (FEnter b) eq_refl); by left).
      apply elem_of_app in Hf as [(t & Ht & _ & ->)%Hnew|[->|Hf]%elem_of_cons]; [by eapply rtc_r|done|].
      apply (Ha (FEnter b :: l1') g l2 f eq_refl). by right.
  - intros l1 g l2 v E Hv. destruct (Hcases _ _ _ E) as [(-> & -> & ->)|(l1' & -> & ->)].
    + destruct (decide (v ∈ {[b]} ∪ X)); [by left|]. right. apply Hnew. by exists v.
    + destruct (Hsu (FEnter b :: l1') g l2 v eq_refl Hv) as [|[[= ->]|]%elem_of_cons]; [set_solver..|].
      right. apply elem_of_app. right. by right.
  - intros l1 u l2 v -> Hv. destruct (Hd _ _ _ _ eq_refl Hv) as [|[? ?]]; [by left|right; set_solver].
  - left. destruct He as [([|f l] & E)|[([= -> ->] & _ & _)|[[=] _]]]; [done| |by exists new].
    injection E as <- ->. exists (new ++ FExit b :: l). by rewrite <- app_assoc.
Qed.

(** A block whose targets have all been met. *)
Lemma dfs_exit b st X post : dfs_inv (FExit b :: st) X post -> dfs_inv st X (post ++ [b]).
Proof.
  intros [Hs Hn Hr Hrs Ha Hsu Hd He]. split; try done.
  - intros k. rewrite Hs, elem_of_app, elem_of_cons, list_elem_of_singleton. naive_solver.
  - rewrite <- app_assoc. exact Hn.
  - intros f Hf. apply Hr. by right.
  - intros l1 g l2 f -> Hf. eapply (Ha (FExit b :: l1)); [done|by right].
  - intros l1 g l2 v -> Hv. destruct (Hsu (FExit b :: l1) g l2 v eq_refl Hv) as [|[[=]|]%elem_of_cons]; auto.
  - intros l1 u l2 v E Hv. destruct l2 as [|w l2 _] using rev_ind.
    + apply app_inj_tail in E as [-> ->]. destruct (Hsu [] u st v eq_refl Hv) as [Hvx|?%elem_of_nil]; [|done].
      pose proof Hvx as [?|Hex]%Hs; [by left|right]. split; [done|].
      apply elem_of_cons in Hex as [[= ->]|Hex]; [constructor|]. apply list_elem_of_split in Hex as (k1 & k2 & ->).
      apply (Ha (FExit u :: k1) v k2 (FExit u) eq_refl). by left.
    + change (u :: l2 ++ [w]) with ((u :: l2) ++ [w]) in E. rewrite app_assoc in E. apply app_inj_tail in E as [-> ->].
      by eapply Hd.
  - destruct He as [([|f l] & E)|[([=] & _)|[[=] _]]].
    + injection E as -> ->. right. right. split; [done|]. apply last_snoc.
    + injection E as <- ->. left. by exists l.
Qed.

Lemma blocks_bounded l : NoDup l -> (forall b, b ∈ l -> rtc edge ENTRYPOINT b) -> (length l <= n)%nat.
Proof.
  intros Hn Hr. replace n with (length (handles n)) by (unfold handles; by rewrite length_fmap, length_seq).
  apply submseteq_length, NoDup_submseteq; [done|]. intros b Hb. apply elem_of_handles. by apply Hrange, Hr.
Qed.

Definition seen_ok (seen : ArenaSet) (X : gset Block) : Prop :=
  set_ok seen /\ (Z.to_nat (div_ceil (Z.of_nat n) 64) <= length seen)%nat /\
  forall k, set_contains k seen = bool_decide (k ∈ X).

Lemma seen_room seen X b : seen_ok seen X -> (get b < n)%nat -> set_room seen b = true.
Proof.
  intros (_ & Hl & _) Hb. unfold set_room. destruct (index_and_mask_spec b) as (k & -> & _). simpl.
  apply orb_true_iff. right. apply Nat.ltb_lt. pose proof (div_ceil_words (Z.of_nat n)).
  pose proof (Z.div_lt_upper_bound (Z.of_nat (get b)) 64 (div_ceil (Z.of_nat n) 64)). lia.
Qed.

Lemma dfs_spec fuel : forall st seen X post,
  dfs_inv st X post -> seen_ok seen X -> (length st + 3 * (n - size X) <= fuel)%nat ->
  exists post' X', dfs_loop fuel ir st seen post = Some post' /\ dfs_inv [] X' post'.
Proof.
  induction fuel as [|fuel IH]; intros st seen X post Hi Hs Hf.
  { destruct st; [|simpl in Hf; lia]. by exists post, X. }
  destruct st as [|[b|b] st]; [by exists post, X|..]; simpl.
  - assert (rtc edge ENTRYPOINT b) as Hrb by (apply (di_reach _ _ _ Hi (FEnter b)); by left).
    pose proof (Hrange b Hrb) as Hb. pose proof (seen_room seen X b Hs Hb) as Hroom.
    destruct Hs as (Hok & Hl & Hc). pose proof (set_insert_spec b seen Hok) as Hins. rewrite Hroom in Hins.
    destruct Hins as (seen' & -> & Hok' & Hl' & Hc'). cbn [mbind option_bind]. rewrite negb_involutive, Hc.
    assert (seen_ok seen' ({[b]} ∪ X)) as Hs'.
    { split_and!; [done|lia|]. intros k. rewrite Hc', Hc, <- bool_decide_or. apply bool_decide_ext. set_solver. }
    case_bool_decide as HbX.
    + replace ({[b]} ∪ X) with X in Hs' by set_solver. apply (IH st seen' X post); [by eapply dfs_skip|done|].
      simpl in Hf. lia.
    + assert (in_graph ir None b) as [targets Et]%successors_some by by split. rewrite Et. cbn [mbind option_bind].
      destruct (push_targets_app seen' (reverse targets) (FExit b :: st)) as (new & -> & Hln & Hnew).
      apply (IH _ seen' ({[b]} ∪ X) post); [|done|].
      * apply dfs_enter; [done..|]. intros f. rewrite Hnew. destruct Hs' as (_ & _ & Hc2). setoid_rewrite edge_successors. split.
        -- intros (t & Ht & Hts & ->). exists t. split_and!; [exists targets; split; [done|by apply elem_of_reverse]| |done].
           rewrite Hc2 in Hts. by apply bool_decide_eq_false in Hts.
        -- intros (t & (l & El & Ht) & Hts & ->). rewrite Et in El. injection El as <-. exists t.
           split_and!; [|by rewrite Hc2, bool_decide_eq_false|done]. by apply elem_of_reverse.
      * assert (size X < n)%nat as Hsz.
        { assert (size ({[b]} ∪ X) <= n)%nat; [|rewrite size_union, size_singleton in *; [lia|set_solver]].
          change (length (elements ({[b]} ∪ X)) <= n)%nat. apply blocks_bounded; [apply NoDup_elements|].
          intros c [->%elem_of_singleton|?]%elem_of_elements%elem_of_union; [done|by eapply di_reach_seen]. }
        rewrite size_union, size_singleton by set_solver. rewrite length_app. simpl in Hf |- *.
        assert (length targets <= 2)%nat; [|rewrite length_reverse in Hln; lia].
        unfold successors in Et. apply fmap_Some in Et as (d & _ & ->). unfold Term.block_targets.
        destruct (targets (terminator d)) as [|? [|? ?]]; simpl; [lia..|]. case_decide; simpl; lia.
  - assert (length post < n)%nat as Hlp.
    { pose proof (di_nodup _ _ _ Hi) as Hn. simpl in Hn.
      assert (length (post ++ b :: exits st) <= n)%nat; [|rewrite length_app in *; simpl in *; lia].
      apply blocks_bounded; [done|]. intros c Hc. eapply di_reach_seen, (di_seen _ _ _ Hi); [done|].
      apply elem_of_app in Hc as [?|[->|?%elem_of_exits]%elem_of_cons]; [by left|right; by left|right; by right]. }
    rewrite (proj2 (Nat.ltb_lt _ _)) by done. apply (IH st seen X); [by apply dfs_exit|done|]. simpl in Hf. lia.
Qed.

(** [u] comes before [v]. *)
Definition before (l : list Block) (u v : Block) : Prop := exists l1 l2, l = l1 ++ u :: l2 /\ v ∈ l2.

Lemma topo_sort_spec :
  exists order, topo_sort ir = Some order /\ NoDup order /\ (forall v, v ∈ order <-> rtc edge ENTRYPOINT v) /\
    head order = Some ENTRYPOINT /\ forall u v, u ∈ order -> edge u v -> before order u v \/ rtc edge v u.
Proof.
  destruct (dfs_spec (3 * n + 1) [FEnter ENTRYPOINT] (set_with_capacity (Z.of_nat n)) ∅ []) as (post & X & E & Hi).
  { apply dfs_inv_start. }
  { split_and!.
    - apply set_reserve_ok. constructor.
    - unfold set_with_capacity. rewrite set_reserve_length. lia.
    - intros k. unfold set_contains. destruct (index_and_mask k). unfold set_with_capacity.
      by rewrite set_reserve_lookup. }
  { rewrite size_empty. simpl. lia. }
  pose proof (di_nodup _ _ _ Hi) as Hnd. simpl in Hnd. rewrite app_nil_r in Hnd.
  assert (forall k, k ∈ X <-> k ∈ post) as HX.
  { intros k. rewrite (di_seen _ _ _ Hi). split; [by intros [|?%elem_of_nil]|by left]. }
  assert (length post <= n)%nat as Hl by (apply blocks_bounded; [done|]; intros b ?%HX; by eapply di_reach_seen).
  exists (reverse post). unfold topo_sort. rewrite E. cbn [mbind option_bind]. rewrite (proj2 (Nat.leb_le _ _)) by done.
  split_and!; [done|by rewrite reverse_Permutation| | |].
  - intros v. rewrite elem_of_reverse. split; [intros ?%HX; by eapply di_reach_seen|].
    assert (ENTRYPOINT ∈ post) as Hentry.
    { destruct (di_entry _ _ _ Hi) as [([|] & ?)|[[? _]|[_ Hlast]]]; [done..|]. apply last_Some in Hlast as [l' ->]. set_solver. }
    revert v. apply rtc_ind_r; [done|]. intros u v _ He IH.
    apply list_elem_of_split in IH as (l1 & l2 & ->).
    destruct (di_done _ _ _ Hi l1 u l2 v eq_refl He) as [?|[?%HX _]]; [set_solver|done].
  - destruct (di_entry _ _ _ Hi) as [([|] & ?)|[[? _]|[_ Hlast]]]; [done..|].
    apply last_Some in Hlast as [l' ->]. by rewrite reverse_app.
  - intros u v Hu He. rewrite elem_of_reverse in Hu. apply list_elem_of_split in Hu as (l1 & l2 & ->).
    destruct (di_done _ _ _ Hi l1 u l2 v eq_refl He) as [Hv|[_ ?]]; [left|by right].
    exists (reverse l2), (reverse l1). rewrite reverse_app, reverse_cons, <- app_assoc. split; [done|by rewrite elem_of_reverse].
Qed.
End Search.

(** ** After the pass *)

Lemma since_end ir b n d :
  since_check ir b 0 n -> arena_get (blocks ir) b = Some d -> exists m, since_check ir b (length (stmts d)) m.
Proof.
  intros H Hd. assert (forall i, (i <= length (stmts d))%nat -> exists m, since_check ir b i m) as Hi; [|by apply Hi].
  induction i as [|i IH]; intros Hi; [by exists n|]. destruct IH as [m Hm]; [lia|].
  destruct (lookup_lt_is_Some_2 (stmts d) i) as [x Hx]; [lia|]. eexists. by econstructor.
Qed.

Lemma reach_since ir v : rtc (edge ir None) ENTRYPOINT v -> exists n, since_check ir v 0 n.
Proof.
  revert v. apply rtc_ind_r; [exists 0%nat; constructor|]. intros u v _ He [n Hn].
  apply edge_successors in He as (l & Hl & Hv). unfold successors in Hl. apply fmap_Some in Hl as (d & Hd & ->).
  destruct (since_end ir u n d Hn Hd) as [m Hm]. eexists. by econstructor.
Qed.

Lemma pass_in_range ir s org K G : ir_wf ir -> Inv ir org K G s -> reach_in_range (inserter_ir s).
Proof.
  intros Hwf I v [n Hn]%reach_since. apply (since_stands ir Hwf s org K G I) in Hn.
  destruct Hn as [[El _]|(u & r0 & d0 & lb & l & last & d & _ & _ & _ & _ & Hd & _)]; [|by apply lookup_lt_Some in Hd].
  destruct (iv_leave _ _ _ _ _ I v El) as (_ & d & h & w & Hd & _). by apply lookup_lt_Some in Hd.
Qed.

(** ** Properties *)

(** the compile order.  On an IR whose reachable jumps go to blocks the search
    ends and no assertion fails; the order lists exactly the blocks that can be
    reached from the entry, each once and the entry first, and of two blocks with
    a jump from the first to the second the first comes earlier unless the jump
    closes a cycle. *)
Theorem topo_sort_correct ir :
  reach_in_range ir ->
  exists order, topo_sort ir = Some order /\ NoDup order /\
    (forall v, v ∈ order <-> rtc (edge ir None) ENTRYPOINT v) /\ head order = Some ENTRYPOINT /\
    forall u v, u ∈ order -> edge ir None u v -> before order u v \/ rtc (edge ir None) v u.
Proof. apply topo_sort_spec. Qed.

(** Finishing a function.  On an IR as the builder makes it [build] panics if
    some cycle has no safepoint and otherwise returns the function the halt-check
    pass leaves, with a compile order for it: everything the order lists exists,
    the entry comes first, and nothing that can be reached is missing. *)
Theorem build_correct ir hash_order :
  (forall s, hash_order s ≡ₚ elements s) -> (0 < Ir.halt_check_every ir)%Z -> ir_wf ir ->
  (quiet_cycle ir -> build hash_order ir = None) /\
  (~ quiet_cycle ir -> exists x ir', build hash_order ir = Some x /\ insert_halt_checks hash_order ir = Some ir' /\
    exec_blocks x = blocks ir' /\ exec_stmts x = all_stmts ir' /\ exec_ssa_values x = ssa_values ir' /\
    head (block_compile_order x) = Some ENTRYPOINT /\ NoDup (block_compile_order x) /\
    forall v, v ∈ block_compile_order x <-> rtc (edge ir' None) ENTRYPOINT v).
Proof.
  intros Hhash HN Hwf. split; intros Hq; unfold build.
  - by rewrite quiet_panics.
  - destruct (pass_spec ir hash_order Hhash Hwf HN Hq) as (s & org & K & G & E & I & _).
    destruct (topo_sort_spec (inserter_ir s) (pass_in_range ir s org K G Hwf I)) as (order & Eo & Hnd & Hall & Hhead & _).
    rewrite E. cbn [mbind option_bind]. unfold optimize. rewrite Eo. cbn [mbind option_bind].
    eexists _, (inserter_ir s). by split_and!.
Qed.

(** Every jump, reachable or not, goes to a block. *)
Lemma targets_reach ir : targets_in_range ir = true -> (0 < length (blocks ir))%nat -> reach_in_range ir.
Proof.
  intros Ht Hn. unfold reach_in_range. apply rtc_ind_r; [unfold ENTRYPOINT, get; simpl; lia|].
  intros u v _ (l & Hl & Hv & _) _. unfold successors in Hl. apply fmap_Some in Hl as (d & Hd & ->).
  unfold targets_in_range in Ht. rewrite forallb_forall in Ht.
  apply list_elem_of_lookup_2, list_elem_of_In, Ht in Hd. rewrite forallb_forall in Hd.
  by apply Nat.ltb_lt, Hd, list_elem_of_In.
Qed.

Lemma topo_sort_correct_witness :
  reach_in_range sample_graph /\ exists order, topo_sort sample_graph = Some order /\ NoDup order /\
    head order = Some ENTRYPOINT.
Proof.
  assert (reach_in_range sample_graph) as Hr by (apply targets_reach; [by vm_compute|simpl; lia]).
  split; [done|]. destruct (topo_sort_correct sample_graph Hr) as (order & ? & ? & _ & ? & _). by exists order.
Defined.

Lemma build_correct_witness :
  build elements (sample_loop KLoadHaltReason) = None /\
  exists x, build elements (sample_loop KSafepoint) = Some x /\ head (block_compile_order x) = Some ENTRYPOINT /\
    block_compile_order x = [1; 2; 4; 3; 6; 5]%positive.
Proof.
  assert (forall stmt, stmt = KSafepoint \/ stmt = KLoadHaltReason -> ir_wf (sample_loop stmt)) as Hwf
    by (intros stmt [->| ->]; apply wf_check_ok; vm_compute; reflexivity).
  split.
  - apply (build_correct (sample_loop KLoadHaltReason) elements); [done|done|apply Hwf; by right|apply sample_loop_quiet].
  - destruct (proj2 (build_correct (sample_loop KSafepoint) elements ltac:(done) ltac:(done) (Hwf _ ltac:(by left))) sample_loop_safe)
      as (x & ir' & E & _ & _ & _ & _ & Hh & _). exists x. split_and!; [done|done|]. vm_compute in E. by injection E as <-.
Defined.
