(* ===== verification/IrFinished.v ===== *)
(** * From the builder's methods to a finished function
    ([jit-compiler-core/src/ir/mod.rs], [ExecIrBuilder::build])

    What the halt-check pass and the compile order rely on holds of everything the
    builder's methods make, so that their guarantees are guarantees of [build]. *)

From S2P Require Import Prelude Convert HaltReason MemTypes Fault Memops ObjectQueue Fabric PageTable IoMMU.
From S2P Require Import ExclusiveMonitor LookupCache MemAccess FfiSupport Arena Ir IrSem IrEmit IrLogic IrArith.
From S2P Require Import IrTyping IrBuilt IrBuilder IrRun.
From S2P Require Import Tarjan SccGraph HaltCheck HaltSplit HaltInv HaltSound HaltSim BlockOrder.
Local Open Scope Z_scope.
Local Open Scope emu_scope.

(** A function ready to be built: every block ends, and there are at most as many
    blocks as a set of them holds, and room for the checks. *)
Record finished (ir : ExecIrBuilder) : Prop := {
  fi_terminated : forall b d, arena_get (blocks ir) b = Some d -> terminated d = true;
  fi_small : (length (blocks ir) <= 64)%nat;
  fi_room : pass_room ir;
}.

Lemma block_targets_inv t v : v ∈ Term.block_targets t -> exists j, j ∈ targets t /\ v = jump_target j.
Proof.
  unfold Term.block_targets. destruct (targets t) as [|j1 [|j2 l]]; [by intros ?%elem_of_nil| |].
  - intros ->%list_elem_of_singleton. exists j1. split; [left|done].
  - case_decide; [intros ->%list_elem_of_singleton; exists j1; split; [left|done]|].
    intros [-> | ->%list_elem_of_singleton]%elem_of_cons; [exists j1|exists j2]; (split; [|done]); [left|right; left].
Qed.

Lemma built_wf ir : built ir -> finished ir -> ir_wf ir.
Proof.
  intros Hb [Ht Hs Hr]. split; try done.
  - split; [|done]. intros u l v Hsucc Hv. unfold successors in Hsucc. apply fmap_Some in Hsucc as (d & Hd & ->).
    apply block_targets_inv in Hv as (j & Hj & ->). apply (bu_blocks _ Hb) in Hd as (_ & _ & _ & HF).
    rewrite Forall_forall in HF. destruct (HF _ Hj) as (_ & d' & ?%lookup_lt_Some & _). done.
  - intros b d x Hd Hx. apply (bu_blocks _ Hb) in Hd as (_ & Hst & _). by apply Hst.
  - intros x b d i b' d' i' _ Hd Hx Hd' Hx'. by destruct (bu_once _ Hb x b d i b' d' i' Hd Hx Hd' Hx') as [-> ->].
  - apply Hb.
  - destruct (bu_entry _ Hb) as (d & Hd & _). by exists d.
Qed.

Lemma built_values ir : built ir -> values_ok ir.
Proof.
  intros Hb. split.
  - intros x d v Hd Hv. apply list_elem_of_lookup in Hv as [i Hi]. eapply (defined_lt ir v (SOutput x i) Hb). by econstructor.
  - intros b d v Hd Hv. apply list_elem_of_lookup in Hv as [i Hi]. eapply (defined_lt ir v (SParam b i) Hb). by econstructor.
Qed.

Lemma env_typed_below ir ρ : env_typed ir ρ -> env_below (length (ssa_values ir)) ρ.
Proof. intros Hρ v x (ty & ?%vty_lt & _)%Hρ. done. Qed.

Lemma quiet_cycle_decided ir : ir_wf ir -> quiet_cycle ir \/ ~ quiet_cycle ir.
Proof.
  intros Hwf. destruct (assert_cycles_decides ir (wf_graph _ Hwf) (wf_stmts _ Hwf)) as ([|] & _ & Hq); [left; by apply Hq|right].
  by intros ?%Hq.
Qed.

Section Finished.
Context {Error : Type} (e : Endian) (ly : Layout) (io_mmu : IoMMU).

(** C2: from the builder's methods to the finished function.  For every function made
    by the builder's public methods and finished, of at most 64 blocks, [build]
    panics exactly when some cycle has no safepoint.  Otherwise what it returns
    checks the halt word in time, on whatever path control takes from the entry,
    and does what the function made does: whatever a run of that has come to,
    a run of the result comes to, unless a halt was requested on the way; then it
    may have left at that point instead, with the requested code and with nothing
    else changed. *)
Theorem translated_function_correct ir hash_order ident (w : World (Error := Error)) :
  Constructed e ly ir -> finished ir -> 0 < Ir.halt_check_every ir -> (forall s, hash_order s ≡ₚ elements s) ->
  let p := mkPoint ENTRYPOINT 0 (entry_env ident) w in
  (build hash_order ir = None <-> quiet_cycle ir) /\
  forall x, build hash_order ir = Some x -> exists ir',
    exec_blocks x = blocks ir' /\ exec_stmts x = all_stmts ir' /\ exec_ssa_values x = ssa_values ir' /\
    (forall v, v ∈ block_compile_order x <-> rtc (edge ir' None) ENTRYPOINT v) /\
    (forall b i n, since_check ir' b i n -> Z.of_nat n <= Ir.halt_check_every ir) /\
    forall fuel r, run_ir e ly io_mmu fuel ir p = Some r ->
      (exists fuel' r', run_ir e ly io_mmu fuel' ir' p = Some r' /\ same_outcome r r') \/
      exists m q fuel', (m <= fuel)%nat /\ run_ir e ly io_mmu m ir p = Some (Continue q) /\ halt_word (world q) <> 0 /\
        run_ir e ly io_mmu fuel' ir' p = Some (Exit (halt_word (world q)) (set_halt_word 0 (world q))).
Proof.
  intros Hb%constructed_built Hfin HN Hhash p. pose proof (built_wf ir Hb Hfin) as Hwf. pose proof (built_values ir Hb) as Hvo.
  destruct (quiet_cycle_decided ir Hwf) as [Hq|Hq].
  { assert (build hash_order ir = None) as E by (unfold build; by rewrite quiet_panics).
    split; [done|]. intros x. by rewrite E. }
  destruct (pass_spec ir hash_order Hhash Hwf HN Hq) as (s & org & K & G & E & I & Hbound).
  destruct (topo_sort_spec (inserter_ir s) (pass_in_range ir s org K G Hwf I)) as (order & Eo & _ & Hall & _).
  unfold build. rewrite E. cbn [mbind option_bind]. unfold optimize. rewrite Eo. cbn [mbind option_bind].
  split; [by split|]. intros x [= <-]. exists (inserter_ir s). split_and!; [done..| |].
  - intros b i n Hs. eapply (stands_bound ir); [done|exact I|exact Hbound|]. by apply (since_stands ir Hwf s org K G I).
  - intros fuel r Hr. destruct (wf_entry _ Hwf) as [d Hd].
    pose proof (env_typed_below ir _ (entry_env_typed ir ident (fun a => arg_vty ir a Hb))) as Hbelow.
    pose proof (matches_start ir org K G s I ENTRYPOINT _ _ w d Hd ltac:(done) Hbelow) as Hm.
    destruct (run_matches e ly io_mmu ir Hwf Hvo org K G s I fuel p p r Hm Hr) as [(n & r' & Er & Hsame)|?]; [left|by right].
    exists n, r'. split; [done|]. destruct Hsame as [q0 q Hq0|]; [apply Hq0|by split].
Qed.
End Finished.

(** ** A function *)

Definition finished_check (ir : ExecIrBuilder) : bool :=
  forallb terminated (blocks ir) && (length (blocks ir) <=? 64)%nat && bool_decide (pass_room ir).

Lemma finished_check_ok ir : finished_check ir = true -> finished ir.
Proof.
  unfold finished_check. rewrite !andb_true_iff, forallb_forall, Nat.leb_le, bool_decide_eq_true. intros [[Ht Hs] Hr].
  split; [|done..]. intros b d Hd. by apply Ht, list_elem_of_In, (list_elem_of_lookup_2 _ (get b)).
Qed.

Lemma translated_function_correct_witness :
  exists b x ir', Constructed Little sample_layout b /\ finished b /\ build elements b = Some x /\
    exec_blocks x = blocks ir' /\ forall c i n, since_check ir' c i n -> Z.of_nat n <= 4.
Proof.
  destruct (run_ops Little sample_layout sample_ops (with_config 4)) as [[[] b]|] eqn:E; [|by vm_compute in E].
  assert (Constructed Little sample_layout b) as Hc by (eapply constructed_ops; [constructor|apply sample_ops_ok|exact E]).
  assert (finished b) as Hf by (apply finished_check_ok; vm_compute in E; injection E as <-; by vm_compute).
  assert (Ir.halt_check_every b = 4) as HN by (vm_compute in E; by injection E as <-).
  destruct (build elements b) as [x|] eqn:Ex; [|vm_compute in E; injection E as <-; by vm_compute in Ex].
  destruct (proj2 (translated_function_correct Little sample_layout sample_mmu b elements MaybeIdent.invalid sample_world Hc Hf
    ltac:(by rewrite HN) ltac:(done)) x Ex) as (ir' & ? & _ & _ & _ & Hb & _).
  rewrite HN in Hb. exists b, x, ir'. split_and!; assumption.
Defined.
