(* ===== verification/TarStream.v ===== *)
(** * The streaming archive reader
    ([code-generator/src/instruction_parser/tar_ball.rs])

    One thread reads an archive and hands its files out while it reads them: each
    file has a channel of its own, of one packet, and all of them share a budget of
    bytes in flight.  This file has the reader of one file, the budget and the
    thread.  The channels and the archive are libraries: what a send comes to
    (taken, refused, the other end gone) is an arbitrary function of time, and so
    is which of several sends a selection completes; the log of the state is what
    was sent. *)

From S2P Require Import Prelude.
Local Open Scope Z_scope.
Local Open Scope emu_scope.

Section Stream.
Context {Error Path : Type}.

(** ** The reader of one file *)

Inductive DataPacket := FlushBuffer | NewData (data : list Z).
(** [io::Result<DataPacket>]. *)
Abbreviation Packet := (Result DataPacket Error).

Record CurrentReadBuf := mkReadBuf { buf : list Z; offset : nat }.

Definition ReadBuf_empty : CurrentReadBuf := mkReadBuf [] 0.
Definition ReadBuf_new (buf : list Z) : CurrentReadBuf := mkReadBuf buf 0.
(** Slicing panics beyond the end. *)
Definition slice (c : CurrentReadBuf) : option (list Z) :=
  if (offset c <=? length (buf c))%nat then Some (drop (offset c) (buf c)) else None.
Definition saturating_add (a b : nat) : nat := Z.to_nat (Z.min (Z.of_nat a + Z.of_nat b) U64_MAX).
Definition advance (amount : nat) (c : CurrentReadBuf) : CurrentReadBuf :=
  mkReadBuf (buf c) (Nat.min (saturating_add (offset c) amount) (length (buf c))).

(** [data_flow] is what the channel will still deliver, up to the end of the
    sender; receiving blocks until then. *)
Record TarFileEntry := mkEntry { path : Path; data_flow : list Packet; current_read : CurrentReadBuf }.

Definition TarFileEntry_create (path : Path) (data_flow : list Packet) : TarFileEntry :=
  mkEntry path data_flow ReadBuf_empty.

(** The loop of [fill_buf]: what is left of the channel, and the buffer, the end
    or the error it stops with. *)
Fixpoint receive_data (flow : list Packet) (current : CurrentReadBuf) :
    list Packet * CurrentReadBuf * Result bool Error :=
  match flow with
  | [] => ([], current, Ok false)
  | Err err :: flow => (flow, current, Err err)
  | Ok (NewData data) :: flow => (flow, ReadBuf_new data, Ok true)
  | Ok FlushBuffer :: flow => receive_data flow ReadBuf_empty
  end.

Definition fill_buf : SM TarFileEntry (Result (list Z) Error) := fun s =>
  current ← slice (current_read s);
  match current with
  | [] =>
      let '(flow, current, r) := receive_data (data_flow s) (current_read s) in
      let s := mkEntry (path s) flow current in
      match r with
      | Err err => Some (Err err, s)
      | Ok false => Some (Ok [], s)
      | Ok true => data ← slice (current_read s); Some (Ok data, s)
      end
  | _ => Some (Ok current, s)
  end.

Definition consume_data (amount : nat) : SM TarFileEntry unit :=
  sm_modify (fun s => mkEntry (path s) (data_flow s) (advance amount (current_read s))).

(** [read] into [n] bytes: those read. *)
Definition read (n : nat) : SM TarFileEntry (Result (list Z) Error) :=
  if (n =? 0)%nat then sm_ret (Ok [])
  else
    let!? reader := fill_buf in
    let bytes := take n reader in
    consume_data (length bytes) ;;!
    sm_ret (Ok bytes).

(** The loop of [read_to_end].  The capacities only decide whose allocation is
    kept when nothing was read before. *)
Fixpoint receive_all (flow : list Packet) (buf : list Z) : list Packet * list Z * option Error :=
  match flow with
  | [] => ([], buf, None)
  | Err err :: flow => (flow, buf, Some err)
  | Ok FlushBuffer :: flow => receive_all flow buf
  | Ok (NewData read_buf) :: flow =>
      receive_all flow (match buf with [] => read_buf | _ => buf ++ read_buf end)
  end.

(** [read_to_end(buf)]: the bytes added, or the error, and [buf]. *)
Definition read_to_end (buf : list Z) : SM TarFileEntry (Result Z Error * list Z) := fun s =>
  let start_len := Z.of_nat (length buf) in
  current ← slice (current_read s);
  let '(flow, buf, err) := receive_all (data_flow s) (buf ++ current) in
  let s := mkEntry (path s) flow ReadBuf_empty in
  match err with
  | Some err => Some (Err err, buf, s)
  | None =>
      added ← checked_sub (Z.of_nat (length buf)) start_len;
      Some (Ok added, buf, s)
  end.
(** ** What the libraries do *)

(** [try_send] on a channel of one packet. *)
Inductive TrySend := Sent | Full | Disconnected.

(** A channel: the number of its entry. *)
Abbreviation Channel := nat.

(** What was sent, in order: entries to the stream, packets to their channels. *)
Inductive Event :=
  | Published (entry : Result (Path * Channel) Error)
  | Delivered (channel : Channel) (packet : Packet).

(** A file of the archive: its bytes and what reading on then comes to, the end
    of the file or an error. *)
Record TarEntry := mkTarEntry { contents : list Z; read_error : option Error }.

(** At time [t]: what a [try_send] comes to, whether a [send] finds a receiver,
    which of [n] sends a selection completes, and the key a new entry of the slab
    gets.  [complete] and [vacant] are in range. *)
Record Environment := mkEnvironment {
  try_send_at : nat -> TrySend;
  send_at : nat -> bool;
  complete_at : nat -> nat -> nat;
  vacant : gmap nat (Z * Channel) -> nat;
}.

Record environment_ok (env : Environment) : Prop := {
  complete_in_range : forall t n, (0 < n)%nat -> (complete_at env t n < n)%nat;
  vacant_is_free : forall m, m !! vacant env m = None;
}.

Context (env : Environment).

(** ** The budget *)

Record BudgetCalculator := mkBudget {
  current_budget : Z;
  pending_operations : gmap nat (Z * Channel);  (* the amount is a [NonZero<usize>] *)
  total_budget : Z;
}.

Definition BudgetCalculator_new (total_budget : Z) : BudgetCalculator := mkBudget total_budget ∅ total_budget.

(** The state of the thread: the time, its budget and what it has sent. *)
Record Producer := mkProducer { clock : nat; budget_calc : BudgetCalculator; log : list Event }.

Definition tick : SM Producer nat := fun s =>
  Some (clock s, mkProducer (S (clock s)) (budget_calc s) (log s)).
Definition record_event (ev : Event) : SM Producer unit :=
  sm_modify (fun s => mkProducer (clock s) (budget_calc s) (log s ++ [ev])).
Definition get_budget_calc : SM Producer BudgetCalculator := fun s => Some (budget_calc s, s).
Definition set_current_budget (v : Z) : SM Producer unit := sm_modify (fun s =>
  mkProducer (clock s) (mkBudget v (pending_operations (budget_calc s)) (total_budget (budget_calc s))) (log s)).
Definition set_pending (m : gmap nat (Z * Channel)) : SM Producer unit := sm_modify (fun s =>
  mkProducer (clock s) (mkBudget (current_budget (budget_calc s)) m (total_budget (budget_calc s))) (log s)).

Definition try_send (channel : Channel) (packet : Packet) : SM Producer TrySend :=
  let! t := tick in
  match try_send_at env t with
  | Sent => record_event (Delivered channel packet) ;;! sm_ret Sent
  | r => sm_ret r
  end.

(** A blocking send; [false] when the receiver is gone. *)
Definition send (ev : Event) : SM Producer bool :=
  let! t := tick in
  if send_at env t then record_event ev ;;! sm_ret true else sm_ret false.

(** [usize::strict_add]. *)
Definition strict_add (a b : Z) : option Z := checked_add 64 a b.

Definition add_to_current (amount : Z) : SM Producer unit :=
  let! b := get_budget_calc in
  let! v := sm_of_option (strict_add (current_budget b) amount) in
  set_current_budget v.

Definition try_refill_budget_from (sender_budget : Z) (sender : Channel) : SM Producer bool :=
  let! r := try_send sender (Ok FlushBuffer) in
  match r with
  | Sent | Disconnected => add_to_current sender_budget ;;! sm_ret true
  | Full => sm_ret false
  end.

(** [Slab::retain]: the entries that sent a flush go. *)
Definition try_refill_budget : SM Producer unit :=
  let! b := get_budget_calc in
  sm_for (map_to_list (pending_operations b)) (fun '(key, (budget, sender)) =>
    let! sent_flush := try_refill_budget_from budget sender in
    if sent_flush : bool then
      let! b := get_budget_calc in set_pending (delete key (pending_operations b))
    else sm_ret tt).

(** Blocks until one of the channels takes a flush, or its receiver is gone. *)
Definition refill_budget (sender : option (Z * Channel)) : SM Producer (bool * Z) :=
  let! b := get_budget_calc in
  let options : list (option nat * (Z * Channel)) :=
    ((fun '(i, x) => (Some i, x)) <$> map_to_list (pending_operations b)) ++
    match sender with Some x => [(None, x)] | None => [] end in
  sm_assert (negb (bool_decide (pending_operations b = ∅)) || bool_decide (is_Some sender)) ;;!
  let! t := tick in
  let! (selector, (budget_reclaimed, channel)) := sm_of_option (options !! complete_at env t (length options)) in
  (if send_at env t then record_event (Delivered channel (Ok FlushBuffer)) else sm_ret tt) ;;!
  (match selector with
   | Some sender_idx => set_pending (delete sender_idx (pending_operations b))
   | None => sm_ret tt
   end) ;;!
  add_to_current budget_reclaimed ;;!
  try_refill_budget ;;!
  let! b := get_budget_calc in
  sm_assert (negb (current_budget b =? 0)) ;;!
  sm_ret (match selector with None => true | Some _ => false end, current_budget b).

Definition get_available_budget_inner (sender : option (Z * Channel)) : SM Producer (bool * Z) :=
  let! b := get_budget_calc in
  (if (8 <? size (pending_operations b))%nat || (current_budget b <=? 1024) then try_refill_budget else sm_ret tt) ;;!
  let! flushed_active_sender := match sender with
    | Some (budget, sender) => try_refill_budget_from budget sender
    | None => sm_ret false
    end in
  let! b := get_budget_calc in
  if negb (current_budget b =? 0) then sm_ret (flushed_active_sender, current_budget b) else refill_budget sender.

Definition get_available_budget : SM Producer Z :=
  let! (flushed_sender, budget) := get_available_budget_inner None in
  sm_assert (negb flushed_sender) ;;! sm_ret budget.

Definition consume (budget : Z) (sender : Channel) : SM Producer (bool * Z) :=
  let! b := get_budget_calc in
  let! v := sm_of_option (checked_sub (current_budget b) budget) in
  set_current_budget v ;;!
  get_available_budget_inner (Some (budget, sender)).

Definition add_budget (amt : Z) : SM Producer unit :=
  let! b := get_budget_calc in
  let! new_budget := sm_of_option (strict_add (current_budget b) amt) in
  sm_assert (new_budget <=? total_budget b) ;;!
  set_current_budget new_budget.

Definition enqueue (consumed : Z) (sender : Channel) : SM Producer unit :=
  let! b := get_budget_calc in
  set_pending (<[vacant env (pending_operations b) := (consumed, sender)]> (pending_operations b)).

(** The sum of the budget and of what is in flight is the total. *)
Definition assert_budget_complete : SM Producer unit :=
  let! b := get_budget_calc in
  let! budget := sm_of_option (foldl (fun acc x => acc ← acc; strict_add acc x.1) (Some (current_budget b))
    (map_to_list (pending_operations b)).*2) in
  sm_assert (budget =? total_budget b).

(** ** The thread *)

(** [take(n).read_to_end(&mut data)]: up to [n] bytes, or the error behind them. *)
Definition read_chunk (entry : TarEntry) (n : Z) : Result (list Z) Error * TarEntry :=
  if n <=? Z.of_nat (length (contents entry)) then
    (Ok (take (Z.to_nat n) (contents entry)), mkTarEntry (drop (Z.to_nat n) (contents entry)) (read_error entry))
  else
    match read_error entry with
    | Some err => (Err err, mkTarEntry [] None)
    | None => (Ok (contents entry), mkTarEntry [] None)
    end.

Definition flush_in_flight (in_flight : option Z) : SM Producer (option Z) :=
  match in_flight with Some remaining => add_budget remaining ;;! sm_ret None | None => sm_ret None end.

(** One file: what is in flight at its end. *)
Fixpoint reading_loop (fuel : nat) (entry : TarEntry) (reader_tx : Channel) (in_flight : option Z)
    (budget_for_send : Z) : SM Producer (option Z) :=
  match fuel with
  | O => sm_panic
  | S fuel =>
      match read_chunk entry budget_for_send with
      | (Ok [], _) => sm_ret in_flight
      | (Ok data, entry) =>
          let res := Z.of_nat (length data) in
          let! sent := send (Delivered reader_tx (Ok (NewData data))) in
          if negb sent then flush_in_flight in_flight
          else
            (match in_flight with Some flushed => add_budget flushed | None => sm_ret tt end) ;;!
            let! (flushed_in_flight, new_budget) := consume res reader_tx in
            reading_loop fuel entry reader_tx (if flushed_in_flight : bool then None else Some res) new_budget
      | (Err err, _) =>
          let! _ := send (Delivered reader_tx (Err err)) in
          flush_in_flight in_flight
      end
  end.

(** The files, each with the number of its channel, until nobody takes them. *)
Fixpoint archive_entries (reader_tx : Channel) (entries : list (Result (Path * TarEntry) Error)) : SM Producer unit :=
  match entries with
  | [] => sm_ret tt
  | Err err :: entries =>
      let! sent := send (Published (Err err)) in
      if negb sent then sm_ret tt else archive_entries reader_tx entries
  | Ok (path, entry) :: entries =>
      let! sent := send (Published (Ok (path, reader_tx))) in
      if negb sent then sm_ret tt
      else
        let! budget_for_send := get_available_budget in
        let! in_flight := reading_loop (S (length (contents entry))) entry reader_tx None budget_for_send in
        (match in_flight with Some in_flight => enqueue in_flight reader_tx | None => sm_ret tt end) ;;!
        archive_entries (S reader_tx) entries
  end.

(** The archive's entries, or the error opening it comes to. *)
Definition archive_thread (entries : Result (list (Result (Path * TarEntry) Error)) Error) : SM Producer unit :=
  match entries with
  | Err err => let! _ := send (Published (Err err)) in sm_ret tt
  | Ok entries => archive_entries 0 entries ;;! assert_budget_complete
  end.

(** 32 MiB. *)
Definition MAX_BUFFERED_FILE_BYTES : Z := 32 * 1024 * 1024.

Definition initial_producer : Producer := mkProducer 0 (BudgetCalculator_new MAX_BUFFERED_FILE_BYTES) [].
End Stream.
