(* ===== verification/TarBudget.v ===== *)
(** * The budget of the streaming archive reader is conserved
    ([code-generator/src/instruction_parser/tar_ball.rs])

    Whatever the channels do, no byte of the budget is lost or counted twice, no
    assertion of the thread fails and it ends; what it sends on a file's channel is
    the file. *)

From S2P Require Import Prelude TarStream.
Local Open Scope Z_scope.
Local Open Scope emu_scope.

(** ** The amount in flight *)

(** The sum of the amounts of the pending operations. *)
Definition in_pending (m : gmap nat (Z * nat)) : Z := map_fold (fun _ x acc => x.1 + acc) 0 m.

Lemma in_pending_insert m k x : m !! k = None -> in_pending (<[k := x]> m) = x.1 + in_pending m.
Proof. intros H. unfold in_pending. rewrite map_fold_insert_L; [done|intros; lia|done]. Qed.

Lemma in_pending_delete m k x : m !! k = Some x -> in_pending (delete k m) = in_pending m - x.1.
Proof.
  intros H. rewrite <- (insert_delete_id m k x H) at 2. rewrite in_pending_insert by apply lookup_delete_eq. lia.
Qed.

Definition all_positive (m : gmap nat (Z * nat)) : Prop := map_Forall (fun _ x => 0 < x.1) m.

Lemma in_pending_nonneg m : all_positive m -> 0 <= in_pending m.
Proof.
  induction m as [|k x m Hk IH] using map_ind; [done|]. intros H. rewrite in_pending_insert by done.
  unfold all_positive in *. rewrite map_Forall_insert in H by done. destruct H as [? ?%IH]. lia.
Qed.

Lemma in_pending_elem m k x : all_positive m -> m !! k = Some x -> 0 < x.1 <= in_pending m.
Proof.
  intros Hp Hx. pose proof (in_pending_delete _ _ _ Hx). assert (0 <= in_pending (delete k m)); [|pose proof (Hp _ _ Hx); simpl in *; lia].
  apply in_pending_nonneg. by apply map_Forall_delete.
Qed.

Lemma in_pending_empty m : all_positive m -> 0 < in_pending m -> m <> ∅.
Proof. intros _ H ->. unfold in_pending in H. rewrite map_fold_empty in H. lia. Qed.

Section Budget.
Context {Error Path : Type} (env : @Environment) (Henv : environment_ok env).
Abbreviation Producer := (@Producer Error Path).
Abbreviation pending s := (pending_operations (budget_calc s)).
Abbreviation current s := (current_budget (budget_calc s)).
Abbreviation total s := (total_budget (budget_calc s)).

(** With [fl] bytes of the current file in flight, the budget is complete. *)
Record conserved (fl : Z) (s : Producer) : Prop := {
  co_sum : current s + in_pending (pending s) + fl = total s;
  co_total : 0 < total s < 2 ^ 64;
  co_current : 0 <= current s;
  co_positive : all_positive (pending s);
  co_flight : 0 <= fl;
}.

Definition is_flush (ev : @Event Error Path) : bool :=
  match ev with Delivered _ (Ok FlushBuffer) => true | _ => false end.

(** What happened in between: flushes, and time passed. *)
Definition flushes (s s' : Producer) : Prop :=
  total s' = total s /\ exists evs, log s' = log s ++ evs /\ Forall (fun ev => is_flush ev = true) evs.

#[local] Instance flushes_preorder : PreOrder flushes.
Proof.
  split; [intros s; split; [done|]; exists []; by rewrite app_nil_r|].
  intros s1 s2 s3 [T1 (e1 & L1 & F1)] [T2 (e2 & L2 & F2)]. split; [congruence|]. exists (e1 ++ e2).
  rewrite L2, L1, app_assoc. split; [done|]. by apply Forall_app.
Qed.

Lemma no_flushes s s' : total s' = total s -> log s' = log s -> flushes s s'.
Proof. intros H1 H2. split; [done|]. exists []. by rewrite app_nil_r. Qed.

Lemma refill_from_spec s budget channel :
  0 <= current s -> 0 <= budget -> current s + budget < 2 ^ 64 ->
  exists r s', try_refill_budget_from env budget channel s = Some (r, s') /\ flushes s s' /\
    pending s' = pending s /\ current s' = current s + if r : bool then budget else 0.
Proof.
  intros Hc Hb Hs. unfold try_refill_budget_from, try_send, add_to_current, get_budget_calc, strict_add, checked_add, sm_bind, tick.
  cbn [clock budget_calc log]. destruct (try_send_at env (clock s)); unfold sm_ret, record_event, sm_modify; simpl;
    unfold sm_of_option, set_current_budget, sm_modify; simpl;
    rewrite ?(proj2 (Z.ltb_lt _ _) Hs); eexists _, _; (split; [reflexivity|]); simpl; (split; [|split; [done|lia]]);
    (split; [done|]); simpl.
  - eexists. split; [done|]. by constructor.
  - exists []. by rewrite app_nil_r.
  - exists []. by rewrite app_nil_r.
Qed.

Lemma try_refill_spec fl s :
  conserved fl s -> exists s', try_refill_budget env s = Some (tt, s') /\ conserved fl s' /\ flushes s s' /\ current s <= current s'.
Proof.
  intros Hc. unfold try_refill_budget, sm_bind, get_budget_calc.
  assert (Forall (fun kx => pending s !! kx.1 = Some kx.2) (map_to_list (pending s))) as Hin.
  { apply Forall_forall. intros [k x] ?%elem_of_map_to_list. done. }
  pose proof (NoDup_fst_map_to_list (pending s)) as Hnd. revert Hin Hnd.
  generalize (map_to_list (pending s)) as l. intros l. revert s Hc.
  induction l as [|[k [b c]] l IH]; intros s Hc Hin Hnd; simpl; [exists s; by split_and!|].
  apply Forall_cons in Hin as [Hk Hin]. simpl in Hk, Hnd. apply NoDup_cons in Hnd as [Hnk Hnd].
  destruct (in_pending_elem _ _ _ (co_positive _ _ Hc) Hk) as [? ?]. simpl in *.
  pose proof (co_sum _ _ Hc). pose proof (co_total _ _ Hc). pose proof (co_current _ _ Hc). pose proof (co_flight _ _ Hc).
  destruct (refill_from_spec s b c) as (r & s1 & E & Hf & Hp & Hcur); [lia..|].
  unfold sm_bind. rewrite E. destruct Hf as [Ht Hlog]. destruct r.
  - unfold set_pending, sm_modify. cbn [budget_calc].
    match goal with |- context [sm_for l _ ?st] => set (s2 := st) end.
    assert (conserved fl s2) as Hc2.
    { split; simpl; rewrite ?Hp, ?Ht.
      - rewrite (in_pending_delete _ _ _ Hk). simpl. lia.
      - done.
      - lia.
      - apply map_Forall_delete, Hc.
      - done. }
    destruct (IH s2 Hc2) as (s3 & E3 & Hc3 & Hf3 & Hle); [|done|].
    { apply Forall_forall. intros [k' x'] Hin'. rewrite Forall_forall in Hin. simpl. rewrite Hp.
      rewrite lookup_delete_ne; [by apply (Hin (k', x'))|]. intros ->. apply Hnk, list_elem_of_fmap. by exists (k', x'). }
    exists s3. split; [exact E3|split; [done|split; [|simpl in Hle; lia]]]. etrans; [|exact Hf3]. split; [simpl; congruence|exact Hlog].
  - assert (conserved fl s1) as Hc1 by (split; rewrite ?Hp, ?Ht; try apply Hc; lia).
    destruct (IH s1 Hc1) as (s3 & E3 & Hc3 & Hf3 & Hle); [by rewrite Hp|done|].
    exists s3. split; [exact E3|split; [done|split; [|lia]]]. etrans; [|exact Hf3]. by split.
Qed.
(** Flushing the current file's channel. *)
Definition active_ok (fl : Z) (sender : option (Z * nat)) : Prop :=
  match sender with Some (b, _) => b = fl /\ 0 < fl | None => fl = 0 end.

Definition after_flush (r : bool) (fl : Z) : Z := if r then 0 else fl.

Lemma refill_active_spec fl s sender :
  conserved fl s -> active_ok fl sender ->
  exists r s', match sender with Some (b, c) => try_refill_budget_from env b c | None => sm_ret false end s = Some (r, s') /\
    conserved (after_flush r fl) s' /\ flushes s s' /\ (sender = None -> r = false) /\ (r = true -> 0 < current s').
Proof.
  intros Hc Ha. destruct sender as [[b c]|]; simpl in Ha.
  - destruct Ha as [-> Hfl]. destruct Hc as [Hs Ht Hcur Hp Hf]. pose proof (in_pending_nonneg _ Hp).
    destruct (refill_from_spec s fl c) as (r & s' & E & Hfl' & Hpd & Hcu); [lia..|]. exists r, s'. split; [done|].
    destruct Hfl' as [Htot Hlog]. split_and!; [| |done|].
    + destruct r; split; simpl; rewrite ?Hpd, ?Htot; try done; lia.
    + by split.
    + intros ->. lia.
  - subst fl. exists false, s. by split_and!.
Qed.

(** What a completed selection does to the budget. *)
Lemma reclaim_spec fl s s1 sel b c sender :
  conserved fl s -> active_ok fl sender -> budget_calc s1 = budget_calc s -> 0 < b -> current s = 0 ->
  match sel with Some k => pending s !! k = Some (b, c) | None => sender = Some (b, c) end ->
  exists s2, ((match sel with Some k => set_pending (delete k (pending s)) | None => sm_ret tt end) ;;! add_to_current b)%emu s1 =
      Some (tt, s2) /\ conserved (after_flush (match sel with None => true | Some _ => false end) fl) s2 /\ flushes s1 s2 /\ 0 < current s2.
Proof.
  intros [Hs Ht Hcur Hp Hf] Ha E1 Hb H0 Hsel. pose proof (in_pending_nonneg _ Hp).
  unfold add_to_current, get_budget_calc, set_pending, set_current_budget, sm_modify, sm_of_option, strict_add, checked_add, sm_bind.
  destruct sel as [k|]; unfold sm_ret; simpl.
  all: rewrite !E1, H0.
  - destruct (in_pending_elem _ _ _ Hp Hsel) as [_ Hle]. simpl in Hle. rewrite (proj2 (Z.ltb_lt (0 + b) _)) by lia.
    eexists. split; [reflexivity|]. split; [|split; [by apply no_flushes; simpl; rewrite ?E1|simpl; lia]].
    split; simpl; rewrite ?E1; try done; [|lia|by apply map_Forall_delete].
    rewrite (in_pending_delete _ _ _ Hsel). simpl. lia.
  - subst sender. destruct Ha as [-> _]. rewrite (proj2 (Z.ltb_lt (0 + fl) _)) by lia.
    eexists. split; [reflexivity|]. split; [|split; [by apply no_flushes; simpl; rewrite ?E1|simpl; lia]].
    split; simpl; rewrite ?E1; try done; lia.
Qed.

Lemma refill_budget_spec fl s sender :
  conserved fl s -> active_ok fl sender -> current s = 0 ->
  exists r s', refill_budget env sender s = Some ((r, current s'), s') /\ conserved (after_flush r fl) s' /\
    flushes s s' /\ 0 < current s' /\ (sender = None -> r = false).
Proof.
  intros Hc Ha H0. pose proof Hc as [Hs Ht Hcur Hp Hf]. unfold refill_budget, get_budget_calc, sm_bind at 1.
  set (options := ((fun '(i, x) => (Some i, x)) <$> map_to_list (pending s)) ++ match sender with Some x => [(None, x)] | None => [] end).
  assert (pending s <> ∅ \/ is_Some sender) as Hne.
  { destruct sender as [[b c]|]; [right; by eexists|left]. simpl in Ha. subst fl. apply in_pending_empty; [done|lia]. }
  assert (0 < length options)%nat as Hlen.
  { unfold options. rewrite length_app, length_fmap, length_map_to_list. destruct Hne as [Hne|[x ->]]; [|simpl; lia].
    rewrite <- map_size_empty_iff in Hne. lia. }
  assert (negb (bool_decide (pending s = ∅)) || bool_decide (is_Some sender) = true) as ->.
  { destruct Hne; [by rewrite bool_decide_false|]. rewrite (bool_decide_true (is_Some sender)) by done. apply orb_true_r. }
  unfold sm_assert, sm_bind at 1, sm_ret at 1, sm_bind at 1, tick, sm_bind at 1, sm_of_option.
  destruct (lookup_lt_is_Some_2 options _ (complete_in_range _ Henv (clock s) _ Hlen)) as [[sel [b c]] Hsel]. rewrite Hsel.
  assert (0 < b /\ match sel with Some k => pending s !! k = Some (b, c) | None => sender = Some (b, c) end) as [Hb Hk].
  { apply list_elem_of_lookup_2 in Hsel. unfold options in Hsel. apply elem_of_app in Hsel as [Hin|Hin].
    - apply list_elem_of_fmap in Hin as ([k x] & [= -> <-] & Hin). apply elem_of_map_to_list in Hin.
      split; [|done]. by apply (in_pending_elem _ _ _ Hp) in Hin as [? _].
    - destruct sender as [x|]; [|by apply elem_of_nil in Hin]. apply list_elem_of_singleton in Hin as [= -> <-].
      destruct Ha as [-> ?]. done. }
  clear Hsel options Hlen Hne.
  match goal with |- context [sm_bind ?m _ ?st] => set (record := m); set (s0 := st) end.
  assert (exists s1, record s0 = Some (tt, s1) /\ budget_calc s1 = budget_calc s /\ flushes s s1) as (s1 & E1 & Hb1 & Hf1).
  { unfold record, record_event, sm_modify, sm_ret. destruct (send_at env (clock s)); eexists; (split; [reflexivity|]); (split; [done|]); (split; [done|]).
    - eexists. split; [done|]. by constructor.
    - exists []. by rewrite app_nil_r. }
  unfold sm_bind at 1. rewrite E1. clear E1 record s0.
  destruct (reclaim_spec fl s s1 sel b c sender) as (s2 & E2 & Hc2 & Hf2 & Hcur2); [done..|].
  unfold sm_bind at 1. unfold sm_bind in E2 at 1.
  match type of E2 with match ?x with _ => _ end = _ => destruct x as [[u s1']|]; [|done] end.
  rewrite (sm_bind_run _ _ _ _ _ E2). destruct (try_refill_spec _ _ Hc2) as (s3 & E3 & Hc3 & Hf3 & Hle).
  rewrite (sm_bind_run _ _ _ _ _ E3). exists (match sel with None => true | Some _ => false end), s3.
  unfold sm_bind, sm_ret. rewrite (proj2 (Z.eqb_neq _ _)) by lia. split; [done|]. split; [done|]. split; [|split; [lia|]].
  - etrans; [exact Hf1|]. by etrans.
  - intros ->. by destruct sel.
Qed.

Lemma inner_spec fl s sender :
  conserved fl s -> active_ok fl sender ->
  exists r s', get_available_budget_inner env sender s = Some ((r, current s'), s') /\ conserved (after_flush r fl) s' /\
    flushes s s' /\ 0 < current s' /\ (sender = None -> r = false).
Proof.
  intros Hc Ha. unfold get_available_budget_inner, get_budget_calc. unfold sm_bind at 1.
  assert (exists s1, (if (8 <? size (pending s))%nat || (current s <=? 1024) then try_refill_budget env else sm_ret tt) s =
    Some (tt, s1) /\ conserved fl s1 /\ flushes s s1) as (s1 & E1 & Hc1 & Hf1).
  { destruct (_ || _); [|by exists s]. destruct (try_refill_spec fl s Hc) as (s1 & ? & ? & ? & _). by exists s1. }
  rewrite (sm_bind_run _ _ _ _ _ E1). destruct (refill_active_spec fl s1 sender Hc1 Ha) as (r & s2 & E2 & Hc2 & Hf2 & Hr & Hpos).
  match goal with |- context [sm_bind ?m ?k s1] => assert (m s1 = Some (r, s2)) as E2' end.
  { destruct sender as [[b c]|]; exact E2. }
  rewrite (sm_bind_run _ _ _ _ _ E2'). unfold sm_bind at 1. destruct (negb (current s2 =? 0)) eqn:E0.
  - apply negb_true_iff, Z.eqb_neq in E0. exists r, s2. pose proof (co_current _ _ Hc2).
    split; [done|]. split; [done|]. split; [by etrans|]. split; [lia|done].
  - apply negb_false_iff, Z.eqb_eq in E0. destruct r; [specialize (Hpos eq_refl); lia|].
    destruct (refill_budget_spec fl s2 sender Hc2 Ha E0) as (r & s3 & E3 & Hc3 & Hf3 & ? & ?).
    exists r, s3. split_and!; try done. etrans; [exact Hf1|]. by etrans.
Qed.
Lemma available_spec s :
  conserved 0 s -> exists s', get_available_budget env s = Some (current s', s') /\ conserved 0 s' /\ flushes s s' /\ 0 < current s'.
Proof.
  intros Hc. destruct (inner_spec 0 s None Hc eq_refl) as (r & s1 & E & Hc1 & Hf & Hpos & Hr). rewrite (Hr eq_refl) in *.
  exists s1. split_and!; try done. unfold get_available_budget. by rewrite (sm_bind_run _ _ _ _ _ E).
Qed.

(** Charging a chunk that was sent, with nothing else of the file in flight. *)
Lemma consume_spec s budget channel :
  conserved 0 s -> 0 < budget <= current s ->
  exists r s', consume env budget channel s = Some ((r, current s'), s') /\ conserved (after_flush r budget) s' /\
    flushes s s' /\ 0 < current s'.
Proof.
  intros Hc Hb. unfold consume, get_budget_calc, sm_of_option, checked_sub, set_current_budget, sm_modify. unfold sm_bind.
  rewrite (proj2 (Z.leb_le _ _)) by lia.
  match goal with |- context [get_available_budget_inner env _ ?st] => set (s1 := st) end.
  assert (conserved budget s1) as Hc1 by (destruct Hc; split; simpl; try done; lia).
  destruct (inner_spec budget s1 (Some (budget, channel)) Hc1) as (r & s2 & E & Hc2 & Hf & Hpos & _); [by split; [|lia]|].
  exists r, s2. split_and!; try done.
Qed.

Lemma add_budget_spec fl amt s :
  conserved fl s -> 0 <= amt <= fl ->
  exists s', add_budget amt s = Some (tt, s') /\ conserved (fl - amt) s' /\ log s' = log s /\ current s' = current s + amt /\
    total s' = total s.
Proof.
  intros [Hs Ht Hcur Hp Hf] Ha. pose proof (in_pending_nonneg _ Hp).
  unfold add_budget, get_budget_calc, sm_of_option, strict_add, checked_add, sm_assert, set_current_budget, sm_modify, sm_ret.
  unfold sm_bind. rewrite (proj2 (Z.ltb_lt _ _)) by lia. rewrite (proj2 (Z.leb_le _ _)) by lia.
  eexists. split; [reflexivity|]. split; [|done]. split; simpl; try done; lia.
Qed.

Lemma enqueue_entry_spec fl channel s :
  conserved fl s -> 0 < fl ->
  exists s', enqueue env fl channel s = Some (tt, s') /\ conserved 0 s' /\ log s' = log s /\ total s' = total s.
Proof.
  intros [Hs Ht Hcur Hp Hf] Hfl. unfold enqueue, get_budget_calc, set_pending, sm_modify, sm_bind.
  pose proof (vacant_is_free _ Henv (pending s)) as Hv.
  eexists. split; [reflexivity|]. split; [|done]. split; simpl; try done.
  - rewrite in_pending_insert by done. simpl. lia.
  - by apply map_Forall_insert_2.
Qed.

Lemma send_spec (ev : @Event Error Path) s :
  exists s', send env ev s = Some (send_at env (clock s), s') /\ budget_calc s' = budget_calc s /\
    log s' = log s ++ if send_at env (clock s) then [ev] else [].
Proof.
  unfold send, tick, sm_bind, record_event, sm_modify, sm_ret. destruct (send_at env (clock s)); eexists; (split; [reflexivity|]); (split; [done|]).
  - done.
  - by rewrite app_nil_r.
Qed.

(** What is in flight, as the loop has it. *)
Definition flight (o : option Z) : Z := default 0 o.
Definition flight_ok (o : option Z) : Prop := match o with Some fl => 0 < fl | None => True end.

Lemma flush_in_flight_spec o s :
  conserved (flight o) s -> flight_ok o ->
  exists s', flush_in_flight o s = Some (None, s') /\ conserved 0 s' /\ log s' = log s /\ total s' = total s.
Proof.
  intros Hc Ho. destruct o as [fl|]; simpl in *; [|by exists s].
  destruct (add_budget_spec fl fl s Hc) as (s' & E & Hc' & ? & _ & ?); [lia|]. rewrite Z.sub_diag in Hc'.
  exists s'. by rewrite (sm_bind_run _ _ _ _ _ E).
Qed.

Lemma return_in_flight_spec o s :
  conserved (flight o) s -> flight_ok o ->
  exists s', (match o with Some flushed => add_budget flushed | None => sm_ret tt end) s = Some (tt, s') /\ conserved 0 s' /\
    log s' = log s /\ current s <= current s' /\ total s' = total s.
Proof.
  intros Hc Ho. destruct o as [fl|]; simpl in *; [|by exists s].
  destruct (add_budget_spec fl fl s Hc) as (s' & E & Hc' & ? & ? & ?); [lia|]. rewrite Z.sub_diag in Hc'.
  exists s'. split_and!; try done. lia.
Qed.
Lemma conserved_same fl s s1 : conserved fl s -> budget_calc s1 = budget_calc s -> conserved fl s1.
Proof. intros [] E. by split; rewrite ?E. Qed.

(** ** What is sent *)

Abbreviation Packet := (Result DataPacket Error).

(** The bytes packets carry, and the error they end in. *)
Fixpoint payload (ps : list Packet) : list Z * option Error :=
  match ps with
  | [] => ([], None)
  | Err err :: _ => ([], Some err)
  | Ok FlushBuffer :: ps => payload ps
  | Ok (NewData data) :: ps => (data ++ (payload ps).1, (payload ps).2)
  end.

Definition packet_is_flush (p : Packet) : Prop := p = Ok FlushBuffer.
(** No packet of data is empty, which a reader would take for the end; their lengths
    are those of vectors. *)
Definition packet_ok (p : Packet) : Prop :=
  match p with Ok (NewData data) => data <> [] /\ Z.of_nat (length data) <= U64_MAX | _ => True end.

Lemma payload_flushes fl : Forall packet_is_flush fl -> payload fl = ([], None).
Proof. induction 1 as [|p fl -> _ IH]; [done|exact IH]. Qed.

Lemma payload_flushes_app fl ps : Forall packet_is_flush fl -> payload (fl ++ ps) = payload ps.
Proof. induction 1 as [|p fl -> _ IH]; [done|exact IH]. Qed.

Lemma payload_app_flushes ps fl : Forall packet_is_flush fl -> payload (ps ++ fl) = payload ps.
Proof.
  intros Hf. induction ps as [|[[|data]|err] ps IH]; simpl; [by apply payload_flushes|done|by rewrite IH|done].
Qed.

(** The packets sent on a channel. *)
Definition sent_on (c : nat) (evs : list (@Event Error Path)) : list Packet :=
  omap (fun ev => match ev with Delivered c' p => if decide (c' = c) then Some p else None | Published _ => None end) evs.

Lemma sent_on_app c evs evs' : sent_on c (evs ++ evs') = sent_on c evs ++ sent_on c evs'.
Proof. apply omap_app. Qed.

Lemma sent_on_flushes c evs : Forall (fun ev => is_flush ev = true) evs -> Forall packet_is_flush (sent_on c evs).
Proof.
  induction 1 as [|ev evs Hev _ IH]; [constructor|]. simpl. destruct ev as [|c' [[|]|]]; try done.
  case_decide; [by constructor|done].
Qed.

Lemma flush_packet_ok fl : Forall packet_is_flush fl -> Forall packet_ok fl.
Proof. intros H. eapply Forall_impl; [done|]. by intros ? ->. Qed.

(** Packets that deliver a file: a part of it from the start, an error only if
    reading it fails, and if the receiver stays, the error or all of it. *)
Record delivers (entry : @TarEntry Error) (ps : list Packet) : Prop := {
  de_prefix : (payload ps).1 `prefix_of` contents entry;
  de_error : forall err, (payload ps).2 = Some err -> read_error entry = Some err;
  de_all : (forall t, send_at env t = true) ->
    (payload ps).2 = read_error entry /\ (read_error entry = None -> (payload ps).1 = contents entry);
  de_ok : Forall packet_ok ps;
}.

Lemma delivers_flushes entry ps fl : delivers entry ps -> Forall packet_is_flush fl -> delivers entry (ps ++ fl).
Proof.
  intros [H1 H2 H3 H4] Hf. split; rewrite ?payload_app_flushes by done; try done.
  apply Forall_app. split; [done|by apply flush_packet_ok].
Qed.

Lemma delivers_data entry data fl ps :
  packet_ok (Ok (NewData data)) -> Forall packet_is_flush fl ->
  delivers (mkTarEntry (drop (length data) (contents entry)) (read_error entry)) ps ->
  take (length data) (contents entry) = data ->
  delivers entry (Ok (NewData data) :: fl ++ ps).
Proof.
  intros Hne Hf [H1 H2 H3 H4] Htake. pose proof (take_drop (length data) (contents entry)) as Hcat. rewrite Htake in Hcat.
  simpl in *. split; simpl; rewrite ?payload_flushes_app by done.
  - rewrite <- Hcat. by apply prefix_app.
  - done.
  - intros Hal. destruct (H3 Hal) as [? Hall]. split; [done|]. intros He. by rewrite (Hall He).
  - constructor; [done|]. apply Forall_app. split; [by apply flush_packet_ok|done].
Qed.

(** Nothing but flushes elsewhere. *)
Definition own_or_flush (c : nat) (ev : @Event Error Path) : Prop :=
  is_flush ev = true \/ exists p, ev = Delivered c p.

Lemma read_chunk_spec (entry : @TarEntry Error) n : 0 < n ->
  match read_chunk entry n with
  | (Ok data, entry') =>
      if decide (data = []) then contents entry = [] /\ read_error entry = None
      else take (length data) (contents entry) = data /\ Z.of_nat (length data) <= n /\
        entry' = mkTarEntry (drop (length data) (contents entry)) (read_error entry)
  | (Err err, _) => read_error entry = Some err
  end.
Proof.
  intros Hn. unfold read_chunk. destruct entry as [l er]. simpl. destruct (n <=? Z.of_nat (length l)) eqn:E.
  - apply Z.leb_le in E. assert (length (take (Z.to_nat n) l) = Z.to_nat n) as Hl by (rewrite length_take; lia).
    case_decide as Hd; [rewrite Hd in Hl; simpl in Hl; lia|]. rewrite Hl. split_and!; [done|lia|done].
  - apply Z.leb_gt in E. destruct er; [done|]. case_decide as Hd; [by subst|]. rewrite firstn_all, drop_all. split_and!; [done|lia|done].
Qed.

Lemma reading_loop_spec fuel entry c o budget s :
  conserved (flight o) s -> flight_ok o -> 0 < budget <= current s -> (length (contents entry) < fuel)%nat ->
  exists o' s' evs, reading_loop env fuel entry c o budget s = Some (o', s') /\ conserved (flight o') s' /\ flight_ok o' /\
    total s' = total s /\ log s' = log s ++ evs /\ Forall (own_or_flush c) evs /\ delivers entry (sent_on c evs).
Proof.
  revert entry o budget s. induction fuel as [|fuel IH]; intros entry o budget s Hc Ho Hb Hlen; [lia|].
  cbn [reading_loop]. pose proof (read_chunk_spec entry budget ltac:(lia)) as Hr.
  destruct (read_chunk entry budget) as [[data|err] entry'].
  - case_decide as Hne.
    { subst data. destruct Hr as [Hl He]. exists o, s, []. rewrite app_nil_r. split_and!; try done.
      split; simpl; rewrite ?Hl, ?He; [done|done|done|constructor]. }
    destruct data as [|x data']; [done|]. set (data := x :: data') in *. destruct Hr as (Htake & Hle & ->).
    assert (0 < length data <= length (contents entry))%nat as Hlen'.
    { pose proof (f_equal length Htake) as Hl. rewrite length_take in Hl. assert (0 < length data)%nat by (unfold data; simpl; lia). lia. }
    destruct (send_spec (Delivered c (Ok (NewData data))) s) as (s1 & E1 & Hb1 & Hl1). rewrite (sm_bind_run _ _ _ _ _ E1).
    assert (conserved (flight o) s1) as Hc1 by (by eapply conserved_same).
    destruct (send_at env (clock s)) eqn:Esend; cbn [negb].
    + destruct (return_in_flight_spec o s1 Hc1 Ho) as (s2 & E2 & Hc2 & Hl2 & Hcur2 & Ht2). rewrite (sm_bind_run _ _ _ _ _ E2).
      assert (0 < Z.of_nat (length data) <= current s2) as Hd by (rewrite Hb1 in Hcur2; lia).
      destruct (consume_spec s2 _ c Hc2 Hd) as (r & s3 & E3 & Hc3 & [Ht3 (fl & Hl3 & Hfl)] & Hpos). rewrite (sm_bind_run _ _ _ _ _ E3).
      destruct (IH (mkTarEntry (drop (length data) (contents entry)) (read_error entry))
        (if r then None else Some (Z.of_nat (length data))) (current s3) s3) as (o' & s4 & evs & E4 & Hc4 & Ho4 & Ht4 & Hl4 & Hev & Hdel).
      { destruct r; exact Hc3. } { destruct r; [done|simpl; lia]. } { lia. } { simpl. rewrite length_drop. lia. }
      exists o', s4, (Delivered c (Ok (NewData data)) :: fl ++ evs). split; [exact E4|]. split_and!; try done.
      * congruence.
      * rewrite Hl4, Hl3, Hl2, Hl1. by rewrite <- !app_assoc.
      * constructor; [right; by eexists|]. apply Forall_app. split; [|done].
        eapply Forall_impl; [exact Hfl|]. intros ev ?. by left.
      * simpl. rewrite decide_True, sent_on_app by done. apply delivers_data; [|by apply sent_on_flushes|done..].
        split; [done|]. destruct Hc as [? ? ? Hp ?]. pose proof (in_pending_nonneg _ Hp). unfold U64_MAX. lia.
    + destruct (flush_in_flight_spec o s1 Hc1 Ho) as (s2 & E2 & Hc2 & Hl2 & Ht2). exists None, s2, [].
      rewrite Hl2, Hl1, !app_nil_r, Ht2, Hb1. split_and!; try done.
      split; simpl; [apply prefix_nil|done|intros Hal; by rewrite Hal in Esend|constructor].
  - destruct (send_spec (Delivered c (Err err)) s) as (s1 & E1 & Hb1 & Hl1). rewrite (sm_bind_run _ _ _ _ _ E1).
    assert (conserved (flight o) s1) as Hc1 by (by eapply conserved_same).
    destruct (flush_in_flight_spec o s1 Hc1 Ho) as (s2 & E2 & Hc2 & Hl2 & Ht2).
    exists None, s2, (if send_at env (clock s) then [Delivered c (Err err)] else []). rewrite Hl2, Hl1, Ht2, Hb1.
    do 5 (split; [done|]). destruct (send_at env (clock s)) eqn:Esend.
    + split; [constructor; [right; by eexists|constructor]|]. simpl. rewrite decide_True by done.
      split; simpl; [apply prefix_nil|congruence|intros _; split; [done|congruence]|by repeat constructor].
    + split; [constructor|]. split; simpl; [apply prefix_nil|done|intros Hal; by rewrite Hal in Esend|constructor].
Qed.
(** ** The archive *)

Abbreviation Entries := (list (Result (Path * @TarEntry Error) Error)).

(** The entries that are files. *)
Definition files (entries : Entries) : list (Path * @TarEntry Error) :=
  omap (fun r => match r with Ok x => Some x | Err _ => None end) entries.

(** What the stream of entries is to have. *)
Fixpoint numbered (c : nat) (entries : Entries) : list (Result (Path * nat) Error) :=
  match entries with
  | [] => []
  | Err err :: entries => Err err :: numbered c entries
  | Ok (path, _) :: entries => Ok (path, c) :: numbered (S c) entries
  end.

Definition published (evs : list (@Event Error Path)) : list (Result (Path * nat) Error) :=
  omap (fun ev => match ev with Published r => Some r | Delivered _ _ => None end) evs.

Lemma published_app evs evs' : published (evs ++ evs') = published evs ++ published evs'.
Proof. apply omap_app. Qed.

Lemma own_published c evs : Forall (own_or_flush c) evs -> published evs = [].
Proof. induction 1 as [|ev evs [H|[p ->]] _ IH]; [done| |exact IH]. destruct ev; [done|exact IH]. Qed.

Lemma flushes_own c evs : Forall (fun ev => is_flush ev = true) evs -> Forall (own_or_flush c) evs.
Proof. intros H. eapply Forall_impl; [done|]. intros ev ?. by left. Qed.

Lemma own_elsewhere c c' evs : Forall (own_or_flush c) evs -> c' <> c -> Forall packet_is_flush (sent_on c' evs).
Proof.
  intros H Hne. induction H as [|ev evs [Hev|[p ->]] _ IH]; [constructor| |].
  - simpl. destruct ev as [|c1 [[|]|]]; try done. case_decide; [by constructor|done].
  - simpl. by rewrite decide_False.
Qed.

Lemma delivers_flushes_l entry ps fl : delivers entry ps -> Forall packet_is_flush fl -> delivers entry (fl ++ ps).
Proof.
  intros [H1 H2 H3 H4] Hf. split; rewrite ?payload_flushes_app by done; try done.
  apply Forall_app. split; [by apply flush_packet_ok|done].
Qed.

(** What a run of the archive's thread leaves in the log. *)
Record streamed (c : nat) (entries : Entries) (evs : list (@Event Error Path)) : Prop := {
  st_published : published evs `prefix_of` numbered c entries;
  st_all : (forall t, send_at env t = true) -> published evs = numbered c entries;
  st_below : forall c', (c' < c)%nat -> Forall packet_is_flush (sent_on c' evs);
  st_files : forall i path entry, files entries !! i = Some (path, entry) -> delivers entry (sent_on (c + i) evs);
}.

Lemma delivers_nothing t entry : send_at env t = false -> delivers entry [].
Proof. intros H. split; simpl; [apply prefix_nil|done|intros Hal; by rewrite Hal in H|constructor]. Qed.

(** Nobody takes the entries any more. *)
Lemma streamed_nobody t c entries : send_at env t = false -> streamed c entries [].
Proof.
  intros H. split; simpl; [apply prefix_nil|intros Hal; by rewrite Hal in H|constructor|].
  intros. by eapply delivers_nothing.
Qed.

Lemma streamed_error c err entries evs :
  streamed c entries evs -> streamed c (Err err :: entries) (Published (Err err) :: evs).
Proof.
  intros [H1 H2 H3 H4]. split; simpl; [by apply prefix_cons|intros; by rewrite H2|done|done].
Qed.

Lemma streamed_file c path entry entries evs1 evs2 :
  Forall (own_or_flush c) evs1 -> delivers entry (sent_on c evs1) -> streamed (S c) entries evs2 ->
  streamed c (Ok (path, entry) :: entries) (Published (Ok (path, c)) :: evs1 ++ evs2).
Proof.
  intros Hown Hdel [H1 H2 H3 H4]. split; simpl; rewrite ?published_app, ?(own_published c) by done; simpl.
  - by apply prefix_cons.
  - intros. by rewrite H2.
  - intros c' Hc'. rewrite sent_on_app. apply Forall_app. split; [apply (own_elsewhere c); [done|lia]|apply H3; lia].
  - intros [|i] path' entry' Hi; simpl in Hi.
    + injection Hi as <- <-. rewrite Nat.add_0_r, sent_on_app. apply delivers_flushes; [done|apply H3; lia].
    + rewrite sent_on_app. apply delivers_flushes_l; [|apply (own_elsewhere c); [done|lia]].
      replace (c + S i)%nat with (S c + i)%nat by lia. by eapply H4.
Qed.

Lemma archive_entries_spec entries c s :
  conserved 0 s ->
  exists s' evs, archive_entries env c entries s = Some (tt, s') /\ conserved 0 s' /\ total s' = total s /\
    log s' = log s ++ evs /\ streamed c entries evs.
Proof.
  revert c s. induction entries as [|[[path entry]|err] entries IH]; intros c s Hc; cbn [archive_entries].
  - exists s, []. rewrite app_nil_r. split_and!; try done.
  - destruct (send_spec (Published (Ok (path, c))) s) as (s1 & E1 & Hb1 & Hl1). rewrite (sm_bind_run _ _ _ _ _ E1).
    assert (conserved 0 s1) as Hc1 by (by eapply conserved_same).
    destruct (send_at env (clock s)) eqn:Esend; cbn [negb].
    + destruct (available_spec s1 Hc1) as (s2 & E2 & Hc2 & [Ht2 (fl & Hl2 & Hfl)] & Hpos). rewrite (sm_bind_run _ _ _ _ _ E2).
      destruct (reading_loop_spec (S (length (contents entry))) entry c None (current s2) s2 Hc2 I ltac:(lia) ltac:(lia))
        as (o & s3 & evs1 & E3 & Hc3 & Ho3 & Ht3 & Hl3 & Hown & Hdel). rewrite (sm_bind_run _ _ _ _ _ E3).
      assert (exists s4, (match o with Some in_flight => enqueue env in_flight c | None => sm_ret tt end) s3 = Some (tt, s4) /\
        conserved 0 s4 /\ log s4 = log s3 /\ total s4 = total s3) as (s4 & E4 & Hc4 & Hl4 & Ht4).
      { destruct o as [f|]; [|by exists s3]. destruct (enqueue_entry_spec f c s3 Hc3 Ho3) as (s4 & ? & ? & ? & ?). by exists s4. }
      rewrite (sm_bind_run _ _ _ _ _ E4). destruct (IH (S c) s4 Hc4) as (s5 & evs2 & E5 & Hc5 & Ht5 & Hl5 & Hst).
      exists s5, (Published (Ok (path, c)) :: (fl ++ evs1) ++ evs2). split; [done|]. split; [done|].
      split; [rewrite Ht5, Ht4, Ht3, Ht2; by rewrite Hb1|]. split.
      * rewrite Hl5, Hl4, Hl3, Hl2, Hl1. by rewrite <- !app_assoc.
      * apply streamed_file; [|rewrite sent_on_app; by apply delivers_flushes_l; [|apply sent_on_flushes]|done].
        apply Forall_app. split; [by apply flushes_own|done].
    + exists s1, []. rewrite Hl1, Hb1, !app_nil_r. split_and!; try done; by eapply (streamed_nobody (clock s)).
  - destruct (send_spec (Published (Err err)) s) as (s1 & E1 & Hb1 & Hl1). rewrite (sm_bind_run _ _ _ _ _ E1).
    assert (conserved 0 s1) as Hc1 by (by eapply conserved_same).
    destruct (send_at env (clock s)) eqn:Esend; cbn [negb].
    + destruct (IH c s1 Hc1) as (s2 & evs & E2 & Hc2 & Ht2 & Hl2 & Hst). exists s2, (Published (Err err) :: evs).
      split; [done|]. split; [done|]. split; [by rewrite Ht2, Hb1|]. split; [|by apply streamed_error]. rewrite Hl2, Hl1. by rewrite <- app_assoc.
    + exists s1, []. rewrite Hl1, Hb1, !app_nil_r. split_and!; try done; by eapply (streamed_nobody (clock s)).
Qed.
(** ** At the end *)

Lemma fold_budget (l : list (Z * nat)) a :
  Forall (fun x => 0 < x.1) l -> a + foldr (fun x acc => x.1 + acc) 0 l < 2 ^ 64 ->
  foldl (fun acc x => acc ← acc; strict_add acc x.1) (Some a) l = Some (a + foldr (fun x acc => x.1 + acc) 0 l).
Proof.
  revert a. induction l as [|x l IH]; intros a Hp Hs; simpl in *; [by rewrite Z.add_0_r|].
  apply Forall_cons in Hp as [Hx Hp].
  assert (0 <= foldr (fun x acc => x.1 + acc) 0 l) by (clear -Hp; induction Hp; simpl; lia).
  unfold strict_add, checked_add. rewrite (proj2 (Z.ltb_lt _ _)) by lia. rewrite IH by (done || lia). f_equal. lia.
Qed.

Lemma in_pending_sum m : in_pending m = foldr (fun x acc => x.1 + acc) 0 (map_to_list m).*2.
Proof.
  unfold in_pending. rewrite map_fold_foldr. induction (map_to_list m) as [|[k x] l IH]; simpl; [done|by rewrite IH].
Qed.

Lemma complete_spec s : conserved 0 s -> assert_budget_complete s = Some (tt, s).
Proof.
  intros [Hs Ht Hcur Hp _]. unfold assert_budget_complete, get_budget_calc, sm_of_option, sm_assert, sm_ret, sm_bind.
  assert (Forall (fun x => 0 < x.1) (map_to_list (pending s)).*2) as Hpos.
  { apply Forall_forall. intros x ([k y] & -> & Hin%elem_of_map_to_list)%list_elem_of_fmap. by apply (Hp k). }
  rewrite fold_budget by (rewrite <- ?in_pending_sum; done || lia). rewrite <- in_pending_sum.
  by rewrite (proj2 (Z.eqb_eq _ _)) by lia.
Qed.

Lemma initial_conserved : conserved 0 (@initial_producer Error Path).
Proof. by split. Qed.

Lemma archive_thread_spec entries :
  exists s, archive_thread env (Ok entries) initial_producer = Some (tt, s) /\ conserved 0 s /\
    total s = MAX_BUFFERED_FILE_BYTES /\ streamed 0 entries (log s).
Proof.
  destruct (archive_entries_spec entries 0 _ initial_conserved) as (s & evs & E & Hc & Ht & Hl & Hst).
  simpl in Hl. subst evs. exists s. unfold archive_thread. rewrite (sm_bind_run _ _ _ _ _ E). rewrite (complete_spec s Hc). split_and!; done.
Qed.

(** C29: the reading thread.  Whatever the channels do (sends that are refused,
    receivers that go away, flushes taken at once or only after blocking, in any
    order), for every archive the thread comes to its end: no assertion fails, no
    budget is added or taken twice, none is lost, and the final check that the
    budget is complete succeeds.  It announces the entries in order; on a file's
    channel it sends only bytes of that file, from its start and in order, an error
    only if reading the file fails, and never an empty chunk; and if the receivers
    stay it announces every entry and sends every file whole. *)
Theorem archive_thread_correct entries :
  exists s, archive_thread env (Ok entries) initial_producer = Some (tt, s) /\
    current s + in_pending (pending s) = MAX_BUFFERED_FILE_BYTES /\
    published (log s) `prefix_of` numbered 0 entries /\
    (forall i path entry, files entries !! i = Some (path, entry) ->
      (payload (sent_on i (log s))).1 `prefix_of` contents entry /\
      (forall err, (payload (sent_on i (log s))).2 = Some err -> read_error entry = Some err) /\
      Forall packet_ok (sent_on i (log s))) /\
    ((forall t, send_at env t = true) ->
      published (log s) = numbered 0 entries /\
      forall i path entry, files entries !! i = Some (path, entry) ->
        (payload (sent_on i (log s))).2 = read_error entry /\
        (read_error entry = None -> (payload (sent_on i (log s))).1 = contents entry)).
Proof.
  destruct (archive_thread_spec entries) as (s & E & Hc & Ht & [H1 H2 _ H4]). exists s. split; [done|].
  split; [pose proof (co_sum _ _ Hc); lia|]. split; [done|]. split.
  - intros i path entry Hi. destruct (H4 i path entry Hi) as [? ? _ ?]. by split_and!.
  - intros Hal. split; [by apply H2|]. intros i path entry Hi. destruct (H4 i path entry Hi) as [_ _ Hall _]. by apply Hall.
Qed.
End Budget.

(** ** An archive *)

Definition sample_environment : Environment := mkEnvironment
  (fun t => if Nat.even t then Sent else Full) (fun _ => true) (fun _ _ => 0%nat) (fun m => fresh (dom m)).

Lemma sample_environment_ok : environment_ok sample_environment.
Proof.
  split; [done|]. intros m. apply not_elem_of_dom. simpl. apply is_fresh.
Qed.

Definition sample_archive : list (Result (nat * TarEntry (Error := nat)) nat) :=
  [Ok (7%nat, mkTarEntry [1; 2; 3] None); Err 5%nat; Ok (8%nat, mkTarEntry [4; 5] (Some 6%nat))].

Lemma archive_thread_correct_witness :
  exists s, archive_thread sample_environment (Ok sample_archive) initial_producer = Some (tt, s) /\
    published (log s) = [Ok (7%nat, 0%nat); Err 5%nat; Ok (8%nat, 1%nat)] /\
    (payload (sent_on 0 (log s))).1 = [1; 2; 3].
Proof.
  destruct (archive_thread_correct sample_environment sample_environment_ok sample_archive) as (s & E & _ & _ & _ & Hall).
  destruct (Hall ltac:(done)) as [Hp Hf]. exists s. split_and!; [done|exact Hp|].
  by apply (Hf 0%nat 7%nat (mkTarEntry [1; 2; 3] None)).
Defined.
