(* ===== verification/TarDelivery.v ===== *)
(** * Reading a streamed file
    ([code-generator/src/instruction_parser/tar_ball.rs])

    The reader's contract: what is still to be read is the rest of the current
    packet and the bytes of the packets to come; every read takes its bytes from
    the front of that.  Composed with the thread that sends: a reader gets the
    file. *)

From S2P Require Import Prelude TarStream TarBudget.
Local Open Scope Z_scope.
Local Open Scope emu_scope.

Section Delivery.
Context {Error Path : Type}.
Abbreviation Entry := (@TarFileEntry Error Path).

Definition rest_of (c : CurrentReadBuf) : list Z := drop (offset c) (buf c).

(** A reader between two calls; the lengths are those of vectors. *)
Record reader_ok (s : Entry) : Prop := {
  ro_offset : (offset (current_read s) <= length (buf (current_read s)))%nat;
  ro_length : Z.of_nat (length (buf (current_read s))) <= U64_MAX;
  ro_packets : Forall packet_ok (data_flow s);
}.

(** What is still to be read, and the error it ends in. *)
Definition unread (s : Entry) : list Z * option Error :=
  (rest_of (current_read s) ++ (payload (data_flow s)).1, (payload (data_flow s)).2).

Lemma slice_ok s : reader_ok s -> slice (current_read s) = Some (rest_of (current_read s)).
Proof. intros [Ho _ _]. unfold slice. by rewrite (proj2 (Nat.leb_le _ _)). Qed.

Lemma receive_all_spec (flow : list (Result DataPacket Error)) l :
  exists rest, receive_all flow l = (rest, l ++ (payload flow).1, (payload flow).2) /\ ((payload flow).2 = None -> rest = []).
Proof.
  revert l. induction flow as [|[[|data]|err] flow IH]; intros l; simpl.
  - exists []. by rewrite app_nil_r.
  - apply IH.
  - assert (match l with [] => data | _ => l ++ data end = l ++ data) as -> by (by destruct l).
    rewrite app_assoc. apply IH.
  - exists flow. by rewrite app_nil_r.
Qed.

Lemma read_to_end_spec l s : reader_ok s ->
  exists s', read_to_end l s = Some (match (unread s).2 with
    | None => Ok (Z.of_nat (length (unread s).1)) | Some err => Err err end, l ++ (unread s).1, s') /\
    ((unread s).2 = None -> unread s' = ([], None)).
Proof.
  intros Hs. unfold read_to_end. rewrite (slice_ok s Hs). cbn [mbind option_bind]. 
  destruct (receive_all_spec (data_flow s) (l ++ rest_of (current_read s))) as (rest & -> & Hrest). unfold unread. simpl.
  destruct (payload (data_flow s)).2 as [err|] eqn:E.
  - eexists. split; [by rewrite <- app_assoc|done].
  - unfold checked_sub. rewrite <- app_assoc, !length_app, (proj2 (Z.leb_le _ _)) by lia. cbn [mbind option_bind].
    eexists. split; [repeat f_equal; lia|]. intros _. simpl. by rewrite Hrest.
Qed.

Lemma receive_data_spec (flow : list (Result DataPacket Error)) c flow' c' r :
  receive_data flow c = (flow', c', r) ->
  match r with
  | Ok true => exists data, c' = ReadBuf_new data /\ payload flow = (data ++ (payload flow').1, (payload flow').2) /\
      Ok (NewData data) ∈ flow
  | Ok false => payload flow = ([], None) /\ flow' = [] /\ (c' = c \/ c' = ReadBuf_empty)
  | Err err => payload flow = ([], Some err) /\ (c' = c \/ c' = ReadBuf_empty)
  end /\ forall p, p ∈ flow' -> p ∈ flow.
Proof.
  revert c. induction flow as [|[[|data]|err] flow IH]; intros c; simpl.
  - intros [= <- <- <-]. split; [|done]. by split_and!; [| |left].
  - intros H. apply IH in H as [H Hin]. split; [|intros p ?; right; by apply Hin]. destruct r as [[|]|err].
    + destruct H as (data & ? & ? & ?). exists data. split_and!; [done..|by right].
    + destruct H as (? & ? & [->| ->]); split_and!; try done; by right.
    + destruct H as (? & [->| ->]); split; try done; by right.
  - intros [= <- <- <-]. split; [|intros p ?; by right]. exists data. split_and!; [done..|left].
  - intros [= <- <- <-]. split; [|intros p ?; by right]. split; [done|by left].
Qed.
Lemma unread_new (s : Entry) flow data : unread (mkEntry (path s) flow (ReadBuf_new data)) = (data ++ (payload flow).1, (payload flow).2).
Proof. done. Qed.

(** [fill_buf] shows the front of what is unread. *)
Lemma fill_buf_spec s : reader_ok s ->
  exists r s', fill_buf s = Some (r, s') /\ reader_ok s' /\
    match r with
    | Ok bytes => unread s' = unread s /\ bytes = rest_of (current_read s') /\ (bytes = [] -> unread s = ([], None))
    | Err err => unread s = ([], Some err)
    end.
Proof.
  intros Hs. unfold fill_buf. rewrite (slice_ok s Hs). cbn [mbind option_bind].
  destruct (rest_of (current_read s)) as [|x l] eqn:Er; [|exists (Ok (x :: l)), s; by split_and!].
  destruct Hs as [Ho Hl Hp]. destruct (receive_data (data_flow s) (current_read s)) as [[flow c] r] eqn:E.
  apply receive_data_spec in E as [H Hin].
  assert (Forall packet_ok flow) as Hp'.
  { apply Forall_forall. intros p ?%Hin. rewrite Forall_forall in Hp. by apply Hp. }
  destruct r as [[|]|err].
  - destruct H as (data & -> & Hpay & Hd). rewrite Forall_forall in Hp. apply Hp in Hd as [Hne Hlen].
    assert (reader_ok (mkEntry (path s) flow (ReadBuf_new data))) as Hs' by (split; simpl; [lia|done|done]).
    assert (slice (ReadBuf_new data) = Some data) as Hsl by exact (slice_ok _ Hs').
    cbn [current_read]. rewrite Hsl. cbn [mbind option_bind].
    exists (Ok data), (mkEntry (path s) flow (ReadBuf_new data)). split; [done|]. split; [done|].
    split; [|split; [done|by intros ->]]. unfold unread. rewrite Er. simpl. by rewrite Hpay.
  - destruct H as (Hpay & -> & Hc). exists (Ok []), (mkEntry (path s) [] c). split; [done|].
    assert (rest_of c = []) as Hr by (by destruct Hc as [->| ->]). split; [destruct Hc as [->| ->]; by split|].
    unfold unread. rewrite Er. simpl. rewrite Hr, Hpay. by split_and!.
  - destruct H as [Hpay Hc]. exists (Err err), (mkEntry (path s) flow c). split; [done|].
    split; [destruct Hc as [->| ->]; by split|]. unfold unread. rewrite Er. simpl. by rewrite Hpay.
Qed.

Lemma read_spec n s : reader_ok s ->
  exists r s', read n s = Some (r, s') /\ reader_ok s' /\
    match r with
    | Ok bytes => (length bytes <= n)%nat /\ unread s = (bytes ++ (unread s').1, (unread s').2) /\
        (n <> 0%nat -> bytes = [] -> unread s = ([], None))
    | Err err => n <> 0%nat /\ unread s = ([], Some err)
    end.
Proof.
  intros Hs. unfold read. destruct (n =? 0)%nat eqn:En.
  { apply Nat.eqb_eq in En as ->. exists (Ok []), s. split_and!; try done. }
  apply Nat.eqb_neq in En. destruct (fill_buf_spec s Hs) as (r & s1 & E & Hs1 & Hr). unfold sm_try. rewrite (sm_bind_run _ _ _ _ _ E).
  destruct r as [bytes|err]; [|exists (Err err), s1; by split_and!]. destruct Hr as (Hu & -> & Hend).
  unfold consume_data, sm_modify, sm_bind, sm_ret. set (c := current_read s1) in *. set (k := length (take n (rest_of c))).
  destruct Hs1 as [Ho Hl Hp]. fold c in Ho, Hl.
  assert (k <= length (rest_of c))%nat as Hk by (unfold k; rewrite length_take; lia).
  assert (length (rest_of c) = length (buf c) - offset c)%nat as Hlr by (unfold rest_of; by rewrite length_drop).
  assert (advance k c = mkReadBuf (buf c) (offset c + k)) as Hadv.
  { unfold advance, saturating_add. f_equal. unfold U64_MAX in *. lia. }
  exists (Ok (take n (rest_of c))), (mkEntry (path s1) (data_flow s1) (advance k c)). split; [done|]. rewrite Hadv.
  split; [split; simpl; [lia|done|done]|]. split; [rewrite length_take; lia|]. split.
  - rewrite <- Hu. unfold unread. fold c. cbn [current_read data_flow fst snd]. f_equal. rewrite app_assoc. f_equal.
    unfold rest_of at 3. cbn [buf offset]. rewrite <- drop_drop. fold (rest_of c).
    unfold k. rewrite length_take. destruct (Nat.le_gt_cases n (length (rest_of c))).
    + rewrite Nat.min_l by done. by rewrite take_drop.
    + rewrite Nat.min_r by lia. by rewrite firstn_all2, drop_all, app_nil_r by lia.
  - intros _ H0. apply Hend. destruct (rest_of c); [done|]. by destruct n.
Qed.
(** Reading into buffers of the sizes given, up to the first error: what each read
    returned, and the error. *)
Fixpoint read_sizes (sizes : list nat) : SM Entry (list (list Z) * option Error) :=
  match sizes with
  | [] => sm_ret ([], None)
  | n :: sizes =>
      let! r := read n in
      match r with
      | Ok bytes => let! more := read_sizes sizes in sm_ret (bytes :: more.1, more.2)
      | Err err => sm_ret ([], Some err)
      end
  end.

(** The bytes [l] in pieces: each fits its buffer, and is empty only for an empty
    buffer or at the end. *)
Fixpoint pieces_of (sizes : list nat) (chunks : list (list Z)) (l : list Z) : Prop :=
  match chunks, sizes with
  | [], _ => True
  | chunk :: chunks, n :: sizes =>
      (length chunk <= n)%nat /\ (n <> 0%nat -> l <> [] -> chunk <> []) /\
      exists rest, l = chunk ++ rest /\ pieces_of sizes chunks rest
  | _ :: _, [] => False
  end.

Lemma read_sizes_spec sizes : forall s, reader_ok s ->
  exists chunks e s', read_sizes sizes s = Some ((chunks, e), s') /\ pieces_of sizes chunks (unread s).1 /\
    match e with
    | None => length chunks = length sizes
    | Some err => (unread s) = (concat chunks, Some err)
    end /\
    (Forall (fun n => n <> 0%nat) sizes -> (length (unread s).1 < length sizes)%nat -> concat chunks = (unread s).1 /\ e = (unread s).2).
Proof.
  induction sizes as [|n sizes IH]; intros s Hs; cbn [read_sizes].
  { exists [], None, s. split_and!; try done. simpl. intros _ ?. lia. }
  destruct (read_spec n s Hs) as ([bytes|err] & s1 & E & Hs1 & Hr); rewrite (sm_bind_run _ _ _ _ _ E).
  - destruct Hr as (Hl & Hu & Hend). destruct (IH s1 Hs1) as (chunks & e & s2 & E2 & Hp & He & Hall). rewrite (sm_bind_run _ _ _ _ _ E2).
    exists (bytes :: chunks), e, s2. split; [done|]. rewrite Hu. cbn [fst snd]. split; [|split].
    + split; [done|]. split; [|by exists (unread s1).1]. intros Hn Hne Hb. rewrite Hu in Hend. specialize (Hend Hn Hb). by apply (f_equal fst) in Hend.
    + destruct e as [err|]; [by rewrite He|]. cbn [length]. by rewrite He.
    + intros [Hn Hns]%Forall_cons Hlt. rewrite length_app in Hlt. cbn [length concat] in *. destruct bytes as [|x bytes].
      * rewrite Hu in Hend. specialize (Hend Hn eq_refl). rewrite !app_nil_l in *.
        pose proof (f_equal fst Hend) as Eb. pose proof (f_equal snd Hend) as Ee. cbn [fst snd] in Eb, Ee.
        destruct sizes as [|n' sizes]; [|apply Hall; [done|]; rewrite Eb; cbn [length]; lia].
        injection E2 as <- <- <-. by rewrite Eb, Ee.
      * cbn [length] in Hlt. destruct (Hall Hns) as [-> ->]; [lia|]. done.
  - destruct Hr as [Hn Hu]. exists [], (Some err), s1. split; [done|]. rewrite Hu. done.
Qed.

Lemma created_ok path (packets : list (Result DataPacket Error)) : Forall packet_ok packets -> reader_ok (TarFileEntry_create path packets).
Proof. intros H. by split. Qed.

Lemma created_unread path (packets : list (Result DataPacket Error)) :
  unread (TarFileEntry_create path packets) = payload packets.
Proof. unfold unread. simpl. by destruct (payload packets). Qed.

(** C31: from the archive to the reader of a file.  If the receivers stay, then for
    every file of the archive, whatever the timing of flushes and blocking, the reader
    gives back some bytes of the file, all of them unless reading it fails, and then
    the error if it does: [read_to_end] appends exactly those bytes to its argument
    and returns their number, or the error; and reads into buffers of any sizes return
    those bytes from the start, in order and without a gap, each read no more than fit
    and at least one byte as long as there are some and the buffer has room, so that
    more reads than bytes, into buffers with room, return them all and end as the file
    does. *)
Theorem streamed_file_delivered env (entries : list (Result (Path * TarEntry) Error)) i path entry :
  environment_ok env -> (forall t, send_at env t = true) -> files entries !! i = Some (path, entry) ->
  exists s got, archive_thread env (Ok entries) initial_producer = Some (tt, s) /\
    got `prefix_of` contents entry /\ (read_error entry = None -> got = contents entry) /\
    let file := TarFileEntry_create path (sent_on i (log s)) in
    (forall prefix, exists file',
      read_to_end prefix file = Some (match read_error entry with
        | None => Ok (Z.of_nat (length got)) | Some err => Err err end, prefix ++ got, file')) /\
    (forall sizes, exists chunks e file', read_sizes sizes file = Some ((chunks, e), file') /\ pieces_of sizes chunks got /\
      match e with
      | None => length chunks = length sizes
      | Some err => read_error entry = Some err /\ concat chunks = got
      end /\
      (Forall (fun n => n <> 0%nat) sizes -> (length got < length sizes)%nat -> concat chunks = got /\ e = read_error entry)).
Proof.
  intros Henv Hal Hi. destruct (archive_thread_spec env Henv entries) as (s & E & _ & _ & [_ _ _ Hf]).
  destruct (Hf i path entry Hi) as [Hpre _ Hall Hok]. rewrite Nat.add_0_l in Hpre, Hall, Hok. destruct (Hall Hal) as [He Hwhole].
  exists s, (payload (sent_on i (log s))).1. split; [done|]. split; [done|]. split; [apply Hwhole|]. intros file.
  pose proof (created_ok path _ Hok) as Hro. fold file in Hro.
  assert (unread file = payload (sent_on i (log s))) as Hu by apply created_unread. split.
  - intros prefix. destruct (read_to_end_spec prefix file Hro) as (file' & Er & _). rewrite Hu, He in Er. by exists file'.
  - intros sizes. destruct (read_sizes_spec sizes file Hro) as (chunks & e & file' & Er & Hp & Hend & Hrest). rewrite Hu in Hp, Hend, Hrest.
    exists chunks, e, file'. rewrite He in Hrest. split_and!; [done..| |done]. destruct e as [err|]; [|done].
    split; [by rewrite <- He, Hend|by rewrite Hend].
Qed.
End Delivery.

Lemma streamed_file_delivered_witness :
  exists s got file', archive_thread sample_environment (Ok sample_archive) initial_producer = Some (tt, s) /\
    read_to_end [9] (TarFileEntry_create 7%nat (sent_on 0 (log s))) = Some (Ok 3, got, file') /\ got = [9; 1; 2; 3] /\
    exists chunks e file'', read_sizes [2; 1; 1; 1]%nat (TarFileEntry_create 7%nat (sent_on 0 (log s))) = Some ((chunks, e), file'') /\
      concat chunks = [1; 2; 3] /\ e = None.
Proof.
  destruct (streamed_file_delivered sample_environment sample_archive 0 7%nat (mkTarEntry [1; 2; 3] None)
    sample_environment_ok ltac:(done) ltac:(done)) as (s & got & E & _ & Hgot & Hread & Hsizes).
  rewrite Hgot in Hread, Hsizes by done. destruct (Hread [9]) as (file' & Er).
  destruct (Hsizes [2; 1; 1; 1]%nat) as (chunks & e & file'' & Es & _ & _ & Hall).
  destruct Hall as [Hc He]; [by repeat constructor|simpl; lia|].
  exists s, ([9] ++ [1; 2; 3]), file'. split_and!; [done..|]. by exists chunks, e, file''.
Defined.
