(* ===== verification/BackEnd.v ===== *)
(** * What the back ends share
    ([jit-compiler-core/src/compiler/cranelift_backend.rs], [gcc_backend.rs])

    Finished functions and the order of their blocks, well-typedness in the form
    the proofs on the back ends use, and facts on immediates and environments. *)

From S2P Require Import Prelude Convert HaltReason MemTypes Fault Memops ObjectQueue Fabric PageTable IoMMU.
From S2P Require Import ExclusiveMonitor LookupCache MemAccess FfiSupport Arena Ir IrSem IrEmit IrLogic IrArith.
From S2P Require Import IrTyping IrBuilt IrBuilder IrRun.
From S2P Require Import Tarjan SccGraph HaltCheck HaltSplit HaltInv HaltSound HaltSim BlockOrder IrFinished.
Local Open Scope Z_scope.
Local Open Scope emu_scope.

(** ** Immediates *)

(** [x.cast_signed()] on a [u64]. *)
Definition cast_signed (z : Z) : Z := sgn 64 z.
Definition I64_MAX : Z := 2 ^ 63 - 1.
Definition I32_MAX : Z := 2 ^ 31 - 1.

Lemma wrap_sgn w z : wrap w (sgn w z) = wrap w z.
Proof.
  unfold sgn. case_match; [done|]. unfold wrap. rewrite Zminus_mod, Z_mod_same_full, Z.sub_0_r. apply Zmod_mod.
Qed.

Lemma wrap_wrap w w' z : 0 <= w <= w' -> wrap w (wrap w' z) = wrap w z.
Proof.
  intros Hw. unfold wrap. apply Z.mod_mod_divide. exists (2 ^ (w' - w)). rewrite <- Z.pow_add_r by lia. f_equal. lia.
Qed.

(** An immediate that fits its type comes through the cast to [i64]. *)
Lemma wrap_cast_signed w z : 0 <= w <= 64 -> fits w z -> wrap w (cast_signed z) = z.
Proof.
  intros Hw Hz. rewrite <- (wrap_wrap w 64) by done. unfold cast_signed. rewrite wrap_sgn, (wrap_wrap w 64) by done.
  by apply wrap_small.
Qed.

Lemma bits_range w : 8 <= bits w <= 64.
Proof. destruct w; unfold bits, bytes; lia. Qed.

Lemma wrap_add_l w a b : wrap w (wrap w a + b) = wrap w (a + b).
Proof. unfold wrap. by rewrite Zplus_mod_idemp_l. Qed.

Lemma wrap_add_r w a b : wrap w (a + wrap w b) = wrap w (a + b).
Proof. unfold wrap. by rewrite Zplus_mod_idemp_r. Qed.

Lemma wrap_mul_r w a b : wrap w (a * wrap w b) = wrap w (a * b).
Proof. unfold wrap. by rewrite Zmult_mod_idemp_r. Qed.

(** Clearing tag bits. *)
Lemma land_lnot w t m : 0 <= w -> fits w m -> Z.land t (wrap w (Z.lnot m)) = Z.land t (bitnot w m).
Proof.
  intros Hw [Hm0 Hm]. f_equal. unfold wrap, bitnot. rewrite <- Z.land_ones by done. apply Z.bits_inj'. intros i Hi.
  rewrite Z.land_spec, Z.lnot_spec, Z.lxor_spec, Z.testbit_ones_nonneg by done. destruct (Z.ltb_spec i w).
  - rewrite andb_true_r. by rewrite xorb_true_r.
  - rewrite andb_false_r, xorb_false_r. symmetry. by apply (fits_testbit_high w).
Qed.

(** ** Loops and environments *)

(** A loop that keeps an invariant of the elements done. *)
Lemma sm_for_inv {S A} (P : list A -> S -> Prop) (l : list A) (body : A -> SM S unit) s :
  (forall pre x post s, l = pre ++ x :: post -> P pre s -> exists s', body x s = Some (tt, s') /\ P (pre ++ [x]) s') ->
  P [] s -> exists s', sm_for l body s = Some (tt, s') /\ P l s'.
Proof.
  assert (forall rest pre s, l = pre ++ rest ->
    (forall pre x post s, l = pre ++ x :: post -> P pre s -> exists s', body x s = Some (tt, s') /\ P (pre ++ [x]) s') ->
    P pre s -> exists s', sm_for rest body s = Some (tt, s') /\ P l s') as H; [|intros; by eapply (H l [])].
  induction rest as [|x rest IH]; intros pre s1 El Hbody HP.
  - exists s1. rewrite app_nil_r in El. by subst.
  - destruct (Hbody _ _ _ _ El HP) as (s2 & E2 & HP2).
    destruct (IH (pre ++ [x]) s2) as (s3 & E3 & HP3); [by rewrite <- app_assoc|done|done|].
    exists s3. split; [|done]. by rewrite (sm_for_run _ _ _ _ _ E2).
Qed.

Lemma bind_values_lookup vs xs (ρ ρ' : Env) :
  bind_values vs xs ρ = Some ρ' -> NoDup vs ->
  length vs = length xs /\ (forall v, v ∉ vs -> ρ' !! v = ρ !! v) /\
  (forall i v x, vs !! i = Some v -> xs !! i = Some x -> ρ' !! v = Some x).
Proof.
  revert xs ρ. induction vs as [|v vs IH]; intros [|x xs] ρ H Hn; try done.
  { injection H as ->. split_and!; [done|done|]. intros i v x Hi. by rewrite lookup_nil in Hi. }
  apply NoDup_cons in Hn as [Hv Hn]. destruct (IH xs (<[v := x]> ρ) H Hn) as (Hl & Hk & Hx). split_and!.
  - simpl. by f_equal.
  - intros u [Hu1 Hu2]%not_elem_of_cons. rewrite Hk by done. by rewrite lookup_insert_ne.
  - intros [|i] u y Hu Hy; simpl in Hu, Hy; [|by eapply Hx]. simplify_eq. rewrite Hk by done. apply lookup_insert_eq.
Qed.

(** ** Functions that can be translated *)

(** A typed function: what [built] says of a function under construction and stays
    true of a finished one. *)
Record compilable (ir : ExecIrBuilder) : Prop := {
  co_signatures : signatures ir = initial_signatures;
  co_args : forall a, vty ir (as_ssa_value a) (arg_ty a);
  co_entry : exists d, arena_get (blocks ir) ENTRYPOINT = Some d /\ parameters d = as_ssa_value <$> args;
  co_stmts : forall x d, arena_get (all_stmts ir) x = Some d -> stmt_ok ir d;
  co_blocks : forall block d, arena_get (blocks ir) block = Some d -> block_ok ir d;
  co_once : forall x block d i block' d' i',
    arena_get (blocks ir) block = Some d -> stmts d !! i = Some x ->
    arena_get (blocks ir) block' = Some d' -> stmts d' !! i' = Some x -> block = block' /\ i = i';
  co_ssa : forall v s s', defined_at ir v s -> defined_at ir v s' -> s = s';
}.

Lemma built_compilable ir : built ir -> compilable ir.
Proof. intros H. split; try apply H. intros a. exact (arg_vty ir a H). Qed.

Lemma compilable_halt ir : compilable ir -> vty ir ARG_HALT_REASON_PTR (THostPtr RHaltReason).
Proof. intros H. exact (co_args _ H AHaltReasonPtr). Qed.

(** A value has one definition. *)
Lemma outputs_nodup ir x d : compilable ir -> arena_get (all_stmts ir) x = Some d -> NoDup (outputs d).
Proof.
  intros H Hd. apply NoDup_alt. intros i j v Hi Hj.
  assert (SOutput x i = SOutput x j) as [= ->]; [|done]. eapply (co_ssa _ H v); by econstructor.
Qed.

Lemma parameters_nodup ir b d : compilable ir -> arena_get (blocks ir) b = Some d -> NoDup (parameters d).
Proof.
  intros H Hd. apply NoDup_alt. intros i j v Hi Hj.
  assert (SParam b i = SParam b j) as [= ->]; [|done]. eapply (co_ssa _ H v); by econstructor.
Qed.

(** ** Statements *)

(** The values a statement uses. *)
Definition operands (rv : StmtKind) : list SSAValue :=
  match rv with
  | KIConst _ | KLoadStackPtr _ | KSafepoint => []
  | KArithBinOp _ a b | KOverflowingBinOp _ a b | KIntCmp _ a b | KBitwise _ a b
  | KShift _ a b | KShiftUnbounded _ a b | KPtrAdd a b _ | KPtrEq a b => [a; b]
  | KIntNeg a | KIntCmpImm _ a _ | KBitwiseImm _ a _ | KBitNot a | KShiftImm _ a _
  | KLoadHost _ a _ _ | KHasTag a _ | KUntag a _ | KSetPageDirtyFlag a => [a]
  | KSelect c a b => [c; a; b]
  | KStoreHost a _ b _ => [b; a]
  | KHostCallback _ _ args => args
  | KVMLoadRaw a b _ _ => [a; b]
  | KVMStoreRaw a b c _ => [c; a; b]
  | KLoadHaltReason | KTakeHaltReason => [ARG_HALT_REASON_PTR]
  end.

(** What the evaluation of a statement did. *)
Ltac inv_eval H :=
  unfold lookup_value, sm_bind, sm_of_option, sm_assert, sm_ret, sm_panic in H;
  repeat (case_match; try done); simplify_eq/=.

(** Slots are aligned to a power of two, and there are no more of them than handles. *)
Definition slot_ok (d : StackSlotData) : bool := (0 <? slot_align d) && (slot_align d =? 2 ^ Z.log2 (slot_align d)).

Lemma forallb_arena {A} (f : A -> bool) (l : Arena A) k x : forallb f l = true -> arena_get l k = Some x -> f x = true.
Proof. rewrite forallb_forall. intros H Hx. by apply H, list_elem_of_In, (list_elem_of_lookup_2 _ (get k)). Qed.

Lemma forallb_arena_intro {A} (f : A -> bool) (l : Arena A) : (forall k y, arena_get l k = Some y -> f y = true) -> forallb f l = true.
Proof.
  intros H. apply forallb_forall. intros y Hy%list_elem_of_In. apply list_elem_of_lookup in Hy as [j Hj].
  apply (H (Pos.of_succ_nat j)). unfold arena_get. by rewrite get_of_succ.
Qed.

(** ** The halt word *)

Section Halt.
Context (ir : ExecIrBuilder) (Hco : compilable ir).

(** The halt pointer is the entry's parameter, and nothing else. *)
Lemma halt_site : exists i, defined_at ir ARG_HALT_REASON_PTR (SParam ENTRYPOINT i).
Proof.
  destruct (co_entry _ Hco) as (d & Hd & Ep). exists 5%nat. econstructor; [done|]. by rewrite Ep.
Qed.

Lemma halt_not_output x d : arena_get (all_stmts ir) x = Some d -> ARG_HALT_REASON_PTR ∉ outputs d.
Proof.
  intros Hd [i Hi]%list_elem_of_lookup. destruct halt_site as [j Hj].
  assert (SOutput x i = SParam ENTRYPOINT j); [|done]. eapply (co_ssa _ Hco); [by econstructor|done].
Qed.

Lemma halt_not_parameter b d : b <> ENTRYPOINT -> arena_get (blocks ir) b = Some d -> ARG_HALT_REASON_PTR ∉ parameters d.
Proof.
  intros Hb Hd [i Hi]%list_elem_of_lookup. destruct halt_site as [j Hj].
  assert (SParam b i = SParam ENTRYPOINT j) as [= E _]; [|done]. eapply (co_ssa _ Hco); [by econstructor|done].
Qed.

End Halt.

(** ** Finished functions *)

(** A finished function: the arenas of a builder, and an order of its blocks. *)
Record finished_from (x : ExecIr) (ir : ExecIrBuilder) : Prop := {
  ff_values : exec_ssa_values x = ssa_values ir;
  ff_blocks : exec_blocks x = blocks ir;
  ff_stmts : exec_stmts x = all_stmts ir;
  ff_slots : exec_stack_slots x = stack_slots ir;
  ff_signatures : exec_signatures x = signatures ir;
  ff_order : topo_sort ir = Some (block_compile_order x);
}.

(** Jumps stay among the blocks. *)
Lemma jump_edge ir b d j : compilable ir -> arena_get (blocks ir) b = Some d -> j ∈ targets (terminator d) ->
  edge ir None b (jump_target j).
Proof.
  intros Hco Hd Hj. apply edge_successors. unfold successors. rewrite Hd. eexists. split; [done|].
  destruct (co_blocks _ Hco _ _ Hd) as (_ & _ & Hk & _). unfold kind_typed in Hk. unfold Term.block_targets.
  destruct (targets (terminator d)) as [|j1 [|j2 [|j3 l]]].
  - by apply elem_of_nil in Hj.
  - apply list_elem_of_singleton in Hj as ->. left.
  - assert (jump_target j = jump_target j1 \/ jump_target j = jump_target j2) as Hj'
      by (rewrite !elem_of_cons in Hj; destruct Hj as [->|[->|[]%elem_of_nil]]; auto).
    case_decide as E; rewrite !elem_of_cons; rewrite ?E in *; tauto.
  - exfalso. destruct (kind (terminator d)); simpl in Hk; [done|destruct Hk; done|destruct Hk; lia|lia].
Qed.

Lemma edge_jump ir b v : edge ir None b v ->
  exists d j, arena_get (blocks ir) b = Some d /\ j ∈ targets (terminator d) /\ v = jump_target j.
Proof.
  intros (l & Hs & Hv)%edge_successors. unfold successors in Hs. apply fmap_Some in Hs as (d & Hd & ->). exists d.
  unfold Term.block_targets in Hv. destruct (targets (terminator d)) as [|j1 [|j2 l]].
  - by apply elem_of_nil in Hv.
  - apply list_elem_of_singleton in Hv as ->. exists j1. split_and!; [done|left|done].
  - assert (v = jump_target j1 \/ v = jump_target j2) as [->| ->] by (case_decide; set_solver);
      [exists j1|exists j2]; (split_and!; [done| |done]); [left|right; left].
Qed.

Lemma compilable_in_range ir : compilable ir -> reach_in_range ir.
Proof.
  intros Hco v Hv. apply rtc_inv_r in Hv as [<-|(u & _ & Huv)].
  - destruct (co_entry _ Hco) as (d & Hd & _). by eapply lookup_lt_Some.
  - apply edge_jump in Huv as (d & j & Hd & Hj & ->). destruct (co_blocks _ Hco _ _ Hd) as (_ & _ & _ & Ht).
    rewrite Forall_forall in Ht. destruct (Ht _ Hj) as (_ & d' & Hd' & _). by eapply lookup_lt_Some.
Qed.

(** What the compile order is good for. *)
Record order_ok (ir : ExecIrBuilder) (order : list Block) : Prop := {
  oo_nodup : NoDup order;
  oo_entry : ENTRYPOINT ∈ order;
  oo_head : head order = Some ENTRYPOINT;
  oo_exists : forall b, b ∈ order -> is_Some (arena_get (blocks ir) b);
  oo_closed : forall b d j, b ∈ order -> arena_get (blocks ir) b = Some d -> j ∈ targets (terminator d) -> jump_target j ∈ order;
}.

Lemma finished_order x ir : compilable ir -> finished_from x ir -> order_ok ir (block_compile_order x).
Proof.
  intros Hco Hx. pose proof (compilable_in_range _ Hco) as Hr.
  destruct (topo_sort_spec ir Hr) as (order & Eo & Hn & Hall & Hhead & _). pose proof (ff_order _ _ Hx) as Ex. rewrite Eo in Ex. injection Ex as <-.
  split; [done|by apply Hall|done| |].
  - intros b Hb%Hall%Hr. by apply lookup_lt_is_Some.
  - intros b d j Hb Hd Hj. apply Hall. apply Hall in Hb. eapply rtc_r; [exact Hb|]. by eapply jump_edge.
Qed.

(** The arguments a chunk is called with. *)
Definition entry_values (ident : MaybeIdent.t) : list Value :=
  [VPtr PIoMMU; VPtr (PTlb 0); VPtr PExecContext; VPtr PExecState; VPtr (PIdent ident); VPtr PHaltReason].

Lemma entry_env_args ident : bind_values (as_ssa_value <$> args) (entry_values ident) ∅ = Some (entry_env ident).
Proof. by vm_compute. Qed.
