(* ===== verification/CheckKeeps.v ===== *)
(** * A halt check keeps a function well typed
    ([jit-compiler-core/src/ir/halt_check_pass.rs])

    What a split of a block by the pass makes of statements and blocks, and that the
    function stays typed, with one definition for every value. *)

From S2P Require Import Prelude Convert HaltReason MemTypes Fault Memops ObjectQueue Fabric PageTable IoMMU.
From S2P Require Import ExclusiveMonitor LookupCache MemAccess FfiSupport Arena Ir IrSem IrEmit IrLogic IrArith.
From S2P Require Import IrTyping IrBuilt IrBuilder IrRun.
From S2P Require Import Tarjan SccGraph HaltCheck HaltSplit HaltInv HaltSound HaltSim BlockOrder IrFinished.
From S2P Require Import BackEnd.
Local Open Scope Z_scope.
Local Open Scope emu_scope.

Lemma compilable_defined_lt ir v s : compilable ir -> defined_at ir v s -> (get v < length (ssa_values ir))%nat.
Proof.
  intros Hb [x i d Hx Hv|block i d Hd Hv].
  - apply (co_stmts _ Hb) in Hx as (_ & tys & _ & HF). eapply Forall2_lookup_l in HF as (ty & _ & ?%vty_lt); done.
  - apply (co_blocks _ Hb) in Hd as (Hps & _). apply list_elem_of_lookup_2, Hps in Hv as [ty ?%vty_lt]. done.
Qed.

Section Split.
Context (ir ir' : ExecIrBuilder) (b c : Block) (i : nat) (d : BlockData) (x : Stmt).
Context (Hco : compilable ir) (Hd : arena_get (blocks ir) b = Some d) (Hx : stmts d !! i = Some x)
  (HS : is_split ir ir' b c i d).

Lemma split_keeps : keeps ir ir'.
Proof.
  destruct (sp_values _ _ _ _ _ _ HS) as (tv & Ev & _). destruct (sp_rest _ _ _ _ _ _ HS) as (_ & _ & Es & Eg & _).
  split; [by exists tv|exists []; by rewrite app_nil_r|done].
Qed.

Lemma split_stmt_old y sd : arena_get (all_stmts ir) y = Some sd -> arena_get (all_stmts ir') y = Some sd.
Proof. destruct (sp_stmts _ _ _ _ _ _ HS) as (tl & E & _). unfold arena_get. rewrite E. apply lookup_app_l_Some. Qed.

(** A statement of the new function is old, or one of a check. *)
Lemma split_stmt_inv y sd : arena_get (all_stmts ir') y = Some sd ->
  arena_get (all_stmts ir) y = Some sd \/
  (length (all_stmts ir) <= get y)%nat /\ exists v, (sd = mkStmt [v] KLoadHaltReason \/ sd = mkStmt [v] KTakeHaltReason) /\
    (get v + length (all_stmts ir) = get y + length (ssa_values ir))%nat /\ vty ir' v (TInt W32).
Proof.
  intros Hy. destruct (Nat.lt_ge_cases (get y) (length (all_stmts ir))) as [Hlt|Hge].
  - left. destruct (sp_stmts _ _ _ _ _ _ HS) as (tl & E & _). unfold arena_get in *. rewrite E in Hy. by rewrite lookup_app_l in Hy.
  - right. split; [done|]. destruct (sp_typed _ _ _ _ _ _ HS y sd Hy) as [|(v & rv & -> & Hrv & Hv & Ht)]; [lia|].
    exists v. split_and!; [destruct Hrv as [->| ->]; [by left|by right]|done|done].
Qed.

Lemma split_entry_lt : (0 < length (blocks ir))%nat.
Proof. apply lookup_lt_Some in Hd. lia. Qed.

Lemma split_cont_not_entry : c <> ENTRYPOINT.
Proof. apply (entrypoint_old (length (blocks ir))); [apply split_entry_lt|]. by rewrite (sp_fresh _ _ _ _ _ _ HS). Qed.

(** A block of the new function. *)
Lemma split_block_inv k dk : arena_get (blocks ir') k = Some dk ->
  (k = b /\ exists lv h v, leave_and_take_halt ir' = Some lv /\ (length (all_stmts ir) <= get h)%nat /\
     arena_get (all_stmts ir') h = Some (mkStmt [v] KLoadHaltReason) /\ vty ir' v (TInt W32) /\
     dk = mkBlock (parameters d) (take (S i) (stmts d) ++ [h]) true (Term.BrZ v (jump_to c) (jump_to lv)) (is_cold d)) \/
  (k = c /\ dk = mkBlock [] (drop (S i) (stmts d)) (terminated d) (terminator d) (is_cold d)) \/
  (k <> b /\ k <> c /\ arena_get (blocks ir) k = Some dk) \/
  (k <> c /\ leave_and_take_halt ir' = Some k /\ exists h v, parameters dk = [] /\ stmts dk = [h] /\ (length (all_stmts ir) <= get h)%nat /\
     arena_get (all_stmts ir') h = Some (mkStmt [v] KTakeHaltReason) /\ vty ir' v (TInt W32) /\ terminator dk = Term.ReturnCode v).
Proof.
  intros Hk. assert (get c = length (blocks ir)) as Hc by apply HS.
  destruct (decide (k = b)) as [->|Hkb].
  - left. split; [done|]. destruct (sp_check _ _ _ _ _ _ HS) as (lv & h & v & ? & ? & ? & ? & ? & ? & Hb). exists lv, h, v.
    rewrite Hk in Hb. injection Hb as ->. by split_and!.
  - right. destruct (decide (k = c)) as [->|Hkc].
    + left. split; [done|]. pose proof (sp_cont _ _ _ _ _ _ HS) as Hc'. congruence.
    + right. destruct (sp_new _ _ _ _ _ _ HS k dk Hk) as [Hlt|[->|(Hge & El & El')]]; [|done|].
      * left. rewrite <- (sp_old _ _ _ _ _ _ HS) by done. done.
      * right. split_and!; [done..|]. destruct (sp_leave_ok _ _ _ _ _ _ HS k El') as (_ & dl & h & v & Hdl & Hp & Est & Hh & Ht & _).
        rewrite Hk in Hdl. injection Hdl as <-. exists h, v.
        destruct (sp_leave_new _ _ _ _ _ _ HS El k El') as (dl & hl & Hdl & Est' & Hge'). rewrite Hk in Hdl. injection Hdl as <-.
        rewrite Est in Est'. injection Est' as <-. split_and!; try done.
        destruct (split_stmt_inv h _ Hh) as [Hh'%lookup_lt_Some|(_ & v' & [[=]|[= <-]] & _ & ?)]; [lia|done].
Qed.

Lemma split_extends : IrTyping.extends ir ir'.
Proof.
  split; [apply split_keeps|]. intros k dk Hk. pose proof (lookup_lt_Some _ _ _ Hk) as Hlt.
  destruct (decide (k = b)) as [->|Hkb].
  - destruct (sp_check _ _ _ _ _ _ HS) as (lv & h & v & ? & ? & ? & ? & ? & ? & Hb). eexists. split; [exact Hb|]. simpl. congruence.
  - exists dk. by rewrite (sp_old _ _ _ _ _ _ HS).
Qed.

Lemma split_stmts_ok y sd : arena_get (all_stmts ir') y = Some sd -> stmt_ok ir' sd.
Proof.
  intros [Hy|(_ & v & Hsd & _ & Hv)]%split_stmt_inv.
  - apply (stmt_ok_mono split_keeps). by eapply (co_stmts _ Hco).
  - destruct Hsd as [->| ->]; (split; [done|]; exists [TInt W32]; split; [done|by repeat constructor]).
Qed.

Lemma leave_jump_typed lv : leave_and_take_halt ir' = Some lv -> jump_typed ir' (jump_to lv).
Proof.
  intros El. destruct (sp_leave_ok _ _ _ _ _ _ HS lv El) as (Hne & dl & h & v & Hdl & Hp & _).
  split; [done|]. exists dl. split; [done|]. rewrite Hp. constructor.
Qed.

Lemma split_blocks_ok k dk : arena_get (blocks ir') k = Some dk -> block_ok ir' dk.
Proof.
  assert (forall d0, block_ok ir d0 -> block_ok ir' d0) as Hmono.
  { intros d0 (Hp & Hs & Ht). split_and!.
    - intros v [ty ?]%Hp. exists ty. by apply (vty_mono split_keeps).
    - intros y [sd ?]%Hs. exists sd. by apply split_stmt_old.
    - by apply (term_typed_mono split_extends). }
  pose proof (Hmono _ (co_blocks _ Hco _ _ Hd)) as (Hp & Hs & Ht).
  intros [(-> & lv & h & v & El & _ & Hh & Hv & ->)|[(-> & ->)|[(_ & _ & Hk)|(_ & El & h & v & Hpk & Hsk & _ & Hh & Hv & Htk)]]]%split_block_inv.
  - split_and!; simpl; [done| |].
    + intros y [Hy| ->%list_elem_of_singleton]%elem_of_app; [|by eexists]. apply Hs. by eapply elem_of_take in Hy as (j & Hj & _); eapply list_elem_of_lookup_2.
    + split; [split; [done|]; exists (TInt W32); by split|]. repeat constructor; try (by apply leave_jump_typed).
      * apply split_cont_not_entry.
      * exists (tail_block i d). split; [apply HS|constructor].
  - split_and!; simpl; [by intros v ?%elem_of_nil| |done]. intros y Hy. apply Hs. by eapply (subseteq_drop (S i)).
  - by eapply Hmono, (co_blocks _ Hco).
  - split_and!; rewrite ?Hpk, ?Hsk, ?Htk.
    + by intros u ?%elem_of_nil.
    + intros y ->%list_elem_of_singleton. by eexists.
    + split; [split; [done|by exists W32]|constructor].
Qed.

(** Where a statement stands. *)
Lemma split_place k dk j y : arena_get (blocks ir') k = Some dk -> stmts dk !! j = Some y ->
  (get y < length (all_stmts ir))%nat /\ (k = b -> (j <= i)%nat) /\
    (exists d0, arena_get (blocks ir) (if decide (k = c) then b else k) = Some d0 /\
      stmts d0 !! (if decide (k = c) then (S i + j)%nat else j) = Some y) \/
  (length (all_stmts ir) <= get y)%nat /\
    (k = b /\ j = S i /\ (exists v, arena_get (all_stmts ir') y = Some (mkStmt [v] KLoadHaltReason)) \/
     leave_and_take_halt ir' = Some k /\ j = 0%nat /\ (exists v, arena_get (all_stmts ir') y = Some (mkStmt [v] KTakeHaltReason))).
Proof.
  assert (forall k0 d0 y0, arena_get (blocks ir) k0 = Some d0 -> y0 ∈ stmts d0 -> (get y0 < length (all_stmts ir))%nat) as Hold.
  { intros k0 d0 y0 H0 Hy0. destruct (co_blocks _ Hco _ _ H0) as (_ & Hs & _). apply Hs in Hy0 as [? ?%lookup_lt_Some]. done. }
  assert (b <> c) as Hbc by (intros ->; apply lookup_lt_Some in Hd; rewrite (sp_fresh _ _ _ _ _ _ HS) in Hd; lia).
  assert (length (take (S i) (stmts d)) = S i) as Hlen by (apply length_take_le; by apply lookup_lt_Some in Hx).
  intros Hk Hy. apply split_block_inv in Hk as [(-> & lv & h & v & El & Hh & Hhd & _ & ->)|[(-> & ->)|[(Hkb & Hkc & Hk)|(_ & El & h & v & _ & Hsk & Hh & Hhd & _)]]].
  - simpl in Hy. apply lookup_app_Some in Hy as [Hy|[Hl Hy]].
    + left. apply lookup_take_Some in Hy as [Hy Hj]. split_and!; [by eapply Hold, list_elem_of_lookup_2|lia|].
      rewrite !decide_False by done. by exists d.
    + right. rewrite Hlen in Hl, Hy. apply list_lookup_singleton_Some in Hy as [Ej <-]. split; [done|]. left. split_and!; [done|lia|by exists v].
  - left. simpl in Hy. rewrite lookup_drop in Hy. split_and!; [by eapply Hold, list_elem_of_lookup_2|done|]. rewrite !decide_True by done. by exists d.
  - left. split_and!; [by eapply Hold, list_elem_of_lookup_2|done|]. rewrite !decide_False by done. by exists dk.
  - right. rewrite Hsk in Hy. apply list_lookup_singleton_Some in Hy as [-> <-]. split; [done|]. right. split_and!; [done..|by exists v].
Qed.

Lemma split_once y k dk j k' dk' j' :
  arena_get (blocks ir') k = Some dk -> stmts dk !! j = Some y ->
  arena_get (blocks ir') k' = Some dk' -> stmts dk' !! j' = Some y -> k = k' /\ j = j'.
Proof.
  intros Hk Hy Hk' Hy'.
  destruct (split_place _ _ _ _ Hk Hy) as [(Hl & Hi & d0 & Hd0 & Hy0)|(Hl & HL)];
    destruct (split_place _ _ _ _ Hk' Hy') as [(Hl' & Hi' & d0' & Hd0' & Hy0')|(Hl' & HL')]; [|lia..|].
  - destruct (co_once _ Hco _ _ _ _ _ _ _ Hd0 Hy0 Hd0' Hy0') as [Ek Ej].
    destruct (decide (k = c)) as [->|], (decide (k' = c)) as [->|]; subst; [split; [done|lia]| | |done].
    + specialize (Hi' eq_refl). lia.
    + specialize (Hi eq_refl). lia.
  - destruct HL as [(-> & -> & v & Hv)|(El & -> & v & Hv)], HL' as [(-> & -> & v' & Hv')|(El' & -> & v' & Hv')]; try done; by simplify_eq.
Qed.

Lemma split_defined v s : defined_at ir' v s ->
  defined_at ir v s \/ exists y, s = SOutput y 0 /\ (length (all_stmts ir) <= get y)%nat /\
    (get v + length (all_stmts ir) = get y + length (ssa_values ir))%nat.
Proof.
  intros [y j sd Hy Hv|k j dk Hk Hv].
  - apply split_stmt_inv in Hy as [Hy|(Hge & u & Hsd & Hu & _)]; [left; by econstructor|]. right.
    assert (outputs sd = [u]) as Eo by (by destruct Hsd as [->| ->]). rewrite Eo in Hv.
    apply list_lookup_singleton_Some in Hv as [-> <-]. by exists y.
  - left. apply split_block_inv in Hk as [(-> & lv & h & u & _ & _ & _ & _ & ->)|[(-> & ->)|[(_ & _ & Hk)|(_ & _ & h & u & Hp & _)]]].
    + by econstructor.
    + simpl in Hv; by rewrite lookup_nil in Hv.
    + by econstructor.
    + by rewrite Hp, lookup_nil in Hv.
Qed.

Lemma split_compilable : compilable ir'.
Proof.
  destruct (sp_rest _ _ _ _ _ _ HS) as (_ & _ & _ & Eg & _). split.
  - rewrite Eg. apply Hco.
  - intros a. apply (vty_mono split_keeps), Hco.
  - destruct (co_entry _ Hco) as (de & Hde & Ep). destruct (ex_blocks _ _ split_extends _ _ Hde) as (d' & ? & ?). exists d'. split; [done|congruence].
  - apply split_stmts_ok.
  - apply split_blocks_ok.
  - intros y k dk j k' dk' j'. apply split_once.
  - intros v s1 s2 [H1|(y & -> & Hy & Hv)]%split_defined [H2|(y' & -> & Hy' & Hv')]%split_defined.
    + by eapply (co_ssa _ Hco).
    + apply (compilable_defined_lt _ _ _ Hco) in H1. lia.
    + apply (compilable_defined_lt _ _ _ Hco) in H2. lia.
    + f_equal. apply get_inj. lia.
Qed.
End Split.

(** A property that every check keeps. *)
Lemma checks_keep (P : ExecIrBuilder -> Prop) :
  (forall ir ir' b c i d x, compilable ir -> arena_get (blocks ir) b = Some d -> stmts d !! i = Some x ->
    is_split ir ir' b c i d -> P ir -> P ir') ->
  forall ir ir', rtc check_inserted ir ir' -> compilable ir -> P ir -> compilable ir' /\ P ir'.
Proof.
  intros HP. induction 1 as [|ir1 ir2 ir3 (b & c & i & d & x & Hd & Hx & HS) _ IH]; [done|]. intros Hco Hp.
  apply IH; [by eapply split_compilable|by eapply HP].
Qed.
