(* ===== verification/Clif.v ===== *)
(** * The interface of Cranelift
    (what [jit-compiler-core/src/compiler/cranelift_backend.rs] uses of it)

    Cranelift is a library: the back end hands it a function, instruction by
    instruction, through a builder, and it makes machine code.  Here are the types
    of that interface, the builder as a class of operations with laws (what each
    call adds to the function), and the machine code as a class with the meaning
    Cranelift documents for each instruction. *)

From S2P Require Import Prelude Convert HaltReason MemTypes Fault Memops ObjectQueue Fabric PageTable IoMMU.
From S2P Require Import ExclusiveMonitor LookupCache MemAccess FfiSupport Arena Ir IrSem.
Local Open Scope Z_scope.
Local Open Scope emu_scope.

(** ** Functions *)

Inductive ClifType := I8 | I16 | I32 | I64.

#[export] Instance ClifType_eq_dec : EqDecision ClifType.
Proof. solve_decision. Defined.

Definition ty_bits (ty : ClifType) : Z := match ty with I8 => 8 | I16 => 16 | I32 => 32 | I64 => 64 end.

Inductive IntCC :=
  | CcEqual | CcNotEqual
  | CcSignedLessThan | CcSignedGreaterThanOrEqual | CcSignedGreaterThan | CcSignedLessThanOrEqual
  | CcUnsignedLessThan | CcUnsignedGreaterThanOrEqual | CcUnsignedGreaterThan | CcUnsignedLessThanOrEqual.

(** Entities are numbers. *)
Abbreviation ClifValue := positive.
Abbreviation ClifBlock := positive.
Abbreviation ClifSlot := positive.
Abbreviation SigRef := positive.
Abbreviation ClifAlias := positive.

Record MemFlagsData := mkMemFlagsData {
  flag_little : bool;                  (* otherwise of the target's byte order *)
  flag_alias : option ClifAlias;
  flag_can_move : bool;
  flag_readonly : bool;
}.
(** [MemFlagsData::trusted()]: aligned, and does not trap. *)
Definition trusted : MemFlagsData := mkMemFlagsData false None false false.
Definition with_alias_region (a : ClifAlias) (f : MemFlagsData) : MemFlagsData :=
  mkMemFlagsData (flag_little f) (Some a) (flag_can_move f) (flag_readonly f).
Definition with_little_endian (f : MemFlagsData) : MemFlagsData :=
  mkMemFlagsData true (flag_alias f) (flag_can_move f) (flag_readonly f).
Definition set_can_move (f : MemFlagsData) : MemFlagsData :=
  mkMemFlagsData (flag_little f) (flag_alias f) true (flag_readonly f).
Definition set_readonly (f : MemFlagsData) : MemFlagsData :=
  mkMemFlagsData (flag_little f) (flag_alias f) (flag_can_move f) true.

Inductive AtomicRmwOp := RmwXchg | RmwOr.

Record ClifSignature := mkClifSignature { sig_params : list ClifType; sig_returns : list ClifType }.

(** The instructions, by the names of the [InstBuilder]'s methods; the values they
    work on are not part of them.  An immediate is an [i64]. *)
Module Ins.
Inductive Opcode :=
  | iconst (ty : ClifType) (imm : Z)
  | iadd | isub | imul | udiv | sdiv | ineg
  | icmp (cc : IntCC) | icmp_imm (cc : IntCC) (imm : Z)
  | select
  | band | bor | bxor | bnot
  | band_imm (imm : Z) | bor_imm (imm : Z) | bxor_imm (imm : Z)
  | sshr | ushr | ishl
  | sshr_imm (imm : Z) | ushr_imm (imm : Z) | ishl_imm (imm : Z)
  | sadd_overflow | ssub_overflow
  | uextend (ty : ClifType) | ireduce (ty : ClifType) | imul_imm (imm : Z)
  | load (ty : ClifType) (flags : MemFlagsData) (offset : Z)
  | store (flags : MemFlagsData) (offset : Z)
  | stack_addr (ty : ClifType) (slot : ClifSlot) (offset : Z)
  | call_indirect (sig : SigRef)
  | atomic_load (ty : ClifType) (flags : MemFlagsData)
  | atomic_store (flags : MemFlagsData)
  | atomic_rmw (ty : ClifType) (flags : MemFlagsData) (op : AtomicRmwOp).
End Ins.
Abbreviation Opcode := Ins.Opcode.

Record Inst := mkInst { inst_op : Opcode; inst_args : list ClifValue; inst_results : list ClifValue }.

Inductive ClifTerm :=
  | return_ (args : list ClifValue)
  | jump (target : ClifBlock) (args : list ClifValue)
  | brif (cond : ClifValue) (non_zero : ClifBlock) (nz_args : list ClifValue)
      (zero : ClifBlock) (z_args : list ClifValue).

Record ClifBlockData := mkClifBlock {
  cb_params : list ClifValue;
  cb_code : list Inst;
  cb_term : option ClifTerm;
  cb_cold : bool;
}.

Record ClifSlotData := mkClifSlot { cs_size : Z; cs_align_shift : Z }.

Record ClifFunc := mkClifFunc {
  value_types : gmap ClifValue ClifType;
  clif_blocks : gmap ClifBlock ClifBlockData;
  clif_slots : gmap ClifSlot ClifSlotData;
  clif_sigs : gmap SigRef ClifSignature;
  clif_aliases : gmap ClifAlias Z;     (* the user's number of a region *)
}.

Module Fn.
Definition empty : ClifFunc := mkClifFunc ∅ ∅ ∅ ∅ ∅.
Definition set_types (m : gmap ClifValue ClifType) (f : ClifFunc) : ClifFunc :=
  mkClifFunc m (clif_blocks f) (clif_slots f) (clif_sigs f) (clif_aliases f).
Definition set_blocks (m : gmap ClifBlock ClifBlockData) (f : ClifFunc) : ClifFunc :=
  mkClifFunc (value_types f) m (clif_slots f) (clif_sigs f) (clif_aliases f).
Definition add_slot (s : ClifSlot) (d : ClifSlotData) (f : ClifFunc) : ClifFunc :=
  mkClifFunc (value_types f) (clif_blocks f) (<[s := d]> (clif_slots f)) (clif_sigs f) (clif_aliases f).
Definition add_sig (r : SigRef) (d : ClifSignature) (f : ClifFunc) : ClifFunc :=
  mkClifFunc (value_types f) (clif_blocks f) (clif_slots f) (<[r := d]> (clif_sigs f)) (clif_aliases f).
Definition add_alias (a : ClifAlias) (id : Z) (f : ClifFunc) : ClifFunc :=
  mkClifFunc (value_types f) (clif_blocks f) (clif_slots f) (clif_sigs f) (<[a := id]> (clif_aliases f)).
Definition add_block (b : ClifBlock) (f : ClifFunc) : ClifFunc :=
  set_blocks (<[b := mkClifBlock [] [] None false]> (clif_blocks f)) f.
Definition on_block (g : ClifBlockData -> ClifBlockData) (b : ClifBlock) (f : ClifFunc) : ClifFunc :=
  set_blocks (alter g b (clif_blocks f)) f.
Definition add_param (b : ClifBlock) (v : ClifValue) (ty : ClifType) (f : ClifFunc) : ClifFunc :=
  set_types (<[v := ty]> (value_types f))
    (on_block (fun d => mkClifBlock (cb_params d ++ [v]) (cb_code d) (cb_term d) (cb_cold d)) b f).
Definition set_cold (b : ClifBlock) (f : ClifFunc) : ClifFunc :=
  on_block (fun d => mkClifBlock (cb_params d) (cb_code d) (cb_term d) true) b f.
Definition add_inst (b : ClifBlock) (i : Inst) (tys : list ClifType) (f : ClifFunc) : ClifFunc :=
  set_types (list_to_map (zip (inst_results i) tys) ∪ value_types f)
    (on_block (fun d => mkClifBlock (cb_params d) (cb_code d ++ [i]) (cb_term d) (cb_cold d)) b f).
Definition set_term (b : ClifBlock) (t : ClifTerm) (f : ClifFunc) : ClifFunc :=
  on_block (fun d => mkClifBlock (cb_params d) (cb_code d) (Some t) (cb_cold d)) b f.
End Fn.

(** The types of an instruction's results, if its operands are of the right
    types. *)
Definition result_types (f : ClifFunc) (op : Opcode) (tys : list ClifType) : option (list ClifType) :=
  match op, tys with
  | Ins.iconst ty _, [] => Some [ty]
  | (Ins.iadd | Ins.isub | Ins.imul | Ins.udiv | Ins.sdiv | Ins.band | Ins.bor | Ins.bxor), [t; t'] =>
      if decide (t = t') then Some [t] else None
  | (Ins.ineg | Ins.bnot | Ins.band_imm _ | Ins.bor_imm _ | Ins.bxor_imm _
    | Ins.sshr_imm _ | Ins.ushr_imm _ | Ins.ishl_imm _ | Ins.imul_imm _), [t] => Some [t]
  | Ins.icmp _, [t; t'] => if decide (t = t') then Some [I8] else None
  | Ins.icmp_imm _ _, [_] => Some [I8]
  | Ins.select, [_; t; t'] => if decide (t = t') then Some [t] else None
  | (Ins.sshr | Ins.ushr | Ins.ishl), [t; _] => Some [t]
  | (Ins.sadd_overflow | Ins.ssub_overflow), [t; t'] => if decide (t = t') then Some [t; I8] else None
  | Ins.uextend ty, [t] => if ty_bits t <? ty_bits ty then Some [ty] else None
  | Ins.ireduce ty, [t] => if ty_bits ty <? ty_bits t then Some [ty] else None
  | Ins.load ty _ _, [I64] | Ins.atomic_load ty _, [I64] | Ins.stack_addr ty _ _, [] => Some [ty]
  | Ins.store _ _, [_; I64] | Ins.atomic_store _, [_; I64] => Some []
  | Ins.atomic_rmw ty _ _, [I64; t] => if decide (t = ty) then Some [ty] else None
  | Ins.call_indirect sig, I64 :: tys =>
      d ← clif_sigs f !! sig;
      if decide (sig_params d = tys) then Some (sig_returns d) else None
  | _, _ => None
  end.

(** ** The builder *)

(** [FunctionBuilder]: its state is its own; [clif_func] is the function so far. *)
Class FunctionBuilder (F : Type) := {
  clif_func : F -> ClifFunc;
  clif_current : F -> option ClifBlock;
  create_sized_stack_slot : Z -> Z -> SM F ClifSlot;
  create_clif_block : SM F ClifBlock;
  append_block_param : ClifBlock -> ClifType -> SM F ClifValue;
  set_cold_block : ClifBlock -> SM F unit;
  switch_to_block : ClifBlock -> SM F unit;
  import_signature : ClifSignature -> SM F SigRef;
  insert_alias_region : Z -> SM F ClifAlias;
  ins : Opcode -> list ClifValue -> SM F (list ClifValue);
  ins_term : ClifTerm -> SM F unit;
}.

Definition value_type {F} `{FunctionBuilder F} (f : F) (v : ClifValue) : option ClifType :=
  value_types (clif_func f) !! v.
Definition block_params {F} `{FunctionBuilder F} (f : F) (b : ClifBlock) : option (list ClifValue) :=
  cb_params <$> clif_blocks (clif_func f) !! b.

(** Values of given types. *)
Abbreviation of_types fn vs tys := (Forall2 (fun v ty => value_types fn !! v = Some ty) vs tys).

(** A branch passes what its target expects. *)
Definition target_typed (fn : ClifFunc) (b : ClifBlock) (args : list ClifValue) : Prop :=
  exists d tys, clif_blocks fn !! b = Some d /\ of_types fn args tys /\ of_types fn (cb_params d) tys.

Definition clif_term_typed (fn : ClifFunc) (returns : list ClifType) (t : ClifTerm) : Prop :=
  match t with
  | return_ args => of_types fn args returns
  | jump b args => target_typed fn b args
  | brif c b args b' args' => is_Some (value_types fn !! c) /\ target_typed fn b args /\ target_typed fn b' args'
  end.

(** What each call does: new entities are new, and the function grows by what the
    call says.  Instructions go to the current block, which must not be
    terminated, and must be typed; a block is switched to once the one before it
    is terminated.  [returns] is the signature of the function built. *)
Class FunctionBuilderLaws (F : Type) `{FunctionBuilder F} (returns : list ClifType) : Prop := {
  slot_law size shift f : exists s f', create_sized_stack_slot size shift f = Some (s, f') /\
    clif_slots (clif_func f) !! s = None /\ clif_func f' = Fn.add_slot s (mkClifSlot size shift) (clif_func f) /\
    clif_current f' = clif_current f;
  block_law f : exists b f', create_clif_block f = Some (b, f') /\
    clif_blocks (clif_func f) !! b = None /\ clif_func f' = Fn.add_block b (clif_func f) /\
    clif_current f' = clif_current f;
  param_law b ty f : is_Some (clif_blocks (clif_func f) !! b) ->
    exists v f', append_block_param b ty f = Some (v, f') /\
      value_types (clif_func f) !! v = None /\ clif_func f' = Fn.add_param b v ty (clif_func f) /\
      clif_current f' = clif_current f;
  cold_law b f : is_Some (clif_blocks (clif_func f) !! b) ->
    exists f', set_cold_block b f = Some (tt, f') /\ clif_func f' = Fn.set_cold b (clif_func f) /\
      clif_current f' = clif_current f;
  switch_law b f : is_Some (clif_blocks (clif_func f) !! b) ->
    (forall c d, clif_current f = Some c -> clif_blocks (clif_func f) !! c = Some d -> is_Some (cb_term d)) ->
    exists f', switch_to_block b f = Some (tt, f') /\ clif_func f' = clif_func f /\ clif_current f' = Some b;
  signature_law d f : exists r f', import_signature d f = Some (r, f') /\
    clif_sigs (clif_func f) !! r = None /\ clif_func f' = Fn.add_sig r d (clif_func f) /\
    clif_current f' = clif_current f;
  alias_law id f : exists a f', insert_alias_region id f = Some (a, f') /\
    clif_aliases (clif_func f) !! a = None /\ clif_func f' = Fn.add_alias a id (clif_func f) /\
    clif_current f' = clif_current f;
  ins_law op args f b d tys rtys :
    clif_current f = Some b -> clif_blocks (clif_func f) !! b = Some d -> cb_term d = None ->
    of_types (clif_func f) args tys -> result_types (clif_func f) op tys = Some rtys ->
    exists rs f', ins op args f = Some (rs, f') /\
      NoDup rs /\ length rs = length rtys /\ Forall (fun r => value_types (clif_func f) !! r = None) rs /\
      clif_func f' = Fn.add_inst b (mkInst op args rs) rtys (clif_func f) /\ clif_current f' = Some b;
  term_law t f b d :
    clif_current f = Some b -> clif_blocks (clif_func f) !! b = Some d -> cb_term d = None ->
    clif_term_typed (clif_func f) returns t ->
    exists f', ins_term t f = Some (tt, f') /\ clif_func f' = Fn.set_term b t (clif_func f) /\
      clif_current f' = Some b;
}.

(** ** The machine code *)

(** A value at run time. *)
Record CVal := CInt { cty : ClifType; cbits : Z }.

Definition of_bool (b : bool) : CVal := CInt I8 (if b then 1 else 0).

Definition cc_holds (w : Z) (cc : IntCC) (a b : Z) : bool :=
  match cc with
  | CcEqual => a =? b
  | CcNotEqual => negb (a =? b)
  | CcSignedLessThan => sgn w a <? sgn w b
  | CcSignedGreaterThanOrEqual => sgn w b <=? sgn w a
  | CcSignedGreaterThan => sgn w b <? sgn w a
  | CcSignedLessThanOrEqual => sgn w a <=? sgn w b
  | CcUnsignedLessThan => a <? b
  | CcUnsignedGreaterThanOrEqual => b <=? a
  | CcUnsignedGreaterThan => b <? a
  | CcUnsignedLessThanOrEqual => a <=? b
  end.

(** Division; [None] is a trap. *)
Definition udiv_bits (a b : Z) : option Z := if b =? 0 then None else Some (a / b).
Definition sdiv_bits (w a b : Z) : option Z :=
  if (b =? 0) || ((sgn w a =? - 2 ^ (w - 1)) && (sgn w b =? -1)) then None
  else Some (wrap w (Z.quot (sgn w a) (sgn w b))).

(** The integer instructions with two operands of one type. *)
Definition binary_bits (op : Opcode) (w a b : Z) : option Z :=
  match op with
  | Ins.iadd => Some (wrapping_add w a b)
  | Ins.isub => Some (wrapping_sub w a b)
  | Ins.imul => Some (wrapping_mul w a b)
  | Ins.udiv => udiv_bits a b
  | Ins.sdiv => sdiv_bits w a b
  | Ins.band => Some (Z.land a b)
  | Ins.bor => Some (Z.lor a b)
  | Ins.bxor => Some (Z.lxor a b)
  | _ => None
  end.

(** Those with one. *)
Definition unary_bits (op : Opcode) (w a : Z) : option Z :=
  match op with
  | Ins.ineg => Some (wrap w (- a))
  | Ins.bnot => Some (bitnot w a)
  | Ins.band_imm imm => Some (Z.land a (wrap w imm))
  | Ins.bor_imm imm => Some (Z.lor a (wrap w imm))
  | Ins.bxor_imm imm => Some (Z.lxor a (wrap w imm))
  | Ins.sshr_imm imm => Some (wrap w (Z.shiftr (sgn w a) (imm mod w)))
  | Ins.ushr_imm imm => Some (Z.shiftr a (imm mod w))
  | Ins.ishl_imm imm => Some (wrap w (Z.shiftl a (imm mod w)))
  | Ins.imul_imm imm => Some (wrapping_mul w a (wrap w imm))
  | _ => None
  end.

(** Shifts take the amount modulo the width. *)
Definition shift_bits (op : Opcode) (w a n : Z) : option Z :=
  match op with
  | Ins.sshr => Some (wrap w (Z.shiftr (sgn w a) (n mod w)))
  | Ins.ushr => Some (Z.shiftr a (n mod w))
  | Ins.ishl => Some (wrap w (Z.shiftl a (n mod w)))
  | _ => None
  end.

Definition in_signed_range (w z : Z) : bool := (- 2 ^ (w - 1) <=? z) && (z <? 2 ^ (w - 1)).

(** The instructions that only compute. *)
Definition compute (op : Opcode) (args : list CVal) : option (list CVal) :=
  match op, args with
  | Ins.iconst ty imm, [] => Some [CInt ty (wrap (ty_bits ty) imm)]
  | Ins.icmp cc, [CInt ty a; CInt ty' b] =>
      if decide (ty = ty') then Some [of_bool (cc_holds (ty_bits ty) cc a b)] else None
  | Ins.icmp_imm cc imm, [CInt ty a] => Some [of_bool (cc_holds (ty_bits ty) cc a (wrap (ty_bits ty) imm))]
  | Ins.select, [CInt _ c; x; y] => Some [if c =? 0 then y else x]
  | (Ins.sshr | Ins.ushr | Ins.ishl), [CInt ty a; CInt _ n] =>
      z ← shift_bits op (ty_bits ty) a n; Some [CInt ty z]
  | Ins.sadd_overflow, [CInt ty a; CInt ty' b] =>
      let w := ty_bits ty in
      if decide (ty = ty') then Some [CInt ty (wrapping_add w a b); of_bool (negb (in_signed_range w (sgn w a + sgn w b)))]
      else None
  | Ins.ssub_overflow, [CInt ty a; CInt ty' b] =>
      let w := ty_bits ty in
      if decide (ty = ty') then Some [CInt ty (wrapping_sub w a b); of_bool (negb (in_signed_range w (sgn w a - sgn w b)))]
      else None
  | Ins.uextend ty, [CInt _ a] => Some [CInt ty a]
  | Ins.ireduce ty, [CInt _ a] => Some [CInt ty (wrap (ty_bits ty) a)]
  | _, [CInt ty a] => z ← unary_bits op (ty_bits ty) a; Some [CInt ty z]
  | _, [CInt ty a; CInt ty' b] =>
      if decide (ty = ty') then z ← binary_bits op (ty_bits ty) a b; Some [CInt ty z] else None
  | _, _ => None
  end.

(** What an instruction does to a state, and the results. *)
Class Execution (S : Type) := exec_op : ClifFunc -> Opcode -> list CVal -> SM S (list CVal).

Abbreviation CEnv := (gmap ClifValue CVal).

Section Run.
Context {S : Type} `{!Execution S} (fn : ClifFunc).

Definition read_values (env : CEnv) (vs : list ClifValue) : option (list CVal) := mapM (fun v => env !! v) vs.

Definition write_values (vs : list ClifValue) (xs : list CVal) (env : CEnv) : option CEnv :=
  if decide (length vs = length xs) then Some (list_to_map (zip vs xs) ∪ env) else None.

Definition exec_inst (i : Inst) (env : CEnv) : SM S CEnv :=
  let! args := sm_of_option (read_values env (inst_args i)) in
  let! results := exec_op fn (inst_op i) args in
  sm_of_option (write_values (inst_results i) results env).

Fixpoint exec_code (code : list Inst) (env : CEnv) : SM S CEnv :=
  match code with
  | [] => sm_ret env
  | i :: code => let! env := exec_inst i env in exec_code code env
  end.

(** A point of the execution. *)
Record CPoint := mkCPoint { cp_block : ClifBlock; cp_index : nat; cp_values : CEnv; cp_state : S }.

Inductive CNext := CContinue (p : CPoint) | CReturn (x : CVal) (s : S).

Definition enter (b : ClifBlock) (xs : list CVal) (env : CEnv) (s : S) : option CPoint :=
  d ← clif_blocks fn !! b;
  env ← write_values (cb_params d) xs env;
  Some (mkCPoint b 0 env s).

Definition take_branch (b : ClifBlock) (args : list ClifValue) (env : CEnv) (s : S) : option CNext :=
  xs ← read_values env args;
  p ← enter b xs env s;
  Some (CContinue p).

Definition exec_clif_term (t : ClifTerm) (env : CEnv) (s : S) : option CNext :=
  match t with
  | return_ [v] => x ← env !! v; Some (CReturn x s)
  | return_ _ => None
  | jump b args => take_branch b args env s
  | brif c nz nz_args z z_args =>
      x ← env !! c;
      if cbits x =? 0 then take_branch z z_args env s else take_branch nz nz_args env s
  end.

Definition cstep (p : CPoint) : option CNext :=
  d ← clif_blocks fn !! cp_block p;
  match cb_code d !! cp_index p with
  | Some i =>
      '(env, s) ← exec_inst i (cp_values p) (cp_state p);
      Some (CContinue (mkCPoint (cp_block p) (Datatypes.S (cp_index p)) env s))
  | None =>
      t ← cb_term d;
      exec_clif_term t (cp_values p) (cp_state p)
  end.

Fixpoint run_clif (fuel : nat) (p : CPoint) : option CNext :=
  match fuel with
  | O => Some (CContinue p)
  | Datatypes.S fuel =>
      match cstep p with
      | Some (CContinue p) => run_clif fuel p
      | r => r
      end
  end.
End Run.
