(* ===== verification/CraneliftLower.v ===== *)
(** * The Cranelift back end
    ([jit-compiler-core/src/compiler/cranelift_backend.rs])

    The translation of a finished function into Cranelift's, as the calls the code
    makes on the builder: [FunctionLowering] and its methods, one statement, one
    terminator, the whole function.  A method returns an error ([anyhow]'s, here
    without its text) or panics. *)

From S2P Require Import Prelude Convert HaltReason MemTypes Fault Memops ObjectQueue Fabric PageTable IoMMU.
From S2P Require Import ExclusiveMonitor LookupCache MemAccess FfiSupport Arena Ir IrSem.
From S2P Require Import BackEnd.
From S2P Require Import Tarjan SccGraph HaltCheck HaltSplit HaltInv HaltSound BlockOrder Clif.
Local Open Scope Z_scope.
Local Open Scope emu_scope.

Definition clif_int_ty (width : IntWidth) : ClifType :=
  match width with W8 => I8 | W16 => I16 | W32 => I32 | W64 => I64 end.

Definition ir_ty_to_clif_ty (ptr_ty : ClifType) (ty : TypeFull) : ClifType :=
  match ty with TBool => I8 | TInt width => clif_int_ty width | THostPtr _ => ptr_ty end.

Inductive LowerError :=
  | MissingEntryBlock | EntryParams | MissingStackSlot | UsedBeforeLowered | OffsetTooLarge
  | ElemSizeTooLarge | WrongClifType | MismatchedValues | ConditionNotInteger.

(** The discriminants of [AliasRegion]. *)
Definition region_index (r : AliasRegion) : nat :=
  match r with
  | RExecState => 0 | RExecContext => 1 | RTlb => 2 | RHaltReason => 3
  | RReadOnly => 4 | RScratchSpace => 5 | RVirtualMemory => 6 | RPageFlags => 7
  end.
Definition REGION_COUNT : nat := 8.

Definition convert_to_intcc (cmp : IntCmp) : IntCC :=
  match cmp with
  | Equal => CcEqual
  | NotEqual => CcNotEqual
  | SignedLessThan => CcSignedLessThan
  | SignedGreaterThanOrEqual => CcSignedGreaterThanOrEqual
  | SignedGreaterThan => CcSignedGreaterThan
  | SignedLessThanOrEqual => CcSignedLessThanOrEqual
  | UnsignedLessThan => CcUnsignedLessThan
  | UnsignedGreaterThanOrEqual => CcUnsignedGreaterThanOrEqual
  | UnsignedGreaterThan => CcUnsignedGreaterThan
  | UnsignedLessThanOrEqual => CcUnsignedLessThanOrEqual
  end.

Section Lower.
Context {F : Type} `{!FunctionBuilder F}.
(** The function, the target's pointer type, and where the runtime helpers are. *)
Context (exec_ir : ExecIr) (ptr_ty : ClifType) (helper_address : HostCallback -> Z).

Record FunctionLowering := mkLowering {
  lw_builder : F;
  lw_alias_regions : list (option ClifAlias);
  lw_stack_slots : ArenaMap ClifSlot;
  lw_values : ArenaMap ClifValue;
  lw_blocks : ArenaMap ClifBlock;
  lw_signatures : ArenaMap SigRef;
}.

Abbreviation M A := (SM FunctionLowering A).
Abbreviation Lower A := (SM FunctionLowering (Result A LowerError)).

Definition set_builder (f : F) (l : FunctionLowering) : FunctionLowering :=
  mkLowering f (lw_alias_regions l) (lw_stack_slots l) (lw_values l) (lw_blocks l) (lw_signatures l).
Definition set_alias_regions (x : list (option ClifAlias)) (l : FunctionLowering) : FunctionLowering :=
  mkLowering (lw_builder l) x (lw_stack_slots l) (lw_values l) (lw_blocks l) (lw_signatures l).
Definition set_slots (x : ArenaMap ClifSlot) (l : FunctionLowering) : FunctionLowering :=
  mkLowering (lw_builder l) (lw_alias_regions l) x (lw_values l) (lw_blocks l) (lw_signatures l).
Definition set_values (x : ArenaMap ClifValue) (l : FunctionLowering) : FunctionLowering :=
  mkLowering (lw_builder l) (lw_alias_regions l) (lw_stack_slots l) x (lw_blocks l) (lw_signatures l).
Definition set_blocks (x : ArenaMap ClifBlock) (l : FunctionLowering) : FunctionLowering :=
  mkLowering (lw_builder l) (lw_alias_regions l) (lw_stack_slots l) (lw_values l) x (lw_signatures l).
Definition set_signatures (x : ArenaMap SigRef) (l : FunctionLowering) : FunctionLowering :=
  mkLowering (lw_builder l) (lw_alias_regions l) (lw_stack_slots l) (lw_values l) (lw_blocks l) x.

Definition on_builder {A} (op : SM F A) : M A := fun l =>
  match op (lw_builder l) with Some (a, f) => Some (a, set_builder f l) | None => None end.
Definition on_values {A} (op : SM (ArenaMap ClifValue) A) : M A := fun l =>
  match op (lw_values l) with Some (a, m) => Some (a, set_values m l) | None => None end.

Definition lower_ok {A} (a : A) : Lower A := sm_ret (Ok a).
Definition lower_err {A} (e : LowerError) : Lower A := sm_ret (Err e).
Definition ensure (b : bool) (e : LowerError) : Lower unit := if b then lower_ok tt else lower_err e.
Definition context {A} (o : option A) (e : LowerError) : Lower A :=
  match o with Some a => lower_ok a | None => lower_err e end.

(** An instruction with one result, and with two or none. *)
Definition ins1 (op : Opcode) (args : list ClifValue) : M ClifValue :=
  let! rs := on_builder (ins op args) in
  match rs with [r] => sm_ret r | _ => sm_panic end.
Definition ins2 (op : Opcode) (args : list ClifValue) : M (ClifValue * ClifValue) :=
  let! rs := on_builder (ins op args) in
  match rs with [r; r'] => sm_ret (r, r') | _ => sm_panic end.
Definition ins0 (op : Opcode) (args : list ClifValue) : M unit :=
  let! _ := on_builder (ins op args) in sm_ret tt.

(** [func.dfg.value_type(value)]. *)
Definition value_ty (value : ClifValue) : M ClifType := fun l =>
  sm_of_option (value_type (lw_builder l) value) l.

(** ** Looking things up *)

Definition use_stack_slot (stack_slot : StackSlot) : Lower ClifSlot := fun l =>
  context (map_get (lw_stack_slots l) stack_slot) MissingStackSlot l.
Definition use_value (ssa_value : SSAValue) : Lower ClifValue := fun l =>
  context (map_get (lw_values l) ssa_value) UsedBeforeLowered l.
(** A missing block panics. *)
Definition clif_block (block : Block) : Lower ClifBlock := fun l =>
  match map_get (lw_blocks l) block with Some b => lower_ok b l | None => None end.

Fixpoint use_values (vs : list SSAValue) : Lower (list ClifValue) :=
  match vs with
  | [] => lower_ok []
  | v :: vs =>
      let!? value := use_value v in
      let!? values := use_values vs in
      lower_ok (value :: values)
  end.

Definition clif_jump (jump : Jump) : Lower (ClifBlock * list ClifValue) :=
  let!? block := clif_block (jump_target jump) in
  let!? values := use_values (jump_parameters jump) in
  lower_ok (block, values).

Definition assert_value_ty (value : ClifValue) (expected : ClifType) : Lower unit :=
  let! found := value_ty value in
  ensure (bool_decide (found = expected)) WrongClifType.

Definition lower_iconst (c : IConst) : M ClifValue :=
  ins1 (Ins.iconst (clif_int_ty (iwidth c)) (cast_signed (ibits c))) [].

(** ** Memory flags *)

Definition alias_region (region : AliasRegion) : M ClifAlias := fun l =>
  match lw_alias_regions l !! region_index region with
  | None => None                                       (* out of bounds *)
  | Some (Some a) => Some (a, l)
  | Some None =>
      (let! a := on_builder (insert_alias_region (Z.of_nat (region_index region))) in
       sm_modify (fun l => set_alias_regions (<[region_index region := Some a]> (lw_alias_regions l)) l) ;;!
       sm_ret a) l
  end.

Definition host_memory_flags (can_move : bool) (region : AliasRegion) : M MemFlagsData :=
  sm_assert (negb (bool_decide (region = RVirtualMemory))) ;;!
  let! alias := alias_region region in
  let flags := with_alias_region alias trusted in
  let flags := if can_move then set_can_move flags else flags in
  sm_ret (match region with RReadOnly => set_readonly flags | _ => flags end).

Definition guest_memory_flags (region : AliasRegion) : M MemFlagsData :=
  sm_assert (bool_decide (region = RVirtualMemory)) ;;!
  let! alias := alias_region RVirtualMemory in
  sm_ret (with_alias_region alias (with_little_endian trusted)).

Definition load_ty (ty : LoadType) : ClifType :=
  match ty with LInt width => clif_int_ty width | LHostPtr _ => ptr_ty end.

(** [i32::try_from] on a [usize]. *)
Definition offset32 (offset : Z) : Lower Z :=
  if offset <=? I32_MAX then lower_ok offset else lower_err OffsetTooLarge.

Definition lower_host_load (ty : LoadType) (base_ptr : SSAValue) (region : AliasRegion) (offset : Z)
    (can_move : bool) : Lower ClifValue :=
  let!? base_ptr := use_value base_ptr in
  let!? offset := offset32 offset in
  let! flags := host_memory_flags can_move region in
  let! v := ins1 (Ins.load (load_ty ty) flags offset) [base_ptr] in
  lower_ok v.

Definition lower_host_store (base_ptr : SSAValue) (region : AliasRegion) (offset : Z) (value : ClifValue)
    (can_move : bool) : Lower unit :=
  let!? base_ptr := use_value base_ptr in
  let!? offset := offset32 offset in
  let! flags := host_memory_flags can_move region in
  ins0 (Ins.store flags offset) [value; base_ptr] ;;!
  lower_ok tt.

(** ** Callbacks and pointers *)

Definition clif_signature (s : CallbackSignatureData) : ClifSignature :=
  mkClifSignature (ir_ty_to_clif_ty ptr_ty <$> sig_args s)
    (match sig_ret s with Some ty => [ir_ty_to_clif_ty ptr_ty ty] | None => [] end).

(** [get_or_insert_with]: the closure runs if there is no entry. *)
Definition fn_signature (signature : CallbackSignature) : Lower SigRef := fun l =>
  match map_get (lw_signatures l) signature with
  | Some r => Some (Ok r, set_signatures (insertion_slot (lw_signatures l) signature) l)
  | None =>
      (let! sig := sm_of_option (arena_get (exec_signatures exec_ir) signature) in
       let! r := on_builder (import_signature (clif_signature sig)) in
       sm_modify (fun l => set_signatures (snd (map_get_or_insert_with signature r (lw_signatures l))) l) ;;!
       lower_ok r) l
  end.

Definition ptr_add (base_ptr offset : SSAValue) (elem_size : Z) : Lower ClifValue :=
  let!? base_ptr := use_value base_ptr in
  let!? offset := use_value offset in
  let!? _ := assert_value_ty base_ptr ptr_ty in
  let! offset_ty := value_ty offset in
  let! offset :=
    match Z.compare (ty_bits offset_ty) (ty_bits ptr_ty) with
    | Lt => ins1 (Ins.uextend ptr_ty) [offset]
    | Eq => sm_ret offset
    | Gt => ins1 (Ins.ireduce ptr_ty) [offset]
    end in
  let!? offset :=
    (if elem_size =? 1 then lower_ok offset
     else if elem_size <=? I64_MAX then let! v := ins1 (Ins.imul_imm elem_size) [offset] in lower_ok v
     else lower_err ElemSizeTooLarge) in
  let! v := ins1 Ins.iadd [base_ptr; offset] in
  lower_ok v.

Definition ptr_byte_add (base_ptr offset : SSAValue) : Lower ClifValue := ptr_add base_ptr offset 1.

(** ** Statements *)

Definition arith_op (op : ArithBinOp) : Opcode :=
  match op with
  | ArAdd => Ins.iadd | ArSub => Ins.isub | ArMul => Ins.imul
  | UncheckedUDiv => Ins.udiv | UncheckedSDiv => Ins.sdiv
  end.
Definition bitwise_op (op : BitwiseOp) : Opcode :=
  match op with BwAnd => Ins.band | BwOr => Ins.bor | BwXor => Ins.bxor end.
Definition bitwise_imm_op (op : BitwiseOp) (imm : Z) : Opcode :=
  match op with BwAnd => Ins.band_imm imm | BwOr => Ins.bor_imm imm | BwXor => Ins.bxor_imm imm end.
Definition shift_op (op : ShiftOp) : Opcode :=
  match op with SignExtendShr => Ins.sshr | ZeroExtendShr => Ins.ushr | Shl => Ins.ishl end.
Definition shift_imm_op (op : ShiftOp) (imm : Z) : Opcode :=
  match op with
  | SignExtendShr => Ins.sshr_imm imm | ZeroExtendShr => Ins.ushr_imm imm | Shl => Ins.ishl_imm imm
  end.
Definition overflowing_op (op : OverflowingBinOp) : Opcode :=
  match op with OvAdd => Ins.sadd_overflow | OvSub => Ins.ssub_overflow end.

(** [exec_ir.ssa_values[value].ty] as a host pointer's region; anything else
    panics. *)
Definition pointee (value : SSAValue) : M AliasRegion :=
  sm_of_option (match arena_get (exec_ssa_values exec_ir) value with Some (THostPtr r) => Some r | _ => None end).

Definition lower_shift_unbounded (op : ShiftOp) (value shift : ClifValue) : M ClifValue :=
  let! ty := value_ty value in
  let bits := ty_bits ty in
  let! in_range := ins1 (Ins.icmp_imm CcUnsignedLessThan bits) [shift] in
  let! shifted := ins1 (shift_op op) [value; shift] in
  let! overflow_val :=
    match op with
    | SignExtendShr => ins1 (Ins.sshr_imm (bits - 1)) [value]
    | ZeroExtendShr | Shl => ins1 (Ins.iconst ty 0) []
    end in
  ins1 Ins.select [in_range; shifted; overflow_val].

Definition lower_callback (func : HostCallback) (signature : CallbackSignature) (args : list SSAValue) :
    Lower (list ClifValue) :=
  let!? signature := fn_signature signature in
  let!? args := use_values args in
  let! fn_ptr_val := ins1 (Ins.iconst ptr_ty (cast_signed (helper_address func))) [] in
  let! results := on_builder (ins (Ins.call_indirect signature) (fn_ptr_val :: args)) in
  lower_ok results.

Definition lower_take_halt_reason : Lower (list ClifValue) :=
  let! zero := lower_iconst (Const.zero W32) in
  let!? ptr := use_value ARG_HALT_REASON_PTR in
  let! flags := host_memory_flags false RHaltReason in
  let! value := ins1 (Ins.atomic_rmw I32 flags RmwXchg) [ptr; zero] in
  lower_ok [value].

Definition lower_set_page_dirty (insn_dirty : SSAValue) : Lower (list ClifValue) :=
  let!? ptr := use_value insn_dirty in
  let! flag_val := lower_iconst (Const.unsigned W8 PageDirty.IS_DIRTY_FLAG) in
  let! flags := host_memory_flags false RPageFlags in
  ins1 (Ins.atomic_rmw I8 flags RmwOr) [ptr; flag_val] ;;!
  lower_ok [].

(** [from_arr([value])]. *)
Definition one (m : M ClifValue) : Lower (list ClifValue) := let! v := m in lower_ok [v].

Definition lower_rvalue (rvalue : StmtKind) : Lower (list ClifValue) :=
  match rvalue with
  | KIConst c => one (lower_iconst c)
  | KArithBinOp op lhs rhs =>
      let!? lhs := use_value lhs in
      let!? rhs := use_value rhs in
      one (ins1 (arith_op op) [lhs; rhs])
  | KIntNeg val =>
      let!? val := use_value val in
      one (ins1 Ins.ineg [val])
  | KIntCmp cmp lhs rhs =>
      let!? lhs := use_value lhs in
      let!? rhs := use_value rhs in
      one (ins1 (Ins.icmp (convert_to_intcc cmp)) [lhs; rhs])
  | KIntCmpImm cmp lhs rhs =>
      let!? lhs := use_value lhs in
      one (ins1 (Ins.icmp_imm (convert_to_intcc cmp) (cast_signed rhs)) [lhs])
  | KSelect cond if_true if_false =>
      let!? cond := use_value cond in
      let!? if_true := use_value if_true in
      let!? if_false := use_value if_false in
      one (ins1 Ins.select [cond; if_true; if_false])
  | KBitwise op lhs rhs =>
      let!? lhs := use_value lhs in
      let!? rhs := use_value rhs in
      one (ins1 (bitwise_op op) [lhs; rhs])
  | KBitwiseImm op lhs rhs =>
      let!? lhs := use_value lhs in
      one (ins1 (bitwise_imm_op op (cast_signed rhs)) [lhs])
  | KBitNot val =>
      let!? val := use_value val in
      one (ins1 Ins.bnot [val])
  | KShift op value shift =>
      let!? value := use_value value in
      let!? shift := use_value shift in
      one (ins1 (shift_op op) [value; shift])
  | KShiftUnbounded op value shift =>
      let!? value := use_value value in
      let!? shift := use_value shift in
      one (lower_shift_unbounded op value shift)
  | KShiftImm op value shift =>
      let!? value := use_value value in
      one (ins1 (shift_imm_op op shift) [value])
  | KOverflowingBinOp op lhs rhs =>
      let!? lhs := use_value lhs in
      let!? rhs := use_value rhs in
      let! (value, overflow) := ins2 (overflowing_op op) [lhs; rhs] in
      lower_ok [value; overflow]
  | KLoadHost ty base_ptr offset can_move =>
      let! alias := pointee base_ptr in
      let!? v := lower_host_load ty base_ptr alias offset can_move in
      lower_ok [v]
  | KStoreHost base_ptr offset value can_move =>
      let! alias := pointee base_ptr in
      let!? value := use_value value in
      let!? _ := lower_host_store base_ptr alias offset value can_move in
      lower_ok []
  | KLoadStackPtr slot =>
      let!? slot := use_stack_slot slot in
      one (ins1 (Ins.stack_addr ptr_ty slot 0) [])
  | KPtrAdd base_ptr offset elem_size =>
      let!? out_ptr := ptr_add base_ptr offset elem_size in
      lower_ok [out_ptr]
  | KPtrEq ptr_a ptr_b =>
      let!? ptr_a := use_value ptr_a in
      let!? ptr_b := use_value ptr_b in
      let!? _ := assert_value_ty ptr_a ptr_ty in
      let!? _ := assert_value_ty ptr_b ptr_ty in
      one (ins1 (Ins.icmp CcEqual) [ptr_a; ptr_b])
  | KHasTag ptr tag_bits =>
      let!? ptr := use_value ptr in
      one (ins1 (Ins.band_imm tag_bits) [ptr])
  | KUntag ptr tag_bits =>
      let!? ptr := use_value ptr in
      one (ins1 (Ins.band_imm (Z.lnot tag_bits)) [ptr])
  | KHostCallback func signature args => lower_callback func signature args
  | KVMLoadRaw aligned_page_ptr page_offset width _ =>
      let!? ptr := ptr_byte_add aligned_page_ptr page_offset in
      let! flags := guest_memory_flags RVirtualMemory in
      one (ins1 (Ins.atomic_load (clif_int_ty width) flags) [ptr])
  | KVMStoreRaw aligned_page_ptr page_offset value _ =>
      let!? value := use_value value in
      let!? ptr := ptr_byte_add aligned_page_ptr page_offset in
      let! flags := guest_memory_flags RVirtualMemory in
      ins0 (Ins.atomic_store flags) [value; ptr] ;;!
      lower_ok []
  | KLoadHaltReason =>
      let!? ptr := use_value ARG_HALT_REASON_PTR in
      let! flags := host_memory_flags false RHaltReason in
      one (ins1 (Ins.atomic_load I32 flags) [ptr])
  | KTakeHaltReason => lower_take_halt_reason
  | KSetPageDirtyFlag insn_dirty => lower_set_page_dirty insn_dirty
  | KSafepoint => lower_ok []
  end.

(** The values of a statement's outputs. *)
Fixpoint insert_outputs (values : list ClifValue) (outputs : list SSAValue) : M unit :=
  match values, outputs with
  | value :: values, ssa_value :: outputs =>
      on_values (map_insert_unique ssa_value value) ;;! insert_outputs values outputs
  | _, _ => sm_ret tt
  end.

Definition lower_stmt (stmt : StmtData) : Lower unit :=
  let!? values := lower_rvalue (rvalue stmt) in
  let!? _ := ensure (length (outputs stmt) =? length values)%nat MismatchedValues in
  insert_outputs values (outputs stmt) ;;!
  lower_ok tt.

(** ** Terminators *)

(** Every type there is here is an integer type. *)
Definition is_int_ty (ty : ClifType) : bool := match ty with I8 | I16 | I32 | I64 => true end.

Definition int_nonzero (value : ClifValue) : Lower ClifValue :=
  let! ty := value_ty value in
  let!? _ := ensure (is_int_ty ty) ConditionNotInteger in
  let! v := ins1 (Ins.icmp_imm CcNotEqual 0) [value] in
  lower_ok v.

Definition lower_terminator (t : Terminator) : Lower unit :=
  match kind t with
  | TkReturn =>
      let! zero := ins1 (Ins.iconst I32 0) [] in
      on_builder (ins_term (return_ [zero])) ;;! lower_ok tt
  | TkReturnCode halt_reason =>
      let!? halt_reason := use_value halt_reason in
      let!? _ := assert_value_ty halt_reason I32 in
      on_builder (ins_term (return_ [halt_reason])) ;;! lower_ok tt
  | TkBr =>
      match targets t with
      | target :: _ =>
          let!? (target, args) := clif_jump target in
          on_builder (ins_term (jump target args)) ;;! lower_ok tt
      | [] => sm_panic
      end
  | TkBrZ cond =>
      match targets t with
      | [zero; non_zero] =>
          let!? cond := use_value cond in
          let!? cond_is_nonzero := int_nonzero cond in
          let!? (non_zero, nz_args) := clif_jump non_zero in
          let!? (zero, z_args) := clif_jump zero in
          on_builder (ins_term (brif cond_is_nonzero non_zero nz_args zero z_args)) ;;! lower_ok tt
      | _ => sm_panic
      end
  end.

(** ** The function *)

Fixpoint lower_stmts (l : list Stmt) : Lower unit :=
  match l with
  | [] => lower_ok tt
  | stmt :: l =>
      let! data := sm_of_option (arena_get (exec_stmts exec_ir) stmt) in
      let!? _ := lower_stmt data in
      lower_stmts l
  end.

Definition lower_block (ir_block : Block) : Lower unit :=
  let!? block := clif_block ir_block in
  on_builder (switch_to_block block) ;;!
  let! data := sm_of_option (arena_get (exec_blocks exec_ir) ir_block) in
  let!? _ := lower_stmts (stmts data) in
  lower_terminator (terminator data).

Fixpoint lower_block_list (l : list Block) : Lower unit :=
  match l with
  | [] => lower_ok tt
  | ir_block :: l => let!? _ := lower_block ir_block in lower_block_list l
  end.
Definition lower_blocks : Lower unit := lower_block_list (block_compile_order exec_ir).

(** One stack slot.  Its alignment is a [u8]; debug builds assert that it is a
    power of two. *)
Definition new_stack_slot (ir_stack_slot : StackSlot) (data : StackSlotData) : M unit :=
  sm_assert (0 <? slot_align data) ;;!
  sm_assert (slot_align data =? 2 ^ Z.log2 (slot_align data)) ;;!
  let! slot := on_builder (create_sized_stack_slot (slot_size data) (Z.log2 (slot_align data))) in
  fun l => match map_insert_unique ir_stack_slot slot (lw_stack_slots l) with
    | Some (_, m) => Some (tt, set_slots m l)
    | None => None
    end.

(** One parameter of a block. *)
Definition new_param (clif_block : ClifBlock) (param : SSAValue) : M unit :=
  let! ty := sm_of_option (arena_get (exec_ssa_values exec_ir) param) in
  let! clif_param := on_builder (append_block_param clif_block (ir_ty_to_clif_ty ptr_ty ty)) in
  sm_modify (fun l => set_values (snd (map_insert param clif_param (lw_values l))) l).

Definition new_block (ir_block : Block) : M unit :=
  let! block := on_builder create_clif_block in
  let! block_ref := sm_of_option (arena_get (exec_blocks exec_ir) ir_block) in
  sm_for (parameters block_ref) (new_param block) ;;!
  (if is_cold block_ref then on_builder (set_cold_block block) else sm_ret tt) ;;!
  fun l => match map_insert_unique ir_block block (lw_blocks l) with
    | Some (_, m) => Some (tt, set_blocks m l)
    | None => None
    end.

(** The entry's parameters are the function's arguments, in the order of the ABI. *)
Definition assert_entry_args (entry_block : ClifBlock) : Lower unit := fun l =>
  match block_params (lw_builder l) entry_block with
  | None => None
  | Some params =>
      (let!? _ := ensure (length args =? length params)%nat EntryParams in
       sm_for (zip args params) (fun '(arg, param) =>
         sm_assert (bool_decide (map_get (lw_values l) (as_ssa_value arg) = Some param))) ;;!
       lower_ok tt) l
  end.

Definition new_lowering (f : F) : FunctionLowering :=
  mkLowering f (replicate REGION_COUNT None)
    (map_with_capacity (length (exec_stack_slots exec_ir)))
    (map_with_capacity (length (exec_ssa_values exec_ir)))
    (map_with_capacity (length (exec_blocks exec_ir)))
    (map_with_capacity (length (exec_signatures exec_ir))).

(** [FunctionLowering::new], from the empty maps on. *)
Definition lowering_new : Lower unit :=
  let! slots := sm_of_option (arena_keys (exec_stack_slots exec_ir)) in
  sm_for (zip slots (exec_stack_slots exec_ir)) (fun '(slot, data) => new_stack_slot slot data) ;;!
  sm_for (block_compile_order exec_ir) new_block ;;!
  let! entry := (fun l => Some (map_get (lw_blocks l) ENTRYPOINT, l)) in
  let!? entry_block := context entry MissingEntryBlock in
  assert_entry_args entry_block.

(** [FunctionLowering::new] and [lower_blocks] on a fresh builder; [finish] leaves
    the function built. *)
Definition lower_function (f : F) : option (Result unit LowerError * FunctionLowering) :=
  (let!? _ := lowering_new in lower_blocks) (new_lowering f).

(** [exec_block_signature]. *)
Definition exec_block_signature : ClifSignature :=
  mkClifSignature ((fun a => ir_ty_to_clif_ty ptr_ty (arg_ty a)) <$> args) [I32].
End Lower.
