(* ===== verification/CraneliftHost.v ===== *)
(** * Compiled code on its host
    ([jit-compiler-core/src/compiler/cranelift_backend.rs], the assumptions of the
    translation)

    What compiled code relies on: the machine code computes what Cranelift
    documents, and the objects it points at (the register file, the TLB, guest
    pages, the halt word, scratch slots) lie at their addresses, so that an access
    with an address is an access to the object there. *)

From S2P Require Import Prelude Convert HaltReason MemTypes Fault Memops ObjectQueue Fabric PageTable IoMMU.
From S2P Require Import ExclusiveMonitor LookupCache MemAccess FfiSupport Arena Ir IrSem IrEmit IrLogic IrTyping.
From S2P Require Import BackEnd.
From S2P Require Import Tarjan SccGraph HaltCheck HaltSplit HaltInv HaltSound BlockOrder Clif CraneliftLower.
Local Open Scope Z_scope.
Local Open Scope emu_scope.

(** ** Addresses *)

(** Where things are.  A slot of the function's frame has an address of its own;
    [address (PStack slot)] is where the IR's slot is. *)
Class Host (Error : Type) := {
  address : HostPtr -> Z;
  slot_address : ClifSlot -> Z;
  helper_address : HostCallback -> Z;
  #[global] host_exec :: Execution (World (Error := Error));
}.

(** A value of the IR in a register. *)
Definition rep {Error} `{Host Error} (x : Value) : CVal :=
  match x with
  | VInt w z => CInt (clif_int_ty w) z
  | VBool b => of_bool b
  | VPtr p => CInt I64 (address p)
  end.

(** Flags of an access to the host's own data in a region. *)
Record flags_for (fn : ClifFunc) (flags : MemFlagsData) (r : AliasRegion) : Prop := {
  ff_native : flag_little flags = false;
  ff_alias : exists a, flag_alias flags = Some a /\ clif_aliases fn !! a = Some (Z.of_nat (region_index r));
  ff_readonly : flag_readonly flags = true -> r = RReadOnly;
}.
(** Flags of an access to guest memory. *)
Record guest_flags (fn : ClifFunc) (flags : MemFlagsData) : Prop := {
  gf_little : flag_little flags = true;
  gf_alias : exists a, flag_alias flags = Some a /\
    clif_aliases fn !! a = Some (Z.of_nat (region_index RVirtualMemory));
  gf_readonly : flag_readonly flags = false;
}.

Class HostLaws {Error} (e : Endian) (ly : Layout) (io_mmu : IoMMU) `{Host Error} : Prop := {
  (* pointers *)
  address_page t : address (PPage t) = t;
  address_ident i : address (PIdent i) = MaybeIdent.as_ptr i;
  address_tlb off : address (PTlb off) = wrap USIZE_BITS (address (PTlb 0) + off);
  helper_fits func : fits USIZE_BITS (helper_address func);
  (* instructions that only compute *)
  host_compute fn op args res s : compute op args = Some res -> exec_op fn op args s = Some (res, s);
  host_stack_addr fn slot d s : clif_slots fn !! slot = Some d ->
    exec_op fn (Ins.stack_addr I64 slot 0) [] s = Some ([CInt I64 (slot_address slot)], s);
  (* accesses to the host's objects *)
  host_load fn flags ty p off v s s' : flags_for fn flags (region_of p) -> 0 <= off <= I32_MAX ->
    load_host e ly ty p off s = Some (v, s') ->
    exec_op fn (Ins.load (load_ty I64 ty) flags off) [CInt I64 (address p)] s = Some ([rep v], s');
  host_store fn flags p off v s s' : flags_for fn flags (region_of p) -> flag_readonly flags = false ->
    0 <= off <= I32_MAX -> store_host e ly p off v s = Some (tt, s') ->
    exec_op fn (Ins.store flags off) [rep v; CInt I64 (address p)] s = Some ([], s');
  host_load_halt fn flags s : flags_for fn flags RHaltReason ->
    exec_op fn (Ins.atomic_load I32 flags) [CInt I64 (address PHaltReason)] s = Some ([CInt I32 (halt_word s)], s);
  host_swap_halt fn flags z s : flags_for fn flags RHaltReason ->
    exec_op fn (Ins.atomic_rmw I32 flags RmwXchg) [CInt I64 (address PHaltReason); CInt I32 z] s =
      Some ([CInt I32 (halt_word s)], set_halt_word z s);
  host_set_dirty fn flags id s s' : flags_for fn flags RPageFlags ->
    on_fabric (set_page_dirty_flag id) s = Some (tt, s') ->
    exists old, exec_op fn (Ins.atomic_rmw I8 flags RmwOr)
      [CInt I64 (address (PFlags (Some id))); CInt I8 PageDirty.IS_DIRTY_FLAG] s = Some ([old], s');
  (* accesses to guest memory *)
  host_vm_load fn flags w a z s s' : guest_flags fn flags ->
    on_fabric (on_mem (load_le_aligned e (width_bytes w) a)) s = Some (z, s') ->
    exec_op fn (Ins.atomic_load (clif_int_ty w) flags) [CInt I64 a] s = Some ([CInt (clif_int_ty w) z], s');
  host_vm_store fn flags w a z s s' : guest_flags fn flags ->
    on_fabric (on_mem (store_le_aligned e (width_bytes w) a z)) s = Some (tt, s') ->
    exec_op fn (Ins.atomic_store flags) [CInt (clif_int_ty w) z; CInt I64 a] s = Some ([], s');
  (* the runtime's helpers *)
  host_call fn sig d func i vs xs s s' :
    callback_fits func i -> arena_get initial_signatures i = Some d -> clif_sigs fn !! sig = Some (clif_signature I64 d) ->
    call_helper e io_mmu func vs s = Some (xs, s') ->
    exec_op fn (Ins.call_indirect sig) (CInt I64 (helper_address func) :: (rep <$> vs)) s = Some (rep <$> xs, s');
}.

(** ** Immediates *)

Lemma ty_bits_int w : ty_bits (clif_int_ty w) = bits w.
Proof. by destruct w. Qed.

(** The address of an element of the TLB. *)
Lemma address_tlb_add {Error} {e : Endian} {ly : Layout} {io_mmu : IoMMU} `{H : Host Error} `{!HostLaws e ly io_mmu} off o :
  address (PTlb (wrap USIZE_BITS (off + o))) = wrap USIZE_BITS (address (PTlb off) + o).
Proof.
  rewrite address_tlb, (address_tlb (ly := ly) off). rewrite wrap_add_r, wrap_add_l. f_equal. lia.
Qed.

