(* ===== verification/CraneliftSample.v ===== *)
(** * A builder and a machine
    ([jit-compiler-core/src/compiler/cranelift_backend.rs])

    A function builder that keeps Cranelift's contract and a host that keeps the
    contract of the machine, to show that both can be kept, and a function
    translated and run. *)

From S2P Require Import Prelude Convert HaltReason MemTypes Fault Memops ObjectQueue Fabric PageTable IoMMU.
From S2P Require Import ExclusiveMonitor LookupCache MemAccess FfiSupport Arena Ir IrSem IrEmit IrLogic IrArith.
From S2P Require Import IrTyping IrBuilt IrBuilder IrRun.
From S2P Require Import Tarjan SccGraph HaltCheck HaltSplit HaltInv HaltSound BlockOrder.
From S2P Require Import BackEnd.
From S2P Require Import Clif CraneliftLower CraneliftHost.
Local Open Scope Z_scope.
Local Open Scope emu_scope.

(** ** A builder *)

(** The function and the current block. *)
Record ListBuilder := mkListBuilder { lb_func : ClifFunc; lb_current : option ClifBlock }.

Definition grow {A} (a : A) (f : ClifFunc) (s : ListBuilder) : option (A * ListBuilder) := Some (a, mkListBuilder f (lb_current s)).

Definition list_ins (op : Opcode) (cargs : list ClifValue) : SM ListBuilder (list ClifValue) := fun s =>
  let f := lb_func s in
  b ← lb_current s;
  d ← clif_blocks f !! b;
  tys ← mapM (fun v => value_types f !! v) cargs;
  rtys ← result_types f op tys;
  let rs := fresh_list (length rtys) (dom (value_types f)) in
  match cb_term d with None => grow rs (Fn.add_inst b (mkInst op cargs rs) rtys f) s | Some _ => None end.

#[export] Instance list_builder : FunctionBuilder ListBuilder := {
  clif_func := lb_func;
  clif_current := lb_current;
  create_sized_stack_slot size shift := fun s =>
    let slot := fresh (dom (clif_slots (lb_func s))) in grow slot (Fn.add_slot slot (mkClifSlot size shift) (lb_func s)) s;
  create_clif_block := fun s =>
    let b := fresh (dom (clif_blocks (lb_func s))) in grow b (Fn.add_block b (lb_func s)) s;
  append_block_param b ty := fun s =>
    let v := fresh (dom (value_types (lb_func s))) in grow v (Fn.add_param b v ty (lb_func s)) s;
  set_cold_block b := fun s => grow tt (Fn.set_cold b (lb_func s)) s;
  switch_to_block b := fun s => Some (tt, mkListBuilder (lb_func s) (Some b));
  import_signature d := fun s =>
    let r := fresh (dom (clif_sigs (lb_func s))) in grow r (Fn.add_sig r d (lb_func s)) s;
  insert_alias_region id := fun s =>
    let a := fresh (dom (clif_aliases (lb_func s))) in grow a (Fn.add_alias a id (lb_func s)) s;
  ins := list_ins;
  ins_term t := fun s =>
    b ← lb_current s;
    grow tt (Fn.set_term b t (lb_func s)) s;
}.

Lemma fresh_key {A} (m : gmap positive A) : m !! fresh (dom m) = None.
Proof. apply not_elem_of_dom, is_fresh. Qed.

#[export] Instance list_builder_laws : FunctionBuilderLaws ListBuilder [I32].
Proof.
  split; simpl.
  - intros. do 2 eexists. split_and!; [done|apply fresh_key|done..].
  - intros. do 2 eexists. split_and!; [done|apply fresh_key|done..].
  - intros. do 2 eexists. split_and!; [done|apply fresh_key|done..].
  - intros. eexists. by split_and!.
  - intros. eexists. by split_and!.
  - intros. do 2 eexists. split_and!; [done|apply fresh_key|done..].
  - intros. do 2 eexists. split_and!; [done|apply fresh_key|done..].
  - intros op cargs [f cur] b d tys rtys Hcur Hd Hopen Ht Hr. simpl in *. unfold list_ins. simpl.
    rewrite Hcur. cbn [mbind option_bind]. rewrite Hd. cbn [mbind option_bind].
    assert (mapM (fun v => value_types f !! v) cargs = Some tys) as -> by (by apply mapM_Some).
    cbn [mbind option_bind]. rewrite Hr. cbn [mbind option_bind]. rewrite Hopen. do 2 eexists. split; [done|].
    split_and!; [apply NoDup_fresh_list|apply length_fresh_list| |done|done].
    apply Forall_forall. intros r Hin. apply not_elem_of_dom. by eapply fresh_list_is_fresh.
  - intros t [f cur] b d Hcur Hd Hopen _. simpl in *. rewrite Hcur. cbn. eexists. by split_and!.
Qed.

(** ** A machine *)

Definition sample_address (p : HostPtr) : Z :=
  match p with
  | PExecState => 8 | PExecContext => 16 | PIoMMU => 24 | PHaltReason => 32
  | PTlb off => wrap USIZE_BITS off
  | PIdent i => MaybeIdent.as_ptr i
  | PPage t => t
  | PFlags o => match o with Some id => Zpos id | None => 0 end
  | PStack slot => Zpos slot
  end.

Definition sample_rep (x : Value) : CVal :=
  match x with
  | VInt w z => CInt (clif_int_ty w) z
  | VBool b => of_bool b
  | VPtr p => CInt I64 (sample_address p)
  end.

Definition width_of (ty : ClifType) : IntWidth := match ty with I8 => W8 | I16 => W16 | I32 => W32 | I64 => W64 end.

Definition all_regions : list AliasRegion :=
  [RExecState; RExecContext; RTlb; RHaltReason; RReadOnly; RScratchSpace; RVirtualMemory; RPageFlags].

(** The region the flags of an access name. *)
Definition region_of_flags (fn : ClifFunc) (flags : MemFlagsData) : option AliasRegion :=
  a ← flag_alias flags;
  i ← clif_aliases fn !! a;
  all_regions !! Z.to_nat i.

Definition all_helpers : list HostCallback :=
  [CbLoad W8; CbLoad W16; CbLoad W32; CbLoad W64; CbStore W8; CbStore W16; CbStore W32; CbStore W64;
   CbLdrex W8; CbLdrex W16; CbLdrex W32; CbLdrex W64; CbStrex W8; CbStrex W16; CbStrex W32; CbStrex W64; CbClrex].

Definition width_index (w : IntWidth) : Z := match w with W8 => 0 | W16 => 1 | W32 => 2 | W64 => 3 end.
Definition helper_index (func : HostCallback) : Z :=
  match func with
  | CbLoad w => width_index w | CbStore w => 4 + width_index w
  | CbLdrex w => 8 + width_index w | CbStrex w => 12 + width_index w
  | CbClrex => 16
  end.

(** A helper's arguments, from registers. *)
Definition helper_args (func : HostCallback) (l : list CVal) : option (list Value) :=
  match func, l with
  | (CbLoad _ | CbLdrex _), [_; _; _; CInt _ a; CInt _ slot] =>
      Some [VPtr PIoMMU; VPtr (PTlb 0); VPtr PExecContext; VInt W64 a; VPtr (PStack (Z.to_pos slot))]
  | (CbStore _ | CbStrex _), [_; _; _; CInt _ a; CInt ty z] =>
      Some [VPtr PIoMMU; VPtr (PTlb 0); VPtr PExecContext; VInt W64 a; VInt (width_of ty) z]
  | CbClrex, [_] => Some [VPtr PExecContext]
  | _, _ => None
  end.

Section Machine.
Context {Error : Type} (e : Endian) (ly : Layout) (io_mmu : IoMMU).
Abbreviation World := (@World Error).

(** The types a load of a width may have in the IR. *)
Definition load_types (ty : ClifType) : list LoadType :=
  LInt (width_of ty) ::
  match ty with I64 => [LHostPtr RReadOnly; LHostPtr RVirtualMemory; LHostPtr RPageFlags] | _ => [] end.

Definition first_load (p : HostPtr) (off : Z) (tys : list LoadType) : SM World Value := fun s =>
  foldr (fun ty r => match load_host e ly ty p off s with Some x => Some x | None => r end) None tys.

Definition region_pointer (r : AliasRegion) (a : Z) : option HostPtr :=
  match r with
  | RExecState => Some PExecState | RExecContext => Some PExecContext
  | RTlb => Some (PTlb a) | RScratchSpace => Some (PStack (Z.to_pos a)) | _ => None
  end.

Definition access_pointer (fn : ClifFunc) (flags : MemFlagsData) (a : Z) : option HostPtr :=
  r ← region_of_flags fn flags;
  region_pointer r a.

Definition access (fn : ClifFunc) (op : Opcode) (l : list CVal) : SM World (list CVal) :=
  match op, l with
  | Ins.stack_addr _ slot _, [] => sm_ret [CInt I64 (Zpos slot)]
  | Ins.load ty flags off, [CInt _ a] =>
      let! p := sm_of_option (access_pointer fn flags a) in
      let! v := first_load p off (load_types ty) in
      sm_ret [sample_rep v]
  | Ins.store flags off, [CInt ty z; CInt _ a] =>
      let! p := sm_of_option (access_pointer fn flags a) in
      store_host e ly p off (VInt (width_of ty) z) ;;! sm_ret []
  | Ins.atomic_load ty flags, [CInt _ a] =>
      let! r := sm_of_option (region_of_flags fn flags) in
      match r with
      | RHaltReason => fun s => Some ([CInt I32 (halt_word s)], s)
      | _ => let! z := on_fabric (on_mem (load_le_aligned e (width_bytes (width_of ty)) a)) in sm_ret [CInt ty z]
      end
  | Ins.atomic_store flags, [CInt ty z; CInt _ a] =>
      on_fabric (on_mem (store_le_aligned e (width_bytes (width_of ty)) a z)) ;;! sm_ret []
  | Ins.atomic_rmw _ _ RmwXchg, [_; CInt _ z] => fun s => Some ([CInt I32 (halt_word s)], set_halt_word z s)
  | Ins.atomic_rmw _ _ RmwOr, [CInt _ a; _] => on_fabric (set_page_dirty_flag (Z.to_pos a)) ;;! sm_ret [CInt I8 0]
  | Ins.call_indirect _, CInt _ f :: l =>
      let! func := sm_of_option (all_helpers !! Z.to_nat f) in
      let! vs := sm_of_option (helper_args func l) in
      let! xs := call_helper e io_mmu func vs in
      sm_ret (sample_rep <$> xs)
  | _, _ => sm_panic
  end.

#[local] Instance sample_exec : Execution World := fun fn op l s =>
  match compute op l with Some res => Some (res, s) | None => access fn op l s end.

#[local] Instance sample_host : Host Error := {
  address := sample_address;
  slot_address slot := Zpos slot;
  helper_address := helper_index;
}.

Definition is_access (op : Opcode) : bool :=
  match op with
  | Ins.stack_addr _ _ _ | Ins.load _ _ _ | Ins.store _ _ | Ins.atomic_load _ _ | Ins.atomic_store _
  | Ins.atomic_rmw _ _ _ | Ins.call_indirect _ => true
  | _ => false
  end.

Lemma exec_access fn op l (s : World) : is_access op = true -> exec_op fn op l s = access fn op l s.
Proof.
  intros Ha. assert (compute op l = None) as E; [|unfold exec_op, host_exec; simpl; unfold sample_exec; by rewrite E].
  destruct op; try done; destruct l as [|[] [|[] [|[] [|? ?]]]]; simpl; try done; by case_decide.
Qed.

Lemma flags_region fn flags r : flags_for fn flags r -> region_of_flags fn flags = Some r.
Proof.
  intros [_ (a & Ha & Hi) _]. unfold region_of_flags. rewrite Ha. cbn [mbind option_bind]. rewrite Hi. cbn [mbind option_bind].
  rewrite Nat2Z.id. by destruct r.
Qed.

Lemma guest_region fn flags : guest_flags fn flags -> region_of_flags fn flags = Some RVirtualMemory.
Proof.
  intros [_ (a & Ha & Hi) _]. unfold region_of_flags. rewrite Ha. cbn [mbind option_bind]. by rewrite Hi.
Qed.

Lemma width_of_int w : width_of (clif_int_ty w) = w.
Proof. by destruct w. Qed.

Lemma helper_of_index func : all_helpers !! Z.to_nat (helper_index func) = Some func.
Proof. by destruct func as [[]|[]|[]|[]|]. Qed.
(** A load reads what the IR's load reads. *)
Lemma first_load_host p ty off (s s' : World) v :
  load_host e ly ty p off s = Some (v, s') ->
  exists p', region_pointer (region_of p) (sample_address p) = Some p' /\
    first_load p' off (load_types (load_ty I64 ty)) s = Some (v, s').
Proof.
  intros H. destruct p as [| | | |base|? |? |? |slot]; try by destruct ty.
  - exists PExecState. split; [done|]. destruct ty as [w|]; [|done]. simpl load_ty. unfold first_load, load_types.
    rewrite width_of_int. cbn [foldr]. by rewrite H.
  - exists (PTlb (wrap USIZE_BITS base)). split; [done|].
    assert (forall ty, load_host e ly ty (PTlb (wrap USIZE_BITS base)) off s = load_host e ly ty (PTlb base) off s) as E
      by (intros ty'; simpl; by rewrite wrap_add_l).
    unfold first_load. destruct ty as [w|r].
    + simpl load_ty. unfold load_types. rewrite width_of_int. cbn [foldr]. by rewrite E, H.
    + cbn [load_ty load_types width_of foldr]. rewrite !E. cbn [load_host] in *. unfold read_tlb in *.
      destruct (_ || _); [done|]. destruct (tlb (machine s) !! _); [|done].
      repeat (case_match; simplify_eq/=; try done).
  - exists (PStack slot). split; [done|]. destruct ty as [w|]; [|done]. simpl load_ty. unfold first_load, load_types.
    rewrite width_of_int. cbn [foldr]. by rewrite H.
Qed.

Lemma helper_args_rep func vs (s s' : World) xs :
  call_helper e io_mmu func vs s = Some (xs, s') -> helper_args func (sample_rep <$> vs) = Some vs.
Proof.
  unfold call_helper. intros H. destruct func; repeat (case_match; try done); simpl; rewrite ?width_of_int; done.
Qed.

Lemma store_value p off v (s s' : World) :
  store_host e ly p off v s = Some (tt, s') ->
  region_pointer (region_of p) (sample_address p) = Some p /\ exists w z, v = VInt w z.
Proof.
  destruct p; try done; destruct v as [w z| |]; try done; try (intros _; split; [done|]; by exists w, z).
  all: simpl; unfold write_context, on_machine; intros H; repeat (case_match; try done).
Qed.

#[local] Instance sample_host_laws : HostLaws e ly io_mmu.
Proof.
  split.
  - done.
  - done.
  - intros off. simpl. by rewrite wrap_add_l.
  - intros func. simpl. unfold fits. by destruct func as [[]|[]|[]|[]|].
  - intros fn op l res s H. unfold exec_op, host_exec. simpl. unfold sample_exec. by rewrite H.
  - intros fn slot d s _. by rewrite exec_access.
  - intros fn flags ty p off v s s' Hf _ H. rewrite exec_access by done. apply first_load_host in H as (p' & Hp & Hl).
    simpl. unfold sm_bind, sm_of_option, access_pointer. rewrite (flags_region _ _ _ Hf). cbn [mbind option_bind].
    rewrite Hp, Hl. by destruct v.
  - intros fn flags p off v s s' Hf _ _ H. pose proof (store_value _ _ _ _ _ H) as (Hp & w & z & ->). rewrite exec_access by done.
    simpl. unfold sm_bind, sm_of_option, access_pointer. rewrite (flags_region _ _ _ Hf). cbn [mbind option_bind].
    rewrite Hp, width_of_int, H. done.
  - intros fn flags s Hf. rewrite exec_access by done. simpl. unfold sm_bind, sm_of_option. by rewrite (flags_region _ _ _ Hf).
  - intros fn flags z s _. by rewrite exec_access.
  - intros fn flags id s s' _ H. exists (CInt I8 0). rewrite exec_access by done. simpl. by rewrite (sm_bind_run _ _ _ _ _ H).
  - intros fn flags w a z s s' Hf H. rewrite exec_access by done. simpl. unfold sm_bind, sm_of_option.
    rewrite (guest_region _ _ Hf), width_of_int. by rewrite H.
  - intros fn flags w a z s s' _ H. rewrite exec_access by done. simpl. rewrite width_of_int. by rewrite (sm_bind_run _ _ _ _ _ H).
  - intros fn sig d func i vs xs s s' _ _ _ H. rewrite exec_access by done. change (rep <$> vs) with (sample_rep <$> vs).
    unfold access, helper_address, sample_host, sm_bind, sm_of_option. rewrite helper_of_index.
    pose proof (helper_args_rep _ _ _ _ _ H) as ->. by rewrite H.
Qed.
End Machine.

(** The machine with the sample layout. *)
#[local] Instance demo_host : Host unit := sample_host Little sample_layout sample_mmu.

Lemma demo_host_laws : HostLaws Little sample_layout sample_mmu.
Proof. apply sample_host_laws. Qed.

Definition demo_start : ListBuilder := mkListBuilder Fn.empty None.
