(* ===== verification/CraneliftCode.v ===== *)
(** * The code of a statement
    ([jit-compiler-core/src/compiler/cranelift_backend.rs], [lower_rvalue])

    The instructions the back end emits for each kind of statement, as a relation,
    and that running them does what the statement does. *)

From S2P Require Import Prelude Convert HaltReason MemTypes Fault Memops ObjectQueue Fabric PageTable IoMMU.
From S2P Require Import ExclusiveMonitor LookupCache MemAccess FfiSupport Arena Ir IrSem IrEmit IrLogic IrArith.
From S2P Require Import IrTyping IrBuilt IrBuilder IrRun.
From S2P Require Import Tarjan SccGraph HaltCheck HaltSplit HaltInv HaltSound BlockOrder.
From S2P Require Import BackEnd.
From S2P Require Import Clif CraneliftLower CraneliftHost.
Local Open Scope Z_scope.
Local Open Scope emu_scope.

(** ** What can be translated *)

(** The outputs of [HasTag]: the back end leaves them as the masked pointer, a
    64-bit integer that is zero or not, where the IR has a boolean. *)
Definition tags (ir : ExecIrBuilder) : gset SSAValue :=
  list_to_set (d ← all_stmts ir; match rvalue d with KHasTag _ _ => outputs d | _ => [] end).

(** The operands that are used as values of their type; a condition is only
    compared with zero. *)
Definition value_operands (rv : StmtKind) : list SSAValue :=
  match rv with KSelect _ a b => [a; b] | _ => operands rv end.

Definition plain (ir : ExecIrBuilder) (v : SSAValue) : bool := bool_decide (v ∉ tags ir).

(** No use of the output of [HasTag] but as a condition, no [BitNot] of a boolean,
    no plain access to guest memory, and fields in the range of their Rust types. *)
Definition stmt_lowerable (ir : ExecIrBuilder) (rv : StmtKind) : bool :=
  forallb (plain ir) (value_operands rv) &&
  match rv with
  | KBitNot v => match arena_get (ssa_values ir) v with Some (TInt _) => true | _ => false end
  | KLoadHost _ p offset _ | KStoreHost p offset _ _ => (0 <=? offset) &&
      match arena_get (ssa_values ir) p with Some (THostPtr RVirtualMemory) => false | _ => true end
  | KHasTag _ m | KUntag _ m => bool_decide (fits 8 m)
  | KPtrAdd _ _ size => 0 <? size
  | _ => true
  end.

(** ** The code *)

Definition inst1 (op : Opcode) (args : list ClifValue) (r : ClifValue) : Inst := mkInst op args [r].

Section Code.
Context (ir : ExecIrBuilder) (helper_address : HostCallback -> Z) (fn : ClifFunc).
(** The values and slots lowered so far. *)
Context (V : SSAValue -> option ClifValue) (S : StackSlot -> option ClifSlot).

Definition scaled (size : Z) (o : ClifValue) (code : list Inst) (o' : ClifValue) : Prop :=
  if decide (size = 1) then code = [] /\ o' = o else code = [inst1 (Ins.imul_imm size) [o] o'].

Definition overflow_inst (op : ShiftOp) (w : IntWidth) (value r : ClifValue) : Inst :=
  match op with
  | SignExtendShr => inst1 (Ins.sshr_imm (bits w - 1)) [value] r
  | ZeroExtendShr | Shl => inst1 (Ins.iconst (clif_int_ty w) 0) [] r
  end.

(** One instruction from the operands to the output. *)
Definition simple (op : Opcode) (vs : list SSAValue) (code : list Inst) (outs : list ClifValue) : Prop :=
  exists args r, Forall2 (fun v c => V v = Some c) vs args /\ code = [inst1 op args r] /\ outs = [r].

Definition stmt_code (rv : StmtKind) (code : list Inst) (outs : list ClifValue) : Prop :=
  match rv with
  | KIConst c => simple (Ins.iconst (clif_int_ty (iwidth c)) (cast_signed (ibits c))) [] code outs
  | KArithBinOp op a b => simple (arith_op op) [a; b] code outs
  | KIntNeg a => simple Ins.ineg [a] code outs
  | KIntCmp cmp a b => simple (Ins.icmp (convert_to_intcc cmp)) [a; b] code outs
  | KIntCmpImm cmp a imm => simple (Ins.icmp_imm (convert_to_intcc cmp) (cast_signed imm)) [a] code outs
  | KSelect c a b => simple Ins.select [c; a; b] code outs
  | KBitwise op a b => simple (bitwise_op op) [a; b] code outs
  | KBitwiseImm op a imm => simple (bitwise_imm_op op (cast_signed imm)) [a] code outs
  | KBitNot a => simple Ins.bnot [a] code outs
  | KShift op a n => simple (shift_op op) [a; n] code outs
  | KShiftImm op a n => simple (shift_imm_op op n) [a] code outs
  | KPtrEq a b => simple (Ins.icmp CcEqual) [a; b] code outs
  | KHasTag a m => simple (Ins.band_imm m) [a] code outs
  | KUntag a m => simple (Ins.band_imm (Z.lnot m)) [a] code outs
  | KShiftUnbounded op a n => exists w ca cn in_range shifted overflow r,
      vty ir a (TInt w) /\ V a = Some ca /\ V n = Some cn /\
      code = [inst1 (Ins.icmp_imm CcUnsignedLessThan (bits w)) [cn] in_range;
              inst1 (shift_op op) [ca; cn] shifted;
              overflow_inst op w ca overflow;
              inst1 Ins.select [in_range; shifted; overflow] r] /\
      outs = [r]
  | KOverflowingBinOp op a b => exists ca cb r o, V a = Some ca /\ V b = Some cb /\
      code = [mkInst (overflowing_op op) [ca; cb] [r; o]] /\ outs = [r; o]
  | KLoadHost ty p offset _ => exists region flags, vty ir p (THostPtr region) /\ flags_for fn flags region /\
      offset <= I32_MAX /\ simple (Ins.load (load_ty I64 ty) flags offset) [p] code outs
  | KStoreHost p offset v _ => exists region flags cv cp, vty ir p (THostPtr region) /\ flags_for fn flags region /\
      offset <= I32_MAX /\ flag_readonly flags = bool_decide (region = RReadOnly) /\ V v = Some cv /\ V p = Some cp /\
      code = [mkInst (Ins.store flags offset) [cv; cp] []] /\ outs = []
  | KLoadStackPtr slot => exists cs r, S slot = Some cs /\ code = [inst1 (Ins.stack_addr I64 cs 0) [] r] /\ outs = [r]
  | KPtrAdd p o size => exists cp co scale co' r, V p = Some cp /\ V o = Some co /\ scaled size co scale co' /\
      size <= I64_MAX /\ code = scale ++ [inst1 Ins.iadd [cp; co'] r] /\ outs = [r]
  | KHostCallback func signature vs => exists ref d args f results,
      arena_get initial_signatures signature = Some d /\ clif_sigs fn !! ref = Some (clif_signature I64 d) /\
      Forall2 (fun v c => V v = Some c) vs args /\
      code = [inst1 (Ins.iconst I64 (cast_signed (helper_address func))) [] f;
              mkInst (Ins.call_indirect ref) (f :: args) results] /\
      length results = length (sig_returns (clif_signature I64 d)) /\ outs = results
  | KVMLoadRaw p o width _ => exists cp co a flags r, V p = Some cp /\ V o = Some co /\ guest_flags fn flags /\
      code = [inst1 Ins.iadd [cp; co] a; inst1 (Ins.atomic_load (clif_int_ty width) flags) [a] r] /\ outs = [r]
  | KVMStoreRaw p o v _ => exists cp co cv a flags, V p = Some cp /\ V o = Some co /\ V v = Some cv /\
      guest_flags fn flags /\
      code = [inst1 Ins.iadd [cp; co] a; mkInst (Ins.atomic_store flags) [cv; a] []] /\ outs = []
  | KLoadHaltReason => exists flags, flags_for fn flags RHaltReason /\
      simple (Ins.atomic_load I32 flags) [ARG_HALT_REASON_PTR] code outs
  | KTakeHaltReason => exists cp zero flags r, V ARG_HALT_REASON_PTR = Some cp /\ flags_for fn flags RHaltReason /\
      code = [inst1 (Ins.iconst I32 (cast_signed 0)) [] zero;
              inst1 (Ins.atomic_rmw I32 flags RmwXchg) [cp; zero] r] /\ outs = [r]
  | KSetPageDirtyFlag p => exists cp bit flags old, V p = Some cp /\ flags_for fn flags RPageFlags /\
      code = [inst1 (Ins.iconst I8 (cast_signed PageDirty.IS_DIRTY_FLAG)) [] bit;
              inst1 (Ins.atomic_rmw I8 flags RmwOr) [cp; bit] old] /\ outs = []
  | KSafepoint => code = [] /\ outs = []
  end.
End Code.

Definition results (code : list Inst) : list ClifValue := code ≫= inst_results.

(** ** Running it *)

(** What a value of the IR is in a register. *)
Definition truthy (x : Value) (c : CVal) : Prop :=
  match x with VBool b => cty c = I64 /\ (cbits c =? 0) = negb b | _ => False end.

Definition models {Error : Type} `{!Host Error} (ir : ExecIrBuilder) (v : SSAValue) (x : Value) (c : CVal) : Prop :=
  if plain ir v then c = rep x else truthy x c.

Definition env_models {Error : Type} `{!Host Error} (ir : ExecIrBuilder) (V : SSAValue -> option ClifValue) (ρ : Env) (env : CEnv) : Prop :=
  forall v x cv, ρ !! v = Some x -> V v = Some cv -> exists c, env !! cv = Some c /\ models ir v x c.

(** What the code leaves for the statement's outputs. *)
Definition output_models {Error : Type} `{!Host Error} (rv : StmtKind) (x : Value) (c : CVal) : Prop :=
  match rv with KHasTag _ _ => truthy x c | _ => c = rep x end.

Section Runs.
Context {Error : Type} {e : Endian} {ly : Layout} {io_mmu : IoMMU} `{!Host Error} `{!HostLaws e ly io_mmu}.
Context (fn : ClifFunc).
Abbreviation World := (@World Error).

Lemma write_one r c (env : CEnv) : write_values [r] [c] env = Some (<[r := c]> env).
Proof. unfold write_values. simpl. f_equal. by rewrite insert_empty, insert_union_singleton_l. Qed.

Lemma write_none (env : CEnv) : write_values [] [] env = Some env.
Proof. unfold write_values. simpl. by rewrite map_empty_union. Qed.

Lemma exec_one op args r xs c (env : CEnv) (s s' : World) :
  read_values env args = Some xs -> exec_op fn op xs s = Some ([c], s') ->
  exec_inst fn (inst1 op args r) env s = Some (<[r := c]> env, s').
Proof.
  intros Hr Hx. unfold exec_inst, sm_bind, sm_of_option. simpl. rewrite Hr, Hx. by rewrite write_one.
Qed.

Lemma exec_none op args xs (env : CEnv) (s s' : World) :
  read_values env args = Some xs -> exec_op fn op xs s = Some ([], s') ->
  exec_inst fn (mkInst op args []) env s = Some (env, s').
Proof.
  intros Hr Hx. unfold exec_inst, sm_bind, sm_of_option. simpl. rewrite Hr, Hx. by rewrite write_none.
Qed.

Lemma exec_two op args r r' xs c c' (env : CEnv) (s s' : World) :
  read_values env args = Some xs -> exec_op fn op xs s = Some ([c; c'], s') ->
  exec_inst fn (mkInst op args [r; r']) env s = Some (<[r := c]> (<[r' := c']> env), s').
Proof.
  intros Hr Hx. unfold exec_inst, sm_bind, sm_of_option. simpl. rewrite Hr, Hx. unfold write_values. simpl.
  by rewrite insert_empty, <- insert_union_l, <- insert_union_singleton_l.
Qed.

Lemma read_cons v vs x xs (env : CEnv) :
  env !! v = Some x -> read_values env vs = Some xs -> read_values env (v :: vs) = Some (x :: xs).
Proof. unfold read_values. simpl. by intros -> ->. Qed.

Lemma read_insert v x vs (env : CEnv) : v ∉ vs -> read_values (<[v := x]> env) vs = read_values env vs.
Proof.
  induction vs as [|u vs IH]; intros Hv; [done|]. apply not_elem_of_cons in Hv as [Hu Hv]. unfold read_values in *. simpl.
  by rewrite lookup_insert_ne, IH.
Qed.

Lemma exec_code_cons i code env env1 env2 (s s1 s2 : World) :
  exec_inst fn i env s = Some (env1, s1) -> exec_code fn code env1 s1 = Some (env2, s2) ->
  exec_code fn (i :: code) env s = Some (env2, s2).
Proof. intros H1 H2. simpl. by rewrite (sm_bind_run _ _ _ _ _ H1). Qed.

(** What running the code of a statement comes to. *)
Definition runs (rv : StmtKind) (code : list Inst) (outs : list ClifValue) (xs : list Value) (env : CEnv) (s s' : World) : Prop :=
  exists env', exec_code fn code env s = Some (env', s') /\
    (forall u, u ∉ results code -> env' !! u = env !! u) /\
    Forall2 (fun o x => exists c, env' !! o = Some c /\ output_models rv x c) outs xs.

(** Code of one instruction. *)
Lemma runs_simple rv op args r xs c x (env : CEnv) (s s' : World) :
  read_values env args = Some xs -> exec_op fn op xs s = Some ([c], s') -> output_models rv x c ->
  runs rv [inst1 op args r] [r] [x] env s s'.
Proof.
  intros Hr Hx Hc. exists (<[r := c]> env). split.
  { eapply exec_code_cons; [by eapply exec_one|done]. }
  split.
  - intros u Hu. simpl in Hu. rewrite lookup_insert_ne; [done|]. intros <-. apply Hu. by left.
  - constructor; [|constructor]. exists c. by rewrite lookup_insert_eq.
Qed.

Section Stmt.
Context (ir : ExecIrBuilder) (V : SSAValue -> option ClifValue) (S : StackSlot -> option ClifSlot).
Context (Hsig : signatures ir = initial_signatures).
Context (Hframe : forall slot cs, S slot = Some cs -> slot_address cs = address (PStack slot) /\ is_Some (clif_slots fn !! cs)).
Context (ρ : Env) (env : CEnv) (Hty : env_typed ir ρ) (Henv : env_models ir V ρ env).

Lemma operand v x cv : plain ir v = true -> ρ !! v = Some x -> V v = Some cv -> env !! cv = Some (rep x).
Proof. intros Hp Hx Hc. destruct (Henv _ _ _ Hx Hc) as (c & ? & Hm). unfold models in Hm. rewrite Hp in Hm. by subst. Qed.

(** The operands of an instruction, read. *)
Lemma read_operands vs cs xs :
  forallb (plain ir) vs = true -> Forall2 (fun v c => V v = Some c) vs cs -> mapM (fun v => ρ !! v) vs = Some xs ->
  read_values env cs = Some (rep <$> xs).
Proof.
  intros Hp Hc Hx. apply mapM_Some in Hx. revert cs Hc Hp. induction Hx as [|v x vs xs Hv _ IH]; intros cs Hc Hp.
  { by apply Forall2_nil_inv_l in Hc as ->. }
  apply Forall2_cons_inv_l in Hc as (c & cs' & Hc & Hcs & ->). simpl in Hp. apply andb_true_iff in Hp as [Hp1 Hp2].
  simpl. apply read_cons; [by eapply operand|by apply IH].
Qed.

(** A condition, plain or a tag. *)
Lemma condition v b cv : ρ !! v = Some (VBool b) -> V v = Some cv ->
  exists ty z, env !! cv = Some (CInt ty z) /\ (z =? 0) = negb b.
Proof.
  intros Hx Hc. destruct (Henv _ _ _ Hx Hc) as ([ty z] & Hl & Hm). exists ty, z. split; [done|].
  unfold models in Hm. destruct (plain ir v); [|by destruct Hm]. injection Hm as -> ->. by destruct b.
Qed.

(** One instruction that reads the operands. *)
Lemma simple_runs rv op vs ys c x code outs (s s' : World) :
  forallb (plain ir) vs = true -> mapM (fun v => ρ !! v) vs = Some ys -> simple V op vs code outs ->
  exec_op fn op (rep <$> ys) s = Some ([c], s') -> output_models rv x c -> runs rv code outs [x] env s s'.
Proof.
  intros Hp Hy (args & r & Ha & -> & ->) Hx Ho. eapply runs_simple; [|exact Hx|done]. by eapply read_operands.
Qed.

Lemma pure_runs rv op vs ys c x code outs (s : World) :
  forallb (plain ir) vs = true -> mapM (fun v => ρ !! v) vs = Some ys -> simple V op vs code outs ->
  compute op (rep <$> ys) = Some [c] -> output_models rv x c -> runs rv code outs [x] env s s.
Proof. intros Hp Hy Hs Hx Ho. eapply simple_runs; [done..| |done]. by apply host_compute. Qed.

Lemma clif_int_ty_eq (w w' : IntWidth) : w = w' -> clif_int_ty w = clif_int_ty w'.
Proof. by intros ->. Qed.

Ltac lookups := simpl; repeat match goal with H : ρ !! _ = Some _ |- _ => rewrite H end; reflexivity.

Ltac read_them Hp :=
  eapply read_operands; [|repeat (constructor; [eassumption|]); constructor|]; [exact Hp|lookups].

Lemma compute_cmp cmp w a b :
  cc_holds w (convert_to_intcc cmp) a b = eval_cmp w cmp a b.
Proof. by destruct cmp. Qed.

Lemma compute_binary op w a b z :
  eval_arith (bits w) op a b = Some z ->
  compute (arith_op op) [CInt (clif_int_ty w) a; CInt (clif_int_ty w) b] = Some [CInt (clif_int_ty w) z].
Proof. intros E. destruct op; simpl in *; rewrite decide_True, ?ty_bits_int by done; unfold udiv_bits, sdiv_bits; by rewrite ?E; simplify_eq. Qed.

Lemma compute_bitwise op w a b :
  compute (bitwise_op op) [CInt (clif_int_ty w) a; CInt (clif_int_ty w) b] = Some [CInt (clif_int_ty w) (eval_bitwise op a b)].
Proof. destruct op; simpl; by rewrite decide_True. Qed.

Lemma compute_bitwise_bool op a b :
  compute (bitwise_op op) [of_bool a; of_bool b] = Some [of_bool (eval_bitwise_bool op a b)].
Proof. by destruct op, a, b. Qed.

Lemma compute_bitwise_imm op w a b : fits (bits w) b ->
  compute (bitwise_imm_op op (cast_signed b)) [CInt (clif_int_ty w) a] = Some [CInt (clif_int_ty w) (eval_bitwise op a b)].
Proof.
  intros Hb. pose proof (bits_range w). destruct op; simpl; rewrite ty_bits_int, wrap_cast_signed; done || lia.
Qed.

Lemma compute_shift op w ty a n :
  compute (shift_op op) [CInt (clif_int_ty w) a; CInt ty n] =
    Some [CInt (clif_int_ty w) (eval_shift (bits w) op a (n mod bits w))].
Proof. destruct op; simpl; by rewrite ty_bits_int. Qed.

Lemma compute_shift_imm op w a n : 0 <= n < bits w ->
  compute (shift_imm_op op n) [CInt (clif_int_ty w) a] = Some [CInt (clif_int_ty w) (eval_shift (bits w) op a n)].
Proof. intros Hn. destruct op; simpl; by rewrite ty_bits_int, Z.mod_small. Qed.

Lemma compute_select ty z x y : compute Ins.select [CInt ty z; x; y] = Some [if z =? 0 then y else x].
Proof. by destruct x. Qed.

Lemma compute_overflowing op w a b z o : eval_overflowing (bits w) op a b = (z, o) ->
  compute (overflowing_op op) [CInt (clif_int_ty w) a; CInt (clif_int_ty w) b] = Some [CInt (clif_int_ty w) z; of_bool o].
Proof. destruct op; simpl; rewrite decide_True, ty_bits_int by done; by intros [= <- <-]. Qed.

Ltac typed_value := 
  repeat match goal with
  | H : exists _, _ |- _ => destruct H
  | H : _ /\ _ |- _ => destruct H
  end;
  repeat match goal with
  | H : ρ !! ?v = Some _, H' : vty _ ?v _ |- _ => pose proof (shape_of _ _ _ _ _ Hty H H'); clear H'
  end; simplify_eq/=.

(** Statements that only compute, in one instruction. *)
Definition is_simple (rv : StmtKind) : bool :=
  match rv with
  | KIConst _ | KArithBinOp _ _ _ | KIntNeg _ | KIntCmp _ _ _ | KIntCmpImm _ _ _ | KBitwise _ _ _
  | KBitwiseImm _ _ _ | KBitNot _ | KShift _ _ _ | KShiftImm _ _ _ | KPtrEq _ _ | KHasTag _ _ | KUntag _ _ => true
  | _ => false
  end.

Lemma simple_stmt_runs rv code outs xs (s s' : World) :
  is_simple rv = true -> stmt_typed ir rv -> stmt_lowerable ir rv = true ->
  stmt_code ir helper_address fn V S rv code outs ->
  eval_stmt e ly io_mmu ρ rv s = Some (xs, s') -> runs rv code outs xs env s s'.
Proof.
  intros Hs Ht [Hp Hl]%andb_true_iff Hc He.
  destruct rv; try done; cbn [stmt_code] in Hc; cbn [eval_stmt] in He;
    try (destruct (arena_get (ssa_values ir) v) as [[w| |]|] eqn:Hv; try done; change (vty ir v (TInt w)) in Hv);
    inv_eval He; cbn [stmt_typed] in Ht; typed_value;
    (eapply pure_runs; [| |exact Hc| |]; [first [exact Hp|reflexivity]|lookups| |first [reflexivity|idtac]]); simpl.
  - rewrite ty_bits_int, wrap_cast_signed; [done| |exact Ht]. pose proof (bits_range (iwidth c)). lia.
  - by apply compute_binary.
  - by rewrite ty_bits_int.
  - rewrite decide_True, ty_bits_int, compute_cmp by done. done.
  - pose proof (bits_range x). rewrite ty_bits_int, wrap_cast_signed by (done || lia). by rewrite compute_cmp.
  - case_bool_decide; [subst|done]. apply compute_bitwise.
  - apply compute_bitwise_bool.
  - by apply compute_bitwise_imm.
  - by rewrite ty_bits_int.
  - done.
  - apply compute_shift.
  - by apply compute_shift_imm.
  - by rewrite !address_ident.
  - reflexivity.
  - split; [done|]. simpl. apply bool_decide_eq_true in Hl. rewrite address_page, (wrap_small 64), negb_involutive; [done|].
    destruct Hl as [? Hl]. split; [done|]. eapply Z.lt_trans; [exact Hl|done].
  - apply bool_decide_eq_true in Hl. rewrite !address_page. do 2 f_equal. f_equal. apply land_lnot; [done|].
    destruct Hl as [? Hl]. split; [done|]. eapply Z.lt_trans; [exact Hl|done].
Qed.

(** What running leaves alone. *)
Ltac unchanged :=
  let u := fresh "u" in let Hu := fresh in
  intros u Hu; unfold results in Hu; simpl in Hu; rewrite ?elem_of_cons in Hu;
  rewrite ?lookup_insert_ne by (intros <-; apply Hu; tauto); reflexivity.

Lemma select_runs c a b code outs xs (s s' : World) :
  stmt_lowerable ir (KSelect c a b) = true -> stmt_code ir helper_address fn V S (KSelect c a b) code outs ->
  eval_stmt e ly io_mmu ρ (KSelect c a b) s = Some (xs, s') -> runs (KSelect c a b) code outs xs env s s'.
Proof.
  intros [Hp _]%andb_true_iff (args & r & Hargs & -> & ->) He.
  repeat (apply Forall2_cons_inv_l in Hargs as (? & ? & ? & Hargs & ->)). apply Forall2_nil_inv_l in Hargs as ->.
  apply andb_true_iff in Hp as [Ha [Hb _]%andb_true_iff]. cbn [eval_stmt] in He. inv_eval He.
  all: edestruct (condition c) as (ty & z & Hz & Ez); [eassumption..|].
  all: eapply runs_simple;
    [apply read_cons; [exact Hz|]; repeat (apply read_cons; [eapply operand; [| |eassumption]; eassumption|]); reflexivity
    |apply host_compute, compute_select|simpl; by rewrite Ez].
Qed.

Lemma overflowing_runs op a b code outs xs (s s' : World) :
  let rv := KOverflowingBinOp op a b in
  stmt_lowerable ir rv = true -> stmt_code ir helper_address fn V S rv code outs -> NoDup (results code) ->
  eval_stmt e ly io_mmu ρ rv s = Some (xs, s') -> runs rv code outs xs env s s'.
Proof.
  intros rv [Hp _]%andb_true_iff (ca & cb & r & o & Ha & Hb & -> & ->) Hn He. cbn in He. inv_eval He.
  case_bool_decide; [subst|done]. simplify_eq/=.
  assert (read_values env [ca; cb] = Some (rep <$> [VInt width0 bits; VInt width0 bits0])) as Hr.
  { read_them Hp. }
  eexists. split; [|split].
  - eapply exec_code_cons; [|reflexivity]. eapply exec_two; [exact Hr|]. apply host_compute. by apply compute_overflowing.
  - unchanged.
  - apply NoDup_cons in Hn as [Hn _]. constructor; [|constructor; [|constructor]].
    + eexists. by rewrite lookup_insert_eq.
    + eexists. rewrite lookup_insert_ne, lookup_insert_eq; [done|]. intros ->. apply Hn. by left.
Qed.

Lemma load_host_runs ty p off can_move code outs xs (s s' : World) :
  let rv := KLoadHost ty p off can_move in
  stmt_lowerable ir rv = true -> stmt_code ir helper_address fn V S rv code outs ->
  eval_stmt e ly io_mmu ρ rv s = Some (xs, s') -> runs rv code outs xs env s s'.
Proof.
  intros rv [Hp [Hl _]%andb_true_iff]%andb_true_iff (region & flags & Hv & Hf & Ho & Hc) He. cbn [rv eval_stmt] in He. inv_eval He.
  match goal with H : ρ !! _ = Some (VPtr _) |- _ => pose proof (shape_of _ _ _ _ _ Hty H Hv) as Hsh end.
  simpl in Hsh. subst region.
  eapply simple_runs; [| |exact Hc| |]; [exact Hp|lookups| |reflexivity]. apply Z.leb_le in Hl. simpl. by apply host_load.
Qed.

Lemma store_host_runs p off v can_move code outs xs (s s' : World) :
  let rv := KStoreHost p off v can_move in
  stmt_lowerable ir rv = true -> stmt_code ir helper_address fn V S rv code outs ->
  eval_stmt e ly io_mmu ρ rv s = Some (xs, s') -> runs rv code outs xs env s s'.
Proof.
  intros rv [Hp [Hl _]%andb_true_iff]%andb_true_iff (region & flags & cv & cp & Hv & Hf & Ho & Hro & Hcv & Hcp & -> & ->) He.
  cbn [rv eval_stmt] in He. inv_eval He.
  match goal with H : ρ !! _ = Some (VPtr _) |- _ => pose proof (shape_of _ _ _ _ _ Hty H Hv) as Hsh end.
  simpl in Hsh. subst region.
  exists env. split_and!; [|done|constructor]. eapply exec_code_cons; [|reflexivity].
  eapply exec_none.
  - read_them Hp.
  - destruct u. simpl. apply Z.leb_le in Hl. apply (host_store fn); [done| |done|done].
    rewrite Hro. apply bool_decide_eq_false. intros E.
    match goal with H : store_host _ _ ?q _ _ _ = _ |- _ => by destruct q end.
Qed.

Lemma stack_ptr_runs slot code outs xs (s s' : World) :
  let rv := KLoadStackPtr slot in
  stmt_code ir helper_address fn V S rv code outs ->
  eval_stmt e ly io_mmu ρ rv s = Some (xs, s') -> runs rv code outs xs env s s'.
Proof.
  intros rv (cs & r & Hs & -> & ->) He. cbn in He. inv_eval He. destruct (Hframe _ _ Hs) as [Ha [d Hd]].
  eapply runs_simple; [reflexivity|by eapply host_stack_addr|]. simpl. by rewrite Ha.
Qed.

Lemma scale_runs size o code o' z (s : World) :
  scaled size o code o' -> 0 < size <= I64_MAX -> env !! o = Some (CInt I64 z) ->
  exists env' z', exec_code fn code env s = Some (env', s) /\ env' !! o' = Some (CInt I64 z') /\
    (forall u, u ∉ results code -> env' !! u = env !! u) /\ wrap 64 z' = wrap 64 (z * size).
Proof.
  unfold scaled. intros Hs Hsize Ho. case_decide as H1.
  - destruct Hs as [-> ->]. exists env, z. subst. by rewrite Z.mul_1_r.
  - subst code. eexists _, _. split; [|split; [by rewrite lookup_insert_eq|split]].
    + eapply exec_code_cons; [|reflexivity]. eapply exec_one; [by apply read_cons|]. by apply host_compute.
    + unchanged.
    + simpl. unfold wrapping_mul. rewrite wrap_mul_r. by apply wrap_wrap.
Qed.

Lemma exec_code_app code1 code2 env1 env2 env3 (s1 s2 s3 : World) :
  exec_code fn code1 env1 s1 = Some (env2, s2) -> exec_code fn code2 env2 s2 = Some (env3, s3) ->
  exec_code fn (code1 ++ code2) env1 s1 = Some (env3, s3).
Proof.
  revert env1 s1. induction code1 as [|i code1 IH]; intros env1 s1 H1 H2; simpl in *; [by injection H1 as -> ->|].
  unfold sm_bind in *. destruct (exec_inst fn i env1 s1) as [[env' s]|]; [|done]. by apply IH.
Qed.

Lemma results_app code1 code2 : results (code1 ++ code2) = results code1 ++ results code2.
Proof. apply bind_app. Qed.

Lemma ptr_add_runs p o size code outs xs (s s' : World) :
  let rv := KPtrAdd p o size in
  stmt_lowerable ir rv = true -> stmt_code ir helper_address fn V S rv code outs -> NoDup (results code) ->
  (forall v cv, V v = Some cv -> cv ∉ results code) ->
  eval_stmt e ly io_mmu ρ rv s = Some (xs, s') -> runs rv code outs xs env s s'.
Proof.
  intros rv [[Hp1 [Hp2 _]%andb_true_iff]%andb_true_iff Hl%Z.ltb_lt]%andb_true_iff
    (cp & co & scale & co' & r & Hcp & Hco & Hscale & Hsize & -> & ->) Hn Hfresh He.
  cbn [rv eval_stmt] in He. inv_eval He.
  rewrite results_app in Hn, Hfresh.
  match goal with H : ρ !! _ = Some (VInt _ ?o0), H' : ρ !! _ = Some (VPtr (PTlb ?b0)) |- _ =>
    set (z := o0) in *; set (base := b0) in *; pose proof (operand _ _ _ Hp2 H Hco) as Eo; pose proof (operand _ _ _ Hp1 H' Hcp) as Ep end.
  destruct (scale_runs _ _ _ _ _ s' Hscale ltac:(done) Eo) as (env' & z' & Ex & Eo' & Hkeep & Ez).
  exists (<[r := CInt I64 (address (PTlb (wrap USIZE_BITS (base + z * size))))]> env'). split_and!.
  - eapply exec_code_app; [exact Ex|]. eapply exec_code_cons; [|reflexivity]. eapply exec_one.
    + apply read_cons; [|by apply read_cons].
      rewrite Hkeep; [exact Ep|]. intros Hin. apply (Hfresh _ _ Hcp). apply elem_of_app. by left.
    + apply host_compute. simpl. rewrite (address_tlb_add (ly := ly)). unfold wrapping_add.
      by rewrite <- wrap_add_r, Ez, wrap_add_r.
  - intros u Hu. rewrite results_app in Hu. apply not_elem_of_app in Hu as [Hu1 Hu2].
    rewrite lookup_insert_ne; [by apply Hkeep|]. intros <-. apply Hu2. by left.
  - constructor; [|constructor]. eexists. by rewrite lookup_insert_eq.
Qed.

(** Reading a value behind others that were written since. *)
Ltac unfold_results H := unfold results in H; simpl in H; rewrite ?elem_of_cons in H.
Ltac not_result H :=
  intros <-; match goal with H' : V _ = Some _ |- _ => apply H in H'; unfold_results H'; apply H'; tauto end.
Ltac read_old Hfresh :=
  rewrite ?lookup_insert_ne by not_result Hfresh; eassumption.

Lemma shift_unbounded_runs op a n code outs xs (s s' : World) :
  let rv := KShiftUnbounded op a n in
  stmt_lowerable ir rv = true -> stmt_code ir helper_address fn V S rv code outs -> NoDup (results code) ->
  (forall v cv, V v = Some cv -> cv ∉ results code) ->
  eval_stmt e ly io_mmu ρ rv s = Some (xs, s') -> runs rv code outs xs env s s'.
Proof.
  intros rv [[Hp1 [Hp2 _]%andb_true_iff]%andb_true_iff _]%andb_true_iff
    (w & ca & cn & in_range & shifted & over & r & Hw & Hca & Hcn & -> & ->) Hn Hfresh He.
  assert (results [inst1 (Ins.icmp_imm CcUnsignedLessThan (bits w)) [cn] in_range; inst1 (shift_op op) [ca; cn] shifted;
    overflow_inst op w ca over; inst1 Ins.select [in_range; shifted; over] r] = [in_range; shifted; over; r]) as Eres
    by (unfold results; simpl; by destruct op).
  rewrite Eres in Hn, Hfresh. apply NoDup_cons in Hn as [Hn1 Hn]. apply NoDup_cons in Hn as [Hn2 Hn]. apply NoDup_cons in Hn as [Hn3 _].
  set_unfold in Hn1. set_unfold in Hn2. set_unfold in Hn3.
  assert (in_range <> shifted /\ in_range <> over /\ shifted <> over) as (N1 & N2 & N3) by tauto.
  assert (forall v cv, V v = Some cv -> cv <> in_range /\ cv <> shifted /\ cv <> over) as Hold.
  { intros v cv Hv. apply Hfresh in Hv. rewrite !elem_of_cons in Hv. tauto. }
  destruct (Hold _ _ Hca) as (Ha1 & Ha2 & Ha3), (Hold _ _ Hcn) as (Hb1 & Hb2 & Hb3).
  cbn [rv eval_stmt] in He. inv_eval He.
  match goal with H : ρ !! a = Some (VInt _ ?a0), H' : ρ !! n = Some (VInt ?wn ?n0) |- _ =>
    pose proof (shape_of _ _ _ _ _ Hty H Hw) as Hsh; simpl in Hsh; subst;
    pose proof (operand _ _ _ Hp1 H Hca) as Ea; pose proof (operand _ _ _ Hp2 H' Hcn) as En; set (za := a0) in *; set (zn := n0) in *; set (wn0 := wn) in * end.
  set (env1 := <[in_range := of_bool (zn <? Ir.bits w)]> env).
  set (env2 := <[shifted := CInt (clif_int_ty w) (eval_shift (Ir.bits w) op za (zn mod Ir.bits w))]> env1).
  set (o := match op with SignExtendShr => eval_shift (Ir.bits w) op za (Ir.bits w - 1) | ZeroExtendShr | Shl => 0 end).
  set (env3 := <[over := CInt (clif_int_ty w) o]> env2).
  exists (<[r := CInt (clif_int_ty w) (eval_shift_unbounded (Ir.bits w) op za zn)]> env3). split_and!.
  - eapply exec_code_cons; [eapply (exec_one _ _ _ [_] _ _ _ s')|].
    { apply read_cons; [exact En|done]. } { apply host_compute. simpl. rewrite ty_bits_int, wrap_small; [done|].
      pose proof (bits_range w). pose proof (bits_range wn0). split; [lia|]. apply Z.le_lt_trans with 64; [lia|].
      apply Z.lt_le_trans with (2 ^ 8); [done|]. apply Z.pow_le_mono_r; lia. }
    eapply exec_code_cons; [eapply (exec_one _ _ _ _ _ env1 s' s')|].
    { unfold env1. apply read_cons; [by rewrite lookup_insert_ne|]. apply read_cons; [by rewrite lookup_insert_ne|done]. }
    { apply host_compute, compute_shift. }
    eapply exec_code_cons; [|eapply exec_code_cons; [eapply (exec_one _ _ _ _ _ env3 s' s')|reflexivity]].
    { fold env2. unfold overflow_inst, env3, o. pose proof (bits_range w).
      assert (env2 !! ca = Some (CInt (clif_int_ty w) za)) as Ea2 by (unfold env2, env1; by rewrite !lookup_insert_ne).
      destruct op; (eapply exec_one; [first [by apply read_cons|reflexivity]|]); apply host_compute.
      - apply (compute_shift_imm SignExtendShr). lia.
      - by destruct w.
      - by destruct w. }
    { unfold env3, env2, env1. apply read_cons; [rewrite !lookup_insert_ne by congruence; apply lookup_insert_eq|].
      apply read_cons; [rewrite !lookup_insert_ne by congruence; apply lookup_insert_eq|].
      apply read_cons; [apply lookup_insert_eq|done]. }
    apply host_compute. etrans; [apply compute_select|]. unfold eval_shift_unbounded, o. by destruct (zn <? Ir.bits w), op.
  - intros u Hu. assert (u ∉ [in_range; shifted; over; r]) as Hu' by (rewrite <- Eres; exact Hu). set_unfold in Hu'.
    unfold env3, env2, env1. rewrite !lookup_insert_ne; [done|..]; intros <-; tauto.
  - constructor; [|constructor]. eexists. by rewrite lookup_insert_eq.
Qed.

Lemma callback_runs func signature vs code outs xs (s s' : World) :
  let rv := KHostCallback func signature vs in
  stmt_typed ir rv -> stmt_lowerable ir rv = true -> stmt_code ir helper_address fn V S rv code outs ->
  NoDup (results code) -> (forall v cv, V v = Some cv -> cv ∉ results code) ->
  eval_stmt e ly io_mmu ρ rv s = Some (xs, s') -> runs rv code outs xs env s s'.
Proof.
  intros rv (Hf & d' & _) [Hp _]%andb_true_iff (ref & d & cargs & f & res & Hd & Href & Hargs & -> & Hlen & ->) Hn Hfresh He.
  cbn [rv eval_stmt] in He. unfold sm_bind, sm_of_option in He. destruct (mapM _ vs) as [ys|] eqn:Hys; [|done].
  pose proof (call_helper_shape _ _ _ _ _ _ _ _ _ Hf Hd He) as Hsh.
  pose proof (read_operands vs cargs ys Hp Hargs Hys) as Hread.
  assert (f ∉ cargs) as Hfa.
  { intros Hin. apply list_elem_of_lookup in Hin as [i Hi]. eapply Forall2_lookup_r in Hargs as (v & _ & Hv); [|done].
    apply (Hfresh _ _ Hv). by left. }
  assert (exec_op fn (Ins.call_indirect ref) (CInt I64 (helper_address func) :: (rep <$> ys)) s = Some (rep <$> xs, s')) as Hx
    by (by eapply host_call).
  set (env1 := <[f := CInt I64 (helper_address func)]> env).
  assert (exec_inst fn (inst1 (Ins.iconst I64 (cast_signed (helper_address func))) [] f) env s = Some (env1, s)) as H1.
  { eapply exec_one; [reflexivity|]. apply host_compute. simpl. rewrite wrap_cast_signed; [done|done|apply helper_fits]. }
  assert (read_values env1 (f :: cargs) = Some (CInt I64 (helper_address func) :: (rep <$> ys))) as H2.
  { apply read_cons; [apply lookup_insert_eq|]. unfold env1. by rewrite read_insert. }
  simpl in Hlen. destruct (sig_ret d) as [ty|].
  - destruct res as [|r [|]]; try done. apply Forall2_cons_inv_r in Hsh as (x & ? & _ & ->%Forall2_nil_inv_r & ->).
    exists (<[r := rep x]> env1). split_and!.
    + eapply exec_code_cons; [exact H1|]. eapply exec_code_cons; [|reflexivity]. by eapply exec_one.
    + unfold env1. unchanged.
    + constructor; [|constructor]. eexists. by rewrite lookup_insert_eq.
  - destruct res; [|done]. apply Forall2_nil_inv_r in Hsh as ->. exists env1. split_and!.
    + eapply exec_code_cons; [exact H1|]. eapply exec_code_cons; [|reflexivity]. by eapply exec_none.
    + unfold env1. unchanged.
    + constructor.
Qed.

(** The address of a guest access. *)
Lemma vm_address_runs p o cp co a t off (s : World) :
  plain ir p = true -> plain ir o = true -> V p = Some cp -> V o = Some co ->
  ρ !! p = Some (VPtr (PPage t)) -> ρ !! o = Some (VInt W64 off) ->
  exec_inst fn (inst1 Ins.iadd [cp; co] a) env s = Some (<[a := CInt I64 (wrap USIZE_BITS (t + off))]> env, s).
Proof.
  intros Hp Ho Hcp Hco Ep Eo. pose proof (operand _ _ _ Hp Ep Hcp). pose proof (operand _ _ _ Ho Eo Hco).
  eapply exec_one; [apply read_cons; [eassumption|]; by apply read_cons|]. apply host_compute. simpl.
  by rewrite address_page.
Qed.

Lemma vm_load_runs p o w q code outs xs (s s' : World) :
  let rv := KVMLoadRaw p o w q in
  stmt_lowerable ir rv = true -> stmt_code ir helper_address fn V S rv code outs ->
  eval_stmt e ly io_mmu ρ rv s = Some (xs, s') -> runs rv code outs xs env s s'.
Proof.
  intros rv [[Hp1 [Hp2 _]%andb_true_iff]%andb_true_iff _]%andb_true_iff (cp & co & a & flags & r & Hcp & Hco & Hf & -> & ->) He.
  cbn [rv eval_stmt] in He. inv_eval He.
  match goal with H : ρ !! _ = Some (VPtr (PPage _)), H' : ρ !! _ = Some (VInt W64 _) |- _ =>
    pose proof (fun a s => vm_address_runs _ _ _ _ a _ _ s Hp1 Hp2 Hcp Hco H H') as Haddr end.
  eexists. split; [|split].
  - eapply exec_code_cons; [apply Haddr|]. eapply exec_code_cons; [|reflexivity].
    eapply exec_one; [apply read_cons; [apply lookup_insert_eq|done]|]. by eapply host_vm_load.
  - unchanged.
  - constructor; [|constructor]. eexists. by rewrite lookup_insert_eq.
Qed.

Lemma vm_store_runs p o v q code outs xs (s s' : World) :
  let rv := KVMStoreRaw p o v q in
  stmt_lowerable ir rv = true -> stmt_code ir helper_address fn V S rv code outs ->
  (forall v cv, V v = Some cv -> cv ∉ results code) ->
  eval_stmt e ly io_mmu ρ rv s = Some (xs, s') -> runs rv code outs xs env s s'.
Proof.
  intros rv [[Hp3 [Hp1 [Hp2 _]%andb_true_iff]%andb_true_iff]%andb_true_iff _]%andb_true_iff
    (cp & co & cv & a & flags & Hcp & Hco & Hcv & Hf & -> & ->) Hfresh He.
  cbn [rv eval_stmt] in He. inv_eval He. destruct u.
  match goal with H : ρ !! _ = Some (VPtr (PPage _)), H' : ρ !! _ = Some (VInt W64 _) |- _ =>
    pose proof (fun a s => vm_address_runs _ _ _ _ a _ _ s Hp1 Hp2 Hcp Hco H H') as Haddr end.
  eexists. split; [|split].
  - eapply exec_code_cons; [apply Haddr|]. eapply exec_code_cons; [|reflexivity].
    eapply exec_none; [apply read_cons; [|apply read_cons; [apply lookup_insert_eq|done]]|by eapply host_vm_store].
    rewrite lookup_insert_ne; [match goal with H : ρ !! _ = _ |- _ => exact (operand _ _ _ Hp3 H Hcv) end|]. intros <-. apply (Hfresh _ _ Hcv). by left.
  - unchanged.
  - constructor.
Qed.

Context (Hhalt : ρ !! ARG_HALT_REASON_PTR = Some (VPtr PHaltReason)).

Lemma load_halt_runs code outs xs (s s' : World) :
  stmt_lowerable ir KLoadHaltReason = true -> stmt_code ir helper_address fn V S KLoadHaltReason code outs ->
  eval_stmt e ly io_mmu ρ KLoadHaltReason s = Some (xs, s') -> runs KLoadHaltReason code outs xs env s s'.
Proof.
  intros [Hp _]%andb_true_iff (flags & Hf & Hc) [= <- <-].
  eapply (simple_runs _ _ [_] [_]); [exact Hp|simpl; by rewrite Hhalt|exact Hc|by apply host_load_halt|done].
Qed.

Lemma take_halt_runs code outs xs (s s' : World) :
  stmt_lowerable ir KTakeHaltReason = true -> stmt_code ir helper_address fn V S KTakeHaltReason code outs ->
  (forall v cv, V v = Some cv -> cv ∉ results code) ->
  eval_stmt e ly io_mmu ρ KTakeHaltReason s = Some (xs, s') -> runs KTakeHaltReason code outs xs env s s'.
Proof.
  intros [[Hp _]%andb_true_iff _]%andb_true_iff (cp & zero & flags & r & Hcp & Hf & -> & ->) Hfresh [= <- <-].
  pose proof (operand _ _ _ Hp Hhalt Hcp) as Ep.
  eexists. split; [|split].
  - eapply exec_code_cons; [eapply exec_one; [reflexivity|by apply host_compute]|]. eapply exec_code_cons; [|reflexivity].
    eapply exec_one; [|by apply host_swap_halt]. apply read_cons; [|apply read_cons; [apply lookup_insert_eq|done]].
    rewrite lookup_insert_ne; [exact Ep|]. intros <-. apply (Hfresh _ _ Hcp). by left.
  - unchanged.
  - constructor; [|constructor]. eexists. by rewrite lookup_insert_eq.
Qed.

Lemma set_dirty_runs p code outs xs (s s' : World) :
  let rv := KSetPageDirtyFlag p in
  stmt_lowerable ir rv = true -> stmt_code ir helper_address fn V S rv code outs ->
  (forall v cv, V v = Some cv -> cv ∉ results code) ->
  eval_stmt e ly io_mmu ρ rv s = Some (xs, s') -> runs rv code outs xs env s s'.
Proof.
  intros rv [[Hp _]%andb_true_iff _]%andb_true_iff (cp & bit & flags & old & Hcp & Hf & -> & ->) Hfresh He.
  cbn [rv eval_stmt] in He. inv_eval He. destruct u.
  match goal with H : ρ !! _ = Some _ |- _ => pose proof (operand _ _ _ Hp H Hcp) as Ep end.
  match goal with H : on_fabric _ _ = Some _ |- _ => destruct (host_set_dirty fn flags _ _ _ Hf H) as [z Hx] end.
  eexists. split; [|split].
  - eapply exec_code_cons; [eapply exec_one; [reflexivity|by apply host_compute]|]. eapply exec_code_cons; [|reflexivity].
    eapply exec_one; [|exact Hx]. apply read_cons; [|apply read_cons; [apply lookup_insert_eq|done]].
    rewrite lookup_insert_ne; [exact Ep|]. intros <-. apply (Hfresh _ _ Hcp). by left.
  - unchanged.
  - constructor.
Qed.

(** Running the code of a statement does what the statement does. *)
Lemma stmt_runs rv code outs xs (s s' : World) :
  stmt_typed ir rv -> stmt_lowerable ir rv = true -> stmt_code ir helper_address fn V S rv code outs ->
  NoDup (results code) -> (forall v cv, V v = Some cv -> cv ∉ results code) ->
  eval_stmt e ly io_mmu ρ rv s = Some (xs, s') -> runs rv code outs xs env s s'.
Proof.
  intros Ht Hl Hc Hn Hfresh He. destruct rv; try (by eapply simple_stmt_runs).
  - by eapply overflowing_runs.
  - by eapply select_runs.
  - by eapply shift_unbounded_runs.
  - by eapply load_host_runs.
  - by eapply store_host_runs.
  - by eapply stack_ptr_runs.
  - by eapply ptr_add_runs.
  - by eapply callback_runs.
  - by eapply vm_load_runs.
  - by eapply vm_store_runs.
  - by eapply load_halt_runs.
  - by eapply take_halt_runs.
  - by eapply set_dirty_runs.
  - destruct Hc as [-> ->]. injection He as <- <-. exists env. by split_and!.
Qed.
End Stmt.
End Runs.
