(* ===== verification/CraneliftEmit.v ===== *)
(** * Emitting instructions
    ([jit-compiler-core/src/compiler/cranelift_backend.rs], the methods of
    [FunctionLowering])

    The invariant of a lowering in progress, what a method may change (code is
    appended to the current block, the function grows, new values are new), and
    specifications of the methods [lower_rvalue] is made of. *)

From S2P Require Import Prelude Convert HaltReason MemTypes Fault Memops ObjectQueue Fabric PageTable IoMMU.
From S2P Require Import ExclusiveMonitor LookupCache MemAccess FfiSupport Arena Ir IrSem IrEmit IrLogic IrArith.
From S2P Require Import IrTyping IrBuilt IrBuilder IrRun.
From S2P Require Import Tarjan SccGraph HaltCheck HaltSplit HaltInv HaltSound BlockOrder.
From S2P Require Import BackEnd.
From S2P Require Import Clif CraneliftLower CraneliftHost CraneliftCode.
Local Open Scope Z_scope.
Local Open Scope emu_scope.

Section Emit.
Context {F : Type} `{!FunctionBuilder F, !FunctionBuilderLaws F [I32] }.
Context (ir : ExecIrBuilder) (exec_ir : ExecIr) (helper_address : HostCallback -> Z).
Context (Hvalues : exec_ssa_values exec_ir = ssa_values ir) (Hsigs : exec_signatures exec_ir = signatures ir)
  (Hinit : signatures ir = initial_signatures).
Abbreviation Lowering := (@FunctionLowering F).
Abbreviation func L := (clif_func (lw_builder L)).
Abbreviation V L := (map_get (lw_values L)).

(** The type a value has in Cranelift. *)
Definition lowered_ty (v : SSAValue) : option ClifType :=
  if plain ir v then ir_ty_to_clif_ty I64 <$> arena_get (ssa_values ir) v else Some I64.

(** The invariant. *)
Record lowering_ok (L : Lowering) : Prop := {
  lo_types : forall v cv, V L v = Some cv -> exists ty, lowered_ty v = Some ty /\ value_types (func L) !! cv = Some ty;
  lo_inj : forall v v' cv, V L v = Some cv -> V L v' = Some cv -> v = v';
  lo_regions : length (lw_alias_regions L) = REGION_COUNT;
  lo_alias : forall i a, lw_alias_regions L !! i = Some (Some a) -> clif_aliases (func L) !! a = Some (Z.of_nat i);
  lo_sigs : forall s r, map_get (lw_signatures L) s = Some r ->
    exists d, arena_get initial_signatures s = Some d /\ clif_sigs (func L) !! r = Some (clif_signature I64 d);
  lo_slots : forall s, is_Some (arena_get (stack_slots ir) s) -> is_Some (map_get (lw_stack_slots L) s);
}.

Definition add_code (code : list Inst) (d : ClifBlockData) : ClifBlockData :=
  mkClifBlock (cb_params d) (cb_code d ++ code) (cb_term d) (cb_cold d).

(** A block is open for instructions. *)
Record ready (cb : ClifBlock) (L : Lowering) : Prop := {
  re_ok : lowering_ok L;
  re_current : clif_current (lw_builder L) = Some cb;
  re_open : exists d, clif_blocks (func L) !! cb = Some d /\ cb_term d = None;
}.

(** What was known of a function stays. *)
Record fn_grows (f f' : ClifFunc) : Prop := {
  gr_types : value_types f ⊆ value_types f';
  gr_slots : clif_slots f ⊆ clif_slots f';
  gr_sigs : clif_sigs f ⊆ clif_sigs f';
  gr_aliases : clif_aliases f ⊆ clif_aliases f';
}.

#[export] Instance fn_grows_preorder : PreOrder fn_grows.
Proof.
  split; [by split|]. intros f1 f2 f3 [H1 H2 H3 H4] [H5 H6 H7 H8]. split; by etrans.
Qed.

(** From one state of the lowering to a later one [code] was emitted. *)
Record emits (cb : ClifBlock) (L L' : Lowering) (code : list Inst) : Prop := {
  em_ready : ready cb L';
  em_values : lw_values L' = lw_values L;
  em_slots : lw_stack_slots L' = lw_stack_slots L;
  em_blocks : lw_blocks L' = lw_blocks L;
  em_code : clif_blocks (func L') = alter (add_code code) cb (clif_blocks (func L));
  em_grows : fn_grows (func L) (func L');
  em_new : forall r, r ∈ results code -> value_types (func L) !! r = None /\ is_Some (value_types (func L') !! r);
  em_nodup : NoDup (results code);
}.

Lemma add_code_nil d : add_code [] d = d.
Proof. destruct d. unfold add_code. simpl. by rewrite app_nil_r. Qed.

Lemma emits_refl cb L : ready cb L -> emits cb L L [].
Proof.
  intros H. split; try done; [|by intros r ?%elem_of_nil|constructor].
  apply map_eq. intros b. destruct (decide (b = cb)) as [->|Hb].
  - rewrite lookup_alter_eq. destruct (clif_blocks (func L) !! cb); [|done]. simpl. by rewrite add_code_nil.
  - by rewrite lookup_alter_ne.
Qed.

Lemma emits_trans cb L1 L2 L3 c1 c2 : emits cb L1 L2 c1 -> emits cb L2 L3 c2 -> emits cb L1 L3 (c1 ++ c2).
Proof.
  intros [R1 V1 S1 B1 C1 G1 N1 D1] [R2 V2 S2 B2 C2 G2 N2 D2]. split; try congruence; try done.
  - rewrite C2, C1. apply map_eq. intros b. destruct (decide (b = cb)) as [->|Hb]; [|by rewrite !lookup_alter_ne].
    rewrite !lookup_alter_eq. destruct (clif_blocks (func L1) !! cb); [|done]. simpl. f_equal. unfold add_code. simpl.
    by rewrite app_assoc.
  - by etrans.
  - intros r. rewrite results_app, elem_of_app. intros [Hr|Hr].
    + destruct (N1 r Hr) as [? [ty Hty]]. split; [done|]. exists ty. by eapply lookup_weaken, (gr_types _ _ G2).
    + destruct (N2 r Hr) as [Hn Hs]. split; [|done]. destruct (value_types (func L1) !! r) eqn:E; [|done].
      eapply lookup_weaken in E; [|by apply (gr_types _ _ G1)]. congruence.
  - rewrite results_app. apply NoDup_app. split_and!; [done| |done]. intros r Hr Hr'.
    destruct (N1 r Hr) as [_ [ty Hty]], (N2 r Hr') as [Hn _]. congruence.
Qed.

(** A method that only emits, and one that may return an error, for reason [E]. *)
Definition does {A} (cb : ClifBlock) (L : Lowering) (m : SM Lowering A) (Q : A -> Lowering -> list Inst -> Prop) : Prop :=
  exists a L' code, m L = Some (a, L') /\ emits cb L L' code /\ Q a L' code.
Definition lowers {A} (cb : ClifBlock) (L : Lowering) (m : SM Lowering (Result A LowerError)) (E : Prop)
    (Q : A -> Lowering -> list Inst -> Prop) : Prop :=
  exists r L', m L = Some (r, L') /\ match r with Ok a => exists code, emits cb L L' code /\ Q a L' code | Err _ => E end.

Section Rules.
Context {A B : Type} (cb : ClifBlock) (L : Lowering).

Lemma does_ret (a : A) Q : ready cb L -> Q a L [] -> does cb L (sm_ret a) Q.
Proof. intros Hr HQ. exists a, L, []. by split_and!; [|apply emits_refl|]. Qed.

Lemma does_bind (m : SM Lowering A) (k : A -> SM Lowering B) Q1 Q :
  does cb L m Q1 ->
  (forall a L1 c1, emits cb L L1 c1 -> Q1 a L1 c1 -> does cb L1 (k a) (fun b L2 c2 => Q b L2 (c1 ++ c2))) ->
  does cb L (sm_bind m k) Q.
Proof.
  intros (a & L1 & c1 & E1 & M1 & H1) Hk. destruct (Hk _ _ _ M1 H1) as (b & L2 & c2 & E2 & M2 & H2).
  exists b, L2, (c1 ++ c2). rewrite (sm_bind_run _ _ _ _ _ E1). split_and!; [done|by eapply emits_trans|done].
Qed.

Lemma lowers_ok (a : A) E Q : ready cb L -> Q a L [] -> lowers cb L (lower_ok a) E Q.
Proof. intros Hr HQ. exists (Ok a), L. split; [done|]. exists []. by split; [apply emits_refl|]. Qed.

Lemma lowers_err (e : LowerError) (E : Prop) Q : E -> lowers cb L (lower_err (A := A) e) E Q.
Proof. intros HE. by exists (Err e), L. Qed.

Lemma lowers_bind (m : SM Lowering A) (k : A -> SM Lowering (Result B LowerError)) Q1 E Q :
  does cb L m Q1 ->
  (forall a L1 c1, emits cb L L1 c1 -> Q1 a L1 c1 -> lowers cb L1 (k a) E (fun b L2 c2 => Q b L2 (c1 ++ c2))) ->
  lowers cb L (sm_bind m k) E Q.
Proof.
  intros (a & L1 & c1 & E1 & M1 & H1) Hk. destruct (Hk _ _ _ M1 H1) as (r & L2 & E2 & H2).
  exists r, L2. rewrite (sm_bind_run _ _ _ _ _ E1). split; [done|]. destruct r; [|done].
  destruct H2 as (c2 & M2 & H2). exists (c1 ++ c2). split; [by eapply emits_trans|done].
Qed.

Lemma lowers_try (m : SM Lowering (Result A LowerError)) (k : A -> SM Lowering (Result B LowerError)) Q1 E Q :
  lowers cb L m E Q1 ->
  (forall a L1 c1, emits cb L L1 c1 -> Q1 a L1 c1 -> lowers cb L1 (k a) E (fun b L2 c2 => Q b L2 (c1 ++ c2))) ->
  lowers cb L (sm_try m k) E Q.
Proof.
  intros (r & L1 & E1 & H1) Hk. unfold sm_try. destruct r as [a|e].
  - destruct H1 as (c1 & M1 & H1). destruct (Hk _ _ _ M1 H1) as (r & L2 & E2 & H2).
    exists r, L2. rewrite (sm_bind_run _ _ _ _ _ E1). split; [done|]. destruct r; [|done].
    destruct H2 as (c2 & M2 & H2). exists (c1 ++ c2). split; [by eapply emits_trans|done].
  - exists (Err e), L1. by rewrite (sm_bind_run _ _ _ _ _ E1).
Qed.

Lemma does_impl (m : SM Lowering A) Q (Q' : A -> Lowering -> list Inst -> Prop) :
  does cb L m Q -> (forall a L' c, emits cb L L' c -> Q a L' c -> Q' a L' c) -> does cb L m Q'.
Proof. intros (a & L' & c & ? & ? & ?) HQ. exists a, L', c. eauto. Qed.

Lemma lowers_impl (m : SM Lowering (Result A LowerError)) E Q (Q' : A -> Lowering -> list Inst -> Prop) :
  lowers cb L m E Q -> (forall a L' c, emits cb L L' c -> Q a L' c -> Q' a L' c) -> lowers cb L m E Q'.
Proof.
  intros (r & L' & E1 & H) HQ. exists r, L'. split; [done|]. destruct r; [|done]. destruct H as (c & ? & ?). eauto.
Qed.
End Rules.

(** ** The builder's calls *)

Lemma of_types_grow f f' vs tys : fn_grows f f' -> of_types f vs tys -> of_types f' vs tys.
Proof. intros Hg H. eapply Forall2_impl; [exact H|]. intros v ty Hv. by eapply lookup_weaken, (gr_types _ _ Hg). Qed.

Lemma lowering_ok_grow L f : lowering_ok L -> fn_grows (func L) (clif_func f) -> lowering_ok (set_builder f L).
Proof.
  intros [H1 H2 H3 H4 H5 H6] [G1 G2 G3 G4]. split; simpl; try done.
  - intros v cv Hv. destruct (H1 _ _ Hv) as (ty & ? & ?). exists ty. split; [done|]. by eapply lookup_weaken.
  - intros k a Ha. eapply lookup_weaken; [by apply H4|done].
  - intros k r Hr. destruct (H5 _ _ Hr) as (d & ? & ?). exists d. split; [done|]. by eapply lookup_weaken.
Qed.

Lemma of_types_new rs tys (m : gmap ClifValue ClifType) :
  NoDup rs -> length rs = length tys -> Forall2 (fun r ty => (list_to_map (zip rs tys) ∪ m) !! r = Some ty) rs tys.
Proof.
  intros Hn Hl. apply Forall2_same_length_lookup_2; [done|]. intros k r ty Hr Hty.
  apply lookup_union_Some_l, elem_of_list_to_map_1; [by rewrite fst_zip by lia|].
  apply list_elem_of_lookup. exists k. by apply lookup_zip_Some.
Qed.

Lemma does_ins cb L op args tys rtys :
  ready cb L -> of_types (func L) args tys -> result_types (func L) op tys = Some rtys ->
  does cb L (on_builder (ins op args)) (fun rs L' code => code = [mkInst op args rs] /\ of_types (func L') rs rtys).
Proof.
  intros [Hok Hcur (d & Hd & Hopen)] Ht Hr.
  destruct (ins_law op args _ _ _ _ _ Hcur Hd Hopen Ht Hr) as (rs & f' & E & Hn & Hl & Hnew & Hf & Hcur').
  exists rs, (set_builder f' L), [mkInst op args rs]. unfold on_builder. rewrite E. split; [done|].
  assert (list_to_map (zip rs rtys) ##ₘ value_types (func L)) as Hdisj.
  { apply map_disjoint_spec. intros r x y Hx Hy. apply elem_of_list_to_map_2, list_elem_of_lookup in Hx as [k Hk].
    apply lookup_zip_Some in Hk as [Hk _]. rewrite Forall_forall in Hnew.
    apply list_elem_of_lookup_2, Hnew in Hk. congruence. }
  assert (fn_grows (func L) (clif_func f')) as Hg.
  { rewrite Hf. split; simpl; try done. by apply map_union_subseteq_r. }
  assert (of_types (clif_func f') rs rtys) as Hrs by (rewrite Hf; simpl; by apply of_types_new).
  split; [|by split]. split; simpl; try done.
  - split; simpl; [by apply lowering_ok_grow|done|]. rewrite Hf. simpl. rewrite lookup_alter_eq, Hd. by eexists.
  - by rewrite Hf.
  - unfold results. simpl. rewrite app_nil_r. intros r Hin. split; [by eapply Forall_forall in Hnew|].
    apply list_elem_of_lookup in Hin as [k Hk]. eapply Forall2_lookup_l in Hrs as (ty & _ & ?); [by exists ty|done].
  - unfold results. simpl. by rewrite app_nil_r.
Qed.

Lemma does_ins1 cb L op args tys ty :
  ready cb L -> of_types (func L) args tys -> result_types (func L) op tys = Some [ty] ->
  does cb L (ins1 op args) (fun r L' code => code = [inst1 op args r] /\ value_types (func L') !! r = Some ty).
Proof.
  intros Hr Ht Hres. eapply does_bind; [by eapply does_ins|]. intros rs L1 c1 M1 [-> Hrs].
  apply Forall2_cons_inv_r in Hrs as (r & ? & Hr1 & ->%Forall2_nil_inv_r & ->). apply does_ret; [apply M1|by split].
Qed.

Lemma does_ins2 cb L op args tys ty ty' :
  ready cb L -> of_types (func L) args tys -> result_types (func L) op tys = Some [ty; ty'] ->
  does cb L (ins2 op args) (fun r L' code => code = [mkInst op args [r.1; r.2]] /\ of_types (func L') [r.1; r.2] [ty; ty']).
Proof.
  intros Hr Ht Hres. eapply does_bind; [by eapply does_ins|]. intros rs L1 c1 M1 [-> Hrs].
  pose proof Hrs as Hrs'. apply Forall2_cons_inv_r in Hrs as (r & ? & Hr1 & Hrs & ->).
  apply Forall2_cons_inv_r in Hrs as (r' & ? & Hr2 & ->%Forall2_nil_inv_r & ->). apply does_ret; [apply M1|by split].
Qed.

Lemma does_ins0 cb L op args tys :
  ready cb L -> of_types (func L) args tys -> result_types (func L) op tys = Some [] ->
  does cb L (ins0 op args) (fun _ L' code => code = [mkInst op args []]).
Proof.
  intros Hr Ht Hres. eapply does_bind; [by eapply does_ins|]. intros rs L1 c1 M1 [-> ->%Forall2_nil_inv_r].
  apply does_ret; [apply M1|done].
Qed.

Lemma does_value_ty cb L v ty :
  ready cb L -> value_types (func L) !! v = Some ty -> does cb L (value_ty v) (fun t L' code => t = ty /\ L' = L /\ code = []).
Proof.
  intros Hr Hv. exists ty, L, []. unfold value_ty, value_type, sm_of_option. rewrite Hv.
  split_and!; try done. by apply emits_refl.
Qed.

Lemma lowers_assert_ty cb L v ty E :
  ready cb L -> value_types (func L) !! v = Some ty -> lowers cb L (assert_value_ty v ty) E (fun _ L' code => L' = L /\ code = []).
Proof.
  intros Hr Hv. eapply lowers_bind; [by apply does_value_ty|]. intros t L1 c1 M1 (-> & -> & ->). simpl.
  rewrite bool_decide_true by done. by apply lowers_ok.
Qed.

Lemma lowers_use_value cb L v (E : Prop) :
  ready cb L -> (V L v = None -> E) ->
  lowers cb L (use_value v) E (fun cv L' code => V L v = Some cv /\ L' = L /\ code = []).
Proof.
  intros Hr HE. unfold use_value, context. destruct (V L v) as [cv|] eqn:Ev.
  - exists (Ok cv), L. rewrite Ev. split; [done|]. exists []. split; [by apply emits_refl|done].
  - exists (Err UsedBeforeLowered), L. rewrite Ev. split; [done|]. by apply HE.
Qed.

Lemma lowers_use_values cb L vs (E : Prop) :
  ready cb L -> (forall v, v ∈ vs -> V L v = None -> E) ->
  lowers cb L (use_values vs) E (fun cs L' code => Forall2 (fun v c => V L v = Some c) vs cs /\ L' = L /\ code = []).
Proof.
  intros Hr. induction vs as [|v vs IH]; intros HE; simpl; [by apply lowers_ok|].
  eapply lowers_try; [apply lowers_use_value; [done|]; apply HE; by left|]. intros cv L1 c1 M1 (Hcv & -> & ->).
  eapply lowers_try; [apply IH; intros u Hu; apply HE; by right|]. intros cs L1 c1 M2 (Hcs & -> & ->).
  apply lowers_ok; [done|]. split_and!; [by constructor|done|done].
Qed.

Lemma lowers_use_slot cb L s (E : Prop) :
  ready cb L -> is_Some (arena_get (stack_slots ir) s) ->
  lowers cb L (use_stack_slot s) E (fun c L' code => map_get (lw_stack_slots L) s = Some c /\ L' = L /\ code = []).
Proof.
  intros Hr Hs. destruct (lo_slots _ (re_ok _ _ Hr) _ Hs) as [c Hc]. unfold use_stack_slot.
  exists (Ok c), L. rewrite Hc. split; [done|]. exists []. split; [by apply emits_refl|done].
Qed.

(** A change of a cache, with what the builder was told. *)
Lemma emits_cache cb L f regions sigs :
  ready cb L -> lowering_ok (mkLowering f regions (lw_stack_slots L) (lw_values L) (lw_blocks L) sigs) ->
  clif_current f = clif_current (lw_builder L) -> clif_blocks (clif_func f) = clif_blocks (func L) ->
  fn_grows (func L) (clif_func f) ->
  emits cb L (mkLowering f regions (lw_stack_slots L) (lw_values L) (lw_blocks L) sigs) [].
Proof.
  intros Hr Hok Hcur Hb Hg. destruct Hr as [Hok0 Hc0 Ho0]. split; try done; simpl.
  - split; simpl; [done|by rewrite Hcur|by rewrite Hb].
  - rewrite Hb. apply (em_code _ _ _ _ (emits_refl cb L ltac:(by split))).
  - by intros r ?%elem_of_nil.
  - constructor.
Qed.

Lemma does_alias_region cb L r :
  ready cb L -> does cb L (alias_region r) (fun a L' code => code = [] /\ clif_aliases (func L') !! a = Some (Z.of_nat (region_index r))).
Proof.
  intros Hr. pose proof (re_ok _ _ Hr) as Hok. unfold does, alias_region.
  assert (region_index r < length (lw_alias_regions L))%nat as Hlt by (rewrite (lo_regions _ Hok); by destruct r; vm_compute; lia).
  apply lookup_lt_is_Some in Hlt as [[a|] Ha]; rewrite Ha.
  - exists a, L, []. split_and!; [done|by apply emits_refl|done|]. by apply (lo_alias _ Hok).
  - destruct (alias_law (Z.of_nat (region_index r)) (lw_builder L)) as (a & f' & E & Hnew & Hf & Hcur).
    unfold sm_bind, on_builder, sm_modify, sm_ret. rewrite E. eexists _, _, []. split; [done|].
    assert (fn_grows (func L) (clif_func f')) as Hg by (rewrite Hf; split; simpl; try done; by apply insert_subseteq).
    split; [|split; [done|]; simpl; rewrite Hf; apply lookup_insert_eq].
    apply (emits_cache cb L f' (<[region_index r := Some a]> (lw_alias_regions L)) (lw_signatures L));
      [done| |done|by rewrite Hf|done].
    destruct (lowering_ok_grow L f' Hok Hg) as [H1 H2 H3 H4 H5 H6]. split; simpl in *; try done.
    + by rewrite length_insert.
    + intros k a'. destruct (decide (k = region_index r)) as [->|Hk].
      * rewrite list_lookup_insert_eq by (by eapply lookup_lt_Some). intros [= <-]. rewrite Hf. apply lookup_insert_eq.
      * rewrite list_lookup_insert_ne by done. apply H4.
Qed.

Lemma does_host_flags cb L can_move r :
  ready cb L -> r <> RVirtualMemory ->
  does cb L (host_memory_flags can_move r) (fun flags L' code => code = [] /\ flags_for (func L') flags r /\
    flag_readonly flags = bool_decide (r = RReadOnly)).
Proof.
  intros Hr Hne. unfold host_memory_flags. rewrite bool_decide_false by done. simpl.
  eapply (does_bind _ _ _ _ (fun _ L' code => L' = L /\ code = [])); [by apply does_ret|]. intros _ L1 c1 M1 [-> ->].
  eapply does_bind; [by apply does_alias_region|]. intros a L1 c1 M2 [-> Ha]. apply does_ret; [apply M2|].
  split; [done|]. split; [split|]; destruct r, can_move; simpl; by eauto.
Qed.

Lemma does_guest_flags cb L :
  ready cb L -> does cb L (guest_memory_flags RVirtualMemory) (fun flags L' code => code = [] /\ guest_flags (func L') flags).
Proof.
  intros Hr. unfold guest_memory_flags. simpl.
  eapply (does_bind _ _ _ _ (fun _ L' code => L' = L /\ code = [])); [by apply does_ret|]. intros _ L1 c1 M1 [-> ->].
  eapply does_bind; [by apply does_alias_region|]. intros a L1 c1 M2 [-> Ha]. apply does_ret; [apply M2|].
  split; [done|]. split; simpl; by eauto.
Qed.

Lemma lowering_ok_sigs L f sigs :
  lowering_ok (set_builder f L) ->
  (forall s r, map_get sigs s = Some r ->
    exists d, arena_get initial_signatures s = Some d /\ clif_sigs (clif_func f) !! r = Some (clif_signature I64 d)) ->
  lowering_ok (mkLowering f (lw_alias_regions L) (lw_stack_slots L) (lw_values L) (lw_blocks L) sigs).
Proof. intros [H1 H2 H3 H4 H5 H6] Hs. by split. Qed.

Lemma lowers_fn_signature cb L s d E :
  ready cb L -> arena_get initial_signatures s = Some d ->
  lowers cb L (fn_signature exec_ir I64 s) E (fun r L' code => code = [] /\ clif_sigs (func L') !! r = Some (clif_signature I64 d)).
Proof.
  intros Hr Hd. pose proof (re_ok _ _ Hr) as Hok. unfold lowers, fn_signature.
  destruct (map_get (lw_signatures L) s) as [r|] eqn:Er.
  - eexists (Ok r), _. split; [done|]. exists []. destruct (lo_sigs _ Hok _ _ Er) as (d' & Hd' & Hr').
    split; [|split; [done|by simplify_eq]].
    apply (emits_cache cb L (lw_builder L) (lw_alias_regions L)); try done.
    apply lowering_ok_sigs; [by destruct L|]. intros k r'. rewrite insertion_slot_get. apply (lo_sigs _ Hok).
  - rewrite Hsigs, Hinit, Hd. unfold sm_bind, sm_of_option, on_builder, sm_modify, lower_ok, sm_ret.
    destruct (signature_law (clif_signature I64 d) (lw_builder L)) as (r & f' & E1 & Hnew & Hf & Hcur). rewrite E1.
    eexists (Ok r), _. split; [done|]. exists [].
    assert (fn_grows (func L) (clif_func f')) as Hg by (rewrite Hf; split; simpl; try done; by apply insert_subseteq).
    split; [|split; [done|]; simpl; rewrite Hf; apply lookup_insert_eq].
    destruct (map_get_or_insert_spec (lw_signatures L) s r) as (m & Em & Hm). rewrite Er in Em, Hm. simpl in Em, Hm.
    apply (emits_cache cb L f' (lw_alias_regions L)); [done| |done|by rewrite Hf|done].
    apply lowering_ok_sigs; [by apply lowering_ok_grow|]. simpl. rewrite Em. intros k r'. simpl. rewrite Hm.
    case_decide as Hk; [intros [= <-]; subst; exists d; split; [done|]; rewrite Hf; apply lookup_insert_eq|].
    apply (lo_sigs _ (lowering_ok_grow L f' Hok Hg)).
Qed.

(** The type of a value that is not a tag. *)
Lemma plain_ty cb L v cv ty :
  ready cb L -> V L v = Some cv -> plain ir v = true -> vty ir v ty ->
  value_types (func L) !! cv = Some (ir_ty_to_clif_ty I64 ty).
Proof.
  intros Hr Hcv Hp Hty. destruct (lo_types _ (re_ok _ _ Hr) _ _ Hcv) as (t & Ht & Hv). unfold lowered_ty in Ht.
  rewrite Hp in Ht. unfold vty in Hty. rewrite Hty in Ht. by injection Ht as <-.
Qed.

(** [ptr_add], for an offset of 64 bits. *)
Lemma lowers_ptr_add cb L p o size (E : Prop) r :
  ready cb L -> plain ir p = true -> plain ir o = true -> vty ir p (THostPtr r) -> vty ir o (TInt W64) ->
  (V L p = None -> E) -> (V L o = None -> E) -> (I64_MAX < size -> E) ->
  lowers cb L (ptr_add I64 p o size) E (fun a L' code => value_types (func L') !! a = Some I64 /\
    exists cp co scale co', V L p = Some cp /\ V L o = Some co /\ scaled size co scale co' /\ size <= I64_MAX /\
      code = scale ++ [inst1 Ins.iadd [cp; co'] a]).
Proof.
  intros Hr Hp Ho Tp To Ep Eo Es. unfold ptr_add.
  eapply lowers_try; [by apply lowers_use_value|]. intros cp L1 c1 _ (Hcp & -> & ->).
  eapply lowers_try; [by apply lowers_use_value|]. intros co L1 c1 _ (Hco & -> & ->).
  pose proof (plain_ty _ _ _ _ _ Hr Hcp Hp Tp) as Typ. pose proof (plain_ty _ _ _ _ _ Hr Hco Ho To) as Tyo.
  eapply lowers_try; [by apply lowers_assert_ty|]. intros _ L1 c1 _ (-> & ->).
  eapply lowers_bind; [by apply does_value_ty|]. intros t L1 c1 _ (-> & -> & ->). simpl.
  eapply (lowers_bind _ _ _ _ (fun a L' code => a = co /\ L' = L /\ code = [])); [by apply does_ret|]. intros a L1 c1 _ (-> & -> & ->).
  eapply (lowers_try _ _ _ _ (fun o' L' code => value_types (func L') !! o' = Some I64 /\ scaled size co code o' /\ size <= I64_MAX)).
  { unfold scaled. destruct (size =? 1) eqn:E1.
    - apply Z.eqb_eq in E1 as ->. apply lowers_ok; [done|]. rewrite decide_True by done. by split_and!.
    - apply Z.eqb_neq in E1. destruct (Z.leb_spec size I64_MAX) as [Hs|Hs].
      + eapply lowers_bind; [eapply (does_ins1 _ _ _ _ [I64] I64); [done| |done]; by repeat constructor|].
        intros v L1 c1 M1 [-> Hv]. apply lowers_ok; [apply M1|]. rewrite decide_False by done. by split_and!.
      + by apply lowers_err, Es. }
  intros o' L1 c1 M1 (Hto & Hsc & Hsz).
  eapply lowers_bind; [eapply (does_ins1 _ _ _ _ [I64; I64] I64); [apply M1| |done]|].
  { constructor; [|by repeat constructor]. by eapply lookup_weaken, (gr_types _ _ (em_grows _ _ _ _ M1)). }
  intros a L2 c2 M2 [-> Ha]. apply lowers_ok; [apply M2|]. split; [done|]. rewrite app_nil_r. simpl.
  exists cp, co, c1, o'. by split_and!.
Qed.
End Emit.
