(* ===== verification/CraneliftStmt.v ===== *)
(** * Translating a statement
    ([jit-compiler-core/src/compiler/cranelift_backend.rs], [lower_rvalue])

    On a well-typed statement [lower_rvalue] does not panic; it returns an error
    exactly if an operand was not lowered before or an immediate is too large, and
    otherwise it emits the code of the statement. *)

From S2P Require Import Prelude Convert HaltReason MemTypes Fault Memops ObjectQueue Fabric PageTable IoMMU.
From S2P Require Import ExclusiveMonitor LookupCache MemAccess FfiSupport Arena Ir IrSem IrEmit IrLogic IrArith.
From S2P Require Import IrTyping IrBuilt IrBuilder IrRun.
From S2P Require Import Tarjan SccGraph HaltCheck HaltSplit HaltInv HaltSound BlockOrder.
From S2P Require Import BackEnd.
From S2P Require Import Clif CraneliftLower CraneliftHost CraneliftCode CraneliftEmit.
Local Open Scope Z_scope.
Local Open Scope emu_scope.

(** Why the translation of a statement may fail. *)
Definition large_immediate (rv : StmtKind) : Prop :=
  match rv with
  | KLoadHost _ _ offset _ | KStoreHost _ offset _ _ => I32_MAX < offset
  | KPtrAdd _ _ size => I64_MAX < size
  | _ => False
  end.
Definition stmt_fails (V : SSAValue -> option ClifValue) (rv : StmtKind) : Prop :=
  (exists v, v ∈ operands rv /\ V v = None) \/ large_immediate rv.

(** The types of its outputs. *)
Definition output_types (rv : StmtKind) (tys : list TypeFull) : list ClifType :=
  match rv with KHasTag _ _ => [I64] | _ => ir_ty_to_clif_ty I64 <$> tys end.

Section Stmt.
Context {F : Type} `{!FunctionBuilder F, !FunctionBuilderLaws F [I32] }.
Context (ir : ExecIrBuilder) (exec_ir : ExecIr) (helper_address : HostCallback -> Z).
Context (Hvalues : exec_ssa_values exec_ir = ssa_values ir) (Hsigs : exec_signatures exec_ir = signatures ir)
  (Hinit : signatures ir = initial_signatures).
Context (Hhalt : vty ir ARG_HALT_REASON_PTR (THostPtr RHaltReason)).
Abbreviation Lowering := (@FunctionLowering F).
Abbreviation func L := (clif_func (lw_builder L)).
Abbreviation V L := (map_get (lw_values L)).
Abbreviation slots L := (map_get (lw_stack_slots L)).
Abbreviation ready := (ready ir).
Abbreviation lowers := (lowers ir).
Abbreviation does := (does ir).
Abbreviation emits := (emits ir).

Lemma flags_for_grow f f' flags r : fn_grows f f' -> flags_for f flags r -> flags_for f' flags r.
Proof. intros Hg [H1 (a & Ha & Hl) H3]. split; try done. exists a. split; [done|]. by eapply lookup_weaken, (gr_aliases _ _ Hg). Qed.

Lemma guest_flags_grow f f' flags : fn_grows f f' -> guest_flags f flags -> guest_flags f' flags.
Proof. intros Hg [H1 (a & Ha & Hl) H3]. split; try done. exists a. split; [done|]. by eapply lookup_weaken, (gr_aliases _ _ Hg). Qed.

Lemma lowers_one cb (L : Lowering) op args tys ty E :
  ready cb L -> of_types (func L) args tys -> result_types (func L) op tys = Some [ty] ->
  lowers cb L (one (ins1 op args)) E (fun outs L' code => exists r, code = [inst1 op args r] /\ outs = [r] /\
    value_types (func L') !! r = Some ty).
Proof.
  intros Hr Ht Hres. eapply lowers_bind; [by eapply does_ins1|]. intros r L1 c1 M1 [-> Hv].
  apply lowers_ok; [apply M1|]. by exists r.
Qed.

(** A statement of one instruction. *)
Lemma simple_spec cb (L : Lowering) op vs args tys ty E :
  ready cb L -> Forall2 (fun v c => V L v = Some c) vs args -> of_types (func L) args tys ->
  result_types (func L) op tys = Some [ty] ->
  lowers cb L (one (ins1 op args)) E (fun outs L' code => simple (V L) op vs code outs /\ of_types (func L') outs [ty]).
Proof.
  intros Hr Ha Ht Hres. eapply lowers_impl; [by eapply lowers_one|]. intros outs L' c _ (r & -> & -> & Hv).
  split; [by exists args, r|by repeat constructor].
Qed.

(** Reading an operand: it is there, or the statement fails. *)
Ltac failing HE :=
  intros; apply HE; left; eexists; (split; [|eassumption]); simpl; rewrite ?elem_of_cons; tauto.
Ltac use HE :=
  eapply lowers_try; [apply lowers_use_value; [eassumption|failing HE]|];
  let cv := fresh "cv" in let Hcv := fresh "Hcv" in intros cv ? ? _ (Hcv & -> & ->); simpl app.
Ltac plain_types Hr :=
  repeat match goal with
  | H : V _ ?v = Some ?cv, H' : vty ir ?v ?ty, Hp : plain ir ?v = true |- _ =>
      pose proof (plain_ty _ _ _ _ _ _ Hr H Hp H'); clear H'
  end.
(** One instruction on the operands read. *)
Ltac simple_case Hr :=
  eapply simple_spec; [exact Hr|repeat (constructor; [eassumption|]); constructor
    |repeat (constructor; [eassumption|]); constructor|].
Ltac split_lowerable H :=
  unfold stmt_lowerable in H; simpl in H; rewrite ?andb_true_iff in H; destruct_and? H.

Lemma type_of_output rv v tys ty : 
  type_of rv ir = Some (tys, ir) -> (let! t := ty_of v in sm_ret [t]) ir = type_of rv ir -> vty ir v ty -> tys = [ty].
Proof. intros Ht E Hv. rewrite <- E in Ht. by eapply type_of_value. Qed.

Lemma pointee_spec cb (L : Lowering) p r : ready cb L -> vty ir p (THostPtr r) ->
  does cb L (pointee exec_ir p) (fun x L' code => x = r /\ L' = L /\ code = []).
Proof.
  intros Hr Hp. exists r, L, []. unfold pointee. rewrite Hvalues. unfold vty in Hp. rewrite Hp.
  split_and!; try done. by apply emits_refl.
Qed.

Lemma offset_spec cb (L : Lowering) off (E : Prop) : ready cb L -> (I32_MAX < off -> E) ->
  lowers cb L (offset32 off) E (fun x L' code => x = off /\ off <= I32_MAX /\ L' = L /\ code = []).
Proof.
  intros Hr HE. unfold offset32. destruct (Z.leb_spec off I32_MAX) as [H|H]; [by apply lowers_ok|].
  by apply lowers_err, HE.
Qed.

Lemma not_guest p r :
  match arena_get (ssa_values ir) p with Some (THostPtr RVirtualMemory) => false | _ => true end = true ->
  vty ir p (THostPtr r) -> r <> RVirtualMemory.
Proof. unfold vty. intros H Hp ->. by rewrite Hp in H. Qed.

Section Cases.
Context (cb : ClifBlock) (L : Lowering) (Hr : ready cb L) (E : Prop).

Abbreviation spec rv tys := (lowers cb L (lower_rvalue exec_ir I64 helper_address rv) E (fun outs L' code =>
    stmt_code ir helper_address (func L') (V L) (slots L) rv code outs /\ of_types (func L') outs (output_types rv tys))).

Lemma simple_stmt_spec rv tys :
  is_simple rv = true -> stmt_typed ir rv -> stmt_lowerable ir rv = true -> type_of rv ir = Some (tys, ir) ->
  (stmt_fails (V L) rv -> E) -> spec rv tys.
Proof.
  intros Hs Ht Hl Hty HE. destruct rv; try done; cbn [stmt_typed] in Ht; unfold int_operand in Ht;
    repeat match goal with H : exists _, _ |- _ => destruct H | H : _ /\ _ |- _ => destruct H end;
    split_lowerable Hl; cbn [lower_rvalue stmt_code output_types].
  all: try (eapply type_of_value in Hty; [|eassumption]; subst tys).
  all: try (injection Hty as <-).
  all: repeat use HE; plain_types Hr.
  11: do 2 (eapply lowers_try; [by apply lowers_assert_ty|]; intros ? ? ? _ (-> & ->); simpl app).
  all: cbn [fmap list_fmap]; try (simple_case Hr; try reflexivity).
  all: try (destruct op); simpl; rewrite ?decide_True by done; reflexivity.
Qed.

Lemma select_spec c a b tys :
  let rv := KSelect c a b in
  stmt_typed ir rv -> stmt_lowerable ir rv = true -> type_of rv ir = Some (tys, ir) -> (stmt_fails (V L) rv -> E) -> spec rv tys.
Proof.
  intros rv (Hc & ty & Ha & Hb) Hl Hty HE. split_lowerable Hl. cbn [rv lower_rvalue stmt_code output_types].
  eapply type_of_value in Hty; [|exact Ha]. subst tys. repeat use HE.
  destruct (lo_types _ _ (re_ok _ _ _ Hr) _ _ Hcv) as (tc & _ & Hcty). plain_types Hr. cbn [fmap list_fmap].
  simple_case Hr. simpl. by rewrite decide_True.
Qed.

Lemma overflowing_spec op a b tys :
  let rv := KOverflowingBinOp op a b in
  stmt_typed ir rv -> stmt_lowerable ir rv = true -> type_of rv ir = Some (tys, ir) -> (stmt_fails (V L) rv -> E) -> spec rv tys.
Proof.
  intros rv (w & Ha & Hb) Hl Hty HE. split_lowerable Hl. cbn [rv lower_rvalue stmt_code output_types].
  assert (tys = [TInt w; TBool]) as ->.
  { simpl in Hty. unfold sm_bind, ty_of, sm_of_option, sm_ret in Hty. unfold vty in Ha. rewrite Ha in Hty. by injection Hty as <-. }
  repeat use HE. plain_types Hr.
  eapply lowers_bind; [eapply does_ins2; [exact Hr|by repeat constructor|]|].
  { instantiate (1 := I8). instantiate (1 := clif_int_ty w). destruct op; simpl; by rewrite decide_True. }
  intros [r o] L1 c1 M1 [-> Hro]. apply lowers_ok; [apply M1|]. split; [|exact Hro]. by exists cv, cv0, r, o.
Qed.

Lemma shift_unbounded_spec op a n tys :
  let rv := KShiftUnbounded op a n in
  stmt_typed ir rv -> stmt_lowerable ir rv = true -> type_of rv ir = Some (tys, ir) -> (stmt_fails (V L) rv -> E) -> spec rv tys.
Proof.
  intros rv ([w Ha] & [wn Hn]) Hl Hty HE. split_lowerable Hl. cbn [rv lower_rvalue stmt_code output_types].
  assert (exists u, u = w /\ vty ir a (TInt u)) as Hkeep by eauto.
  eapply type_of_value in Hty; [|exact Ha]. subst tys. repeat use HE. plain_types Hr.
  eapply lowers_bind with (Q1 := fun (r : ClifValue) (L' : Lowering) (code : list Inst) => value_types (func L') !! r = Some (clif_int_ty w) /\
    exists in_range shifted over, code = [inst1 (Ins.icmp_imm CcUnsignedLessThan (bits w)) [cv0] in_range;
      inst1 (shift_op op) [cv; cv0] shifted; overflow_inst op w cv over; inst1 Ins.select [in_range; shifted; over] r]).
  - unfold lower_shift_unbounded. eapply does_bind; [by apply does_value_ty|]. intros ? ? ? _ (-> & -> & ->).
    simpl (ir_ty_to_clif_ty I64 (TInt w)). rewrite ty_bits_int.
    eapply does_bind; [eapply does_ins1; [exact Hr|by repeat constructor|reflexivity]|]. intros r1 L1 c1 M1 [-> T1].
    pose proof (em_grows _ _ _ _ _ M1) as G1.
    eapply does_bind; [eapply does_ins1 with (ty := clif_int_ty w); [apply M1|eapply of_types_grow; [exact G1|by repeat constructor]|by destruct op]|].
    intros r2 L2 c2 M2 [-> T2]. pose proof (em_grows _ _ _ _ _ M2) as G2.
    assert (fn_grows (func L) (func L2)) as G12 by (by etrans).
    eapply (does_bind _ _ _ _ _ (fun (r : ClifValue) (L' : Lowering) (code : list Inst) => code = [overflow_inst op w cv r] /\ value_types (func L') !! r = Some (clif_int_ty w))).
    { destruct op;
        [eapply does_ins1 with (tys := [clif_int_ty w]); [apply M2|eapply of_types_grow; [exact G12|by repeat constructor]|reflexivity]
        |eapply does_ins1 with (tys := []); [apply M2|constructor|reflexivity]..]. }
    intros r3 L3 c3 M3 [-> T3]. pose proof (em_grows _ _ _ _ _ M3) as G3.
    assert (of_types (func L3) [r1; r2; r3] [I8; clif_int_ty w; clif_int_ty w]) as Ht3.
    { constructor; [eapply lookup_weaken; [exact T1|]; by etrans; [apply (gr_types _ _ G2)|apply (gr_types _ _ G3)]|].
      constructor; [eapply lookup_weaken; [exact T2|apply (gr_types _ _ G3)]|by repeat constructor]. }
    eapply does_impl; [eapply does_ins1; [apply M3|exact Ht3|simpl; by rewrite decide_True]|].
    intros r L4 c4 _ [-> T4]. split; [exact T4|]. by exists r1, r2, r3.
  - intros r L1 c1 M1 (T1 & r1 & r2 & r3 & ->). apply lowers_ok; [apply M1|]. split; [|by repeat constructor].
    destruct Hkeep as (? & -> & Hkeep). exists w, cv, cv0, r1, r2, r3, r. by split_and!.
Qed.

Lemma load_host_spec ty p off can_move tys :
  let rv := KLoadHost ty p off can_move in
  stmt_typed ir rv -> stmt_lowerable ir rv = true -> type_of rv ir = Some (tys, ir) -> (stmt_fails (V L) rv -> E) -> spec rv tys.
Proof.
  intros rv [r Hp] Hl [= <-] HE. split_lowerable Hl. assert (r <> RVirtualMemory) as Hne by by eapply not_guest. cbn [rv lower_rvalue stmt_code output_types].
  eapply lowers_bind; [by apply pointee_spec|]. intros ? ? ? _ (-> & -> & ->). unfold lower_host_load.
  eapply lowers_try with (Q1 := fun (a : ClifValue) (L' : Lowering) (code : list Inst) => 
    value_types (func L') !! a = Some (load_ty I64 ty) /\ exists flags cv, V L p = Some cv /\ flags_for (func L') flags r /\
      off <= I32_MAX /\ code = [inst1 (Ins.load (load_ty I64 ty) flags off) [cv] a]).
  - pose proof Hp as Hp'. use HE. plain_types Hr.
    eapply lowers_try; [apply offset_spec; [done|]; intros ?; apply HE; by right|]. intros ? ? ? _ (-> & Ho & -> & ->).
    eapply lowers_bind; [apply does_host_flags; [done|exact Hne]|]. intros flags L1 c1 M1 (-> & Hf & _).
    pose proof (em_grows _ _ _ _ _ M1) as G1.
    eapply lowers_bind; [eapply does_ins1; [apply M1|eapply of_types_grow; [exact G1|by repeat constructor]|reflexivity]|].
    intros a L2 c2 M2 [-> T2]. pose proof (em_grows _ _ _ _ _ M2) as G2. apply lowers_ok; [apply M2|]. split; [done|].
    exists flags, cv. split_and!; [done| |done|done]. by eapply flags_for_grow.
  - intros a L1 c1 M1 (T1 & flags & cv & Hcv & Hf & Ho & ->). apply lowers_ok; [apply M1|]. split; [|by constructor; [destruct ty|constructor]].
    exists r, flags. split_and!; [done..|]. exists [cv], a. split_and!; [by repeat constructor|done..].
Qed.
Lemma store_host_spec p off v can_move tys :
  let rv := KStoreHost p off v can_move in
  stmt_typed ir rv -> stmt_lowerable ir rv = true -> type_of rv ir = Some (tys, ir) -> (stmt_fails (V L) rv -> E) -> spec rv tys.
Proof.
  intros rv [[r Hp] [ty Hv]] Hl [= <-] HE. split_lowerable Hl. assert (r <> RVirtualMemory) as Hne by by eapply not_guest.
  cbn [rv lower_rvalue stmt_code output_types].
  eapply lowers_bind; [by apply pointee_spec|]. intros ? ? ? _ (-> & -> & ->). simpl app. use HE. unfold lower_host_store.
  assert (exists u, u = r /\ vty ir p (THostPtr u)) as Hkeep by eauto.
  eapply lowers_try with (Q1 := fun (_ : unit) (L' : Lowering) (code : list Inst) => exists flags cp, V L p = Some cp /\
    flags_for (func L') flags r /\ flag_readonly flags = bool_decide (r = RReadOnly) /\
    off <= I32_MAX /\ code = [mkInst (Ins.store flags off) [cv; cp] []]).
  - use HE. plain_types Hr.
    eapply lowers_try; [apply offset_spec; [done|]; intros ?; apply HE; by right|]. intros ? ? ? _ (-> & Ho & -> & ->).
    eapply lowers_bind; [apply does_host_flags; [done|exact Hne]|]. intros flags L1 c1 M1 (-> & Hf & Hro).
    pose proof (em_grows _ _ _ _ _ M1) as G1.
    eapply lowers_bind; [eapply does_ins0; [apply M1|eapply of_types_grow; [exact G1|by repeat constructor]|reflexivity]|].
    intros a L2 c2 M2 ->. pose proof (em_grows _ _ _ _ _ M2) as G2. apply lowers_ok; [apply M2|].
    exists flags, cv0. split_and!; try done. by eapply flags_for_grow.
  - intros _ L1 c1 M1 (flags & cp & Hcp & Hf & Hro & Ho & ->). apply lowers_ok; [apply M1|]. split; [|constructor].
    destruct Hkeep as (? & -> & Hkeep). exists r, flags, cv, cp. by split_and!.
Qed.

Lemma stack_ptr_spec slot tys :
  let rv := KLoadStackPtr slot in stmt_typed ir rv -> type_of rv ir = Some (tys, ir) -> spec rv tys.
Proof.
  intros rv Hs [= <-]. cbn [rv lower_rvalue stmt_code output_types].
  eapply lowers_try; [by apply lowers_use_slot|]. intros cs ? ? _ (Hcs & -> & ->). simpl app.
  eapply lowers_impl; [eapply lowers_one; [exact Hr|constructor|reflexivity]|].
  intros outs L' c _ (r & -> & -> & Hv). split; [by exists cs, r|by repeat constructor].
Qed.

Lemma ptr_add_spec p o size tys :
  let rv := KPtrAdd p o size in
  stmt_typed ir rv -> stmt_lowerable ir rv = true -> type_of rv ir = Some (tys, ir) -> (stmt_fails (V L) rv -> E) -> spec rv tys.
Proof.
  intros rv [[r Hp] Ho] Hl Hty HE. split_lowerable Hl. cbn [rv lower_rvalue stmt_code output_types].
  eapply type_of_value in Hty; [|exact Hp]. subst tys.
  eapply lowers_try; [eapply lowers_ptr_add; [done|done|done|exact Hp|exact Ho|failing HE|failing HE|]|].
  { intros ?. apply HE. by right. }
  intros a L1 c1 M1 (Ta & cp & co & scale & co' & Hcp & Hco & Hsc & Hsz & ->). apply lowers_ok; [apply M1|].
  split; [|by repeat constructor]. rewrite app_nil_r. by exists cp, co, scale, co', a.
Qed.

Lemma of_types_operands vs cs tys :
  forallb (plain ir) vs = true -> Forall2 (fun v c => V L v = Some c) vs cs -> Forall2 (vty ir) vs tys ->
  of_types (func L) cs (ir_ty_to_clif_ty I64 <$> tys).
Proof.
  intros Hp Hcs. revert tys. induction Hcs as [|v c vs cs Hv _ IH]; intros tys Ht.
  { apply Forall2_nil_inv_l in Ht as ->. constructor. }
  apply Forall2_cons_inv_l in Ht as (ty & tys' & Hty & Htys & ->). simpl in Hp. apply andb_true_iff in Hp as [Hp1 Hp2].
  simpl. constructor; [by eapply plain_ty|by apply IH].
Qed.

Lemma callback_spec f signature vs tys :
  let rv := KHostCallback f signature vs in
  stmt_typed ir rv -> stmt_lowerable ir rv = true -> type_of rv ir = Some (tys, ir) -> (stmt_fails (V L) rv -> E) -> spec rv tys.
Proof.
  intros rv (Hf & d & Hd & Hvs) Hl Hty HE. apply andb_true_iff in Hl as [Hp _]. cbn [rv lower_rvalue stmt_code output_types].
  assert (tys = match sig_ret d with Some ret => [ret] | None => [] end) as ->.
  { simpl in Hty. unfold sm_bind, signature_of, sm_of_option, sm_ret in Hty. rewrite Hd in Hty. by injection Hty as <-. }
  rewrite Hinit in Hd. unfold lower_callback.
  eapply lowers_try; [by apply (lowers_fn_signature ir exec_ir Hsigs Hinit)|]. intros ref L1 c1 M1 [-> Href]. simpl app.
  pose proof (em_grows _ _ _ _ _ M1) as G1. pose proof (em_values _ _ _ _ _ M1) as EV.
  eapply lowers_try; [apply lowers_use_values; [apply M1|]|].
  { intros v Hv. rewrite EV. intros Hn. apply HE. left. by exists v. }
  intros cs ? ? _ (Hcs & -> & ->). simpl app. rewrite EV in Hcs.
  pose proof (of_types_operands _ _ _ Hp Hcs Hvs) as Tcs.
  eapply lowers_bind; [eapply does_ins1; [apply M1|constructor|reflexivity]|]. intros fp L2 c2 M2 [-> Tf].
  pose proof (em_grows _ _ _ _ _ M2) as G2.
  eapply lowers_bind; [eapply does_ins; [apply M2| |]|].
  { constructor; [exact Tf|]. eapply of_types_grow; [|exact Tcs]. by etrans. }
  { simpl. rewrite (lookup_weaken _ _ _ _ Href (gr_sigs _ _ G2)). simpl. by rewrite decide_True. }
  intros res L3 c3 M3 [-> Tres]. pose proof (em_grows _ _ _ _ _ M3) as G3. apply lowers_ok; [apply M3|].
  split; [|by destruct (sig_ret d)]. rewrite app_nil_r. exists ref, d, cs, fp, res. split_and!; try done.
  - eapply lookup_weaken; [|apply (gr_sigs _ _ G3)]. by eapply lookup_weaken; [|apply (gr_sigs _ _ G2)].
  - by apply Forall2_length in Tres.
Qed.

Lemma vm_load_spec p o w q tys :
  let rv := KVMLoadRaw p o w q in
  stmt_typed ir rv -> stmt_lowerable ir rv = true -> type_of rv ir = Some (tys, ir) -> (stmt_fails (V L) rv -> E) -> spec rv tys.
Proof.
  intros rv [Hp Ho] Hl [= <-] HE. split_lowerable Hl. cbn [rv lower_rvalue stmt_code output_types]. unfold ptr_byte_add.
  eapply lowers_try; [eapply lowers_ptr_add; [done|done|done|exact Hp|exact Ho|failing HE|failing HE|done]|].
  intros a L1 c1 M1 (Ta & cp & co & scale & co' & Hcp & Hco & [-> ->] & Hsz & ->). pose proof (em_grows _ _ _ _ _ M1) as G1.
  eapply lowers_bind; [apply does_guest_flags, M1|]. intros flags L2 c2 M2 [-> Hf]. pose proof (em_grows _ _ _ _ _ M2) as G2.
  eapply lowers_impl; [eapply lowers_one with (tys := [I64]); [apply M2| |reflexivity]|].
  { constructor; [|constructor]. eapply lookup_weaken; [exact Ta|apply (gr_types _ _ G2)]. }
  intros outs L3 c3 M3 (r & -> & -> & Hv). split; [|by repeat constructor].
  exists cp, co, a, flags, r. split_and!; try done. eapply guest_flags_grow; [|exact Hf]. apply (em_grows _ _ _ _ _ M3).
Qed.

Lemma vm_store_spec p o v q tys :
  let rv := KVMStoreRaw p o v q in
  stmt_typed ir rv -> stmt_lowerable ir rv = true -> type_of rv ir = Some (tys, ir) -> (stmt_fails (V L) rv -> E) -> spec rv tys.
Proof.
  intros rv (Hp & Ho & [w Hv]) Hl [= <-] HE. split_lowerable Hl. cbn [rv lower_rvalue stmt_code output_types]. unfold ptr_byte_add.
  use HE. assert (value_types (func L) !! cv = Some (clif_int_ty w)) as Tv by by eapply (plain_ty _ _ _ v cv (TInt w)).
  eapply lowers_try; [eapply lowers_ptr_add; [done|done|done|exact Hp|exact Ho|failing HE|failing HE|done]|].
  intros a L1 c1 M1 (Ta & cp & co & scale & co' & Hcp & Hco & [-> ->] & Hsz & ->). pose proof (em_grows _ _ _ _ _ M1) as G1.
  eapply lowers_bind; [apply does_guest_flags, M1|]. intros flags L2 c2 M2 [-> Hf]. pose proof (em_grows _ _ _ _ _ M2) as G2.
  eapply lowers_bind; [eapply does_ins0 with (tys := [clif_int_ty w; I64]); [apply M2| |reflexivity]|].
  { constructor; [|constructor; [|constructor]].
    - eapply lookup_weaken; [exact Tv|]. etrans; [apply (gr_types _ _ G1)|apply (gr_types _ _ G2)].
    - eapply lookup_weaken; [exact Ta|apply (gr_types _ _ G2)]. }
  intros _ L3 c3 M3 ->. apply lowers_ok; [apply M3|]. split; [|constructor].
  exists cp, co, cv, a, flags. split_and!; try done. eapply guest_flags_grow; [|exact Hf]. apply (em_grows _ _ _ _ _ M3).
Qed.

Lemma load_halt_spec tys :
  stmt_lowerable ir KLoadHaltReason = true -> type_of KLoadHaltReason ir = Some (tys, ir) ->
  (stmt_fails (V L) KLoadHaltReason -> E) -> spec KLoadHaltReason tys.
Proof.
  intros Hl [= <-] HE. split_lowerable Hl. cbn [lower_rvalue stmt_code output_types]. use HE. plain_types Hr.
  eapply lowers_bind; [by apply does_host_flags|]. intros flags L1 c1 M1 (-> & Hf & _). pose proof (em_grows _ _ _ _ _ M1) as G1.
  eapply lowers_impl; [eapply lowers_one; [apply M1|eapply of_types_grow; [exact G1|by repeat constructor]|reflexivity]|].
  intros outs L2 c2 M2 (r & -> & -> & Hv). split; [|by repeat constructor]. exists flags. split.
  - eapply flags_for_grow; [|exact Hf]. apply (em_grows _ _ _ _ _ M2).
  - exists [cv], r. split_and!; [by repeat constructor|done..].
Qed.

Lemma take_halt_spec tys :
  stmt_lowerable ir KTakeHaltReason = true -> type_of KTakeHaltReason ir = Some (tys, ir) ->
  (stmt_fails (V L) KTakeHaltReason -> E) -> spec KTakeHaltReason tys.
Proof.
  intros Hl [= <-] HE. split_lowerable Hl. cbn [lower_rvalue stmt_code output_types]. unfold lower_take_halt_reason, lower_iconst.
  eapply lowers_bind; [eapply does_ins1; [exact Hr|constructor|reflexivity]|]. intros zero L1 c1 M1 [-> Tz].
  pose proof (em_grows _ _ _ _ _ M1) as G1. pose proof (em_values _ _ _ _ _ M1) as EV.
  eapply lowers_try; [apply lowers_use_value; [apply M1|rewrite EV; failing HE]|]. intros cp ? ? _ (Hcp & -> & ->).
  rewrite EV in Hcp. plain_types Hr. simpl app.
  eapply lowers_bind; [apply does_host_flags; [apply M1|done]|]. intros flags L2 c2 M2 (-> & Hf & _). pose proof (em_grows _ _ _ _ _ M2) as G2.
  eapply lowers_bind; [eapply does_ins1 with (tys := [I64; I32]); [apply M2| |reflexivity]|].
  { constructor; [|constructor; [|constructor]].
    - eapply lookup_weaken; [eassumption|]. etrans; [apply (gr_types _ _ G1)|apply (gr_types _ _ G2)].
    - eapply lookup_weaken; [exact Tz|apply (gr_types _ _ G2)]. }
  intros r L3 c3 M3 [-> Hv]. apply lowers_ok; [apply M3|]. split; [|by repeat constructor].
  exists cp, zero, flags, r. split_and!; try done. eapply flags_for_grow; [|exact Hf]. apply (em_grows _ _ _ _ _ M3).
Qed.

Lemma dirty_flag_spec p tys :
  let rv := KSetPageDirtyFlag p in
  stmt_typed ir rv -> stmt_lowerable ir rv = true -> type_of rv ir = Some (tys, ir) -> (stmt_fails (V L) rv -> E) -> spec rv tys.
Proof.
  intros rv Hp Hl [= <-] HE. cbn [stmt_typed rv] in Hp. split_lowerable Hl. cbn [rv lower_rvalue stmt_code output_types]. unfold lower_set_page_dirty, lower_iconst.
  use HE. plain_types Hr.
  eapply lowers_bind; [eapply does_ins1; [exact Hr|constructor|reflexivity]|]. intros bit L1 c1 M1 [-> Tb].
  pose proof (em_grows _ _ _ _ _ M1) as G1.
  eapply lowers_bind; [apply does_host_flags; [apply M1|done]|]. intros flags L2 c2 M2 (-> & Hf & _). pose proof (em_grows _ _ _ _ _ M2) as G2.
  eapply lowers_bind; [eapply does_ins1 with (tys := [I64; I8]); [apply M2| |reflexivity]|].
  { constructor; [|constructor; [|constructor]].
    - eapply lookup_weaken; [eassumption|]. etrans; [apply (gr_types _ _ G1)|apply (gr_types _ _ G2)].
    - eapply lookup_weaken; [exact Tb|apply (gr_types _ _ G2)]. }
  intros r L3 c3 M3 [-> Hv]. apply lowers_ok; [apply M3|]. split; [|constructor].
  exists cv, bit, flags, r. split_and!; try done. eapply flags_for_grow; [|exact Hf]. apply (em_grows _ _ _ _ _ M3).
Qed.

(** Translating a statement. *)
Lemma lower_rvalue_spec rv tys :
  stmt_typed ir rv -> stmt_lowerable ir rv = true -> type_of rv ir = Some (tys, ir) -> (stmt_fails (V L) rv -> E) -> spec rv tys.
Proof.
  intros Ht Hl Hty HE. destruct rv; try (by apply simple_stmt_spec).
  - by apply overflowing_spec.
  - by apply select_spec.
  - by apply shift_unbounded_spec.
  - by apply load_host_spec.
  - by apply store_host_spec.
  - by apply stack_ptr_spec.
  - by apply ptr_add_spec.
  - by apply callback_spec.
  - by apply vm_load_spec.
  - by apply vm_store_spec.
  - by apply load_halt_spec.
  - by apply take_halt_spec.
  - by apply dirty_flag_spec.
  - injection Hty as <-. by apply lowers_ok.
Qed.
End Cases.
End Stmt.
