(* ===== verification/CraneliftFunc.v ===== *)
(** * Translating the statements of a function
    ([jit-compiler-core/src/compiler/cranelift_backend.rs], [lower_stmt])

    What a statement leaves in the Cranelift function, in terms that later
    translation does not disturb, and that [lower_stmt] leaves it. *)

From S2P Require Import Prelude Convert HaltReason MemTypes Fault Memops ObjectQueue Fabric PageTable IoMMU.
From S2P Require Import ExclusiveMonitor LookupCache MemAccess FfiSupport Arena Ir IrSem IrEmit IrLogic IrArith.
From S2P Require Import IrTyping IrBuilt IrBuilder IrRun.
From S2P Require Import Tarjan SccGraph HaltCheck HaltSplit HaltInv HaltSound BlockOrder.
From S2P Require Import BackEnd.
From S2P Require Import Clif CraneliftLower CraneliftHost CraneliftCode CraneliftEmit CraneliftStmt.
Local Open Scope Z_scope.
Local Open Scope emu_scope.

Lemma elem_of_tags ir v : v ∈ tags ir <->
  exists x d m p, arena_get (all_stmts ir) x = Some d /\ rvalue d = KHasTag p m /\ v ∈ outputs d.
Proof.
  unfold tags. rewrite elem_of_list_to_set, list_elem_of_bind. split.
  - intros (d & Hv & Hd). apply list_elem_of_lookup in Hd as [i Hi].
    destruct (rvalue d) eqn:E; try (by apply elem_of_nil in Hv).
    exists (Pos.of_succ_nat i), d. eexists _, _. split_and!; [|done|done].
    unfold arena_get. by rewrite get_of_succ.
  - intros (x & d & m & p & Hd & E & Hv). exists d. rewrite E. split; [done|]. by eapply list_elem_of_lookup_2.
Qed.

(** Parameters are plain, and so are the outputs of the other statements. *)
Lemma parameter_plain ir b d v : compilable ir -> arena_get (blocks ir) b = Some d -> v ∈ parameters d -> plain ir v = true.
Proof.
  intros H Hd Hv. apply bool_decide_eq_true. intros (x & d' & m & p & Hd' & _ & Hv')%elem_of_tags.
  apply list_elem_of_lookup in Hv as [i Hi], Hv' as [j Hj].
  assert (SParam b i = SOutput x j); [|done]. eapply (co_ssa _ H v); by econstructor.
Qed.

Lemma output_plain ir x d v :
  compilable ir -> arena_get (all_stmts ir) x = Some d -> v ∈ outputs d ->
  plain ir v = match rvalue d with KHasTag _ _ => false | _ => true end.
Proof.
  intros H Hd Hv. destruct (plain ir v) eqn:Ep.
  - apply bool_decide_eq_true in Ep. case_match eqn:E; try done. exfalso. apply Ep, elem_of_tags. eauto 8.
  - apply bool_decide_eq_false, dec_stable, elem_of_tags in Ep as (x' & d' & m & p & Hd' & E & Hv').
    apply list_elem_of_lookup in Hv as [i Hi], Hv' as [j Hj].
    assert (SOutput x i = SOutput x' j) as [= <- _] by (eapply (co_ssa _ H v); by econstructor).
    simplify_eq. by rewrite E.
Qed.

(** The operand of a terminator that is used as a value, and what it passes. *)
Definition term_lowerable (ir : ExecIrBuilder) (t : Terminator) : bool :=
  forallb (fun j => forallb (plain ir) (jump_parameters j)) (targets t) &&
  match kind t with TkReturnCode v => plain ir v | _ => true end.

Definition fn_lowerable (ir : ExecIrBuilder) : bool :=
  forallb (fun d => stmt_lowerable ir (rvalue d)) (all_stmts ir) &&
  forallb (fun d => term_lowerable ir (terminator d)) (blocks ir) &&
  forallb slot_ok (stack_slots ir) && (Z.of_nat (length (stack_slots ir)) <=? HANDLE_MAX).

(** ** When the translation succeeds *)

(** [defd] are the values lowered so far. *)
Definition large (rv : StmtKind) : bool :=
  match rv with
  | KLoadHost _ _ offset _ | KStoreHost _ offset _ _ => I32_MAX <? offset
  | KPtrAdd _ _ size => I64_MAX <? size
  | _ => false
  end.
Definition all_in (vs : list SSAValue) (defd : gset SSAValue) : bool := forallb (fun v => bool_decide (v ∈ defd)) vs.

Fixpoint stmts_check (ir : ExecIrBuilder) (defd : gset SSAValue) (l : list Stmt) : option (gset SSAValue) :=
  match l with
  | [] => Some defd
  | stmt :: l =>
      d ← arena_get (all_stmts ir) stmt;
      if all_in (operands (rvalue d)) defd && negb (large (rvalue d))
      then stmts_check ir (defd ∪ list_to_set (outputs d)) l else None
  end.

Definition term_check (ir : ExecIrBuilder) (defd : gset SSAValue) (t : Terminator) : bool :=
  forallb (fun j => all_in (jump_parameters j) defd) (targets t) &&
  match kind t with
  | TkReturnCode v => bool_decide (v ∈ defd) && bool_decide (arena_get (ssa_values ir) v = Some (TInt W32))
  | TkBrZ v => bool_decide (v ∈ defd)
  | _ => true
  end.

Fixpoint blocks_check (ir : ExecIrBuilder) (defd : gset SSAValue) (l : list Block) : bool :=
  match l with
  | [] => true
  | block :: l =>
      match arena_get (blocks ir) block with
      | Some d =>
          match stmts_check ir defd (stmts d) with
          | Some defd => term_check ir defd (terminator d) && blocks_check ir defd l
          | None => false
          end
      | None => false
      end
  end.

Definition block_params_of (ir : ExecIrBuilder) (block : Block) : list SSAValue :=
  match arena_get (blocks ir) block with Some d => parameters d | None => [] end.

(** Every use is of a parameter or of an output lowered before, in the order of
    compilation; the immediates fit, and codes are 32 bits. *)
Definition lowers_cleanly (ir : ExecIrBuilder) (order : list Block) : bool :=
  blocks_check ir (list_to_set (order ≫= block_params_of ir)) order.

(** ** What a statement leaves *)

Section Func.
Context {F : Type} `{!FunctionBuilder F, !FunctionBuilderLaws F [I32] }.
Context (ir : ExecIrBuilder) (exec_ir : ExecIr) (helper_address : HostCallback -> Z).
Context (Hco : compilable ir) (Hlow : fn_lowerable ir = true).
Context (Hvalues : exec_ssa_values exec_ir = ssa_values ir) (Hsigs : exec_signatures exec_ir = signatures ir)
  (Hstmts : exec_stmts exec_ir = all_stmts ir).
Abbreviation Lowering := (@FunctionLowering F).
Abbreviation func L := (clif_func (lw_builder L)).
Abbreviation V L := (map_get (lw_values L)).
Abbreviation slots L := (map_get (lw_stack_slots L)).
Abbreviation ready := (ready ir).
Abbreviation emits := (emits ir).
Abbreviation lowering_ok := (lowering_ok ir).

(** The outputs of a statement come last. *)
Lemma stmt_code_results fn W S rv code outs :
  stmt_code ir helper_address fn W S rv code outs -> exists pre, results code = pre ++ outs.
Proof.
  assert (forall op vs, simple W op vs code outs -> exists pre, results code = pre ++ outs) as Hsimple.
  { intros op vs (args & r & _ & -> & ->). by exists []. }
  destruct rv; simpl; try apply Hsimple.
  - intros (ca & cb & r & o & _ & _ & -> & ->). by exists [].
  - intros (w & ca & cn & a & b & c & r & _ & _ & _ & -> & ->). exists [a; b; c]. by destruct op.
  - intros (r & flags & _ & _ & _ & H). by eapply Hsimple.
  - intros (r & flags & cv & cp & _ & _ & _ & _ & _ & _ & -> & ->). by exists [].
  - intros (cs & r & _ & -> & ->). by exists [].
  - intros (cp & co & scale & co' & r & _ & _ & _ & _ & -> & ->). exists (results scale). by rewrite results_app.
  - intros (ref & d & cargs & f & res & _ & _ & _ & -> & _ & ->). exists [f]. unfold results. simpl. by rewrite app_nil_r.
  - intros (cp & co & a & flags & r & _ & _ & _ & -> & ->). by exists [a].
  - intros (cp & co & cv & a & flags & _ & _ & _ & _ & -> & ->). by exists [a].
  - intros (flags & _ & H). by eapply Hsimple.
  - intros (cp & zero & flags & r & _ & _ & -> & ->). by exists [zero].
  - intros (cp & bit & flags & old & _ & _ & -> & ->). by exists [bit; old].
  - intros [-> ->]. by exists [].
Qed.

(** It stays the statement's code as the function grows. *)
Lemma stmt_code_grow fn fn' W S rv code outs :
  fn_grows fn fn' -> stmt_code ir helper_address fn W S rv code outs -> stmt_code ir helper_address fn' W S rv code outs.
Proof.
  intros Hg. destruct rv; simpl; try done.
  - intros (r & flags & ? & ? & ?). exists r, flags. split_and!; try tauto. by eapply flags_for_grow.
  - intros (r & flags & cv & cp & ? & ? & ?). exists r, flags, cv, cp. split_and!; try tauto. by eapply flags_for_grow.
  - intros (ref & d & cargs & f & res & ? & Href & ?). exists ref, d, cargs, f, res. split_and!; try tauto.
    eapply lookup_weaken; [exact Href|apply (gr_sigs _ _ Hg)].
  - intros (cp & co & a & flags & r & ? & ? & ? & ?). exists cp, co, a, flags, r. split_and!; try tauto. by eapply guest_flags_grow.
  - intros (cp & co & cv & a & flags & ? & ? & ? & ? & ?). exists cp, co, cv, a, flags. split_and!; try tauto. by eapply guest_flags_grow.
  - intros (flags & ? & ?). exists flags. split; [|done]. by eapply flags_for_grow.
  - intros (cp & zero & flags & r & ? & ? & ?). exists cp, zero, flags, r. split_and!; try tauto. by eapply flags_for_grow.
  - intros (cp & bit & flags & old & ? & ? & ?). exists cp, bit, flags, old. split_and!; try tauto. by eapply flags_for_grow.
Qed.

(** The lowering goes on: the function grows, and new values are new. *)
Record grown (L L' : Lowering) : Prop := {
  gw_fn : fn_grows (func L) (func L');
  gw_values : forall v c, V L v = Some c -> V L' v = Some c;
  gw_new : forall v c, V L' v = Some c -> V L v = Some c \/ value_types (func L) !! c = None;
  gw_slots : lw_stack_slots L' = lw_stack_slots L;
  gw_blocks : lw_blocks L' = lw_blocks L;
  gw_params : forall b d, clif_blocks (func L) !! b = Some d ->
    exists d', clif_blocks (func L') !! b = Some d' /\ cb_params d' = cb_params d;
}.

Lemma grown_refl L : grown L L.
Proof. split; eauto. done. Qed.

Lemma grown_trans L1 L2 L3 : grown L1 L2 -> grown L2 L3 -> grown L1 L3.
Proof.
  intros [F1 V1 N1 S1 B1 P1] [F2 V2 N2 S2 B2 P2]. split; [by etrans|by eauto| |congruence|congruence|].
  - intros v c [H|H]%N2; [by apply N1|]. right. destruct (value_types (func L1) !! c) eqn:E; [|done].
    eapply lookup_weaken in E; [|apply (gr_types _ _ F1)]. congruence.
  - intros b d (d1 & Hd1 & E1)%P1. destruct (P2 _ _ Hd1) as (d2 & ? & ?). exists d2. split; [done|congruence].
Qed.

Lemma emits_grown cb L L' code : emits cb L L' code -> grown L L'.
Proof.
  intros M. split; [apply M| | |apply M|apply M|]; rewrite ?(em_values _ _ _ _ _ M); [done|by left|].
  intros b d Hd. rewrite (em_code _ _ _ _ _ M). destruct (decide (b = cb)) as [->|Hb].
  - rewrite lookup_alter_eq, Hd. eexists. by split.
  - rewrite lookup_alter_ne by done. by exists d.
Qed.

(** Results of instructions are values of the function, and none is the value of an
    SSA value but as the output it is. *)
Record own_results (L : Lowering) (code : list Inst) (vs : list SSAValue) : Prop := {
  or_typed : forall r, r ∈ results code -> is_Some (value_types (func L) !! r);
  or_own : forall v c, V L v = Some c -> c ∈ results code -> v ∈ vs;
}.

Lemma own_results_grown L L' code vs : grown L L' -> own_results L code vs -> own_results L' code vs.
Proof.
  intros G [H1 H2]. split.
  - intros r Hr. destruct (H1 r Hr) as [ty Hty]. exists ty. eapply lookup_weaken; [exact Hty|apply (gr_types _ _ (gw_fn _ _ G))].
  - intros v c Hv Hc. destruct (gw_new _ _ G _ _ Hv) as [Hv'|Hn]; [by eapply H2|].
    destruct (H1 c Hc) as [ty Hty]. congruence.
Qed.

(** A statement translated: its code is that for the values [W] lowered before it. *)
Definition stmt_lowered (L : Lowering) (d : StmtData) (code : list Inst) : Prop :=
  exists (W : SSAValue -> option ClifValue) outs,
    (forall v c, W v = Some c -> V L v = Some c /\ c ∉ results code) /\
    stmt_code ir helper_address (func L) W (slots L) (rvalue d) code outs /\
    NoDup (results code) /\ Forall2 (fun v c => V L v = Some c) (outputs d) outs /\
    own_results L code (outputs d).

Lemma stmt_lowered_grown L L' d code : grown L L' -> stmt_lowered L d code -> stmt_lowered L' d code.
Proof.
  intros G (W & outs & HW & Hc & Hn & Ho & Hown). exists W, outs. split_and!; [| |done| |by eapply own_results_grown].
  - intros v c Hv. destruct (HW _ _ Hv). split; [by eapply gw_values|done].
  - rewrite (gw_slots _ _ G). eapply stmt_code_grow; [apply G|done].
  - eapply Forall2_impl; [exact Ho|]. intros v c ?. by eapply gw_values.
Qed.

(** ** [lower_stmt] *)

Lemma insert_outputs_spec vs outs (L : Lowering) :
  length vs = length outs -> NoDup outs -> (forall v, v ∈ outs -> V L v = None) ->
  exists m, insert_outputs vs outs L = Some (tt, set_values m L) /\
    Forall2 (fun v c => map_get m v = Some c) outs vs /\ (forall v, v ∉ outs -> map_get m v = V L v).
Proof.
  revert outs L. induction vs as [|c vs IH]; intros [|v outs] L Hl Hn Hfresh; try done.
  { exists (lw_values L). split_and!; [by destruct L|constructor|done]. }
  apply NoDup_cons in Hn as [Hv Hn]. cbn [insert_outputs].
  destruct (map_insert_unique_new (lw_values L) v c) as (m1 & E1 & H1); [apply Hfresh; by left|].
  destruct (IH outs (set_values m1 L)) as (m & E & Ho & Hk); [by injection Hl|done| |].
  { intros u Hu. simpl. rewrite H1. rewrite decide_False by (by intros ->). apply Hfresh. by right. }
  exists m. unfold sm_bind, on_values. rewrite E1. split_and!; [exact E| |].
  - constructor; [|done]. rewrite Hk by done. simpl. rewrite H1. by rewrite decide_True.
  - intros u Hu. apply not_elem_of_cons in Hu as [Hu1 Hu2]. rewrite Hk by done. simpl. rewrite H1. by rewrite decide_False.
Qed.

(** The lowering with the outputs of a statement bound. *)
Lemma bind_outputs_ok L m vs outs tys :
  lowering_ok L -> NoDup outs -> of_types (func L) outs tys -> Forall2 (fun v ty => lowered_ty ir v = Some ty) vs tys ->
  (forall v c, V L v = Some c -> c ∉ outs) ->
  Forall2 (fun v c => map_get m v = Some c) vs outs -> (forall v, v ∉ vs -> map_get m v = V L v) ->
  lowering_ok (set_values m L).
Proof.
  intros [H1 H2 H3 H4 H5 H6] Hn Ht Hty Hold Ho Hk. split; try done; simpl.
  - intros v c Hv. destruct (decide (v ∈ vs)) as [Hin|Hin]; [|rewrite Hk in Hv by done; by apply H1].
    apply list_elem_of_lookup in Hin as [i Hi]. destruct (Forall2_lookup_l _ _ _ _ _ Ho Hi) as (c' & Hc & E). simplify_eq.
    destruct (Forall2_lookup_l _ _ _ _ _ Hty Hi) as (ty & Hti & Hl). exists ty. split; [done|].
    destruct (Forall2_lookup_l _ _ _ _ _ Ht Hc) as (ty' & ? & ?). congruence.
  - intros v v' c Hv Hv'. destruct (decide (v ∈ vs)) as [Hin|Hin], (decide (v' ∈ vs)) as [Hin'|Hin'].
    + apply list_elem_of_lookup in Hin as [i Hi], Hin' as [j Hj].
      destruct (Forall2_lookup_l _ _ _ _ _ Ho Hi) as (c1 & Hc1 & E1), (Forall2_lookup_l _ _ _ _ _ Ho Hj) as (c2 & Hc2 & E2).
      simplify_eq. pose proof (NoDup_lookup _ _ _ _ Hn Hc1 Hc2) as ->. congruence.
    + apply list_elem_of_lookup in Hin as [i Hi]. destruct (Forall2_lookup_l _ _ _ _ _ Ho Hi) as (c1 & Hc1 & E1). simplify_eq.
      rewrite Hk in Hv' by done. apply Hold in Hv'. by apply list_elem_of_lookup_2 in Hc1.
    + apply list_elem_of_lookup in Hin' as [i Hi]. destruct (Forall2_lookup_l _ _ _ _ _ Ho Hi) as (c1 & Hc1 & E1). simplify_eq.
      rewrite Hk in Hv by done. apply Hold in Hv. by apply list_elem_of_lookup_2 in Hc1.
    + rewrite Hk in Hv, Hv' by done. by eapply H2.
Qed.
(** The types of a statement's outputs. *)
Lemma output_types_ok x d tys :
  arena_get (all_stmts ir) x = Some d -> type_of (rvalue d) ir = Some (tys, ir) -> Forall2 (vty ir) (outputs d) tys ->
  Forall2 (fun v ty => lowered_ty ir v = Some ty) (outputs d) (output_types (rvalue d) tys).
Proof.
  intros Hd Hty Hout. assert (forall v, v ∈ outputs d -> plain ir v = match rvalue d with KHasTag _ _ => false | _ => true end) as Hp
    by (intros v; by apply (output_plain ir x)).
  assert (forall f, (forall v ty, v ∈ outputs d -> vty ir v ty -> lowered_ty ir v = Some (f ty)) ->
    Forall2 (fun v ty => lowered_ty ir v = Some ty) (outputs d) (f <$> tys)) as Hmap.
  { intros f Hf. apply Forall2_fmap_r. apply Forall2_same_length_lookup. split; [by eapply Forall2_length|].
    intros i v ty Hv Hti. destruct (Forall2_lookup_l _ _ _ _ _ Hout Hv) as (ty' & ? & ?). simplify_eq.
    apply Hf; [by eapply list_elem_of_lookup_2|done]. }
  destruct (rvalue d) eqn:Ed; simpl; try (apply Hmap; intros ? ? Hv Ht; unfold lowered_ty; rewrite Hp by done; unfold vty in Ht; by rewrite Ht).
  simpl in Hty. injection Hty as <-. change [I64] with ((fun _ : TypeFull => I64) <$> [TBool]). apply Hmap.
  intros ? ? Hv _. unfold lowered_ty. by rewrite Hp.
Qed.

(** Code was added to the open block, and values were bound. *)
Record extended (cb : ClifBlock) (L L' : Lowering) (code : list Inst) : Prop := {
  xt_ready : ready cb L';
  xt_grown : grown L L';
  xt_code : clif_blocks (func L') = alter (add_code code) cb (clif_blocks (func L));
}.

Lemma extended_refl cb L : ready cb L -> extended cb L L [].
Proof. intros H. split; [done|apply grown_refl|]. apply (em_code _ _ _ _ _ (emits_refl ir cb L H)). Qed.

Lemma extended_trans cb L1 L2 L3 c1 c2 : extended cb L1 L2 c1 -> extended cb L2 L3 c2 -> extended cb L1 L3 (c1 ++ c2).
Proof.
  intros [R1 G1 C1] [R2 G2 C2]. split; [done|by eapply grown_trans|].
  rewrite C2, C1. apply map_eq. intros b. destruct (decide (b = cb)) as [->|Hb]; [|by rewrite !lookup_alter_ne].
  rewrite !lookup_alter_eq. destruct (clif_blocks (func L1) !! cb); [|done]. simpl. f_equal. unfold add_code. simpl.
  by rewrite app_assoc.
Qed.

Lemma emits_extended cb L L' code : emits cb L L' code -> extended cb L L' code.
Proof. intros M. split; [apply M|by eapply emits_grown|apply M]. Qed.

Lemma lower_stmt_spec cb L x d (E : Prop) :
  ready cb L -> arena_get (all_stmts ir) x = Some d -> (forall v, v ∈ outputs d -> V L v = None) ->
  (stmt_fails (V L) (rvalue d) -> E) ->
  exists r L', lower_stmt exec_ir I64 helper_address d L = Some (r, L') /\
    match r with
    | Ok _ => exists code, extended cb L L' code /\ stmt_lowered L' d code /\ (forall v, v ∉ outputs d -> V L' v = V L v)
    | Err _ => E
    end.
Proof.
  intros Hr Hd Hfresh HE. destruct (co_stmts _ Hco _ _ Hd) as (Ht & tys & Hty & Hout).
  assert (stmt_lowerable ir (rvalue d) = true) as Hl.
  { unfold fn_lowerable in Hlow. rewrite !andb_true_iff in Hlow. destruct Hlow as [[[H _] _] _].
    exact (forallb_arena (fun d => stmt_lowerable ir (rvalue d)) _ _ _ H Hd). }
  pose proof (compilable_halt _ Hco) as Hhalt. pose proof (co_signatures _ Hco) as Hinit.
  destruct (lower_rvalue_spec ir exec_ir helper_address Hvalues Hsigs Hinit Hhalt cb L Hr E (rvalue d) tys Ht Hl Hty HE)
    as (r & L1 & E1 & H1).
  unfold lower_stmt, sm_try. rewrite (sm_bind_run _ _ _ _ _ E1). destruct r as [vs|e]; [|by exists (Err e), L1].
  destruct H1 as (code & M & Hc & Htypes). pose proof (em_grows _ _ _ _ _ M) as G.
  pose proof (output_types_ok _ _ _ Hd Hty Hout) as Hot. destruct (stmt_code_results _ _ _ _ _ _ Hc) as [pre Hpre].
  pose proof (em_nodup _ _ _ _ _ M) as Hn. rewrite Hpre in Hn. apply NoDup_app in Hn as (_ & _ & Hnv).
  assert (length (outputs d) = length vs) as Hlen.
  { etrans; [by eapply Forall2_length|]. symmetry. by eapply Forall2_length. }
  assert (forall v c, V L v = Some c -> c ∉ results code) as Hold.
  { intros v c Hv Hin. destruct (em_new _ _ _ _ _ M _ Hin) as [Hnone _].
    destruct (lo_types _ _ (re_ok _ _ _ Hr) _ _ Hv) as (ty & _ & ?). congruence. }
  rewrite Hlen, Nat.eqb_refl. unfold ensure. unfold lower_ok at 1, sm_bind at 1, sm_ret at 1.
  destruct (insert_outputs_spec vs (outputs d) L1) as (m & Em & Ho & Hk); [done|by eapply outputs_nodup| |].
  { intros v Hv. rewrite (em_values _ _ _ _ _ M). by apply Hfresh. }
  rewrite (sm_bind_run _ _ _ _ _ Em). eexists _, _. split; [done|]. exists code.
  assert (forall v, v ∉ outputs d -> V (set_values m L1) v = V L v) as Hkeep.
  { intros v Hv. simpl. rewrite Hk by done. by rewrite (em_values _ _ _ _ _ M). }
  assert (Forall (fun c => c ∈ results code) vs) as Hvs by (apply Forall_forall; intros c ?; rewrite Hpre; apply elem_of_app; by right).
  assert (lowering_ok (set_values m L1)) as Hok.
  { eapply bind_outputs_ok; [apply M|exact Hnv|exact Htypes|exact Hot| |exact Ho|exact Hk].
    intros v c Hv Hin. rewrite (em_values _ _ _ _ _ M) in Hv. apply (Hold _ _ Hv). by eapply Forall_forall in Hvs. }
  assert (grown L (set_values m L1)) as Hg.
  { split; [exact G| | |apply M|apply M|apply (emits_grown _ _ _ _ M)].
    - intros v c Hv. rewrite Hkeep; [done|]. intros Hin. apply Hfresh in Hin. congruence.
    - intros v c Hv. destruct (decide (v ∈ outputs d)) as [Hin|Hin]; [right|left; by rewrite <- Hkeep].
      apply list_elem_of_lookup in Hin as [i Hi]. destruct (Forall2_lookup_l _ _ _ _ _ Ho Hi) as (c' & Hc' & E'). simpl in Hv. simplify_eq.
      apply (em_new _ _ _ _ _ M). rewrite Forall_forall in Hvs. by eapply Hvs, list_elem_of_lookup_2. }
  refine (conj _ (conj _ Hkeep)).
  { split; [|done|apply M]. destruct (em_ready _ _ _ _ _ M) as [_ Hcur Hopen]. by split. }
  exists (V L), vs. split_and!; [|simpl; by rewrite (em_slots _ _ _ _ _ M)|apply M|done|split].
  - intros v c Hv. split; [by eapply gw_values|by eapply Hold].
  - intros r Hin. by apply (em_new _ _ _ _ _ M).
  - intros v c Hv Hin. apply dec_stable. intros Hnin. rewrite Hkeep in Hv by done. by eapply Hold.
Qed.
End Func.
