(* ===== verification/CraneliftBlocks.v ===== *)
(** * Translating blocks
    ([jit-compiler-core/src/compiler/cranelift_backend.rs], [lower_terminator] and
    [lower_blocks])

    What a translated block consists of, and that [lower_blocks] leaves every
    block of the compile order translated. *)

From S2P Require Import Prelude Convert HaltReason MemTypes Fault Memops ObjectQueue Fabric PageTable IoMMU.
From S2P Require Import ExclusiveMonitor LookupCache MemAccess FfiSupport Arena Ir IrSem IrEmit IrLogic IrArith.
From S2P Require Import IrTyping IrBuilt IrBuilder IrRun.
From S2P Require Import Tarjan SccGraph HaltCheck HaltSplit HaltInv HaltSound BlockOrder.
From S2P Require Import BackEnd.
From S2P Require Import Clif CraneliftLower CraneliftHost CraneliftCode CraneliftEmit CraneliftStmt CraneliftFunc.
Local Open Scope Z_scope.
Local Open Scope emu_scope.

(** Code and a terminator at the end of a block. *)
Definition finish (code : list Inst) (t : ClifTerm) (d : ClifBlockData) : ClifBlockData :=
  mkClifBlock (cb_params d) (cb_code d ++ code) (Some t) (cb_cold d).

Section Blocks.
Context {F : Type} `{!FunctionBuilder F, !FunctionBuilderLaws F [I32] }.
Context (ir : ExecIrBuilder) (exec_ir : ExecIr) (helper_address : HostCallback -> Z).
Context (Hco : compilable ir) (Hlow : fn_lowerable ir = true).
Context (Hvalues : exec_ssa_values exec_ir = ssa_values ir) (Hsigs : exec_signatures exec_ir = signatures ir)
  (Hstmts : exec_stmts exec_ir = all_stmts ir) (Hblocks : exec_blocks exec_ir = blocks ir).
Context (order : list Block).
Abbreviation Lowering := (@FunctionLowering F).
Abbreviation func L := (clif_func (lw_builder L)).
Abbreviation V L := (map_get (lw_values L)).
Abbreviation B L := (map_get (lw_blocks L)).
Abbreviation ready := (ready ir).
Abbreviation emits := (emits ir).
Abbreviation does := (does ir).
Abbreviation lowers := (lowers ir).
Abbreviation lowering_ok := (lowering_ok ir).
Abbreviation extended := (extended ir).
Abbreviation stmt_lowered := (stmt_lowered ir helper_address).

(** ** Statements in sequence *)

Definition stmt_outputs (x : Stmt) : list SSAValue :=
  match arena_get (all_stmts ir) x with Some d => outputs d | None => [] end.

Lemma outputs_disjoint x y v : v ∈ stmt_outputs x -> v ∈ stmt_outputs y -> x = y.
Proof.
  unfold stmt_outputs. intros Hx Hy. destruct (arena_get (all_stmts ir) x) as [d|] eqn:Ex; [|by apply elem_of_nil in Hx].
  destruct (arena_get (all_stmts ir) y) as [d'|] eqn:Ey; [|by apply elem_of_nil in Hy].
  apply list_elem_of_lookup in Hx as [i Hi], Hy as [j Hj].
  assert (SOutput x i = SOutput y j) as [= -> _]; [|done]. eapply (co_ssa _ Hco v); by econstructor.
Qed.

Definition lowered_seq (L : Lowering) (l : list Stmt) (codes : list (list Inst)) : Prop :=
  Forall2 (fun x code => exists d, arena_get (all_stmts ir) x = Some d /\ stmt_lowered L d code) l codes.

Lemma lowered_seq_grown L L' l codes : grown L L' -> lowered_seq L l codes -> lowered_seq L' l codes.
Proof.
  intros G H. eapply Forall2_impl; [exact H|]. intros x code (d & ? & ?). exists d. split; [done|]. by eapply stmt_lowered_grown.
Qed.

Lemma stmt_check_ok (L : Lowering) (defd : gset SSAValue) rv :
  (forall v, v ∈ defd -> is_Some (V L v)) -> all_in (operands rv) defd && negb (large rv) = true -> ~ stmt_fails (V L) rv.
Proof.
  intros Hd [Hin Hl]%andb_true_iff [(v & Hv & Hn)|H].
  - unfold all_in in Hin. rewrite forallb_forall in Hin. apply list_elem_of_In, Hin, bool_decide_eq_true, Hd in Hv.
    rewrite Hn in Hv. by destruct Hv.
  - destruct rv; simpl in *; try done; rewrite (proj2 (Z.ltb_lt _ _) H) in Hl; done.
Qed.

Lemma lower_stmts_spec cb l L defd (E : Prop) :
  ready cb L -> NoDup l -> (forall x, x ∈ l -> is_Some (arena_get (all_stmts ir) x)) ->
  (forall x v, x ∈ l -> v ∈ stmt_outputs x -> V L v = None) ->
  (forall v, v ∈ defd -> is_Some (V L v)) -> (stmts_check ir defd l = None -> E) ->
  exists r L', lower_stmts exec_ir I64 helper_address l L = Some (r, L') /\
    match r with
    | Ok _ => exists codes, extended cb L L' (concat codes) /\ lowered_seq L' l codes /\
        (forall v, (forall x, x ∈ l -> v ∉ stmt_outputs x) -> V L' v = V L v) /\
        (forall defd' v, stmts_check ir defd l = Some defd' -> v ∈ defd' -> is_Some (V L' v))
    | Err _ => E
    end.
Proof.
  revert L defd. induction l as [|x l IH]; intros L defd Hr Hn Hin Hfresh Hdefd HE.
  { exists (Ok tt), L. split; [done|]. exists []. split_and!; [by apply extended_refl|constructor|done|].
    intros defd' v [= <-]. apply Hdefd. }
  apply NoDup_cons in Hn as [Hx Hn]. destruct (Hin x ltac:(by left)) as [d Hd].
  assert (stmt_outputs x = outputs d) as Eo by (unfold stmt_outputs; by rewrite Hd).
  simpl in HE |- *. rewrite Hd in HE. cbn [mbind option_bind] in HE.
  destruct (lower_stmt_spec ir exec_ir helper_address Hco Hlow Hvalues Hsigs cb L x d E) as (r & L1 & E1 & H1); [done|done| | |].
  { intros v Hv. apply (Hfresh x); [by left|by rewrite Eo]. }
  { intros Hf. apply HE. destruct (all_in (operands (rvalue d)) defd && negb (large (rvalue d))) eqn:Ec; [|done].
    exfalso. by eapply stmt_check_ok. }
  assert (sm_of_option (arena_get (exec_stmts exec_ir) x) L = Some (d, L)) as E0 by (unfold sm_of_option; by rewrite Hstmts, Hd).
  rewrite (sm_bind_run _ _ _ _ _ E0). unfold sm_try. rewrite (sm_bind_run _ _ _ _ _ E1).
  destruct r as [u|e]; [|by exists (Err e), L1]. destruct H1 as (code & X1 & Hs & Hk).
  set (defd1 := if all_in (operands (rvalue d)) defd && negb (large (rvalue d)) then defd ∪ list_to_set (outputs d) else ∅).
  destruct (IH L1 defd1) as (r & L2 & E2 & H2); [apply X1|done| | | | |].
  { intros y Hy. apply Hin. by right. }
  { intros y v Hy Hv. rewrite Hk; [apply (Hfresh y); [by right|done]|]. rewrite <- Eo. intros Hv'.
    by rewrite (outputs_disjoint _ _ _ Hv' Hv) in Hx. }
  { unfold defd1. intros v Hv. case_match; [|set_solver]. apply elem_of_union in Hv as [Hv|Hv%elem_of_list_to_set].
    - destruct (Hdefd v Hv) as [c Hc]. exists c. eapply gw_values; [apply X1|done].
    - destruct Hs as (_ & outs & _ & _ & _ & Ho & _). apply list_elem_of_lookup in Hv as [i Hi].
      destruct (Forall2_lookup_l _ _ _ _ _ Ho Hi) as (c & _ & ?). by exists c. }
  { intros Hc. apply HE. unfold defd1 in Hc. by case_match. }
  exists r, L2. split; [done|]. destruct r as [u'|]; [|done]. destruct H2 as (codes & X2 & Hseq & Hk2 & Hd2).
  exists (code :: codes). split_and!.
  - simpl. by eapply extended_trans.
  - constructor; [|done]. exists d. split; [done|]. eapply stmt_lowered_grown; [apply X2|done].
  - intros v Hv. rewrite Hk2 by (intros y Hy; apply Hv; by right). apply Hk. rewrite <- Eo. apply Hv. by left.
  - intros defd' v. simpl. rewrite Hd. cbn [mbind option_bind]. unfold defd1 in Hd2. case_match; [|done]. apply Hd2.
Qed.

(** ** Terminators *)

(** Every block has its Cranelift block, with the parameters. *)
Record laid_out (L : Lowering) : Prop := {
  lay_blocks : forall b cb, B L b = Some cb -> exists d bd, arena_get (blocks ir) b = Some d /\
    clif_blocks (func L) !! cb = Some bd /\ Forall2 (fun p c => V L p = Some c) (parameters d) (cb_params bd);
  lay_inj : forall b b' cb, B L b = Some cb -> B L b' = Some cb -> b = b';
  lay_all : forall b, b ∈ order -> is_Some (B L b);
}.

Lemma laid_out_grown L L' : grown L L' -> laid_out L -> laid_out L'.
Proof.
  intros G [H1 H2 H3]. split; rewrite ?(gw_blocks _ _ G); [|done|done].
  intros b cb (d & bd & Hd & Hbd & Hp)%H1. destruct (gw_params _ _ G _ _ Hbd) as (bd' & Hbd' & Ep).
  exists d, bd'. split_and!; [done|done|]. rewrite Ep. eapply Forall2_impl; [exact Hp|]. intros p c ?. by eapply gw_values.
Qed.

Definition jump_lowered (L : Lowering) (j : Jump) (cb : ClifBlock) (args : list ClifValue) : Prop :=
  B L (jump_target j) = Some cb /\ Forall2 (fun v c => V L v = Some c) (jump_parameters j) args.

Definition term_code (L : Lowering) (t : Terminator) (code : list Inst) (ct : ClifTerm) : Prop :=
  match kind t, targets t with
  | TkReturn, [] => exists z, code = [inst1 (Ins.iconst I32 0) [] z] /\ ct = return_ [z]
  | TkReturnCode v, [] => exists c, V L v = Some c /\ code = [] /\ ct = return_ [c]
  | TkBr, [j] => exists cb args, jump_lowered L j cb args /\ code = [] /\ ct = jump cb args
  | TkBrZ v, [zero; non_zero] => exists c r zb z_args nb nz_args, V L v = Some c /\
      jump_lowered L zero zb z_args /\ jump_lowered L non_zero nb nz_args /\
      code = [inst1 (Ins.icmp_imm CcNotEqual 0) [c] r] /\ ct = brif r nb nz_args zb z_args
  | _, _ => False
  end.

Lemma jump_lowered_grown L L' j cb args : grown L L' -> jump_lowered L j cb args -> jump_lowered L' j cb args.
Proof.
  intros G [H1 H2]. split; [by rewrite (gw_blocks _ _ G)|]. eapply Forall2_impl; [exact H2|]. intros v c ?. by eapply gw_values.
Qed.

Lemma term_code_grown L L' t code ct : grown L L' -> term_code L t code ct -> term_code L' t code ct.
Proof.
  intros G. unfold term_code. destruct (kind t), (targets t) as [|j1 [|j2 [|? ?]]]; try done.
  - intros (c & ? & ?). exists c. split; [by eapply gw_values|done].
  - intros (c & r & zb & z_args & nb & nz_args & ? & ? & ? & ?). exists c, r, zb, z_args, nb, nz_args.
    split_and!; try tauto; [by eapply gw_values|by eapply jump_lowered_grown..].
  - intros (cb & cargs & ? & ?). exists cb, cargs. split; [by eapply jump_lowered_grown|done].
Qed.

(** The open block was ended. *)
Record ended (cb : ClifBlock) (L L' : Lowering) (code : list Inst) (ct : ClifTerm) : Prop := {
  en_ok : lowering_ok L';
  en_current : clif_current (lw_builder L') = Some cb;
  en_grown : grown L L';
  en_values : lw_values L' = lw_values L;
  en_blocks : clif_blocks (func L') = alter (finish code ct) cb (clif_blocks (func L));
  en_own : own_results L' code [];
}.

Definition ends (cb : ClifBlock) (L : Lowering) (m : SM Lowering (Result unit LowerError)) (E : Prop)
    (Q : Lowering -> list Inst -> ClifTerm -> Prop) : Prop :=
  exists r L', m L = Some (r, L') /\
    match r with Ok _ => exists code ct, ended cb L L' code ct /\ Q L' code ct | Err _ => E end.

Lemma emits_own cb L L' code : lowering_ok L -> emits cb L L' code -> own_results L' code [].
Proof.
  intros Hok M. split; [intros r Hr; by apply (em_new _ _ _ _ _ M)|].
  intros v c Hv Hc. rewrite (em_values _ _ _ _ _ M) in Hv. destruct (lo_types _ _ Hok _ _ Hv) as (ty & _ & ?).
  destruct (em_new _ _ _ _ _ M _ Hc). congruence.
Qed.

Lemma own_results_app L c1 c2 vs : own_results L c1 vs -> own_results L c2 vs -> own_results L (c1 ++ c2) vs.
Proof.
  intros [H1 H2] [H3 H4]. split.
  - intros r. rewrite results_app, elem_of_app. naive_solver.
  - intros v c Hv. rewrite results_app, elem_of_app. naive_solver.
Qed.

Lemma ended_after cb L L1 L2 c1 c2 ct :
  lowering_ok L -> emits cb L L1 c1 -> ended cb L1 L2 c2 ct -> ended cb L L2 (c1 ++ c2) ct.
Proof.
  intros Hok M [H1 H2 H3 H4 H5 H6]. pose proof (emits_grown _ _ _ _ _ M) as G.
  split; [done|done|by eapply grown_trans|by rewrite H4, (em_values _ _ _ _ _ M)| |].
  - rewrite H5, (em_code _ _ _ _ _ M). apply map_eq. intros b. destruct (decide (b = cb)) as [->|Hb]; [|by rewrite !lookup_alter_ne].
    rewrite !lookup_alter_eq. destruct (clif_blocks (func L) !! cb); [|done]. simpl. f_equal. unfold finish. simpl. by rewrite app_assoc.
  - apply own_results_app; [|done]. eapply own_results_grown; [exact H3|]. exact (emits_own _ _ _ _ Hok M).
Qed.

Lemma ends_bind {A} cb L (m : SM Lowering A) k Q1 E Q :
  lowering_ok L -> does cb L m Q1 ->
  (forall a L1 c1, emits cb L L1 c1 -> Q1 a L1 c1 -> ends cb L1 (k a) E (fun L2 c2 ct => Q L2 (c1 ++ c2) ct)) ->
  ends cb L (sm_bind m k) E Q.
Proof.
  intros Hok (a & L1 & c1 & E1 & M1 & H1) Hk. destruct (Hk _ _ _ M1 H1) as (r & L2 & E2 & H2).
  exists r, L2. rewrite (sm_bind_run _ _ _ _ _ E1). split; [done|]. destruct r; [|done].
  destruct H2 as (c2 & ct & M2 & H2). exists (c1 ++ c2), ct. split; [by eapply ended_after|done].
Qed.

Lemma ends_try {A} cb L (m : SM Lowering (Result A LowerError)) k Q1 E Q :
  lowering_ok L -> lowers cb L m E Q1 ->
  (forall a L1 c1, emits cb L L1 c1 -> Q1 a L1 c1 -> ends cb L1 (k a) E (fun L2 c2 ct => Q L2 (c1 ++ c2) ct)) ->
  ends cb L (sm_try m k) E Q.
Proof.
  intros Hok (r & L1 & E1 & H1) Hk. unfold sm_try. destruct r as [a|e].
  - destruct H1 as (c1 & M1 & H1). destruct (Hk _ _ _ M1 H1) as (r & L2 & E2 & H2).
    exists r, L2. rewrite (sm_bind_run _ _ _ _ _ E1). split; [done|]. destruct r; [|done].
    destruct H2 as (c2 & ct & M2 & H2). exists (c1 ++ c2), ct. split; [by eapply ended_after|done].
  - exists (Err e), L1. by rewrite (sm_bind_run _ _ _ _ _ E1).
Qed.

Lemma ends_term cb L ct E (Q : Lowering -> list Inst -> ClifTerm -> Prop) :
  ready cb L -> clif_term_typed (func L) [I32] ct -> (forall L', grown L L' -> Q L' [] ct) ->
  ends cb L (on_builder (ins_term ct) ;;! lower_ok tt) E Q.
Proof.
  intros [Hok Hcur (d & Hd & Hopen)] Ht HQ. destruct (term_law ct _ _ _ Hcur Hd Hopen Ht) as (f' & E1 & Hf & Hcur').
  exists (Ok tt), (set_builder f' L). unfold sm_bind, on_builder. rewrite E1. split; [done|]. exists [], ct.
  assert (fn_grows (func L) (clif_func f')) as Hg by (rewrite Hf; by split).
  assert (grown L (set_builder f' L)) as G.
  { split; try done; [by left|]. intros b bd Hbd. simpl. rewrite Hf. simpl. destruct (decide (b = cb)) as [->|Hb].
    - rewrite lookup_alter_eq, Hbd. by eexists.
    - rewrite lookup_alter_ne by done. by exists bd. }
  split; [|by apply HQ]. split; simpl; [by apply lowering_ok_grow|done|done|done| |].
  - rewrite Hf. simpl. apply map_eq. intros b. destruct (decide (b = cb)) as [->|Hb]; [|by rewrite !lookup_alter_ne].
    rewrite !lookup_alter_eq. destruct (clif_blocks (func L) !! cb); [|done]. simpl. f_equal. unfold finish. by rewrite app_nil_r.
  - split; [by intros r ?%elem_of_nil|by intros v c _ ?%elem_of_nil].
Qed.
Lemma lowers_jump cb L j (E : Prop) :
  ready cb L -> laid_out L -> jump_target j ∈ order -> (forall v, v ∈ jump_parameters j -> V L v = None -> E) ->
  lowers cb L (clif_jump j) E (fun p L' code => L' = L /\ code = [] /\ jump_lowered L j p.1 p.2).
Proof.
  intros Hr Hlay Hj HE. destruct (lay_all _ Hlay _ Hj) as [b Hb]. unfold clif_jump.
  eapply lowers_try with (Q1 := fun b' (L' : Lowering) (code : list Inst) => b' = b /\ L' = L /\ code = []).
  { unfold clif_block. exists (Ok b), L. rewrite Hb. split; [done|]. exists []. split; [by apply emits_refl|done]. }
  intros ? ? ? _ (-> & -> & ->). eapply lowers_try; [by apply lowers_use_values|]. intros cargs ? ? _ (Hargs & -> & ->).
  by apply lowers_ok.
Qed.

Lemma jump_args_typed L vs ps cs cps :
  lowering_ok L -> Forall2 (fun v p => exists ty, vty ir v ty /\ vty ir p ty) vs ps ->
  Forall2 (fun v c => V L v = Some c) vs cs -> Forall2 (fun p c => V L p = Some c) ps cps ->
  forallb (plain ir) vs = true -> forallb (plain ir) ps = true ->
  exists tys, of_types (func L) cs tys /\ of_types (func L) cps tys.
Proof.
  intros Hok HF. revert cs cps. induction HF as [|v p vs ps (ty & Hv & Hp) _ IH]; intros cs cps Hcs Hcps Pv Pp.
  - apply Forall2_nil_inv_l in Hcs as ->. apply Forall2_nil_inv_l in Hcps as ->. exists []. by split.
  - apply Forall2_cons_inv_l in Hcs as (c & cs' & Hc & Hcs & ->). apply Forall2_cons_inv_l in Hcps as (c' & cps' & Hc' & Hcps & ->).
    simpl in Pv, Pp. apply andb_true_iff in Pv as [P1 Pv], Pp as [P2 Pp].
    destruct (IH _ _ Hcs Hcps Pv Pp) as (tys & ? & ?). exists (ir_ty_to_clif_ty I64 ty :: tys).
    destruct (lo_types _ _ Hok _ _ Hc) as (t1 & T1 & W1), (lo_types _ _ Hok _ _ Hc') as (t2 & T2 & W2).
    unfold lowered_ty in T1, T2. unfold vty in Hv, Hp. rewrite P1, Hv in T1. rewrite P2, Hp in T2. injection T1 as <-. injection T2 as <-.
    by repeat constructor.
Qed.

Lemma jump_target_typed L j b cargs :
  lowering_ok L -> laid_out L -> jump_lowered L j b cargs -> jump_typed ir j -> forallb (plain ir) (jump_parameters j) = true ->
  target_typed (func L) b cargs.
Proof.
  intros Hok Hlay [Hb Hargs] (_ & d & Hd & HF) Hp. destruct (lay_blocks _ Hlay _ _ Hb) as (d' & bd & Hd' & Hbd & Hps). simplify_eq.
  destruct (jump_args_typed L _ _ _ _ Hok HF Hargs Hps Hp) as (tys & ? & ?); [|by exists bd, tys].
  apply forallb_forall. intros p Hin%list_elem_of_In. by eapply parameter_plain.
Qed.

Definition term_fails (L : Lowering) (t : Terminator) : Prop :=
  (exists j v, j ∈ targets t /\ v ∈ jump_parameters j /\ V L v = None) \/
  match kind t with
  | TkReturnCode v => V L v = None \/ arena_get (ssa_values ir) v <> Some (TInt W32)
  | TkBrZ v => V L v = None
  | _ => False
  end.

Lemma term_check_ok (L : Lowering) (defd : gset SSAValue) t :
  (forall v, v ∈ defd -> is_Some (V L v)) -> term_check ir defd t = true -> ~ term_fails L t.
Proof.
  intros Hd [Hj Hk]%andb_true_iff. rewrite forallb_forall in Hj.
  assert (forall v, bool_decide (v ∈ defd) = true -> V L v <> None) as Hin.
  { intros v Hv%bool_decide_eq_true%Hd Hn. rewrite Hn in Hv. by destruct Hv. }
  intros [(j & v & Hjt & Hv & Hn)|H].
  - apply list_elem_of_In, Hj in Hjt. unfold all_in in Hjt. rewrite forallb_forall in Hjt.
    apply list_elem_of_In, Hjt, Hin in Hv. done.
  - destruct (kind t); try done; [|by eapply Hin]. apply andb_true_iff in Hk as [Hk1 Hk2%bool_decide_eq_true].
    destruct H as [H|H]; [by eapply Hin|done].
Qed.

Lemma lower_terminator_spec cb L t (E : Prop) :
  ready cb L -> laid_out L -> term_typed ir t -> term_lowerable ir t = true -> (forall j, j ∈ targets t -> jump_target j ∈ order) ->
  (term_fails L t -> E) -> ends cb L (lower_terminator t) E (fun L' code ct => term_code L' t code ct).
Proof.
  intros Hr Hlay [Hk Hj] [Hp Hv]%andb_true_iff Hin HE. pose proof (re_ok _ _ _ Hr) as Hok.
  rewrite Forall_forall in Hj. rewrite forallb_forall in Hp.
  assert (forall j, j ∈ targets t -> forallb (plain ir) (jump_parameters j) = true) as Hpj by (intros j ?%list_elem_of_In; by apply Hp).
  assert (forall j v, j ∈ targets t -> v ∈ jump_parameters j -> V L v = None -> E) as Hargs.
  { intros j v ? ? ?. apply HE. left. by exists j, v. }
  unfold lower_terminator, kind_typed in *. destruct (kind t) as [|v|v|] eqn:Ekind.
  - eapply ends_bind; [done|eapply does_ins1; [done|constructor|reflexivity]|]. intros z L1 c1 M1 [-> Tz].
    apply ends_term; [apply M1|by repeat constructor|]. intros L' _. unfold term_code. rewrite Ekind, Hk. by exists z.
  - destruct Hk as [Hk [w Hw]].
    eapply ends_try; [done|apply lowers_use_value; [done|intros ?; apply HE; right; rewrite Ekind; by left]|].
    intros c ? ? _ (Hc & -> & ->). pose proof (plain_ty _ _ _ _ _ _ Hr Hc Hv Hw) as Tc.
    eapply ends_try with (Q1 := fun _ (L' : Lowering) (code : list Inst) => L' = L /\ code = [] /\ w = W32); [done| |].
    { eapply lowers_bind; [by apply does_value_ty|]. intros ? ? ? _ (-> & -> & ->). unfold ensure. simpl (ir_ty_to_clif_ty _ _).
      case_bool_decide as Ew; [apply lowers_ok; [done|]; by destruct w|]. apply lowers_err, HE. right. rewrite Ekind. right.
      intros Hw'. unfold vty in Hw. by simplify_eq. }
    intros ? ? ? _ (-> & -> & ->). apply ends_term; [done|by repeat constructor|].
    intros L' G. unfold term_code. rewrite Ekind, Hk. exists c. split_and!; [by eapply gw_values|done..].
  - destruct Hk as [Hk (tyv & Tv & _)]. destruct (targets t) as [|zero [|nz [|? ?]]] eqn:Et; try done.
    eapply ends_try; [done|apply lowers_use_value; [done|intros ?; apply HE; right; by rewrite Ekind]|].
    intros c ? ? _ (Hc & -> & ->). destruct (lo_types _ _ Hok _ _ Hc) as (tc & _ & Tc).
    eapply ends_try with (Q1 := fun r (L' : Lowering) (code : list Inst) => code = [inst1 (Ins.icmp_imm CcNotEqual 0) [c] r] /\
      value_types (func L') !! r = Some I8); [done| |].
    { eapply lowers_bind; [by apply does_value_ty|]. intros ? ? ? _ (-> & -> & ->). unfold ensure.
      assert (is_int_ty tc = true) as -> by by destruct tc. eapply lowers_try with (Q1 := fun _ (L' : Lowering) (code : list Inst) => L' = L /\ code = []); [by apply lowers_ok|].
      intros ? ? ? _ (-> & ->). eapply lowers_bind; [eapply does_ins1 with (tys := [tc]); [done|by repeat constructor|reflexivity]|].
      intros r L1 c1 M1 [-> Tr]. apply lowers_ok; [apply M1|done]. }
    intros r L1 c1 M1 [-> Tr]. pose proof (emits_grown _ _ _ _ _ M1) as G1. pose proof (laid_out_grown _ _ G1 Hlay) as Hlay1.
    pose proof (re_ok _ _ _ (em_ready _ _ _ _ _ M1)) as Hok1.
    eapply ends_try; [done|apply lowers_jump; [apply M1|done|apply Hin; by right; left|]|].
    { intros u. rewrite (em_values _ _ _ _ _ M1). apply Hargs. by right; left. }
    intros [nb nz_args] ? ? _ (-> & -> & Hnz).
    eapply ends_try; [done|apply lowers_jump; [apply M1|done|apply Hin; by left|]|].
    { intros u. rewrite (em_values _ _ _ _ _ M1). apply Hargs. by left. }
    intros [zb z_args] ? ? _ (-> & -> & Hz).
    apply ends_term; [apply M1| |].
    { split_and!; [by eexists|eapply jump_target_typed; [done|done|exact Hnz|apply Hj; by right; left|apply Hpj; by right; left]
      |eapply jump_target_typed; [done|done|exact Hz|apply Hj; by left|apply Hpj; by left]]. }
    intros L' G. unfold term_code. rewrite Ekind, Et. exists c, r, zb, z_args, nb, nz_args.
    split_and!; [eapply gw_values; [exact G|by eapply gw_values]|by eapply jump_lowered_grown..|done|done].
  - destruct (targets t) as [|j [|? ?]] eqn:Et; try done.
    eapply ends_try; [done|apply lowers_jump; [done|done|apply Hin; by left|intros v; apply Hargs; by left]|].
    intros [b cargs] ? ? _ (-> & -> & Hjl). apply ends_term; [done| |].
    { eapply jump_target_typed; [done|done|exact Hjl|apply Hj; by left|apply Hpj; by left]. }
    intros L' G. unfold term_code. rewrite Ekind, Et. exists b, cargs. split_and!; [by eapply jump_lowered_grown|done..].
Qed.
(** ** Blocks *)

(** A block translated. *)
Definition block_lowered (L : Lowering) (b : Block) : Prop :=
  exists cb d bd codes code ct, B L b = Some cb /\ arena_get (blocks ir) b = Some d /\
    clif_blocks (func L) !! cb = Some bd /\ lowered_seq L (stmts d) codes /\
    term_code L (terminator d) code ct /\ own_results L code [] /\
    cb_code bd = concat codes ++ code /\ cb_term bd = Some ct.

(** The slots handed out are the function's. *)
Definition placed (L : Lowering) : Prop := forall s c, map_get (lw_stack_slots L) s = Some c -> is_Some (clif_slots (func L) !! c).

Lemma placed_grown L L' : grown L L' -> placed L -> placed L'.
Proof.
  intros G H s c. rewrite (gw_slots _ _ G). intros [d Hd]%H. exists d. eapply lookup_weaken; [exact Hd|apply (gr_slots _ _ (gw_fn _ _ G))].
Qed.

(** The blocks [dn] are translated, the others empty; [defd] are lowered. *)
Record progress (L : Lowering) (dn : list Block) (defd : gset SSAValue) : Prop := {
  pr_ok : lowering_ok L;
  pr_laid : laid_out L;
  pr_done : forall b, b ∈ dn -> block_lowered L b;
  pr_todo : forall b cb bd, B L b = Some cb -> b ∉ dn -> clif_blocks (func L) !! cb = Some bd -> cb_code bd = [] /\ cb_term bd = None;
  pr_fresh : forall b d x v, b ∉ dn -> arena_get (blocks ir) b = Some d -> x ∈ stmts d -> v ∈ stmt_outputs x -> V L v = None;
  pr_defd : forall v, v ∈ defd -> is_Some (V L v);
  pr_placed : placed L;
}.

(** The block before is ended. *)
Definition idle (L : Lowering) : Prop :=
  forall c d, clif_current (lw_builder L) = Some c -> clif_blocks (func L) !! c = Some d -> is_Some (cb_term d).

Lemma block_lowered_kept L L' b cb0 g :
  grown L L' -> clif_blocks (func L') = alter g cb0 (clif_blocks (func L)) -> B L b <> Some cb0 ->
  block_lowered L b -> block_lowered L' b.
Proof.
  intros G Hg Hne (cb & d & bd & codes & code & ct & Hb & Hd & Hbd & Hs & Ht & Ho & Hc & Hct).
  exists cb, d, bd, codes, code, ct. split_and!; try done.
  - by rewrite (gw_blocks _ _ G).
  - rewrite Hg, lookup_alter_ne; [done|]. congruence.
  - by eapply lowered_seq_grown.
  - by eapply term_code_grown.
  - by eapply own_results_grown.
Qed.

Lemma extended_ended cb L0 L1 L2 c1 c2 ct bd :
  extended cb L0 L1 c1 -> ended cb L1 L2 c2 ct -> clif_blocks (func L0) !! cb = Some bd ->
  grown L0 L2 /\ clif_blocks (func L2) = alter (finish (c1 ++ c2) ct) cb (clif_blocks (func L0)).
Proof.
  intros [_ G1 C1] [_ _ G2 _ C2 _] Hbd. split; [by eapply grown_trans|]. rewrite C2, C1.
  apply map_eq. intros b. destruct (decide (b = cb)) as [->|Hb]; [|by rewrite !lookup_alter_ne].
  rewrite !lookup_alter_eq, Hbd. simpl. f_equal. unfold finish. simpl. by rewrite app_assoc.
Qed.

Lemma stmts_once b b' d d' x : arena_get (blocks ir) b = Some d -> arena_get (blocks ir) b' = Some d' ->
  x ∈ stmts d -> x ∈ stmts d' -> b = b'.
Proof.
  intros Hd Hd' [i Hi]%list_elem_of_lookup [j Hj]%list_elem_of_lookup. by destruct (co_once _ Hco _ _ _ _ _ _ _ Hd Hi Hd' Hj).
Qed.

(** Progress over a block: what is left to show once its code and terminator are
    there. *)
Lemma progress_block L dn defd b d cb bd L1 L2 codes code ct defd' :
  progress L dn defd -> arena_get (blocks ir) b = Some d -> B L b = Some cb ->
  clif_blocks (func L) !! cb = Some bd -> cb_code bd = [] -> b ∉ dn ->
  extended cb L L1 (concat codes) -> lowered_seq L1 (stmts d) codes ->
  (forall v, (forall x, x ∈ stmts d -> v ∉ stmt_outputs x) -> V L1 v = V L v) ->
  ended cb L1 L2 code ct -> term_code L2 (terminator d) code ct -> (forall v, v ∈ defd' -> is_Some (V L1 v)) ->
  progress L2 (b :: dn) defd' /\ idle L2.
Proof.
  intros [P1 P2 P4 P5 P6 P7 P8] Hd Hb Hbd Hempty Hndn X Hseq Hk EN Ht Hdefd.
  destruct (extended_ended _ _ _ _ _ _ _ _ X EN Hbd) as [G Eblocks]. pose proof EN as [N1 N2 N3 N4 N5 N6].
  assert (clif_blocks (func L2) !! cb = Some (finish (concat codes ++ code) ct bd)) as Hfin
    by (rewrite Eblocks, lookup_alter_eq, Hbd; done).
  split; [|unfold idle; rewrite N2; intros c d' [= <-] Hd'; rewrite Hfin in Hd'; injection Hd' as <-; by eexists].
  split; [done|exact (laid_out_grown _ _ G P2)| | | | |exact (placed_grown _ _ G P8)].
  - intros b' [->|Hb']%elem_of_cons.
    + exists cb, d, (finish (concat codes ++ code) ct bd), codes, code, ct. split_and!; try done.
      * by rewrite (gw_blocks _ _ G).
      * by eapply lowered_seq_grown.
      * simpl. by rewrite Hempty.
    + eapply block_lowered_kept; [exact G|exact Eblocks| |by apply P4]. intros Hb2. by rewrite (lay_inj _ P2 _ _ _ Hb Hb2) in Hndn.
  - intros b' cb' bd' Hb' [Hne Hn]%not_elem_of_cons Hbd'. rewrite (gw_blocks _ _ G) in Hb'.
    rewrite Eblocks, lookup_alter_ne in Hbd'; [by eapply P5|]. intros ->. by rewrite (lay_inj _ P2 _ _ _ Hb Hb') in Hne.
  - intros b' d' x v [Hne Hn]%not_elem_of_cons Hd' Hx Hv. rewrite N4. rewrite Hk; [by eapply P6|].
    intros y Hy Hv'. rewrite (outputs_disjoint _ _ _ Hv' Hv) in Hy. apply Hne. by eapply stmts_once.
  - intros v Hv. rewrite N4. by apply Hdefd.
Qed.

Lemma set_builder_progress L f dn defd :
  progress L dn defd -> clif_func f = func L -> progress (set_builder f L) dn defd.
Proof.
  intros [P1 P2 P4 P5 P6 P7 P8] Hf.
  assert (grown L (set_builder f L)) as G.
  { split; simpl; rewrite ?Hf; try done; [by left|]. intros b d Hd. by exists d. }
  split; simpl; rewrite ?Hf; try done.
  - apply lowering_ok_grow; [done|by rewrite Hf].
  - by eapply laid_out_grown.
  - intros b (cb & d & bd & codes & code & ct & Hb & Hd & Hbd & Hs & Ht & Ho & Hcode & Hct)%P4.
    exists cb, d, bd, codes, code, ct. split_and!; try done.
    + simpl. by rewrite Hf.
    + by eapply lowered_seq_grown.
    + by eapply own_results_grown.
  - exact (placed_grown _ _ G P8).
Qed.

Context (Hexists : forall b, b ∈ order -> is_Some (arena_get (blocks ir) b)).
Context (Hclosed : forall b d j, b ∈ order -> arena_get (blocks ir) b = Some d -> j ∈ targets (terminator d) -> jump_target j ∈ order).

Lemma block_stmts_nodup b d : arena_get (blocks ir) b = Some d -> NoDup (stmts d).
Proof. intros Hd. apply NoDup_alt. intros i j x Hi Hj. by destruct (co_once _ Hco _ _ _ _ _ _ _ Hd Hi Hd Hj). Qed.

Definition block_check (defd : gset SSAValue) (d : BlockData) : option (gset SSAValue) :=
  defd ← stmts_check ir defd (stmts d);
  if term_check ir defd (terminator d) then Some defd else None.

(** Switching to the block to be translated. *)
Lemma switch_spec L dn defd b :
  progress L dn defd -> idle L -> b ∈ order -> b ∉ dn ->
  exists cb d bd f, B L b = Some cb /\ arena_get (blocks ir) b = Some d /\ clif_blocks (func L) !! cb = Some bd /\
    cb_code bd = [] /\ clif_func f = func L /\ on_builder (switch_to_block cb) L = Some (tt, set_builder f L) /\
    ready cb (set_builder f L).
Proof.
  intros HP Hidle Hb Hdn. destruct (lay_all _ (pr_laid _ _ _ HP) _ Hb) as [cb Hcb].
  destruct (lay_blocks _ (pr_laid _ _ _ HP) _ _ Hcb) as (d & bd & Hd & Hbd & _).
  destruct (pr_todo _ _ _ HP _ _ _ Hcb Hdn Hbd) as [Hcode Hopen].
  destruct (switch_law cb (lw_builder L)) as (f & E & Hf & Hcur); [by exists bd|exact Hidle|].
  exists cb, d, bd, f. split_and!; try done; [unfold on_builder; by rewrite E|].
  split; simpl; [|done|rewrite Hf; by exists bd]. apply lowering_ok_grow; [apply (pr_ok _ _ _ HP)|by rewrite Hf].
Qed.

Lemma lower_block_spec L dn defd b (E : Prop) :
  progress L dn defd -> idle L -> b ∈ order -> b ∉ dn ->
  (forall d, arena_get (blocks ir) b = Some d -> block_check defd d = None -> E) ->
  exists r L', lower_block exec_ir I64 helper_address b L = Some (r, L') /\
    match r with
    | Ok _ => exists d, arena_get (blocks ir) b = Some d /\ progress L' (b :: dn) (default ∅ (block_check defd d)) /\ idle L'
    | Err _ => E
    end.
Proof.
  intros HP Hidle Hb Hdn HE. destruct (switch_spec _ _ _ _ HP Hidle Hb Hdn) as (cb & d & bd & f & Hcb & Hd & Hbd & Hempty & Hf & Esw & Hready).
  specialize (HE d Hd). set (L0 := set_builder f L) in *. pose proof (set_builder_progress L f _ _ HP Hf) as HP0. fold L0 in HP0.
  assert (clif_blocks (func L0) !! cb = Some bd) as Hbd0 by (simpl; by rewrite Hf).
  destruct (co_blocks _ Hco _ _ Hd) as (_ & Hst & Htt).
  assert (term_lowerable ir (terminator d) = true) as Htl.
  { unfold fn_lowerable in Hlow. rewrite !andb_true_iff in Hlow. destruct Hlow as [[[_ H] _] _].
    exact (forallb_arena (fun d => term_lowerable ir (terminator d)) _ _ _ H Hd). }
  unfold lower_block, clif_block, sm_try at 1. unfold sm_bind at 1. rewrite Hcb. cbn [lower_ok sm_ret].
  rewrite (sm_bind_run _ _ _ _ _ Esw).
  assert (sm_of_option (arena_get (exec_blocks exec_ir) b) L0 = Some (d, L0)) as E0 by (unfold sm_of_option; by rewrite Hblocks, Hd).
  rewrite (sm_bind_run _ _ _ _ _ E0).
  destruct (lower_stmts_spec cb (stmts d) L0 defd E) as (r & L1 & E1 & H1);
    [done|by eapply block_stmts_nodup|done|intros x v ? ?; by eapply (pr_fresh _ _ _ HP0)|apply (pr_defd _ _ _ HP0)| |].
  { intros Hn. apply HE. unfold block_check. by rewrite Hn. }
  unfold sm_try. rewrite (sm_bind_run _ _ _ _ _ E1). destruct r as [u|e]; [|by exists (Err e), L1].
  destruct H1 as (codes & X & Hseq & Hk & Hd1).
  destruct (lower_terminator_spec cb L1 (terminator d) E) as (r & L2 & E2 & H2);
    [apply X|eapply laid_out_grown; [apply X|apply HP0]|done|done|intros j; by apply (Hclosed b)| |].
  { intros Hf'. apply HE. unfold block_check. destruct (stmts_check ir defd (stmts d)) as [defd1|]; [|done]. cbn [mbind option_bind].
    destruct (term_check ir defd1 (terminator d)) eqn:Et; [|done]. exfalso. eapply term_check_ok; [|exact Et|exact Hf'].
    intros v. by apply Hd1. }
  exists r, L2. split; [done|]. destruct r as [u'|]; [|done]. destruct H2 as (code & ct & EN & Ht). exists d. split; [done|].
  eapply progress_block; try done. intros v. unfold block_check.
  destruct (stmts_check ir defd (stmts d)) as [defd1|]; cbn [mbind option_bind]; [|by intros ?%not_elem_of_empty].
  case_match; [by apply Hd1|by intros ?%not_elem_of_empty].
Qed.

Lemma blocks_check_cons defd b d l : arena_get (blocks ir) b = Some d ->
  blocks_check ir defd (b :: l) = match block_check defd d with Some defd => blocks_check ir defd l | None => false end.
Proof.
  intros Hd. simpl. rewrite Hd. unfold block_check. destruct (stmts_check ir defd (stmts d)); [|done]. cbn [mbind option_bind].
  by destruct (term_check _ _ _).
Qed.

Lemma lower_block_list_spec l L dn defd (E : Prop) :
  progress L dn defd -> idle L -> NoDup l -> (forall b, b ∈ l -> b ∈ order /\ b ∉ dn) ->
  (blocks_check ir defd l = false -> E) ->
  exists r L', lower_block_list exec_ir I64 helper_address l L = Some (r, L') /\
    match r with Ok _ => exists defd', progress L' (reverse l ++ dn) defd' | Err _ => E end.
Proof.
  revert L dn defd. induction l as [|b l IH]; intros L dn defd HP Hi Hn Hl HE.
  { exists (Ok tt), L. split; [done|]. by exists defd. }
  apply NoDup_cons in Hn as [Hb Hn]. destruct (Hl b ltac:(by left)) as [Hbo Hbd].
  destruct (Hexists b Hbo) as [d Hd]. rewrite (blocks_check_cons _ _ _ _ Hd) in HE.
  destruct (lower_block_spec L dn defd b E HP Hi Hbo Hbd) as (r & L1 & E1 & H1).
  { intros d' Hd' Hc. simplify_eq. apply HE. by rewrite Hc. }
  cbn [lower_block_list]. unfold sm_try. rewrite (sm_bind_run _ _ _ _ _ E1). destruct r as [u|e]; [|by exists (Err e), L1].
  destruct H1 as (d' & Hd' & HP1 & Hi1). simplify_eq.
  destruct (IH L1 (b :: dn) _ HP1 Hi1 Hn) as (r & L2 & E2 & H2).
  { intros b' Hb'. destruct (Hl b' ltac:(by right)). split; [done|]. intros [->|?]%elem_of_cons; done. }
  { intros Hc. apply HE. by destruct (block_check defd d). }
  exists r, L2. split; [done|]. destruct r; [|done]. by rewrite reverse_cons, <- app_assoc.
Qed.
End Blocks.
