(* ===== verification/CraneliftNew.v ===== *)
(** * Laying out the function
    ([jit-compiler-core/src/compiler/cranelift_backend.rs], [FunctionLowering::new])

    Before anything is translated every stack slot, block and block parameter has
    its counterpart; then [lower_function] as a whole. *)

From S2P Require Import Prelude Convert HaltReason MemTypes Fault Memops ObjectQueue Fabric PageTable IoMMU.
From S2P Require Import ExclusiveMonitor LookupCache MemAccess FfiSupport Arena Ir IrSem IrEmit IrLogic IrArith.
From S2P Require Import IrTyping IrBuilt IrBuilder IrRun.
From S2P Require Import Tarjan SccGraph HaltCheck HaltSplit HaltInv HaltSound BlockOrder.
From S2P Require Import BackEnd.
From S2P Require Import Clif CraneliftLower CraneliftHost CraneliftCode CraneliftEmit CraneliftStmt CraneliftFunc CraneliftBlocks.
Local Open Scope Z_scope.
Local Open Scope emu_scope.

Section New.
Context {F : Type} `{!FunctionBuilder F, !FunctionBuilderLaws F [I32] }.
Context (ir : ExecIrBuilder) (exec_ir : ExecIr) (helper_address : HostCallback -> Z).
Context (Hco : compilable ir) (Hlow : fn_lowerable ir = true).
Context (Hvalues : exec_ssa_values exec_ir = ssa_values ir) (Hsigs : exec_signatures exec_ir = signatures ir)
  (Hstmts : exec_stmts exec_ir = all_stmts ir) (Hblocks : exec_blocks exec_ir = blocks ir)
  (Hslots : exec_stack_slots exec_ir = stack_slots ir).
Abbreviation order := (block_compile_order exec_ir).
Abbreviation Lowering := (@FunctionLowering F).
Abbreviation func L := (clif_func (lw_builder L)).
Abbreviation V L := (map_get (lw_values L)).
Abbreviation B L := (map_get (lw_blocks L)).
Abbreviation slots L := (map_get (lw_stack_slots L)).
Abbreviation lowering_ok := (lowering_ok ir).

(** ** Stack slots *)

(** A lowering with nothing but the slots so far. *)
Record slots_only (n : nat) (L : Lowering) : Prop := {
  so_values : forall v, V L v = None;
  so_blocks : forall b, B L b = None;
  so_sigs : forall s, map_get (lw_signatures L) s = None;
  so_regions : lw_alias_regions L = replicate REGION_COUNT None;
  so_slots : forall s, (get s < n)%nat -> is_Some (slots L s);
  so_later : forall s, (n <= get s)%nat -> slots L s = None;
  so_placed : forall s c, slots L s = Some c -> is_Some (clif_slots (func L) !! c);
  so_current : clif_current (lw_builder L) = None;
}.

Lemma new_stack_slot_spec n L d :
  slots_only n L -> slot_ok d = true ->
  exists L', new_stack_slot (Pos.of_succ_nat n) d L = Some (tt, L') /\ slots_only (Datatypes.S n) L'.
Proof.
  intros [H1 H2 H3 H4 H5 H6 H7 H8] [Ha Hp]%andb_true_iff. unfold new_stack_slot. rewrite Ha, Hp.
  destruct (slot_law (slot_size d) (Z.log2 (slot_align d)) (lw_builder L)) as (s & f' & E & Hnew & Hf & Hcur).
  assert (on_builder (create_sized_stack_slot (slot_size d) (Z.log2 (slot_align d))) L = Some (s, set_builder f' L)) as Eb
    by (unfold on_builder; by rewrite E).
  do 2 rewrite (sm_bind_run _ _ _ tt L eq_refl). rewrite (sm_bind_run _ _ _ _ _ Eb).
  destruct (map_insert_unique_new (lw_stack_slots L) (Pos.of_succ_nat n) s) as (m & Em & Hm); [apply H6; by rewrite get_of_succ|].
  cbn [set_builder lw_stack_slots].
  rewrite Em. eexists. split; [done|]. split; simpl; try done.
  - intros k Hk. rewrite Hm. case_decide as E'; [by eexists|]. apply H5.
    assert (get k <> n); [|lia]. intros <-. by rewrite of_succ_get in E'.
  - intros k Hk. rewrite Hm. case_decide as E'; [subst; rewrite get_of_succ in Hk; lia|]. apply H6. lia.
  - intros k c. rewrite Hm, Hf. simpl. case_decide; [intros [= <-]; rewrite lookup_insert_eq; by eexists|].
    intros Hk. apply lookup_insert_is_Some. destruct (decide (s = c)); [by left|right; split; [done|by eapply H7]].
  - by rewrite Hcur.
Qed.

Lemma slots_spec L :
  slots_only 0 L -> exists keys L', sm_of_option (arena_keys (exec_stack_slots exec_ir)) L = Some (keys, L) /\
    sm_for (zip keys (exec_stack_slots exec_ir)) (fun '(slot, data) => new_stack_slot slot data) L = Some (tt, L') /\
    slots_only (length (stack_slots ir)) L'.
Proof.
  intros H0. rewrite Hslots. unfold fn_lowerable in Hlow. rewrite !andb_true_iff in Hlow. destruct Hlow as [[_ Hok] Hsmall%Z.leb_le].
  assert (sm_of_option (arena_keys (stack_slots ir)) L = Some (Pos.of_succ_nat <$> seq 0 (length (stack_slots ir)), L)) as Ek
    by (unfold sm_of_option; by rewrite arena_keys_spec).
  eexists. setoid_rewrite Ek.
  destruct (sm_for_inv (fun pre L => slots_only (length pre) L) (zip (Pos.of_succ_nat <$> seq 0 (length (stack_slots ir))) (stack_slots ir))
    (fun '(slot, data) => new_stack_slot slot data) L) as (L' & E & H'); [|done|].
  - intros pre [k d] post L1 El H1. assert (k = Pos.of_succ_nat (length pre) /\ slot_ok d = true) as [-> Hd].
    { assert (zip (Pos.of_succ_nat <$> seq 0 (length (stack_slots ir))) (stack_slots ir) !! length pre = Some (k, d)) as Hk
        by (rewrite El; by apply list_lookup_middle).
      apply lookup_zip_Some in Hk as [Hk Hd]. apply list_lookup_fmap_Some in Hk as (i & -> & Hi%lookup_seq). split; [f_equal; lia|].
      rewrite forallb_forall in Hok. by apply Hok, list_elem_of_In, (list_elem_of_lookup_2 _ (length pre)). }
    destruct (new_stack_slot_spec _ _ _ H1 Hd) as (L2 & E2 & H2). exists L2. split; [done|]. rewrite length_app. simpl. by rewrite Nat.add_1_r.
  - exists L'. split; [done|]. split; [exact E|]. by rewrite length_zip, length_fmap, length_seq, Nat.min_id in H'.
Qed.
(** ** Blocks and parameters *)

#[local] Opaque map_insert.

(** The blocks [dn] are there, empty, with their parameters. *)
Record layout_so_far (dn : list Block) (L : Lowering) : Prop := {
  ls_ok : lowering_ok L;
  ls_blocks : forall b cb, B L b = Some cb -> b ∈ dn /\ exists d bd, arena_get (blocks ir) b = Some d /\
    clif_blocks (func L) !! cb = Some bd /\ cb_code bd = [] /\ cb_term bd = None /\
    Forall2 (fun p c => V L p = Some c) (parameters d) (cb_params bd);
  ls_inj : forall b b' cb, B L b = Some cb -> B L b' = Some cb -> b = b';
  ls_all : forall b, b ∈ dn -> is_Some (B L b);
  ls_params : forall v c, V L v = Some c -> exists b, b ∈ dn /\ v ∈ block_params_of ir b;
  ls_current : clif_current (lw_builder L) = None;
  ls_placed : placed L;
}.

Lemma layout_start L : slots_only (length (stack_slots ir)) L -> layout_so_far [] L.
Proof.
  intros [H1 H2 H3 H4 H5 H6 H7 H8]. split; try done.
  - split.
    + intros v cv. by rewrite H1.
    + intros v v' cv. by rewrite H1.
    + by rewrite H4, length_replicate.
    + intros i a. rewrite H4. intros [? _]%lookup_replicate. done.
    + intros s r. by rewrite H3.
    + intros s Hs. apply H5. destruct Hs as [d Hd%lookup_lt_Some]. done.
  - intros b cb. by rewrite H2.
  - intros b b' cb. by rewrite H2.
  - by intros b ?%elem_of_nil.
  - intros v c. by rewrite H1.
Qed.

(** While the parameters [ps] of the block [cb] are made. *)
Record params_so_far (L0 : Lowering) (cb : ClifBlock) (ps : list SSAValue) (L : Lowering) : Prop := {
  ps_ok : lowering_ok L;
  ps_block : exists cs, clif_blocks (func L) = <[cb := mkClifBlock cs [] None false]> (clif_blocks (func L0)) /\
    Forall2 (fun p c => V L p = Some c) ps cs;
  ps_blocks : lw_blocks L = lw_blocks L0;
  ps_slots : lw_stack_slots L = lw_stack_slots L0 /\ clif_slots (func L) = clif_slots (func L0);
  ps_old : forall v c, V L0 v = Some c -> V L v = Some c;
  ps_new : forall v c, V L v = Some c -> V L0 v = Some c \/ v ∈ ps;
  ps_current : clif_current (lw_builder L) = None;
}.

(** Binding one value more. *)
Lemma bind_value_ok L f v c ty :
  lowering_ok L -> fn_grows (func L) (clif_func f) -> V L v = None -> value_types (func L) !! c = None ->
  value_types (clif_func f) !! c = Some ty -> lowered_ty ir v = Some ty ->
  lowering_ok (set_values (snd (map_insert v c (lw_values L))) (set_builder f L)).
Proof.
  intros Hok G Hv Hc Hc' Ht. destruct (lowering_ok_grow ir L f Hok G) as [H1 H2 H3 H4 H5 H6]. split; simpl in *; try done.
  - intros u x. rewrite map_get_insert. case_decide as Eu; [intros [= <-]; subst; by exists ty|apply H1].
  - assert (forall u, V L u <> Some c) as Hne by (intros u (t & _ & ?)%(lo_types _ _ Hok); congruence).
    intros u u' x. rewrite !map_get_insert. case_decide as Eu; case_decide as Eu'; subst; try done.
    + intros [= <-] Hu. by apply Hne in Hu.
    + intros Hu [= <-]. by apply Hne in Hu.
    + apply H2.
Qed.

Lemma new_param_spec L0 cb ps p L d b :
  params_so_far L0 cb ps L -> arena_get (blocks ir) b = Some d -> p ∈ parameters d -> p ∉ ps -> V L0 p = None ->
  exists L', new_param exec_ir I64 cb p L = Some (tt, L') /\ params_so_far L0 cb (ps ++ [p]) L'.
Proof.
  intros [H1 (cs & H2 & H3) H4 [H5 H6] H7 H8 H9] Hd Hp Hps Hfresh.
  destruct (co_blocks _ Hco _ _ Hd) as (Hpt & _). destruct (Hpt p Hp) as [ty Hty].
  assert (V L p = None) as Hnone by (destruct (V L p) eqn:E; [|done]; apply H8 in E as [|]; [congruence|done]).
  destruct (param_law cb (ir_ty_to_clif_ty I64 ty) (lw_builder L)) as (c & f' & E & Hnew & Hf & Hcur); [rewrite H2, lookup_insert_eq; by eexists|].
  assert (sm_of_option (arena_get (exec_ssa_values exec_ir) p) L = Some (ty, L)) as E0
    by (unfold sm_of_option; rewrite Hvalues; unfold vty in Hty; by rewrite Hty).
  assert (on_builder (append_block_param cb (ir_ty_to_clif_ty I64 ty)) L = Some (c, set_builder f' L)) as E1 by (unfold on_builder; by rewrite E).
  unfold new_param. rewrite (sm_bind_run _ _ _ _ _ E0), (sm_bind_run _ _ _ _ _ E1). eexists. split; [reflexivity|].
  split; simpl.
  - eapply (bind_value_ok L f' p c); [done| |done|done| |].
    + rewrite Hf. split; simpl; try done. by apply insert_subseteq.
    + rewrite Hf. simpl. apply lookup_insert_eq.
    + unfold lowered_ty. rewrite (parameter_plain ir b d p Hco Hd Hp). unfold vty in Hty. by rewrite Hty.
  - exists (cs ++ [c]). split.
    + rewrite Hf. simpl. rewrite H2. apply map_eq. intros k. destruct (decide (k = cb)) as [->|Hk].
      * by rewrite lookup_alter_eq, !lookup_insert_eq.
      * by rewrite lookup_alter_ne, !lookup_insert_ne.
    + apply Forall2_app; [|constructor; [|constructor]; rewrite map_get_insert; by rewrite decide_True].
      eapply Forall2_impl; [exact H3|]. intros u x Hu. rewrite map_get_insert. rewrite decide_False; [done|]. intros ->. congruence.
  - done.
  - rewrite Hf. by split.
  - intros u x Hu. rewrite map_get_insert. rewrite decide_False; [by apply H7|]. intros ->. congruence.
  - intros u x. rewrite map_get_insert, elem_of_app, list_elem_of_singleton. case_decide; [by right; right|]. intros [|]%H8; tauto.
  - by rewrite Hcur.
Qed.

Lemma new_params_spec L0 cb L d b :
  params_so_far L0 cb [] L -> arena_get (blocks ir) b = Some d -> (forall p, p ∈ parameters d -> V L0 p = None) ->
  exists L', sm_for (parameters d) (new_param exec_ir I64 cb) L = Some (tt, L') /\ params_so_far L0 cb (parameters d) L'.
Proof.
  intros H0 Hd Hfresh. apply sm_for_inv; [|done]. intros pre p post L1 El H1.
  pose proof (parameters_nodup ir b d Hco Hd) as Hn. rewrite El in Hn. apply NoDup_app in Hn as (_ & Hn & _).
  assert (p ∈ parameters d) as Hp by (rewrite El; apply elem_of_app; right; left).
  eapply new_param_spec; [done|done|done| |by apply Hfresh]. intros Hin. by apply (Hn p Hin); left.
Qed.

Lemma new_block_spec dn b L :
  layout_so_far dn L -> b ∉ dn -> is_Some (arena_get (blocks ir) b) ->
  exists L', new_block exec_ir I64 b L = Some (tt, L') /\ layout_so_far (dn ++ [b]) L'.
Proof.
  intros [H1 H2 H3 H4 H5 H6 H7] Hb [d Hd]. destruct (block_law (lw_builder L)) as (cb & f1 & E1 & Hnew & Hf1 & Hc1).
  set (L1 := set_builder f1 L).
  assert (on_builder create_clif_block L = Some (cb, L1)) as R1 by (unfold on_builder; by rewrite E1).
  assert (fn_grows (func L) (clif_func f1)) as G1 by (rewrite Hf1; by split).
  destruct (new_params_spec L cb L1 d b) as (L2 & R2 & [P1 (cs & P2 & P3) P4 [P5 P6] P7 P8 P9]); [|done| |].
  { split; simpl; try done.
    - by apply lowering_ok_grow.
    - exists []. split; [by rewrite Hf1|constructor].
    - rewrite Hf1. by split.
    - intros v c. by left.
    - by rewrite Hc1. }
  { intros p Hp. destruct (V L p) eqn:E; [|done]. apply H5 in E as (b' & Hb' & Hp'). unfold block_params_of in Hp'.
    destruct (arena_get (blocks ir) b') as [d'|] eqn:Hd'; [|by apply elem_of_nil in Hp'].
    apply list_elem_of_lookup in Hp as [i Hi], Hp' as [j Hj].
    assert (SParam b i = SParam b' j) as [= -> _]; [|done]. eapply (co_ssa _ Hco p); by econstructor. }
  assert (exists f3 bd, (if is_cold d then on_builder (set_cold_block cb) else sm_ret tt) L2 = Some (tt, set_builder f3 L2) /\
    clif_func f3 = Fn.set_blocks (<[cb := bd]> (clif_blocks (func L))) (func L2) /\ clif_current f3 = None /\
    cb_params bd = cs /\ cb_code bd = [] /\ cb_term bd = None) as (f3 & bd & R3 & Hf3 & Hc3 & Bp & Bc & Bt).
  { destruct (is_cold d).
    - destruct (cold_law cb (lw_builder L2)) as (f3 & E3 & Hf3 & Hc3); [rewrite P2, lookup_insert_eq; by eexists|].
      exists f3, (mkClifBlock cs [] None true). split_and!; try done; [unfold on_builder; by rewrite E3| |by rewrite Hc3].
      rewrite Hf3. unfold Fn.set_cold, Fn.on_block. f_equal. rewrite P2. apply map_eq. intros k. destruct (decide (k = cb)) as [->|Hk].
      + by rewrite lookup_alter_eq, !lookup_insert_eq.
      + by rewrite lookup_alter_ne, !lookup_insert_ne.
    - exists (lw_builder L2), (mkClifBlock cs [] None false). split_and!; try done; [by destruct L2|].
      rewrite <- P2. by destruct (func L2). }
  destruct (map_insert_unique_new (lw_blocks L2) b cb) as (m & Em & Hm).
  { rewrite P4. destruct (B L b) eqn:E; [|done]. by apply H2 in E as [? _]. }
  assert (clif_blocks (func L) !! cb = None) as Hnone by done.
  exists (set_blocks m (set_builder f3 L2)). split.
  { assert (sm_of_option (arena_get (exec_blocks exec_ir) b) L1 = Some (d, L1)) as R0 by (unfold sm_of_option; by rewrite Hblocks, Hd).
    unfold new_block. rewrite (sm_bind_run _ _ _ _ _ R1), (sm_bind_run _ _ _ _ _ R0), (sm_bind_run _ _ _ _ _ R2), (sm_bind_run _ _ _ _ _ R3).
    cbn [set_builder lw_blocks]. by rewrite Em. }
  assert (fn_grows (func L2) (clif_func f3)) as G3 by (rewrite Hf3; by split).
  split; simpl.
  - destruct (lowering_ok_grow ir L2 f3 P1 G3) as [Q1 Q2 Q3 Q4 Q5 Q6]. by split.
  - intros b' cb'. rewrite Hm, P4. case_decide as Eb.
    + intros [= <-]. subst b'. split; [apply elem_of_app; right; left|]. exists d, bd. rewrite Hf3. simpl.
      rewrite lookup_insert_eq. split_and!; try done. by rewrite Bp.
    + intros (Hin & d' & bd' & Hd' & Hbd' & ? & ? & Hp)%H2. split; [apply elem_of_app; by left|]. exists d', bd'.
      rewrite Hf3. simpl. rewrite lookup_insert_ne by (intros <-; congruence). split_and!; try done.
      eapply Forall2_impl; [exact Hp|]. intros p c ?. by apply P7.
  - intros b1 b2 cb'. rewrite !Hm, P4. case_decide as E1'; case_decide as E2'; subst; try done.
    + intros [= <-] (_ & d' & bd' & _ & ? & _)%H2. congruence.
    + intros (_ & d' & bd' & _ & ? & _)%H2 [= <-]. congruence.
    + apply H3.
  - intros b' [Hin| ->%list_elem_of_singleton]%elem_of_app; rewrite Hm, P4; (case_decide; [by eexists|]); [by apply H4|done].
  - intros v c [Hv|Hv]%P8.
    + destruct (H5 _ _ Hv) as (b' & ? & ?). exists b'. split; [apply elem_of_app; by left|done].
    + exists b. split; [apply elem_of_app; right; left|]. unfold block_params_of. by rewrite Hd.
  - done.
  - intros s c Hs. simpl in Hs. rewrite P5 in Hs. cbn [set_blocks lw_builder set_builder]. rewrite Hf3. simpl. rewrite P6. by eapply H7.
Qed.
(** ** The function *)

Context (Hnodup : NoDup order) (Hentry : ENTRYPOINT ∈ order).
Context (Hexists : forall b, b ∈ order -> is_Some (arena_get (blocks ir) b)).
Context (Hclosed : forall b d j, b ∈ order -> arena_get (blocks ir) b = Some d -> j ∈ targets (terminator d) -> jump_target j ∈ order).
Abbreviation progress := (progress ir helper_address order).

Lemma layout_spec f :
  clif_current f = None ->
  exists keys L1 L2, sm_of_option (arena_keys (exec_stack_slots exec_ir)) (new_lowering exec_ir f) = Some (keys, new_lowering exec_ir f) /\
    sm_for (zip keys (exec_stack_slots exec_ir)) (fun '(slot, data) => new_stack_slot slot data) (new_lowering exec_ir f) = Some (tt, L1) /\
    sm_for order (new_block exec_ir I64) L1 = Some (tt, L2) /\ layout_so_far order L2.
Proof.
  intros Hf. destruct (slots_spec (new_lowering exec_ir f)) as (keys & L1 & E0 & E1 & H1).
  { split; simpl; try done; intros; try apply map_get_empty; try lia. by rewrite map_get_empty in *. }
  apply layout_start in H1.
  destruct (sm_for_inv layout_so_far order (new_block exec_ir I64) L1) as (L2 & E2 & H2); [|done|by exists keys, L1, L2].
  intros pre b post L El HL. rewrite El in Hnodup. apply NoDup_app in Hnodup as (_ & Hn & _).
  apply new_block_spec; [done| |].
  - intros Hb. by apply (Hn b Hb); left.
  - apply Hexists. rewrite El. apply elem_of_app. right; left.
Qed.

Lemma layout_progress L : layout_so_far order L -> progress L [] (list_to_set (order ≫= block_params_of ir)) /\ idle L.
Proof.
  intros [H1 H2 H3 H4 H5 H6 H7]. split; [|by intros c d; rewrite H6]. split; try done.
  - split; try done. intros b cb (_ & d & bd & ? & ? & _ & _ & ?)%H2. by exists d, bd.
  - by intros b ?%elem_of_nil.
  - intros b cb bd Hb _ Hbd. apply H2 in Hb as (_ & d & bd' & _ & ? & ? & ? & _). by simplify_eq.
  - intros b d x v _ Hd Hx Hv. destruct (V L v) as [c|] eqn:E; [|done]. apply H5 in E as (b' & _ & Hp).
    unfold block_params_of in Hp. destruct (arena_get (blocks ir) b') as [d'|] eqn:Hd'; [|by apply elem_of_nil in Hp].
    unfold stmt_outputs in Hv. destruct (arena_get (all_stmts ir) x) as [sd|] eqn:Hsd; [|by apply elem_of_nil in Hv].
    apply list_elem_of_lookup in Hp as [i Hi], Hv as [j Hj].
    assert (SParam b' i = SOutput x j); [|done]. eapply (co_ssa _ Hco v); by econstructor.
  - intros v [b [Hv Hb]]%elem_of_list_to_set%list_elem_of_bind. destruct (H4 b Hb) as [cb Hcb].
    apply H2 in Hcb as (_ & d & bd & Hd & _ & _ & _ & Hp). unfold block_params_of in Hv. rewrite Hd in Hv.
    apply list_elem_of_lookup in Hv as [i Hi]. destruct (Forall2_lookup_l _ _ _ _ _ Hp Hi) as (c & _ & ?). by exists c.
Qed.

Lemma entry_args_spec L :
  layout_so_far order L ->
  exists cb, B L ENTRYPOINT = Some cb /\ assert_entry_args cb L = Some (Ok tt, L).
Proof.
  intros [H1 H2 H3 H4 H5 H6 H7]. destruct (H4 _ Hentry) as [cb Hcb]. exists cb. split; [done|].
  apply H2 in Hcb as (_ & d & bd & Hd & Hbd & _ & _ & Hp). destruct (co_entry _ Hco) as (d' & Hd' & Ep). simplify_eq. rewrite Ep in Hp.
  unfold assert_entry_args, block_params. rewrite Hbd. cbn [fmap option_fmap option_map].
  assert (length args = length (cb_params bd)) as El by (apply Forall2_length in Hp; by rewrite length_fmap in Hp).
  rewrite El, Nat.eqb_refl. unfold ensure, sm_try. rewrite (sm_bind_run _ _ _ _ _ (eq_refl : lower_ok tt L = Some (Ok tt, L))).
  destruct (sm_for_inv (fun _ L' => L' = L) (zip args (cb_params bd))
    (fun '(arg, param) => sm_assert (bool_decide (V L (as_ssa_value arg) = Some param))) L) as (L' & E & ->); [|done|].
  - intros pre [a c] post L' Ez ->. exists L. rewrite bool_decide_true; [done|].
    assert (zip args (cb_params bd) !! length pre = Some (a, c)) as Hk by (rewrite Ez; by apply list_lookup_middle).
    apply lookup_zip_Some in Hk as [Ha Hc]. destruct (Forall2_lookup_r _ _ _ _ _ Hp Hc) as (p & Hpa & ?).
    rewrite list_lookup_fmap, Ha in Hpa. by injection Hpa as <-.
  - by rewrite (sm_bind_run _ _ _ _ _ E).
Qed.

Lemma lower_function_spec f :
  clif_current f = None ->
  exists r L, lower_function exec_ir I64 helper_address f = Some (r, L) /\
    match r with
    | Ok _ => exists dn defd, progress L dn defd /\ forall b, b ∈ order -> b ∈ dn
    | Err _ => lowers_cleanly ir order = false
    end.
Proof.
  intros Hf. destruct (layout_spec f Hf) as (keys & L1 & L2 & E0 & E1 & E2 & H2).
  destruct (entry_args_spec L2 H2) as (cb & Hcb & E3). destruct (layout_progress L2 H2) as [HP Hidle].
  destruct (lower_block_list_spec ir exec_ir helper_address Hco Hlow Hvalues Hsigs Hstmts Hblocks order Hexists Hclosed
    order L2 [] _ (lowers_cleanly ir order = false) HP Hidle Hnodup) as (r & L3 & E4 & H3); [|done|].
  { intros b Hb. split; [done|]. by intros ?%elem_of_nil. }
  exists r, L3. split.
  - assert (lowering_new exec_ir I64 (new_lowering exec_ir f) = Some (Ok tt, L2)) as E.
    { unfold lowering_new. rewrite (sm_bind_run _ _ _ _ _ E0), (sm_bind_run _ _ _ _ _ E1), (sm_bind_run _ _ _ _ _ E2).
      rewrite (sm_bind_run _ _ _ (B L2 ENTRYPOINT) L2 eq_refl). rewrite Hcb. unfold context, sm_try.
      by rewrite (sm_bind_run _ _ _ _ _ (eq_refl : lower_ok cb L2 = Some (Ok cb, L2))). }
    unfold lower_function, sm_try. by rewrite (sm_bind_run _ _ _ _ _ E).
  - destruct r; [|done]. destruct H3 as [defd H3]. exists (reverse order ++ []), defd. split; [done|].
    intros b Hb. by rewrite app_nil_r, elem_of_reverse.
Qed.
End New.
