(* ===== verification/CraneliftSim.v ===== *)
(** * Compiled functions do what the IR says
    ([jit-compiler-core/src/compiler/cranelift_backend.rs])

    A forward simulation: a step of the IR is matched by running the code it was
    translated to.  Program points are related if the Cranelift point is where the
    code of the statement starts and every value lowered is in its register. *)

From S2P Require Import Prelude Convert HaltReason MemTypes Fault Memops ObjectQueue Fabric PageTable IoMMU.
From S2P Require Import ExclusiveMonitor LookupCache MemAccess FfiSupport Arena Ir IrSem IrEmit IrLogic IrArith.
From S2P Require Import IrTyping IrBuilt IrBuilder IrRun.
From S2P Require Import Tarjan SccGraph HaltCheck HaltSplit HaltInv HaltSound BlockOrder.
From S2P Require Import BackEnd.
From S2P Require Import Clif CraneliftLower CraneliftHost CraneliftCode CraneliftEmit CraneliftStmt CraneliftFunc CraneliftBlocks CraneliftNew.
Local Open Scope Z_scope.
Local Open Scope emu_scope.

(** ** Binding and writing several values *)

Lemma write_values_lookup vs xs (env : CEnv) :
  length vs = length xs -> NoDup vs ->
  exists env', write_values vs xs env = Some env' /\ (forall v, v ∉ vs -> env' !! v = env !! v) /\
    (forall i v x, vs !! i = Some v -> xs !! i = Some x -> env' !! v = Some x).
Proof.
  intros Hl Hn. unfold write_values. rewrite decide_True by done. eexists. split; [done|]. split.
  - intros v Hv. rewrite lookup_union_r; [done|]. apply not_elem_of_list_to_map_1. by rewrite fst_zip by lia.
  - intros i v x Hv Hx. apply lookup_union_Some_l, elem_of_list_to_map_1; [by rewrite fst_zip by lia|].
    apply list_elem_of_lookup. exists i. by apply lookup_zip_Some.
Qed.

(** ** Running code *)

Section Clif.
Context {S : Type} `{!Execution S} (fn : ClifFunc).

Lemma run_clif_app n m p q r : run_clif fn n p = Some (CContinue q) -> run_clif fn m q = r -> run_clif fn (n + m) p = r.
Proof.
  revert p. induction n as [|n IH]; intros p H Hr; [by injection H as ->|]. simpl in *.
  destruct (cstep fn p) as [[p'|]|]; [by apply IH|done..].
Qed.

(** The code in the middle of a block. *)
Lemma run_code cb bd pre code post env env' s s' :
  clif_blocks fn !! cb = Some bd -> cb_code bd = pre ++ code ++ post -> exec_code fn code env s = Some (env', s') ->
  run_clif fn (length code) (mkCPoint cb (length pre) env s) = Some (CContinue (mkCPoint cb (length (pre ++ code)) env' s')).
Proof.
  intros Hbd. revert pre env s. induction code as [|i code IH]; intros pre env s Hc He.
  { injection He as <- <-. by rewrite app_nil_r. }
  simpl in He. unfold sm_bind in He. destruct (exec_inst fn i env s) as [[env1 s1]|] eqn:E; [|done].
  simpl. unfold cstep. simpl. rewrite Hbd. cbn [mbind option_bind].
  assert (cb_code bd !! length pre = Some i) as -> by (rewrite Hc; by apply (list_lookup_middle pre (code ++ post))).
  rewrite E. cbn [mbind option_bind].
  specialize (IH (pre ++ [i]) env1 s1). rewrite <- !app_assoc in IH. simpl in IH.
  rewrite length_app, Nat.add_1_r in IH. by apply IH.
Qed.

Lemma run_term cb bd env s ct r :
  clif_blocks fn !! cb = Some bd -> cb_term bd = Some ct -> exec_clif_term fn ct env s = Some r ->
  run_clif fn 1 (mkCPoint cb (length (cb_code bd)) env s) = Some r.
Proof.
  intros Hbd Ht He. simpl. unfold cstep. simpl. rewrite Hbd. cbn [mbind option_bind].
  rewrite lookup_ge_None_2 by done. rewrite Ht. cbn [mbind option_bind]. rewrite He. by destruct r.
Qed.
End Clif.

(** ** The simulation *)

Section Sim.
Context {F : Type} `{!FunctionBuilder F, !FunctionBuilderLaws F [I32] }.
Context {Error : Type} {e : Endian} {ly : Layout} {io_mmu : IoMMU} `{!Host Error} `{!HostLaws e ly io_mmu}.
Context (ir : ExecIrBuilder) (Hco : compilable ir) (Hlow : fn_lowerable ir = true).
Context (order dn : list Block) (defd : gset SSAValue) (L : FunctionLowering (F := F)).
Context (HP : progress ir helper_address order L dn defd) (Hall : forall b, b ∈ order -> b ∈ dn).
Context (Hclosed : forall b d j, b ∈ order -> arena_get (blocks ir) b = Some d -> j ∈ targets (terminator d) -> jump_target j ∈ order).
Context (Hframe : forall slot cs, map_get (lw_stack_slots L) slot = Some cs -> slot_address cs = address (PStack slot)).
Abbreviation World := (@World Error).
Abbreviation Point := (@Point Error).
Abbreviation fn := (clif_func (lw_builder L)).
Abbreviation V := (map_get (lw_values L)).

(** What holds of the values bound, in the IR and in registers. *)
Record envs_match (ρ : Env) (env : CEnv) : Prop := {
  en_typed : env_typed ir ρ;
  en_models : env_models ir V ρ env;
  en_halt : ρ !! ARG_HALT_REASON_PTR = Some (VPtr PHaltReason);
}.

(** A statement, translated, run. *)
Lemma stmt_simulated x d code (ρ ρ' : Env) env (s s' : World) :
  arena_get (all_stmts ir) x = Some d -> stmt_lowered ir helper_address L d code -> envs_match ρ env ->
  exec_stmt e ly io_mmu d ρ s = Some (ρ', s') ->
  exists env', exec_code fn code env s = Some (env', s') /\ envs_match ρ' env'.
Proof.
  intros Hd (W & outs & HW & Hc & Hn & Ho & Hown) [Hty Hm Hh] He.
  pose proof (co_stmts _ Hco _ _ Hd) as Hst. pose proof Hst as (Ht & _).
  assert (stmt_lowerable ir (rvalue d) = true) as Hl.
  { unfold fn_lowerable in Hlow. rewrite !andb_true_iff in Hlow. destruct Hlow as [[[H _] _] _].
    exact (forallb_arena (fun d => stmt_lowerable ir (rvalue d)) _ _ _ H Hd). }
  pose proof (exec_stmt_typed _ _ _ _ _ _ _ _ _ (co_signatures _ Hco) Hty Hst He) as Hty'.
  unfold exec_stmt, sm_bind, sm_of_option in He.
  destruct (eval_stmt e ly io_mmu ρ (rvalue d) s) as [[xs s1]|] eqn:Ee; [|done].
  destruct (bind_values (outputs d) xs ρ) as [ρ1|] eqn:Eb; [|done]. injection He as <- <-.
  assert (env_models ir W ρ env) as HmW by (intros v x' cv Hv Hw; apply (Hm v x' cv Hv), HW, Hw).
  assert (forall slot cs, map_get (lw_stack_slots L) slot = Some cs ->
    slot_address cs = address (PStack slot) /\ is_Some (clif_slots fn !! cs)) as Hfr.
  { intros slot cs Hs. split; [by apply Hframe|by eapply (pr_placed _ _ _ _ _ _ HP)]. }
  destruct (stmt_runs fn ir W (map_get (lw_stack_slots L)) Hfr ρ env Hty HmW Hh (rvalue d) code outs xs s s1 Ht Hl Hc Hn)
    as (env' & Ex & Hkeep & Hout); [intros v cv Hv; by apply HW in Hv as [_ ?]|done|].
  exists env'. split; [done|].
  destruct (bind_values_lookup _ _ _ _ Eb (outputs_nodup _ _ _ Hco Hd)) as (Hlen & Hold & Hnew).
  split; [done| |by rewrite Hold by (by eapply halt_not_output)].
  intros v x' cv Hv Hcv. destruct (decide (v ∈ outputs d)) as [Hin|Hin].
  - pose proof Hin as Hin'. apply list_elem_of_lookup in Hin as [i Hi].
    destruct (Forall2_lookup_l _ _ _ _ _ Ho Hi) as (c & Hci & Hvc). simplify_eq.
    destruct (Forall2_lookup_l _ _ _ _ _ Hout Hci) as (y & Hy & c' & Hc' & Hmod).
    rewrite (Hnew _ _ _ Hi Hy) in Hv. injection Hv as <-. exists c'. split; [done|].
    unfold models. rewrite (output_plain ir x d v Hco Hd Hin'). unfold output_models in Hmod. by destruct (rvalue d).
  - rewrite Hold in Hv by done. rewrite Hkeep; [by eapply Hm|]. intros Hr. by apply (or_own _ _ _ Hown _ _ Hcv) in Hr.
Qed.

(** Binding the parameters of a block. *)
Lemma parameters_bound b d bd xs (ρ ρ' : Env) env :
  arena_get (blocks ir) b = Some d -> Forall2 (fun p c => V p = Some c) (parameters d) (cb_params bd) ->
  env_models ir V ρ env -> bind_values (parameters d) xs ρ = Some ρ' ->
  exists env', write_values (cb_params bd) (rep <$> xs) env = Some env' /\ env_models ir V ρ' env'.
Proof.
  intros Hd Hps Hm Eb. pose proof (pr_ok _ _ _ _ _ _ HP) as Hok.
  pose proof (parameters_nodup _ _ _ Hco Hd) as Hn. destruct (bind_values_lookup _ _ _ _ Eb Hn) as (Hlen & Hold & Hnew).
  assert (NoDup (cb_params bd)) as Hnc.
  { apply NoDup_alt. intros i i' c Hi Hi'. destruct (Forall2_lookup_r _ _ _ _ _ Hps Hi) as (v & Hv & Ev).
    destruct (Forall2_lookup_r _ _ _ _ _ Hps Hi') as (v' & Hv' & Ev').
    pose proof (lo_inj _ _ Hok _ _ _ Ev Ev') as <-. by eapply NoDup_lookup. }
  destruct (write_values_lookup (cb_params bd) (rep <$> xs) env) as (env' & Ew & Hkeep & Hset); [|done|].
  { rewrite length_fmap, <- Hlen. symmetry. by eapply Forall2_length. }
  exists env'. split; [done|].
  intros v x cv Hv Hcv. destruct (decide (v ∈ parameters d)) as [Hin|Hin].
  - pose proof Hin as Hin'. apply list_elem_of_lookup in Hin as [i Hi].
    destruct (Forall2_lookup_l _ _ _ _ _ Hps Hi) as (c & Hci & Hvc). simplify_eq.
    assert (is_Some (xs !! i)) as [y Hy] by (apply lookup_lt_is_Some; rewrite <- Hlen; by eapply lookup_lt_Some).
    rewrite (Hnew _ _ _ Hi Hy) in Hv. injection Hv as <-. exists (rep y).
    split; [eapply Hset; [done|by rewrite list_lookup_fmap, Hy]|]. unfold models. by rewrite (parameter_plain ir _ d v Hco Hd Hin').
  - rewrite Hold in Hv by done. rewrite Hkeep; [by eapply Hm|]. intros Hr. apply Hin.
    apply list_elem_of_lookup in Hr as [i Hi]. destruct (Forall2_lookup_r _ _ _ _ _ Hps Hi) as (v' & Hv' & Ev').
    rewrite (lo_inj _ _ Hok _ _ _ Hcv Ev'). by eapply list_elem_of_lookup_2.
Qed.

(** A jump, taken. *)
Lemma jump_simulated j b cargs (ρ : Env) env (s : World) p :
  jump_lowered L j b cargs -> jump_typed ir j -> forallb (plain ir) (jump_parameters j) = true -> envs_match ρ env ->
  follow ir j ρ s = Some (Continue p) ->
  at_block p = jump_target j /\ at_index p = 0%nat /\ world p = s /\
  exists env', take_branch fn b cargs env s = Some (CContinue (mkCPoint b 0 env' s)) /\ envs_match (values p) env'.
Proof.
  intros [Hb Hargs] Hj Hp [Hty Hm Hh] Hf. pose proof (follow_typed _ _ _ _ _ Hty Hj Hf) as Hty'.
  destruct Hj as (Hne & d & Hd & HF). unfold follow in Hf. rewrite Hd in Hf. cbn [mbind option_bind] in Hf.
  destruct (mapM (fun v => ρ !! v) (jump_parameters j)) as [xs|] eqn:Ex; [|done]. cbn [mbind option_bind] in Hf.
  destruct (bind_values (parameters d) xs ρ) as [ρ'|] eqn:Eb; [|done]. injection Hf as <-. simpl in *.
  split_and!; [done..|].
  destruct (lay_blocks _ _ _ (pr_laid _ _ _ _ _ _ HP) _ _ Hb) as (d' & bd & Hd' & Hbd & Hps). simplify_eq.
  destruct (parameters_bound _ _ _ _ _ _ _ Hd Hps Hm Eb) as (env' & Ew & Hm').
  pose proof (read_operands ir V ρ env Hm _ _ _ Hp Hargs Ex) as Hread. exists env'. split.
  { unfold take_branch, enter. rewrite Hread. cbn [mbind option_bind]. rewrite Hbd. cbn [mbind option_bind]. by rewrite Ew. }
  split; [done|done|]. destruct (bind_values_lookup _ _ _ _ Eb (parameters_nodup _ _ _ Hco Hd)) as (_ & Hold & _).
  by rewrite Hold by (by eapply halt_not_parameter).
Qed.

(** ** Points *)

(** The pieces of a translated block. *)
Record block_code (b : Block) (cb : ClifBlock) (d : BlockData) (bd : ClifBlockData) (codes : list (list Inst))
    (code : list Inst) (ct : ClifTerm) : Prop := {
  bc_block : map_get (lw_blocks L) b = Some cb;
  bc_data : arena_get (blocks ir) b = Some d;
  bc_clif : clif_blocks fn !! cb = Some bd;
  bc_seq : lowered_seq ir helper_address L (stmts d) codes;
  bc_term : term_code L (terminator d) code ct;
  bc_own : own_results L code [];
  bc_code : cb_code bd = concat codes ++ code;
  bc_end : cb_term bd = Some ct;
}.

Lemma has_code b : b ∈ order -> exists cb d bd codes code ct, block_code b cb d bd codes code ct.
Proof.
  intros Hb%Hall. destruct (pr_done _ _ _ _ _ _ HP _ Hb) as (cb & d & bd & codes & code & ct & ? & ? & ? & ? & ? & ? & ? & ?).
  by exists cb, d, bd, codes, code, ct.
Qed.

(** The Cranelift point is where the code of the IR's point starts. *)
Definition point_match (p : Point) (q : CPoint) : Prop :=
  exists cb d bd codes code ct, block_code (at_block p) cb d bd codes code ct /\ at_block p ∈ order /\
    (at_index p <= length (stmts d))%nat /\ envs_match (values p) (cp_values q) /\
    q = mkCPoint cb (length (concat (take (at_index p) codes))) (cp_values q) (world p).

Lemma point_match_start b cb ρ env (s : World) :
  b ∈ order -> map_get (lw_blocks L) b = Some cb -> envs_match ρ env -> point_match (mkPoint b 0 ρ s) (mkCPoint cb 0 env s).
Proof.
  intros Hb Hcb He. destruct (has_code b Hb) as (cb' & d & bd & codes & code & ct & Hc).
  pose proof (bc_block _ _ _ _ _ _ _ Hc). simplify_eq. exists cb, d, bd, codes, code, ct. split_and!; try done. simpl. lia.
Qed.

(** A statement. *)
Lemma point_stmt (p : Point) q d x sd (ρ : Env) (s : World) :
  point_match p q -> arena_get (blocks ir) (at_block p) = Some d -> stmts d !! at_index p = Some x ->
  arena_get (all_stmts ir) x = Some sd -> exec_stmt e ly io_mmu sd (values p) (world p) = Some (ρ, s) ->
  exists n q', run_clif fn n q = Some (CContinue q') /\ point_match (mkPoint (at_block p) (Datatypes.S (at_index p)) ρ s) q'.
Proof.
  intros (cb & d' & bd & codes & code & ct & Hc & Hin & Hi & He & ->) Hd Hx Hsd Hex. simpl in He.
  pose proof (bc_data _ _ _ _ _ _ _ Hc). simplify_eq.
  destruct (Forall2_lookup_l _ _ _ _ _ (bc_seq _ _ _ _ _ _ _ Hc) Hx) as (ci & Hci & sd' & Hsd' & Hlow'). simplify_eq.
  destruct (stmt_simulated _ _ _ _ _ _ _ _ Hsd Hlow' He Hex) as (env' & Ec & He').
  exists (length ci). eexists. split.
  - eapply (run_code fn cb bd (concat (take (at_index p) codes)) ci (concat (drop (Datatypes.S (at_index p)) codes) ++ code));
      [by apply Hc| |exact Ec].
    rewrite (bc_code _ _ _ _ _ _ _ Hc). rewrite <- (take_drop_middle _ _ _ Hci) at 1. rewrite concat_app. simpl. by rewrite <- !app_assoc.
  - exists cb, d, bd, codes, code, ct. split_and!; try done.
    + simpl. by apply lookup_lt_Some in Hx.
    + simpl. f_equal. rewrite (take_S_r _ _ _ Hci), concat_app. simpl. by rewrite app_nil_r.
Qed.

(** A value the code of a terminator makes is no SSA value's. *)
Lemma envs_match_scratch ρ env r c code :
  envs_match ρ env -> own_results L code [] -> r ∈ results code -> envs_match ρ (<[r := c]> env).
Proof.
  intros [Ht Hm Hh] Ho Hr. split; [done| |done]. intros v x cv Hv Hcv.
  rewrite lookup_insert_ne; [by eapply Hm|]. intros <-. apply (or_own _ _ _ Ho _ _ Hcv) in Hr. by apply elem_of_nil in Hr.
Qed.

Lemma value_read ρ env v w z c : envs_match ρ env -> plain ir v = true -> ρ !! v = Some (VInt w z) -> V v = Some c ->
  env !! c = Some (CInt (clif_int_ty w) z).
Proof. intros [_ Hm _] Hp Hv Hc. exact (operand ir V ρ env Hm _ _ _ Hp Hv Hc). Qed.

(** A condition. *)
Lemma condition_zero ρ env v x z c : envs_match ρ env -> ρ !! v = Some x -> is_zero x = Some z -> V v = Some c ->
  exists ty bits, env !! c = Some (CInt ty bits) /\ (bits =? 0) = z.
Proof.
  intros [_ Hm _] Hv Hz Hc. destruct x as [w b|b|]; try done.
  - destruct (Hm _ _ _ Hv Hc) as (cv & Hl & Hmod). unfold models in Hmod. destruct (plain ir v); [|done]. subst cv.
    exists (clif_int_ty w), b. split; [done|]. by injection Hz as <-.
  - destruct (condition ir V ρ env Hm _ _ _ Hv Hc) as (ty & b' & Hl & Hb). exists ty, b'. split; [done|]. by injection Hz as <-.
Qed.

(** Where a step leads, in the IR and in the code. *)
Definition next_match (r : Next (Error := Error)) (r' : CNext (S := World)) : Prop :=
  match r, r' with
  | Continue p, CContinue q => point_match p q
  | Exit code s, CReturn x s' => x = CInt I32 code /\ s' = s
  | _, _ => False
  end.

(** The code of a terminator, run to where it leads. *)
Lemma run_end b cb d bd codes code ct env env' (s s' : World) r :
  block_code b cb d bd codes code ct -> exec_code fn code env s = Some (env', s') -> exec_clif_term fn ct env' s' = Some r ->
  run_clif fn (length code + 1) (mkCPoint cb (length (concat codes)) env s) = Some r.
Proof.
  intros Hc Ex Et. eapply run_clif_app.
  - eapply (run_code fn cb bd (concat codes) code []); [apply Hc|by rewrite app_nil_r, (bc_code _ _ _ _ _ _ _ Hc)|exact Ex].
  - rewrite <- (bc_code _ _ _ _ _ _ _ Hc). eapply run_term; [apply Hc..|exact Et].
Qed.

Lemma follow_continues j (ρ : Env) (s : World) r : follow ir j ρ s = Some r -> exists p, r = Continue p.
Proof.
  unfold follow. destruct (arena_get _ _); [|done]. cbn [mbind option_bind]. destruct (mapM _ _); [|done]. cbn [mbind option_bind].
  destruct (bind_values _ _ _); [|done]. intros [= <-]. by eexists.
Qed.

Lemma jump_next j b cargs (ρ : Env) env (s : World) r b0 data :
  jump_lowered L j b cargs -> jump_typed ir j -> forallb (plain ir) (jump_parameters j) = true -> envs_match ρ env ->
  b0 ∈ order -> arena_get (blocks ir) b0 = Some data -> j ∈ targets (terminator data) ->
  follow ir j ρ s = Some r ->
  exists r', take_branch fn b cargs env s = Some r' /\ next_match r r'.
Proof.
  intros Hj Ht Hp He Hb Hd Hjt Hf. destruct (follow_continues _ _ _ _ Hf) as [p ->].
  destruct (jump_simulated _ _ _ _ _ _ _ Hj Ht Hp He Hf) as (Eb & Ei & Ew & env' & Htb & He').
  eexists. split; [exact Htb|]. destruct p as [pb pi ρ' s']. simpl in *. subst. apply point_match_start; [|apply Hj|done].
  by eapply Hclosed.
Qed.

(** A terminator. *)
Lemma point_term (p : Point) q d r :
  point_match p q -> arena_get (blocks ir) (at_block p) = Some d -> stmts d !! at_index p = None ->
  exec_terminator ir (terminator d) (values p) (world p) = Some r ->
  exists n r', run_clif fn n q = Some r' /\ next_match r r'.
Proof.
  intros (cb & d' & bd & codes & code & ct & Hc & Hin & Hi & He & ->) Hd Hx Hex. simpl in He.
  pose proof (bc_data _ _ _ _ _ _ _ Hc). simplify_eq. set (env := cp_values q) in *. simpl.
  rewrite (take_ge codes) by (rewrite <- (Forall2_length _ _ _ (bc_seq _ _ _ _ _ _ _ Hc)); by apply lookup_ge_None).
  destruct (co_blocks _ Hco _ _ Hd) as (_ & _ & _ & Hj). rewrite Forall_forall in Hj.
  assert (term_lowerable ir (terminator d) = true) as Htl.
  { unfold fn_lowerable in Hlow. rewrite !andb_true_iff in Hlow. destruct Hlow as [[[_ H] _] _].
    exact (forallb_arena (fun d => term_lowerable ir (terminator d)) _ _ _ H Hd). }
  unfold term_lowerable in Htl. apply andb_true_iff in Htl as [Hpj Hpk]. rewrite forallb_forall in Hpj.
  pose proof (bc_term _ _ _ _ _ _ _ Hc) as Hct. pose proof (bc_own _ _ _ _ _ _ _ Hc) as Hown.
  unfold term_code in Hct. unfold exec_terminator in Hex.
  destruct (kind (terminator d)) as [|v|v|], (targets (terminator d)) as [|j1 [|j2 [|? ?]]] eqn:Et; try done.
  - destruct Hct as (z & -> & ->). injection Hex as <-. do 2 eexists. split; [eapply run_end; [exact Hc| |]|].
    + eapply exec_code_cons; [eapply exec_one; [reflexivity|by apply host_compute]|reflexivity].
    + simpl. rewrite lookup_insert_eq. reflexivity.
    + done.
  - destruct Hct as (c & Hcv & -> & ->). destruct (values p !! v) as [[[] z| |]|] eqn:Ev; try done. injection Hex as <-.
    do 2 eexists. split; [eapply run_end; [exact Hc|reflexivity|]|].
    + simpl. rewrite (value_read _ _ _ _ _ _ He Hpk Ev Hcv). reflexivity.
    + done.
  - destruct Hct as (c & rc & zb & z_args & nb & nz_args & Hcv & Hzj & Hnj & -> & ->).
    destruct (values p !! v) as [x|] eqn:Ev; [|done]. cbn [mbind option_bind] in Hex.
    destruct (is_zero x) as [z|] eqn:Ez; [|done]. cbn [mbind option_bind] in Hex.
    destruct (condition_zero _ _ _ _ _ _ He Ev Ez Hcv) as (ty & bits & Hl & Hz).
    set (env1 := <[rc := of_bool (negb (bits =? 0))]> env).
    assert (exec_code fn [inst1 (Ins.icmp_imm CcNotEqual 0) [c] rc] env (world p) = Some (env1, world p)) as Ex.
    { eapply exec_code_cons; [|reflexivity]. eapply exec_one; [apply read_cons; [exact Hl|reflexivity]|].
      apply host_compute. by destruct ty. }
    assert (envs_match (values p) env1) as He1 by (eapply envs_match_scratch; [exact He|exact Hown|by left]).
    assert (exists r', take_branch fn (if z then zb else nb) (if z then z_args else nz_args) env1 (world p) = Some r' /\ next_match r r') as (r' & Hr' & Hm').
    { destruct z; (eapply (jump_next _ _ _ _ _ _ _ (at_block p) d); [eassumption|apply Hj|apply Hpj, list_elem_of_In|exact He1|exact Hin|exact Hd|rewrite Et|exact Hex]);
        first [by left|by right; left]. }
    exists (length [inst1 (Ins.icmp_imm CcNotEqual 0) [c] rc] + 1)%nat, r'. split; [|done]. eapply run_end; [exact Hc|exact Ex|].
    assert (env1 !! rc = Some (of_bool (negb (bits =? 0)))) as Erc by apply lookup_insert_eq.
    cbn [exec_clif_term]. rewrite Erc. cbn [mbind option_bind]. rewrite <- Hr', <- Hz. by destruct (bits =? 0).
  - destruct Hct as (b & cargs & Hjl & -> & ->).
    destruct (jump_next j1 b cargs (values p) env (world p) r (at_block p) d Hjl) as (r' & Hr' & Hm'); try done.
    { apply Hj. by left. } { apply Hpj, list_elem_of_In. by left. } { rewrite Et. by left. }
    exists 1%nat, r'. split; [|done]. eapply (run_end _ _ _ _ _ []); [exact Hc|reflexivity|exact Hr'].
Qed.

(** A step of the IR is matched by running its code. *)
Lemma step_simulated (p : Point) q r :
  point_match p q -> step e ly io_mmu ir p = Some r -> exists n r', run_clif fn n q = Some r' /\ next_match r r'.
Proof.
  intros Hm Hs. unfold step in Hs. destruct (arena_get (blocks ir) (at_block p)) as [d|] eqn:Hd; [|done]. cbn [mbind option_bind] in Hs.
  destruct (stmts d !! at_index p) as [x|] eqn:Hx.
  - destruct (arena_get (all_stmts ir) x) as [sd|] eqn:Hsd; [|done]. cbn [mbind option_bind] in Hs.
    destruct (exec_stmt e ly io_mmu sd (values p) (world p)) as [[ρ s]|] eqn:Ex; [|done]. injection Hs as <-.
    destruct (point_stmt _ _ _ _ _ _ _ Hm Hd Hx Hsd Ex) as (n & q' & Hn & Hq). by exists n, (CContinue q').
  - destruct (terminated d); [|done]. by eapply point_term.
Qed.

(** The call of the function. *)
Lemma entry_simulated ident (s : World) d xs :
  ENTRYPOINT ∈ order -> arena_get (blocks ir) ENTRYPOINT = Some d -> env_typed ir (entry_env ident) ->
  bind_values (parameters d) xs ∅ = Some (entry_env ident) ->
  exists cb q, map_get (lw_blocks L) ENTRYPOINT = Some cb /\ enter fn cb (rep <$> xs) ∅ s = Some q /\
    point_match (mkPoint ENTRYPOINT 0 (entry_env ident) s) q.
Proof.
  intros Hin Hd Hty Eb. destruct (lay_all _ _ _ (pr_laid _ _ _ _ _ _ HP) _ Hin) as [cb Hcb].
  destruct (lay_blocks _ _ _ (pr_laid _ _ _ _ _ _ HP) _ _ Hcb) as (d' & bd & Hd' & Hbd & Hps). simplify_eq.
  assert (env_models ir V ∅ ∅) as Hm by (intros v x cv Hv; by rewrite lookup_empty in Hv).
  destruct (parameters_bound _ _ _ _ _ _ _ Hd Hps Hm Eb) as (env' & Ew & Hm').
  exists cb, (mkCPoint cb 0 env' s). split_and!; [done| |].
  - unfold enter. rewrite Hbd. cbn [mbind option_bind]. by rewrite Ew.
  - apply point_match_start; [done|done|]. split; [done|done|]. by vm_compute.
Qed.

Lemma run_simulated fuel (p : Point) q r :
  point_match p q -> run_ir e ly io_mmu fuel ir p = Some r -> exists n r', run_clif fn n q = Some r' /\ next_match r r'.
Proof.
  revert p q. induction fuel as [|fuel IH]; intros p q Hm Hr; simpl in Hr.
  { injection Hr as <-. by exists 0%nat, (CContinue q). }
  destruct (step e ly io_mmu ir p) as [r0|] eqn:Es; [|done].
  destruct (step_simulated _ _ _ Hm Es) as (n & r1 & Hn & Hm1). destruct r0 as [p1|code s]; [|injection Hr as <-; by exists n, r1].
  destruct r1 as [q1|]; [|done]. destruct (IH _ _ Hm1 Hr) as (m & r2 & Hm2 & Hr2).
  exists (n + m)%nat, r2. split; [|done]. by eapply run_clif_app.
Qed.
End Sim.
