(* ===== verification/CraneliftCorrect.v ===== *)
(** * The Cranelift back end is correct
    ([jit-compiler-core/src/compiler/cranelift_backend.rs], [compile])

    The theorems on [lower_function] as a whole, for the functions [fn_lowerable]
    describes: it does not panic; it returns an error only if the function uses a
    value before its definition in the order of compilation, an immediate is too
    large or a code returned is not of 32 bits; and the function it builds does what
    the IR does. *)

From S2P Require Import Prelude Convert HaltReason MemTypes Fault Memops ObjectQueue Fabric PageTable IoMMU.
From S2P Require Import ExclusiveMonitor LookupCache MemAccess FfiSupport Arena Ir IrSem IrEmit IrLogic IrArith.
From S2P Require Import IrTyping IrBuilt IrBuilder IrRun.
From S2P Require Import Tarjan SccGraph HaltCheck HaltSplit HaltInv HaltSound BlockOrder.
From S2P Require Import BackEnd.
From S2P Require Import Clif CraneliftLower CraneliftHost CraneliftSample CraneliftCode CraneliftEmit CraneliftStmt CraneliftFunc CraneliftBlocks CraneliftNew CraneliftSim.
Local Open Scope Z_scope.
Local Open Scope emu_scope.

Section Correct.
Context {F : Type} `{!FunctionBuilder F, !FunctionBuilderLaws F [I32] }.

Lemma lower_finished x ir ha (f : F) :
  compilable ir -> fn_lowerable ir = true -> finished_from x ir -> clif_current f = None ->
  exists r L, lower_function x I64 ha f = Some (r, L) /\
    match r with
    | Ok _ => exists dn defd, progress ir ha (block_compile_order x) L dn defd /\ forall b, b ∈ block_compile_order x -> b ∈ dn
    | Err _ => lowers_cleanly ir (block_compile_order x) = false
    end.
Proof.
  intros Hco Hlow Hx Hf. destruct (finished_order x ir Hco Hx) as [H1 H2 _ H3 H4].
  by apply (lower_function_spec ir x ha Hco Hlow (ff_values _ _ Hx) (ff_signatures _ _ Hx) (ff_stmts _ _ Hx)
    (ff_blocks _ _ Hx) (ff_slots _ _ Hx) H1 H2 H3 H4 f Hf).
Qed.

(** C5: Translating a finished function within [fn_lowerable] (no negation of a
    boolean, a tag test used as a condition only, no plain access through a guest
    pointer, offsets, tag masks and element sizes in the range of their fields, stack
    slots aligned to powers of two and no more of them than handles) never panics: for any builder that keeps
    Cranelift's contract, a well-typed function and its compile order, the result
    is the function or an error, and it is the function if every use in the order of
    compilation comes after the definition, offsets fit 32 bits and element sizes
    63, and the codes returned are of 32 bits. *)
Theorem lowering_total x ir ha (f : F) :
  compilable ir -> fn_lowerable ir = true -> finished_from x ir -> clif_current f = None ->
  exists r L, lower_function x I64 ha f = Some (r, L) /\
    (lowers_cleanly ir (block_compile_order x) = true -> r = Ok tt).
Proof.
  intros Hco Hlow Hx Hf. destruct (lower_finished x ir ha f Hco Hlow Hx Hf) as (r & L & E & H). exists r, L.
  split; [done|]. intros Hc. destruct r as [[]|]; [done|]. congruence.
Qed.

(** ** Running what was built *)

Context {Error : Type} {e : Endian} {ly : Layout} {io_mmu : IoMMU} `{!Host Error} `{!HostLaws e ly io_mmu}.
Abbreviation World := (@World Error).

(** A call of the compiled function. *)
Definition call_compiled (L : FunctionLowering (F := F)) (ident : MaybeIdent.t) (s : World) (n : nat) : option (CNext (S := World)) :=
  cb ← map_get (lw_blocks L) ENTRYPOINT;
  q ← enter (clif_func (lw_builder L)) cb (rep <$> entry_values ident) ∅ s;
  run_clif (clif_func (lw_builder L)) n q.

(** Slots are where the frame has them. *)
Definition frame_placed (L : FunctionLowering (F := F)) : Prop :=
  forall slot cs, map_get (lw_stack_slots L) slot = Some cs -> slot_address cs = address (PStack slot).

(** The same outcome, of the IR and of the machine code. *)
Definition same_result (r : Next (Error := Error)) (r' : CNext (S := World)) : Prop :=
  match r, r' with
  | Continue p, CContinue q => cp_state q = world p
  | Exit code s, CReturn x s' => x = CInt I32 code /\ s' = s
  | _, _ => False
  end.

Lemma compiled_function_runs x ir (f : F) L ident fuel (s : World) r :
  compilable ir -> fn_lowerable ir = true -> finished_from x ir -> clif_current f = None ->
  lower_function x I64 helper_address f = Some (Ok tt, L) -> frame_placed L ->
  run_ir e ly io_mmu fuel ir (mkPoint ENTRYPOINT 0 (entry_env ident) s) = Some r ->
  exists n r', call_compiled L ident s n = Some r' /\ same_result r r'.
Proof.
  intros Hco Hlow Hx Hf Hl Hframe Hrun. pose proof (entry_env_typed ir ident (co_args _ Hco)) as Hty.
  destruct (finished_order x ir Hco Hx) as [H1 H2 _ H3 H4].
  destruct (lower_finished x ir helper_address f Hco Hlow Hx Hf) as (r0 & L' & E & H). rewrite E in Hl. injection Hl as -> ->.
  destruct H as (dn & defd & HP & Hall). destruct (co_entry _ Hco) as (d & Hd & Ep).
  destruct (entry_simulated ir Hco _ dn defd L HP Hall ident s d (entry_values ident) H2 Hd Hty) as (cb & q & Hcb & Hq & Hm);
    [rewrite Ep; apply entry_env_args|].
  destruct (run_simulated ir Hco Hlow _ dn defd L HP Hall H4 Hframe fuel _ q _ Hm Hrun) as (n & r' & Hn & Hr').
  exists n, r'. unfold call_compiled. rewrite Hcb. cbn [mbind option_bind]. rewrite Hq. cbn [mbind option_bind].
  split; [done|]. destruct r as [p|code s'], r' as [q'|y t]; try done. by destruct Hr' as (cb' & d' & bd & codes & code & ct & _ & _ & _ & _ & ->).
Qed.

(** The compiled function is the function: if the translation returned it, called
    on a machine that executes Cranelift's instructions as documented it comes to
    whatever the IR comes to, with the same code if that has left, and with the
    same registers, memory, TLB, monitor and halt word, whatever the state was at
    the call. *)
Theorem compiled_function_correct x ir (f : F) L ident fuel (s : World) r :
  compilable ir -> fn_lowerable ir = true -> finished_from x ir -> clif_current f = None ->
  lower_function x I64 helper_address f = Some (Ok tt, L) -> frame_placed L ->
  run_ir e ly io_mmu fuel ir (mkPoint ENTRYPOINT 0 (entry_env ident) s) = Some r ->
  exists n r', call_compiled L ident s n = Some r' /\ same_result r r'.
Proof. apply compiled_function_runs. Qed.

(** C39: Not so for the negation of a boolean, which [fn_lowerable] leaves out: it is
    emitted as the bitwise not of an 8-bit integer, so the register is not zero,
    which is true, whatever the boolean was. *)
Theorem bool_not_stays_true x ir ha (L : FunctionLowering (F := F)) cb v cv (ρ : Env) env b (s : World) :
  ready ir cb L -> map_get (lw_values L) v = Some cv -> value_types (clif_func (lw_builder L)) !! cv = Some I8 ->
  ρ !! v = Some (VBool b) -> env !! cv = Some (rep (VBool b)) ->
  eval_stmt e ly io_mmu ρ (KBitNot v) s = Some ([VBool (negb b)], s) /\ is_zero (VBool (negb b)) = Some b /\
  exists L' out env' c, lower_rvalue x I64 ha (KBitNot v) L = Some (Ok [out], L') /\
    emits ir cb L L' [inst1 Ins.bnot [cv] out] /\
    exec_code (clif_func (lw_builder L')) [inst1 Ins.bnot [cv] out] env s = Some (env', s) /\
    env' !! out = Some c /\ (cbits c =? 0) = false.
Proof.
  intros Hr Hv Ht Hb Hc. split; [unfold eval_stmt, lookup_value, sm_bind, sm_of_option; by rewrite Hb|].
  split; [by destruct b|].
  destruct (does_ins1 ir cb L Ins.bnot [cv] [I8] I8 Hr) as (out & L' & code & E & M & -> & _); [by repeat constructor|done|].
  exists L', out. do 2 eexists. split_and!; [|exact M| |apply lookup_insert_eq|].
  - cbn [lower_rvalue]. unfold sm_try, use_value. unfold sm_bind at 1. rewrite Hv. cbn [context lower_ok sm_ret].
    unfold one. by rewrite (sm_bind_run _ _ _ _ _ E).
  - eapply exec_code_cons; [eapply exec_one; [apply read_cons; [exact Hc|reflexivity]|]|reflexivity].
    apply host_compute. reflexivity.
  - by destruct b.
Qed.
End Correct.

(** ** A function translated and run *)

Definition demo_ir : ExecIrBuilder :=
  match run_ops Little sample_layout sample_ops (with_config 4) with Some (_, b) => b | None => with_config 4 end.

Lemma demo_constructed : Constructed Little sample_layout demo_ir.
Proof.
  unfold demo_ir. destruct (run_ops Little sample_layout sample_ops (with_config 4)) as [[[] b]|] eqn:E; [|by vm_compute in E].
  eapply constructed_ops; [constructor|apply sample_ops_ok|exact E].
Qed.

Lemma demo_compilable : compilable demo_ir.
Proof. eapply built_compilable, constructed_built, demo_constructed. Qed.

Definition demo_exec : ExecIr :=
  mkExecIr (ssa_values demo_ir) (blocks demo_ir) (all_stmts demo_ir) (stack_slots demo_ir) (signatures demo_ir)
    (default [] (topo_sort demo_ir)).

Lemma demo_finished : finished_from demo_exec demo_ir.
Proof. by split; vm_compute. Qed.

Lemma demo_idle : clif_current demo_start = None.
Proof. done. Qed.

Lemma demo_lowerable : fn_lowerable demo_ir = true.
Proof. by vm_compute. Qed.

Lemma lowering_total_witness :
  compilable demo_ir /\ lowers_cleanly demo_ir (block_compile_order demo_exec) = true /\
  exists L, lower_function demo_exec I64 helper_index demo_start = Some (Ok tt, L).
Proof.
  assert (lowers_cleanly demo_ir (block_compile_order demo_exec) = true) as Hc by by vm_compute.
  destruct (lowering_total demo_exec demo_ir helper_index demo_start demo_compilable demo_lowerable demo_finished demo_idle)
    as (r & L & E & Hr). rewrite (Hr Hc) in E. split; [apply demo_compilable|]. split; [exact Hc|]. by exists L.
Defined.

#[local] Existing Instance demo_host.
#[local] Existing Instance demo_host_laws.

(** The slots of the functions here lie where the machine puts them. *)
Lemma demo_frame (x : ExecIr) L :
  lower_function x I64 helper_address demo_start = Some (Ok tt, L) ->
  match lower_function x I64 helper_address demo_start with
  | Some (_, L) => bool_decide (lw_stack_slots L = [Some 1%positive]) | None => false end = true ->
  frame_placed L.
Proof.
  intros E H. rewrite E in H. apply bool_decide_eq_true in H. intros slot cs. rewrite H. unfold map_get. simpl.
  destruct (get slot) as [|k] eqn:Ek; simpl; [|by destruct k]. intros [= <-]. simpl. f_equal.
  rewrite <- (of_succ_get slot), Ek. done.
Qed.

Lemma compiled_function_correct_witness :
  exists L n o, lower_function demo_exec I64 helper_address demo_start = Some (Ok tt, L) /\
    call_compiled L MaybeIdent.invalid sample_world n = Some o /\
    match o with CReturn x _ => x = CInt I32 262148 | CContinue _ => False end.
Proof.
  destruct (lower_function demo_exec I64 helper_address demo_start) as [[[[]|] L]|] eqn:E; [|by vm_compute in E..].
  assert (match run_ir Little sample_layout sample_mmu 60 demo_ir (mkPoint ENTRYPOINT 0 (entry_env MaybeIdent.invalid) sample_world) with
    | Some (Exit c _) => c =? 262148 | _ => false end = true) as Hr by by vm_compute.
  destruct (run_ir _ _ _ _ _ _) as [[|code s']|] eqn:Er; [done| |done]. apply Z.eqb_eq in Hr as ->.
  destruct (compiled_function_correct demo_exec demo_ir demo_start L MaybeIdent.invalid 60 sample_world _ demo_compilable demo_lowerable
    demo_finished demo_idle E (demo_frame demo_exec L E ltac:(by vm_compute)) Er) as (n & o & En & Ho).
  exists L, n, o. split; [done|]. split; [exact En|]. destruct o; [done|]. apply Ho.
Defined.

(** A boolean in a register, in a block that is open. *)
Definition bool_ir : ExecIrBuilder := with_values (initial_ssa_values ++ [TBool]) (with_config 4).
Definition bool_value : SSAValue := Pos.of_succ_nat (length initial_ssa_values).
Definition bool_lowering : FunctionLowering (F := ListBuilder) :=
  mkLowering (mkListBuilder (mkClifFunc {[1%positive := I8]} {[1%positive := mkClifBlock [1%positive] [] None false]} ∅ ∅ ∅) (Some 1%positive))
    (replicate REGION_COUNT None) [] (replicate (length initial_ssa_values) None ++ [Some 1%positive]) [] [].

Lemma bool_values v c : map_get (lw_values bool_lowering) v = Some c -> v = bool_value /\ c = 1%positive.
Proof.
  unfold map_get. intros H. destruct (lw_values bool_lowering !! get v) as [o|] eqn:E; [|done]. simpl in H. subst o.
  apply lookup_app_Some in E as [E|[Hle E]]; [by apply lookup_replicate in E as [? _]|].
  apply list_lookup_singleton_Some in E as [E [= <-]]. split; [|done]. rewrite length_replicate in E, Hle.
  apply get_inj. unfold bool_value. rewrite get_of_succ. lia.
Qed.

Lemma bool_ready : ready bool_ir 1%positive bool_lowering.
Proof.
  split; [split|done|by eexists].
  - intros v c [-> ->]%bool_values. exists I8. by split; vm_compute.
  - intros v v' c [-> _]%bool_values [-> _]%bool_values. done.
  - done.
  - intros i a Ha. by apply lookup_replicate in Ha as [? _].
  - intros s r Hs. unfold map_get in Hs. simpl in Hs. by destruct (get s).
  - intros s [d Hd]. unfold arena_get in Hd. simpl in Hd. by destruct (get s).
Qed.

Lemma bool_not_stays_true_witness :
  ready bool_ir 1%positive bool_lowering /\ exists L' out env' c,
    lower_rvalue demo_exec I64 helper_index (KBitNot bool_value) bool_lowering = Some (Ok [out], L') /\
    exec_code (clif_func (lw_builder L')) [inst1 Ins.bnot [1%positive] out] {[1%positive := rep (VBool true)]} sample_world = Some (env', sample_world) /\
    env' !! out = Some c /\ (cbits c =? 0) = false.
Proof.
  split; [apply bool_ready|].
  destruct (bool_not_stays_true (e := Little) (ly := sample_layout) (io_mmu := sample_mmu) demo_exec bool_ir helper_index bool_lowering 1%positive bool_value 1%positive {[bool_value := VBool true]}
    {[1%positive := rep (VBool true)]} true sample_world bool_ready) as (_ & _ & L' & out & env' & c & H1 & _ & H2 & H3); [done..|].
  by exists L', out, env', c.
Defined.
