(* ===== verification/CraneliftPass.v ===== *)
(** * The halt-check pass leaves functions that can be translated
    ([jit-compiler-core/src/ir/halt_check_pass.rs],
    [jit-compiler-core/src/compiler/cranelift_backend.rs])

    Inserting a halt check keeps a function well-typed, with one definition per
    value, and keeps it within what the back end translates; so the theorems on
    the pass and on the back end compose. *)

From S2P Require Import Prelude Convert HaltReason MemTypes Fault Memops ObjectQueue Fabric PageTable IoMMU.
From S2P Require Import ExclusiveMonitor LookupCache MemAccess FfiSupport Arena Ir IrSem IrEmit IrLogic IrArith.
From S2P Require Import IrTyping IrBuilt IrBuilder IrRun.
From S2P Require Import Tarjan SccGraph HaltCheck HaltSplit HaltInv HaltSound HaltSim BlockOrder IrFinished.
From S2P Require Import BackEnd CheckKeeps.
From S2P Require Import Clif CraneliftLower CraneliftHost CraneliftSample CraneliftCode CraneliftEmit CraneliftStmt CraneliftFunc CraneliftBlocks CraneliftNew CraneliftSim CraneliftCorrect.
Local Open Scope Z_scope.
Local Open Scope emu_scope.

Section Split.
Context (ir ir' : ExecIrBuilder) (b c : Block) (i : nat) (d : BlockData) (x : Stmt).
Context (Hco : compilable ir) (Hd : arena_get (blocks ir) b = Some d) (Hx : stmts d !! i = Some x)
  (HS : is_split ir ir' b c i d).

Abbreviation split_keeps := (split_keeps ir ir' b c i d HS).
Abbreviation split_stmt_old := (split_stmt_old ir ir' b c i d HS).
Abbreviation split_stmt_inv := (split_stmt_inv ir ir' b c i d HS).
Abbreviation split_block_inv := (split_block_inv ir ir' b c i d HS).
Abbreviation split_compilable := (split_compilable ir ir' b c i d x Hco Hd Hx HS).

(** No new tags, so what was plain is plain. *)
Lemma split_tags v : v ∈ tags ir' <-> v ∈ tags ir.
Proof.
  rewrite !elem_of_tags. split; intros (y & sd & m & p & Hy & E & Hv).
  - apply split_stmt_inv in Hy as [Hy|(_ & u & [->| ->] & _)]; [by exists y, sd, m, p|done..].
  - exists y, sd, m, p. split_and!; [by apply split_stmt_old|done..].
Qed.

Lemma split_plain v : plain ir' v = plain ir v.
Proof. unfold plain. apply bool_decide_ext. by rewrite split_tags. Qed.

Lemma split_all_plain vs : forallb (plain ir') vs = forallb (plain ir) vs.
Proof. induction vs as [|v vs IH]; [done|]. simpl. by rewrite split_plain, IH. Qed.

Lemma halt_plain : plain ir' ARG_HALT_REASON_PTR = true.
Proof.
  destruct (co_entry _ split_compilable) as (de & Hde & Ep). eapply parameter_plain; [apply split_compilable|exact Hde|].
  rewrite Ep. by repeat (first [left|right]).
Qed.

Lemma split_stmt_lowerable rv : stmt_typed ir rv -> stmt_lowerable ir rv = true -> stmt_lowerable ir' rv = true.
Proof.
  unfold stmt_lowerable. rewrite split_all_plain. intros Ht [-> Hl]%andb_true_iff. simpl.
  destruct rv; try done; simpl in Ht.
  - destruct Ht as (ty & _ & Hv). pose proof (vty_mono split_keeps _ _ Hv) as Hv'. unfold vty in *. by rewrite Hv in Hl; rewrite Hv'.
  - destruct Ht as (r & Hv). pose proof (vty_mono split_keeps _ _ Hv) as Hv'. unfold vty in *. by rewrite Hv in Hl; rewrite Hv'.
  - destruct Ht as [(r & Hv) _]. pose proof (vty_mono split_keeps _ _ Hv) as Hv'. unfold vty in *. by rewrite Hv in Hl; rewrite Hv'.
Qed.

Lemma split_lowerable : fn_lowerable ir = true -> fn_lowerable ir' = true.
Proof.
  unfold fn_lowerable. rewrite !andb_true_iff. intros [[[Hs Ht] Hsl] Hn].
  destruct (sp_rest _ _ _ _ _ _ HS) as (_ & _ & -> & _). split_and!; [| |done|done].
  - apply forallb_arena_intro. intros y sd [Hy|(_ & v & [->| ->] & _)]%split_stmt_inv.
    + apply split_stmt_lowerable; [by eapply (co_stmts _ Hco)|]. by apply (forallb_arena _ _ _ _ Hs Hy).
    + unfold stmt_lowerable. simpl. by rewrite halt_plain.
    + unfold stmt_lowerable. simpl. by rewrite halt_plain.
  - assert (forall t, term_lowerable ir t = true -> term_lowerable ir' t = true) as Hterm.
    { intros t. unfold term_lowerable. rewrite !andb_true_iff, !forallb_forall. intros [Hj Hk]. split.
      - intros j Hin. rewrite split_all_plain. by apply Hj.
      - destruct (kind t); try done. by rewrite split_plain. }
    apply forallb_arena_intro. intros k dk [(-> & lv & h & v & _ & _ & _ & _ & ->)|[(-> & ->)|[(_ & _ & Hk)|(_ & _ & h & v & _ & _ & _ & Hh & _ & ->)]]]%split_block_inv.
    + done.
    + by apply Hterm, (forallb_arena _ _ _ _ Ht Hd).
    + by apply Hterm, (forallb_arena _ _ _ _ Ht Hk).
    + unfold term_lowerable. simpl. rewrite (output_plain ir' h _ v split_compilable Hh); [done|]. by left.
Qed.
End Split.

(** The pass inserts checks, and nothing else. *)
Lemma checks_compilable ir ir' :
  rtc check_inserted ir ir' -> compilable ir -> fn_lowerable ir = true -> compilable ir' /\ fn_lowerable ir' = true.
Proof.
  apply (checks_keep (fun ir => fn_lowerable ir = true)). intros ir1 ir2 b c i d x. by apply split_lowerable.
Qed.

Section Pipeline.
Context {F : Type} `{!FunctionBuilder F, !FunctionBuilderLaws F [I32] }.
Context {Error : Type} {e : Endian} {ly : Layout} {io_mmu : IoMMU} `{!Host Error} `{!HostLaws e ly io_mmu}.
Abbreviation World := (@World Error).

(** C3: From the builder's methods to machine code.  A function made by the builder's
    methods and finished, and within [fn_lowerable] (no negation of a boolean, a tag
    test used as a condition only, no plain access through a guest pointer, offsets, tag
    masks and element sizes in the range of their fields, stack slots aligned to powers
    of two and no more of them than handles), is translated without a panic once [build] has returned it.
    If the translation returns a function rather than an error and stack slots lie
    where the frame has them, the machine code, called from any state, comes to the
    state the function made comes to, with the same code, or, if a halt was requested
    on the way, it left at that point with the requested code and with nothing else
    changed. *)
Theorem compiled_program_correct ir hash_order x (f : F) :
  Constructed e ly ir -> finished ir -> 0 < Ir.halt_check_every ir -> (forall s, hash_order s ≡ₚ elements s) ->
  fn_lowerable ir = true -> build hash_order ir = Some x -> clif_current f = None ->
  exists r L, lower_function x I64 helper_address f = Some (r, L) /\
    (r = Ok tt -> frame_placed L -> forall ident (s : World) fuel o,
      let p := mkPoint ENTRYPOINT 0 (entry_env ident) s in
      run_ir e ly io_mmu fuel ir p = Some o ->
      (exists n o', call_compiled L ident s n = Some o' /\ same_result o o') \/
      exists n q, halt_seen e ly io_mmu ir fuel p q /\
        call_compiled L ident s n = Some (CReturn (CInt I32 (halt_word (world q))) (set_halt_word 0 (world q)))).
Proof.
  intros Hb%constructed_built Hfin HN Hhash Hlow Hx Hf. pose proof (built_wf ir Hb Hfin) as Hwf.
  assert (~ quiet_cycle ir) as Hq by (intros Hq; unfold build in Hx; by rewrite quiet_panics in Hx).
  destruct (pass_spec ir hash_order Hhash Hwf HN Hq) as (st & org & K & G & E & I & _).
  destruct (checks_compilable ir (inserter_ir st) (iv_path _ _ _ _ _ I) (built_compilable _ Hb) Hlow) as [Hco Hlow'].
  unfold build in Hx. rewrite E in Hx. cbn [mbind option_bind] in Hx. unfold optimize in Hx.
  destruct (topo_sort (inserter_ir st)) as [order|] eqn:Eo; [|done]. cbn [mbind option_bind] in Hx. injection Hx as <-.
  set (x := mkExecIr _ _ _ _ _ _). assert (finished_from x (inserter_ir st)) as Hx by by split.
  destruct (lower_finished x (inserter_ir st) helper_address f Hco Hlow' Hx Hf) as (r & L & El & _).
  exists r, L. split; [exact El|]. intros -> Hframe ident s fuel o p Hrun.
  destruct (wf_entry _ Hwf) as [d Hd].
  pose proof (env_typed_below ir _ (entry_env_typed ir ident (fun a => arg_vty ir a Hb))) as Hbelow.
  pose proof (matches_start ir org K G st I ENTRYPOINT _ _ s d Hd ltac:(done) Hbelow) as Hm.
  pose proof (fun fuel o => compiled_function_runs x (inserter_ir st) f L ident fuel s o Hco Hlow' Hx Hf El Hframe) as Hcall.
  destruct (run_matches e ly io_mmu ir Hwf (built_values ir Hb) org K G st I fuel p p _ Hm Hrun) as [(n & o' & Er & Hsame)|(m & q & n & Hle & Hm' & Hh & Er)].
  - left. destruct (Hcall _ _ Er) as (n' & o2 & En & Ho). exists n', o2. split; [done|].
    destruct Hsame as [q0 q Hq0|]; [|done]. destruct o2; [|done]. simpl in Ho |- *. rewrite Ho. symmetry. apply Hq0.
  - right. destruct (Hcall _ _ Er) as (n' & o2 & En & Ho). destruct o2; [done|]. destruct Ho as [-> ->].
    exists n', q. split; [by exists m|done].
Qed.
End Pipeline.

(** ** A program, from the builder to machine code *)

#[local] Existing Instance demo_host.
#[local] Existing Instance demo_host_laws.

Lemma compiled_program_correct_witness :
  exists x L, build elements demo_ir = Some x /\ lower_function x I64 helper_address demo_start = Some (Ok tt, L) /\
    let p := mkPoint ENTRYPOINT 0 (entry_env MaybeIdent.invalid) sample_world in
    exists o, run_ir Little sample_layout sample_mmu 60 demo_ir p = Some o /\
      ((exists n o', call_compiled L MaybeIdent.invalid sample_world n = Some o' /\ same_result o o') \/
       exists n q, halt_seen Little sample_layout sample_mmu demo_ir 60 p q /\
         call_compiled L MaybeIdent.invalid sample_world n = Some (CReturn (CInt I32 (halt_word (world q))) (set_halt_word 0 (world q)))).
Proof.
  assert (finished demo_ir) as Hf by (apply finished_check_ok; by vm_compute).
  destruct (build elements demo_ir) as [x|] eqn:Ex; [|by vm_compute in Ex].
  assert (match lower_function x I64 helper_address demo_start with
    | Some (Ok _, L) => bool_decide (lw_stack_slots L = [Some 1%positive]) | _ => false end = true) as Hl
    by (vm_compute in Ex; injection Ex as <-; by vm_compute).
  destruct (compiled_program_correct demo_ir elements x demo_start demo_constructed Hf ltac:(by vm_compute) ltac:(done) demo_lowerable Ex demo_idle)
    as (r & L & El & H). rewrite El in Hl. destruct r as [[]|]; [|done]. exists x, L. split; [done|]. split; [exact El|]. intros p.
  destruct (run_ir Little sample_layout sample_mmu 60 demo_ir p) as [o|] eqn:Er; [|by vm_compute in Er]. exists o. split; [done|].
  apply (H eq_refl); [|exact Er]. apply (demo_frame x L El). by rewrite El.
Defined.
