(* ===== verification/Gcc.v ===== *)
(** * The interface of libgccjit
    (what [jit-compiler-core/src/compiler/gcc_backend.rs] uses of it)

    libgccjit is a library: the back end describes a function in the terms of C, by
    types, expressions, assignments and blocks, and the library compiles it.  Here
    are those terms, the recording of a function as a class of operations with laws
    (what each call adds to it), and the meaning of a recorded function: a C
    program without undefined behaviour, over a class of accesses to memory. *)

From S2P Require Import Prelude Convert HaltReason MemTypes Fault Memops ObjectQueue Fabric PageTable IoMMU.
From S2P Require Import ExclusiveMonitor LookupCache MemAccess FfiSupport Arena Ir IrSem.
Local Open Scope Z_scope.
Local Open Scope emu_scope.

#[local] Set Warnings "-register-all".

(** ** Types *)

Inductive GccType :=
  | TyBool
  | TyVoid
  | TyInt (signed : bool) (bits : Z)
  | TyPtr (t : GccType)                      (* [make_pointer] *)
  | TyConst (t : GccType)
  | TyVolatile (t : GccType)
  | TyArray (t : GccType) (n : Z)
  | TyAligned (t : GccType) (align : Z)
  | TyFn (ret : GccType) (params : list GccType).   (* a pointer to a function *)

Fixpoint size_of (ty : GccType) : Z :=
  match ty with
  | TyBool => 1
  | TyInt _ bits => bits / 8
  | TyArray t n => n * size_of t
  | TyConst t | TyVolatile t | TyAligned t _ => size_of t
  | TyPtr _ | TyFn _ _ => 8
  | TyVoid => 1
  end.

(** Types a variable can have; alignments are powers of two. *)
Fixpoint variable_type (ty : GccType) : Prop :=
  match ty with
  | TyVoid => False
  | TyArray t n => variable_type t /\ 0 <= n
  | TyAligned t align => variable_type t /\ 0 < align /\ align = 2 ^ Z.log2 align
  | TyConst t | TyVolatile t => variable_type t
  | TyBool | TyInt _ _ | TyPtr _ | TyFn _ _ => True
  end.

(** ** Expressions

    An rvalue is recorded, and evaluated where it is used. *)

Abbreviation GccVar := positive.
Abbreviation GccBlock := positive.

Inductive BinaryOp := OpPlus | OpMinus | OpMult | OpDivide | OpAnd | OpOr | OpXor | OpLShift | OpRShift.
Inductive UnaryOp := OpNegate | OpBitNot.
Inductive ComparisonOp := CmpEquals | CmpNotEquals | CmpLessThan | CmpLessThanEquals | CmpGreaterThan | CmpGreaterThanEquals.

(** GCC's built-in functions: [__atomic_load_n] and its siblings by their size in
    bytes, and [__builtin_bswap16] and its siblings likewise. *)
Inductive Builtin :=
  | atomic_load_n (n : Z) | atomic_store_n (n : Z) | atomic_fetch_or_n (n : Z) | atomic_exchange_n (n : Z)
  | builtin_bswap (n : Z).

Inductive RValue :=
  | RRead (l : LValue)                           (* [to_rvalue] *)
  | RConst (ty : GccType) (z : Z)                (* [new_rvalue_from_long] and its siblings *)
  | RCast (r : RValue) (ty : GccType)
  | RBitcast (r : RValue) (ty : GccType)
  | RBinary (op : BinaryOp) (ty : GccType) (a b : RValue)
  | RUnary (op : UnaryOp) (ty : GccType) (a : RValue)
  | RCompare (op : ComparisonOp) (a b : RValue)
  | RAddress (l : LValue)                        (* [get_address] *)
  | RCall (f : Builtin) (args : list RValue)
  | RCallPtr (f : RValue) (args : list RValue)
with LValue :=
  | LVar (x : GccVar) (ty : GccType)             (* a local or a parameter *)
  | LDeref (p : RValue)
  | LIndex (p i : RValue).                       (* [new_array_access] *)

(** The type of an atomic built-in's integer of [n] bytes, and its pointers. *)
Definition atomic_int (n : Z) : GccType := TyInt true (8 * n).
Definition c_int : GccType := TyInt true 32.
Definition read_ptr : GccType := TyPtr (TyVolatile (TyConst TyVoid)).
Definition rmw_ptr : GccType := TyPtr (TyVolatile TyVoid).

Definition builtin_params (f : Builtin) : list GccType :=
  match f with
  | atomic_load_n _ => [read_ptr; c_int]
  | atomic_store_n n | atomic_fetch_or_n n | atomic_exchange_n n => [rmw_ptr; atomic_int n; c_int]
  | builtin_bswap n => [TyInt false (8 * n)]
  end.
Definition builtin_ret (f : Builtin) : GccType :=
  match f with
  | atomic_load_n n | atomic_fetch_or_n n | atomic_exchange_n n => atomic_int n
  | atomic_store_n _ => TyVoid
  | builtin_bswap n => TyInt false (8 * n)
  end.

(** [get_type]. *)
Definition pointee_ty (ty : GccType) : GccType := match ty with TyPtr t => t | _ => TyVoid end.
Fixpoint rv_type (r : RValue) : GccType :=
  match r with
  | RRead l => lv_type l
  | RConst ty _ | RCast _ ty | RBitcast _ ty | RBinary _ ty _ _ | RUnary _ ty _ => ty
  | RCompare _ _ _ => TyBool
  | RAddress l => TyPtr (lv_type l)
  | RCall f _ => builtin_ret f
  | RCallPtr f _ => match rv_type f with TyFn ret _ => ret | _ => TyVoid end
  end
with lv_type (l : LValue) : GccType :=
  match l with
  | LVar _ ty => ty
  | LDeref p => pointee_ty (rv_type p)
  | LIndex p _ => pointee_ty (rv_type p)
  end.

(** ** Functions *)

Inductive GccStmt := SAssign (l : LValue) (r : RValue) | SEval (r : RValue).
Inductive GccEnd := EJump (b : GccBlock) | ECond (c : RValue) (on_true on_false : GccBlock) | EReturn (r : RValue).

Record GccBlockData := mkGccBlock { gb_stmts : list GccStmt; gb_end : option GccEnd }.

(** A function starts in the block made first. *)
Record GccFunc := mkGccFunc {
  gf_vars : gmap GccVar GccType;
  gf_params : list GccVar;
  gf_return : GccType;
  gf_blocks : gmap GccBlock GccBlockData;
  gf_entry : option GccBlock;
}.

Module GFn.
Definition empty : GccFunc := mkGccFunc ∅ [] TyVoid ∅ None.
Definition add_var (x : GccVar) (ty : GccType) (f : GccFunc) : GccFunc :=
  mkGccFunc (<[x := ty]> (gf_vars f)) (gf_params f) (gf_return f) (gf_blocks f) (gf_entry f).
Definition declare (ret : GccType) (params : list GccVar) (f : GccFunc) : GccFunc :=
  mkGccFunc (gf_vars f) params ret ∅ None.
Definition add_block (b : GccBlock) (f : GccFunc) : GccFunc :=
  mkGccFunc (gf_vars f) (gf_params f) (gf_return f) (<[b := mkGccBlock [] None]> (gf_blocks f))
    (Some (default b (gf_entry f))).
Definition on_block (g : GccBlockData -> GccBlockData) (b : GccBlock) (f : GccFunc) : GccFunc :=
  mkGccFunc (gf_vars f) (gf_params f) (gf_return f) (alter g b (gf_blocks f)) (gf_entry f).
Definition add_stmt (b : GccBlock) (s : GccStmt) : GccFunc -> GccFunc :=
  on_block (fun d => mkGccBlock (gb_stmts d ++ [s]) (gb_end d)) b.
Definition set_end (b : GccBlock) (t : GccEnd) : GccFunc -> GccFunc :=
  on_block (fun d => mkGccBlock (gb_stmts d) (Some t)) b.
End GFn.

(** ** What may be recorded *)

Definition is_int_type (ty : GccType) : Prop := exists s w, ty = TyInt s w.
Definition is_pointer (ty : GccType) : Prop := (exists t, ty = TyPtr t) \/ exists r ps, ty = TyFn r ps.

(** Casts there are: between integers, from booleans to integers, between pointers. *)
Definition castable (from to : GccType) : Prop :=
  (is_int_type from \/ from = TyBool) /\ is_int_type to \/ (exists t, from = TyPtr t) /\ exists t, to = TyPtr t.

(** A value of type [from] may be stored in a [to]. *)
Definition assignable (to from : GccType) : Prop :=
  to = from \/ (exists t, from = TyPtr t) /\ to = TyPtr TyVoid \/ (exists t, to = TyPtr t) /\ from = TyPtr TyVoid.

(** The operands of arithmetic are of the type of the result. *)
Fixpoint rv_ok (vars : gmap GccVar GccType) (r : RValue) : Prop :=
  match r with
  | RRead l | RAddress l => lv_ok vars l
  | RConst ty _ => is_int_type ty \/ is_pointer ty
  | RCast r ty => rv_ok vars r /\ castable (rv_type r) ty
  | RBitcast r ty => rv_ok vars r /\ size_of (rv_type r) = size_of ty /\ (is_int_type ty \/ is_pointer ty)
  | RBinary op ty a b => rv_ok vars a /\ rv_ok vars b /\ rv_type a = ty /\ rv_type b = ty /\
      (is_int_type ty \/ ty = TyBool /\ (op = OpAnd \/ op = OpOr \/ op = OpXor))
  | RUnary _ ty a => rv_ok vars a /\ rv_type a = ty /\ is_int_type ty
  | RCompare _ a b => rv_ok vars a /\ rv_ok vars b /\ rv_type a = rv_type b
  | RCall f args => foldr (fun a P => rv_ok vars a /\ P) True args /\ (rv_type <$> args) = builtin_params f
  | RCallPtr f args => rv_ok vars f /\ foldr (fun a P => rv_ok vars a /\ P) True args /\
      exists ret, rv_type f = TyFn ret (rv_type <$> args)
  end
with lv_ok (vars : gmap GccVar GccType) (l : LValue) : Prop :=
  match l with
  | LVar x ty => vars !! x = Some ty
  | LDeref p => rv_ok vars p /\ exists t, rv_type p = TyPtr t
  | LIndex p i => rv_ok vars p /\ (exists t, rv_type p = TyPtr t) /\ rv_ok vars i /\ is_int_type (rv_type i)
  end.

(** ** Recording *)

(** A context and the function in it: its state is its own; [gcc_func] is the
    function so far. *)
Class GccContext (F : Type) := {
  gcc_func : F -> GccFunc;
  new_parameter : GccType -> SM F GccVar;
  new_function : GccType -> list GccVar -> SM F unit;
  new_local : GccType -> SM F GccVar;
  new_gcc_block : SM F GccBlock;
  add_assignment : GccBlock -> LValue -> RValue -> SM F unit;
  add_eval : GccBlock -> RValue -> SM F unit;
  end_with_jump : GccBlock -> GccBlock -> SM F unit;
  end_with_conditional : GccBlock -> RValue -> GccBlock -> GccBlock -> SM F unit;
  end_with_return : GccBlock -> RValue -> SM F unit;
}.

Definition gcc_vars {F} `{GccContext F} (f : F) := gf_vars (gcc_func f).
Definition open_block {F} `{GccContext F} (f : F) (b : GccBlock) : Prop :=
  exists d, gf_blocks (gcc_func f) !! b = Some d /\ gb_end d = None.
Definition has_block {F} `{GccContext F} (f : F) (b : GccBlock) : Prop := is_Some (gf_blocks (gcc_func f) !! b).

(** What each call does: a new thing is new, and the function grows by what the
    call says, if the block is not ended and the expressions are typed. *)
Class GccContextLaws (F : Type) `{GccContext F} : Prop := {
  parameter_law ty f : variable_type ty -> exists x f', new_parameter ty f = Some (x, f') /\ gcc_vars f !! x = None /\
    gcc_func f' = GFn.add_var x ty (gcc_func f);
  function_law ret params f : Forall (fun x => is_Some (gcc_vars f !! x)) params ->
    exists f', new_function ret params f = Some (tt, f') /\ gcc_func f' = GFn.declare ret params (gcc_func f);
  local_law ty f : variable_type ty -> exists x f', new_local ty f = Some (x, f') /\ gcc_vars f !! x = None /\
    gcc_func f' = GFn.add_var x ty (gcc_func f);
  gcc_block_law f : exists b f', new_gcc_block f = Some (b, f') /\ gf_blocks (gcc_func f) !! b = None /\
    gcc_func f' = GFn.add_block b (gcc_func f);
  assignment_law b l r f : open_block f b -> lv_ok (gcc_vars f) l -> rv_ok (gcc_vars f) r ->
    assignable (lv_type l) (rv_type r) ->
    exists f', add_assignment b l r f = Some (tt, f') /\ gcc_func f' = GFn.add_stmt b (SAssign l r) (gcc_func f);
  eval_law b r f : open_block f b -> rv_ok (gcc_vars f) r ->
    exists f', add_eval b r f = Some (tt, f') /\ gcc_func f' = GFn.add_stmt b (SEval r) (gcc_func f);
  jump_law b t f : open_block f b -> has_block f t ->
    exists f', end_with_jump b t f = Some (tt, f') /\ gcc_func f' = GFn.set_end b (EJump t) (gcc_func f);
  conditional_law b c t t' f : open_block f b -> has_block f t -> has_block f t' ->
    rv_ok (gcc_vars f) c -> rv_type c = TyBool ->
    exists f', end_with_conditional b c t t' f = Some (tt, f') /\ gcc_func f' = GFn.set_end b (ECond c t t') (gcc_func f);
  return_law b r f : open_block f b -> rv_ok (gcc_vars f) r -> rv_type r = gf_return (gcc_func f) ->
    exists f', end_with_return b r f = Some (tt, f') /\ gcc_func f' = GFn.set_end b (EReturn r) (gcc_func f);
}.

(** ** The compiled program *)

(** A value at run time is a bit pattern; what it stands for depends on its type. *)
Definition value_of (ty : GccType) (z : Z) : Z := match ty with TyInt true w => sgn w z | _ => z end.

(** Arithmetic: modulo on unsigned types, undefined out of range on signed ones. *)
Definition to_bits (ty : GccType) (z : Z) : option Z :=
  match ty with
  | TyInt false w => Some (wrap w z)
  | TyInt true w => if signed_in_range w z then Some (wrap w z) else None
  | _ => None
  end.

Definition width_of_type (ty : GccType) : Z := match ty with TyInt _ w => w | _ => 0 end.

Definition binary_value (op : BinaryOp) (ty : GccType) (a b : Z) : option Z :=
  let x := value_of ty a in
  let y := value_of ty b in
  match op, ty with
  | OpAnd, (TyInt _ _ | TyBool) => Some (Z.land a b)
  | OpOr, (TyInt _ _ | TyBool) => Some (Z.lor a b)
  | OpXor, (TyInt _ _ | TyBool) => Some (Z.lxor a b)
  | OpPlus, _ => to_bits ty (x + y)
  | OpMinus, _ => to_bits ty (x - y)
  | OpMult, _ => to_bits ty (x * y)
  | OpDivide, _ => if y =? 0 then None else to_bits ty (Z.quot x y)
  (* a shift by the width or more is undefined *)
  | OpLShift, TyInt false w => if (0 <=? y) && (y <? w) then Some (wrap w (Z.shiftl x y)) else None
  | OpRShift, TyInt _ w => if (0 <=? y) && (y <? w) then Some (wrap w (Z.shiftr x y)) else None
  | _, _ => None
  end.

Definition unary_value (op : UnaryOp) (ty : GccType) (a : Z) : option Z :=
  match op, ty with
  | OpNegate, TyInt false w => Some (wrap w (- a))
  | OpBitNot, TyInt _ w => Some (bitnot w a)
  | _, _ => None
  end.

Definition compare_values (op : ComparisonOp) (x y : Z) : bool :=
  match op with
  | CmpEquals => x =? y
  | CmpNotEquals => negb (x =? y)
  | CmpLessThan => x <? y
  | CmpLessThanEquals => x <=? y
  | CmpGreaterThan => y <? x
  | CmpGreaterThanEquals => y <=? x
  end.

(** A cast keeps the number, modulo the new width. *)
Definition cast_value (from to : GccType) (z : Z) : option Z :=
  match to with
  | TyInt _ w => Some (wrap w (value_of from z))
  | TyPtr _ => Some z
  | _ => None
  end.

Definition const_value (ty : GccType) (z : Z) : Z := match ty with TyInt _ w => wrap w z | _ => z end.

Definition bool_bits (b : bool) : Z := if b then 1 else 0.

(** Memory and calls.  An access names the object the base points to and a
    displacement.  [call_builtin] and [call_pointer] of a function that returns
    nothing give some number. *)
Class GccMachine (S : Type) := {
  read_mem : GccType -> Z -> Z -> SM S Z;
  write_mem : GccType -> Z -> Z -> Z -> SM S unit;
  call_builtin : Builtin -> list Z -> SM S Z;
  call_pointer : Z -> list Z -> SM S Z;
  var_address : GccVar -> Z;
}.

(** A place: the object a base points at, displaced or not, and its address. *)
Definition Place : Type := Z * option Z.
Definition at_address (z : Z) : Place := (z, None).
Definition flat (p : Place) : Z := match p with (base, None) => base | (base, Some d) => wrap USIZE_BITS (base + d) end.
Definition displaced (p : Place) (d : Z) : Place := (fst p, Some (default 0 (snd p) + d)).

Abbreviation GEnv := (gmap GccVar Z).

Section Run.
Context {S : Type} `{!GccMachine S} (fn : GccFunc).

(** The value of an rvalue; that of a pointer is kept as a base and a
    displacement until it is used. *)
Fixpoint eval_place (env : GEnv) (r : RValue) : SM S Place :=
  let eval r := let! p := eval_place env r in sm_ret (flat p) in
  let evals := fix evals (l : list RValue) : SM S (list Z) :=
    match l with
    | [] => sm_ret []
    | a :: l => let! p := eval_place env a in let! xs := evals l in sm_ret (flat p :: xs)
    end in
  let value (o : option Z) : SM S Place := let! z := sm_of_option o in sm_ret (at_address z) in
  match r with
  | RRead l =>
      match l with
      | LVar x _ => value (env !! x)
      | _ => let! p := place_of env l in let! z := read_mem (lv_type l) (fst p) (default 0 (snd p)) in sm_ret (at_address z)
      end
  | RConst ty z => sm_ret (at_address (const_value ty z))
  | RCast r ty =>
      match ty with
      | TyPtr _ => eval_place env r
      | _ => let! z := eval r in value (cast_value (rv_type r) ty z)
      end
  | RBitcast r _ => let! z := eval r in sm_ret (at_address z)
  | RBinary op ty a b => let! x := eval a in let! y := eval b in value (binary_value op ty x y)
  | RUnary op ty a => let! x := eval a in value (unary_value op ty x)
  | RCompare op a b =>
      let! x := eval a in let! y := eval b in
      sm_ret (at_address (bool_bits (compare_values op (value_of (rv_type a) x) (value_of (rv_type b) y))))
  | RAddress l => place_of env l
  | RCall f args => let! xs := evals args in let! z := call_builtin f xs in sm_ret (at_address z)
  | RCallPtr f args =>
      let! p := eval f in let! xs := evals args in let! z := call_pointer p xs in sm_ret (at_address z)
  end
with place_of (env : GEnv) (l : LValue) : SM S Place :=
  match l with
  | LVar x _ => sm_ret (at_address (var_address x))
  | LDeref p => eval_place env p
  | LIndex p i =>
      let! place := eval_place env p in
      let! q := eval_place env i in
      sm_ret (displaced place (value_of (rv_type i) (flat q) * size_of (pointee_ty (rv_type p))))
  end.

Definition eval (env : GEnv) (r : RValue) : SM S Z := let! p := eval_place env r in sm_ret (flat p).

Definition exec_gcc_stmt (g : GccStmt) (env : GEnv) : SM S GEnv :=
  match g with
  | SAssign (LVar x _) r => let! z := eval env r in sm_ret (<[x := z]> env)
  | SAssign l r =>
      let! z := eval env r in
      let! p := place_of env l in
      write_mem (lv_type l) (fst p) (default 0 (snd p)) z ;;! sm_ret env
  | SEval r => let! _ := eval env r in sm_ret env
  end.

Fixpoint exec_gcc_code (l : list GccStmt) (env : GEnv) : SM S GEnv :=
  match l with
  | [] => sm_ret env
  | g :: l => let! env := exec_gcc_stmt g env in exec_gcc_code l env
  end.

(** A point of the execution. *)
Record GPoint := mkGPoint { gp_block : GccBlock; gp_index : nat; gp_env : GEnv; gp_state : S }.
Inductive GNext := GContinue (p : GPoint) | GReturn (z : Z) (s : S).

Definition goto (b : GccBlock) (env : GEnv) (s : S) : GNext := GContinue (mkGPoint b 0 env s).

Definition exec_end (t : GccEnd) (env : GEnv) (s : S) : option GNext :=
  match t with
  | EJump b => Some (goto b env s)
  | ECond c b b' =>
      '(z, s) ← eval env c s;
      Some (goto (if z =? 0 then b' else b) env s)
  | EReturn r =>
      '(z, s) ← eval env r s;
      Some (GReturn z s)
  end.

Definition gstep (p : GPoint) : option GNext :=
  d ← gf_blocks fn !! gp_block p;
  match gb_stmts d !! gp_index p with
  | Some g =>
      '(env, s) ← exec_gcc_stmt g (gp_env p) (gp_state p);
      Some (GContinue (mkGPoint (gp_block p) (Datatypes.S (gp_index p)) env s))
  | None =>
      t ← gb_end d;
      exec_end t (gp_env p) (gp_state p)
  end.

Fixpoint run_gcc (fuel : nat) (p : GPoint) : option GNext :=
  match fuel with
  | O => Some (GContinue p)
  | Datatypes.S fuel =>
      match gstep p with
      | Some (GContinue p) => run_gcc fuel p
      | r => r
      end
  end.

(** A call: the parameters are assigned. *)
Fixpoint pass_args (params : list GccVar) (zs : list Z) (env : GEnv) : option GEnv :=
  match params, zs with
  | x :: params, z :: zs => pass_args params zs (<[x := z]> env)
  | [], [] => Some env
  | _, _ => None
  end.

Definition call_gcc (fuel : nat) (zs : list Z) (s : S) : option GNext :=
  env ← pass_args (gf_params fn) zs ∅;
  b ← gf_entry fn;
  run_gcc fuel (mkGPoint b 0 env s).
End Run.
