(* ===== verification/GccLower.v ===== *)
(** * The GCC back end
    ([jit-compiler-core/src/compiler/gcc_backend.rs])

    [FunctionLowering] and its methods, from [new] to [lower_blocks]: a function of
    the IR described to libgccjit.  [None] is a panic; a [Result] is the code's
    [anyhow::Result].  Names given to blocks and variables are left out. *)

From S2P Require Import Prelude Convert HaltReason MemTypes Fault Memops ObjectQueue Fabric PageTable IoMMU.
From S2P Require Import ExclusiveMonitor LookupCache MemAccess FfiSupport Arena Ir IrSem IrEmit IrLogic IrTyping.
From S2P Require Import BackEnd.
From S2P Require Import Tarjan SccGraph HaltCheck HaltSplit HaltInv HaltSound BlockOrder Clif CraneliftLower Gcc.
Local Open Scope Z_scope.
Local Open Scope emu_scope.

Definition convert_to_gcc_cmp (cmp : IntCmp) : ComparisonOp :=
  match cmp with
  | Equal => CmpEquals
  | NotEqual => CmpNotEquals
  | SignedLessThan => CmpLessThan
  | SignedGreaterThanOrEqual => CmpGreaterThanEquals
  | SignedGreaterThan => CmpGreaterThan
  | SignedLessThanOrEqual => CmpLessThanEquals
  | UnsignedLessThan => CmpLessThan
  | UnsignedGreaterThanOrEqual => CmpGreaterThanEquals
  | UnsignedGreaterThan => CmpGreaterThan
  | UnsignedLessThanOrEqual => CmpLessThanEquals
  end.

Definition is_signed_cmp (cmp : IntCmp) : bool :=
  match cmp with
  | SignedLessThan | SignedGreaterThanOrEqual | SignedGreaterThan | SignedLessThanOrEqual => true
  | _ => false
  end.

(** [atomic_model]. *)
Definition RELAXED : Z := 0.
Definition ACQUIRE : Z := 2.
Definition RELEASE : Z := 3.
Definition ACQ_REL : Z := 4.
Definition SEQ_CST : Z := 5.

(** Rust's [Ordering]. *)
Inductive Ordering := Relaxed | Release | Acquire | AcqRel | SeqCst.
Definition ordering_value (ordering : Ordering) : Z :=
  match ordering with
  | Relaxed => RELAXED | Release => RELEASE | Acquire => ACQUIRE | AcqRel => ACQ_REL | SeqCst => SEQ_CST
  end.

(** ** Types *)

(** The optional fields of [TypeCache]; [u32_ty] is always there. *)
Module Cache.
Inductive Field :=
  | bool_ty | usize_ty | void_ptr_ty | void_ty | atomic_read_ptr | atomic_write_ptr | c_int_ty | i128_ty
  | u64_ty | u16_ty | u8_ty | i64_ty | i32_ty | i16_ty | i8_ty.
End Cache.

#[export] Instance Field_eq_dec : EqDecision Cache.Field.
Proof. solve_decision. Defined.

Record TypeCache := mkTypeCache { u32_ty : GccType; cached : Cache.Field -> option GccType }.

Definition TypeCache_new : TypeCache := mkTypeCache (TyInt false 32) (fun _ => None).

Inductive GccError :=
  | GUsedBeforeLowered | GMissingBlock | GEntryParams | GHostOffsetTooLarge | GNotAnInteger
  | GMismatchedValues | GJumpParams.

Section Lower.
Context {F : Type} `{!GccContext F}.
(** The function, the host's byte order, and where the runtime helpers are. *)
Context (exec_ir : ExecIr) (e : Endian) (helper_address : HostCallback -> Z).

Record FunctionLowering := mkGccLowering {
  gl_ctx : F;
  gl_current : option GccBlock;
  gl_values : ArenaMap LValue;
  gl_blocks : ArenaMap GccBlock;
  gl_slots : ArenaMap LValue;
  gl_sig_types : ArenaMap GccType;
  gl_cache : TypeCache;
}.

Abbreviation M := (SM FunctionLowering).
Abbreviation Lower A := (SM FunctionLowering (Result A GccError)).

Definition put_ctx (f : F) (l : FunctionLowering) : FunctionLowering :=
  mkGccLowering f (gl_current l) (gl_values l) (gl_blocks l) (gl_slots l) (gl_sig_types l) (gl_cache l).
Definition put_current (b : option GccBlock) (l : FunctionLowering) : FunctionLowering :=
  mkGccLowering (gl_ctx l) b (gl_values l) (gl_blocks l) (gl_slots l) (gl_sig_types l) (gl_cache l).
Definition put_values (x : ArenaMap LValue) (l : FunctionLowering) : FunctionLowering :=
  mkGccLowering (gl_ctx l) (gl_current l) x (gl_blocks l) (gl_slots l) (gl_sig_types l) (gl_cache l).
Definition put_blocks (x : ArenaMap GccBlock) (l : FunctionLowering) : FunctionLowering :=
  mkGccLowering (gl_ctx l) (gl_current l) (gl_values l) x (gl_slots l) (gl_sig_types l) (gl_cache l).
Definition put_slots (x : ArenaMap LValue) (l : FunctionLowering) : FunctionLowering :=
  mkGccLowering (gl_ctx l) (gl_current l) (gl_values l) (gl_blocks l) x (gl_sig_types l) (gl_cache l).
Definition put_sig_types (x : ArenaMap GccType) (l : FunctionLowering) : FunctionLowering :=
  mkGccLowering (gl_ctx l) (gl_current l) (gl_values l) (gl_blocks l) (gl_slots l) x (gl_cache l).
Definition put_cache (x : TypeCache) (l : FunctionLowering) : FunctionLowering :=
  mkGccLowering (gl_ctx l) (gl_current l) (gl_values l) (gl_blocks l) (gl_slots l) (gl_sig_types l) x.

Definition on_ctx {A} (op : SM F A) : M A := fun l =>
  match op (gl_ctx l) with Some (a, f) => Some (a, put_ctx f l) | None => None end.

Definition gok {A} (a : A) : Lower A := sm_ret (Ok a).
Definition gerr {A} (err : GccError) : Lower A := sm_ret (Err err).
Definition gensure (b : bool) (err : GccError) : Lower unit := if b then gok tt else gerr err.
Definition gcontext {A} (o : option A) (err : GccError) : Lower A := match o with Some a => gok a | None => gerr err end.

(** [self.field.get_or_insert_with(|| ty)]. *)
Definition get_or_insert (k : Cache.Field) (ty : GccType) : M GccType := fun l =>
  match cached (gl_cache l) k with
  | Some t => Some (t, l)
  | None => Some (ty, put_cache (mkTypeCache (u32_ty (gl_cache l))
              (fun k' => if decide (k' = k) then Some ty else cached (gl_cache l) k')) l)
  end.

Definition resolve_int (signed : bool) (width : IntWidth) : M GccType :=
  match signed, width with
  | false, W64 => get_or_insert Cache.u64_ty (TyInt false 64)
  | false, W32 => fun l => Some (u32_ty (gl_cache l), l)
  | false, W16 => get_or_insert Cache.u16_ty (TyInt false 16)
  | false, W8 => get_or_insert Cache.u8_ty (TyInt false 8)
  | true, W64 => get_or_insert Cache.i64_ty (TyInt true 64)
  | true, W32 => get_or_insert Cache.i32_ty (TyInt true 32)
  | true, W16 => get_or_insert Cache.i16_ty (TyInt true 16)
  | true, W8 => get_or_insert Cache.i8_ty (TyInt true 8)
  end.
Definition resolve_uint := resolve_int false.
Definition resolve_sint := resolve_int true.
Definition get_void_ty : M GccType := get_or_insert Cache.void_ty TyVoid.
Definition get_void_ptr_ty : M GccType := get_or_insert Cache.void_ptr_ty (TyPtr TyVoid).
Definition atomic_read_ptr_ty : M GccType := get_or_insert Cache.atomic_read_ptr (TyPtr (TyVolatile (TyConst TyVoid))).
Definition atomic_rmw_ptr_ty : M GccType := get_or_insert Cache.atomic_write_ptr (TyPtr (TyVolatile TyVoid)).
Definition get_usize_ty : M GccType := get_or_insert Cache.usize_ty (TyInt false USIZE_BITS).
Definition get_i128_ty : M GccType := get_or_insert Cache.i128_ty (TyInt true 128).
Definition get_c_int_ty : M GccType := get_or_insert Cache.c_int_ty (TyInt true 32).

Definition resolve_ty (ty : TypeFull) : M GccType :=
  match ty with
  | TBool => get_or_insert Cache.bool_ty TyBool
  | TInt width => resolve_uint width
  | THostPtr _ => get_void_ptr_ty
  end.

Fixpoint resolve_tys (tys : list TypeFull) : M (list GccType) :=
  match tys with
  | [] => sm_ret []
  | t :: tys => let! ty := resolve_ty t in let! l := resolve_tys tys in sm_ret (ty :: l)
  end.

(** ** Looking things up *)

Definition guse_value (ssa : SSAValue) : Lower RValue := fun l =>
  gcontext (RRead <$> map_get (gl_values l) ssa) GUsedBeforeLowered l.
(** [self.values[ssa]] panics. *)
Definition value_at (ssa : SSAValue) : M LValue := fun l => sm_of_option (map_get (gl_values l) ssa) l.
Definition slot_at (slot : StackSlot) : M LValue := fun l => sm_of_option (map_get (gl_slots l) slot) l.
Definition gcc_block (ir_block : Block) : Lower GccBlock := fun l => gcontext (map_get (gl_blocks l) ir_block) GMissingBlock l.
Definition the_current : M GccBlock := fun l => sm_of_option (gl_current l) l.
Definition ssa_type (ssa : SSAValue) : M TypeFull := sm_of_option (arena_get (exec_ssa_values exec_ir) ssa).

Fixpoint guse_values (vs : list SSAValue) : Lower (list RValue) :=
  match vs with
  | [] => gok []
  | v :: vs => let!? r := guse_value v in let!? rs := guse_values vs in gok (r :: rs)
  end.

(** The width of an integer; [bail!] otherwise. *)
Definition int_width (ssa : SSAValue) : Lower IntWidth :=
  let! ty := ssa_type ssa in
  match ty with TInt width => gok width | _ => gerr GNotAnInteger end.

Definition iconst_rvalue (c : IConst) : M RValue :=
  let! ty := resolve_uint (iwidth c) in sm_ret (RConst ty (cast_signed (ibits c))).
Definition u32_const (v : Z) : M RValue := fun l => Some (RConst (u32_ty (gl_cache l)) (sgn 32 v), l).
Definition u8_const (v : Z) : M RValue := let! ty := resolve_uint W8 in sm_ret (RConst ty v).

(** ** Pointers *)

Definition load_ptr (ptr : RValue) (ty : GccType) : RValue := RRead (LDeref (RCast ptr (TyPtr ty))).

Definition store_ptr (ptr val : RValue) : M unit :=
  let! block := the_current in
  on_ctx (add_assignment block (LDeref (RCast ptr (TyPtr (rv_type val)))) val).

Definition gptr_add (base_ptr offset : RValue) (elem_size : Z) : M RValue :=
  let! u8 := resolve_uint W8 in
  let element := if elem_size =? 1 then u8 else TyArray u8 elem_size in
  sm_ret (RAddress (LIndex (RCast base_ptr (TyPtr element)) offset)).
Definition gptr_byte_add (base_ptr offset : RValue) : M RValue := gptr_add base_ptr offset 1.

Definition ptr_add_const (base_ptr : RValue) (offset : Z) : Lower RValue :=
  let! size_t := get_usize_ty in
  let!? offset := (if offset <=? I64_MAX then gok offset else gerr GHostOffsetTooLarge) in
  let! r := gptr_byte_add base_ptr (RConst size_t offset) in
  gok r.

Definition fn_ptr_type (signature : CallbackSignature) : M GccType := fun l =>
  match map_get (gl_sig_types l) signature with
  | Some ty => Some (ty, l)
  | None =>
      (let! sig := sm_of_option (arena_get (exec_signatures exec_ir) signature) in
       let! ret := (match sig_ret sig with Some t => resolve_ty t | None => get_void_ty end) in
       let! params := resolve_tys (sig_args sig) in
       let ty := TyFn ret params in
       sm_modify (fun l => put_sig_types (snd (map_insert signature ty (gl_sig_types l))) l) ;;!
       sm_ret ty) l
  end.

(** ** Operations *)

Definition lower_cmp (cmp : IntCmp) (ty_val : SSAValue) (l r : RValue) : Lower RValue :=
  if is_signed_cmp cmp then
    let!? width := int_width ty_val in
    let! ty := resolve_sint width in
    gok (RCompare (convert_to_gcc_cmp cmp) (RCast l ty) (RCast r ty))
  else gok (RCompare (convert_to_gcc_cmp cmp) l r).

Definition bswap_builtin (width : IntWidth) : option Builtin :=
  match width with
  | W8 => None
  | W16 => Some (builtin_bswap 2) | W32 => Some (builtin_bswap 4) | W64 => Some (builtin_bswap 8)
  end.
Definition lower_swap_bytes (width : IntWidth) (int : RValue) : RValue :=
  match bswap_builtin width with None => int | Some f => RCall f [int] end.
Definition lower_bswap_to_le (width : IntWidth) (int : RValue) : RValue :=
  match e with Little => int | Big => lower_swap_bytes width int end.

Definition ordering_int (ordering : Ordering) : M RValue :=
  let! ty := get_c_int_ty in sm_ret (RConst ty (ordering_value ordering)).

Definition atomic_load_name (width : IntWidth) : Builtin :=
  match width with W8 => atomic_load_n 1 | W16 => atomic_load_n 2 | W32 => atomic_load_n 4 | W64 => atomic_load_n 8 end.
Definition atomic_store_name (width : IntWidth) : Builtin :=
  match width with W8 => atomic_store_n 1 | W16 => atomic_store_n 2 | W32 => atomic_store_n 4 | W64 => atomic_store_n 8 end.
Definition atomic_fetch_or_name (width : IntWidth) : Builtin :=
  match width with
  | W8 => atomic_fetch_or_n 1 | W16 => atomic_fetch_or_n 2 | W32 => atomic_fetch_or_n 4 | W64 => atomic_fetch_or_n 8
  end.
Definition atomic_exchange_name (width : IntWidth) : Builtin :=
  match width with
  | W8 => atomic_exchange_n 1 | W16 => atomic_exchange_n 2 | W32 => atomic_exchange_n 4 | W64 => atomic_exchange_n 8
  end.

Definition lower_atomic_load (width : IntWidth) (ptr : RValue) (ordering : Ordering) : M RValue :=
  let! int_ty := resolve_uint width in
  let! ordering := ordering_int ordering in
  let! ptr_type := atomic_read_ptr_ty in
  sm_ret (RCast (RCall (atomic_load_name width) [RCast ptr ptr_type; ordering]) int_ty).

Definition lower_atomic_store (width : IntWidth) (ptr value : RValue) (ordering : Ordering) : M unit :=
  let! ptr_type := atomic_rmw_ptr_ty in
  let! ordering := ordering_int ordering in
  let! int_ty := resolve_sint width in
  let! block := the_current in
  on_ctx (add_eval block (RCall (atomic_store_name width) [RCast ptr ptr_type; RCast value int_ty; ordering])).

(** [__atomic_fetch_or_n] and [__atomic_exchange_n]: the operand is signed for the
    built-in, its result unsigned again. *)
Definition lower_atomic_rmw (builtin : Builtin) (width : IntWidth) (ptr value : RValue) (ordering : Ordering) : M RValue :=
  let! ptr_type := atomic_rmw_ptr_ty in
  let! ordering := ordering_int ordering in
  let! sint_ty := resolve_sint width in
  let! uint_ty := resolve_uint width in
  sm_ret (RCast (RCall builtin [RCast ptr ptr_type; RCast value sint_ty; ordering]) uint_ty).
Definition lower_atomic_fetch_or (width : IntWidth) := lower_atomic_rmw (atomic_fetch_or_name width) width.
Definition lower_atomic_swap (width : IntWidth) := lower_atomic_rmw (atomic_exchange_name width) width.

Definition lower_shift (op : ShiftOp) (width : IntWidth) (val shift : RValue) : M RValue :=
  let ty := rv_type val in
  match op with
  | ZeroExtendShr => sm_ret (RBinary OpRShift ty val shift)
  | SignExtendShr =>
      let! signed_int_ty := resolve_sint width in
      sm_ret (RCast (RBinary OpRShift signed_int_ty (RCast val signed_int_ty) (RCast shift signed_int_ty)) ty)
  | Shl => sm_ret (RBinary OpLShift ty val shift)
  end.

Definition is_bool_type (ty : GccType) : bool := match ty with TyBool => true | _ => false end.

Definition lower_ternary (out_lval : LValue) (cond_val true_val false_val : RValue) : M unit :=
  sm_assert (is_bool_type (rv_type cond_val)) ;;!
  let! then_block := on_ctx new_gcc_block in
  let! else_block := on_ctx new_gcc_block in
  let! merge_block := on_ctx new_gcc_block in
  let! block := the_current in
  on_ctx (end_with_conditional block cond_val then_block else_block) ;;!
  on_ctx (add_assignment then_block out_lval true_val) ;;!
  on_ctx (end_with_jump then_block merge_block) ;;!
  on_ctx (add_assignment else_block out_lval false_val) ;;!
  on_ctx (end_with_jump else_block merge_block) ;;!
  sm_modify (put_current (Some merge_block)).

(** ** Statements *)

Definition arith_op (op : ArithBinOp) : BinaryOp :=
  match op with
  | ArAdd => OpPlus | ArSub => OpMinus | ArMul => OpMult
  | UncheckedUDiv | UncheckedSDiv => OpDivide
  end.
Definition bitwise_op (op : BitwiseOp) : BinaryOp := match op with BwAnd => OpAnd | BwOr => OpOr | BwXor => OpXor end.
Definition overflowing_op (op : OverflowingBinOp) : BinaryOp := match op with OvAdd => OpPlus | OvSub => OpMinus end.

Definition lower_arith (op : ArithBinOp) (lhs : SSAValue) (l r : RValue) : Lower RValue :=
  let out := rv_type l in
  match op with
  | UncheckedSDiv =>
      let!? width := int_width lhs in
      let! signed_ty := resolve_sint width in
      gok (RCast (RBinary (arith_op op) signed_ty (RCast l signed_ty) (RCast r signed_ty)) out)
  | _ => gok (RBinary (arith_op op) out l r)
  end.

(** The only output: [outputs.as_array().unwrap()], and [self.values[output]]. *)
Definition only_output (outputs : list SSAValue) : M LValue :=
  match outputs with [output] => value_at output | _ => sm_panic end.

Definition lower_shift_unbounded (op : ShiftOp) (value : SSAValue) (val shift : RValue) (outputs : list SSAValue) : Lower unit :=
  let ty := rv_type val in
  let!? width := int_width value in
  let width_bits := bits width in
  let in_range := RCompare CmpLessThan shift (RConst (rv_type shift) width_bits) in
  let! out_lval := only_output outputs in
  let! shifted := lower_shift op width val (RCast shift ty) in
  let! overflow_val :=
    match op with
    | SignExtendShr => lower_shift SignExtendShr width val (RConst ty (width_bits - 1))
    | ZeroExtendShr | Shl => sm_ret (RConst (rv_type val) 0)
    end in
  lower_ternary out_lval in_range shifted overflow_val ;;!
  gok tt.

Definition lower_overflowing (op : OverflowingBinOp) (lhs : SSAValue) (l r : RValue) : Lower (list RValue) :=
  let ty := rv_type l in
  let!? width := int_width lhs in
  let! signed_ty := resolve_sint width in
  let! i128_ty := get_i128_ty in
  let wide_result := RBinary (overflowing_op op) i128_ty (RCast (RCast l signed_ty) i128_ty) (RCast (RCast r signed_ty) i128_ty) in
  let truncated := RCast wide_result ty in
  let sign_extended := RCast (RCast truncated signed_ty) i128_ty in
  gok [truncated; RCompare CmpNotEquals wide_result sign_extended].

(** [ptr & tag_bits] as an integer, and what is left of it. *)
Definition lower_has_tag (ptr_val : RValue) (tag_bits : Z) : M RValue :=
  let! usize_ty := get_usize_ty in
  let ptr_bits := RBitcast ptr_val usize_ty in
  let masked := RBinary OpAnd usize_ty ptr_bits (RConst usize_ty tag_bits) in
  sm_ret (RCompare CmpNotEquals masked (RConst usize_ty 0)).
Definition lower_untag (ptr_val : RValue) (tag_bits : Z) : M RValue :=
  let ptr_ty := rv_type ptr_val in
  let! usize_ty := get_usize_ty in
  let ptr_bits := RBitcast ptr_val usize_ty in
  let mask := RUnary OpBitNot usize_ty (RConst usize_ty tag_bits) in
  sm_ret (RBitcast (RBinary OpAnd usize_ty ptr_bits mask) ptr_ty).

Definition glower_callback (func : HostCallback) (signature : CallbackSignature) (args : list SSAValue) : Lower (list RValue) :=
  let! fn_ptr_ty := fn_ptr_type signature in
  let fn_ptr_val := RConst fn_ptr_ty (helper_address func) in
  let! sig := sm_of_option (arena_get (exec_signatures exec_ir) signature) in
  let!? gcc_args := guse_values args in
  match sig_ret sig with
  | Some _ => gok [RCallPtr fn_ptr_val gcc_args]
  | None =>
      let! block := the_current in
      on_ctx (add_eval block (RCallPtr fn_ptr_val gcc_args)) ;;!
      gok []
  end.

(** The values of the outputs, or [None] if they are already assigned. *)
Definition to_assign (rs : list RValue) : Lower (option (list RValue)) := gok (Some rs).
Definition assigned : Lower (option (list RValue)) := gok None.

Definition glower_rvalue (rvalue : StmtKind) (outputs : list SSAValue) : Lower (option (list RValue)) :=
  match rvalue with
  | KIConst c => let! r := iconst_rvalue c in to_assign [r]
  | KArithBinOp op lhs rhs =>
      let!? l := guse_value lhs in
      let!? r := guse_value rhs in
      let!? res := lower_arith op lhs l r in
      to_assign [res]
  | KIntNeg val =>
      let!? val := guse_value val in
      to_assign [RUnary OpNegate (rv_type val) val]
  | KIntCmp cmp lhs rhs =>
      let!? l := guse_value lhs in
      let!? r := guse_value rhs in
      let!? res := lower_cmp cmp lhs l r in
      to_assign [res]
  | KIntCmpImm cmp lhs rhs =>
      let!? l := guse_value lhs in
      let!? res := lower_cmp cmp lhs l (RConst (rv_type l) (cast_signed rhs)) in
      to_assign [res]
  | KSelect cond if_true if_false =>
      let!? cond_val := guse_value cond in
      let!? true_val := guse_value if_true in
      let!? false_val := guse_value if_false in
      let! out_lval := only_output outputs in
      lower_ternary out_lval cond_val true_val false_val ;;!
      assigned
  | KBitwise op lhs rhs =>
      let!? l := guse_value lhs in
      let!? r := guse_value rhs in
      to_assign [RBinary (bitwise_op op) (rv_type l) l r]
  | KBitwiseImm op lhs rhs =>
      let!? l := guse_value lhs in
      to_assign [RBinary (bitwise_op op) (rv_type l) l (RConst (rv_type l) (cast_signed rhs))]
  | KBitNot val =>
      let!? val := guse_value val in
      to_assign [RUnary OpBitNot (rv_type val) val]
  | KShift op value shift =>
      let!? width := int_width value in
      let!? val := guse_value value in
      let!? shift := guse_value shift in
      let! result := lower_shift op width val shift in
      to_assign [result]
  | KShiftUnbounded op value shift =>
      let!? val := guse_value value in
      let!? shift := guse_value shift in
      let!? _ := lower_shift_unbounded op value val shift outputs in
      assigned
  | KShiftImm op value shift =>
      let!? width := int_width value in
      let!? val := guse_value value in
      let! result := lower_shift op width val (RConst (rv_type val) shift) in
      to_assign [result]
  | KOverflowingBinOp op lhs rhs =>
      let!? l := guse_value lhs in
      let!? r := guse_value rhs in
      let!? rs := lower_overflowing op lhs l r in
      to_assign rs
  | KLoadHost ty base_ptr offset _ =>
      let!? ptr_val := guse_value base_ptr in
      let!? offset_ptr := ptr_add_const ptr_val offset in
      let! load_ty := (match ty with LInt w => resolve_uint w | LHostPtr _ => get_void_ptr_ty end) in
      to_assign [load_ptr offset_ptr load_ty]
  | KStoreHost base_ptr offset value _ =>
      let!? ptr_val := guse_value base_ptr in
      let!? value := guse_value value in
      let!? offset_ptr := ptr_add_const ptr_val offset in
      store_ptr offset_ptr value ;;!
      to_assign []
  | KLoadStackPtr slot => let! l := slot_at slot in to_assign [RAddress l]
  | KPtrAdd base_ptr offset elem_size =>
      let!? base := guse_value base_ptr in
      let!? off := guse_value offset in
      let! result := gptr_add base off elem_size in
      to_assign [result]
  | KPtrEq ptr_a ptr_b =>
      let!? a := guse_value ptr_a in
      let!? b := guse_value ptr_b in
      to_assign [RCompare CmpEquals a b]
  | KHasTag ptr tag_bits =>
      let!? ptr_val := guse_value ptr in
      let! r := lower_has_tag ptr_val tag_bits in
      to_assign [r]
  | KUntag ptr tag_bits =>
      let!? ptr_val := guse_value ptr in
      let! r := lower_untag ptr_val tag_bits in
      to_assign [r]
  | KHostCallback func signature args =>
      let!? rs := glower_callback func signature args in
      to_assign rs
  | KVMLoadRaw aligned_page_ptr page_offset width seq_cst =>
      let ordering := if seq_cst : bool then SeqCst else Relaxed in
      let!? base := guse_value aligned_page_ptr in
      let!? off := guse_value page_offset in
      let! ptr := gptr_byte_add base off in
      let! load_res := lower_atomic_load width ptr ordering in
      to_assign [lower_bswap_to_le width load_res]
  | KVMStoreRaw aligned_page_ptr page_offset value seq_cst =>
      let ordering := if seq_cst : bool then SeqCst else Relaxed in
      let! ty := ssa_type value in
      match ty with
      | TInt width =>
          let!? base := guse_value aligned_page_ptr in
          let!? off := guse_value page_offset in
          let!? val := guse_value value in
          let! ptr := gptr_byte_add base off in
          lower_atomic_store width ptr (lower_bswap_to_le width val) ordering ;;!
          to_assign []
      | _ => sm_panic                                     (* unreachable!() *)
      end
  | KLoadHaltReason =>
      let!? ptr := guse_value ARG_HALT_REASON_PTR in
      let! reason := lower_atomic_load W32 ptr Relaxed in
      to_assign [reason]
  | KTakeHaltReason =>
      let!? ptr := guse_value ARG_HALT_REASON_PTR in
      let! zero := u32_const 0 in
      let! old_val := lower_atomic_swap W32 ptr zero AcqRel in
      to_assign [old_val]
  | KSetPageDirtyFlag insn_dirty =>
      let!? ptr := guse_value insn_dirty in
      let! true_val := u8_const 1 in
      let! rvalue := lower_atomic_fetch_or W8 ptr true_val Release in
      let! block := the_current in
      on_ctx (add_eval block rvalue) ;;!
      to_assign []
  | KSafepoint => to_assign []
  end.

(** One assignment for each output. *)
Fixpoint assign_outputs (block : GccBlock) (outputs : list SSAValue) (rs : list RValue) : M unit :=
  match outputs, rs with
  | v :: outputs, r :: rs =>
      let! lval := value_at v in
      on_ctx (add_assignment block lval r) ;;!
      assign_outputs block outputs rs
  | _, _ => sm_ret tt
  end.

Definition glower_stmt (stmt : StmtData) : Lower unit :=
  let output_locs := outputs stmt in
  let!? o := glower_rvalue (rvalue stmt) output_locs in
  match o with
  | Some rs =>
      let!? _ := gensure (length output_locs =? length rs)%nat GMismatchedValues in
      let! block := the_current in
      assign_outputs block output_locs rs ;;!
      gok tt
  | None => gok tt
  end.

(** ** Control flow *)

(** Assignments to the parameters of a jump's target, one after the other. *)
Fixpoint assign_params (from_block : GccBlock) (l : list (SSAValue * SSAValue)) : Lower unit :=
  match l with
  | [] => gok tt
  | (arg_ssa, param_ssa) :: l =>
      let!? arg_val := guse_value arg_ssa in
      let! param_lval := value_at param_ssa in
      on_ctx (add_assignment from_block param_lval arg_val) ;;!
      assign_params from_block l
  end.

Definition emit_jump (from_block : GccBlock) (jump : Jump) : Lower unit :=
  let! target_ref := sm_of_option (arena_get (exec_blocks exec_ir) (jump_target jump)) in
  let!? target_gcc := gcc_block (jump_target jump) in
  let!? _ := gensure (length (jump_parameters jump) =? length (parameters target_ref))%nat GJumpParams in
  let!? _ := assign_params from_block (zip (jump_parameters jump) (parameters target_ref)) in
  on_ctx (end_with_jump from_block target_gcc) ;;!
  gok tt.

Definition glower_terminator (gcc_block : GccBlock) (t : Terminator) : Lower unit :=
  match kind t with
  | TkReturn =>
      let! zero := u32_const 0 in
      on_ctx (end_with_return gcc_block zero) ;;! gok tt
  | TkReturnCode halt_reason =>
      let!? val := guse_value halt_reason in
      on_ctx (end_with_return gcc_block val) ;;! gok tt
  | TkBr =>
      match targets t with
      | target :: _ => emit_jump gcc_block target
      | [] => sm_panic
      end
  | TkBrZ cond =>
      match targets t with
      | [zero_target; non_zero_target] =>
          let!? cond_val := guse_value cond in
          let cond_ty := rv_type cond_val in
          let is_nonzero :=
            if is_bool_type cond_ty then cond_val else RCompare CmpNotEquals cond_val (RConst cond_ty 0) in
          let! true_trampoline := on_ctx new_gcc_block in
          let! false_trampoline := on_ctx new_gcc_block in
          on_ctx (end_with_conditional gcc_block is_nonzero true_trampoline false_trampoline) ;;!
          let!? _ := emit_jump true_trampoline non_zero_target in
          emit_jump false_trampoline zero_target
      | _ => sm_panic
      end
  end.

Fixpoint glower_stmts (l : list Stmt) : Lower unit :=
  match l with
  | [] => gok tt
  | stmt_ref :: l =>
      let! stmt := sm_of_option (arena_get (exec_stmts exec_ir) stmt_ref) in
      let!? _ := glower_stmt stmt in
      glower_stmts l
  end.

Definition glower_block (ir_block : Block) : Lower unit :=
  let!? gcc_block := gcc_block ir_block in
  let! block_data := sm_of_option (arena_get (exec_blocks exec_ir) ir_block) in
  sm_modify (put_current (Some gcc_block)) ;;!
  let!? _ := glower_stmts (stmts block_data) in
  let! current := the_current in
  glower_terminator current (terminator block_data).

Fixpoint glower_block_list (l : list Block) : Lower unit :=
  match l with
  | [] => gok tt
  | ir_block :: l => let!? _ := glower_block ir_block in glower_block_list l
  end.
Definition glower_blocks : Lower unit := glower_block_list (block_compile_order exec_ir).

(** ** The function *)

(** [arg as usize]. *)
Definition arg_index (a : Arg) : nat :=
  match a with
  | AIoMMU => 0 | ATlb => 1 | AExecContext => 2 | AExecState => 3 | AIoMMUIdentifier => 4 | AHaltReasonPtr => 5
  end.

(** The parameters, in the order of the ABI, counted from [i]. *)
Fixpoint new_params (i : nat) (l : list Arg) : M (list (GccVar * GccType)) :=
  match l with
  | [] => sm_ret []
  | arg :: l =>
      sm_assert (i =? arg_index arg)%nat ;;!
      let! ty := resolve_ty (arg_ty arg) in
      let! x := on_ctx (new_parameter ty) in
      let! xs := new_params (S i) l in
      sm_ret ((x, ty) :: xs)
  end.

(** A block of the function; the first one is there already. *)
Definition new_ir_block (entry_gcc_block : GccBlock) (b : nat * Block) : M unit :=
  let! block := (if (fst b =? 0)%nat then sm_ret entry_gcc_block else on_ctx new_gcc_block) in
  fun l => match map_insert_unique (snd b) block (gl_blocks l) with
    | Some (_, m) => Some (tt, put_blocks m l)
    | None => None
    end.

(** The variable of a value: an argument is the function's parameter. *)
Definition new_value (param_list : list (GccVar * GccType)) (v : SSAValue * TypeFull) : M unit :=
  let! lvalue :=
    match from_ssa_value (fst v) with
    | Some arg =>
        let! (x, ty) := sm_of_option (param_list !! arg_index arg) in
        sm_ret (LVar x ty)
    | None =>
        let! ty := resolve_ty (snd v) in
        let! x := on_ctx (new_local ty) in
        sm_ret (LVar x ty)
    end in
  sm_modify (fun l => put_values (snd (map_insert (fst v) lvalue (gl_values l))) l).

Definition new_slot (s : StackSlot * StackSlotData) : M unit :=
  let! u8 := resolve_uint W8 in
  let slot_ty := TyAligned (TyArray u8 (slot_size (snd s))) (slot_align (snd s)) in
  let! x := on_ctx (new_local slot_ty) in
  fun l => match map_insert_unique (fst s) (LVar x slot_ty) (gl_slots l) with
    | Some (_, m) => Some (tt, put_slots m l)
    | None => None
    end.

Definition gnew_lowering (f : F) : FunctionLowering :=
  mkGccLowering f None
    (map_with_capacity (length (exec_ssa_values exec_ir)))
    (map_with_capacity (length (exec_blocks exec_ir)))
    (map_with_capacity (length (exec_stack_slots exec_ir)))
    (map_with_capacity (length (exec_signatures exec_ir)))
    TypeCache_new.

(** [FunctionLowering::new], from the empty maps on. *)
Definition glowering_new : Lower unit :=
  let! param_list := new_params 0 args in
  let! ret := (fun l => Some (u32_ty (gl_cache l), l)) in
  on_ctx (new_function ret (fst <$> param_list)) ;;!
  let! entry_gcc_block := on_ctx new_gcc_block in
  let order := block_compile_order exec_ir in
  sm_for (zip (seq 0 (length order)) order) (new_ir_block entry_gcc_block) ;;!
  let! keys := sm_of_option (arena_keys (exec_ssa_values exec_ir)) in
  sm_for (zip keys (exec_ssa_values exec_ir)) (new_value param_list) ;;!
  let! entry_block_ref := sm_of_option (arena_get (exec_blocks exec_ir) ENTRYPOINT) in
  let!? _ := gensure (length args =? length (parameters entry_block_ref))%nat GEntryParams in
  let! slots := sm_of_option (arena_keys (exec_stack_slots exec_ir)) in
  sm_for (zip slots (exec_stack_slots exec_ir)) new_slot ;;!
  gok tt.

(** [FunctionLowering::new] and [lower_blocks] in a fresh context. *)
Definition glower_function (f : F) : option (Result unit GccError * FunctionLowering) :=
  (let!? _ := glowering_new in glower_blocks) (gnew_lowering f).
End Lower.
