(* ===== verification/GccHost.v ===== *)
(** * C code on its host
    ([jit-compiler-core/src/compiler/gcc_backend.rs], the assumptions of the
    translation)

    What the function given to libgccjit relies on: the objects it points at lie at
    their addresses, so that an access through a pointer is an access to the object
    there; GCC's atomic built-ins access memory in the host's byte order; and a
    call of a helper's address runs the helper. *)

From S2P Require Import Prelude Convert HaltReason MemTypes Fault Memops ObjectQueue Fabric PageTable IoMMU.
From S2P Require Import ExclusiveMonitor LookupCache MemAccess FfiSupport Arena Ir IrSem IrEmit IrLogic IrTyping.
From S2P Require Import BackEnd.
From S2P Require Import Tarjan SccGraph HaltCheck HaltSplit HaltInv HaltSound BlockOrder Clif CraneliftLower Gcc GccLower.
Local Open Scope Z_scope.
Local Open Scope emu_scope.

(** Where things are. *)
Class GccHost (Error : Type) := {
  gcc_address : HostPtr -> Z;
  gcc_helper : HostCallback -> Z;
  #[global] gcc_machine :: GccMachine (World (Error := Error));
}.

(** The C type of a type of the IR, and the bits of a value. *)
Definition gcc_ty (ty : TypeFull) : GccType :=
  match ty with TBool => TyBool | TInt w => TyInt false (bits w) | THostPtr _ => TyPtr TyVoid end.
Definition load_gcc_ty (ty : LoadType) : GccType := gcc_ty (load_type_full ty).
Definition value_gcc_ty (x : Value) : GccType :=
  match x with VInt w _ => TyInt false (bits w) | VBool _ => TyBool | VPtr _ => TyPtr TyVoid end.
Definition rep_bits {Error} `{GccHost Error} (x : Value) : Z :=
  match x with VInt _ z => z | VBool b => bool_bits b | VPtr p => gcc_address p end.

(** The memory orders a built-in accepts. *)
Definition load_order (order : Z) : Prop := order ∈ [RELAXED; ACQUIRE; SEQ_CST].
Definition store_order (order : Z) : Prop := order ∈ [RELAXED; RELEASE; SEQ_CST].
Definition rmw_order (order : Z) : Prop := order ∈ [RELAXED; ACQUIRE; RELEASE; ACQ_REL; SEQ_CST].

Class GccHostLaws {Error} (e : Endian) (ly : Layout) (io_mmu : IoMMU) `{GccHost Error} : Prop := {
  (* pointers *)
  gcc_address_page t : gcc_address (PPage t) = t;
  gcc_address_ident i : gcc_address (PIdent i) = MaybeIdent.as_ptr i;
  gcc_address_tlb off : gcc_address (PTlb off) = wrap USIZE_BITS (gcc_address (PTlb 0) + off);
  (* accesses to the host's objects *)
  gcc_read ty p off v s s' : 0 <= off <= I64_MAX -> load_host e ly ty p off s = Some (v, s') ->
    read_mem (load_gcc_ty ty) (gcc_address p) off s = Some (rep_bits v, s');
  gcc_write p off v s s' : 0 <= off <= I64_MAX -> store_host e ly p off v s = Some (tt, s') ->
    write_mem (value_gcc_ty v) (gcc_address p) off (rep_bits v) s = Some (tt, s');
  gcc_load_halt order s : load_order order ->
    call_builtin (atomic_load_n 4) [gcc_address PHaltReason; order] s = Some (halt_word s, s);
  gcc_swap_halt z order s : rmw_order order ->
    call_builtin (atomic_exchange_n 4) [gcc_address PHaltReason; z; order] s = Some (halt_word s, set_halt_word z s);
  gcc_set_dirty id order s s' : rmw_order order -> on_fabric (set_page_dirty_flag id) s = Some (tt, s') ->
    exists old, call_builtin (atomic_fetch_or_n 1) [gcc_address (PFlags (Some id)); PageDirty.IS_DIRTY_FLAG; order] s = Some (old, s');
  (* accesses to guest memory *)
  gcc_vm_load w a z order s s' : load_order order ->
    on_fabric (on_mem (load_ne_aligned_inner e (width_bytes w) (wrap USIZE_BITS a))) s = Some (z, s') ->
    call_builtin (atomic_load_n (bytes w)) [wrap USIZE_BITS a; order] s = Some (z, s');
  gcc_vm_store w a z order s s' : store_order order ->
    on_fabric (on_mem (store_ne_aligned_inner e (width_bytes w) (wrap USIZE_BITS a) z)) s = Some (tt, s') ->
    exists r, call_builtin (atomic_store_n (bytes w)) [wrap USIZE_BITS a; z; order] s = Some (r, s');
  gcc_bswap w z s : w <> W8 -> call_builtin (builtin_bswap (bytes w)) [z] s = Some (swap_bytes (width_bytes w) z, s);
  (* the runtime's helpers *)
  gcc_call func i vs xs s s' : callback_fits func i -> call_helper e io_mmu func vs s = Some (xs, s') ->
    exists z, call_pointer (gcc_helper func) (rep_bits <$> vs) s = Some (z, s') /\ forall x, xs = [x] -> z = rep_bits x;
}.

Section Facts.
Context {Error} {e : Endian} {ly : Layout} {io_mmu : IoMMU} `{!GccHost Error} `{!GccHostLaws e ly io_mmu}.

(** The address of an element of the TLB. *)
Lemma gcc_address_tlb_add off o :
  gcc_address (PTlb (wrap USIZE_BITS (off + o))) = wrap USIZE_BITS (gcc_address (PTlb off) + o).
Proof.
  rewrite gcc_address_tlb, (gcc_address_tlb (ly := ly) off). rewrite wrap_add_r, wrap_add_l. f_equal. lia.
Qed.

Lemma rep_bits_type x ty : has_type x ty -> value_gcc_ty x = gcc_ty ty.
Proof. destruct x, ty; simpl; try done. by intros [-> _]. Qed.
End Facts.
