(* ===== verification/GccCode.v ===== *)
(** * Running C
    ([jit-compiler-core/src/compiler/gcc_backend.rs])

    How a recorded function grows, how expressions evaluate and runs compose, and
    what the arithmetic the back end emits comes to. *)

From S2P Require Import Prelude Convert HaltReason MemTypes Fault Memops ObjectQueue Fabric PageTable IoMMU.
From S2P Require Import ExclusiveMonitor LookupCache MemAccess FfiSupport Arena Ir IrSem IrEmit IrLogic IrArith.
From S2P Require Import IrTyping IrBuilt IrBuilder IrRun IrRange.
From S2P Require Import BackEnd.
From S2P Require Import Tarjan SccGraph HaltCheck HaltSplit HaltInv HaltSound BlockOrder Clif CraneliftLower Gcc GccLower GccHost.
Local Open Scope Z_scope.
Local Open Scope emu_scope.

(** ** Growth *)

(** Variables and blocks are added, code is added at the end of open blocks. *)
Record gcc_grows (f f' : GccFunc) : Prop := {
  gg_vars : gf_vars f ⊆ gf_vars f';
  gg_blocks : forall b d, gf_blocks f !! b = Some d -> exists d', gf_blocks f' !! b = Some d' /\
    gb_stmts d `prefix_of` gb_stmts d' /\ (gb_end d <> None -> d' = d);
  gg_params : gf_params f' = gf_params f;
  gg_entry : forall b, gf_entry f = Some b -> gf_entry f' = Some b;
}.

#[export] Instance gcc_grows_preorder : PreOrder gcc_grows.
Proof.
  split.
  - intros f. split; [done| |done|done]. intros b d Hd. by exists d.
  - intros f g h [V1 B1 P1 E1] [V2 B2 P2 E2]. split; [by etrans| |congruence|naive_solver]. clear P1 E1 P2 E2. intros b d (d' & Hd' & P1 & E1)%B1.
    destruct (B2 _ _ Hd') as (d2 & Hd2 & P2 & E2). exists d2. split_and!; [done|by etrans|].
    intros He. specialize (E1 He) as ->. by apply E2.
Qed.

Lemma grows_var x ty f : gf_vars f !! x = None -> gcc_grows f (GFn.add_var x ty f).
Proof. intros Hx. split; [by apply insert_subseteq| |done|done]. intros b d Hd. by exists d. Qed.

Lemma grows_block b f : gf_blocks f !! b = None -> gcc_grows f (GFn.add_block b f).
Proof.
  intros Hb. split; [done| |done|by intros b' Hb'; simpl; rewrite Hb']. intros b' d Hd. exists d. split; [|done]. simpl. rewrite lookup_insert_ne; [done|]. by intros <-; simplify_eq.
Qed.

Lemma grows_on_block g b f :
  (forall d, gf_blocks f !! b = Some d -> gb_end d = None /\ gb_stmts d `prefix_of` gb_stmts (g d)) ->
  gcc_grows f (GFn.on_block g b f).
Proof.
  intros Hg. split; [done| |done|done]. intros b' d Hd. simpl. destruct (decide (b' = b)) as [->|Hb].
  - rewrite lookup_alter_eq, Hd. destruct (Hg _ Hd) as [He Hp]. eexists. split_and!; [done|done|]. by rewrite He.
  - rewrite lookup_alter_ne by done. by exists d.
Qed.

(** ** Runs *)

Section Run.
Context {S : Type} `{!GccMachine S} (fn : GccFunc).

Lemma run_gcc_app n m p q r : run_gcc fn n p = Some (GContinue q) -> run_gcc fn m q = r -> run_gcc fn (n + m) p = r.
Proof.
  revert p. induction n as [|n IH]; intros p H Hr; [by injection H as ->|]. simpl in *.
  destruct (gstep fn p) as [[p'|]|]; [by apply IH|done..].
Qed.

(** The program goes from a point to a point. *)
Definition goes (p q : GPoint (S := S)) : Prop := exists n, run_gcc fn n p = Some (GContinue q).

#[export] Instance goes_preorder : PreOrder goes.
Proof.
  split; [intros p; by exists O|]. intros p q r [n Hn] [m Hm]. exists (n + m)%nat. by eapply run_gcc_app.
Qed.

Lemma goes_run n p q r : goes p q -> run_gcc fn n q = Some r -> exists m, run_gcc fn m p = Some r.
Proof. intros [k Hk] H. exists (k + n)%nat. by eapply run_gcc_app. Qed.

(** A statement in place. *)
Lemma goes_stmt b i d g env env' s s' :
  gf_blocks fn !! b = Some d -> gb_stmts d !! i = Some g -> exec_gcc_stmt g env s = Some (env', s') ->
  goes (mkGPoint b i env s) (mkGPoint b (Datatypes.S i) env' s').
Proof.
  intros Hb Hg He. exists 1%nat. simpl. unfold gstep. simpl. rewrite Hb. cbn [mbind option_bind]. rewrite Hg, He. done.
Qed.

Lemma gcc_run_end b d t env s r :
  gf_blocks fn !! b = Some d -> gb_end d = Some t -> exec_end t env s = Some r ->
  run_gcc fn 1 (mkGPoint b (length (gb_stmts d)) env s) = Some r.
Proof.
  intros Hb Ht He. simpl. unfold gstep. simpl. rewrite Hb. cbn [mbind option_bind]. rewrite lookup_ge_None_2 by done.
  rewrite Ht. cbn [mbind option_bind]. rewrite He. by destruct r.
Qed.
End Run.

(** ** Expressions *)

Section Eval.
Context {S : Type} `{!GccMachine S} (env : GEnv).

Abbreviation evals r s z s' := (eval env r s = Some (z, s')).
Abbreviation places r s p s' := (eval_place env r s = Some (p, s')).

Lemma evals_place r p (s s' : S) : places r s p s' -> evals r s (flat p) s'.
Proof. intros H. unfold eval. by rewrite (sm_bind_run _ _ _ _ _ H). Qed.

Lemma places_var x ty z (s : S) : env !! x = Some z -> places (RRead (LVar x ty)) s (at_address z) s.
Proof. intros H. simpl. unfold sm_bind, sm_of_option. by rewrite H. Qed.

Lemma evals_var x ty z (s : S) : env !! x = Some z -> evals (RRead (LVar x ty)) s z s.
Proof. intros H. by apply (evals_place _ (at_address z)), places_var. Qed.

Lemma evals_const ty z (s : S) : evals (RConst ty z) s (const_value ty z) s.
Proof. done. Qed.

(** A cast between integers, or of a boolean. *)
Lemma evals_cast r sg w z (s s' : S) : evals r s z s' -> evals (RCast r (TyInt sg w)) s (wrap w (value_of (rv_type r) z)) s'.
Proof.
  unfold eval. simpl. unfold sm_bind, sm_ret. destruct (eval_place env r s) as [[p s1]|]; [|done].
  by intros [= <- <-].
Qed.

Lemma places_cast r ty p (s s' : S) : places r s p s' -> places (RCast r (TyPtr ty)) s p s'.
Proof. done. Qed.

Lemma evals_bitcast r ty z (s s' : S) : evals r s z s' -> evals (RBitcast r ty) s z s'.
Proof.
  unfold eval. simpl. unfold sm_bind, sm_ret. destruct (eval_place env r s) as [[p s1]|]; [|done]. by intros [= <- <-].
Qed.

Lemma evals_binary op ty a b x y z (s s1 s' : S) :
  evals a s x s1 -> evals b s1 y s' -> binary_value op ty x y = Some z -> evals (RBinary op ty a b) s z s'.
Proof.
  unfold eval. simpl. unfold sm_bind, sm_ret, sm_of_option. destruct (eval_place env a s) as [[p s2]|]; [|done].
  intros [= -> ->]. destruct (eval_place env b s1) as [[q s2]|]; [|done]. intros [= -> ->] H. by rewrite H.
Qed.

Lemma evals_unary op ty a x z (s s' : S) :
  evals a s x s' -> unary_value op ty x = Some z -> evals (RUnary op ty a) s z s'.
Proof.
  unfold eval. simpl. unfold sm_bind, sm_ret, sm_of_option. destruct (eval_place env a s) as [[p s2]|]; [|done].
  intros [= -> ->] H. by rewrite H.
Qed.

Lemma evals_compare op a b x y (s s1 s' : S) :
  evals a s x s1 -> evals b s1 y s' ->
  evals (RCompare op a b) s (bool_bits (compare_values op (value_of (rv_type a) x) (value_of (rv_type b) y))) s'.
Proof.
  unfold eval. simpl. unfold sm_bind, sm_ret. destruct (eval_place env a s) as [[p s2]|]; [|done].
  intros [= -> ->]. destruct (eval_place env b s1) as [[q s2]|]; [|done]. by intros [= -> ->].
Qed.

(** The address of an element. *)
Lemma places_index p i ty base o (s s1 s' : S) :
  places p s (at_address base) s1 -> evals i s1 o s' ->
  places (RAddress (LIndex (RCast p (TyPtr ty)) i)) s (base, Some (value_of (rv_type i) o * size_of ty)) s'.
Proof.
  unfold eval. simpl. unfold sm_bind, sm_ret. intros ->. destruct (eval_place env i s1) as [[q s2]|]; [|done]. by intros [= -> ->].
Qed.

(** A load through a pointer. *)
Lemma evals_load p ty pl z (s s1 s' : S) :
  places p s pl s1 -> read_mem ty (fst pl) (default 0 (snd pl)) s1 = Some (z, s') ->
  evals (RRead (LDeref (RCast p (TyPtr ty)))) s z s'.
Proof. unfold eval. simpl. unfold sm_bind, sm_ret. intros -> H. simpl. by rewrite H. Qed.

Lemma exec_store p ty pl r z (s s1 s2 s3 : S) :
  evals r s z s1 -> places p s1 pl s2 -> write_mem ty (fst pl) (default 0 (snd pl)) z s2 = Some (tt, s3) ->
  exec_gcc_stmt (SAssign (LDeref (RCast p (TyPtr ty))) r) env s = Some (env, s3).
Proof. unfold exec_gcc_stmt. intros H1 H2 H3. rewrite (sm_bind_run _ _ _ _ _ H1). simpl. unfold sm_bind, sm_ret. by rewrite H2, H3. Qed.

Lemma exec_assign x ty r z (s s' : S) : evals r s z s' -> exec_gcc_stmt (SAssign (LVar x ty) r) env s = Some (<[x := z]> env, s').
Proof. unfold exec_gcc_stmt. intros H. by rewrite (sm_bind_run _ _ _ _ _ H). Qed.

Lemma exec_eval r z (s s' : S) : evals r s z s' -> exec_gcc_stmt (SEval r) env s = Some (env, s').
Proof. unfold exec_gcc_stmt. intros H. by rewrite (sm_bind_run _ _ _ _ _ H). Qed.

(** Arguments that only read variables. *)
Inductive evals_args : list RValue -> list Z -> S -> S -> Prop :=
  | args_nil s : evals_args [] [] s s
  | args_cons r l z zs s s1 s' : evals r s z s1 -> evals_args l zs s1 s' -> evals_args (r :: l) (z :: zs) s s'.

Lemma evals_call f l zs z (s s1 s' : S) :
  evals_args l zs s s1 -> call_builtin f zs s1 = Some (z, s') -> evals (RCall f l) s z s'.
Proof.
  intros H Hc. unfold eval. simpl.
  match goal with |- sm_bind (sm_bind (?ev l) _) _ _ = _ => assert (ev l s = Some (zs, s1)) as E end;
    [|unfold sm_bind, sm_ret in *; by rewrite E, Hc].
  clear Hc. induction H as [|r l z0 zs s s1 s2 Hr _ IH]; [done|]. unfold eval in Hr. unfold sm_bind, sm_ret in *.
  destruct (eval_place env r s) as [[p s3]|]; [|done]. injection Hr as -> ->. by rewrite IH.
Qed.

Lemma evals_call_ptr f l a zs z (s s1 s2 s' : S) :
  evals f s a s1 -> evals_args l zs s1 s2 -> call_pointer a zs s2 = Some (z, s') -> evals (RCallPtr f l) s z s'.
Proof.
  intros Hf H Hc. unfold eval in *. simpl. unfold sm_bind, sm_ret in Hf.
  destruct (eval_place env f s) as [[p s3]|] eqn:Ef; [|done]. injection Hf as Hp ->.
  match goal with |- sm_bind (sm_bind _ (fun _ => sm_bind (?ev l) _)) _ _ = _ => assert (ev l s1 = Some (zs, s2)) as E end.
  { clear Hc Ef. induction H as [|r l z0 zs s0 s1 s2 Hr _ IH]; [done|]. unfold eval in Hr. unfold sm_bind, sm_ret in *.
    destruct (eval_place env r s0) as [[q s4]|]; [|done]. injection Hr as -> ->. by rewrite IH. }
  unfold sm_bind, sm_ret. rewrite Ef, Hp. unfold sm_bind, sm_ret in E. by rewrite E, Hc.
Qed.
End Eval.
