(* ===== verification/GccArith.v ===== *)
(** * C arithmetic and the IR's
    ([jit-compiler-core/src/compiler/gcc_backend.rs])

    The operators on the types the back end casts to compute what the IR says:
    variables are unsigned, so what is signed in the IR goes through a cast to the
    signed type and back, and an overflow is found at 128 bits. *)

From S2P Require Import Prelude Convert HaltReason MemTypes Fault Memops ObjectQueue Fabric PageTable IoMMU.
From S2P Require Import ExclusiveMonitor LookupCache MemAccess FfiSupport Arena Ir IrSem IrEmit IrLogic IrArith.
From S2P Require Import IrTyping IrBuilt IrBuilder IrRun IrRange.
From S2P Require Import BackEnd.
From S2P Require Import Tarjan SccGraph HaltCheck HaltSplit HaltInv HaltSound BlockOrder Clif CraneliftLower Gcc GccLower GccHost.
Local Open Scope Z_scope.
Local Open Scope emu_scope.

Section Arith.
Context (w : Z) (Hw : 8 <= w <= 64).
Abbreviation uint := (TyInt false w).
Abbreviation sint := (TyInt true w).

Lemma arith_unsigned op a b r :
  fits w a -> fits w b -> op <> UncheckedSDiv -> eval_arith w op a b = Some r -> binary_value (arith_op op) uint a b = Some r.
Proof.
  intros Ha Hb Hop H. destruct op; try done; simpl in *.
  destruct (Z.eqb_spec b 0); [done|]. injection H as <-. unfold fits in *. rewrite Z.quot_div_nonneg by lia.
  f_equal. apply wrap_small. split; [apply Z.div_pos; lia|]. apply Z.div_lt_upper_bound; [lia|]. nia.
Qed.

Lemma quot_in_range x y :
  - 2 ^ (w - 1) <= x < 2 ^ (w - 1) -> y <> 0 -> (x =? - 2 ^ (w - 1)) && (y =? -1) = false ->
  - 2 ^ (w - 1) <= Z.quot x y < 2 ^ (w - 1).
Proof.
  intros Hx Hy Ho. assert (0 < 2 ^ (w - 1)) by (apply Z.pow_pos_nonneg; lia).
  destruct (decide (y = -1)) as [->|Hy1].
  { rewrite andb_true_r in Ho. apply Z.eqb_neq in Ho. change (Z.quot x (-1)) with (Z.quot x (Z.opp 1)). rewrite Z.quot_opp_r, Z.quot_1_r by lia. lia. }
  destruct (decide (y = 1)) as [->|]; [rewrite Z.quot_1_r; lia|].
  assert (Z.abs (Z.quot x y) < 2 ^ (w - 1)) as Hlt; [|lia].
  rewrite <- Z.quot_abs by done. rewrite Z.quot_div_nonneg by lia. apply Z.div_lt_upper_bound; [lia|]. nia.
Qed.

(** Signed division, in the signed type and back. *)
Lemma arith_signed a b r :
  fits w a -> fits w b -> eval_arith w UncheckedSDiv a b = Some r ->
  exists q, binary_value OpDivide sint (wrap w a) (wrap w b) = Some q /\ wrap w (value_of sint q) = r.
Proof.
  intros Ha Hb H. simpl in *. rewrite !(wrap_small w) by done.
  assert ((sgn w b =? 0) = (b =? 0)) as Eb.
  { apply eq_true_iff_eq. rewrite !Z.eqb_eq. split; [|intros ->; apply sgn_zero; lia].
    intros E. apply (sgn_inj w); [lia|done| |by rewrite sgn_zero by lia]. unfold fits. split; [lia|]. apply Z.pow_pos_nonneg; lia. }
  rewrite Eb. destruct (b =? 0) eqn:Eb0; [done|]. simpl in H.
  destruct ((sgn w a =? - 2 ^ (w - 1)) && (sgn w b =? -1)) eqn:Eo; [done|]. injection H as <-.
  pose proof (quot_in_range (sgn w a) (sgn w b) (sgn_bound w a ltac:(lia) Ha)) as Hq.
  specialize (Hq ltac:(apply Z.eqb_neq; by rewrite Eb) Eo).
  unfold signed_in_range. rewrite (proj2 (Z.leb_le _ _)), (proj2 (Z.ltb_lt _ _)) by lia. simpl.
  eexists. split; [done|]. by rewrite wrap_sgn, wrap_wrap by lia.
Qed.

(** Comparisons; on the signed type if the comparison is. *)
Lemma compare_unsigned cmp a b :
  is_signed_cmp cmp = false -> compare_values (convert_to_gcc_cmp cmp) (value_of uint a) (value_of uint b) = eval_cmp w cmp a b.
Proof. by destruct cmp. Qed.

Lemma compare_signed cmp a b :
  fits w a -> fits w b -> is_signed_cmp cmp = true ->
  compare_values (convert_to_gcc_cmp cmp) (value_of sint (wrap w a)) (value_of sint (wrap w b)) = eval_cmp w cmp a b.
Proof. intros Ha Hb Hc. rewrite !(wrap_small w) by done. by destruct cmp. Qed.

(** Shifts by less than the width. *)
Lemma width_half n : 0 <= n < w -> fits w n /\ - 2 ^ (w - 1) <= n < 2 ^ (w - 1).
Proof.
  intros Hn. assert (w - 1 < 2 ^ (w - 1)) by (apply Z.pow_gt_lin_r; lia).
  assert (2 ^ w = 2 * 2 ^ (w - 1)) by (rewrite <- Z.pow_succ_r by lia; f_equal; lia). unfold fits. lia.
Qed.

Lemma shift_unsigned op a n :
  fits w a -> 0 <= n < w -> op <> SignExtendShr ->
  binary_value (match op with Shl => OpLShift | _ => OpRShift end) uint a n = Some (eval_shift w op a n).
Proof.
  intros Ha Hn Hop. destruct op; try done; simpl; rewrite (proj2 (Z.leb_le 0 n)), (proj2 (Z.ltb_lt n w)) by lia; simpl; [|done].
  f_equal. by apply wrap_small, shiftr_fits; [lia|].
Qed.

Lemma shift_signed a n :
  fits w a -> 0 <= n < w ->
  exists q, binary_value OpRShift sint (wrap w a) (wrap w n) = Some q /\ wrap w (value_of sint q) = eval_shift w SignExtendShr a n.
Proof.
  intros Ha Hn. destruct (width_half n Hn) as [Hf Hb]. simpl. rewrite (sgn_of_wrap w n) by lia.
  rewrite (proj2 (Z.leb_le 0 n)), (proj2 (Z.ltb_lt n w)), (wrap_small w a) by (done || lia). simpl. eexists. split; [done|].
  by rewrite wrap_sgn, wrap_wrap by lia.
Qed.

(** The sum or difference at 128 bits, and at the type's. *)
Definition wide (op : OverflowingBinOp) (a b : Z) : Z :=
  match op with OvAdd => sgn w a + sgn w b | OvSub => sgn w a - sgn w b end.

Lemma small_power : 2 ^ (w - 1) <= 2 ^ 63.
Proof. apply Z.pow_le_mono_r; lia. Qed.

Lemma wide_range op a b : fits w a -> fits w b -> - 2 ^ 127 <= wide op a b < 2 ^ 127.
Proof.
  intros Ha Hb. pose proof (sgn_bound w a ltac:(lia) Ha). pose proof (sgn_bound w b ltac:(lia) Hb). pose proof small_power.
  unfold wide. destruct op; lia.
Qed.

Lemma widened a : fits w a -> value_of (TyInt true 128) (wrap 128 (value_of sint (wrap w a))) = sgn w a.
Proof.
  intros Ha. simpl. rewrite (wrap_small w) by done. apply sgn_of_wrap; [lia|].
  pose proof (sgn_bound w a ltac:(lia) Ha). pose proof small_power. lia.
Qed.

Lemma wide_value op a b :
  fits w a -> fits w b ->
  binary_value (overflowing_op op) (TyInt true 128) (wrap 128 (value_of sint (wrap w a))) (wrap 128 (value_of sint (wrap w b))) =
    Some (wrap 128 (wide op a b)).
Proof.
  intros Ha Hb. pose proof (wide_range op a b Ha Hb) as Hr.
  assert (to_bits (TyInt true 128) (wide op a b) = Some (wrap 128 (wide op a b))) as H.
  { unfold to_bits, signed_in_range. rewrite (proj2 (Z.leb_le _ _)), (proj2 (Z.ltb_lt _ _)) by (change (128 - 1) with 127; lia). done. }
  unfold binary_value. rewrite !widened by done. by destruct op.
Qed.

Lemma truncated_value op a b :
  fits w a -> fits w b -> wrap w (value_of (TyInt true 128) (wrap 128 (wide op a b))) = fst (eval_overflowing w op a b).
Proof.
  intros Ha Hb. simpl. rewrite sgn_of_wrap by (lia || exact (wide_range op a b Ha Hb)).
  unfold wide, eval_overflowing, wrapping_add, wrapping_sub. destruct op; simpl.
  - rewrite <- (wrap_add_l w (sgn w a)), <- wrap_add_r, !sgn_wrap by (done || lia). done.
  - rewrite <- !Z.add_opp_r, <- (wrap_add_l w (sgn w a)), sgn_wrap by (done || lia).
    rewrite !Z.add_opp_r. transitivity (wrap w (a - wrap w (sgn w b))); [|by rewrite sgn_wrap by (done || lia)].
    unfold wrap. by rewrite Zminus_mod_idemp_r.
Qed.

Lemma overflow_value op a b :
  fits w a -> fits w b ->
  let r := wide op a b in
  compare_values CmpNotEquals (value_of (TyInt true 128) (wrap 128 r))
    (value_of (TyInt true 128) (wrap 128 (value_of sint (wrap w (value_of uint (wrap w (value_of (TyInt true 128) (wrap 128 r)))))))) =
    snd (eval_overflowing w op a b).
Proof.
  intros Ha Hb r. pose proof (wide_range op a b Ha Hb) as Hr. fold r in Hr. simpl.
  rewrite (sgn_of_wrap 128 r), wrap_wrap by lia. set (t := wrap w r).
  assert (fits w t) as Ht by (apply wrap_fits; lia). pose proof (sgn_bound w t ltac:(lia) Ht) as Hb1. pose proof small_power.
  rewrite (sgn_of_wrap 128 (sgn w t)) by lia.
  assert (snd (eval_overflowing w op a b) = negb (signed_in_range w r)) as -> by by destruct op.
  f_equal. apply eq_true_iff_eq. unfold signed_in_range. rewrite Z.eqb_eq, andb_true_iff, Z.leb_le, Z.ltb_lt. split; [lia|].
  intros H1. unfold t. by rewrite sgn_of_wrap by lia.
Qed.
End Arith.

(** Booleans are 0 and 1. *)
Lemma bitwise_bits op a b :
  binary_value (bitwise_op op) TyBool (bool_bits a) (bool_bits b) = Some (bool_bits (eval_bitwise_bool op a b)).
Proof. by destruct op, a, b. Qed.

Lemma bitwise_ints op s w a b : binary_value (bitwise_op op) (TyInt s w) a b = Some (eval_bitwise op a b).
Proof. by destruct op. Qed.

(** Testing and clearing tag bits. *)
Lemma tag_fits m : fits 8 m -> fits USIZE_BITS m.
Proof. intros [? H]. split; [done|]. eapply Z.lt_trans; [exact H|done]. Qed.

(** One byte is the same in either order. *)
Lemma swap_byte z : fits 8 z -> swap_bytes 1 z = z.
Proof. intros Hz. unfold swap_bytes. cbn. rewrite ?Z.lor_0_r, ?Z.add_0_r. by apply Z.mod_small. Qed.
