(* ===== verification/GccEmit.v ===== *)
(** * Describing code to libgccjit
    ([jit-compiler-core/src/compiler/gcc_backend.rs], the helpers of
    [FunctionLowering])

    The invariant of a translation under way, what the helpers that make types and
    expressions leave alone, and what recording a statement or a block does. *)

From S2P Require Import Prelude Convert HaltReason MemTypes Fault Memops ObjectQueue Fabric PageTable IoMMU.
From S2P Require Import ExclusiveMonitor LookupCache MemAccess FfiSupport Arena Ir IrSem IrEmit IrLogic IrArith.
From S2P Require Import IrTyping IrBuilt IrBuilder IrRun IrRange.
From S2P Require Import BackEnd.
From S2P Require Import Tarjan SccGraph HaltCheck HaltSplit HaltInv HaltSound BlockOrder Clif CraneliftLower Gcc GccLower GccHost GccCode.
Local Open Scope Z_scope.
Local Open Scope emu_scope.

(** What the fields of the cache hold. *)
Definition field_ty (k : Cache.Field) : GccType :=
  match k with
  | Cache.bool_ty => TyBool
  | Cache.usize_ty => TyInt false USIZE_BITS
  | Cache.void_ptr_ty => TyPtr TyVoid
  | Cache.void_ty => TyVoid
  | Cache.atomic_read_ptr => read_ptr
  | Cache.atomic_write_ptr => rmw_ptr
  | Cache.c_int_ty => c_int
  | Cache.i128_ty => TyInt true 128
  | Cache.u64_ty => TyInt false 64 | Cache.u16_ty => TyInt false 16 | Cache.u8_ty => TyInt false 8
  | Cache.i64_ty => TyInt true 64 | Cache.i32_ty => TyInt true 32 | Cache.i16_ty => TyInt true 16
  | Cache.i8_ty => TyInt true 8
  end.

Definition sig_gcc_ty (d : CallbackSignatureData) : GccType :=
  TyFn (match sig_ret d with Some t => gcc_ty t | None => TyVoid end) (gcc_ty <$> sig_args d).

Section Emit.
Context {F : Type} `{!GccContext F, !GccContextLaws F}.
Context (ir : ExecIrBuilder).
Abbreviation Lowering := (@FunctionLowering F).
Abbreviation func L := (gcc_func (gl_ctx L)).
Abbreviation vars L := (gf_vars (gcc_func (gl_ctx L))).
Abbreviation V L := (map_get (gl_values L)).

(** Every value and slot has a variable of its own, of its type. *)
Record gcc_ok (L : Lowering) : Prop := {
  go_cache : forall k t, cached (gl_cache L) k = Some t -> t = field_ty k;
  go_u32 : u32_ty (gl_cache L) = TyInt false 32;
  go_sigs : forall s ty, map_get (gl_sig_types L) s = Some ty ->
    exists d, arena_get (signatures ir) s = Some d /\ ty = sig_gcc_ty d;
  go_values : forall v ty, vty ir v ty -> exists x, V L v = Some (LVar x (gcc_ty ty)) /\ vars L !! x = Some (gcc_ty ty);
  go_only : forall v l, V L v = Some l -> exists ty, vty ir v ty;
  go_inj : forall v v' x ty ty', V L v = Some (LVar x ty) -> V L v' = Some (LVar x ty') -> v = v';
  go_slots : forall s d, arena_get (stack_slots ir) s = Some d ->
    exists x ty, map_get (gl_slots L) s = Some (LVar x ty) /\ vars L !! x = Some ty;
  go_return : gf_return (func L) = TyInt false 32;
}.

(** ** What only makes types and expressions *)

Record same (L0 L : Lowering) : Prop := {
  sm_ok : gcc_ok L;
  sm_ctx : gl_ctx L = gl_ctx L0;
  sm_current : gl_current L = gl_current L0;
  sm_values : gl_values L = gl_values L0;
  sm_blocks : gl_blocks L = gl_blocks L0;
  sm_slots : gl_slots L = gl_slots L0;
}.

Lemma same_refl L : gcc_ok L -> same L L.
Proof. by split. Qed.

Section Builds.
Context (L0 : Lowering).

Definition builds {A} (m : SM Lowering A) (Q : A -> Prop) : Prop :=
  forall L, same L0 L -> exists a L', m L = Some (a, L') /\ same L0 L' /\ Q a.
Definition gives {A} (m : SM Lowering (Result A GccError)) (Q : A -> Prop) : Prop :=
  builds m (fun r => exists a, r = Ok a /\ Q a).

Lemma builds_ret {A} (a : A) (Q : A -> Prop) : Q a -> builds (sm_ret a) Q.
Proof. intros H L HL. by exists a, L. Qed.
Lemma builds_bind {A B} (m : SM Lowering A) (k : A -> SM Lowering B) Q1 Q :
  builds m Q1 -> (forall a, Q1 a -> builds (k a) Q) -> builds (sm_bind m k) Q.
Proof.
  intros Hm Hk L HL. destruct (Hm L HL) as (a & L1 & E & H1 & Ha). rewrite (sm_bind_run _ _ _ _ _ E). by apply (Hk a Ha).
Qed.
Lemma builds_impl {A} (m : SM Lowering A) (Q Q' : A -> Prop) : builds m Q -> (forall a, Q a -> Q' a) -> builds m Q'.
Proof. intros H HQ L HL. destruct (H L HL) as (a & L' & ? & ? & ?). exists a, L'. auto. Qed.
Lemma gives_ok {A} (a : A) (Q : A -> Prop) : Q a -> gives (gok a) Q.
Proof. intros H. apply builds_ret. eauto. Qed.
Lemma gives_try {A B} (m : SM Lowering (Result A GccError)) (k : A -> SM Lowering (Result B GccError)) Q1 Q :
  gives m Q1 -> (forall a, Q1 a -> gives (k a) Q) -> gives (sm_try m k) Q.
Proof. intros Hm Hk. eapply builds_bind; [exact Hm|]. intros r (a & -> & Ha). by apply Hk. Qed.
Lemma gives_bind {A B} (m : SM Lowering A) (k : A -> SM Lowering (Result B GccError)) Q1 Q :
  builds m Q1 -> (forall a, Q1 a -> gives (k a) Q) -> gives (sm_bind m k) Q.
Proof. apply builds_bind. Qed.

(** Types. *)
Lemma builds_cached k : builds (get_or_insert k (field_ty k)) (fun t => t = field_ty k).
Proof.
  intros L HL. unfold get_or_insert. destruct (cached (gl_cache L) k) as [t|] eqn:E.
  - exists t, L. split_and!; [done..|]. by apply (go_cache _ (sm_ok _ _ HL)).
  - eexists _, _. split; [done|]. split; [|done]. destruct HL as [[] ? ? ? ? ?]. split; try done. split; try done. simpl.
    intros k' t. case_decide; [intros [= <-]; by subst|eauto].
Qed.
Lemma builds_u32 : builds (fun L => Some (u32_ty (gl_cache L), L)) (fun t => t = TyInt false 32).
Proof. intros L HL. exists (u32_ty (gl_cache L)), L. split_and!; [done..|]. apply (go_u32 _ (sm_ok _ _ HL)). Qed.

Lemma builds_int sg w : builds (resolve_int sg w) (fun t => t = TyInt sg (bits w)).
Proof.
  destruct sg, w; [apply (builds_cached Cache.i8_ty)|apply (builds_cached Cache.i16_ty)|apply (builds_cached Cache.i32_ty)
    |apply (builds_cached Cache.i64_ty)|apply (builds_cached Cache.u8_ty)|apply (builds_cached Cache.u16_ty)|apply builds_u32
    |apply (builds_cached Cache.u64_ty)].
Qed.
Lemma builds_uint w : builds (resolve_uint w) (fun t => t = TyInt false (bits w)).
Proof. apply builds_int. Qed.
Lemma builds_sint w : builds (resolve_sint w) (fun t => t = TyInt true (bits w)).
Proof. apply builds_int. Qed.
Lemma builds_usize : builds get_usize_ty (fun t => t = TyInt false USIZE_BITS).
Proof. apply (builds_cached Cache.usize_ty). Qed.
Lemma builds_i128 : builds get_i128_ty (fun t => t = TyInt true 128).
Proof. apply (builds_cached Cache.i128_ty). Qed.
Lemma builds_c_int : builds get_c_int_ty (fun t => t = c_int).
Proof. apply (builds_cached Cache.c_int_ty). Qed.
Lemma builds_read_ptr : builds atomic_read_ptr_ty (fun t => t = read_ptr).
Proof. apply (builds_cached Cache.atomic_read_ptr). Qed.
Lemma builds_rmw_ptr : builds atomic_rmw_ptr_ty (fun t => t = rmw_ptr).
Proof. apply (builds_cached Cache.atomic_write_ptr). Qed.
Lemma builds_void_ptr : builds get_void_ptr_ty (fun t => t = TyPtr TyVoid).
Proof. apply (builds_cached Cache.void_ptr_ty). Qed.
Lemma builds_ty ty : builds (resolve_ty ty) (fun t => t = gcc_ty ty).
Proof. destruct ty; first [apply builds_uint|apply builds_void_ptr|apply (builds_cached Cache.bool_ty)]. Qed.
Lemma builds_tys tys : builds (resolve_tys tys) (fun l => l = gcc_ty <$> tys).
Proof.
  induction tys as [|t tys IH]; [by apply builds_ret|]. eapply builds_bind; [apply builds_ty|]. intros ? ->.
  eapply builds_bind; [apply IH|]. intros ? ->. by apply builds_ret.
Qed.
Lemma builds_option {A} (o : option A) a : o = Some a -> builds (sm_of_option o) (fun x => x = a).
Proof. intros -> L HL. by exists a, L. Qed.
Lemma gives_ensure b err : b = true -> gives (gensure b err) (fun _ => True).
Proof. intros ->. by apply gives_ok. Qed.
End Builds.

(** ** Values *)

(** The variable of a value. *)
Definition holds (L : Lowering) (v : SSAValue) (ty : TypeFull) (x : GccVar) : Prop :=
  V L v = Some (LVar x (gcc_ty ty)) /\ vars L !! x = Some (gcc_ty ty).

Lemma holds_same L0 L v ty x : same L0 L -> holds L v ty x -> holds L0 v ty x.
Proof. intros HL. unfold holds. by rewrite (sm_values _ _ HL), (sm_ctx _ _ HL). Qed.

Lemma gives_use_value L0 v ty : vty ir v ty -> gives L0 (guse_value v) (fun r => exists x, r = RRead (LVar x (gcc_ty ty)) /\ holds L0 v ty x).
Proof.
  intros Hv L HL. destruct (go_values _ (sm_ok _ _ HL) _ _ Hv) as (x & Hx & Hvar). unfold guse_value. rewrite Hx. simpl.
  eexists _, L. split_and!; [done|done|]. eexists. split; [done|]. exists x. split; [done|]. by eapply holds_same.
Qed.

Lemma builds_value_at L0 v ty : vty ir v ty -> builds L0 (value_at v) (fun l => exists x, l = LVar x (gcc_ty ty) /\ holds L0 v ty x).
Proof.
  intros Hv L HL. destruct (go_values _ (sm_ok _ _ HL) _ _ Hv) as (x & Hx & Hvar). unfold value_at, sm_of_option. rewrite Hx.
  eexists _, L. split_and!; [done|done|]. exists x. split; [done|]. by eapply holds_same.
Qed.

Lemma gives_use_values L0 vs tys : Forall2 (vty ir) vs tys ->
  gives L0 (guse_values vs) (fun rs => exists xs, rs = zip_with (fun x ty => RRead (LVar x (gcc_ty ty))) xs tys /\
    length xs = length tys /\ forall i v ty x, vs !! i = Some v -> tys !! i = Some ty -> xs !! i = Some x -> holds L0 v ty x).
Proof.
  induction 1 as [|v ty vs tys Hv _ IH]; [apply gives_ok; by exists []|].
  eapply gives_try; [by apply gives_use_value|]. intros r (x & -> & Hx). eapply gives_try; [exact IH|].
  intros rs (xs & -> & Hl & Hxs). apply gives_ok. exists (x :: xs). split_and!; [done|simpl; by f_equal|].
  intros [|i] v' ty' x'; simpl; [by intros [= <-] [= <-] [= <-]|by apply Hxs].
Qed.

(** ** Recording *)

(** The block written to, and how much is in it. *)
Definition here (L : Lowering) (b : GccBlock) (i : nat) : Prop :=
  exists d, gf_blocks (func L) !! b = Some d /\ gb_end d = None /\ length (gb_stmts d) = i.

(** Code was recorded, in the block [b] and new ones. *)
Record records (b : GccBlock) (L L' : Lowering) : Prop := {
  rc_ok : gcc_ok L';
  rc_grows : gcc_grows (func L) (func L');
  rc_vars : gf_vars (func L') = gf_vars (func L);
  rc_values : gl_values L' = gl_values L;
  rc_blocks : gl_blocks L' = gl_blocks L;
  rc_slots : gl_slots L' = gl_slots L;
  rc_frame : forall g d, gf_blocks (func L) !! g = Some d -> g <> b -> gf_blocks (func L') !! g = Some d;
}.

Lemma records_same b L L' : same L L' -> records b L L'.
Proof. intros []. split; try done; by rewrite sm_ctx0. Qed.

Lemma records_trans b b' L1 L2 L3 :
  records b L1 L2 -> records b' L2 L3 -> b' = b \/ gf_blocks (func L1) !! b' = None -> records b L1 L3.
Proof.
  intros [O1 G1 W1 V1 B1 S1 F1] [O2 G2 W2 V2 B2 S2 F2] Hb. split; [done|by etrans|congruence..|].
  intros g d Hg Hne. apply F2; [by apply F1|]. destruct Hb as [->|Hb]; [done|]. by intros ->; simplify_eq.
Qed.

Lemma same_here L L' b i : same L L' -> here L b i -> here L' b i.
Proof. intros HL. unfold here. by rewrite (sm_ctx _ _ HL). Qed.

Lemma gcc_ok_ctx L f : gcc_ok L -> vars L ⊆ gf_vars (gcc_func f) -> gf_return (gcc_func f) = gf_return (func L) -> gcc_ok (put_ctx f L).
Proof.
  intros [H1 H2 H3 H4 H5 H6 H7 H8] Hv Hret. split; try done; simpl.
  - intros v ty Hty. destruct (H4 _ _ Hty) as (x & ? & ?). exists x. split; [done|]. by eapply lookup_weaken.
  - intros s d Hd. destruct (H7 _ _ Hd) as (x & ty & ? & ?). exists x, ty. split; [done|]. by eapply lookup_weaken.
  - by rewrite Hret.
Qed.

(** A statement. *)
Definition stmt_recorded (b : GccBlock) (i : nat) (g : GccStmt) (L L' : Lowering) : Prop :=
  records b L L' /\ gl_current L' = gl_current L /\ here L' b (S i) /\
  exists d, gf_blocks (func L') !! b = Some d /\ gb_stmts d !! i = Some g.

Lemma stmt_recorded_intro b i g L f :
  gcc_ok L -> here L b i -> gcc_func f = GFn.add_stmt b g (func L) -> stmt_recorded b i g L (put_ctx f L).
Proof.
  intros Hok (d & Hd & He & Hi) Hf.
  assert (gf_blocks (gcc_func f) !! b = Some (mkGccBlock (gb_stmts d ++ [g]) (gb_end d))) as Hb
    by (rewrite Hf; simpl; by rewrite lookup_alter_eq, Hd).
  split; [|split; [done|split]].
  - split; try done; simpl; rewrite ?Hf; try done.
    + apply gcc_ok_ctx; [done|by rewrite Hf|by rewrite Hf].
    + apply grows_on_block. intros d' Hd'. simplify_eq. split; [done|]. by eexists.
    + intros g' d' Hg Hne. simpl. by rewrite lookup_alter_ne.
  - eexists. split; [exact Hb|]. simpl. split; [done|]. rewrite length_app. simpl. lia.
  - eexists. split; [exact Hb|]. simpl. by apply list_lookup_middle.
Qed.

Lemma assign_recorded b i l r L :
  gcc_ok L -> here L b i -> lv_ok (vars L) l -> rv_ok (vars L) r -> assignable (lv_type l) (rv_type r) ->
  exists L', on_ctx (add_assignment b l r) L = Some (tt, L') /\ stmt_recorded b i (SAssign l r) L L'.
Proof.
  intros Hok Hh Hl Hr Ha. pose proof Hh as (d & Hd & He & _).
  destruct (assignment_law b l r (gl_ctx L)) as (f & E & Hf); [by exists d|done..|].
  eexists. unfold on_ctx. rewrite E. split; [done|]. by apply stmt_recorded_intro.
Qed.

Lemma eval_recorded b i r L :
  gcc_ok L -> here L b i -> rv_ok (vars L) r ->
  exists L', on_ctx (add_eval b r) L = Some (tt, L') /\ stmt_recorded b i (SEval r) L L'.
Proof.
  intros Hok Hh Hr. pose proof Hh as (d & Hd & He & _).
  destruct (eval_law b r (gl_ctx L)) as (f & E & Hf); [by exists d|done..|].
  eexists. unfold on_ctx. rewrite E. split; [done|]. by apply stmt_recorded_intro.
Qed.

(** A block. *)
Lemma block_recorded L :
  gcc_ok L -> exists b L', on_ctx new_gcc_block L = Some (b, L') /\ (forall b0, records b0 L L') /\ gl_current L' = gl_current L /\
    gf_blocks (func L) !! b = None /\ here L' b 0.
Proof.
  intros Hok. destruct (gcc_block_law (gl_ctx L)) as (b & f & E & Hb & Hf). exists b, (put_ctx f L).
  unfold on_ctx. rewrite E. split_and!; try done.
  - intros b0. split; try done; simpl; rewrite ?Hf; try done; [apply gcc_ok_ctx; [done|by rewrite Hf..]|by apply grows_block|].
    intros g d Hg Hne. simpl. rewrite lookup_insert_ne; [done|]. by intros <-; simplify_eq.
  - exists (mkGccBlock [] None). simpl. rewrite Hf. simpl. split_and!; [apply lookup_insert_eq|done..].
Qed.

(** The end of a block. *)
Definition end_recorded (b : GccBlock) (i : nat) (t : GccEnd) (L L' : Lowering) : Prop :=
  records b L L' /\ gl_current L' = gl_current L /\
  exists d, gf_blocks (func L') !! b = Some d /\ length (gb_stmts d) = i /\ gb_end d = Some t.

Lemma end_recorded_intro b i t L f :
  gcc_ok L -> here L b i -> gcc_func f = GFn.set_end b t (func L) -> end_recorded b i t L (put_ctx f L).
Proof.
  intros Hok (d & Hd & He & Hi) Hf.
  assert (gf_blocks (gcc_func f) !! b = Some (mkGccBlock (gb_stmts d) (Some t))) as Hb
    by (rewrite Hf; simpl; by rewrite lookup_alter_eq, Hd).
  split; [|split; [done|by eexists]].
  split; try done; simpl; rewrite ?Hf; try done.
  - apply gcc_ok_ctx; [done|by rewrite Hf|by rewrite Hf].
  - apply grows_on_block. intros d' Hd'. by simplify_eq.
  - intros g' d' Hg Hne. simpl. by rewrite lookup_alter_ne.
Qed.

Lemma jump_recorded b i t L :
  gcc_ok L -> here L b i -> is_Some (gf_blocks (func L) !! t) ->
  exists L', on_ctx (end_with_jump b t) L = Some (tt, L') /\ end_recorded b i (EJump t) L L'.
Proof.
  intros Hok Hh Ht. pose proof Hh as (d & Hd & He & _).
  destruct (jump_law b t (gl_ctx L)) as (f & E & Hf); [by exists d|done..|].
  eexists. unfold on_ctx. rewrite E. split; [done|]. by apply end_recorded_intro.
Qed.

Lemma conditional_recorded b i c t t' L :
  gcc_ok L -> here L b i -> is_Some (gf_blocks (func L) !! t) -> is_Some (gf_blocks (func L) !! t') ->
  rv_ok (vars L) c -> rv_type c = TyBool ->
  exists L', on_ctx (end_with_conditional b c t t') L = Some (tt, L') /\ end_recorded b i (ECond c t t') L L'.
Proof.
  intros Hok Hh Ht Ht' Hc Hty. pose proof Hh as (d & Hd & He & _).
  destruct (conditional_law b c t t' (gl_ctx L)) as (f & E & Hf); [by exists d|done..|].
  eexists. unfold on_ctx. rewrite E. split; [done|]. by apply end_recorded_intro.
Qed.

Lemma return_recorded b i r L :
  gcc_ok L -> here L b i -> rv_ok (vars L) r -> rv_type r = TyInt false 32 ->
  exists L', on_ctx (end_with_return b r) L = Some (tt, L') /\ end_recorded b i (EReturn r) L L'.
Proof.
  intros Hok Hh Hr Hty. pose proof Hh as (d & Hd & He & _).
  destruct (return_law b r (gl_ctx L)) as (f & E & Hf); [by exists d|done|by rewrite (go_return _ Hok)|].
  eexists. unfold on_ctx. rewrite E. split; [done|]. by apply end_recorded_intro.
Qed.
End Emit.
