(* ===== verification/GccStmt.v ===== *)
(** * Translating a statement to C
    ([jit-compiler-core/src/compiler/gcc_backend.rs], [lower_rvalue])

    On a well-typed statement [lower_rvalue] neither panics nor returns an error,
    and what it makes computes what the statement does. *)

From S2P Require Import Prelude Convert HaltReason MemTypes Fault Memops ObjectQueue Fabric PageTable IoMMU.
From S2P Require Import ExclusiveMonitor LookupCache MemAccess FfiSupport Arena Ir IrSem IrEmit IrLogic IrArith.
From S2P Require Import IrTyping IrBuilt IrBuilder IrRun IrRange.
From S2P Require Import BackEnd.
From S2P Require Import Tarjan SccGraph HaltCheck HaltSplit HaltInv HaltSound BlockOrder Clif CraneliftLower Gcc GccLower GccHost GccCode GccArith GccEmit.
Local Open Scope Z_scope.
Local Open Scope emu_scope.

(** ** What is left out *)

(** Statements the theorems are about: no [BitNot] of a boolean, shifts by an
    amount of the shifted type, and fields in the range of their Rust types. *)
Definition gcc_stmt_ok (ir : ExecIrBuilder) (rv : StmtKind) : bool :=
  match rv with
  | KBitNot v => match arena_get (ssa_values ir) v with Some (TInt _) => true | _ => false end
  | KLoadHost _ _ offset _ | KStoreHost _ offset _ _ => (0 <=? offset) && (offset <=? I64_MAX)
  | KHasTag _ m | KUntag _ m => bool_decide (fits 8 m)
  | KShift _ a n => bool_decide (arena_get (ssa_values ir) a = arena_get (ssa_values ir) n)
  | _ => true
  end.

(** C leaves a shift by the width or more undefined; the amount of a [Shift] is not
    reduced here. *)
Definition shift_ok (ρ : Env) (rv : StmtKind) : Prop :=
  match rv with
  | KShift _ a n => forall w z w' k, ρ !! a = Some (VInt w z) -> ρ !! n = Some (VInt w' k) -> k < bits w
  | _ => True
  end.

(** The helpers that return something. *)
Lemma callback_returns func signature d :
  callback_fits func signature -> arena_get initial_signatures signature = Some d -> func <> CbClrex -> exists ty, sig_ret d = Some ty.
Proof.
  intros Hf Hd Hc. destruct func as [w|w|w|w|]; try done; simpl in Hf; subst; destruct w; injection Hd as <-; by eexists.
Qed.

Section Stmt.
Context {F : Type} `{!GccContext F, !GccContextLaws F}.
Context {Error : Type} {e : Endian} {ly : Layout} {io_mmu : IoMMU} `{!GccHost Error} `{!GccHostLaws e ly io_mmu}.
Context (ir : ExecIrBuilder) (exec_ir : ExecIr).
Context (Hvalues : exec_ssa_values exec_ir = ssa_values ir) (Hsigs : exec_signatures exec_ir = signatures ir)
  (Hinit : signatures ir = initial_signatures).
Context (Hhalt : vty ir ARG_HALT_REASON_PTR (THostPtr RHaltReason)).
Abbreviation Lowering := (@FunctionLowering F).
Abbreviation World := (@World Error).
Abbreviation vars L := (gf_vars (gcc_func (gl_ctx L))).
Abbreviation gives := (gives ir).
Abbreviation builds := (builds ir).

(** The variables of values hold them. *)
Definition agrees (vals : ArenaMap LValue) (ρ : Env) (env : GEnv) (vs : list SSAValue) : Prop :=
  forall v x y ty, v ∈ vs -> ρ !! v = Some x -> map_get vals v = Some (LVar y ty) -> env !! y = Some (rep_bits x).

(** Slots are where their variables are. *)
Definition placed (slots : ArenaMap LValue) : Prop :=
  forall slot x ty, map_get slots slot = Some (LVar x ty) -> var_address x = gcc_address (PStack slot).

(** Expressions evaluated one after the other, whatever else the variables hold. *)
Inductive evals_all (P : GEnv -> Prop) : list RValue -> list Value -> World -> World -> Prop :=
  | ev_nil s : evals_all P [] [] s s
  | ev_cons r rs x xs s s1 s' :
      (forall env, P env -> eval env r s = Some (rep_bits x, s1)) -> evals_all P rs xs s1 s' -> evals_all P (r :: rs) (x :: xs) s s'.

Lemma evals_one P r x (s s' : World) : (forall env, P env -> eval env r s = Some (rep_bits x, s')) -> evals_all P [r] [x] s s'.
Proof. intros H. econstructor; [exact H|constructor]. Qed.

(** What holds when a statement is run. *)
Record run_ready (ρ : Env) (s : World) (rv : StmtKind) : Prop := {
  rr_typed : values_typed ir ρ;
  rr_halt : ρ !! ARG_HALT_REASON_PTR = Some (VPtr PHaltReason);
  rr_world : world_ok s;
  rr_shift : shift_ok ρ rv;
}.

(** The expressions are typed as the outputs, and come to their values. *)
Record computes (L : Lowering) (rv : StmtKind) (rs : list RValue) (tys : list TypeFull) : Prop := {
  cp_typed : Forall2 (fun r ty => rv_ok (vars L) r /\ assignable (gcc_ty ty) (rv_type r)) rs tys;
  cp_runs : forall ρ s xs s', run_ready ρ s rv -> placed (gl_slots L) -> eval_stmt e ly io_mmu ρ rv s = Some (xs, s') ->
    evals_all (fun env => agrees (gl_values L) ρ env (operands rv)) rs xs s s';
}.

Lemma typed_is ρ v ty x : values_typed ir ρ -> vty ir v ty -> ρ !! v = Some x -> has_type x ty.
Proof. intros H Hv Hx. destruct (H _ _ Hx) as (ty' & Hty & Ht). unfold vty in *. by simplify_eq. Qed.

Lemma eval_cast_is env r sg w x z (s s' : World) :
  eval env r s = Some (x, s') -> wrap w (value_of (rv_type r) x) = z -> eval env (RCast r (TyInt sg w)) s = Some (z, s').
Proof. intros H <-. by apply evals_cast. Qed.
Lemma evals_place_is env r p z (s s' : World) : eval_place env r s = Some (p, s') -> flat p = z -> eval env r s = Some (z, s').
Proof. intros H <-. by apply evals_place. Qed.
Lemma eval_compare_is env op a b x y z (s s1 s' : World) :
  eval env a s = Some (x, s1) -> eval env b s1 = Some (y, s') ->
  bool_bits (compare_values op (value_of (rv_type a) x) (value_of (rv_type b) y)) = z ->
  eval env (RCompare op a b) s = Some (z, s').
Proof. intros Ha Hb <-. by eapply evals_compare. Qed.

Lemma int_type sg w : is_int_type (TyInt sg w).
Proof. by eexists _, _. Qed.
Lemma cast_int sg w sg' w' : castable (TyInt sg w) (TyInt sg' w').
Proof. left. split; [left|]; apply int_type. Qed.
Lemma cast_ptr t t' : castable (TyPtr t) (TyPtr t').
Proof. right. split; by eexists. Qed.
Lemma to_void t : assignable (TyPtr TyVoid) (TyPtr t).
Proof. right. left. split; [by eexists|done]. Qed.

Section Cases.
Context (L0 : Lowering).

Lemma operand_read ρ env vs v ty y x z (s : World) :
  holds L0 v ty y -> agrees (gl_values L0) ρ env vs -> v ∈ vs -> ρ !! v = Some x -> rep_bits x = z ->
  eval env (RRead (LVar y (gcc_ty ty))) s = Some (z, s).
Proof. intros [Hy _] Ha Hv Hx <-. apply evals_var. by eapply Ha. Qed.

Lemma operand_ok v ty y : holds L0 v ty y -> rv_ok (vars L0) (RRead (LVar y (gcc_ty ty))).
Proof. by intros [_ ?]. Qed.

(** One operand more is read. *)
Ltac use := eapply gives_try; [eapply gives_use_value; eassumption|];
  let y := fresh "y" in let Hy := fresh "Hy" in intros ? (y & -> & Hy).
(** A type, or an expression, is made. *)
Ltac make lem := eapply gives_bind; [eapply lem|]; intros ? ->.
(** One output, from an expression. *)
Ltac single := apply gives_ok; eexists; split; [reflexivity|]; split; [constructor; [|constructor]|].
(** The statement's evaluation, and its operands' types. *)
Ltac evaluated :=
  let He := fresh "He" in
  intros ρ s xs s' [Hty Hh Hw Hs] Hpl He; cbn [eval_stmt] in He; inv_eval He;
  repeat match goal with
  | H : bool_decide _ = true |- _ => apply bool_decide_eq_true in H; subst
  | H : ?b = true |- _ => rewrite H in *; clear H
  | H : ρ !! ?v = Some _, H' : vty ir ?v _ |- _ =>
      let E := fresh "E" in pose proof (typed_is _ _ _ _ Hty H' H) as E; clear H'; simpl in E;
      try contradiction; try (match type of E with _ /\ _ => destruct E as [? E] end); try subst
  end;
  simplify_eq/=.
Ltac read_operand :=
  match goal with H : holds L0 ?v ?ty ?y |- eval _ (RRead (LVar ?y _)) _ = _ =>
    eapply (operand_read _ _ _ _ _ _ _ _ _ H); [eassumption|simpl; rewrite ?elem_of_cons; tauto|eassumption|reflexivity]
  end.
(** The types of an expression. *)
Ltac operands_typed := repeat match goal with H : holds L0 _ _ _ |- _ => destruct H as [_ ?] end.
Ltac typed := operands_typed; unfold is_pointer; simpl; split_and!;
  try first [done | by left | apply to_void | apply cast_int | apply cast_ptr | left; apply int_type | apply int_type | by eexists | right; left; by eexists ].
(** The value of an expression that only computes. *)
Ltac computed := repeat first
  [ read_operand | apply evals_const | eapply eval_cast_is | eapply evals_bitcast | eapply evals_binary | eapply evals_unary
  | eapply eval_compare_is | lazymatch goal with |- @eq Z _ _ => reflexivity | |- _ = Some ?z => is_evar z; reflexivity end ].

Lemma gives_width v w : vty ir v (TInt w) -> gives L0 (int_width exec_ir v) (fun w' => w' = w).
Proof.
  intros Hv L HL. unfold int_width, ssa_type, sm_of_option, sm_bind. rewrite Hvalues. unfold vty in Hv. rewrite Hv.
  eexists _, L. split_and!; [done|done|]. by exists w.
Qed.

Ltac width := eapply gives_try; [eapply gives_width; eassumption|]; intros ? ->.

(** The statement's only output is the value of an expression. *)
Definition one_value (rv : StmtKind) (outs : list SSAValue) (ty : TypeFull) : Prop :=
  gives L0 (glower_rvalue exec_ir e gcc_helper rv outs) (fun o => exists rs, o = Some rs /\ computes L0 rv rs [ty]).

Lemma iconst_spec c outs : const_ok c -> one_value (KIConst c) outs (TInt (iwidth c)).
Proof.
  intros Hc. unfold one_value. cbn [glower_rvalue]. eapply gives_bind with (Q1 := fun r => r = RConst (TyInt false (bits (iwidth c))) (cast_signed (ibits c))).
  { eapply builds_bind; [apply builds_uint|]. intros ? ->. by apply builds_ret. }
  intros ? ->. single; [typed|]. evaluated. apply evals_one. intros env Hag. rewrite evals_const. pose proof (bits_range (iwidth c)). simpl.
  by rewrite wrap_cast_signed by (done || lia).
Qed.

Lemma arith_spec op a b w outs :
  vty ir a (TInt w) -> vty ir b (TInt w) -> one_value (KArithBinOp op a b) outs (TInt w).
Proof.
  intros Ha Hb. unfold one_value. cbn [glower_rvalue]. use. use. pose proof (bits_range w) as Hw8.
  destruct (decide (op = UncheckedSDiv)) as [->|Hop].
  - eapply gives_try with (Q1 := fun r => r = RCast (RBinary OpDivide (TyInt true (bits w)) (RCast (RRead (LVar y (gcc_ty (TInt w)))) (TyInt true (bits w)))
      (RCast (RRead (LVar y0 (gcc_ty (TInt w)))) (TyInt true (bits w)))) (TyInt false (bits w))).
    { unfold lower_arith. width. make builds_sint. by apply gives_ok. }
    intros ? ->. single; [typed|]. evaluated. apply evals_one. intros env Hag.
    match goal with H : (if _ then None else Some _) = Some z |- _ => pose proof (arith_signed (Ir.bits w) Hw8 bits bits0 z) as (q & Hq & <-); [done..|] end.
    computed. exact Hq.
  - eapply gives_try with (Q1 := fun r => r = RBinary (arith_op op) (TyInt false (bits w)) (RRead (LVar y (gcc_ty (TInt w)))) (RRead (LVar y0 (gcc_ty (TInt w))))).
    { unfold lower_arith. by destruct op; try apply gives_ok. }
    intros ? ->. single; [typed|]. evaluated. apply evals_one. intros env Hag. computed. by apply arith_unsigned.
Qed.

Lemma neg_spec a w outs : vty ir a (TInt w) -> one_value (KIntNeg a) outs (TInt w).
Proof.
  intros Ha. unfold one_value. cbn [glower_rvalue]. use. single; [typed|]. evaluated. apply evals_one. intros env Hag. by computed.
Qed.

Lemma cmp_spec cmp a b w outs : vty ir a (TInt w) -> vty ir b (TInt w) -> one_value (KIntCmp cmp a b) outs TBool.
Proof.
  intros Ha Hb. unfold one_value. cbn [glower_rvalue]. use. use. destruct (is_signed_cmp cmp) eqn:Ec.
  - eapply gives_try with (Q1 := fun r => r = RCompare (convert_to_gcc_cmp cmp) (RCast (RRead (LVar y (gcc_ty (TInt w)))) (TyInt true (bits w)))
      (RCast (RRead (LVar y0 (gcc_ty (TInt w)))) (TyInt true (bits w)))).
    { unfold lower_cmp. rewrite Ec. width. make builds_sint. by apply gives_ok. }
    intros ? ->. single; [typed|]. evaluated. apply evals_one. intros env Hag. simpl rep_bits.
    rewrite <- (compare_signed (Ir.bits w) cmp bits bits0) by done. by computed.
  - eapply gives_try with (Q1 := fun r => r = RCompare (convert_to_gcc_cmp cmp) (RRead (LVar y (gcc_ty (TInt w)))) (RRead (LVar y0 (gcc_ty (TInt w))))).
    { unfold lower_cmp. rewrite Ec. by apply gives_ok. }
    intros ? ->. single; [typed|]. evaluated. apply evals_one. intros env Hag. simpl rep_bits.
    rewrite <- (compare_unsigned (Ir.bits w) cmp bits bits0) by done. by computed.
Qed.

Lemma cmp_imm_spec cmp a imm w outs : vty ir a (TInt w) -> fits (bits w) imm -> one_value (KIntCmpImm cmp a imm) outs TBool.
Proof.
  intros Ha Hi. unfold one_value. cbn [glower_rvalue]. use. pose proof (bits_range w).
  assert (wrap (bits w) (cast_signed imm) = imm) as Ei by (apply wrap_cast_signed; done || lia).
  destruct (is_signed_cmp cmp) eqn:Ec.
  - eapply gives_try with (Q1 := fun r => r = RCompare (convert_to_gcc_cmp cmp) (RCast (RRead (LVar y (gcc_ty (TInt w)))) (TyInt true (bits w)))
      (RCast (RConst (TyInt false (bits w)) (cast_signed imm)) (TyInt true (bits w)))).
    { unfold lower_cmp. rewrite Ec. width. make builds_sint. by apply gives_ok. }
    intros ? ->. single; [typed|]. evaluated. apply evals_one. intros env Hag. simpl rep_bits.
    rewrite <- (compare_signed (Ir.bits w) cmp bits imm) by done. rewrite <- Ei at 2. by computed.
  - eapply gives_try with (Q1 := fun r => r = RCompare (convert_to_gcc_cmp cmp) (RRead (LVar y (gcc_ty (TInt w)))) (RConst (TyInt false (bits w)) (cast_signed imm))).
    { unfold lower_cmp. rewrite Ec. by apply gives_ok. }
    intros ? ->. single; [typed|]. evaluated. apply evals_one. intros env Hag. simpl rep_bits.
    rewrite <- (compare_unsigned (Ir.bits w) cmp bits imm) by done. rewrite <- Ei at 2. by computed.
Qed.

Lemma bitwise_spec op a b ty outs :
  is_bool_or_int ty = true -> vty ir a ty -> vty ir b ty -> one_value (KBitwise op a b) outs ty.
Proof.
  intros Hb Ha Hc. unfold one_value. cbn [glower_rvalue]. use. use. destruct ty as [w| |]; try done.
  - single; [typed|]. evaluated. apply evals_one. intros env Hag. computed. apply bitwise_ints.
  - single; [typed; right; split; [done|]; destruct op; tauto|]. evaluated. apply evals_one. intros env Hag. computed. apply bitwise_bits.
Qed.

Lemma bitwise_imm_spec op a imm w outs : vty ir a (TInt w) -> fits (bits w) imm -> one_value (KBitwiseImm op a imm) outs (TInt w).
Proof.
  intros Ha Hi. unfold one_value. cbn [glower_rvalue]. use. pose proof (bits_range w).
  single; [typed|]. evaluated. apply evals_one. intros env Hag. computed. simpl const_value. rewrite wrap_cast_signed by (done || lia). apply bitwise_ints.
Qed.

Lemma bitnot_spec a w outs : vty ir a (TInt w) -> one_value (KBitNot a) outs (TInt w).
Proof.
  intros Ha. unfold one_value. cbn [glower_rvalue]. use. single; [typed|]. evaluated. apply evals_one. intros env Hag. by computed.
Qed.

(** A shift: of what [val] comes to, by what [shift] comes to. *)
Lemma shift_built op w val shift :
  rv_type val = TyInt false (bits w) -> rv_type shift = TyInt false (bits w) -> rv_ok (vars L0) val -> rv_ok (vars L0) shift ->
  builds L0 (lower_shift op w val shift) (fun r => rv_ok (vars L0) r /\ rv_type r = TyInt false (bits w) /\
    forall env a n (s : World), fits (bits w) a -> 0 <= n < bits w ->
      eval env val s = Some (a, s) -> eval env shift s = Some (n, s) -> eval env r s = Some (eval_shift (bits w) op a n, s)).
Proof.
  intros Hv Hn Hok Hok'. pose proof (bits_range w) as Hw8. unfold lower_shift. destruct op.
  - eapply builds_bind; [apply builds_sint|]. intros ? ->. apply builds_ret. rewrite Hv. split_and!; [|done|].
    + simpl. rewrite Hv, Hn. typed.
    + intros env a n s Ha Hlt E1 E2. destruct (shift_signed (bits w) Hw8 a n Ha Hlt) as (q & Hq & <-).
      eapply eval_cast_is; [|reflexivity]. eapply evals_binary; [eapply eval_cast_is; [exact E1|]|eapply eval_cast_is; [exact E2|]|exact Hq];
        by rewrite ?Hv, ?Hn.
  - apply builds_ret. rewrite Hv. split_and!; [simpl; typed|done|]. intros env a n s Ha Hlt E1 E2.
    eapply evals_binary; [exact E1|exact E2|]. by apply (shift_unsigned (bits w) ZeroExtendShr).
  - apply builds_ret. rewrite Hv. split_and!; [simpl; typed|done|]. intros env a n s Ha Hlt E1 E2.
    eapply evals_binary; [exact E1|exact E2|]. by apply (shift_unsigned (bits w) Shl).
Qed.

Lemma shift_spec op a n w outs :
  vty ir a (TInt w) -> vty ir n (TInt w) -> one_value (KShift op a n) outs (TInt w).
Proof.
  intros Ha Hn. unfold one_value. cbn [glower_rvalue]. width. use. use.
  eapply gives_bind; [apply (shift_built op w); [done|done|by eapply operand_ok..]|]. intros r (Hr & Hrt & Hev). single; [rewrite Hrt; typed|].
  evaluated. apply evals_one. intros env Hag. unfold shift_ok in Hs. specialize (Hs _ _ _ _ ltac:(eassumption) ltac:(eassumption)).
  rewrite Z.mod_small by (unfold fits in *; lia).
  apply Hev; [done|unfold fits in *; lia|read_operand..].
Qed.

Lemma shift_imm_spec op a n w outs :
  vty ir a (TInt w) -> 0 <= n < bits w -> one_value (KShiftImm op a n) outs (TInt w).
Proof.
  intros Ha Hn. unfold one_value. cbn [glower_rvalue]. width. use.
  eapply gives_bind; [apply (shift_built op w); [done|done|by eapply operand_ok|left; apply int_type]|]. intros r (Hr & Hrt & Hev). single; [rewrite Hrt; typed|].
  evaluated. apply evals_one. intros env Hag. apply Hev; [done|lia|read_operand|].
  rewrite evals_const. simpl. by rewrite wrap_small by (by apply width_half; [apply bits_range|]).
Qed.
(** An operand's place is what it points at. *)
Lemma places_operand ρ env vs v ty y x z (s : World) :
  holds L0 v ty y -> agrees (gl_values L0) ρ env vs -> v ∈ vs -> ρ !! v = Some x -> rep_bits x = z ->
  eval_place env (RRead (LVar y (gcc_ty ty))) s = Some (at_address z, s).
Proof. intros [Hy _] Ha Hv Hx <-. apply places_var. by eapply Ha. Qed.

Ltac place_operand :=
  match goal with H : holds L0 ?v ?ty ?y |- eval_place _ (RRead (LVar ?y _)) _ = _ =>
    eapply (places_operand _ _ _ _ _ _ _ _ _ H); [eassumption|simpl; rewrite ?elem_of_cons; tauto|eassumption|reflexivity]
  end.

(** ** Pointers *)

Lemma ptr_eq_spec a b r r' outs :
  vty ir a (THostPtr r) -> vty ir b (THostPtr r') -> one_value (KPtrEq a b) outs TBool.
Proof.
  intros Ha Hb. unfold one_value. cbn [glower_rvalue]. use. use. single; [typed|].
  evaluated. apply evals_one. intros env Hag. computed. simpl. by rewrite !(gcc_address_ident (ly := ly)).
Qed.

Lemma has_tag_spec a m r outs : vty ir a (THostPtr r) -> fits 8 m -> one_value (KHasTag a m) outs TBool.
Proof.
  intros Ha Hm%tag_fits. unfold one_value. cbn [glower_rvalue]. use.
  eapply (gives_bind _ _ _ _ (eq _)); [eapply builds_bind; [apply builds_usize|]; intros ? ->; by apply builds_ret|]. intros ? <-.
  single; [typed|]. evaluated. apply evals_one. intros env Hag. computed.
  simpl. by rewrite (gcc_address_page (ly := ly)), (wrap_small _ m) by done.
Qed.

Lemma untag_spec a m r outs : vty ir a (THostPtr r) -> fits 8 m -> one_value (KUntag a m) outs (THostPtr r).
Proof.
  intros Ha Hm%tag_fits. unfold one_value. cbn [glower_rvalue]. use.
  eapply (gives_bind _ _ _ _ (eq _)); [eapply builds_bind; [apply builds_usize|]; intros ? ->; by apply builds_ret|]. intros ? <-.
  single; [typed|]. evaluated. apply evals_one. intros env Hag. computed. simpl. by rewrite !(gcc_address_page (ly := ly)), (wrap_small _ m) by done.
Qed.

Lemma ptr_add_built base off size :
  builds L0 (gptr_add base off size) (fun r => exists elt, r = RAddress (LIndex (RCast base (TyPtr elt)) off) /\ size_of elt = size).
Proof.
  unfold gptr_add. eapply builds_bind; [apply builds_uint|]. intros ? ->. apply builds_ret. eexists. split; [reflexivity|].
  destruct (Z.eqb_spec size 1) as [->|]; [done|]. change (size * 1 = size). lia.
Qed.

Lemma gcc_ptr_add_spec p o size r outs :
  vty ir p (THostPtr r) -> vty ir o (TInt W64) -> one_value (KPtrAdd p o size) outs (THostPtr r).
Proof.
  intros Hp Ho. unfold one_value. cbn [glower_rvalue]. use. use.
  eapply gives_bind; [apply ptr_add_built|]. intros ? (elt & -> & Helt). single; [typed|].
  evaluated. apply evals_one. intros env Hag. simpl rep_bits. rewrite (gcc_address_tlb_add (ly := ly)). 
  eapply evals_place_is; [eapply places_index; [place_operand|read_operand]|]. done.
Qed.
(** The place [off] bytes into an object. *)
Lemma ptr_const_built base off :
  0 <= off <= I64_MAX -> gives L0 (ptr_add_const base off) (fun r => exists elt, r = RAddress (LIndex (RCast base (TyPtr elt)) (RConst (TyInt false USIZE_BITS) off)) /\
    size_of elt = 1).
Proof.
  intros Ho. unfold ptr_add_const. make builds_usize. eapply gives_try with (Q1 := fun o => o = off).
  { rewrite (proj2 (Z.leb_le _ _)) by lia. by apply gives_ok. }
  intros ? ->. eapply gives_bind; [apply ptr_add_built|]. intros r Hr. by apply gives_ok.
Qed.

Lemma const_place env base elt off z (s : World) :
  0 <= off <= I64_MAX -> size_of elt = 1 -> eval_place env base s = Some (at_address z, s) ->
  eval_place env (RAddress (LIndex (RCast base (TyPtr elt)) (RConst (TyInt false USIZE_BITS) off))) s = Some ((z, Some off), s).
Proof.
  intros Ho He Hb. rewrite (places_index env base (RConst (TyInt false USIZE_BITS) off) elt z _ s s s Hb (evals_const _ _ _ _)), He.
  simpl. rewrite wrap_small; [by rewrite Z.mul_1_r|]. unfold fits, I64_MAX in *. assert (2 ^ 63 - 1 < 2 ^ USIZE_BITS) by done. lia.
Qed.

Lemma gcc_load_host_spec ty p off can_move r outs :
  vty ir p (THostPtr r) -> 0 <= off <= I64_MAX -> one_value (KLoadHost ty p off can_move) outs (load_type_full ty).
Proof.
  intros Hp Ho. unfold one_value. cbn [glower_rvalue]. use. eapply gives_try; [by apply ptr_const_built|]. intros ? (elt & -> & Helt).
  eapply gives_bind with (Q1 := fun t => t = load_gcc_ty ty); [destruct ty; [apply builds_uint|apply builds_void_ptr]|]. intros ? ->.
  single; [typed|]. evaluated. apply evals_one. intros env Hag. unfold load_ptr.
  eapply evals_load; [apply const_place; [done|done|place_operand]|]. simpl. by apply (gcc_read (ly := ly)).
Qed.

Lemma gcc_stack_ptr_spec slot outs :
  is_Some (arena_get (stack_slots ir) slot) -> one_value (KLoadStackPtr slot) outs (THostPtr RScratchSpace).
Proof.
  intros [d Hd]. unfold one_value. cbn [glower_rvalue].
  eapply gives_bind with (Q1 := fun l => exists x ty, l = LVar x ty /\ map_get (gl_slots L0) slot = Some (LVar x ty) /\ vars L0 !! x = Some ty).
  { intros L HL. destruct (go_slots _ _ (sm_ok _ _ _ HL) _ _ Hd) as (x & ty & Hx & Hv). unfold slot_at, sm_of_option. rewrite Hx.
    eexists _, L. split_and!; [done|done|]. exists x, ty. by rewrite <- (sm_slots _ _ _ HL), <- (sm_ctx _ _ _ HL). }
  intros ? (x & ty & -> & Hx & Hv). single; [typed|]. evaluated. apply evals_one. intros env Hag.
  eapply evals_place_is; [reflexivity|]. simpl. by eapply Hpl.
Qed.

(** ** Atomic accesses *)

Lemma atomic_load_built w ptr order :
  builds L0 (lower_atomic_load w ptr order) (fun r => r =
    RCast (RCall (atomic_load_n (bytes w)) [RCast ptr read_ptr; RConst c_int (ordering_value order)]) (TyInt false (bits w))).
Proof.
  unfold lower_atomic_load. eapply builds_bind; [apply builds_uint|]. intros ? ->.
  eapply (builds_bind _ _ _ _ (eq _)); [eapply builds_bind; [apply builds_c_int|]; intros ? ->; by apply builds_ret|]. intros ? <-.
  eapply builds_bind; [apply builds_read_ptr|]. intros ? ->. apply builds_ret. by destruct w.
Qed.

Lemma atomic_rmw_built builtin w ptr val order :
  builds L0 (lower_atomic_rmw builtin w ptr val order) (fun r => r =
    RCast (RCall builtin [RCast ptr rmw_ptr; RCast val (TyInt true (bits w)); RConst c_int (ordering_value order)]) (TyInt false (bits w))).
Proof.
  unfold lower_atomic_rmw. eapply builds_bind; [apply builds_rmw_ptr|]. intros ? ->.
  eapply (builds_bind _ _ _ _ (eq _)); [eapply builds_bind; [apply builds_c_int|]; intros ? ->; by apply builds_ret|]. intros ? <-.
  eapply builds_bind; [apply builds_sint|]. intros ? ->. eapply builds_bind; [apply builds_uint|]. intros ? ->. by apply builds_ret.
Qed.

Lemma gcc_load_halt_spec outs : one_value KLoadHaltReason outs (TInt W32).
Proof.
  unfold one_value. cbn [glower_rvalue]. use. make atomic_load_built. single; [typed|].
  evaluated. apply evals_one. intros env Hag. eapply eval_cast_is; [eapply evals_call; [econstructor; [|econstructor; [apply evals_const|constructor]]|]|].
  { eapply evals_place_is; [apply places_cast; place_operand|reflexivity]. }
  { apply (gcc_load_halt (ly := ly)). left. }
  simpl. rewrite wrap_sgn. apply wrap_small, (wo_halt _ Hw).
Qed.

Lemma gcc_take_halt_spec outs : one_value KTakeHaltReason outs (TInt W32).
Proof.
  unfold one_value. cbn [glower_rvalue]. use.
  eapply (gives_bind _ _ _ _ (fun r => r = RConst (TyInt false 32) 0)).
  { intros L HL. unfold u32_const. rewrite (go_u32 _ _ (sm_ok _ _ _ HL)). by eexists _, L. }
  intros ? ->. unfold lower_atomic_swap. make atomic_rmw_built. single; [typed|].
  evaluated. apply evals_one. intros env Hag.
  eapply eval_cast_is; [eapply evals_call; [econstructor; [|econstructor; [|econstructor; [apply evals_const|constructor]]]|]|].
  { eapply evals_place_is; [apply places_cast; place_operand|reflexivity]. }
  { eapply eval_cast_is; [apply evals_const|reflexivity]. }
  { apply (gcc_swap_halt (ly := ly)). do 3 right; left. }
  simpl. rewrite wrap_sgn. apply wrap_small, (wo_halt _ Hw).
Qed.
(** What is loaded, in the host's byte order, and turned around. *)
Lemma load_le_split n a z (s s' : World) :
  on_fabric (on_mem (load_le_aligned e n a)) s = Some (z, s') ->
  exists v, on_fabric (on_mem (load_ne_aligned_inner e n a)) s = Some (v, s') /\ z = from_le e n v.
Proof.
  unfold on_fabric, on_machine, on_mem, load_le_aligned, sm_bind, sm_ret.
  destruct (load_ne_aligned_inner e n a (mem (cpu_fabric (machine s)))) as [[v m]|]; [|done]. intros [= <- <-]. by exists v.
Qed.

Lemma loaded_fits w a v (s s' : World) :
  world_ok s -> on_fabric (on_mem (load_ne_aligned_inner e (width_bytes w) a)) s = Some (v, s') -> fits (bits w) v.
Proof.
  intros Hw H. assert (stays world_ok (on_fabric (Error := Error) (on_mem (load_ne_aligned_inner e (width_bytes w) a))) (fun z => fits (bits w) z)) as Hst.
  { apply on_fabric_stays, stays_on_mem. rewrite <- width_bits_of. apply load_aligned_stays. }
  by apply (Hst _ _ _ Hw H).
Qed.

(** Turning the bytes around is the same both ways. *)
Lemma to_le_from_le n z : to_le e n z = from_le e n z.
Proof. by destruct e. Qed.

Lemma bswap_type w r : rv_type r = TyInt false (bits w) -> rv_type (lower_bswap_to_le e w r) = TyInt false (bits w).
Proof. intros H. unfold lower_bswap_to_le, lower_swap_bytes. destruct e; [done|]. by destruct w. Qed.

Lemma bswap_ok w r : rv_type r = TyInt false (bits w) -> rv_ok (vars L0) r -> rv_ok (vars L0) (lower_bswap_to_le e w r).
Proof. intros H Hr. unfold lower_bswap_to_le, lower_swap_bytes. destruct e; [done|]. destruct w; simpl; rewrite ?H; done. Qed.

Lemma bswap_value env w r z (s s' : World) :
  fits (bits w) z -> eval env r s = Some (z, s') -> eval env (lower_bswap_to_le e w r) s = Some (from_le e (width_bytes w) z, s').
Proof.
  intros Hz Hr. unfold lower_bswap_to_le, lower_swap_bytes, from_le. case_match; [done|]. destruct w.
  1: { change (width_bytes W8) with 1%nat. by rewrite (swap_byte z Hz). }
  all: eapply evals_call; [by eapply args_cons; [exact Hr|apply args_nil]|].
  - by apply (gcc_bswap (ly := ly) W16).
  - by apply (gcc_bswap (ly := ly) W32).
  - by apply (gcc_bswap (ly := ly) W64).
Qed.

Lemma gcc_vm_load_spec p o w sc outs :
  vty ir p (THostPtr RVirtualMemory) -> vty ir o (TInt W64) -> one_value (KVMLoadRaw p o w sc) outs (TInt w).
Proof.
  intros Hp Ho. unfold one_value. cbn [glower_rvalue]. use. use. unfold gptr_byte_add.
  eapply gives_bind; [apply ptr_add_built|]. intros ? (elt & -> & Helt). make atomic_load_built.
  assert (load_order (wrap 32 (ordering_value (if sc then SeqCst else Relaxed)))) as Hord by (destruct sc; [by right; right; left|left]).
  set (order := ordering_value _) in *. clearbody order.
  single; [rewrite bswap_type by done; split; [apply bswap_ok; [done|typed]|by left]|].
  evaluated. apply evals_one. intros env Hag. match goal with H : on_fabric _ _ = Some _ |- _ => apply load_le_split in H as (v & Hv & ->) end.
  pose proof (loaded_fits _ _ _ _ _ Hw Hv) as Hf. simpl rep_bits. apply bswap_value; [done|].
  eapply eval_cast_is; [eapply evals_call; [econstructor; [|econstructor; [apply evals_const|constructor]]|]|].
  { eapply evals_place_is; [apply places_cast; eapply places_index; [place_operand|read_operand]|reflexivity]. }
  { simpl flat. rewrite Helt, Z.mul_1_r, (gcc_address_page (ly := ly)). exact (gcc_vm_load (ly := ly) _ _ _ _ _ _ Hord Hv). }
  change (wrap (Ir.bits w) (sgn (8 * bytes w) v) = v). rewrite Z.mul_comm. fold (Ir.bits w). rewrite wrap_sgn. by apply wrap_small.
Qed.
(** ** Overflow *)

Lemma gcc_overflowing_spec op a b w outs :
  vty ir a (TInt w) -> vty ir b (TInt w) ->
  gives L0 (glower_rvalue exec_ir e gcc_helper (KOverflowingBinOp op a b) outs)
    (fun o => exists rs, o = Some rs /\ computes L0 (KOverflowingBinOp op a b) rs [TInt w; TBool]).
Proof.
  intros Ha Hb. cbn [glower_rvalue]. use. use. pose proof (bits_range w) as Hw8.
  eapply (gives_try _ _ _ _ (eq _)).
  { unfold lower_overflowing. width. make builds_sint. make builds_i128. by apply gives_ok. }
  intros ? <-. apply gives_ok. eexists. split; [reflexivity|]. split; [constructor; [|constructor; [|constructor]]; typed|].
  evaluated. match goal with H : eval_overflowing _ _ ?x ?y = _ |- _ =>
    pose proof (wide_value (Ir.bits w) Hw8 op x y) as Hwide; pose proof (truncated_value (Ir.bits w) Hw8 op x y) as Ht;
    pose proof (overflow_value (Ir.bits w) Hw8 op x y) as Ho; rewrite H in Ht, Ho; cbn [fst snd] in Ht, Ho end.
  econstructor; [|apply evals_one]; intros env Hag.
  - simpl rep_bits. rewrite <- Ht by done. eapply eval_cast_is; [|reflexivity]. computed. by apply Hwide.
  - simpl rep_bits. rewrite <- Ho by done. computed; by apply Hwide.
Qed.

(** ** Calls *)

Lemma fn_ptr_built signature d :
  arena_get (signatures ir) signature = Some d -> builds L0 (fn_ptr_type exec_ir signature) (fun t => t = sig_gcc_ty d).
Proof.
  intros Hd. unfold fn_ptr_type. intros L HL. destruct (map_get (gl_sig_types L) signature) as [ty|] eqn:Es.
  { exists ty, L. split_and!; [done..|]. destruct (go_sigs _ _ (sm_ok _ _ _ HL) _ _ Es) as (d' & ? & ?). by simplify_eq. }
  match goal with |- exists a L', ?m L = _ /\ _ => enough (builds L0 m (fun t => t = sig_gcc_ty d)) as H by by apply H end.
  eapply builds_bind; [apply builds_option; by rewrite Hsigs|]. intros ? ->.
  eapply builds_bind with (Q1 := fun t => t = match sig_ret d with Some t => gcc_ty t | None => TyVoid end).
  { destruct (sig_ret d); [apply builds_ty|apply (builds_cached _ _ Cache.void_ty)]. }
  intros ? ->. eapply builds_bind; [apply builds_tys|]. intros ? ->.
  eapply builds_bind with (Q1 := fun _ => True); [|intros _ _; by apply builds_ret].
  intros L1 [[] ? ? ? ? ?]. do 2 eexists. split; [done|]. split; [|done]. split; try done. split; try done.
  intros s ty. cbn [put_sig_types gl_sig_types]. rewrite map_get_insert. case_decide as E; [intros [= <-]; subst; by exists d|by auto].
Qed.

(** A call of a helper, and its arguments. *)
Lemma call_args ρ env vs tys xs ys (s : World) :
  agrees (gl_values L0) ρ env vs -> Forall2 (vty ir) vs tys -> mapM (fun v => ρ !! v) vs = Some xs ->
  length ys = length tys ->
  (forall i v ty y, vs !! i = Some v -> tys !! i = Some ty -> ys !! i = Some y -> holds L0 v ty y) ->
  evals_args env (zip_with (fun y ty => RRead (LVar y (gcc_ty ty))) ys tys) (rep_bits <$> xs) s s.
Proof.
  intros Hag HF Hm%mapM_Some. revert vs xs ys Hag HF Hm. induction tys as [|ty tys IH]; intros vs xs ys Hag HF Hm Hl Hy.
  { destruct ys; [|done]. apply Forall2_nil_inv_r in HF as ->. apply Forall2_nil_inv_l in Hm as ->. constructor. }
  apply Forall2_cons_inv_r in HF as (v & vs' & Hv & HF & ->). apply Forall2_cons_inv_l in Hm as (x & xs' & Hx & Hm & ->).
  destruct ys as [|y ys]; [done|]. simpl. eapply args_cons.
  - eapply operand_read; [by apply (Hy O v ty y)|exact Hag|left|exact Hx|done].
  - eapply IH; [|done|done|by injection Hl|].
    + intros u z y' ty' Hu. apply Hag. by right.
    + intros i v' ty' y'. apply (Hy (S i)).
Qed.
Lemma args_ok vs tys ys :
  length ys = length tys -> Forall2 (vty ir) vs tys ->
  (forall i v ty y, vs !! i = Some v -> tys !! i = Some ty -> ys !! i = Some y -> holds L0 v ty y) ->
  let rs := zip_with (fun y ty => RRead (LVar y (gcc_ty ty))) ys tys in
  foldr (fun a P => rv_ok (vars L0) a /\ P) True rs /\ rv_type <$> rs = gcc_ty <$> tys.
Proof.
  intros Hl HF Hy. revert vs ys HF Hl Hy. induction tys as [|ty tys IH]; intros vs ys HF Hl Hy; [by destruct ys|].
  destruct ys as [|y ys]; [done|]. apply Forall2_cons_inv_r in HF as (v & vs' & _ & HF & ->).
  destruct (IH vs' ys HF) as [H1 H2]; [by injection Hl|intros i v' ty' y'; apply (Hy (S i))|]. simpl. split; [|by f_equal].
  split; [|done]. by apply (Hy O v ty y).
Qed.

(** The call made for a callback. *)
Definition helper_call (func : HostCallback) (d : CallbackSignatureData) (ys : list GccVar) : RValue :=
  RCallPtr (RConst (sig_gcc_ty d) (gcc_helper func)) (zip_with (fun y ty => RRead (LVar y (gcc_ty ty))) ys (sig_args d)).

Lemma helper_call_ok func d vs ys :
  length ys = length (sig_args d) -> Forall2 (vty ir) vs (sig_args d) ->
  (forall i v ty y, vs !! i = Some v -> sig_args d !! i = Some ty -> ys !! i = Some y -> holds L0 v ty y) ->
  rv_ok (vars L0) (helper_call func d ys).
Proof.
  intros Hl HF Hy. destruct (args_ok _ _ _ Hl HF Hy) as [H1 H2]. unfold helper_call. simpl. split_and!; [|exact H1|].
  - right. right. by eexists _, _.
  - rewrite H2. by eexists.
Qed.

Lemma helper_call_value func signature d vs ys ρ env (s s' : World) xs :
  length ys = length (sig_args d) -> Forall2 (vty ir) vs (sig_args d) ->
  (forall i v ty y, vs !! i = Some v -> sig_args d !! i = Some ty -> ys !! i = Some y -> holds L0 v ty y) ->
  callback_fits func signature -> agrees (gl_values L0) ρ env vs ->
  eval_stmt e ly io_mmu ρ (KHostCallback func signature vs) s = Some (xs, s') ->
  exists z, eval env (helper_call func d ys) s = Some (z, s') /\ forall x, xs = [x] -> z = rep_bits x.
Proof.
  intros Hl HF Hy Hcb Hag He. cbn [eval_stmt] in He. unfold sm_bind, sm_of_option in He.
  destruct (mapM (fun v => ρ !! v) vs) as [zs|] eqn:Ez; [|done].
  destruct (gcc_call (ly := ly) func signature zs xs s s' Hcb He) as (z & Hz & Hx). exists z. split; [|done].
  eapply evals_call_ptr; [apply evals_const|by eapply call_args|exact Hz].
Qed.

Lemma callback_value_spec func signature vs d ty outs :
  callback_fits func signature -> arena_get (signatures ir) signature = Some d -> Forall2 (vty ir) vs (sig_args d) ->
  sig_ret d = Some ty -> one_value (KHostCallback func signature vs) outs ty.
Proof.
  intros Hcb Hd HF Hret. unfold one_value. cbn [glower_rvalue].
  eapply (gives_try _ _ _ _ (fun rs => exists ys, rs = [helper_call func d ys] /\ length ys = length (sig_args d) /\
    forall i v ty y, vs !! i = Some v -> sig_args d !! i = Some ty -> ys !! i = Some y -> holds L0 v ty y)).
  { unfold glower_callback. eapply gives_bind; [by apply fn_ptr_built|]. intros ? ->.
    eapply gives_bind; [apply builds_option; by rewrite Hsigs|]. intros ? ->.
    eapply gives_try; [by apply gives_use_values|]. intros ? (ys & -> & Hl & Hy). rewrite Hret. apply gives_ok. by exists ys. }
  intros ? (ys & -> & Hl & Hy). apply gives_ok. eexists. split; [reflexivity|]. split.
  - constructor; [|constructor]. split; [by eapply helper_call_ok|]. left. simpl. unfold sig_gcc_ty. by rewrite Hret.
  - intros ρ s xs s' [Hty Hh Hw Hs] Hpl He.
    assert (exists x, xs = [x]) as [x ->].
    { rewrite Hinit in Hd. pose proof He as He'. cbn [eval_stmt] in He'. unfold sm_bind, sm_of_option in He'.
      destruct (mapM (fun v => ρ !! v) vs) as [zs|]; [|done].
      pose proof (call_helper_shape _ _ _ _ _ _ _ _ _ Hcb Hd He') as HF'. rewrite Hret in HF'.
      apply Forall2_length in HF'. destruct xs as [|x [|? ?]]; try done. by exists x. }
    apply evals_one. intros env Hag.
    destruct (helper_call_value func signature d vs ys ρ env s s' [x] Hl HF Hy Hcb Hag He) as (z & Hz & Hx). by rewrite <- (Hx x).
Qed.

Lemma safepoint_spec outs : gives L0 (glower_rvalue exec_ir e gcc_helper KSafepoint outs) (fun o => exists rs, o = Some rs /\ computes L0 KSafepoint rs []).
Proof. apply gives_ok. eexists. split; [reflexivity|]. split; [constructor|]. intros ρ s xs s' _ _ [= <- <-]. constructor. Qed.

(** ** Statements whose outputs are expressions *)

Definition is_value (rv : StmtKind) : bool :=
  match rv with
  | KSelect _ _ _ | KShiftUnbounded _ _ _ | KStoreHost _ _ _ _ | KVMStoreRaw _ _ _ _ | KSetPageDirtyFlag _ => false
  | KHostCallback func _ _ => match func with CbClrex => false | _ => true end
  | _ => true
  end.

Lemma value_spec rv tys outs :
  stmt_typed ir rv -> gcc_stmt_ok ir rv = true -> type_of rv ir = Some (tys, ir) -> is_value rv = true ->
  gives L0 (glower_rvalue exec_ir e gcc_helper rv outs) (fun o => exists rs, o = Some rs /\ computes L0 rv rs tys).
Proof.
  intros Ht Hok Hty Hv. destruct rv; try done; cbn [stmt_typed gcc_stmt_ok] in *; unfold int_operand in Ht;
    repeat match goal with H : exists _, _ |- _ => destruct H | H : _ /\ _ |- _ => destruct H end;
    rewrite ?andb_true_iff, ?Z.leb_le in Hok; try (apply bool_decide_eq_true in Hok);
    try (eapply type_of_value in Hty; [|eassumption]; subst tys); try (injection Hty as <-).
  all: try first [by apply iconst_spec | by apply arith_spec | by apply neg_spec | by eapply cmp_spec | by eapply cmp_imm_spec
    | by apply bitwise_spec | by apply bitwise_imm_spec | by apply shift_imm_spec | by eapply ptr_eq_spec | by eapply has_tag_spec
    | by eapply untag_spec | by apply gcc_ptr_add_spec | by eapply gcc_load_host_spec | by apply gcc_load_halt_spec | by apply gcc_take_halt_spec
    | by apply gcc_vm_load_spec | by apply safepoint_spec ].
  - assert (tys = [TInt x; TBool]) as ->; [|by apply gcc_overflowing_spec].
    simpl in Hty. unfold sm_bind, ty_of, sm_of_option, sm_ret in Hty. unfold vty in H. rewrite H in Hty. by injection Hty as <-.
  - unfold vty in H0. rewrite H0 in Hok. destruct x as [w| |]; try done. by apply bitnot_spec.
  - unfold vty in *. assert (x0 = x) as <- by congruence. by apply shift_spec.
  - by apply gcc_stack_ptr_spec.
  - simpl in Hty. unfold sm_bind, signature_of, sm_of_option, sm_ret in Hty. rewrite H0 in Hty. injection Hty as <-.
    destruct (callback_returns func signature x) as [ty Hret]; [done|by rewrite <- Hinit|by destruct func|].
    rewrite Hret. by eapply callback_value_spec.
Qed.
End Cases.
End Stmt.
