(* ===== verification/GccEffect.v ===== *)
(** * Statements that act, and conditionals, in C
    ([jit-compiler-core/src/compiler/gcc_backend.rs], [lower_rvalue],
    [lower_ternary], [lower_stmt])

    Stores and calls without a result are recorded as statements; [Select] and
    [ShiftUnbounded] end the block and go on in another.  With the statements whose
    outputs are expressions ([GccStmt]) this gives [lower_stmt]: code that goes from
    where the statement starts to where the next one does. *)

From S2P Require Import Prelude Convert HaltReason MemTypes Fault Memops ObjectQueue Fabric PageTable IoMMU.
From S2P Require Import ExclusiveMonitor LookupCache MemAccess FfiSupport Arena Ir IrSem IrEmit IrLogic IrArith.
From S2P Require Import IrTyping IrBuilt IrBuilder IrRun IrRange.
From S2P Require Import BackEnd.
From S2P Require Import Tarjan SccGraph HaltCheck HaltSplit HaltInv HaltSound BlockOrder Clif CraneliftLower Gcc GccLower GccHost GccCode GccArith GccEmit GccStmt.
Local Open Scope Z_scope.
Local Open Scope emu_scope.

#[local] Arguments exec_gcc_stmt : simpl never.
#[local] Arguments eval_place : simpl never.

Section Effect.
Context {F : Type} `{!GccContext F, !GccContextLaws F}.
Context {Error : Type} {e : Endian} {ly : Layout} {io_mmu : IoMMU} `{!GccHost Error} `{!GccHostLaws e ly io_mmu}.
Context (ir : ExecIrBuilder) (exec_ir : ExecIr).
Context (Hvalues : exec_ssa_values exec_ir = ssa_values ir) (Hsigs : exec_signatures exec_ir = signatures ir)
  (Hinit : signatures ir = initial_signatures).
Context (Hhalt : vty ir ARG_HALT_REASON_PTR (THostPtr RHaltReason)).
Abbreviation Lowering := (@FunctionLowering F).
Abbreviation World := (@World Error).
Abbreviation func L := (gcc_func (gl_ctx L)).
Abbreviation vars L := (gf_vars (gcc_func (gl_ctx L))).
Abbreviation gives := (gives ir).
Abbreviation builds := (builds ir).
Abbreviation same := (same ir).
Abbreviation gcc_ok := (gcc_ok ir).
Abbreviation records := (records ir).
Abbreviation stmt_recorded := (stmt_recorded ir).
Abbreviation end_recorded := (end_recorded ir).
Abbreviation run_ready := (run_ready ir).
Abbreviation lower_rvalue := (glower_rvalue exec_ir e gcc_helper).

(** ** What records *)

Section Leads.
Context (L0 : Lowering).

Definition leads {A} (m : SM Lowering A) (R : A -> Lowering -> Prop) : Prop :=
  forall L, same L0 L -> exists r L', m L = Some (r, L') /\ R r L'.

Lemma leads_ret {A} (a : A) (R : A -> Lowering -> Prop) : (forall L, same L0 L -> R a L) -> leads (sm_ret a) R.
Proof. intros H L HL. exists a, L. auto. Qed.
Lemma leads_bind {A B} (m : SM Lowering A) (k : A -> SM Lowering B) Q R :
  builds L0 m Q -> (forall a, Q a -> leads (k a) R) -> leads (sm_bind m k) R.
Proof. intros Hm Hk L HL. destruct (Hm L HL) as (a & L1 & E & H1 & Ha). rewrite (sm_bind_run _ _ _ _ _ E). by apply Hk. Qed.
Lemma leads_try {A B} (m : SM Lowering (Result A GccError)) (k : A -> SM Lowering (Result B GccError)) Q R :
  gives L0 m Q -> (forall a, Q a -> leads (k a) R) -> leads (sm_try m k) R.
Proof. intros Hm Hk. eapply leads_bind; [exact Hm|]. intros r (a & -> & Ha). by apply Hk. Qed.
(** What follows the recording. *)
Lemma leads_then {A B} (m : SM Lowering A) (b : B) R1 (R : B -> Lowering -> Prop) :
  leads m R1 -> (forall a L, R1 a L -> R b L) -> leads (m ;;! sm_ret b) R.
Proof. intros Hm H L HL. destruct (Hm L HL) as (a & L1 & E & H1). rewrite (sm_bind_run _ _ _ _ _ E). exists b, L1. eauto. Qed.
End Leads.

(** What is recorded after helpers were made is recorded. *)
Lemma recorded_same L0 L b i g L' : same L0 L -> stmt_recorded b i g L L' -> stmt_recorded b i g L0 L'.
Proof.
  intros HL (Hr & Hc & Hh & Hg). split; [|by rewrite <- (sm_current _ _ _ HL)].
  eapply records_trans; [by apply (records_same ir b)|exact Hr|by left].
Qed.

Section Act.
Context (L0 : Lowering) (b : GccBlock) (i : nat) (Hcur : gl_current L0 = Some b) (Hhere : here L0 b i).

Lemma builds_current : builds L0 the_current (fun b' => b' = b).
Proof. intros L HL. unfold the_current, sm_of_option. rewrite (sm_current _ _ _ HL), Hcur. by exists b, L. Qed.

Lemma leads_eval r : rv_ok (vars L0) r -> leads L0 (on_ctx (add_eval b r)) (fun _ L' => stmt_recorded b i (SEval r) L0 L').
Proof.
  intros Hr L HL. destruct (eval_recorded ir b i r L) as (L' & E & H); [apply HL|by eapply same_here|by rewrite (sm_ctx _ _ _ HL)|].
  exists tt, L'. split; [done|]. by eapply recorded_same.
Qed.

Lemma leads_assign l r :
  lv_ok (vars L0) l -> rv_ok (vars L0) r -> assignable (lv_type l) (rv_type r) ->
  leads L0 (on_ctx (add_assignment b l r)) (fun _ L' => stmt_recorded b i (SAssign l r) L0 L').
Proof.
  intros Hl Hr Ha L HL.
  destruct (assign_recorded ir b i l r L) as (L' & E & H); [apply HL|by eapply same_here|by rewrite (sm_ctx _ _ _ HL)..|done|].
  exists tt, L'. split; [done|]. by eapply recorded_same.
Qed.

(** One statement is recorded that does what the IR's does. *)
Definition acts (rv : StmtKind) (outs : list SSAValue) : Prop :=
  leads L0 (lower_rvalue rv outs) (fun r L' => r = Ok (Some []) /\ exists g, stmt_recorded b i g L0 L' /\
    forall ρ env s xs s', run_ready ρ s rv -> placed (gl_slots L0) -> agrees (gl_values L0) ρ env (operands rv) ->
      eval_stmt e ly io_mmu ρ rv s = Some (xs, s') -> xs = [] /\ exec_gcc_stmt g env s = Some (env, s')).

Ltac use := eapply leads_try; [eapply gives_use_value; eassumption|];
  let y := fresh "y" in let Hy := fresh "Hy" in intros ? (y & -> & Hy).
Ltac make lem := eapply leads_bind; [eapply lem|]; intros ? ->.
Ltac evaluated :=
  let He := fresh "He" in
  intros ρ env s xs s' [Hty Hh Hw Hs] Hpl Hag He; cbn [eval_stmt] in He; inv_eval He;
  repeat match goal with
  | H : ρ !! ?v = Some _, H' : vty ir ?v _ |- _ =>
      let E := fresh "E" in pose proof (typed_is _ _ _ _ _ Hty H' H) as E; clear H'
  end.
Ltac read_operand :=
  match goal with H : holds L0 ?v ?ty ?y |- eval _ (RRead (LVar ?y _)) _ = _ =>
    refine (operand_read _ _ _ _ _ _ _ _ _ _ H _ _ _ _); [eassumption|simpl; rewrite ?elem_of_cons; tauto|eassumption|reflexivity]
  end.
Ltac place_operand :=
  match goal with H : holds L0 ?v ?ty ?y |- eval_place _ (RRead (LVar ?y _)) _ = _ =>
    refine (places_operand _ _ _ _ _ _ _ _ _ _ H _ _ _ _); [eassumption|simpl; rewrite ?elem_of_cons; tauto|eassumption|reflexivity]
  end.
Ltac typed := repeat match goal with H : holds L0 _ _ _ |- _ => destruct H as [_ ?] end; simpl; repeat match goal with |- _ /\ _ => split end;
  try first [done | by left | apply cast_int | apply cast_ptr | left; apply int_type | apply int_type | by eexists | right; left; by eexists ].

Lemma store_host_acts p off v can_move r ty outs :
  vty ir p (THostPtr r) -> vty ir v ty -> 0 <= off <= I64_MAX -> acts (KStoreHost p off v can_move) outs.
Proof.
  intros Hp Hv Ho. unfold acts. cbn [glower_rvalue]. use. use. eapply leads_try; [by apply ptr_const_built|]. intros ? (elt & -> & Helt).
  eapply leads_then; [unfold store_ptr; make builds_current; apply leads_assign; [typed..|by left]|].
  intros u0 L' Hr. cbv beta in Hr. clear u0. split; [done|]. eexists. split; [exact Hr|]. evaluated. split; [done|].
  match goal with H : ρ !! v = Some ?x, E : has_type ?x ty |- _ => pose proof (rep_bits_type _ _ E) as Ety end.
  eapply exec_store; [read_operand|apply const_place; [done|done|place_operand]|]. simpl fst. simpl snd. cbn [default].
  cbn [rv_type lv_type]. rewrite <- Ety. destruct u. by apply (gcc_write (ly := ly)).
Qed.

Lemma set_dirty_acts p outs : vty ir p (THostPtr RPageFlags) -> acts (KSetPageDirtyFlag p) outs.
Proof.
  intros Hp. unfold acts. cbn [glower_rvalue]. use.
  eapply (leads_bind _ _ _ (fun r => r = RConst (TyInt false 8) 1)).
  { unfold u8_const. eapply builds_bind; [apply builds_uint|]. intros ? ->. by apply builds_ret. }
  intros ? ->. unfold lower_atomic_fetch_or. make atomic_rmw_built. make builds_current.
  eapply leads_then; [apply leads_eval; typed|]. intros u0 L' Hr. cbv beta in Hr. clear u0. split; [done|]. eexists. split; [exact Hr|].
  evaluated. split; [done|]. destruct u.
  match goal with H : on_fabric (set_page_dirty_flag ?id) _ = _ |- _ =>
    destruct (gcc_set_dirty (ly := ly) id (ordering_value Release) _ _ ltac:(by do 2 right; left) H) as (old & Hold) end.
  eapply exec_eval. eapply eval_cast_is; [|reflexivity].
  eapply evals_call; [econstructor; [|econstructor; [|econstructor; [apply evals_const|constructor]]]|exact Hold].
  { eapply evals_place_is; [apply places_cast; place_operand|reflexivity]. }
  { by eapply eval_cast_is; [apply evals_const|]. }
Qed.

Lemma vm_store_acts p o v w sc outs :
  vty ir p (THostPtr RVirtualMemory) -> vty ir o (TInt W64) -> vty ir v (TInt w) -> acts (KVMStoreRaw p o v sc) outs.
Proof.
  intros Hp Ho Hv. unfold acts. cbn [glower_rvalue].
  eapply leads_bind; [apply builds_option; rewrite Hvalues; exact Hv|]. intros ? ->.
  use. use. use. unfold gptr_byte_add. eapply leads_bind; [apply ptr_add_built|]. intros ? (elt & -> & Helt).
  assert (store_order (wrap 32 (ordering_value (if sc then SeqCst else Relaxed)))) as Hord by (destruct sc; [by right; right; left|left]).
  set (val := lower_bswap_to_le e w (RRead (LVar y1 (gcc_ty (TInt w))))).
  assert (rv_type val = TyInt false (bits w)) as Hvt by by apply bswap_type.
  assert (rv_ok (vars L0) val) as Hvo by (apply bswap_ok; [done|]; typed).
  eapply leads_then.
  { unfold lower_atomic_store. make builds_rmw_ptr.
    eapply (leads_bind _ _ _ (eq _)); [eapply builds_bind; [apply builds_c_int|]; intros ? ->; by apply builds_ret|]. intros ? <-.
    make builds_sint. make builds_current. apply leads_eval.
    assert (rv_ok (vars L0) (RCast val (TyInt true (bits w)))) by (simpl; rewrite Hvt; by split; [|apply cast_int]).
    typed; [rewrite Hvt; apply cast_int|by destruct w]. }
  intros u0 L' Hr. cbv beta in Hr. clear u0. split; [done|]. eexists. split; [exact Hr|].
  assert (forall env z (s : World), fits (bits w) z -> eval env (RRead (LVar y1 (gcc_ty (TInt w)))) s = Some (z, s) ->
    eval env val s = Some (from_le e (width_bytes w) z, s)) as Hval by (intros; by apply bswap_value).
  clearbody val. set (order := ordering_value _) in *. clearbody order.
  evaluated. split; [done|].
  destruct E as [<- E]. destruct u.
  match goal with H : on_fabric _ _ = _ |- _ => unfold store_le_aligned in H; rewrite to_le_from_le in H;
    destruct (gcc_vm_store (ly := ly) width0 _ _ _ _ _ Hord H) as (res & Hres) end.
  assert (fits (Ir.bits width0) (from_le e (width_bytes width0) bits0)) as Hfit by (rewrite <- width_bits_of in *; by apply from_le_fits).
  eapply exec_eval.
  assert (atomic_store_name width0 = atomic_store_n (bytes width0)) as -> by by destruct width0.
  eapply evals_call; [econstructor; [|econstructor; [|econstructor; [apply evals_const|constructor]]]|exact Hres].
  { eapply evals_place_is; [apply places_cast; eapply places_index; [place_operand|read_operand]|].
    simpl flat. by rewrite Helt, Z.mul_1_r, (gcc_address_page (ly := ly)). }
  { eapply eval_cast_is; [apply Hval; [exact E|read_operand]|]. rewrite Hvt. by apply wrap_small. }
Qed.

Lemma clear_acts func signature vs d outs :
  callback_fits func signature -> arena_get (signatures ir) signature = Some d -> Forall2 (vty ir) vs (sig_args d) ->
  sig_ret d = None -> acts (KHostCallback func signature vs) outs.
Proof.
  intros Hcb Hd HF Hret. unfold acts. cbn [glower_rvalue].
  assert (leads L0 (glower_callback exec_ir gcc_helper func signature vs) (fun r L' => r = Ok [] /\ exists ys,
    stmt_recorded b i (SEval (helper_call func d ys)) L0 L' /\ length ys = length (sig_args d) /\
    forall i v ty y, vs !! i = Some v -> sig_args d !! i = Some ty -> ys !! i = Some y -> holds L0 v ty y)) as H.
  { unfold glower_callback. eapply leads_bind; [by apply fn_ptr_built|]. intros ? ->.
    eapply leads_bind; [apply builds_option; by rewrite Hsigs|]. intros ? ->.
    eapply leads_try; [by apply gives_use_values|]. intros ? (ys & -> & Hl & Hy). rewrite Hret. make builds_current.
    eapply leads_then; [apply leads_eval; by eapply helper_call_ok|]. intros ? L' Hr. split; [done|]. exists ys. by split. }
  intros L HL. destruct (H L HL) as (r & L' & E & -> & ys & Hr & Hl & Hy). unfold sm_try. rewrite (sm_bind_run _ _ _ _ _ E).
  eexists _, L'. split; [done|]. split; [done|]. eexists. split; [exact Hr|]. intros ρ env s xs s' _ _ Hag He.
  destruct (helper_call_value ir L0 func signature d vs ys ρ env s s' xs Hl HF Hy Hcb Hag He) as (z & Hz & _).
  split; [|by eapply exec_eval].
  pose proof He as He'. cbn [eval_stmt] in He'. unfold sm_bind, sm_of_option in He'.
  destruct (mapM (fun v => ρ !! v) vs) as [zs|]; [|done]. rewrite Hinit in Hd.
  pose proof (call_helper_shape _ _ _ _ _ _ _ _ _ Hcb Hd He') as HF'. rewrite Hret in HF'. by apply Forall2_nil_inv_r in HF'.
Qed.
End Act.
(** ** Conditionals *)

Lemma here_frame b L L' g i : records b L L' -> g <> b -> here L g i -> here L' g i.
Proof. intros Hr Hg (d & Hd & He & Hi). exists d. split; [|done]. by apply (rc_frame _ _ _ _ Hr). Qed.

Lemma new_before b L L' g : records b L L' -> gf_blocks (func L') !! g = None -> gf_blocks (func L) !! g = None.
Proof.
  intros R Hg. destruct (gf_blocks (func L) !! g) as [d|] eqn:Ed; [|done].
  destruct (gg_blocks _ _ (rc_grows _ _ _ _ R) _ _ Ed) as (? & ? & _). congruence.
Qed.

Lemma here_ne L b g i : here L b i -> gf_blocks (func L) !! g = None -> b <> g.
Proof. intros (d & Hd & _) Hg ->. congruence. Qed.

(** What an ended block is stays. *)
Lemma ended_stays f f' b d : gcc_grows f f' -> gf_blocks f !! b = Some d -> gb_end d <> None -> gf_blocks f' !! b = Some d.
Proof. intros G Hd He. destruct (gg_blocks _ _ G _ _ Hd) as (d' & Hd' & _ & H). by rewrite (H He) in Hd'. Qed.

(** What was recorded stays. *)
Lemma recorded_stays f f' b d i g : gcc_grows f f' -> gf_blocks f !! b = Some d -> gb_stmts d !! i = Some g ->
  exists d', gf_blocks f' !! b = Some d' /\ gb_stmts d' !! i = Some g.
Proof. intros G Hd Hg. destruct (gg_blocks _ _ G _ _ Hd) as (d' & Hd' & Hp & _). exists d'. split; [done|]. by eapply prefix_lookup_Some. Qed.

(** A branch of the conditional: an assignment and a jump. *)
Lemma branch_recorded b0 b x ty r m L :
  gcc_ok L -> here L b 0 -> is_Some (gf_blocks (func L) !! m) -> gf_vars (func L) !! x = Some ty ->
  rv_ok (vars L) r -> assignable ty (rv_type r) ->
  exists L1 L', on_ctx (add_assignment b (LVar x ty) r) L = Some (tt, L1) /\ on_ctx (end_with_jump b m) L1 = Some (tt, L') /\
    records b L L' /\ gl_current L' = gl_current L /\ (b0 <> b -> forall i, here L b0 i -> here L' b0 i) /\
    gf_blocks (func L') !! b = Some (mkGccBlock [SAssign (LVar x ty) r] (Some (EJump m))).
Proof.
  intros Hok Hh Hm Hx Hr Ha.
  destruct (assign_recorded ir b 0 (LVar x ty) r L) as (L1 & E1 & R1 & C1 & H1 & d & Hd & Hg); [done..|].
  destruct (jump_recorded ir b 1 m L1) as (L' & E2 & R2 & C2 & d' & Hd' & Hl & He).
  { apply R1. } { done. }
  { destruct Hm as [dm Hm]. destruct (gg_blocks _ _ (rc_grows _ _ _ _ R1) _ _ Hm) as (d' & ? & _). by eexists. }
  assert (records b L L') as R by (eapply records_trans; [exact R1|exact R2|by left]).
  exists L1, L'. split_and!; [done|done|exact R|congruence|intros; by eapply here_frame|].
  rewrite Hd'. f_equal. destruct d' as [l t]. simpl in *. subst t. f_equal.
  destruct (gg_blocks _ _ (rc_grows _ _ _ _ R2) _ _ Hd) as (d2 & Hd2 & Hp & _). simplify_eq. simpl in Hp.
  destruct l as [|g l]; [done|]. destruct l; [|done]. eapply prefix_lookup_Some in Hp; [|exact Hg]. simpl in Hp. by simplify_eq.
Qed.

Lemma ternary_recorded b i x ty c rt rf L :
  gcc_ok L -> gl_current L = Some b -> here L b i -> vars L !! x = Some ty ->
  rv_ok (vars L) c -> rv_type c = TyBool -> rv_ok (vars L) rt -> rv_ok (vars L) rf -> assignable ty (rv_type rt) -> assignable ty (rv_type rf) ->
  exists m L', lower_ternary (LVar x ty) c rt rf L = Some (tt, L') /\ records b L L' /\ gl_current L' = Some m /\ here L' m 0 /\
    gf_blocks (func L) !! m = None /\
    forall fn, gcc_grows (func L') fn -> forall env (s s' : World) cond z,
      eval env c s = Some (bool_bits cond, s) -> eval env (if cond then rt else rf) s = Some (z, s') ->
      goes fn (mkGPoint b i env s) (mkGPoint m 0 (<[x := z]> env) s').
Proof.
  intros Hok Hcur Hh Hx Hc Hct Ht Hf Hat Haf. unfold lower_ternary. rewrite Hct. rewrite (sm_bind_run _ _ _ tt L eq_refl).
  destruct (block_recorded ir L Hok) as (bt & L1 & E1 & R1 & C1 & N1 & H1). rewrite (sm_bind_run _ _ _ _ _ E1).
  destruct (block_recorded ir L1 (rc_ok _ _ _ _ (R1 b))) as (bf & L2 & E2 & R2 & C2 & N2 & H2). rewrite (sm_bind_run _ _ _ _ _ E2).
  destruct (block_recorded ir L2 (rc_ok _ _ _ _ (R2 b))) as (bm & L3 & E3 & R3 & C3 & N3 & H3). rewrite (sm_bind_run _ _ _ _ _ E3).
  assert (gf_vars (func L3) = gf_vars (func L)) as Ev3
    by (by rewrite (rc_vars _ _ _ _ (R3 b)), (rc_vars _ _ _ _ (R2 b)), (rc_vars _ _ _ _ (R1 b))).
  (* the blocks are different, and open *)
  assert (b <> bt) as Nbt by by eapply here_ne.
  assert (here L1 b i) as Hb1 by (eapply here_frame; [apply (R1 bt)|done|done]).
  assert (bt <> bf) as Ntf by by eapply here_ne. assert (b <> bf) as Nbf by by eapply here_ne.
  assert (here L2 b i) as Hb2 by (eapply here_frame; [apply (R2 bf)|done|done]). assert (here L2 bt 0) as Ht2 by (eapply here_frame; [apply (R2 bf)|done|done]).
  assert (bf <> bm) as Nfm by by eapply here_ne. assert (bt <> bm) as Ntm by by eapply here_ne. assert (b <> bm) as Nbm by by eapply here_ne.
  assert (here L3 b i) as Hb3 by (eapply here_frame; [apply (R3 bm)|done|done]). assert (here L3 bt 0) as Ht3 by (eapply here_frame; [apply (R3 bm)|done|done]).
  assert (here L3 bf 0) as Hf3 by (eapply here_frame; [apply (R3 bm)|done|done]).
  assert (forall g k, here L3 g k -> is_Some (gf_blocks (func L3) !! g)) as Hsome by (intros g k (d & Hd & _); by eexists).
  assert ((the_current : SM Lowering GccBlock) L3 = Some (b, L3)) as Ecur by (unfold the_current, sm_of_option; by rewrite C3, C2, C1, Hcur).
  rewrite (sm_bind_run _ _ _ _ _ Ecur).
  (* the condition ends the block *)
  destruct (conditional_recorded ir b i c bt bf L3) as (L4 & E4 & R4 & C4 & db & Hdb & Hlb & Heb); [apply (R3 b)|done|by eauto..|by rewrite Ev3|done|].
  rewrite (sm_bind_run _ _ _ _ _ E4).
  assert (gf_vars (func L4) = gf_vars (func L)) as Ev4 by (by rewrite (rc_vars _ _ _ _ R4)).
  assert (forall g k, g <> b -> here L3 g k -> here L4 g k) as F4 by (intros; by eapply here_frame).
  assert (forall g k, here L4 g k -> is_Some (gf_blocks (func L4) !! g)) as Hsome4 by (intros g k (d & Hd & _); by eexists).
  destruct (branch_recorded bm bt x ty rt bm L4) as (L5' & L5 & E5' & E5 & R5 & C5 & F5 & B5); [apply R4|by apply F4|by eauto|by rewrite Ev4..|done|].
  rewrite (sm_bind_run _ _ _ _ _ E5'), (sm_bind_run _ _ _ _ _ E5).
  destruct (branch_recorded bm bf x ty rf bm L5) as (L6' & L6 & E6' & E6 & R6 & C6 & F6 & B6);
    [apply R5|by eapply here_frame; [exact R5|done|apply F4]| |rewrite (rc_vars _ _ _ _ R5); by rewrite Ev4..|done|].
  { assert (here L5 bm 0) as (d & Hd & _) by (apply F5; [done|by apply F4]). by eexists. }
  rewrite (sm_bind_run _ _ _ _ _ E6'), (sm_bind_run _ _ _ _ _ E6).
  exists bm, (put_current (Some bm) L6). split; [done|].
  assert (gf_blocks (func L) !! bt = None /\ gf_blocks (func L) !! bf = None /\ gf_blocks (func L) !! bm = None) as (Nt & Nf & Nm).
  { split_and!; [done|by eapply new_before; [apply (R1 b)|]|]. eapply new_before; [apply (R1 b)|]. by eapply new_before; [apply (R2 b)|]. }
  assert (records b L L6) as Rall.
  { eapply records_trans; [|exact R6|by right]. eapply records_trans; [|exact R5|by right].
    eapply records_trans; [|exact R4|by left]. eapply records_trans; [|apply R3|by left]. eapply records_trans; [apply R1|apply R2|by left]. }
  split_and!; [|done| |done|].
  { destruct Rall as [[] ? ? ? ? ? ?]. by split. }
  { destruct (F6 ltac:(done) O) as (d & ?); [apply F5; [done|by apply F4]|]. by exists d. }
  intros fn G env s s' cond z Hcond Hz. change (gcc_grows (func L6) fn) in G.
  assert (gf_blocks fn !! b = Some db) as Kb.
  { eapply ended_stays; [exact G| |by rewrite Heb]. apply (rc_frame _ _ _ _ R6); [|done]. apply (rc_frame _ _ _ _ R5); [done|done]. }
  assert (forall g r, gf_blocks fn !! g = Some (mkGccBlock [SAssign (LVar x ty) r] (Some (EJump bm))) -> eval env r s = Some (z, s') ->
    goes fn (mkGPoint g 0 env s) (mkGPoint bm 0 (<[x := z]> env) s')) as Hbranch.
  { intros g r Hg Hr. etrans; [eapply goes_stmt; [exact Hg|reflexivity|by apply exec_assign]|].
    exists 1%nat. by apply (gcc_run_end fn g (mkGccBlock [SAssign (LVar x ty) r] (Some (EJump bm))) (EJump bm) (<[x := z]> env) s' (goto bm (<[x := z]> env) s')). }
  etrans; [exists 1%nat; rewrite <- Hlb; eapply gcc_run_end; [exact Kb|exact Heb|cbn [exec_end]; rewrite Hcond; reflexivity]|].
  destruct cond; simpl.
  - eapply Hbranch; [|exact Hz]. eapply ended_stays; [exact G| |done]. by apply (rc_frame _ _ _ _ R6).
  - eapply Hbranch; [|exact Hz]. by eapply ended_stays.
Qed.
Section Choose.
Context (L0 : Lowering) (b : GccBlock) (i : nat) (Hcur : gl_current L0 = Some b) (Hhere : here L0 b i).

(** A conditional, after the expressions it uses were made. *)
Lemma leads_ternary x ty c rt rf :
  vars L0 !! x = Some ty -> rv_ok (vars L0) c -> rv_type c = TyBool -> rv_ok (vars L0) rt -> rv_ok (vars L0) rf ->
  assignable ty (rv_type rt) -> assignable ty (rv_type rf) ->
  leads L0 (lower_ternary (LVar x ty) c rt rf) (fun _ L' => exists m, records b L0 L' /\ gl_current L' = Some m /\ here L' m 0 /\
    gf_blocks (func L0) !! m = None /\
    forall fn, gcc_grows (func L') fn -> forall env (s s' : World) cond z,
      eval env c s = Some (bool_bits cond, s) -> eval env (if cond then rt else rf) s = Some (z, s') ->
      goes fn (mkGPoint b i env s) (mkGPoint m 0 (<[x := z]> env) s')).
Proof.
  intros Hx Hc Hct Ht Hf Hat Haf L HL. pose proof (sm_ctx _ _ _ HL) as Ectx.
  destruct (ternary_recorded b i x ty c rt rf L) as (m & L' & E & R & Hm); rewrite ?Ectx; try done; [apply HL|by rewrite (sm_current _ _ _ HL)|by eapply same_here|].
  exists tt, L'. split; [done|]. exists m. rewrite Ectx in Hm. split; [|done].
  eapply records_trans; [by apply (records_same ir b)|exact R|by left].
Qed.

(** The statement ends the block, with its output assigned in another. *)
Definition chooses (rv : StmtKind) (v : SSAValue) (ty : TypeFull) : Prop :=
  leads L0 (lower_rvalue rv [v]) (fun r L' => r = Ok None /\ exists m y, holds L0 v ty y /\ records b L0 L' /\ gl_current L' = Some m /\
    here L' m 0 /\ gf_blocks (func L0) !! m = None /\
    forall fn, gcc_grows (func L') fn -> forall ρ env s xs s',
      run_ready ρ s rv -> agrees (gl_values L0) ρ env (operands rv) -> eval_stmt e ly io_mmu ρ rv s = Some (xs, s') ->
      exists x, xs = [x] /\ goes fn (mkGPoint b i env s) (mkGPoint m 0 (<[y := rep_bits x]> env) s')).

Ltac use := eapply leads_try; [eapply gives_use_value; eassumption|];
  let y := fresh "y" in let Hy := fresh "Hy" in intros ? (y & -> & Hy).
Ltac read_operand :=
  match goal with H : holds L0 ?v ?ty ?y |- eval _ (RRead (LVar ?y _)) _ = _ =>
    refine (operand_read _ _ _ _ _ _ _ _ _ _ H _ _ _ _); [eassumption|simpl; rewrite ?elem_of_cons; tauto|eassumption|reflexivity]
  end.

Lemma select_chooses c t f v ty :
  vty ir c TBool -> vty ir t ty -> vty ir f ty -> vty ir v ty -> chooses (KSelect c t f) v ty.
Proof.
  intros Hc Ht Hf Hv. unfold chooses. cbn [glower_rvalue only_output]. use. use. use.
  eapply leads_bind; [by apply builds_value_at|]. intros ? (x & -> & Hx).
  intros L HL. destruct (leads_ternary x (gcc_ty ty) (RRead (LVar y (gcc_ty TBool))) (RRead (LVar y0 (gcc_ty ty))) (RRead (LVar y1 (gcc_ty ty)))
    (proj2 Hx) (proj2 Hy) eq_refl (proj2 Hy0) (proj2 Hy1) ltac:(by left) ltac:(by left) L HL) as (u & L' & E & m & R & Hm1 & Hm2 & Hm3 & Hgo).
  rewrite (sm_bind_run _ _ _ _ _ E). eexists _, L'. split; [done|]. split; [done|]. exists m, x. split_and!; try done.
  intros fn G ρ env s xs s' [Hty Hh Hw Hs] Hag He. cbn [eval_stmt] in He. inv_eval He.
  all: eexists; split; [done|]; eapply Hgo; [exact G|read_operand|simpl; read_operand].
Qed.

Lemma unbounded_chooses op a n v w wn :
  vty ir a (TInt w) -> vty ir n (TInt wn) -> vty ir v (TInt w) -> chooses (KShiftUnbounded op a n) v (TInt w).
Proof.
  intros Ha Hn Hv. unfold chooses. cbn [glower_rvalue]. use. use. pose proof (bits_range w) as Hw8. pose proof (bits_range wn) as Hwn.
  set (ra := RRead (LVar y (gcc_ty (TInt w)))). set (rn := RRead (LVar y0 (gcc_ty (TInt wn)))).
  assert (leads L0 (lower_shift_unbounded exec_ir op a ra rn [v]) (fun r L' => r = Ok tt /\ exists m x, holds L0 v (TInt w) x /\
    records b L0 L' /\ gl_current L' = Some m /\ here L' m 0 /\ gf_blocks (func L0) !! m = None /\
    forall fn, gcc_grows (func L') fn -> forall env (s : World) za zn, fits (bits w) za -> fits (bits wn) zn ->
      eval env ra s = Some (za, s) -> eval env rn s = Some (zn, s) ->
      goes fn (mkGPoint b i env s) (mkGPoint m 0 (<[x := eval_shift_unbounded (bits w) op za zn]> env) s))) as H.
  { unfold lower_shift_unbounded. eapply leads_try; [by apply gives_width|]. intros ? ->. cbn [only_output].
    eapply leads_bind; [by apply builds_value_at|]. intros ? (x & -> & Hx).
    eapply leads_bind; [apply (shift_built ir L0 op w ra (RCast rn (TyInt false (bits w)))); [done|done|exact (proj2 Hy)|split; [exact (proj2 Hy0)|apply cast_int]]|].
    intros shifted (Hs1 & Hs2 & Hs3).
    eapply (leads_bind _ _ _ (fun r => rv_ok (vars L0) r /\ rv_type r = TyInt false (bits w) /\
      forall env za (s : World), fits (bits w) za -> eval env ra s = Some (za, s) ->
        eval env r s = Some (match op with SignExtendShr => eval_shift (bits w) op za (bits w - 1) | _ => 0 end, s))).
    { destruct op; [|by apply builds_ret; split_and!; [left; apply int_type|done|]..].
      eapply builds_impl; [apply (shift_built ir L0 SignExtendShr w ra); [done|done|exact (proj2 Hy)|left; apply int_type]|].
      intros r (H1 & H2 & H3). split_and!; [done|done|]. intros env za s Hf E. apply H3; [done|lia|done|].
      rewrite evals_const. simpl. rewrite wrap_small; [done|]. by apply width_half; [|lia]. }
    intros over (Ho1 & Ho2 & Ho3).
    intros L HL. destruct (leads_ternary x (gcc_ty (TInt w)) (RCompare CmpLessThan rn (RConst (rv_type rn) (bits w))) shifted over) with (L := L)
      as (u & L' & E & m & R & Hm1 & Hm2 & Hm3 & Hgo); try done; [exact (proj2 Hx)| |by left; rewrite Hs2|by left; rewrite Ho2|].
    { split_and!; [exact (proj2 Hy0)|left; apply int_type|done]. }
    rewrite (sm_bind_run _ _ _ _ _ E). eexists _, L'. split; [done|]. split; [done|]. exists m, x. split_and!; try done.
    intros fn G env s za zn Hza Hzn E1 E2.
    assert (wrap (bits wn) (bits w) = bits w) as Ew.
    { apply wrap_small. unfold fits. assert (2 ^ 8 <= 2 ^ bits wn) by (apply Z.pow_le_mono_r; lia). lia. }
    eapply Hgo; [exact G|eapply (eval_compare_is _ _ _ _ _ _ (bool_bits (zn <? bits w))); [exact E2|apply evals_const|simpl; by rewrite Ew]|].
    unfold eval_shift_unbounded. destruct (Z.ltb_spec zn (bits w)) as [Hlt|Hge].
    - rewrite Z.mod_small by (unfold fits in *; lia). apply Hs3; [done|unfold fits in *; lia|done|].
      eapply eval_cast_is; [exact E2|]. simpl. apply wrap_small. by apply width_half; [|unfold fits in *; lia].
    - rewrite (Ho3 _ _ _ Hza E1). by destruct op. }
  intros L HL. destruct (H L HL) as (r & L' & E & -> & m & x & Hx & R & Hm1 & Hm2 & Hm3 & Hgo). unfold sm_try. rewrite (sm_bind_run _ _ _ _ _ E).
  eexists _, L'. split; [done|]. split; [done|]. exists m, x. split_and!; try done.
  intros fn G ρ env s xs s' [Hty Hh Hw Hs] Hag He. cbn [eval_stmt] in He. inv_eval He.
  match goal with H1 : ρ !! a = Some _, H2 : ρ !! n = Some _ |- _ =>
    pose proof (typed_is _ _ _ _ _ Hty Ha H1) as [? ?]; pose proof (typed_is _ _ _ _ _ Hty Hn H2) as [? ?]; subst end.
  eexists. split; [done|]. eapply Hgo; [exact G|done|done|unfold ra; read_operand|unfold rn; read_operand].
Qed.
End Choose.
(** ** Which statements these are *)

Definition is_choice (rv : StmtKind) : bool := match rv with KSelect _ _ _ | KShiftUnbounded _ _ _ => true | _ => false end.

Lemma act_spec L0 b i rv tys outs :
  gl_current L0 = Some b -> here L0 b i -> stmt_typed ir rv -> gcc_stmt_ok ir rv = true -> type_of rv ir = Some (tys, ir) ->
  is_value rv = false -> is_choice rv = false -> tys = [] /\ acts L0 b i rv outs.
Proof.
  intros Hcur Hh Ht Hok Hty Hv Hc. destruct rv; try done; cbn [stmt_typed gcc_stmt_ok] in *; unfold int_operand in Ht;
    repeat match goal with H : exists _, _ |- _ => destruct H | H : _ /\ _ |- _ => destruct H end;
    rewrite ?andb_true_iff, ?Z.leb_le in Hok; try (injection Hty as <-; split; [done|]).
  - by eapply store_host_acts.
  - destruct func; try done. simpl in Hty. unfold sm_bind, signature_of, sm_of_option, sm_ret in Hty.
    match goal with H : arena_get (signatures ir) _ = Some ?d |- _ =>
      assert (sig_ret d = None) as Hret by (rewrite Hinit in H; simpl in *; subst signature; by injection H as <-); rewrite H in Hty end.
    rewrite Hret in Hty. injection Hty as <-. split; [done|]. by eapply clear_acts.
  - by eapply vm_store_acts.
  - by apply set_dirty_acts.
Qed.

Lemma choice_spec L0 b i rv tys outs :
  gl_current L0 = Some b -> here L0 b i -> stmt_typed ir rv -> type_of rv ir = Some (tys, ir) -> Forall2 (vty ir) outs tys ->
  is_choice rv = true -> exists v ty, outs = [v] /\ chooses L0 b i rv v ty.
Proof.
  intros Hcur Hh Ht Hty Hvs Hc. destruct rv; try done; cbn [stmt_typed] in *; unfold int_operand in Ht;
    repeat match goal with H : exists _, _ |- _ => destruct H | H : _ /\ _ |- _ => destruct H end;
    (eapply type_of_value in Hty; [|eassumption]); subst tys;
    apply Forall2_cons_inv_r in Hvs as (v & vs & Hv & Hvs & ->); apply Forall2_nil_inv_r in Hvs as ->; do 2 eexists; (split; [done|]).
  - by apply select_chooses.
  - by eapply unbounded_chooses.
Qed.
End Effect.
