(* ===== verification/GccFunc.v ===== *)
(** * Translating the statements and blocks of a function to C
    ([jit-compiler-core/src/compiler/gcc_backend.rs], [lower_stmt], [emit_jump],
    [lower_terminator], [lower_blocks])

    What the code of a statement, a jump, a terminator and a block does, said so
    that it stays true as the function grows. *)

From S2P Require Import Prelude Convert HaltReason MemTypes Fault Memops ObjectQueue Fabric PageTable IoMMU.
From S2P Require Import ExclusiveMonitor LookupCache MemAccess FfiSupport Arena Ir IrSem IrEmit IrLogic IrArith.
From S2P Require Import IrTyping IrBuilt IrBuilder IrRun IrRange.
From S2P Require Import BackEnd.
From S2P Require Import Tarjan SccGraph HaltCheck HaltSplit HaltInv HaltSound BlockOrder Clif CraneliftLower Gcc GccLower GccHost GccCode GccArith GccEmit GccStmt GccEffect.
Local Open Scope Z_scope.
Local Open Scope emu_scope.

(** The outputs are assigned one after the other: several are none of the operands. *)
Definition gcc_data_ok (ir : ExecIrBuilder) (d : StmtData) : bool :=
  gcc_stmt_ok ir (rvalue d) &&
  ((length (outputs d) <=? 1)%nat || forallb (fun v => bool_decide (v ∉ operands (rvalue d))) (outputs d)).

Section Func.
Context {F : Type} `{!GccContext F, !GccContextLaws F}.
Context {Error : Type} {e : Endian} {ly : Layout} {io_mmu : IoMMU} `{!GccHost Error} `{!GccHostLaws e ly io_mmu}.
Context (ir : ExecIrBuilder) (exec_ir : ExecIr) (Hco : compilable ir).
Context (Hvalues : exec_ssa_values exec_ir = ssa_values ir) (Hsigs : exec_signatures exec_ir = signatures ir)
  (Hstmts : exec_stmts exec_ir = all_stmts ir) (Hblocks : exec_blocks exec_ir = blocks ir).
Abbreviation Lowering := (@FunctionLowering F).
Abbreviation World := (@World Error).
Abbreviation func L := (gcc_func (gl_ctx L)).
Abbreviation vars L := (gf_vars (gcc_func (gl_ctx L))).
Abbreviation gcc_ok := (gcc_ok ir).
Abbreviation records := (records ir).
Abbreviation run_ready := (run_ready ir).

(** ** Values in variables *)

(** What holds of the values bound, in the IR and in variables. *)
Record matches (vals : ArenaMap LValue) (ρ : Env) (env : GEnv) : Prop := {
  mt_typed : values_typed ir ρ;
  mt_halt : ρ !! ARG_HALT_REASON_PTR = Some (VPtr PHaltReason);
  mt_agrees : forall v x y ty, ρ !! v = Some x -> map_get vals v = Some (LVar y ty) -> env !! y = Some (rep_bits x);
}.

Lemma matches_agrees vals ρ env vs : matches vals ρ env -> agrees vals ρ env vs.
Proof. intros H v x y ty _. by apply H. Qed.

Section Assign.
Context (L : Lowering) (Hok : gcc_ok L).
Abbreviation vals := (gl_values L).

Lemma other_variable v v' y ty y' ty' :
  map_get vals v = Some (LVar y ty) -> map_get vals v' = Some (LVar y' ty') -> v <> v' -> y <> y'.
Proof.
  intros Hv Hv' Hne ->. apply Hne. destruct (go_only _ _ Hok _ _ Hv) as (t & Ht), (go_only _ _ Hok _ _ Hv') as (t' & Ht').
  destruct (go_values _ _ Hok _ _ Ht) as (x & Hx & _), (go_values _ _ Hok _ _ Ht') as (x' & Hx' & _). simplify_eq.
  eapply (go_inj _ _ Hok); [exact Hv|exact Hv'].
Qed.

Definition agrees_all (ρ : Env) (env : GEnv) : Prop :=
  forall v x y ty, ρ !! v = Some x -> map_get vals v = Some (LVar y ty) -> env !! y = Some (rep_bits x).

(** A value is bound, and its variable assigned. *)
Lemma agrees_bind v y ty x (ρ : Env) env :
  map_get vals v = Some (LVar y ty) -> agrees_all ρ env -> agrees_all (<[v := x]> ρ) (<[y := rep_bits x]> env).
Proof.
  intros Hv H v' x' y' ty' Hx Hv'. destruct (decide (v' = v)) as [->|Hne].
  - rewrite lookup_insert_eq in Hx. simplify_eq. by rewrite lookup_insert_eq.
  - rewrite lookup_insert_ne in Hx by done. rewrite lookup_insert_ne; [by eapply H|].
    by eapply other_variable; [exact Hv|exact Hv'|].
Qed.

(** Operands that are not assigned keep their values. *)
Lemma agrees_kept v y ty z (ρ : Env) env vs :
  map_get vals v = Some (LVar y ty) -> v ∉ vs -> agrees vals ρ env vs -> agrees vals ρ (<[y := z]> env) vs.
Proof.
  intros Hv Hn H v' x' y' ty' Hin Hx Hv'. rewrite lookup_insert_ne; [by eapply H|].
  eapply other_variable; [exact Hv|exact Hv'|]. by intros ->.
Qed.
End Assign.

Lemma agrees_all_same L L' ρ env : gl_values L' = gl_values L -> agrees_all L ρ env -> agrees_all L' ρ env.
Proof. unfold agrees_all. by intros ->. Qed.

(** ** [lower_stmt] *)

Lemma assign_outputs_spec L b i outs tys rs :
  gcc_ok L -> here L b i -> Forall2 (vty ir) outs tys ->
  Forall2 (fun r ty => rv_ok (vars L) r /\ assignable (gcc_ty ty) (rv_type r)) rs tys ->
  exists L', assign_outputs b outs rs L = Some (tt, L') /\ records b L L' /\ gl_current L' = gl_current L /\
    here L' b (i + length outs) /\
    forall fn, gcc_grows (func L') fn -> forall ρ0 ops ρ ρ' env xs (s s' : World),
      ((length outs <= 1)%nat \/ forall v, v ∈ outs -> v ∉ ops) ->
      agrees (gl_values L) ρ0 env ops -> agrees_all L ρ env ->
      evals_all (fun env => agrees (gl_values L) ρ0 env ops) rs xs s s' -> bind_values outs xs ρ = Some ρ' ->
      exists env', goes fn (mkGPoint b i env s) (mkGPoint b (i + length outs) env' s') /\ agrees_all L ρ' env'.
Proof.
  intros Hok Hh HF. revert L i rs Hok Hh. induction HF as [|v ty outs tys Hv HF IH]; intros L i rs Hok Hh Hrs.
  - apply Forall2_nil_inv_r in Hrs as ->. exists L. rewrite Nat.add_0_r. split_and!; try done.
    intros fn G ρ0 ops ρ ρ' env xs s s' _ _ Ha He Hb. inversion He; subst. injection Hb as <-. by exists env.
  - apply Forall2_cons_inv_r in Hrs as (r & rs' & [Hr Ha] & Hrs & ->). cbn [assign_outputs].
    destruct (go_values _ _ Hok _ _ Hv) as (y & Hy & Hvar).
    assert (value_at v L = Some (LVar y (gcc_ty ty), L)) as Ev by (unfold value_at, sm_of_option; by rewrite Hy).
    rewrite (sm_bind_run _ _ _ _ _ Ev).
    destruct (assign_recorded ir b i (LVar y (gcc_ty ty)) r L Hok Hh Hvar Hr Ha) as (L1 & E1 & R1 & C1 & H1 & d & Hd & Hg).
    rewrite (sm_bind_run _ _ _ _ _ E1).
    destruct (IH L1 (S i) rs') as (L' & E2 & R2 & C2 & H2 & Hrun); [apply R1|done|by rewrite (rc_vars _ _ _ _ R1)|].
    exists L'. split; [done|]. split; [by eapply records_trans; [exact R1|exact R2|left]|]. split; [congruence|].
    simpl. rewrite Nat.add_succ_r. split; [done|].
    intros fn G ρ0 ops ρ ρ' env xs s s' Hout Hops Hall He Hb. inversion He as [|? ? x xs' ? s1 ? Hx Hxs]; subst.
    destruct (recorded_stays _ _ _ _ _ _ (PreOrder_Transitive _ _ _ (rc_grows _ _ _ _ R2) G) Hd Hg) as (d' & Hd' & Hg').
    pose proof (agrees_bind L Hok v y (gcc_ty ty) x ρ env Hy Hall) as Hall1.
    assert (exists env', goes fn (mkGPoint b (S i) (<[y := rep_bits x]> env) s1) (mkGPoint b (S i + length outs) env' s') /\ agrees_all L1 ρ' env') as (env' & Hgo & Ha').
    { destruct outs as [|v' outs].
      - inversion Hxs; subst; [|by apply Forall2_nil_inv_l in HF as ->; apply Forall2_nil_inv_r in Hrs].
        injection Hb as <-. exists (<[y := rep_bits x]> env). rewrite Nat.add_0_r. split; [done|].
        eapply agrees_all_same; [apply R1|done].
      - assert (forall u, u ∈ v :: v' :: outs -> u ∉ ops) as Hn by (destruct Hout as [Hout|]; [simpl in Hout; lia|done]).
        eapply (Hrun fn G ρ0 ops (<[v := x]> ρ)); [right; intros u Hu; apply Hn; by right| | | |exact Hb].
        + rewrite (rc_values _ _ _ _ R1). eapply agrees_kept; [done|exact Hy|apply Hn; by left|done].
        + eapply agrees_all_same; [apply R1|done].
        + by rewrite (rc_values _ _ _ _ R1). }
    exists env'. split; [|eapply agrees_all_same; [symmetry; apply R1|done]].
    etrans; [eapply goes_stmt; [exact Hd'|exact Hg'|apply exec_assign, Hx, Hops]|exact Hgo].
Qed.
(** What running a statement keeps. *)
Lemma exec_keeps x d (ρ ρ' : Env) (s s' : World) :
  arena_get (all_stmts ir) x = Some d -> values_typed ir ρ -> world_ok s -> exec_stmt e ly io_mmu d ρ s = Some (ρ', s') ->
  values_typed ir ρ' /\ world_ok s'.
Proof.
  intros Hd [Ht Hr]%values_typed_split Hw He. pose proof (co_stmts _ Hco _ _ Hd) as Hst.
  destruct (exec_stmt_range _ _ _ _ _ _ _ _ _ Ht Hr Hst Hw He) as [Hr' Hw']. split; [|done]. apply values_typed_split. split; [|done].
  eapply exec_stmt_typed; [apply Hco|exact Ht|exact Hst|exact He].
Qed.

Lemma halt_bound x d (ρ ρ' : Env) (s s' : World) :
  arena_get (all_stmts ir) x = Some d -> exec_stmt e ly io_mmu d ρ s = Some (ρ', s') ->
  ρ' !! ARG_HALT_REASON_PTR = ρ !! ARG_HALT_REASON_PTR.
Proof.
  intros Hd He. unfold exec_stmt, sm_bind, sm_of_option in He.
  destruct (eval_stmt e ly io_mmu ρ (rvalue d) s) as [[xs s1]|]; [|done].
  destruct (bind_values (outputs d) xs ρ) as [ρ1|] eqn:Eb; [|done]. injection He as <- <-.
  destruct (bind_values_lookup _ _ _ _ Eb (outputs_nodup _ _ _ Hco Hd)) as (_ & Hold & _). apply Hold. by eapply halt_not_output.
Qed.

(** A place in the code: a block and a position in it. *)
Abbreviation Pos := (GccBlock * nat)%type.
Definition at_pos (p : Pos) (env : GEnv) (s : World) : GPoint (S := World) := mkGPoint (fst p) (snd p) env s.

(** From [p] the code does what the statement does and is at [q]. *)
Definition stmt_sim (vals : ArenaMap LValue) (slots : ArenaMap LValue) (fn : GccFunc) (d : StmtData) (p q : Pos) : Prop :=
  forall fn', gcc_grows fn fn' -> placed slots -> forall ρ env s ρ' s', matches vals ρ env -> world_ok s -> shift_ok ρ (rvalue d) ->
    exec_stmt e ly io_mmu d ρ s = Some (ρ', s') ->
    exists env', goes fn' (at_pos p env s) (at_pos q env' s') /\ matches vals ρ' env'.

Definition now (L : Lowering) (p : Pos) : Prop := gl_current L = Some (fst p) /\ here L (fst p) (snd p).

(** What is left to show of a statement: that its outputs are assigned. *)
Lemma stmt_sim_intro vals slots fn x d p q :
  arena_get (all_stmts ir) x = Some d ->
  (forall fn', gcc_grows fn fn' -> placed slots -> forall ρ env s xs s' ρ', run_ready ρ s (rvalue d) -> matches vals ρ env ->
    eval_stmt e ly io_mmu ρ (rvalue d) s = Some (xs, s') -> bind_values (outputs d) xs ρ = Some ρ' ->
    exists env', goes fn' (at_pos p env s) (at_pos q env' s') /\
      forall v x y ty, ρ' !! v = Some x -> map_get vals v = Some (LVar y ty) -> env' !! y = Some (rep_bits x)) ->
  stmt_sim vals slots fn d p q.
Proof.
  intros Hd H fn' G Hpl ρ env s ρ' s' Hm Hw Hs He. destruct (exec_keeps _ _ _ _ _ _ Hd (mt_typed _ _ _ Hm) Hw He) as [Hty' Hw'].
  pose proof (halt_bound _ _ _ _ _ _ Hd He) as Hh. rewrite (mt_halt _ _ _ Hm) in Hh.
  unfold exec_stmt, sm_bind, sm_of_option in He.
  destruct (eval_stmt e ly io_mmu ρ (rvalue d) s) as [[xs s1]|] eqn:Ee; [|done].
  destruct (bind_values (outputs d) xs ρ) as [ρ1|] eqn:Eb; [|done]. injection He as <- <-.
  destruct (H fn' G Hpl ρ env s xs s1 ρ1) as (env' & Hgo & Ha); [by split; try apply Hm|done..|].
  exists env'. split; [done|]. by split.
Qed.

(** The statement is translated, and its code does what it does. *)
Definition lowered_stmt (L : Lowering) (d : StmtData) (b : GccBlock) (i : nat) : Prop :=
  exists L' q, glower_stmt exec_ir e gcc_helper d L = Some (Ok tt, L') /\ records b L L' /\ now L' q /\
    (fst q = b \/ gf_blocks (func L) !! fst q = None) /\ stmt_sim (gl_values L) (gl_slots L) (func L') d (b, i) q.

Section Lowered.
Context (L : Lowering) (x : Stmt) (d : StmtData) (b : GccBlock) (i : nat) (tys : list TypeFull).
Context (Hok : gcc_ok L) (Hnow : now L (b, i)) (Hd : arena_get (all_stmts ir) x = Some d) (Hdata : gcc_data_ok ir d = true).
Context (Ht : stmt_typed ir (rvalue d)) (Hty : type_of (rvalue d) ir = Some (tys, ir)) (Hvs : Forall2 (vty ir) (outputs d) tys).

Lemma data_ok_outputs : (length (outputs d) <= 1)%nat \/ forall v, v ∈ outputs d -> v ∉ operands (rvalue d).
Proof.
  apply andb_true_iff in Hdata as [_ Hout]. apply orb_true_iff in Hout as [H%Nat.leb_le|H]; [by left|right].
  rewrite forallb_forall in H. intros v Hv. by eapply bool_decide_eq_true_1, H, list_elem_of_In.
Qed.

Lemma data_ok_stmt : gcc_stmt_ok ir (rvalue d) = true.
Proof. by apply andb_true_iff in Hdata as [? _]. Qed.

Lemma value_lowered : is_value (rvalue d) = true -> lowered_stmt L d b i.
Proof.
  intros Ev. pose proof Hnow as [Hcur Hh]. pose proof (same_refl _ _ Hok) as HL. pose proof data_ok_stmt as Hst. unfold lowered_stmt, glower_stmt.
  destruct (value_spec ir exec_ir Hvalues Hsigs (co_signatures _ Hco) (compilable_halt _ Hco) L (rvalue d) tys (outputs d) Ht Hst Hty Ev L HL)
    as (r & L1 & E & H1 & o & -> & rs & -> & [Hrs Hrun]).
  unfold sm_try. rewrite (sm_bind_run _ _ _ _ _ E).
  assert (length (outputs d) = length rs) as Hlen by (etrans; [by eapply Forall2_length|]; symmetry; by eapply Forall2_length).
  rewrite Hlen, Nat.eqb_refl. unfold gensure, gok at 1. unfold sm_bind at 1, sm_ret at 1.
  assert (the_current L1 = Some (b, L1)) as Ecur by (unfold the_current, sm_of_option; by rewrite (sm_current _ _ _ H1), Hcur).
  rewrite (sm_bind_run _ _ _ _ _ Ecur).
  destruct (assign_outputs_spec L1 b i (outputs d) tys rs) as (L' & E2 & R2 & C2 & H2 & Hgo);
    [apply H1|by eapply same_here|done|by rewrite (sm_ctx _ _ _ H1)|].
  rewrite (sm_bind_run _ _ _ _ _ E2). exists L', (b, (i + length (outputs d))%nat). split; [done|].
  split; [eapply records_trans; [by apply (records_same ir b)|exact R2|by left]|]. split; [split; [by rewrite C2, (sm_current _ _ _ H1)|done]|].
  split; [by left|]. apply (stmt_sim_intro _ _ _ x); [done|]. intros fn' G Hpl ρ env s xs s' ρ' Hready Hm He Hb.
  specialize (Hrun ρ s xs s' Hready Hpl He).
  destruct (Hgo fn' G ρ (operands (rvalue d)) ρ ρ' env xs s s' data_ok_outputs) as (env' & Hg & Ha); rewrite ?(sm_values _ _ _ H1); try done.
  { by apply matches_agrees. }
  { intros v x' y ty Hx Hy. rewrite (sm_values _ _ _ H1) in Hy. by eapply (mt_agrees _ _ _ Hm). }
  exists env'. split; [exact Hg|]. intros v x' y ty Hx Hy. eapply Ha; [exact Hx|]. by rewrite (sm_values _ _ _ H1).
Qed.

Lemma act_lowered : is_value (rvalue d) = false -> is_choice (rvalue d) = false -> lowered_stmt L d b i.
Proof.
  intros Ev Ec. pose proof Hnow as [Hcur Hh]. pose proof (same_refl _ _ Hok) as HL. unfold lowered_stmt, glower_stmt.
  destruct (act_spec ir exec_ir Hvalues Hsigs (co_signatures _ Hco) (compilable_halt _ Hco) L b i (rvalue d) tys (outputs d) Hcur Hh Ht data_ok_stmt Hty Ev Ec) as [Etys Hact].
  destruct (Hact L HL) as (r & L' & E & -> & g & (R & C & Hh' & db & Hdb & Hg) & Hrun).
  pose proof Hvs as Hvs'. rewrite Etys in Hvs'. apply Forall2_nil_inv_r in Hvs' as Eouts.
  unfold sm_try. rewrite (sm_bind_run _ _ _ _ _ E), Eouts. cbn [length Nat.eqb gensure]. unfold gok at 1. unfold sm_bind at 1, sm_ret at 1.
  assert (the_current L' = Some (b, L')) as Ecur by (unfold the_current, sm_of_option; by rewrite C, Hcur).
  rewrite (sm_bind_run _ _ _ _ _ Ecur). exists L', (b, S i). split; [done|]. split; [done|]. split; [split; [by rewrite C|done]|]. split; [by left|].
  apply (stmt_sim_intro _ _ _ x); [done|]. intros fn' G Hpl ρ env s xs s' ρ' Hready Hm He Hb.
  destruct (Hrun ρ env s xs s' Hready Hpl (matches_agrees _ _ _ _ Hm) He) as [-> Hex]. rewrite Eouts in Hb. injection Hb as <-.
  destruct (recorded_stays _ _ _ _ _ _ G Hdb Hg) as (d' & Hd' & Hg'). exists env. split; [by eapply goes_stmt|exact (mt_agrees _ _ _ Hm)].
Qed.

Lemma choice_lowered : is_choice (rvalue d) = true -> lowered_stmt L d b i.
Proof.
  intros Ec. pose proof Hnow as [Hcur Hh]. pose proof (same_refl _ _ Hok) as HL. unfold lowered_stmt, glower_stmt.
  destruct (choice_spec (Error := Error) (e := e) (ly := ly) (io_mmu := io_mmu) ir exec_ir Hvalues L b i (rvalue d) tys (outputs d) Hcur Hh Ht Hty Hvs Ec) as (v & ty & Eouts & Hch).
  rewrite Eouts. destruct (Hch L HL) as (r & L' & E & -> & m & y & Hy & R & C & Hm0 & Hnew & Hgo).
  unfold sm_try. rewrite (sm_bind_run _ _ _ _ _ E). exists L', (m, O). split; [done|]. split; [done|]. split; [done|]. split; [by right|].
  apply (stmt_sim_intro _ _ _ x); [done|]. intros fn' G Hpl ρ env s xs s' ρ' Hready Hm He Hb.
  destruct (Hgo fn' G ρ env s xs s' Hready (matches_agrees _ _ _ _ Hm) He) as (z & -> & Hg). rewrite Eouts in Hb. injection Hb as <-.
  eexists. split; [exact Hg|]. apply (agrees_bind L Hok v y (gcc_ty ty)); [apply Hy|exact (mt_agrees _ _ _ Hm)].
Qed.
End Lowered.

Lemma gcc_lower_stmt_spec L x d b i :
  gcc_ok L -> now L (b, i) -> arena_get (all_stmts ir) x = Some d -> gcc_data_ok ir d = true -> lowered_stmt L d b i.
Proof.
  intros Hok Hnow Hd Hdata. destruct (co_stmts _ Hco _ _ Hd) as (Ht & tys & Hty & Hvs).
  destruct (is_value (rvalue d)) eqn:Ev; [by eapply value_lowered|]. destruct (is_choice (rvalue d)) eqn:Ec; [by eapply choice_lowered|by eapply act_lowered].
Qed.
End Func.
