(* ===== verification/GccBlocks.v ===== *)
(** * Translating the blocks of a function to C
    ([jit-compiler-core/src/compiler/gcc_backend.rs], [emit_jump],
    [lower_terminator], [lower_blocks])

    libgccjit has no block parameters: a jump assigns the variables of the target's
    parameters, one after the other.  That is the simultaneous binding of the IR if
    no argument is a parameter assigned before it. *)

From S2P Require Import Prelude Convert HaltReason MemTypes Fault Memops ObjectQueue Fabric PageTable IoMMU.
From S2P Require Import ExclusiveMonitor LookupCache MemAccess FfiSupport Arena Ir IrSem IrEmit IrLogic IrArith.
From S2P Require Import IrTyping IrBuilt IrBuilder IrRun IrRange.
From S2P Require Import BackEnd.
From S2P Require Import Tarjan SccGraph HaltCheck HaltSplit HaltInv HaltSound BlockOrder Clif CraneliftLower Gcc GccLower GccHost GccCode GccArith GccEmit GccStmt GccEffect GccFunc.
Local Open Scope Z_scope.
Local Open Scope emu_scope.

(** No argument is a parameter that was assigned before, but to itself. *)
Fixpoint assigned_apart (l : list (SSAValue * SSAValue)) : bool :=
  match l with
  | [] => true
  | (arg, param) :: l => (bool_decide (arg = param) || bool_decide (param ∉ fst <$> l)) && assigned_apart l
  end.

Definition jump_apart (ir : ExecIrBuilder) (j : Jump) : bool :=
  match arena_get (blocks ir) (jump_target j) with
  | Some d => assigned_apart (zip (jump_parameters j) (parameters d))
  | None => false
  end.

Definition gcc_term_ok (ir : ExecIrBuilder) (t : Terminator) : bool :=
  forallb (jump_apart ir) (targets t) &&
  match kind t with TkReturnCode v => bool_decide (arena_get (ssa_values ir) v = Some (TInt W32)) | _ => true end.

(** Slots have a size, and there are no more slots and values than handles. *)
Definition gcc_sizes_ok (ir : ExecIrBuilder) : bool :=
  forallb slot_ok (stack_slots ir) && forallb (fun d => 0 <=? slot_size d) (stack_slots ir) &&
  (Z.of_nat (length (stack_slots ir)) <=? HANDLE_MAX) && (Z.of_nat (length (ssa_values ir)) <=? HANDLE_MAX).

(** The functions the theorems are about. *)
Definition gcc_fn_ok (ir : ExecIrBuilder) : bool :=
  forallb (gcc_data_ok ir) (all_stmts ir) && forallb (fun d => gcc_term_ok ir (terminator d)) (blocks ir) && gcc_sizes_ok ir.

Section Blocks.
Context {F : Type} `{!GccContext F, !GccContextLaws F}.
Context {Error : Type} {e : Endian} {ly : Layout} {io_mmu : IoMMU} `{!GccHost Error} `{!GccHostLaws e ly io_mmu}.
Context (ir : ExecIrBuilder) (exec_ir : ExecIr) (Hco : compilable ir) (Hfn : gcc_fn_ok ir = true).
Context (Hvalues : exec_ssa_values exec_ir = ssa_values ir) (Hsigs : exec_signatures exec_ir = signatures ir)
  (Hstmts : exec_stmts exec_ir = all_stmts ir) (Hblocks : exec_blocks exec_ir = blocks ir).
Abbreviation Lowering := (@FunctionLowering F).
Abbreviation World := (@World Error).
Abbreviation func L := (gcc_func (gl_ctx L)).
Abbreviation vars L := (gf_vars (gcc_func (gl_ctx L))).
Abbreviation B L := (map_get (gl_blocks L)).
Abbreviation gcc_ok := (gcc_ok ir).
Abbreviation records := (records ir).
Abbreviation matches := (matches ir).
Abbreviation Pos := (GccBlock * nat)%type.

(** ** Statements in sequence *)

Inductive stmts_sim (vals slots : ArenaMap LValue) (fn : GccFunc) : list Stmt -> Pos -> Pos -> Prop :=
  | sims_nil p : stmts_sim vals slots fn [] p p
  | sims_cons x d l p p' q : arena_get (all_stmts ir) x = Some d -> stmt_sim (e := e) (ly := ly) (io_mmu := io_mmu) ir vals slots fn d p p' ->
      stmts_sim vals slots fn l p' q -> stmts_sim vals slots fn (x :: l) p q.

Lemma stmts_sim_grows vals slots fn fn' l p q : gcc_grows fn fn' -> stmts_sim vals slots fn l p q -> stmts_sim vals slots fn' l p q.
Proof.
  intros G. induction 1 as [|x d l p p' q Hd Hs _ IH]; [constructor|]. econstructor; [done| |exact IH].
  intros fn2 G2. apply Hs. by etrans.
Qed.

Lemma gcc_lower_stmts_spec l L p :
  gcc_ok L -> now L p -> (forall x, x ∈ l -> is_Some (arena_get (all_stmts ir) x)) ->
  exists L' q, glower_stmts exec_ir e gcc_helper l L = Some (Ok tt, L') /\ records (fst p) L L' /\ now L' q /\
    (fst q = fst p \/ gf_blocks (func L) !! fst q = None) /\ stmts_sim (gl_values L) (gl_slots L) (func L') l p q.
Proof.
  revert L p. induction l as [|x l IH]; intros L p Hok Hnow Hl.
  { exists L, p. split; [done|]. split; [by apply records_same, same_refl|]. split; [done|]. split; [by left|constructor]. }
  destruct (Hl x ltac:(by left)) as [d Hd].
  assert (gcc_data_ok ir d = true) as Hdata.
  { unfold gcc_fn_ok in Hfn. rewrite !andb_true_iff in Hfn. destruct Hfn as [[H _] _]. exact (forallb_arena _ _ _ _ H Hd). }
  destruct p as [b i].
  destruct (gcc_lower_stmt_spec (e := e) (ly := ly) (io_mmu := io_mmu) ir exec_ir Hco Hvalues Hsigs L x d b i Hok Hnow Hd Hdata)
    as (L1 & p1 & E1 & R1 & N1 & B1 & S1).
  destruct (IH L1 p1) as (L2 & q & E2 & R2 & N2 & B2 & S2); [apply R1|done|intros y Hy; apply Hl; by right|].
  exists L2, q. cbn [glower_stmts].
  assert (sm_of_option (arena_get (exec_stmts exec_ir) x) L = Some (d, L)) as E0 by (unfold sm_of_option; by rewrite Hstmts, Hd).
  rewrite (sm_bind_run _ _ _ _ _ E0). unfold sm_try. rewrite (sm_bind_run _ _ _ _ _ E1). split; [done|].
  split; [by eapply records_trans|]. split; [done|]. split.
  { destruct B2 as [->|B2]; [done|]. right. by eapply new_before. }
  econstructor; [exact Hd| |rewrite <- (rc_values _ _ _ _ R1), <- (rc_slots _ _ _ _ R1); exact S2].
  intros fn' G. apply S1. etrans; [apply R2|exact G].
Qed.
(** ** Jumps *)

(** What assigning one after the other binds. *)
Fixpoint assign_in_order (l : list (SSAValue * SSAValue)) (ρ : Env) : option Env :=
  match l with
  | [] => Some ρ
  | (arg, param) :: l => x ← ρ !! arg; assign_in_order l (<[param := x]> ρ)
  end.

Lemma in_order_apart l (ρ0 ρ ρ' : Env) xs :
  assigned_apart l = true -> Forall2 (fun v x => ρ0 !! v = Some x) l.*1 xs -> (forall v, v ∈ l.*1 -> ρ !! v = ρ0 !! v) ->
  bind_values l.*2 xs ρ = Some ρ' -> assign_in_order l ρ = Some ρ'.
Proof.
  revert ρ xs. induction l as [|[a p] l IH]; intros ρ xs Hap Hxs Hρ Hb.
  { apply Forall2_nil_inv_l in Hxs as ->. done. }
  apply andb_true_iff in Hap as [Hap Hapart]. apply Forall2_cons_inv_l in Hxs as (x & xs' & Hx & Hxs & ->).
  simpl in *. rewrite (Hρ a ltac:(by left)), Hx. cbn [mbind option_bind]. eapply IH; [done|exact Hxs| |exact Hb].
  intros v Hv. apply orb_true_iff in Hap as [->%bool_decide_eq_true|Hap%bool_decide_eq_true].
  - destruct (decide (v = p)) as [->|Hne]; [by rewrite lookup_insert_eq|]. rewrite lookup_insert_ne by done. apply Hρ. by right.
  - rewrite lookup_insert_ne; [apply Hρ; by right|]. by intros ->.
Qed.

Lemma assign_params_spec b l L i :
  gcc_ok L -> here L b i -> Forall (fun ap => exists ty, vty ir ap.1 ty /\ vty ir ap.2 ty) l ->
  exists L', assign_params b l L = Some (Ok tt, L') /\ records b L L' /\ gl_current L' = gl_current L /\ here L' b (i + length l) /\
    forall fn, gcc_grows (func L') fn -> forall ρ ρ' env (s : World), agrees_all L ρ env -> assign_in_order l ρ = Some ρ' ->
      exists env', goes fn (mkGPoint b i env s) (mkGPoint b (i + length l) env' s) /\ agrees_all L ρ' env'.
Proof.
  intros Hok Hh Hl. revert L i Hok Hh. induction Hl as [|[a p] l (ty & Ha & Hp) _ IH]; intros L i Hok Hh.
  { exists L. simpl. rewrite Nat.add_0_r. split; [done|]. split; [by apply records_same, same_refl|]. split; [done|]. split; [done|].
    intros fn G ρ ρ' env s Hall [= <-]. by exists env. }
  simpl in Ha, Hp. cbn [assign_params].
  destruct (go_values _ _ Hok _ _ Ha) as (ya & Hya & Hva), (go_values _ _ Hok _ _ Hp) as (y & Hy & Hv).
  assert (guse_value a L = Some (Ok (RRead (LVar ya (gcc_ty ty))), L)) as Ea by (unfold guse_value; by rewrite Hya).
  unfold sm_try at 1. rewrite (sm_bind_run _ _ _ _ _ Ea).
  assert (value_at p L = Some (LVar y (gcc_ty ty), L)) as Ep by (unfold value_at, sm_of_option; by rewrite Hy).
  rewrite (sm_bind_run _ _ _ _ _ Ep).
  destruct (assign_recorded ir b i (LVar y (gcc_ty ty)) (RRead (LVar ya (gcc_ty ty))) L Hok Hh Hv Hva ltac:(by left))
    as (L1 & E1 & R1 & C1 & H1 & d & Hd & Hg).
  rewrite (sm_bind_run _ _ _ _ _ E1). destruct (IH L1 (S i)) as (L' & E2 & R2 & C2 & H2 & Hrun); [apply R1|done|].
  exists L'. split; [done|]. split; [by eapply records_trans; [exact R1|exact R2|left]|]. split; [congruence|]. simpl. rewrite Nat.add_succ_r. split; [done|].
  intros fn G ρ ρ' env s Hall Hb. destruct (ρ !! a) as [x|] eqn:Hx; [|done]. cbn [mbind option_bind] in Hb.
  destruct (recorded_stays _ _ _ _ _ _ (PreOrder_Transitive _ _ _ (rc_grows _ _ _ _ R2) G) Hd Hg) as (d' & Hd' & Hg').
  destruct (Hrun fn G (<[p := x]> ρ) ρ' (<[y := rep_bits x]> env) s) as (env' & Hgo & Ha'); [|exact Hb|].
  - eapply agrees_all_same; [apply R1|]. by apply (agrees_bind ir L Hok p y (gcc_ty ty)).
  - exists env'. split; [|eapply agrees_all_same; [symmetry; apply R1|done]].
    etrans; [eapply goes_stmt; [exact Hd'|exact Hg'|apply exec_assign, evals_var; by eapply Hall]|exact Hgo].
Qed.

Lemma emit_jump_runs L g i j d gb :
  gcc_ok L -> here L g i -> jump_typed ir j -> arena_get (blocks ir) (jump_target j) = Some d ->
  B L (jump_target j) = Some gb -> is_Some (gf_blocks (func L) !! gb) ->
  exists L', emit_jump exec_ir g j L = Some (Ok tt, L') /\ records g L L' /\ gl_current L' = gl_current L /\
    forall fn, gcc_grows (func L') fn -> forall ρ ρ' env (s : World),
      agrees_all L ρ env -> assign_in_order (zip (jump_parameters j) (parameters d)) ρ = Some ρ' ->
      exists env', goes fn (mkGPoint g i env s) (mkGPoint gb 0 env' s) /\ agrees_all L ρ' env'.
Proof.
  intros Hok Hh (Hne & d' & Hd' & HF) Hd Hgb Hsome. rewrite Hd in Hd'. injection Hd' as <-.
  pose proof (Forall2_length _ _ _ HF) as Hlen. unfold emit_jump.
  assert (sm_of_option (arena_get (exec_blocks exec_ir) (jump_target j)) L = Some (d, L)) as E0 by (unfold sm_of_option; by rewrite Hblocks, Hd).
  rewrite (sm_bind_run _ _ _ _ _ E0). unfold gcc_block, sm_try at 1. unfold sm_bind at 1. rewrite Hgb. cbn [gcontext gok sm_ret].
  rewrite Hlen, Nat.eqb_refl. unfold sm_try at 1, gensure, gok at 1. unfold sm_bind at 1, sm_ret at 1.
  destruct (assign_params_spec g (zip (jump_parameters j) (parameters d)) L i Hok Hh) as (L1 & E1 & R1 & C1 & H1 & Hrun).
  { apply Forall_forall. intros [a p] [k Hk]%list_elem_of_lookup. apply lookup_zip_Some in Hk as [Hk1 Hk2].
    by destruct (Forall2_lookup_lr _ _ _ _ _ _ HF Hk1 Hk2) as (ty & ? & ?); exists ty. }
  unfold sm_try. rewrite (sm_bind_run _ _ _ _ _ E1).
  destruct (jump_recorded ir g (i + length (zip (jump_parameters j) (parameters d))) gb L1) as (L' & E2 & R2 & C2 & dg & Hdg & Hl & He).
  { apply R1. } { done. } { destruct Hsome as [x Hx]. destruct (gg_blocks _ _ (rc_grows _ _ _ _ R1) _ _ Hx) as (x' & ? & _). by exists x'. }
  rewrite (sm_bind_run _ _ _ _ _ E2). exists L'. split; [done|]. split; [by eapply records_trans; [exact R1|exact R2|left]|]. split; [congruence|].
  intros fn G ρ ρ' env s Hag Hin. destruct (Hrun fn ltac:(etrans; [apply R2|exact G]) ρ ρ' env s Hag Hin) as (env' & Hgo & Ha').
  exists env'. split; [|done]. etrans; [exact Hgo|]. exists 1%nat. rewrite <- Hl. eapply gcc_run_end; [|exact He|done].
  eapply ended_stays; [exact G|exact Hdg|by rewrite He].
Qed.

(** From [p] the jump is taken, and its target is where the IR's is. *)
Definition jump_sim (vals : ArenaMap LValue) (blks : ArenaMap GccBlock) (fn : GccFunc) (j : Jump) (p : Pos) : Prop :=
  forall fn', gcc_grows fn fn' -> forall ρ env (s : World) r, matches vals ρ env -> follow ir j ρ s = Some r ->
    exists p' gb env', r = Continue p' /\ map_get blks (at_block p') = Some gb /\ at_block p' = jump_target j /\ at_index p' = O /\ world p' = s /\
      goes fn' (mkGPoint (fst p) (snd p) env s) (mkGPoint gb 0 env' s) /\ matches vals (values p') env'.

Lemma emit_jump_spec L g i j gb :
  gcc_ok L -> here L g i -> jump_typed ir j -> jump_apart ir j = true -> B L (jump_target j) = Some gb -> is_Some (gf_blocks (func L) !! gb) ->
  exists L', emit_jump exec_ir g j L = Some (Ok tt, L') /\ records g L L' /\ gl_current L' = gl_current L /\
    jump_sim (gl_values L) (gl_blocks L) (func L') j (g, i).
Proof.
  intros Hok Hh Hj Hap Hgb Hsome. pose proof Hj as (Hne & d & Hd & HF). unfold jump_apart in Hap. rewrite Hd in Hap.
  pose proof (Forall2_length _ _ _ HF) as Hlen.
  destruct (emit_jump_runs L g i j d gb Hok Hh Hj Hd Hgb Hsome) as (L' & E & R & C & Hrun). exists L'. do 3 (split; [done|]).
  intros fn' G ρ env s r [Hty Hhalt Hag] Hf. pose proof Hf as Hf'. unfold follow in Hf. rewrite Hd in Hf. cbn [mbind option_bind] in Hf.
  destruct (mapM _ _) as [xs|] eqn:Ex; [|done]. cbn [mbind option_bind] in Hf.
  destruct (bind_values _ _ _) as [ρ'|] eqn:Eb; [|done]. injection Hf as <-.
  apply values_typed_split in Hty as [Ht Hr].
  destruct (Hrun fn' G ρ ρ' env s Hag) as (env' & Hgo & Ha').
  { eapply in_order_apart; [exact Hap| |done|rewrite snd_zip by lia; exact Eb]. rewrite fst_zip by lia. by apply mapM_Some. }
  eexists _, gb, env'. split; [reflexivity|]. simpl. split_and!; try done.
  destruct (follow_range _ _ _ _ _ Hr Hf') as [Hr' _].
  pose proof (follow_typed _ _ _ _ _ Ht ltac:(split; [exact Hne|by exists d]) Hf') as Ht'. split; [by apply values_typed_split| |exact Ha'].
  destruct (bind_values_lookup _ _ _ _ Eb (parameters_nodup _ _ _ Hco Hd)) as (_ & Hold & _). simpl. rewrite Hold; [done|]. by eapply halt_not_parameter.
Qed.

(** ** Terminators *)

(** From [p] the code leaves, or goes where the terminator does. *)
Definition term_sim (vals : ArenaMap LValue) (blks : ArenaMap GccBlock) (fn : GccFunc) (t : Terminator) (p : Pos) : Prop :=
  forall fn', gcc_grows fn fn' -> forall ρ env (s : World) r, matches vals ρ env -> exec_terminator ir t ρ s = Some r ->
    match r with
    | Continue p' => exists gb env', map_get blks (at_block p') = Some gb /\ (exists j, j ∈ targets t /\ at_block p' = jump_target j) /\
        at_index p' = O /\ world p' = s /\
        goes fn' (mkGPoint (fst p) (snd p) env s) (mkGPoint gb 0 env' s) /\ matches vals (values p') env'
    | Exit code s' => s' = s /\ exists n, run_gcc fn' n (mkGPoint (fst p) (snd p) env s) = Some (GReturn code s)
    end.

Lemma term_sim_grows vals blks fn fn' t p : gcc_grows fn fn' -> term_sim vals blks fn t p -> term_sim vals blks fn' t p.
Proof. intros G H fn2 G2. apply H. by etrans. Qed.

Lemma jump_sim_grows vals blks fn fn' j p : gcc_grows fn fn' -> jump_sim vals blks fn j p -> jump_sim vals blks fn' j p.
Proof. intros G H fn2 G2. apply H. by etrans. Qed.

(** Leaving. *)
Lemma return_sim L b i r t :
  gcc_ok L -> here L b i -> rv_ok (vars L) r -> rv_type r = TyInt false 32 ->
  (forall ρ env (s : World) o, matches (gl_values L) ρ env -> exec_terminator ir t ρ s = Some o ->
    exists c, o = Exit c s /\ eval env r s = Some (c, s)) ->
  exists L', (on_ctx (end_with_return b r) ;;! gok tt) L = Some (Ok tt, L') /\ records b L L' /\
    term_sim (gl_values L) (gl_blocks L) (func L') t (b, i).
Proof.
  intros Hok Hh Hr Hty Hrun. destruct (return_recorded ir b i r L Hok Hh Hr Hty) as (L' & E & R & C & d & Hd & Hl & He).
  exists L'. rewrite (sm_bind_run _ _ _ _ _ E). split; [done|]. split; [done|].
  intros fn' G ρ env s o Hm Ho. destruct (Hrun _ _ _ _ Hm Ho) as (c & -> & Hc). split; [done|]. exists 1%nat. simpl fst. simpl snd. rewrite <- Hl.
  eapply gcc_run_end; [eapply ended_stays; [exact G|exact Hd|by rewrite He]|exact He|]. cbn [exec_end]. by rewrite Hc.
Qed.

(** A branch condition is tested as the IR does. *)
Definition is_nonzero (c : RValue) : RValue := if is_bool_type (rv_type c) then c else RCompare CmpNotEquals c (RConst (rv_type c) 0).

Lemma nonzero_ok L v ty x : is_bool_or_int ty = true -> holds L v ty x ->
  rv_ok (vars L) (is_nonzero (RRead (LVar x (gcc_ty ty)))) /\ rv_type (is_nonzero (RRead (LVar x (gcc_ty ty)))) = TyBool.
Proof. intros Hty [_ Hx]. destruct ty; try done; simpl; split_and!; try done. left. apply int_type. Qed.

Lemma nonzero_runs L v ty x (ρ : Env) env y z (s : World) :
  is_bool_or_int ty = true -> vty ir v ty -> holds L v ty x -> matches (gl_values L) ρ env -> ρ !! v = Some y -> is_zero y = Some z ->
  eval env (is_nonzero (RRead (LVar x (gcc_ty ty)))) s = Some (bool_bits (negb z), s).
Proof.
  intros Hb Hv [Hx _] Hm Hy Hz. pose proof (typed_is ir _ _ _ _ (mt_typed _ _ _ _ Hm) Hv Hy) as Ht.
  pose proof (mt_agrees _ _ _ _ Hm _ _ _ _ Hy Hx) as Hex.
  destruct ty, y; try done; simpl in Ht; injection Hz as <-; unfold is_nonzero; simpl.
  - destruct Ht as [-> Ht]. eapply eval_compare_is; [by apply evals_var|apply evals_const|]. done.
  - apply evals_var. rewrite Hex. by destruct b.
Qed.

Lemma branch_sim L b i v zero non_zero t :
  gcc_ok L -> here L b i -> kind t = TkBrZ v -> targets t = [zero; non_zero] -> term_typed ir t -> gcc_term_ok ir t = true ->
  (forall j, j ∈ targets t -> exists gb, B L (jump_target j) = Some gb /\ is_Some (gf_blocks (func L) !! gb)) ->
  exists L', glower_terminator exec_ir b t L = Some (Ok tt, L') /\ records b L L' /\
    term_sim (gl_values L) (gl_blocks L) (func L') t (b, i).
Proof.
  intros Hok Hh Ek Et [Hk Hj] [Hap _]%andb_true_iff Hblk. unfold kind_typed in Hk. rewrite Ek in Hk. destruct Hk as [_ (ty & Hv & Hb)].
  rewrite Et in Hj, Hap, Hblk. apply Forall_cons in Hj as [Hjz Hj]. apply Forall_cons in Hj as [Hjn _].
  simpl in Hap. rewrite !andb_true_iff in Hap. destruct Hap as (Hapz & Hapn & _).
  destruct (Hblk zero ltac:(by left)) as (gz & Hgz & dz & Hdz), (Hblk non_zero ltac:(by right; left)) as (gn & Hgn & dn & Hdn).
  unfold glower_terminator. rewrite Ek, Et.
  destruct (go_values _ _ Hok _ _ Hv) as (x & Hx & Hvar).
  assert (guse_value v L = Some (Ok (RRead (LVar x (gcc_ty ty))), L)) as Ev by (unfold guse_value; by rewrite Hx).
  unfold sm_try at 1. rewrite (sm_bind_run _ _ _ _ _ Ev). fold (is_nonzero (RRead (LVar x (gcc_ty ty)))).
  destruct (nonzero_ok L v ty x Hb (conj Hx Hvar)) as [Hc1 Hc2].
  destruct (block_recorded ir L Hok) as (bt & L1 & E1 & R1 & C1 & N1 & H1).
  destruct (block_recorded ir L1 (rc_ok _ _ _ _ (R1 b))) as (bf & L2 & E2 & R2 & C2 & N2 & H2).
  rewrite (sm_bind_run _ _ _ _ _ E1), (sm_bind_run _ _ _ _ _ E2).
  assert (b <> bt) as Nbt by by eapply here_ne.
  assert (here L1 b i) as Hb1 by (eapply here_frame; [apply (R1 bt)|done|done]).
  assert (bt <> bf) as Ntf by by eapply here_ne. assert (b <> bf) as Nbf by by eapply here_ne.
  assert (here L2 b i) as Hb2 by (eapply here_frame; [apply (R2 bf)|done|done]). assert (here L2 bt 0) as Ht2 by (eapply here_frame; [apply (R2 bf)|done|done]).
  assert (records b L L2) as RL2 by (eapply records_trans; [apply (R1 b)|apply (R2 b)|by left]).
  destruct (conditional_recorded ir b i (is_nonzero (RRead (LVar x (gcc_ty ty)))) bt bf L2) as (L3 & E3 & R3 & C3 & db & Hdb & Hlb & Heb);
    [apply RL2|done|destruct Ht2 as (? & ? & _); by eexists|destruct H2 as (? & ? & _); by eexists|by rewrite (rc_vars _ _ _ _ RL2)|done|].
  rewrite (sm_bind_run _ _ _ _ _ E3). assert (records b L L3) as RL3 by (eapply records_trans; [exact RL2|exact R3|by left]).
  destruct (emit_jump_spec L3 bt 0 non_zero gn) as (L4 & E4 & R4 & C4 & S4);
    [apply RL3|by eapply here_frame; [exact R3|..]|done|done|by rewrite (rc_blocks _ _ _ _ RL3)|destruct (gg_blocks _ _ (rc_grows _ _ _ _ RL3) _ _ Hdn) as (? & ? & _); by eexists|].
  unfold sm_try. rewrite (sm_bind_run _ _ _ _ _ E4).
  assert (records b L L4) as RL4 by (eapply records_trans; [exact RL3|exact R4|by right]).
  destruct (emit_jump_spec L4 bf 0 zero gz) as (L5 & E5 & R5 & C5 & S5);
    [apply RL4|eapply here_frame; [exact R4|done|by eapply here_frame; [exact R3|..]]|done|done|by rewrite (rc_blocks _ _ _ _ RL4)
    |destruct (gg_blocks _ _ (rc_grows _ _ _ _ RL4) _ _ Hdz) as (? & ? & _); by eexists|].
  assert (gf_blocks (func L) !! bf = None) as Nf by by eapply (new_before ir b L L1).
  exists L5. split; [exact E5|]. split; [eapply records_trans; [exact RL4|exact R5|by right]|].
  intros fn' G ρ env s r Hm Ho. unfold exec_terminator in Ho. rewrite Ek, Et in Ho.
  destruct (ρ !! v) as [y|] eqn:Ey; [|done]. cbn [mbind option_bind] in Ho. destruct (is_zero y) as [z|] eqn:Ez; [|done]. cbn [mbind option_bind] in Ho.
  pose proof (nonzero_runs L v ty x ρ env y z s Hb Hv (conj Hx Hvar) Hm Ey Ez) as Hcond.
  assert (gcc_grows (func L4) fn') as G4 by (etrans; [apply R5|done]). assert (gcc_grows (func L3) fn') as G3 by (etrans; [apply R4|done]).
  assert (goes fn' (mkGPoint b i env s) (mkGPoint (if z then bf else bt) 0 env s)) as Hgo.
  { exists 1%nat. rewrite <- Hlb. eapply gcc_run_end; [eapply ended_stays; [exact G3|exact Hdb|by rewrite Heb]|exact Heb|].
    cbn [exec_end]. rewrite Hcond. by destruct z. }
  assert (matches (gl_values L3) ρ env) as Hm3 by by rewrite (rc_values _ _ _ _ RL3).
  assert (matches (gl_values L4) ρ env) as Hm4 by by rewrite (rc_values _ _ _ _ RL4).
  destruct z; [destruct (S5 fn' G ρ env s r Hm4 Ho) as (p' & gb & env' & -> & Hp1 & Hp2 & Hp3 & Hp4 & Hp5 & Hp6)
    |destruct (S4 fn' G4 ρ env s r Hm3 Ho) as (p' & gb & env' & -> & Hp1 & Hp2 & Hp3 & Hp4 & Hp5 & Hp6)].
  - exists gb, env'. rewrite (rc_blocks _ _ _ _ RL4) in Hp1. rewrite (rc_values _ _ _ _ RL4) in Hp6. split_and!; try done.
    + exists zero. split; [rewrite Et; by left|done].
    + by etrans.
  - exists gb, env'. rewrite (rc_blocks _ _ _ _ RL3) in Hp1. rewrite (rc_values _ _ _ _ RL3) in Hp6. split_and!; try done.
    + exists non_zero. split; [rewrite Et; by right; left|done].
    + by etrans.
Qed.

Lemma terminator_spec L b i t :
  gcc_ok L -> here L b i -> term_typed ir t -> gcc_term_ok ir t = true ->
  (forall j, j ∈ targets t -> exists gb, B L (jump_target j) = Some gb /\ is_Some (gf_blocks (func L) !! gb)) ->
  exists L', glower_terminator exec_ir b t L = Some (Ok tt, L') /\ records b L L' /\
    term_sim (gl_values L) (gl_blocks L) (func L') t (b, i).
Proof.
  intros Hok Hh Ht Htok Hblk. pose proof Ht as [Hk Hj]. unfold kind_typed in Hk. destruct (kind t) as [|v|v|] eqn:Ek.
  - unfold glower_terminator. rewrite Ek.
    assert (u32_const 0 L = Some (RConst (TyInt false 32) (sgn 32 0), L)) as E0 by (unfold u32_const; by rewrite (go_u32 _ _ Hok)).
    rewrite (sm_bind_run _ _ _ _ _ E0). apply return_sim; [done|done|left; apply int_type|done|].
    intros ρ env s o _ Ho. unfold exec_terminator in Ho. rewrite Ek, Hk in Ho. injection Ho as <-. by exists 0.
  - destruct Hk as [Hk _]. unfold glower_terminator. rewrite Ek.
    assert (vty ir v (TInt W32)) as Hv.
    { apply andb_true_iff in Htok as [_ H]. rewrite Ek in H. by apply bool_decide_eq_true in H. }
    destruct (go_values _ _ Hok _ _ Hv) as (x & Hx & Hvar).
    assert (guse_value v L = Some (Ok (RRead (LVar x (gcc_ty (TInt W32)))), L)) as Ev by (unfold guse_value; by rewrite Hx).
    unfold sm_try. rewrite (sm_bind_run _ _ _ _ _ Ev). apply return_sim; [done|done|done|done|].
    intros ρ env s o Hm Ho. unfold exec_terminator in Ho. rewrite Ek, Hk in Ho.
    destruct (ρ !! v) as [[[] z| |]|] eqn:Ey; try done. injection Ho as <-. exists z. split; [done|]. apply evals_var.
    exact (mt_agrees _ _ _ _ Hm _ _ _ _ Ey Hx).
  - destruct Hk as [Hk _]. destruct (targets t) as [|zero [|nz [|? ?]]] eqn:Et; try done. eapply branch_sim; rewrite ?Et; done.
  - destruct (targets t) as [|j [|? ?]] eqn:Et; try done. unfold glower_terminator. rewrite Ek, Et.
    destruct (Hblk j ltac:(by left)) as (gb & Hgb & Hsome). apply andb_true_iff in Htok as [Hap _]. rewrite Et in Hap. simpl in Hap.
    apply andb_true_iff in Hap as [Hap _]. apply Forall_cons in Hj as [Hj _].
    destruct (emit_jump_spec L b i j gb Hok Hh Hj Hap Hgb Hsome) as (L' & E & R & C & S). exists L'. split; [exact E|]. split; [done|].
    intros fn' G ρ env s r Hm Ho. unfold exec_terminator in Ho. rewrite Ek, Et in Ho.
    destruct (S fn' G ρ env s r Hm Ho) as (p' & gb' & env' & -> & Hp1 & Hp2 & Hp3 & Hp4 & Hp5 & Hp6). exists gb', env'. split_and!; try done.
    exists j. split; [rewrite Et; by left|done].
Qed.
End Blocks.
