(* ===== verification/GccSim.v ===== *)
(** * Running the C function
    ([jit-compiler-core/src/compiler/gcc_backend.rs], [lower_blocks])

    [lower_blocks] leaves every block of the compile order translated, and the C
    function then runs as the IR does. *)

From S2P Require Import Prelude Convert HaltReason MemTypes Fault Memops ObjectQueue Fabric PageTable IoMMU.
From S2P Require Import ExclusiveMonitor LookupCache MemAccess FfiSupport Arena Ir IrSem IrEmit IrLogic IrArith.
From S2P Require Import IrTyping IrBuilt IrBuilder IrRun IrRange.
From S2P Require Import BackEnd.
From S2P Require Import Tarjan SccGraph HaltCheck HaltSplit HaltInv HaltSound HaltSim BlockOrder Clif CraneliftLower Gcc GccLower GccHost GccCode GccArith GccEmit GccStmt GccEffect GccFunc GccBlocks.
Local Open Scope Z_scope.
Local Open Scope emu_scope.

(** ** Shift amounts along a run *)

Definition amount_fits (ρ : Env) (rv : StmtKind) : bool :=
  match rv with
  | KShift _ a n => match ρ !! a, ρ !! n with Some (VInt w _), Some (VInt _ k) => k <? bits w | _, _ => true end
  | _ => true
  end.

Lemma amount_fits_ok ρ rv : amount_fits ρ rv = true -> shift_ok ρ rv.
Proof. destruct rv; try done. simpl. intros H w z w' k Ha Hn. rewrite Ha, Hn in H. by apply Z.ltb_lt. Qed.

(** No [Shift] of the run is by the width of its operand or more. *)
Definition shifts_fit {Error} (e : Endian) (ly : Layout) (io_mmu : IoMMU) (ir : ExecIrBuilder) (fuel : nat) (p : Point (Error := Error)) : bool :=
  run_within e ly io_mmu amount_fits fuel ir p.

Section Sim.
Context {F : Type} `{!GccContext F, !GccContextLaws F}.
Context {Error : Type} {e : Endian} {ly : Layout} {io_mmu : IoMMU} `{!GccHost Error} `{!GccHostLaws e ly io_mmu}.
Context (ir : ExecIrBuilder) (exec_ir : ExecIr) (Hco : compilable ir) (Hfn : gcc_fn_ok ir = true).
Context (Hvalues : exec_ssa_values exec_ir = ssa_values ir) (Hsigs : exec_signatures exec_ir = signatures ir)
  (Hstmts : exec_stmts exec_ir = all_stmts ir) (Hblocks : exec_blocks exec_ir = blocks ir).
Context (order : list Block) (Horder : order_ok ir order).
Abbreviation Lowering := (@FunctionLowering F).
Abbreviation World := (@World Error).
Abbreviation func L := (gcc_func (gl_ctx L)).
Abbreviation B L := (map_get (gl_blocks L)).
Abbreviation gcc_ok := (gcc_ok ir).
Abbreviation records := (records ir).
Abbreviation matches := (matches ir).
Abbreviation stmts_sim := (stmts_sim (e := e) (ly := ly) (io_mmu := io_mmu) ir).
Abbreviation term_sim := (term_sim (Error := Error) ir).

(** ** [lower_blocks] *)

Definition block_sim (vals slots : ArenaMap LValue) (blks : ArenaMap GccBlock) (fn : GccFunc) (b : Block) : Prop :=
  exists gb d q, map_get blks b = Some gb /\ arena_get (blocks ir) b = Some d /\
    stmts_sim vals slots fn (stmts d) (gb, O) q /\ term_sim vals blks fn (terminator d) q.

(** The blocks [dn] are translated, the others empty. *)
Record progress (L : Lowering) (dn : list Block) : Prop := {
  pg_ok : gcc_ok L;
  pg_blocks : forall b, b ∈ order -> exists gb, B L b = Some gb /\ is_Some (gf_blocks (func L) !! gb);
  pg_inj : forall b b' gb, B L b = Some gb -> B L b' = Some gb -> b = b';
  pg_todo : forall b gb, b ∈ order -> b ∉ dn -> B L b = Some gb -> gf_blocks (func L) !! gb = Some (mkGccBlock [] None);
  pg_done : forall b, b ∈ dn -> block_sim (gl_values L) (gl_slots L) (gl_blocks L) (func L) b;
  pg_params : Forall2 (fun a x => map_get (gl_values L) (as_ssa_value a) = Some (LVar x (gcc_ty (arg_ty a)))) args (gf_params (func L));
  pg_entry : exists gb, gf_entry (func L) = Some gb /\ B L ENTRYPOINT = Some gb;
}.

Lemma block_sim_grows vals slots blks fn fn' b :
  gcc_grows fn fn' -> block_sim vals slots blks fn b -> block_sim vals slots blks fn' b.
Proof.
  intros G (gb & d & q & ? & ? & Hs & Ht). exists gb, d, q. split_and!; [done|done|by eapply stmts_sim_grows|by eapply term_sim_grows].
Qed.

Lemma progress_records L L' dn b gb d q :
  progress L dn -> B L b = Some gb -> records gb L L' -> arena_get (blocks ir) b = Some d ->
  stmts_sim (gl_values L') (gl_slots L') (func L') (stmts d) (gb, O) q ->
  term_sim (gl_values L') (gl_blocks L') (func L') (terminator d) q -> progress L' (b :: dn).
Proof.
  intros [P1 P2 P3 P4 P5 P6 (ge & P7 & P8)] Hb R Hd Hs Ht. split; rewrite ?(rc_blocks _ _ _ _ R); [apply R| |done| | | |].
  - intros b' (gb' & ? & dg & Hdg)%P2. exists gb'. split; [done|].
    destruct (gg_blocks _ _ (rc_grows _ _ _ _ R) _ _ Hdg) as (? & ? & _). by eexists.
  - intros b' gb' Ho [Hne Hn]%not_elem_of_cons Hb'. apply (rc_frame _ _ _ _ R); [by eapply P4|].
    intros ->. by rewrite (P3 _ _ _ Hb Hb') in Hne.
  - intros b' [->|Hb']%elem_of_cons.
    + exists gb, d, q. rewrite (rc_blocks _ _ _ _ R) in Ht. done.
    + rewrite (rc_values _ _ _ _ R), (rc_slots _ _ _ _ R). eapply block_sim_grows; [apply R|by apply P5].
  - by rewrite (rc_values _ _ _ _ R), (gg_params _ _ (rc_grows _ _ _ _ R)).
  - exists ge. split; [|done]. by apply (gg_entry _ _ (rc_grows _ _ _ _ R)).
Qed.

Lemma glower_block_spec L dn b :
  progress L dn -> b ∈ order -> b ∉ dn ->
  exists L', glower_block exec_ir e gcc_helper b L = Some (Ok tt, L') /\ progress L' (b :: dn).
Proof.
  intros HP Hb Hdn. destruct (pg_blocks _ _ HP _ Hb) as (gb & Hgb & _). pose proof (pg_todo _ _ HP _ _ Hb Hdn Hgb) as Hempty.
  destruct (oo_exists _ _ Horder _ Hb) as [d Hd]. destruct (co_blocks _ Hco _ _ Hd) as (_ & Hst & Htt).
  set (L0 := put_current (Some gb) L).
  assert (gcc_ok L0) as Hok0 by (destruct (pg_ok _ _ HP); by split).
  assert (now L0 (gb, O)) as Hnow by (split; [done|by exists (mkGccBlock [] None)]).
  unfold glower_block, gcc_block, sm_try at 1. unfold sm_bind at 1. rewrite Hgb. cbn [gcontext gok sm_ret].
  assert (sm_of_option (arena_get (exec_blocks exec_ir) b) L = Some (d, L)) as E0 by (unfold sm_of_option; by rewrite Hblocks, Hd).
  rewrite (sm_bind_run _ _ _ _ _ E0). rewrite (sm_bind_run _ _ _ tt L0 eq_refl).
  destruct (gcc_lower_stmts_spec ir exec_ir Hco Hfn Hvalues Hsigs Hstmts (stmts d) L0 (gb, O) Hok0 Hnow Hst)
    as (L1 & q & E1 & R1 & [N1 N1'] & Q1 & S1).
  unfold sm_try. rewrite (sm_bind_run _ _ _ _ _ E1).
  assert (the_current L1 = Some (fst q, L1)) as Ecur by (unfold the_current, sm_of_option; by rewrite N1).
  rewrite (sm_bind_run _ _ _ _ _ Ecur).
  destruct (terminator_spec (Error := Error) ir exec_ir Hco Hblocks L1 (fst q) (snd q) (terminator d)) as (L2 & E2 & R2 & S2);
    [apply R1|done|done| | |].
  { unfold gcc_fn_ok in Hfn. rewrite !andb_true_iff in Hfn. destruct Hfn as [[_ H] _].
    exact (forallb_arena (fun d => gcc_term_ok ir (terminator d)) _ _ _ H Hd). }
  { intros j Hj. destruct (pg_blocks _ _ HP (jump_target j)) as (gj & Hgj & dj & Hdj); [by eapply (oo_closed _ _ Horder)|].
    exists gj. rewrite (rc_blocks _ _ _ _ R1). split; [done|]. destruct (gg_blocks _ _ (rc_grows _ _ _ _ R1) _ _ Hdj) as (? & ? & _). by eexists. }
  exists L2. split; [exact E2|].
  assert (records gb L0 L2) as R by (eapply records_trans; [exact R1|exact R2|exact Q1]).
  eapply (progress_records L L2); [done|exact Hgb| |exact Hd| |].
  - by destruct R.
  - rewrite (rc_values _ _ _ _ R), (rc_slots _ _ _ _ R). eapply stmts_sim_grows; [apply R2|exact S1].
  - rewrite (rc_values _ _ _ _ R2), (rc_blocks _ _ _ _ R2). destruct q. exact S2.
Qed.

Lemma glower_block_list_spec l L dn :
  progress L dn -> NoDup l -> (forall b, b ∈ l -> b ∈ order /\ b ∉ dn) ->
  exists L', glower_block_list exec_ir e gcc_helper l L = Some (Ok tt, L') /\ progress L' (reverse l ++ dn).
Proof.
  revert L dn. induction l as [|b l IH]; intros L dn HP Hn Hl; [by exists L|].
  apply NoDup_cons in Hn as [Hb Hn]. destruct (Hl b ltac:(by left)) as [Hbo Hbd].
  destruct (glower_block_spec L dn b HP Hbo Hbd) as (L1 & E1 & H1).
  cbn [glower_block_list]. unfold sm_try. rewrite (sm_bind_run _ _ _ _ _ E1).
  destruct (IH L1 (b :: dn) H1 Hn) as (L2 & E2 & H2).
  { intros b' Hb'. destruct (Hl b' ltac:(by right)). split; [done|]. intros [->|?]%elem_of_cons; done. }
  exists L2. split; [done|]. by rewrite reverse_cons, <- app_assoc.
Qed.

(** ** The run *)

Context (L : Lowering) (dn : list Block) (HP : progress L dn) (Hall : forall b, b ∈ order -> b ∈ dn).
Context (Hplaced : placed (gl_slots L)).
Abbreviation fn := (func L).

(** The C point is where the code of the IR's point starts. *)
Definition at_code (p : Point (Error := Error)) (g : GPoint) : Prop :=
  exists d pos q, at_block p ∈ order /\ arena_get (blocks ir) (at_block p) = Some d /\
    stmts_sim (gl_values L) (gl_slots L) fn (drop (at_index p) (stmts d)) pos q /\
    term_sim (gl_values L) (gl_blocks L) fn (terminator d) q /\
    matches (gl_values L) (values p) (gp_env g) /\ world_ok (world p) /\ g = mkGPoint (fst pos) (snd pos) (gp_env g) (world p).

(** The call: the parameters hold the arguments. *)
Lemma pass_args_agree vs params xs (ρ ρ' : Env) env :
  Forall2 (fun v x => exists ty, map_get (gl_values L) v = Some (LVar x (gcc_ty ty))) vs params ->
  bind_values vs xs ρ = Some ρ' -> agrees_all L ρ env ->
  exists env', pass_args params (rep_bits <$> xs) env = Some env' /\ agrees_all L ρ' env'.
Proof.
  intros HF. revert xs ρ env. induction HF as [|v y vs params (ty & Hy) _ IH]; intros [|x xs] ρ env Hb Ha; try done.
  - injection Hb as <-. by exists env.
  - simpl in Hb |- *. eapply IH; [exact Hb|]. by apply (agrees_bind ir L (pg_ok _ _ HP) v y (gcc_ty ty)).
Qed.

Lemma entry_matches ident :
  exists env, pass_args (gf_params fn) (rep_bits <$> entry_values ident) ∅ = Some env /\ matches (gl_values L) (entry_env ident) env.
Proof.
  destruct (pass_args_agree (as_ssa_value <$> args) (gf_params fn) (entry_values ident) ∅ (entry_env ident) ∅) as (env & E & Ha).
  - apply Forall2_fmap_l. eapply Forall2_impl; [apply (pg_params _ _ HP)|]. intros a x Hx. by exists (arg_ty a).
  - apply entry_env_args.
  - intros v x y ty Hv. by rewrite lookup_empty in Hv.
  - exists env. split; [done|]. split; [apply entry_values_typed, Hco|by vm_compute|done].
Qed.

Lemma at_code_start b gb ρ env (s : World) :
  b ∈ order -> B L b = Some gb -> matches (gl_values L) ρ env -> world_ok s ->
  at_code (mkPoint b 0 ρ s) (mkGPoint gb 0 env s).
Proof.
  intros Hb Hgb Hm Hw. destruct (pg_done _ _ HP _ (Hall _ Hb)) as (gb' & d & q & Hgb' & Hd & Hs & Ht). simplify_eq.
  by exists d, (gb, O), q.
Qed.

(** The same place, or the same exit. *)
Definition gnext (r : Next (Error := Error)) (r' : GNext (S := World)) : Prop :=
  match r, r' with
  | Continue p, GContinue g => at_code p g
  | Exit code s, GReturn z s' => z = code /\ s' = s
  | _, _ => False
  end.

Lemma gstep_simulated p g r :
  at_code p g -> point_within amount_fits ir p = true -> step e ly io_mmu ir p = Some r -> exists n r', run_gcc fn n g = Some r' /\ gnext r r'.
Proof.
  intros (d & pos & q & Hb & Hd & Hs & Ht & Hm & Hw & Hg) Hfit Hstep. unfold step in Hstep. unfold point_within in Hfit.
  rewrite Hd in Hstep, Hfit. cbn [mbind option_bind] in Hstep, Hfit.
  destruct (stmts d !! at_index p) as [x|] eqn:Hx.
  - cbn [mbind option_bind] in Hfit. rewrite (drop_S _ _ _ Hx) in Hs. inversion Hs as [|x' sd l p0 p1 q0 Hsd Hone Hrest]; subst.
    rewrite Hsd in Hstep, Hfit. cbn [mbind option_bind] in Hstep.
    destruct (exec_stmt e ly io_mmu sd (values p) (world p)) as [[ρ s]|] eqn:Ex; [|done]. injection Hstep as <-.
    destruct (Hone fn (reflexivity _) Hplaced _ _ _ _ _ Hm Hw (amount_fits_ok _ _ Hfit) Ex) as (env' & [n Hn] & Hm').
    destruct (exec_keeps ir Hco _ _ _ _ _ _ Hsd (mt_typed _ _ _ _ Hm) Hw Ex) as [_ Hw'].
    exists n, (GContinue (mkGPoint (fst p1) (snd p1) env' s)). split; [rewrite Hg; exact Hn|]. by exists d, p1, q.
  - destruct (terminated d); [|done]. rewrite (drop_ge _ _ (proj1 (lookup_ge_None _ _) Hx)) in Hs. inversion Hs; subst.
    specialize (Ht fn (reflexivity _) _ _ _ _ Hm Hstep). destruct r as [p'|code s'].
    + destruct Ht as (gb & env' & Hgb & (j & Hj & Ej) & Ei & Ew & [n Hn] & Hm').
      exists n, (GContinue (mkGPoint gb 0 env' (world p))). split; [rewrite Hg; exact Hn|]. destruct p' as [pb pi ρ' s']. simpl in *. subst.
      apply at_code_start; [|done..]. by eapply (oo_closed _ _ Horder).
    + destruct Ht as (-> & n & Hn). exists n, (GReturn code (world p)). split; [rewrite Hg; exact Hn|done].
Qed.

Lemma grun_simulated fuel p g r :
  at_code p g -> shifts_fit e ly io_mmu ir fuel p = true -> run_ir e ly io_mmu fuel ir p = Some r ->
  exists n r', run_gcc fn n g = Some r' /\ gnext r r'.
Proof.
  revert p g. induction fuel as [|fuel IH]; intros p g Hc Hfit Hr; unfold shifts_fit in Hfit; simpl in Hr, Hfit.
  { injection Hr as <-. by exists O, (GContinue g). }
  apply andb_true_iff in Hfit as [Hpt Hfit]. destruct (step e ly io_mmu ir p) as [r0|] eqn:Es; [|done].
  destruct (gstep_simulated _ _ _ Hc Hpt Es) as (n & r1 & Hn & H1). destruct r0 as [p1|code s]; [|injection Hr as <-; by exists n, r1].
  destruct r1 as [g1|]; [|done]. destruct (IH _ _ H1 Hfit Hr) as (m & r2 & Hm2 & Hr2).
  exists (n + m)%nat, r2. split; [|done]. by eapply run_gcc_app.
Qed.

(** The same outcome, of the IR and of the C function. *)
Definition same_outcome (r : Next (Error := Error)) (r' : GNext (S := World)) : Prop :=
  match r, r' with
  | Continue p, GContinue g => gp_state g = world p
  | Exit code s, GReturn z s' => z = code /\ s' = s
  | _, _ => False
  end.

Lemma call_simulated ident fuel (s : World) r :
  let start := mkPoint ENTRYPOINT 0 (entry_env ident) s in
  world_ok s -> shifts_fit e ly io_mmu ir fuel start = true -> run_ir e ly io_mmu fuel ir start = Some r ->
  exists n r', call_gcc fn n (rep_bits <$> entry_values ident) s = Some r' /\ same_outcome r r'.
Proof.
  intros start Hw Hfit Hr. destruct (entry_matches ident) as (env & Eenv & Hm). destruct (pg_entry _ _ HP) as (gb & Hge & Hgb).
  destruct (grun_simulated fuel start (mkGPoint gb 0 env s) r) as (n & r' & Hn & Hr'); [|done|done|].
  { apply at_code_start; [apply Horder|done..]. }
  exists n, r'. unfold call_gcc. rewrite Eenv. cbn [mbind option_bind]. rewrite Hge. split; [exact Hn|].
  destruct r as [p|code s'], r' as [g|z s2]; try done. by destruct Hr' as (d & pos & q & _ & _ & _ & _ & _ & _ & ->).
Qed.
End Sim.
