(* ===== verification/GccNew.v ===== *)
(** * Laying out the C function
    ([jit-compiler-core/src/compiler/gcc_backend.rs], [FunctionLowering::new])

    Every value gets a variable, every block and slot its counterpart; the function
    starts in the block of the entry point. *)

From S2P Require Import Prelude Convert HaltReason MemTypes Fault Memops ObjectQueue Fabric PageTable IoMMU.
From S2P Require Import ExclusiveMonitor LookupCache MemAccess FfiSupport Arena Ir IrSem IrEmit IrLogic IrArith.
From S2P Require Import IrTyping IrBuilt IrBuilder IrRun IrRange.
From S2P Require Import BackEnd.
From S2P Require Import Tarjan SccGraph HaltCheck HaltSplit HaltInv HaltSound BlockOrder Clif CraneliftLower Gcc GccLower GccHost GccCode GccArith GccEmit GccStmt GccEffect GccFunc GccBlocks GccSim.
Local Open Scope Z_scope.
Local Open Scope emu_scope.

#[local] Opaque map_insert.

Lemma from_as_ssa_value v a : from_ssa_value v = Some a -> v = as_ssa_value a.
Proof. unfold from_ssa_value. intros H. repeat (case_decide; [injection H as <-; by subst|]). done. Qed.

Lemma args_arg_index a : args !! arg_index a = Some a.
Proof. by destruct a. Qed.

Lemma args_index i a : args !! i = Some a -> i = arg_index a.
Proof. do 6 (destruct i as [|i]; [by intros [= <-]|]). done. Qed.

(** The cache holds types under their fields. *)
Definition cache_ok (c : TypeCache) : Prop := (forall k t, cached c k = Some t -> t = field_ty k) /\ u32_ty c = TyInt false 32.

(** ** What has been made so far *)

(** Blocks: those of [dn], empty. *)
Record blocks_made (dn : list Block) (fn : GccFunc) (blks : ArenaMap GccBlock) : Prop := {
  bm_empty : forall b gb, map_get blks b = Some gb -> gf_blocks fn !! gb = Some (mkGccBlock [] None);
  bm_dom : forall b, is_Some (map_get blks b) <-> b ∈ dn;
  bm_inj : forall b b' gb, map_get blks b = Some gb -> map_get blks b' = Some gb -> b = b';
  bm_entry : exists gb, gf_entry fn = Some gb /\ gf_blocks fn !! gb = Some (mkGccBlock [] None) /\
    forall b, head dn = Some b -> map_get blks b = Some gb;
}.

(** Variables: those of the first [n] values, an argument's the parameter. *)
Record values_made (ir : ExecIrBuilder) (ps : list (GccVar * GccType)) (n : nat) (vars : gmap GccVar GccType) (vals : ArenaMap LValue) : Prop := {
  vm_values : forall v ty, vty ir v ty -> (get v < n)%nat -> exists x, map_get vals v = Some (LVar x (gcc_ty ty)) /\ vars !! x = Some (gcc_ty ty);
  vm_only : forall v l, map_get vals v = Some l -> (get v < n)%nat /\ exists x ty, l = LVar x ty /\ is_Some (vars !! x);
  vm_arg : forall v x ty, map_get vals v = Some (LVar x ty) ->
    match from_ssa_value v with Some a => ps.*1 !! arg_index a = Some x | None => x ∉ ps.*1 end;
  vm_inj : forall v v' x ty ty', map_get vals v = Some (LVar x ty) -> map_get vals v' = Some (LVar x ty') -> v = v';
}.

(** Slots: the first [n]. *)
Record slots_made (n : nat) (vars : gmap GccVar GccType) (slots : ArenaMap LValue) : Prop := {
  sl_slots : forall s, (get s < n)%nat -> exists x ty, map_get slots s = Some (LVar x ty) /\ vars !! x = Some ty;
  sl_later : forall s, (n <= get s)%nat -> map_get slots s = None;
}.

Lemma values_made_grow ir ps n vars vars' vals : vars ⊆ vars' -> values_made ir ps n vars vals -> values_made ir ps n vars' vals.
Proof.
  intros Hv [H1 H2 H3 H4]. split; [| |done|done].
  - intros v ty Hty Hn. destruct (H1 _ _ Hty Hn) as (x & ? & ?). exists x. split; [done|]. by eapply lookup_weaken.
  - intros v l Hl. destruct (H2 _ _ Hl) as (? & x & ty & ? & [t ?]). split; [done|]. exists x, ty. split; [done|]. exists t. by eapply lookup_weaken.
Qed.

Lemma slots_made_grow n vars vars' slots : vars ⊆ vars' -> slots_made n vars slots -> slots_made n vars' slots.
Proof.
  intros Hv [H1 H2]. split; [|done]. intros s Hs. destruct (H1 _ Hs) as (x & ty & ? & ?). exists x, ty. split; [done|]. by eapply lookup_weaken.
Qed.

Section New.
Context {F : Type} `{!GccContext F, !GccContextLaws F}.
Context (ir : ExecIrBuilder) (exec_ir : ExecIr) (Hco : compilable ir) (Hsizes : gcc_sizes_ok ir = true).
Context (Hvalues : exec_ssa_values exec_ir = ssa_values ir) (Hblocks : exec_blocks exec_ir = blocks ir)
  (Hslots : exec_stack_slots exec_ir = stack_slots ir).
Abbreviation order := (block_compile_order exec_ir).
Context (Horder : order_ok ir order).
Abbreviation Lowering := (@FunctionLowering F).
Abbreviation func L := (gcc_func (gl_ctx L)).
Abbreviation vars L := (gf_vars (gcc_func (gl_ctx L))).

Record laid_out (ps : list (GccVar * GccType)) (dn : list Block) (nv ns : nat) (L : Lowering) : Prop := {
  ly_cache : cache_ok (gl_cache L);
  ly_sigs : forall s, map_get (gl_sig_types L) s = None;
  ly_return : gf_return (func L) = TyInt false 32;
  ly_params : gf_params (func L) = ps.*1;
  ly_vars : forall x ty, (x, ty) ∈ ps -> vars L !! x = Some ty;
  ly_blocks : blocks_made dn (func L) (gl_blocks L);
  ly_values : values_made ir ps nv (vars L) (gl_values L);
  ly_slots : slots_made ns (vars L) (gl_slots L);
}.

(** ** Types and variables *)

Lemma cached_spec k (L : Lowering) : cache_ok (gl_cache L) ->
  exists c, get_or_insert k (field_ty k) L = Some (field_ty k, put_cache c L) /\ cache_ok c.
Proof.
  intros [H1 H2]. unfold get_or_insert. destruct (cached (gl_cache L) k) as [t|] eqn:E.
  - exists (gl_cache L). rewrite (H1 _ _ E). split; [by destruct L|done].
  - eexists. split; [reflexivity|]. split; [|done]. simpl. intros k' t. case_decide; [intros [= <-]; by subst|eauto].
Qed.

Lemma uint_spec w (L : Lowering) : cache_ok (gl_cache L) ->
  exists c, resolve_uint w L = Some (TyInt false (bits w), put_cache c L) /\ cache_ok c.
Proof.
  intros H. destruct w; [by apply (cached_spec Cache.u8_ty)|by apply (cached_spec Cache.u16_ty)| |by apply (cached_spec Cache.u64_ty)].
  exists (gl_cache L). split; [|done]. trans (Some (u32_ty (gl_cache L), L)); [done|]. rewrite (proj2 H). by destruct L.
Qed.

Lemma ty_spec ty (L : Lowering) : cache_ok (gl_cache L) -> exists c, resolve_ty ty L = Some (gcc_ty ty, put_cache c L) /\ cache_ok c.
Proof. intros H. destruct ty; first [by apply uint_spec|by apply (cached_spec Cache.void_ptr_ty)|by apply (cached_spec Cache.bool_ty)]. Qed.

Lemma gcc_ty_variable ty : variable_type (gcc_ty ty).
Proof. by destruct ty. Qed.

(** A local: a new variable, and nothing else. *)
Lemma new_local_spec ty (L : Lowering) : variable_type ty ->
  exists x f, on_ctx (new_local ty) L = Some (x, put_ctx f L) /\ vars L !! x = None /\ gcc_func f = GFn.add_var x ty (func L).
Proof. intros Ht. destruct (local_law ty (gl_ctx L) Ht) as (x & f & E & Hx & Hf). exists x, f. unfold on_ctx. by rewrite E. Qed.

Lemma laid_out_local ps dn nv ns L c f x ty :
  laid_out ps dn nv ns L -> cache_ok c -> vars L !! x = None -> gcc_func f = GFn.add_var x ty (func L) ->
  laid_out ps dn nv ns (put_ctx f (put_cache c L)).
Proof.
  intros [H1 H2 H3 H4 H5 [B1 B2 B3 B4] H7 H8] Hc Hx Hf. split; simpl; rewrite ?Hf; simpl; try done.
  - intros y t Hy. rewrite lookup_insert_ne; [by apply H5|]. intros <-. apply H5 in Hy. congruence.
  - eapply values_made_grow; [|exact H7]. by apply insert_subseteq.
  - eapply slots_made_grow; [|exact H8]. by apply insert_subseteq.
Qed.

(** ** Parameters *)

Lemma gcc_new_params_spec i l (L : Lowering) : cache_ok (gl_cache L) -> (forall k a, l !! k = Some a -> (i + k)%nat = arg_index a) ->
  exists ps c f, new_params i l L = Some (ps, put_ctx f (put_cache c L)) /\ cache_ok c /\ ps.*2 = gcc_ty ∘ arg_ty <$> l /\
    vars L ⊆ gf_vars (gcc_func f) /\ NoDup ps.*1 /\
    forall x ty, (x, ty) ∈ ps -> gf_vars (gcc_func f) !! x = Some ty /\ vars L !! x = None.
Proof.
  revert i L. induction l as [|a l IH]; intros i L Hc Hi.
  { exists [], (gl_cache L), (gl_ctx L). split; [by destruct L|]. split_and!; try done; [constructor|]. by intros x ty ?%elem_of_nil. }
  destruct (ty_spec (arg_ty a) L Hc) as (c1 & E1 & Hc1).
  destruct (parameter_law (gcc_ty (arg_ty a)) (gl_ctx L) (gcc_ty_variable _)) as (x & f1 & E2 & Hx & Hf1).
  assert (on_ctx (new_parameter (gcc_ty (arg_ty a))) (put_cache c1 L) = Some (x, put_ctx f1 (put_cache c1 L))) as E2'
    by (unfold on_ctx; cbn [put_cache gl_ctx]; by rewrite E2).
  destruct (IH (S i) (put_ctx f1 (put_cache c1 L)) Hc1) as (ps & c & f & E3 & Hc3 & Ety & Hsub & Hnd & Hps);
    [intros k a' Hk; rewrite <- (Hi (S k) a' Hk); lia|]. simpl in Hsub, Hps. rewrite Hf1 in Hsub, Hps.
  exists ((x, gcc_ty (arg_ty a)) :: ps), c, f. cbn [new_params].
  rewrite <- (Hi 0%nat a eq_refl), Nat.add_0_r, Nat.eqb_refl, (sm_bind_run _ _ _ tt L eq_refl).
  rewrite (sm_bind_run _ _ _ _ _ E1), (sm_bind_run _ _ _ _ _ E2'), (sm_bind_run _ _ _ _ _ E3). split; [done|]. split; [done|].
  split; [simpl; by f_equal|]. split_and!.
  - etrans; [by apply insert_subseteq|exact Hsub].
  - simpl. constructor; [|done]. intros Hin%list_elem_of_fmap. destruct Hin as ([y t] & -> & Hy). destruct (Hps _ _ Hy) as [_ Hn].
    simpl in Hn. by rewrite lookup_insert_eq in Hn.
  - intros y t [[= -> ->]|Hy]%elem_of_cons; [split; [eapply lookup_weaken; [|exact Hsub]; apply lookup_insert_eq|done]|].
    destruct (Hps _ _ Hy) as [? Hn]. simpl in Hn. apply lookup_insert_None in Hn as [? _]. done.
Qed.

(** ** Blocks *)

Lemma gnew_block_spec ps dn k b entry L :
  laid_out ps dn 0 0 L -> gf_entry (func L) = Some entry -> b ∉ dn -> k = length dn ->
  exists L', new_ir_block entry (k, b) L = Some (tt, L') /\ laid_out ps (dn ++ [b]) 0 0 L' /\ gf_entry (func L') = Some entry.
Proof.
  intros [H1 H2 H3 H4 H5 [B1 B2 B3 (ge & B4 & B5 & B6)] H7 H8] Hent Hb ->. assert (ge = entry) as -> by congruence.
  assert (map_get (gl_blocks L) b = None) as Hfresh by (destruct (map_get _ b) eqn:E; [|done]; exfalso; apply Hb, B2; by eexists).
  unfold new_ir_block. simpl fst. simpl snd. destruct dn as [|b0 dn].
  - simpl (_ =? _)%nat. cbv iota. rewrite (sm_bind_run _ _ _ entry L eq_refl).
    destruct (map_insert_unique_new (gl_blocks L) b entry Hfresh) as (m & Em & Hm). rewrite Em. eexists. split; [done|]. split; [|done].
    assert (forall b', map_get (gl_blocks L) b' = None) as Hnone.
    { intros b'. destruct (map_get (gl_blocks L) b') eqn:E; [|done]. assert (b' ∈ ([] : list Block)) as ?%elem_of_nil by (apply B2; by eexists). done. }
    split; simpl; try done. split.
    + intros b' gb. rewrite Hm, Hnone. case_decide; [|done]. by intros [= <-].
    + intros b'. rewrite Hm, Hnone, list_elem_of_singleton. case_decide; split; try done; by intros [].
    + intros b1 b2 gb. rewrite !Hm, !Hnone. by repeat case_decide; subst.
    + exists entry. split_and!; [done|done|]. intros b' [= <-]. rewrite Hm. by rewrite decide_True.
  - simpl (_ =? _)%nat. cbv iota. destruct (gcc_block_law (gl_ctx L)) as (g & f & E & Hg & Hf).
    assert (on_ctx new_gcc_block L = Some (g, put_ctx f L)) as E' by (unfold on_ctx; by rewrite E). rewrite (sm_bind_run _ _ _ _ _ E').
    destruct (map_insert_unique_new (gl_blocks L) b g Hfresh) as (m & Em & Hm). cbn [put_ctx gl_blocks]. rewrite Em. eexists. split; [done|].
    assert (forall b' gb, map_get (gl_blocks L) b' = Some gb -> gb <> g) as Hne by (intros b' gb Hb' ->; apply B1 in Hb'; congruence).
    split; [|simpl; rewrite Hf; simpl; by rewrite Hent].
    split; simpl; rewrite ?Hf; try done. split; simpl.
    + intros b' gb. rewrite Hm. case_decide; [intros [= <-]; by rewrite lookup_insert_eq|]. intros Hb'.
      rewrite lookup_insert_ne by (intros <-; by eapply Hne). by eapply B1.
    + intros b'. rewrite Hm, app_comm_cons, elem_of_app, list_elem_of_singleton, <- B2. case_decide; [subst|]; split; try tauto; intros; first [by eexists|by right].
    + intros b1 b2 gb. rewrite !Hm. repeat case_decide; subst; try done; [by intros [= <-] ?%Hne|by intros ?%Hne [= <-]|by apply B3].
    + exists entry. rewrite Hent. split_and!; [done|rewrite lookup_insert_ne; [done|intros <-; congruence]|].
      intros b' [= <-]. rewrite Hm. rewrite decide_False; [by apply B6|]. intros ->. apply Hb. by left.
Qed.

Lemma new_blocks_spec ps entry L :
  laid_out ps [] 0 0 L -> gf_entry (func L) = Some entry ->
  exists L', sm_for (zip (seq 0 (length order)) order) (new_ir_block entry) L = Some (tt, L') /\ laid_out ps order 0 0 L'.
Proof.
  intros H0 Hent.
  destruct (sm_for_inv (fun pre L => laid_out ps pre.*2 0 0 L /\ gf_entry (func L) = Some entry) (zip (seq 0 (length order)) order)
    (new_ir_block entry) L) as (L' & E & H' & _); [|done|].
  - intros pre [k b] post L1 El [H1 He1].
    assert (zip (seq 0 (length order)) order !! length pre = Some (k, b)) as Hk by (rewrite El; by apply list_lookup_middle).
    apply lookup_zip_Some in Hk as [[-> _]%lookup_seq _]. rewrite fmap_app. simpl.
    apply gnew_block_spec; [done|done| |by rewrite length_fmap].
    assert ((zip (seq 0 (length order)) order).*2 = order) as Es by (rewrite snd_zip; [done|rewrite length_seq; lia]).
    rewrite El, fmap_app in Es. pose proof (oo_nodup _ _ Horder) as Hn. rewrite <- Es in Hn. apply NoDup_app in Hn as (_ & Hn & _).
    intros Hb. by apply (Hn b Hb); left.
  - exists L'. split; [exact E|]. rewrite snd_zip in H'; [done|rewrite length_seq; lia].
Qed.

(** ** Values *)

Lemma values_made_step ps n vs vals v ty x :
  values_made ir ps n vs vals -> get v = n -> vty ir v ty -> vs !! x = Some (gcc_ty ty) ->
  match from_ssa_value v with Some a => ps.*1 !! arg_index a = Some x | None => x ∉ ps.*1 end ->
  (forall v' t, map_get vals v' <> Some (LVar x t)) ->
  values_made ir ps (S n) vs (snd (map_insert v (LVar x (gcc_ty ty)) vals)).
Proof.
  intros [H1 H2 H3 H4] Hv Hty Hx Harg Hne. split.
  - intros u t Hu Hn. rewrite map_get_insert. case_decide as E.
    + subst u. exists x. unfold vty in Hty, Hu. assert (t = ty) as -> by congruence. done.
    + apply H1; [done|]. assert (get u <> n); [|lia]. intros Hg. apply E, get_inj. congruence.
  - intros u l. rewrite map_get_insert. case_decide as E; [intros [= <-]; subst; split; [lia|]; exists x, (gcc_ty ty); split; [done|by eexists]|].
    intros [? ?]%H2. split; [lia|done].
  - intros u y t. rewrite map_get_insert. case_decide as E; [intros [= <- <-]; by subst|apply H3].
  - intros u u' y t t'. rewrite !map_get_insert. repeat case_decide; subst; try done.
    + intros [= <- <-] Hu. by apply Hne in Hu.
    + intros Hu [= <- <-]. by apply Hne in Hu.
    + apply H4.
Qed.

Lemma new_value_spec ps n L v ty :
  laid_out ps order n 0 L -> ps.*2 = gcc_ty ∘ arg_ty <$> args -> NoDup ps.*1 -> get v = n -> vty ir v ty ->
  exists L', new_value ps (v, ty) L = Some (tt, L') /\ laid_out ps order (S n) 0 L'.
Proof.
  intros HL Hps Hnd Hv Hty. pose proof HL as [H1 H2 H3 H4 H5 H6 H7 H8]. unfold new_value. simpl fst. simpl snd.
  destruct (from_ssa_value v) as [a|] eqn:Ea.
  - pose proof (from_as_ssa_value _ _ Ea) as Eva.
    assert (ty = arg_ty a) as -> by (pose proof (co_args _ Hco a) as Ha; unfold vty in *; congruence).
    assert (ps.*2 !! arg_index a = Some (gcc_ty (arg_ty a))) as Hty2 by (rewrite Hps, list_lookup_fmap, args_arg_index; done).
    rewrite list_lookup_fmap in Hty2. destruct (ps !! arg_index a) as [[x t]|] eqn:Ex; [|done]. injection Hty2 as ->.
    assert (ps.*1 !! arg_index a = Some x) as Hx by (by rewrite list_lookup_fmap, Ex).
    unfold sm_of_option. cbn [fmap]. unfold sm_bind at 1. unfold sm_bind at 1. unfold sm_ret at 1. eexists. split; [reflexivity|].
    split; simpl; try done. apply (values_made_step ps n _ _ v (arg_ty a) x); [done|done|done|by eapply H5, list_elem_of_lookup_2|by rewrite Ea|].
    intros v' t' Hv'. destruct (vm_only _ _ _ _ _ H7 _ _ Hv') as [Hlt _]. pose proof (vm_arg _ _ _ _ _ H7 _ _ _ Hv') as Ha.
    destruct (from_ssa_value v') as [a'|] eqn:Ea'; [|exfalso; apply Ha; by eapply list_elem_of_lookup_2].
    pose proof (NoDup_lookup _ _ _ _ Hnd Hx Ha) as Hi. pose proof (args_arg_index a) as Hi1. rewrite Hi, args_arg_index in Hi1. simplify_eq.
    pose proof (from_as_ssa_value _ _ Ea'). subst v'. lia.
  - destruct (ty_spec ty L H1) as (c & E1 & Hc).
    destruct (new_local_spec (gcc_ty ty) (put_cache c L) (gcc_ty_variable _)) as (x & f & E2 & Hx & Hf). simpl in Hx, Hf.
    assert ((let! ty := resolve_ty ty in let! x := on_ctx (new_local ty) in sm_ret (LVar x ty)) L = Some (LVar x (gcc_ty ty), put_ctx f (put_cache c L))) as E.
    { rewrite (sm_bind_run _ _ _ _ _ E1), (sm_bind_run _ _ _ _ _ E2). done. }
    rewrite (sm_bind_run _ _ _ _ _ E). eexists. split; [reflexivity|].
    destruct (laid_out_local _ _ _ _ _ c f x _ HL Hc Hx Hf) as [K1 K2 K3 K4 K5 K6 K7 K8]. split; simpl; try done.
    apply values_made_step; [done|done|done|rewrite Hf; apply lookup_insert_eq| |].
    + rewrite Ea. intros Hin%list_elem_of_fmap. destruct Hin as ([y t] & -> & Hy). apply H5 in Hy. simpl in Hx. congruence.
    + intros v' t Hv'. destruct (vm_only _ _ _ _ _ H7 _ _ Hv') as (_ & y & t' & [= <- <-] & [t2 Ht2]). congruence.
Qed.

(** What is assumed of the sizes. *)
Lemma fn_sizes : arena_ok (ssa_values ir) /\ arena_ok (stack_slots ir) /\
  forall s d, stack_slots ir !! s = Some d -> slot_ok d = true /\ 0 <= slot_size d.
Proof.
  unfold gcc_sizes_ok in Hsizes. rewrite !andb_true_iff in Hsizes. destruct Hsizes as [[[Hs Hz] Hn%Z.leb_le] Hv%Z.leb_le].
  split_and!; [done|done|]. intros s d Hd%list_elem_of_lookup_2%list_elem_of_In. rewrite forallb_forall in Hs, Hz.
  split; [by apply Hs|by apply Z.leb_le, Hz].
Qed.

(** A loop over an arena, with its handles. *)
Lemma arena_loop {A} (P : nat -> Lowering -> Prop) (l : Arena A) body L :
  arena_ok l -> (forall n x L, l !! n = Some x -> P n L -> exists L', body (Pos.of_succ_nat n, x) L = Some (tt, L') /\ P (S n) L') ->
  P O L -> exists keys L', arena_keys l = Some keys /\ sm_for (zip keys l) body L = Some (tt, L') /\ P (length l) L'.
Proof.
  intros Hl Hbody H0. exists (Pos.of_succ_nat <$> seq 0 (length l)).
  destruct (sm_for_inv (fun pre L => P (length pre) L) (zip (Pos.of_succ_nat <$> seq 0 (length l)) l) body L) as (L' & E & H'); [|done|].
  - intros pre [k x] post L1 El H1.
    assert (zip (Pos.of_succ_nat <$> seq 0 (length l)) l !! length pre = Some (k, x)) as Hk by (rewrite El; by apply list_lookup_middle).
    apply lookup_zip_Some in Hk as [Hk Hx]. apply list_lookup_fmap_Some in Hk as (i & -> & [-> _]%lookup_seq). rewrite length_app, Nat.add_1_r.
    by apply Hbody.
  - exists L'. split; [by apply arena_keys_spec|]. split; [exact E|]. by rewrite length_zip, length_fmap, length_seq, Nat.min_id in H'.
Qed.

Lemma new_values_spec ps L :
  laid_out ps order 0 0 L -> ps.*2 = gcc_ty ∘ arg_ty <$> args -> NoDup ps.*1 ->
  exists keys L', arena_keys (exec_ssa_values exec_ir) = Some keys /\
    sm_for (zip keys (exec_ssa_values exec_ir)) (new_value ps) L = Some (tt, L') /\ laid_out ps order (length (ssa_values ir)) 0 L'.
Proof.
  intros HL Hps Hnd. rewrite Hvalues. apply (arena_loop (fun n L => laid_out ps order n 0 L)); [apply fn_sizes| |done].
  intros n ty L1 Hty H1. apply new_value_spec; [done|done|done|by rewrite get_of_succ|]. unfold vty, arena_get. by rewrite get_of_succ.
Qed.

(** ** Slots *)

Lemma new_slot_spec ps nv n L d :
  laid_out ps order nv n L -> stack_slots ir !! n = Some d ->
  exists L', new_slot (Pos.of_succ_nat n, d) L = Some (tt, L') /\ laid_out ps order nv (S n) L'.
Proof.
  intros HL Hd. destruct (proj2 (proj2 fn_sizes) _ _ Hd) as [[Ha%Z.ltb_lt Hp%Z.eqb_eq]%andb_true_iff Hz].
  destruct (uint_spec W8 L (ly_cache _ _ _ _ _ HL)) as (c & E1 & Hc). unfold new_slot. simpl fst. simpl snd. rewrite (sm_bind_run _ _ _ _ _ E1).
  set (ty := TyAligned (TyArray (TyInt false (bits W8)) (slot_size d)) (slot_align d)).
  destruct (new_local_spec ty (put_cache c L)) as (x & f & E2 & Hx & Hf); [by split_and!|]. rewrite (sm_bind_run _ _ _ _ _ E2). simpl in Hx, Hf.
  destruct (laid_out_local _ _ _ _ _ c f x _ HL Hc Hx Hf) as [K1 K2 K3 K4 K5 K6 K7 [S1 S2]]. cbn [put_ctx put_cache gl_slots] in *.
  destruct (map_insert_unique_new (gl_slots L) (Pos.of_succ_nat n) (LVar x ty)) as (m & Em & Hm); [apply S2; by rewrite get_of_succ|].
  rewrite Em. eexists. split; [done|]. split; simpl; try done. split.
  - intros s Hs. rewrite Hm. case_decide as E; [exists x, ty; split; [done|rewrite Hf; apply lookup_insert_eq]|]. apply S1.
    assert (get s <> n); [|lia]. intros <-. by rewrite of_succ_get in E.
  - intros s Hs. rewrite Hm. case_decide as E; [subst; rewrite get_of_succ in Hs; lia|]. apply S2. lia.
Qed.

Lemma new_slots_spec ps nv L :
  laid_out ps order nv 0 L -> exists keys L', arena_keys (exec_stack_slots exec_ir) = Some keys /\
    sm_for (zip keys (exec_stack_slots exec_ir)) new_slot L = Some (tt, L') /\ laid_out ps order nv (length (stack_slots ir)) L'.
Proof.
  intros HL. rewrite Hslots. apply (arena_loop (fun n L => laid_out ps order nv n L)); [apply fn_sizes| |done].
  intros n d L1 Hd H1. by apply new_slot_spec.
Qed.

(** ** The whole *)

Lemma laid_out_ok ps L :
  laid_out ps order (length (ssa_values ir)) (length (stack_slots ir)) L -> gcc_ok ir L.
Proof.
  intros [[C1 C2] H2 H3 H4 H5 H6 [V1 V2 V3 V4] [S1 S2]]. split; try done.
  - intros s ty Hs. by rewrite H2 in Hs.
  - intros v ty Hv. apply V1; [done|by eapply vty_lt].
  - intros v l Hl. destruct (V2 _ _ Hl) as [Hlt _]. apply lookup_lt_is_Some in Hlt as [ty Hty]. by exists ty.
  - intros s d Hd. apply S1. by eapply lookup_lt_Some.
Qed.

Lemma from_of_arg a : from_ssa_value (as_ssa_value a) = Some a.
Proof. by destruct a. Qed.

Context {Error : Type} {e : Endian} {ly : Layout} {io_mmu : IoMMU} `{!GccHost Error}.

Lemma laid_out_progress ps L :
  laid_out ps order (length (ssa_values ir)) (length (stack_slots ir)) L -> length ps = length args ->
  progress (e := e) (ly := ly) (io_mmu := io_mmu) ir order L [].
Proof.
  intros HL Hlen. pose proof (laid_out_ok _ _ HL) as Hok. destruct HL as [_ _ _ H4 _ [B1 B2 B3 (ge & B4 & B5 & B6)] [V1 V2 V3 V4] _]. split; try done.
  - intros b [gb Hgb]%B2. exists gb. split; [done|]. eexists. by apply (B1 b).
  - intros b gb _ _. apply B1.
  - by intros b ?%elem_of_nil.
  - rewrite H4. apply Forall2_same_length_lookup_2; [by rewrite length_fmap|]. intros i a x Ha Hx. apply args_index in Ha as ->.
    destruct (V1 _ _ (co_args _ Hco a)) as (y & Hy & _); [eapply vty_lt, (co_args _ Hco a)|]. rewrite Hy.
    pose proof (V3 _ _ _ Hy) as Hxy. rewrite from_of_arg in Hxy. by simplify_eq.
  - exists ge. split; [done|]. apply B6, Horder.
Qed.

Lemma glowering_new_spec f :
  exists L, glowering_new exec_ir (gnew_lowering exec_ir f) = Some (Ok tt, L) /\ progress (e := e) (ly := ly) (io_mmu := io_mmu) ir order L [].
Proof.
  set (L0 := gnew_lowering exec_ir f). assert (cache_ok (gl_cache L0)) as Hc0 by by split.
  destruct (gcc_new_params_spec 0 args L0 Hc0) as (ps & c1 & f1 & E1 & Hc1 & Hps & _ & Hnd & Hvars); [intros k a; apply args_index|].
  set (L1 := put_ctx f1 (put_cache c1 L0)) in *. unfold glowering_new. rewrite (sm_bind_run _ _ _ _ _ E1).
  assert ((fun l : Lowering => Some (u32_ty (gl_cache l), l)) L1 = Some (TyInt false 32, L1)) as E2 by (simpl; by rewrite (proj2 Hc1)).
  rewrite (sm_bind_run _ _ _ _ _ E2).
  destruct (function_law (TyInt false 32) ps.*1 f1) as (f2 & E3 & Hf2).
  { apply Forall_forall. intros x Hx%list_elem_of_fmap. destruct Hx as ([y t] & -> & Hy). exists t. by apply Hvars. }
  assert (on_ctx (new_function (TyInt false 32) ps.*1) L1 = Some (tt, put_ctx f2 L1)) as E3' by (unfold on_ctx; simpl; by rewrite E3).
  rewrite (sm_bind_run _ _ _ _ _ E3').
  destruct (gcc_block_law f2) as (ge & f3 & E4 & Hge & Hf3).
  assert (on_ctx new_gcc_block (put_ctx f2 L1) = Some (ge, put_ctx f3 L1)) as E4' by (unfold on_ctx; simpl; by rewrite E4).
  rewrite (sm_bind_run _ _ _ _ _ E4'). set (L3 := put_ctx f3 L1).
  assert (gcc_func f3 = GFn.add_block ge (GFn.declare (TyInt false 32) ps.*1 (gcc_func f1))) as Hf by by rewrite Hf3, Hf2.
  assert (forall v, map_get (gl_values L3) v = None) as Nv by apply map_get_empty.
  assert (laid_out ps [] 0 0 L3) as HL3.
  { split; simpl; rewrite ?Hf; simpl; try done.
    - intros s. apply map_get_empty.
    - intros x ty Hx. by apply Hvars.
    - split; simpl.
      + intros b gb. by rewrite map_get_empty.
      + intros b. rewrite map_get_empty. split; [by intros []|by intros ?%elem_of_nil].
      + intros b b' gb. by rewrite map_get_empty.
      + exists ge. by rewrite lookup_insert_eq.
    - split; intros *; rewrite ?map_get_empty; try done. lia.
    - split; intros *; rewrite ?map_get_empty; try done. lia. }
  destruct (new_blocks_spec ps ge L3 HL3) as (L4 & E5 & HL4); [simpl; by rewrite Hf|]. rewrite (sm_bind_run _ _ _ _ _ E5).
  destruct (new_values_spec ps L4 HL4) as (keys & L5 & Ek & E6 & HL5); [by rewrite Hps|done|].
  assert (sm_of_option (arena_keys (exec_ssa_values exec_ir)) L4 = Some (keys, L4)) as Ek' by (unfold sm_of_option; by rewrite Ek).
  rewrite (sm_bind_run _ _ _ _ _ Ek'), (sm_bind_run _ _ _ _ _ E6).
  destruct (co_entry _ Hco) as (d & Hd & Epar).
  assert (sm_of_option (arena_get (exec_blocks exec_ir) ENTRYPOINT) L5 = Some (d, L5)) as E7 by (unfold sm_of_option; by rewrite Hblocks, Hd).
  rewrite (sm_bind_run _ _ _ _ _ E7). rewrite Epar, length_fmap, Nat.eqb_refl. unfold sm_try, gensure, gok at 1. unfold sm_bind at 1, sm_ret at 1.
  destruct (new_slots_spec ps _ L5 HL5) as (skeys & L6 & Es & E8 & HL6).
  assert (sm_of_option (arena_keys (exec_stack_slots exec_ir)) L5 = Some (skeys, L5)) as Es' by (unfold sm_of_option; by rewrite Es).
  rewrite (sm_bind_run _ _ _ _ _ Es'), (sm_bind_run _ _ _ _ _ E8). exists L6. split; [done|].
  apply (laid_out_progress ps); [done|]. rewrite <- (length_fmap snd ps), Hps. done.
Qed.
End New.
