(* ===== verification/GccSample.v ===== *)
(** * A context and a host for the C function
    ([jit-compiler-core/src/compiler/gcc_backend.rs])

    A context that keeps libgccjit's contract and a host that keeps the contract of
    the machine, to show that both can be kept. *)

From S2P Require Import Prelude Convert HaltReason MemTypes Fault Memops ObjectQueue Fabric PageTable IoMMU.
From S2P Require Import ExclusiveMonitor LookupCache MemAccess FfiSupport Arena Ir IrSem IrEmit IrLogic IrArith.
From S2P Require Import IrTyping IrBuilt IrBuilder IrRun.
From S2P Require Import BackEnd.
From S2P Require Import Tarjan SccGraph HaltCheck HaltSplit HaltInv HaltSound BlockOrder.
From S2P Require Import Clif CraneliftLower CraneliftHost CraneliftSample Gcc GccLower GccHost.
Local Open Scope Z_scope.
Local Open Scope emu_scope.

(** ** A context *)

Definition done {A} (a : A) (f : GccFunc) : option (A * GccFunc) := Some (a, f).

#[export] Instance plain_context : GccContext GccFunc := {
  gcc_func := fun f => f;
  new_parameter ty := fun f => let x := fresh (dom (gf_vars f)) in done x (GFn.add_var x ty f);
  new_function ret params := fun f => done tt (GFn.declare ret params f);
  new_local ty := fun f => let x := fresh (dom (gf_vars f)) in done x (GFn.add_var x ty f);
  new_gcc_block := fun f => let b := fresh (dom (gf_blocks f)) in done b (GFn.add_block b f);
  add_assignment b l r := fun f => done tt (GFn.add_stmt b (SAssign l r) f);
  add_eval b r := fun f => done tt (GFn.add_stmt b (SEval r) f);
  end_with_jump b t := fun f => done tt (GFn.set_end b (EJump t) f);
  end_with_conditional b c t t' := fun f => done tt (GFn.set_end b (ECond c t t') f);
  end_with_return b r := fun f => done tt (GFn.set_end b (EReturn r) f);
}.

#[export] Instance plain_context_laws : GccContextLaws GccFunc.
Proof.
  split; intros; try (eexists; split; [reflexivity|]; reflexivity).
  all: do 2 eexists; split; [reflexivity|]; split; [apply fresh_key|reflexivity].
Qed.

(** ** A host *)

(** Objects below zero, so that no address of memory is theirs. *)
Definition plain_address (p : HostPtr) : Z :=
  match p with
  | PExecState => -1 | PExecContext => -2 | PIoMMU => -3 | PHaltReason => -4
  | PTlb off => wrap USIZE_BITS off
  | PIdent i => MaybeIdent.as_ptr i
  | PPage t => t
  | PFlags o => match o with Some id => Zpos id | None => 0 end
  | PStack slot => - 4 - Zpos slot
  end.

Definition object_at (a : Z) : HostPtr :=
  if 0 <=? a then PTlb a else if a =? -1 then PExecState else if a =? -2 then PExecContext
  else PStack (Z.to_pos (- 4 - a)).

Definition plain_bits (x : Value) : Z := match x with VInt _ z => z | VBool b => bool_bits b | VPtr p => plain_address p end.

Definition width_of_bytes (n : Z) : IntWidth := if n =? 1 then W8 else if n =? 2 then W16 else if n =? 4 then W32 else W64.

(** The loads of the IR a C type stands for. *)
Definition loads_of (ty : GccType) : list LoadType :=
  match ty with
  | TyInt _ w => [LInt (width_of_bytes (w / 8))]
  | _ => [LHostPtr RReadOnly; LHostPtr RVirtualMemory; LHostPtr RPageFlags]
  end.

(** A helper's arguments, from their bits. *)
Definition plain_args (func : HostCallback) (l : list Z) : option (list Value) :=
  match func, l with
  | (CbLoad _ | CbLdrex _), [_; _; _; a; slot] =>
      Some [VPtr PIoMMU; VPtr (PTlb 0); VPtr PExecContext; VInt W64 a; VPtr (object_at slot)]
  | (CbStore w | CbStrex w), [_; _; _; a; z] => Some [VPtr PIoMMU; VPtr (PTlb 0); VPtr PExecContext; VInt W64 a; VInt w z]
  | CbClrex, [_] => Some [VPtr PExecContext]
  | _, _ => None
  end.

Section Machine.
Context {Error : Type} (e : Endian) (ly : Layout) (io_mmu : IoMMU) (place : GccVar -> StackSlot).
Abbreviation World := (@World Error).

Definition plain_builtin (f : Builtin) (l : list Z) : SM World Z :=
  match f, l with
  | atomic_load_n n, [a; _] =>
      if a <? 0 then fun s => Some (halt_word s, s)
      else on_fabric (on_mem (load_ne_aligned_inner e (width_bytes (width_of_bytes n)) a))
  | atomic_store_n n, [a; z; _] =>
      on_fabric (on_mem (store_ne_aligned_inner e (width_bytes (width_of_bytes n)) a z)) ;;! sm_ret 0
  | atomic_exchange_n _, [_; z; _] => fun s => Some (halt_word s, set_halt_word z s)
  | atomic_fetch_or_n _, [a; _; _] => on_fabric (set_page_dirty_flag (Z.to_pos a)) ;;! sm_ret 0
  | builtin_bswap n, [z] => sm_ret (swap_bytes (width_bytes (width_of_bytes n)) z)
  | _, _ => sm_panic
  end.

#[local] Instance plain_machine : GccMachine World := {
  read_mem ty a off := let! v := first_load e ly (object_at a) off (loads_of ty) in sm_ret (plain_bits v);
  write_mem ty a off z := store_host e ly (object_at a) off (VInt (width_of_bytes (width_of_type ty / 8)) z);
  call_builtin := plain_builtin;
  call_pointer f l :=
    let! func := sm_of_option (all_helpers !! Z.to_nat f) in
    let! vs := sm_of_option (plain_args func l) in
    let! xs := call_helper e io_mmu func vs in
    sm_ret (match xs with x :: _ => plain_bits x | [] => 0 end);
  var_address x := plain_address (PStack (place x));
}.

#[local] Instance plain_host : GccHost Error := {
  gcc_address := plain_address;
  gcc_helper := helper_index;
  gcc_machine := plain_machine;
}.

Lemma width_of_bits w : width_of_bytes (bits w / 8) = w.
Proof. by destruct w. Qed.
Lemma width_of_n w : width_of_bytes (bytes w) = w.
Proof. by destruct w. Qed.

Lemma object_slot slot : object_at (plain_address (PStack slot)) = PStack slot.
Proof.
  unfold object_at, plain_address. rewrite (proj2 (Z.leb_gt 0 _)), !(proj2 (Z.eqb_neq _ _)) by lia. f_equal. lia.
Qed.

Lemma plain_load p ty off (s s' : World) v :
  load_host e ly ty p off s = Some (v, s') -> first_load e ly (object_at (plain_address p)) off (loads_of (load_gcc_ty ty)) s = Some (v, s').
Proof.
  intros H. destruct p as [| | | |base|? |? |? |slot]; try by destruct ty.
  - destruct ty as [w|]; [|done]. unfold first_load, load_gcc_ty. simpl loads_of. rewrite width_of_bits. cbn [foldr].
    change (object_at _) with PExecState. by rewrite H.
  - assert (object_at (plain_address (PTlb base)) = PTlb (wrap USIZE_BITS base)) as ->.
    { unfold object_at, plain_address. rewrite (proj2 (Z.leb_le _ _)); [done|]. apply Z.mod_pos_bound. by vm_compute. }
    assert (forall ty, load_host e ly ty (PTlb (wrap USIZE_BITS base)) off s = load_host e ly ty (PTlb base) off s) as E
      by (intros ty'; simpl; by rewrite wrap_add_l).
    unfold first_load. destruct ty as [w|r].
    + unfold load_gcc_ty. simpl loads_of. rewrite width_of_bits. cbn [foldr]. by rewrite E, H.
    + cbn [load_gcc_ty load_type_full gcc_ty loads_of foldr]. rewrite !E. cbn [load_host] in *. unfold read_tlb in *.
      destruct (_ || _); [done|]. destruct (tlb (machine s) !! _); [|done].
      repeat (case_match; simplify_eq/=; try done).
  - rewrite object_slot. destruct ty as [w|]; [|done]. unfold first_load, load_gcc_ty. simpl loads_of. rewrite width_of_bits. cbn [foldr]. by rewrite H.
Qed.

Lemma plain_args_rep func vs (s s' : World) xs :
  call_helper e io_mmu func vs s = Some (xs, s') -> plain_args func (plain_bits <$> vs) = Some vs.
Proof.
  unfold call_helper. intros H.
  destruct func; repeat (case_match; try done); cbn [fmap list_fmap plain_bits plain_args]; rewrite ?object_slot; try done.
  all: unfold sm_bind, sm_assert, sm_panic, sm_ret in H; case_bool_decide; by subst.
Qed.

#[local] Instance plain_host_laws : GccHostLaws e ly io_mmu.
Proof.
  assert (forall a, (wrap USIZE_BITS a <? 0) = false) as Hpos by (intros a; apply Z.ltb_ge, Z.mod_pos_bound; by vm_compute).
  split.
  - done.
  - done.
  - intros off. simpl. by rewrite wrap_add_l.
  - intros ty p off v s s' _ H. simpl. by rewrite (sm_bind_run _ _ _ _ _ (plain_load _ _ _ _ _ _ H)).
  - intros p off v s s' _ H. pose proof (store_value _ _ _ _ _ _ _ H) as (_ & w & z & ->). simpl. rewrite width_of_bits.
    by destruct p.
  - done.
  - done.
  - intros id order s s' _ H. exists 0. simpl. by rewrite (sm_bind_run _ _ _ _ _ H).
  - intros w a z order s s' _ H. simpl. by rewrite Hpos, width_of_n.
  - intros w a z order s s' _ H. exists 0. simpl. rewrite width_of_n. by rewrite (sm_bind_run _ _ _ _ _ H).
  - intros w z s _. simpl. by rewrite width_of_n.
  - intros func i vs xs s s' _ H. change (rep_bits <$> vs) with (plain_bits <$> vs).
    unfold call_pointer, gcc_machine, plain_host, plain_machine, gcc_helper, sm_bind, sm_of_option. rewrite helper_of_index.
    rewrite (plain_args_rep _ _ _ _ _ H), H.
    eexists. split; [reflexivity|]. by intros x ->.
Qed.
End Machine.
