(* ===== verification/GccCorrect.v ===== *)
(** * The GCC back end is correct
    ([jit-compiler-core/src/compiler/gcc_backend.rs], [compile])

    For the functions [gcc_fn_ok] describes, along runs that shift by less than the
    width, the function described to libgccjit does what the IR does; and a function
    whose jump passes one of its target's parameters on, which comes out wrong. *)

From S2P Require Import Prelude Convert HaltReason MemTypes Fault Memops ObjectQueue Fabric PageTable IoMMU.
From S2P Require Import ExclusiveMonitor LookupCache MemAccess FfiSupport Arena Ir IrSem IrEmit IrLogic IrArith.
From S2P Require Import IrTyping IrBuilt IrBuilder IrRun IrRange.
From S2P Require Import BackEnd.
From S2P Require Import Tarjan SccGraph HaltCheck HaltSplit HaltInv HaltSound BlockOrder Clif CraneliftLower CraneliftHost CraneliftSample CraneliftCorrect.
From S2P Require Import Gcc GccLower GccHost GccCode GccEmit GccStmt GccEffect GccFunc GccBlocks GccSim GccNew GccSample.
Local Open Scope Z_scope.
Local Open Scope emu_scope.

Section Correct.
Context {F : Type} `{!GccContext F, !GccContextLaws F}.
Context {Error : Type} {e : Endian} {ly : Layout} {io_mmu : IoMMU} `{!GccHost Error} `{!GccHostLaws e ly io_mmu}.
Abbreviation World := (@World Error).

Lemma glower_finished x ir (f : F) :
  compilable ir -> gcc_fn_ok ir = true -> finished_from x ir ->
  exists L dn, glower_function x e gcc_helper f = Some (Ok tt, L) /\
    progress (e := e) (ly := ly) (io_mmu := io_mmu) ir (block_compile_order x) L dn /\ forall b, b ∈ block_compile_order x -> b ∈ dn.
Proof.
  intros Hco Hfn Hx. pose proof (finished_order x ir Hco Hx) as Ho. pose proof Hfn as Hsz. apply andb_true_iff in Hsz as [_ Hsz].
  destruct (glowering_new_spec (e := e) (ly := ly) (io_mmu := io_mmu) ir x Hco Hsz (ff_values _ _ Hx) (ff_blocks _ _ Hx) (ff_slots _ _ Hx) Ho f)
    as (L1 & E1 & H1).
  destruct (glower_block_list_spec ir x Hco Hfn (ff_values _ _ Hx) (ff_signatures _ _ Hx) (ff_stmts _ _ Hx) (ff_blocks _ _ Hx)
    (block_compile_order x) Ho (block_compile_order x) L1 [] H1 (oo_nodup _ _ Ho)) as (L2 & E2 & H2).
  { intros b Hb. split; [done|]. by intros ?%elem_of_nil. }
  exists L2, (reverse (block_compile_order x) ++ []). unfold glower_function, sm_try. rewrite (sm_bind_run _ _ _ _ _ E1).
  split; [exact E2|]. split; [done|]. intros b Hb. by rewrite app_nil_r, elem_of_reverse.
Qed.

(** C6: The function given to libgccjit is the function: for any context that keeps
    libgccjit's contract, a well-typed function within [gcc_fn_ok] and its compile
    order, [new] and [lower_blocks] neither panic nor return an error, and the C
    function they describe, called with the arguments in ABI order from a state of its
    widths ([world_ok]), on a machine whose slots lie where their variables do
    ([placed]), along a run that shifts by less than the width ([shifts_fit]), comes
    without undefined behaviour to whatever the IR comes to, with the same code if that
    has left, and with the same registers, memory, TLB, monitor and halt word.
    [gcc_fn_ok]: no negation of a boolean, shifts by amounts of the shifted type, codes
    of 32 bits, offsets and tag masks in the range of their fields, slots with a size,
    aligned to powers of two, no more slots and values than handles, two outputs apart
    from the operands, and no jump that passes on a parameter it has assigned. *)
Theorem gcc_function_correct x ir (f : F) :
  compilable ir -> gcc_fn_ok ir = true -> finished_from x ir ->
  exists L, glower_function x e gcc_helper f = Some (Ok tt, L) /\
    (placed (gl_slots L) -> forall ident fuel (s : World) r,
      world_ok s -> shifts_fit e ly io_mmu ir fuel (mkPoint ENTRYPOINT 0 (entry_env ident) s) = true ->
      run_ir e ly io_mmu fuel ir (mkPoint ENTRYPOINT 0 (entry_env ident) s) = Some r ->
      exists n r', call_gcc (gcc_func (gl_ctx L)) n (rep_bits <$> entry_values ident) s = Some r' /\ same_outcome r r').
Proof.
  intros Hco Hfn Hx. destruct (glower_finished x ir f Hco Hfn Hx) as (L & dn & E & HP & Hall). exists L. split; [done|].
  intros Hpl ident fuel s r. by apply (call_simulated ir Hco _ (finished_order x ir Hco Hx) L dn HP Hall Hpl).
Qed.
End Correct.

(** ** A function translated and run *)

Definition demo_gcc_host : GccHost unit := plain_host Little sample_layout sample_mmu (fun _ => 1%positive).
#[local] Existing Instance demo_gcc_host.

Lemma demo_gcc_laws : GccHostLaws Little sample_layout sample_mmu.
Proof. apply plain_host_laws. Qed.
#[local] Existing Instance demo_gcc_laws.

(** The outcome of a call is an exit with this code. *)
Definition returns {S} (z : Z) (o : option (GNext (S := S))) : bool := match o with Some (GReturn z' _) => z =? z' | _ => false end.

(** The machine has the variable of a single slot where the slot is. *)
Lemma one_slot_placed slots : length slots = 1%nat -> placed slots.
Proof.
  intros Hl slot y ty. unfold map_get. destruct slots as [|o [|? ?]]; try done.
  destruct (get slot) as [|k] eqn:Ek; [|by destruct k]. intros _. rewrite <- (of_succ_get slot), Ek. done.
Qed.

Lemma gcc_function_correct_witness :
  exists L n o, glower_function demo_exec Little gcc_helper GFn.empty = Some (Ok tt, L) /\
    call_gcc (gcc_func (gl_ctx L)) n (rep_bits <$> entry_values MaybeIdent.invalid) sample_world = Some o /\
    match o with GReturn z _ => z = 262148 | GContinue _ => False end.
Proof.
  destruct (gcc_function_correct demo_exec demo_ir GFn.empty demo_compilable) as (L & E & H); [by vm_compute|exact demo_finished|].
  assert (placed (gl_slots L)) as Hpl.
  { assert (match glower_function demo_exec Little gcc_helper GFn.empty with Some (_, L) => (length (gl_slots L) =? 1)%nat | None => false end = true)
      as Hl by by vm_compute.
    rewrite E in Hl. apply Nat.eqb_eq in Hl. by apply one_slot_placed. }
  assert (match run_ir Little sample_layout sample_mmu 60 demo_ir (mkPoint ENTRYPOINT 0 (entry_env MaybeIdent.invalid) sample_world) with
    | Some (Exit c _) => c =? 262148 | _ => false end = true) as Hr by by vm_compute.
  destruct (run_ir _ _ _ _ _ _) as [[|code s']|] eqn:Er; [done| |done]. apply Z.eqb_eq in Hr as ->.
  destruct (H Hpl MaybeIdent.invalid 60%nat sample_world _ sample_world_ok ltac:(by vm_compute) Er) as (n & o & En & Ho).
  exists L, n, o. split; [done|]. split; [exact En|]. destruct o; [done|]. apply Ho.
Defined.

(** ** Parameters passed on *)

Definition term_okb (b : ExecIrBuilder) (t : Terminator) : bool :=
  bool_decide (length (targets t) = match kind t with TkReturn | TkReturnCode _ => 0%nat | TkBr => 1%nat | TkBrZ _ => 2%nat end) &&
  forallb (fun j => match arena_get (blocks b) (jump_target j) with
    | Some d => bool_decide (Forall2 (fun v p => is_Some (arena_get (ssa_values b) v) /\ arena_get (ssa_values b) v = arena_get (ssa_values b) p)
        (jump_parameters j) (parameters d))
    | None => false end) (targets t).

(** [op_ok], for the methods used below. *)
Definition op_okb (b : ExecIrBuilder) (op : BuilderOp) : bool :=
  match op with
  | OpCreateBlock | OpSwitchTo _ | OpAddSafepoint => true
  | OpIconst c => (0 <=? ibits c) && (ibits c <? 2 ^ bits (iwidth c))
  | OpTerminate t => term_okb b t
  | OpAddBlockParameterAt block _ =>
      bool_decide (block <> ENTRYPOINT) && forallb (fun d => bool_decide (block ∉ jump_target <$> targets (terminator d))) (blocks b)
  | _ => false
  end.

Lemma term_okb_ok b t : term_okb b t = true -> kind_shape t /\ Forall (jump_ok b) (targets t).
Proof.
  intros [Hk%bool_decide_eq_true Hj]%andb_true_iff. split; [exact Hk|]. rewrite forallb_forall in Hj. apply Forall_forall.
  intros j Hin%list_elem_of_In. specialize (Hj j Hin). unfold jump_ok. destruct (arena_get (blocks b) (jump_target j)) as [d|]; [|done].
  apply bool_decide_eq_true in Hj. exists d. split; [done|]. eapply Forall2_impl; [exact Hj|]. intros v p [[ty Hv] Hp].
  exists ty. unfold vty. by rewrite <- Hp.
Qed.

Lemma op_okb_ok b op : op_okb b op = true -> op_ok b op.
Proof.
  destruct op; try done; simpl.
  - apply term_okb_ok.
  - intros [Hb%bool_decide_eq_true Hf]%andb_true_iff. split; [done|]. split; [done|].
    intros k d Hd. by apply (forallb_arena _ _ _ _ Hf), bool_decide_eq_true in Hd.
  - intros [? ?]%andb_true_iff. split; [|done]. simpl. unfold const_ok, fits. lia.
Qed.

Fixpoint run_checked (ops : list BuilderOp) (b : ExecIrBuilder) : option ExecIrBuilder :=
  match ops with
  | [] => Some b
  | op :: ops =>
      if op_okb b op then match run_op Little sample_layout op b with Some (_, b) => run_checked ops b | None => None end else None
  end.

Lemma run_checked_constructed ops b b' :
  Constructed Little sample_layout b -> run_checked ops b = Some b' -> Constructed Little sample_layout b'.
Proof.
  revert b. induction ops as [|op ops IH]; intros b Hb; simpl; [by intros [= <-]|].
  destruct (op_okb b op) eqn:Hop; [|done]. destruct (run_op _ _ op b) as [[[] b1]|] eqn:E; [|done].
  apply IH. eapply constructed_op; [exact Hb|by apply op_okb_ok|exact E].
Qed.

(** A loop that exchanges 1 and 2 once, and returns the second. *)
Definition swap_ops : list BuilderOp :=
  let one := 7%positive in let two := 8%positive in let again := 9%positive in let stop := 10%positive in
  let a := 11%positive in let b := 12%positive in let c := 13%positive in
  let loop := 2%positive in let exit := 3%positive in
  [OpCreateBlock; OpCreateBlock; OpIconst (Const.unsigned W32 1); OpIconst (Const.unsigned W32 2); OpIconst (Const.unsigned W8 1);
   OpIconst (Const.unsigned W8 0); OpAddBlockParameterAt loop (IrInt W32); OpAddBlockParameterAt loop (IrInt W32);
   OpAddBlockParameterAt loop (IrInt W8); OpTerminate (Term.Br (mkJump [one; two; again] loop));
   OpSwitchTo loop; OpAddSafepoint; OpTerminate (Term.BrZ c (jump_to exit) (mkJump [b; a; stop] loop));
   OpSwitchTo exit; OpTerminate (Term.ReturnCode b)].

Definition swap_ir : ExecIrBuilder := match run_checked swap_ops (with_config 4) with Some b => b | None => with_config 4 end.

Definition swap_exec : ExecIr :=
  mkExecIr (ssa_values swap_ir) (blocks swap_ir) (all_stmts swap_ir) (stack_slots swap_ir) (signatures swap_ir)
    (default [] (topo_sort swap_ir)).

Definition swap_run := run_ir Little sample_layout sample_mmu 20 swap_ir (mkPoint ENTRYPOINT 0 (entry_env MaybeIdent.invalid) sample_world).
Definition swap_call (L : FunctionLowering (F := GccFunc)) :=
  call_gcc (gcc_func (gl_ctx L)) 40 (rep_bits <$> entry_values MaybeIdent.invalid) sample_world.

Lemma swap_run_exits : exists s, swap_run = Some (Exit 1 s).
Proof.
  assert (match swap_run with Some (Exit c _) => c =? 1 | _ => false end = true) as Hr by by vm_compute.
  destruct swap_run as [[|c s]|]; [done| |done]. apply Z.eqb_eq in Hr as ->. by exists s.
Qed.

Lemma swap_call_returns : exists L s, glower_function swap_exec Little gcc_helper GFn.empty = Some (Ok tt, L) /\ swap_call L = Some (GReturn 2 s).
Proof.
  assert (match glower_function swap_exec Little gcc_helper GFn.empty with Some (Ok tt, L) => returns 2 (swap_call L) | _ => false end = true)
    as Hg by by vm_compute.
  destruct (glower_function _ _ _ _) as [[[[]|] L]|]; [|done..]. exists L.
  destruct (swap_call L) as [[|z s]|]; [done| |done]. unfold returns in Hg. apply Z.eqb_eq in Hg as <-. by exists s.
Qed.

(** C40: Not so for a jump that passes a parameter of its target on: the assignments are
    made one after the other, so that a loop that exchanges its two parameters, which
    the builder's methods make, returns 2 as a C function where the IR returns 1. *)
Theorem passed_parameters_lost :
  exists L s s' n, Constructed Little sample_layout swap_ir /\ finished_from swap_exec swap_ir /\
    glower_function swap_exec Little gcc_helper GFn.empty = Some (Ok tt, L) /\
    run_ir Little sample_layout sample_mmu 20 swap_ir (mkPoint ENTRYPOINT 0 (entry_env MaybeIdent.invalid) sample_world) = Some (Exit 1 s) /\
    call_gcc (gcc_func (gl_ctx L)) n (rep_bits <$> entry_values MaybeIdent.invalid) sample_world = Some (GReturn 2 s').
Proof.
  assert (Constructed Little sample_layout swap_ir) as Hc.
  { unfold swap_ir. destruct (run_checked swap_ops (with_config 4)) as [b|] eqn:E; [|by vm_compute in E].
    eapply run_checked_constructed; [constructor|exact E]. }
  destruct swap_run_exits as [s Hs], swap_call_returns as (L & s' & El & Ec).
  exists L, s, s', 40%nat. split; [exact Hc|]. split; [by split; vm_compute|]. split; [exact El|]. split; [exact Hs|exact Ec].
Qed.
