(* ===== verification/GccPass.v ===== *)
(** * The halt-check pass leaves functions the GCC back end translates
    ([jit-compiler-core/src/ir/halt_check_pass.rs],
    [jit-compiler-core/src/compiler/gcc_backend.rs])

    Inserting a halt check keeps a function within what the theorem on the GCC back
    end is about, and adds no shift to its runs; so the two theorems compose. *)

From S2P Require Import Prelude Convert HaltReason MemTypes Fault Memops ObjectQueue Fabric PageTable IoMMU.
From S2P Require Import ExclusiveMonitor LookupCache MemAccess FfiSupport Arena Ir IrSem IrEmit IrLogic IrArith.
From S2P Require Import IrTyping IrBuilt IrBuilder IrRun IrRange.
From S2P Require Import Tarjan SccGraph HaltCheck HaltSplit HaltInv HaltSound HaltSim BlockOrder IrFinished.
From S2P Require Import BackEnd CheckKeeps.
From S2P Require Import Clif CraneliftLower CraneliftHost CraneliftSample CraneliftCorrect.
From S2P Require Import Gcc GccLower GccHost GccCode GccEmit GccStmt GccEffect GccFunc GccBlocks GccSim GccNew GccSample GccCorrect.
Local Open Scope Z_scope.
Local Open Scope emu_scope.

(** ** What a check keeps *)

Section Split.
Context (ir ir' : ExecIrBuilder) (b c : Block) (i : nat) (d : BlockData) (x : Stmt).
Context (Hco : compilable ir) (Hd : arena_get (blocks ir) b = Some d) (Hx : stmts d !! i = Some x)
  (HS : is_split ir ir' b c i d).

Abbreviation split_keeps := (split_keeps ir ir' b c i d HS).
Abbreviation split_stmt_inv := (split_stmt_inv ir ir' b c i d HS).
Abbreviation split_block_inv := (split_block_inv ir ir' b c i d HS).
Abbreviation split_extends := (split_extends ir ir' b c i d Hd HS).

(** The type of a value stays. *)
Lemma split_type v ty : vty ir v ty -> arena_get (ssa_values ir') v = arena_get (ssa_values ir) v.
Proof. intros Hv. pose proof (vty_mono split_keeps _ _ Hv). unfold vty in *. congruence. Qed.

Lemma split_stmt_gcc rv : stmt_typed ir rv -> gcc_stmt_ok ir rv = true -> gcc_stmt_ok ir' rv = true.
Proof.
  destruct rv; try done; simpl.
  - intros (ty & _ & Hv). by rewrite (split_type _ _ Hv).
  - intros [(wa & Ha) (wn & Hn)]. by rewrite (split_type _ _ Ha), (split_type _ _ Hn).
Qed.

Lemma split_jump_apart j : jump_apart ir j = true -> jump_apart ir' j = true.
Proof.
  unfold jump_apart. destruct (arena_get (blocks ir) (jump_target j)) as [dj|] eqn:Hj; [|done].
  destruct (ex_blocks _ _ split_extends _ _ Hj) as (dj' & -> & ->). done.
Qed.

Lemma split_term_gcc t : gcc_term_ok ir t = true -> gcc_term_ok ir' t = true.
Proof.
  unfold gcc_term_ok. rewrite !andb_true_iff, !forallb_forall. intros [Hj Hk]. split.
  - intros j Hin. by apply split_jump_apart, Hj.
  - destruct (kind t); try done. apply bool_decide_eq_true in Hk. apply bool_decide_eq_true. by apply (vty_mono split_keeps).
Qed.

(** Jumps without arguments assign nothing. *)
Lemma bare_jump_apart k dk : arena_get (blocks ir') k = Some dk -> jump_apart ir' (jump_to k) = true.
Proof. intros Hk. unfold jump_apart. simpl. by rewrite Hk. Qed.

(** A check keeps a function among those the theorem is about. *)
Lemma split_gcc :
  gcc_fn_ok ir = true -> arena_ok (ssa_values ir') -> gcc_fn_ok ir' = true.
Proof.
  unfold gcc_fn_ok, gcc_sizes_ok. rewrite !andb_true_iff. intros [[Hs Ht] [[[Hal Hsz] Hn] _]] Hv.
  destruct (sp_rest _ _ _ _ _ _ HS) as (_ & _ & -> & _). split_and!; [| |done..|by apply Z.leb_le].
  - apply forallb_arena_intro. intros y sd [Hy|(_ & v & [->| ->] & _)]%split_stmt_inv; [|done..].
    pose proof (forallb_arena _ _ _ _ Hs Hy) as H. unfold gcc_data_ok in *. apply andb_true_iff in H as [H ->].
    rewrite (split_stmt_gcc _ (proj1 (co_stmts _ Hco _ _ Hy)) H). done.
  - apply forallb_arena_intro. intros k dk [(-> & lv & h & v & El & _ & _ & _ & ->)|[(-> & ->)|[(_ & _ & Hk)|(_ & _ & h & v & _ & _ & _ & _ & Hv' & ->)]]]%split_block_inv.
    + destruct (sp_leave_ok _ _ _ _ _ _ HS lv El) as (_ & dl & ? & ? & Hdl & _). unfold gcc_term_ok. simpl.
      by rewrite (bare_jump_apart c _ (sp_cont _ _ _ _ _ _ HS)), (bare_jump_apart lv dl Hdl).
    + by apply split_term_gcc, (forallb_arena (fun d => gcc_term_ok ir (terminator d)) _ _ _ Ht Hd).
    + by apply split_term_gcc, (forallb_arena (fun d => gcc_term_ok ir (terminator d)) _ _ _ Ht Hk).
    + unfold gcc_term_ok. simpl. by apply bool_decide_eq_true.
Qed.
End Split.

(** The function part of the theorem on the back end, if the pass has had room. *)
Lemma checks_gcc ir ir' :
  rtc check_inserted ir ir' -> compilable ir -> gcc_fn_ok ir = true -> arena_ok (ssa_values ir') ->
  compilable ir' /\ gcc_fn_ok ir' = true.
Proof.
  intros HR Hco Hfn Hok.
  destruct (checks_keep (fun ir => arena_ok (ssa_values ir) -> gcc_fn_ok ir = true)) with (2 := HR) as [Hco' Hfn']; [|done..|by split; [|apply Hfn']].
  intros ir1 ir2 b c i d x Hco1 Hd Hx HS Hp Hv. apply (split_gcc ir1 ir2 b c i d Hco1 Hd HS); [|done]. apply Hp.
  destruct (sp_values _ _ _ _ _ _ HS) as (tl & E & _). unfold arena_ok in *. rewrite E, length_app in Hv. lia.
Qed.

(** The pass has had room for the values of its checks. *)
Lemma inserted_room ir org K G st : ir_wf ir -> Inv ir org K G st -> arena_ok (ssa_values (inserter_ir st)).
Proof.
  intros Hwf I. destruct (iv_room _ _ _ _ _ I) as (_ & Hv & _). destruct (wf_room _ Hwf) as (_ & Hr & _).
  assert (size K <= size (sp_set ir))%nat as Hk.
  { apply subseteq_size. intros y Hy. apply elem_of_sp_set. by eapply iv_checked. }
  unfold arena_ok. lia.
Qed.

(** An amount that fits where the shift is evaluated fits with more values bound. *)
Lemma amount_fits_mono {Error} e ly io_mmu (ρ ρ' : Env) rv (s : World (Error := Error)) r :
  eval_stmt e ly io_mmu ρ rv s = Some r -> ρ ⊆ ρ' -> amount_fits ρ rv = true -> amount_fits ρ' rv = true.
Proof.
  destruct rv; try done. cbn [eval_stmt amount_fits]. unfold sm_bind, lookup_value, sm_of_option. intros H Hs.
  destruct (ρ !! _) as [a|] eqn:Ea; [|done]. destruct (ρ !! shift) as [n|] eqn:En; [|done].
  by rewrite (lookup_weaken _ _ _ _ Ea Hs), (lookup_weaken _ _ _ _ En Hs).
Qed.

(** ** From the builder to C *)

Section Pipeline.
Context {F : Type} `{!GccContext F, !GccContextLaws F}.
Context {Error : Type} {e : Endian} {ly : Layout} {io_mmu : IoMMU} `{!GccHost Error} `{!GccHostLaws e ly io_mmu}.
Abbreviation World := (@World Error).

(** C4: From the builder's methods to the C function.  A function made by the
    builder's methods and finished, and within [gcc_fn_ok] (no negation of a boolean,
    shifts by amounts of the shifted type, codes of 32 bits, offsets and tag masks in
    the range of their fields, slots with a size, aligned to powers of two, no more
    slots and values than handles, two outputs apart from the operands, and no jump
    that passes on a parameter it has assigned), is described to libgccjit without a
    panic or an error once [build] has returned it.  If slots lie where their variables
    do ([placed]), the C function, called from a state of its widths ([world_ok]) along
    a run that shifts by less than the width ([shifts_fit]), comes without undefined
    behaviour to the state the function made comes to, with the same code, or, if a
    halt was requested on the way, it returned at that point with the requested code
    and with nothing else changed. *)
Theorem gcc_program_correct ir hash_order x (f : F) :
  Constructed e ly ir -> finished ir -> 0 < Ir.halt_check_every ir -> (forall s, hash_order s ≡ₚ elements s) ->
  gcc_fn_ok ir = true -> build hash_order ir = Some x ->
  exists L, glower_function x e gcc_helper f = Some (Ok tt, L) /\
    (placed (gl_slots L) -> forall ident (s : World) fuel o,
      let p := mkPoint ENTRYPOINT 0 (entry_env ident) s in
      let call n := call_gcc (gcc_func (gl_ctx L)) n (rep_bits <$> entry_values ident) s in
      world_ok s -> shifts_fit e ly io_mmu ir fuel p = true -> run_ir e ly io_mmu fuel ir p = Some o ->
      (exists n o', call n = Some o' /\ same_outcome o o') \/
      exists n q, halt_seen e ly io_mmu ir fuel p q /\ call n = Some (GReturn (halt_word (world q)) (set_halt_word 0 (world q)))).
Proof.
  intros Hb%constructed_built Hfin HN Hhash Hfn Hx. pose proof (built_wf ir Hb Hfin) as Hwf.
  assert (~ quiet_cycle ir) as Hq by (intros Hq; unfold build in Hx; by rewrite quiet_panics in Hx).
  destruct (pass_spec ir hash_order Hhash Hwf HN Hq) as (st & org & K & G & E & I & _).
  destruct (checks_gcc ir (inserter_ir st) (iv_path _ _ _ _ _ I) (built_compilable _ Hb) Hfn (inserted_room _ _ _ _ _ Hwf I)) as [Hco Hfn'].
  unfold build in Hx. rewrite E in Hx. cbn [mbind option_bind] in Hx. unfold optimize in Hx.
  destruct (topo_sort (inserter_ir st)) as [order|] eqn:Eo; [|done]. cbn [mbind option_bind] in Hx. injection Hx as <-.
  set (x := mkExecIr _ _ _ _ _ _). assert (finished_from x (inserter_ir st)) as Hx by by split.
  destruct (glower_finished (e := e) (ly := ly) (io_mmu := io_mmu) x (inserter_ir st) f Hco Hfn' Hx) as (L & dn & El & HP & Hall).
  exists L. split; [exact El|]. intros Hpl ident s fuel o p call Hw Hfit Hrun.
  pose proof (fun fuel o => call_simulated (inserter_ir st) Hco _ (finished_order x _ Hco Hx) L dn HP Hall Hpl ident fuel s o Hw) as Hcall.
  destruct (wf_entry _ Hwf) as [d Hd].
  pose proof (env_typed_below ir _ (entry_env_typed ir ident (fun a => arg_vty ir a Hb))) as Hbelow.
  pose proof (matches_start ir org K G st I ENTRYPOINT _ _ s d Hd ltac:(done) Hbelow) as Hm.
  destruct (run_matches_within e ly io_mmu ir Hwf (built_values ir Hb) org K G st I amount_fits ltac:(done) ltac:(done)
    (amount_fits_mono e ly io_mmu) fuel p p _ Hm Hfit Hrun) as [(n & o' & Wn & Er & Hsame)|(m & q & n & Hle & Hm' & Hh & Wn & Er)].
  - left. destruct (Hcall _ _ Wn Er) as (n' & o2 & En & Ho). exists n', o2. split; [done|].
    destruct Hsame as [q0 q Hq0|]; [|done]. destruct o2; [|done]. simpl in Ho |- *. rewrite Ho. symmetry. apply Hq0.
  - right. destruct (Hcall _ _ Wn Er) as (n' & o2 & En & Ho). destruct o2; [done|]. destruct Ho as [-> ->].
    exists n', q. split; [by exists m|done].
Qed.
End Pipeline.

(** ** A program, from the builder to C *)

#[local] Existing Instance demo_gcc_host.
#[local] Existing Instance demo_gcc_laws.

Lemma gcc_program_correct_witness :
  exists x L o, build elements demo_ir = Some x /\ glower_function x Little gcc_helper GFn.empty = Some (Ok tt, L) /\
    let p := mkPoint ENTRYPOINT 0 (entry_env MaybeIdent.invalid) sample_world in
    let call n := call_gcc (gcc_func (gl_ctx L)) n (rep_bits <$> entry_values MaybeIdent.invalid) sample_world in
    run_ir Little sample_layout sample_mmu 60 demo_ir p = Some o /\
    ((exists n o', call n = Some o' /\ same_outcome o o') \/
     exists n q, halt_seen Little sample_layout sample_mmu demo_ir 60 p q /\
       call n = Some (GReturn (halt_word (world q)) (set_halt_word 0 (world q)))).
Proof.
  assert (finished demo_ir) as Hf by (apply finished_check_ok; by vm_compute).
  destruct (build elements demo_ir) as [x|] eqn:Ex; [|by vm_compute in Ex].
  assert (match glower_function x Little gcc_helper GFn.empty with Some (_, L) => (length (gl_slots L) =? 1)%nat | None => false end = true)
    as Hl by (vm_compute in Ex; injection Ex as <-; by vm_compute).
  destruct (gcc_program_correct demo_ir elements x GFn.empty demo_constructed Hf ltac:(by vm_compute) ltac:(done) ltac:(by vm_compute) Ex)
    as (L & El & H). rewrite El in Hl. apply Nat.eqb_eq in Hl.
  destruct (run_ir Little sample_layout sample_mmu 60 demo_ir (mkPoint ENTRYPOINT 0 (entry_env MaybeIdent.invalid) sample_world))
    as [o|] eqn:Er; [|by vm_compute in Er].
  exists x, L, o. split; [done|]. split; [exact El|]. split; [exact Er|].
  apply (H (one_slot_placed _ Hl)); [apply sample_world_ok|by vm_compute|exact Er].
Defined.
